(* ===== verification/_CoqProject ===== *)
-Q . S2P
Prelude.v
MyMath.v
Sync.v
Types.v
Serialization.v
Wire.v
RingBuffer.v
Mailbox.v
ToolValue.v
Predicate.v
Affinity.v
ExecPlan.v
TrxStatus.v
RunningTrx.v
Coordinator.v
Rct.v
InputSet.v
Routing.v
Barrier.v
Validation.v
TrxStub.v
MvccList.v
MvccGc.v
GcTasks.v
GcGraph.v
GcInsert.v
GcFree.v
GcDag.v
CellPool.v
ValueStore.v
RowChain.v
PropertyRows.v
Topology.v
Forest.v
RowMemory.v
DataStorage.v
BarrierExperts.v
BarrierResults.v
IndexStore.v
IndexRange.v
StorageInv.v
StorageAbort.v
StorageSteps.v
Loading.v
StorageRun.v
StorageFindings.v
IndexTopo.v
Experts.v
WriteExperts.v
BranchFilter.v
Worker.v
WorkerResults.v
