(* ===== verification/Prelude.v ===== *)
(** * GTran: a verification development

    GTran is a distributed in-memory graph database with multi-version
    concurrency control.  Workers hold a partition of the graph and a partition
    of the table of transaction states; a query is a plan of steps whose
    intermediate results travel between workers as messages; a transaction
    reads versions, appends versions, validates against recent commits, and
    commits or aborts.  The sources are under src/; a range in a comment such
    as "layout/mvcc_list.tpp:212-268" names a file below src/ with the lines
    that the definition translates.

    ** Conventions

    The embedding is shallow.  Unsigned and signed integers of a width are
    integers with [wrap] and [swrap] written where the code converts or
    overflows.  Pointers into a pool, a heap or an array are natural numbers,
    memory is a [gmap] or a list, and a null pointer is [None].  Stateful code
    passes its state.  A result [None] of a function of the code is a failed
    CHECK or assert, an access outside of an array, or a value that the code
    leaves unset; theorems that a call succeeds say that none of these happens.
    (A release build compiles plain asserts away; the theorems then say that
    the asserts hold.)  What one lock protects is one step; threads interleave
    by steps.  A pointer that is written through after the call that returned
    it is a separate operation.

    ** The files

    Foundations.
    - [Prelude]: machine integers, congruence modulo a power of two as a setoid,
      lemmas on lists and options, hints.
    - [MyMath] (utils/mymath.hpp): hashing of integers and its inverse, weighted
      choice.
    - [Sync] (base/thread_safe_queue.hpp, utils/write_prior_rwlock,
      utils/tid_pool_manager.hpp): locks, queues and thread ids.
    - [Types] (base/type): packed ids of vertices, edges, properties and queries,
      their words, orders and validation words.
    - [Serialization] (base/serialization), [Wire] (core/message,
      core/exec_plan, expert/expert_object, layout/hdfs_data_loader): a serializer
      is a record of a writer, a reader and the law that reading undoes writing;
      values, plans, messages and loader records are built from such.
    - [ToolValue], [Predicate] (utils/tool.hpp, base/predicate): values from and
      to text, comparisons, predicates.

    Messages between workers.
    - [RingBuffer], [Mailbox] (core/rdma_mailbox, core/tcp_mailbox,
      core/buffer.hpp, utils/config.hpp): ring buffers whose words become visible
      in order, mailboxes with pending messages, the registered memory.
    - [Affinity] (base/core_affinity.hpp, base/cpuinfo_util): cores, threads of
      experts, steal lists.
    - [Routing] (core/message.cpp): routes, splitting data over workers and into
      messages, branches.

    Transactions.
    - [ExecPlan] (core/exec_plan, parts of core/parser.cpp): the schedule of the
      queries of a transaction.
    - [TrxStatus] (core/common.hpp, core/transaction_status_table): the slot of a
      transaction, the hash table with overflow buckets and its collection.
    - [RunningTrx] (core/running_trx_list), [Coordinator] (core/coordinator,
      utils/distributed_clock, core/id_mapper.hpp), [Rct] (core/RCT,
      layout/pmt_rct_table): running transactions, ids and timestamps, recent
      commits and actions.
    - [TrxStub] (core/trx_table_stub_rdma, core/trx_table_stub_zmq): states of transactions on other workers;
      the class [TrxTableStub] has the RDMA walk and the TCP request as instances.
    - [InputSet], [Validation] (expert/expert_validation_object,
      expert/validation_expert): recorded inputs, and the decision between commit
      and abort.

    Storage of the graph.
    - [MvccList] (layout/mvcc_definition, layout/mvcc_list): lists of versions;
      [MVCCItem] is the class of the item types.  [Forest]: many lists in one heap.
    - [CellPool], [ValueStore] (layout/concurrent_mem_pool,
      layout/mvcc_value_store): free lists, and values in chains of cells.
    - [RowChain], [PropertyRows], [Topology] (layout/property_row_list,
      layout/topology_row_list): rows of properties and of edges.  [RowMemory]
      joins rows with a memory of versions.
    - [DataStorage] (layout/data_storage): reads, modifications, commit and abort of
      a worker's partition.  [StorageInv], [StorageAbort], [StorageSteps] prove its
      invariant for commit, abort and every operation; [Loading] fills it;
      [StorageRun] has the runs of many transactions; [StorageFindings] runs on
      concrete data.
    - [IndexStore] (layout/index_store), with [IndexRange] (lookups by
      predicates) and [IndexTopo] (the index of vertices and its merges).

    Garbage collection.
    - [MvccGc] (layout/gc_producer.tpp): trimming a list of versions.
    - [GcTasks] (layout/gc_task.hpp, gc_producer.cpp, gc_consumer.cpp): tasks and
      their dependencies; [GcGraph], [GcInsert], [GcFree] and [GcDag] prove the
      invariant of the graph of tasks.

    Queries.
    - [Barrier] (expert/barrier_expert.tpp), [BarrierExperts]
      (expert/barrier_expert.cpp), [BarrierResults]: collecting the messages of a
      query, the eleven experts that do, and what they compute.
    - [Experts], [WriteExperts] (the files of expert/): the experts that read or
      transform data and those that change the graph, in a monad of state and
      failure over the record [node].
    - [BranchFilter] (expert/labelled_branch_expert.hpp): filters by sub queries.
    - [Worker] (core/experts_adapter.hpp, expert/terminate_expert,
      expert/config_expert.hpp, expert/validation_expert.cpp,
      expert/status_expert.cpp): the record [worker] holds the state of all
      experts; [execute] processes one message.  [WorkerResults] proves what runs
      of messages keep.

    ** What the theorems show

    Graph: after any run of transactions the storage refines a graph of committed
    values; commit and abort are atomic; uncommitted writes stay with their
    transaction; a list of versions implements its abstract history; snapshots are
    stable; a serializable read is never silently stale.  Rows have one cell per
    property under every interleaving, the pool and the value store never hand out
    a cell in use, and a stored value reads back.  The index of vertices returns
    exactly the visible ones, before and after merges; the property index, when its
    updates are merged, exactly the elements that satisfy the predicates.

    Transactions: a validated transaction has no conflict with a recent commit;
    votes of workers are combined correctly; queries run in the order of their
    dependencies and each transaction ends; the table of states is a map, also for
    a remote reader without a lock.  An ended transaction leaves no entry in the
    experts of a worker, and the client is answered when the last worker has ended.

    Messages: rings deliver every message once and in order; data that are split
    over messages arrive complete; a barrier waits for all of them, a filter of sub
    queries passes exactly the right values; dispatching and the steps of one
    message terminate.

    Collection: the graph of tasks stays consistent and drains.

    Some theorems show where the code does not do what it is used for: the
    trimming of a deleted edge, an edge whose properties outlive it, reads that
    validation overlooks, a failing check of the collector, and the index entry
    that a merge brings back.

    ** Fuel and bounds

    Walks along pointers take fuel and give [None] without it.  The fuel is a
    number that bounds every walk: the number of buckets plus one for a bucket
    chain (links grow), the size of the heap for a chain of versions (cells are
    distinct), the number of cells for the moving loop of a defragmentation (the
    index decreases), the length of a path for its counters, the amount of data
    plus one for filling messages, the number of experts plus one for the steps of
    a message.  Theorems prove that the results are there.  Waiting for another
    worker takes a number of readings as an argument.  Numeric bounds are those of
    the types or of checks in the code: 55 bits for a transaction counter, 8 bits
    for a worker in a timestamp, 30 branches of a filter.

    ** Not modelled

    Sockets, RDMA verbs, MPI, HDFS, the console and the configuration file are
    input and output of third-party libraries (base/communication, base/rdma,
    base/node_util, driver/client, driver/master, utils/hdfs_core).  The parser of
    one query line (core/parser.cpp) is a parameter of the plan: only the
    transaction around it is modelled.  The endless loops of threads and the
    sleeping in them are represented by their steps; a lock makes a step atomic,
    weak memory is modelled only where words of a message become visible over the
    network.  The arithmetic of the clock calibration is floating point on
    hardware counters.  Statistics, usage strings, progress lines and the
    generation of workloads are left out. *)
From stdpp Require Export base tactics numbers option list gmap sets sorting.
From Stdlib Require Export ZArith Lia ZifyNat Bool.

#[global] Set Default Goal Selector "!".

(** Linear arithmetic over [Z] with [/] and [mod] by constants. *)
#[global] Ltac Zify.zify_post_hook ::= Z.to_euclidean_division_equations.

(** ** Machine integers

    An integer of width [w] is a [Z]; [wrap w] is the conversion to the
    unsigned type of that width, [swrap w] to the signed (two's complement)
    one. *)
Definition wrap (w x : Z) : Z := (x mod 2 ^ w)%Z.
Definition swrap (w x : Z) : Z :=
  let y := wrap w x in if (y <? 2 ^ (w - 1))%Z then y else (y - 2 ^ w)%Z.

Declare Scope word_scope.
Delimit Scope word_scope with word.

Abbreviation u8 := (wrap 8).
Abbreviation u16 := (wrap 16).
Abbreviation u32 := (wrap 32).
Abbreviation u64 := (wrap 64).
Abbreviation i32 := (swrap 32).
Notation "x +64 y" := (wrap 64 (x + y)) (at level 50, left associativity) : word_scope.
Notation "x -64 y" := (wrap 64 (x - y)) (at level 50, left associativity) : word_scope.
Notation "x *64 y" := (wrap 64 (x * y)) (at level 40, left associativity) : word_scope.
Notation "x <<64 n" := (wrap 64 (Z.shiftl x n)) (at level 45, left associativity) : word_scope.
Notation "x >> n" := (Z.shiftr x n) (at level 45, left associativity) : word_scope.
Notation "x ^^ y" := (Z.lxor x y) (at level 48, left associativity) : word_scope.
Notation "~64 x" := (wrap 64 (Z.lnot x)) (at level 35, right associativity) : word_scope.

(** [x] fits an unsigned integer of [w] bits. *)
Definition fits (w x : Z) : Prop := (0 <= x < 2 ^ w)%Z.
Definition fitsb (w x : Z) : bool := ((0 <=? x) && (x <? 2 ^ w))%Z.

Create HintDb gtran.

Section Wrap.
Local Open Scope Z_scope.

Lemma wrap_fits w x : 0 <= w -> fits w (wrap w x).
Proof. intros. apply Z.mod_pos_bound. lia. Qed.

Lemma wrap_small w x : fits w x -> wrap w x = x.
Proof. apply Z.mod_small. Qed.

Lemma wrap_wrap w x : wrap w (wrap w x) = wrap w x.
Proof. apply Zmod_mod. Qed.

(** A narrowing conversion forgets an earlier, wider one. *)
Lemma wrap_wrap_le v w x : 0 <= v <= w -> wrap v (wrap w x) = wrap v x.
Proof.
  intros [Hv Hw]. unfold wrap.
  replace (2 ^ w) with (2 ^ v * 2 ^ (w - v))
    by (rewrite <- Z.pow_add_r by lia; f_equal; lia).
  rewrite Z.rem_mul_r by lia.
  by rewrite Z.mul_comm, Z_mod_plus_full, Zmod_mod.
Qed.

Lemma swrap_small w x : 0 < w -> - 2 ^ (w - 1) <= x < 2 ^ (w - 1) -> swrap w x = x.
Proof.
  intros Hw [H1 H2]. unfold swrap, wrap. cbv zeta.
  assert (2 ^ w = 2 * 2 ^ (w - 1)) as Hp
    by (rewrite <- Z.pow_succ_r by lia; f_equal; lia).
  destruct (decide (0 <= x)).
  - rewrite Z.mod_small by lia. by destruct (Z.ltb_spec x (2 ^ (w - 1))); [|lia].
  - replace (x mod 2 ^ w) with (x + 2 ^ w)
      by (apply Z.mod_unique with (-1); lia).
    destruct (Z.ltb_spec (x + 2 ^ w) (2 ^ (w - 1))); lia.
Qed.

(** Congruence modulo [2^w]: the equivalence under which every unsigned
    operation of width [w] is a ring operation. *)
Definition cong (w a b : Z) : Prop := wrap w a = wrap w b.

#[global] Instance cong_equiv w : Equivalence (cong w).
Proof. split; unfold cong; repeat intro; congruence. Qed.
#[global] Instance cong_add w : Proper (cong w ==> cong w ==> cong w) Z.add.
Proof.
  unfold cong, wrap. intros a b E c d F.
  by rewrite (Zplus_mod a), (Zplus_mod b), E, F.
Qed.
#[global] Instance cong_sub w : Proper (cong w ==> cong w ==> cong w) Z.sub.
Proof. unfold cong, wrap. intros a b E c d F. by rewrite (Zminus_mod a), (Zminus_mod b), E, F. Qed.
#[global] Instance cong_mul w : Proper (cong w ==> cong w ==> cong w) Z.mul.
Proof. unfold cong, wrap. intros a b E c d F. by rewrite (Zmult_mod a), (Zmult_mod b), E, F. Qed.
#[global] Instance cong_opp w : Proper (cong w ==> cong w) Z.opp.
Proof. intros a b E. rewrite <- !Z.sub_0_l. by rewrite E. Qed.

Lemma wrap_cong w a : cong w (wrap w a) a.
Proof. apply wrap_wrap. Qed.

(** Integers that differ by a multiple of [2^w] are congruent. *)
Lemma cong_plus w q a b : a = b + q * 2 ^ w -> cong w a b.
Proof. intros ->. apply Z_mod_plus_full. Qed.

Lemma lnot_sub x : Z.lnot x = - x - 1.
Proof. unfold Z.lnot. lia. Qed.

(** A right shift of an unsigned word is again such a word. *)
Lemma fits_shiftr w x n : 0 <= n -> fits w x -> fits w (Z.shiftr x n).
Proof.
  intros Hn [H1 H2]. rewrite Z.shiftr_div_pow2 by done. split.
  - apply Z.div_pos; lia.
  - apply Z.le_lt_trans with x; [|done]. apply Z.div_le_upper_bound; nia.
Qed.

Lemma fits_lt_log2 w x : 0 <= w -> fits w x <-> 0 <= x /\ (x = 0 \/ Z.log2 x < w).
Proof.
  intros Hw. unfold fits. split.
  - intros [H1 H2]. split; [done|]. destruct (decide (x = 0)); [by left|right].
    apply Z.log2_lt_pow2; lia.
  - intros [H1 [->|H2]]; [lia|].
    destruct (decide (x = 0)) as [->|]; [lia|].
    split; [done|]. apply Z.log2_lt_pow2; lia.
Qed.

Lemma fits_lxor w x y : 0 <= w -> fits w x -> fits w y -> fits w (Z.lxor x y).
Proof.
  intros Hw Hx Hy. apply fits_lt_log2; [done|].
  pose proof (proj2 (Z.lxor_nonneg x y)) as Hnn.
  destruct Hx as [Hx1 Hx2], Hy as [Hy1 Hy2]. split; [apply Hnn; lia|].
  destruct (decide (Z.lxor x y = 0)) as [|Hne]; [by left|right].
  destruct (decide (x = 0)) as [->|], (decide (y = 0)) as [->|];
    rewrite ?Z.lxor_0_l, ?Z.lxor_0_r in *; try done; try (apply Z.log2_lt_pow2; lia).
  eapply Z.le_lt_trans; [by apply Z.log2_lxor|].
  apply Z.max_lub_lt; apply Z.log2_lt_pow2; lia.
Qed.

Lemma fitsb_true w x : fitsb w x = true <-> fits w x.
Proof. unfold fits, fitsb. rewrite andb_true_iff. lia. Qed.

#[global] Instance fits_dec w x : Decision (fits w x).
Proof. unfold fits. apply _. Defined.

End Wrap.

#[export] Hint Resolve wrap_fits fits_shiftr fits_lxor : gtran.

(** ** Lists *)

Section Lists.
Context {A : Type} (P : A -> Prop) `{!forall x, Decision (P x)}.

Lemma filter_all (l : list A) : Forall P l -> filter P l = l.
Proof. induction 1 as [|x l Hx _ IH]; [done|]. by rewrite filter_cons_True, IH. Qed.

Lemma filter_none (l : list A) : Forall (fun x => ~ P x) l -> filter P l = [].
Proof. induction 1 as [|x l Hx _ IH]; [done|]. by rewrite filter_cons_False, IH. Qed.
End Lists.

(** [wrap_solve q]: an equation between two words, by erasing the inner
    wraps and showing that what is left differs by [q] times the modulus. *)
Ltac wrap_solve q :=
  rewrite ?lnot_sub, ?Z.shiftl_mul_pow2 by lia;
  match goal with |- wrap ?w ?a = wrap ?w ?b => change (cong w a b) end;
  repeat setoid_rewrite wrap_cong; apply (cong_plus _ q); lia.

(** Closed-width word arithmetic by linear arithmetic. *)
Ltac word_lia :=
  unfold fits, wrap, swrap in *;
  rewrite ?Z.shiftl_mul_pow2, ?Z.shiftr_div_pow2 in * by lia;
  repeat match goal with |- context [Z.pow 2 ?n] =>
    let v := eval vm_compute in (Z.pow 2 n) in change (Z.pow 2 n) with v end;
  repeat match goal with H : context [Z.pow 2 ?n] |- _ =>
    let v := eval vm_compute in (Z.pow 2 n) in change (Z.pow 2 n) with v in H end;
  lia.
