(* ===== verification/MyMath.v ===== *)
(** * utils/mymath.hpp

    The integer hash functions of the key-value structures and the weighted
    choice of the clients.  [hash_u64] is shown to be a bijection on 64-bit
    words whose inverse is the code's [inverse_hash_u64]. *)
From S2P Require Import Prelude.
Local Open Scope Z_scope.
Local Open Scope word_scope.

(** [mymath::hash_u64] (utils/mymath.hpp:45-54): one line per assignment of the source. *)
Definition hash_u64 (key : Z) : Z :=
  let key := ~64 key +64 (key <<64 21) in
  let key := key ^^ (key >> 24) in
  let key := (key +64 (key <<64 3)) +64 (key <<64 8) in
  let key := key ^^ (key >> 14) in
  let key := (key +64 (key <<64 2)) +64 (key <<64 4) in
  let key := key ^^ (key >> 28) in
  key +64 (key <<64 31).

(** [mymath::inverse_hash_u64] (utils/mymath.hpp:56-90). *)
Definition inverse_hash_u64 (key : Z) : Z :=
  let tmp := key -64 (key <<64 31) in
  let key := key -64 (tmp <<64 31) in
  let tmp := key ^^ (key >> 28) in
  let key := key ^^ (tmp >> 28) in
  let key := key *64 14933078535860113213 in
  let tmp := key ^^ (key >> 14) in
  let tmp := key ^^ (tmp >> 14) in
  let tmp := key ^^ (tmp >> 14) in
  let key := key ^^ (tmp >> 14) in
  let key := key *64 15244667743933553977 in
  let tmp := key ^^ (key >> 24) in
  let key := key ^^ (tmp >> 24) in
  let tmp := ~64 key in
  let tmp := ~64 (key -64 (tmp <<64 21)) in
  let tmp := ~64 (key -64 (tmp <<64 21)) in
  ~64 (key -64 (tmp <<64 21)).

(** [mymath::get_distribution], first loop (utils/mymath.hpp:24-26). *)
Definition sum_int (distribution : list Z) : Z :=
  fold_left (fun sum d => i32 (sum + d)) distribution 0.

(** [mymath::get_distribution], second loop (utils/mymath.hpp:30-35);
    [None] is the [assert(false)]. *)
Fixpoint pick (r i : Z) (distribution : list Z) : option Z :=
  match distribution with
  | [] => None
  | d :: ds => if r <? d then Some i else pick (i32 (r - d)) (i + 1) ds
  end.

(** [mymath::get_distribution] (utils/mymath.hpp:23-36). *)
Definition get_distribution (r : Z) (distribution : list Z) : option Z :=
  let sum := sum_int distribution in
  if 0 <? sum then pick (Z.rem r sum) 0 distribution else None.

(** [mymath::hash_mod] (utils/mymath.hpp:38-42): the [int] divisor is converted to [uint64_t] by the
    usual arithmetic conversions, the result to [int]. *)
Definition hash_mod (n m : Z) : option Z :=
  if m =? 0 then None else Some (i32 (n mod u64 m)).

Definition hash_primes : list Z :=
  [1610612741; 805306457; 402653189; 201326611; 100663319; 50331653; 25165843;
   12582917; 6291469; 3145739; 1572869; 786433; 393241; 196613; 98317].

(** [mymath::hash_prime_u64] (utils/mymath.hpp:92-116), without its messages
    on the console. *)
Definition hash_prime_u64 (upper : Z) : Z :=
  if 2 ^ 31 <=? upper then upper
  else match List.find (fun p => p <=? upper) hash_primes with
       | Some p => p
       | None => upper
       end.

Definition kMul : Z := 0x9ddfea08eb382d69.
(** [mymath::hash_u128_to_u64] (utils/mymath.hpp:119-128). *)
Definition hash_u128_to_u64 (high low : Z) : Z :=
  let a := (low ^^ high) *64 kMul in
  let a := a ^^ (a >> 47) in
  let b := (high ^^ a) *64 kMul in
  let b := b ^^ (b >> 47) in
  b *64 kMul.

(** [mymath::hash_combine(size_t&, uint64_t)] (utils/mymath.hpp:134-136). *)
Definition hash_combine_u64 (seed v : Z) : Z :=
  seed ^^ (((v +64 0x9e3779b9) +64 (seed <<64 6)) +64 (seed >> 2)).
(** [mymath::hash_combine(size_t&, int)] (utils/mymath.hpp:130-132): [v] is
    added to the [unsigned] constant first, at 32 bits. *)
Definition hash_combine_int (seed v : Z) : Z :=
  seed ^^ ((u32 (v + 0x9e3779b9) +64 (seed <<64 6)) +64 (seed >> 2)).

(** ** The stages of the hash and their inverses *)

Lemma unxorshift_step x n k :
  0 <= n -> 0 <= k ->
  (x ^^ (x >> n)) ^^ ((x ^^ (x >> k)) >> n) = x ^^ (x >> (k + n)).
Proof.
  intros Hn Hk. rewrite Z.shiftr_lxor, Z.shiftr_shiftr by lia.
  rewrite Z.lxor_assoc. f_equal.
  by rewrite <- Z.lxor_assoc, Z.lxor_nilpotent, Z.lxor_0_l.
Qed.

Lemma xorshift_out x n : fits 64 x -> 64 <= n -> x ^^ (x >> n) = x.
Proof.
  intros [H1 H2] Hn. rewrite Z.shiftr_div_pow2 by lia.
  rewrite Z.div_small; [apply Z.lxor_0_r|].
  split; [done|]. eapply Z.lt_le_trans; [done|]. apply Z.pow_le_mono_r; lia.
Qed.

Lemma xorshift_fits x n : 0 <= n -> fits 64 x -> fits 64 (x ^^ (x >> n)).
Proof. intros. apply fits_lxor; [lia|done|]. by apply fits_shiftr. Qed.

Lemma unshift31 x : fits 64 x ->
  let y := x +64 (x <<64 31) in y -64 ((y -64 (y <<64 31)) <<64 31) = x.
Proof.
  intros Hx. cbv zeta. transitivity (wrap 64 x); [|by apply wrap_small].
  wrap_solve (x * 2 ^ 29).
Qed.

Lemma unmul21 x : fits 64 x ->
  ((x +64 (x <<64 2)) +64 (x <<64 4)) *64 14933078535860113213 = x.
Proof.
  intros Hx. transitivity (wrap 64 x); [|by apply wrap_small].
  wrap_solve (x * 17).
Qed.

Lemma unmul265 x : fits 64 x ->
  ((x +64 (x <<64 3)) +64 (x <<64 8)) *64 15244667743933553977 = x.
Proof.
  intros Hx. transitivity (wrap 64 x); [|by apply wrap_small].
  wrap_solve (x * 219).
Qed.

Lemma unnot21 x : fits 64 x ->
  let y := ~64 x +64 (x <<64 21) in
  ~64 (y -64 ((~64 (y -64 ((~64 (y -64 ((~64 y) <<64 21))) <<64 21))) <<64 21)) = x.
Proof.
  intros Hx. cbv zeta. transitivity (wrap 64 x); [|by apply wrap_small].
  wrap_solve (- x * 2 ^ 20).
Qed.

Lemma inverse_hash_hash k : fits 64 k -> inverse_hash_u64 (hash_u64 k) = k.
Proof.
  intros Hk. unfold hash_u64.
  set (k1 := ~64 k +64 (k <<64 21)).
  assert (fits 64 k1) as H1 by (apply wrap_fits; lia).
  set (k2 := k1 ^^ (k1 >> 24)).
  assert (fits 64 k2) as H2 by (apply xorshift_fits; [lia|done]).
  set (k3 := (k2 +64 (k2 <<64 3)) +64 (k2 <<64 8)).
  assert (fits 64 k3) as H3 by (apply wrap_fits; lia).
  set (k4 := k3 ^^ (k3 >> 14)).
  assert (fits 64 k4) as H4 by (apply xorshift_fits; [lia|done]).
  set (k5 := (k4 +64 (k4 <<64 2)) +64 (k4 <<64 4)).
  assert (fits 64 k5) as H5 by (apply wrap_fits; lia).
  set (k6 := k5 ^^ (k5 >> 28)).
  assert (fits 64 k6) as H6 by (apply xorshift_fits; [lia|done]).
  unfold inverse_hash_u64. cbv zeta.
  rewrite (unshift31 k6 H6).
  unfold k6. rewrite !unxorshift_step, xorshift_out by (lia || done).
  unfold k5. rewrite (unmul21 k4 H4).
  unfold k4. rewrite !unxorshift_step, xorshift_out by (lia || done).
  unfold k3. rewrite (unmul265 k2 H2).
  unfold k2. rewrite !unxorshift_step, xorshift_out by (lia || done).
  exact (unnot21 k Hk).
Qed.

(** The converse direction: a fixed number of the code's [tmp] assignments
    inverts the xor-shift from the other side. *)
Lemma xorshift_unstep y t n m :
  0 <= n -> 0 <= m -> t ^^ (t >> n) = y ^^ (y >> m) ->
  (y ^^ (t >> n)) ^^ ((y ^^ (t >> n)) >> n) = y ^^ (y >> (m + n)).
Proof.
  intros Hn Hm Ht. rewrite Z.shiftr_lxor, <- Z.lxor_assoc, (Z.lxor_assoc y).
  rewrite (Z.lxor_comm (t >> n)), <- Z.lxor_assoc, Z.lxor_assoc.
  rewrite <- Z.shiftr_lxor, Ht, Z.shiftr_lxor, Z.shiftr_shiftr by done.
  by rewrite Z.lxor_assoc, <- (Z.lxor_assoc (y >> n)), Z.lxor_nilpotent, Z.lxor_0_l.
Qed.

Lemma rexorshift2 y n : 0 <= n -> 64 <= n + n + n -> fits 64 y ->
  let x := y ^^ ((y ^^ (y >> n)) >> n) in x ^^ (x >> n) = y.
Proof.
  intros Hn H3 Hy x. unfold x.
  rewrite (xorshift_unstep _ _ n (n + n)); [|lia..|].
  - apply xorshift_out; [done|lia].
  - by apply xorshift_unstep.
Qed.

Lemma rexorshift4 y n : 0 <= n -> 64 <= n + n + n + n + n -> fits 64 y ->
  let t := y ^^ ((y ^^ (y >> n)) >> n) in
  let x := y ^^ ((y ^^ (t >> n)) >> n) in x ^^ (x >> n) = y.
Proof.
  intros Hn H3 Hy t x. unfold x, t.
  rewrite (xorshift_unstep _ _ n (n + n + n + n)); [|lia..|].
  - apply xorshift_out; [done|lia].
  - do 3 (apply xorshift_unstep; [lia..|]). done.
Qed.

Lemma reshift31 y : fits 64 y ->
  let x := y -64 ((y -64 (y <<64 31)) <<64 31) in x +64 (x <<64 31) = y.
Proof.
  intros Hx. cbv zeta. transitivity (wrap 64 y); [|by apply wrap_small].
  wrap_solve (y * 2 ^ 29).
Qed.

Lemma remul21 y : fits 64 y ->
  let x := y *64 14933078535860113213 in (x +64 (x <<64 2)) +64 (x <<64 4) = y.
Proof.
  intros Hx. cbv zeta. transitivity (wrap 64 y); [|by apply wrap_small].
  wrap_solve (y * 17).
Qed.

Lemma remul265 y : fits 64 y ->
  let x := y *64 15244667743933553977 in (x +64 (x <<64 3)) +64 (x <<64 8) = y.
Proof.
  intros Hx. cbv zeta. transitivity (wrap 64 y); [|by apply wrap_small].
  wrap_solve (y * 219).
Qed.

Lemma renot21 y : fits 64 y ->
  let x := ~64 (y -64 ((~64 (y -64 ((~64 (y -64 ((~64 y) <<64 21))) <<64 21))) <<64 21)) in
  ~64 x +64 (x <<64 21) = y.
Proof.
  intros Hx. cbv zeta. transitivity (wrap 64 y); [|by apply wrap_small].
  wrap_solve (- (y + 1) * 2 ^ 20).
Qed.

Lemma hash_inverse_hash k : fits 64 k -> hash_u64 (inverse_hash_u64 k) = k.
Proof.
  intros Hk. unfold inverse_hash_u64.
  set (k1 := k -64 ((k -64 (k <<64 31)) <<64 31)).
  assert (fits 64 k1) as H1 by (apply wrap_fits; lia).
  set (k2 := k1 ^^ ((k1 ^^ (k1 >> 28)) >> 28)).
  assert (fits 64 k2) as H2 by (apply fits_lxor; auto using fits_shiftr, xorshift_fits with lia).
  set (k3 := k2 *64 14933078535860113213).
  assert (fits 64 k3) as H3 by (apply wrap_fits; lia).
  set (t1 := k3 ^^ (k3 >> 14)). set (t2 := k3 ^^ (t1 >> 14)).
  set (t3 := k3 ^^ (t2 >> 14)). set (k4 := k3 ^^ (t3 >> 14)).
  assert (fits 64 k4) as H4
    by (repeat first [apply fits_lxor | apply fits_shiftr]; (lia || done)).
  set (k5 := k4 *64 15244667743933553977).
  assert (fits 64 k5) as H5 by (apply wrap_fits; lia).
  set (k6 := k5 ^^ ((k5 ^^ (k5 >> 24)) >> 24)).
  assert (fits 64 k6) as H6 by (apply fits_lxor; auto using fits_shiftr, xorshift_fits with lia).
  unfold hash_u64. cbv zeta. rewrite (renot21 k6 H6).
  unfold k6. rewrite (rexorshift2 k5 24) by (lia || done).
  unfold k5. rewrite (remul265 k4 H4).
  unfold k4, t3, t2, t1. rewrite (rexorshift4 k3 14) by (lia || done).
  unfold k3. rewrite (remul21 k2 H2).
  unfold k2. rewrite (rexorshift2 k1 28) by (lia || done).
  exact (reshift31 k Hk).
Qed.

(** ** The weighted choice *)

Lemma sum_int_exact ds acc :
  0 <= acc -> Forall (fun d => 0 <= d) ds -> acc + foldr Z.add 0 ds < 2 ^ 31 ->
  fold_left (fun sum d => i32 (sum + d)) ds acc = acc + foldr Z.add 0 ds.
Proof.
  intros Hacc Hds. revert acc Hacc.
  induction Hds as [|d ds Hd Hds IH]; cbn; intros acc Hacc Hlt; [lia|].
  assert (0 <= foldr Z.add 0 ds) by (clear - Hds; induction Hds; cbn; lia).
  rewrite swrap_small by lia.
  rewrite IH; lia.
Qed.

Lemma pick_spec ds r i :
  Forall (fun d => 0 <= d) ds -> 0 <= r < foldr Z.add 0 ds -> foldr Z.add 0 ds < 2 ^ 31 ->
  exists j d, pick r i ds = Some (i + Z.of_nat j) /\ ds !! j = Some d /\
     foldr Z.add 0 (take j ds) <= r < foldr Z.add 0 (take j ds) + d.
Proof.
  intros Hds. revert r i. induction Hds as [|d ds Hd Hds IH]; cbn; intros r i Hr Hlt; [lia|].
  assert (0 <= foldr Z.add 0 ds) by (clear - Hds; induction Hds; cbn; lia).
  destruct (Z.ltb_spec r d).
  - exists 0%nat, d. cbn. split; [f_equal; lia|]. split; [done|lia].
  - rewrite swrap_small by lia.
    destruct (IH (r - d) (i + 1)) as (j & d' & Hp & Hj & Hb); [lia..|].
    exists (S j), d'. cbn. rewrite Hp. split; [f_equal; lia|]. split; [done|lia].
Qed.

(** TomasWang's 64-bit hash is a bijection of the 64-bit words: the
    routine [inverse_hash_u64] undoes [hash_u64] and [hash_u64] undoes it, so
    two distinct keys never collide before the reduction modulo a table size. *)
Theorem hash_u64_bijective k :
  fits 64 k ->
  inverse_hash_u64 (hash_u64 k) = k /\ hash_u64 (inverse_hash_u64 k) = k /\
   fits 64 (hash_u64 k) /\ fits 64 (inverse_hash_u64 k).
Proof.
  intros Hk. split; [by apply inverse_hash_hash|]. split; [by apply hash_inverse_hash|].
  split; apply wrap_fits; lia.
Qed.

Lemma hash_u64_bijective_witness :
  inverse_hash_u64 (hash_u64 0xFEDCBA9876543210) = 0xFEDCBA9876543210.
Proof. apply (hash_u64_bijective 0xFEDCBA9876543210). vm_compute. split; congruence. Defined.

(** The weighted choice of [get_distribution] returns the index whose
    cumulative-weight interval contains [r mod sum]; with a positive total it
    never reaches the [assert(false)] after the loop. *)
Theorem get_distribution_interval r ds :
  0 <= r -> Forall (fun d => 0 <= d) ds -> 0 < foldr Z.add 0 ds < 2 ^ 31 ->
  exists j d, get_distribution r ds = Some (Z.of_nat j) /\ ds !! j = Some d /\
     foldr Z.add 0 (take j ds) <= r mod foldr Z.add 0 ds
      < foldr Z.add 0 (take j ds) + d.
Proof.
  intros Hr Hds Hsum. unfold get_distribution, sum_int.
  rewrite sum_int_exact; [|lia|done|lia]. rewrite Z.add_0_l.
  destruct (Z.ltb_spec 0 (foldr Z.add 0 ds)); [|lia].
  rewrite Z.rem_mod_nonneg by lia.
  destruct (pick_spec ds (r mod foldr Z.add 0 ds) 0) as (j & d & ? & ? & ?);
    [done|apply Z.mod_pos_bound; lia|lia|]. by exists j, d.
Qed.

Lemma get_distribution_interval_witness :
  exists j d, get_distribution 25 [3; 0; 4; 5] = Some (Z.of_nat j) /\
     [3; 0; 4; 5] !! j = Some d /\ 0 < d.
Proof.
  destruct (get_distribution_interval 25 [3; 0; 4; 5]) as (j & d & ? & ? & ?);
    [lia|by repeat constructor|cbn; lia|]. exists j, d. split; [done|]. split; [done|lia].
Defined.
