(* ===== verification/Sync.v ===== *)
(** * Locks, queues and thread ids
    (utils/write_prior_rwlock, base/thread_safe_queue.hpp,
    utils/tid_pool_manager.hpp)

    The readers-writer lock wraps a POSIX lock of the kind that prefers writers.
    The model of the POSIX lock follows its documentation: a reader waits for
    the writer and for writers that wait, a writer waits for all holders.  The
    wrappers make the POSIX calls inside of [assert], so that a build with
    [NDEBUG] has no calls; the parameter [ndebug] of the model is that
    setting. *)
From S2P Require Import Prelude.
Local Open Scope nat_scope.

(** ** The lock *)

(** The POSIX lock: readers that hold it, whether a writer holds it, and the
    writers that wait. *)
Record rwlock := mk_rwlock { rw_readers : nat; rw_writer : bool; rw_waiting : nat }.
Definition rw_init : rwlock := mk_rwlock 0 false 0.

(** [pthread_rwlock_rdlock], or [None] while it blocks. *)
Definition rdlock (l : rwlock) : option rwlock :=
  if negb (rw_writer l) && (rw_waiting l =? 0) then Some (mk_rwlock (S (rw_readers l)) false 0) else None.
(** A writer that blocks is counted, and takes the lock when nobody holds it. *)
Definition wrlock_wait (l : rwlock) : rwlock := mk_rwlock (rw_readers l) (rw_writer l) (S (rw_waiting l)).
Definition wrlock (l : rwlock) : option rwlock :=
  if negb (rw_writer l) && (rw_readers l =? 0) then Some (mk_rwlock 0 true (rw_waiting l - 1)) else None.
(** [pthread_rwlock_unlock]; without a holder it fails. *)
Definition unlock (l : rwlock) : option rwlock :=
  if rw_writer l then Some (mk_rwlock (rw_readers l) false (rw_waiting l))
  else match rw_readers l with O => None | S n => Some (mk_rwlock n false (rw_waiting l)) end.

Section Lock.
Context (ndebug : bool).

(** [WritePriorRWLock::GetReadLock] (utils/write_prior_rwlock.cpp:28-30). *)
Definition GetReadLock (l : rwlock) : option rwlock := if ndebug then Some l else rdlock l.
(** [WritePriorRWLock::GetWriteLock] (utils/write_prior_rwlock.cpp:32-34), from
    the request to the return. *)
Definition RequestWriteLock (l : rwlock) : rwlock := if ndebug then l else wrlock_wait l.
Definition GetWriteLock (l : rwlock) : option rwlock := if ndebug then Some l else wrlock l.
(** [WritePriorRWLock::ReleaseLock] (utils/write_prior_rwlock.cpp:36-38). *)
Definition ReleaseLock (l : rwlock) : option rwlock := if ndebug then Some l else unlock l.

(** [RWLockGuard] and its two specialisations
    (utils/write_prior_rwlock.hpp:46-80): whether the lock was released. *)
Record guard := mk_guard { g_unlocked : bool }.
(** [RWLockGuard::Unlock] (utils/write_prior_rwlock.cpp:90-96), also the
    destructor. *)
Definition Unlock (g : guard) (l : rwlock) : option (guard * rwlock) :=
  if g_unlocked g then Some (g, l) else l' ← ReleaseLock l; Some (mk_guard true, l').

(** A thread uses a guard: it may ask for the lock, hold it, release it early by
    [Unlock], and ends the scope with the destructor. *)
Inductive phase := PIdle | PWantWrite | PRead (g : guard) | PWrite (g : guard).

Definition holds (p : phase) : Prop :=
  match p with PRead g | PWrite g => g_unlocked g = false | _ => False end.
Definition writes (p : phase) : Prop := match p with PWrite g => g_unlocked g = false | _ => False end.

(** The steps of the threads: [ps] has the phase of each thread. *)
Inductive lock_step : rwlock * list phase -> rwlock * list phase -> Prop :=
  | LkRead l ps i l' : ps !! i = Some PIdle -> GetReadLock l = Some l' ->
      lock_step (l, ps) (l', <[i := PRead (mk_guard false)]> ps)
  | LkWant l ps i : ps !! i = Some PIdle -> lock_step (l, ps) (RequestWriteLock l, <[i := PWantWrite]> ps)
  | LkWrite l ps i l' : ps !! i = Some PWantWrite -> GetWriteLock l = Some l' ->
      lock_step (l, ps) (l', <[i := PWrite (mk_guard false)]> ps)
  | LkUnlockR l ps i g g' l' : ps !! i = Some (PRead g) -> Unlock g l = Some (g', l') ->
      lock_step (l, ps) (l', <[i := PRead g']> ps)
  | LkUnlockW l ps i g g' l' : ps !! i = Some (PWrite g) -> Unlock g l = Some (g', l') ->
      lock_step (l, ps) (l', <[i := PWrite g']> ps)
  | LkEndR l ps i g g' l' : ps !! i = Some (PRead g) -> Unlock g l = Some (g', l') ->
      lock_step (l, ps) (l', <[i := PIdle]> ps)
  | LkEndW l ps i g g' l' : ps !! i = Some (PWrite g) -> Unlock g l = Some (g', l') ->
      lock_step (l, ps) (l', <[i := PIdle]> ps).
End Lock.

(** ** The queue *)
Section Queue.
Context {T : Type}.

(** [ThreadSafeQueue::Push] (base/thread_safe_queue.hpp:34-39). *)
Definition Push (q : list T) (x : T) : list T := q ++ [x].
(** [ThreadSafeQueue::WaitAndPop] (base/thread_safe_queue.hpp:41-46): [None]
    while it waits. *)
Definition WaitAndPop (q : list T) : option (T * list T) := match q with x :: r => Some (x, r) | [] => None end.
(** [ThreadSafeQueue::Size] (base/thread_safe_queue.hpp:48-51). *)
Definition Size (q : list T) : nat := length q.
End Queue.

(** ** Thread ids *)

(** [TidPoolManager::TidManager] (utils/tid_pool_manager.hpp:34-40), by
    [pthread_t]. *)
Record TidManager := mk_tids { tid_map : gmap nat Z; tid_to_assign : Z }.
Definition tids_init : TidManager := mk_tids ∅ 0.
(** [TidManager::Register] (utils/tid_pool_manager.hpp:42-51) by thread [self]. *)
Definition Register (m : TidManager) (self : nat) (tid : Z) : TidManager :=
  if (tid =? -1)%Z then mk_tids (<[self := tid_to_assign m]> (tid_map m)) (i32 (tid_to_assign m + 1))
  else mk_tids (<[self := tid]> (tid_map m)) (tid_to_assign m).
(** [TidManager::GetTid] (utils/tid_pool_manager.hpp:53-57). *)
Definition GetTid (m : TidManager) (self : nat) : option Z := tid_map m !! self.

(** The threads that use the memory pools, in the order of their registrations:
    the main thread and the expert threads name their ids, the consumers of
    garbage collection take the next ones. *)
Inductive pool_thread := ThMain | ThExpert (i : nat) | ThGc (i : nat).
Section Startup.
Context (num_threads num_gc_consumer : nat) (pthread : pool_thread -> nat).
(** The container id each thread asks for: [Worker::Start]
    (driver/worker.hpp:1007-1007). *)
Definition main_tid : Z := Z.of_nat num_threads + 0.
(** [ExpertAdapter::ThreadExecutor] (core/experts_adapter.hpp:245-246). *)
Definition expert_tid (i : nat) : Z := Z.of_nat i.
(** [GCConsumer::Execute] (layout/gc_consumer.cpp:42-43): the default argument. *)
Definition gc_tid : Z := -1.
Definition asked_tid (t : pool_thread) : Z :=
  match t with ThMain => main_tid | ThExpert i => expert_tid i | ThGc _ => gc_tid end.
Definition pool_threads : list pool_thread :=
  ThMain :: (ThExpert <$> seq 0 num_threads) ++ (ThGc <$> seq 0 num_gc_consumer).
(** The table of ids after the threads registered in some order. *)
Definition register_all (ts : list pool_thread) : TidManager :=
  fold_left (fun m t => Register m (pthread t) (asked_tid t)) ts tids_init.
End Startup.

(** ** Exclusion *)
Section Exclusion.

Definition readb (p : phase) : nat := match p with PRead (mk_guard false) => 1 | _ => 0 end.
Definition writeb (p : phase) : nat := match p with PWrite (mk_guard false) => 1 | _ => 0 end.
Definition wantb (p : phase) : nat := match p with PWantWrite => 1 | _ => 0 end.
Fixpoint total (f : phase -> nat) (ps : list phase) : nat :=
  match ps with [] => 0 | p :: r => f p + total f r end.

Lemma total_insert f ps i p q : ps !! i = Some p -> total f (<[i := q]> ps) + f p = total f ps + f q.
Proof.
  revert i. induction ps as [|r ps IH]; intros [|i] H; simplify_eq/=; [lia|].
  specialize (IH _ H). lia.
Qed.
Lemma total_ge f ps i p : ps !! i = Some p -> f p <= total f ps.
Proof. revert i. induction ps; intros [|i] H; simplify_eq/=; [lia|]. etrans; [by eapply IHps|lia]. Qed.
Lemma total_ge_2 f ps i j p q : i <> j -> ps !! i = Some p -> ps !! j = Some q -> f p + f q <= total f ps.
Proof.
  revert i j. induction ps as [|r ps IH]; intros [|i] [|j] N Hp Hq; simplify_eq/=.
  - pose proof (total_ge f _ _ _ Hq). lia.
  - pose proof (total_ge f _ _ _ Hp). lia.
  - assert (i <> j) as N' by lia. specialize (IH _ _ N' Hp Hq). lia.
Qed.
Lemma total_pos f ps : 0 < total f ps -> exists i p, ps !! i = Some p /\ 0 < f p.
Proof.
  induction ps as [|r ps IH]; simpl; [lia|]. intros H. destruct (f r) eqn:E.
  - destruct IH as (i & p & ? & ?); [lia|]. by exists (S i), p.
  - exists 0, r. split; [done|lia].
Qed.

(** The lock counts its holders and the writers that wait, and a writer holds it
    alone. *)
Record lock_ok (s : rwlock * list phase) : Prop := {
  lk_readers : total readb s.2 = rw_readers s.1;
  lk_writer : total writeb s.2 = if rw_writer s.1 then 1 else 0;
  lk_waiting : total wantb s.2 = rw_waiting s.1;
  lk_alone : rw_writer s.1 = true -> rw_readers s.1 = 0 }.

Lemma lock_ok_init n : lock_ok (rw_init, replicate n PIdle).
Proof.
  assert (forall f, f PIdle = 0 -> total f (replicate n PIdle) = 0) as H.
  { intros f F. induction n; simpl; lia. }
  by split; simpl; try apply H.
Qed.

(** What the phase change of one thread does to the three counts. *)
Ltac counts H q := pose proof (total_insert readb _ _ _ q H); pose proof (total_insert writeb _ _ _ q H);
  pose proof (total_insert wantb _ _ _ q H); pose proof (total_ge readb _ _ _ H);
  pose proof (total_ge writeb _ _ _ H); pose proof (total_ge wantb _ _ _ H).
Ltac lock_case := repeat match goal with
  | g : guard |- _ => destruct g as [[]]
  | H : context [if ?b then _ else _] |- _ => destruct b eqn:?
  | H : context [match ?n with O => _ | S _ => _ end] |- _ => destruct n eqn:?
  | H : andb _ _ = true |- _ => apply andb_true_iff in H as [??]
  end; simplify_eq/=.

Lemma unlock_guard_ok l g g' l' : Unlock false g l = Some (g', l') ->
  g_unlocked g' = true /\ (if g_unlocked g then l' = l else unlock l = Some l').
Proof.
  unfold Unlock, ReleaseLock. destruct g as [[]]; cbn; [by intros [= <- <-]|].
  destruct (unlock l); simpl; [by intros [= <- <-]|done].
Qed.

Lemma lock_ok_step s s' : lock_step false s s' -> lock_ok s -> lock_ok s'.
Proof.
  intros St [R W Q A]. inversion St as [l ps i l' Hi G|l ps i Hi|l ps i l' Hi G|l ps i g g' l' Hi G
    |l ps i g g' l' Hi G|l ps i g g' l' Hi G|l ps i g g' l' Hi G]; subst; simpl in *.
  1: counts Hi (PRead (mk_guard false)). 2: counts Hi PWantWrite. 3: counts Hi (PWrite (mk_guard false)).
  4: counts Hi (PRead g'). 5: counts Hi (PWrite g'). 6, 7: counts Hi PIdle.
  4-7: apply unlock_guard_ok in G as [G' G]; destruct g as [[]], g' as [[]]; simplify_eq/=.
  all: try solve [split; simpl; lia || done].
  all: unfold GetReadLock, rdlock, GetWriteLock, wrlock, unlock in *; destruct l as [r w q]; simpl in *;
    destruct w; simpl in *; try done; try (specialize (A eq_refl)); try lia.
  all: lock_case; rewrite ?Nat.eqb_eq in *; split; simpl; done || lia.
Qed.

Lemma lock_ok_run s s' : rtc (lock_step false) s s' -> lock_ok s -> lock_ok s'.
Proof. induction 1; eauto using lock_ok_step. Qed.

Lemma writes_writeb p : writes p <-> writeb p = 1.
Proof. by destruct p as [| | |[[]]]. Qed.
Lemma holds_counts p : holds p <-> readb p + writeb p = 1.
Proof. by destruct p as [| |[[]]|[[]]]. Qed.

(** C36: mutual exclusion of the readers-writer lock in a build that keeps its
    asserts: in every state that threads using guards reach, while one thread
    holds the lock for writing no other thread holds it, for reading or for
    writing. *)
Theorem rwlock_excludes n l ps i j p q :
  rtc (lock_step false) (rw_init, replicate n PIdle) (l, ps) ->
  i <> j -> ps !! i = Some p -> ps !! j = Some q -> writes p -> ~ holds q.
Proof.
  intros Run N Hp Hq Wp%writes_writeb Hold%holds_counts.
  destruct (lock_ok_run _ _ Run (lock_ok_init n)) as [R W _ A]. simpl in *.
  pose proof (total_ge_2 writeb _ _ _ _ _ N Hp Hq). pose proof (total_ge readb _ _ _ Hq).
  destruct (rw_writer l); [specialize (A eq_refl)|]; lia.
Qed.

Lemma rwlock_excludes_witness : writes (PWrite (mk_guard false)) /\ ~ holds PIdle.
Proof.
  split; [done|].
  apply (rwlock_excludes 2 (mk_rwlock 0 true 0) [PWrite (mk_guard false); PIdle] 0 1 (PWrite (mk_guard false)) PIdle);
    [|done..].
  eapply rtc_l; [by eapply (LkWant false _ _ 0)|]. eapply rtc_l; [by eapply (LkWrite false _ _ 0)|]. apply rtc_refl.
Defined.

(** ** Progress *)

(** The threads that hold the lock; each may end its scope. *)
Definition holders (ps : list phase) : nat := total (fun p => readb p + writeb p) ps.
Lemma holders_sum ps : holders ps = total readb ps + total writeb ps.
Proof. unfold holders. induction ps; simpl; lia. Qed.

Lemma holder_ends l ps i p : lock_ok (l, ps) -> ps !! i = Some p -> holds p ->
  exists l', lock_step false (l, ps) (l', <[i := PIdle]> ps).
Proof.
  intros [R W _ A] Hi Hold. simpl in *.
  assert (is_Some (unlock l)) as [l' Hl].
  { unfold unlock. destruct (rw_writer l) eqn:Hw; [by eexists|]. apply holds_counts in Hold.
    pose proof (total_ge readb _ _ _ Hi). pose proof (total_ge writeb _ _ _ Hi).
    destruct (rw_readers l); [lia|by eexists]. }
  exists l'. destruct p as [| |[[]]|[[]]]; try done; [eapply LkEndR|eapply LkEndW]; try done;
    unfold Unlock, ReleaseLock; simpl; by rewrite Hl.
Qed.

Lemma drain_holders n l ps i : holders ps = n -> lock_ok (l, ps) -> ps !! i = Some PWantWrite ->
  exists l' ps', rtc (lock_step false) (l, ps) (l', ps') /\ holders ps' = 0 /\ ps' !! i = Some PWantWrite.
Proof.
  revert l ps. induction n as [|n IH]; intros l ps Hn Ok Hi; [by exists l, ps|].
  destruct (total_pos (fun p => readb p + writeb p) ps) as (j & p & Hj & Hp); [unfold holders in Hn; lia|].
  assert (holds p) as Hold by (apply holds_counts; destruct p as [| |[[]]|[[]]]; simpl in *; lia).
  destruct (holder_ends _ _ _ _ Ok Hj Hold) as [l' St].
  destruct (IH l' (<[j := PIdle]> ps)) as (l2 & ps2 & Run & ? & ?).
  - pose proof (total_insert (fun p => readb p + writeb p) _ _ _ PIdle Hj) as T. unfold holders in *.
    apply holds_counts in Hold. simpl in *. lia.
  - by eapply lock_ok_step.
  - rewrite list_lookup_insert_ne; [done|]. intros ->. by simplify_eq.
  - exists l2, ps2. split_and!; [by eapply rtc_l|done..].
Qed.

(** A writer that waits is served: in every state that threads using guards
    reach, while a thread waits for the lock to write no thread can begin to
    read, and whoever holds the lock can end its scope until the writer holds
    it.  So the lock cannot deadlock and a writer waits only for those that
    held the lock, or asked to write, before. *)
Theorem rwlock_writer_progress n l ps i :
  rtc (lock_step false) (rw_init, replicate n PIdle) (l, ps) ->
  ps !! i = Some PWantWrite ->
  GetReadLock false l = None /\
  exists l' ps', rtc (lock_step false) (l, ps) (l', ps') /\ ps' !! i = Some (PWrite (mk_guard false)).
Proof.
  intros Run Hi. pose proof (lock_ok_run _ _ Run (lock_ok_init n)) as Ok. split.
  - destruct Ok as [_ _ Q _]. pose proof (total_ge wantb _ _ _ Hi). simpl in *. unfold GetReadLock, rdlock.
    destruct (Nat.eqb_spec (rw_waiting l) 0); [lia|]. by rewrite andb_false_r.
  - destruct (drain_holders _ _ _ _ eq_refl Ok Hi) as (l1 & ps1 & Run1 & Hz & Hi1).
    rewrite holders_sum in Hz. destruct (lock_ok_run _ _ Run1 Ok) as [R W _ _]. simpl in *.
    eexists _, _. split; [eapply rtc_r; [exact Run1|eapply (LkWrite false _ _ i); [done|]]|].
    + unfold GetWriteLock, wrlock. destruct (rw_writer l1); [lia|]. by replace (rw_readers l1) with 0 by lia.
    + apply list_lookup_insert_eq. by eapply lookup_lt_Some.
Qed.

Lemma rwlock_writer_progress_witness :
  GetReadLock false (mk_rwlock 1 false 1) = None /\
  exists l' ps', rtc (lock_step false) (mk_rwlock 1 false 1, [PRead (mk_guard false); PWantWrite]) (l', ps') /\
    ps' !! 1 = Some (PWrite (mk_guard false)).
Proof.
  apply (rwlock_writer_progress 2 (mk_rwlock 1 false 1) [PRead (mk_guard false); PWantWrite] 1); [|done].
  eapply rtc_l; [by eapply (LkRead false _ _ 0)|]. eapply rtc_l; [by eapply (LkWant false _ _ 1)|]. apply rtc_refl.
Defined.

(** The build the project configures defines [NDEBUG], and then two threads
    can hold the lock for writing at the same time. *)
Theorem rwlock_release_build : exists l ps i j p q,
  rtc (lock_step true) (rw_init, replicate 2 PIdle) (l, ps) /\
  i <> j /\ ps !! i = Some p /\ ps !! j = Some q /\ writes p /\ writes q.
Proof.
  exists rw_init, [PWrite (mk_guard false); PWrite (mk_guard false)], 0, 1,
    (PWrite (mk_guard false)), (PWrite (mk_guard false)). split; [|done].
  eapply rtc_l; [by eapply (LkWant true _ _ 0)|]. eapply rtc_l; [by eapply (LkWrite true _ _ 0)|].
  eapply rtc_l; [by eapply (LkWant true _ _ 1)|]. eapply rtc_l; [by eapply (LkWrite true _ _ 1)|]. apply rtc_refl.
Qed.
End Exclusion.

(** ** First in, first out *)
Section Fifo.
Context {T : Type}.
Inductive queue_op := QPush (x : T) | QPop.
(** One operation that takes effect, with what it returns. *)
Definition queue_step (q : list T) (o : queue_op) : list T * option T :=
  match o with QPush x => (Push q x, None)
  | QPop => match WaitAndPop q with Some (x, q') => (q', Some x) | None => (q, None) end end.
Fixpoint queue_run (q : list T) (os : list queue_op) : list T * list T :=
  match os with [] => (q, [])
  | o :: r => let '(q', x) := queue_step q o in let '(q2, xs) := queue_run q' r in (q2, option_list x ++ xs) end.
Definition pushed (os : list queue_op) : list T :=
  omap (fun o => match o with QPush x => Some x | QPop => None end) os.

(** What consumers receive followed by what is left is what producers pushed, in
    the order of the pushes. *)
Lemma queue_fifo q os : let '(q', xs) := queue_run q os in xs ++ q' = q ++ pushed os.
Proof.
  revert q. induction os as [|[x|] os IH]; intros q; simpl; [by rewrite app_nil_r|..].
  - specialize (IH (Push q x)). destruct (queue_run _ _). simpl. rewrite IH. unfold Push. by rewrite <- app_assoc.
  - destruct q as [|y q]; simpl.
    + specialize (IH []). by destruct (queue_run _ _).
    + specialize (IH q). destruct (queue_run _ _). simpl. by rewrite IH.
Qed.
End Fifo.

(** ** The ids of the threads *)
Section Tids.
Context (num_threads : nat) (pthread : pool_thread -> nat).
Context (pthread_inj : Inj (=) (=) pthread).
#[local] Abbreviation reg := (fun m t => Register m (pthread t) (asked_tid num_threads t)).

Lemma register_other m t ts : t ∉ ts ->
  tid_map (fold_left reg ts m) !! pthread t = tid_map m !! pthread t.
Proof.
  revert m. induction ts as [|u ts IH]; intros m N; [done|]. apply not_elem_of_cons in N as [N Ns]. simpl.
  rewrite IH by done. unfold Register. case_match; simpl; by rewrite lookup_insert_ne by (intros ?%pthread_inj; congruence).
Qed.

Lemma expert_registered m i ts : NoDup ts -> ThExpert i ∈ ts ->
  GetTid (fold_left reg ts m) (pthread (ThExpert i)) = Some (Z.of_nat i).
Proof.
  intros ND (l1 & l2 & ->)%list_elem_of_split. apply NoDup_app in ND as (_ & _ & [N _]%NoDup_cons).
  rewrite fold_left_app. simpl. unfold GetTid. rewrite register_other by done.
  unfold Register. simpl. destruct (Z.eqb_spec (expert_tid i) (-1)) as [E|_]; [unfold expert_tid in E; lia|].
  simpl. by rewrite lookup_insert_eq.
Qed.

Definition is_gc (t : pool_thread) : bool := match t with ThGc _ => true | _ => false end.
Lemma next_tid m ts : Forall (fun t => is_gc t = false) ts -> tid_to_assign (fold_left reg ts m) = tid_to_assign m.
Proof.
  intros F. revert m. induction F as [|t ts Ht _ IH]; intros m; [done|]. simpl. rewrite IH. unfold Register.
  destruct t as [|i|i]; try done; simpl; case_match eqn:E; try done;
    apply Z.eqb_eq in E; unfold main_tid, expert_tid in E; lia.
Qed.

(** The first consumer of garbage collection that registers is given 0. *)
Lemma first_gc ts : NoDup ts -> (exists j, ThGc j ∈ ts) ->
  exists j, ThGc j ∈ ts /\ GetTid (fold_left reg ts tids_init) (pthread (ThGc j)) = Some 0%Z.
Proof.
  intros ND [j Hj]. destruct (list_find (fun t => is_gc t = true) ts) as [[k t]|] eqn:F.
  - apply list_find_Some in F as (Hk & Gc & Before). destruct t as [| |j']; try done. exists j'.
    split; [by eapply list_elem_of_lookup_2|]. rewrite <- (take_drop_middle _ _ _ Hk) in ND |- *.
    apply NoDup_app in ND as (_ & _ & [N _]%NoDup_cons).
    rewrite fold_left_app. simpl. unfold GetTid. rewrite register_other by done. unfold Register at 1.
    simpl. rewrite lookup_insert_eq, next_tid; [done|]. apply Forall_lookup. intros n u Hu.
    pose proof Hu as L%lookup_lt_Some. rewrite length_take in L.
    rewrite lookup_take_lt in Hu by lia. specialize (Before _ _ Hu ltac:(lia)). by destruct (is_gc u).
  - apply list_find_None in F. rewrite Forall_forall in F. by destruct (F _ Hj).
Qed.
End Tids.

(** The threads that allocate from the pools do not get ids of their own:
    in whatever order the expert threads and the consumers of garbage
    collection register, some consumer has the id of an expert thread, so that
    both work on the same thread-local block, although the pools are made with
    a block for each. *)
Theorem gc_tid_collides num_threads num_gc_consumer (pthread : pool_thread -> nat) ts :
  Inj (=) (=) pthread -> 1 <= num_threads -> 1 <= num_gc_consumer ->
  ts ≡ₚ pool_threads num_threads num_gc_consumer ->
  exists i j, let m := register_all num_threads pthread ts in
    ThGc j ∈ ts /\ ThExpert i ∈ ts /\ is_Some (GetTid m (pthread (ThGc j))) /\
    GetTid m (pthread (ThGc j)) = GetTid m (pthread (ThExpert i)).
Proof.
  intros Inj Ht Hg P. assert (NoDup ts) as ND.
  { rewrite P. apply NoDup_cons. split; [intros [[]%list_elem_of_fmap|[]%list_elem_of_fmap]%elem_of_app; naive_solver|].
    apply NoDup_app. split_and!; try (apply NoDup_fmap_2; [by intros ?? [=]|apply NoDup_seq]).
    intros x (? & -> & _)%list_elem_of_fmap (? & ? & _)%list_elem_of_fmap. done. }
  destruct (first_gc num_threads pthread Inj ts ND) as (j & Hj & Tj).
  { exists 0. rewrite P. apply list_elem_of_further, elem_of_app. right. apply list_elem_of_fmap_2, elem_of_seq. lia. }
  assert (ThExpert 0 ∈ ts) as H0.
  { rewrite P. apply list_elem_of_further, elem_of_app. left. apply list_elem_of_fmap_2, elem_of_seq. lia. }
  exists 0, j. simpl. unfold register_all. rewrite Tj. split_and!; [done..|].
  by rewrite (expert_registered _ _ Inj).
Qed.
Lemma gc_tid_collides_witness :
  let th := fun t => match t with ThMain => 0 | ThExpert i => S (2 * i) | ThGc i => S (S (2 * i)) end in
  exists i j, let m := register_all 2 th (pool_threads 2 1) in
    ThGc j ∈ pool_threads 2 1 /\ ThExpert i ∈ pool_threads 2 1 /\ is_Some (GetTid m (th (ThGc j))) /\
    GetTid m (th (ThGc j)) = GetTid m (th (ThExpert i)).
Proof.
  apply (gc_tid_collides 2 1); [|lia|lia|done]. intros [|i|i] [|j|j] E; try done; f_equal; lia.
Defined.
