(* ===== verification/Types.v ===== *)
(** * base/type.hpp, base/type.cpp: identifiers and their word encodings

    The packed identifiers of the store (vertex, edge and property ids, the
    pointers of the key-value store, query ids), the keys of the expert tables
    and the enumerations that the other components return.  A bit-field member
    is a [Z]; storing into it wraps at the width of the field.  Reading a
    bit-field narrower than [int] in an expression promotes it to [int], so
    [eid.dst_v << VID_BITS] is computed at 32 bits: the decoders below keep
    that conversion.  The [assert]s of the constructors (no key is truncated)
    are the [*_wf] predicates. *)
From S2P Require Import Prelude MyMath.
Local Open Scope Z_scope.
Local Open Scope word_scope.

(** ** Enumerations *)

(** [TRX_STAT] (base/type.hpp:53-53). *)
Inductive TRX_STAT := PROCESSING | VALIDATING | ABORT | COMMITTED.

(** [READ_STAT] (base/type.hpp:55-55). *)
Inductive READ_STAT := READ_ABORT | READ_NOTFOUND | READ_SUCCESS.

(** [PROCESS_STAT] (base/type.hpp:57-77). *)
Inductive PROCESS_STAT :=
  | PS_SUCCESS
  | PS_ABORT
  | ABORT_DROP_V_GET_CONN_E
  | ABORT_DROP_V_APPEND
  | ABORT_ADD_E_INVISIBLE_V
  | ABORT_ADD_E_APPEND
  | ABORT_ADD_E_SAME_VID
  | ABORT_DROP_E_APPEND
  | ABORT_MODIFY_VP_INVISIBLE_V
  | ABORT_MODIFY_VP_APPEND
  | ABORT_MODIFY_EP_EITEM
  | ABORT_MODIFY_EP_DELETED_E
  | ABORT_MODIFY_EP_MODIFY
  | ABORT_DROP_VP_INVISIBLE_V
  | ABORT_DROP_VP_DROP
  | ABORT_DROP_EP_EITEM
  | ABORT_DROP_EP_DELETED_E
  | ABORT_DROP_EP_DROP
  | ABORT_MULTIPLE_TRX_ADD_SAME_EDGE.

(** [ISOLATION_LEVEL] (base/type.hpp:87-90). *)
Inductive ISOLATION_LEVEL := SNAPSHOT | SERIALIZABLE.

#[global] Instance TRX_STAT_eq_dec : EqDecision TRX_STAT.
Proof. solve_decision. Defined.
#[global] Instance READ_STAT_eq_dec : EqDecision READ_STAT.
Proof. solve_decision. Defined.
#[global] Instance PROCESS_STAT_eq_dec : EqDecision PROCESS_STAT.
Proof. solve_decision. Defined.
#[global] Instance ISOLATION_LEVEL_eq_dec : EqDecision ISOLATION_LEVEL.
Proof. solve_decision. Defined.

(** ** Widths and masks *)

Definition NBITS_SIZE : Z := 28.
Definition NBITS_PTR : Z := 36.
(** [VID_BITS, EID_BITS, PID_BITS] (base/type.hpp:187-189). *)
Definition VID_BITS : Z := 26.
Definition EID_BITS : Z := VID_BITS * 2.
Definition PID_BITS : Z := 64 - EID_BITS.
Definition QID_BITS : Z := 8.
Definition TRX_ID_MASK : Z := 0x8000000000000000.
Definition flag_56H : Z := 0xFFFFFFFFFFFFFF00.
Definition flag_28L : Z := 0xFFFFFFF.
Definition flag_8L : Z := 0xFF.

(** ** Identifiers *)

(** [ptr_t] (base/type.hpp:119-147). *)
Record ptr_t := mk_ptr { ptr_size : Z; ptr_off : Z }.
(** [ikey_t] (base/type.hpp:159-179). *)
Record ikey_t := mk_ikey { ikey_pid : Z; ikey_ptr : ptr_t }.
(** [vid_t] (base/type.hpp:192-225). *)
Record vid_t := mk_vid { vid_vid : Z }.
(** [eid_t] (base/type.hpp:250-285). *)
Record eid_t := mk_eid { dst_v : Z; src_v : Z }.
(** [vpid_t] (base/type.hpp:312-350). *)
Record vpid_t := mk_vpid { vp_vid : Z; vp_pid : Z }.
(** [epid_t] (base/type.hpp:364-409). *)
Record epid_t := mk_epid { ep_dst_vid : Z; ep_src_vid : Z; ep_pid : Z }.
(** [qid_t] (base/type.hpp:556-573). *)
Record qid_t := mk_qid { q_trxid : Z; q_id : Z }.
(** [mkey_t] (base/type.hpp:578-583). *)
Record mkey_t := mk_mkey { mk_q : Z; mk_mid : Z; mk_index : Z }.
(** [agg_t] (base/type.hpp:625-633). *)
Record agg_t := mk_agg { agg_trxid : Z; agg_label_key : Z }.

(** [value_t] (base/type.hpp:424-437); a [char] of the content is kept as its
    byte. *)
Record value_t := mk_value { v_type : Z; v_content : list Z; v_empty : bool }.
(** [value_t::value_t] (base/type.hpp:430-432); [type] is not initialised by
    the constructor and stands for 0 here. *)
Definition value_default : value_t := mk_value 0 [] true.
(** [kv_pair] (base/type.hpp:467-471). *)
Record kv_pair := mk_kv { kv_key : Z; kv_value : value_t }.
(** [vp_list] (base/type.hpp:477-480). *)
Record vp_list := mk_vplist { vpl_vid : vid_t; vpl_pkeys : list Z }.

#[global] Instance value_t_eq_dec : EqDecision value_t.
Proof. solve_decision. Defined.
#[global] Instance ptr_t_eq_dec : EqDecision ptr_t.
Proof. solve_decision. Defined.
#[global] Instance ikey_t_eq_dec : EqDecision ikey_t.
Proof. solve_decision. Defined.
#[global] Instance vid_t_eq_dec : EqDecision vid_t.
Proof. solve_decision. Defined.
#[global] Instance eid_t_eq_dec : EqDecision eid_t.
Proof. solve_decision. Defined.
#[global] Instance vpid_t_eq_dec : EqDecision vpid_t.
Proof. solve_decision. Defined.
#[global] Instance epid_t_eq_dec : EqDecision epid_t.
Proof. solve_decision. Defined.
#[global] Instance qid_t_eq_dec : EqDecision qid_t.
Proof. solve_decision. Defined.
#[global] Instance mkey_t_eq_dec : EqDecision mkey_t.
Proof. solve_decision. Defined.
#[global] Instance agg_t_eq_dec : EqDecision agg_t.
Proof. solve_decision. Defined.

(** [vid_t(int)] and [operator=(int)] (base/type.hpp:195-207). *)
Definition vid_of_int (i : Z) : vid_t := mk_vid (wrap VID_BITS i).
(** [eid_t(int, int)] (base/type.hpp:256-258). *)
Definition eid_of_ints (d s : Z) : eid_t := mk_eid (wrap VID_BITS d) (wrap VID_BITS s).
(** [vpid_t(vid_t, int)] (base/type.hpp:322-325). *)
Definition vpid_of (v : vid_t) (pid : Z) : vpid_t :=
  mk_vpid (wrap VID_BITS (vid_vid v)) (wrap PID_BITS pid).
(** [epid_t(eid_t, int)] (base/type.hpp:371-375). *)
Definition epid_of (e : eid_t) (pid : Z) : epid_t :=
  mk_epid (wrap VID_BITS (dst_v e)) (wrap VID_BITS (src_v e)) (wrap PID_BITS pid).
(** [agg_t(uint64_t, int)] (base/type.hpp:631-633). *)
Definition agg_of (qid_value label_key : Z) : agg_t :=
  mk_agg (Z.land qid_value flag_56H) (u8 label_key).

(** ** Encoders and decoders *)

(** [ptr_t2uint] (base/type.cpp:61-67). *)
Definition ptr_t2uint (p : ptr_t) : Z :=
  let r := 0 +64 ptr_off p in let r := r <<64 NBITS_SIZE in r +64 ptr_size p.
(** [uint2ptr_t] (base/type.cpp:69-72). *)
Definition uint2ptr_t (v : Z) : ptr_t :=
  mk_ptr (wrap NBITS_SIZE (Z.land v flag_28L)) (wrap NBITS_PTR (v >> NBITS_SIZE)).

(** [vid_t2uint] (base/type.cpp:113-116). *)
Definition vid_t2uint (v : vid_t) : Z := u32 (vid_vid v).
(** [uint2vid_t] (base/type.cpp:118-120). *)
Definition uint2vid_t (v : Z) : vid_t := mk_vid (wrap VID_BITS v).

(** [eid_t2uint] (base/type.cpp:142-148). *)
Definition eid_t2uint (e : eid_t) : Z :=
  let r := 0 +64 dst_v e in let r := r <<64 VID_BITS in r +64 src_v e.
(** [uint2eid_t] (base/type.cpp:150-153). *)
Definition uint2eid_t (v : Z) : eid_t :=
  let d := wrap VID_BITS (v >> VID_BITS) in
  mk_eid d (wrap VID_BITS (v -64 i32 (Z.shiftl d VID_BITS))).

(** [vpid_t2uint] (base/type.cpp:175-182). *)
Definition vpid_t2uint (p : vpid_t) : Z :=
  let r := 0 +64 vp_vid p in
  let r := r <<64 VID_BITS in
  let r := r <<64 PID_BITS in r +64 vp_pid p.
(** [uint2vpid_t] (base/type.cpp:184-187). *)
Definition uint2vpid_t (v : Z) : vpid_t :=
  let i := wrap VID_BITS ((v >> PID_BITS) >> VID_BITS) in
  mk_vpid i (wrap PID_BITS (v -64 i32 (Z.shiftl (i32 (Z.shiftl i PID_BITS)) VID_BITS))).

(** [epid_t2uint] (base/type.cpp:209-217). *)
Definition epid_t2uint (p : epid_t) : Z :=
  let r := 0 +64 ep_dst_vid p in
  let r := r <<64 VID_BITS in
  let r := r +64 ep_src_vid p in
  let r := r <<64 PID_BITS in r +64 ep_pid p.
(** [uint2epid_t] (base/type.cpp:219-223). *)
Definition uint2epid_t (v : Z) : epid_t :=
  let d := wrap VID_BITS ((v >> PID_BITS) >> VID_BITS) in
  let s := wrap VID_BITS ((v >> PID_BITS) -64 i32 (Z.shiftl d VID_BITS)) in
  mk_epid d s (wrap PID_BITS (v -64 ((v >> PID_BITS) <<64 PID_BITS))).

(** [qid_t::value] (base/type.hpp:570-572). *)
Definition qid_value (q : qid_t) : Z := q_trxid q +64 q_id q.
(** [uint2qid_t] (base/type.cpp:316-319). *)
Definition uint2qid_t (v : Z) : qid_t :=
  mk_qid (Z.land v flag_56H) (u8 (Z.land v flag_8L)).

(** [agg_t::value] (base/type.hpp:642-644). *)
Definition agg_value (a : agg_t) : Z := agg_trxid a +64 agg_label_key a.

(** [vpid_t::validation_value] (base/type.hpp:341-345). *)
Definition vpid_validation_value (p : vpid_t) : Z := 0 +64 vp_vid p.
(** [epid_t::validation_value] (base/type.hpp:398-404). *)
Definition epid_validation_value (p : epid_t) : Z :=
  let r := 0 +64 ep_dst_vid p in let r := r <<64 VID_BITS in r +64 ep_src_vid p.

(** [mkey_t::operator<] (base/type.hpp:592-606). *)
Definition mkey_lt (a b : mkey_t) : bool :=
  if mk_q a <? mk_q b then true
  else if mk_q a =? mk_q b then
    if mk_mid a <? mk_mid b then true
    else if mk_mid a =? mk_mid b then mk_index a <? mk_index b
    else false
  else false.
(** [mkey_t::operator==] (base/type.hpp:585-590). *)
Definition mkey_eqb (a b : mkey_t) : bool :=
  (mk_q a =? mk_q b) && (mk_mid a =? mk_mid b) && (mk_index a =? mk_index b).
(** [MkeyHashCompare::hash] (base/type.hpp:610-615). *)
Definition mkey_hash (x : mkey_t) : Z :=
  hash_combine_int (hash_u128_to_u64 (mk_q x) (mk_mid x)) (mk_index x).

(** [eid_t::operator<] (base/type.hpp:266-268). *)
Definition eid_lt (a b : eid_t) : bool := eid_t2uint a <? eid_t2uint b.

(** Well-formedness: the members are within their bit-fields. *)
Definition ptr_wf (p : ptr_t) : Prop := fits NBITS_SIZE (ptr_size p) /\ fits NBITS_PTR (ptr_off p).
Definition vid_wf (v : vid_t) : Prop := fits VID_BITS (vid_vid v).
Definition eid_wf (e : eid_t) : Prop := fits VID_BITS (dst_v e) /\ fits VID_BITS (src_v e).
Definition vpid_wf (p : vpid_t) : Prop := fits VID_BITS (vp_vid p) /\ fits PID_BITS (vp_pid p).
Definition epid_wf (p : epid_t) : Prop :=
  fits VID_BITS (ep_dst_vid p) /\ fits VID_BITS (ep_src_vid p) /\ fits PID_BITS (ep_pid p).
(** A transaction id leaves its low [QID_BITS] bits to the query index. *)
Definition qid_wf (q : qid_t) : Prop :=
  fits 64 (q_trxid q) /\ q_trxid q mod 256 = 0 /\ fits 8 (q_id q).

(** ** The interface of a packed identifier

    What a component that stores or ships an identifier relies on: the word
    has the stated width and decoding it gives the identifier back. *)
Class WordCodec (A : Type) (w : Z) := {
  wc_wf : A -> Prop;
  to_word : A -> Z;
  of_word : Z -> A;
  wc_fits a : wc_wf a -> fits w (to_word a);
  wc_of_to a : wc_wf a -> of_word (to_word a) = a;
  wc_of_wf v : wc_wf (of_word v);
}.

Lemma to_word_inj `{WordCodec A w} a b :
  wc_wf a -> wc_wf b -> to_word a = to_word b -> a = b.
Proof. intros Ha Hb E. rewrite <- (wc_of_to a Ha), <- (wc_of_to b Hb). by rewrite E. Qed.

(** The low bits of an [int] survive the promotion and the conversion back to
    [uint64_t]. *)
Lemma i32_cong v x : 0 <= v <= 32 -> cong v (i32 x) x.
Proof.
  intros Hv. assert (cong v (wrap 32 x) x) as E by (by apply wrap_wrap_le).
  unfold swrap. cbv zeta. destruct (_ <? _); [done|].
  etransitivity; [|exact E]. apply (cong_plus _ (- 2 ^ (32 - v))).
  rewrite Z.mul_opp_l, <- Z.pow_add_r by lia. replace (32 - v + v) with 32 by lia. lia.
Qed.

Lemma land_low_flag n v : 0 <= n -> Z.land v (2 ^ n - 1) = wrap n v.
Proof. intros Hn. unfold wrap. rewrite <- Z.land_ones by done. f_equal. rewrite Z.ones_equiv. lia. Qed.

Lemma land_flag_56H v : Z.land v flag_56H = wrap 64 v - v mod 256.
Proof.
  change flag_56H with (Z.ldiff (Z.ones 64) (Z.ones 8)).
  replace (Z.land v (Z.ldiff (Z.ones 64) (Z.ones 8))) with
    (Z.ldiff (Z.land v (Z.ones 64)) (Z.ones 8))
    by (apply Z.bits_inj'; intros n Hn;
        rewrite !Z.ldiff_spec, !Z.land_spec, Z.ldiff_spec by done;
        destruct (Z.testbit v n), (Z.testbit (Z.ones 64) n); done).
  rewrite Z.land_ones by lia.
  rewrite Z.ldiff_ones_r, Z.shiftr_div_pow2, Z.shiftl_mul_pow2 by lia.
  word_lia.
Qed.

Ltac id_unfold :=
  unfold ptr_wf, vid_wf, eid_wf, vpid_wf, epid_wf, ptr_t2uint, vid_t2uint, eid_t2uint,
    vpid_t2uint, epid_t2uint, uint2ptr_t, uint2vid_t, uint2eid_t, uint2vpid_t, uint2epid_t,
    NBITS_SIZE, NBITS_PTR, PID_BITS, EID_BITS, VID_BITS in *; cbn [Z.mul Z.sub] in *.

Lemma eid_t2uint_eq e : eid_wf e -> eid_t2uint e = dst_v e * 2 ^ 26 + src_v e.
Proof. destruct e. id_unfold. cbn. word_lia. Qed.
Lemma vpid_t2uint_eq p : vpid_wf p -> vpid_t2uint p = vp_vid p * 2 ^ 38 + vp_pid p.
Proof. destruct p. id_unfold. cbn. word_lia. Qed.
Lemma epid_t2uint_eq p : epid_wf p ->
  epid_t2uint p = ep_dst_vid p * 2 ^ 38 + ep_src_vid p * 2 ^ 12 + ep_pid p.
Proof. destruct p. id_unfold. cbn. word_lia. Qed.

(** Subtracting a promoted multiple of [2^n] leaves the low [v <= n] bits. *)
Lemma low_bits_of_diff v x y : 0 <= v <= 32 -> cong v y 0 -> wrap v (x -64 i32 y) = wrap v x.
Proof.
  intros Hv Hy. rewrite wrap_wrap_le by lia.
  change (cong v (x - i32 y) x). setoid_rewrite (i32_cong v y Hv). setoid_rewrite Hy.
  by rewrite Z.sub_0_r.
Qed.

Lemma cong_shiftl v x n : 0 <= v <= n -> cong v (Z.shiftl x n) 0.
Proof.
  intros Hv. rewrite Z.shiftl_mul_pow2 by lia. apply (cong_plus _ (x * 2 ^ (n - v))).
  rewrite <- Z.mul_assoc, <- Z.pow_add_r by lia. replace (n - v + v) with n by lia. lia.
Qed.

Lemma uint2eid_t_eq v : uint2eid_t v = mk_eid (wrap 26 (v / 2 ^ 26)) (wrap 26 v).
Proof.
  unfold uint2eid_t. rewrite low_bits_of_diff; [by rewrite Z.shiftr_div_pow2|done|].
  by apply cong_shiftl.
Qed.

Lemma uint2vpid_t_eq v : uint2vpid_t v = mk_vpid (wrap 26 (v / 2 ^ 38)) (wrap 12 v).
Proof.
  unfold uint2vpid_t. rewrite low_bits_of_diff; [|done|by apply cong_shiftl].
  by rewrite Z.shiftr_shiftr, Z.shiftr_div_pow2.
Qed.

Lemma uint2epid_t_eq v :
  uint2epid_t v = mk_epid (wrap 26 (v / 2 ^ 38)) (wrap 26 (v / 2 ^ 12)) (wrap 12 v).
Proof.
  unfold uint2epid_t. rewrite low_bits_of_diff; [|done|by apply cong_shiftl].
  rewrite Z.shiftr_shiftr, !Z.shiftr_div_pow2 by done. f_equal.
  rewrite wrap_wrap_le by done. change (cong 12 (v - wrap 64 (Z.shiftl (v / 2 ^ 12) 12)) v).
  assert (cong 12 (wrap 64 (Z.shiftl (v / 2 ^ 12) 12)) 0) as E.
  { etransitivity; [|by apply (cong_shiftl 12 (v / 2 ^ 12) 12)]. by apply wrap_wrap_le. }
  setoid_rewrite E. by rewrite Z.sub_0_r.
Qed.

#[global, program] Instance ptr_codec : WordCodec ptr_t 64 :=
  {| wc_wf := ptr_wf; to_word := ptr_t2uint; of_word := uint2ptr_t |}.
Next Obligation. intros [] ?. id_unfold. cbn in *. word_lia. Qed.
Next Obligation.
  intros [s o] ?. id_unfold. change flag_28L with (2 ^ 28 - 1).
  rewrite land_low_flag by done. cbn in *. f_equal; word_lia.
Qed.
Next Obligation. intros v. id_unfold. split; cbn; by apply wrap_fits. Qed.

#[global, program] Instance vid_codec : WordCodec vid_t 32 :=
  {| wc_wf := vid_wf; to_word := vid_t2uint; of_word := uint2vid_t |}.
Next Obligation. intros [] ?. id_unfold. cbn in *. word_lia. Qed.
Next Obligation. intros [] ?. id_unfold. cbn in *. f_equal. word_lia. Qed.
Next Obligation. intros v. by apply wrap_fits. Qed.

#[global, program] Instance eid_codec : WordCodec eid_t 64 :=
  {| wc_wf := eid_wf; to_word := eid_t2uint; of_word := uint2eid_t |}.
Next Obligation. intros [] ?. by apply wrap_fits. Qed.
Next Obligation.
  intros [d s] ?. rewrite uint2eid_t_eq, eid_t2uint_eq by done. id_unfold.
  cbn in *. f_equal; word_lia.
Qed.
Next Obligation. intros v. rewrite uint2eid_t_eq. split; by apply wrap_fits. Qed.

#[global, program] Instance vpid_codec : WordCodec vpid_t 64 :=
  {| wc_wf := vpid_wf; to_word := vpid_t2uint; of_word := uint2vpid_t |}.
Next Obligation. intros [] ?. by apply wrap_fits. Qed.
Next Obligation.
  intros [i p] ?. rewrite uint2vpid_t_eq, vpid_t2uint_eq by done. id_unfold.
  cbn in *. f_equal; word_lia.
Qed.
Next Obligation. intros v. rewrite uint2vpid_t_eq. split; by apply wrap_fits. Qed.

#[global, program] Instance epid_codec : WordCodec epid_t 64 :=
  {| wc_wf := epid_wf; to_word := epid_t2uint; of_word := uint2epid_t |}.
Next Obligation. intros [] ?. by apply wrap_fits. Qed.
Next Obligation.
  intros [d s p] ?. rewrite uint2epid_t_eq, epid_t2uint_eq by done. id_unfold.
  cbn in *. f_equal; word_lia.
Qed.
Next Obligation. intros v. rewrite uint2epid_t_eq. split_and!; by apply wrap_fits. Qed.

#[global, program] Instance qid_codec : WordCodec qid_t 64 :=
  {| wc_wf := qid_wf; to_word := qid_value; of_word := uint2qid_t |}.
Next Obligation. intros [] ?. by apply wrap_fits. Qed.
Next Obligation.
  intros [t i] (Ht & Hm & Hi). unfold uint2qid_t, qid_value. rewrite land_flag_56H.
  change flag_8L with (2 ^ 8 - 1). rewrite land_low_flag by done. cbn in *.
  f_equal; word_lia.
Qed.
Next Obligation.
  intros v. unfold uint2qid_t, qid_wf. rewrite land_flag_56H.
  split_and!; cbn; [word_lia|word_lia|by apply wrap_fits].
Qed.

(** ** Properties *)

(** Every packed identifier survives its word encoding: decoding what
    [ptr_t2uint], [vid_t2uint], [eid_t2uint], [vpid_t2uint], [epid_t2uint] or
    [qid_t::value] produced gives the identifier back, although the decoders
    shift promoted bit-fields at 32 bits. *)
Theorem packed_ids_roundtrip p v e vp ep q :
  ptr_wf p -> vid_wf v -> eid_wf e -> vpid_wf vp -> epid_wf ep -> qid_wf q ->
  uint2ptr_t (ptr_t2uint p) = p /\ uint2vid_t (vid_t2uint v) = v /\
  uint2eid_t (eid_t2uint e) = e /\ uint2vpid_t (vpid_t2uint vp) = vp /\
  uint2epid_t (epid_t2uint ep) = ep /\ uint2qid_t (qid_value q) = q.
Proof.
  intros Hp Hv He Hvp Hep Hq. exact (conj (wc_of_to p Hp) (conj (wc_of_to v Hv)
    (conj (wc_of_to e He) (conj (wc_of_to vp Hvp) (conj (wc_of_to ep Hep) (wc_of_to q Hq)))))).
Qed.

Lemma packed_ids_roundtrip_witness :
  uint2epid_t (epid_t2uint (mk_epid 67108863 41 4095)) = mk_epid 67108863 41 4095.
Proof.
  apply (packed_ids_roundtrip (mk_ptr 7 9) (mk_vid 67108863) (mk_eid 67108863 3)
    (mk_vpid 67108863 4095) (mk_epid 67108863 41 4095) (mk_qid 0x8000000000000100 255));
    vm_compute; repeat split; congruence.
Defined.

(** The words that the recent-action tables hold are related the way the
    validation code assumes: dropping the [PID_BITS] of an edge property word
    gives the edge's own word, which is also its [validation_value], and
    dropping [PID_BITS] and then [VID_BITS] of a vertex property word gives
    the vertex. *)
Theorem property_word_owner vp ep :
  vpid_wf vp -> epid_wf ep ->
  (vpid_t2uint vp >> PID_BITS) >> VID_BITS = vpid_validation_value vp /\
  epid_t2uint ep >> PID_BITS = eid_t2uint (mk_eid (ep_dst_vid ep) (ep_src_vid ep)) /\
  epid_t2uint ep >> PID_BITS = epid_validation_value ep.
Proof.
  intros Hvp Hep. rewrite vpid_t2uint_eq, epid_t2uint_eq by done.
  unfold vpid_validation_value, epid_validation_value.
  destruct vp, ep. rewrite eid_t2uint_eq by (destruct Hep as (? & ? & ?); by split).
  id_unfold. cbn in *. split_and!; word_lia.
Qed.

Lemma property_word_owner_witness :
  (vpid_t2uint (mk_vpid 5 7) >> PID_BITS) >> VID_BITS = 5.
Proof.
  apply (property_word_owner (mk_vpid 5 7) (mk_epid 5 6 7)); vm_compute; repeat split; congruence.
Defined.

(** [eid_t::operator<] orders well-formed edge ids lexicographically by
    destination and then source, and [mkey_t::operator<] is a strict total
    order that agrees with [operator==] (what [std::map] requires of it). *)
Theorem id_orders e1 e2 a b c :
  eid_wf e1 -> eid_wf e2 ->
  (eid_lt e1 e2 = true <-> dst_v e1 < dst_v e2 \/ dst_v e1 = dst_v e2 /\ src_v e1 < src_v e2) /\
  mkey_lt a a = false /\
  (mkey_lt a b = true -> mkey_lt b c = true -> mkey_lt a c = true) /\
  (mkey_lt a b = false -> mkey_lt b a = false -> mkey_eqb a b = true).
Proof.
  intros H1 H2. split.
  { unfold eid_lt. rewrite Z.ltb_lt, !eid_t2uint_eq by done.
    destruct e1, e2. id_unfold. cbn in *. word_lia. }
  unfold mkey_lt, mkey_eqb. destruct a as [q1 m1 i1], b as [q2 m2 i2], c as [q3 m3 i3]. cbn.
  repeat match goal with
    | |- context [?x <? ?y] => destruct (Z.ltb_spec x y); try lia
    | |- context [?x =? ?y] => destruct (Z.eqb_spec x y); try lia
    end; naive_solver lia.
Qed.

Lemma id_orders_witness : eid_lt (mk_eid 3 9) (mk_eid 4 1) = true.
Proof.
  apply (id_orders (mk_eid 3 9) (mk_eid 4 1) (mk_mkey 1 2 3) (mk_mkey 1 2 4) (mk_mkey 1 3 0));
    [vm_compute; repeat split; congruence..|cbn; lia].
Defined.
