(* ===== verification/Serialization.v ===== *)
(** * base/serialization: the byte streams

    [ibinstream] appends bytes to a buffer, [obinstream] reads them from an
    index.  A [put_*] function gives the bytes that the [operator<<] of its
    type appends to [buf_]; a [get_*] function is the matching [operator>>] on
    the stream's state.  A byte is a [Z] in [0, 256).  The code does not check
    the end of the buffer, so a read beyond it has no defined result: it is
    [None].  A [double] is its 64-bit pattern.

    [serializer] bundles both directions of a type with the law that its
    users rely on: reading back what was written gives the value and moves
    the index just past it. *)
From S2P Require Import Prelude MyMath Types.
Local Open Scope Z_scope.

(** ** The streams *)

(** [obinstream] (base/serialization.hpp:81-98): buffer, size and index. *)
Record obinstream := mk_ob { ob_buf : list Z; ob_index : nat }.

(** [obinstream::end] (base/serialization.cpp:148-150). *)
Definition ob_end (m : obinstream) : bool := (length (ob_buf m) <=? ob_index m)%nat.

(** The index moves by [n] bytes. *)
Definition advance (m : obinstream) (n : nat) : obinstream :=
  mk_ob (ob_buf m) (ob_index m + n).

(** The [n] bytes at the index, when the buffer has them. *)
Definition peek (m : obinstream) (n : nat) : option (list Z) :=
  let data := drop (ob_index m) (ob_buf m) in
  if (n <=? length data)%nat then Some (take n data) else None.

Definition getter (A : Type) : Type := obinstream -> option (A * obinstream).

#[global] Instance getter_ret : MRet getter := fun A a m => Some (a, m).
#[global] Instance getter_bind : MBind getter :=
  fun A B f g m => match g m with Some (a, m') => f a m' | None => None end.

(** [obinstream::raw_bytes] (base/serialization.cpp:130-134): the index moves
    by [n] as an [unsigned int]; the caller copies [n] bytes from the pointer
    that is returned. *)
Definition raw_bytes (n : Z) : getter (list Z) := fun m =>
  match peek m (Z.to_nat n) with
  | Some bs => Some (bs, advance m (Z.to_nat (u32 n)))
  | None => None
  end.

(** [obinstream::raw_byte] (base/serialization.cpp:126-128). *)
Definition raw_byte : getter Z := fun m =>
  match ob_buf m !! ob_index m with Some b => Some (b, advance m 1) | None => None end.

(** Little-endian bytes of an object of [n] bytes. *)
Fixpoint le_split (n : nat) (z : Z) : list Z :=
  match n with O => [] | S n' => z mod 256 :: le_split n' (z / 256) end.
Fixpoint le_combine (bs : list Z) : Z :=
  match bs with [] => 0 | b :: bs' => b + 256 * le_combine bs' end.

(** ** Scalars *)

(** [operator<<(size_t)] (base/serialization.cpp:38-41). *)
Definition put_size (i : Z) : list Z := le_split 8 i.
(** [operator>>(size_t&)] (base/serialization.cpp:152-155). *)
Definition get_size : getter Z := bs ← raw_bytes 8; mret (le_combine bs).
(** [operator<<(bool)] (base/serialization.cpp:43-46). *)
Definition put_bool (i : bool) : list Z := le_split 1 (Z.b2z i).
(** [operator>>(bool&)] (base/serialization.cpp:157-160). *)
Definition get_bool : getter bool := bs ← raw_bytes 1; mret (negb (le_combine bs =? 0)).
(** [operator<<(int)] (base/serialization.cpp:48-51). *)
Definition put_int (i : Z) : list Z := le_split 4 i.
(** [operator>>(int&)] (base/serialization.cpp:162-165). *)
Definition get_int : getter Z := bs ← raw_bytes 4; mret (i32 (le_combine bs)).
(** [operator<<(double)] (base/serialization.cpp:53-56). *)
Definition put_double (i : Z) : list Z := le_split 8 i.
(** [operator>>(double&)] (base/serialization.cpp:167-170). *)
Definition get_double : getter Z := bs ← raw_bytes 8; mret (le_combine bs).
(** [operator<<(unsigned long long)] (base/serialization.cpp:58-61). *)
Definition put_ull (i : Z) : list Z := le_split 8 i.
(** [operator>>(unsigned long long&)] (base/serialization.cpp:192-195). *)
Definition get_ull : getter Z := bs ← raw_bytes 8; mret (le_combine bs).
(** [operator<<(uint8_t)] (base/serialization.cpp:63-66). *)
Definition put_u8 (i : Z) : list Z := [i mod 256].
(** [operator>>(uint8_t&)] (base/serialization.cpp:172-175). *)
Definition get_u8 : getter Z := b ← raw_byte; mret (u8 b).
(** [operator<<(uint16_t)] (base/serialization.cpp:68-71). *)
Definition put_u16 (i : Z) : list Z := le_split 2 i.
(** [operator>>(uint16_t&)] (base/serialization.cpp:177-180). *)
Definition get_u16 : getter Z := bs ← raw_bytes 2; mret (le_combine bs).
(** [operator<<(uint32_t)] (base/serialization.cpp:73-76). *)
Definition put_u32 (i : Z) : list Z := le_split 4 i.
(** [operator>>(uint32_t&)] (base/serialization.cpp:182-185). *)
Definition get_u32 : getter Z := bs ← raw_bytes 4; mret (le_combine bs).
(** [operator<<(char)] (base/serialization.cpp:83-86); a [char] is kept as
    its byte. *)
Definition put_char (c : Z) : list Z := [c mod 256].
(** [operator>>(char&)] (base/serialization.cpp:197-200). *)
Definition get_char : getter Z := raw_byte.

(** ** Vectors of plain data: one block copy *)

(** The [count] objects of [n] bytes at the start of [data]. *)
Fixpoint chunks (n count : nat) (data : list Z) : list (list Z) :=
  match count with O => [] | S k => take n data :: chunks n k (drop n data) end.

(** [operator<<] on [vector<int>], [vector<double>], [vector<char>],
    [vector<uint64_t>] (base/serialization.cpp:88-110): [ibinstream::raw_bytes]
    takes the byte count as an [int]. *)
Definition put_pod (n : nat) (v : list Z) : list Z :=
  put_size (Z.of_nat (length v)) ++
  take (Z.to_nat (i32 (Z.of_nat (length v) * Z.of_nat n))) (concat (le_split n <$> v)).

(** [operator>>] on the same vectors (base/serialization.cpp:202-236). *)
Definition get_pod (n : nat) (elem : list Z -> Z) : getter (list Z) :=
  size ← get_size;
  data ← raw_bytes (Z.of_nat n * size);
  mret (elem <$> chunks n (Z.to_nat size) data).

(** [operator<<(string)] (base/serialization.cpp:112-116). *)
Definition put_string (s : list Z) : list Z :=
  put_size (Z.of_nat (length s)) ++ take (Z.to_nat (i32 (Z.of_nat (length s)))) ((fun c => c mod 256) <$> s).
(** [operator>>(string&)] (base/serialization.cpp:237-244). *)
Definition get_string : getter (list Z) :=
  len ← get_size; data ← raw_bytes len; mret data.

(** ** Containers *)

(** [for (i = 0; i < size; i++) m >> tmp] *)
Fixpoint get_n {A} (g : getter A) (n : nat) : getter (list A) :=
  match n with
  | O => mret []
  | S k => a ← g; l ← get_n g k; mret (a :: l)
  end.

(** [operator<<(vector<T>)] (base/serialization.tpp:20-27); [list<T>] and, in
    iteration order, [set<T>] and [hash_set<T>] have the same body. *)
Definition put_vector {A} (p : A -> list Z) (v : list A) : list Z :=
  put_size (Z.of_nat (length v)) ++ concat (p <$> v).
(** [operator>>(vector<T>&)] (base/serialization.tpp:98-107). *)
Definition get_vector {A} (g : getter A) : getter (list A) :=
  size ← get_size; get_n g (Z.to_nat size).

(** [operator<<(pair)] (base/serialization.tpp:47-52). *)
Definition put_pair {A B} (p : A -> list Z) (q : B -> list Z) (v : A * B) : list Z :=
  p v.1 ++ q v.2.
(** [operator>>(pair&)] (base/serialization.tpp:135-140). *)
Definition get_pair {A B} (g : getter A) (h : getter B) : getter (A * B) :=
  a ← g; b ← h; mret (a, b).

(** [operator<<(map)] (base/serialization.tpp:54-62), on the entries in
    iteration order. *)
Definition put_map {A B} (p : A -> list Z) (q : B -> list Z) (v : list (A * B)) : list Z :=
  put_size (Z.of_nat (length v)) ++ concat ((fun e => p e.1 ++ q e.2) <$> v).
(** [operator>>(map&)] (base/serialization.tpp:142-153): [v[key]] inserts the
    key into an initially empty [std::map]. *)
Definition get_map {A B} `{Countable A} (g : getter A) (h : getter B) : getter (gmap A B) :=
  size ← get_size;
  l ← get_n (a ← g; b ← h; mret (a, b)) (Z.to_nat size);
  mret (foldl (fun m e => <[e.1 := e.2]> m) ∅ l).

(** ** The round-trip law *)

(** [g] reads [a] from the bytes [bs], wherever they stand in the buffer. *)
Definition reads {A} (g : getter A) (bs : list Z) (a : A) : Prop :=
  forall m rest, drop (ob_index m) (ob_buf m) = bs ++ rest ->
    g m = Some (a, advance m (length bs)).

Create HintDb reads.

Lemma advance_0 m : advance m 0 = m.
Proof. destruct m. unfold advance. cbn. by rewrite Nat.add_0_r. Qed.

Lemma advance_advance m i j : advance (advance m i) j = advance m (i + j).
Proof. unfold advance. cbn. f_equal. lia. Qed.

Lemma drop_advance m bs rest :
  drop (ob_index m) (ob_buf m) = bs ++ rest ->
  drop (ob_index (advance m (length bs))) (ob_buf (advance m (length bs))) = rest.
Proof.
  intros E. cbn. rewrite <- drop_drop, E. by rewrite drop_app_length.
Qed.

Lemma reads_ret {A} (a : A) : reads (mret a) [] a.
Proof. intros m rest _. cbn. by rewrite advance_0. Qed.

Lemma reads_bind {A B} (g : getter A) (k : A -> getter B) bs bs' a b :
  reads g bs a -> reads (k a) bs' b -> reads (g ≫= k) (bs ++ bs') b.
Proof.
  intros Hg Hk m rest E. rewrite <- app_assoc in E.
  unfold mbind, getter_bind. rewrite (Hg m _ E).
  rewrite (Hk _ rest) by (by eapply drop_advance).
  by rewrite advance_advance, length_app.
Qed.

Lemma reads_bind_ret {A B} (g : getter A) (f : A -> B) bs a :
  reads g bs a -> reads (x ← g; mret (f x)) bs (f a).
Proof. intros Hg. rewrite <- (app_nil_r bs). eapply reads_bind; [done|apply reads_ret]. Qed.

(** Two reads from disjoint parts of one buffer do not interfere: the law
    gives the rest of the stream for the next reader. *)
Lemma peek_app m bs rest :
  drop (ob_index m) (ob_buf m) = bs ++ rest -> peek m (length bs) = Some bs.
Proof.
  intros E. unfold peek. rewrite E, length_app, take_app_length.
  by destruct (Nat.leb_spec (length bs) (length bs + length rest)); [|lia].
Qed.

Lemma reads_raw_bytes n bs : length bs = Z.to_nat n -> 0 <= n < 2 ^ 32 -> reads (raw_bytes n) bs bs.
Proof.
  intros L Hn m rest E. unfold raw_bytes. rewrite wrap_small by done.
  by rewrite <- L, (peek_app _ _ _ E).
Qed.

Lemma reads_raw_byte b : reads raw_byte [b] b.
Proof.
  intros m rest E. unfold raw_byte.
  replace (ob_buf m !! ob_index m) with (Some b); [done|].
  rewrite <- (Nat.add_0_r (ob_index m)), <- lookup_drop, E. done.
Qed.

(** *** Little-endian words *)

Lemma length_le_split n z : length (le_split n z) = n.
Proof. revert z. induction n; cbn; intros; [done|]. by rewrite IHn. Qed.

Lemma le_combine_split n z : le_combine (le_split n z) = wrap (8 * Z.of_nat n) z.
Proof.
  revert z. induction n as [|n IH]; cbn [le_split le_combine]; intros z.
  { unfold wrap. by rewrite Z.mod_1_r. }
  rewrite IH. unfold wrap.
  replace (2 ^ (8 * Z.of_nat (S n))) with (256 * 2 ^ (8 * Z.of_nat n))
    by (replace (8 * Z.of_nat (S n)) with (8 + 8 * Z.of_nat n) by lia;
        rewrite Z.pow_add_r by lia; done).
  rewrite Z.rem_mul_r by lia. lia.
Qed.

Lemma le_split_bytes n z : Forall (fits 8) (le_split n z).
Proof. revert z. induction n; cbn; constructor; [by apply (wrap_fits 8)|done]. Qed.

Lemma swrap_wrap w z : swrap w (wrap w z) = swrap w z.
Proof. unfold swrap. by rewrite wrap_wrap. Qed.

Lemma reads_word n z : (0 < n)%nat -> Z.of_nat n < 2 ^ 32 ->
  reads (raw_bytes (Z.of_nat n)) (le_split n z) (le_split n z).
Proof. intros. apply reads_raw_bytes; [rewrite length_le_split|]; lia. Qed.

(** ** Serializers *)

Record serializer (A : Type) := Ser {
  put : A -> list Z;
  get : getter A;
  ser_wf : A -> Prop;
  ser_reads a : ser_wf a -> reads get (put a) a;
}.
Arguments Ser {A}.
Arguments put {A}.
Arguments get {A}.
Arguments ser_wf {A}.
Arguments ser_reads {A}.

#[export] Hint Resolve ser_reads reads_ret : reads.

(** Reading a structure is a sequence of reads of its fields. *)
Ltac reads_seq :=
  repeat first
    [ apply reads_ret
    | eapply reads_bind_ret; [eauto with reads]
    | eapply reads_bind; [solve [eauto with reads]|] ].

Lemma reads_le n z : (0 < n)%nat -> Z.of_nat n < 2 ^ 32 -> fits (8 * Z.of_nat n) z ->
  reads (bs ← raw_bytes (Z.of_nat n); mret (le_combine bs)) (le_split n z) z.
Proof.
  intros Hn Hm Hz. rewrite <- (wrap_small _ z Hz) at 2. rewrite <- le_combine_split.
  by apply (reads_bind_ret _ le_combine), reads_word.
Qed.

#[program] Definition s_size : serializer Z := Ser put_size get_size (fits 64) _.
Next Obligation. intros z Hz. apply (reads_le 8); [lia|lia|done]. Qed.
#[program] Definition s_ull : serializer Z := Ser put_ull get_ull (fits 64) _.
Next Obligation. intros z Hz. apply (reads_le 8); [lia|lia|done]. Qed.
#[program] Definition s_double : serializer Z := Ser put_double get_double (fits 64) _.
Next Obligation. intros z Hz. apply (reads_le 8); [lia|lia|done]. Qed.
#[program] Definition s_u16 : serializer Z := Ser put_u16 get_u16 (fits 16) _.
Next Obligation. intros z Hz. apply (reads_le 2); [lia|lia|done]. Qed.
#[program] Definition s_u32 : serializer Z := Ser put_u32 get_u32 (fits 32) _.
Next Obligation. intros z Hz. apply (reads_le 4); [lia|lia|done]. Qed.
#[program] Definition s_int : serializer Z :=
  Ser put_int get_int (fun z => - 2 ^ 31 <= z < 2 ^ 31) _.
Next Obligation.
  intros z Hz. cbv beta in Hz. rewrite <- (swrap_small 32 z) at 2 by lia.
  rewrite <- swrap_wrap. change 32 with (8 * Z.of_nat 4) at 2. rewrite <- le_combine_split.
  apply (reads_bind_ret _ (fun bs => i32 (le_combine bs))), (reads_word 4); lia.
Qed.
#[program] Definition s_bool : serializer bool := Ser put_bool get_bool (fun _ => True) _.
Next Obligation.
  intros b _. replace b with (negb (le_combine (le_split 1 (Z.b2z b)) =? 0)) at 2
    by (by destruct b).
  apply (reads_bind_ret _ (fun bs => negb (le_combine bs =? 0))), (reads_word 1); lia.
Qed.
#[program] Definition s_u8 : serializer Z := Ser put_u8 get_u8 (fits 8) _.
Next Obligation.
  intros z Hz. rewrite <- (wrap_small 8 z Hz) at 2. rewrite <- wrap_wrap.
  by apply (reads_bind_ret _ u8), reads_raw_byte.
Qed.
#[program] Definition s_char : serializer Z := Ser put_char get_char (fits 8) _.
Next Obligation.
  intros z Hz. unfold put_char. change (z mod 256) with (wrap 8 z).
  rewrite wrap_small by done. apply reads_raw_byte.
Qed.

(** A packed identifier travels as its word. *)
#[program] Definition s_id64 {A} `{WordCodec A 64} : serializer A :=
  Ser (fun a => put_size (to_word a)) (v ← get_size; mret (of_word v)) wc_wf _.
Next Obligation.
  intros A ? a Ha. rewrite <- (wc_of_to a Ha) at 2.
  apply (reads_bind_ret _ of_word). by apply (ser_reads s_size), wc_fits.
Qed.

(** [operator<<(vid_t)] (base/type.cpp:100-104). *)
Definition put_vid (v : vid_t) : list Z := put_u32 (vid_t2uint v).
(** [operator>>(vid_t&)] (base/type.cpp:106-111). *)
Definition get_vid : getter vid_t := value ← get_u32; mret (uint2vid_t value).
(** [operator<<(ptr_t)] (base/type.cpp:48-52). *)
Definition put_ptr (p : ptr_t) : list Z := put_size (ptr_t2uint p).
(** [operator>>(ptr_t&)] (base/type.cpp:54-59). *)
Definition get_ptr : getter ptr_t := v ← get_size; mret (uint2ptr_t v).
(** [operator<<(ikey_t)] (base/type.cpp:81-85). *)
Definition put_ikey (p : ikey_t) : list Z := put_size (ikey_pid p) ++ put_ptr (ikey_ptr p).
(** [operator>>(ikey_t&)] (base/type.cpp:87-91). *)
Definition get_ikey : getter ikey_t := pid ← get_size; ptr ← get_ptr; mret (mk_ikey pid ptr).
(** [operator<<(eid_t)] (base/type.cpp:129-133). *)
Definition put_eid (e : eid_t) : list Z := put_size (eid_t2uint e).
(** [operator>>(eid_t&)] (base/type.cpp:135-140). *)
Definition get_eid : getter eid_t := value ← get_size; mret (uint2eid_t value).
(** [operator<<(vpid_t)] (base/type.cpp:162-166). *)
Definition put_vpid (p : vpid_t) : list Z := put_size (vpid_t2uint p).
(** [operator>>(vpid_t&)] (base/type.cpp:168-173). *)
Definition get_vpid : getter vpid_t := value ← get_size; mret (uint2vpid_t value).
(** [operator<<(epid_t)] (base/type.cpp:196-200). *)
Definition put_epid (p : epid_t) : list Z := put_size (epid_t2uint p).
(** [operator>>(epid_t&)] (base/type.cpp:202-207). *)
Definition get_epid : getter epid_t := value ← get_size; mret (uint2epid_t value).

#[program] Definition s_vid : serializer vid_t := Ser put_vid get_vid vid_wf _.
Next Obligation.
  intros v Hv. rewrite <- (@wc_of_to _ _ vid_codec v Hv : uint2vid_t (vid_t2uint v) = v) at 2. apply (reads_bind_ret _ uint2vid_t).
  apply (ser_reads s_u32). exact (@wc_fits _ _ vid_codec v Hv).
Qed.
Definition s_ptr : serializer ptr_t := Ser put_ptr get_ptr ptr_wf (ser_reads (@s_id64 _ ptr_codec)).
Definition s_eid : serializer eid_t := Ser put_eid get_eid eid_wf (ser_reads (@s_id64 _ eid_codec)).
Definition s_vpid : serializer vpid_t := Ser put_vpid get_vpid vpid_wf (ser_reads (@s_id64 _ vpid_codec)).
Definition s_epid : serializer epid_t := Ser put_epid get_epid epid_wf (ser_reads (@s_id64 _ epid_codec)).
#[program] Definition s_ikey : serializer ikey_t :=
  Ser put_ikey get_ikey (fun k => fits 64 (ikey_pid k) /\ ptr_wf (ikey_ptr k)) _.
Next Obligation.
  intros [i p] [Hi Hp]. eapply reads_bind; [by apply (ser_reads s_size)|].
  apply (reads_bind_ret _ (mk_ikey i)). by apply (ser_reads s_ptr).
Qed.

(** *** Containers *)

Lemma reads_n {A} (s : serializer A) l :
  Forall (ser_wf s) l -> reads (get_n (get s) (length l)) (concat (put s <$> l)) l.
Proof.
  induction 1 as [|a l Ha Hl IH]; cbn; [apply reads_ret|].
  eapply reads_bind; [by apply ser_reads|]. by apply (reads_bind_ret _ (cons a)).
Qed.

#[program] Definition s_vector {A} (s : serializer A) : serializer (list A) :=
  Ser (put_vector (put s)) (get_vector (get s))
      (fun l => fits 64 (Z.of_nat (length l)) /\ Forall (ser_wf s) l) _.
Next Obligation.
  intros A s l [Hlen Hl]. eapply reads_bind; [by apply (ser_reads s_size)|].
  rewrite Nat2Z.id. by apply reads_n.
Qed.

#[program] Definition s_pair {A B} (s : serializer A) (t : serializer B) : serializer (A * B) :=
  Ser (put_pair (put s) (put t)) (get_pair (get s) (get t))
      (fun v => ser_wf s v.1 /\ ser_wf t v.2) _.
Next Obligation.
  intros A B s t [a b] [Ha Hb]. eapply reads_bind; [by apply ser_reads|].
  apply (reads_bind_ret _ (pair a)). by apply ser_reads.
Qed.

(** A map is written in its iteration order; reading it back gives the map
    whatever that order was. *)
Lemma foldl_insert_perm {K V} `{Countable K} (m0 : gmap K V) l :
  NoDup l.*1 -> (forall k, k ∈ l.*1 -> m0 !! k = None) ->
  foldl (fun m e => <[e.1 := e.2]> m) m0 l = list_to_map l ∪ m0.
Proof.
  revert m0. induction l as [|[k v] l IH]; cbn; intros m0 Hnd Hfresh.
  { by rewrite (left_id_L ∅ (∪)). }
  apply NoDup_cons in Hnd as [Hk Hnd]. rewrite IH; [|done|].
  - rewrite insert_union_singleton_l, (insert_union_singleton_l (list_to_map l)).
    rewrite (assoc_L (∪)), (map_union_comm (list_to_map l) {[k := v]}); [done|].
    apply map_disjoint_singleton_r. by apply not_elem_of_list_to_map_1.
  - intros k' Hk'. rewrite lookup_insert_ne by (by intros ->).
    apply Hfresh. by right.
Qed.

Lemma reads_map {K V} `{Countable K} (s : serializer K) (t : serializer V) (m : gmap K V) l :
  l ≡ₚ map_to_list m -> fits 64 (Z.of_nat (length l)) ->
  Forall (fun e => ser_wf s e.1 /\ ser_wf t e.2) l ->
  reads (get_map (get s) (get t)) (put_map (put s) (put t) l) m.
Proof.
  intros Hp Hlen Hl. unfold get_map, put_map.
  assert (NoDup l.*1) as Hnd by (rewrite Hp; apply NoDup_fst_map_to_list).
  replace m with (foldl (fun m e => <[e.1 := e.2]> m) (∅ : gmap K V) l).
  2:{ rewrite foldl_insert_perm, (right_id_L ∅ (∪)) by (done || set_solver).
      rewrite <- (list_to_map_to_list m). by apply list_to_map_proper. }
  eapply reads_bind; [by apply (ser_reads s_size)|]. rewrite Nat2Z.id.
  eapply (reads_bind_ret _ (foldl (fun m e => <[e.1 := e.2]> m) ∅)).
  by apply (reads_n (s_pair s t)).
Qed.

(** *** Block copies *)

Lemma chunks_concat n l :
  chunks n (length l) (concat (le_split n <$> l)) = le_split n <$> l.
Proof.
  induction l as [|z l IH]; cbn; [done|].
  rewrite take_app_length', drop_app_length' by (by rewrite length_le_split).
  by rewrite IH.
Qed.

Lemma length_concat_split n l : length (concat (le_split n <$> l)) = (n * length l)%nat.
Proof. induction l; cbn; [lia|]. rewrite length_app, length_le_split, IHl. lia. Qed.

Lemma reads_pod n elem l :
  Z.of_nat (length l) * Z.of_nat n < 2 ^ 31 -> (0 < n)%nat ->
  Forall (fun z => elem (le_split n z) = z) l ->
  reads (get_pod n elem) (put_pod n l) l.
Proof.
  intros Hlen Hn Hl. unfold put_pod, get_pod.
  assert (Z.of_nat (length l) <= Z.of_nat (length l) * Z.of_nat n) by nia.
  rewrite swrap_small by lia.
  rewrite take_ge by (rewrite length_concat_split; lia).
  eapply reads_bind; [apply (ser_reads s_size); unfold ser_wf, s_size, fits; lia|].
  replace l with (elem <$> chunks n (length l) (concat (le_split n <$> l))) at 3.
  2:{ rewrite chunks_concat. clear -Hl. induction Hl; cbn; congruence. }
  rewrite Nat2Z.id.
  apply (reads_bind_ret _ (fun data => elem <$> chunks n (length l) data)).
  apply reads_raw_bytes; [rewrite length_concat_split|]; lia.
Qed.

#[program] Definition s_chars : serializer (list Z) :=
  Ser (put_pod 1) (get_pod 1 le_combine)
      (fun l => Z.of_nat (length l) < 2 ^ 31 /\ Forall (fits 8) l) _.
Next Obligation.
  intros l [Hlen Hl]. apply reads_pod; [lia..|].
  eapply Forall_impl; [exact Hl|]. intros z Hz.
  rewrite le_combine_split. by apply wrap_small.
Qed.

#[program] Definition s_u64s : serializer (list Z) :=
  Ser (put_pod 8) (get_pod 8 le_combine)
      (fun l => Z.of_nat (length l) * 8 < 2 ^ 31 /\ Forall (fits 64) l) _.
Next Obligation.
  intros l [Hlen Hl]. apply reads_pod; [lia..|].
  eapply Forall_impl; [exact Hl|]. intros z Hz.
  rewrite le_combine_split. by apply wrap_small.
Qed.

#[program] Definition s_ints : serializer (list Z) :=
  Ser (put_pod 4) (get_pod 4 (fun bs => i32 (le_combine bs)))
      (fun l => Z.of_nat (length l) * 4 < 2 ^ 31 /\ Forall (fun z => - 2 ^ 31 <= z < 2 ^ 31) l) _.
Next Obligation.
  intros l [Hlen Hl]. apply reads_pod; [lia..|].
  eapply Forall_impl; [exact Hl|]. intros z Hz. cbv beta in *.
  rewrite le_combine_split, swrap_wrap. apply swrap_small; lia.
Qed.

#[program] Definition s_string : serializer (list Z) :=
  Ser put_string get_string (fun l => Z.of_nat (length l) < 2 ^ 31 /\ Forall (fits 8) l) _.
Next Obligation.
  intros l [Hlen Hl]. unfold put_string, get_string.
  rewrite swrap_small, Nat2Z.id by lia. rewrite take_ge by (by rewrite length_fmap).
  replace ((fun c => c mod 256) <$> l) with l
    by (clear -Hl; induction Hl as [|z l Hz ? IH]; cbn; [done|];
        f_equal; [|done]; symmetry; by apply (wrap_small 8)).
  eapply reads_bind; [apply (ser_reads s_size); unfold ser_wf, s_size, fits; lia|].
  apply (reads_bind_ret _ (fun d => d)). apply reads_raw_bytes; lia.
Qed.
