(* ===== verification/Wire.v ===== *)
(** * The wire formats of the query engine

    The [operator<<] and [operator>>] of the values and messages that the
    workers exchange (base/type.cpp, expert/expert_object.cpp,
    core/exec_plan.cpp, core/message.cpp) and of the records that the loader
    shuffles between the workers (layout/hdfs_data_loader.cpp), over the
    streams of [Serialization].  Each format is a [serializer]; its law is the
    round trip of the whole structure. *)
From S2P Require Import Prelude MyMath Types Serialization.
Local Open Scope Z_scope.

(** ** Enumerations *)

(** [MSG_T] (base/type.hpp:518-518). *)
Inductive MSG_T := M_INIT | M_SPAWN | M_FEED | M_REPLY | M_BARRIER | M_BRANCH | M_EXIT
  | M_VALIDATION | M_COMMIT | M_ABORT | M_TERMINATE.

(** [EXPERT_T] (base/type.hpp:525-529). *)
Inductive EXPERT_T := E_INIT | E_ADDE | E_ADDV | E_AGGREGATE | E_AS | E_BRANCH | E_BRANCHFILTER
  | E_CAP | E_CONFIG | E_COUNT | E_DEDUP | E_DROP | E_GROUP | E_HAS | E_HASLABEL | E_INDEX | E_IS
  | E_KEY | E_LABEL | E_MATH | E_ORDER | E_POSTVALIDATION | E_PROJECT | E_PROPERTIES | E_PROPERTY
  | E_RANGE | E_SELECT | E_TRAVERSAL | E_VALUES | E_WHERE | E_COIN | E_REPEAT | E_END
  | E_VALIDATION | E_TERMINATE | E_STATUS.

#[global] Instance MSG_T_eq_dec : EqDecision MSG_T.
Proof. solve_decision. Defined.
#[global] Instance EXPERT_T_eq_dec : EqDecision EXPERT_T.
Proof. solve_decision. Defined.

(** The enumerators in declaration order: the value of one is its index. *)
Definition MSG_Ts : list MSG_T := [M_INIT; M_SPAWN; M_FEED; M_REPLY; M_BARRIER; M_BRANCH; M_EXIT;
  M_VALIDATION; M_COMMIT; M_ABORT; M_TERMINATE].
Definition EXPERT_Ts : list EXPERT_T := [E_INIT; E_ADDE; E_ADDV; E_AGGREGATE; E_AS; E_BRANCH;
  E_BRANCHFILTER; E_CAP; E_CONFIG; E_COUNT; E_DEDUP; E_DROP; E_GROUP; E_HAS; E_HASLABEL; E_INDEX;
  E_IS; E_KEY; E_LABEL; E_MATH; E_ORDER; E_POSTVALIDATION; E_PROJECT; E_PROPERTIES; E_PROPERTY;
  E_RANGE; E_SELECT; E_TRAVERSAL; E_VALUES; E_WHERE; E_COIN; E_REPEAT; E_END; E_VALIDATION;
  E_TERMINATE; E_STATUS].

Fixpoint index_of {A} `{EqDecision A} (l : list A) (a : A) : Z :=
  match l with [] => 0 | b :: l' => if decide (a = b) then 0 else 1 + index_of l' a end.

(** [static_cast] of an [int] to the enumeration; a value with no enumerator
    is [None]. *)
Definition enum_of_int {A} (l : list A) (t : Z) : option A :=
  if t <? 0 then None else l !! Z.to_nat t.

Definition get_enum {A} (l : list A) : getter A := fun m =>
  match get_int m with
  | Some (t, m') => match enum_of_int l t with Some a => Some (a, m') | None => None end
  | None => None
  end.

(** [operator<<(MSG_T)] (base/type.cpp:290-294). *)
Definition put_msg_t (t : MSG_T) : list Z := put_int (index_of MSG_Ts t).
(** [operator>>(MSG_T&)] (base/type.cpp:296-301). *)
Definition get_msg_t : getter MSG_T := get_enum MSG_Ts.
(** [operator<<(EXPERT_T)] (base/type.cpp:303-307). *)
Definition put_expert_t (t : EXPERT_T) : list Z := put_int (index_of EXPERT_Ts t).
(** [operator>>(EXPERT_T&)] (base/type.cpp:309-314). *)
Definition get_expert_t : getter EXPERT_T := get_enum EXPERT_Ts.

(** ** Values *)

(** [operator<<(value_t)] (base/type.cpp:232-236). *)
Definition put_value (v : value_t) : list Z := put_pod 1 (v_content v) ++ put_u8 (v_type v).
(** [operator>>(value_t&)] (base/type.cpp:238-242), into a default-constructed
    value: [empty] keeps what the constructor set. *)
Definition get_value : getter value_t :=
  content ← get_pod 1 le_combine; type ← get_u8;
  mret (mk_value type content (v_empty value_default)).

(** [operator<<(kv_pair)] (base/type.cpp:250-254). *)
Definition put_kv (p : kv_pair) : list Z := put_u32 (kv_key p) ++ put_value (kv_value p).
(** [operator>>(kv_pair&)] (base/type.cpp:256-260). *)
Definition get_kv : getter kv_pair := key ← get_u32; value ← get_value; mret (mk_kv key value).

(** [operator<<(vp_list)] (base/type.cpp:262-266). *)
Definition put_vp_list (vp : vp_list) : list Z :=
  put_vid (vpl_vid vp) ++ put_vector put_u16 (vpl_pkeys vp).
(** [operator>>(vp_list&)] (base/type.cpp:268-272). *)
Definition get_vp_list : getter vp_list :=
  vid ← get_vid; pkeys ← get_vector get_u16; mret (mk_vplist vid pkeys).

(** [elem_t] (base/type.hpp:489-494); the content is the [sz] bytes it points
    to, or indeterminate bytes. *)
Record elem_t := mk_elem { el_type : Z; el_sz : Z; el_content : list (option Z) }.

(** [operator<<(elem_t)] (base/type.cpp:274-279), defined when the content is
    initialised. *)
Definition put_elem (e : elem_t) : option (list Z) :=
  vec ← mapM (fun b => b) (el_content e); Some (put_u8 (el_type e) ++ put_pod 1 vec).
(** [operator>>(elem_t&)] (base/type.cpp:281-288): the new buffer is
    allocated but not filled. *)
Definition get_elem : getter elem_t :=
  type ← get_u8; vec ← get_pod 1 le_combine;
  mret (mk_elem type (u32 (Z.of_nat (length vec))) (replicate (length vec) None)).

(** ** Plans *)

(** [Expert_Object] (expert/expert_object.hpp:22-39). *)
Record Expert_Object := mk_expert {
  expert_type : EXPERT_T;
  ex_index : Z;
  next_expert : Z;
  send_remote : bool;
  params : list value_t;
}.

(** [operator<<(Expert_Object)] (expert/expert_object.cpp:93-100). *)
Definition put_expert (o : Expert_Object) : list Z :=
  put_expert_t (expert_type o) ++ put_int (ex_index o) ++ put_int (next_expert o) ++
  put_bool (send_remote o) ++ put_vector put_value (params o).
(** [operator>>(Expert_Object&)] (expert/expert_object.cpp:102-109). *)
Definition get_expert : getter Expert_Object :=
  t ← get_expert_t; i ← get_int; n ← get_int; r ← get_bool; p ← get_vector get_value;
  mret (mk_expert t i n r p).

(** [Expert_Object::IsBarrier] (expert/expert_object.cpp:62-79). *)
Definition IsBarrier (o : Expert_Object) : bool :=
  match expert_type o with
  | E_AGGREGATE | E_COUNT | E_CAP | E_GROUP | E_DEDUP | E_MATH | E_ORDER | E_RANGE
  | E_COIN | E_END | E_POSTVALIDATION => true
  | _ => false
  end.

(** [QueryPlan] (core/exec_plan.hpp:27-40). *)
Record QueryPlan := mk_plan {
  query_index : Z;
  experts : list Expert_Object;
  is_process : bool;
  trx_type : Z;
  trxid : Z;
  st : Z;
}.

(** [operator<<(QueryPlan)] (core/exec_plan.cpp:18-26). *)
Definition put_plan (p : QueryPlan) : list Z :=
  put_u8 (query_index p) ++ put_vector put_expert (experts p) ++ put_bool (is_process p) ++
  put_u8 (trx_type p) ++ put_size (trxid p) ++ put_size (st p).
(** [operator>>(QueryPlan&)] (core/exec_plan.cpp:28-36). *)
Definition get_plan : getter QueryPlan :=
  q ← get_u8; e ← get_vector get_expert; i ← get_bool; t ← get_u8; x ← get_size; s ← get_size;
  mret (mk_plan q e i t x s).

(** ** Messages *)

(** [Branch_Info] (core/message.hpp:35-47). *)
Record Branch_Info := mk_branch {
  bi_node_id : Z; bi_thread_id : Z; bi_index : Z; bi_key : Z; bi_msg_id : Z;
  bi_msg_path : list Z;
}.

(** [operator<<(Branch_Info)] (core/message.cpp:19-27). *)
Definition put_branch (b : Branch_Info) : list Z :=
  put_int (bi_node_id b) ++ put_int (bi_thread_id b) ++ put_int (bi_index b) ++
  put_int (bi_key b) ++ put_size (bi_msg_id b) ++ put_string (bi_msg_path b).
(** [operator>>(Branch_Info&)] (core/message.cpp:29-37). *)
Definition get_branch : getter Branch_Info :=
  n ← get_int; t ← get_int; i ← get_int; k ← get_int; m ← get_size; p ← get_string;
  mret (mk_branch n t i k m p).

(** [Meta] (core/message.hpp:53-80). *)
Record Meta := mk_meta {
  qid : Z; step : Z; query_count_in_trx : Z; msg_type : MSG_T;
  recver_nid : Z; recver_tid : Z; parent_nid : Z; parent_tid : Z;
  msg_path : list Z; branch_infos : list Branch_Info; qplan : QueryPlan;
}.

(** A default-constructed [QueryPlan] (core/exec_plan.hpp:29-29). *)
Definition plan_default : QueryPlan := mk_plan 0 [] true 0 0 0.

(** [operator<<(Meta)] (core/message.cpp:39-54). *)
Definition put_meta (m : Meta) : list Z :=
  put_size (qid m) ++ put_int (step m) ++ put_u8 (query_count_in_trx m) ++
  put_msg_t (msg_type m) ++ put_int (recver_nid m) ++ put_int (recver_tid m) ++
  put_int (parent_nid m) ++ put_int (parent_tid m) ++ put_string (msg_path m) ++
  put_vector put_branch (branch_infos m) ++
  (if decide (msg_type m = M_INIT) then put_plan (qplan m) else []).
(** [operator>>(Meta&)] (core/message.cpp:56-71), into a default-constructed
    [Meta]. *)
Definition get_meta : getter Meta :=
  q ← get_size; s ← get_int; c ← get_u8; t ← get_msg_t; rn ← get_int; rt ← get_int;
  pn ← get_int; pt ← get_int; mp ← get_string; bi ← get_vector get_branch;
  qp ← (if decide (t = M_INIT) then get_plan else mret plan_default);
  mret (mk_meta q s c t rn rt pn pt mp bi qp).

(** [history_t] (core/message.hpp:86-86): pairs of step and value. *)
Definition history_t : Type := list (Z * value_t).

(** [Message] (core/message.hpp:107-123). *)
Record Message := mk_msg {
  meta : Meta; data : list (history_t * list value_t);
  max_data_size : Z; data_size : Z;
}.

(** [operator<<(Message)] (core/message.cpp:95-101). *)
Definition put_msg (m : Message) : list Z :=
  put_meta (meta m) ++
  put_vector (put_pair (put_vector (put_pair put_int put_value)) (put_vector put_value)) (data m) ++
  put_size (max_data_size m) ++ put_size (data_size m).
(** [operator>>(Message&)] (core/message.cpp:103-109). *)
Definition get_msg : getter Message :=
  me ← get_meta;
  d ← get_vector (get_pair (get_vector (get_pair get_int get_value)) (get_vector get_value));
  mx ← get_size; sz ← get_size; mret (mk_msg me d mx sz).

(** ** The records of the loader *)

(** [V_KVpair] (layout/hdfs_data_loader.hpp:32-36). *)
Record V_KVpair := mk_vkv { vkv_key : vpid_t; vkv_value : value_t }.
(** [E_KVpair] (layout/hdfs_data_loader.hpp:38-42). *)
Record E_KVpair := mk_ekv { ekv_key : epid_t; ekv_value : value_t }.
(** [VProperty] (layout/hdfs_data_loader.hpp:44-48). *)
Record VProperty := mk_vprop { vprop_id : vid_t; vprop_plist : list V_KVpair }.
(** [EProperty] (layout/hdfs_data_loader.hpp:50-54). *)
Record EProperty := mk_eprop { eprop_id : eid_t; eprop_plist : list E_KVpair }.
(** [TMPVertex] (layout/hdfs_data_loader.hpp:79-88). *)
Record TMPVertex := mk_tmpv {
  tv_id : vid_t; tv_label : Z; tv_in_nbs : list vid_t; tv_out_nbs : list vid_t;
  tv_vp_label_list : list Z; tv_vp_value_list : list value_t;
}.
(** [TMPOutEdge] (layout/hdfs_data_loader.hpp:90-97). *)
Record TMPOutEdge := mk_tmpoe {
  toe_id : eid_t; toe_label : Z; toe_ep_label_list : list Z; toe_ep_value_list : list value_t;
}.
(** [TMPInEdge] (layout/hdfs_data_loader.hpp:99-102). *)
Record TMPInEdge := mk_tmpie { tie_id : eid_t; tie_label : Z }.

(** [operator<<(V_KVpair)] (layout/hdfs_data_loader.cpp:68-72). *)
Definition put_vkv (p : V_KVpair) : list Z := put_vpid (vkv_key p) ++ put_value (vkv_value p).
(** [operator>>(V_KVpair&)] (layout/hdfs_data_loader.cpp:74-78). *)
Definition get_vkv : getter V_KVpair := k ← get_vpid; v ← get_value; mret (mk_vkv k v).
(** [operator<<(E_KVpair)] (layout/hdfs_data_loader.cpp:80-84). *)
Definition put_ekv (p : E_KVpair) : list Z := put_epid (ekv_key p) ++ put_value (ekv_value p).
(** [operator>>(E_KVpair&)] (layout/hdfs_data_loader.cpp:86-90). *)
Definition get_ekv : getter E_KVpair := k ← get_epid; v ← get_value; mret (mk_ekv k v).
(** [operator<<(VProperty)] (layout/hdfs_data_loader.cpp:92-96). *)
Definition put_vprop (p : VProperty) : list Z :=
  put_vid (vprop_id p) ++ put_vector put_vkv (vprop_plist p).
(** [operator>>(VProperty&)] (layout/hdfs_data_loader.cpp:98-102). *)
Definition get_vprop : getter VProperty :=
  i ← get_vid; l ← get_vector get_vkv; mret (mk_vprop i l).
(** [operator<<(EProperty)] (layout/hdfs_data_loader.cpp:104-108). *)
Definition put_eprop (p : EProperty) : list Z :=
  put_eid (eprop_id p) ++ put_vector put_ekv (eprop_plist p).
(** [operator>>(EProperty&)] (layout/hdfs_data_loader.cpp:110-114). *)
Definition get_eprop : getter EProperty :=
  i ← get_eid; l ← get_vector get_ekv; mret (mk_eprop i l).
(** [operator<<(TMPVertex)] (layout/hdfs_data_loader.cpp:179-187). *)
Definition put_tmpv (v : TMPVertex) : list Z :=
  put_vid (tv_id v) ++ put_u16 (tv_label v) ++ put_vector put_vid (tv_in_nbs v) ++
  put_vector put_vid (tv_out_nbs v) ++ put_vector put_u16 (tv_vp_label_list v) ++
  put_vector put_value (tv_vp_value_list v).
(** [operator>>(TMPVertex&)] (layout/hdfs_data_loader.cpp:189-197). *)
Definition get_tmpv : getter TMPVertex :=
  i ← get_vid; l ← get_u16; ins ← get_vector get_vid; outs ← get_vector get_vid;
  ls ← get_vector get_u16; vs ← get_vector get_value; mret (mk_tmpv i l ins outs ls vs).
(** [operator<<(TMPOutEdge)] (layout/hdfs_data_loader.cpp:199-205). *)
Definition put_tmpoe (e : TMPOutEdge) : list Z :=
  put_eid (toe_id e) ++ put_u16 (toe_label e) ++ put_vector put_u16 (toe_ep_label_list e) ++
  put_vector put_value (toe_ep_value_list e).
(** [operator>>(TMPOutEdge&)] (layout/hdfs_data_loader.cpp:207-213). *)
Definition get_tmpoe : getter TMPOutEdge :=
  i ← get_eid; l ← get_u16; ls ← get_vector get_u16; vs ← get_vector get_value;
  mret (mk_tmpoe i l ls vs).
(** [operator<<(TMPInEdge)] (layout/hdfs_data_loader.cpp:215-219). *)
Definition put_tmpie (e : TMPInEdge) : list Z := put_eid (tie_id e) ++ put_u16 (tie_label e).
(** [operator>>(TMPInEdge&)] (layout/hdfs_data_loader.cpp:221-225). *)
Definition get_tmpie : getter TMPInEdge := i ← get_eid; l ← get_u16; mret (mk_tmpie i l).

(** ** The serializers *)

Abbreviation int_range := (fun z => - 2 ^ 31 <= z < 2 ^ 31).

Lemma enum_roundtrip {A} `{EqDecision A} (l : list A) a :
  a ∈ l -> (length l < 128)%nat ->
  enum_of_int l (index_of l a) = Some a /\ 0 <= index_of l a < Z.of_nat (length l).
Proof.
  intros Hin Hlen. clear Hlen. unfold enum_of_int.
  induction l as [|b l IH]; [by apply elem_of_nil in Hin|]. cbn [index_of length].
  case_decide as Hab; [subst; cbn; split; [done|lia]|].
  destruct IH as [IH1 IH2]; [by apply elem_of_cons in Hin as [->|]|].
  destruct (Z.ltb_spec (index_of l a) 0); [lia|].
  destruct (Z.ltb_spec (1 + index_of l a) 0); [lia|]. split; [|lia].
  rewrite Z2Nat.inj_add by lia. exact IH1.
Qed.

Lemma reads_enum {A} `{EqDecision A} (l : list A) a :
  a ∈ l -> (length l < 128)%nat -> reads (get_enum l) (put_int (index_of l a)) a.
Proof.
  intros Hin Hlen m rest E. unfold get_enum.
  destruct (enum_roundtrip l a Hin Hlen) as [He Hr].
  rewrite (ser_reads s_int (index_of l a)) with (rest := rest);
    [by rewrite He|unfold ser_wf, s_int; lia|done].
Qed.

#[program] Definition s_msg_t : serializer MSG_T := Ser put_msg_t get_msg_t (fun _ => True) _.
Next Obligation. intros t _. apply reads_enum; [|cbn; lia]. destruct t; cbn; set_solver. Qed.
#[program] Definition s_expert_t : serializer EXPERT_T :=
  Ser put_expert_t get_expert_t (fun _ => True) _.
Next Obligation. intros t _. apply reads_enum; [|cbn; lia]. destruct t; cbn; set_solver. Qed.

(** One field read by the serializer [s]; the last field is followed by the
    construction of the record. *)
Ltac field s := eapply reads_bind; [by apply (ser_reads s)|]; cbv beta.
Ltac last_field s := refine (reads_bind_ret _ _ _ _ _); by apply (ser_reads s).

#[program] Definition s_value : serializer value_t :=
  Ser put_value get_value
      (fun v => v_empty v = true /\ fits 8 (v_type v) /\ ser_wf s_chars (v_content v)) _.
Next Obligation.
  intros [t c e] (He & Ht & Hc). cbn in He. subst e. field s_chars. last_field s_u8.
Qed.

#[program] Definition s_kv : serializer kv_pair :=
  Ser put_kv get_kv (fun p => fits 32 (kv_key p) /\ ser_wf s_value (kv_value p)) _.
Next Obligation. intros [k v] (Hk & Hv). field s_u32. last_field s_value. Qed.

#[program] Definition s_vp_list : serializer vp_list :=
  Ser put_vp_list get_vp_list
      (fun p => vid_wf (vpl_vid p) /\ ser_wf (s_vector s_u16) (vpl_pkeys p)) _.
Next Obligation. intros [v l] (Hv & Hl). field s_vid. last_field (s_vector s_u16). Qed.

#[program] Definition s_expert : serializer Expert_Object :=
  Ser put_expert get_expert
      (fun o => int_range (ex_index o) /\ int_range (next_expert o) /\
                ser_wf (s_vector s_value) (params o)) _.
Next Obligation.
  intros [t i n r p] (Hi & Hn & Hp).
  field s_expert_t. field s_int. field s_int. field s_bool. last_field (s_vector s_value).
Qed.

#[program] Definition s_plan : serializer QueryPlan :=
  Ser put_plan get_plan
      (fun p => fits 8 (query_index p) /\ ser_wf (s_vector s_expert) (experts p) /\
                fits 8 (trx_type p) /\ fits 64 (trxid p) /\ fits 64 (st p)) _.
Next Obligation.
  intros [q e i t x s] (Hq & He & Ht & Hx & Hs).
  field s_u8. field (s_vector s_expert). field s_bool. field s_u8. field s_size.
  last_field s_size.
Qed.

#[program] Definition s_branch : serializer Branch_Info :=
  Ser put_branch get_branch
      (fun b => int_range (bi_node_id b) /\ int_range (bi_thread_id b) /\
                int_range (bi_index b) /\ int_range (bi_key b) /\ fits 64 (bi_msg_id b) /\
                ser_wf s_string (bi_msg_path b)) _.
Next Obligation.
  intros [n t i k m p] (Hn & Ht & Hi & Hk & Hm & Hp).
  field s_int. field s_int. field s_int. field s_int. field s_size. last_field s_string.
Qed.

(** The plan travels only with an INIT message; any other message carries a
    default-constructed one. *)
#[program] Definition s_meta : serializer Meta :=
  Ser put_meta get_meta
      (fun m => fits 64 (qid m) /\ int_range (step m) /\ fits 8 (query_count_in_trx m) /\
                int_range (recver_nid m) /\ int_range (recver_tid m) /\
                int_range (parent_nid m) /\ int_range (parent_tid m) /\
                ser_wf s_string (msg_path m) /\ ser_wf (s_vector s_branch) (branch_infos m) /\
                (if decide (msg_type m = M_INIT) then ser_wf s_plan (qplan m)
                 else qplan m = plan_default)) _.
Next Obligation.
  intros [q s c t rn rt pn pt mp bi qp] (? & ? & ? & ? & ? & ? & ? & ? & ? & Hqp).
  cbn [msg_type qplan] in Hqp.
  field s_size. field s_int. field s_u8. field s_msg_t. field s_int. field s_int.
  field s_int. field s_int. field s_string. field (s_vector s_branch).
  cbn [msg_type qplan]. refine (reads_bind_ret _ _ _ _ _). case_decide.
  - by apply (ser_reads s_plan).
  - subst qp. apply reads_ret.
Qed.

Definition s_data : serializer (list (history_t * list value_t)) :=
  s_vector (s_pair (s_vector (s_pair s_int s_value)) (s_vector s_value)).

#[program] Definition s_msg : serializer Message :=
  Ser put_msg get_msg
      (fun m => ser_wf s_meta (meta m) /\ ser_wf s_data (data m) /\
                fits 64 (max_data_size m) /\ fits 64 (data_size m)) _.
Next Obligation.
  intros [me d mx sz] (Hme & Hd & Hmx & Hsz).
  field s_meta. field s_data. field s_size. last_field s_size.
Qed.

#[program] Definition s_vkv : serializer V_KVpair :=
  Ser put_vkv get_vkv (fun p => vpid_wf (vkv_key p) /\ ser_wf s_value (vkv_value p)) _.
Next Obligation. intros [k v] (Hk & Hv). field s_vpid. last_field s_value. Qed.
#[program] Definition s_ekv : serializer E_KVpair :=
  Ser put_ekv get_ekv (fun p => epid_wf (ekv_key p) /\ ser_wf s_value (ekv_value p)) _.
Next Obligation. intros [k v] (Hk & Hv). field s_epid. last_field s_value. Qed.
#[program] Definition s_vprop : serializer VProperty :=
  Ser put_vprop get_vprop
      (fun p => vid_wf (vprop_id p) /\ ser_wf (s_vector s_vkv) (vprop_plist p)) _.
Next Obligation. intros [i l] (Hi & Hl). field s_vid. last_field (s_vector s_vkv). Qed.
#[program] Definition s_eprop : serializer EProperty :=
  Ser put_eprop get_eprop
      (fun p => eid_wf (eprop_id p) /\ ser_wf (s_vector s_ekv) (eprop_plist p)) _.
Next Obligation. intros [i l] (Hi & Hl). field s_eid. last_field (s_vector s_ekv). Qed.

#[program] Definition s_tmpv : serializer TMPVertex :=
  Ser put_tmpv get_tmpv
      (fun v => vid_wf (tv_id v) /\ fits 16 (tv_label v) /\
                ser_wf (s_vector s_vid) (tv_in_nbs v) /\ ser_wf (s_vector s_vid) (tv_out_nbs v) /\
                ser_wf (s_vector s_u16) (tv_vp_label_list v) /\
                ser_wf (s_vector s_value) (tv_vp_value_list v)) _.
Next Obligation.
  intros [i l ins outs ls vs] (? & ? & ? & ? & ? & ?). field s_vid. field s_u16.
  field (s_vector s_vid). field (s_vector s_vid). field (s_vector s_u16).
  last_field (s_vector s_value).
Qed.

#[program] Definition s_tmpoe : serializer TMPOutEdge :=
  Ser put_tmpoe get_tmpoe
      (fun e => eid_wf (toe_id e) /\ fits 16 (toe_label e) /\
                ser_wf (s_vector s_u16) (toe_ep_label_list e) /\
                ser_wf (s_vector s_value) (toe_ep_value_list e)) _.
Next Obligation.
  intros [i l ls vs] (? & ? & ? & ?). field s_eid. field s_u16. field (s_vector s_u16).
  last_field (s_vector s_value).
Qed.

#[program] Definition s_tmpie : serializer TMPInEdge :=
  Ser put_tmpie get_tmpie (fun e => eid_wf (tie_id e) /\ fits 16 (tie_label e)) _.
Next Obligation. intros [i l] (? & ?). field s_eid. last_field s_u16. Qed.

(** ** Properties *)

Lemma reads_at {A} (g : getter A) bs a pre post :
  reads g bs a ->
  g (mk_ob (pre ++ bs ++ post) (length pre)) =
  Some (a, mk_ob (pre ++ bs ++ post) (length pre + length bs)).
Proof.
  intros Hg. rewrite (Hg (mk_ob (pre ++ bs ++ post) (length pre)) post); [done|].
  cbn. by rewrite drop_app_length.
Qed.

Lemma reads_elem t bs :
  fits 8 t -> ser_wf s_chars bs ->
  reads get_elem (put_u8 t ++ put_pod 1 bs)
    (mk_elem t (Z.of_nat (length bs)) (replicate (length bs) None)).
Proof.
  intros Ht Hbs. field s_u8.
  rewrite <- (wrap_small 32 (Z.of_nat (length bs))) by (destruct Hbs; unfold fits; lia).
  apply (reads_bind_ret (get_pod 1 le_combine) (fun vec =>
    mk_elem t (u32 (Z.of_nat (length vec))) (replicate (length vec) None))).
  by apply (ser_reads s_chars).
Qed.

(** C35: a message survives the wire: reading at the position where a worker
    wrote a message - inside any buffer - gives the same message, with its
    meta data, branch stack, query plan (of an INIT message), histories and
    values, and leaves the stream exactly behind it. *)
Theorem message_roundtrip m pre post :
  ser_wf s_msg m ->
  get_msg (mk_ob (pre ++ put_msg m ++ post) (length pre)) =
  Some (m, mk_ob (pre ++ put_msg m ++ post) (length pre + length (put_msg m))).
Proof. intros Hm. apply reads_at. by apply (ser_reads s_msg). Qed.

Definition example_msg : Message :=
  let v := mk_value 1 [7; 0; 0; 0] true in
  mk_msg
    (mk_meta 0x8000000000000103 2 4 M_INIT (-1) 3 0 5 [51; 9; 50]
       [mk_branch 0 1 2 (-1) 99 [51]]
       (mk_plan 3 [mk_expert E_HAS 1 2 true [v]; mk_expert E_END 2 (-1) false []]
          true 1 0x8000000000000100 77))
    [([(2, v)], [v; v]); ([], [])] 1048576 8.

Lemma message_roundtrip_witness :
  get_msg (mk_ob ([1; 2; 3] ++ put_msg example_msg ++ [4]) 3) =
  Some (example_msg, mk_ob ([1; 2; 3] ++ put_msg example_msg ++ [4]) (3 + length (put_msg example_msg))).
Proof.
  apply (message_roundtrip example_msg [1; 2; 3] [4]).
  repeat first [progress cbn | split | apply Forall_cons | apply Forall_nil | by vm_compute | lia].
Defined.

(** The records that the loader shuffles between workers - vertices,
    out-edges, in-edges and the property lists read from HDFS - are rebuilt
    exactly by the receiver, as vectors of any length. *)
Theorem loader_records_roundtrip vs oes ies vps eps pre post :
  ser_wf (s_vector s_tmpv) vs -> ser_wf (s_vector s_tmpoe) oes ->
  ser_wf (s_vector s_tmpie) ies -> ser_wf (s_vector s_vprop) vps ->
  ser_wf (s_vector s_eprop) eps ->
  fst <$> get_vector get_tmpv (mk_ob (pre ++ put_vector put_tmpv vs ++ post) (length pre)) = Some vs /\
  fst <$> get_vector get_tmpoe (mk_ob (pre ++ put_vector put_tmpoe oes ++ post) (length pre)) = Some oes /\
  fst <$> get_vector get_tmpie (mk_ob (pre ++ put_vector put_tmpie ies ++ post) (length pre)) = Some ies /\
  fst <$> get_vector get_vprop (mk_ob (pre ++ put_vector put_vprop vps ++ post) (length pre)) = Some vps /\
  fst <$> get_vector get_eprop (mk_ob (pre ++ put_vector put_eprop eps ++ post) (length pre)) = Some eps.
Proof.
  intros Hv Ho Hi Hvp Hep.
  rewrite (reads_at _ _ vs) by (by apply (ser_reads (s_vector s_tmpv))).
  rewrite (reads_at _ _ oes) by (by apply (ser_reads (s_vector s_tmpoe))).
  rewrite (reads_at _ _ ies) by (by apply (ser_reads (s_vector s_tmpie))).
  rewrite (reads_at _ _ vps) by (by apply (ser_reads (s_vector s_vprop))).
  rewrite (reads_at _ _ eps) by (by apply (ser_reads (s_vector s_eprop))). done.
Qed.

Lemma loader_records_roundtrip_witness :
  let v := mk_tmpv (mk_vid 5) 2 [mk_vid 6] [mk_vid 7; mk_vid 8] [3] [mk_value 1 [9; 0; 0; 0] true] in
  fst <$> get_vector get_tmpv (mk_ob (put_vector put_tmpv [v]) 0) = Some [v].
Proof.
  intros v. rewrite <- (app_nil_r (put_vector put_tmpv [v])).
  apply (loader_records_roundtrip [v] [] [mk_tmpie (mk_eid 1 2) 3] [] [] [] []);
  repeat first [progress cbn | split | apply Forall_cons | apply Forall_nil | by vm_compute | lia].
Defined.

(** An [elem_t] does not survive the wire: the reader allocates a buffer
    of the right size and never copies the bytes into it, so what it holds is
    indeterminate as soon as the content is not empty. *)
Theorem elem_content_lost t bs pre post :
  fits 8 t -> ser_wf s_chars bs ->
  exists bytes, put_elem (mk_elem t (Z.of_nat (length bs)) (Some <$> bs)) = Some bytes /\
  fst <$> get_elem (mk_ob (pre ++ bytes ++ post) (length pre)) =
    Some (mk_elem t (Z.of_nat (length bs)) (replicate (length bs) None)).
Proof.
  intros Ht Hbs. exists (put_u8 t ++ put_pod 1 bs). split.
  - unfold put_elem. cbn [el_content el_type].
    replace (mapM (fun b => b) (Some <$> bs)) with (Some bs); [done|].
    clear. induction bs; cbn; [done|]. by rewrite <- IHbs.
  - by rewrite (reads_at _ _ _ _ _ (reads_elem t bs Ht Hbs)).
Qed.

Lemma elem_content_lost_witness :
  exists bytes, put_elem (mk_elem 4 2 [Some 65; Some 66]) = Some bytes /\
  fst <$> get_elem (mk_ob bytes 0) = Some (mk_elem 4 2 [None; None]).
Proof.
  destruct (elem_content_lost 4 [65; 66] [] []) as (bytes & H1 & H2);
    [by vm_compute|split; [cbn; lia|repeat constructor; by vm_compute]|].
  exists bytes. split; [exact H1|]. rewrite app_nil_r in H2. exact H2.
Defined.
