(* ===== verification/RingBuffer.v ===== *)
(** * core/rdma_mailbox.cpp: mailboxes over one-sided writes

    A worker has one ring buffer per receiving thread and per other worker.  The
    sender reserves space in the ring, and writes a message with a header and a
    footer into the memory of the receiver; the receiver polls the header, waits
    for the footer, takes the message, clears the memory and now and then writes
    its position back to the sender.

    A write over the network becomes visible from lower to higher addresses, in
    aligned words of 8 bytes; nothing else is assumed about when it does. *)
From S2P Require Import Prelude MyMath Sync Types Serialization Wire.
Local Open Scope Z_scope.
Local Open Scope word_scope.

(** ** Memory *)

(** [ceil] (utils/unit.hpp:33-38). *)
Definition ceil (original n : Z) : Z := if original mod n =? 0 then original else original - original mod n + n.
(** [memcpy] of bytes into a buffer, [memset], and [memcpy] out of it. *)
Definition store (mem : list Z) (p : nat) (bytes : list Z) : list Z := take p mem ++ bytes ++ drop (p + length bytes) mem.
Definition memset0 (mem : list Z) (p n : nat) : list Z := store mem p (replicate n 0).
Definition fetch_bytes (mem : list Z) (p n : nat) : list Z := take n (drop p mem).
(** A 64-bit number in a buffer. *)
Definition word_at (mem : list Z) (p : nat) : Z := le_combine (fetch_bytes mem p 8).

(** ** Where the rings are *)

Section Regions.
(** The number of threads of a worker, and the sizes of a ring. *)
Context (num_threads rbf_sz recv_buffer_offset : Z).

(** [Buffer::GetIndex] (core/buffer.hpp:42-46). *)
Definition GetIndex (tid nid ref_nid : Z) : Z := (if nid <? ref_nid then nid else nid - 1) * num_threads + tid.
(** [Buffer::GetRecvBuf] (core/buffer.hpp:89-95), as an offset into the memory of
    the worker [rank]. *)
Definition GetRecvBuf (rank tid nid : Z) : Z := recv_buffer_offset + GetIndex tid nid rank * rbf_sz.
(** [Buffer::GetRecvBufOffset] (core/buffer.hpp:102-108): the offset in the
    memory of the worker [nid] to which the worker [rank] writes. *)
Definition GetRecvBufOffset (rank tid nid : Z) : Z := recv_buffer_offset + GetIndex tid rank nid * rbf_sz.

(** A sender writes where the receiver reads, and the rings of different threads
    or workers do not overlap. *)
Lemma rings_agree a b tid : GetRecvBufOffset a tid b = GetRecvBuf b tid a.
Proof. done. Qed.
Theorem rings_disjoint rank tid nid tid' nid' :
  0 < rbf_sz -> 0 <= tid < num_threads -> 0 <= tid' < num_threads -> nid <> rank -> nid' <> rank ->
  (tid, nid) <> (tid', nid') ->
  GetRecvBuf rank tid nid + rbf_sz <= GetRecvBuf rank tid' nid' \/ GetRecvBuf rank tid' nid' + rbf_sz <= GetRecvBuf rank tid nid.
Proof.
  intros Hs Ht Ht' Hn Hn' Hne. unfold GetRecvBuf, GetIndex.
  set (x := if nid <? rank then nid else nid - 1). set (y := if nid' <? rank then nid' else nid' - 1).
  assert (x = y -> nid = nid') as Hxy.
  { unfold x, y. destruct (Z.ltb_spec nid rank), (Z.ltb_spec nid' rank); lia. }
  assert (x * num_threads + tid <> y * num_threads + tid') as Hd.
  { intros E. assert (x = y) as Exy by nia. apply Hne. f_equal; [|by apply Hxy]. rewrite Exy in E. lia. }
  destruct (Z.lt_ge_cases (x * num_threads + tid) (y * num_threads + tid')); [left|right]; nia.
Qed.
End Regions.

(** ** One ring *)

Section Ring.
(** The size of the ring. *)
Context (rbf_sz : Z).

(** The memory and the position of the reader, and the position that it has
    published [rbf_lmeta_t] (core/rdma_mailbox.hpp:69-72); the position of the
    writers, and the position of the reader as they know it [rbf_rmeta_t]
    (core/rdma_mailbox.hpp:64-67). *)
Record ring := mk_ring { rbf : list Z; head : Z; local_head : Z; tail : Z; remote_head : Z }.

(** The size of a message in the ring. *)
Definition msg_size (data_sz : Z) : Z := 8 + ceil data_sz 8 + 8.
(** [RdmaMailbox::IsBufferFull] (core/rdma_mailbox.cpp:88-94). *)
Definition IsBufferFull (r : ring) (msg_sz : Z) : bool := rbf_sz <? (tail r -64 remote_head r) +64 msg_sz.
(** The first part of [SendData], with the lock: the offset of the message. *)
Definition reserve (r : ring) (data_sz : Z) : option (Z * ring) :=
  if IsBufferFull r (msg_size data_sz) then None
  else Some (tail r, mk_ring (rbf r) (head r) (local_head r) (tail r +64 msg_size data_sz) (remote_head r)).
(** What is built in the send buffer; the bytes between the data and the footer
    are left over from other messages. *)
Definition image (data pad : list Z) : list Z :=
  le_split 8 (Z.of_nat (length data)) ++ data ++ pad ++ le_split 8 (Z.of_nat (length data)).
(** The last part of [SendData]: one write, or two around the end of the ring. *)
Definition ring_write (mem : list Z) (off : Z) (bytes : list Z) : list Z :=
  let msg_sz := Z.of_nat (length bytes) in
  if off / rbf_sz =? (off + msg_sz - 1) / rbf_sz then store mem (Z.to_nat (off mod rbf_sz)) bytes
  else
    let sz := Z.to_nat (rbf_sz - off mod rbf_sz) in
    store (store mem (Z.to_nat (off mod rbf_sz)) (take sz bytes)) 0 (drop sz bytes).
(** [RdmaMailbox::SendData] (core/rdma_mailbox.cpp:124-168). *)
Definition SendData (r : ring) (data pad : list Z) : bool * ring :=
  match reserve r (Z.of_nat (length data)) with
  | None => (false, r)
  | Some (off, r) => (true, mk_ring (ring_write (rbf r) off (image data pad)) (head r) (local_head r) (tail r) (remote_head r))
  end.

Definition at_head (r : ring) (k : Z) : nat := Z.to_nat ((head r + k) mod rbf_sz).
(** [RdmaMailbox::CheckRecvBuf] (core/rdma_mailbox.cpp:212-218). *)
Definition CheckRecvBuf (r : ring) : bool := negb (word_at (rbf r) (at_head r 0) =? 0).
(** The outcomes of a look at the footer. *)
Inductive fetch_result := Fetched (msg : list Z) (r : ring) | Nothing | Waits | Fails.
(** [RdmaMailbox::FetchMsgFromRecvBuf] (core/rdma_mailbox.cpp:220-284), up to the
    write of the new position, which becomes visible later. *)
Definition FetchMsgFromRecvBuf (r : ring) : fetch_result :=
  let size := word_at (rbf r) (at_head r 0) in
  let footer := at_head r (8 + ceil size 8) in
  if size =? 0 then Nothing
  else if word_at (rbf r) footer =? size then
    let start := (head r + 8) mod rbf_sz in
    let end_ := (head r + 8 + size) mod rbf_sz in
    let '(msg, mem) :=
      if end_ <? start then
        (fetch_bytes (rbf r) (Z.to_nat start) (Z.to_nat (size - end_)) ++ fetch_bytes (rbf r) 0 (Z.to_nat end_),
         memset0 (memset0 (rbf r) (Z.to_nat start) (Z.to_nat (size - end_))) 0 (Z.to_nat (ceil end_ 8)))
      else
        (fetch_bytes (rbf r) (Z.to_nat start) (Z.to_nat size), memset0 (rbf r) (Z.to_nat start) (Z.to_nat (ceil size 8))) in
    let mem := memset0 (memset0 mem (at_head r 0) 8) footer 8 in
    let head' := head r +64 (2 * 8 + ceil size 8) in
    let local_head' := if rbf_sz / 16 <? head' -64 local_head r then head' else local_head r in
    Fetched msg (mk_ring mem head' local_head' (tail r) (remote_head r))
  else if word_at (rbf r) footer =? 0 then Waits else Fails.

(** ** A run of a ring *)

(** A message on its way: its data, the left-over bytes, and the number of words
    that are visible. *)
Record transfer := mk_tr { t_data : list Z; t_pad : list Z; t_seen : nat }.
Definition t_size (t : transfer) : Z := msg_size (Z.of_nat (length (t_data t))).
Definition offsets (from : Z) (ts : list transfer) : Z := from + foldr (fun t s => t_size t + s) 0 ts.

(** Several threads send to the ring at the same time: each first reserves the
    space, and then its words become visible.  [ts] are the messages that have not
    been taken, [got] the ones that have, and [sent] all of them. *)
Inductive ring_run : ring -> list transfer -> list (list Z) -> list (list Z) -> Prop :=
| rr_init : ring_run (mk_ring (replicate (Z.to_nat rbf_sz) 0) 0 0 0 0) [] [] []
| rr_reserve r ts got sent data pad off r' :
    ring_run r ts got sent -> data <> [] -> Z.of_nat (length data + length pad) = ceil (Z.of_nat (length data)) 8 ->
    tail r + msg_size (Z.of_nat (length data)) < 2 ^ 64 ->
    reserve r (Z.of_nat (length data)) = Some (off, r') -> ring_run r' (ts ++ [mk_tr data pad 0]) got (sent ++ [data])
| rr_visible r ts1 t ts2 got sent :
    ring_run r (ts1 ++ t :: ts2) got sent -> 8 * Z.of_nat (S (t_seen t)) <= t_size t ->
    ring_run (mk_ring (store (rbf r) (Z.to_nat ((offsets (head r) ts1 + 8 * Z.of_nat (t_seen t)) mod rbf_sz))
        (fetch_bytes (image (t_data t) (t_pad t)) (8 * t_seen t) 8)) (head r) (local_head r) (tail r) (remote_head r))
      (ts1 ++ mk_tr (t_data t) (t_pad t) (S (t_seen t)) :: ts2) got sent
| rr_fetch r ts got sent msg r' :
    ring_run r ts got sent -> CheckRecvBuf r = true -> FetchMsgFromRecvBuf r = Fetched msg r' ->
    ring_run r' (tl ts) (got ++ [msg]) sent
| rr_publish r ts got sent :
    ring_run r ts got sent -> ring_run (mk_ring (rbf r) (head r) (local_head r) (tail r) (local_head r)) ts got sent.

(** ** Rotated memory *)

Lemma store_lookup mem p w i :
  (p + length w <= length mem)%nat ->
  store mem p w !! i = if decide (p <= i < p + length w)%nat then w !! (i - p)%nat else mem !! i.
Proof.
  intros Hl. unfold store. assert (length (take p mem) = p) as Hp by (rewrite length_take; lia). case_decide as Hi.
  - rewrite lookup_app_r, Hp, lookup_app_l by lia. done.
  - destruct (decide (i < p)%nat).
    + rewrite lookup_app_l, lookup_take by lia. by rewrite decide_True.
    + rewrite lookup_app_r, Hp, lookup_app_r, lookup_drop by lia. f_equal. lia.
Qed.
Lemma length_store mem p w : (p + length w <= length mem)%nat -> length (store mem p w) = length mem.
Proof. intros Hl. unfold store. rewrite !length_app, length_take, length_drop. lia. Qed.
Lemma store_middle a b c w : length b = length w -> store (a ++ b ++ c) (length a) w = a ++ w ++ c.
Proof.
  intros Hb. unfold store. rewrite take_app_length. f_equal. f_equal. rewrite <- Hb, drop_app_ge by lia.
  replace (length a + length b - length a)%nat with (length b) by lia. by rewrite drop_app_length.
Qed.

(** The memory from a position on, and then from its beginning. *)
Definition rot (h : nat) (l : list Z) : list Z := drop h l ++ take h l.
Lemma length_rot h l : length (rot h l) = length l.
Proof. unfold rot. rewrite length_app, length_drop, length_take. lia. Qed.
Lemma rot_lookup h l i :
  (h <= length l)%nat -> (i < length l)%nat ->
  rot h l !! i = if decide (i < length l - h)%nat then l !! (h + i)%nat else l !! (i - (length l - h))%nat.
Proof.
  intros Hh Hi. unfold rot. case_decide as E.
  - rewrite lookup_app_l, lookup_drop by (rewrite length_drop; lia). done.
  - rewrite lookup_app_r by (rewrite length_drop; lia). rewrite length_drop, lookup_take, decide_True by lia. done.
Qed.
(** The place of a position in the rotated memory. *)
Definition place (h n p : nat) : nat := if decide (h <= p)%nat then (p - h)%nat else (p + (n - h))%nat.
Lemma rot_store h l p w :
  (h <= length l)%nat -> (p + length w <= length l)%nat -> (h <= p \/ p + length w <= h)%nat ->
  rot h (store l p w) = store (rot h l) (place h (length l) p) w.
Proof.
  intros Hh Hp Hc. assert (place h (length l) p + length w <= length l)%nat as Hq by (unfold place; case_decide; lia).
  apply list_eq. intros i. destruct (decide (i < length l)%nat) as [Hi|Hi].
  2: { rewrite !lookup_ge_None_2; [done| |]; rewrite ?length_store; rewrite ?length_rot; rewrite ?length_store; lia. }
  rewrite rot_lookup by (rewrite length_store; lia). rewrite length_store by lia.
  rewrite store_lookup with (mem := rot h l) by (rewrite length_rot; lia). rewrite rot_lookup by lia. rewrite !store_lookup by lia.
  unfold place in *. repeat case_decide; try lia; try done; f_equal; lia.
Qed.
Lemma rot_fetch h l p n :
  (h <= length l)%nat -> (p + n <= length l)%nat -> (h <= p \/ p + n <= h)%nat ->
  fetch_bytes l p n = fetch_bytes (rot h l) (place h (length l) p) n.
Proof.
  intros Hh Hp Hc. unfold fetch_bytes. apply list_eq. intros i. rewrite !lookup_take. case_decide as Hi; [|done].
  rewrite !lookup_drop. assert (place h (length l) p + n <= length l)%nat as Hq by (unfold place; case_decide; lia).
  rewrite rot_lookup by lia. unfold place in *. repeat case_decide; try lia; f_equal; lia.
Qed.
Lemma rot_rot h k l : (h <= length l)%nat -> (k <= length l)%nat ->
  rot k (rot h l) = rot (if decide (h + k < length l)%nat then h + k else h + k - length l)%nat l.
Proof.
  intros Hh Hk. apply list_eq. intros i. destruct (decide (i < length l)%nat) as [Hi|Hi].
  2: { rewrite !lookup_ge_None_2; rewrite ?length_rot; try done; lia. }
  rewrite rot_lookup by (rewrite ?length_rot; lia). rewrite length_rot.
  case_decide as E1; case_decide as E2; rewrite !rot_lookup by lia; repeat case_decide; try lia; f_equal; lia.
Qed.

Lemma fetch_add l p n m : fetch_bytes l p (n + m) = fetch_bytes l p n ++ fetch_bytes l (p + n) m.
Proof. unfold fetch_bytes. by rewrite <- drop_drop, take_take_drop. Qed.
Lemma store_store l p w1 w2 : (p + length w1 + length w2 <= length l)%nat -> store (store l p w1) (p + length w1) w2 = store l p (w1 ++ w2).
Proof.
  intros H. unfold store. rewrite length_app. set (a := take p l). assert (length a = p) as Ha by (unfold a; rewrite length_take; lia).
  rewrite (app_assoc a w1). rewrite take_app_length' by (rewrite length_app; lia).
  rewrite drop_app_ge by (rewrite length_app; lia). rewrite length_app, drop_drop, Ha.
  rewrite <- !app_assoc. do 3 f_equal. f_equal. lia.
Qed.
Lemma store_inside a b c k w : (k + length w <= length b)%nat -> store (a ++ b ++ c) (length a + k) w = a ++ store b k w ++ c.
Proof.
  intros H. unfold store. rewrite take_app, (take_ge a) by lia. replace (length a + k - length a)%nat with k by lia.
  rewrite (take_app_le b) by lia. rewrite <- !app_assoc. f_equal. f_equal. f_equal.
  rewrite drop_app_ge by lia. replace (length a + k + length w - length a)%nat with (k + length w)%nat by lia.
  by rewrite drop_app_le by lia.
Qed.

Lemma ceil_spec n : 0 <= n -> (8 | ceil n 8) /\ n <= ceil n 8 < n + 8.
Proof.
  intros Hn. unfold ceil. pose proof (Z.div_mod n 8 ltac:(lia)) as E. pose proof (Z.mod_pos_bound n 8 ltac:(lia)).
  destruct (Z.eqb_spec (n mod 8) 0) as [E0|E0].
  - split; [by apply Z.mod_divide|lia].
  - split; [exists (n / 8 + 1); lia|lia].
Qed.
Lemma ceil_add a n : 0 <= n -> (8 | a) -> ceil (a + n) 8 = a + ceil n 8.
Proof.
  intros Hn [k ->]. unfold ceil. rewrite (Z.add_comm (k * 8)), Z.mod_add by lia. destruct (n mod 8 =? 0); lia.
Qed.

(** ** Messages on their way *)

(** What is visible of a message. *)
Definition vimg (t : transfer) : list Z :=
  let img := image (t_data t) (t_pad t) in take (8 * t_seen t) img ++ replicate (length img - 8 * t_seen t) 0.
Definition tr_ok (t : transfer) : Prop :=
  t_data t <> [] /\ Z.of_nat (length (t_data t) + length (t_pad t)) = ceil (Z.of_nat (length (t_data t))) 8 /\ 8 * Z.of_nat (t_seen t) <= t_size t.

Lemma length_image d p : Z.of_nat (length d + length p) = ceil (Z.of_nat (length d)) 8 -> Z.of_nat (length (image d p)) = msg_size (Z.of_nat (length d)).
Proof. intros H. unfold image, msg_size. rewrite !length_app, !length_le_split. lia. Qed.
Lemma t_size_pos t : 16 <= t_size t /\ (8 | t_size t).
Proof.
  unfold t_size, msg_size. destruct (ceil_spec (Z.of_nat (length (t_data t)))) as [[k Hk] Hc]; [lia|]. split; [lia|]. exists (k + 2). lia.
Qed.
Lemma length_vimg t : tr_ok t -> Z.of_nat (length (vimg t)) = t_size t.
Proof.
  intros (_ & Hp & Hs). pose proof (length_image _ _ Hp) as Hi. unfold vimg, t_size in *. rewrite length_app, length_take, length_replicate. lia.
Qed.
Lemma offsets_app h ts1 ts2 : offsets h (ts1 ++ ts2) = offsets (offsets h ts1) ts2.
Proof.
  unfold offsets. rewrite foldr_app. generalize (foldr (fun t s => t_size t + s) 0 ts2) as x. intros x.
  induction ts1 as [|t ts1 IH]; cbn; lia.
Qed.
Lemma offsets_cons h t ts : offsets h (t :: ts) = offsets (h + t_size t) ts.
Proof. unfold offsets. cbn. lia. Qed.
Lemma offsets_ge h ts : h <= offsets h ts /\ ((8 | h) -> (8 | offsets h ts)).
Proof.
  revert h. induction ts as [|t ts IH]; intros h; [unfold offsets; cbn; rewrite Z.add_0_r; done|].
  rewrite offsets_cons. destruct (IH (h + t_size t)) as [H1 H2]. pose proof (t_size_pos t) as [H3 H4]. split; [lia|].
  intros H. apply H2. by apply Z.divide_add_r.
Qed.
Lemma length_vimgs h ts : Forall tr_ok ts -> Z.of_nat (length (concat (vimg <$> ts))) = offsets h ts - h.
Proof.
  intros H. revert h. induction H as [|t ts Ht Hts IH]; intros h; [unfold offsets; cbn; lia|].
  rewrite fmap_cons. cbn [concat]. rewrite length_app, Nat2Z.inj_add, (length_vimg t Ht), (IH (h + t_size t)), offsets_cons. lia.
Qed.
Lemma vimg_step t :
  tr_ok t -> 8 * Z.of_nat (S (t_seen t)) <= t_size t ->
  vimg (mk_tr (t_data t) (t_pad t) (S (t_seen t))) = store (vimg t) (8 * t_seen t) (fetch_bytes (image (t_data t) (t_pad t)) (8 * t_seen t) 8).
Proof.
  intros Ht Hs. pose proof (length_vimg t Ht) as Hv. destruct Ht as (_ & Hp & _). pose proof (length_image _ _ Hp) as Hi.
  unfold vimg in *. cbn [t_data t_pad t_seen]. unfold t_size in *. set (img := image (t_data t) (t_pad t)) in *. set (k := t_seen t) in *.
  assert (length (fetch_bytes img (8 * k) 8) = 8%nat) as Hw by (unfold fetch_bytes; rewrite length_take, length_drop; lia).
  replace (length img - 8 * k)%nat with (8 + (length img - 8 * S k))%nat by lia. rewrite replicate_add.
  replace (8 * k)%nat with (length (take (8 * k) img)) at 2 by (rewrite length_take; lia).
  rewrite store_middle by (rewrite length_replicate; done). rewrite app_assoc. f_equal.
  unfold fetch_bytes. rewrite take_take_drop. f_equal. lia.
Qed.

(** ** Positions in the ring *)

Context (Hsz : 0 < rbf_sz) (Hal : (8 | rbf_sz)).

Lemma ring_mod head k : 0 <= k <= rbf_sz ->
  (head + k) mod rbf_sz = if decide (head mod rbf_sz + k < rbf_sz) then head mod rbf_sz + k else head mod rbf_sz + k - rbf_sz.
Proof.
  intros Hk. pose proof (Z.mod_pos_bound head rbf_sz Hsz). case_decide.
  - rewrite <- (Z.add_mod_idemp_l head k rbf_sz), Z.mod_small by lia. done.
  - rewrite <- (Z.add_mod_idemp_l head k rbf_sz) by lia. symmetry. apply (Z.mod_unique _ _ 1); lia.
Qed.
Lemma mod_aligned head : (8 | head) -> (8 | head mod rbf_sz).
Proof.
  intros H. rewrite Z.mod_eq by lia. apply Z.divide_sub_r; [done|]. by apply Z.divide_mul_l.
Qed.

(** The position of a word of the ring in the rotated memory. *)
Lemma word_place head k (l : list Z) :
  length l = Z.to_nat rbf_sz -> (8 | head) -> (8 | k) -> 0 <= k -> k + 8 <= rbf_sz ->
  let h := Z.to_nat (head mod rbf_sz) in let p := Z.to_nat ((head + k) mod rbf_sz) in
  (h <= length l)%nat /\ (p + 8 <= length l)%nat /\ (h <= p \/ p + 8 <= h)%nat /\ place h (length l) p = Z.to_nat k.
Proof.
  intros Hl Ha Hk H0 H8 h p. pose proof (Z.mod_pos_bound head rbf_sz Hsz). pose proof (mod_aligned head Ha) as [a Ea].
  destruct Hk as [b Eb], Hal as [c Ec]. pose proof (ring_mod head k ltac:(lia)) as Em. subst h p. rewrite Hl. unfold place.
  case_decide; rewrite Em; split_and!; try lia; case_decide; lia.
Qed.
Lemma word_at_place head k l :
  length l = Z.to_nat rbf_sz -> (8 | head) -> (8 | k) -> 0 <= k -> k + 8 <= rbf_sz ->
  word_at l (Z.to_nat ((head + k) mod rbf_sz)) = word_at (rot (Z.to_nat (head mod rbf_sz)) l) (Z.to_nat k).
Proof.
  intros Hl Ha Hk H0 H8. destruct (word_place head k l Hl Ha Hk H0 H8) as (H1 & H2 & H3 & H4). unfold word_at.
  rewrite (rot_fetch _ _ _ _ H1 H2 H3). by rewrite H4.
Qed.
Lemma store_place head k l w :
  length l = Z.to_nat rbf_sz -> (8 | head) -> (8 | k) -> 0 <= k -> k + 8 <= rbf_sz -> length w = 8%nat ->
  rot (Z.to_nat (head mod rbf_sz)) (store l (Z.to_nat ((head + k) mod rbf_sz)) w) =
  store (rot (Z.to_nat (head mod rbf_sz)) l) (Z.to_nat k) w.
Proof.
  intros Hl Ha Hk H0 H8 Hw. destruct (word_place head k l Hl Ha Hk H0 H8) as (H1 & H2 & H3 & H4).
  rewrite rot_store by (rewrite ?Hw; done). by rewrite H4.
Qed.

(** ** The invariant of a ring *)

Record ring_inv (r : ring) (ts : list transfer) : Prop := {
  ri_len : length (rbf r) = Z.to_nat rbf_sz;
  ri_order : 0 <= remote_head r /\ remote_head r <= local_head r /\ local_head r <= head r;
  ri_aligned : (8 | head r);
  ri_tail : tail r = offsets (head r) ts /\ tail r - remote_head r <= rbf_sz /\ tail r < 2 ^ 64;
  ri_published : head r - local_head r <= rbf_sz / 16;
  ri_mem : rot (Z.to_nat (head r mod rbf_sz)) (rbf r) = concat (vimg <$> ts) ++ replicate (Z.to_nat (rbf_sz - (tail r - head r))) 0;
  ri_ts : Forall tr_ok ts;
}.

(** Writing a word of a message. *)
Lemma ring_inv_visible r ts1 t ts2 :
  ring_inv r (ts1 ++ t :: ts2) -> 8 * Z.of_nat (S (t_seen t)) <= t_size t ->
  ring_inv (mk_ring (store (rbf r) (Z.to_nat ((offsets (head r) ts1 + 8 * Z.of_nat (t_seen t)) mod rbf_sz))
      (fetch_bytes (image (t_data t) (t_pad t)) (8 * t_seen t) 8)) (head r) (local_head r) (tail r) (remote_head r))
    (ts1 ++ mk_tr (t_data t) (t_pad t) (S (t_seen t)) :: ts2).
Proof.
  intros [I1 I2 I3 (I4 & I5 & I6) I7 I8 I9] Hs. apply Forall_app in I9 as [J1 [Jt J2]%Forall_cons].
  set (t' := mk_tr (t_data t) (t_pad t) (S (t_seen t))). set (w := fetch_bytes _ _ _).
  assert (t_size t' = t_size t) as Et by done.
  assert (tr_ok t') as Jt'. { destruct Jt as (H1 & H2 & _). by split_and!. }
  assert (offsets (head r) (ts1 ++ t' :: ts2) = offsets (head r) (ts1 ++ t :: ts2)) as Eo.
  { rewrite !offsets_app, !offsets_cons. by rewrite Et. }
  destruct (offsets_ge (head r) ts1) as [G1 G2]. specialize (G2 I3).
  assert (offsets (head r) ts1 + t_size t <= tail r) as G3.
  { rewrite I4, offsets_app, offsets_cons. by apply offsets_ge. }
  pose proof (length_image _ _ (proj1 (proj2 Jt))) as Hi.
  assert (length w = 8%nat) as Hw by (unfold w, fetch_bytes; rewrite length_take, length_drop; unfold t_size in *; lia).
  set (k := offsets (head r) ts1 - head r + 8 * Z.of_nat (t_seen t)).
  replace (offsets (head r) ts1 + 8 * Z.of_nat (t_seen t)) with (head r + k) by (unfold k; lia).
  assert ((8 | k) /\ 0 <= k /\ k + 8 <= rbf_sz) as (K1 & K2 & K3).
  { unfold k. split_and!; [|lia|lia]. apply Z.divide_add_r; [by apply Z.divide_sub_r|by exists (Z.of_nat (t_seen t)); lia]. }
  destruct (word_place (head r) k (rbf r) I1 I3 K1 K2 K3) as (P1 & P2 & P3 & P4).
  split; cbn [rbf head local_head tail remote_head]; try done.
  - rewrite length_store by (rewrite Hw; done). done.
  - by rewrite Eo.
  - rewrite store_place by done. rewrite I8. rewrite !fmap_app. cbn [fmap list_fmap]. rewrite !concat_app. cbn [concat].
    replace (Z.to_nat k) with (length (concat (vimg <$> ts1)) + 8 * t_seen t)%nat.
    2: { pose proof (length_vimgs (head r) ts1 J1). unfold k. lia. }
    rewrite <- !app_assoc. rewrite store_inside.
    + unfold t'. by rewrite (vimg_step t Jt Hs).
    + rewrite Hw. pose proof (length_vimg t Jt). lia.
  - apply Forall_app. split; [done|]. by constructor.
Qed.

(** The data region of the message at the head. *)
Lemma data_region head N l :
  length l = Z.to_nat rbf_sz -> (8 | head) -> 0 < N -> 16 + ceil N 8 <= rbf_sz ->
  let h := Z.to_nat (head mod rbf_sz) in
  let start := (head + 8) mod rbf_sz in let end_ := (head + 8 + N) mod rbf_sz in
  let '(msg, mem) :=
    if end_ <? start then
      (fetch_bytes l (Z.to_nat start) (Z.to_nat (N - end_)) ++ fetch_bytes l 0 (Z.to_nat end_),
       memset0 (memset0 l (Z.to_nat start) (Z.to_nat (N - end_))) 0 (Z.to_nat (ceil end_ 8)))
    else (fetch_bytes l (Z.to_nat start) (Z.to_nat N), memset0 l (Z.to_nat start) (Z.to_nat (ceil N 8))) in
  msg = fetch_bytes (rot h l) 8 (Z.to_nat N) /\ length mem = length l /\
  rot h mem = store (rot h l) 8 (replicate (Z.to_nat (ceil N 8)) 0).
Proof.
  intros Hl Ha HN Hfit h start end_. destruct (ceil_spec N ltac:(lia)) as [HcN1 HcN2].
  pose proof (Z.mod_pos_bound head rbf_sz Hsz) as Hh. pose proof (mod_aligned head Ha) as Hha.
  assert (start = if decide (head mod rbf_sz + 8 < rbf_sz) then head mod rbf_sz + 8 else head mod rbf_sz + 8 - rbf_sz) as Es
    by (apply ring_mod; lia).
  assert (end_ = if decide (head mod rbf_sz + (8 + N) < rbf_sz) then head mod rbf_sz + (8 + N) else head mod rbf_sz + (8 + N) - rbf_sz) as Ee.
  { unfold end_. rewrite <- Z.add_assoc. apply ring_mod. lia. }
  clearbody start end_. set (hz := head mod rbf_sz) in *. clearbody hz.
  destruct Hha as [a Ea], Hal as [c Ec], HcN1 as [b Eb].
  destruct (Z.ltb_spec end_ start) as [Hw|Hw].
  - (* the data wraps *)
    assert (hz + 8 < rbf_sz) as H1 by (revert Hw; rewrite Es, Ee; repeat case_decide; lia). rewrite decide_True in Es by done.
    assert (rbf_sz <= hz + (8 + N)) as H2 by (revert Hw; rewrite Es, Ee; repeat case_decide; lia). rewrite decide_False in Ee by lia.
    assert (N - end_ = rbf_sz - hz - 8) as E1 by lia. rewrite E1.
    assert (ceil end_ 8 = ceil N 8 - (rbf_sz - hz - 8)) as E2.
    { replace N with ((rbf_sz - hz - 8) + end_) at 1 by lia. rewrite ceil_add; [lia|lia|]. exists (c - a - 1). lia. }
    rewrite E2. split_and!.
    + replace (Z.to_nat N) with (Z.to_nat (rbf_sz - hz - 8) + Z.to_nat end_)%nat by lia. rewrite fetch_add. f_equal.
      * rewrite (rot_fetch h) by (unfold h; lia). f_equal. unfold place, h. rewrite Hl. case_decide; lia.
      * rewrite (rot_fetch h) by (unfold h; lia). f_equal. unfold place, h. rewrite Hl. case_decide; lia.
    + unfold memset0. rewrite !length_store; rewrite ?length_store; rewrite ?length_replicate; lia.
    + unfold memset0. rewrite rot_store; rewrite ?length_store; rewrite ?length_replicate; try (unfold h; lia).
      rewrite rot_store; rewrite ?length_replicate; try (unfold h; lia).
      replace (place h (length l) (Z.to_nat start)) with 8%nat by (unfold place, h; rewrite Hl; case_decide; lia).
      replace (place h (length l) 0) with (8 + length (replicate (Z.to_nat (rbf_sz - hz - 8)) 0%Z))%nat
        by (rewrite length_replicate; unfold place, h; rewrite Hl; case_decide; lia).
      rewrite store_store by (rewrite !length_replicate, length_rot; lia). rewrite <- replicate_add. do 2 f_equal. lia.
  - assert ((Z.to_nat start + Z.to_nat (ceil N 8) <= length l)%nat /\ place h (length l) (Z.to_nat start) = 8%nat /\
      (h <= Z.to_nat start \/ Z.to_nat start + Z.to_nat (ceil N 8) <= h)%nat) as (P1 & P2 & P3).
    { unfold place, h. rewrite Hl. revert Hw. rewrite Es, Ee. repeat case_decide; intros Hw; lia. }
    split_and!.
    + rewrite (rot_fetch h) by (unfold h in *; lia). by rewrite P2.
    + unfold memset0. rewrite length_store; rewrite ?length_replicate; lia.
    + unfold memset0. rewrite rot_store; rewrite ?length_replicate; try (unfold h in *; lia). by rewrite P2.
Qed.

Lemma fetch_inside a b c p n : (p + n <= length b)%nat -> fetch_bytes (a ++ b ++ c) (length a + p) n = fetch_bytes b p n.
Proof.
  intros H. unfold fetch_bytes. rewrite drop_app_ge by lia. replace (length a + p - length a)%nat with p by lia.
  rewrite drop_app_le by lia. rewrite take_app_le; [done|]. rewrite length_drop. lia.
Qed.
Lemma le_combine_zeros n : le_combine (replicate n 0) = 0.
Proof. induction n as [|n IH]; [done|]. cbn. by rewrite IH. Qed.

Lemma clear_three hdr dp ftr rest n :
  length hdr = 8%nat -> length dp = n -> length ftr = 8%nat ->
  store (store (store (hdr ++ dp ++ ftr ++ rest) 8 (replicate n 0)) 0 (replicate 8 0)) (8 + n) (replicate 8 0) = replicate (16 + n) 0 ++ rest.
Proof.
  intros Hh Hd Hf. rewrite <- Hh at 1. rewrite store_middle by (by rewrite length_replicate).
  pose proof (store_middle [] hdr (replicate n 0 ++ ftr ++ rest) (replicate 8 0)) as E. cbn [app length] in E.
  rewrite E by (by rewrite length_replicate). rewrite app_assoc.
  replace (8 + n)%nat with (length (replicate 8 0 ++ replicate n 0)) by (rewrite length_app, !length_replicate; done).
  rewrite store_middle by (by rewrite length_replicate). rewrite !app_assoc, <- !replicate_add. do 2 f_equal. lia.
Qed.

Definition complete (t : transfer) : bool := 8 * Z.of_nat (t_seen t) =? t_size t.
(** What the reader sees of the first message. *)
Lemma vimg_words t :
  tr_ok t -> t_size t < 2 ^ 64 -> let N := Z.of_nat (length (t_data t)) in
  word_at (vimg t) 0 = (if (t_seen t =? 0)%nat then 0 else N) /\
  word_at (vimg t) (Z.to_nat (8 + ceil N 8)) = (if complete t then N else 0).
Proof.
  intros Ht Hlt N. destruct Ht as (Hd & Hp & Hs). pose proof (length_image _ _ Hp) as Hi. destruct (ceil_spec N ltac:(lia)) as [[b Eb] HcN].
  unfold word_at, vimg, complete. unfold t_size, msg_size in *. fold N in Hp, Hi, Hs, Hlt |- *. set (img := image (t_data t) (t_pad t)) in *.
  assert (le_combine (le_split 8 N) = N) as Hc by (rewrite le_combine_split; apply wrap_small; unfold fits; lia).
  split.
  - destruct (Nat.eqb_spec (t_seen t) 0) as [->|Hn].
    + rewrite Nat.mul_0_r, take_0, Nat.sub_0_r. cbn [app]. unfold fetch_bytes. rewrite drop_0, take_replicate. apply le_combine_zeros.
    + transitivity (le_combine (le_split 8 N)); [|done]. f_equal. unfold fetch_bytes. rewrite drop_0, take_app_le by (rewrite length_take; lia).
      rewrite take_take, Nat.min_l by lia. unfold img, image. fold N. rewrite take_app_length'; [done|by rewrite length_le_split].
  - destruct (Z.eqb_spec (8 * Z.of_nat (t_seen t)) (8 + ceil N 8 + 8)) as [E|E].
    + transitivity (le_combine (le_split 8 N)); [|done]. f_equal. rewrite take_ge by lia.
      replace (length img - 8 * t_seen t)%nat with 0%nat by lia. cbn [replicate]. rewrite app_nil_r. unfold img, image. fold N.
      rewrite (app_assoc (t_data t)), (app_assoc (le_split 8 N)). unfold fetch_bytes. rewrite drop_app_length'.
      * apply take_ge. rewrite length_le_split. lia.
      * rewrite !length_app, length_le_split. lia.
    + transitivity (le_combine (replicate 8 0)); [|apply le_combine_zeros]. f_equal. unfold fetch_bytes.
      rewrite drop_app_ge by (rewrite length_take; lia). rewrite length_take, drop_replicate, take_replicate. f_equal. lia.
Qed.

(** What the reader finds and does at the head of the ring. *)
Lemma ring_inv_read r t ts :
  ring_inv r (t :: ts) ->
  CheckRecvBuf r = negb (t_seen t =? 0)%nat /\
  (t_seen t <> 0%nat ->
   if complete t then exists r', FetchMsgFromRecvBuf r = Fetched (t_data t) r' /\ ring_inv r' ts
   else FetchMsgFromRecvBuf r = Waits).
Proof.
  intros [I1 (I2a & I2b & I2c) I3 (I4 & I5 & I6) I7 I8 I9]. apply Forall_cons in I9 as [Jt Jts].
  pose proof (t_size_pos t) as [Ht16 Ht8]. pose proof (length_vimg t Jt) as Hlv. rewrite offsets_cons in I4.
  destruct (offsets_ge (head r + t_size t) ts) as [G1 _]. set (N := Z.of_nat (length (t_data t))) in *.
  assert (0 < N) as HN by (destruct Jt as (Hd & _); unfold N; destruct (t_data t); [done|cbn; lia]).
  destruct (ceil_spec N ltac:(lia)) as [HcN1 HcN2]. assert (t_size t = 16 + ceil N 8) as Ets by (unfold t_size, msg_size; fold N; lia).
  rewrite fmap_cons in I8. cbn [concat] in I8. rewrite <- app_assoc in I8. set (rest := concat (vimg <$> ts) ++ _) in I8.
  destruct (vimg_words t Jt ltac:(lia)) as [W1 W2]. fold N in W1, W2.
  assert (word_at (rbf r) (at_head r 0) = if (t_seen t =? 0)%nat then 0 else N) as Eh.
  { unfold at_head. rewrite word_at_place; [|done|done|by exists 0|lia|lia]. rewrite I8, <- W1. unfold word_at.
    f_equal. apply (fetch_inside [] (vimg t) rest 0 8). lia. }
  assert (word_at (rbf r) (at_head r (8 + ceil N 8)) = if complete t then N else 0) as Ef.
  { unfold at_head. rewrite word_at_place; [|done|done|apply Z.divide_add_r; [by exists 1|done]|lia|lia].
    rewrite I8, <- W2. unfold word_at. f_equal. apply (fetch_inside [] (vimg t) rest). lia. }
  split.
  { unfold CheckRecvBuf. rewrite Eh. destruct (t_seen t =? 0)%nat; [done|]. by destruct (Z.eqb_spec N 0); [lia|]. }
  intros Hne. unfold FetchMsgFromRecvBuf. cbv zeta. rewrite Eh. apply Nat.eqb_neq in Hne. rewrite Hne.
  rewrite (proj2 (Z.eqb_neq N 0)) by lia. rewrite Ef. destruct (complete t) eqn:Ec.
  2: { rewrite (proj2 (Z.eqb_neq 0 N)) by lia. done. }
  rewrite Z.eqb_refl. pose proof (data_region (head r) N (rbf r) I1 I3 HN ltac:(lia)) as Hdr. cbv zeta in Hdr.
  destruct (if _ <? _ then _ else _) as [msg mem]. destruct Hdr as (-> & Hlm & Hrm).
  (* the message is its whole image *)
  assert (vimg t = image (t_data t) (t_pad t)) as Ev.
  { unfold vimg, complete in *. apply Z.eqb_eq in Ec. pose proof (length_image _ _ (proj1 (proj2 Jt))) as Hi. unfold t_size in *.
    rewrite take_ge by lia. replace (length _ - 8 * t_seen t)%nat with 0%nat by lia. apply app_nil_r. }
  rewrite Ev in I8. unfold image in I8. fold N in I8.
  eexists. split.
  { f_equal. rewrite I8. unfold fetch_bytes. rewrite <- !app_assoc, drop_app_length' by (by rewrite length_le_split).
    rewrite take_app_length'; [done|]. unfold N. lia. }
  assert (fits 64 (head r + (2 * 8 + ceil N 8)) /\ fits 64 (head r + t_size t - local_head r)) as [F1 F2] by (unfold fits; lia).
  rewrite (wrap_small 64 (head r + _)) by done. replace (head r + (2 * 8 + ceil N 8)) with (head r + t_size t) by lia.
  rewrite (wrap_small 64 (head r + t_size t - _)) by done.
  destruct (word_place (head r) 0 mem ltac:(lia) I3 ltac:(by exists 0) ltac:(lia) ltac:(lia)) as (P1 & P2 & _).
  assert (length (memset0 mem (at_head r 0) 8) = length mem) as Hl1.
  { unfold memset0. rewrite length_store; [done|]. rewrite length_replicate. unfold at_head. done. }
  assert ((8 | 8 + ceil N 8)) as H8 by (apply Z.divide_add_r; [by exists 1|done]).
  destruct (word_place (head r) (8 + ceil N 8) mem ltac:(lia) I3 H8 ltac:(lia) ltac:(lia)) as (_ & P3 & _).
  split; cbn [rbf head local_head tail remote_head].
  - unfold memset0. rewrite length_store; fold (memset0 mem (at_head r 0) 8); rewrite Hl1; [lia|]. rewrite length_replicate. unfold at_head. done.
  - destruct (_ <? _); lia.
  - by apply Z.divide_add_r.
  - split; [done|lia].
  - destruct (Z.ltb_spec (rbf_sz / 16) (head r + t_size t - local_head r)); [|lia]. rewrite Z.sub_diag. apply Z.div_pos; lia.
  - assert (rot (Z.to_nat (head r mod rbf_sz)) (memset0 (memset0 mem (at_head r 0) 8) (at_head r (8 + ceil N 8)) 8)
      = replicate (Z.to_nat (t_size t)) 0 ++ rest) as Er.
    { unfold memset0 at 1, at_head at 2. rewrite store_place; [|lia|done|done|lia|lia|by rewrite length_replicate].
      unfold memset0, at_head. rewrite store_place; [|lia|done|by exists 0|lia|lia|by rewrite length_replicate].
      rewrite Hrm, I8, <- !app_assoc, (app_assoc (t_data t)). destruct Jt as (_ & Hp & _). fold N in Hp.
      replace (Z.to_nat (8 + ceil N 8)) with (8 + Z.to_nat (ceil N 8))%nat by lia. change (Z.to_nat 0) with 0%nat.
      rewrite clear_three; [|by rewrite length_le_split|rewrite length_app; lia|by rewrite length_le_split]. do 2 f_equal. lia. }
    set (mem' := memset0 (memset0 mem _ 8) _ 8) in *. clearbody mem'.
    assert (length mem' = Z.to_nat rbf_sz) as Hl'.
    { rewrite <- (length_rot (Z.to_nat (head r mod rbf_sz)) mem'), Er, <- I1, <- (length_rot (Z.to_nat (head r mod rbf_sz)) (rbf r)), I8.
      rewrite !length_app, length_replicate, !length_le_split. destruct Jt as (_ & Hp & _). fold N in Hp. lia. }
    pose proof (Z.mod_pos_bound (head r) rbf_sz Hsz).
    transitivity (rot (Z.to_nat (t_size t)) (rot (Z.to_nat (head r mod rbf_sz)) mem')).
    { rewrite rot_rot by lia. f_equal. rewrite ring_mod by lia. repeat case_decide; lia. }
    rewrite Er. unfold rot. rewrite drop_app_length', take_app_length' by (by rewrite length_replicate). unfold rest.
    rewrite <- app_assoc, <- replicate_add. do 2 f_equal. lia.
  - done.
Qed.

Lemma is_full r ts n :
  ring_inv r ts -> 0 <= n -> tail r + msg_size n < 2 ^ 64 -> IsBufferFull r (msg_size n) = (rbf_sz <? tail r - remote_head r + msg_size n).
Proof.
  intros [I1 (I2a & I2b & I2c) I3 (I4 & I5 & I6) I7 I8 I9] Hn Hlt. destruct (offsets_ge (head r) ts) as [G _].
  destruct (ceil_spec n Hn) as [_ Hc]. assert (n + 16 <= msg_size n) by (unfold msg_size; lia).
  unfold IsBufferFull. by rewrite (wrap_small 64 (tail r - remote_head r)), wrap_small by (unfold fits; lia).
Qed.
Lemma reserve_fits r ts n off r' :
  ring_inv r ts -> 0 <= n -> tail r + msg_size n < 2 ^ 64 -> reserve r n = Some (off, r') -> tail r - remote_head r + msg_size n <= rbf_sz.
Proof.
  intros I Hn Hlt. unfold reserve. rewrite (is_full r ts n I Hn Hlt). by destruct (Z.ltb_spec rbf_sz (tail r - remote_head r + msg_size n)).
Qed.
Lemma ring_inv_init : ring_inv (mk_ring (replicate (Z.to_nat rbf_sz) 0) 0 0 0 0) [].
Proof.
  split; cbn [rbf head local_head tail remote_head]; try done.
  - by rewrite length_replicate.
  - by exists 0.
  - split; [done|lia].
  - apply Z.div_pos; lia.
  - rewrite Zmod_0_l. unfold rot. cbn. rewrite drop_0, app_nil_r. f_equal. lia.
Qed.
Lemma ring_inv_reserve r ts data pad off r' :
  ring_inv r ts -> data <> [] -> Z.of_nat (length data + length pad) = ceil (Z.of_nat (length data)) 8 ->
  tail r + msg_size (Z.of_nat (length data)) < 2 ^ 64 -> reserve r (Z.of_nat (length data)) = Some (off, r') ->
  off = offsets (head r) ts /\ ring_inv r' (ts ++ [mk_tr data pad 0]).
Proof.
  intros [I1 (I2a & I2b & I2c) I3 (I4 & I5 & I6) I7 I8 I9] Hd Hp Hlt E. unfold reserve in E. destruct (IsBufferFull _ _) eqn:Ef; [done|].
  injection E as <- <-. split; [done|]. set (t := mk_tr data pad 0). assert (msg_size (Z.of_nat (length data)) = t_size t) as Et by done.
  rewrite Et in *. pose proof (t_size_pos t) as [Ht16 Ht8]. destruct (offsets_ge (head r) ts) as [G1 _].
  assert (tail r + t_size t - remote_head r <= rbf_sz) as Hfit.
  { rewrite <- Et, (is_full r ts) in Ef by (done || lia). apply Z.ltb_ge in Ef. lia. }
  rewrite wrap_small by (unfold fits; lia). assert (tr_ok t) as Jt by (split_and!; [done|done|cbn; lia]).
  split; cbn [rbf head local_head tail remote_head]; try done.
  - rewrite offsets_app. unfold offsets at 1. cbn. split; [lia|lia].
  - rewrite fmap_app, concat_app. rewrite I8. cbn [fmap list_fmap concat]. rewrite app_nil_r, <- app_assoc. f_equal.
    assert (vimg t = replicate (Z.to_nat (t_size t)) 0) as ->.
    { pose proof (length_image data pad Hp) as Hi. unfold vimg, t. cbn [t_data t_pad t_seen]. rewrite Nat.mul_0_r, take_0, Nat.sub_0_r. cbn [app].
      f_equal. rewrite Et in Hi. unfold t in *. lia. }
    rewrite <- replicate_add. f_equal. lia.
  - apply Forall_app. split; [done|]. constructor; [done|constructor].
Qed.

Lemma ring_inv_empty r : ring_inv r [] -> CheckRecvBuf r = false.
Proof.
  intros [I1 I2 I3 (I4 & I5 & I6) I7 I8 I9]. destruct Hal as [c Ec]. unfold CheckRecvBuf, at_head.
  rewrite word_at_place; [|done|done|by exists 0|lia|lia]. rewrite I8. cbn [fmap list_fmap concat app].
  unfold word_at, fetch_bytes. change (Z.to_nat 0) with 0%nat. by rewrite drop_0, take_replicate, le_combine_zeros.
Qed.

Lemma ring_run_inv r ts got sent : ring_run r ts got sent -> ring_inv r ts /\ got ++ (t_data <$> ts) = sent.
Proof.
  induction 1 as [|r ts got sent data pad off r' H [I E] Hd Hp Hlt Er|r ts1 t ts2 got sent H [I E] Hs
    |r ts got sent msg r' H [I E] Hc Hf|r ts got sent H [I E]].
  - split; [apply ring_inv_init|done].
  - split; [by eapply ring_inv_reserve|]. rewrite fmap_app, app_assoc, E. done.
  - split; [by apply ring_inv_visible|]. rewrite <- E, !fmap_app. done.
  - destruct ts as [|t ts].
    { by rewrite (ring_inv_empty r I) in Hc. }
    destruct (ring_inv_read r t ts I) as [Hcr Hr]. rewrite Hc in Hcr. destruct (Nat.eqb_spec (t_seen t) 0); [done|].
    specialize (Hr n). destruct (complete t).
    + destruct Hr as (r2 & Hr & I2). rewrite Hf in Hr. injection Hr as -> ->. split; [done|]. rewrite <- E. cbn. by rewrite <- app_assoc.
    + by rewrite Hf in Hr.
  - split; [|done]. destruct I as [I1 (I2a & I2b & I2c) I3 (I4 & I5 & I6) I7 I8 I9]. split; cbn [rbf head local_head tail remote_head]; try done; lia.
Qed.

(** ** What a ring promises *)

(** C14: However the writes of several senders become visible, the reader gets the
    messages byte for byte, each of them once, in the order in which their space was
    reserved: what it has taken, followed by what is in the ring, is all that was
    sent.  It sees a message as soon as its first word is visible, takes it when all
    of it is, waits for the footer until then, never fails the check of the
    footer, and finds nothing in an empty ring. *)
Theorem ring_delivers r ts got sent :
  ring_run r ts got sent ->
  got ++ (t_data <$> ts) = sent /\
  match ts with
  | [] => CheckRecvBuf r = false
  | t :: ts' =>
      CheckRecvBuf r = negb (t_seen t =? 0)%nat /\
      (t_seen t <> 0%nat ->
       if complete t then exists r', FetchMsgFromRecvBuf r = Fetched (t_data t) r' /\ ring_run r' ts' (got ++ [t_data t]) sent
       else FetchMsgFromRecvBuf r = Waits)
  end.
Proof.
  intros H. destruct (ring_run_inv _ _ _ _ H) as [I E]. split; [done|]. destruct ts as [|t ts]; [by apply ring_inv_empty|].
  destruct (ring_inv_read r t ts I) as [Hc Hr]. split; [done|]. intros Hs. specialize (Hr Hs). destruct (complete t); [|done].
  destruct Hr as (r' & Hr & _). exists r'. split; [done|]. apply (rr_fetch r (t :: ts) got sent); [done| |done].
  rewrite Hc. by apply Nat.eqb_neq in Hs as ->.
Qed.

(** The messages in the ring never take more than the ring: what a sender
    reserves does not overlap what the reader has not taken.  When the ring has been
    drained and the last published position has arrived, a message of up to fifteen
    sixteenths of the ring finds space; one that is larger than the ring never does. *)
Theorem ring_bounds r ts got sent n :
  ring_run r ts got sent -> 0 <= n -> tail r + msg_size n < 2 ^ 64 ->
  0 <= tail r - head r <= rbf_sz /\
  (forall off r', reserve r n = Some (off, r') -> off + msg_size n - head r <= rbf_sz) /\
  (ts = [] -> remote_head r = local_head r -> msg_size n <= rbf_sz - rbf_sz / 16 -> is_Some (reserve r n)) /\
  (rbf_sz < msg_size n -> reserve r n = None).
Proof.
  intros H Hn Hlt. destruct (ring_run_inv _ _ _ _ H) as [I E]. pose proof (is_full r ts n I Hn Hlt) as Ef.
  destruct I as [I1 (I2a & I2b & I2c) I3 (I4 & I5 & I6) I7 I8 I9]. destruct (offsets_ge (head r) ts) as [G _].
  unfold reserve. rewrite Ef. split_and!; [lia|lia| | |].
  - intros off r'. destruct (Z.ltb_spec rbf_sz (tail r - remote_head r + msg_size n)); [done|]. intros [= <- <-]. lia.
  - intros -> Hp Hs. destruct (Z.ltb_spec rbf_sz (tail r - remote_head r + msg_size n)); [|by eexists]. unfold offsets in I4. cbn in I4. lia.
  - intros Hb. destruct (Z.ltb_spec rbf_sz (tail r - remote_head r + msg_size n)); [done|]. lia.
Qed.

(** ** The writes of a whole message *)

Lemma rot_inj h l1 l2 : length l1 = length l2 -> rot h l1 = rot h l2 -> l1 = l2.
Proof.
  intros Hl E. unfold rot in E. apply app_inj_1 in E as [E1 E2]; [|by rewrite !length_drop, Hl].
  by rewrite <- (take_drop h l1), <- (take_drop h l2), E1, E2.
Qed.
Lemma off_one_block off n : 0 < n <= rbf_sz -> (off / rbf_sz =? (off + n - 1) / rbf_sz) = (off mod rbf_sz + n <=? rbf_sz).
Proof.
  intros Hn. pose proof (Z.div_mod off rbf_sz ltac:(lia)) as E. pose proof (Z.mod_pos_bound off rbf_sz Hsz).
  destruct (Z.leb_spec (off mod rbf_sz + n) rbf_sz).
  - apply Z.eqb_eq. apply (Z.div_unique _ _ _ (off mod rbf_sz + n - 1)); lia.
  - apply Z.eqb_neq. rewrite <- (Z.div_unique (off + n - 1) rbf_sz (off / rbf_sz + 1) (off mod rbf_sz + n - 1 - rbf_sz)); lia.
Qed.
Lemma store_nil mem p : store mem p [] = mem.
Proof. unfold store. cbn. by rewrite Nat.add_0_r, take_drop. Qed.
Lemma ring_write_nil mem off : ring_write mem off [] = mem.
Proof. unfold ring_write. cbn [length]. by rewrite take_nil, drop_nil, !store_nil; destruct (_ =? _). Qed.
(** One write or two, the message starts at its offset. *)
Lemma ring_write_rot mem off bytes :
  length mem = Z.to_nat rbf_sz -> Z.of_nat (length bytes) <= rbf_sz ->
  length (ring_write mem off bytes) = length mem /\
  rot (Z.to_nat (off mod rbf_sz)) (ring_write mem off bytes) = store (rot (Z.to_nat (off mod rbf_sz)) mem) 0 bytes.
Proof.
  intros Hl Hb. destruct (decide (bytes = [])) as [->|Hne]; [by rewrite ring_write_nil, store_nil|].
  assert (length bytes <> 0%nat) as Hn0 by (by rewrite length_zero_iff_nil).
  unfold ring_write. rewrite off_one_block by lia. pose proof (Z.mod_pos_bound off rbf_sz Hsz) as Hm.
  set (h := off mod rbf_sz) in *. clearbody h. destruct (Z.leb_spec (h + Z.of_nat (length bytes)) rbf_sz) as [Hf|Hf].
  - split; [apply length_store; lia|]. rewrite rot_store by lia. f_equal. unfold place. case_decide; lia.
  - set (k := Z.to_nat (rbf_sz - h)). assert (length (take k bytes) = k) as Hk by (rewrite length_take; lia).
    assert (length (drop k bytes) = length bytes - k)%nat as Hk' by apply length_drop.
    assert (length (store mem (Z.to_nat h) (take k bytes)) = length mem) as Hs by (apply length_store; lia).
    split; [rewrite length_store; lia|]. rewrite rot_store by lia. rewrite rot_store by lia. rewrite Hs.
    replace (place (Z.to_nat h) (length mem) (Z.to_nat h)) with 0%nat by (unfold place; case_decide; lia).
    replace (place (Z.to_nat h) (length mem) 0) with (0 + length (take k bytes))%nat by (unfold place; case_decide; lia).
    rewrite store_store by (rewrite length_rot; lia). by rewrite take_drop.
Qed.

Lemma ring_write_word mem off bytes k :
  length mem = Z.to_nat rbf_sz -> (8 | off) -> (8 * k + 8 <= length bytes)%nat -> Z.of_nat (length bytes) <= rbf_sz ->
  store (ring_write mem off (take (8 * k) bytes)) (Z.to_nat ((off + 8 * Z.of_nat k) mod rbf_sz)) (fetch_bytes bytes (8 * k) 8) =
  ring_write mem off (take (8 * S k) bytes).
Proof.
  intros Hl Ha Hk Hb. assert (length (fetch_bytes bytes (8 * k) 8) = 8%nat) as Hw by (unfold fetch_bytes; rewrite length_take, length_drop; lia).
  destruct (ring_write_rot mem off (take (8 * k) bytes) Hl) as [L1 E1]; [rewrite length_take; lia|].
  destruct (ring_write_rot mem off (take (8 * S k) bytes) Hl) as [L2 E2]; [rewrite length_take; lia|].
  assert ((8 | 8 * Z.of_nat k)) as H8 by (by exists (Z.of_nat k); lia).
  destruct (word_place off (8 * Z.of_nat k) (ring_write mem off (take (8 * k) bytes)) ltac:(lia) Ha H8 ltac:(lia) ltac:(lia)) as (_ & P2 & _).
  apply (rot_inj (Z.to_nat (off mod rbf_sz))); [rewrite length_store by lia; lia|].
  rewrite store_place by (done || lia). rewrite E1, E2.
  replace (Z.to_nat (8 * Z.of_nat k)) with (0 + length (take (8 * k) bytes))%nat by (rewrite length_take; lia).
  rewrite store_store by (rewrite length_take, length_rot; lia). f_equal. unfold fetch_bytes. rewrite take_take_drop. f_equal. lia.
Qed.

(** [SendData] without any delay is a run of the ring: the lock, and then every
    word of the message. *)
Theorem send_data_run r ts got sent data pad r' :
  ring_run r ts got sent -> data <> [] -> Z.of_nat (length data + length pad) = ceil (Z.of_nat (length data)) 8 ->
  tail r + msg_size (Z.of_nat (length data)) < 2 ^ 64 -> SendData r data pad = (true, r') ->
  ring_run r' (ts ++ [mk_tr data pad (length (image data pad) / 8)]) got (sent ++ [data]).
Proof.
  intros H Hd Hp Hlt E. unfold SendData in E. destruct (reserve r _) as [[off r1]|] eqn:Er; [|done]. injection E as <-.
  destruct (ring_run_inv _ _ _ _ H) as [I _]. destruct (ring_inv_reserve r ts data pad off r1 I Hd Hp Hlt Er) as [Eo I1].
  pose proof (length_image data pad Hp) as Hi. destruct (ceil_spec (Z.of_nat (length data)) ltac:(lia)) as [[b Eb] _].
  assert (head r1 = head r /\ rbf r1 = rbf r) as [Eh Em].
  { unfold reserve in Er. destruct (IsBufferFull _ _); [done|]. by injection Er as <- <-. }
  assert ((8 | off)) as Ha by (rewrite Eo; apply offsets_ge; apply I). rewrite <- Eh in Eo.
  assert (Z.of_nat (length (image data pad)) <= rbf_sz) as Hfit.
  { destruct I1 as [_ (J1 & J2 & J3) _ (J4 & J5 & _) _ _ _]. rewrite offsets_app in J4. destruct (offsets_ge (head r1) ts).
    rewrite Hi. unfold offsets at 1 in J4. cbn in J4. unfold t_size in J4. cbn in J4. lia. }
  assert (forall k, (8 * k <= length (image data pad))%nat ->
    ring_run (mk_ring (ring_write (rbf r1) off (take (8 * k) (image data pad))) (head r1) (local_head r1) (tail r1) (remote_head r1))
      (ts ++ [mk_tr data pad k]) got (sent ++ [data])) as Hall.
  { induction k as [|k IH]; intros Hk.
    - rewrite Nat.mul_0_r, take_0, ring_write_nil. destruct r1. by eapply rr_reserve.
    - rewrite <- ring_write_word; [|rewrite Em; apply I|done|lia|done].
      specialize (IH ltac:(lia)). apply rr_visible in IH; [|unfold t_size; cbn [t_data t_pad t_seen]; lia].
      cbn [rbf head local_head tail remote_head t_data t_pad t_seen] in IH. by rewrite <- Eo in IH. }
  specialize (Hall (length (image data pad) / 8)%nat).
  assert (8 * (length (image data pad) / 8) = length (image data pad))%nat as E8.
  { replace (length (image data pad)) with (Z.to_nat (b + 2) * 8)%nat by (unfold msg_size in Hi; lia).
    rewrite Nat.div_mul by lia. lia. }
  rewrite E8, take_ge in Hall by lia. by apply Hall.
Qed.
End Ring.

(** ** An example *)

(** Three messages in a ring of 64 bytes: the first is taken, and the third goes
    around the end of the ring. *)
Definition ring0 : ring := mk_ring (replicate 64 0) 0 0 0 0.
Definition ring1 : ring := Eval vm_compute in snd (SendData 64 ring0 [1; 2; 3] [7; 7; 7; 7; 7]).
Definition ring2 : ring := Eval vm_compute in snd (SendData 64 ring1 [4; 5; 6; 7] [9; 9; 9; 9]).
Definition ring3 : ring := Eval vm_compute in match FetchMsgFromRecvBuf 64 ring2 with Fetched _ r => r | _ => ring2 end.
Definition ring4 : ring := mk_ring (rbf ring3) (head ring3) (local_head ring3) (tail ring3) (local_head ring3).
Definition ring5 : ring := Eval vm_compute in snd (SendData 64 ring4 [8] [0; 0; 0; 0; 0; 0; 0]).
Definition ring6 : ring := Eval vm_compute in match FetchMsgFromRecvBuf 64 ring5 with Fetched _ r => r | _ => ring5 end.
Lemma ring5_run :
  ring_run 64 ring5 [mk_tr [4; 5; 6; 7] [9; 9; 9; 9] 3; mk_tr [8] [0; 0; 0; 0; 0; 0; 0] 3] [[1; 2; 3]] [[1; 2; 3]; [4; 5; 6; 7]; [8]].
Proof.
  assert ((8 | 64)) as H8 by (by exists 8).
  assert (ring_run 64 ring1 [mk_tr [1; 2; 3] [7; 7; 7; 7; 7] 3] [] [[1; 2; 3]]) as H1.
  { by apply (send_data_run 64 ltac:(lia) H8 ring0 [] [] [] [1; 2; 3] [7; 7; 7; 7; 7] ring1); [constructor|..]. }
  assert (ring_run 64 ring2 [mk_tr [1; 2; 3] [7; 7; 7; 7; 7] 3; mk_tr [4; 5; 6; 7] [9; 9; 9; 9] 3] [] [[1; 2; 3]; [4; 5; 6; 7]]) as H2.
  { by apply (send_data_run 64 ltac:(lia) H8 ring1 _ _ _ [4; 5; 6; 7] [9; 9; 9; 9] ring2 H1). }
  assert (ring_run 64 ring4 [mk_tr [4; 5; 6; 7] [9; 9; 9; 9] 3] [[1; 2; 3]] [[1; 2; 3]; [4; 5; 6; 7]]) as H3.
  { apply rr_publish. by apply (rr_fetch 64 ring2 _ _ _ [1; 2; 3] ring3 H2). }
  by apply (send_data_run 64 ltac:(lia) H8 ring4 _ _ _ [8] [0; 0; 0; 0; 0; 0; 0] ring5 H3).
Qed.

Lemma ring_delivers_witness :
  FetchMsgFromRecvBuf 64 ring5 = Fetched [4; 5; 6; 7] ring6 /\
  CheckRecvBuf 64 ring5 = true /\ [[1; 2; 3]] ++ [[4; 5; 6; 7]; [8]] = [[1; 2; 3]; [4; 5; 6; 7]; [8]].
Proof.
  destruct (ring_delivers 64 ltac:(lia) ltac:(by exists 8) ring5 _ _ _ ring5_run) as [H1 [H2 _]].
  exact (conj eq_refl (conj H2 H1)).
Defined.
Lemma ring_bounds_witness : 0 <= tail ring5 - head ring5 <= 64 /\ (64 < msg_size 56 -> reserve 64 ring5 56 = None).
Proof.
  destruct (ring_bounds 64 ltac:(lia) ltac:(by exists 8) ring5 _ _ _ 56 ring5_run ltac:(lia) ltac:(done)) as (H1 & _ & _ & H4).
  exact (conj H1 H4).
Defined.
