(* ===== verification/Mailbox.v ===== *)
(** * core/rdma_mailbox.cpp, core/tcp_mailbox.cpp, core/buffer.hpp: the mailboxes

    The memory that is registered for the network, with the regions that
    utils/config.hpp lays out in it; the send buffers and the pending messages of
    the sending threads, above the rings of RingBuffer.v; and the receiving
    threads, which take turns between the local queue and the rings of the other
    workers. *)
From S2P Require Import Prelude MyMath Sync Types Serialization Wire RingBuffer.
Local Open Scope Z_scope.
Local Open Scope word_scope.

(** ** The registered memory *)

(** What the configuration file gives. *)
Record conf := mk_conf {
  global_num_workers : Z; global_num_threads : Z;
  per_send_buffer_sz_mb : Z; per_recv_buffer_sz_mb : Z; trx_table_sz_mb : Z;
}.
(** [MiB2B] (utils/unit.hpp:20-21). *)
Definition MiB2B (x : Z) : Z := x *64 1024 *64 1024.
(** [Config::extra_send_buf_count] (utils/config.hpp:84-84). *)
Definition extra_send_buf_count : Z := 3.

(** A region of the memory: its offset and its size. *)
Record region := mk_region { offset : Z; size : Z }.
Definition region_end (r : region) : Z := offset r + size r.
Record buffer_layout_t := mk_layout {
  send_region : region; recv_region : region; local_head_region : region; remote_head_region : region;
  min_bt_region : region; ts_sync_region : region; trx_table_region : region;
  dgram_send_region : region; dgram_recv_region : region;
  conn_buf_sz : Z; buffer_sz : Z;
}.
(** The workers' part of [Config::Init] (utils/config.hpp:741-779). *)
Definition buffer_layout (c : conf) : buffer_layout_t :=
  let trx_table_sz := MiB2B (trx_table_sz_mb c) in
  let min_bt_buffer_sz := u64 (i32 (64 * global_num_workers c)) in
  let nrbfs := u64 (i32 (i32 (global_num_workers c - 1) * global_num_threads c)) in
  let kvstore_sz := 0 in
  let kvstore_offset := 0 in
  let send_buffer_sz := u64 (i32 (global_num_threads c + extra_send_buf_count)) *64 MiB2B (per_send_buffer_sz_mb c) in
  let send_buffer_offset := kvstore_offset +64 kvstore_sz in
  let recv_buffer_sz := nrbfs *64 MiB2B (per_recv_buffer_sz_mb c) in
  let recv_buffer_offset := send_buffer_offset +64 send_buffer_sz in
  let local_head_buffer_sz := nrbfs *64 8 in
  let local_head_buffer_offset := recv_buffer_sz +64 recv_buffer_offset in
  let remote_head_buffer_sz := nrbfs *64 8 in
  let remote_head_buffer_offset := local_head_buffer_sz +64 local_head_buffer_offset in
  let min_bt_buffer_offset := remote_head_buffer_sz +64 remote_head_buffer_offset in
  let ts_sync_buffer_sz := 64 in
  let ts_sync_buffer_offset := min_bt_buffer_offset +64 min_bt_buffer_sz in
  let trx_table_offset := ts_sync_buffer_sz +64 ts_sync_buffer_offset in
  let dgram_send_buffer_sz := MiB2B (per_send_buffer_sz_mb c) in
  let dgram_send_buffer_offset := trx_table_offset +64 trx_table_sz in
  let dgram_recv_buffer_sz := MiB2B (per_recv_buffer_sz_mb c) in
  let dgram_recv_buffer_offset := dgram_send_buffer_sz +64 dgram_send_buffer_offset in
  let conn := kvstore_sz +64 send_buffer_sz +64 recv_buffer_sz +64 local_head_buffer_sz +64 remote_head_buffer_sz
    +64 min_bt_buffer_sz +64 ts_sync_buffer_sz +64 trx_table_sz in
  let dgram := dgram_recv_buffer_sz +64 dgram_send_buffer_sz in
  mk_layout (mk_region send_buffer_offset send_buffer_sz) (mk_region recv_buffer_offset recv_buffer_sz)
    (mk_region local_head_buffer_offset local_head_buffer_sz) (mk_region remote_head_buffer_offset remote_head_buffer_sz)
    (mk_region min_bt_buffer_offset min_bt_buffer_sz) (mk_region ts_sync_buffer_offset ts_sync_buffer_sz)
    (mk_region trx_table_offset trx_table_sz) (mk_region dgram_send_buffer_offset dgram_send_buffer_sz)
    (mk_region dgram_recv_buffer_offset dgram_recv_buffer_sz) conn (conn +64 dgram).

(** The regions in the order of their offsets. *)
Definition regions (l : buffer_layout_t) : list region :=
  [send_region l; recv_region l; local_head_region l; remote_head_region l; min_bt_region l; ts_sync_region l;
   trx_table_region l; dgram_send_region l; dgram_recv_region l].

(** [Buffer::GetSendBuf] (core/buffer.hpp:72-76), as an offset; [None] when the
    check of the index fails. *)
Definition GetSendBuf (c : conf) (index : Z) : option Z :=
  if index <=? global_num_threads c + extra_send_buf_count - 1
  then Some (offset (send_region (buffer_layout c)) + index * MiB2B (per_send_buffer_sz_mb c)) else None.
(** [Buffer::GetLocalHeadBuf] (core/buffer.hpp:110-115). *)
Definition GetLocalHeadBuf (c : conf) (rank tid nid : Z) : Z :=
  offset (local_head_region (buffer_layout c)) + GetIndex (global_num_threads c) tid nid rank * 8.
(** [Buffer::GetRemoteHeadBuf] (core/buffer.hpp:129-134). *)
Definition GetRemoteHeadBuf (c : conf) (rank tid nid : Z) : Z :=
  offset (remote_head_region (buffer_layout c)) + GetIndex (global_num_threads c) tid nid rank * 8.
(** [Buffer::GetRemoteHeadBufOffset] (core/buffer.hpp:141-146). *)
Definition GetRemoteHeadBufOffset (c : conf) (rank tid nid : Z) : Z :=
  offset (remote_head_region (buffer_layout c)) + GetIndex (global_num_threads c) tid rank nid * 8.

(** A configuration of a sensible size. *)
Definition conf_ok (c : conf) : Prop :=
  1 <= global_num_workers c < 2 ^ 16 /\ 1 <= global_num_threads c < 2 ^ 10 /\
  0 < per_send_buffer_sz_mb c < 2 ^ 15 /\ 0 < per_recv_buffer_sz_mb c < 2 ^ 15 /\ 0 < trx_table_sz_mb c < 2 ^ 30.

Lemma MiB2B_exact x : 0 <= x < 2 ^ 30 -> MiB2B x = x * 1048576.
Proof. intros H. unfold MiB2B. rewrite !wrap_small; unfold fits; rewrite ?wrap_small; unfold fits; lia. Qed.

(** The layout without the wrap-around of its arithmetic. *)
Lemma buffer_layout_exact c :
  conf_ok c ->
  let T := global_num_threads c in let W := global_num_workers c in
  let s := per_send_buffer_sz_mb c * 1048576 in let q := per_recv_buffer_sz_mb c * 1048576 in let x := trx_table_sz_mb c * 1048576 in
  let n := (W - 1) * T in
  let lh := (T + 3) * s + n * q in let mb := lh + n * 8 + n * 8 in let tt := mb + 64 * W + 64 in
  0 <= n /\ 0 <= (T + 3) * s /\ 0 <= n * q /\ tt + x + s + q < 2 ^ 64 /\
  buffer_layout c = mk_layout (mk_region 0 ((T + 3) * s)) (mk_region ((T + 3) * s) (n * q)) (mk_region lh (n * 8)) (mk_region (lh + n * 8) (n * 8))
    (mk_region mb (64 * W)) (mk_region (mb + 64 * W) 64) (mk_region tt x) (mk_region (tt + x) s) (mk_region (tt + x + s) q) (tt + x) (tt + x + s + q).
Proof.
  intros (HW & HT & Hs & Hr & Hx) T W s q x n. subst T W.
  assert (0 <= n < 2 ^ 26) as Hn by (unfold n; nia).
  assert (0 <= (global_num_threads c + 3) * s < 2 ^ 50) as H1 by (unfold s; nia). assert (0 <= n * q < 2 ^ 62) as H2 by (unfold q; nia).
  assert (0 < s < 2 ^ 36 /\ 0 < q < 2 ^ 36 /\ 0 < x < 2 ^ 51) as (H3 & H4 & H5) by (unfold s, q, x; lia).
  intros lh mb tt. split; [lia|]. split; [lia|]. split; [lia|]. split; [unfold tt, mb, lh; lia|].
  unfold buffer_layout. rewrite !MiB2B_exact by lia. fold s q x. unfold extra_send_buf_count.
  rewrite (swrap_small 32 (global_num_workers c - 1)) by lia. fold n.
  rewrite (swrap_small 32 n) by lia. rewrite (swrap_small 32 (64 * _)) by lia. rewrite (swrap_small 32 (global_num_threads c + 3)) by lia.
  rewrite (wrap_small 64 n), (wrap_small 64 (64 * _)), (wrap_small 64 (global_num_threads c + 3)) by (unfold fits; lia).
  rewrite (wrap_small 64 ((global_num_threads c + 3) * s)), (wrap_small 64 (n * q)), (wrap_small 64 (n * 8)) by (unfold fits; lia).
  set (S := (global_num_threads c + 3) * s) in *. set (Q := n * q) in *. clearbody S Q n s q x. unfold tt, mb, lh in *. clear tt mb lh.
  repeat match goal with |- context [wrap 64 ?e] =>
    lazymatch e with context [wrap _ _] => fail | _ => rewrite (wrap_small 64 e) by (unfold fits; lia) end end.
  f_equal; try (f_equal; lia); lia.
Qed.

Lemma scaled i n q : 0 <= i < n -> 0 <= q -> 0 <= i * q /\ i * q + q <= n * q.
Proof. intros Hi Hq. split; [apply Z.mul_nonneg_nonneg; lia|]. replace (i * q + q) with ((i + 1) * q) by lia. apply Z.mul_le_mono_nonneg_r; lia. Qed.

(** C30: The regions of the registered memory are one behind the other, without an
    overlap or a gap, and fill it exactly; and every buffer that a thread asks for
    is inside its region: the send buffers of all sending threads, the ring that
    another worker writes to, and the published positions of the readers. *)
Theorem memory_layout c rank nid tid index :
  conf_ok c -> 0 <= rank < global_num_workers c -> 0 <= nid < global_num_workers c -> nid <> rank ->
  0 <= tid < global_num_threads c -> 0 <= index < global_num_threads c + extra_send_buf_count ->
  let l := buffer_layout c in
  offset (send_region l) = 0 /\
  (forall i r r', regions l !! i = Some r -> regions l !! S i = Some r' -> region_end r = offset r') /\
  region_end (dgram_recv_region l) = buffer_sz l /\ region_end (trx_table_region l) = conn_buf_sz l /\ buffer_sz l < 2 ^ 64 /\
  (exists p, GetSendBuf c index = Some p /\ offset (send_region l) <= p /\ p + MiB2B (per_send_buffer_sz_mb c) <= region_end (send_region l)) /\
  (let p := GetRecvBuf (global_num_threads c) (MiB2B (per_recv_buffer_sz_mb c)) (offset (recv_region l)) rank tid nid in
   offset (recv_region l) <= p /\ p + MiB2B (per_recv_buffer_sz_mb c) <= region_end (recv_region l)) /\
  (let p := GetLocalHeadBuf c rank tid nid in offset (local_head_region l) <= p /\ p + 8 <= region_end (local_head_region l)) /\
  (let p := GetRemoteHeadBuf c rank tid nid in offset (remote_head_region l) <= p /\ p + 8 <= region_end (remote_head_region l)) /\
  GetRemoteHeadBufOffset c rank tid nid = GetRemoteHeadBuf c nid tid rank.
Proof.
  intros Hc Hr Hn Hne Ht Hi l. pose proof (buffer_layout_exact c Hc) as Hl. cbv zeta in Hl. destruct Hl as (H1 & H2 & H3 & H4 & El).
  pose proof Hc as (HW & HT & Hs & Hq & Hx).
  assert (0 <= GetIndex (global_num_threads c) tid nid rank < (global_num_workers c - 1) * global_num_threads c) as HI.
  { unfold GetIndex. set (x := if nid <? rank then nid else nid - 1).
    assert (0 <= x <= global_num_workers c - 2) as Hxx by (unfold x; destruct (Z.ltb_spec nid rank); lia). clearbody x.
    pose proof (scaled x (global_num_workers c - 1) (global_num_threads c)). lia. }
  unfold GetSendBuf, GetRecvBuf, GetLocalHeadBuf, GetRemoteHeadBuf, GetRemoteHeadBufOffset, l, region_end, regions, extra_send_buf_count in *.
  rewrite El, !MiB2B_exact by lia. cbn [send_region recv_region local_head_region remote_head_region min_bt_region ts_sync_region
    trx_table_region dgram_send_region dgram_recv_region offset size conn_buf_sz buffer_sz].
  set (g := GetIndex _ tid nid rank) in *. set (n := (global_num_workers c - 1) * global_num_threads c) in *. clearbody g n.
  split; [done|]. split.
  { intros i r r' E1 E2. do 9 (destruct i as [|i]; [injection E1 as <-; first [done | injection E2 as <-; cbn; lia]|]). done. }
  split; [lia|]. split; [lia|]. split; [lia|]. split.
  - destruct (Z.leb_spec index (global_num_threads c + 3 - 1)); [|lia]. eexists. split; [done|].
    pose proof (scaled index (global_num_threads c + 3) (per_send_buffer_sz_mb c * 1048576)). lia.
  - pose proof (scaled g n (per_recv_buffer_sz_mb c * 1048576)). split; [lia|]. split; [lia|]. split; [lia|done].
Qed.
Lemma memory_layout_witness :
  offset (recv_region (buffer_layout (mk_conf 4 8 2 64 32))) = 23068672 /\
  exists p, GetSendBuf (mk_conf 4 8 2 64 32) 10 = Some p /\ 0 <= p /\ p + 2097152 <= 23068672.
Proof.
  destruct (memory_layout (mk_conf 4 8 2 64 32) 1 3 7 10) as (_ & _ & _ & _ & _ & H & _); [by vm_compute|done..|].
  exact (conj eq_refl H).
Defined.

(** ** The senders *)

Section Mailboxes.
(** The size of a ring, and the rank of this worker. *)
Context (rbf_sz rank : Z).

(** [RdmaMailbox::mailbox_data_t] (core/rdma_mailbox.hpp:85-89). *)
Record mailbox_data_t := mk_data { stream : list Z; dst_nid : Z; dst_tid : Z }.
Definition dst (d : mailbox_data_t) : Z * Z := (dst_nid d, dst_tid d).
Abbreviation out_rings := (gmap (Z * Z) ring).
(** The queues of the threads of this worker, and the messages that a sending
    thread could not yet write. *)
Record outbox := mk_outbox { local_msgs : gmap Z (list Message); pending_msgs : list mailbox_data_t }.

(** A [memcpy] to an address outside of the buffer is undefined. *)
Definition store_in (buf : list Z) (p : nat) (bytes : list Z) : option (list Z) :=
  if (p + length bytes <=? length buf)%nat then Some (store buf p bytes) else None.
(** The header, the data and the footer in the send buffer of the thread, in
    [RdmaMailbox::SendData] (core/rdma_mailbox.cpp:145-154). *)
Definition fill_send_buf (buf data : list Z) : option (list Z) :=
  let data_sz := Z.of_nat (length data) in
  buf ← store_in buf 0 (le_split 8 data_sz);
  buf ← store_in buf 8 data;
  store_in buf (8 + Z.to_nat (ceil data_sz 8)) (le_split 8 data_sz).
(** [RdmaMailbox::SendData] (core/rdma_mailbox.cpp:124-168), with the send buffer
    and all rings; [None] outside of them. *)
Definition send_data (buf : list Z) (rings : out_rings) (d : mailbox_data_t) : option (bool * list Z * out_rings) :=
  let data_sz := Z.of_nat (length (stream d)) in
  r ← rings !! dst d;
  match reserve rbf_sz r data_sz with
  | None => Some (false, buf, rings)
  | Some (off, r) =>
      buf ← fill_send_buf buf (stream d);
      let mem := ring_write rbf_sz (rbf r) off (take (Z.to_nat (msg_size data_sz)) buf) in
      Some (true, buf, <[dst d := mk_ring mem (head r) (local_head r) (tail r) (remote_head r)]> rings)
  end.
(** [RdmaMailbox::Sweep] (core/rdma_mailbox.cpp:96-108): the messages that stay
    pending keep their order. *)
Fixpoint Sweep (buf : list Z) (rings : out_rings) (pending : list mailbox_data_t) : option (list mailbox_data_t * list Z * out_rings) :=
  match pending with
  | [] => Some ([], buf, rings)
  | d :: rest =>
      '(sent, buf, rings) ← send_data buf rings d;
      '(kept, buf, rings) ← Sweep buf rings rest;
      Some (if sent : bool then kept else d :: kept, buf, rings)
  end.
(** [RdmaMailbox::Send] (core/rdma_mailbox.cpp:110-122). *)
Definition Send (o : outbox) (m : Message) : option outbox :=
  if recver_nid (meta m) =? rank then
    q ← local_msgs o !! recver_tid (meta m);
    Some (mk_outbox (<[recver_tid (meta m) := Push q m]> (local_msgs o)) (pending_msgs o))
  else Some (mk_outbox (local_msgs o) (pending_msgs o ++ [mk_data (put_msg m) (recver_nid (meta m)) (recver_tid (meta m))])).

(** ** The receivers *)

(** [RdmaMailbox::scheduler_t] (core/rdma_mailbox.hpp:75-79), with the local queue
    of the thread and its rings, one per other worker. *)
Record inbox := mk_inbox { rr_cnt : Z; machine_rr_cnt : Z; local_queue : list Message; in_rings : gmap Z ring }.
(** What a call returns: a message from the queue or from the ring of a worker, or
    [false]; it waits for a footer; or it fails. *)
Inductive recv_result := FromQueue (m : Message) | FromRing (nid : Z) (m : Message) | Empty | Spinning | Failed.

(** The loop of [RdmaMailbox::TryRecv] (core/rdma_mailbox.cpp:196-209), with [n]
    rounds to go. *)
Fixpoint poll (workers : Z) (n : nat) (b : inbox) : recv_result * inbox :=
  match n with
  | O => (Empty, b)
  | S n =>
      let machine_id := machine_rr_cnt b mod workers in
      let b := mk_inbox (rr_cnt b) (machine_rr_cnt b +64 1) (local_queue b) (in_rings b) in
      if machine_id =? rank then poll workers n b
      else match in_rings b !! machine_id with
      | None => (Failed, b)
      | Some r =>
          if CheckRecvBuf rbf_sz r then
            match FetchMsgFromRecvBuf rbf_sz r with
            | Fetched bytes r' =>
                let b := mk_inbox (rr_cnt b) (machine_rr_cnt b) (local_queue b) (<[machine_id := r']> (in_rings b)) in
                match get_msg (mk_ob bytes 0) with
                | Some (m, _) => (FromRing machine_id m, b)
                | None => (Failed, b)
                end
            | Waits => (Spinning, b)
            | Nothing | Fails => (Failed, b)
            end
          else poll workers n b
      end
  end.
(** [RdmaMailbox::TryRecv] (core/rdma_mailbox.cpp:182-210); [rr_size] is 3. *)
Definition TryRecv (workers : Z) (b : inbox) : recv_result * inbox :=
  let type := rr_cnt b mod 3 in
  let b := mk_inbox (rr_cnt b +64 1) (machine_rr_cnt b) (local_queue b) (in_rings b) in
  match (if type =? 0 then None else WaitAndPop (local_queue b)) with
  | Some (m, q) => (FromQueue m, mk_inbox (rr_cnt b) (machine_rr_cnt b) q (in_rings b))
  | None => poll workers (Z.to_nat workers) b
  end.

(** ** The send buffer *)

Context (Hsz : 0 < rbf_sz) (Hal : (8 | rbf_sz)).

Lemma store_in_some buf p bytes : (p + length bytes <= length buf)%nat -> store_in buf p bytes = Some (store buf p bytes).
Proof. intros H. unfold store_in. by rewrite (proj2 (Nat.leb_le _ _) H). Qed.
Lemma store_start buf w : store buf 0 w = w ++ drop (length w) buf.
Proof. done. Qed.
(** What is written to the network: the message and the left-over bytes. *)
Lemma fill_send_buf_image buf data :
  msg_size (Z.of_nat (length data)) <= Z.of_nat (length buf) ->
  exists pad buf', fill_send_buf buf data = Some buf' /\ length buf' = length buf /\
    Z.of_nat (length data + length pad) = ceil (Z.of_nat (length data)) 8 /\
    take (Z.to_nat (msg_size (Z.of_nat (length data)))) buf' = image data pad.
Proof.
  intros Hl. set (N := Z.of_nat (length data)) in *. destruct (ceil_spec N ltac:(lia)) as [_ Hc]. unfold msg_size in Hl.
  pose proof (length_le_split 8 N) as H8. set (hd := le_split 8 N) in *. set (k := (Z.to_nat (ceil N 8) - length data)%nat).
  exists (fetch_bytes buf (8 + length data) k), (hd ++ data ++ fetch_bytes buf (8 + length data) k ++ hd ++ drop (16 + Z.to_nat (ceil N 8)) buf).
  assert (length (fetch_bytes buf (8 + length data) k) = k) as Hk by (unfold fetch_bytes; rewrite length_take, length_drop; lia).
  split_and!.
  - unfold fill_send_buf. fold N. fold hd. rewrite store_in_some by lia. cbn [mbind option_bind].
    rewrite store_in_some by (rewrite length_store; lia). cbn [mbind option_bind].
    rewrite store_in_some by (rewrite !length_store; rewrite ?length_store; lia). f_equal.
    pose proof (store_store buf 0 hd data ltac:(lia)) as E1. rewrite Nat.add_0_l, H8 in E1. rewrite E1, store_start.
    rewrite length_app, H8. replace (drop (8 + length data) buf) with (fetch_bytes buf (8 + length data) k ++ drop (8 + length data + k) buf).
    2: { unfold fetch_bytes. by rewrite <- (drop_drop buf k (8 + length data)), take_drop. }
    assert (exists f, drop (8 + length data + k) buf = f ++ drop (16 + Z.to_nat (ceil N 8)) buf /\ length f = 8%nat) as (f & -> & Hf).
    { exists (take 8 (drop (8 + length data + k) buf)). split; [|rewrite length_take, length_drop; lia].
      replace (16 + Z.to_nat (ceil N 8))%nat with (8 + length data + k + 8)%nat by lia. by rewrite <- (drop_drop buf 8 (8 + length data + k)), take_drop. }
    rewrite <- !app_assoc, (app_assoc hd data), (app_assoc (hd ++ data)).
    replace (8 + Z.to_nat (ceil N 8))%nat with (length ((hd ++ data) ++ fetch_bytes buf (8 + length data) k)) by (rewrite !length_app, Hk, H8; lia).
    rewrite store_middle by lia. by rewrite <- !app_assoc.
  - rewrite !length_app, Hk, H8, length_drop. lia.
  - lia.
  - unfold image. fold N. fold hd. rewrite !app_assoc. rewrite take_app_length'; [done|].
    rewrite !length_app, Hk, H8. unfold msg_size. lia.
Qed.

(** ** Sweeping *)

(** Every ring is in a run; [hist] are the messages that were ever written to it. *)
Definition rings_run (rings : out_rings) (hist : Z * Z -> list (list Z)) : Prop :=
  forall key r, rings !! key = Some r -> exists ts got, ring_run rbf_sz r ts got (hist key).
Definition volume (pending : list mailbox_data_t) : Z := foldr (fun d s => msg_size (Z.of_nat (length (stream d))) + s) 0 pending.
Definition sendable (rings : out_rings) (d : mailbox_data_t) : Prop := is_Some (rings !! dst d) /\ stream d <> [].
Definition written (gone : list mailbox_data_t) (key : Z * Z) : list (list Z) := stream <$> filter (fun d => dst d = key) gone.

Lemma reserve_tail r n off r' :
  reserve rbf_sz r n = Some (off, r') -> 0 <= tail r -> 0 <= n -> tail r + msg_size n < 2 ^ 64 -> tail r' = tail r + msg_size n.
Proof.
  unfold reserve. destruct (IsBufferFull _ _ _); [done|]. intros [= <- <-] H0 Hn Hl. cbn. apply wrap_small. destruct (ceil_spec n Hn) as [_ Hc].
  unfold fits, msg_size in *. lia.
Qed.
Lemma msg_size_pos n : 0 <= n -> n + 16 <= msg_size n.
Proof. intros H. destruct (ceil_spec n H) as [_ Hc]. unfold msg_size. lia. Qed.
Lemma volume_nonneg p : 0 <= volume p.
Proof. induction p as [|d p IH]; [done|]. cbn. pose proof (msg_size_pos (Z.of_nat (length (stream d)))). unfold volume in IH. lia. Qed.

(** One message: it is written as a whole, or nothing changes. *)
Lemma send_data_run_rings buf rings hist d n :
  rings_run rings hist -> rbf_sz <= Z.of_nat (length buf) -> sendable rings d ->
  (forall key r, rings !! key = Some r -> tail r + (msg_size (Z.of_nat (length (stream d))) + n) < 2 ^ 64) -> 0 <= n ->
  exists sent buf' rings', send_data buf rings d = Some (sent, buf', rings') /\ length buf' = length buf /\ dom rings' = dom rings /\
    rings_run rings' (fun key => hist key ++ (if sent then written [d] key else [])) /\
    (forall key r, rings' !! key = Some r -> tail r + n < 2 ^ 64).
Proof.
  intros HR Hb [[r Er] Hne] Ht Hn. pose proof (msg_size_pos (Z.of_nat (length (stream d))) ltac:(lia)) as Hp.
  destruct (HR _ _ Er) as (ts & got & Hr). destruct (ring_run_inv rbf_sz Hsz Hal _ _ _ _ Hr) as [I _].
  unfold send_data. rewrite Er. cbn [mbind option_bind]. destruct (reserve rbf_sz r _) as [[off r1]|] eqn:Es.
  2: { exists false, buf, rings. split_and!; [done..| |].
    - intros key r1 E1. rewrite app_nil_r. by apply HR.
    - intros key r1 E1. specialize (Ht _ _ E1). lia. }
  pose proof (Ht _ _ Er) as Htr.
  assert (0 <= tail r) as Ht0 by (destruct I as [_ [? [? ?]] _ [-> _] _ _ _]; destruct (offsets_ge (head r) ts); lia).
  assert (msg_size (Z.of_nat (length (stream d))) <= rbf_sz) as Hfit.
  { pose proof (reserve_fits rbf_sz Hsz Hal r ts (Z.of_nat (length (stream d))) off r1 I ltac:(lia) ltac:(lia) Es). destruct I as [_ (? & ? & ?) _ (Etl & _) _ _ _].
    destruct (offsets_ge (head r) ts). lia. }
  destruct (fill_send_buf_image buf (stream d) ltac:(lia)) as (pad & buf' & Ef & Hl' & Hpad & Ei). rewrite Ef. cbn [mbind option_bind].
  eexists true, buf', _. split_and!; [done|done|by rewrite dom_insert_lookup_L|..].
  - intros key r2. destruct (decide (dst d = key)) as [<-|Hk].
    + rewrite lookup_insert_eq. intros [= <-]. exists (ts ++ [mk_tr (stream d) pad (length (image (stream d) pad) / 8)]), got.
      unfold written. rewrite filter_cons_True by done. cbn [fmap list_fmap filter list_filter]. rewrite Ei.
      apply (send_data_run rbf_sz Hsz Hal r ts got (hist (dst d))); [done..|lia|]. unfold SendData. by rewrite Es.
    + rewrite lookup_insert_ne by done. intros E2. unfold written. rewrite filter_cons_False by done. rewrite app_nil_r. by apply HR.
  - intros key r2. destruct (decide (dst d = key)) as [<-|Hk].
    + rewrite lookup_insert_eq. intros [= <-]. cbn. rewrite (reserve_tail _ _ _ _ Es) by lia. lia.
    + rewrite lookup_insert_ne by done. intros E2. specialize (Ht _ _ E2). lia.
Qed.

Lemma written_cons d gone key : written (d :: gone) key = written [d] key ++ written gone key.
Proof. unfold written. change (d :: gone) with ([d] ++ gone). by rewrite filter_app, fmap_app. Qed.
Lemma rings_run_ext rings h1 h2 : (forall key, h1 key = h2 key) -> rings_run rings h1 -> rings_run rings h2.
Proof. intros He H key r E. rewrite <- He. by apply H. Qed.

(** Sweeping loses and repeats nothing.  Every pending message is either
    written to the ring of its destination as a whole, behind what was written
    there before, or stays pending; both keep the order of the pending messages.
    The send buffer is never overrun when it is not smaller than a ring. *)
Theorem sweep_delivers buf rings hist pending :
  rings_run rings hist -> rbf_sz <= Z.of_nat (length buf) -> Forall (sendable rings) pending ->
  (forall key r, rings !! key = Some r -> tail r + volume pending < 2 ^ 64) ->
  exists kept gone buf' rings',
    Sweep buf rings pending = Some (kept, buf', rings') /\ length buf' = length buf /\
    kept `sublist_of` pending /\ gone `sublist_of` pending /\ kept ++ gone ≡ₚ pending /\
    dom rings' = dom rings /\ rings_run rings' (fun key => hist key ++ written gone key).
Proof.
  revert buf rings hist. induction pending as [|d rest IH]; intros buf rings hist HR Hb Hs Ht.
  - exists [], [], buf, rings. split_and!; try done. apply (rings_run_ext _ hist); [|done]. intros key. by rewrite app_nil_r.
  - apply Forall_cons in Hs as [Hd Hrest]. cbn [volume foldr] in Ht.
    destruct (send_data_run_rings buf rings hist d (volume rest) HR Hb Hd Ht (volume_nonneg rest)) as (sent & buf1 & rings1 & E1 & L1 & D1 & R1 & T1).
    destruct (IH buf1 rings1 _ R1 ltac:(lia)) as (kept & gone & buf2 & rings2 & E2 & L2 & S1 & S2 & P & D2 & R2); [|done|].
    { eapply Forall_impl; [exact Hrest|]. intros x [Hx Hx']. split; [|done]. apply elem_of_dom. rewrite D1. by apply elem_of_dom. }
    cbn [Sweep]. rewrite E1. cbn [mbind option_bind]. rewrite E2. cbn [mbind option_bind]. destruct sent.
    + exists kept, (d :: gone), buf2, rings2. split_and!; [done|lia|by constructor|by constructor| |congruence|].
      * by rewrite <- Permutation_middle, P.
      * apply (rings_run_ext _ (fun key => (hist key ++ written [d] key) ++ written gone key)); [|done].
        intros key. by rewrite (written_cons d gone), app_assoc.
    + exists (d :: kept), gone, buf2, rings2. split_and!; [done|lia|by constructor|by constructor| |congruence|].
      * cbn. by rewrite P.
      * apply (rings_run_ext _ (fun key => (hist key ++ []) ++ written gone key)); [|done]. intros key. by rewrite app_nil_r.
Qed.

(** ** Fair turns *)

(** The ring shows the whole message [m]. *)
Definition showing (r : ring) (m : Message) : Prop :=
  exists t ts got sent, ring_run rbf_sz r (t :: ts) got sent /\ complete t = true /\ t_data t = put_msg m /\ ser_wf s_msg m.

Lemma showing_read r m : showing r m ->
  CheckRecvBuf rbf_sz r = true /\ exists r', FetchMsgFromRecvBuf rbf_sz r = Fetched (put_msg m) r' /\ exists o, get_msg (mk_ob (put_msg m) 0) = Some (m, o).
Proof.
  intros (t & ts & got & sent & Hr & Hc & Hd & Hw). destruct (ring_run_inv rbf_sz Hsz Hal _ _ _ _ Hr) as [I _].
  destruct (ring_inv_read rbf_sz Hsz Hal r t ts I) as [H1 H2].
  assert (t_seen t <> 0%nat) as Hne. { intros E. unfold complete in Hc. apply Z.eqb_eq in Hc. destruct (t_size_pos t). lia. }
  split; [rewrite H1; by apply Nat.eqb_neq in Hne as ->|]. specialize (H2 Hne). rewrite Hc in H2. destruct H2 as (r' & H2 & _).
  exists r'. split; [by rewrite <- Hd|]. eexists.
  pose proof (reads_at get_msg (put_msg m) m [] [] (ser_reads s_msg m Hw)) as E. cbn [app] in E. rewrite app_nil_r in E. exact E.
Qed.

(** The rounds until the loop looks at the ring of [nid]. *)
Definition distance (workers nid : Z) (b : inbox) : Z := (nid - machine_rr_cnt b) mod workers.
Lemma distance_zero workers nid x : 0 <= nid < workers -> ((nid - x) mod workers = 0 <-> x mod workers = nid).
Proof.
  intros H. pose proof (Z.div_mod x workers ltac:(lia)) as Ex. pose proof (Z.mod_pos_bound x workers ltac:(lia)). split.
  - intros E. apply Z.mod_divide in E as [k E]; [|lia]. symmetry. apply (Z.mod_unique _ _ (- k)); lia.
  - intros E. apply Z.mod_divide; [lia|]. exists (- (x / workers)). lia.
Qed.
Lemma distance_succ workers nid x : 0 <= nid < workers -> (nid - x) mod workers <> 0 -> (nid - (x + 1)) mod workers = (nid - x) mod workers - 1.
Proof.
  intros H Hne. pose proof (Z.div_mod (nid - x) workers ltac:(lia)). pose proof (Z.mod_pos_bound (nid - x) workers ltac:(lia)).
  symmetry. apply (Z.mod_unique _ _ ((nid - x) / workers)); lia.
Qed.

Lemma poll_progress workers nid m r n b :
  0 <= nid < workers -> nid <> rank -> in_rings b !! nid = Some r -> showing r m ->
  distance workers nid b < Z.of_nat n -> 0 <= machine_rr_cnt b -> machine_rr_cnt b + Z.of_nat n < 2 ^ 64 ->
  let '(out, b') := poll workers n b in
  out = Spinning \/ out = Failed \/ out = FromRing nid m \/
  (rr_cnt b' = rr_cnt b /\ distance workers nid b' < distance workers nid b /\ machine_rr_cnt b < machine_rr_cnt b' <= machine_rr_cnt b + Z.of_nat n).
Proof.
  intros Hn Hne Hr Hs. revert b Hr. induction n as [|n IH]; intros b Hr Hd H0 Hlt.
  { unfold distance in Hd. pose proof (Z.mod_pos_bound (nid - machine_rr_cnt b) workers ltac:(lia)). lia. }
  cbn [poll]. rewrite (wrap_small 64) by (unfold fits; lia).
  set (b1 := mk_inbox (rr_cnt b) (machine_rr_cnt b + 1) (local_queue b) (in_rings b)).
  destruct (decide (machine_rr_cnt b mod workers = nid)) as [E|E].
  - rewrite E, (proj2 (Z.eqb_neq _ _) Hne). cbn [in_rings b1]. unfold b1 at 1. cbn [in_rings]. rewrite Hr.
    destruct (showing_read r m Hs) as (Hc & r' & Hf & o & Hg). rewrite Hc, Hf, Hg. auto.
  - assert (distance workers nid b <> 0) as Hnz by (unfold distance; by rewrite distance_zero).
    assert (distance workers nid b1 = distance workers nid b - 1) as Ed by (unfold distance; by apply distance_succ).
    assert (let '(out, b') := poll workers n b1 in
      out = Spinning \/ out = Failed \/ out = FromRing nid m \/
      (rr_cnt b' = rr_cnt b /\ distance workers nid b' < distance workers nid b /\ machine_rr_cnt b < machine_rr_cnt b' <= machine_rr_cnt b + Z.of_nat (S n))) as Hrec.
    { specialize (IH b1 Hr ltac:(lia) ltac:(cbn; lia) ltac:(cbn; lia)). destruct (poll workers n b1) as [out b']. cbn in IH.
      destruct IH as [?|[?|[?|(? & ? & ?)]]]; auto. right; right; right. split_and!; [done|lia|lia|lia]. }
    destruct (_ =? rank); [done|]. destruct (in_rings b1 !! _) as [r1|]; [|by auto]. destruct (CheckRecvBuf rbf_sz r1); [|done].
    destruct (FetchMsgFromRecvBuf rbf_sz r1) as [bytes r2| | |]; auto. destruct (get_msg _) as [[m1 o]|]; [|by auto].
    right; right; right. cbn. unfold distance in *. cbn in *. split_and!; [done|lia|lia|lia].
Qed.

(** Calls of [TryRecv] that do not return the message [m], which the ring of
    [nid] shows before each of them.  Between the calls, the queue and the rings
    may change. *)
Inductive passed_over (workers nid : Z) (m : Message) : inbox -> list recv_result -> Prop :=
| po_nil b : passed_over workers nid m b []
| po_call b b1 b2 r out outs :
    rr_cnt b1 = rr_cnt b -> machine_rr_cnt b1 = machine_rr_cnt b -> in_rings b1 !! nid = Some r -> showing r m ->
    TryRecv workers b1 = (out, b2) -> out <> Spinning -> out <> Failed -> out <> FromRing nid m ->
    passed_over workers nid m b2 outs -> passed_over workers nid m b (out :: outs).

(** Three times the rounds, and the calls until one skips the queue. *)
Definition patience (workers nid : Z) (b : inbox) : Z := 3 * distance workers nid b + (- rr_cnt b) mod 3.
Lemma try_recv_progress workers nid m r b :
  0 <= nid < workers -> nid <> rank -> in_rings b !! nid = Some r -> showing r m ->
  0 <= rr_cnt b -> rr_cnt b + 1 < 2 ^ 64 -> 0 <= machine_rr_cnt b -> machine_rr_cnt b + workers < 2 ^ 64 ->
  let '(out, b') := TryRecv workers b in
  out = Spinning \/ out = Failed \/ out = FromRing nid m \/
  (patience workers nid b' < patience workers nid b /\ rr_cnt b' = rr_cnt b + 1 /\ machine_rr_cnt b <= machine_rr_cnt b' <= machine_rr_cnt b + workers).
Proof.
  intros Hn Hne Hr Hs H0 H1 H2 H3. unfold TryRecv. cbv zeta. rewrite (wrap_small 64 (rr_cnt b + 1)) by (unfold fits; lia). cbn [local_queue in_rings].
  set (b1 := mk_inbox (rr_cnt b + 1) (machine_rr_cnt b) (local_queue b) (in_rings b)).
  assert (distance workers nid b1 = distance workers nid b) as Ed by done.
  pose proof (poll_progress workers nid m r (Z.to_nat workers) b1 Hn Hne Hr Hs) as Hp.
  pose proof (Z.mod_pos_bound (nid - machine_rr_cnt b) workers ltac:(lia)) as Hb. fold (distance workers nid b) in Hb.
  specialize (Hp ltac:(lia) ltac:(done) ltac:(cbn; lia)). destruct (poll workers (Z.to_nat workers) b1) as [out b'].
  assert ((- (rr_cnt b + 1)) mod 3 = if decide (rr_cnt b mod 3 = 0) then 2 else (- rr_cnt b) mod 3 - 1) as Em by (case_decide; lia).
  assert (rr_cnt b mod 3 = 0 -> (- rr_cnt b) mod 3 = 0) as Em0 by lia.
  assert ((if rr_cnt b mod 3 =? 0 then None else WaitAndPop (local_queue b)) = None \/
    (rr_cnt b mod 3 <> 0 /\ exists x q, (if rr_cnt b mod 3 =? 0 then None else WaitAndPop (local_queue b)) = Some (x, q))) as [E|(Ez & x & q & E)].
  { destruct (Z.eqb_spec (rr_cnt b mod 3) 0); [by left|]. destruct (WaitAndPop (local_queue b)) as [[x q]|]; [right; eauto|by left]. }
  - unfold b1 at 1. cbn [local_queue]. rewrite E. destruct Hp as [?|[?|[?|(E1 & E2 & E3 & E4)]]]; auto. right; right; right. unfold patience. rewrite E1. cbn [b1 rr_cnt machine_rr_cnt] in *.
    rewrite Em. case_decide; split_and!; lia.
  - unfold b1 at 1. cbn [local_queue]. rewrite E. right; right; right. unfold patience. cbn [rr_cnt machine_rr_cnt b1]. unfold distance in *. cbn [machine_rr_cnt b1] in *. rewrite Em, decide_False by done. lia.
Qed.

(** No message waits forever behind others: a message that a ring shows is
    returned after less than [3 * workers] calls of [TryRecv] that return other
    messages, however many messages arrive in the local queue and in the rings of
    the other workers. *)
Theorem try_recv_fair workers nid m b outs :
  0 <= nid < workers -> nid <> rank -> passed_over workers nid m b outs ->
  0 <= rr_cnt b -> rr_cnt b + 3 * workers < 2 ^ 64 -> 0 <= machine_rr_cnt b -> machine_rr_cnt b + 3 * workers * workers < 2 ^ 64 ->
  Z.of_nat (length outs) < 3 * workers.
Proof.
  intros Hn Hne Hp H0 H1 H2 H3.
  assert (forall b outs, passed_over workers nid m b outs -> 0 <= rr_cnt b -> 0 <= machine_rr_cnt b ->
    rr_cnt b + patience workers nid b + 1 < 2 ^ 64 -> machine_rr_cnt b + workers * (patience workers nid b + 1) < 2 ^ 64 ->
    Z.of_nat (length outs) <= patience workers nid b) as Hall.
  { clear -Hn Hne Hsz Hal. intros b outs Hp. induction Hp as [b|b b1 b2 r out outs E1 E2 Hr Hs Et N1 N2 N3 Hp IH]; intros G0 G1 G2 G3.
    { cbn. unfold patience, distance. pose proof (Z.mod_pos_bound (nid - machine_rr_cnt b) workers ltac:(lia)).
      pose proof (Z.mod_pos_bound (- rr_cnt b) 3 ltac:(lia)). lia. }
    assert (patience workers nid b1 = patience workers nid b) as Epb by (unfold patience, distance; by rewrite E1, E2).
    assert (0 <= patience workers nid b) as Hpos.
    { unfold patience, distance. pose proof (Z.mod_pos_bound (nid - machine_rr_cnt b) workers ltac:(lia)).
      pose proof (Z.mod_pos_bound (- rr_cnt b) 3 ltac:(lia)). lia. }
    pose proof (try_recv_progress workers nid m r b1 Hn Hne Hr Hs ltac:(lia) ltac:(lia) ltac:(lia) ltac:(nia)) as Hpr. rewrite Et in Hpr.
    destruct Hpr as [?|[?|[?|(P1 & P2 & P3 & P4)]]]; [done..|]. cbn [length]. specialize (IH ltac:(lia) ltac:(lia) ltac:(lia) ltac:(nia)). lia. }
  assert (patience workers nid b < 3 * workers) as Hpl.
  { unfold patience, distance. pose proof (Z.mod_pos_bound (nid - machine_rr_cnt b) workers ltac:(lia)).
    pose proof (Z.mod_pos_bound (- rr_cnt b) 3 ltac:(lia)). lia. }
  specialize (Hall b outs Hp H0 H2 ltac:(lia) ltac:(nia)). lia.
Qed.

(** ** Over TCP *)

(** The counter and the local queue of a thread, and the messages that its socket
    has received. *)
Record tcp_inbox := mk_tcp { tcp_rr_cnt : Z; tcp_local : list Message; tcp_socket : list (list Z) }.
(** [TCPMailbox::TryRecv] (core/tcp_mailbox.cpp:134-168). *)
Definition tcp_TryRecv (b : tcp_inbox) : option (option Message * tcp_inbox) :=
  let type := tcp_rr_cnt b mod 3 in
  let b := mk_tcp (tcp_rr_cnt b +64 1) (tcp_local b) (tcp_socket b) in
  match (if type =? 0 then None else WaitAndPop (tcp_local b)) with
  | Some (m, q) => Some (Some m, mk_tcp (tcp_rr_cnt b) q (tcp_socket b))
  | None =>
      match tcp_socket b with
      | [] => Some (None, b)
      | bytes :: rest => '(m, _) ← get_msg (mk_ob bytes 0); Some (Some m, mk_tcp (tcp_rr_cnt b) (tcp_local b) rest)
      end
  end.
(** [TCPMailbox::Send] (core/tcp_mailbox.cpp:110-132): the queue of a thread of
    this worker, or the bytes for the socket with the code of the receiver
    [TCPMailbox::port_code] (core/tcp_mailbox.hpp:67-67). *)
Definition port_code (threads nid tid : Z) : Z := nid * threads + tid.
Definition tcp_Send (threads : Z) (locals : gmap Z (list Message)) (sockets : gmap Z (list (list Z))) (m : Message) :
  option (gmap Z (list Message) * gmap Z (list (list Z))) :=
  let nid := recver_nid (meta m) in let tid := recver_tid (meta m) in
  if nid =? rank then q ← locals !! tid; Some (<[tid := Push q m]> locals, sockets)
  else match sockets !! port_code threads nid tid with
  | None => Some (locals, sockets)
  | Some s => Some (locals, <[port_code threads nid tid := s ++ [put_msg m]]> sockets)
  end.

(** Different threads have different sockets. *)
Lemma port_code_inj threads n t n' t' :
  0 <= t < threads -> 0 <= t' < threads -> port_code threads n t = port_code threads n' t' -> n = n' /\ t = t'.
Proof. unfold port_code. intros. assert (n = n') by nia. subst. split; [done|lia]. Qed.
(** A call takes the first message of the socket, or the first of the queue; of
    three calls in a row, one skips the queue. *)
Lemma tcp_progress b m rest :
  tcp_socket b = put_msg m :: rest -> ser_wf s_msg m ->
  tcp_TryRecv b = Some (Some m, mk_tcp (tcp_rr_cnt b +64 1) (tcp_local b) rest) \/
  (tcp_rr_cnt b mod 3 <> 0 /\ exists x q, tcp_local b = x :: q /\ tcp_TryRecv b = Some (Some x, mk_tcp (tcp_rr_cnt b +64 1) q (tcp_socket b))).
Proof.
  intros Hs Hw. pose proof (reads_at get_msg (put_msg m) m [] [] (ser_reads s_msg m Hw)) as E. cbn [app] in E. rewrite app_nil_r in E.
  unfold tcp_TryRecv. cbv zeta. cbn [tcp_rr_cnt tcp_local tcp_socket]. rewrite Hs. destruct (Z.eqb_spec (tcp_rr_cnt b mod 3) 0) as [Hz|Hz].
  - left. cbn [length] in E. by rewrite E.
  - destruct (tcp_local b) as [|x q]; cbn [WaitAndPop]; [left; cbn [length] in E; by rewrite E|]. right. split; [done|]. by exists x, q.
Qed.
End Mailboxes.

(** ** Examples *)

(** Two messages for one ring of 64 bytes, and between them one that is too long
    for it now: the last one overtakes it. *)
Definition pending1 : list mailbox_data_t := [mk_data [1; 2; 3] 1 0; mk_data (replicate 40 9) 1 0; mk_data [4] 1 0].
Definition rings1 : gmap (Z * Z) ring := {[ (1, 0) := ring0 ]}.
Lemma rings1_run : rings_run 64 rings1 (fun _ => []).
Proof.
  intros key r E. unfold rings1 in E. apply lookup_singleton_Some in E as [<- <-]. exists [], []. apply rr_init.
Qed.
Lemma sweep_delivers_witness :
  exists kept gone buf' rings',
    Sweep 64 (replicate 64 5) rings1 pending1 = Some (kept, buf', rings') /\ kept ++ gone ≡ₚ pending1 /\
    rings_run 64 rings' (fun key => [] ++ written gone key).
Proof.
  destruct (sweep_delivers 64 ltac:(lia) ltac:(by exists 8) (replicate 64 5) rings1 (fun _ => []) pending1 rings1_run)
    as (kept & gone & buf' & rings' & E & _ & _ & _ & P & _ & R); [done| | |].
  - repeat (constructor; [split; [by vm_compute; eexists|done]|]). constructor.
  - intros key r E. unfold rings1 in E. apply lookup_singleton_Some in E as [<- <-]. by vm_compute.
  - exact (ex_intro _ kept (ex_intro _ gone (ex_intro _ buf' (ex_intro _ rings' (conj E (conj P R)))))).
Defined.
Lemma sweep_overtakes :
  option_map (fun x => map (fun d => length (stream d)) x.1.1) (Sweep 64 (replicate 64 5) rings1 pending1) = Some [40%nat].
Proof. by vm_compute. Qed.

(** A message that fits the ring, but not the send buffer of the thread, is
    copied over the end of the buffer: only the space in the ring is checked. *)
Lemma send_buffer_overrun :
  IsBufferFull 64 ring0 (msg_size 24) = false /\ send_data 64 (replicate 32 0) rings1 (mk_data (replicate 24 1) 1 0) = None.
Proof. by vm_compute. Qed.

(** A ring that shows a message, and a queue that is not empty: the second call
    is served from the queue. *)
Definition msg_pad : list Z := [0; 0; 0; 0; 0; 0].
Definition ring_msg : ring := Eval vm_compute in snd (SendData 512 (mk_ring (replicate 512 0) 0 0 0 0) (put_msg example_msg) msg_pad).
Definition inbox_msg : inbox := mk_inbox 1 0 [example_msg] {[ 1 := ring_msg ]}.
Lemma ring_msg_showing : showing 512 ring_msg example_msg.
Proof.
  exists (mk_tr (put_msg example_msg) msg_pad 36), [], [], [put_msg example_msg]. split_and!; [|by vm_compute|done|].
  - apply (send_data_run 512 ltac:(lia) ltac:(by exists 64) (mk_ring (replicate 512 0) 0 0 0 0) [] [] [] (put_msg example_msg) msg_pad ring_msg);
      [apply rr_init|done|by vm_compute..].
  - repeat first [progress cbn | split | apply Forall_cons | apply Forall_nil | by vm_compute | lia].
Qed.
Lemma inbox_msg_passed : passed_over 512 0 2 1 example_msg inbox_msg [FromQueue example_msg].
Proof.
  apply (po_call 512 0 2 1 example_msg inbox_msg inbox_msg (TryRecv 512 0 2 inbox_msg).2 ring_msg); try done; [apply ring_msg_showing|apply po_nil].
Qed.
Lemma try_recv_fair_witness :
  (TryRecv 512 0 2 inbox_msg).1 = FromQueue example_msg /\ Z.of_nat (length [FromQueue example_msg]) < 3 * 2.
Proof.
  pose proof (try_recv_fair 512 0 ltac:(lia) ltac:(by exists 64) 2 1 example_msg inbox_msg [FromQueue example_msg] ltac:(lia) ltac:(lia)
    inbox_msg_passed ltac:(done) ltac:(done) ltac:(done) ltac:(done)) as H.
  exact (conj eq_refl H).
Defined.
