(* ===== verification/ToolValue.v ===== *)
(** * utils/tool.hpp, base/predicate.cpp, value_t of base/type.cpp: values

    A [value_t] is a type code with the bytes of its content: 1 is [int], 2 is
    [double], 3 is [char], 4 is [string], 5 is [uint64_t], 6 is a property with
    its id, and [16 | t] is a list of values of type [t] whose contents are
    joined by tab characters.  A string is the list of its characters, a
    character its byte.  A [double] is its 64 bits; reading it as a number gives
    a signed mantissa with an exponent, an infinity or a NaN.  [None] is an
    exception, undefined behaviour (a read beyond the content, [atoi] out of
    range) or a recursion that does not return. *)
From S2P Require Import Prelude MyMath Types Serialization.
From Stdlib Require String Ascii.
Import String.StringSyntax.
Local Open Scope string_scope.
Local Open Scope Z_scope.
Local Open Scope word_scope.

(** The characters of a literal. *)
Definition str (s : String.string) : list Z :=
  (fun a => Z.of_N (Ascii.N_of_ascii a)) <$> String.list_ascii_of_string s.

Definition ch_quote : Z := 34.
Definition ch_squote : Z := 39.
Definition ch_tab : Z := 9.
Definition ch_dot : Z := 46.
Definition ch_minus : Z := 45.
Definition ch_zero : Z := 48.
Definition mem (c : Z) (l : list Z) : bool := existsb (Z.eqb c) l.
Definition is_digit (c : Z) : bool := (ch_zero <=? c) && (c <=? 57).

(** ** Splitting and trimming *)

(** The loop that passes the separators in front of a word. *)
Fixpoint skip_seps (seps s : list Z) : list Z :=
  match s with [] => [] | c :: s' => if mem c seps then skip_seps seps s' else s end.
(** The loop that finds the end of a word: the word and what follows it. *)
Fixpoint take_word (seps s : list Z) : list Z * list Z :=
  match s with
  | [] => ([], [])
  | c :: s' => if mem c seps then ([], s)
               else let '(w, r) := take_word seps s' in (c :: w, r)
  end.
(** The same loop where separators between double quotes do not count. *)
Fixpoint take_quoted (seps : list Z) (in_quote : bool) (s : list Z) : list Z * list Z * bool :=
  match s with
  | [] => ([], [], in_quote)
  | c :: s' =>
      let q := if c =? ch_quote then negb in_quote else in_quote in
      if negb q && mem c seps then ([], s, q)
      else let '(w, r, q') := take_quoted seps q s' in (c :: w, r, q')
  end.

Fixpoint split_loop (fuel : nat) (seps s : list Z) : option (list (list Z)) :=
  match fuel, s with
  | _, [] => Some []
  | O, _ => None
  | S fuel, _ =>
      let '(w, r) := take_word seps (skip_seps seps s) in
      rest ← split_loop fuel seps r;
      Some (if decide (w = []) then rest else w :: rest)
  end.
(** [Tool::split] (utils/tool.hpp:35-66). *)
Definition split (s seps : list Z) : option (list (list Z)) := split_loop (length s) seps s.

Fixpoint split_escape_loop (fuel : nat) (seps : list Z) (in_quote : bool) (s : list Z)
  : option (list (list Z)) :=
  match fuel, s with
  | _, [] => Some []
  | O, _ => None
  | S fuel, _ =>
      let '(w, r, q) := take_quoted seps in_quote (skip_seps seps s) in
      rest ← split_escape_loop fuel seps q r;
      Some (if decide (w = []) then rest else w :: rest)
  end.
(** [Tool::splitWithEscape] (utils/tool.hpp:70-109). *)
Definition splitWithEscape (s seps : list Z) : option (list (list Z)) :=
  split_escape_loop (length s) seps false s.

(** [Tool::trim] (utils/tool.hpp:111-117). *)
Definition trim (s sub : list Z) : list Z := reverse (skip_seps sub (reverse (skip_seps sub s))).

(** ** Numbers in text *)

(** [isspace] of the C locale. *)
Definition is_space (c : Z) : bool := (c =? 32) || ((9 <=? c) && (c <=? 13)).
Fixpoint skip_space (s : list Z) : list Z :=
  match s with [] => [] | c :: s' => if is_space c then skip_space s' else s end.
Definition take_sign (s : list Z) : bool * list Z :=
  match s with
  | c :: s' => if c =? ch_minus then (true, s') else if c =? 43 then (false, s') else (false, s)
  | [] => (false, [])
  end.
(** The longest prefix of digits, and the rest. *)
Fixpoint take_digits (s : list Z) : list Z * list Z :=
  match s with
  | [] => ([], [])
  | c :: s' => if is_digit c then let '(d, r) := take_digits s' in (c :: d, r) else ([], s)
  end.
Definition digits_value (ds : list Z) : Z := foldl (fun n c => 10 * n + (c - ch_zero)) 0 ds.

(** [atoi]; a value that is not an [int] is undefined. *)
Definition atoi (s : list Z) : option Z :=
  let '(neg, r) := take_sign (skip_space s) in
  let n := digits_value (take_digits r).1 in
  let z := if neg : bool then - n else n in
  if (- 2 ^ 31 <=? z) && (z <? 2 ^ 31) then Some z else None.
(** [stoull]: no digits and a value of more than 64 bits throw; a sign negates
    modulo [2^64]. *)
Definition stoull (s : list Z) : option Z :=
  let '(neg, r) := take_sign (skip_space s) in
  let ds := (take_digits r).1 in
  if decide (ds = []) then None
  else
    let n := digits_value ds in
    if n <? 2 ^ 64 then Some (if neg : bool then wrap 64 (- n) else n) else None.

(** The quotient rounded to the nearest integer, ties to even. *)
Definition round_half_even (n d : Z) : Z :=
  let q := n / d in
  let r := n mod d in
  if 2 * r <? d then q
  else if d <? 2 * r then q + 1
  else if Z.even q then q else q + 1.
(** The bits of the [double] nearest to [n / d], for [0 <= n] and [0 < d]. *)
Definition round_double (n d : Z) : Z :=
  if n =? 0 then 0
  else
    let l := Z.log2 n - Z.log2 d in
    let l := if (if 0 <=? l then d * 2 ^ l <=? n else d <=? n * 2 ^ (- l)) then l else l - 1 in
    let e := Z.max (-1074) (l - 52) in
    let q := if 0 <=? e then round_half_even n (d * 2 ^ e) else round_half_even (n * 2 ^ (- e)) d in
    let '(q, e) := if q =? 2 ^ 53 then (2 ^ 52, e + 1) else (q, e) in
    if q <? 2 ^ 52 then q
    else if 971 <? e then 0x7FF0000000000000
    else (e + 1075) * 2 ^ 52 + (q - 2 ^ 52).

(** [atof] on a decimal number; the hexadecimal form, infinities and NaNs of
    [strtod] are not translated and give [None]. *)
Definition atof (s : list Z) : option Z :=
  let '(neg, r) := take_sign (skip_space s) in
  let '(ip, r) := take_digits r in
  let '(fp, r) := match r with c :: r' => if c =? ch_dot then take_digits r' else ([], r) | [] => ([], []) end in
  if decide (ip ++ fp = []) then
    match r with
    | c :: _ => if mem c (str "iInN") then None else Some 0
    | [] => Some 0
    end
  else if (digits_value ip =? 0) && mem (default 0 (head r)) (str "xX") then None
  else
    let ex := match r with
      | c :: r' =>
          if mem c (str "eE") then
            let '(en, r'') := take_sign r' in
            let d := digits_value (take_digits r'').1 in if en : bool then - d else d
          else 0
      | [] => 0 end in
    let k := ex - Z.of_nat (length fp) in
    let n := digits_value (ip ++ fp) in
    let b := if 0 <=? k then round_double (n * 10 ^ k) 1 else round_double n (10 ^ (- k)) in
    Some (if neg : bool then b + 2 ^ 63 else b).

(** ** Reading a value *)

Definition content_at (n : nat) (v : value_t) : option (list Z) :=
  if (n <=? length (v_content v))%nat then Some (take n (v_content v)) else None.

(** [Tool::value_t2int] (utils/tool.hpp:119-121). *)
Definition value_t2int (v : value_t) : option Z := (fun bs => i32 (le_combine bs)) <$> content_at 4 v.
(** [Tool::value_t2double] (utils/tool.hpp:123-125), as bits. *)
Definition value_t2double (v : value_t) : option Z := le_combine <$> content_at 8 v.
(** [Tool::value_t2char] (utils/tool.hpp:127-129). *)
Definition value_t2char (v : value_t) : option Z := head (v_content v).
(** [Tool::value_t2string] (utils/tool.hpp:131-133). *)
Definition value_t2string (v : value_t) : list Z := v_content v.
(** [Tool::value_t2uint64_t] (utils/tool.hpp:135-137). *)
Definition value_t2uint64_t (v : value_t) : option Z := le_combine <$> content_at 8 v.

(** ** Writing a value

    The writers append to the content of the value that they are given. *)

Definition add_content (v : value_t) (bs : list Z) (t : Z) : value_t :=
  mk_value t (v_content v ++ bs) (v_empty v).

(** [Tool::str2str] (utils/tool.hpp:190-193). *)
Definition str2str (s : list Z) (v : value_t) : value_t := add_content v s 4.
(** [Tool::str2char] (utils/tool.hpp:195-198); [s[0]] of an empty string is the
    terminating 0. *)
Definition str2char (s : list Z) (v : value_t) : value_t := add_content v [default 0 (head s)] 3.
(** [Tool::double2value_t] (utils/tool.hpp:236-244). *)
Definition double2value_t (d : Z) (v : value_t) : value_t := add_content v (le_split 8 d) 2.
(** [Tool::int2value_t] (utils/tool.hpp:246-254). *)
Definition int2value_t (i : Z) (v : value_t) : value_t := add_content v (le_split 4 i) 1.
(** [Tool::uint64_t2value_t] (utils/tool.hpp:256-264). *)
Definition uint64_t2value_t (u : Z) (v : value_t) : value_t := add_content v (le_split 8 u) 5.
(** [Tool::str2uint64_t] (utils/tool.hpp:185-188). *)
Definition str2uint64_t (s : list Z) (v : value_t) : option value_t :=
  u ← stoull s; Some (uint64_t2value_t u v).
(** [Tool::str2double] (utils/tool.hpp:200-203). *)
Definition str2double (s : list Z) (v : value_t) : option value_t :=
  d ← atof s; Some (double2value_t d v).
(** [Tool::str2int] (utils/tool.hpp:205-208). *)
Definition str2int (s : list Z) (v : value_t) : option value_t :=
  i ← atoi s; Some (int2value_t i v).

(** [s.find(q) == 0] and [s.rfind(q) == s.length() - 1], for one character. *)
Definition quoted_by (q : Z) (s : list Z) : bool :=
  bool_decide (head s = Some q) && bool_decide (last s = Some q).
(** The regular expression [[(-|+)]?[0-9]+]: the bracket holds the range from
    ( to |, so one character of codes 40 to 124 may precede the digits. *)
Definition int_regex (s : list Z) : bool :=
  (negb (length s =? 0)%nat && forallb is_digit s) ||
  match s with
  | c :: s' => (40 <=? c) && (c <=? 124) && negb (length s' =? 0)%nat && forallb is_digit s'
  | [] => false
  end.
(** [Tool::checktype] (utils/tool.hpp:164-183). *)
Definition checktype (s : list Z) : option Z :=
  if quoted_by ch_quote s then Some 4
  else if quoted_by ch_squote s && (length s =? 3)%nat then Some 3
  else if mem ch_dot s then Some 2
  else if int_regex s then
    num ← stoull s; Some (if num >> 32 =? 0 then 1 else 5)
  else Some (-1).

(** [Tool::str2value_t] (utils/tool.hpp:210-234): the result and the value. *)
Definition str2value_t (s : list Z) (v : value_t) : option (bool * value_t) :=
  type ← checktype s;
  if type =? 5 then v ← str2uint64_t s v; Some (true, v)
  else if type =? 4 then Some (true, str2str (trim s [ch_quote]) v)
  else if type =? 3 then Some (true, str2char (trim s [ch_squote]) v)
  else if type =? 2 then v ← str2double s v; Some (true, v)
  else if type =? 1 then v ← str2int s v; Some (true, v)
  else Some (false, v).

(** [Tool::get_kvpair] (utils/tool.hpp:139-162). *)
Definition get_kvpair (key value : list Z) (type_ : Z) (p : kv_pair) : option kv_pair :=
  k ← atoi (trim key [32]);
  let s_value := trim value [32] in
  let set v := mk_kv (u32 k) v in
  if type_ =? 4 then Some (set (str2str (trim s_value [ch_quote]) (kv_value p)))
  else if type_ =? 3 then Some (set (str2char (trim s_value [ch_squote]) (kv_value p)))
  else if type_ =? 2 then v ← str2double s_value (kv_value p); Some (set v)
  else if type_ =? 1 then v ← str2int s_value (kv_value p); Some (set v)
  else Some (set (kv_value p)).

Fixpoint vec_strings (vec : list (list Z)) (v : value_t) (type : Z) : option (bool * value_t) :=
  match vec with
  | [] => Some (true, v)
  | s :: vec' =>
      let s_value := trim s [32] in
      t ← checktype s_value;
      if negb (t =? type) then Some (false, v)
      else
        '(_, v) ← str2value_t s_value v;
        vec_strings vec' (add_content v [ch_tab] (v_type v)) type
  end.
(** The end of both [vec2value_t]: drop the last tab and mark a list. *)
Definition close_list (v : value_t) (type : Z) : value_t :=
  mk_value (u8 (Z.lor 16 type)) (removelast (v_content v)) (v_empty v).
(** [Tool::vec2value_t(const vector<string>&, value_t&, int)]
    (utils/tool.hpp:266-283). *)
Definition vec2value_t (vec : list (list Z)) (v : value_t) (type : Z) : option (bool * value_t) :=
  if (length vec =? 0)%nat then Some (false, v)
  else
    '(ok, v) ← vec_strings vec v type;
    Some (if ok : bool then (true, close_list v type) else (false, v)).

Fixpoint vec_values (vec : list value_t) (v : value_t) (type : Z) : bool * value_t :=
  match vec with
  | [] => (true, v)
  | val :: vec' =>
      if negb (v_type val =? type) then (false, v)
      else vec_values vec' (mk_value (v_type v) (v_content val ++ v_content v ++ [ch_tab]) (v_empty v)) type
  end.
(** [Tool::vec2value_t(const vector<value_t>&, value_t&)]
    (utils/tool.hpp:285-302): each content goes to the front. *)
Definition vec2value_t_values (vec : list value_t) (v : value_t) : bool * value_t :=
  match vec with
  | [] => (false, v)
  | val0 :: _ =>
      let type := v_type val0 in
      let '(ok, v) := vec_values vec v type in
      if ok then (true, close_list v type) else (false, v)
  end.

(** [Tool::vec_pair2value_t] (utils/tool.hpp:312-322), the new values. *)
Definition vec_pair2value_t (v_p : list (Z * list Z)) : list value_t :=
  (fun '(u, s) =>
     let v := str2str s (uint64_t2value_t u value_default) in
     mk_value 6 (v_content v) (v_empty v)) <$> v_p.

(** [Tool::value_t2vec] (utils/tool.hpp:324-347), the values it appends. *)
Definition value_t2vec (v : value_t) : option (list value_t) :=
  let value := value_t2string v in
  let type := Z.land (v_type v) 0xF in
  values ← (if type =? 4 then splitWithEscape value [ch_tab] else split value [ch_tab]);
  Some (if v_type v <? 0xF then [v]
        else (fun s => mk_value type (v_content (str2str s value_default)) true) <$> values).

(** ** Printing a value *)

Fixpoint digits_loop (fuel : nat) (n : Z) (acc : list Z) : list Z :=
  match fuel with
  | O => acc
  | S fuel =>
      let acc := (ch_zero + n mod 10) :: acc in
      if n <? 10 then acc else digits_loop fuel (n / 10) acc
  end.
(** The decimal digits of a natural number; a number has at most as many as
    binary ones. *)
Definition digits (n : Z) : list Z := digits_loop (S (Z.to_nat (Z.log2 n))) n [].
(** [std::to_string] of an integer. *)
Definition to_string_int (i : Z) : list Z := if i <? 0 then ch_minus :: digits (- i) else digits i.

(** The number that the bits of a [double] stand for: [Fin m e] is [m * 2^e]. *)
Inductive double := Fin (m e : Z) | Inf (neg : bool) | NaN.
Definition double_neg (b : Z) : bool := Z.testbit b 63.
Definition double_of_bits (b : Z) : double :=
  let m := b mod 2 ^ 52 in
  let e := (b / 2 ^ 52) mod 2 ^ 11 in
  let s := if double_neg b then -1 else 1 in
  if e =? 2047 then if m =? 0 then Inf (double_neg b) else NaN
  else if e =? 0 then Fin (s * m) (-1074)
  else Fin (s * (m + 2 ^ 52)) (e - 1075).
Definition double_of_int (i : Z) : double := Fin i 0.

(** [std::to_string(double)], which prints with the format %f. *)
Definition to_string_double (b : Z) : list Z :=
  let sign := if double_neg b then [ch_minus] else [] in
  sign ++
  match double_of_bits b with
  | NaN => str "nan"
  | Inf _ => str "inf"
  | Fin m e =>
      let a := Z.abs m * 1000000 in
      let n := if 0 <=? e then a * 2 ^ e else round_half_even a (2 ^ (- e)) in
      let f := digits (n mod 1000000) in
      digits (n / 1000000) ++ [ch_dot] ++ replicate (6 - length f) ch_zero ++ f
  end.

(** [temp.resize(temp.find_last_not_of(c) + 1)] *)
Definition drop_last_of (c : list Z) (s : list Z) : list Z := reverse (skip_seps c (reverse s)).
(** The case of a [double]: no trailing zeros but at least one decimal. *)
Definition debug_double (b : Z) : list Z :=
  let temp := drop_last_of [ch_zero] (to_string_double b) in
  if bool_decide (last temp = Some ch_dot) then temp ++ [ch_zero] else temp.

Fixpoint debug_string (fuel : nat) (v : value_t) : option (list Z) :=
  match fuel with
  | O => None
  | S fuel =>
      if v_type v =? 6 then
        if (8 <=? length (v_content v))%nat then Some (drop 8 (v_content v)) else None
      else if v_type v =? 5 then to_string_int <$> value_t2uint64_t v
      else if (v_type v =? 4) || (v_type v =? 3) then Some (v_content v)
      else if v_type v =? 2 then debug_double <$> value_t2double v
      else if v_type v =? 1 then to_string_int <$> value_t2int v
      else
        vec ← value_t2vec v;
        parts ← mapM (debug_string fuel) vec;
        Some (trim (str "[" ++ concat ((fun p => p ++ str ", ") <$> parts)) (str ", ") ++ str "]")
  end.
(** [value_t::DebugString] (base/type.cpp:321-357).  The elements of a list of
    scalars are scalars, so two levels of calls are enough; a value of another
    type that is no list calls itself forever. *)
Definition DebugString (v : value_t) : option (list Z) := debug_string 2 v.

(** ** Splitting *)

Lemma mem_spec c l : mem c l = true <-> c ∈ l.
Proof.
  unfold mem. rewrite existsb_exists. setoid_rewrite Z.eqb_eq. setoid_rewrite <- list_elem_of_In.
  naive_solver.
Qed.
Lemma mem_false c l : mem c l = false <-> c ∉ l.
Proof. rewrite <- mem_spec. destruct (mem c l); naive_solver. Qed.

Lemma skip_seps_length seps s : (length (skip_seps seps s) <= length s)%nat.
Proof. induction s as [|c s IH]; cbn; [lia|]. destruct (mem c seps); cbn; lia. Qed.

Lemma skip_seps_head seps s c r : skip_seps seps s = c :: r -> mem c seps = false.
Proof. induction s as [|d s IH]; cbn; [done|]. destruct (mem d seps) eqn:E; [done|]. congruence. Qed.

Lemma take_word_app seps s : let '(w, r) := take_word seps s in s = w ++ r.
Proof.
  induction s as [|c s IH]; cbn; [done|]. destruct (mem c seps); [done|].
  destruct (take_word seps s). cbn. congruence.
Qed.

Lemma take_quoted_app seps q s : let '(w, r, _) := take_quoted seps q s in s = w ++ r.
Proof.
  revert q. induction s as [|c s IH]; intros q; cbn; [done|].
  destruct (_ && _); [done|].
  specialize (IH (if c =? ch_quote then negb q else q)).
  destruct (take_quoted _ _ s) as [[w r] q']. cbn. congruence.
Qed.

(** A word loop that starts after the separators makes progress. *)
Lemma take_word_progress seps s w r :
  s <> [] -> take_word seps (skip_seps seps s) = (w, r) -> (length r < length s)%nat.
Proof.
  intros Hs E. pose proof (skip_seps_length seps s).
  pose proof (take_word_app seps (skip_seps seps s)) as A. rewrite E in A.
  destruct (skip_seps seps s) as [|c s'] eqn:Es.
  { destruct w, r; cbn in *; try done. destruct s; cbn; [done|lia]. }
  cbn in E. rewrite (skip_seps_head _ _ _ _ Es) in E.
  destruct (take_word seps s') as [w' r']. injection E as <- <-.
  apply (f_equal length) in A. rewrite length_app in A. cbn in *. lia.
Qed.

Lemma take_quoted_progress seps q s w r q' :
  s <> [] -> take_quoted seps q (skip_seps seps s) = (w, r, q') -> (length r < length s)%nat.
Proof.
  intros Hs E. pose proof (skip_seps_length seps s).
  pose proof (take_quoted_app seps q (skip_seps seps s)) as A. rewrite E in A.
  destruct (skip_seps seps s) as [|c s'] eqn:Es.
  { destruct w, r; cbn in *; try done. destruct s; cbn; [done|lia]. }
  cbn in E. rewrite (skip_seps_head _ _ _ _ Es), andb_false_r in E.
  destruct (take_quoted _ _ s') as [[w' r'] q2]. injection E as <- <- <-.
  apply (f_equal length) in A. rewrite length_app in A. cbn in *. lia.
Qed.

(** Both splitting loops end within as many words as there are characters. *)
Theorem split_total seps s : is_Some (split s seps) /\ is_Some (splitWithEscape s seps).
Proof.
  split.
  - unfold split. assert (length s <= length s)%nat as H by lia. revert H.
    generalize (length s) at 2 3. intros f. revert s.
    induction f as [|f IH]; intros [|c s] Hf; cbn [split_loop]; [by eexists|cbn in Hf; lia|by eexists|].
    destruct (take_word seps _) as [w r] eqn:E.
    destruct (IH r) as [ws ->]; [|by eexists]. apply take_word_progress in E; [cbn in *; lia|done].
  - unfold splitWithEscape. assert (length s <= length s)%nat as H by lia. revert H.
    generalize (length s) at 2 3. intros f. generalize false at 1. revert s.
    induction f as [|f IH]; intros [|c s] q Hf; cbn [split_escape_loop]; [by eexists|cbn in Hf; lia|by eexists|].
    destruct (take_quoted seps q _) as [[w r] q'] eqn:E.
    destruct (IH r q') as [ws ->]; [|by eexists]. apply take_quoted_progress in E; [cbn in *; lia|done].
Qed.

(** The pieces of a list: not empty, without the separator. *)
Definition piece (b : list Z) : Prop := b <> [] /\ ch_tab ∉ b.

(** Contents joined by tabs. *)
Fixpoint join_tab (bs : list (list Z)) : list Z :=
  match bs with [] => [] | [b] => b | b :: bs' => b ++ ch_tab :: join_tab bs' end.

Lemma removelast_join bs : removelast (concat ((fun b => b ++ [ch_tab]) <$> bs)) = join_tab bs.
Proof.
  induction bs as [|b bs IH]; [done|]. rewrite fmap_cons. cbn [concat].
  destruct bs as [|b' bs'].
  - cbn [fmap list_fmap concat]. rewrite app_nil_r, removelast_app by done. cbn. by rewrite app_nil_r.
  - rewrite <- app_assoc, removelast_app by done.
    change (join_tab (b :: b' :: bs')) with (b ++ ch_tab :: join_tab (b' :: bs')). f_equal.
    rewrite <- IH, fmap_cons. cbn [concat app removelast]. by destruct b'.
Qed.

Lemma take_word_piece b r :
  ch_tab ∉ b -> r = [] \/ head r = Some ch_tab -> take_word [ch_tab] (b ++ r) = (b, r).
Proof.
  intros Hb Hr. induction b as [|c b IH]; cbn.
  - destruct r as [|c r]; [done|]. destruct Hr as [|[= ->]]; done.
  - rewrite orb_false_r. destruct (Z.eqb_spec c ch_tab) as [->|]; [set_solver|].
    rewrite IH by set_solver. done.
Qed.

Lemma take_quoted_piece b r :
  ch_tab ∉ b -> ch_quote ∉ b -> r = [] \/ head r = Some ch_tab ->
  take_quoted [ch_tab] false (b ++ r) = (b, r, false).
Proof.
  intros Hb Hq Hr. induction b as [|c b IH]; cbn.
  - destruct r as [|c r]; [done|]. destruct Hr as [|[= ->]]; done.
  - destruct (Z.eqb_spec c ch_quote) as [->|]; [set_solver|].
    rewrite orb_false_r. destruct (Z.eqb_spec c ch_tab) as [->|]; [set_solver|].
    cbn. rewrite IH by set_solver. done.
Qed.

Lemma skip_seps_piece b r : piece b -> skip_seps [ch_tab] (b ++ r) = b ++ r.
Proof.
  intros [Hn Ht]. destruct b as [|c b]; [done|]. cbn. rewrite orb_false_r.
  destruct (Z.eqb_spec c ch_tab) as [->|]; [set_solver|done].
Qed.

Lemma join_tab_cons b bs :
  exists r, join_tab (b :: bs) = b ++ r /\ (r = [] /\ bs = [] \/ r = ch_tab :: join_tab bs /\ bs <> []).
Proof.
  destruct bs as [|b' bs]; [exists []; cbn; rewrite app_nil_r; by auto|].
  eexists. split; [reflexivity|]. right. done.
Qed.

Lemma join_tab_nonempty b bs : piece b -> join_tab (b :: bs) <> [].
Proof. intros [Hb _]. destruct (join_tab_cons b bs) as (r & -> & _). by destruct b. Qed.

Lemma split_join bs f :
  Forall piece bs -> (length (join_tab bs) <= f)%nat -> split_loop f [ch_tab] (join_tab bs) = Some bs.
Proof.
  revert f. induction bs as [|b bs IH]; intros f Hp Hf; [by destruct f|].
  apply Forall_cons_1 in Hp as [Hb Hp]. destruct (join_tab_cons b bs) as (r & E & Hr). rewrite E in *.
  pose proof Hb as [Hn Ht]. assert (length b <> 0)%nat by (by destruct b).
  rewrite length_app in Hf. destruct f as [|f]; [lia|].
  cbn [split_loop]. destruct (b ++ r) as [|c s] eqn:Es; [by destruct b|]. rewrite <- Es.
  rewrite skip_seps_piece, take_word_piece by (done || naive_solver).
  assert (split_loop f [ch_tab] r = Some bs) as ->; [|cbn; by rewrite decide_False].
  destruct Hr as [[-> ->]|[-> Hbs]]; [by destruct f|]. cbn in Hf. destruct bs as [|b' bs]; [done|].
  destruct f as [|f]; [lia|]. rewrite <- (IH (S f)) by (done || lia).
  apply Forall_cons_1 in Hp as [Hb' _].
  destruct (join_tab (b' :: bs)) eqn:Ej; [|done]. by apply join_tab_nonempty in Ej.
Qed.

Lemma split_escape_join bs f :
  Forall piece bs -> Forall (fun b => ch_quote ∉ b) bs -> (length (join_tab bs) <= f)%nat ->
  split_escape_loop f [ch_tab] false (join_tab bs) = Some bs.
Proof.
  revert f. induction bs as [|b bs IH]; intros f Hp Hq Hf; [by destruct f|].
  apply Forall_cons_1 in Hp as [Hb Hp]. apply Forall_cons_1 in Hq as [Hqb Hq].
  destruct (join_tab_cons b bs) as (r & E & Hr). rewrite E in *.
  pose proof Hb as [Hn Ht]. assert (length b <> 0)%nat by (by destruct b).
  rewrite length_app in Hf. destruct f as [|f]; [lia|].
  cbn [split_escape_loop]. destruct (b ++ r) as [|c s] eqn:Es; [by destruct b|]. rewrite <- Es.
  rewrite skip_seps_piece, take_quoted_piece by (done || naive_solver).
  assert (split_escape_loop f [ch_tab] false r = Some bs) as ->; [|cbn; by rewrite decide_False].
  destruct Hr as [[-> ->]|[-> Hbs]]; [by destruct f|]. cbn in Hf. destruct bs as [|b' bs]; [done|].
  destruct f as [|f]; [lia|]. rewrite <- (IH (S f)) by (done || lia).
  apply Forall_cons_1 in Hp as [Hb' _].
  destruct (join_tab (b' :: bs)) eqn:Ej; [|done]. by apply join_tab_nonempty in Ej.
Qed.

(** ** Lists of literals *)

(** Parsing a literal appends the content that it has alone. *)
Lemma str2value_appends s w v :
  str2value_t s value_default = Some (true, w) ->
  checktype s = Some (v_type w) /\ str2value_t s v = Some (true, add_content v (v_content w) (v_type w)).
Proof.
  unfold str2value_t. destruct (checktype s) as [t|]; [|done]. cbn.
  destruct (Z.eqb_spec t 5) as [->|].
  { unfold str2uint64_t. destruct (stoull s); cbn; [|done]. intros [= <-]. done. }
  destruct (Z.eqb_spec t 4) as [->|]; [intros [= <-]; done|].
  destruct (Z.eqb_spec t 3) as [->|]; [intros [= <-]; done|].
  destruct (Z.eqb_spec t 2) as [->|].
  { unfold str2double. destruct (atof s); cbn; [|done]. intros [= <-]. done. }
  destruct (Z.eqb_spec t 1) as [->|]; [|done].
  unfold str2int. destruct (atoi s); cbn; [|done]. intros [= <-]. done.
Qed.

(** What one literal of a list stands for: its value alone, whose content has
    no tab and, for a string, no quote. *)
Definition literal (type : Z) (s : list Z) (w : value_t) : Prop :=
  str2value_t (trim s [32]) value_default = Some (true, w) /\ v_type w = type /\ v_empty w = true /\
  piece (v_content w) /\ (type = 4 -> ch_quote ∉ v_content w).

Lemma vec_strings_literals type ss ws v :
  Forall2 (literal type) ss ws ->
  exists t, vec_strings ss v type =
    Some (true, mk_value t (v_content v ++ concat ((fun w => v_content w ++ [ch_tab]) <$> ws)) (v_empty v)).
Proof.
  intros H. revert v. induction H as [|s w ss ws (E & Ht & _) _ IH]; intros v.
  { exists (v_type v). cbn. rewrite app_nil_r. by destruct v. }
  destruct (str2value_appends _ _ v E) as [Ec Ev]. cbn [vec_strings]. rewrite Ec. cbn.
  rewrite Ht, Z.eqb_refl. cbn. rewrite Ev. cbn.
  destruct (IH (add_content (add_content v (v_content w) (v_type w)) [ch_tab] (v_type w))) as [t Et].
  rewrite Et. exists t. cbn. by rewrite <- !app_assoc.
Qed.

Lemma literals_rebuilt type ss ws :
  Forall2 (literal type) ss ws -> (fun s => mk_value type s true) <$> (v_content <$> ws) = ws.
Proof.
  intros H. induction H as [|s w ss ws Hw _ IH]; [done|]. rewrite !fmap_cons, IH. f_equal.
  destruct Hw as (_ & <- & Hemp & _). destruct w. cbn in *. by subst.
Qed.

(** A list of literals in a query reads back as the values that its
    literals stand for: joining them with [vec2value_t] and taking them apart
    with [value_t2vec] gives the same values in order, for literals whose
    bytes do not contain the tab that separates them. *)
Theorem value_list_roundtrip type ss ws :
  1 <= type <= 5 -> ss <> [] -> Forall2 (literal type) ss ws ->
  exists v, vec2value_t ss value_default type = Some (true, v) /\ value_t2vec v = Some ws.
Proof.
  intros Ht Hs H. unfold vec2value_t. destruct ss as [|s ss]; [done|]. cbn [length Nat.eqb].
  destruct (vec_strings_literals type _ _ value_default H) as [t ->]. cbn.
  eexists. split; [reflexivity|]. unfold value_t2vec, close_list. cbn.
  assert (concat ((fun w => v_content w ++ [ch_tab]) <$> ws) =
          concat ((fun b => b ++ [ch_tab]) <$> (v_content <$> ws))) as ->.
  { f_equal. by rewrite <- list_fmap_compose. }
  rewrite removelast_join. unfold value_t2string. cbn [v_content].
  assert (Forall piece (v_content <$> ws)) as Hp.
  { apply Forall_fmap, (Forall2_Forall_r _ _ _ _ H). apply Forall_true. intros ? ? Hl. apply Hl. }
  assert (Z.land (u8 (Z.lor 16 type)) 15 = type /\ (u8 (Z.lor 16 type) <? 15) = false) as [-> ->].
  { assert (type = 1 \/ type = 2 \/ type = 3 \/ type = 4 \/ type = 5) as D by lia.
    destruct_or! D; subst; done. }
  pose proof (literals_rebuilt _ _ _ H) as Ew.
  destruct (Z.eqb_spec type 4) as [->|]; cbn.
  - unfold splitWithEscape. rewrite split_escape_join; [cbn; by f_equal|done| |done].
    apply Forall_fmap, (Forall2_Forall_r _ _ _ _ H). apply Forall_true. intros ? ? Hl. by apply Hl.
  - unfold split. rewrite split_join by done. cbn. by f_equal.
Qed.

Lemma value_list_roundtrip_witness :
  exists v, vec2value_t [str "8"; str " 100"] value_default 1 = Some (true, v) /\
    value_t2vec v = Some [int2value_t 8 value_default; int2value_t 100 value_default].
Proof.
  apply value_list_roundtrip; [done|done|].
  repeat constructor; cbn; try done; vm_compute; set_solver.
Defined.

Lemma take_word_no_sep seps s w r : take_word seps s = (w, r) -> Forall (fun c => mem c seps = false) w.
Proof.
  revert w. induction s as [|c s IH]; intros w; cbn; [intros [= <- <-]; done|].
  destruct (mem c seps) eqn:E; [intros [= <- <-]; done|].
  destruct (take_word seps s) as [w' r'] eqn:Ew. intros [= <- <-]. constructor; [done|]. by apply IH.
Qed.

(** The words of a split hold no separator. *)
Lemma split_words f seps s ws :
  split_loop f seps s = Some ws -> Forall (Forall (fun c => mem c seps = false)) ws.
Proof.
  revert s ws. induction f as [|f IH]; intros [|c s] ws; cbn [split_loop];
    [by intros [= <-]|done|by intros [= <-]|].
  destruct (take_word seps _) as [w r] eqn:Ew. destruct (split_loop f seps r) as [ws'|] eqn:E; [|done].
  cbn. destruct (decide (w = [])); intros [= <-]; [by eapply IH|].
  constructor; [by eapply take_word_no_sep|by eapply IH].
Qed.

(** A number whose bytes contain the separator does not survive in a list: the
    list of the one literal reads back as something else.  9 is such an [int]. *)
Theorem tab_byte_lost type s w :
  type ∈ [1; 2; 5] -> str2value_t (trim s [32]) value_default = Some (true, w) -> v_type w = type ->
  ch_tab ∈ v_content w ->
  exists v vs, vec2value_t [s] value_default type = Some (true, v) /\ value_t2vec v = Some vs /\ w ∉ vs.
Proof.
  intros Ht E Hw Hin. destruct (str2value_appends _ _ value_default E) as [Ec _].
  unfold vec2value_t. cbn [length Nat.eqb vec_strings]. rewrite Ec. cbn.
  rewrite Hw, Z.eqb_refl. cbn. rewrite E. cbn. eexists.
  destruct (split_total [ch_tab] (removelast (v_content w ++ [ch_tab]))) as [[ws Es] _].
  exists ((fun s => mk_value type (v_content (str2str s value_default)) true) <$> ws).
  split; [reflexivity|]. unfold value_t2vec, close_list, value_t2string. cbn [v_type v_content].
  assert (Z.land (u8 (Z.lor 16 type)) 15 = type /\ (u8 (Z.lor 16 type) <? 15) = false /\ (type =? 4) = false)
    as (-> & -> & ->) by (set_unfold; destruct_or! Ht; subst type; rewrite ?Ht; done).
  cbn [add_content v_content]. rewrite Es. split; [done|]. intros Hm. apply list_elem_of_fmap in Hm as (b & -> & Hb).
  apply split_words in Es. rewrite Forall_forall in Es. specialize (Es b Hb).
  rewrite Forall_forall in Es. specialize (Es _ Hin). done.
Qed.

Lemma tab_byte_lost_witness :
  exists v vs, vec2value_t [str "9"] value_default 1 = Some (true, v) /\ value_t2vec v = Some vs /\
    int2value_t 9 value_default ∉ vs.
Proof. apply tab_byte_lost; [set_solver|done|done|]. vm_compute. set_solver. Defined.

(** ** Decimal text *)

Lemma is_digit_spec n : is_digit (ch_zero + n mod 10) = true.
Proof. unfold is_digit, ch_zero. lia. Qed.

Lemma digits_loop_spec f n acc :
  0 <= n -> n < 2 ^ Z.of_nat f -> acc = [] \/ n <> 0 ->
  exists ds, digits_loop f n acc = ds ++ acc /\ (f <> 0%nat -> ds <> []) /\
    Forall (fun c => is_digit c = true) ds /\ digits_value ds = n.
Proof.
  revert n acc. induction f as [|f IH]; intros n acc H0 Hf Ha.
  { exists []. assert (n = 0) as -> by lia. done. }
  cbn [digits_loop]. destruct (Z.ltb_spec n 10).
  { exists [ch_zero + n mod 10]. split_and!; [done|done| |].
    - repeat constructor. apply is_digit_spec.
    - unfold digits_value, ch_zero. cbn. rewrite Z.mod_small by lia. lia. }
  assert (n / 10 < 2 ^ Z.of_nat f).
  { rewrite Nat2Z.inj_succ, Z.pow_succ_r in Hf by lia. apply Z.div_lt_upper_bound; lia. }
  destruct (IH (n / 10) ((ch_zero + n mod 10) :: acc)) as (ds & E & _ & Hd & Hv); [lia|done|right; lia|].
  exists (ds ++ [ch_zero + n mod 10]). rewrite <- app_assoc. split_and!; [done|by destruct ds| |].
  - apply Forall_app_2; [done|]. repeat constructor. apply is_digit_spec.
  - unfold digits_value in *. rewrite foldl_app, Hv. cbn. unfold ch_zero. lia.
Qed.

Lemma digits_spec n :
  0 <= n -> digits n <> [] /\ Forall (fun c => is_digit c = true) (digits n) /\ digits_value (digits n) = n.
Proof.
  intros Hn. unfold digits.
  destruct (digits_loop_spec (S (Z.to_nat (Z.log2 n))) n []) as (ds & E & H1 & H2 & H3); [done| |by left|].
  { rewrite Nat2Z.inj_succ, Z2Nat.id by apply Z.log2_nonneg.
    destruct (decide (n = 0)) as [->|]; [done|]. apply Z.log2_spec. lia. }
  rewrite E, app_nil_r. auto.
Qed.

Lemma take_digits_all ds : Forall (fun c => is_digit c = true) ds -> take_digits ds = (ds, []).
Proof. induction 1 as [|c ds Hc _ IH]; [done|]. cbn. by rewrite Hc, IH. Qed.

Lemma digits_no_sign ds :
  Forall (fun c => is_digit c = true) ds -> take_sign (skip_space ds) = (false, ds) /\ skip_space ds = ds.
Proof.
  intros H. destruct H as [|c ds Hc _]; [done|]. unfold is_digit, ch_zero in Hc. cbn. unfold is_space.
  assert ((c =? 32) || (9 <=? c) && (c <=? 13) = false) as -> by lia. cbn.
  unfold ch_minus. rewrite (proj2 (Z.eqb_neq c 45)), (proj2 (Z.eqb_neq c 43)) by lia. done.
Qed.

(** [atoi] and [stoull] read what [to_string] prints. *)
Lemma atoi_to_string i : - 2 ^ 31 <= i < 2 ^ 31 -> atoi (to_string_int i) = Some i.
Proof.
  intros Hi. unfold atoi, to_string_int. destruct (Z.ltb_spec i 0).
  - destruct (digits_spec (- i)) as (_ & Hd & Hv); [lia|].
    change (take_sign (skip_space (ch_minus :: digits (- i)))) with (true, digits (- i)).
    cbv beta iota zeta. rewrite take_digits_all by done. cbn [fst]. rewrite Hv. rewrite Z.opp_involutive.
    by rewrite (proj2 (Z.leb_le _ _)), (proj2 (Z.ltb_lt _ _)) by lia.
  - destruct (digits_spec i) as (_ & Hd & Hv); [lia|]. destruct (digits_no_sign _ Hd) as [-> _].
    cbv beta iota zeta. rewrite take_digits_all by done. cbn [fst]. rewrite Hv.
    by rewrite (proj2 (Z.leb_le _ _)), (proj2 (Z.ltb_lt _ _)) by lia.
Qed.

Lemma stoull_to_string i : - 2 ^ 63 <= i < 2 ^ 64 -> stoull (to_string_int i) = Some (wrap 64 i).
Proof.
  intros Hi. unfold stoull, to_string_int. destruct (Z.ltb_spec i 0).
  - destruct (digits_spec (- i)) as (Hn & Hd & Hv); [lia|].
    change (take_sign (skip_space (ch_minus :: digits (- i)))) with (true, digits (- i)).
    cbv beta iota zeta. rewrite take_digits_all by done. cbn [fst]. rewrite decide_False by done. rewrite Hv, Z.opp_involutive.
    by rewrite (proj2 (Z.ltb_lt _ _)) by lia.
  - destruct (digits_spec i) as (Hn & Hd & Hv); [lia|]. destruct (digits_no_sign _ Hd) as [-> _].
    cbv beta iota zeta. rewrite take_digits_all by done. cbn [fst]. rewrite decide_False by done. rewrite Hv.
    rewrite (proj2 (Z.ltb_lt _ _)) by lia. f_equal. unfold wrap. rewrite Z.mod_small; lia.
Qed.

Lemma digits_mem c ds : Forall (fun c => is_digit c = true) ds -> is_digit c = false -> mem c ds = false.
Proof. intros H Hc. apply mem_false. intros Hm. rewrite Forall_forall in H. specialize (H _ Hm). congruence. Qed.

(** A negative number in a query is typed as [uint64_t], not as [int], since
    [checktype] converts it with [stoull]: -1 becomes [2^64 - 1]. *)
Theorem negative_literal_unsigned i :
  - 2 ^ 31 <= i < 0 ->
  checktype (to_string_int i) = Some 5 /\
  str2value_t (to_string_int i) value_default = Some (true, uint64_t2value_t (2 ^ 64 + i) value_default).
Proof.
  intros Hi. assert (checktype (to_string_int i) = Some 5) as Ec.
  { pose proof (stoull_to_string i) as Es. unfold checktype, to_string_int in *.
    rewrite (proj2 (Z.ltb_lt i 0)) in * by lia.
    destruct (digits_spec (- i)) as (Hn & Hd & Hv); [lia|].
    change (quoted_by ch_quote (ch_minus :: digits (- i))) with false.
    change (quoted_by ch_squote (ch_minus :: digits (- i))) with false. cbn [andb].
    change (mem ch_dot (ch_minus :: digits (- i))) with (mem ch_dot (digits (- i))).
    rewrite digits_mem by done.
    assert (int_regex (ch_minus :: digits (- i)) = true) as ->.
    { unfold int_regex. apply orb_true_iff. right. rewrite (proj2 (forallb_forall _ _)).
      - destruct (digits (- i)); done.
      - intros c Hc. apply list_elem_of_In in Hc. rewrite Forall_forall in Hd. by apply Hd. }
    rewrite Es by lia. cbn [mbind option_bind]. do 2 f_equal. rewrite (proj2 (Z.eqb_neq _ _)); [done|].
    rewrite Z.shiftr_div_pow2 by done. unfold wrap. lia. }
  split; [done|]. unfold str2value_t. rewrite Ec. cbn [mbind option_bind Z.eqb Pos.eqb].
  unfold str2uint64_t. rewrite stoull_to_string by lia. cbn [mbind option_bind].
  do 3 f_equal. unfold wrap. lia.
Qed.

Lemma negative_literal_unsigned_witness : checktype (to_string_int (-1)) = Some 5.
Proof. apply negative_literal_unsigned. lia. Defined.
