(* ===== verification/Predicate.v ===== *)
(** * base/predicate.cpp: comparing values and evaluating predicates

    The comparison operators of [value_t] and the predicates of the has, is,
    where and index steps.  Contents that are not numbers are compared as
    vectors of (signed) [char]. *)
From S2P Require Import Prelude MyMath Types Serialization ToolValue.
Local Open Scope Z_scope.
Local Open Scope word_scope.

(** [Predicate_T] (base/type.hpp:554-554). *)
Inductive Predicate_T := P_ANY | P_NONE | P_EQ | P_NEQ | P_LT | P_LTE | P_GT | P_GTE
  | P_INSIDE | P_OUTSIDE | P_BETWEEN | P_WITHIN | P_WITHOUT.
#[global] Instance Predicate_T_eq_dec : EqDecision Predicate_T.
Proof. solve_decision. Defined.
Definition Predicates : list Predicate_T := [P_ANY; P_NONE; P_EQ; P_NEQ; P_LT; P_LTE; P_GT; P_GTE;
  P_INSIDE; P_OUTSIDE; P_BETWEEN; P_WITHIN; P_WITHOUT].

(** [PredicateValue] (base/predicate.hpp:34-43), as its constructor from a
    vector leaves it. *)
Record PredicateValue := mk_pv { pred_type : Predicate_T; pv_values : list value_t }.
(** [PredicateValue(Predicate_T, value_t)] (base/predicate.hpp:40-42). *)
Definition PredicateValue_of (p : Predicate_T) (v : value_t) : option PredicateValue :=
  mk_pv p <$> value_t2vec v.

(** ** Comparisons *)

(** Comparing numbers; [None] is unordered. *)
Definition double_compare (x y : double) : option comparison :=
  match x, y with
  | NaN, _ | _, NaN => None
  | Inf a, Inf b => Some (if a then if b then Eq else Lt else if b then Gt else Eq)
  | Inf a, Fin _ _ => Some (if a then Lt else Gt)
  | Fin _ _, Inf b => Some (if b then Gt else Lt)
  | Fin m e, Fin m' e' =>
      let k := Z.min e e' in Some (m * 2 ^ (e - k) ?= m' * 2 ^ (e' - k))
  end.
Definition double_lt (x y : double) : bool := bool_decide (double_compare x y = Some Lt).
Definition double_gt (x y : double) : bool := bool_decide (double_compare x y = Some Gt).
Definition double_le (x y : double) : bool := double_lt x y || bool_decide (double_compare x y = Some Eq).
Definition double_ge (x y : double) : bool := double_gt x y || bool_decide (double_compare x y = Some Eq).

(** [std::lexicographical_compare] of two [vector<char>]. *)
Fixpoint chars_lt (a b : list Z) : bool :=
  match a, b with
  | _, [] => false
  | [], _ :: _ => true
  | x :: a', y :: b' =>
      if swrap 8 x <? swrap 8 y then true
      else if swrap 8 y <? swrap 8 x then false
      else chars_lt a' b'
  end.

(** The six operators share their cases; they differ in how integers, doubles
    and characters are compared. *)
Definition compare_values (cz : Z -> Z -> bool) (cd : double -> double -> bool)
    (cc : list Z -> list Z -> bool) (v1 v2 : value_t) : option bool :=
  if negb (v_type v1 =? v_type v2) then
    if (v_type v1 =? 1) && (v_type v2 =? 2) then
      i ← value_t2int v1; d ← value_t2double v2; Some (cd (double_of_int i) (double_of_bits d))
    else if (v_type v1 =? 2) && (v_type v2 =? 1) then
      d ← value_t2double v1; i ← value_t2int v2; Some (cd (double_of_bits d) (double_of_int i))
    else Some (cc (v_content v1) (v_content v2))
  else if v_type v1 =? 1 then i ← value_t2int v1; j ← value_t2int v2; Some (cz i j)
  else if v_type v1 =? 2 then
    d ← value_t2double v1; e ← value_t2double v2; Some (cd (double_of_bits d) (double_of_bits e))
  else if v_type v1 =? 5 then u ← value_t2uint64_t v1; w ← value_t2uint64_t v2; Some (cz u w)
  else Some (cc (v_content v1) (v_content v2)).

(** [operator<] (base/predicate.cpp:37-52). *)
Definition value_lt : value_t -> value_t -> option bool := compare_values Z.ltb double_lt chars_lt.
(** [operator>] (base/predicate.cpp:54-69). *)
Definition value_gt : value_t -> value_t -> option bool :=
  compare_values Z.gtb double_gt (fun a b => chars_lt b a).
(** [operator<=] (base/predicate.cpp:71-86). *)
Definition value_le : value_t -> value_t -> option bool :=
  compare_values Z.leb double_le (fun a b => negb (chars_lt b a)).
(** [operator>=] (base/predicate.cpp:88-103). *)
Definition value_ge : value_t -> value_t -> option bool :=
  compare_values Z.geb double_ge (fun a b => negb (chars_lt a b)).

(** An [int] and a [double], in either order. *)
Definition int_and_double (v1 v2 : value_t) : bool :=
  (v_type v1 =? 1) && (v_type v2 =? 2) || (v_type v1 =? 2) && (v_type v2 =? 1).
(** [operator==] (base/predicate.cpp:17-25). *)
Definition value_eq (v1 v2 : value_t) : option bool :=
  if negb (v_type v1 =? v_type v2) then
    if int_and_double v1 v2 then
      s ← DebugString v1; t ← DebugString v2; Some (bool_decide (s = t))
    else Some false
  else Some (bool_decide (v_content v1 = v_content v2)).
(** [operator!=] (base/predicate.cpp:27-35). *)
Definition value_neq (v1 v2 : value_t) : option bool :=
  if negb (v_type v1 =? v_type v2) then
    if int_and_double v1 v2 then
      s ← DebugString v1; t ← DebugString v2; Some (bool_decide (s <> t))
    else Some true
  else Some (bool_decide (v_content v1 <> v_content v2)).

(** ** Predicates *)

(** The loops of WITHIN and WITHOUT: is a value among the given ones? *)
Fixpoint any_equal (vs : list value_t) (value : value_t) : option bool :=
  match vs with
  | [] => Some false
  | v :: vs' => b ← value_eq v value; if b : bool then Some true else any_equal vs' value
  end.

(** The short-circuiting [&&] and [||] of C++. *)
Definition and_then (a b : option bool) : option bool := x ← a; if x : bool then b else Some false.
Definition or_else (a b : option bool) : option bool := x ← a; if x : bool then Some true else b.

(** [Evaluate(PredicateValue&, const value_t* )] (base/predicate.cpp:105-155); a
    null pointer is [None]. *)
Definition Evaluate (pv : PredicateValue) (value : option value_t) : option bool :=
  match pv_values pv with
  | [] => None
  | v0 :: _ =>
      match value with
      | None => Some (bool_decide (pred_type pv = P_NONE))
      | Some value =>
          let two (f : value_t -> value_t -> option bool) :=
            match pv_values pv with [a; b] => f a b | _ => None end in
          match pred_type pv with
          | P_ANY => Some true
          | P_NONE => Some false
          | P_EQ => value_eq value v0
          | P_NEQ => value_neq value v0
          | P_LT => value_lt value v0
          | P_LTE => value_le value v0
          | P_GT => value_gt value v0
          | P_GTE => value_ge value v0
          | P_INSIDE => two (fun a b => and_then (value_gt value a) (value_lt value b))
          | P_OUTSIDE => two (fun a b => or_else (value_lt value a) (value_gt value b))
          | P_BETWEEN => two (fun a b => and_then (value_ge value a) (value_le value b))
          | P_WITHIN => any_equal (pv_values pv) value
          | P_WITHOUT => negb <$> any_equal (pv_values pv) value
          end
      end
  end.

(** [Evaluate(Predicate_T, value_t&, value_t&)] (base/predicate.cpp:157-176); the
    predicates without a case return nothing. *)
Definition Evaluate2 (p : Predicate_T) (val1 val2 : value_t) : option bool :=
  match p with
  | P_ANY => Some true
  | P_NONE => Some false
  | P_EQ => value_eq val1 val2
  | P_NEQ => value_neq val1 val2
  | P_LT => value_lt val1 val2
  | P_LTE => value_le val1 val2
  | P_GT => value_gt val1 val2
  | P_GTE => value_ge val1 val2
  | _ => None
  end.

(** ** Well-typed values *)

(** A scalar with the content that its type has, as the loader and the parser
    build it. *)
Definition value_wf (v : value_t) : bool :=
  ((v_type v =? 1) && (length (v_content v) =? 4)%nat ||
   (v_type v =? 2) && (length (v_content v) =? 8)%nat ||
   (v_type v =? 3) && (length (v_content v) =? 1)%nat ||
   (v_type v =? 4) ||
   (v_type v =? 5) && (length (v_content v) =? 8)%nat) &&
  forallb (fitsb 8) (v_content v).

(** How many values a predicate takes. *)
Definition arity_ok (pv : PredicateValue) : bool :=
  match pred_type pv with
  | P_INSIDE | P_OUTSIDE | P_BETWEEN => (length (pv_values pv) =? 2)%nat
  | _ => negb (length (pv_values pv) =? 0)%nat
  end.

(** What the comparisons look at in a well-typed value. *)
Inductive view := V_int (i : Z) | V_double (d : double) | V_word (u : Z) | V_chars.
Definition view_of (v : value_t) : view :=
  if v_type v =? 1 then V_int (default 0 (value_t2int v))
  else if v_type v =? 2 then V_double (double_of_bits (default 0 (value_t2double v)))
  else if v_type v =? 5 then V_word (default 0 (value_t2uint64_t v))
  else V_chars.
Definition compare_views (cz : Z -> Z -> bool) (cd : double -> double -> bool) (x y : view) : option bool :=
  match x, y with
  | V_int i, V_int j | V_word i, V_word j => Some (cz i j)
  | V_double d, V_double e => Some (cd d e)
  | V_int i, V_double e => Some (cd (double_of_int i) e)
  | V_double d, V_int j => Some (cd d (double_of_int j))
  | _, _ => None
  end.

Lemma content_at_some n v : (n <= length (v_content v))%nat -> content_at n v = Some (take n (v_content v)).
Proof. intros H. unfold content_at. by rewrite (proj2 (Nat.leb_le _ _) H). Qed.

Lemma wf_reads v : value_wf v = true ->
  (v_type v = 1 -> exists i, value_t2int v = Some i) /\
  (v_type v = 2 -> exists d, value_t2double v = Some d) /\
  (v_type v = 5 -> exists u, value_t2uint64_t v = Some u).
Proof.
  unfold value_wf, value_t2int, value_t2double, value_t2uint64_t. intros H.
  split_and!; intros E; rewrite E in H; cbn in H; rewrite ?orb_false_r in H;
    apply andb_true_iff in H as [H _]; apply Nat.eqb_eq in H;
    rewrite content_at_some by lia; by eexists.
Qed.

(** A comparison of well-typed values is defined, and decided by their views
    or, where these are not numbers of comparable types, by the characters. *)
Lemma compare_values_views cz cd cc a b :
  value_wf a = true -> value_wf b = true ->
  compare_values cz cd cc a b =
    Some (default (cc (v_content a) (v_content b)) (compare_views cz cd (view_of a) (view_of b))).
Proof.
  intros Ha Hb. apply wf_reads in Ha as (Ha1 & Ha2 & Ha5), Hb as (Hb1 & Hb2 & Hb5).
  unfold compare_values, view_of.
  destruct (Z.eqb_spec (v_type a) 1) as [E1|]; [|destruct (Z.eqb_spec (v_type a) 2) as [E2|];
    [|destruct (Z.eqb_spec (v_type a) 5) as [E5|]]];
  (destruct (Z.eqb_spec (v_type b) 1) as [F1|]; [|destruct (Z.eqb_spec (v_type b) 2) as [F2|];
    [|destruct (Z.eqb_spec (v_type b) 5) as [F5|]]]);
  repeat match goal with H : ?x = ?c -> exists _, _, E : ?x = ?c |- _ => destruct (H E) as [? ->]; clear H end;
  destruct (Z.eqb_spec (v_type a) (v_type b)); rewrite ?andb_false_r; try congruence; done.
Qed.

(** A value that is not a NaN is ordered with respect to such values. *)
Definition ordered (v : value_t) : Prop := view_of v <> V_double NaN.

Lemma double_ge_lt x y : x <> NaN -> y <> NaN -> double_ge x y = negb (double_lt x y).
Proof.
  intros Hx Hy. unfold double_ge, double_gt, double_lt.
  destruct (double_compare x y) as [[]|] eqn:E; try done. by destruct x, y.
Qed.
Lemma double_le_gt x y : x <> NaN -> y <> NaN -> double_le x y = negb (double_gt x y).
Proof.
  intros Hx Hy. unfold double_le, double_gt, double_lt.
  destruct (double_compare x y) as [[]|] eqn:E; try done. by destruct x, y.
Qed.

Lemma value_ge_lt a b :
  value_wf a = true -> value_wf b = true -> ordered a -> ordered b -> value_ge a b = negb <$> value_lt a b.
Proof.
  intros Ha Hb Oa Ob. unfold value_ge, value_lt, ordered in *. rewrite !compare_values_views by done. cbn. f_equal.
  destruct (view_of a), (view_of b); cbn; try done; try lia;
    apply double_ge_lt; unfold double_of_int; congruence.
Qed.
Lemma value_le_gt a b :
  value_wf a = true -> value_wf b = true -> ordered a -> ordered b -> value_le a b = negb <$> value_gt a b.
Proof.
  intros Ha Hb Oa Ob. unfold value_le, value_gt, ordered in *. rewrite !compare_values_views by done. cbn. f_equal.
  destruct (view_of a), (view_of b); cbn; try done; try lia;
    apply double_le_gt; unfold double_of_int; congruence.
Qed.

Lemma value_lt_some a b : value_wf a = true -> value_wf b = true -> is_Some (value_lt a b).
Proof. intros. unfold value_lt. rewrite compare_values_views by done. by eexists. Qed.
Lemma value_gt_some a b : value_wf a = true -> value_wf b = true -> is_Some (value_gt a b).
Proof. intros. unfold value_gt. rewrite compare_values_views by done. by eexists. Qed.
Lemma value_le_some a b : value_wf a = true -> value_wf b = true -> is_Some (value_le a b).
Proof. intros. unfold value_le. rewrite compare_values_views by done. by eexists. Qed.
Lemma value_ge_some a b : value_wf a = true -> value_wf b = true -> is_Some (value_ge a b).
Proof. intros. unfold value_ge. rewrite compare_values_views by done. by eexists. Qed.

Lemma debug_number v :
  value_wf v = true -> v_type v = 1 \/ v_type v = 2 ->
  exists s, DebugString v = Some s /\
    (v_type v = 1 -> exists i, value_t2int v = Some i /\ s = to_string_int i) /\
    (v_type v = 2 -> exists d, value_t2double v = Some d /\ s = debug_double d).
Proof.
  intros H T. apply wf_reads in H as (H1 & H2 & _). unfold DebugString. cbn [debug_string].
  destruct T as [E|E]; rewrite E in *; cbn.
  - destruct H1 as [i ->]; [done|]. cbn. naive_solver.
  - destruct H2 as [d ->]; [done|]. cbn. naive_solver.
Qed.

Lemma value_eq_neq a b : value_neq a b = negb <$> value_eq a b.
Proof.
  unfold value_neq, value_eq. destruct (negb _).
  - destruct (int_and_double a b); [|done]. destruct (DebugString a), (DebugString b); cbn; try done.
    by rewrite bool_decide_not.
  - cbn. by rewrite bool_decide_not.
Qed.

Lemma value_eq_some a b : value_wf a = true -> value_wf b = true -> is_Some (value_eq a b).
Proof.
  intros Ha Hb. unfold value_eq. destruct (negb _); [|by eexists].
  destruct (int_and_double a b) eqn:E; [|by eexists].
  unfold int_and_double in E.
  destruct (debug_number a) as (s & -> & _); [done|lia|].
  destruct (debug_number b) as (t & -> & _); [done|lia|]. by eexists.
Qed.

Lemma any_equal_some vs v :
  forallb value_wf vs = true -> value_wf v = true -> is_Some (any_equal vs v).
Proof.
  intros Hvs Hv. induction vs as [|w vs IH]; [by eexists|]. cbn in *. apply andb_true_iff in Hvs as [Hw Hvs].
  destruct (value_eq_some w v Hw Hv) as [[] ->]; cbn; [by eexists|by apply IH].
Qed.

Lemma chars_lt_asym a b : chars_lt a b = true -> chars_lt b a = false.
Proof.
  revert b. induction a as [|x a IH]; intros [|y b]; cbn; try done.
  destruct (Z.ltb_spec (swrap 8 x) (swrap 8 y)), (Z.ltb_spec (swrap 8 y) (swrap 8 x)); try done; [lia|auto].
Qed.

Lemma value_gt_not_lt a b :
  value_wf a = true -> value_wf b = true -> value_gt a b = Some true -> value_lt a b = Some false.
Proof.
  intros Ha Hb. unfold value_lt, value_gt. rewrite !compare_values_views by done. intros [= E]. f_equal. revert E.
  destruct (view_of a), (view_of b); cbn; try apply chars_lt_asym; try lia;
    unfold double_gt, double_lt; rewrite bool_decide_eq_true, bool_decide_eq_false; congruence.
Qed.
Lemma value_lt_not_gt a b :
  value_wf a = true -> value_wf b = true -> value_lt a b = Some true -> value_gt a b = Some false.
Proof.
  intros Ha Hb. unfold value_lt, value_gt. rewrite !compare_values_views by done. intros [= E]. f_equal. revert E.
  destruct (view_of a), (view_of b); cbn; try apply chars_lt_asym; try lia;
    unfold double_gt, double_lt; rewrite bool_decide_eq_true, bool_decide_eq_false; congruence.
Qed.

(** ** Texts of numbers *)

Lemma to_string_int_chars i c : c ∈ to_string_int i -> is_digit c = true \/ c = ch_minus.
Proof.
  unfold to_string_int. destruct (Z.ltb_spec i 0).
  - destruct (digits_spec (- i)) as (_ & Hd & _); [lia|]. rewrite Forall_forall in Hd. set_solver.
  - destruct (digits_spec i) as (_ & Hd & _); [lia|]. rewrite Forall_forall in Hd. set_solver.
Qed.

Lemma skip_seps_keeps seps s c : c ∈ s -> c ∉ seps -> c ∈ skip_seps seps s.
Proof.
  intros Hc Hs. induction s as [|d s IH]; cbn; [done|]. destruct (mem d seps) eqn:E; [|done].
  apply mem_spec in E. set_solver.
Qed.

Lemma debug_double_point d : exists c, c ∈ debug_double d /\ is_digit c = false /\ c <> ch_minus.
Proof.
  assert (exists c, c ∈ to_string_double d /\ is_digit c = false /\ c <> ch_minus) as (c & Hc & Hd & Hm).
  { unfold to_string_double. destruct (double_of_bits d).
    - exists ch_dot. split; [|done]. set_solver.
    - exists 105. split; [|done]. apply elem_of_app. right. vm_compute. set_solver.
    - exists 110. split; [|done]. apply elem_of_app. right. vm_compute. set_solver. }
  exists c. split; [|done]. unfold debug_double, drop_last_of.
  assert (c ∈ reverse (skip_seps [ch_zero] (reverse (to_string_double d)))) as H.
  { apply elem_of_reverse, skip_seps_keeps; [by apply elem_of_reverse|].
    intros ->%list_elem_of_singleton. done. }
  destruct (bool_decide _); [|done]. apply elem_of_app. by left.
Qed.

(** ** Properties *)

(** C33: predicates do not go wrong on typed values: with as many values as the
    predicate takes, each with the content of its type, evaluating it on a
    well-typed value or on a missing one fails no CHECK, reads within the
    contents and gives an answer. *)
Theorem predicate_well_typed pv value :
  arity_ok pv = true -> forallb value_wf (pv_values pv) = true ->
  (forall v, value = Some v -> value_wf v = true) ->
  is_Some (Evaluate pv value).
Proof.
  destruct pv as [p vs]. unfold Evaluate, arity_ok. cbn. intros Ha Hvs Hv.
  destruct vs as [|v0 vs]; [by destruct p|]. pose proof Hvs as Hall.
  cbn in Hvs. apply andb_true_iff in Hvs as [H0 Hvs].
  destruct value as [v|]; [|by eexists]. specialize (Hv v eq_refl).
  destruct p; try by eexists.
  - by apply value_eq_some.
  - rewrite value_eq_neq. by destruct (value_eq_some v v0 Hv H0) as [? ->]; eexists.
  - by apply value_lt_some.
  - by apply value_le_some.
  - by apply value_gt_some.
  - by apply value_ge_some.
  - destruct vs as [|w [|]]; try done. cbn in Hvs. apply andb_true_iff in Hvs as [Hw _].
    unfold and_then. destruct (value_gt_some v v0 Hv H0) as [[] ->]; cbn; [by apply value_lt_some|by eexists].
  - destruct vs as [|w [|]]; try done. cbn in Hvs. apply andb_true_iff in Hvs as [Hw _].
    unfold or_else. destruct (value_lt_some v v0 Hv H0) as [[] ->]; cbn; [by eexists|by apply value_gt_some].
  - destruct vs as [|w [|]]; try done. cbn in Hvs. apply andb_true_iff in Hvs as [Hw _].
    unfold and_then. destruct (value_ge_some v v0 Hv H0) as [[] ->]; cbn; [by apply value_le_some|by eexists].
  - by apply any_equal_some.
  - by destruct (any_equal_some (v0 :: vs) v Hall Hv) as [? ->]; eexists.
Qed.

Lemma predicate_well_typed_witness :
  is_Some (Evaluate (mk_pv P_BETWEEN [int2value_t 1 value_default; double2value_t 0x4008000000000000 value_default])
    (Some (int2value_t 2 value_default))).
Proof. apply predicate_well_typed; [done|done|]. by intros v [= <-]. Defined.

(** The predicates agree with each other: [neq], [without] and, on values
    that are no NaN, [gte], [lte] and [between] are the negations of [eq],
    [within], [lt], [gt] and [outside], and what lies inside lies between. *)
Theorem predicate_duality v w w' ws :
  value_wf v = true -> value_wf w = true -> value_wf w' = true ->
  ordered v -> ordered w -> ordered w' ->
  Evaluate (mk_pv P_NEQ (w :: ws)) (Some v) = negb <$> Evaluate (mk_pv P_EQ (w :: ws)) (Some v) /\
  Evaluate (mk_pv P_WITHOUT (w :: ws)) (Some v) = negb <$> Evaluate (mk_pv P_WITHIN (w :: ws)) (Some v) /\
  Evaluate (mk_pv P_GTE (w :: ws)) (Some v) = negb <$> Evaluate (mk_pv P_LT (w :: ws)) (Some v) /\
  Evaluate (mk_pv P_LTE (w :: ws)) (Some v) = negb <$> Evaluate (mk_pv P_GT (w :: ws)) (Some v) /\
  Evaluate (mk_pv P_BETWEEN [w; w']) (Some v) = negb <$> Evaluate (mk_pv P_OUTSIDE [w; w']) (Some v) /\
  (Evaluate (mk_pv P_INSIDE [w; w']) (Some v) = Some true ->
   Evaluate (mk_pv P_BETWEEN [w; w']) (Some v) = Some true).
Proof.
  intros Hv Hw Hw' Ov Ow Ow'. unfold Evaluate. cbn [pv_values pred_type].
  split_and!; [apply value_eq_neq|done|by apply value_ge_lt|by apply value_le_gt| |].
  - unfold and_then, or_else. rewrite value_ge_lt, value_le_gt by done.
    by destruct (value_lt v w) as [[]|].
  - unfold and_then. rewrite value_ge_lt, value_le_gt by done.
    destruct (value_gt v w) as [[]|] eqn:Eg; try done. cbn. intros El.
    rewrite (value_gt_not_lt v w), (value_lt_not_gt v w') by done. done.
Qed.

Lemma predicate_duality_witness :
  Evaluate (mk_pv P_BETWEEN [int2value_t 1 value_default; int2value_t 5 value_default])
    (Some (double2value_t 0x4008000000000000 value_default)) = Some true.
Proof.
  apply (predicate_duality (double2value_t 0x4008000000000000 value_default)
    (int2value_t 1 value_default) (int2value_t 5 value_default) []); done.
Defined.

(** An [int] never equals a [double], since the texts are compared and only
    the text of a [double] has a decimal point. *)
Theorem int_never_equals_double v w :
  value_wf v = true -> value_wf w = true -> v_type v = 1 -> v_type w = 2 ->
  value_eq v w = Some false /\ value_eq w v = Some false.
Proof.
  intros Hv Hw Ev Ew. unfold value_eq, int_and_double.
  destruct (debug_number v Hv (or_introl Ev)) as (s & Es & Hs & _), (debug_number w Hw (or_intror Ew)) as (t & Et & _ & Ht).
  destruct (Hs Ev) as (i & _ & ->), (Ht Ew) as (d & _ & ->).
  rewrite Ev, Ew, Es, Et. cbn.
  assert (to_string_int i <> debug_double d) as Hne.
  { intros E. destruct (debug_double_point d) as (c & Hc & Hd & Hm). rewrite <- E in Hc.
    apply to_string_int_chars in Hc as [|]; congruence. }
  by rewrite !bool_decide_eq_false_2 by congruence.
Qed.

(** Equality and order of an [int] and a [double] disagree: 1 is both at
    most and at least 1.0, but not equal to it. *)
Theorem one_is_not_one :
  let i := int2value_t 1 value_default in
  let d := double2value_t 0x3FF0000000000000 value_default in
  Evaluate (mk_pv P_LTE [d]) (Some i) = Some true /\ Evaluate (mk_pv P_GTE [d]) (Some i) = Some true /\
  Evaluate (mk_pv P_EQ [d]) (Some i) = Some false /\ Evaluate (mk_pv P_WITHIN [d]) (Some i) = Some false.
Proof. by vm_compute. Qed.
