(* ===== verification/Affinity.v ===== *)
(** * base/cpuinfo_util.cpp, base/core_affinity.hpp: threads of the experts

    [CPUInfoUtil] reads the processors of the machine from /proc/cpuinfo, here
    the list of its lines.  [CoreAffinity] divides the cores among six groups of
    experts, gives each group its threads and picks the thread of the next
    message of an expert in turn.  [None] is a failed assertion, a division by
    zero or an access out of the range of a vector. *)
From S2P Require Import Prelude MyMath Types Serialization Wire ToolValue.
From Stdlib Require String Ascii.
Import String.StringSyntax.
Local Open Scope string_scope.
Local Open Scope Z_scope.
Local Open Scope word_scope.

(** ** The processors of the machine *)

(** [strstr]: the rest of the string from the first occurrence on. *)
Fixpoint strstr (hay needle : list Z) : option (list Z) :=
  if decide (take (length needle) hay = needle) then Some hay
  else match hay with [] => None | _ :: hay' => strstr hay' needle end.
Definition contains (hay needle : list Z) : bool := match strstr hay needle with Some _ => true | None => false end.

(** The digits of the rest of a line, read as one number; the numbers that are
    used have few digits. *)
Fixpoint line_val (val : Z) (s : list Z) : Z :=
  match s with
  | [] => val
  | c :: s' =>
      if (c =? 10) || (c =? 0) then val
      else line_val (if is_digit c then i32 (i32 (val * 10) + (c - ch_zero)) else val) s'
  end.

Record cpu_lines := mk_lines {
  processor : list Z; physical_id : list Z; siblings : list Z; core_id : list Z; cpu_cores : list Z;
}.
(** The loop over the lines of the file
    (base/cpuinfo_util.cpp:18-71). *)
Definition cpu_line (l : cpu_lines) (buffer : list Z) : cpu_lines :=
  let val := match strstr buffer (str ":") with Some r => line_val 0 r | None => 0 end in
  let add (b : bool) (v : list Z) := if b then v ++ [val] else v in
  mk_lines (add (contains buffer (str "processor")) (processor l))
    (add (contains buffer (str "physical id")) (physical_id l))
    (add (contains buffer (str "siblings")) (siblings l))
    (add (contains buffer (str "core id")) (core_id l))
    (add (contains buffer (str "cpu cores")) (cpu_cores l)).

(** [CPUInfoUtil] (base/cpuinfo_util.hpp:27-62), the fields that are used. *)
Record CPUInfo := mk_cpu {
  total_core_cnt : Z; total_socket_cnt : Z; core_per_socket : Z;
  total_thread_cnt : Z; thread_per_socket : Z; thread_per_core : Z;
  core_to_tid_map : list (list Z);
}.

(** C division of integers. *)
Definition cdiv (a b : Z) : option Z := if b =? 0 then None else Some (Z.quot a b).
(** An element of a vector at an [int] index. *)
Definition at_int {A} (l : list A) (i : Z) : option A := if i <? 0 then None else l !! Z.to_nat i.
(** [core_id_map_]: the rank of a core id among the ids that occur. *)
Definition core_rank (ids : list Z) (c : Z) : Z := Z.of_nat (size (filter (fun x => x < c) (list_to_set ids : gset Z))).
(** The loop that enters each thread at its core. *)
Fixpoint fill_cores (l : cpu_lines) (per_socket : Z) (is_ : list nat) (m : list (list Z)) : option (list (list Z)) :=
  match is_ with
  | [] => Some m
  | i :: rest =>
      socket ← physical_id l !! i;
      core ← core_id l !! i;
      let global := socket * per_socket + core_rank (core_id l) core in
      row ← at_int m global;
      fill_cores l per_socket rest (<[Z.to_nat global := row ++ [Z.of_nat i]]> m)
  end.
(** [CPUInfoUtil::CPUInfoUtil] (base/cpuinfo_util.cpp:73-118). *)
Definition CPUInfoUtil (lines : list (list Z)) : option CPUInfo :=
  let l := foldl cpu_line (mk_lines [] [] [] [] []) lines in
  siblings_val ← last (siblings l);
  cpu_cores_val ← last (cpu_cores l);
  if forallb (Z.eqb siblings_val) (siblings l) && forallb (Z.eqb cpu_cores_val) (cpu_cores l) then
    let threads := Z.of_nat (length (processor l)) in
    per_core ← cdiv siblings_val cpu_cores_val;
    cores ← cdiv threads per_core;
    let sockets := Z.of_nat (size (list_to_set (physical_id l) : gset Z)) in
    per_socket ← cdiv cores sockets;
    m ← fill_cores l per_socket (seq 0 (length (processor l))) (replicate (Z.to_nat cores) []);
    Some (mk_cpu cores sockets per_socket threads siblings_val per_core m)
  else None.

(** ** Divisions of the experts *)

(** [ExpertDivisionType] (base/type.hpp:672-672). *)
Inductive ExpertDivisionType := CACHE_SEQ | CACHE_BARR | TRAVERSAL | NORMAL_BARR | NORMAL_BRANCH | NORMAL_SEQ.
Definition division_index (d : ExpertDivisionType) : nat :=
  match d with CACHE_SEQ => 0 | CACHE_BARR => 1 | TRAVERSAL => 2 | NORMAL_BARR => 3 | NORMAL_BRANCH => 4 | NORMAL_SEQ => 5 end.
(** [NUM_THREAD_DIVISION, NUM_RESIDENT_THREAD] (base/type.hpp:676-677). *)
Definition NUM_THREAD_DIVISION : nat := 6.
Definition NUM_RESIDENT_THREAD : Z := 4.
(** [division_numerator_, division_denominator_]
    (base/core_affinity.hpp:152-153). *)
Definition division_numerator : list Z := [3; 2; 1; 2; 2; 2].
Definition division_denominator : Z := 12.

(** The loop that numbers the cores of all sockets in turn. *)
Fixpoint numa_loop (n : nat) (i socket_count per_socket in_socket node : Z) (m : gmap Z Z) : gmap Z Z :=
  match n with
  | O => m
  | S n' =>
      let m' := <[i := in_socket * socket_count + node]> m in
      if in_socket + 1 =? per_socket then numa_loop n' (i + 1) socket_count per_socket 0 (node + 1) m'
      else numa_loop n' (i + 1) socket_count per_socket (in_socket + 1) node m'
  end.
Definition core_by_numa (c : CPUInfo) : gmap Z Z :=
  numa_loop (Z.to_nat (total_core_cnt c)) 0 (total_socket_cnt c) (core_per_socket c) 0 0 ∅.
(** [map::operator[]] of an [int] map. *)
Definition map_at (m : gmap Z Z) (k : Z) : Z := default 0 (m !! k).

(** The loop over the divisions: the ranges of cores they get. *)
Fixpoint ranges_loop (nums : list Z) (cnt cur_step last_div : Z) : list (Z * Z) :=
  match nums with
  | [] => []
  | n :: nums' =>
      let step := cur_step + n * cnt in
      let div := Z.quot step division_denominator in
      let '(step, div) := if div - last_div =? 0 then ((last_div + 1) * cnt, Z.quot ((last_div + 1) * cnt) cnt) else (step, div) in
      (last_div, div) :: ranges_loop nums' cnt step div
  end.
Definition core_ranges (cnt : Z) : list (Z * Z) := ranges_loop division_numerator cnt 0 0.
Definition zrange (a b : Z) : list Z := (fun n => a + Z.of_nat n) <$> seq 0 (Z.to_nat (b - a)).
(** The cores of each division in [CoreAffinity::init_potential_core_pool]
    (base/core_affinity.hpp:180-226). *)
Definition potential_core_pool (c : CPUInfo) : list (list Z) :=
  (fun r => map_at (core_by_numa c) <$> zrange r.1 r.2) <$> core_ranges (total_core_cnt c).
Definition core_threads (c : CPUInfo) (j : nat) (core : Z) : option Z := row ← at_int (core_to_tid_map c) core; row !! j.
(** The threads of each division in [CoreAffinity::init_potential_core_pool]
    (base/core_affinity.hpp:228-236). *)
Definition init_potential_core_pool (c : CPUInfo) : option (list (list Z)) :=
  mapM (fun cores => (fun l => concat l) <$> mapM (fun j => mapM (core_threads c j) cores) (seq 0 (Z.to_nat (thread_per_core c))))
    (potential_core_pool c).

(** The loop that assigns the remaining threads by priority. *)
Fixpoint rest_loop (fuel i free : nat) (nums : list Z) : option (list Z) :=
  match fuel with
  | O => None
  | S fuel' =>
      if (i <? free)%nat then
        let id := (i mod 6)%nat in
        n ← nums !! id;
        if (id =? division_index TRAVERSAL)%nat && (n =? 2) then rest_loop fuel' (S i) (S free) nums
        else rest_loop fuel' (S i) free (<[id := n + 1]> nums)
      else Some nums
  end.
(** [multi_floor(a, 3.0 / 2)], [multi_ceil(a, 1.0 / 2)]
    (base/core_affinity.hpp:488-494): exact in double precision. *)
Definition multi_floor_3_2 (a : Z) : Z := 3 * a / 2.
Definition multi_ceil_1_2 (a : Z) : Z := (a + 1) / 2.
(** [CoreAffinity::get_num_thread_for_each_division]
    (base/core_affinity.hpp:334-373): [Some None] is the return value false. *)
Definition get_num_thread_for_each_division (num_cores num_thread : Z) : option (option (list Z)) :=
  if (0 <? num_thread) && (num_thread <=? num_cores - NUM_RESIDENT_THREAD) then
    let level := num_thread / 6 in
    if level =? 0 then Some None
    else
      nums ← rest_loop 16 0 (Z.to_nat (num_thread mod 6))
               [multi_floor_3_2 level; level; multi_ceil_1_2 level; level; level; level];
      if foldr Z.add 0 nums =? num_thread then Some (Some nums) else None
  else None.

(** The state of [CoreAffinity] (base/core_affinity.hpp:122-178). *)
Record affinity := mk_aff {
  enable_expert_division : bool;
  global_num_threads : Z;
  counter : Z;
  core_pool_table : list (list Z);
  core_pool_table_itr : list nat;
  core_to_thread_map : gmap Z Z;
  thread_to_core_map : gmap Z Z;
  stealing_table : gmap Z (list Z);
}.

(** [CoreAffinity::get_core_id_for_each_division]
    (base/core_affinity.hpp:375-388). *)
Definition get_core_id_for_each_division (nums : list Z) (pools : list (list Z)) : option (list (list Z)) :=
  mapM (fun np => mapM (fun j => np.2 !! j) (seq 0 (Z.to_nat np.1))) (zip nums pools).

(** Numbering the cores in order. *)
Fixpoint number_cores (cores : list Z) (thread_id : Z) (c2t t2c : gmap Z Z) : gmap Z Z * gmap Z Z :=
  match cores with
  | [] => (c2t, t2c)
  | c :: cores' => number_cores cores' (thread_id + 1) (<[c := thread_id]> c2t) (<[thread_id := c]> t2c)
  end.
(** [CoreAffinity::load_core_to_thread_map] (base/core_affinity.hpp:390-399). *)
Definition load_core_to_thread_map (table : list (list Z)) : gmap Z Z * gmap Z Z := number_cores (concat table) 0 ∅ ∅.

(** The entries that [load_steal_list] adds for a core of division [i]. *)
Definition steal_row (table : list (list Z)) (i : nat) (old : list Z) (id : Z) : list Z :=
  let pool j := default [] (table !! j) in
  let own := filter (fun x => x <> id) (old ++ pool i) in
  own ++
  (if Z.rem id 2 =? 0 then concat ((fun j => if (j =? i)%nat then [] else pool j) <$> seq 0 6)
   else concat ((fun j => if (j =? i)%nat then [] else pool j) <$> seq 3 3) ++ concat (pool <$> seq 0 3)).
(** [CoreAffinity::load_steal_list] (base/core_affinity.hpp:401-435). *)
Definition load_steal_list (table : list (list Z)) : gmap Z (list Z) :=
  foldl (fun t '(i, id) => <[id := steal_row table i (default [] (t !! id)) id]> t) ∅
    (concat (imap (fun i cores => (fun id => (i, id)) <$> cores) table)).

(** [CoreAffinity::Init] (base/core_affinity.hpp:59-82).  Without divisions the
    numbers of threads are not set: reading them is undefined. *)
Definition CoreAffinity_Init (c : CPUInfo) (enable : bool) (num_thread : Z) : option affinity :=
  pools ← init_potential_core_pool c;
  nums ← get_num_thread_for_each_division (total_thread_cnt c) num_thread;
  nums ← nums;
  table ← get_core_id_for_each_division nums pools;
  let '(c2t, t2c) := load_core_to_thread_map table in
  Some (mk_aff enable num_thread 0 table (replicate NUM_THREAD_DIVISION O) c2t t2c (load_steal_list table)).

(** [CoreAffinity::load_expert_division] (base/core_affinity.hpp:275-317); an
    expert that is not listed goes to the last division. *)
Definition expert_division (t : EXPERT_T) : ExpertDivisionType :=
  match t with
  | E_LABEL | E_HASLABEL | E_PROPERTIES | E_VALUES | E_HAS | E_KEY => CACHE_SEQ
  | E_GROUP | E_ORDER => CACHE_BARR
  | E_TRAVERSAL | E_INIT | E_INDEX => TRAVERSAL
  | E_COUNT | E_AGGREGATE | E_CAP | E_DEDUP | E_MATH => NORMAL_BARR
  | E_RANGE | E_BRANCH | E_BRANCHFILTER => NORMAL_BRANCH
  | E_AS | E_SELECT | E_WHERE | E_IS | E_END | E_ADDV | E_ADDE | E_POSTVALIDATION | E_PROPERTY | E_VALIDATION
  | E_TERMINATE => NORMAL_SEQ
  | _ => NORMAL_SEQ
  end.

(** [CoreAffinity::get_core_id_by_expert] (base/core_affinity.hpp:437-458). *)
Definition get_core_id_by_expert (a : affinity) (t : EXPERT_T) : option (Z * affinity) :=
  let att := division_index (expert_division t) in
  pool ← core_pool_table a !! att;
  itr ← core_pool_table_itr a !! att;
  core ← pool !! itr;
  let itr' := if (S itr =? length pool)%nat then O else S itr in
  Some (core, mk_aff (enable_expert_division a) (global_num_threads a) (counter a) (core_pool_table a)
    (<[att := itr']> (core_pool_table_itr a)) (core_to_thread_map a) (thread_to_core_map a) (stealing_table a)).
(** [CoreAffinity::GetThreadIdForExpert] (base/core_affinity.hpp:111-118). *)
Definition GetThreadIdForExpert (a : affinity) (t : EXPERT_T) : option (Z * affinity) :=
  if enable_expert_division a then
    '(core, a') ← get_core_id_by_expert a t;
    Some (map_at (core_to_thread_map a) core, a')
  else
    let counter' := i32 (counter a + 1) in
    if global_num_threads a =? 0 then None
    else Some (Z.rem counter' (global_num_threads a),
      mk_aff (enable_expert_division a) (global_num_threads a) counter' (core_pool_table a)
        (core_pool_table_itr a) (core_to_thread_map a) (thread_to_core_map a) (stealing_table a)).
(** [CoreAffinity::GetStealList] (base/core_affinity.hpp:104-109). *)
Definition GetStealList (a : affinity) (tid : Z) : list Z :=
  map_at (core_to_thread_map a) <$> default [] (stealing_table a !! map_at (thread_to_core_map a) tid).

(** ** Threads and cores *)

Lemma concat_insert_snoc (m : list (list Z)) i row x :
  m !! i = Some row -> concat (<[i := row ++ [x]]> m) ≡ₚ x :: concat m.
Proof.
  revert i. induction m as [|r m IH]; intros [|i] Hi; cbn in *; simplify_eq.
  - rewrite <- app_assoc. cbn. by rewrite Permutation_middle.
  - rewrite (IH i Hi). by rewrite Permutation_middle.
Qed.

Lemma fill_cores_perm l per is_ m m' :
  fill_cores l per is_ m = Some m' -> concat m' ≡ₚ (Z.of_nat <$> is_) ++ concat m.
Proof.
  revert m. induction is_ as [|i is_ IH]; intros m H; cbn in H; [by injection H as ->|].
  destruct (physical_id l !! i) as [socket|]; [|done]. cbn in H. destruct (core_id l !! i) as [core|]; [|done]. cbn in H.
  unfold at_int in H. destruct (_ <? 0); [done|]. destruct (m !! _) as [row|] eqn:Er; [|done]. cbn in H.
  rewrite (IH _ H), (concat_insert_snoc _ _ _ _ Er). cbn. by rewrite Permutation_middle.
Qed.

(** Every thread of the machine belongs to exactly one core. *)
Theorem core_to_tid_partition lines c :
  CPUInfoUtil lines = Some c ->
  concat (core_to_tid_map c) ≡ₚ Z.of_nat <$> seq 0 (Z.to_nat (total_thread_cnt c)) /\ NoDup (concat (core_to_tid_map c)).
Proof.
  unfold CPUInfoUtil. intros H. destruct (last (siblings _)) as [sv|]; [|done]. cbn [mbind option_bind] in H.
  destruct (last (cpu_cores _)) as [cv|]; [|done]. cbn [mbind option_bind] in H. destruct (_ && _); [|done].
  destruct (cdiv sv cv) as [pc|]; [|done]. cbn [mbind option_bind] in H. destruct (cdiv _ pc) as [cores|]; [|done]. cbn [mbind option_bind] in H.
  destruct (cdiv cores _) as [ps|]; [|done]. cbn [mbind option_bind] in H. destruct (fill_cores _ _ _ _) as [m|] eqn:Ef; [|done].
  injection H as <-. cbn [core_to_tid_map total_thread_cnt]. rewrite Nat2Z.id. apply fill_cores_perm in Ef.
  assert (concat (replicate (Z.to_nat cores) ([] : list Z)) = []) as E by (clear; by induction (Z.to_nat cores)).
  rewrite E, app_nil_r in Ef. split; [done|]. rewrite Ef. apply NoDup_fmap_2; [intros ???; lia|apply NoDup_seq].
Qed.
Lemma core_to_tid_partition_witness :
  let lines := (fun p => [str "processor : " ++ to_string_int p; str "physical id : 0"; str "siblings : 2";
                   str "core id : " ++ to_string_int (4 * p); str "cpu cores : 2"]) <$> [0; 1] in
  exists c, CPUInfoUtil (concat lines) = Some c /\ NoDup (concat (core_to_tid_map c)).
Proof.
  intros lines. destruct (CPUInfoUtil (concat lines)) as [c|] eqn:E; [|exfalso; revert E; by vm_compute].
  exists c. split; [done|]. by apply (core_to_tid_partition (concat lines)).
Defined.

(** ** Numbers of threads *)

Definition zsum (l : list Z) : Z := foldr Z.add 0 l.

Lemma rest_loop_sum free a b c d e f :
  (free < 6)%nat ->
  exists nums, rest_loop 16 0 free [a; b; c; d; e; f] = Some nums /\ length nums = 6%nat /\
    zsum nums = a + b + c + d + e + f + Z.of_nat free /\
    (1 <= a -> 1 <= b -> 1 <= c -> 1 <= d -> 1 <= e -> 1 <= f -> Forall (Z.le 1) nums).
Proof.
  intros Hf. destruct free as [|[|[|[|[|[|free]]]]]]; [..|lia]; cbn -[Z.add Z.of_nat Z.eqb]; try destruct (c =? 2); cbn -[Z.add Z.of_nat]; eexists;
    (split_and!; [reflexivity|done|unfold zsum; cbn; lia|]); intros; repeat constructor; lia.
Qed.

(** With at least six threads, every division gets a thread and all threads are
    used. *)
Lemma division_threads cores n :
  6 <= n <= cores - NUM_RESIDENT_THREAD ->
  exists nums, get_num_thread_for_each_division cores n = Some (Some nums) /\ length nums = 6%nat /\
    zsum nums = n /\ Forall (Z.le 1) nums.
Proof.
  unfold get_num_thread_for_each_division, NUM_RESIDENT_THREAD. intros Hn.
  rewrite (proj2 (Z.ltb_lt 0 n)), (proj2 (Z.leb_le n (cores - 4))) by lia. cbn [andb].
  assert (1 <= n / 6) by (apply Z.div_le_lower_bound; lia).
  rewrite (proj2 (Z.eqb_neq (n / 6) 0)) by lia.
  destruct (rest_loop_sum (Z.to_nat (n mod 6)) (multi_floor_3_2 (n / 6)) (n / 6) (multi_ceil_1_2 (n / 6)) (n / 6) (n / 6) (n / 6))
    as (nums & -> & Hl & Hs & Hp); [pose proof (Z.mod_pos_bound n 6); lia|]. cbn [mbind option_bind].
  unfold multi_floor_3_2, multi_ceil_1_2 in *. assert (zsum nums = n) as E.
  { rewrite Hs, Z2Nat.id by (apply Z.mod_pos_bound; lia). pose proof (Z.div_mod n 6). assert (3 * (n / 6) / 2 + (n / 6 + 1) / 2 = 2 * (n / 6)) by lia. lia. }
  unfold zsum in E. rewrite E, Z.eqb_refl. exists nums. split_and!; [done|done|done|]. apply Hp; lia.
Qed.

(** ** Ranges of cores *)

Lemma ranges_loop_step m nums cnt step last d :
  0 <= step + m * cnt -> (step + m * cnt) / 12 = d -> last < d ->
  ranges_loop (m :: nums) cnt step last = (last, d) :: ranges_loop nums cnt (step + m * cnt) d.
Proof.
  intros H0 <- H. cbn [ranges_loop]. unfold division_denominator. rewrite Z.quot_div_nonneg by lia.
  by rewrite (proj2 (Z.eqb_neq _ 0)) by lia.
Qed.

(** From six cores on, the divisions get consecutive ranges of cores that are
    not empty. *)
Lemma core_ranges_spec n :
  6 <= n ->
  exists a b c d e, core_ranges n = [(0, a); (a, b); (b, c); (c, d); (d, e); (e, n)] /\
  0 < a < b /\ b < c < d /\ d < e < n.
Proof.
  intros Hn. exists (3 * n / 12), (5 * n / 12), (6 * n / 12), (8 * n / 12), (10 * n / 12).
  assert (0 < 3 * n / 12) by lia. assert (3 * n / 12 < 5 * n / 12) by lia. assert (5 * n / 12 < 6 * n / 12) by lia.
  assert (6 * n / 12 < 8 * n / 12) by lia. assert (8 * n / 12 < 10 * n / 12) by lia. assert (10 * n / 12 < n) by lia.
  split; [|lia]. unfold core_ranges, division_numerator.
  rewrite (ranges_loop_step _ _ _ _ _ (3 * n / 12)) by (lia || (f_equal; lia)).
  rewrite (ranges_loop_step _ _ _ _ _ (5 * n / 12)) by (lia || (f_equal; lia)).
  rewrite (ranges_loop_step _ _ _ _ _ (6 * n / 12)) by (lia || (f_equal; lia)).
  rewrite (ranges_loop_step _ _ _ _ _ (8 * n / 12)) by (lia || (f_equal; lia)).
  rewrite (ranges_loop_step _ _ _ _ _ (10 * n / 12)) by (lia || (f_equal; lia)).
  rewrite (ranges_loop_step _ _ _ _ _ n) by lia. done.
Qed.

Lemma zrange_app a b c : a <= b <= c -> zrange a b ++ zrange b c = zrange a c.
Proof.
  intros H. unfold zrange. replace (Z.to_nat (c - a)) with (Z.to_nat (b - a) + Z.to_nat (c - b))%nat by lia.
  rewrite seq_app, fmap_app. f_equal.
  replace (seq (0 + Z.to_nat (b - a)) (Z.to_nat (c - b))) with (Nat.add (Z.to_nat (b - a)) <$> seq 0 (Z.to_nat (c - b)))
    by (rewrite fmap_add_seq; f_equal; lia).
  rewrite <- list_fmap_compose. apply list_fmap_ext. intros i x Hx. cbn. lia.
Qed.
Lemma elem_of_zrange x a b : x ∈ zrange a b <-> a <= x < b.
Proof.
  unfold zrange. rewrite list_elem_of_fmap. setoid_rewrite elem_of_seq. split; [intros (n & -> & Hn); lia|].
  intros H. exists (Z.to_nat (x - a)). lia.
Qed.
Lemma NoDup_zrange a b : NoDup (zrange a b).
Proof. apply NoDup_fmap_2; [intros ???; lia|]. apply NoDup_seq. Qed.

(** The cores of a machine with sockets of the same size are numbered one by one
    through the sockets. *)
Definition numa_of (sockets per k : Z) : Z := (k mod per) * sockets + k / per.

Lemma numa_loop_spec sockets per n i m k :
  0 < per -> 0 <= i ->
  numa_loop n i sockets per (i mod per) (i / per) m !! k =
  if decide (i <= k < i + Z.of_nat n) then Some (numa_of sockets per k) else m !! k.
Proof.
  intros Hp. revert i m. induction n as [|n IH]; intros i m Hi; cbn [numa_loop].
  { rewrite decide_False by lia. done. }
  pose proof (Z.div_mod i per). pose proof (Z.mod_pos_bound i per).
  assert (forall m', (if i mod per + 1 =? per then numa_loop n (i + 1) sockets per 0 (i / per + 1) m'
    else numa_loop n (i + 1) sockets per (i mod per + 1) (i / per) m') = numa_loop n (i + 1) sockets per ((i + 1) mod per) ((i + 1) / per) m') as ->.
  { intros m'. destruct (Z.eqb_spec (i mod per + 1) per).
    - rewrite <- (Z.div_unique (i + 1) per (i / per + 1) 0), <- (Z.mod_unique (i + 1) per (i / per + 1) 0) by lia. done.
    - rewrite <- (Z.div_unique (i + 1) per (i / per) (i mod per + 1)), <- (Z.mod_unique (i + 1) per (i / per) (i mod per + 1)) by lia. done. }
  rewrite IH by lia. destruct (decide (k = i)) as [->|Hne].
  - rewrite decide_False, lookup_insert_eq, decide_True by lia. done.
  - rewrite lookup_insert_ne by done. destruct (decide (i + 1 <= k < i + 1 + Z.of_nat n)), (decide (i <= k < i + Z.of_nat (S n))); done || lia.
Qed.

Lemma numa_of_inj sockets per k1 k2 :
  0 < per -> 0 <= k1 < sockets * per -> 0 <= k2 < sockets * per ->
  numa_of sockets per k1 = numa_of sockets per k2 -> k1 = k2.
Proof.
  unfold numa_of. intros Hp H1 H2 E.
  assert (0 <= k1 / per < sockets) by (split; [apply Z.div_pos; lia|apply Z.div_lt_upper_bound; lia]).
  assert (0 <= k2 / per < sockets) by (split; [apply Z.div_pos; lia|apply Z.div_lt_upper_bound; lia]).
  rewrite (Z.div_mod k1 per), (Z.div_mod k2 per) by lia.
  assert (k1 mod per = k2 mod per) by nia. assert (k1 / per = k2 / per) by nia. congruence.
Qed.

(** A machine whose sockets have the same number of cores and whose cores have
    the same number of threads. *)
Definition cpu_regular (c : CPUInfo) : Prop :=
  6 <= total_core_cnt c /\ 0 < core_per_socket c /\ total_core_cnt c = total_socket_cnt c * core_per_socket c /\
  NoDup (concat (core_to_tid_map c)).

Lemma core_pools_concat c :
  cpu_regular c ->
  concat (potential_core_pool c) = numa_of (total_socket_cnt c) (core_per_socket c) <$> zrange 0 (total_core_cnt c) /\
  length (potential_core_pool c) = 6%nat /\ Forall (fun l => l <> []) (potential_core_pool c).
Proof.
  intros (Hn & Hp & Hc & _). unfold potential_core_pool.
  destruct (core_ranges_spec (total_core_cnt c) Hn) as (a & b & c' & d & e & -> & H1 & H2 & H3).
  assert (forall x, 0 <= x < total_core_cnt c -> map_at (core_by_numa c) x = numa_of (total_socket_cnt c) (core_per_socket c) x) as Hm.
  { intros x Hx. unfold map_at, core_by_numa. 
    pose proof (numa_loop_spec (total_socket_cnt c) (core_per_socket c) (Z.to_nat (total_core_cnt c)) 0 ∅ x Hp ltac:(lia)) as E.
    rewrite Z.mod_0_l, Z.div_0_l in E by lia. rewrite E, decide_True by lia. done. }
  split_and!; [|done|].
  - cbn [fmap list_fmap concat fst snd]. rewrite app_nil_r. rewrite <- !fmap_app.
    rewrite !zrange_app by lia. apply list_fmap_ext. intros i x Hx. apply Hm, elem_of_zrange. by eapply list_elem_of_lookup_2.
  - repeat constructor; cbn; intros E%fmap_nil_inv; unfold zrange in E; apply fmap_nil_inv in E; 
      apply (f_equal length) in E; rewrite length_seq in E; cbn in E; lia.
Qed.

(** ** Threads of the divisions *)

Lemma mapM_fmap_default {A B} (f : A -> option B) (d : B) l k :
  mapM f l = Some k -> k = (fun x => default d (f x)) <$> l.
Proof.
  intros H%mapM_Some. induction H as [|x y l k E _ IH]; [done|]. cbn. by rewrite E, IH.
Qed.

(** A position in a list of lists. *)
Lemma concat_lookup_inj {A} (m : list (list A)) i j i' j' x l l' :
  NoDup (concat m) -> m !! i = Some l -> l !! j = Some x -> m !! i' = Some l' -> l' !! j' = Some x ->
  i = i' /\ j = j'.
Proof.
  revert i i'. induction m as [|r m IH]; intros i i' Hnd Hi Hj Hi' Hj'; [done|]. cbn in Hnd.
  apply NoDup_app in Hnd as (Hr & Hd & Hm).
  assert (forall i l j, m !! i = Some l -> l !! j = Some x -> x ∈ concat m) as Hin.
  { intros i0 l0 j0 H1 H2. apply list_elem_of_In, in_concat. exists l0.
    split; apply list_elem_of_In; by eapply list_elem_of_lookup_2. }
  destruct i as [|i], i' as [|i']; cbn in Hi, Hi'; simplify_eq.
  - split; [done|]. eapply NoDup_lookup; [exact Hr|done|done].
  - exfalso. eapply (Hd x); [by eapply list_elem_of_lookup_2|by eapply Hin].
  - exfalso. eapply (Hd x); [by eapply list_elem_of_lookup_2|by eapply Hin].
  - destruct (IH i i' Hm Hi Hj Hi' Hj') as [-> ->]. done.
Qed.

Lemma core_threads_inj c j1 k1 j2 k2 t :
  NoDup (concat (core_to_tid_map c)) -> core_threads c j1 k1 = Some t -> core_threads c j2 k2 = Some t -> j1 = j2 /\ k1 = k2.
Proof.
  intros Hnd. unfold core_threads, at_int. destruct (Z.ltb_spec k1 0); [done|]. destruct (Z.ltb_spec k2 0); [done|].
  destruct (core_to_tid_map c !! Z.to_nat k1) as [l1|] eqn:E1; [|done].
  destruct (core_to_tid_map c !! Z.to_nat k2) as [l2|] eqn:E2; [|done]. cbn. intros H1 H2.
  destruct (concat_lookup_inj _ _ _ _ _ _ _ _ Hnd E1 H1 E2 H2). split; [done|lia].
Qed.

Lemma NoDup_concat_fmap {A B} (f : A -> list B) (l : list A) :
  NoDup l -> (forall x, x ∈ l -> NoDup (f x)) ->
  (forall x1 x2 y, x1 ∈ l -> x2 ∈ l -> y ∈ f x1 -> y ∈ f x2 -> x1 = x2) -> NoDup (concat (f <$> l)).
Proof.
  induction 1 as [|x l Hx _ IH]; intros H1 H2; cbn; [constructor|]. apply NoDup_app. split_and!.
  - apply H1. left.
  - intros y Hy Hin. apply list_elem_of_In, in_concat in Hin as (k & Hk & Hyk).
    apply list_elem_of_In, list_elem_of_fmap in Hk as (x' & -> & Hx'). apply list_elem_of_In in Hyk.
    rewrite (H2 x x' y) in Hx; [done|left|by right|done|done].
  - apply IH; [intros; apply H1; by right|]. intros x1 x2 y ??. apply H2; by right.
Qed.

Lemma NoDup_lists {A} (m : list (list A)) : NoDup (concat m) -> Forall (fun l => l <> []) m -> NoDup m.
Proof.
  induction m as [|l m IH]; intros Hnd Hf; [constructor|]. cbn in Hnd. apply NoDup_app in Hnd as (Hl & Hd & Hm).
  apply Forall_cons in Hf as [Hne Hf]. constructor; [|by apply IH]. intros Hin. destruct l as [|x l]; [done|].
  apply (Hd x); [left|]. apply list_elem_of_In, in_concat. exists (x :: l). split; apply list_elem_of_In; [done|left].
Qed.

Lemma concat_same_list {A} (m : list (list A)) l l' x :
  NoDup (concat m) -> l ∈ m -> l' ∈ m -> x ∈ l -> x ∈ l' -> l = l'.
Proof.
  intros Hnd (i & Hi)%list_elem_of_lookup (i' & Hi')%list_elem_of_lookup (j & Hj)%list_elem_of_lookup (j' & Hj')%list_elem_of_lookup.
  destruct (concat_lookup_inj _ _ _ _ _ _ _ _ Hnd Hi Hj Hi' Hj') as [-> _]. congruence.
Qed.
Lemma NoDup_in_concat {A} (m : list (list A)) l : NoDup (concat m) -> l ∈ m -> NoDup l.
Proof.
  intros Hnd Hl. induction m as [|r m IH]; [by apply elem_of_nil in Hl|]. cbn in Hnd. apply NoDup_app in Hnd as (? & _ & ?).
  apply elem_of_cons in Hl as [->|]; [done|by apply IH].
Qed.

(** No thread is in two divisions, nor twice in one. *)
Lemma thread_pools_NoDup c pools : cpu_regular c -> init_potential_core_pool c = Some pools -> NoDup (concat pools).
Proof.
  intros Hc H. destruct (core_pools_concat c Hc) as (Hcat & _ & Hne). destruct Hc as (Hn & Hp & Hcnt & Hnd).
  assert (NoDup (concat (potential_core_pool c))) as Hcores.
  { rewrite Hcat. apply NoDup_fmap_2_strong; [|apply NoDup_zrange]. intros x y Hx%elem_of_zrange Hy%elem_of_zrange.
    apply numa_of_inj; lia. }
  unfold init_potential_core_pool in H. set (js := seq 0 (Z.to_nat (thread_per_core c))) in *.
  assert (forall cores j k, cores ∈ potential_core_pool c -> j ∈ js -> k ∈ cores -> is_Some (core_threads c j k)) as Hsome.
  { intros cores j k Hin Hj Hk. apply mapM_Some in H. apply list_elem_of_lookup in Hin as (i & Hi).
    destruct (Forall2_lookup_l _ _ _ _ _ H Hi) as (l & _ & E). destruct (mapM _ js) as [rows|] eqn:Er; [|done].
    apply mapM_Some in Er. apply list_elem_of_lookup in Hj as (j' & Hj'). destruct (Forall2_lookup_l _ _ _ _ _ Er Hj') as (r & _ & E2).
    apply mapM_Some in E2. apply list_elem_of_lookup in Hk as (k' & Hk'). destruct (Forall2_lookup_l _ _ _ _ _ E2 Hk') as (t & _ & E3). by exists t. }
  set (F := fun cores : list Z => concat ((fun j : nat => ((fun k => default 0 (core_threads c j k)) <$> cores : list Z)) <$> js : list (list Z))).
  assert (pools = F <$> potential_core_pool c) as ->.
  { rewrite (mapM_fmap_default _ [] _ _ H). apply list_fmap_ext. intros i cores Hi. unfold F.
    destruct (mapM (fun j => mapM (core_threads c j) cores) js) as [rows|] eqn:Er.
    - cbn. f_equal. rewrite (mapM_fmap_default _ [] _ _ Er). apply list_fmap_ext. intros i' j Hj.
      apply mapM_Some in Er. destruct (Forall2_lookup_l _ _ _ _ _ Er Hj) as (r & _ & E2). rewrite E2. cbn.
      by apply mapM_fmap_default.
    - apply mapM_Some in H. destruct (Forall2_lookup_l _ _ _ _ _ H Hi) as (l & _ & E). by rewrite Er in E. }
  assert (forall cores y, cores ∈ potential_core_pool c -> y ∈ F cores -> exists j k, j ∈ js /\ k ∈ cores /\ core_threads c j k = Some y) as HF.
  { intros cores y Hin Hy. unfold F in Hy. apply list_elem_of_In, in_concat in Hy as (l & Hl & Hy).
    apply list_elem_of_In, list_elem_of_fmap in Hl as (j & -> & Hj). apply list_elem_of_In, list_elem_of_fmap in Hy as (k & -> & Hk).
    exists j, k. destruct (Hsome cores j k Hin Hj Hk) as [t ->]. done. }
  apply NoDup_concat_fmap.
  - by apply NoDup_lists.
  - intros cores Hin. unfold F. apply NoDup_concat_fmap; [apply NoDup_seq| |].
    + intros j Hj. apply NoDup_fmap_2_strong; [|by eapply NoDup_in_concat]. intros k1 k2 Hk1 Hk2.
      destruct (Hsome cores j k1 Hin Hj Hk1) as [t1 E1], (Hsome cores j k2 Hin Hj Hk2) as [t2 E2]. rewrite E1, E2. cbn. intros <-.
      by destruct (core_threads_inj _ _ _ _ _ _ Hnd E1 E2).
    + intros j1 j2 y Hj1 Hj2 (k1 & -> & Hk1)%list_elem_of_fmap (k2 & E & Hk2)%list_elem_of_fmap.
      destruct (Hsome cores j1 k1 Hin Hj1 Hk1) as [t1 E1], (Hsome cores j2 k2 Hin Hj2 Hk2) as [t2 E2]. rewrite E1, E2 in E. cbn in E. subst.
      by destruct (core_threads_inj _ _ _ _ _ _ Hnd E1 E2).
  - intros l1 l2 y H1 H2 Hy1 Hy2. destruct (HF l1 y H1 Hy1) as (j1 & k1 & _ & Hk1 & E1). destruct (HF l2 y H2 Hy2) as (j2 & k2 & _ & Hk2 & E2).
    destruct (core_threads_inj _ _ _ _ _ _ Hnd E1 E2) as [_ ->]. by eapply concat_same_list.
Qed.

Lemma concat_take_NoDup (pools table : list (list Z)) :
  Forall2 (fun p t => exists n, t = take n p) pools table -> NoDup (concat pools) -> NoDup (concat table) /\ forall x, x ∈ concat table -> x ∈ concat pools.
Proof.
  induction 1 as [|p t pools table (n & ->) _ IH]; cbn; intros Hnd; [done|]. apply NoDup_app in Hnd as (H1 & H2 & H3).
  destruct (IH H3) as [Hn Hs]. split.
  - apply NoDup_app. split_and!; [|intros x Hx%elem_of_take Hin; destruct Hx as (i & Hx & _); apply (H2 x); [by eapply list_elem_of_lookup_2|by apply Hs]|done].
    rewrite <- (take_drop n p) in H1. by apply NoDup_app in H1 as (? & _).
  - intros x. rewrite !elem_of_app. intros [Hx|Hx]; [left; apply elem_of_take in Hx as (i & Hx & _); by eapply list_elem_of_lookup_2|right; by apply Hs].
Qed.

Lemma mapM_lookup_take {A} (l : list A) n k : mapM (fun j => l !! j) (seq 0 n) = Some k -> k = take n l /\ length k = n.
Proof.
  intros H. assert (length k = length (seq 0 n)) as Hl by (symmetry; by apply (Forall2_length _ _ _ (proj1 (mapM_Some _ _ _) H))). rewrite length_seq in Hl. split; [|done]. apply mapM_Some in H.
  apply list_eq. intros i. destruct (decide (i < n)%nat) as [Hi|Hi].
  - rewrite lookup_take, decide_True by done. destruct (Forall2_lookup_l _ _ _ i i H) as (x & Hx & E); [by apply lookup_seq|]. congruence.
  - rewrite !lookup_ge_None_2; [done|rewrite length_take; lia|lia].
Qed.

(** ** The choice of threads *)

Lemma number_cores_spec cores t0 c2t t2c r1 r2 :
  number_cores cores t0 c2t t2c = (r1, r2) -> NoDup cores ->
  (forall i x, cores !! i = Some x -> r1 !! x = Some (t0 + Z.of_nat i) /\ r2 !! (t0 + Z.of_nat i) = Some x) /\
  (forall x, x ∉ cores -> r1 !! x = c2t !! x) /\ (forall t, t < t0 -> r2 !! t = t2c !! t).
Proof.
  revert t0 c2t t2c. induction cores as [|x cores IH]; intros t0 c2t t2c H Hnd; cbn in H.
  { injection H as <- <-. by split_and!. }
  apply NoDup_cons in Hnd as [Hx Hnd]. destruct (IH _ _ _ H Hnd) as (H1 & H2 & H3). split_and!.
  - intros [|i] y Hy; cbn in Hy.
    + injection Hy as <-. rewrite Z.add_0_r. rewrite H2, H3, !lookup_insert_eq by (done || lia). done.
    + destruct (H1 i y Hy) as [E1 E2]. rewrite E1. replace (t0 + Z.of_nat (S i)) with (t0 + 1 + Z.of_nat i) by lia. done.
  - intros y Hy. apply not_elem_of_cons in Hy as [Hyx Hy]. rewrite H2 by done. by rewrite lookup_insert_ne.
  - intros t Ht. rewrite H3 by lia. by rewrite lookup_insert_ne by lia.
Qed.

(** The number of the first thread of a division, and how many it has. *)
Definition first_thread (a : affinity) (d : nat) : nat := length (concat (take d (core_pool_table a))).
Definition num_threads (a : affinity) (d : nat) : nat := length (default [] (core_pool_table a !! d)).

Lemma concat_take_lookup (m : list (list Z)) d l i x :
  m !! d = Some l -> l !! i = Some x -> concat m !! (length (concat (take d m)) + i)%nat = Some x.
Proof.
  revert d. induction m as [|r m IH]; intros [|d] Hd Hi; cbn in *; simplify_eq.
  - by rewrite lookup_app_l by (by eapply lookup_lt_Some).
  - rewrite length_app, <- Nat.add_assoc, lookup_app_r by lia. rewrite Nat.add_comm, Nat.add_sub. by apply IH.
Qed.

(** What [Init] has set up. *)
Definition aff_ok (a : affinity) : Prop :=
  enable_expert_division a = true /\ length (core_pool_table a) = 6%nat /\ length (core_pool_table_itr a) = 6%nat /\
  Forall (fun l => l <> []) (core_pool_table a) /\ NoDup (concat (core_pool_table a)) /\
  Z.of_nat (length (concat (core_pool_table a))) = global_num_threads a /\
  (forall i x, concat (core_pool_table a) !! i = Some x -> core_to_thread_map a !! x = Some (Z.of_nat i) /\ thread_to_core_map a !! Z.of_nat i = Some x).

Lemma pools_length c pools : cpu_regular c -> init_potential_core_pool c = Some pools -> length pools = 6%nat.
Proof.
  intros Hc H. destruct (core_pools_concat c Hc) as (_ & Hl & _). rewrite <- Hl. symmetry.
  apply (Forall2_length _ _ _ (proj1 (mapM_Some _ _ _) H)).
Qed.

Lemma Init_ok c n a :
  cpu_regular c -> 6 <= n -> CoreAffinity_Init c true n = Some a ->
  aff_ok a /\ core_pool_table_itr a = replicate 6 O /\ global_num_threads a = n.
Proof.
  intros Hc Hn H. unfold CoreAffinity_Init in H.
  destruct (init_potential_core_pool c) as [pools|] eqn:Ep; [|done]. cbn [mbind option_bind] in H.
  pose proof (pools_length _ _ Hc Ep) as Hlp. pose proof (thread_pools_NoDup _ _ Hc Ep) as Hnd.
  destruct (get_num_thread_for_each_division _ n) as [nums|] eqn:En; [|done]. cbn [mbind option_bind] in H.
  assert (exists nums', nums = Some nums' /\ length nums' = 6%nat /\ zsum nums' = n /\ Forall (Z.le 1) nums') as (nums' & -> & Hl & Hs & Hf).
  { destruct (division_threads (total_thread_cnt c) n) as (nums' & E & ?); [|rewrite E in En; injection En as <-; by exists nums'].
    unfold get_num_thread_for_each_division in En. split; [done|]. destruct (Z.leb_spec n (total_thread_cnt c - NUM_RESIDENT_THREAD)); [lia|].
    by rewrite andb_false_r in En. }
  cbn [mbind option_bind] in H. destruct (get_core_id_for_each_division nums' pools) as [table|] eqn:Et; [|done]. cbn [mbind option_bind] in H.
  destruct (load_core_to_thread_map table) as [c2t t2c] eqn:El. injection H as <-. apply mapM_Some in Et.
  assert (Forall2 (fun p t => exists k, t = take k p) pools table /\ Forall2 (fun k t => Z.of_nat (length t) = k) nums' table) as [Htake Hlen].
  { clear -Et Hf Hl Hlp. assert (length nums' = length pools) as Hlen by lia. clear Hl Hlp. revert pools table Et Hlen.
    induction nums' as [|k nums' IH]; intros [|p pools] table Et Hlen; cbn in *; try lia; inversion Et as [|? t ? table' E Et' H1]; subst; [by split|].
    apply Forall_cons in Hf as [Hk Hf]. destruct (mapM_lookup_take _ _ _ E) as [-> Hlk]. cbn [fst snd] in *.
    destruct (IH Hf pools table' Et' ltac:(lia)) as [I1 I2]. split; constructor; try done; [by eexists|]. rewrite Hlk. lia. }
  destruct (concat_take_NoDup _ _ Htake Hnd) as [Hnt _].
  unfold load_core_to_thread_map in El. destruct (number_cores_spec _ _ _ _ _ _ El Hnt) as [Hspec _].
  split_and!; [|done|done]. split_and!; cbn; [done|rewrite <- (Forall2_length _ _ _ Htake); done|done| |done| |].
  - clear -Hlen Hf. induction Hlen as [|k t nums table E _ IH]; [constructor|]. apply Forall_cons in Hf as [Hk Hf].
    constructor; [intros ->; cbn in E; lia|by apply IH].
  - rewrite <- Hs. clear -Hlen. induction Hlen as [|k t nums table E _ IH]; [done|]. unfold zsum in *. cbn. rewrite length_app, Nat2Z.inj_add. lia.
  - intros i x Hx. destruct (Hspec i x Hx) as [E1 E2]. by rewrite Z.add_0_l in E1, E2.
Qed.

(** The threads of a sequence of messages. *)
Fixpoint pick (a : affinity) (ts : list EXPERT_T) : option (list Z * affinity) :=
  match ts with
  | [] => Some ([], a)
  | t :: ts' => '(id, a) ← GetThreadIdForExpert a t; '(ids, a) ← pick a ts'; Some (id :: ids, a)
  end.
Definition division_of (t : EXPERT_T) : nat := division_index (expert_division t).
(** How many messages of a division there are. *)
Definition calls (d : nat) (ts : list EXPERT_T) : nat := length (filter (fun t => division_of t = d) ts).

Lemma pick_one a t base :
  aff_ok a -> (forall d l, core_pool_table a !! d = Some l -> core_pool_table_itr a !! d = Some (base d mod length l)%nat) ->
  exists a', GetThreadIdForExpert a t =
      Some (Z.of_nat (first_thread a (division_of t) + base (division_of t) mod num_threads a (division_of t)), a') /\
    aff_ok a' /\ core_pool_table a' = core_pool_table a /\
    (forall d l, core_pool_table a' !! d = Some l ->
       core_pool_table_itr a' !! d = Some ((if decide (d = division_of t) then S (base d) else base d) mod length l)%nat).
Proof.
  intros (He & Hl & Hli & Hne & Hnd & Hn & Hspec) Hitr. unfold GetThreadIdForExpert. rewrite He. unfold get_core_id_by_expert.
  fold (division_of t). set (d := division_of t).
  assert (d < 6)%nat as Hd by (unfold d, division_of; destruct (expert_division t); cbn; lia).
  destruct (lookup_lt_is_Some_2 (core_pool_table a) d) as [l El]; [lia|]. rewrite El. cbn [mbind option_bind].
  rewrite (Hitr d l El). cbn [mbind option_bind]. assert (l <> []) as Hll by (eapply (Forall_lookup_1 _ _ _ _ Hne El)).
  assert (length l <> 0%nat) as Hl0 by (destruct l; done). pose proof (Nat.mod_upper_bound (base d) (length l) Hl0) as Hub.
  destruct (lookup_lt_is_Some_2 l (base d mod length l)%nat) as [core Ec]; [done|]. rewrite Ec. cbn [mbind option_bind].
  destruct (Hspec _ _ (concat_take_lookup _ _ _ _ _ El Ec)) as [E1 _]. unfold map_at. rewrite E1. cbn [default].
  eexists. split; [unfold first_thread, num_threads; rewrite El; reflexivity|]. split_and!; [|done|].
  - unfold aff_ok. cbn. rewrite length_insert. split_and!; done.
  - cbn [core_pool_table core_pool_table_itr]. intros d' l' El'. destruct (decide (d' = d)) as [->|Hne'].
    + rewrite list_lookup_insert_eq by lia. rewrite El in El'. injection El' as <-. f_equal.
      destruct (Nat.eqb_spec (S (base d mod length l)) (length l)) as [E|E].
      * apply (Nat.mod_unique _ _ (base d / length l + 1)%nat); [lia|]. rewrite (Nat.div_mod (base d) (length l) Hl0) at 1. nia.
      * apply (Nat.mod_unique _ _ (base d / length l)%nat); [lia|]. rewrite (Nat.div_mod (base d) (length l) Hl0) at 1. nia.
    + rewrite list_lookup_insert_ne by done. by apply Hitr.
Qed.

(** The threads of a division take the messages of its experts in turn: on
    a machine with at least six cores, sockets of the same size and distinct
    threads, the k-th message goes to the thread of the division of its expert
    whose number is the number of earlier messages of the division modulo the
    number of its threads; the divisions have disjoint ranges of threads. *)
Theorem expert_threads c n a ts :
  cpu_regular c -> 6 <= n -> CoreAffinity_Init c true n = Some a ->
  exists ids a', pick a ts = Some (ids, a') /\ length ids = length ts /\
    (forall k t, ts !! k = Some t -> ids !! k =
       Some (Z.of_nat (first_thread a (division_of t) + calls (division_of t) (take k ts) mod num_threads a (division_of t)))) /\
    Forall (fun id => 0 <= id < n) ids.
Proof.
  intros Hc Hn Hi. destruct (Init_ok _ _ _ Hc Hn Hi) as (Hok & Hitr & Hg). clear Hi.
  assert (forall ts a0 base, aff_ok a0 -> core_pool_table a0 = core_pool_table a ->
    (forall d l, core_pool_table a0 !! d = Some l -> core_pool_table_itr a0 !! d = Some (base d mod length l)%nat) ->
    exists ids a', pick a0 ts = Some (ids, a') /\ length ids = length ts /\
      forall k t, ts !! k = Some t -> ids !! k =
       Some (Z.of_nat (first_thread a (division_of t) + (base (division_of t) + calls (division_of t) (take k ts)) mod num_threads a (division_of t)))) as Hgo.
  { clear. induction ts as [|t ts IH]; intros a0 base Hok Ht Hitr; [by exists [], a0|]. cbn [pick].
    destruct (pick_one a0 t base Hok Hitr) as (a1 & -> & Hok1 & Ht1 & Hitr1). cbn [mbind option_bind].
    destruct (IH a1 (fun d => if decide (d = division_of t) then S (base d) else base d)) as (ids & a' & -> & Hl & Hk); [done|congruence|done|].
    cbn [mbind option_bind]. eexists _, a'. split_and!; [done|cbn; lia|]. intros [|k] u Hu; cbn in Hu.
    - injection Hu as ->. cbn. unfold calls. cbn. rewrite Nat.add_0_r. unfold first_thread, num_threads. by rewrite Ht.
    - assert (forall z, (z :: ids) !! S k = ids !! k) as -> by done. rewrite (Hk k u Hu). cbn [take]. unfold calls. rewrite filter_cons.
      do 4 f_equal. destruct (decide (division_of u = division_of t)) as [E|E];
        [rewrite decide_True by done|rewrite decide_False by done]; cbn; lia. }
  destruct (Hgo ts a (fun _ => O)) as (ids & a' & E & Hl & Hk); [done|done| |].
  { intros d l Hd. rewrite Hitr. apply lookup_lt_Some in Hd. destruct Hok as (_ & Hl6 & _). rewrite lookup_replicate_2 by lia. by rewrite Nat.Div0.mod_0_l. }
  exists ids, a'. split_and!; [done|done|done|]. apply Forall_lookup_2. intros k id Hid.
  destruct (lookup_lt_is_Some_2 ts k) as [t Ht]; [rewrite <- Hl; by eapply lookup_lt_Some|]. rewrite (Hk k t Ht) in Hid. injection Hid as <-.
  destruct Hok as (_ & Hl6 & _ & Hne & _ & Hcat & _). assert (division_of t < 6)%nat as Hd by (unfold division_of; destruct (expert_division t); cbn; lia).
  destruct (lookup_lt_is_Some_2 (core_pool_table a) (division_of t)) as [l El]; [lia|].
  assert (l <> []) as Hll by (eapply (Forall_lookup_1 _ _ _ _ Hne El)). unfold num_threads. rewrite El. cbn [default].
  destruct (lookup_lt_is_Some_2 l (calls (division_of t) (take k ts) mod length l)%nat) as [core Ec].
  { apply Nat.mod_upper_bound. by destruct l. }
  pose proof (lookup_lt_Some _ _ _ (concat_take_lookup _ _ _ _ _ El Ec)) as Hlt. unfold first_thread, id. lia.
Qed.

(** A machine with two sockets of six cores and two threads each, in the layout
    of the comments of the source. *)
Definition example_cpu (sockets per : Z) : CPUInfo :=
  mk_cpu (sockets * per) sockets per (2 * sockets * per) (2 * per) 2
    ((fun i => [i; i + sockets * per]) <$> zrange 0 (sockets * per)).
Definition example_affinity : option affinity := CoreAffinity_Init (example_cpu 2 6) true 16.

Lemma expert_threads_witness :
  exists a ids a', example_affinity = Some a /\
    pick a [E_INIT; E_VALUES; E_VALUES; E_TRAVERSAL; E_HAS; E_KEY; E_LABEL] = Some (ids, a') /\ ids !! 1%nat = Some 0.
Proof.
  destruct example_affinity as [a|] eqn:E; [|exfalso; revert E; by vm_compute]. exists a.
  destruct (expert_threads (example_cpu 2 6) 16 a [E_INIT; E_VALUES; E_VALUES; E_TRAVERSAL; E_HAS; E_KEY; E_LABEL])
    as (ids & a' & H1 & H2 & H3 & H4); [|lia|exact E|].
  - split_and!; [by vm_compute..|]. apply (bool_decide_unpack _). by vm_compute.
  - exists ids, a'. split_and!; [done|done|]. rewrite (H3 1%nat E_VALUES) by done. revert E. vm_compute. by intros [= <-].
Defined.

(** ** What goes wrong *)

(** On a machine with five cores two divisions get no core, against the comment
    that at least one core is given, and with six threads the initialisation
    reads beyond the end of a pool. *)
Theorem five_cores_fail :
  core_ranges 5 = [(0, 1); (1, 2); (2, 3); (3, 2); (2, 3); (3, 2)] /\
  (exists nums, get_num_thread_for_each_division 10 6 = Some (Some nums)) /\
  CoreAffinity_Init (example_cpu 1 5) true 6 = None.
Proof. split_and!; [by vm_compute|eexists; by vm_compute|by vm_compute]. Qed.

(** The list of threads to steal from has the thread itself and its division
    twice when its core has an odd number and its division is among the first
    three; with an even number it is the list of all other threads. *)
Theorem steal_list_spec table i id :
  NoDup (concat table) -> length table = 6%nat -> (exists l, table !! i = Some l /\ id ∈ l) -> 0 <= id ->
  (Z.even id = true -> forall x, x ∈ steal_row table i [] id <-> x ∈ concat table /\ x <> id) /\
  (Z.even id = false -> (i < 3)%nat -> id ∈ steal_row table i [] id).
Proof.
  intros Hnd Hl (l & Hi & Hid) H0. unfold steal_row. rewrite Z.rem_mod_nonneg, Zmod_even by lia.
  assert (forall x j, x ∈ default [] (table !! j) -> x ∈ concat table) as Hin.
  { intros x j Hx. destruct (table !! j) as [r|] eqn:E; [|by apply elem_of_nil in Hx]. apply list_elem_of_In, in_concat. exists r.
    split; apply list_elem_of_In; [by eapply list_elem_of_lookup_2|done]. }
  split.
  - intros ->. cbn [Z.eqb]. intros x. rewrite elem_of_app, list_elem_of_filter. cbn [app]. rewrite Hi. cbn [default]. split.
    + intros [[Hx Hxl]|Hx]; [split; [apply (Hin x i); by rewrite Hi|done]|].
      apply list_elem_of_In, in_concat in Hx as (r & Hr & Hx). apply list_elem_of_In, list_elem_of_fmap in Hr as (j & -> & Hj).
      destruct (Nat.eqb_spec j i); [by destruct Hx|]. apply list_elem_of_In in Hx. split; [by eapply Hin|]. intros ->.
      destruct (table !! j) as [r|] eqn:E; [|by apply elem_of_nil in Hx]. cbn in Hx.
      apply list_elem_of_lookup in Hx as (a & Ha). apply list_elem_of_lookup in Hid as (b & Hb).
      by destruct (concat_lookup_inj _ _ _ _ _ _ _ _ Hnd E Ha Hi Hb).
    + intros [Hx Hne]. apply list_elem_of_In, in_concat in Hx as (r & Hr & Hx). apply list_elem_of_In, list_elem_of_lookup in Hr as (j & Hj).
      apply list_elem_of_In in Hx. destruct (decide (j = i)) as [->|Hji]; [rewrite Hi in Hj; injection Hj as <-; by left|]. right.
      apply list_elem_of_In, in_concat. exists r. split; [|by apply list_elem_of_In]. apply list_elem_of_In, list_elem_of_fmap. exists j. split.
      * rewrite (proj2 (Nat.eqb_neq j i)) by done. by rewrite Hj.
      * apply elem_of_seq. apply lookup_lt_Some in Hj. lia.
  - intros -> Hi3. cbn [Z.eqb]. rewrite !elem_of_app. right. right. apply list_elem_of_In, in_concat. exists l. split; [|by apply list_elem_of_In].
    apply list_elem_of_In, list_elem_of_fmap. exists i. split; [by rewrite Hi|]. apply elem_of_seq. lia.
Qed.
Lemma steal_list_spec_witness : 1 ∈ steal_row [[1; 3]; [5]; [7]; [0]; [2]; [4]] 0 [] 1.
Proof.
  apply (steal_list_spec [[1; 3]; [5]; [7]; [0]; [2]; [4]] 0 1); [|done|exists [1; 3]; split; [done|left]|done|done|lia].
  apply (bool_decide_unpack _). by vm_compute.
Defined.
