(* ===== verification/ExecPlan.v ===== *)
(** * core/exec_plan.cpp, expert/expert_object.cpp: the plan of a transaction

    A transaction is a list of queries with dependencies, closed by a query
    that validates and commits.  [TrxPlan] hands out the queries whose
    dependencies have been answered, fills the results of a query into the
    parameters of later ones, and replaces the last query by an abort.  The
    dependencies are those that [ParserObject::Parse] registers; what its line
    parser makes of one line is the input of the model ([parsed_line]).  The
    last part is the loop of the worker that receives the results of queries.

    A [std::map] with keys of 8 bits is a [gmap] with keys of type [nat]; it is
    iterated over in increasing order.  Moving a query out of the plan leaves
    its list of experts empty. *)
From S2P Require Import Prelude MyMath Types Serialization Wire ToolValue.
From Stdlib Require String Ascii.
Import String.StringSyntax.
Local Open Scope string_scope.
Local Open Scope Z_scope.
Local Open Scope word_scope.

(** ** Parameters of an expert *)

Definition set_params (o : Expert_Object) (ps : list value_t) : Expert_Object :=
  mk_expert (expert_type o) (ex_index o) (next_expert o) (send_remote o) ps.

(** [Expert_Object::AddParam(int)] (expert/expert_object.cpp:19-23). *)
Definition AddParam_int (o : Expert_Object) (key : Z) : option Expert_Object :=
  v ← str2int (to_string_int key) value_default; Some (set_params o (params o ++ [v])).
(** [Expert_Object::AddParam(string)] (expert/expert_object.cpp:25-33). *)
Definition AddParam (o : Expert_Object) (s : list Z) : option (bool * Expert_Object) :=
  '(ok, v) ← str2value_t (trim s [32]) value_default;
  Some (if ok : bool then (true, set_params o (params o ++ [v])) else (false, o)).

(** The common end of both [ModifyParam]; the index is compared as unsigned. *)
Definition put_param (o : Expert_Object) (index : Z) (v : value_t) : bool * Expert_Object :=
  if wrap 64 index <? Z.of_nat (length (params o)) then
    (true, set_params o (<[Z.to_nat index := v]> (params o)))
  else (false, o).
(** [Expert_Object::ModifyParam(int, int)] (expert/expert_object.cpp:35-44). *)
Definition ModifyParam_int (o : Expert_Object) (key index : Z) : option (bool * Expert_Object) :=
  v ← str2int (to_string_int key) value_default; Some (put_param o index v).
(** [Expert_Object::ModifyParam(string, int)] (expert/expert_object.cpp:46-60). *)
Definition ModifyParam (o : Expert_Object) (s : list Z) (index : Z) : option (bool * Expert_Object) :=
  '(ok, v) ← str2value_t (trim s [32]) value_default;
  Some (if ok : bool then put_param o index v else (false, o)).

(** ** The plan *)

(** [TrxPlan::position_t] (core/exec_plan.hpp:98-103). *)
Record position_t := mk_pos { pos_query : nat; pos_expert : nat; pos_param : Z }.

(** [TrxPlan] (core/exec_plan.hpp:52-128). *)
Record TrxPlan := mk_trx {
  tp_trxid : Z;
  tp_st : Z;
  tp_type : Z;
  is_abort : bool;
  is_end : bool;
  query_plans : list QueryPlan;
  deps_count : gmap nat Z;
  topo : gmap nat (gset nat);
  place_holder : gmap nat (list position_t);
  tp_results : gmap Z (list value_t);
}.

(** [TRX_READONLY, TRX_UPDATE, TRX_ADD, TRX_DELETE] (core/exec_plan.hpp:46-49). *)
Definition TRX_READONLY : Z := 0.
Definition TRX_UPDATE : Z := 1.
Definition TRX_ADD : Z := 2.
Definition TRX_DELETE : Z := 4.

(** [TrxPlan::TrxPlan(uint64_t, string)] (core/exec_plan.hpp:55-60), without the
    host name and the clock. *)
Definition TrxPlan_new (trxid : Z) : TrxPlan :=
  mk_trx trxid 0 TRX_READONLY false false [] ∅ ∅ ∅ ∅.

Definition set_deps (p : TrxPlan) (d : gmap nat Z) : TrxPlan :=
  mk_trx (tp_trxid p) (tp_st p) (tp_type p) (is_abort p) (is_end p) (query_plans p) d (topo p)
    (place_holder p) (tp_results p).
Definition set_plans (p : TrxPlan) (l : list QueryPlan) : TrxPlan :=
  mk_trx (tp_trxid p) (tp_st p) (tp_type p) (is_abort p) (is_end p) l (deps_count p) (topo p)
    (place_holder p) (tp_results p).
Definition set_topo (p : TrxPlan) (t : gmap nat (gset nat)) : TrxPlan :=
  mk_trx (tp_trxid p) (tp_st p) (tp_type p) (is_abort p) (is_end p) (query_plans p) (deps_count p) t
    (place_holder p) (tp_results p).
Definition set_holes (p : TrxPlan) (h : gmap nat (list position_t)) : TrxPlan :=
  mk_trx (tp_trxid p) (tp_st p) (tp_type p) (is_abort p) (is_end p) (query_plans p) (deps_count p)
    (topo p) h (tp_results p).
Definition set_results (p : TrxPlan) (r : gmap Z (list value_t)) : TrxPlan :=
  mk_trx (tp_trxid p) (tp_st p) (tp_type p) (is_abort p) (is_end p) (query_plans p) (deps_count p)
    (topo p) (place_holder p) r.
Definition set_aborted (p : TrxPlan) : TrxPlan :=
  mk_trx (tp_trxid p) (tp_st p) (tp_type p) true (is_end p) (query_plans p) (deps_count p) (topo p)
    (place_holder p) (tp_results p).
Definition set_ended (p : TrxPlan) : TrxPlan :=
  mk_trx (tp_trxid p) (tp_st p) (tp_type p) (is_abort p) true (query_plans p) (deps_count p) (topo p)
    (place_holder p) (tp_results p).
Definition set_experts (q : QueryPlan) (es : list Expert_Object) : QueryPlan :=
  mk_plan (query_index q) es (is_process q) (trx_type q) (trxid q) (st q).

(** [TrxPlan::SetST] (core/exec_plan.cpp:38-40). *)
Definition SetST (p : TrxPlan) (s : Z) : TrxPlan :=
  mk_trx (tp_trxid p) s (tp_type p) (is_abort p) (is_end p) (query_plans p) (deps_count p) (topo p)
    (place_holder p) (tp_results p).

(** [operator[]] of a map: a missing value is the default one. *)
Definition at_key {A} (d : A) (m : gmap nat A) (k : nat) : A := default d (m !! k).

(** [TrxPlan::RegDependency] (core/exec_plan.cpp:49-56). *)
Definition RegDependency (p : TrxPlan) (src_index dst_index : nat) : TrxPlan :=
  let s := at_key ∅ (topo p) src_index in
  let p' := set_topo p (<[src_index := s ∪ {[dst_index]}]> (topo p)) in
  if decide (dst_index ∈ s) then p'
  else set_deps p' (<[dst_index := u8 (at_key 0 (deps_count p) dst_index + 1)]> (deps_count p)).

(** [TrxPlan::RegPlaceHolder] (core/exec_plan.cpp:42-47). *)
Definition RegPlaceHolder (p : TrxPlan) (src_index dst_index expert_index : nat) (param_index : Z) : TrxPlan :=
  let ps := at_key [] (place_holder p) src_index in
  RegDependency
    (set_holes p (<[src_index := ps ++ [mk_pos dst_index expert_index param_index]]> (place_holder p)))
    src_index dst_index.

(** [TrxPlan::Abort] (core/exec_plan.cpp:58-75). *)
Definition Abort (p : TrxPlan) : option TrxPlan :=
  if is_abort p then Some p
  else
    let index := (length (query_plans p) - 1)%nat in
    plan ← query_plans p !! index;
    if (2 <=? length (experts plan))%nat then
      Some (set_deps (set_plans (set_aborted p)
              (<[index := set_experts plan (drop 2 (experts plan))]> (query_plans p)))
              {[Z.to_nat (u8 (Z.of_nat index)) := 0]})
    else None.

(** The loop of [FillResult] over the place holders of a query; the last
    component is false where it calls [Abort] and returns. *)
Fixpoint fill_holes (plans : list QueryPlan) (vec : list value_t) (ps : list position_t)
  : option (list QueryPlan * list position_t * bool) :=
  match ps with
  | [] => Some (plans, [], true)
  | pos :: ps' =>
      plan ← plans !! pos_query pos;
      expert ← experts plan !! pos_expert pos;
      let size := Z.of_nat (length (params expert)) in
      let at_ := if pos_param pos =? -1 then size else pos_param pos in
      let pos' := mk_pos (pos_query pos) (pos_expert pos) at_ in
      let write ps := <[pos_query pos := set_experts plan
                         (<[pos_expert pos := set_params expert ps]> (experts plan))]> plans in
      let continue plans :=
        '(plans, ps', ok) ← fill_holes plans vec ps'; Some (plans, pos' :: ps', ok) in
      match expert_type expert with
      | E_INIT =>
          if (0 <=? at_) && (at_ <=? size) then
            continue (write (take (Z.to_nat at_) (params expert) ++ vec ++ drop (Z.to_nat at_) (params expert)))
          else None
      | E_ADDE =>
          match vec with
          | [result] =>
              if (0 <=? at_) && (at_ <? size) then
                continue (write (<[Z.to_nat at_ := result]> (params expert)))
              else None
          | _ => Some (plans, pos' :: ps', false)
          end
      | _ => continue plans
      end
  end.

(** [deps_count_[index]--] for every child of an answered query. *)
Definition decrease (deps : gmap nat Z) (children : list nat) : gmap nat Z :=
  foldl (fun d i => <[i := u8 (at_key 0 d i - 1)]> d) deps children.

(** [query_index == query_plans_.size() - 1], compared as [size_t]. *)
Definition is_last (p : TrxPlan) (query_index : Z) : bool :=
  wrap 64 query_index =? wrap 64 (Z.of_nat (length (query_plans p)) - 1).

(** The line in front of the results of a query. *)
Definition result_header (p : TrxPlan) (query_index : Z) (vec : list value_t) : option value_t :=
  header ←
    (if is_last p query_index then
       v ← head vec; s ← DebugString v; Some (str "Status: " ++ s)
     else
       Some (str "Query " ++ to_string_int (query_index + 1) ++ str ": " ++
             if (length vec =? 0)%nat then str "Empty" else []));
  Some (str2str header value_default).

(** The end of [FillResult]: keep the results under their header; the result of
    the last query, and that of an unparsed transaction, is the end. *)
Definition keep_results (p : TrxPlan) (query_index : Z) (vec : list value_t) : option TrxPlan :=
  p ← (if negb (query_index =? -1) && bool_decide (tp_results p !! query_index = None) then
         h ← result_header p query_index vec;
         Some (set_results p (<[query_index := [h]]> (tp_results p)))
       else Some p);
  let p :=
    if (query_index =? -1) || negb (is_last p query_index) then
      if (0 <? length vec)%nat then
        set_results p (<[query_index := default [] (tp_results p !! query_index) ++ vec]> (tp_results p))
      else p
    else p in
  Some (if is_last p query_index || (query_index =? -1) then set_ended p else p).

(** [TrxPlan::FillResult] (core/exec_plan.cpp:77-141); -1 stands for a
    transaction that was not parsed, and as a key of 8 bits for 255. *)
Definition FillResult (p : TrxPlan) (query_index : Z) (vec : list value_t) : option (TrxPlan * bool) :=
  let key := Z.to_nat (u8 query_index) in
  '(plans, ps, ok) ← fill_holes (query_plans p) vec (at_key [] (place_holder p) key);
  let p := set_holes (set_plans p plans) (<[key := ps]> (place_holder p)) in
  if negb ok then p ← Abort p; Some (p, false)
  else
    let p :=
      if is_abort p then p
      else
        let children := at_key ∅ (topo p) key in
        set_deps (set_topo p (<[key := children]> (topo p))) (decrease (deps_count p) (elements children)) in
    p ← keep_results p query_index vec;
    Some (p, true).

(** One query that [NextQueries] sends: the plan without it, and the query. *)
Definition send_query (p : TrxPlan) (i : nat) : option (TrxPlan * QueryPlan) :=
  plan ← query_plans p !! i;
  let q := mk_plan (Z.of_nat i) (experts plan) (is_process plan) (tp_type p) (tp_trxid p) (tp_st p) in
  Some (set_deps (set_plans p (<[i := set_experts q []]> (query_plans p))) (delete i (deps_count p)), q).
Fixpoint send_queries (p : TrxPlan) (keys : list nat) : option (TrxPlan * list QueryPlan) :=
  match keys with
  | [] => Some (p, [])
  | i :: keys' =>
      if decide (deps_count p !! i = Some 0) then
        '(p, q) ← send_query p i;
        '(p, qs) ← send_queries p keys';
        Some (p, q :: qs)
      else send_queries p keys'
  end.
(** [TrxPlan::NextQueries] (core/exec_plan.cpp:144-168): [None] in the second
    component when the transaction is over. *)
Definition NextQueries (p : TrxPlan) : option (TrxPlan * option (list QueryPlan)) :=
  if is_end p then Some (p, None)
  else '(p, qs) ← send_queries p (seq 0 256); Some (p, Some qs).

(** [TrxPlan::GetResult] (core/exec_plan.cpp:170-176): the results in
    increasing order, that of an unparsed transaction first. *)
Definition GetResult (p : TrxPlan) : list value_t :=
  concat ((fun i => default [] (tp_results p !! (Z.of_nat i - 1))) <$> seq 0 257).

(** ** Dependencies of the queries of a transaction *)

(** [ParserObject::IO_T] (core/parser.hpp:66-66). *)
Inductive IO_T := IO_EDGE | IO_VERTEX | IO_VP | IO_EP | IO_INT | IO_DOUBLE | IO_CHAR | IO_STRING | IO_COLLECTION.
#[global] Instance IO_T_eq_dec : EqDecision IO_T.
Proof. solve_decision. Defined.

(** A use of the result of an earlier query: the name of its variable, the
    expert and the parameter to fill, and the type that is expected. *)
Record var_use := mk_use { u_var : list Z; u_step : nat; u_param : Z; u_type : IO_T }.
(** What the parser of one line finds: the experts, the variables that are used
    in the order in which they are registered, whether the query only reads,
    the bits that it adds to the type of the transaction, and the variable
    that its result is bound to with its type. *)
Record parsed_line := mk_line {
  pl_experts : list Expert_Object;
  pl_uses : list var_use;
  pl_read_only : bool;
  pl_type : Z;
  pl_return : option (list Z * IO_T);
}.

(** The members of [ParserObject] that live as long as the transaction
    (core/parser.hpp:80-95). *)
Record parser := mk_parser {
  ps_vars : gmap (list Z) (nat * IO_T);
  ps_line : Z;
  ps_last_update : Z;
}.

(** [ParserObject::RegPlaceHolder] (core/parser.cpp:305-318); [None] is a parser
    exception. *)
Definition parser_RegPlaceHolder (o : parser) (p : TrxPlan) (u : var_use) : option TrxPlan :=
  match ps_vars o !! u_var u with
  | Some (src, t) =>
      if decide (t = u_type u) then
        Some (RegPlaceHolder p src (Z.to_nat (ps_line o)) (u_step u) (u_param u))
      else None
  | None => None
  end.

Fixpoint reg_uses (o : parser) (p : TrxPlan) (us : list var_use) : option TrxPlan :=
  match us with
  | [] => Some p
  | u :: us' => p ← parser_RegPlaceHolder o p u; reg_uses o p us'
  end.

(** [AddEdgeMethodType] (base/type.hpp:697-697), by its values. *)
Definition PlaceHolder : Z := 0.
Definition StepLabel : Z := 1.
Definition NotApplicable : Z := 2.
Definition method_count (t : Z) : Z :=
  if t =? NotApplicable then 0 else if t =? PlaceHolder then 2 else 1.
(** The check of the parameters of an added edge in [ParserObject::ParseLine]
    (core/parser.cpp:165-187): both ends of [g.addE] are variables, and one end
    of a later [addE] is the current vertex. *)
Definition adde_ok (i : nat) (e : Expert_Object) : option bool :=
  match expert_type e with
  | E_ADDE =>
      from ← params e !! 1%nat; fromType ← value_t2int from;
      to ← params e !! 3%nat; toType ← value_t2int to;
      let count := method_count fromType + method_count toType in
      Some (if (i =? 0)%nat then count =? 4 else negb ((count =? 0) || (count =? 4)))
  | _ => Some true
  end.
Fixpoint addes_ok (i : nat) (es : list Expert_Object) : option bool :=
  match es with
  | [] => Some true
  | e :: es' => b ← adde_ok i e; if b : bool then addes_ok (S i) es' else Some false
  end.

(** The effects of [ParserObject::ParseLine] on the plan and the variables
    (core/parser.cpp:148-193). *)
Definition ParseLine (o : parser) (p : TrxPlan) (l : parsed_line) : option (parser * TrxPlan) :=
  ok ← addes_ok 0 (pl_experts l);
  p ← (if ok : bool then reg_uses o p (pl_uses l) else None);
  let p := mk_trx (tp_trxid p) (tp_st p) (Z.lor (tp_type p) (pl_type l)) (is_abort p) (is_end p)
             (query_plans p) (deps_count p) (topo p) (place_holder p) (tp_results p) in
  let o := match pl_return l with
           | Some (x, t) => mk_parser (<[x := (Z.to_nat (ps_line o), t)]> (ps_vars o)) (ps_line o) (ps_last_update o)
           | None => o
           end in
  plan ← query_plans p !! Z.to_nat (ps_line o);
  Some (o, set_plans p (<[Z.to_nat (ps_line o) :=
     set_experts plan (experts plan ++ pl_experts l ++ [mk_expert E_END 0 (-1) false []])]> (query_plans p))).

(** [for (uint8_t i = begin; i < line_index; i++) RegDependency(i, line_index)] *)
Definition depend_on_all (p : TrxPlan) (from line : Z) : TrxPlan :=
  foldl (fun p i => RegDependency p i (Z.to_nat line)) p (seq (Z.to_nat from) (Z.to_nat line - Z.to_nat from)).
Definition first_dep (last_update : Z) : Z := if 0 <? last_update then u8 last_update else 0.

(** One iteration of the loop of [ParserObject::Parse]
    (core/parser.cpp:85-107). *)
Definition parse_step (o : parser) (p : TrxPlan) (l : parsed_line) : option (parser * TrxPlan) :=
  let line := Z.to_nat (ps_line o) in
  let p := set_deps p (<[line := 0]> (deps_count p)) in
  '(o, p) ← ParseLine o p l;
  let '(last, p) :=
    if negb (pl_read_only l) then
      (ps_line o, depend_on_all p (first_dep (ps_last_update o)) (ps_line o))
    else
      (ps_last_update o,
       if 0 <=? ps_last_update o then RegDependency p (Z.to_nat (u8 (ps_last_update o))) line else p) in
  Some (mk_parser (ps_vars o) (u8 (ps_line o + 1)) last, p).
Fixpoint parse_lines (o : parser) (p : TrxPlan) (ls : list parsed_line) : option (parser * TrxPlan) :=
  match ls with
  | [] => Some (o, p)
  | l :: ls' => '(o, p) ← parse_step o p l; parse_lines o p ls'
  end.

(** [ParserObject::AddCommitStatement] (core/parser.cpp:1832-1853). *)
Definition AddCommitStatement (o : parser) (p : TrxPlan) : option TrxPlan :=
  let valid_vec := [mk_expert E_VALIDATION 0 1 false []; mk_expert E_POSTVALIDATION 0 2 false [];
                    mk_expert E_TERMINATE 0 3 false []] in
  let line := Z.to_nat (ps_line o) in
  plan ← query_plans p !! line;
  let p := set_plans p (<[line := mk_plan (query_index plan) valid_vec false (trx_type plan) (trxid plan) (st plan)]>
             (query_plans p)) in
  let p := set_deps p (<[line := 0]> (deps_count p)) in
  Some (depend_on_all p (first_dep (ps_last_update o)) (ps_line o)).

(** [ParserObject::Parse] (core/parser.cpp:78-113), on the lines of the
    transaction. *)
Definition Parse (p : TrxPlan) (lines : list parsed_line) : option TrxPlan :=
  let p := set_plans p (query_plans p ++ replicate (S (length lines) - length (query_plans p)) plan_default) in
  '(o, p) ← parse_lines (mk_parser ∅ 0 (-1)) p lines;
  AddCommitStatement o p.

(** ** The worker *)

(** [ReplyType] (core/result_collector.hpp:34-34). *)
Inductive ReplyType := RESULT_NORMAL | RESULT_ABORT.

(** The body of the loop of [Worker::Start] that receives the result of a
    query (driver/worker.hpp:1166-1179), up to [RegisterQuery]: the plan,
    whether an abort is written to the table of states, and the queries that
    [NextQueries] returns. *)
Definition receive (p : TrxPlan) (kind : ReplyType) (id : Z) (results : list value_t)
  : option (TrxPlan * bool * option (list QueryPlan)) :=
  '(p, aborts) ←
    match kind with
    | RESULT_ABORT => '(p, _) ← FillResult p id results; p ← Abort p; Some (p, false)
    | RESULT_NORMAL => '(p, ok) ← FillResult p id results; Some (p, negb ok)
    end;
  '(p, qs) ← NextQueries p;
  Some (p, aborts, qs).

(** ** Counting open dependencies *)

Definition edge (p : TrxPlan) (a b : nat) : Prop := b ∈ at_key ∅ (topo p) a.
#[global] Instance edge_dec p a b : Decision (edge p a b).
Proof. unfold edge. apply _. Defined.

(** The queries that [d] waits for when those in [ready] have been answered. *)
Definition open_deps (p : TrxPlan) (ready : gset nat) (d : nat) : list nat :=
  filter (fun a => edge p a d /\ a ∉ ready) (seq 0 256).
#[global] Arguments open_deps : simpl never.

(** The counters are those of the queries in [K]. *)
Definition deps_ok (p : TrxPlan) (K : nat -> Prop) (ready : gset nat) : Prop :=
  forall d, (K d -> deps_count p !! d = Some (Z.of_nat (length (open_deps p ready d)))) /\
            (~ K d -> deps_count p !! d = None).

Definition forward (p : TrxPlan) : Prop := forall a b, edge p a b -> (a < b <= 255)%nat.

Lemma filter_ext_elem {A} (P Q : A -> Prop) `{!forall x, Decision (P x), !forall x, Decision (Q x)} (l : list A) :
  (forall x, x ∈ l -> P x <-> Q x) -> filter P l = filter Q l.
Proof.
  induction l as [|x l IH]; intros E; [done|]. rewrite !filter_cons, IH by (intros; apply E; by right).
  assert (P x <-> Q x) by (apply E; left). destruct (decide (P x)), (decide (Q x)); tauto.
Qed.
Lemma filter_nil_iff {A} (P : A -> Prop) `{!forall x, Decision (P x)} (l : list A) :
  filter P l = [] <-> forall x, x ∈ l -> ~ P x.
Proof.
  split.
  - intros E x Hx HP. assert (x ∈ filter P l) as Hm by (by apply list_elem_of_filter). rewrite E in Hm. by apply not_elem_of_nil in Hm.
  - intros E. destruct (filter P l) as [|x l'] eqn:Ef; [done|].
    assert (x ∈ filter P l) as Hm by (rewrite Ef; left). apply list_elem_of_filter in Hm as [HP Hx]. by destruct (E x Hx).
Qed.

Lemma filter_length_one {A} (P Q : A -> Prop) `{!forall x, Decision (P x), !forall x, Decision (Q x)} (l : list A) a :
  NoDup l -> a ∈ l -> ~ P a -> Q a -> (forall x, x <> a -> P x <-> Q x) ->
  length (filter Q l) = S (length (filter P l)).
Proof.
  intros Hl Ha HP HQ HPQ. apply list_elem_of_split in Ha as (l1 & l2 & ->).
  apply NoDup_app in Hl as (_ & Hd & Hl2). apply NoDup_cons in Hl2 as [Hn2 _].
  assert (a ∉ l1) as Hn1 by (intros Hi; apply (Hd _ Hi); left).
  rewrite !filter_app, !length_app, !filter_cons, decide_True, decide_False by done. cbn.
  assert (forall l : list A, a ∉ l -> filter P l = filter Q l) as E.
  { intros l Hn. apply filter_ext_elem. intros x Hx. apply HPQ. by intros ->. }
  rewrite !E by done. lia.
Qed.

Lemma open_deps_ext p q ready ready' d :
  (forall a, edge p a d /\ a ∉ ready <-> edge q a d /\ a ∉ ready') -> open_deps p ready d = open_deps q ready' d.
Proof. intros E. apply filter_ext_elem. intros a _. apply E. Qed.

Lemma open_deps_one p q ready ready' a d :
  (a <= 255)%nat -> ~ (edge p a d /\ a ∉ ready) -> edge q a d /\ a ∉ ready' ->
  (forall x, x <> a -> edge p x d /\ x ∉ ready <-> edge q x d /\ x ∉ ready') ->
  length (open_deps q ready' d) = S (length (open_deps p ready d)).
Proof.
  intros Ha Hp Hq E. apply filter_length_one with a; [apply NoDup_seq|apply elem_of_seq; lia|done..].
Qed.

(** A query waits for queries below it. *)
Lemma open_deps_bound p ready d : forward p -> (length (open_deps p ready d) <= d)%nat.
Proof.
  intros Hf. unfold open_deps. destruct (decide (d <= 256)%nat) as [Hd|Hd].
  - replace 256%nat with (d + (256 - d))%nat by lia. rewrite seq_app, filter_app, length_app.
    assert (filter (fun a => edge p a d /\ a ∉ ready) (seq (0 + d) (256 - d)) = []) as ->.
    { apply filter_nil_iff. intros a Ha [He _]. apply elem_of_seq in Ha.
      apply Hf in He. lia. }
    cbn. rewrite Nat.add_0_r. etransitivity; [apply length_filter|]. rewrite length_seq. lia.
  - etransitivity; [apply length_filter|]. rewrite length_seq. lia.
Qed.

Lemma open_deps_nil p ready d :
  forward p -> open_deps p ready d = [] <-> forall a, edge p a d -> a ∈ ready.
Proof.
  intros Hf. unfold open_deps. rewrite filter_nil_iff. split.
  - intros H a He. destruct (decide (a ∈ ready)); [done|]. destruct (H a); [|done].
    apply elem_of_seq. apply Hf in He. lia.
  - intros H a _ [He Hn]. by apply Hn, H.
Qed.

(** Two plans that differ only in their dependencies. *)
Definition same_queries (p p' : TrxPlan) : Prop :=
  query_plans p' = query_plans p /\ place_holder p' = place_holder p /\ is_abort p' = is_abort p /\
  is_end p' = is_end p /\ tp_results p' = tp_results p /\ tp_type p' = tp_type p /\ tp_trxid p' = tp_trxid p.
#[global] Instance same_queries_po : PreOrder same_queries.
Proof.
  split; unfold same_queries; [done|]. intros p q r. intros; destruct_and!. split_and!; congruence.
Qed.

Lemma reg_dependency p a d K :
  (a < d <= 255)%nat -> K d -> forward p -> deps_ok p K ∅ ->
  let p' := RegDependency p a d in
  deps_ok p' K ∅ /\ (forall x y, edge p' x y <-> edge p x y \/ x = a /\ y = d) /\ same_queries p p'.
Proof.
  intros Ha HK Hf Hd. cbn. unfold RegDependency.
  assert (forall q x y, topo q = <[a := at_key ∅ (topo p) a ∪ {[d]}]> (topo p) ->
    edge q x y <-> edge p x y \/ x = a /\ y = d) as Hedge.
  { intros q x y E. unfold edge, at_key. rewrite E. destruct (decide (x = a)) as [->|].
    - rewrite lookup_insert_eq. cbn. set_solver.
    - rewrite lookup_insert_ne by done. tauto. }
  destruct (decide _) as [Hin|Hin]; (split_and!; [|by intros; apply Hedge|done]).
  - intros x. rewrite (open_deps_ext _ p ∅ ∅); [exact (Hd x)|].
    intros y. rewrite Hedge by done. split; [|tauto]. intros [[?|[-> ->]] ?]; done.
  - intros x. destruct (decide (x = d)) as [->|Hx].
    + split; [intros _|by intros []]. cbn. rewrite lookup_insert_eq. f_equal.
      destruct (Hd d) as [Hk _]. unfold at_key. rewrite Hk by done. cbn.
      set (q := set_deps _ _).
      assert (length (open_deps q ∅ d) = S (length (open_deps p ∅ d))) as Eq.
      { apply open_deps_one with a; [lia|by intros [? _]| |].
        - rewrite (Hedge q) by done. split; [by right|set_solver].
        - intros y Hy. rewrite (Hedge q) by done. tauto. }
      assert (length (open_deps q ∅ d) <= d)%nat.
      { apply open_deps_bound. intros x y [?|[-> ->]]%Hedge; [by apply Hf|done|done]. }
      rewrite Eq. unfold wrap. rewrite Z.mod_small; lia.
    + cbn. rewrite lookup_insert_ne by done. rewrite (open_deps_ext _ p ∅ ∅); [exact (Hd x)|].
      intros y. rewrite Hedge by done. tauto.
Qed.

Lemma depend_on_list p l d K :
  Forall (fun a => a < d)%nat l -> (d <= 255)%nat -> K d -> forward p -> deps_ok p K ∅ ->
  let p' := foldl (fun p i => RegDependency p i d) p l in
  deps_ok p' K ∅ /\ (forall x y, edge p' x y <-> edge p x y \/ x ∈ l /\ y = d) /\ same_queries p p'.
Proof.
  intros Hl Hd HK. revert p. induction Hl as [|a l Ha _ IH]; intros p Hf Ho; cbn.
  { split_and!; [done| |done]. intros x y. rewrite elem_of_nil. tauto. }
  destruct (reg_dependency p a d K) as (Ho' & He & Hs); [lia|done..|].
  destruct (IH (RegDependency p a d)) as (Ho2 & He2 & Hs2); [|done|].
  { intros x y [?|[-> ->]]%He; [by apply Hf|lia]. }
  split_and!; [done| |by etransitivity]. intros x y. rewrite He2, He, elem_of_cons. tauto.
Qed.

Lemma depend_on_all_spec p from line K :
  (from <= line <= 255)%nat -> K line -> forward p -> deps_ok p K ∅ ->
  let p' := depend_on_all p (Z.of_nat from) (Z.of_nat line) in
  deps_ok p' K ∅ /\ (forall x y, edge p' x y <-> edge p x y \/ (from <= x < line)%nat /\ y = line) /\
  same_queries p p'.
Proof.
  intros Hl HK Hf Ho. unfold depend_on_all. rewrite !Nat2Z.id.
  destruct (depend_on_list p (seq from (line - from)) line K) as (Ho' & He & Hs); [|lia|done..|].
  { apply Forall_forall. intros a Ha%elem_of_seq. lia. }
  split_and!; [done| |done]. intros x y. rewrite He, elem_of_seq. split; intros [?|[? ?]]; auto; right; lia.
Qed.

(** ** The dependencies of a parsed transaction *)

(** A place holder that can be filled: it names a parameter, or the end of the
    parameters, of an expert of a query. *)
Definition param_ok (e : Expert_Object) (param : Z) : Prop :=
  match expert_type e with
  | E_INIT => param = -1 \/ 0 <= param <= Z.of_nat (length (params e))
  | E_ADDE => 0 <= param < Z.of_nat (length (params e))
  | _ => True
  end.
Definition hole_ok (plans : list QueryPlan) (pos : position_t) : Prop :=
  exists plan e, plans !! pos_query pos = Some plan /\ experts plan !! pos_expert pos = Some e /\
    param_ok e (pos_param pos).
(** What the line parser guarantees of the variables that a query uses. *)
Definition line_ok (l : parsed_line) : Prop :=
  forall u, u ∈ pl_uses l -> exists e, pl_experts l !! u_step u = Some e /\ param_ok e (u_param u).

(** The holes to fill with the result of a query. *)
Definition holes (p : TrxPlan) (a : nat) : list position_t := at_key [] (place_holder p) a.

Lemma reg_uses_spec o p us p' k :
  ps_line o = Z.of_nat k -> (k <= 255)%nat ->
  (forall x src t, ps_vars o !! x = Some (src, t) -> (src < k)%nat) ->
  forward p -> deps_ok p (fun d => d <= k)%nat ∅ ->
  reg_uses o p us = Some p' ->
  deps_ok p' (fun d => d <= k)%nat ∅ /\
  (forall a b, edge p a b -> edge p' a b) /\
  (forall a b, edge p' a b -> edge p a b \/ (a < k)%nat /\ b = k) /\
  (forall a pos, pos ∈ holes p' a -> pos ∈ holes p a \/
     edge p' a k /\ exists u, u ∈ us /\ pos = mk_pos k (u_step u) (u_param u)) /\
  query_plans p' = query_plans p /\ is_abort p' = is_abort p /\ is_end p' = is_end p /\
  tp_results p' = tp_results p.
Proof.
  intros Hk Hk2 Hv. revert p. induction us as [|u us IH]; intros p Hf Ho E; cbn in E.
  { injection E as <-. split_and!; auto. }
  unfold parser_RegPlaceHolder in E. destruct (ps_vars o !! u_var u) as [[src t]|] eqn:Ev; [|done].
  apply Hv in Ev. destruct (decide (t = u_type u)); [|done]. cbn in E. unfold RegPlaceHolder in E.
  rewrite Hk, Nat2Z.id in E. set (p1 := set_holes p _) in E.
  destruct (reg_dependency p1 src k (fun d => d <= k)%nat) as (Ho1 & He1 & Hq & Hh & Ha & Hn & Hr & _);
    [lia|done|done|done|].
  change (query_plans p1) with (query_plans p) in Hq. change (is_abort p1) with (is_abort p) in Ha.
  change (is_end p1) with (is_end p) in Hn. change (tp_results p1) with (tp_results p) in Hr.
  destruct (IH (RegDependency p1 src k)) as (Ho2 & Hup & Hdown & Hh2 & Hq2 & Ha2 & Hn2 & Hr2); [|done|done|].
  { intros x y [?|[-> ->]]%He1; [by apply Hf|lia]. }
  split_and!; try done; try congruence.
  - intros a b He. apply Hup, He1. by left.
  - intros a b [[?|[-> ->]]%He1|?]%Hdown; auto.
  - intros a pos [Hp|(He & u' & Hu & ->)]%Hh2.
    + unfold holes, at_key in Hp. rewrite Hh in Hp. cbn in Hp. destruct (decide (a = src)) as [->|Hne].
      * rewrite lookup_insert_eq in Hp. cbn in Hp. apply elem_of_app in Hp as [Hp|Hp%list_elem_of_singleton]; [by left|].
        right. split; [apply Hup, He1; by right|]. exists u. split; [left|done].
      * rewrite lookup_insert_ne in Hp by done. by left.
    + right. split; [done|]. exists u'. split; [by right|done].
Qed.

(** The plan and the parser after [k] of [n] lines: dependencies go forward,
    the counters are right, and every query is waited for by a later one unless
    it comes after the last update. *)
Record parsing (n k : nat) (o : parser) (p : TrxPlan) : Prop := {
  pg_line : ps_line o = Z.of_nat k;
  pg_len : length (query_plans p) = S n;
  pg_flags : is_abort p = false /\ is_end p = false /\ tp_results p = ∅;
  pg_edge a b : edge p a b -> (a < b < k)%nat;
  pg_deps : deps_ok p (fun d => d < k)%nat ∅;
  pg_vars x src t : ps_vars o !! x = Some (src, t) -> (src < k)%nat;
  pg_last : -1 <= ps_last_update o < Z.of_nat k;
  pg_out a : (a < k)%nat -> (exists b, edge p a b) \/ ps_last_update o <= Z.of_nat a;
  pg_holes a pos : pos ∈ holes p a -> edge p a (pos_query pos) /\ hole_ok (query_plans p) pos;
  pg_ready j : (j < k)%nat -> exists q, query_plans p !! j = Some q /\ experts q <> [];
  pg_fresh j : (k <= j <= n)%nat -> exists q, query_plans p !! j = Some q /\ experts q = [];
}.

Lemma hole_ok_other plans pos i q : pos_query pos <> i -> hole_ok plans pos -> hole_ok (<[i := q]> plans) pos.
Proof. intros Hi (plan & e & E & H). exists plan, e. by rewrite list_lookup_insert_ne by done. Qed.

Lemma deps_ok_next p k :
  (forall a b, edge p a b -> (a < b < k)%nat) -> deps_ok p (fun d => d < k)%nat ∅ ->
  deps_ok (set_deps p (<[k := 0]> (deps_count p))) (fun d => d <= k)%nat ∅.
Proof.
  intros He Ho d. change (open_deps (set_deps p _) ∅ d) with (open_deps p ∅ d). cbn.
  destruct (decide (d = k)) as [->|Hd].
  - rewrite lookup_insert_eq. split; [intros _|lia].
    assert (open_deps p ∅ k = []) as ->; [|done]. apply filter_nil_iff. intros a _ [H _]. apply He in H. lia.
  - rewrite lookup_insert_ne by done. split; intros; apply Ho; lia.
Qed.

Lemma first_dep_nat last k :
  -1 <= last < Z.of_nat k -> (k <= 255)%nat ->
  exists f, first_dep last = Z.of_nat f /\ (f <= k)%nat /\ Z.of_nat f = Z.max 0 last.
Proof.
  intros H Hk. unfold first_dep. destruct (Z.ltb_spec 0 last).
  - exists (Z.to_nat last). unfold wrap. rewrite Z.mod_small by lia. lia.
  - exists O. lia.
Qed.

Lemma ParseLine_spec o p l o1 p1 k plan :
  ps_line o = Z.of_nat k -> (k <= 255)%nat ->
  (forall x src t, ps_vars o !! x = Some (src, t) -> (src < k)%nat) ->
  forward p -> deps_ok p (fun d => d <= k)%nat ∅ -> line_ok l ->
  query_plans p !! k = Some plan -> experts plan = [] ->
  (forall a pos, pos ∈ holes p a -> pos_query pos <> k /\ edge p a (pos_query pos) /\ hole_ok (query_plans p) pos) ->
  ParseLine o p l = Some (o1, p1) ->
  (ps_line o1 = Z.of_nat k /\ ps_last_update o1 = ps_last_update o /\
   forall x src t, ps_vars o1 !! x = Some (src, t) -> (src < S k)%nat) /\
  deps_ok p1 (fun d => d <= k)%nat ∅ /\
  (forall a b, edge p a b -> edge p1 a b) /\
  (forall a b, edge p1 a b -> edge p a b \/ (a < k)%nat /\ b = k) /\
  (forall a pos, pos ∈ holes p1 a -> edge p1 a (pos_query pos) /\ hole_ok (query_plans p1) pos) /\
  (exists es, es <> [] /\ query_plans p1 = <[k := set_experts plan es]> (query_plans p)) /\
  is_abort p1 = is_abort p /\ is_end p1 = is_end p /\ tp_results p1 = tp_results p.
Proof.
  intros Hk Hk2 Hv Hf Ho Hl Hp He Hh E. unfold ParseLine in E.
  destruct (addes_ok 0 (pl_experts l)) as [[]|]; try done. cbn in E.
  destruct (reg_uses o p (pl_uses l)) as [p2|] eqn:Eu; [|done].
  destruct (reg_uses_spec _ _ _ _ k Hk Hk2 Hv Hf Ho Eu) as (Ho2 & Hup & Hdown & Hh2 & Hq & Ha & Hn & Hr).
  cbn in E. set (o2 := match pl_return l with Some _ => _ | None => o end) in E.
  assert (ps_line o2 = Z.of_nat k /\ ps_last_update o2 = ps_last_update o /\
    forall x src t, ps_vars o2 !! x = Some (src, t) -> (src < S k)%nat) as Ho2'.
  { subst o2. rewrite Hk, Nat2Z.id. destruct (pl_return l) as [[x t]|]; cbn; (split_and!; [done|done|]); intros y src t' Ey.
    - destruct (decide (y = x)) as [->|]; [rewrite lookup_insert_eq in Ey; injection Ey as <- <-; lia|].
      rewrite lookup_insert_ne in Ey by done. apply Hv in Ey. lia.
    - apply Hv in Ey. lia. }
  pose proof Ho2' as (El & _). rewrite El, Nat2Z.id, Hq, Hp in E. cbn in E. rewrite He in E. injection E as <- <-.
  split; [done|]. split; [exact Ho2|]. split; [exact Hup|]. split; [exact Hdown|]. split_and!; try done.
  - intros a pos [Hpos|(Hek & u & Hu & ->)]%Hh2; cbn.
    + destruct (Hh _ _ Hpos) as (Hne & Hed & Hok). split; [by apply Hup|]. by apply hole_ok_other.
    + split; [exact Hek|]. destruct (Hl u Hu) as (e & Ee & Hpo).
      eexists _, e. cbn. split; [by apply list_lookup_insert_eq, lookup_lt_Some with plan|]. cbn.
      split; [|done]. by apply lookup_app_l_Some.
  - cbn. eexists. split; [|reflexivity]. by destruct (pl_experts l).
Qed.

(** The dependencies that the parser adds for a line. *)
Lemma line_deps p last k ro :
  forward p -> deps_ok p (fun d => d <= k)%nat ∅ -> -1 <= last < Z.of_nat k -> (k <= 255)%nat ->
  let '(last', p') :=
    if negb ro then (Z.of_nat k, depend_on_all p (first_dep last) (Z.of_nat k))
    else (last, if 0 <=? last then RegDependency p (Z.to_nat (u8 last)) k else p) in
  deps_ok p' (fun d => d <= k)%nat ∅ /\ (forall a b, edge p a b -> edge p' a b) /\
  (forall a b, edge p' a b -> edge p a b \/ (a < k)%nat /\ b = k) /\ same_queries p p' /\
  -1 <= last' < Z.of_nat (S k) /\
  (last' = last \/ last' = Z.of_nat k /\ forall a, last <= Z.of_nat a < Z.of_nat k -> edge p' a k).
Proof.
  intros Hf Ho Hlast Hk. destruct ro; cbn.
  - destruct (Z.leb_spec 0 last).
    + assert (wrap 8 last = last) as -> by (unfold wrap; rewrite Z.mod_small; lia).
      destruct (reg_dependency p (Z.to_nat last) k (fun d => d <= k)%nat) as (Ho' & He & Hs); [lia|done..|].
      split_and!; [done|intros a b; rewrite He; tauto| |done|lia|lia|by left].
      intros a b. rewrite He. intros [?|[-> ->]]; [by left|right; lia].
    + split_and!; [done|done|tauto|done|lia|lia|by left].
  - destruct (first_dep_nat last k Hlast Hk) as (f & -> & Hfk & Hfm).
    destruct (depend_on_all_spec p f k (fun d => d <= k)%nat) as (Ho' & He & Hs); [lia|done..|].
    split_and!; try done; try lia.
    + intros a b. rewrite He. tauto.
    + intros a b. rewrite He. intros [?|[? ->]]; [by left|right; lia].
    + right. split; [done|]. intros a Ha. rewrite He. right. lia.
Qed.

Lemma parse_step_ok n k o p l o' p' :
  (k < n <= 255)%nat -> line_ok l -> parsing n k o p -> parse_step o p l = Some (o', p') ->
  parsing n (S k) o' p'.
Proof.
  intros Hn Hl [] E. unfold parse_step in E. rewrite pg_line0, Nat2Z.id in E.
  set (p1 := set_deps p _) in E.
  destruct (ParseLine o p1 l) as [[o1 p2]|] eqn:EL; [|done]. cbn in E.
  destruct (pg_fresh0 k) as (plan & Ep & Ee); [lia|].
  destruct (ParseLine_spec o p1 l o1 p2 k plan pg_line0 ltac:(lia) pg_vars0
              ltac:(intros a b Hab; apply pg_edge0 in Hab; lia) (deps_ok_next p k pg_edge0 pg_deps0) Hl Ep Ee)
    as ((El & Elu & Hv1) & Ho2 & Hup & Hdown & Hh & (es & Hes & Hq) & Ha & He & Hr); [|exact EL|].
  { intros a pos Hpos. destruct (pg_holes0 a pos Hpos) as [Hed Hok]. split_and!; [|done..].
    apply pg_edge0 in Hed. lia. }
  assert (forward p2) as Hf2 by (intros a b [Hab%pg_edge0|]%Hdown; lia).
  pose proof (line_deps p2 (ps_last_update o) k (pl_read_only l) Hf2 Ho2 pg_last0 ltac:(lia)) as HD.
  rewrite El, Elu in E. destruct (if negb (pl_read_only l) then _ else _) as [last p3].
  injection E as <- <-. destruct HD as (Ho3 & Hup3 & Hdown3 & (Hq3 & Hh3 & Ha3 & He3 & Hr3 & _) & Hlast & Hout).
  assert (wrap 8 (Z.of_nat k + 1) = Z.of_nat (S k)) as Ew by (unfold wrap; rewrite Z.mod_small; lia).
  assert (forall j, query_plans p3 !! j = if decide (j = k) then Some (set_experts plan es) else query_plans p !! j) as Hlook.
  { intros j. rewrite Hq3, Hq. destruct (decide _) as [->|]; [|by apply list_lookup_insert_ne].
    by apply list_lookup_insert_eq, lookup_lt_Some with plan. }
  split; cbn.
  - done.
  - rewrite Hq3, Hq, length_insert. exact pg_len0.
  - rewrite Ha3, He3, Hr3, Ha, He, Hr. exact pg_flags0.
  - intros a b [[Hab%pg_edge0|]%Hdown|]%Hdown3; lia.
  - intros d. split; intros; apply Ho3; lia.
  - exact Hv1.
  - exact Hlast.
  - intros a Hak. destruct (decide (a = k)) as [->|].
    { right. destruct Hout as [->|[-> _]]; lia. }
    destruct (pg_out0 a) as [[b Hb]|Hle]; [lia|left; exists b; by apply Hup3, Hup|].
    destruct Hout as [->|[_ Hall]]; [by right|]. left. exists k. apply Hall. lia.
  - intros a pos Hpos. unfold holes in Hpos. rewrite Hh3 in Hpos. rewrite Hq3.
    destruct (Hh a pos Hpos). split; [by apply Hup3|done].
  - intros j Hj. rewrite Hlook. destruct (decide (j = k)); [by eexists|]. apply pg_ready0. lia.
  - intros j Hj. rewrite Hlook. destruct (decide (j = k)); [lia|]. apply pg_fresh0. lia.
Qed.

Lemma parse_lines_ok n ls k o p o' p' :
  (k + length ls <= n <= 255)%nat -> Forall line_ok ls -> parsing n k o p ->
  parse_lines o p ls = Some (o', p') -> parsing n (k + length ls) o' p'.
Proof.
  revert k o p. induction ls as [|l ls IH]; intros k o p Hn Hl Hp E; cbn in *.
  { injection E as <- <-. by rewrite Nat.add_0_r. }
  apply Forall_cons_1 in Hl as [Hl Hls].
  destruct (parse_step o p l) as [[o1 p1]|] eqn:E1; [|done].
  replace (k + S (length ls))%nat with (S k + length ls)%nat by lia. eapply IH; [lia|done| |done].
  eapply parse_step_ok; [|exact Hl|done|exact E1]. lia.
Qed.

(** A plan with [n] queries and the query that ends the transaction. *)
Record scheduled (n : nat) (p : TrxPlan) : Prop := {
  sd_len : length (query_plans p) = S n;
  sd_flags : is_abort p = false /\ is_end p = false /\ tp_results p = ∅;
  sd_edge a b : edge p a b -> (a < b <= n)%nat;
  sd_deps : deps_ok p (fun d => d <= n)%nat ∅;
  sd_out a : (a < n)%nat -> exists b, edge p a b;
  sd_holes a pos : pos ∈ holes p a ->
    edge p a (pos_query pos) /\ (pos_query pos < n)%nat /\ hole_ok (query_plans p) pos;
  sd_ready j : (j < n)%nat -> exists q, query_plans p !! j = Some q /\ experts q <> [];
  sd_commit : exists q, query_plans p !! n = Some q /\
    expert_type <$> experts q = [E_VALIDATION; E_POSTVALIDATION; E_TERMINATE];
}.

(** The plan that the parser makes of a transaction. *)
Lemma Parse_scheduled trxid ls p :
  (length ls <= 255)%nat -> Forall line_ok ls -> Parse (TrxPlan_new trxid) ls = Some p ->
  scheduled (length ls) p.
Proof.
  intros Hn Hl E. unfold Parse in E. cbn [TrxPlan_new query_plans app length] in E. rewrite Nat.sub_0_r in E.
  set (n := length ls) in *. set (p0 := set_plans _ _) in E.
  destruct (parse_lines _ p0 ls) as [[o p1]|] eqn:Ep; [|done]. cbn in E.
  assert (forall a b, ~ edge p0 a b) as He0.
  { intros a b. unfold edge, at_key, p0. cbn. rewrite lookup_empty. cbn. set_solver. }
  apply (parse_lines_ok n _ 0) in Ep; [|lia|done|].
  2: { split.
    - done.
    - cbn. by rewrite length_replicate.
    - done.
    - intros a b H. by destruct (He0 a b).
    - intros d. split; [lia|]. intros _. apply lookup_empty.
    - cbn. intros x src t. by rewrite lookup_empty.
    - cbn. lia.
    - lia.
    - intros a pos. unfold holes, at_key. cbn. rewrite lookup_empty. cbn. by intros ?%elem_of_nil.
    - lia.
    - intros j Hj. exists plan_default. split; [|done]. apply (lookup_replicate_2 (S n)). lia. }
  change (0 + length ls)%nat with n in Ep. destruct Ep. unfold AddCommitStatement in E. rewrite pg_line0, Nat2Z.id in E.
  destruct (pg_fresh0 n) as (plan & Epl & _); [lia|]. rewrite Epl in E. cbn in E. injection E as <-.
  destruct (first_dep_nat (ps_last_update o) n) as (f & -> & Hfk & Hfm); [lia|lia|].
  set (q := mk_plan _ _ _ _ _ _).
  set (p2 := set_deps _ _).
  destruct (depend_on_all_spec p2 f n (fun d => d <= n)%nat) as (Ho & He & (Hq & Hh & Ha & Hend & Hr & _)).
  { lia. } { done. } { intros a b Hab. apply (pg_edge0 a b) in Hab. lia. }
  { apply (deps_ok_next (set_plans p1 (<[n := q]> (query_plans p1))) n); [exact pg_edge0|exact pg_deps0]. }
  assert (forall a b, edge p2 a b <-> edge p1 a b) as He2 by done.
  assert (query_plans p2 = <[n := q]> (query_plans p1)) as Hq2 by done.
  split.
  - rewrite Hq, Hq2, length_insert. exact pg_len0.
  - rewrite Ha, Hend, Hr. exact pg_flags0.
  - intros a b [Hab%He2%pg_edge0|]%He; lia.
  - exact Ho.
  - intros a Han. destruct (pg_out0 a Han) as [[b Hb]|Hle]; [exists b; apply He; by left|].
    exists n. apply He. right. lia.
  - intros a pos Hpos. unfold holes in Hpos. rewrite Hh in Hpos. destruct (pg_holes0 a pos Hpos) as [Hed Hok].
    pose proof (pg_edge0 _ _ Hed). split_and!; [apply He; by left|lia|]. rewrite Hq, Hq2. apply hole_ok_other; [lia|done].
  - intros j Hj. rewrite Hq, Hq2, list_lookup_insert_ne by lia. by apply pg_ready0.
  - exists q. rewrite Hq, Hq2. split; [|done]. by apply list_lookup_insert_eq, lookup_lt_Some with plan.
Qed.

(** ** Filling place holders *)

(** Plans with the same experts whose parameters have only grown. *)
Definition expert_grows (e e' : Expert_Object) : Prop :=
  expert_type e' = expert_type e /\ (length (params e) <= length (params e'))%nat.
Definition plan_grows (q q' : QueryPlan) : Prop := Forall2 expert_grows (experts q) (experts q').
Definition plans_grow : list QueryPlan -> list QueryPlan -> Prop := Forall2 plan_grows.

#[global] Instance plan_grows_refl : Reflexive plan_grows.
Proof. intros q. unfold plan_grows. apply Forall_Forall2_diag, Forall_true. intros e. split; [done|lia]. Qed.
#[global] Instance plans_grow_po : PreOrder plans_grow.
Proof.
  split; [intros l; apply Forall_Forall2_diag, Forall_true; by intros|].
  intros l1 l2 l3. apply Forall2_trans. intros a b c. apply Forall2_trans.
  intros e1 e2 e3 [E1 H1] [E2 H2]. split; [congruence|lia].
Qed.

Lemma param_ok_grows e e' n : expert_grows e e' -> param_ok e n -> param_ok e' n.
Proof. intros [E H]. unfold param_ok. rewrite E. destruct (expert_type e); lia. Qed.

Lemma hole_ok_grows plans plans' pos : plans_grow plans plans' -> hole_ok plans pos -> hole_ok plans' pos.
Proof.
  intros Hg (plan & e & Ep & Ee & Hp).
  destruct (Forall2_lookup_l _ _ _ _ _ Hg Ep) as (plan' & Ep' & Hpl).
  destruct (Forall2_lookup_l _ _ _ _ _ Hpl Ee) as (e' & Ee' & He). exists plan', e'.
  split_and!; try done. by eapply param_ok_grows.
Qed.

Lemma write_grows plans i j plan e ps :
  plans !! i = Some plan -> experts plan !! j = Some e -> (length (params e) <= length ps)%nat ->
  plans_grow plans (<[i := set_experts plan (<[j := set_params e ps]> (experts plan))]> plans).
Proof.
  intros Ei Ej Hps. rewrite <- (list_insert_id plans i plan Ei) at 1. apply Forall2_insert; [reflexivity|].
  unfold plan_grows. cbn. rewrite <- (list_insert_id (experts plan) j e Ej) at 1.
  apply Forall2_insert; [|done]. apply Forall_Forall2_diag, Forall_true. intros x. split; [done|lia].
Qed.

Lemma fill_holes_ok plans vec ps :
  (forall pos, pos ∈ ps -> hole_ok plans pos) ->
  exists plans' ps' ok, fill_holes plans vec ps = Some (plans', ps', ok) /\ plans_grow plans plans' /\
    (forall i, i ∉ pos_query <$> ps -> plans' !! i = plans !! i).
Proof.
  revert plans. induction ps as [|pos ps IH]; intros plans Hok; cbn [fill_holes].
  { exists plans, [], true. done. }
  destruct (Hok pos) as (plan & e & Ep & Ee & Hp); [left|]. rewrite Ep. cbn. rewrite Ee. cbn.
  assert (forall plans', plans_grow plans plans' -> (forall i, i <> pos_query pos -> plans' !! i = plans !! i) ->
    exists plans2 ps' ok, (x ← fill_holes plans' vec ps; let '(a, b, c) := x in
      Some (a, mk_pos (pos_query pos) (pos_expert pos) (if pos_param pos =? -1 then Z.of_nat (length (params e)) else pos_param pos) :: b, c))
      = Some (plans2, ps', ok) /\ plans_grow plans plans2 /\
      (forall i, i ∉ pos_query <$> pos :: ps -> plans2 !! i = plans !! i)) as Hcont.
  { intros plans' Hg Hi. destruct (IH plans') as (plans2 & ps' & ok & -> & Hg2 & Hi2).
    { intros pos' Hpos'. eapply hole_ok_grows; [exact Hg|]. apply Hok. by right. }
    eexists _, _, _. split; [reflexivity|]. split; [by etransitivity|]. intros i Hni. cbn in Hni.
    rewrite Hi2, Hi; [done| |]; set_solver. }
  unfold param_ok in Hp. set (at_ := if pos_param pos =? -1 then _ else _) in *.
  destruct (expert_type e); try (apply Hcont; [reflexivity|done]).
  - assert (0 <= at_ <= Z.of_nat (length (params e))) as Hat by (subst at_; destruct (Z.eqb_spec (pos_param pos) (-1)); lia).
    rewrite (proj2 (Z.leb_le _ _)), (proj2 (Z.leb_le _ _)) by lia. cbn [andb].
    apply Hcont; [|by intros; apply list_lookup_insert_ne]. apply write_grows; [done..|].
    rewrite !length_app, length_take, length_drop. lia.
  - assert (0 <= at_ < Z.of_nat (length (params e))) as Hat by (subst at_; destruct (Z.eqb_spec (pos_param pos) (-1)); lia).
    destruct vec as [|r [|]]; [eexists _, _, _; split_and!; [done|done|done]| |eexists _, _, _; split_and!; [done|done|done]].
    rewrite (proj2 (Z.leb_le _ _)), (proj2 (Z.ltb_lt _ _)) by lia. cbn [andb].
    apply Hcont; [|by intros; apply list_lookup_insert_ne]. apply write_grows; [done..|]. by rewrite length_insert.
Qed.

(** ** Handing out queries *)

Lemma decrease_lookup deps l i :
  NoDup l -> decrease deps l !! i = if decide (i ∈ l) then Some (u8 (at_key 0 deps i - 1)) else deps !! i.
Proof.
  intros Hl. revert deps. induction Hl as [|x l Hx Hl IH]; intros deps; cbn.
  { by rewrite decide_False by (by intros ?%elem_of_nil). }
  fold (decrease (<[x := u8 (at_key 0 deps x - 1)]> deps) l). rewrite IH.
  destruct (decide (i = x)) as [->|Hne].
  - rewrite decide_False, decide_True by (done || left). by rewrite lookup_insert_eq.
  - unfold at_key. rewrite lookup_insert_ne by done.
    destruct (decide (i ∈ l)); [by rewrite decide_True by (by right)|].
    rewrite decide_False; [done|]. intros [|]%elem_of_cons; done.
Qed.

Lemma Forall2_impl_elem {A B} (P Q : A -> B -> Prop) l k :
  Forall2 P l k -> (forall x y, x ∈ l -> P x y -> Q x y) -> Forall2 Q l k.
Proof.
  induction 1 as [|x y l k Hxy _ IH]; intros H; constructor; [apply H; [left|done]|].
  apply IH. intros a b Ha. apply H. by right.
Qed.

(** The query that goes out at index [i]. *)
Definition sent_as (p : TrxPlan) (i : nat) (q : QueryPlan) : Prop :=
  exists plan, query_plans p !! i = Some plan /\
    q = mk_plan (Z.of_nat i) (experts plan) (is_process plan) (tp_type p) (tp_trxid p) (tp_st p).

(** Two plans that differ in their counters and the queries in [ks], which are
    moved out. *)
Definition moved_out (ks : list nat) (p p' : TrxPlan) : Prop :=
  (forall i, i ∈ ks -> deps_count p' !! i = None) /\
  (forall i, i ∉ ks -> deps_count p' !! i = deps_count p !! i /\ query_plans p' !! i = query_plans p !! i) /\
  length (query_plans p') = length (query_plans p) /\
  topo p' = topo p /\ place_holder p' = place_holder p /\ is_abort p' = is_abort p /\ is_end p' = is_end p /\
  tp_results p' = tp_results p /\ tp_type p' = tp_type p /\ tp_trxid p' = tp_trxid p /\ tp_st p' = tp_st p.

Lemma send_queries_ok p keys :
  NoDup keys -> (forall i, i ∈ keys -> deps_count p !! i = Some 0 -> (i < length (query_plans p))%nat) ->
  exists p' qs, send_queries p keys = Some (p', qs) /\
    let ks := filter (fun i => deps_count p !! i = Some 0) keys in
    Forall2 (sent_as p) ks qs /\ moved_out ks p p'.
Proof.
  intros Hk. revert p. induction Hk as [|i keys Hi Hk IH]; intros p Hlen; cbn [send_queries].
  { exists p, []. split; [done|]. split; [constructor|]. unfold moved_out. split_and!; try done.
    intros i Hi. by apply elem_of_nil in Hi. }
  rewrite filter_cons. destruct (decide (deps_count p !! i = Some 0)) as [E0|E0].
  2: { apply IH. intros j Hj. apply Hlen. by right. }
  unfold send_query. destruct (lookup_lt_is_Some_2 (query_plans p) i) as [plan Ep]; [apply Hlen; [left|done]|].
  rewrite Ep. cbn. set (q := mk_plan _ _ _ _ _ _). set (p1 := set_deps _ _).
  assert (forall j, j <> i -> deps_count p1 !! j = deps_count p !! j /\ query_plans p1 !! j = query_plans p !! j) as H1.
  { intros j Hj. cbn. by rewrite lookup_delete_ne, list_lookup_insert_ne by done. }
  destruct (IH p1) as (p' & qs & -> & Hqs & Hm).
  { intros j Hj. destruct (decide (j = i)) as [->|]; [done|]. rewrite (proj1 (H1 j ltac:(done))).
    intros E. cbn. rewrite length_insert. apply Hlen; [by right|done]. }
  cbn. exists p', (q :: qs). split; [done|].
  assert (filter (fun j => deps_count p1 !! j = Some 0) keys = filter (fun j => deps_count p !! j = Some 0) keys) as Ef.
  { apply filter_ext_elem. intros j Hj. by rewrite (proj1 (H1 j ltac:(by intros ->))). }
  rewrite Ef in *. split.
  - constructor; [by exists plan|]. eapply Forall2_impl_elem; [exact Hqs|].
    intros j q' [_ Hj]%list_elem_of_filter (pl & Epl & ->). exists pl. split; [|done].
    by rewrite (proj2 (H1 j ltac:(by intros ->))) in Epl.
  - destruct Hm as (Hd & Hk' & Hl & Hr). cbn in Hl. rewrite length_insert in Hl.
    split; [|split; [|by split]].
    + intros j [->|Hj]%elem_of_cons; [|by apply Hd].
      rewrite (proj1 (Hk' i ltac:(by intros [_ ?]%list_elem_of_filter))). cbn. by rewrite lookup_delete_eq.
    + intros j Hj. apply not_elem_of_cons in Hj as [Hji Hj]. destruct (Hk' j Hj) as [-> ->]. by apply H1.
Qed.

(** ** The life of a plan *)

(** The plan of a transaction with queries [0 .. n] of which those in [sent] are
    on their way or answered, and those in [ready] are answered. *)
Record running (n : nat) (p : TrxPlan) (sent : list nat) (ready : gset nat) : Prop := {
  rn_len : length (query_plans p) = S n;
  rn_edge a b : edge p a b -> (a < b <= n)%nat;
  rn_out a : (a < n)%nat -> exists b, edge p a b;
  rn_end : is_end p = false;
  rn_sent : NoDup sent /\ Forall (fun i => i <= n)%nat sent;
  rn_ready i : i ∈ ready -> i ∈ sent;
  rn_closed b : b ∈ sent -> (b < n)%nat \/ is_abort p = false -> forall a, edge p a b -> a ∈ ready;
  rn_live : is_abort p = false -> deps_ok p (fun d => (d <= n)%nat /\ d ∉ sent) ready;
  rn_abort : is_abort p = true ->
    (n ∈ sent /\ deps_count p = ∅) \/ ((n ∉ sent) /\ deps_count p = {[n := 0]});
  rn_holes a pos : a ∉ ready -> pos ∈ holes p a ->
    edge p a (pos_query pos) /\ (pos_query pos < n)%nat /\ hole_ok (query_plans p) pos;
  rn_first j : (j <= n)%nat -> j ∉ sent -> exists q, query_plans p !! j = Some q /\ experts q <> [];
  rn_commit : is_abort p = false -> n ∉ sent -> exists q, query_plans p !! n = Some q /\
    expert_type <$> experts q = [E_VALIDATION; E_POSTVALIDATION; E_TERMINATE];
}.

(** No query can be sent any more. *)
Definition settled (p : TrxPlan) : Prop := forall i, deps_count p !! i <> Some 0.

Lemma scheduled_running n p s : scheduled n p -> running n (SetST p s) [] ∅.
Proof.
  intros []. destruct sd_flags0 as (Ea & Ee & _). split; try done.
  - split; constructor.
  - intros b H. by apply elem_of_nil in H.
  - intros _ d. destruct (sd_deps0 d) as [H1 H2]. split.
    + intros [Hd _]. by apply H1.
    + intros Hd. apply H2. intros H. apply Hd. split; [done|]. apply not_elem_of_nil.
  - intros E. cbn in E. congruence.
  - intros a pos _. apply sd_holes0.
  - intros j Hj _. destruct (decide (j = n)) as [->|]; [|apply sd_ready0; lia].
    destruct sd_commit0 as (q & Eq & Et). exists q. split; [done|]. by intros E; rewrite E in Et.
Qed.

(** A counter at 0 belongs to a query that has not been sent and whose
    dependencies are answered, or to the abort. *)
Lemma running_zero n p sent ready i :
  running n p sent ready -> (n <= 255)%nat -> deps_count p !! i = Some 0 ->
  (i <= n)%nat /\ (i ∉ sent) /\ ((i < n)%nat \/ is_abort p = false -> forall a, edge p a i -> a ∈ ready).
Proof.
  intros [] Hn E. destruct (is_abort p) eqn:Ea.
  - destruct rn_abort0 as [[_ E']|[Hs E']]; [done|by rewrite E', lookup_empty in E|].
    rewrite E' in E. apply lookup_singleton_Some in E as [<- _]. split_and!; [lia|done|]. intros [|]; [lia|done].
  - destruct (rn_live0 eq_refl i) as [H1 H2].
    destruct (decide ((i <= n)%nat /\ i ∉ sent)) as [Hi|Hi]; [|rewrite H2 in E by done; done].
    rewrite H1 in E by done. injection E as E. split_and!; [apply Hi|apply Hi|].
    intros _. apply open_deps_nil; [intros a b Hab; apply rn_edge0 in Hab; lia|].
    apply nil_length_inv. lia.
Qed.

(** What [NextQueries] hands out, and the plan after it. *)
Lemma NextQueries_ok n p sent ready :
  (n <= 255)%nat -> running n p sent ready ->
  exists p' qs ks, NextQueries p = Some (p', Some qs) /\ Forall2 (sent_as p) ks qs /\
    running n p' (sent ++ ks) ready /\ settled p' /\ is_abort p' = is_abort p /\
    (forall a b, edge p' a b <-> edge p a b) /\ Forall (fun q => experts q <> []) qs.
Proof.
  intros Hn HR. unfold NextQueries. rewrite (rn_end _ _ _ _ HR).
  destruct (send_queries_ok p (seq 0 256)) as (p' & qs & -> & Hqs & Hm).
  { apply NoDup_seq. } { intros i _ E. apply (running_zero _ _ _ _ _ HR Hn) in E as [Hi _].
    rewrite (rn_len _ _ _ _ HR). lia. }
  cbn. exists p', qs. set (ks := filter _ _) in *. exists ks.
  assert (forall i, i ∈ ks <-> deps_count p !! i = Some 0) as Hks.
  { intros i. unfold ks. rewrite list_elem_of_filter, elem_of_seq. split; [tauto|]. intros E. split; [done|].
    apply (running_zero _ _ _ _ _ HR Hn) in E. lia. }
  assert (NoDup ks) as Hnd by apply NoDup_filter, NoDup_seq.
  pose proof (fun i E => running_zero _ _ _ _ i HR Hn E) as Hz.
  destruct HR, Hm as (Hd & Hk & Hl & Ht & Hh & Hab & Hend & _).
  assert (forall a b, edge p' a b <-> edge p a b) as He by (intros; unfold edge; by rewrite Ht).
  assert (forall r d, open_deps p' r d = open_deps p r d) as Hop.
  { intros. apply open_deps_ext. intros. by rewrite He. }
  split_and!; try done.
  - split.
    + by rewrite Hl.
    + intros a b Hab'. by apply rn_edge0, He.
    + intros a Ha. destruct (rn_out0 a Ha) as [b Hb]. exists b. by apply He.
    + by rewrite Hend.
    + destruct rn_sent0 as [Hs1 Hs2]. split.
      * apply NoDup_app. split_and!; [done| |done]. intros i Hi Hik%Hks. by apply Hz in Hik as (_ & ? & _).
      * apply Forall_app_2; [done|]. apply Forall_forall. intros i Hi%Hks. by apply Hz in Hi as [? _].
    + intros i Hi. apply elem_of_app. left. by apply rn_ready0.
    + rewrite Hab. intros b [Hb|Hb%Hks]%elem_of_app Hor a Hea%He; [by eapply rn_closed0|].
      apply Hz in Hb as (_ & _ & Hall). by apply Hall.
    + rewrite Hab. intros Ha d. rewrite Hop. destruct (rn_live0 Ha d) as [H1 H2]. split.
      * intros [Hdn Hds]. apply not_elem_of_app in Hds as [Hds Hdk]. destruct (Hk d Hdk) as [-> _]. by apply H1.
      * intros Hnd'. destruct (decide (d ∈ ks)) as [Hdk|Hdk]; [by apply Hd|]. destruct (Hk d Hdk) as [-> _].
        apply H2. intros [? ?]. apply Hnd'. split; [done|]. by apply not_elem_of_app.
    + rewrite Hab. intros Ha. left. destruct (rn_abort0 Ha) as [[Hs E]|[Hs E]].
      * split; [apply elem_of_app; by left|]. apply map_eq. intros i. destruct (Hk i) as [-> _]; [|by rewrite E].
        rewrite Hks, E. by rewrite lookup_empty.
      * split; [apply elem_of_app; right; apply Hks; rewrite E; by rewrite lookup_singleton_eq|].
        apply map_eq. intros i. rewrite lookup_empty. destruct (decide (i = n)) as [->|Hi].
        { apply Hd, Hks. rewrite E. by rewrite lookup_singleton_eq. }
        assert (deps_count p !! i = None) as Ei by (rewrite E; by apply lookup_singleton_ne).
        destruct (Hk i) as [-> _]; [|done]. rewrite Hks. congruence.
    + intros a pos Ha Hpos. unfold holes in Hpos. rewrite Hh in Hpos.
      destruct (rn_holes0 a pos Ha Hpos) as (H1 & H2 & (plan & e & Ep & Hrest)). rewrite He. split_and!; [done|done|].
      exists plan, e. split; [|done]. destruct (Hk (pos_query pos)) as [_ ->]; [|done].
      intros Hin%Hks. apply Hz in Hin as (_ & _ & Hall). apply Ha, Hall; [by left|done].
    + intros j Hj Hjs. apply not_elem_of_app in Hjs as [Hjs Hjk]. destruct (Hk j Hjk) as [_ ->]. by apply rn_first0.
    + rewrite Hab. intros Ha Hns. apply not_elem_of_app in Hns as [Hns Hnk]. destruct (Hk n Hnk) as [_ ->]. by apply rn_commit0.
  - intros i E. destruct (decide (i ∈ ks)) as [Hi|Hi]; [by rewrite Hd in E|].
    destruct (Hk i Hi) as [E' _]. rewrite E' in E. by apply Hi, Hks.
  - apply Forall_forall. intros q Hq. apply list_elem_of_lookup in Hq as [i Hi].
    destruct (Forall2_lookup_r _ _ _ _ _ Hqs Hi) as (k & Hik & (plan & Epl & ->)). cbn.
    apply list_elem_of_lookup_2, Hks, Hz in Hik as (Hkn & Hks' & _).
    destruct (rn_first0 k Hkn Hks') as (q & Eq & Hne). congruence.
Qed.

Lemma running_same n p p' sent ready :
  running n p sent ready -> (forall a b, edge p' a b <-> edge p a b) ->
  query_plans p' = query_plans p -> place_holder p' = place_holder p -> is_abort p' = is_abort p ->
  is_end p' = is_end p -> deps_count p' = deps_count p -> running n p' sent ready.
Proof.
  intros [] He Eq Eh Ea En Ed. unfold holes in *.
  split; rewrite ?Eq, ?En, ?Ea, ?Ed; unfold holes; rewrite ?Eh; try done.
  - intros a b. rewrite He. apply rn_edge0.
  - intros a Ha. destruct (rn_out0 a Ha) as [b Hb]. exists b. by apply He.
  - intros b Hb Hor a. rewrite He. by apply rn_closed0.
  - intros Ha d. rewrite (open_deps_ext p' p ready ready), Ed; [by apply rn_live0|]. intros x. by rewrite He.
  - intros a pos Ha Hp. rewrite He. by apply rn_holes0.
Qed.

(** The query that ends the transaction goes out after all others have been
    answered. *)
Lemma commit_last n p sent ready a :
  running n p sent ready -> is_abort p = false -> n ∈ sent -> (a < n)%nat -> a ∈ ready.
Proof.
  intros HR Hab Hn. remember (n - a)%nat as m eqn:Em. revert a Em.
  induction m as [m IH] using lt_wf_ind. intros a -> Ha.
  destruct (rn_out _ _ _ _ HR a Ha) as [b Hb]. pose proof (rn_edge _ _ _ _ HR a b Hb).
  eapply (rn_closed _ _ _ _ HR b); [|by right|done].
  destruct (decide (b = n)) as [->|]; [done|]. apply (rn_ready _ _ _ _ HR). eapply IH; [|done|]; lia.
Qed.

Lemma Abort_ok n p sent ready :
  (n <= 255)%nat -> running n p sent ready -> is_abort p = true \/ n ∉ sent ->
  exists p', Abort p = Some p' /\ running n p' sent ready /\ is_abort p' = true /\
    (forall a b, edge p' a b <-> edge p a b).
Proof.
  intros Hn HR Hor. unfold Abort. destruct (is_abort p) eqn:Ea; [by exists p|].
  destruct Hor as [|Hs]; [done|]. destruct HR. rewrite rn_len0. replace (S n - 1)%nat with n by lia.
  destruct (rn_commit0 Ea Hs) as (q & Eq & Et). rewrite Eq. cbn [mbind option_bind].
  apply (f_equal length) in Et as El. rewrite length_fmap in El. cbn in El.
  rewrite (proj2 (Nat.leb_le _ _)) by lia. eexists. split; [reflexivity|]. split; [|done].
  assert (Z.to_nat (u8 (Z.of_nat n)) = n) as -> by (unfold wrap; rewrite Z.mod_small; lia).
  split; cbn; try done.
  - by rewrite length_insert.
  - intros b Hb [?|?]; [|done]. apply rn_closed0; [done|by left].
  - intros _. by right.
  - intros a pos Ha Hpos. destruct (rn_holes0 a pos Ha Hpos) as (? & ? & ?). split_and!; try done.
    apply hole_ok_other; [lia|done].
  - intros j Hj Hjs. destruct (decide (j = n)) as [->|].
    + eexists. split; [by apply list_lookup_insert_eq, lookup_lt_Some with q|]. cbn.
      destruct (experts q) as [|? [|? [|? ?]]]; cbn in *; congruence.
    + rewrite list_lookup_insert_ne by done. by apply rn_first0.
Qed.

(** The plan after the place holders have been filled and the counters of the
    children have been decreased. *)
Definition filled (p : TrxPlan) (a : nat) (plans : list QueryPlan) (ps : list position_t) : TrxPlan :=
  set_deps (set_holes (set_plans p plans) (<[a := ps]> (place_holder p)))
    (if is_abort p then deps_count p else decrease (deps_count p) (elements (at_key ∅ (topo p) a))).

Lemma filled_live n p sent ready a plans ps :
  (n <= 255)%nat -> running n p sent ready -> a ∈ sent -> a ∉ ready -> is_abort p = false ->
  deps_ok (filled p a plans ps) (fun d => (d <= n)%nat /\ d ∉ sent) ({[a]} ∪ ready).
Proof.
  intros Hn HR Hs Hr Ha d. destruct HR.
  assert (forall x y, edge (filled p a plans ps) x y <-> edge p x y) as He by done.
  assert (forward p) as Hf by (intros x y H; apply rn_edge0 in H; lia).
  cbn. rewrite Ha, decrease_lookup by apply NoDup_elements.
  destruct (rn_live0 Ha d) as [H1 H2]. destruct (decide _) as [Hed|Hed]; rewrite elem_of_elements in Hed; fold (edge p a d) in Hed.
  - assert ((d <= n)%nat /\ d ∉ sent) as Hd.
    { split; [by apply rn_edge0 in Hed as [_ ?]|]. intros Hds. apply Hr. by eapply (rn_closed0 d); [|right|]. }
    split; [intros _|tauto]. f_equal. unfold at_key. rewrite H1 by done. cbn.
    rewrite (open_deps_one (filled p a plans ps) p ({[a]} ∪ ready) ready a d).
    + pose proof (open_deps_bound p ready d Hf).
      pose proof (open_deps_bound (filled p a plans ps) ({[a]} ∪ ready) d Hf).
      unfold wrap. rewrite Z.mod_small; lia.
    + apply rn_edge0 in Hed. lia.
    + set_solver.
    + done.
    + intros x Hx. rewrite He. set_solver.
  - rewrite (open_deps_ext (filled p a plans ps) p ({[a]} ∪ ready) ready); [done|].
    intros x. rewrite He. destruct (decide (x = a)) as [->|]; [tauto|]. set_solver.
Qed.

Lemma filled_running n p sent ready a plans ps :
  (n <= 255)%nat -> running n p sent ready -> a ∈ sent -> a ∉ ready ->
  plans_grow (query_plans p) plans ->
  running n (filled p a plans ps) sent ({[a]} ∪ ready).
Proof.
  intros Hn HR Hs Hr Hg. pose proof (filled_live n p sent ready a plans ps Hn HR Hs Hr) as Hlive.
  assert (forall i q, query_plans p !! i = Some q -> exists q', plans !! i = Some q' /\
    expert_type <$> experts q' = expert_type <$> experts q) as Hty.
  { intros i q Eq. destruct (Forall2_lookup_l _ _ _ _ _ Hg Eq) as (q' & Eq' & Hq). exists q'. split; [done|].
    unfold plan_grows in Hq. induction Hq as [|e e' l l' [Et _] _ IH]; [done|]. cbn. by rewrite Et, IH. }
  destruct HR. split; try done; cbn.
  - rewrite <- (Forall2_length _ _ _ Hg). done.
  - intros i [->%elem_of_singleton|Hi]%elem_of_union; [done|by apply rn_ready0].
  - intros b Hb Hor x Hx. apply elem_of_union. right. by eapply rn_closed0.
  - intros Ha. rewrite Ha. by apply rn_abort0.
  - intros x pos Hx Hpos. assert (x <> a /\ x ∉ ready) as [Hxa Hxr] by set_solver.
    unfold holes, at_key in Hpos. cbn in Hpos. rewrite lookup_insert_ne in Hpos by done.
    destruct (rn_holes0 x pos Hxr Hpos) as (? & ? & ?). split_and!; try done. by eapply hole_ok_grows.
  - intros j Hj Hjs. destruct (rn_first0 j Hj Hjs) as (q & Eq & Hne). destruct (Hty j q Eq) as (q' & Eq' & Et).
    exists q'. split; [done|]. destruct (experts q), (experts q'); done.
  - intros Ha Hns. destruct (rn_commit0 Ha Hns) as (q & Eq & Et). destruct (Hty n q Eq) as (q' & Eq' & Et').
    exists q'. split; [done|]. congruence.
Qed.

(** The result of the last query is a status that can be printed, and it is
    not an abort of a step. *)
Definition reply_ok (n a : nat) (kind : ReplyType) (vec : list value_t) : Prop :=
  a = n -> kind = RESULT_NORMAL /\ exists v vec', vec = v :: vec' /\ is_Some (DebugString v).

Lemma is_last_nat p n a :
  length (query_plans p) = S n -> (n <= 255)%nat -> (a <= 255)%nat ->
  is_last p (Z.of_nat a) = bool_decide (a = n).
Proof.
  intros El Hn Ha. unfold is_last, wrap. rewrite El, !Z.mod_small by lia.
  destruct (decide (a = n)); [rewrite bool_decide_true by done; apply Z.eqb_eq|rewrite bool_decide_false by done; apply Z.eqb_neq]; lia.
Qed.

Lemma keep_results_ok n p a vec :
  length (query_plans p) = S n -> (n <= 255)%nat -> (a <= n)%nat ->
  (a = n -> exists v vec', vec = v :: vec' /\ is_Some (DebugString v)) ->
  exists r, keep_results p (Z.of_nat a) vec =
    Some (if decide (a = n) then set_ended (set_results p r) else set_results p r).
Proof.
  intros El Hn Ha Hv. unfold keep_results. rewrite (proj2 (Z.eqb_neq _ _)) by lia. cbn [negb andb].
  assert (exists h, result_header p (Z.of_nat a) vec = Some h) as [h Eh].
  { unfold result_header. rewrite (is_last_nat p n a) by (done || lia).
    destruct (decide (a = n)) as [->|].
    - rewrite bool_decide_true by done. destruct (Hv eq_refl) as (v & vec' & -> & [s Es]). cbn [head hd_error mbind option_bind]. rewrite Es. by eexists.
    - rewrite bool_decide_false by done. by eexists. }
  rewrite Eh. cbn [mbind option_bind].
  assert (forall q, query_plans q = query_plans p -> is_last q (Z.of_nat a) = bool_decide (a = n)) as Hlast.
  { intros q E. apply is_last_nat; [congruence|lia|lia]. }
  destruct (bool_decide (tp_results p !! Z.of_nat a = None)); cbn [mbind option_bind orb];
    repeat rewrite Hlast by (repeat case_match; done);
    destruct (decide (a = n)) as [->|];
    rewrite ?bool_decide_true, ?bool_decide_false by done; cbn [negb orb].
  - eexists. reflexivity.
  - destruct (0 <? length vec)%nat; by eexists.
  - exists (tp_results p). by destruct p.
  - destruct (0 <? length vec)%nat; [by eexists|]. exists (tp_results p). by destruct p.
Qed.

Lemma FillResult_ok n p sent ready a vec :
  (n <= 255)%nat -> running n p sent ready -> a ∈ sent -> a ∉ ready ->
  (a = n -> exists v vec', vec = v :: vec' /\ is_Some (DebugString v)) ->
  exists p' ok, FillResult p (Z.of_nat a) vec = Some (p', ok) /\
    if decide (a = n) then is_end p' = true /\ ok = true
    else running n p' sent ({[a]} ∪ ready) /\ (forall x y, edge p' x y <-> edge p x y) /\
      (is_abort p = true -> is_abort p' = true).
Proof.
  intros Hn HR Hs Hr Hv. unfold FillResult.
  assert (a <= n)%nat as Han by (destruct (rn_sent _ _ _ _ HR) as [_ Hall]; rewrite Forall_forall in Hall; by apply Hall).
  assert (Z.to_nat (u8 (Z.of_nat a)) = a) as -> by (unfold wrap; rewrite Z.mod_small; lia).
  fold (holes p a).
  destruct (fill_holes_ok (query_plans p) vec (holes p a)) as (plans & ps & ok & Ef & Hg & _).
  { intros pos Hpos. by apply (rn_holes _ _ _ _ HR a pos). }
  rewrite Ef. cbn [mbind option_bind].
  pose proof (filled_running n p sent ready a plans ps Hn HR Hs Hr Hg) as HF.
  assert (a = n -> ok = true) as Hok.
  { intros ->. destruct (holes p n) as [|pos l] eqn:Eh; [cbn in Ef; congruence|].
    destruct (rn_holes _ _ _ _ HR n pos Hr) as (He & _); [rewrite Eh; left|]. apply (rn_edge _ _ _ _ HR) in He. lia. }
  destruct ok; cbn [negb].
  - set (p1 := set_holes _ _).
    set (p2 := if is_abort p1 then p1 else _).
    assert (length (query_plans p2) = S n) as El.
    { rewrite <- (rn_len _ _ _ _ HF). subst p2 p1. destruct (is_abort _); done. }
    destruct (keep_results_ok n p2 a vec El Hn Han Hv) as [r ->]. eexists _, true. split; [reflexivity|].
    destruct (decide (a = n)) as [->|Hne]; [done|].
    assert (forall x y, edge p2 x y <-> edge p x y) as He.
    { intros x y. subst p2 p1. cbn [is_abort set_holes set_plans]. destruct (is_abort p); [done|].
      unfold edge at 1, at_key. cbn. destruct (decide (x = a)) as [->|]; [by rewrite lookup_insert_eq|by rewrite lookup_insert_ne]. }
    split; [|split; [exact He|]].
    + eapply running_same; [exact HF|exact He|..]; subst p2 p1; cbn; destruct (is_abort p) eqn:Ea; cbn; congruence.
    + intros Ea. subst p2 p1. cbn. by rewrite Ea.
  - destruct (decide (a = n)) as [->|Hne]; [by specialize (Hok eq_refl)|]. set (p1 := set_holes _ _).
    destruct (Abort_ok n (filled p a plans ps) sent ({[a]} ∪ ready)) as (p' & EA & HR' & Ha' & He'); [done|done| |].
    { destruct (is_abort p) eqn:Ea; [by left|]. right. intros Hns. apply Hr. eapply commit_last; [exact HR|done|done|lia]. }
    assert (Abort p1 = Some p' \/ is_abort p = true /\ Abort p1 = Some p1 /\ p' = filled p a plans ps) as HA.
    { unfold Abort in *. subst p1. cbn [is_abort set_holes set_plans filled set_deps query_plans] in *.
      destruct (is_abort p) eqn:Ea; [right; split_and!; [done|done|congruence]|]. left. exact EA. }
    destruct HA as [->|(Ea & -> & ->)].
    + eexists _, false. split; [reflexivity|]. split; [done|]. split; [|done]. intros x y. by rewrite He'.
    + eexists _, false. split; [reflexivity|]. split; [|done].
      eapply running_same; [exact HF|done..|]. cbn. by rewrite Ea.
Qed.

Definition indices (qs : list QueryPlan) : list nat := (fun q => Z.to_nat (query_index q)) <$> qs.

Lemma sent_indices p ks qs : Forall2 (sent_as p) ks qs -> indices qs = ks.
Proof.
  unfold indices. induction 1 as [|k q ks qs (plan & _ & ->) _ IH]; [done|]. cbn. by rewrite Nat2Z.id, IH.
Qed.

(** A result is received: the transaction is over after the result of the last
    query, and otherwise the plan hands out what has become ready. *)
Lemma receive_ok n p sent ready a kind vec :
  (n <= 255)%nat -> running n p sent ready -> a ∈ sent -> a ∉ ready -> reply_ok n a kind vec ->
  exists p' aborts r, receive p kind (Z.of_nat a) vec = Some (p', aborts, r) /\
    if decide (a = n) then r = None
    else exists qs, r = Some qs /\ running n p' (sent ++ indices qs) ({[a]} ∪ ready) /\ settled p' /\
      (forall x y, edge p' x y <-> edge p x y).
Proof.
  intros Hn HR Hs Hr Hk. unfold receive.
  destruct (FillResult_ok n p sent ready a vec Hn HR Hs Hr) as (p1 & ok & -> & HF).
  { intros E. by apply Hk in E as [_ ?]. }
  cbn [mbind option_bind]. destruct (decide (a = n)) as [->|Hne].
  - destruct HF as [He _]. destruct (Hk eq_refl) as [-> _]. cbn [mbind option_bind]. unfold NextQueries. rewrite He. eexists _, _, _. done.
  - destruct HF as (HR1 & He1 & Ha1).
    assert (forall p2 (b : bool), running n p2 sent ({[a]} ∪ ready) -> (forall x y, edge p2 x y <-> edge p x y) ->
      exists p' aborts r, ('(p', qs) ← NextQueries p2; Some (p', b, qs)) = Some (p', aborts, r) /\
        exists qs, r = Some qs /\ running n p' (sent ++ indices qs) ({[a]} ∪ ready) /\ settled p' /\
          (forall x y, edge p' x y <-> edge p x y)) as Hnext.
    { intros p2 b HR2 He2. destruct (NextQueries_ok n p2 sent _ Hn HR2) as (p' & qs & ks & -> & Hq & HR' & Hset & _ & He' & _).
      eexists _, _, _. split; [reflexivity|]. exists qs. split; [done|]. rewrite (sent_indices _ _ _ Hq).
      split_and!; [done|done|]. intros x y. by rewrite He'. }
    destruct kind; [by apply Hnext|].
    destruct (Abort_ok n p1 sent ({[a]} ∪ ready) Hn HR1) as (p2 & -> & HR2 & _ & He2).
    { destruct (is_abort p) eqn:Ea; [left; by apply Ha1|]. right. intros Hns. apply Hr.
      eapply commit_last; [exact HR|done|done|]. destruct (rn_sent _ _ _ _ HR) as [_ Hall].
      rewrite Forall_forall in Hall. specialize (Hall a Hs). lia. }
    cbn [mbind option_bind]. apply Hnext; [done|]. intros x y. by rewrite He2.
Qed.

(** The states of the loop of the worker: the plan, the queries that have been
    sent in that order, and those that have been answered. *)
Inductive in_progress (n : nat) (p0 : TrxPlan) : TrxPlan -> list nat -> gset nat -> Prop :=
  | ip_start p qs :
      NextQueries p0 = Some (p, Some qs) -> in_progress n p0 p (indices qs) ∅
  | ip_reply p sent ready a kind vec p' aborts qs :
      in_progress n p0 p sent ready -> a ∈ sent -> a ∉ ready -> reply_ok n a kind vec ->
      receive p kind (Z.of_nat a) vec = Some (p', aborts, Some qs) ->
      in_progress n p0 p' (sent ++ indices qs) ({[a]} ∪ ready).

Lemma in_progress_running n p0 p sent ready :
  (n <= 255)%nat -> running n p0 [] ∅ -> in_progress n p0 p sent ready ->
  running n p sent ready /\ settled p /\ (forall x y, edge p x y <-> edge p0 x y) /\ n ∉ ready.
Proof.
  intros Hn HR. induction 1 as [p qs E|p sent ready a kind vec p' aborts qs _ IH Hs Hr Hk E].
  - destruct (NextQueries_ok n p0 [] ∅ Hn HR) as (p' & qs' & ks & E' & Hq & HR' & Hset & _ & He & _).
    rewrite E' in E. injection E as -> ->. rewrite (sent_indices _ _ _ Hq). split_and!; [done..|set_solver].
  - destruct (IH) as (HR' & _ & He & Hnr).
    destruct (receive_ok n p sent ready a kind vec Hn HR' Hs Hr Hk) as (p2 & ab & r & E2 & H).
    rewrite E2 in E. injection E as -> -> ->. destruct (decide (a = n)) as [->|Hne]; [done|].
    destruct H as (qs' & [= <-] & HR2 & Hset & He2). split_and!; [done|done| |set_solver].
    intros x y. by rewrite He2.
Qed.

Lemma first_missing (ready : gset nat) m :
  (forall a, (a < m)%nat -> a ∈ ready) \/
  exists d, (d < m)%nat /\ (d ∉ ready) /\ forall a, (a < d)%nat -> a ∈ ready.
Proof.
  induction m as [|m [IH|(d & ? & ? & ?)]]; [left; lia| |right; exists d; split_and!; [lia|done|done]].
  destruct (decide (m ∈ ready)) as [Hm|Hm].
  - left. intros a Ha. destruct (decide (a = m)) as [->|]; [done|]. apply IH. lia.
  - right. exists m. split_and!; [lia|done|done].
Qed.

Lemma some_in_flight n p sent ready :
  (n <= 255)%nat -> running n p sent ready -> settled p -> n ∉ ready -> exists a, a ∈ sent /\ a ∉ ready.
Proof.
  intros Hn HR Hset Hnr. destruct (is_abort p) eqn:Ea.
  - exists n. split; [|done]. destruct (rn_abort _ _ _ _ HR Ea) as [[? _]|[_ E]]; [done|].
    destruct (Hset n). rewrite E. apply lookup_singleton_eq.
  - destruct (first_missing ready (S n)) as [Hall|(d & Hd & Hdr & Hall)]; [by destruct Hnr; apply Hall; lia|].
    exists d. split; [|done]. destruct (decide (d ∈ sent)) as [|Hds]; [done|]. exfalso.
    destruct (rn_live _ _ _ _ HR Ea d) as [E _]. apply (Hset d). rewrite E by (split; [lia|done]).
    assert (open_deps p ready d = []) as ->; [|done]. apply open_deps_nil.
    + intros x y H. apply (rn_edge _ _ _ _ HR) in H. lia.
    + intros a H. apply Hall. apply (rn_edge _ _ _ _ HR) in H. lia.
Qed.


(** Two queries, the second over the result [x] of the first. *)
Definition ex_lines : list parsed_line :=
  let init := mk_expert E_INIT 0 1 false [int2value_t 0 value_default; int2value_t 1 value_default] in
  [mk_line [init] [] true 0 (Some (str "x", IO_VERTEX));
   mk_line [init] [mk_use (str "x") 0 2 IO_VERTEX] false TRX_UPDATE None].
Definition ex_plan : TrxPlan := default (TrxPlan_new 0) (Parse (TrxPlan_new 256) ex_lines).
Definition ex_start : TrxPlan := default (TrxPlan_new 0) (fst <$> NextQueries (SetST ex_plan 7)).
Definition ex_result : list value_t := [int2value_t 42 value_default].
Definition ex_next : TrxPlan :=
  default (TrxPlan_new 0) ((fun r => r.1.1) <$> receive ex_start RESULT_NORMAL 0 ex_result).

