(* ===== verification/TrxStatus.v ===== *)
(** * core/common.hpp, core/transaction_status_table: the transaction table

    The table that every worker keeps for the transactions it coordinates:
    buckets of 8 slots, the last slot of a bucket holding in its [trx_id] the
    index of the overflow bucket that continues the chain.  [None] is a failed
    [CHECK] or an access outside of [table_].  Slots and buckets are indices
    ([nat]) into the table, transaction ids and timestamps are words ([Z]).

    The first part is the state machine of one slot ([TidStatus]); the second
    the chained table, shown to implement a finite map from transaction ids to
    slots; the third the garbage collection lists. *)
From S2P Require Import Prelude MyMath Types.
Local Open Scope Z_scope.

(** [IS_VALID_TRX_ID] (core/common.hpp:21-21). *)
Definition IS_VALID_TRX_ID (trx_id : Z) : bool := negb (Z.land trx_id TRX_ID_MASK =? 0).

(** ** One slot *)

(** [TidStatus] (core/common.hpp:32-40). *)
Record TidStatus := mk_tid {
  trx_id : Z; tP : bool; tV : bool; tC : bool; tA : bool;
  occupied : bool; erased : bool; ct : Z;
}.

(** The zeroed memory of the table. *)
Definition blank : TidStatus := mk_tid 0 false false false false false false 0.

(** [TidStatus::enterProcessState] (core/common.hpp:43-53). *)
Definition enterProcessState (e : TidStatus) (t : Z) : option TidStatus :=
  if negb (occupied e) || erased e
  then Some (mk_tid t true false false false true false 0) else None.
(** [TidStatus::enterValidationState] (core/common.hpp:56-59). *)
Definition enterValidationState (e : TidStatus) : option TidStatus :=
  if tP e && negb (tV e) && negb (tC e) && negb (tA e) && occupied e
  then Some (mk_tid (trx_id e) (tP e) true (tC e) (tA e) (occupied e) (erased e) (ct e)) else None.
(** [TidStatus::enterAbortState] (core/common.hpp:62-65). *)
Definition enterAbortState (e : TidStatus) : option TidStatus :=
  if tP e && negb (tC e) && occupied e
  then Some (mk_tid (trx_id e) (tP e) (tV e) (tC e) true (occupied e) (erased e) (ct e)) else None.
(** [TidStatus::enterCommitState] (core/common.hpp:68-71). *)
Definition enterCommitState (e : TidStatus) : option TidStatus :=
  if tP e && tV e && negb (tC e) && negb (tA e) && occupied e
  then Some (mk_tid (trx_id e) (tP e) (tV e) true (tA e) (occupied e) (erased e) (ct e)) else None.
(** [TidStatus::enterCommitTime] (core/common.hpp:73-76). *)
Definition enterCommitTime (e : TidStatus) (ct_ : Z) : option TidStatus :=
  if tP e && negb (tV e) && negb (tC e) && negb (tA e) && occupied e
  then Some (mk_tid (trx_id e) (tP e) (tV e) (tC e) (tA e) (occupied e) (erased e) ct_) else None.
(** [TidStatus::markErased] (core/common.hpp:78-80). *)
Definition markErased (e : TidStatus) : TidStatus :=
  mk_tid (trx_id e) (tP e) (tV e) (tC e) (tA e) (occupied e) true (ct e).
(** [TidStatus::getState] (core/common.hpp:82-88); control that reaches the
    end of the function has no result. *)
Definition getState (e : TidStatus) : option TRX_STAT :=
  if tA e && tC e then None
  else if tA e then Some ABORT
  else if tC e then Some COMMITTED
  else if tV e then Some VALIDATING
  else if tP e then Some PROCESSING
  else None.
(** [TidStatus::getCT] (core/common.hpp:90-93). *)
Definition getCT (e : TidStatus) : option Z :=
  if tP e && tV e && occupied e then Some (ct e) else None.
(** [TidStatus::isEmpty] (core/common.hpp:95-97). *)
Definition isEmpty (e : TidStatus) : bool := negb (occupied e).
(** [TidStatus::isErased] (core/common.hpp:99-101). *)
Definition isErased (e : TidStatus) : bool := erased e.

(** The calls on a slot, as a step relation. *)
Inductive tid_step : TidStatus -> TidStatus -> Prop :=
  | step_process e t e' : enterProcessState e t = Some e' -> tid_step e e'
  | step_validate e e' : enterValidationState e = Some e' -> tid_step e e'
  | step_abort e e' : enterAbortState e = Some e' -> tid_step e e'
  | step_commit e e' : enterCommitState e = Some e' -> tid_step e e'
  | step_ct e c e' : enterCommitTime e c = Some e' -> tid_step e e'
  | step_erase e : tid_step e (markErased e).

(** ** The table *)

(** [TransactionStatusTable::ASSOCIATIVITY_] (core/transaction_status_table.hpp:81-81). *)
Definition ASSOCIATIVITY : nat := 8.

(** [TransactionStatusTable] (core/transaction_status_table.hpp:77-96); the
    garbage collection lists hold timestamps and slot pointers. *)
Record TrxTable := mk_table {
  table : list TidStatus;
  main_buckets : nat;
  indirect_buckets : nat;
  last_ext : nat;
  ro_trxs : list (Z * option nat);
  nro_trxs : list (Z * option nat);
}.

Definition num_slots (st : TrxTable) : nat :=
  ASSOCIATIVITY * (main_buckets st + indirect_buckets st).
Definition with_table (st : TrxTable) (t : list TidStatus) : TrxTable :=
  mk_table t (main_buckets st) (indirect_buckets st) (last_ext st) (ro_trxs st) (nro_trxs st).

(** [TransactionStatusTable::TransactionStatusTable] (core/transaction_status_table.cpp:23-36),
    on a zeroed buffer. *)
Definition table_init (main indirect : nat) : TrxTable :=
  mk_table (replicate (ASSOCIATIVITY * (main + indirect)) blank) main indirect 0 [] [].

(** [TrxIDHash] (core/transaction_status_table.cpp:17-21). *)
Definition TrxIDHash (t : Z) : Z := Z.shiftr t QID_BITS.

Definition home_bucket (st : TrxTable) (t : Z) : nat :=
  Z.to_nat (TrxIDHash t mod Z.of_nat (main_buckets st)).

(** The inner loop of [find_trx] over the first slots of a bucket
    (core/transaction_status_table.cpp:77-84). *)
Fixpoint slot_find (tbl : list TidStatus) (s n : nat) (t : Z) : option (option nat) :=
  match n with
  | O => Some None
  | S k => e ← tbl !! s; if trx_id e =? t then Some (Some s) else slot_find tbl (S s) k t
  end.

(** The outer loop of [find_trx] (core/transaction_status_table.cpp:76-94); the
    fuel bounds the number of buckets of a chain. *)
Fixpoint find_from (tbl : list TidStatus) (fuel b : nat) (t : Z) : option (option nat) :=
  match fuel with
  | O => None
  | S f =>
      r ← slot_find tbl (b * ASSOCIATIVITY) (ASSOCIATIVITY - 1) t;
      match r with
      | Some s => Some (Some s)
      | None =>
          e ← tbl !! (b * ASSOCIATIVITY + (ASSOCIATIVITY - 1))%nat;
          if trx_id e =? 0 then Some None else find_from tbl f (Z.to_nat (trx_id e)) t
      end
  end.

(** [TransactionStatusTable::find_trx] (core/transaction_status_table.cpp:71-97):
    the slot of the transaction, if it has one. *)
Definition find_trx (st : TrxTable) (t : Z) : option (option nat) :=
  if IS_VALID_TRX_ID t
  then find_from (table st) (S (main_buckets st + indirect_buckets st)) (home_bucket st t) t
  else None.

(** [TransactionStatusTable::query_ct] (core/transaction_status_table.cpp:38-47). *)
Definition query_ct (st : TrxTable) (t : Z) : option (option Z) :=
  r ← find_trx st t;
  match r with Some s => e ← table st !! s; Some (Some (ct e)) | None => Some None end.

(** [TransactionStatusTable::query_status] (core/transaction_status_table.cpp:49-58). *)
Definition query_status (st : TrxTable) (t : Z) : option (option TRX_STAT) :=
  r ← find_trx st t;
  match r with Some s => e ← table st !! s; x ← getState e; Some (Some x) | None => Some None end.

(** [TransactionStatusTable::register_ct] (core/transaction_status_table.cpp:60-69). *)
Definition register_ct (st : TrxTable) (t c : Z) : option (bool * TrxTable) :=
  r ← find_trx st t;
  match r with
  | Some s => e ← table st !! s; e' ← enterCommitTime e c;
              Some (true, with_table st (<[s := e']> (table st)))
  | None => Some (false, st)
  end.

(** The [switch] of [modify_status] (core/transaction_status_table.cpp:171-190). *)
Definition apply_status (e : TidStatus) (new_status : TRX_STAT) : option TidStatus :=
  old ← getState e;
  match new_status with
  | VALIDATING => enterValidationState e
  | ABORT => enterAbortState e
  | COMMITTED => enterCommitState e
  | PROCESSING => None
  end.

(** [modify_status(trx_id, new_status)] (core/transaction_status_table.cpp:160-197). *)
Definition modify_status (st : TrxTable) (t : Z) (new_status : TRX_STAT) : option (bool * TrxTable) :=
  r ← find_trx st t;
  match r with
  | Some s =>
      e ← table st !! s;
      e' ← apply_status e new_status;
      Some (true, with_table st (<[s := e']> (table st)))
  | None => Some (false, st)
  end.

(** [modify_status(trx_id, new_status, ct)] (core/transaction_status_table.cpp:151-158). *)
Definition modify_status_ct (st : TrxTable) (t : Z) (new_status : TRX_STAT) (c : Z)
    : option (bool * TrxTable) :=
  '(ok, st1) ← register_ct st t c;
  if ok : bool then modify_status st1 t new_status else Some (false, st1).

(** [record_ro_trx_with_bt] (core/transaction_status_table.cpp:221-235). *)
Definition record_ro_trx_with_bt (st : TrxTable) (s : nat) (bt : Z) : TrxTable :=
  mk_table (table st) (main_buckets st) (indirect_buckets st) (last_ext st)
    (ro_trxs st ++ [(bt, Some s)]) (nro_trxs st).

(** [record_nro_trx_with_et] (core/transaction_status_table.cpp:237-251); the
    pointer of a transaction that is not in the table stays uninitialised. *)
Definition record_nro_trx_with_et (st : TrxTable) (t et : Z) : option TrxTable :=
  r ← find_trx st t;
  Some (mk_table (table st) (main_buckets st) (indirect_buckets st) (last_ext st)
          (ro_trxs st) (nro_trxs st ++ [(et, r)])).

(** The inner loop of [insert_single_trx] (core/transaction_status_table.cpp:106-123):
    the slot that is taken, if the bucket has one. *)
Fixpoint slot_free (tbl : list TidStatus) (s n : nat) (t : Z) : option (option nat) :=
  match n with
  | O => Some None
  | S k =>
      e ← tbl !! s;
      if trx_id e =? t then None
      else if isEmpty e || isErased e then Some (Some s)
      else slot_free tbl (S s) k t
  end.

(** The outer loop of [insert_single_trx] (core/transaction_status_table.cpp:105-142)
    from the bucket [b], then the checks at [done]. *)
Fixpoint insert_from (st : TrxTable) (fuel b : nat) (t bt : Z) (readonly : bool) : option TrxTable :=
  match fuel with
  | O => None
  | S f =>
      if (b * ASSOCIATIVITY <? num_slots st)%nat then
        r ← slot_free (table st) (b * ASSOCIATIVITY) (ASSOCIATIVITY - 1) t;
        match r with
        | Some s =>
            e ← table st !! s;
            e' ← enterProcessState e t;
            let st' := with_table st (<[s := e']> (table st)) in
            Some (if readonly then record_ro_trx_with_bt st' s bt else st')
        | None =>
            let ls := (b * ASSOCIATIVITY + (ASSOCIATIVITY - 1))%nat in
            l ← table st !! ls;
            if negb (trx_id l =? 0) then insert_from st f (Z.to_nat (trx_id l)) t bt readonly
            else if (indirect_buckets st <=? last_ext st)%nat then None
            else
              let nb := (main_buckets st + last_ext st)%nat in
              let l' := mk_tid (Z.of_nat nb) (tP l) (tV l) (tC l) (tA l) (occupied l) (erased l) (ct l) in
              let tbl1 := <[ls := l']> (table st) in
              let s := (nb * ASSOCIATIVITY)%nat in
              e ← tbl1 !! s;
              e' ← enterProcessState e t;
              Some (mk_table (<[s := e']> tbl1) (main_buckets st) (indirect_buckets st)
                      (S (last_ext st)) (ro_trxs st) (nro_trxs st))
        end
      else None
  end.

(** [TransactionStatusTable::insert_single_trx] (core/transaction_status_table.cpp:99-149). *)
Definition insert_single_trx (st : TrxTable) (t bt : Z) (readonly : bool) : option TrxTable :=
  insert_from st (S (main_buckets st + indirect_buckets st)) (home_bucket st t) t bt readonly.

(** [TransactionStatusTable::erase] (core/transaction_status_table.cpp:254-285):
    a node is dropped while at least two others follow it and its timestamp
    is below the bound.  [ids] is the vector for the erased ids, or the null
    pointer. *)
Fixpoint erase (l : list (Z * option nat)) (min_bt : Z) (tbl : list TidStatus) (ids : option (list Z))
    : option (list (Z * option nat) * list TidStatus * option (list Z)) :=
  match l with
  | (ts, p) :: ((_ :: _ :: _) as rest) =>
      if min_bt <=? ts then Some (l, tbl, ids)
      else s ← p; e ← tbl !! s;
           erase rest min_bt (<[s := markErased e]> tbl) ((fun v => v ++ [trx_id e]) <$> ids)
  | _ => Some (l, tbl, ids)
  end.

(** [TransactionStatusTable::erase_trx_via_min_bt] (core/transaction_status_table.cpp:200-219). *)
Definition erase_trx_via_min_bt (st : TrxTable) (min_bt : Z) (non_readonly_trx_ids : list Z)
    : option (list Z * TrxTable) :=
  '(ro, tbl, _) ← erase (ro_trxs st) min_bt (table st) None;
  '(nro, tbl', ids) ← erase (nro_trxs st) min_bt tbl (Some non_readonly_trx_ids);
  v ← ids;
  Some (v, mk_table tbl' (main_buckets st) (indirect_buckets st) (last_ext st) ro nro).

(** ** The state machine of a slot *)

(** What holds of every slot that the calls can produce. *)
Definition tid_inv (e : TidStatus) : bool :=
  eqb (occupied e) (tP e) && implb (tV e) (tP e) && implb (tC e) (tV e) &&
  implb (tA e) (tP e) && negb (tA e && tC e).

(** The transitions of a transaction. *)
Inductive stat_edge : TRX_STAT -> TRX_STAT -> Prop :=
  | P_V : stat_edge PROCESSING VALIDATING
  | P_A : stat_edge PROCESSING ABORT
  | V_A : stat_edge VALIDATING ABORT
  | V_C : stat_edge VALIDATING COMMITTED.

(** Case analysis on the flags of [e]; what a call returns follows by
    computation. *)
Ltac tid_cases e :=
  unfold enterProcessState, enterValidationState, enterAbortState, enterCommitState,
    enterCommitTime, markErased, getState, getCT, tid_inv in *;
  destruct e as [? [] [] [] [] [] [] ?]; cbn in *; try discriminate; simplify_eq; cbn in *.

Lemma tid_step_inv e e' : tid_step e e' -> tid_inv e = true -> tid_inv e' = true.
Proof. intros H Hi. destruct H as [e|e|e|e|e|e]; tid_cases e; done. Qed.

Lemma tid_reachable_inv e : rtc tid_step blank e -> tid_inv e = true.
Proof.
  apply (rtc_ind_r (fun e => tid_inv e = true)); [done|].
  intros x y _ Hs Hx. by eapply tid_step_inv.
Qed.

Lemma tid_inv_state e : tid_inv e = true -> occupied e = true -> exists s, getState e = Some s.
Proof. intros Hi Ho. tid_cases e; by eexists. Qed.

Lemma tid_step_edge e e' s :
  tid_inv e = true -> occupied e = true -> erased e = false -> tid_step e e' ->
  getState e = Some s ->
  exists s', getState e' = Some s' /\ (s' = s \/ stat_edge s s') /\
    trx_id e' = trx_id e /\ (s = VALIDATING \/ s = COMMITTED -> ct e' = ct e).
Proof.
  intros Hi Ho He Hs Hg. destruct Hs as [e|e|e|e|e|e]; tid_cases e; eexists;
    (split; [reflexivity|]); (split; [eauto using stat_edge|]); (split; [done|]);
    by intros [?|?].
Qed.

(** ** The chained table *)

Definition slot (b i : nat) : nat := (b * ASSOCIATIVITY + i)%nat.
Definition link_slot (b : nat) : nat := slot b (ASSOCIATIVITY - 1).

(** Bucket [b'] is on the chain of overflow buckets that starts at [b]. *)
Inductive reach (tbl : list TidStatus) : nat -> nat -> Prop :=
  | reach_here b : reach tbl b b
  | reach_next b e b' : tbl !! link_slot b = Some e -> trx_id e <> 0 ->
      reach tbl (Z.to_nat (trx_id e)) b' -> reach tbl b b'.

(** The invariant of the table. *)
Record table_ok (st : TrxTable) : Prop := {
  ok_main : (0 < main_buckets st)%nat;
  ok_len : length (table st) = num_slots st;
  ok_ext : (last_ext st <= indirect_buckets st)%nat;
  (** a link leads to an allocated overflow bucket behind its own *)
  ok_link b e : table st !! link_slot b = Some e -> trx_id e <> 0 ->
    Z.of_nat b < trx_id e /\
    Z.of_nat (main_buckets st) <= trx_id e < Z.of_nat (main_buckets st + last_ext st);
  (** buckets that are not allocated are zeroed *)
  ok_blank b i e : (main_buckets st + last_ext st <= b)%nat -> (i < ASSOCIATIVITY)%nat ->
    table st !! slot b i = Some e -> e = blank;
  (** a transaction is on the chain of its home bucket *)
  ok_home b i e : (i < ASSOCIATIVITY - 1)%nat -> table st !! slot b i = Some e ->
    trx_id e <> 0 -> reach (table st) (home_bucket st (trx_id e)) b;
  (** and in one slot only *)
  ok_unique b i b' i' e e' : (i < ASSOCIATIVITY - 1)%nat -> (i' < ASSOCIATIVITY - 1)%nat ->
    table st !! slot b i = Some e -> table st !! slot b' i' = Some e' ->
    trx_id e <> 0 -> trx_id e = trx_id e' -> slot b i = slot b' i';
  (** the flags of its slot are those of the state machine *)
  ok_tid b i e : (i < ASSOCIATIVITY - 1)%nat -> table st !! slot b i = Some e ->
    tid_inv e = true /\ (occupied e = false -> trx_id e = 0);
}.

Lemma slot_inj b i b' i' :
  (i < ASSOCIATIVITY)%nat -> (i' < ASSOCIATIVITY)%nat -> slot b i = slot b' i' -> b = b' /\ i = i'.
Proof. unfold slot, ASSOCIATIVITY. lia. Qed.

Lemma slot_surj s : exists b i, (i < ASSOCIATIVITY)%nat /\ s = slot b i.
Proof.
  exists (s / 8)%nat, (s mod 8)%nat. unfold slot, ASSOCIATIVITY. lia.
Qed.

Lemma slot_find_spec tbl s n t :
  (s + n <= length tbl)%nat ->
  match slot_find tbl s n t with
  | Some (Some s') => (s <= s' < s + n)%nat /\ exists e, tbl !! s' = Some e /\ trx_id e = t
  | Some None => forall s' e, (s <= s' < s + n)%nat -> tbl !! s' = Some e -> trx_id e <> t
  | None => False
  end.
Proof.
  revert s. induction n as [|n IH]; intros s Hs; cbn; [intros; lia|].
  destruct (lookup_lt_is_Some_2 tbl s) as [e He]; [lia|]. rewrite He. cbn.
  destruct (Z.eqb_spec (trx_id e) t) as [Ht|Ht]; [split; [lia|by exists e]|].
  specialize (IH (S s) ltac:(lia)). destruct (slot_find tbl (S s) n t) as [[s'|]|]; [|..|done].
  - destruct IH as [? ?]. split; [lia|done].
  - intros s' e' Hs' He'. destruct (decide (s' = s)) as [->|]; [naive_solver|].
    eapply IH; [|done]. lia.
Qed.

Lemma slot_free_spec tbl s n t :
  (s + n <= length tbl)%nat ->
  (forall s' e, (s <= s' < s + n)%nat -> tbl !! s' = Some e -> trx_id e <> t) ->
  match slot_free tbl s n t with
  | Some (Some s') => (s <= s' < s + n)%nat /\
      exists e, tbl !! s' = Some e /\ (occupied e = false \/ erased e = true)
  | Some None => True
  | None => False
  end.
Proof.
  revert s. induction n as [|n IH]; intros s Hs Hne; cbn; [done|].
  destruct (lookup_lt_is_Some_2 tbl s) as [e He]; [lia|]. rewrite He. cbn.
  destruct (Z.eqb_spec (trx_id e) t) as [Ht|Ht]; [by destruct (Hne s e); [lia|..]|].
  unfold isEmpty, isErased. destruct (occupied e) eqn:Ho, (erased e) eqn:Her; cbn;
    try (split; [lia|]; by eauto).
  specialize (IH (S s) ltac:(lia)). destruct (slot_free tbl (S s) n t) as [[s'|]|]; [|done|].
  - destruct IH as [? ?]; [intros; eapply Hne; [|done]; lia|]. split; [lia|done].
  - apply IH. intros; eapply Hne; [|done]; lia.
Qed.

Definition total_buckets (st : TrxTable) : nat := (main_buckets st + indirect_buckets st)%nat.

(** Index arithmetic of slots and buckets. *)
Ltac slot_lia :=
  unfold link_slot, slot, num_slots, total_buckets, ASSOCIATIVITY in *; lia.

(** The table has transaction [t] in a slot with content [e]. *)
Definition holds (st : TrxTable) (t : Z) (e : TidStatus) : Prop :=
  exists b i, (i < ASSOCIATIVITY - 1)%nat /\ table st !! slot b i = Some e /\ trx_id e = t.

Lemma bucket_in_range st b i e :
  table_ok st -> (i < ASSOCIATIVITY)%nat -> table st !! slot b i = Some e -> (b < total_buckets st)%nat.
Proof.
  intros Hok Hi He. apply lookup_lt_Some in He. rewrite (ok_len st Hok) in He.
  unfold num_slots, slot, ASSOCIATIVITY, total_buckets in *. lia.
Qed.

Lemma slot_is_Some st b i :
  table_ok st -> (i < ASSOCIATIVITY)%nat -> (b < total_buckets st)%nat ->
  is_Some (table st !! slot b i).
Proof.
  intros Hok Hi Hb. apply lookup_lt_is_Some_2. rewrite (ok_len st Hok).
  unfold num_slots, slot, ASSOCIATIVITY, total_buckets in *. lia.
Qed.

Lemma home_in_range st t : table_ok st -> (home_bucket st t < total_buckets st)%nat.
Proof.
  intros Hok. pose proof (ok_main st Hok). unfold home_bucket, total_buckets.
  pose proof (Z.mod_pos_bound (TrxIDHash t) (Z.of_nat (main_buckets st))). lia.
Qed.

Lemma link_step st b e :
  table_ok st -> table st !! link_slot b = Some e -> trx_id e <> 0 ->
  (b < Z.to_nat (trx_id e) < total_buckets st)%nat.
Proof.
  intros Hok He Hne. pose proof (ok_link st Hok b e He Hne). pose proof (ok_ext st Hok).
  unfold total_buckets. lia.
Qed.

(** The walk of [find_trx] ends: links lead to later buckets, so a chain has
    at most [total_buckets] of them. *)
Lemma find_from_spec st fuel b t :
  table_ok st -> (b < total_buckets st)%nat -> (total_buckets st - b < fuel)%nat ->
  match find_from (table st) fuel b t with
  | Some (Some s) => exists b' i e, s = slot b' i /\ (i < ASSOCIATIVITY - 1)%nat /\
      table st !! s = Some e /\ trx_id e = t
  | Some None => forall b' i e, reach (table st) b b' -> (i < ASSOCIATIVITY - 1)%nat ->
      table st !! slot b' i = Some e -> trx_id e <> t
  | None => False
  end.
Proof.
  intros Hok. revert b. induction fuel as [|fuel IH]; intros b Hb Hf; [lia|]. cbn [find_from].
  pose proof (slot_find_spec (table st) (b * ASSOCIATIVITY) (ASSOCIATIVITY - 1) t) as Hs.
  specialize (Hs ltac:(rewrite (ok_len st Hok); unfold num_slots, total_buckets, ASSOCIATIVITY in *; lia)).
  destruct (slot_find _ _ _ _) as [[s|]|]; [..|done]; cbn [mbind option_bind].
  - destruct Hs as (Hr & e & He & Ht). exists b, (s - b * ASSOCIATIVITY)%nat, e.
    split_and!; [slot_lia|slot_lia|done|done].
  - destruct (slot_is_Some st b (ASSOCIATIVITY - 1)) as [l Hl]; [done|unfold ASSOCIATIVITY; lia|done|].
    unfold slot in Hl. rewrite Hl. cbn [mbind option_bind]. change (table st !! link_slot b = Some l) in Hl.
    assert (forall i e, (i < ASSOCIATIVITY - 1)%nat -> table st !! slot b i = Some e -> trx_id e <> t)
      as Hhere by (intros i e Hi He; eapply Hs; [|exact He]; slot_lia).
    destruct (Z.eqb_spec (trx_id l) 0) as [H0|H0].
    + intros b' i e Hr. destruct Hr as [|b l' b' Hl' Hne]; [by apply Hhere|]. congruence.
    + pose proof (link_step st b l Hok Hl H0).
      specialize (IH (Z.to_nat (trx_id l)) ltac:(lia) ltac:(lia)).
      destruct (find_from _ _ _ _) as [[s|]|]; [done| |done].
      intros b' i e Hr. destruct Hr as [|b l' b' Hl' Hne]; [by apply Hhere|].
      replace l' with l in * by congruence. by apply IH.
Qed.

Lemma find_trx_spec st t :
  table_ok st -> IS_VALID_TRX_ID t = true ->
  match find_trx st t with
  | Some (Some s) => exists b i e, s = slot b i /\ (i < ASSOCIATIVITY - 1)%nat /\
      table st !! s = Some e /\ trx_id e = t
  | Some None => forall e, ~ holds st t e
  | None => False
  end.
Proof.
  intros Hok Hv. unfold find_trx. rewrite Hv.
  pose proof (find_from_spec st (S (total_buckets st)) (home_bucket st t) t Hok
    (home_in_range st t Hok) ltac:(lia)) as H.
  fold (total_buckets st). destruct (find_from _ _ _ _) as [[s|]|]; [done| |done].
  intros e (b & i & Hi & He & Ht). refine (H b i e _ Hi He Ht).
  rewrite <- Ht. apply (ok_home st Hok b i e Hi He). intros H0.
  rewrite <- Ht, H0 in Hv. done.
Qed.

(** ** The abstract view: a finite map of transactions *)

Definition map_entry (p : nat * TidStatus) : option (Z * TidStatus) :=
  if (p.1 mod ASSOCIATIVITY =? ASSOCIATIVITY - 1)%nat || (trx_id p.2 =? 0) then None
  else Some (trx_id p.2, p.2).
Definition trx_map (st : TrxTable) : gmap Z TidStatus :=
  list_to_map (omap map_entry (imap pair (table st))).

Lemma map_entries st t e :
  (t, e) ∈ omap map_entry (imap pair (table st)) <-> holds st t e /\ t <> 0.
Proof.
  rewrite list_elem_of_omap. unfold map_entry. split.
  - intros ((s & e') & Hin & He). apply elem_of_lookup_imap in Hin as (s' & e'' & [=<- <-] & Hs).
    cbn [fst snd] in He. destruct (Nat.eqb_spec (s mod ASSOCIATIVITY) (ASSOCIATIVITY - 1)); [done|].
    destruct (Z.eqb_spec (trx_id e') 0); [done|]. cbn [orb] in He. simplify_eq. split; [|done].
    exists (s / ASSOCIATIVITY)%nat, (s mod ASSOCIATIVITY)%nat.
    replace (slot _ _) with s by slot_lia. split_and!; [slot_lia|done|done].
  - intros ((b & i & Hi & He & Ht) & H0). exists (slot b i, e). split.
    + apply elem_of_lookup_imap. by exists (slot b i), e.
    + cbn [fst snd]. destruct (Nat.eqb_spec (slot b i mod ASSOCIATIVITY) (ASSOCIATIVITY - 1)); [slot_lia|].
      destruct (Z.eqb_spec (trx_id e) 0); [congruence|]. by subst t.
Qed.

Lemma trx_map_lookup st t e :
  table_ok st -> trx_map st !! t = Some e <-> holds st t e /\ t <> 0.
Proof.
  intros Hok. rewrite <- map_entries. split; [apply elem_of_list_to_map_2|].
  intros Hin. apply elem_of_list_to_map_1'; [|done]. intros e' Hin'.
  apply map_entries in Hin as ((b & i & Hi & He & Ht) & H0).
  apply map_entries in Hin' as ((b' & i' & Hi' & He' & Ht') & _).
  assert (slot b i = slot b' i') as Hs
    by (apply (ok_unique st Hok b i b' i' e e'); congruence).
  rewrite Hs in He. congruence.
Qed.

Lemma trx_map_None st t : table_ok st -> (forall e, ~ holds st t e) -> trx_map st !! t = None.
Proof.
  intros Hok Hn. apply eq_None_not_Some. intros [e He].
  apply trx_map_lookup in He as [He _]; [|done]. by eapply Hn.
Qed.

Lemma valid_nonzero t : IS_VALID_TRX_ID t = true -> t <> 0.
Proof. by intros H ->. Qed.

(** [find_trx] is the lookup of the map. *)
Lemma find_trx_lookup st t :
  table_ok st -> IS_VALID_TRX_ID t = true ->
  exists r, find_trx st t = Some r /\
    match r with
    | Some s => exists b i e, s = slot b i /\ (i < ASSOCIATIVITY - 1)%nat /\
        table st !! s = Some e /\ trx_id e = t /\ trx_map st !! t = Some e
    | None => trx_map st !! t = None
    end.
Proof.
  intros Hok Hv. pose proof (find_trx_spec st t Hok Hv) as H.
  destruct (find_trx st t) as [[s|]|]; [| |done].
  - destruct H as (b & i & e & -> & Hi & He & Ht). exists (Some (slot b i)). split; [done|].
    exists b, i, e. split_and!; try done. apply trx_map_lookup; [done|].
    split; [by exists b, i|]. by apply valid_nonzero.
  - exists None. split; [done|]. by apply trx_map_None.
Qed.

(** ** Updates of a slot *)

Lemma reach_mono tbl tbl' b b' :
  (forall c e, tbl !! link_slot c = Some e -> trx_id e <> 0 ->
     exists e', tbl' !! link_slot c = Some e' /\ trx_id e' = trx_id e) ->
  reach tbl b b' -> reach tbl' b b'.
Proof.
  intros Hl Hr. induction Hr as [b|b e b' He Hne Hr IH]; [constructor|].
  destruct (Hl b e He Hne) as (e' & He' & Ht). econstructor; [done|congruence|by rewrite Ht].
Qed.

Lemma reach_trans tbl a b c : reach tbl a b -> reach tbl b c -> reach tbl a c.
Proof. induction 1; [done|]. intros. econstructor; [done|done|auto]. Qed.

Lemma lookup_insert_slot (tbl : list TidStatus) b i e c j :
  (i < ASSOCIATIVITY)%nat -> (j < ASSOCIATIVITY)%nat -> (b, i) <> (c, j) ->
  <[slot b i := e]> tbl !! slot c j = tbl !! slot c j.
Proof.
  intros Hi Hj Hne. apply list_lookup_insert_ne. intros Hs.
  apply slot_inj in Hs as [-> ->]; done.
Qed.

Lemma lookup_insert_link (tbl : list TidStatus) b i e c :
  (i < ASSOCIATIVITY - 1)%nat -> <[slot b i := e]> tbl !! link_slot c = tbl !! link_slot c.
Proof.
  intros Hi. apply lookup_insert_slot; [unfold ASSOCIATIVITY in *; lia..|].
  intros [=-> ->]. slot_lia.
Qed.

(** The entry at [(b, i)] and the others, after the slot was overwritten. *)
Lemma lookup_insert_cases (tbl : list TidStatus) b i e c j x :
  (i < ASSOCIATIVITY)%nat -> (j < ASSOCIATIVITY)%nat ->
  <[slot b i := e]> tbl !! slot c j = Some x ->
  (c = b /\ j = i /\ x = e) \/ ((c, j) <> (b, i) /\ tbl !! slot c j = Some x).
Proof.
  intros Hi Hj Hx. destruct (decide ((c, j) = (b, i))) as [[=-> ->]|Hne].
  - left. assert (slot b i < length tbl)%nat as Hl
      by (apply lookup_lt_Some in Hx; by rewrite length_insert in Hx).
    rewrite list_lookup_insert_eq in Hx by done. by simplify_eq.
  - right. split; [done|]. by rewrite lookup_insert_slot in Hx.
Qed.

(** Either the overwritten slot or another one. *)
Ltac ins_cases Hx :=
  let Hcj := fresh "Hcj" in
  apply lookup_insert_cases in Hx; [|slot_lia|slot_lia];
  destruct Hx as [(-> & -> & ->)|[Hcj Hx]].

Lemma reach_allocated st b b' :
  table_ok st -> (b < main_buckets st + last_ext st)%nat -> reach (table st) b b' ->
  (b' < main_buckets st + last_ext st)%nat.
Proof.
  intros Hok Hb Hr. induction Hr as [b|b e b' He Hne Hr IH]; [done|].
  apply IH. pose proof (ok_link st Hok b e He Hne). lia.
Qed.

Lemma home_allocated st t b :
  table_ok st -> reach (table st) (home_bucket st t) b -> (b < main_buckets st + last_ext st)%nat.
Proof.
  intros Hok. apply reach_allocated; [done|]. unfold home_bucket. pose proof (ok_main st Hok).
  pose proof (Z.mod_pos_bound (TrxIDHash t) (Z.of_nat (main_buckets st))). lia.
Qed.

(** Overwriting one slot with a transaction that no other slot holds. *)
Section Overwrite.
Context (st : TrxTable) (b i : nat) (e e' : TidStatus).
Hypothesis Hok : table_ok st.
Hypothesis Hi : (i < ASSOCIATIVITY - 1)%nat.
Hypothesis He : table st !! slot b i = Some e.
Hypothesis Hne : trx_id e' <> 0.
Hypothesis Hfresh : forall c j x, (c, j) <> (b, i) -> (j < ASSOCIATIVITY - 1)%nat ->
  table st !! slot c j = Some x -> trx_id x <> trx_id e'.
Hypothesis Hhome : reach (table st) (home_bucket st (trx_id e')) b.
Hypothesis Hinv : tid_inv e' = true.
Hypothesis Hocc : occupied e' = true.

Local Abbreviation st' := (with_table st (<[slot b i := e']> (table st))).

Lemma overwrite_ok : table_ok st'.
Proof using All.
  assert (forall c d, reach (table st) c d -> reach (<[slot b i := e']> (table st)) c d) as Hreach.
  { intros c d. apply reach_mono. intros x y Hx _. exists y.
    by rewrite lookup_insert_link. }
  split; cbn [table main_buckets indirect_buckets last_ext with_table].
  - apply Hok.
  - rewrite length_insert. apply Hok.
  - apply Hok.
  - intros c x. rewrite lookup_insert_link by done. apply Hok.
  - intros c j x Hc Hj Hx. ins_cases Hx; [|by eapply Hok].
    pose proof (home_allocated st _ b Hok Hhome). lia.
  - intros c j x Hj Hx Hxn. apply Hreach.
    change (home_bucket _ (trx_id x)) with (home_bucket st (trx_id x)).
    ins_cases Hx; [done|by eapply Hok].
  - intros c j c' j' x x' Hj Hj' Hx Hx' Hxn Hxx.
    ins_cases Hx; ins_cases Hx'; [done| | |by apply (ok_unique st Hok _ _ _ _ x x')].
    + by destruct (Hfresh c' j' x').
    + by destruct (Hfresh c j x).
  - intros c j x Hj Hx. ins_cases Hx; [|by eapply Hok]. split; [done|congruence].
Qed.

Lemma overwrite_map : trx_map st' = <[trx_id e' := e']> (delete (trx_id e) (trx_map st)).
Proof using All.
  pose proof overwrite_ok as Hok'.
  apply map_eq. intros t. apply option_eq. intros x. rewrite trx_map_lookup by done.
  destruct (decide (t = trx_id e')) as [->|Hte].
  - rewrite lookup_insert_eq. split.
    + intros ((c & j & Hj & Hx & Hxt) & _). cbn in Hx.
      ins_cases Hx; [done|]. by destruct (Hfresh c j x).
    + intros [=<-]. split; [|done]. exists b, i. split; [done|]. split; [|done].
      cbn. rewrite list_lookup_insert_eq; [done|]. by eapply lookup_lt_Some.
  - rewrite lookup_insert_ne, lookup_delete_Some, trx_map_lookup by done. split.
    + intros ((c & j & Hj & Hx & Hxt) & H0). cbn in Hx. ins_cases Hx; [congruence|].
      split; [|split; [by exists c, j|done]]. intros Heq. destruct Hcj.
      assert (slot c j = slot b i) as Hs by (apply (ok_unique st Hok _ _ _ _ x e); congruence).
      apply slot_inj in Hs as [-> ->]; [done|slot_lia..].
    + intros (Hd & (c & j & Hj & Hx & Hxt) & H0). split; [|done]. exists c, j.
      split; [done|]. split; [|done]. cbn. rewrite lookup_insert_slot; [done|slot_lia..|].
      intros [=-> ->]. congruence.
Qed.
End Overwrite.

(** A call of the state machine on an occupied slot keeps the invariant and
    changes the map at that transaction only. *)
Lemma update_slot st b i e e' :
  table_ok st -> (i < ASSOCIATIVITY - 1)%nat -> table st !! slot b i = Some e -> trx_id e <> 0 ->
  trx_id e' = trx_id e -> tid_inv e' = true -> occupied e' = true ->
  table_ok (with_table st (<[slot b i := e']> (table st))) /\
  trx_map (with_table st (<[slot b i := e']> (table st))) = <[trx_id e := e']> (trx_map st).
Proof.
  intros Hok Hi He Hne Ht Hinv Ho.
  assert (forall c j x, (c, j) <> (b, i) -> (j < ASSOCIATIVITY - 1)%nat ->
    table st !! slot c j = Some x -> trx_id x <> trx_id e') as Hfresh.
  { intros c j x Hcj Hj Hx Hxe. destruct Hcj.
    assert (slot c j = slot b i) as Hs by (apply (ok_unique st Hok _ _ _ _ x e); congruence).
    apply slot_inj in Hs as [-> ->]; [done|slot_lia..]. }
  assert (reach (table st) (home_bucket st (trx_id e')) b) as Hhome
    by (rewrite Ht; by eapply ok_home).
  split; [eapply overwrite_ok; (done || congruence)|].
  erewrite overwrite_map by (done || congruence). rewrite Ht. by rewrite insert_delete_eq.
Qed.

Definition set_link (l : TidStatus) (nb : nat) : TidStatus :=
  mk_tid (Z.of_nat nb) (tP l) (tV l) (tC l) (tA l) (occupied l) (erased l) (ct l).

(** Allocating an overflow bucket behind [b]. *)
Definition with_bucket (st : TrxTable) (b : nat) (l : TidStatus) : TrxTable :=
  mk_table (<[link_slot b := set_link l (main_buckets st + last_ext st)]> (table st))
    (main_buckets st) (indirect_buckets st) (S (last_ext st)) (ro_trxs st) (nro_trxs st).

Section NewBucket.
Context (st : TrxTable) (b : nat) (l : TidStatus).
Hypothesis Hok : table_ok st.
Hypothesis Hl : table st !! link_slot b = Some l.
Hypothesis Hl0 : trx_id l = 0.
Hypothesis Hcap : (last_ext st < indirect_buckets st)%nat.
Hypothesis Hb : (b < main_buckets st + last_ext st)%nat.

Lemma with_bucket_slot c j : (j < ASSOCIATIVITY - 1)%nat ->
  table (with_bucket st b l) !! slot c j = table st !! slot c j.
Proof using All.
  intros Hj. apply lookup_insert_slot; [slot_lia..|]. intros [=-> <-]. slot_lia.
Qed.

Lemma with_bucket_reach c d :
  reach (table st) c d -> reach (table (with_bucket st b l)) c d.
Proof using All.
  apply reach_mono. intros x y Hx Hy. exists y. split; [|done].
  cbn. destruct (decide (x = b)) as [->|Hxb]; [congruence|].
  apply eq_trans with (table st !! link_slot x); [|done].
  apply lookup_insert_slot; [slot_lia..|congruence].
Qed.

Lemma with_bucket_reach_new c :
  reach (table st) c b ->
  reach (table (with_bucket st b l)) c (main_buckets st + last_ext st).
Proof using All.
  intros Hr. apply with_bucket_reach in Hr.
  assert (table (with_bucket st b l) !! link_slot b
    = Some (set_link l (main_buckets st + last_ext st))) as Hnew
    by (cbn; rewrite list_lookup_insert_eq; [done|by eapply lookup_lt_Some]).
  pose proof (ok_main st Hok). apply (reach_trans _ _ b); [done|].
  econstructor; [exact Hnew|cbn; lia|]. cbn [trx_id set_link]. rewrite Nat2Z.id. constructor.
Qed.

Lemma with_bucket_ok : table_ok (with_bucket st b l).
Proof using All.
  split.
  - apply Hok.
  - cbn. rewrite length_insert. apply (ok_len st Hok).
  - cbn. lia.
  - intros c e He Hne. cbn in He. cbn [main_buckets last_ext with_bucket].
    apply lookup_insert_cases in He as [(-> & _ & ->)|[_ He]]; [|..|slot_lia|slot_lia].
    + cbn [trx_id set_link]. lia.
    + pose proof (ok_link st Hok c e He Hne). lia.
  - intros c j e Hc Hj He. cbn in He, Hc.
    apply lookup_insert_cases in He as [(-> & -> & ->)|[_ He]]; [lia|..|slot_lia|done].
    eapply (ok_blank st Hok c j e); [lia|done|done].
  - intros c j e Hj He Hne. rewrite with_bucket_slot in He by done.
    apply with_bucket_reach. by eapply (ok_home st Hok).
  - intros c j c' j' e e' Hj Hj' He He'. rewrite with_bucket_slot in He, He' by done.
    by apply (ok_unique st Hok).
  - intros c j e Hj He. rewrite with_bucket_slot in He by done. by eapply (ok_tid st Hok).
Qed.

Lemma with_bucket_map : trx_map (with_bucket st b l) = trx_map st.
Proof using All.
  apply map_eq. intros t. apply option_eq. intros x.
  rewrite !trx_map_lookup by (done || exact with_bucket_ok).
  split; intros ((c & j & Hj & Hx & Ht) & H0); (split; [|done]); exists c, j;
    rewrite with_bucket_slot in * by done; done.
Qed.
End NewBucket.

(** ** Insertion *)

Definition process_entry (t : Z) : TidStatus := mk_tid t true false false false true false 0.

Definition put_entry (st : TrxTable) (b i : nat) (t : Z) : TrxTable :=
  with_table st (<[slot b i := process_entry t]> (table st)).

(** The two ways an insertion ends: a free slot on the chain of the home
    bucket, or the first slot of a new overflow bucket at its end. *)
Inductive inserted (st : TrxTable) (t bt : Z) (readonly : bool) : TrxTable -> Prop :=
  | ins_place b i e :
      (i < ASSOCIATIVITY - 1)%nat -> reach (table st) (home_bucket st t) b ->
      table st !! slot b i = Some e -> occupied e = false \/ erased e = true ->
      inserted st t bt readonly
        (if readonly then record_ro_trx_with_bt (put_entry st b i t) (slot b i) bt
         else put_entry st b i t)
  | ins_new b l :
      reach (table st) (home_bucket st t) b -> table st !! link_slot b = Some l ->
      trx_id l = 0 -> (last_ext st < indirect_buckets st)%nat ->
      inserted st t bt readonly
        (put_entry (with_bucket st b l) (main_buckets st + last_ext st) 0 t).

Lemma enterProcess_free e t :
  occupied e = false \/ erased e = true -> enterProcessState e t = Some (process_entry t).
Proof. unfold enterProcessState. by destruct (occupied e), (erased e); intros [?|?]. Qed.

Lemma insert_from_spec st fuel b t bt readonly :
  table_ok st -> t <> 0 -> (forall e, ~ holds st t e) ->
  reach (table st) (home_bucket st t) b ->
  (b < total_buckets st)%nat -> (total_buckets st - b < fuel)%nat ->
  match insert_from st fuel b t bt readonly with
  | Some st' => inserted st t bt readonly st'
  | None => (indirect_buckets st <= last_ext st)%nat
  end.
Proof.
  intros Hok Ht0 Hfresh. revert b. induction fuel as [|fuel IH]; intros b Hr Hb Hf; [lia|].
  cbn [insert_from]. destruct (Nat.ltb_spec (b * ASSOCIATIVITY) (num_slots st)); [|slot_lia].
  pose proof (slot_free_spec (table st) (b * ASSOCIATIVITY) (ASSOCIATIVITY - 1) t) as Hs.
  specialize (Hs ltac:(rewrite (ok_len st Hok); slot_lia)).
  ospecialize (Hs _).
  { intros s e Hse He Het. apply (Hfresh e). exists b, (s - b * ASSOCIATIVITY)%nat.
    replace (slot b _) with s by slot_lia. split_and!; [slot_lia|done|done]. }
  destruct (slot_free _ _ _ _) as [[s|]|]; [..|done]; cbn [mbind option_bind].
  - destruct Hs as (Hse & e & He & Hfree). rewrite He. cbn [mbind option_bind].
    rewrite enterProcess_free by done. cbn [mbind option_bind].
    assert (exists i, (i < ASSOCIATIVITY - 1)%nat /\ s = slot b i) as (i & Hi & ->)
      by (exists (s - b * ASSOCIATIVITY)%nat; slot_lia).
    by eapply ins_place.
  - destruct (slot_is_Some st b (ASSOCIATIVITY - 1)) as [l Hl]; [done|slot_lia|done|].
    unfold slot in Hl. rewrite Hl. cbn [mbind option_bind].
    change (table st !! link_slot b = Some l) in Hl.
    destruct (Z.eqb_spec (trx_id l) 0) as [H0|H0]; cbn [negb].
    + destruct (Nat.leb_spec (indirect_buckets st) (last_ext st)); [done|].
      pose proof (home_allocated st t b Hok Hr).
      destruct (slot_is_Some st (main_buckets st + last_ext st) 0) as [e He];
        [done|slot_lia|slot_lia|].
      pose proof (ok_blank st Hok (main_buckets st + last_ext st) 0 e (le_n _) ltac:(slot_lia) He) as ->.
      change (b * ASSOCIATIVITY + (ASSOCIATIVITY - 1))%nat with (link_slot b).
      replace ((main_buckets st + last_ext st) * ASSOCIATIVITY)%nat
        with (slot (main_buckets st + last_ext st) 0) by slot_lia.
      rewrite list_lookup_insert_ne, He by slot_lia. cbn [mbind option_bind].
      rewrite enterProcess_free by (by left). cbn [mbind option_bind].
      exact (ins_new st t bt readonly b l Hr Hl H0 ltac:(done)).
    + pose proof (link_step st b l Hok Hl H0).
      apply IH; [|lia|lia]. apply (reach_trans _ _ b); [done|].
      econstructor; [done|done|constructor].
Qed.

Lemma record_ro_ok st s bt :
  table_ok st -> table_ok (record_ro_trx_with_bt st s bt) /\
  trx_map (record_ro_trx_with_bt st s bt) = trx_map st.
Proof. intros Hok. split; [split; apply Hok|done]. Qed.

(** What an insertion does to the map: the new transaction appears, and at
    most one erased transaction disappears. *)
Lemma inserted_ok st t bt readonly st' :
  table_ok st -> t <> 0 -> trx_map st !! t = None -> inserted st t bt readonly st' ->
  table_ok st' /\ exists old, (forall e, trx_map st !! old = Some e -> erased e = true) /\
    trx_map st' = <[t := process_entry t]> (delete old (trx_map st)).
Proof.
  intros Hok Ht0 Hnone Hins.
  assert (forall c j x, (j < ASSOCIATIVITY - 1)%nat -> table st !! slot c j = Some x -> trx_id x <> t)
    as Hfresh.
  { intros c j x Hj Hx Hxt. assert (trx_map st !! t = Some x) as Hm; [|congruence].
    apply trx_map_lookup; [done|]. split; [by exists c, j|done]. }
  destruct Hins as [b i e Hi Hr He Hfree|b l Hr Hl Hl0 Hcap].
  - assert (table_ok (put_entry st b i t) /\
      trx_map (put_entry st b i t) = <[t := process_entry t]> (delete (trx_id e) (trx_map st))) as [Hok1 Hm1].
    { split; [eapply overwrite_ok|eapply overwrite_map]; eauto. }
    assert (table_ok (if readonly then record_ro_trx_with_bt (put_entry st b i t) (slot b i) bt
      else put_entry st b i t)) as Hok2 by (destruct readonly; [by apply record_ro_ok|done]).
    split; [done|]. exists (trx_id e). split; [|by destruct readonly].
    intros x Hx. apply trx_map_lookup in Hx as ((c & j & Hj & Hx & Hxe) & H0); [|done].
    assert (slot c j = slot b i) as Hs by (apply (ok_unique st Hok _ _ _ _ x e); congruence).
    rewrite Hs in Hx. destruct Hfree as [Hf|Hf]; [|congruence].
    destruct (ok_tid st Hok b i e Hi He) as [_ Hz]. by rewrite Hz in H0.
  - pose proof (home_allocated st t b Hok Hr) as Hb.
    pose proof (with_bucket_ok st b l Hok Hl Hl0 Hcap Hb) as Hok1.
    destruct (slot_is_Some st (main_buckets st + last_ext st) 0) as [e He]; [done|slot_lia|slot_lia|].
    pose proof (ok_blank st Hok (main_buckets st + last_ext st) 0 e (le_n _) ltac:(slot_lia) He) as ->.
    assert (table (with_bucket st b l) !! slot (main_buckets st + last_ext st) 0 = Some blank) as He1
      by (rewrite with_bucket_slot by (done || slot_lia); done).
    assert (forall c j x, (c, j) <> ((main_buckets st + last_ext st)%nat, 0%nat) ->
      (j < ASSOCIATIVITY - 1)%nat -> table (with_bucket st b l) !! slot c j = Some x ->
      trx_id x <> trx_id (process_entry t)) as Hf1.
    { intros c j x _ Hj Hx. rewrite with_bucket_slot in Hx by done. by eapply Hfresh. }
    pose proof (with_bucket_reach_new st b l Hok Hl Hl0 Hcap Hb _ Hr) as Hr1.
    split; [eapply overwrite_ok; eauto; slot_lia|]. exists 0. split.
    + intros x Hx. by apply trx_map_lookup in Hx as [_ ?].
    + unfold put_entry. erewrite overwrite_map; eauto; [|slot_lia].
      by rewrite with_bucket_map by done.
Qed.

(** ** The invariant of reachable tables *)

Definition live_slot (st : TrxTable) (s : nat) : Prop :=
  exists b i e, (i < ASSOCIATIVITY - 1)%nat /\ s = slot b i /\ table st !! s = Some e /\
    trx_id e <> 0 /\ occupied e = true.

(** The nodes of the garbage collection lists point to occupied slots. *)
Definition gc_ok (st : TrxTable) : Prop :=
  (forall ts p, (ts, p) ∈ ro_trxs st -> exists s, p = Some s /\ live_slot st s) /\
  (forall ts p, (ts, p) ∈ nro_trxs st -> exists s, p = Some s /\ live_slot st s).

Definition table_inv (st : TrxTable) : Prop := table_ok st /\ gc_ok st.

(** The calls on the table, as its users make them: a transaction is inserted
    once, and only a transaction of the table is recorded as finished. *)
Inductive table_step : TrxTable -> TrxTable -> Prop :=
  | ts_insert st t bt ro st' : IS_VALID_TRX_ID t = true -> trx_map st !! t = None ->
      insert_single_trx st t bt ro = Some st' -> table_step st st'
  | ts_modify st t s r st' : modify_status st t s = Some (r, st') -> table_step st st'
  | ts_modify_ct st t s c r st' : modify_status_ct st t s c = Some (r, st') -> table_step st st'
  | ts_record st t et st' : IS_VALID_TRX_ID t = true -> is_Some (trx_map st !! t) ->
      record_nro_trx_with_et st t et = Some st' -> table_step st st'
  | ts_erase st m v ids st' : erase_trx_via_min_bt st m v = Some (ids, st') -> table_step st st'.

Lemma table_init_ok main indirect :
  (0 < main)%nat -> table_inv (table_init main indirect) /\ trx_map (table_init main indirect) = ∅.
Proof.
  intros Hm.
  assert (forall s e, table (table_init main indirect) !! s = Some e -> e = blank) as Hb
    by (intros s e He; cbn in He; by apply lookup_replicate in He as [-> _]).
  assert (table_ok (table_init main indirect)) as Hok.
  { split; [done|cbn; by rewrite length_replicate|cbn; lia|..]; intros *.
    - intros He%Hb. by subst e.
    - intros _ _ He%Hb. done.
    - intros _ He%Hb. by subst e.
    - intros _ _ He%Hb _. by subst e.
    - intros _ He%Hb. by subst e. }
  split; [split; [done|split; intros ts s Hin; by apply not_elem_of_nil in Hin]|].
  apply map_empty. intros t. apply eq_None_not_Some. intros [e He].
  apply trx_map_lookup in He as [(b & i & _ & He & <-) H0]; [|done]. apply H0. by rewrite (Hb _ _ He).
Qed.

Lemma live_overwrite st b i e' s :
  (i < ASSOCIATIVITY - 1)%nat -> trx_id e' <> 0 -> occupied e' = true ->
  live_slot st s -> live_slot (with_table st (<[slot b i := e']> (table st))) s.
Proof.
  intros Hi Hne Ho (c & j & e & Hj & -> & He & H0 & Hoc).
  destruct (decide ((c, j) = (b, i))) as [[=-> ->]|Hcj].
  - exists b, i, e'. split_and!; try done. cbn. apply list_lookup_insert_eq.
    by eapply lookup_lt_Some.
  - exists c, j, e. split_and!; try done. cbn. by rewrite lookup_insert_slot by (slot_lia || congruence).
Qed.

Lemma live_put st b i e t :
  (i < ASSOCIATIVITY - 1)%nat -> table st !! slot b i = Some e -> t <> 0 ->
  live_slot (put_entry st b i t) (slot b i).
Proof.
  intros Hi He H0. exists b, i, (process_entry t). split_and!; try done. cbn.
  apply list_lookup_insert_eq. by eapply lookup_lt_Some.
Qed.

Lemma gc_ok_mono st st' :
  (forall s, live_slot st s -> live_slot st' s) ->
  ro_trxs st' = ro_trxs st -> nro_trxs st' = nro_trxs st -> gc_ok st -> gc_ok st'.
Proof.
  unfold gc_ok. intros Hl -> -> [H1 H2]. split; intros ts p Hin.
  - destruct (H1 ts p Hin) as (s & -> & Hs); eauto.
  - destruct (H2 ts p Hin) as (s & -> & Hs); eauto.
Qed.

Lemma inserted_gc st t bt readonly st' :
  table_ok st -> t <> 0 -> inserted st t bt readonly st' -> gc_ok st -> gc_ok st'.
Proof.
  intros Hok H0 Hins Hgc. destruct Hins as [b i e Hi Hr He Hfree|b l Hr Hl Hl0 Hcap].
  - assert (gc_ok (put_entry st b i t)) as [H1 H2]
      by (apply (gc_ok_mono st); [intros; by apply live_overwrite|done..]).
    destruct readonly; [|done]. split; [|exact H2]. intros ts p Hin.
    cbn in Hin. apply elem_of_app in Hin as [Hin|Hin]; [by eapply H1|].
    apply list_elem_of_singleton in Hin as [= -> ->]. eexists. split; [done|].
    by apply (live_put st b i e).
  - pose proof (home_allocated st t b Hok Hr) as Hb.
    apply (gc_ok_mono st); [|done..].
    intros s Hs. apply live_overwrite; [slot_lia|done|done|].
    destruct Hs as (c & j & e & Hj & -> & He & Hne & Ho). exists c, j, e. split_and!; try done.
    by rewrite with_bucket_slot.
Qed.

(** A successful call of the state machine on the slot of a transaction. *)
Lemma update_inv st b i e e' :
  table_inv st -> (i < ASSOCIATIVITY - 1)%nat -> table st !! slot b i = Some e -> trx_id e <> 0 ->
  trx_id e' = trx_id e -> tid_inv e' = true -> occupied e' = true ->
  table_inv (with_table st (<[slot b i := e']> (table st))) /\
  trx_map (with_table st (<[slot b i := e']> (table st))) = <[trx_id e := e']> (trx_map st).
Proof.
  intros [Hok Hgc] Hi He Hne Ht Hinv Ho.
  destruct (update_slot st b i e e') as [Hok' Hm]; try done. split; [|done]. split; [done|].
  apply (gc_ok_mono st); [|done..]. intros s. apply live_overwrite; [done|congruence|done].
Qed.

Lemma apply_status_ok e s e' :
  tid_inv e = true -> apply_status e s = Some e' ->
  tid_step e e' /\ trx_id e' = trx_id e /\ tid_inv e' = true /\ occupied e' = true.
Proof.
  intros Hi Ha. unfold apply_status in Ha.
  destruct (getState e) as [old|]; [|done]. cbn in Ha. destruct s; [done|..].
  - split; [by eapply step_validate|]. tid_cases e; done.
  - split; [by eapply step_abort|]. tid_cases e; done.
  - split; [by eapply step_commit|]. tid_cases e; done.
Qed.

Lemma enterCommitTime_ok e c e' :
  tid_inv e = true -> enterCommitTime e c = Some e' ->
  trx_id e' = trx_id e /\ tid_inv e' = true /\ occupied e' = true.
Proof. intros Hi Hc. tid_cases e; done. Qed.

(** Both kinds of status update: find the slot, run a call of the state
    machine on it. *)
Definition update_trx (st : TrxTable) (t : Z) (f : TidStatus -> option TidStatus)
    : option (bool * TrxTable) :=
  r ← find_trx st t;
  match r with
  | Some s => e ← table st !! s; e' ← f e; Some (true, with_table st (<[s := e']> (table st)))
  | None => Some (false, st)
  end.

Lemma update_trx_spec st t f :
  table_inv st -> IS_VALID_TRX_ID t = true ->
  (forall e e', tid_inv e = true -> f e = Some e' ->
     trx_id e' = trx_id e /\ tid_inv e' = true /\ occupied e' = true) ->
  match trx_map st !! t with
  | None => update_trx st t f = Some (false, st)
  | Some e =>
      match f e with
      | Some e' => exists st', update_trx st t f = Some (true, st') /\ table_inv st' /\
          trx_map st' = <[t := e']> (trx_map st)
      | None => update_trx st t f = None
      end
  end.
Proof.
  intros Hinv Hv Hf. destruct Hinv as [Hok Hgc].
  destruct (find_trx_lookup st t Hok Hv) as ([s|] & Hr & H); unfold update_trx; rewrite Hr;
    cbn [mbind option_bind]; [|by rewrite H].
  destruct H as (b & i & e & -> & Hi & He & Ht & Hm). rewrite Hm, He. cbn [mbind option_bind].
  destruct (f e) as [e'|] eqn:Hfe; [|done]. cbn [mbind option_bind].
  destruct (ok_tid st Hok b i e Hi He) as [Hti _].
  destruct (Hf e e' Hti Hfe) as (Ht' & Hti' & Ho').
  pose proof (valid_nonzero t Hv) as H0.
  destruct (update_inv st b i e e') as [Hinv' Hm']; try done; [congruence|].
  eexists. split; [done|]. split; [done|]. by rewrite Hm', Ht.
Qed.

Lemma modify_status_spec st t s :
  table_inv st -> IS_VALID_TRX_ID t = true ->
  match trx_map st !! t with
  | None => modify_status st t s = Some (false, st)
  | Some e =>
      match apply_status e s with
      | Some e' => exists st', modify_status st t s = Some (true, st') /\ table_inv st' /\
          trx_map st' = <[t := e']> (trx_map st)
      | None => modify_status st t s = None
      end
  end.
Proof.
  intros Hinv Hv. apply (update_trx_spec st t (fun e => apply_status e s)); [done|done|].
  intros e e' Hi Ha. by apply (apply_status_ok e s e').
Qed.

Lemma register_ct_spec st t c :
  table_inv st -> IS_VALID_TRX_ID t = true ->
  match trx_map st !! t with
  | None => register_ct st t c = Some (false, st)
  | Some e =>
      match enterCommitTime e c with
      | Some e' => exists st', register_ct st t c = Some (true, st') /\ table_inv st' /\
          trx_map st' = <[t := e']> (trx_map st)
      | None => register_ct st t c = None
      end
  end.
Proof.
  intros Hinv Hv. apply (update_trx_spec st t (fun e => enterCommitTime e c)); [done|done|].
  intros e e'. apply enterCommitTime_ok.
Qed.

Lemma insert_single_trx_spec st t bt readonly :
  table_inv st -> IS_VALID_TRX_ID t = true -> trx_map st !! t = None ->
  match insert_single_trx st t bt readonly with
  | Some st' => inserted st t bt readonly st' /\ table_inv st'
  | None => (indirect_buckets st <= last_ext st)%nat
  end.
Proof.
  intros [Hok Hgc] Hv Hnone. pose proof (valid_nonzero t Hv) as H0.
  unfold insert_single_trx.
  pose proof (insert_from_spec st (S (total_buckets st)) (home_bucket st t) t bt readonly Hok H0) as H.
  fold (total_buckets st). destruct (insert_from _ _ _ _ _ _) as [st'|].
  - assert (inserted st t bt readonly st') as Hins.
    { apply H; [|constructor|by apply home_in_range|lia]. intros e He.
      assert (trx_map st !! t = Some e); [by apply trx_map_lookup|congruence]. }
    split; [done|]. split; [by eapply inserted_ok|by eapply inserted_gc].
  - apply H; [|constructor|by apply home_in_range|lia]. intros e He.
    assert (trx_map st !! t = Some e); [by apply trx_map_lookup|congruence].
Qed.

(** ** Garbage collection *)

(** [st'] differs from [st] in erased flags only, and only for transactions
    of the dropped nodes. *)
Definition marks (dropped : list (Z * option nat)) (st st' : TrxTable) : Prop :=
  forall t, trx_map st' !! t = trx_map st !! t \/
    exists e ts s x, trx_map st !! t = Some e /\ trx_map st' !! t = Some (markErased e) /\
      (ts, Some s) ∈ dropped /\ table st !! s = Some x /\ trx_id x = t.

Lemma marks_refl l st : marks l st st.
Proof. intros t. by left. Qed.

Lemma markErased_idem e : markErased (markErased e) = markErased e.
Proof. done. Qed.

Lemma mark_slot st s :
  table_inv st -> live_slot st s ->
  exists e, table st !! s = Some e /\
    let st' := with_table st (<[s := markErased e]> (table st)) in
    table_inv st' /\ trx_map st' = <[trx_id e := markErased e]> (trx_map st) /\
    trx_map st !! trx_id e = Some e /\ (forall s', live_slot st s' -> live_slot st' s').
Proof.
  intros Hinv (b & i & e & Hi & -> & He & H0 & Ho). exists e. split; [done|].
  destruct Hinv as [Hok Hgc]. destruct (ok_tid st Hok b i e Hi He) as [Ht _].
  destruct (update_inv st b i e (markErased e)) as [Hinv' Hm]; try done.
  cbn zeta. split_and!; try done.
  - apply trx_map_lookup; [done|]. split; [by exists b, i|done].
  - intros s'. by apply live_overwrite.
Qed.

(** What [erase] does to a list [l] of nodes: a prefix of nodes below the
    bound is dropped, two nodes at least stay when any is dropped, and one id
    is reported for each dropped node. *)
Definition erase_post (st : TrxTable) (l : list (Z * option nat)) (m : Z) (ids : option (list Z))
    (r : option (list (Z * option nat) * list TidStatus * option (list Z))) : Prop :=
  exists dropped l' tbl' ids', r = Some (l', tbl', ids') /\
    l = dropped ++ l' /\ Forall (fun n => n.1 < m) dropped /\
    (dropped = [] \/ (2 <= length l')%nat) /\
    table_inv (with_table st tbl') /\ marks dropped st (with_table st tbl') /\
    (forall s, live_slot st s -> live_slot (with_table st tbl') s) /\
    length <$> ids' = (fun v => length v + length dropped)%nat <$> ids.

Lemma with_table_id st : with_table st (table st) = st.
Proof. by destruct st. Qed.

Lemma erase_post_stop st l m ids :
  table_inv st -> erase_post st l m ids (Some (l, table st, ids)).
Proof.
  intros Hinv. exists [], l, (table st), ids. rewrite with_table_id.
  split_and!; try done; [by left|by left|]. destruct ids; cbn; f_equal; lia.
Qed.

Lemma erase_spec st l m ids :
  table_inv st -> (forall ts p, (ts, p) ∈ l -> exists s, p = Some s /\ live_slot st s) ->
  erase_post st l m ids (erase l m (table st) ids).
Proof.
  revert st ids. induction l as [|[ts p] l IH]; intros st ids Hinv Hl; [by apply erase_post_stop|].
  destruct l as [|n1 [|n2 l]]; [by apply erase_post_stop..|]. cbn [erase].
  destruct (Z.leb_spec m ts) as [|Hts]; [by apply erase_post_stop|].
  destruct (Hl ts p) as (s & -> & Hs); [by left|]. cbn [mbind option_bind].
  destruct (mark_slot st s Hinv Hs) as (e & He & Hinv1 & Hm1 & Hme & Hlive1).
  rewrite He. cbn [mbind option_bind].
  destruct (IH (with_table st (<[s := markErased e]> (table st))) ((fun v => v ++ [trx_id e]) <$> ids))
    as (dropped & l' & tbl' & ids' & Her & Hsplit & Hlt & Hlen & Hinv' & Hmk & Hlive & Hids).
  { done. }
  { intros ts' p' Hin. destruct (Hl ts' p') as (s' & -> & Hs'); [by right|]. eauto. }
  exists ((ts, Some s) :: dropped), l', tbl', ids'. split; [exact Her|].
  split_and!; try done.
  - cbn [app]. by rewrite <- Hsplit.
  - by constructor.
  - right. destruct Hlen as [->|]; [|done]. cbn in Hsplit. subst l'. cbn. lia.
  - intros t. destruct (Hmk t) as [Ht|(e1 & ts1 & s1 & x1 & H1 & H2 & H3 & H4 & H5)].
    + rewrite Hm1 in Ht. destruct (decide (t = trx_id e)) as [->|Hte].
      * right. exists e, ts, s, e. rewrite lookup_insert_eq in Ht. split_and!; try done. by left.
      * left. by rewrite lookup_insert_ne in Ht.
    + right. rewrite Hm1 in H1. cbn in H4.
      assert (exists x, table st !! s1 = Some x /\ trx_id x = t) as (x & Hx & Hxt).
      { destruct (decide (s1 = s)) as [->|Hss].
        - rewrite list_lookup_insert_eq in H4 by (by eapply lookup_lt_Some). simplify_eq. by exists e.
        - rewrite list_lookup_insert_ne in H4 by done. by exists x1. }
      destruct (decide (t = trx_id e)) as [Hte|Hte].
      * subst t. rewrite <- Hxt, Hte in *. rewrite lookup_insert_eq in H1. simplify_eq.
        exists e, ts1, s1, x. split_and!; try done. by right.
      * rewrite lookup_insert_ne in H1 by done. exists e1, ts1, s1, x. split_and!; try done. by right.
  - intros s' Hs'. by apply Hlive, Hlive1.
  - rewrite Hids. destruct ids as [v|]; [|done]. cbn. rewrite length_app. cbn. f_equal. lia.
Qed.

Lemma marks_trans d1 d2 st st1 st2 :
  (forall s x, table st1 !! s = Some x -> exists y, table st !! s = Some y /\ trx_id y = trx_id x) ->
  marks d1 st st1 -> marks d2 st1 st2 -> marks (d1 ++ d2) st st2.
Proof.
  intros Htbl H1 H2 t. destruct (H2 t) as [Ht|(e & ts & s & x & Ha & Hb & Hc & Hd & He)].
  - destruct (H1 t) as [Ht'|(e & ts & s & x & Ha & Hb & Hc & Hd & He)]; [left; congruence|].
    right. exists e, ts, s, x. split_and!; try done; [congruence|]. apply elem_of_app; by left.
  - destruct (Htbl s x Hd) as (y & Hy & Hyt). right.
    destruct (H1 t) as [Ht'|(e' & ts' & s' & x' & Ha' & Hb' & Hc' & Hd' & He')].
    + exists e, ts, s, y. split_and!; try done; [congruence| |congruence]. apply elem_of_app; by right.
    + exists e', ts', s', x'. split_and!; try done; [|apply elem_of_app; by left].
      rewrite Hb, Ha in *. simplify_eq. by rewrite markErased_idem.
Qed.

Lemma erase_table_ids l m tbl ids l' tbl' ids' :
  erase l m tbl ids = Some (l', tbl', ids') ->
  forall s x, tbl' !! s = Some x -> exists y, tbl !! s = Some y /\ trx_id y = trx_id x.
Proof.
  revert tbl ids. induction l as [|[ts p] l IH]; intros tbl ids He s x Hx.
  { simplify_eq/=. by exists x. }
  destruct l as [|n1 [|n2 l]]; [simplify_eq/=; by exists x..|]. cbn [erase] in He.
  destruct (m <=? ts); [simplify_eq/=; by exists x|].
  destruct p as [s0|]; [|done]. cbn [mbind option_bind] in He.
  destruct (tbl !! s0) as [e|] eqn:Hs0; [|done]. cbn [mbind option_bind] in He.
  destruct (IH _ _ He s x Hx) as (y & Hy & Hyx).
  destruct (decide (s = s0)) as [->|Hne].
  - rewrite list_lookup_insert_eq in Hy by (by eapply lookup_lt_Some). simplify_eq. by exists e.
  - rewrite list_lookup_insert_ne in Hy by done. by exists y.
Qed.

Lemma erase_trx_spec st m v :
  table_inv st ->
  exists d1 d2 ids st', erase_trx_via_min_bt st m v = Some (ids, st') /\
    ro_trxs st = d1 ++ ro_trxs st' /\ nro_trxs st = d2 ++ nro_trxs st' /\
    Forall (fun n => n.1 < m) (d1 ++ d2) /\ length ids = (length v + length d2)%nat /\
    table_inv st' /\ marks (d1 ++ d2) st st'.
Proof.
  intros Hinv. pose proof Hinv as [Hok [Hro Hnro]].
  destruct (erase_spec st (ro_trxs st) m None Hinv Hro)
    as (d1 & l1 & tbl1 & ids1 & He1 & Hl1 & Hlt1 & _ & Hinv1 & Hmk1 & Hlive1 & Hids1).
  destruct (erase_spec (with_table st tbl1) (nro_trxs st) m (Some v) Hinv1)
    as (d2 & l2 & tbl2 & ids2 & He2 & Hl2 & Hlt2 & _ & Hinv2 & Hmk2 & Hlive2 & Hids2).
  { intros ts p Hin. destruct (Hnro ts p Hin) as (s & -> & Hs). eauto. }
  cbn [table with_table] in He2. destruct ids2 as [v2|]; [|done].
  exists d1, d2, v2. eexists. unfold erase_trx_via_min_bt.
  rewrite He1. cbn [mbind option_bind]. rewrite He2. cbn [mbind option_bind].
  split; [done|]. cbn [ro_trxs nro_trxs]. split_and!; try done.
  - by apply Forall_app.
  - cbn in Hids2. by simplify_eq.
  - destruct Hinv2 as [Hok2 [Hg1 Hg2]]. split; [split; apply Hok2|].
    split; intros ts p Hin.
    + apply (Hg1 ts). cbn. rewrite Hl1. apply elem_of_app; by right.
    + apply (Hg2 ts). cbn. rewrite Hl2. apply elem_of_app; by right.
  - apply (marks_trans d1 d2 st (with_table st tbl1)); [|done|exact Hmk2].
    cbn. by eapply erase_table_ids.
Qed.

Lemma record_nro_inv st t et st' :
  table_inv st -> IS_VALID_TRX_ID t = true -> is_Some (trx_map st !! t) ->
  record_nro_trx_with_et st t et = Some st' -> table_inv st' /\ trx_map st' = trx_map st.
Proof.
  intros [Hok [Hro Hnro]] Hv [e0 Hsome] Hr. unfold record_nro_trx_with_et in Hr.
  destruct (find_trx_lookup st t Hok Hv) as ([s|] & Hf & H); [|congruence].
  destruct H as (b & i & e & -> & Hi & He & Ht & Hm).
  rewrite Hf in Hr. cbn [mbind option_bind] in Hr. injection Hr as <-.
  split; [|done]. split; [split; apply Hok|]. split; [exact Hro|].
  intros ts p Hin. cbn in Hin. apply elem_of_app in Hin as [Hin|Hin]; [by apply (Hnro ts)|].
  apply list_elem_of_singleton in Hin as [= -> ->]. eexists. split; [done|].
  exists b, i, e. pose proof (valid_nonzero _ Hv). split_and!; try done; [congruence|].
  destruct (ok_tid st Hok b i e Hi He) as [_ Ho]. destruct (occupied e); [done|].
  rewrite Ho in Ht by done. congruence.
Qed.

Lemma modify_valid st t f r : update_trx st t f = Some r -> IS_VALID_TRX_ID t = true.
Proof. unfold update_trx, find_trx. by destruct (IS_VALID_TRX_ID t). Qed.

Lemma update_trx_inv st t f b st' :
  table_inv st -> (forall e e', tid_inv e = true -> f e = Some e' ->
     trx_id e' = trx_id e /\ tid_inv e' = true /\ occupied e' = true) ->
  update_trx st t f = Some (b, st') -> table_inv st'.
Proof.
  intros Hinv Hf Hu. pose proof (update_trx_spec st t f Hinv (modify_valid _ _ _ _ Hu) Hf) as H.
  destruct (trx_map st !! t) as [e|]; [|by simplify_eq].
  destruct (f e); [|congruence]. destruct H as (st1 & Hu1 & Hi1 & _). congruence.
Qed.

Lemma table_step_inv st st' : table_inv st -> table_step st st' -> table_inv st'.
Proof.
  intros Hinv Hs. destruct Hs as [st t bt ro st' Hv Hn Hi|st t s r st' H|st t s c r st' H|
    st t et st' Hv Hsome H|st m v ids st' H].
  - pose proof (insert_single_trx_spec st t bt ro Hinv Hv Hn) as Hsp. rewrite Hi in Hsp. apply Hsp.
  - apply (update_trx_inv st t (fun e => apply_status e s) r); [done| |done].
    intros e e' ? ?. by apply (apply_status_ok e s e').
  - unfold modify_status_ct in H. destruct (register_ct st t c) as [[ok st1]|] eqn:Hrc; [|done].
    cbn in H. assert (table_inv st1) as Hinv1.
    { apply (update_trx_inv st t (fun e => enterCommitTime e c) ok); [done| |done].
      intros e e'. apply enterCommitTime_ok. }
    destruct ok; [|by simplify_eq].
    apply (update_trx_inv st1 t (fun e => apply_status e s) r); [done| |done].
    intros e e' ? ?. by apply (apply_status_ok e s e').
  - by eapply record_nro_inv.
  - destruct (erase_trx_spec st m v Hinv) as (d1 & d2 & ids' & st1 & He & _ & _ & _ & _ & Hinv' & _).
    congruence.
Qed.

Definition reachable_table (main indirect : nat) (st : TrxTable) : Prop :=
  rtc table_step (table_init main indirect) st.

Lemma reachable_inv main indirect st :
  (0 < main)%nat -> reachable_table main indirect st -> table_inv st.
Proof.
  intros Hm. apply (rtc_ind_r (fun st => table_inv st)); [by apply table_init_ok|].
  intros x y _ Hs Hx. by eapply table_step_inv.
Qed.

(** A run of insertions, for concrete tables. *)
Fixpoint run_inserts (st : TrxTable) (l : list (Z * Z * bool)) : option TrxTable :=
  match l with
  | [] => Some st
  | (t, bt, ro) :: l' =>
      if IS_VALID_TRX_ID t && bool_decide (trx_map st !! t = None)
      then st' ← insert_single_trx st t bt ro; run_inserts st' l' else None
  end.

Lemma run_inserts_reach main indirect st l st' :
  reachable_table main indirect st -> run_inserts st l = Some st' ->
  reachable_table main indirect st'.
Proof.
  revert st. induction l as [|[[t bt] ro] l IH]; cbn [run_inserts]; intros st Hr Hrun; [by simplify_eq|].
  destruct (IS_VALID_TRX_ID t) eqn:Hv; [|done]. cbn [andb] in Hrun.
  case_bool_decide as Hn; [|done].
  destruct (insert_single_trx st t bt ro) as [st1|] eqn:Hi; [|done]. cbn [mbind option_bind] in Hrun.
  eapply IH; [|done]. eapply rtc_r; [done|]. by eapply ts_insert.
Qed.

(** The [k]-th transaction id of a worker that runs alone. *)
Definition example_id (k : Z) : Z := Z.lor TRX_ID_MASK (Z.shiftl k 8).
Definition example_table : TrxTable := Eval vm_compute in
  default (table_init 2 2) (run_inserts (table_init 2 2)
    ((fun k => (example_id (Z.of_nat k), Z.of_nat k, true)) <$> seq 1 16)).

Lemma example_reachable : reachable_table 2 2 example_table.
Proof.
  eapply (run_inserts_reach 2 2 (table_init 2 2)
    ((fun k => (example_id (Z.of_nat k), Z.of_nat k, true)) <$> seq 1 16)); [apply rtc_refl|].
  by vm_compute.
Qed.

(** ** Properties *)

Lemma map_entry_state st t e :
  table_inv st -> trx_map st !! t = Some e ->
  tid_inv e = true /\ occupied e = true /\ exists s, getState e = Some s.
Proof.
  intros [Hok _] Hm. apply trx_map_lookup in Hm as ((b & i & Hi & He & Ht) & H0); [|done].
  destruct (ok_tid st Hok b i e Hi He) as [Hti Ho].
  assert (occupied e = true) as Hoc
    by (destruct (occupied e) eqn:Hoc; [done|]; specialize (Ho eq_refl); congruence).
  split_and!; [done|done|by apply tid_inv_state].
Qed.

(** The slot of a transaction behaves as a state machine: whatever calls
    produced the slot, a further call on a live transaction keeps its id,
    moves its status only along PROCESSING -> VALIDATING -> COMMITTED or to
    ABORT (so ABORT and COMMITTED are final), and never changes a commit time
    that validation has fixed. *)
Theorem trx_status_transitions e e' s :
  rtc tid_step blank e -> occupied e = true -> erased e = false ->
  tid_step e e' -> getState e = Some s ->
  exists s', getState e' = Some s' /\ (s' = s \/ stat_edge s s') /\
    trx_id e' = trx_id e /\ (s = VALIDATING \/ s = COMMITTED -> ct e' = ct e).
Proof. intros Hr. apply tid_step_edge. by apply tid_reachable_inv. Qed.

Lemma trx_status_transitions_witness :
  exists s', getState (mk_tid 256 true true false false true false 9) = Some s' /\
    (s' = PROCESSING \/ stat_edge PROCESSING s').
Proof.
  destruct (trx_status_transitions (mk_tid 256 true false false false true false 9)
    (mk_tid 256 true true false false true false 9) PROCESSING) as (s' & H1 & H2 & _).
  - eapply rtc_l; [by apply (step_process blank 256)|].
    eapply rtc_l; [by apply (step_ct (process_entry 256) 9)|]. apply rtc_refl.
  - done.
  - done.
  - by apply step_validate.
  - done.
  - by exists s'.
Defined.

(** C20: in every reachable table, [query_status] and [query_ct] terminate
    without a failed check and are the lookup in the finite map of inserted
    transactions: the walk over the overflow buckets finds a transaction
    exactly when some slot of the table holds it. *)
Theorem trx_table_query main indirect st t :
  (0 < main)%nat -> reachable_table main indirect st -> IS_VALID_TRX_ID t = true ->
  query_status st t = Some (trx_map st !! t ≫= getState) /\
  query_ct st t = Some (ct <$> trx_map st !! t) /\
  (is_Some (trx_map st !! t) <-> is_Some (trx_map st !! t ≫= getState)).
Proof.
  intros Hm Hr Hv. pose proof (reachable_inv main indirect st Hm Hr) as Hinv.
  destruct (find_trx_lookup st t (proj1 Hinv) Hv) as ([s|] & Hf & H);
    unfold query_status, query_ct; rewrite Hf; cbn [mbind option_bind].
  2:{ rewrite H. split; [done|]. split; [done|]. split; by intros []. }
  destruct H as (b & i & e & -> & Hi & He & Ht & Hme). rewrite He, Hme. cbn.
  destruct (map_entry_state st t e Hinv Hme) as (_ & _ & x & Hx). rewrite Hx. cbn.
  split; [done|]. split; [done|]. split; intros _; by eexists.
Qed.

Lemma trx_table_query_witness :
  query_status example_table (example_id 16) = Some (Some PROCESSING) /\
  query_status example_table (example_id 77) = Some None.
Proof.
  destruct (trx_table_query 2 2 example_table (example_id 16)) as [H _];
    [lia|exact example_reachable|by vm_compute|].
  destruct (trx_table_query 2 2 example_table (example_id 77)) as [H' _];
    [lia|exact example_reachable|by vm_compute|].
  rewrite H, H'. by vm_compute.
Defined.

(** Inserting a new transaction into a reachable table either succeeds -
    then the transaction is PROCESSING, and the only transaction that may have
    disappeared was marked erased by garbage collection - or fails because the
    overflow region is used up. *)
Theorem trx_table_insert main indirect st t bt readonly :
  (0 < main)%nat -> reachable_table main indirect st -> IS_VALID_TRX_ID t = true ->
  trx_map st !! t = None ->
  match insert_single_trx st t bt readonly with
  | Some st' => table_inv st' /\ exists old,
      (forall e, trx_map st !! old = Some e -> erased e = true) /\
      trx_map st' = <[t := process_entry t]> (delete old (trx_map st))
  | None => (indirect_buckets st <= last_ext st)%nat
  end.
Proof.
  intros Hm Hr Hv Hn. pose proof (reachable_inv main indirect st Hm Hr) as Hinv.
  pose proof (insert_single_trx_spec st t bt readonly Hinv Hv Hn) as H.
  destruct (insert_single_trx st t bt readonly) as [st'|]; [|done].
  destruct H as [Hins Hinv']. split; [done|].
  eapply inserted_ok; [apply Hinv|by apply valid_nonzero|done|done].
Qed.

Lemma trx_table_insert_witness :
  match insert_single_trx example_table (example_id 40) 40 false with
  | Some st' => table_inv st'
  | None => False
  end.
Proof.
  pose proof (trx_table_insert 2 2 example_table (example_id 40) 40 false ltac:(lia)
    example_reachable ltac:(by vm_compute) ltac:(by vm_compute)) as H.
  assert (is_Some (insert_single_trx example_table (example_id 40) 40 false)) as [st' E]
    by (vm_compute; by eexists).
  rewrite E in *. apply H.
Defined.

(** A status update on a reachable table touches no other transaction:
    for a known transaction it succeeds exactly when the state machine allows
    the transition and then replaces that one entry; for an unknown
    transaction it reports false and leaves the table alone. *)
Theorem trx_table_modify main indirect st t s :
  (0 < main)%nat -> reachable_table main indirect st -> IS_VALID_TRX_ID t = true ->
  match trx_map st !! t with
  | None => modify_status st t s = Some (false, st)
  | Some e =>
      match apply_status e s with
      | Some e' => exists st', modify_status st t s = Some (true, st') /\ table_inv st' /\
          trx_map st' = <[t := e']> (trx_map st) /\
          exists old new, getState e = Some old /\ getState e' = Some new /\
            (erased e = false -> new = old \/ stat_edge old new)
      | None => modify_status st t s = None
      end
  end.
Proof.
  intros Hm Hr Hv. pose proof (reachable_inv main indirect st Hm Hr) as Hinv.
  pose proof (modify_status_spec st t s Hinv Hv) as H.
  destruct (trx_map st !! t) as [e|] eqn:He; [|done].
  destruct (apply_status e s) as [e'|] eqn:Ha; [|done]. destruct H as (st' & H1 & H2 & H3).
  exists st'. split_and!; try done.
  destruct (map_entry_state st t e Hinv He) as (Hti & Ho & old & Hold).
  destruct (apply_status_ok e s e' Hti Ha) as (Hstep & _ & Hti' & Ho').
  destruct (tid_inv_state e' Hti' Ho') as [new Hnew]. exists old, new. split_and!; try done.
  intros Her. destruct (tid_step_edge e e' old Hti Ho Her Hstep Hold) as (new' & ? & ? & _).
  by simplify_eq.
Qed.

Lemma trx_table_modify_witness :
  exists st', modify_status example_table (example_id 16) VALIDATING = Some (true, st') /\
    table_inv st'.
Proof.
  pose proof (trx_table_modify 2 2 example_table (example_id 16) VALIDATING ltac:(lia)
    example_reachable ltac:(by vm_compute)) as H.
  assert (trx_map example_table !! example_id 16 = Some (process_entry (example_id 16))) as E
    by (by vm_compute).
  rewrite E in H. destruct H as (st' & H1 & H2 & _). by exists st'.
Defined.

(** Garbage collection of the table is safe and loses no status: it
    always succeeds on a reachable table, drops only list nodes whose
    timestamp is below the given bound, reports one id for every dropped
    update transaction, and the only change to the transaction map is the
    erased flag of transactions that the dropped nodes point to - every status
    and commit time stays readable. *)
Theorem trx_table_gc main indirect st min_bt v :
  (0 < main)%nat -> reachable_table main indirect st ->
  exists d1 d2 ids st', erase_trx_via_min_bt st min_bt v = Some (ids, st') /\
    ro_trxs st = d1 ++ ro_trxs st' /\ nro_trxs st = d2 ++ nro_trxs st' /\
    Forall (fun n => n.1 < min_bt) (d1 ++ d2) /\ length ids = (length v + length d2)%nat /\
    table_inv st' /\ marks (d1 ++ d2) st st' /\
    (forall t, trx_map st' !! t ≫= getState = trx_map st !! t ≫= getState) /\
    (forall t, ct <$> trx_map st' !! t = ct <$> trx_map st !! t).
Proof.
  intros Hm Hr. pose proof (reachable_inv main indirect st Hm Hr) as Hinv.
  destruct (erase_trx_spec st min_bt v Hinv) as (d1 & d2 & ids & st' & H1 & H2 & H3 & H4 & H5 & H6 & H7).
  exists d1, d2, ids, st'. split_and!; try done; intros t;
    destruct (H7 t) as [->|(e & ts & s & x & -> & -> & _)]; done.
Qed.

Lemma trx_table_gc_witness :
  exists ids st', erase_trx_via_min_bt example_table 5 [] = Some (ids, st') /\ table_inv st'.
Proof.
  destruct (trx_table_gc 2 2 example_table 5 [] ltac:(lia) example_reachable)
    as (d1 & d2 & ids & st' & H1 & _ & _ & _ & _ & H6 & _). by exists ids, st'.
Defined.

(** A read-only transaction whose insertion allocates an overflow bucket
    is not entered into the list of read-only transactions, unlike one that
    takes a free slot; its slot is then never marked erased by
    [erase_trx_via_min_bt]. *)
Theorem ro_trx_in_new_bucket_unrecorded main indirect st t bt st' :
  (0 < main)%nat -> reachable_table main indirect st -> IS_VALID_TRX_ID t = true ->
  trx_map st !! t = None -> insert_single_trx st t bt true = Some st' ->
  (last_ext st' = last_ext st /\ exists s, ro_trxs st' = ro_trxs st ++ [(bt, Some s)]) \/
  (last_ext st' = S (last_ext st) /\ ro_trxs st' = ro_trxs st).
Proof.
  intros Hm Hr Hv Hn Hi. pose proof (reachable_inv main indirect st Hm Hr) as Hinv.
  pose proof (insert_single_trx_spec st t bt true Hinv Hv Hn) as H. rewrite Hi in H.
  destruct H as [[b i e ? ? ? ?|b l ? ? ? ?] _]; [left|by right]. split; [done|by eexists].
Qed.

Lemma ro_trx_in_new_bucket_unrecorded_witness :
  exists st', insert_single_trx
      (default example_table (run_inserts (table_init 1 1)
        ((fun k => (example_id (Z.of_nat k), Z.of_nat k, true)) <$> seq 1 7)))
      (example_id 8) 8 true = Some st' /\
    last_ext st' = 1%nat /\ length (ro_trxs st') = 7%nat.
Proof.
  set (st := default example_table (run_inserts (table_init 1 1)
        ((fun k => (example_id (Z.of_nat k), Z.of_nat k, true)) <$> seq 1 7))).
  assert (reachable_table 1 1 st) as Hr.
  { eapply (run_inserts_reach 1 1 (table_init 1 1)
      ((fun k => (example_id (Z.of_nat k), Z.of_nat k, true)) <$> seq 1 7)); [apply rtc_refl|].
    by vm_compute. }
  assert (is_Some (insert_single_trx st (example_id 8) 8 true)) as [st' E]
    by (vm_compute; by eexists).
  exists st'. split; [done|].
  destruct (ro_trx_in_new_bucket_unrecorded 1 1 st (example_id 8) 8 st' ltac:(lia) Hr
    ltac:(by vm_compute) ltac:(by vm_compute) E) as [[H _]|[H1 H2]].
  - exfalso. assert (last_ext <$> insert_single_trx st (example_id 8) 8 true = Some 1%nat) as E1
      by (by vm_compute).
    rewrite E in E1. cbn in E1. injection E1 as E1. rewrite H in E1.
    assert (last_ext st = 0%nat) as E0 by (by vm_compute). congruence.
  - split; [rewrite H1; by vm_compute|]. rewrite H2. by vm_compute.
Defined.
