(* ===== verification/RunningTrx.v ===== *)
(** * core/running_trx_list: the running transactions of a worker

    A doubly linked list of the begin times of the running transactions, in
    the order in which they were inserted, with a hash map from begin time to
    list node.  The nodes live in a heap of addresses; [new] takes the next
    unused address, [delete] frees one.  The worker's minimum begin time is
    the bound that garbage collection uses.  [None] is a failed [CHECK] or a
    null dereference.

    The list is shown to implement a plain queue of begin times. *)
From S2P Require Import Prelude MyMath Types.
Local Open Scope Z_scope.

(** ** The cache line that a worker publishes *)

(** [Uint64CLine::SetValue] (core/running_trx_list.cpp:17-22): the four words
    in the middle are not initialised by the code. *)
Definition SetValue (val : Z) (junk : list Z) : list Z :=
  [val; u64 (val + 1)] ++ junk ++ [val; u64 (val + 1)].

(** [Uint64CLine::GetValue] (core/running_trx_list.cpp:24-34). *)
Definition GetValue (data : list Z) : option Z :=
  w0 ← data !! 0%nat; w1 ← data !! 1%nat; w6 ← data !! 6%nat; w7 ← data !! 7%nat;
  if (w0 =? w6) && (w1 =? w7) && (u64 (w0 + 1) =? w1) then Some w0 else None.

(** ** The list *)

(** [RunningTrxList::ListNode] (core/running_trx_list.hpp:69-73). *)
Record ListNode := mk_node { left : option nat; right : option nat; bt : Z }.

(** [RunningTrxList] (core/running_trx_list.hpp:77-92), with the heap of its
    nodes; [published] is the worker's own cache line in [rdma_mem_] and
    [rdma_writes] the lines written to other workers (RDMA builds only). *)
Record RunningTrxList := mk_running {
  use_rdma : bool;
  local_rank : nat;
  local_size : nat;
  heap : gmap nat ListNode;
  next_addr : nat;
  min_bt : Z;
  max_bt : Z;
  list_node_map : gmap Z nat;
  head_ : option nat;
  tail_ : option nat;
  published : list Z;
  rdma_writes : list (nat * list Z);
}.

(** The member initialisers and [Init] (core/running_trx_list.cpp:64-73). *)
Definition running_init (rdma : bool) (rank size : nat) (junk : list Z) : RunningTrxList :=
  mk_running rdma rank size ∅ 0 0 0 ∅ None None (SetValue 0 junk) [].

Definition set_list (s : RunningTrxList) h n m hd tl : RunningTrxList :=
  mk_running (use_rdma s) (local_rank s) (local_size s) h n (min_bt s) (max_bt s) m hd tl
    (published s) (rdma_writes s).

(** [RunningTrxList::UpdateMinBT] (core/running_trx_list.cpp:121-146). *)
Definition UpdateMinBT (s : RunningTrxList) (b : Z) : option RunningTrxList :=
  if min_bt s =? b then Some s
  else if min_bt s <? b then
    let line := SetValue b (take 4 (drop 2 (published s))) in
    Some (mk_running (use_rdma s) (local_rank s) (local_size s) (heap s) (next_addr s) b (max_bt s)
            (list_node_map s) (head_ s) (tail_ s)
            (if use_rdma s then line else published s)
            (if use_rdma s
             then rdma_writes s ++ ((fun i => (i, line)) <$>
                    filter (fun i => i <> local_rank s) (seq 0 (local_size s)))
             else rdma_writes s))
  else None.

(** [RunningTrxList::InsertTrx] (core/running_trx_list.cpp:46-62). *)
Definition InsertTrx (s : RunningTrxList) (b : Z) : option RunningTrxList :=
  let a := next_addr s in
  s1 ← match head_ s with
       | None =>
           UpdateMinBT (set_list s (<[a := mk_node None None b]> (heap s)) (S a)
                          (list_node_map s) (Some a) (Some a)) b
       | Some _ =>
           t ← tail_ s;
           nt ← heap s !! t;
           Some (set_list s
                   (<[a := mk_node (Some t) None b]>
                      (<[t := mk_node (left nt) (Some a) (bt nt)]> (heap s)))
                   (S a) (list_node_map s) (head_ s) (Some a))
       end;
  Some (mk_running (use_rdma s1) (local_rank s1) (local_size s1) (heap s1) (next_addr s1)
          (min_bt s1) b (<[b := a]> (list_node_map s1)) (head_ s1) (tail_ s1)
          (published s1) (rdma_writes s1)).

Definition set_left (h : gmap nat ListNode) (a : nat) (l : option nat) : option (gmap nat ListNode) :=
  n ← h !! a; Some (<[a := mk_node l (right n) (bt n)]> h).
Definition set_right (h : gmap nat ListNode) (a : nat) (r : option nat) : option (gmap nat ListNode) :=
  n ← h !! a; Some (<[a := mk_node (left n) r (bt n)]> h).

(** [RunningTrxList::EraseTrx] (core/running_trx_list.cpp:75-101). *)
Definition EraseTrx (s : RunningTrxList) (b : Z) : option RunningTrxList :=
  a ← list_node_map s !! b;
  n ← heap s !! a;
  s1 ← match left n, right n with
       | None, None =>
           UpdateMinBT (set_list s (heap s) (next_addr s) (list_node_map s) None None)
             (u64 (max_bt s + 1))
       | None, Some r =>
           h ← set_left (heap s) r None;
           nr ← h !! r;
           UpdateMinBT (set_list s h (next_addr s) (list_node_map s) (Some r) (tail_ s)) (bt nr)
       | Some l, None =>
           t ← tail_ s; nt ← heap s !! t;
           h ← set_right (heap s) l None;
           Some (set_list s h (next_addr s) (list_node_map s) (head_ s) (left nt))
       | Some l, Some r =>
           h ← set_right (heap s) l (Some r);
           h' ← set_left h r (Some l);
           Some (set_list s h' (next_addr s) (list_node_map s) (head_ s) (tail_ s))
       end;
  Some (set_list s1 (delete a (heap s1)) (next_addr s1) (delete b (list_node_map s1))
          (head_ s1) (tail_ s1)).

(** ** The global bound *)

(** [RunningTrxList::UpdateGlobalMinBT], RDMA branch
    (core/running_trx_list.cpp:150-158): the lines of all workers; a line that
    never becomes consistent is [None]. *)
Definition UpdateGlobalMinBT_rdma (rdma_mem : list (list Z)) : option Z :=
  foldl (fun acc cline => g ← acc; m ← GetValue cline; Some (Z.max g m)) (Some 0) rdma_mem.

(** [RunningTrxList::UpdateGlobalMinBT], message branch
    (core/running_trx_list.cpp:159-173): own minimum and the replies of the
    others ([ProcessReadMinBTRequest] sends [GetMinBT]). *)
Definition UpdateGlobalMinBT_tcp (min_bts : list Z) : Z :=
  foldl (fun g m => Z.max g m) 0 min_bts.

(** ** The queue behind the pointers *)

(** The nodes [l] (address, begin time) form a doubly linked segment between
    the neighbours [p] and [n]. *)
Fixpoint dll (h : gmap nat ListNode) (p : option nat) (l : list (nat * Z)) (n : option nat) : Prop :=
  match l with
  | [] => True
  | (a, b) :: l' =>
      h !! a = Some (mk_node p (from_option (fun x => Some x.1) n (head l')) b) /\
      dll h (Some a) l' n
  end.

Definition first_addr (l : list (nat * Z)) (n : option nat) : option nat :=
  from_option (fun x => Some x.1) n (head l).
Definition last_addr (l : list (nat * Z)) (p : option nat) : option nat :=
  from_option (fun x => Some x.1) p (last l).

(** What the scalars and the hash map say about the queue. *)
Record queue_ok (next : nat) (mn mx : Z) (m : gmap Z nat) (l : list (nat * Z)) : Prop := {
  q_addrs : NoDup l.*1;
  q_fresh : Forall (fun x => (x.1 < next)%nat) l;
  q_map b a : m !! b = Some a <-> (a, b) ∈ l;
  q_sorted : StronglySorted Z.lt l.*2;
  q_max : Forall (fun x => x.2 <= mx) l;
  q_bound : 0 <= mx < 2 ^ 63 /\ 0 <= mn <= mx + 1;
  q_min : match l with [] => True | x :: _ => mn = x.2 end;
}.

(** The state represents the queue [l] of nodes. *)
Record repr (s : RunningTrxList) (l : list (nat * Z)) : Prop := {
  r_dll : dll (heap s) None l None;
  r_head : head_ s = first_addr l None;
  r_tail : tail_ s = last_addr l None;
  r_queue : queue_ok (next_addr s) (min_bt s) (max_bt s) (list_node_map s) l;
}.

Lemma dll_app h p l1 l2 n :
  dll h p (l1 ++ l2) n <-> dll h p l1 (first_addr l2 n) /\ dll h (last_addr l1 p) l2 n.
Proof.
  revert p. induction l1 as [|[a b] l1 IH]; intros p; cbn; [naive_solver|].
  rewrite IH. assert (last_addr ((a, b) :: l1) p = last_addr l1 (Some a)) as ->
    by (unfold last_addr; rewrite last_cons; by destruct (last l1)).
  destruct l1 as [|x l1]; cbn; [by destruct l2; naive_solver|naive_solver].
Qed.

(** A write outside of the segment does not touch it. *)
Lemma dll_frame h h' p l n :
  (forall a, a ∈ l.*1 -> h' !! a = h !! a) -> dll h p l n -> dll h' p l n.
Proof.
  revert p. induction l as [|[a b] l IH]; intros p Hh; cbn; [done|].
  intros [H1 H2]. split; [rewrite Hh; [done|by left]|].
  apply IH; [|done]. intros a' Ha'. apply Hh. by right.
Qed.

Lemma dll_lookup h p l n a b :
  dll h p l n -> (a, b) ∈ l -> exists x y, h !! a = Some (mk_node x y b).
Proof.
  revert p. induction l as [|[a' b'] l IH]; intros p; cbn; [by intros _ ?%elem_of_nil|].
  intros [H1 H2] [[= -> ->]|Hin]%elem_of_cons; [by eauto|by eapply IH].
Qed.

(** Writing the [right] field of the last node, the [left] field of the
    first one. *)
Lemma dll_set_right h p l1 a b n n' :
  NoDup (l1 ++ [(a, b)]).*1 -> dll h p (l1 ++ [(a, b)]) n ->
  exists h', set_right h a n' = Some h' /\ dll h' p (l1 ++ [(a, b)]) n' /\
    forall a', a' <> a -> h' !! a' = h !! a'.
Proof.
  intros Hnd Hd. rewrite fmap_app, NoDup_app in Hnd. destruct Hnd as (_ & Hni & _).
  apply dll_app in Hd as [H1 H2]. cbn in H2. destruct H2 as [Ha _].
  unfold set_right. rewrite Ha. cbn. eexists. split; [done|]. split.
  - apply dll_app. split.
    + eapply dll_frame; [|exact H1]. intros a' Ha'. rewrite lookup_insert_ne; [done|].
      intros <-. apply (Hni a Ha'). by left.
    + cbn. by rewrite lookup_insert_eq.
  - intros a' Ha'. by rewrite lookup_insert_ne.
Qed.

Lemma dll_set_left h p p' a b l n :
  NoDup ((a, b) :: l).*1 -> dll h p ((a, b) :: l) n ->
  exists h', set_left h a p' = Some h' /\ dll h' p' ((a, b) :: l) n /\
    (forall a', a' <> a -> h' !! a' = h !! a') /\
    exists y, h' !! a = Some (mk_node p' y b).
Proof.
  intros Hnd [Ha Hl]. cbn in Hnd. apply NoDup_cons in Hnd as [Hni _].
  unfold set_left. rewrite Ha. cbn. eexists. split; [done|]. split_and!.
  - by rewrite lookup_insert_eq.
  - eapply dll_frame; [|exact Hl]. intros a' Ha'. rewrite lookup_insert_ne; [done|]. by intros <-.
  - intros a' Ha'. by rewrite lookup_insert_ne.
  - rewrite lookup_insert_eq. by eexists.
Qed.

Lemma first_addr_app l1 l2 n : first_addr (l1 ++ l2) n = first_addr l1 (first_addr l2 n).
Proof. by destruct l1. Qed.
Lemma last_addr_app l1 l2 p : last_addr (l1 ++ l2) p = last_addr l2 (last_addr l1 p).
Proof.
  destruct l2 as [|x l2 _] using rev_ind; [by rewrite app_nil_r|].
  unfold last_addr. by rewrite app_assoc, !last_snoc.
Qed.

(** [UpdateMinBT] succeeds when the bound does not decrease and touches only
    the bound and its published copies. *)
Lemma UpdateMinBT_ok s b :
  min_bt s <= b -> exists s', UpdateMinBT s b = Some s' /\ min_bt s' = b /\
    heap s' = heap s /\ next_addr s' = next_addr s /\ max_bt s' = max_bt s /\
    list_node_map s' = list_node_map s /\ head_ s' = head_ s /\ tail_ s' = tail_ s.
Proof.
  intros Hle. unfold UpdateMinBT. destruct (Z.eqb_spec (min_bt s) b) as [<-|Hne]; [by exists s|].
  destruct (Z.ltb_spec (min_bt s) b); [|lia]. by eexists.
Qed.

Lemma sorted_snoc (l : list Z) b :
  StronglySorted Z.lt l -> Forall (fun x => x < b) l -> StronglySorted Z.lt (l ++ [b]).
Proof.
  intros Hs Hf. induction Hs as [|x l Hs IH Hx]; cbn; [repeat constructor|].
  apply Forall_cons in Hf as [Hxb Hf]. constructor; [by apply IH|].
  apply Forall_app. split; [done|]. by constructor.
Qed.

(** Appending a later begin time, removing any one. *)
Lemma queue_snoc next mn mx m l b :
  queue_ok next mn mx m l -> mx < b < 2 ^ 63 ->
  queue_ok (S next) (match l with [] => b | _ => mn end) b (<[b := next]> m) (l ++ [(next, b)]) /\
  next ∉ l.*1.
Proof.
  intros [Hnd Hfr Hmap Hso Hmx Hbd Hmn] Hb.
  assert (next ∉ l.*1) as Hni.
  { intros (x & -> & Hx)%list_elem_of_fmap. rewrite Forall_forall in Hfr.
    specialize (Hfr x Hx). cbn in Hfr. lia. }
  assert (b ∉ l.*2) as Hnb.
  { intros (x & -> & Hx)%list_elem_of_fmap. rewrite Forall_forall in Hmx.
    specialize (Hmx x Hx). cbn in Hmx. lia. }
  split; [|done]. split.
  - rewrite fmap_app, NoDup_app. split_and!; [done| |by apply NoDup_singleton].
    intros x Hx. cbn. rewrite list_elem_of_singleton. by intros ->.
  - apply Forall_app. split; [|repeat constructor; cbn; lia].
    eapply Forall_impl; [exact Hfr|]. cbn. lia.
  - intros b' a'. rewrite elem_of_app, list_elem_of_singleton, lookup_insert_Some, Hmap.
    split; [naive_solver|]. intros [Hin|[= -> ->]]; [|by left].
    right. split; [|done]. intros <-. apply Hnb. apply list_elem_of_fmap. by exists (a', b).
  - rewrite fmap_app. cbn. apply sorted_snoc; [done|]. apply Forall_fmap.
    eapply Forall_impl; [exact Hmx|]. cbn. lia.
  - apply Forall_app. split; [|by repeat constructor]. eapply Forall_impl; [exact Hmx|]. cbn. lia.
  - split; [lia|]. destruct l; lia.
  - by destruct l.
Qed.

Lemma sorted_remove (l1 l2 : list Z) b :
  StronglySorted Z.lt (l1 ++ b :: l2) -> StronglySorted Z.lt (l1 ++ l2).
Proof.
  induction l1 as [|x l1 IH]; cbn; intros Hs; inversion Hs as [|? ? Hs' Hf]; subst; [done|].
  constructor; [by apply IH|]. apply Forall_app in Hf as [? [? ?]%Forall_cons].
  by apply Forall_app.
Qed.

Lemma queue_remove next mn mx m l1 a b l2 :
  queue_ok next mn mx m (l1 ++ (a, b) :: l2) ->
  let mn' := match l1, l2 with [], [] => mx + 1 | [], x :: _ => x.2 | _, _ => mn end in
  queue_ok next mn' mx (delete b m) (l1 ++ l2) /\ mn <= mn' /\ a ∉ (l1 ++ l2).*1.
Proof.
  intros [Hnd Hfr Hmap Hso Hmx Hbd Hmn] mn'.
  apply Forall_app in Hfr as [Hf1 [_ Hf2]%Forall_cons].
  apply Forall_app in Hmx as [Hm1 [Hmb Hm2]%Forall_cons]. cbn in Hmb.
  rewrite fmap_app, fmap_cons in Hnd. rewrite fmap_app, fmap_cons in Hso. cbn in Hnd, Hso.
  assert ((a ∉ (l1 ++ l2).*1) /\ NoDup (l1 ++ l2).*1) as [Hni Hnd'].
  { rewrite fmap_app. apply NoDup_cons. by rewrite Permutation_middle. }
  assert (mn <= mn' /\ 0 <= mn' <= mx + 1) as [Hle Hmn'].
  { unfold mn'. destruct l1 as [|y l1]; [|lia]. cbn in Hmn. subst mn. destruct l2 as [|x l2]; [lia|].
    cbn in Hso. inversion Hso as [|? ? _ Hf]; subst. apply Forall_cons in Hf as [Hx _].
    apply Forall_cons in Hm2 as [Hx2 _]. lia. }
  split_and!; [|done|done]. split; try done.
  - by apply Forall_app.
  - intros b' a'. rewrite lookup_delete_Some, Hmap, !elem_of_app, elem_of_cons.
    split; [naive_solver|]. intros Hin. split; [|naive_solver]. intros <-.
    assert ((a', b) ∈ l1 ++ (a, b) :: l2) as Hin' by (rewrite elem_of_app, elem_of_cons; naive_solver).
    apply Hmap in Hin'. assert (m !! b = Some a) as Ha by (apply Hmap; rewrite elem_of_app, elem_of_cons; naive_solver).
    rewrite Ha in Hin'. injection Hin' as <-. apply Hni. apply list_elem_of_fmap. exists (a, b).
    split; [done|]. apply elem_of_app. naive_solver.
  - rewrite fmap_app. by eapply sorted_remove.
  - by apply Forall_app.
  - split; [lia|done].
  - unfold mn'. destruct l1 as [|y l1]; [by destruct l2|]. by cbn in *.
Qed.

Lemma InsertTrx_ok s l b :
  repr s l -> max_bt s < b < 2 ^ 63 ->
  exists s', InsertTrx s b = Some s' /\ repr s' (l ++ [(next_addr s, b)]) /\ max_bt s' = b /\
    min_bt s' = match l with [] => b | _ => min_bt s end.
Proof.
  intros [Hd Hh Ht Hq] Hb. unfold InsertTrx. set (a := next_addr s) in *.
  destruct (queue_snoc _ _ _ _ _ b Hq Hb) as [Hq' Hni]. fold a in Hq', Hni.
  pose proof (q_bound _ _ _ _ _ Hq) as Hbd.
  destruct l as [|x l _] using rev_ind.
  - rewrite Hh. cbn [first_addr head from_option].
    destruct (UpdateMinBT_ok (set_list s (<[a:=mk_node None None b]> (heap s)) (S a)
      (list_node_map s) (Some a) (Some a)) b) as (s' & -> & Hmin & Hhe & Hna & Hma & Hlm & Hhd & Htl);
      [cbn; lia|]. cbn [mbind option_bind]. eexists. split; [done|]. cbn in *. split_and!; [|done|done].
    split; cbn in *; try done; [|by rewrite Hna, Hmin, Hlm].
    rewrite Hhe. by rewrite lookup_insert_eq.
  - rewrite Hh, Ht.
    assert (exists f, first_addr (l ++ [x]) None = Some f) as [f Hf] by (destruct l; by eexists).
    rewrite Hf. unfold last_addr. rewrite last_snoc. cbn [from_option mbind option_bind].
    destruct x as [t tb]. cbn [fst].
    destruct (dll_set_right (heap s) None l t tb None (Some a) (q_addrs _ _ _ _ _ Hq) Hd)
      as (h' & Hh' & Hd' & _).
    unfold set_right in Hh'. destruct (heap s !! t) as [nt|]; [|done].
    cbn [mbind option_bind] in Hh' |- *. injection Hh' as ->.
    eexists. split; [done|]. cbn. split_and!; [|done|by destruct l].
    split; cbn; [|rewrite <- Hf; by destruct l|unfold last_addr; by rewrite last_snoc|by destruct l].
    apply dll_app. split.
    + eapply dll_frame; [|exact Hd']. intros a' Ha'. rewrite lookup_insert_ne; [done|]. by intros <-.
    + cbn. rewrite lookup_insert_eq. unfold last_addr. by rewrite last_snoc.
Qed.

(** Removing a node from the middle of two segments. *)
Section Remove.
Context (h : gmap nat ListNode) (l1 l2 : list (nat * Z)) (a : nat) (b : Z).
Hypothesis Hd : dll h None (l1 ++ (a, b) :: l2) None.
Hypothesis Hnd : NoDup (l1 ++ (a, b) :: l2).*1.

Lemma remove_node : h !! a = Some (mk_node (last_addr l1 None) (first_addr l2 None) b).
Proof using Hd. apply dll_app in Hd as [_ [Ha _]]. exact Ha. Qed.

Lemma remove_nodups :
  NoDup l1.*1 /\ NoDup l2.*1 /\ (a ∉ l1.*1) /\ (a ∉ l2.*1) /\ (forall x, x ∈ l1.*1 -> x ∉ l2.*1).
Proof using Hnd.
  clear Hd. rewrite fmap_app, fmap_cons in Hnd. apply NoDup_app in Hnd as (H1 & H2 & H3).
  apply NoDup_cons in H3 as [H3 H4]. split_and!; try done.
  - intros Ha. apply (H2 a Ha). by left.
  - intros x Hx Hx2. apply (H2 x Hx). by right.
Qed.

(** The heap after the two neighbours were linked and the node freed. *)
Lemma remove_dll h' :
  dll h' None l1 (first_addr l2 None) -> dll h' (last_addr l1 None) l2 None ->
  dll (delete a h') None (l1 ++ l2) None.
Proof using Hnd.
  intros H1 H2. destruct remove_nodups as (_ & _ & Ha1 & Ha2 & _).
  apply dll_app. split; (eapply dll_frame; [|done]); intros x Hx; rewrite lookup_delete_ne; try done;
    by intros <-.
Qed.
End Remove.

Lemma EraseTrx_ok s l1 a b l2 :
  repr s (l1 ++ (a, b) :: l2) ->
  exists s', EraseTrx s b = Some s' /\ repr s' (l1 ++ l2) /\ min_bt s <= min_bt s' /\
    max_bt s' = max_bt s.
Proof.
  intros [Hd Hh Ht Hq]. destruct (queue_remove _ _ _ _ _ _ _ _ Hq) as (Hq' & Hle & _).
  pose proof (q_addrs _ _ _ _ _ Hq) as Hnd. pose proof (q_bound _ _ _ _ _ Hq) as Hbd.
  destruct (remove_nodups l1 l2 a b Hnd) as (Hn1 & Hn2 & Ha1 & Ha2 & Hdisj).
  assert (list_node_map s !! b = Some a) as Hmap
    by (apply (q_map _ _ _ _ _ Hq); apply elem_of_app; right; by left).
  unfold EraseTrx. rewrite Hmap. cbn [mbind option_bind].
  rewrite (remove_node _ _ _ _ _ Hd). cbn [mbind option_bind left right].
  pose proof Hd as Hd0. apply dll_app in Hd as [Hd1 Hd2]. cbn [first_addr head from_option fst] in Hd1.
  destruct Hd2 as [_ Hd2].
  destruct l1 as [|[l lb] l1 _] using rev_ind; destruct l2 as [|[r rb] l2].
  - cbn [last_addr first_addr last head from_option]. rewrite wrap_small by (unfold fits; lia).
    destruct (UpdateMinBT_ok (set_list s (heap s) (next_addr s) (list_node_map s) None None)
      (max_bt s + 1)) as (s' & -> & Hmin & Hhe & Hna & Hma & Hlm & Hhd & Htl); [cbn; lia|].
    cbn [mbind option_bind]. eexists. split; [done|]. cbn in *. split_and!; [|lia|done].
    split; cbn; try done. by rewrite Hna, Hma, Hlm, Hmin.
  - cbn [last_addr first_addr last head from_option fst].
    destruct (dll_set_left (heap s) (Some a) None r rb l2 None Hn2 Hd2) as (h' & -> & Hd' & Hfr & y & Hr).
    cbn [mbind option_bind]. rewrite Hr. cbn [mbind option_bind bt].
    destruct (UpdateMinBT_ok (set_list s h' (next_addr s) (list_node_map s) (Some r) (tail_ s)) rb)
      as (s' & -> & Hmin & Hhe & Hna & Hma & Hlm & Hhd & Htl); [exact Hle|].
    cbn [mbind option_bind]. eexists. split; [done|]. cbn in *. split_and!; [|lia|done].
    split; cbn; [|done| |by rewrite Hna, Hma, Hlm, Hmin].
    + rewrite Hhe. by apply (remove_dll [] ((r, rb) :: l2) a b).
    + rewrite Htl, Ht. by rewrite !last_addr_app || done.
  - rewrite app_nil_r in *. assert (last_addr (l1 ++ [(l, lb)]) None = Some l) as ->
      by (unfold last_addr; by rewrite last_snoc).
    cbn [first_addr head from_option]. rewrite Ht. unfold last_addr at 1. rewrite last_snoc.
    cbn [from_option fst mbind option_bind]. rewrite (remove_node _ _ _ _ _ Hd0).
    cbn [mbind option_bind left].
    destruct (dll_set_right (heap s) None l1 l lb (Some a) None Hn1 Hd1) as (h' & -> & Hd' & Hfr).
    cbn [mbind option_bind]. eexists. split; [done|]. cbn. split_and!; [|lia|done].
    split; cbn; [|rewrite Hh; by destruct l1|done|by destruct l1].
    rewrite <- (app_nil_r (l1 ++ [(l, lb)])). by apply (remove_dll _ [] a b).
  - assert (last_addr (l1 ++ [(l, lb)]) None = Some l) as Hl
      by (unfold last_addr; by rewrite last_snoc).
    rewrite Hl. cbn [first_addr head from_option fst].
    destruct (dll_set_right (heap s) None l1 l lb (Some a) (Some r) Hn1 Hd1) as (h1 & -> & Hd1' & Hfr1).
    cbn [mbind option_bind].
    assert (l ∈ (l1 ++ [(l, lb)]).*1) as Hlin
      by (rewrite fmap_app; apply elem_of_app; right; by left).
    destruct (dll_set_left h1 (Some a) (Some l) r rb l2 None Hn2) as (h2 & -> & Hd2' & Hfr2 & _).
    { eapply dll_frame; [|exact Hd2]. intros x Hx. apply Hfr1. intros ->. by apply (Hdisj l). }
    cbn [mbind option_bind]. eexists. split; [done|]. cbn. split_and!; [|lia|done].
    split; cbn; [|rewrite Hh; by destruct l1| |by destruct l1].
    + apply (remove_dll _ ((r, rb) :: l2) a b); [done| |by rewrite Hl].
      eapply dll_frame; [|exact Hd1']. intros x Hx. apply Hfr2. intros ->.
      apply (Hdisj r Hx). by left.
    + rewrite Ht. rewrite !last_addr_app. by destruct l2 as [|? ? _] using rev_ind.
Qed.

(** ** The specification: a queue of begin times *)

Inductive rop := Ins (b : Z) | Ers (b : Z).

(** Running transactions in insertion order and the newest begin time so far.
    A caller inserts increasing begin times and erases running ones. *)
Definition spec_step (q : list Z * Z) (op : rop) : option (list Z * Z) :=
  match op with
  | Ins b => if bool_decide (q.2 < b < 2 ^ 63) then Some (q.1 ++ [b], b) else None
  | Ers b => if bool_decide (b ∈ q.1) then Some (filter (fun x => x <> b) q.1, q.2) else None
  end.
Definition impl_step (s : RunningTrxList) (op : rop) : option RunningTrxList :=
  match op with Ins b => InsertTrx s b | Ers b => EraseTrx s b end.

Fixpoint spec_run (q : list Z * Z) (ops : list rop) : option (list Z * Z) :=
  match ops with [] => Some q | op :: ops' => q' ← spec_step q op; spec_run q' ops' end.
Fixpoint impl_run (s : RunningTrxList) (ops : list rop) : option RunningTrxList :=
  match ops with [] => Some s | op :: ops' => s' ← impl_step s op; impl_run s' ops' end.

Definition sim (s : RunningTrxList) (q : list Z * Z) : Prop :=
  exists l, repr s l /\ l.*2 = q.1 /\ max_bt s = q.2.

Lemma sim_init rdma rank size junk : sim (running_init rdma rank size junk) ([], 0).
Proof.
  exists []. split_and!; try done. split; try done. split; cbn; try done; try by constructor.
  - intros b a. rewrite lookup_empty. split; [done|]. by intros ?%elem_of_nil.
Qed.

Lemma filter_remove (l1 l2 : list Z) b :
  StronglySorted Z.lt (l1 ++ b :: l2) -> filter (fun x => x <> b) (l1 ++ b :: l2) = l1 ++ l2.
Proof.
  intros Hs. rewrite filter_app, filter_cons_False by naive_solver.
  assert (Forall (fun x => x <> b) l1 /\ Forall (fun x => x <> b) l2) as [H1 H2].
  { clear -Hs. induction l1 as [|x l1 IH]; cbn in Hs; inversion Hs as [|? ? Hs' Hf]; subst.
    - split; [done|]. eapply Forall_impl; [exact Hf|]. cbn. lia.
    - destruct (IH Hs') as [? ?]. split; [|done]. constructor; [|done].
      apply Forall_app in Hf as [_ [? _]%Forall_cons]. lia. }
  by rewrite !filter_all.
Qed.

(** Every call that the specification allows succeeds and is simulated. *)
Lemma sim_step s q op q' :
  sim s q -> spec_step q op = Some q' ->
  exists s', impl_step s op = Some s' /\ sim s' q' /\ min_bt s <= min_bt s'.
Proof.
  intros (l & Hr & Hl & Hm). destruct op as [b|b]; cbn; intros Hs; case_bool_decide as Hc; [|done| |done];
    injection Hs as <-.
  - destruct (InsertTrx_ok s l b Hr) as (s' & Hi & Hr' & Hmx & Hmn); [lia|].
    exists s'. split_and!; [done|..].
    + exists (l ++ [(next_addr s, b)]). split_and!; [done| |done]. rewrite fmap_app. cbn. by rewrite Hl.
    + rewrite Hmn. pose proof (q_bound _ _ _ _ _ (r_queue _ _ Hr)). destruct l; lia.
  - rewrite <- Hl in Hc. apply list_elem_of_fmap in Hc as ([a b'] & -> & Hin). cbn [snd] in *.
    apply list_elem_of_split in Hin as (l1 & l2 & ->).
    destruct (EraseTrx_ok s l1 a b' l2 Hr) as (s' & He & Hr' & Hle & Hmx).
    exists s'. split_and!; [done| |done]. exists (l1 ++ l2). split_and!; [done| |by rewrite Hmx].
    rewrite <- Hl. rewrite !fmap_app, fmap_cons. cbn. rewrite filter_remove; [done|].
    pose proof (q_sorted _ _ _ _ _ (r_queue _ _ Hr)) as Hso. by rewrite fmap_app, fmap_cons in Hso.
Qed.

Lemma sim_run s q ops q' :
  sim s q -> spec_run q ops = Some q' ->
  exists s', impl_run s ops = Some s' /\ sim s' q' /\ min_bt s <= min_bt s'.
Proof.
  revert s q. induction ops as [|op ops IH]; cbn; intros s q Hs Hq; [simplify_eq; by exists s|].
  destruct (spec_step q op) as [q1|] eqn:Hst; [|done]. cbn in Hq.
  destruct (sim_step s q op q1 Hs Hst) as (s1 & -> & Hs1 & Hle1). cbn.
  destruct (IH s1 q1 Hs1 Hq) as (s' & Hr & Hs' & Hle). exists s'. split_and!; [done..|lia].
Qed.

Lemma sim_min s q : sim s q ->
  (forall b, b ∈ q.1 -> min_bt s <= b) /\ (q.1 <> [] -> min_bt s ∈ q.1).
Proof.
  intros (l & Hr & Hl & Hm). pose proof (r_queue _ _ Hr) as Hq. rewrite <- Hl.
  destruct l as [|[a b] l]; [split; [intros b Hb; by apply elem_of_nil in Hb|done]|].
  pose proof (q_min _ _ _ _ _ Hq) as Hmn. pose proof (q_sorted _ _ _ _ _ Hq) as Hso. cbn in *.
  inversion Hso as [|? ? _ Hf]; subst. split; [|intros _; by left].
  intros x [->|Hx]%elem_of_cons; [lia|]. rewrite Forall_forall in Hf. specialize (Hf x Hx). lia.
Qed.

(** ** The published line and the global bound *)

Lemma GetValue_SetValue v junk :
  fits 64 v -> length junk = 4%nat -> GetValue (SetValue v junk) = Some v.
Proof.
  intros Hv Hj. destruct junk as [|j0 [|j1 [|j2 [|j3 [|]]]]]; try done. cbn.
  by rewrite !Z.eqb_refl.
Qed.

Lemma foldl_max_spec (l : list Z) g :
  g <= foldl Z.max g l /\ (forall m, m ∈ l -> m <= foldl Z.max g l) /\
  (foldl Z.max g l = g \/ foldl Z.max g l ∈ l).
Proof.
  revert g. induction l as [|x l IH]; intros g; cbn.
  { split_and!; [lia|by intros m ?%elem_of_nil|by left]. }
  destruct (IH (Z.max g x)) as (H1 & H2 & H3). split_and!; [lia| |].
  - intros m [->|Hm]%elem_of_cons; [lia|by apply H2].
  - destruct H3 as [H3|H3]; [|right; by right]. rewrite H3.
    destruct (Z.max_spec g x) as [[_ ->]|[_ ->]]; [right; by left|by left].
Qed.

Lemma rdma_tcp_agree vals junks :
  length junks = length vals -> Forall (fits 64) vals -> Forall (fun j => length j = 4%nat) junks ->
  forall g, foldl (fun acc cline => a ← acc; m ← GetValue cline; Some (Z.max a m)) (Some g)
    (zip_with SetValue vals junks) = Some (foldl Z.max g vals).
Proof.
  revert junks. induction vals as [|v vals IH]; intros [|j junks] Hl Hv Hj g; try done.
  apply Forall_cons in Hv as [Hv Hvs], Hj as [Hj Hjs]. cbn [zip_with foldl].
  rewrite GetValue_SetValue by done. cbn [mbind option_bind]. apply IH; [by injection Hl|done..].
Qed.

(** ** Properties *)



(** The "global minimum" begin time that garbage collection reads is the
    maximum of the workers' minima, over RDMA and over messages alike: it is
    above the minimum of every worker whose minimum is not the largest, so it
    is no lower bound of the running begin times unless all workers agree. *)
Theorem global_min_bt_is_max vals junks :
  vals <> [] -> length junks = length vals -> Forall (fits 64) vals ->
  Forall (fun j => length j = 4%nat) junks ->
  exists g, UpdateGlobalMinBT_rdma (zip_with SetValue vals junks) = Some g /\
    UpdateGlobalMinBT_tcp vals = g /\ (forall m, m ∈ vals -> m <= g) /\ g ∈ vals /\
    ((forall m, m ∈ vals -> g <= m) <-> forall m m', m ∈ vals -> m' ∈ vals -> m = m').
Proof.
  intros Hne Hlen Hv Hj. exists (foldl Z.max 0 vals).
  destruct (foldl_max_spec vals 0) as (H1 & H2 & H3).
  assert (foldl Z.max 0 vals ∈ vals) as Hin.
  { destruct H3 as [H3|H3]; [|done]. destruct vals as [|v vals]; [done|].
    assert (v = 0) as ->; [|rewrite H3; by left].
    apply Forall_cons in Hv as [[? _] _]. specialize (H2 v ltac:(by left)). lia. }
  split_and!; try done; [by apply rdma_tcp_agree|]. split.
  - intros Hlow m m' Hm Hm'. pose proof (H2 m Hm). pose proof (H2 m' Hm').
    pose proof (Hlow m Hm). pose proof (Hlow m' Hm'). lia.
  - intros Heq m Hm. by rewrite (Heq m _ Hm Hin).
Qed.

Lemma global_min_bt_is_max_witness :
  exists g, UpdateGlobalMinBT_tcp [40; 7] = g /\ 7 < g.
Proof.
  destruct (global_min_bt_is_max [40; 7] [[0; 0; 0; 0]; [0; 0; 0; 0]]) as (g & _ & Hg & Hmax & _);
    [done|done|repeat apply Forall_cons_2; try apply Forall_nil; by vm_compute|by repeat constructor|].
  exists g. split; [done|]. specialize (Hmax 40 ltac:(by left)). lia.
Defined.
