(* ===== verification/Coordinator.v ===== *)
(** * Identifiers, timestamps and placement across the workers

    What makes ids and timestamps unique in the cluster
    (core/coordinator.cpp, utils/distributed_clock), which worker owns which
    vertex, edge and property (core/id_mapper.hpp, DataStorage::AssignVID),
    and the tagged cache line of the clock calibration.  MPI ranks and sizes
    are arguments ([rank], [size]); the hardware clock is an argument of the
    timestamp functions. *)
From S2P Require Import Prelude MyMath Types TrxStatus.
Local Open Scope Z_scope.
Local Open Scope word_scope.

(** ** Transaction ids *)

(** [Coordinator::RegisterTrx] (core/coordinator.cpp:62-64): the new id and
    the counter after the atomic increment. *)
Definition RegisterTrx (next size rank : Z) : Z * Z :=
  (Z.lor TRX_ID_MASK (((next *64 size) +64 rank) <<64 QID_BITS), next +64 1).

(** [Coordinator::GetWorkerFromTrxID] (core/coordinator.cpp:66-69). *)
Definition GetWorkerFromTrxID (size trx_id : Z) : option Z :=
  if IS_VALID_TRX_ID trx_id
  then Some (i32 ((Z.lxor trx_id TRX_ID_MASK >> QID_BITS) mod u64 size)) else None.

(** ** Timestamps *)

Definition TIMESTAMP_MACHINE_ID_BITS : Z := 8.

(** [DistributedClock::GetTimestamp] (utils/distributed_clock.cpp:36-46), of
    the refined clock value; [None] is the failed [assert] on its width. *)
Definition GetTimestamp (nano_sec rank : Z) : option Z :=
  if nano_sec >> (64 - 1 - TIMESTAMP_MACHINE_ID_BITS) =? 0
  then Some ((nano_sec <<64 TIMESTAMP_MACHINE_ID_BITS) +64 rank) else None.

(** [DistributedClock::DiffPosPair] (utils/distributed_clock.hpp:105-108). *)
Record DiffPosPair := mk_dp { dp_diff : Z; dp_pos : Z }.
(** [DiffPosPair::operator<] (utils/distributed_clock.hpp:109-113). *)
Definition dp_lt (l r : DiffPosPair) : bool :=
  if dp_diff l <? dp_diff r then true else dp_pos l <? dp_pos r.

(** The two clock readings of a calibration exchange and the correction
    (core/coordinator.cpp:191-195, the same on the other side at 211-215):
    [remote_ns - ns] as a signed word. *)
Definition calibration_delta (remote_ns ns : Z) : Z :=
  let delta := swrap 64 (remote_ns - ns) in if 0 <? delta then delta else 0.

(** The tag of an exchange (core/coordinator.cpp:181-181). *)
Definition calibration_tag (loop size partner round : Z) : Z :=
  (u64 (u64 (loop * (size - 1) * 2 * 4) + (partner - 1) * 4 + round * (size - 1) * 4)).

(** ** The tagged cache line *)

(** [Uint64CLineWithTag::SetValue] (core/coordinator.cpp:20-26); words 3 to 5
    are not initialised. *)
Definition SetTagged (val tag : Z) (junk : list Z) : list Z :=
  [tag; u64 (tag + 1); val] ++ junk ++ [tag; u64 (tag + 1)].

(** [Uint64CLineWithTag::GetValue] (core/coordinator.cpp:28-38). *)
Definition GetTagged (data : list Z) (tag : Z) : option Z :=
  w0 ← data !! 0%nat; w1 ← data !! 1%nat; w6 ← data !! 6%nat; w7 ← data !! 7%nat;
  if (w0 =? w6) && (w1 =? w7) && (u64 (w0 + 1) =? w1) && (w0 =? tag)
  then data !! 2%nat else None.

(** ** Placement *)

(** [SimpleIdMapper::GetMachineIdForVertex] (core/id_mapper.hpp:168-170):
    [uint32_t % int]. *)
Definition GetMachineIdForVertex (size : Z) (v : vid_t) : Z := i32 (vid_t2uint v mod u32 size).
(** [SimpleIdMapper::GetMachineIdForEdge] (core/id_mapper.hpp:172-177): the
    bit-fields promote to [int]. *)
Definition GetMachineIdForEdge (size : Z) (e : eid_t) (considerDstVtx : bool) : Z :=
  if considerDstVtx then Z.rem (dst_v e) size else Z.rem (src_v e) size.
(** [SimpleIdMapper::GetMachineIdForVProperty] (core/id_mapper.hpp:179-181). *)
Definition GetMachineIdForVProperty (size : Z) (p : vpid_t) : Z := Z.rem (vp_vid p) size.
(** [SimpleIdMapper::GetMachineIdForEProperty] (core/id_mapper.hpp:183-185). *)
Definition GetMachineIdForEProperty (size : Z) (p : epid_t) : Z := Z.rem (ep_src_vid p) size.
(** [SimpleIdMapper::IsVertexLocal] (core/id_mapper.hpp:151-153). *)
Definition IsVertexLocal (size rank : Z) (v : vid_t) : bool := GetMachineIdForVertex size v =? rank.
(** [SimpleIdMapper::IsEdgeLocal] (core/id_mapper.hpp:155-157). *)
Definition IsEdgeLocal (size rank : Z) (e : eid_t) : bool := GetMachineIdForEdge size e false =? rank.
(** [SimpleIdMapper::IsVPropertyLocal] (core/id_mapper.hpp:159-161). *)
Definition IsVPropertyLocal (size rank : Z) (p : vpid_t) : bool :=
  GetMachineIdForVProperty size p =? rank.
(** [SimpleIdMapper::IsEPropertyLocal] (core/id_mapper.hpp:163-165). *)
Definition IsEPropertyLocal (size rank : Z) (p : epid_t) : bool :=
  GetMachineIdForEProperty size p =? rank.

Definition VIDFLAG : Z := 0xFFFFFFFFFFFFFFFF >> (64 - VID_BITS).
Definition PIDLFLAG : Z := 0xFFFFFFFFFFFFFFFF >> (64 - 2 * VID_BITS).
Definition has_bits (x flag : Z) : bool := negb (Z.land x flag =? 0).

(** [IsVertex] (core/id_mapper.hpp:121-124). *)
Definition IsVertex (v_id : Z) : bool := has_bits v_id VIDFLAG.
(** [IsEdge] (core/id_mapper.hpp:126-131). *)
Definition IsEdge (e_id : Z) : bool := has_bits e_id VIDFLAG && has_bits (e_id >> VID_BITS) VIDFLAG.
(** [IsVProperty] (core/id_mapper.hpp:133-139). *)
Definition IsVProperty (vp_id : Z) : bool :=
  has_bits vp_id PIDLFLAG && has_bits ((vp_id >> PID_BITS) >> VID_BITS) VIDFLAG.
(** [IsEProperty] (core/id_mapper.hpp:141-148). *)
Definition IsEProperty (ep_id : Z) : bool :=
  has_bits ep_id PIDLFLAG && has_bits (ep_id >> PID_BITS) VIDFLAG &&
  has_bits ((ep_id >> PID_BITS) >> VID_BITS) VIDFLAG.

(** [NaiveIdMapper::GetMachineIdForVertex] (core/id_mapper.hpp:85-87). *)
Definition NaiveMachineIdForVertex (size : Z) (v : vid_t) : option Z :=
  hash_mod (hash_u64 (vid_t2uint v)) size.
(** [NaiveIdMapper::GetMachineIdForEdge] (core/id_mapper.hpp:89-91). *)
Definition NaiveMachineIdForEdge (size : Z) (e : eid_t) : option Z :=
  hash_mod (hash_u64 (eid_t2uint e)) size.
(** [NaiveIdMapper::GetMachineIdForVProperty] (core/id_mapper.hpp:105-107). *)
Definition NaiveMachineIdForVProperty (size : Z) (p : vpid_t) : option Z :=
  hash_mod (hash_u64 (vpid_t2uint p)) size.
(** [NaiveIdMapper::GetMachineIdForEProperty] (core/id_mapper.hpp:109-111). *)
Definition NaiveMachineIdForEProperty (size : Z) (p : epid_t) : option Z :=
  hash_mod (hash_u64 (epid_t2uint p)) size.

(** [DataStorage::AssignVID] (layout/data_storage.cpp:890-893): the new vertex
    and the local counter after the increment. *)
Definition AssignVID (num_of_vertex_local size rank : Z) : vid_t * Z :=
  let local_vid := i32 (num_of_vertex_local + 1) in
  (vid_of_int (i32 (i32 (local_vid * size) + rank)), local_vid).

(** ** Lemmas on the transaction bit *)

Lemma land_mask_low y : 0 <= y < 2 ^ 63 -> Z.land TRX_ID_MASK y = 0.
Proof.
  intros Hy. change TRX_ID_MASK with (2 ^ 63). apply Z.bits_inj'. intros n Hn.
  rewrite Z.land_spec, Z.pow2_bits_eqb, Z.bits_0 by lia.
  destruct (Z.eqb_spec 63 n) as [<-|]; [|done]. cbn [andb].
  destruct (decide (y = 0)) as [->|]; [apply Z.bits_0|].
  apply Z.bits_above_log2; [lia|]. apply Z.log2_lt_pow2; lia.
Qed.

Lemma lor_mask y : 0 <= y < 2 ^ 63 -> Z.lor TRX_ID_MASK y = 2 ^ 63 + y.
Proof.
  intros Hy. pose proof (Z.add_lor_land TRX_ID_MASK y) as H.
  rewrite land_mask_low in H by done. unfold TRX_ID_MASK in *. lia.
Qed.

Lemma lxor_mask y : 0 <= y < 2 ^ 63 -> Z.lxor (Z.lor TRX_ID_MASK y) TRX_ID_MASK = y.
Proof.
  intros Hy. rewrite <- Z.lxor_lor by (by apply land_mask_low).
  by rewrite (Z.lxor_comm TRX_ID_MASK), Z.lxor_assoc, Z.lxor_nilpotent, Z.lxor_0_r.
Qed.

Lemma valid_mask y : 0 <= y < 2 ^ 63 -> IS_VALID_TRX_ID (Z.lor TRX_ID_MASK y) = true.
Proof.
  intros Hy. unfold IS_VALID_TRX_ID. rewrite Z.land_lor_distr_l, Z.land_diag.
  rewrite (Z.land_comm y), land_mask_low by done. done.
Qed.

Lemma not_valid_low y : 0 <= y < 2 ^ 63 -> IS_VALID_TRX_ID y = false.
Proof. intros Hy. unfold IS_VALID_TRX_ID. by rewrite Z.land_comm, land_mask_low. Qed.

Lemma valid_ge y : fits 64 y -> IS_VALID_TRX_ID y = true <-> 2 ^ 63 <= y.
Proof.
  intros Hy. destruct (Z.lt_ge_cases y (2 ^ 63)) as [Hlt|Hge].
  - rewrite not_valid_low by (unfold fits in Hy; lia). split; [done|lia].
  - split; [done|intros _]. replace y with (Z.lor TRX_ID_MASK (y - 2 ^ 63)).
    + apply valid_mask. unfold fits in Hy. lia.
    + rewrite lor_mask; [lia|]. unfold fits in Hy. lia.
Qed.

Lemma RegisterTrx_eq n size rank :
  0 <= n -> 0 < size < 2 ^ 31 -> 0 <= rank < size -> n * size + rank < 2 ^ 55 ->
  (RegisterTrx n size rank).1 = Z.lor TRX_ID_MASK ((n * size + rank) * 2 ^ 8) /\
  0 <= (n * size + rank) * 2 ^ 8 < 2 ^ 63.
Proof.
  intros Hn Hs Hr Hb. assert (0 <= n * size) by nia. split; [|lia].
  unfold RegisterTrx. cbn [fst]. f_equal. unfold QID_BITS.
  rewrite Z.shiftl_mul_pow2 by lia.
  rewrite (wrap_small 64 (n * size)) by (unfold fits; lia).
  rewrite (wrap_small 64 (n * size + rank)) by (unfold fits; lia).
  apply wrap_small. unfold fits. lia.
Qed.

Lemma worker_of_trx n size rank :
  0 <= n -> 0 < size < 2 ^ 31 -> 0 <= rank < size -> n * size + rank < 2 ^ 55 ->
  GetWorkerFromTrxID size (RegisterTrx n size rank).1 = Some rank.
Proof.
  intros Hn Hs Hr Hb. destruct (RegisterTrx_eq n size rank) as [-> Hy]; try done.
  unfold GetWorkerFromTrxID. rewrite valid_mask, lxor_mask by done. f_equal.
  unfold QID_BITS. rewrite Z.shiftr_div_pow2, Z.div_mul by lia.
  rewrite (wrap_small 64 size) by (unfold fits; lia).
  rewrite Z.add_comm, Z_mod_plus_full, Z.mod_small by done.
  apply swrap_small; lia.
Qed.

(** Transaction ids are unique in the cluster: an id carries the
    transaction bit and a zero query part, its owner is recovered from it, and
    two registrations give the same id only on the same worker with the same
    counter (while the counter times the number of workers stays below
    [2^55]). *)
Theorem trx_ids_unique n1 n2 size r1 r2 :
  0 <= n1 -> 0 <= n2 -> 0 < size < 2 ^ 31 -> 0 <= r1 < size -> 0 <= r2 < size ->
  n1 * size + r1 < 2 ^ 55 -> n2 * size + r2 < 2 ^ 55 ->
  let t1 := (RegisterTrx n1 size r1).1 in
  IS_VALID_TRX_ID t1 = true /\ fits 64 t1 /\ t1 mod 256 = 0 /\
  GetWorkerFromTrxID size t1 = Some r1 /\
  (t1 = (RegisterTrx n2 size r2).1 -> n1 = n2 /\ r1 = r2).
Proof.
  intros Hn1 Hn2 Hs Hr1 Hr2 Hb1 Hb2 t1.
  pose proof (worker_of_trx n1 size r1 Hn1 Hs Hr1 Hb1) as Hw1. fold t1 in Hw1.
  pose proof (worker_of_trx n2 size r2 Hn2 Hs Hr2 Hb2) as Hw2.
  destruct (RegisterTrx_eq n1 size r1) as [E1 Hy1]; try done. fold t1 in E1.
  destruct (RegisterTrx_eq n2 size r2) as [E2 Hy2]; try done.
  split_and!; try done.
  - rewrite E1. by apply valid_mask.
  - rewrite E1, lor_mask by done. unfold fits. lia.
  - rewrite E1, lor_mask by done. change (2 ^ 63) with (2 ^ 55 * 256). change (2 ^ 8) with 256.
    rewrite <- Z.mul_add_distr_r. by apply Z.mod_mul.
  - intros E. rewrite <- E, Hw1 in Hw2. injection Hw2 as ->. split; [|done].
    rewrite E1, E2, !lor_mask in E by done. nia.
Qed.

Lemma trx_ids_unique_witness :
  let t := (RegisterTrx 41 3 2).1 in
  IS_VALID_TRX_ID t = true /\ GetWorkerFromTrxID 3 t = Some 2.
Proof.
  destruct (trx_ids_unique 41 42 3 2 1) as (H1 & _ & _ & H4 & _); [lia..|]. by split.
Defined.

(** Timestamps are unique in the cluster and never look like transaction
    ids: within the range that the clock checks, a timestamp encodes the clock
    value and the worker, grows with the clock, and has the transaction bit
    clear - so a version's [begin_time] field tells the two apart. *)
Theorem timestamps_unique ns1 ns2 r1 r2 t1 t2 :
  fits 64 ns1 -> fits 64 ns2 -> 0 <= r1 < 256 -> 0 <= r2 < 256 ->
  GetTimestamp ns1 r1 = Some t1 -> GetTimestamp ns2 r2 = Some t2 ->
  IS_VALID_TRX_ID t1 = false /\ 0 <= t1 < 2 ^ 63 /\
  (t1 = t2 -> ns1 = ns2 /\ r1 = r2) /\ (ns1 < ns2 -> t1 < t2).
Proof.
  unfold GetTimestamp, TIMESTAMP_MACHINE_ID_BITS. change (64 - 1 - 8) with 55.
  intros H1 H2 Hr1 Hr2 E1 E2.
  destruct (Z.eqb_spec (ns1 >> 55) 0) as [Hs1|]; [|done].
  destruct (Z.eqb_spec (ns2 >> 55) 0) as [Hs2|]; [|done].
  injection E1 as <-. injection E2 as <-.
  assert (ns1 < 2 ^ 55 /\ ns2 < 2 ^ 55) as [Hb1 Hb2] by (split; word_lia).
  assert ((ns1 <<64 8) +64 r1 = ns1 * 256 + r1) as -> by word_lia.
  assert ((ns2 <<64 8) +64 r2 = ns2 * 256 + r2) as -> by word_lia.
  unfold fits in *. split_and!; [apply not_valid_low; lia|lia..].
Qed.

Lemma timestamps_unique_witness :
  exists t1 t2, GetTimestamp 1000 1 = Some t1 /\ GetTimestamp 1001 0 = Some t2 /\ t1 < t2.
Proof.
  exists 256001, 256256. split; [by vm_compute|]. split; [by vm_compute|].
  apply (timestamps_unique 1000 1001 1 0); try lia; try (unfold fits; lia); by vm_compute.
Defined.

Lemma machine_of_vertex size v :
  0 < size < 2 ^ 31 -> vid_wf v -> GetMachineIdForVertex size v = vid_vid v mod size.
Proof.
  intros Hs Hv. unfold GetMachineIdForVertex, vid_t2uint. unfold vid_wf, VID_BITS, fits in Hv.
  rewrite (wrap_small 32 (vid_vid v)), (wrap_small 32 size) by (unfold fits; lia).
  pose proof (Z.mod_pos_bound (vid_vid v) size). apply swrap_small; lia.
Qed.

Lemma AssignVID_eq n size rank :
  0 <= n -> 0 < size < 2 ^ 31 -> 0 <= rank < size -> (n + 1) * size + rank < 2 ^ 26 ->
  AssignVID n size rank = (mk_vid ((n + 1) * size + rank), n + 1).
Proof.
  intros Hn Hs Hr Hb. assert (n + 1 <= (n + 1) * size) by nia.
  unfold AssignVID, vid_of_int, VID_BITS.
  rewrite (swrap_small 32 (n + 1)) by lia. rewrite (swrap_small 32 ((n + 1) * size)) by lia.
  rewrite swrap_small by lia. by rewrite wrap_small by (unfold fits; lia).
Qed.

(** Placement is consistent: a worker assigns only vertex ids that it
    owns, never the same one twice and never one of another worker; and a
    vertex, its properties, its outgoing edges and the properties of those
    edges all live on the same worker, the incoming side of an edge on the
    worker of its destination. *)
Theorem placement_colocated n m size r1 r2 d s p :
  0 <= n -> 0 <= m -> 0 < size < 2 ^ 31 -> 0 <= r1 < size -> 0 <= r2 < size ->
  (n + 1) * size + r1 < 2 ^ 26 -> (m + 1) * size + r2 < 2 ^ 26 ->
  eid_wf (mk_eid d s) -> fits PID_BITS p ->
  IsVertexLocal size r1 (AssignVID n size r1).1 = true /\
  ((AssignVID n size r1).1 = (AssignVID m size r2).1 -> n = m /\ r1 = r2) /\
  GetMachineIdForEdge size (mk_eid d s) false = GetMachineIdForVertex size (mk_vid s) /\
  GetMachineIdForEdge size (mk_eid d s) true = GetMachineIdForVertex size (mk_vid d) /\
  GetMachineIdForVProperty size (vpid_of (mk_vid s) p) = GetMachineIdForVertex size (mk_vid s) /\
  GetMachineIdForEProperty size (epid_of (mk_eid d s) p) =
    GetMachineIdForEdge size (mk_eid d s) false.
Proof.
  intros Hn Hm Hs Hr1 Hr2 Hb1 Hb2 [Hd Hsv] Hp. cbn in Hd, Hsv.
  rewrite (AssignVID_eq n), (AssignVID_eq m) by done. cbn [fst].
  assert (vid_wf (mk_vid ((n + 1) * size + r1))) as Hv1
    by (unfold vid_wf, VID_BITS, fits; cbn; nia).
  unfold IsVertexLocal. rewrite !machine_of_vertex by done. cbn [vid_vid].
  unfold GetMachineIdForEdge, GetMachineIdForVProperty, GetMachineIdForEProperty, vpid_of, epid_of.
  cbn [vp_vid ep_src_vid src_v dst_v vid_vid].
  rewrite !(wrap_small VID_BITS) by done. unfold fits in *. rewrite !Z.rem_mod_nonneg by lia.
  split_and!; try done.
  - rewrite Z.add_comm, Z_mod_plus_full, Z.mod_small by done. apply Z.eqb_refl.
  - intros [= E]. assert (r1 = r2) as ->; [|nia].
    apply (f_equal (fun x => x mod size)) in E.
    rewrite !(Z.add_comm (_ * size)), !Z_mod_plus_full, !Z.mod_small in E by done. done.
Qed.

Lemma placement_colocated_witness :
  IsVertexLocal 4 3 (AssignVID 17 4 3).1 = true.
Proof.
  apply (placement_colocated 17 2 4 3 1 9 8 5); try lia;
    (vm_compute; repeat split; congruence).
Defined.

(** The exchanges of the clock calibration cannot be mixed up: the tags
    [tag .. tag+3] of two exchanges - of any rounds, loops and partners - are
    the same only for the same exchange and the same step of it. *)
Theorem calibration_tags_distinct size l1 p1 r1 k1 l2 p2 r2 k2 :
  1 < size < 2 ^ 31 -> 0 <= l1 -> 0 <= l2 -> 1 <= p1 < size -> 1 <= p2 < size ->
  0 <= r1 < 2 -> 0 <= r2 < 2 -> 0 <= k1 < 4 -> 0 <= k2 < 4 ->
  (l1 + 1) * (size - 1) * 8 < 2 ^ 64 -> (l2 + 1) * (size - 1) * 8 < 2 ^ 64 ->
  u64 (calibration_tag l1 size p1 r1 + k1) = u64 (calibration_tag l2 size p2 r2 + k2) ->
  l1 = l2 /\ p1 = p2 /\ r1 = r2 /\ k1 = k2.
Proof.
  intros Hs Hl1 Hl2 Hp1 Hp2 Hr1 Hr2 Hk1 Hk2 Hb1 Hb2.
  assert (forall l p r k, 0 <= l -> 1 <= p < size -> 0 <= r < 2 -> 0 <= k < 4 ->
    (l + 1) * (size - 1) * 8 < 2 ^ 64 ->
    u64 (calibration_tag l size p r + k) = ((l * 2 + r) * (size - 1) + (p - 1)) * 4 + k /\
    0 <= (l * 2 + r) * (size - 1) + (p - 1)) as Htag.
  { intros l p r k Hl Hp Hr Hk Hb. assert (0 <= l * (size - 1)) by nia.
    assert (0 <= r * (size - 1) <= size - 1) by nia. split; [|nia].
    unfold calibration_tag. rewrite (wrap_small 64 (l * (size - 1) * 2 * 4)) by (unfold fits; nia).
    rewrite (wrap_small 64 (l * (size - 1) * 2 * 4 + (p - 1) * 4 + r * (size - 1) * 4))
      by (unfold fits; nia).
    rewrite wrap_small by (unfold fits; nia). ring. }
  destruct (Htag l1 p1 r1 k1) as [-> Hn1]; try done.
  destruct (Htag l2 p2 r2 k2) as [-> Hn2]; try done. intros E.
  assert (k1 = k2 /\ (l1 * 2 + r1) * (size - 1) + (p1 - 1) = (l2 * 2 + r2) * (size - 1) + (p2 - 1))
    as [-> E'] by lia.
  assert (l1 * 2 + r1 = l2 * 2 + r2) by nia. assert (p1 = p2) by nia. lia.
Qed.

Lemma calibration_tags_distinct_witness :
  5 = 5 /\ u64 (calibration_tag 5 4 2 1 + 3) <> u64 (calibration_tag 5 4 3 1 + 0).
Proof.
  split; [done|]. intros E.
  destruct (calibration_tags_distinct 4 5 2 1 3 5 3 1 0) as (_ & H & _); [lia..|done|]. lia.
Defined.

(** A tagged cache line is never read half-written: if the words of a
    new line arrive in order (a prefix of them is new) or in reverse order (a
    suffix is new), a read with the new tag succeeds only once the value is
    the new one; a read of a complete line with its own tag succeeds. *)
Theorem torn_line_value v0 t0 j0 v1 t1 j1 k (rev : bool) v :
  fits 64 t0 -> fits 64 t1 -> t0 <> t1 -> length j0 = 3%nat -> length j1 = 3%nat ->
  let old := SetTagged v0 t0 j0 in
  let new := SetTagged v1 t1 j1 in
  GetTagged new t1 = Some v1 /\
  (GetTagged (if rev then take k old ++ drop k new else take k new ++ drop k old) t1 = Some v ->
   v = v1).
Proof.
  intros Ht0 Ht1 Hne Hj0 Hj1. destruct j0 as [|a0 [|a1 [|a2 [|]]]]; try done.
  destruct j1 as [|b0 [|b1 [|b2 [|]]]]; try done. cbv zeta.
  unfold SetTagged. split; [cbn; by rewrite !Z.eqb_refl|].
  unfold GetTagged. intros H.
  do 9 (destruct k as [|k]; [destruct rev; cbn in H;
    repeat match type of H with context [?x =? ?y] => destruct (Z.eqb_spec x y); try done end;
    cbn in H; congruence|]).
  destruct rev; cbn in H;
    repeat match type of H with context [?x =? ?y] => destruct (Z.eqb_spec x y); try done end;
    cbn in H; congruence.
Qed.

Lemma torn_line_value_witness :
  GetTagged (SetTagged 77 12 [0; 0; 0]) 12 = Some 77.
Proof.
  apply (torn_line_value 5 8 [1; 1; 1] 77 12 [0; 0; 0] 4 false 5);
    [vm_compute; split; congruence|vm_compute; split; congruence|lia|done|done].
Defined.

(** The order that the clock calibration gives to [std::set] for picking
    the exchanges with the lowest latency is no strict order: a later exchange
    with a smaller latency and an earlier one with a larger latency are each
    less than the other. *)
Theorem diff_pos_order_not_strict a b :
  dp_diff a < dp_diff b -> dp_pos b < dp_pos a ->
  dp_lt a b = true /\ dp_lt b a = true.
Proof.
  intros Hd Hp. unfold dp_lt. destruct (Z.ltb_spec (dp_diff a) (dp_diff b)); [|lia].
  destruct (Z.ltb_spec (dp_diff b) (dp_diff a)); [lia|].
  destruct (Z.ltb_spec (dp_pos b) (dp_pos a)); [done|lia].
Qed.

Lemma diff_pos_order_not_strict_witness :
  dp_lt (mk_dp 3 9) (mk_dp 5 2) = true /\ dp_lt (mk_dp 5 2) (mk_dp 3 9) = true.
Proof. apply (diff_pos_order_not_strict (mk_dp 3 9) (mk_dp 5 2)); cbn; lia. Defined.
