(* ===== verification/Rct.v ===== *)
(** * core/RCT, layout/pmt_rct_table: recently committed transactions

    [RCTable] is a [std::map] from commit time to transaction id: here the
    list of its entries in iteration order, strictly sorted by key; an
    iterator is the suffix of entries that starts at it.  [PrimitiveRCTTable]
    keeps, per kind of modification and transaction, the set of modified
    words. *)
From S2P Require Import Prelude MyMath Types TrxStatus.
Local Open Scope Z_scope.
Local Open Scope word_scope.

(** ** The table of commit times *)

(** [std::map::insert]: an existing key keeps its value. *)
Fixpoint map_insert (k v : Z) (m : list (Z * Z)) : list (Z * Z) :=
  match m with
  | [] => [(k, v)]
  | (k', v') :: m' =>
      if k <? k' then (k, v) :: m
      else if k =? k' then m
      else (k', v') :: map_insert k v m'
  end.

(** [std::map::lower_bound] and [upper_bound] *)
Fixpoint lower_bound (k : Z) (m : list (Z * Z)) : list (Z * Z) :=
  match m with [] => [] | (k', v) :: m' => if k' <? k then lower_bound k m' else m end.
Fixpoint upper_bound (k : Z) (m : list (Z * Z)) : list (Z * Z) :=
  match m with [] => [] | (k', v) :: m' => if k' <=? k then upper_bound k m' else m end.

(** The entries from one iterator up to a later one. *)
Definition between (lower upper : list (Z * Z)) : list (Z * Z) :=
  take (length lower - length upper) lower.

(** [RCTable::insert_trx] (core/RCT.cpp:17-21). *)
Definition insert_trx (m : list (Z * Z)) (ct trx_id : Z) : option (list (Z * Z)) :=
  if IS_VALID_TRX_ID trx_id then Some (map_insert ct trx_id m) else None.

(** [RCTable::query_trx] (core/RCT.cpp:23-36). *)
Definition query_trx (m : list (Z * Z)) (bt ct : Z) (trx_ids : list Z) : option (list Z) :=
  if (length trx_ids =? 0)%nat then
    if ct <=? bt then Some trx_ids
    else Some (trx_ids ++ (between (lower_bound bt m) (upper_bound ct m)).*2)
  else None.

(** [RCTable::erase_trxs] (core/RCT.cpp:38-48). *)
Definition erase_trxs (m : list (Z * Z)) (min_bt : Z) : list (Z * Z) :=
  if min_bt =? 0 then m
  else
    let lower := lower_bound 0 m in
    let upper := upper_bound (min_bt -64 1) m in
    take (length m - length lower) m ++ upper.

(** The query that [Coordinator::ProcessQueryRCTRequest] answers
    (core/coordinator.cpp:255-256). *)
Definition answer_rct_request (m : list (Z * Z)) (bt ct : Z) : option (list Z) :=
  query_trx m bt (ct -64 1) [].

(** ** The recent actions of a transaction *)

(** [Primitive_T] (base/type.hpp:683-683), without the sentinel COUNT. *)
Inductive Primitive_T := IV | IE | DV | DE | IVP | IEP | DVP | DEP | MVP | MEP.
(** [Element_T] (base/type.hpp:551-551). *)
Inductive Element_T := VERTEX | EDGE.

#[global] Instance Primitive_T_eq_dec : EqDecision Primitive_T.
Proof. solve_decision. Defined.
#[global] Instance Element_T_eq_dec : EqDecision Element_T.
Proof. solve_decision. Defined.

(** The enumerators in declaration order. *)
Definition Primitives : list Primitive_T := [IV; IE; DV; DE; IVP; IEP; DVP; DEP; MVP; MEP].

Definition prim_index (p : Primitive_T) : nat :=
  match p with IV => 0 | IE => 1 | DV => 2 | DE => 3 | IVP => 4 | IEP => 5 | DVP => 6
  | DEP => 7 | MVP => 8 | MEP => 9 end.

#[global, program] Instance Primitive_T_countable : Countable Primitive_T :=
  inj_countable prim_index (fun n => Primitives !! n) _.
Next Obligation. by intros []. Qed.

(** The map [rct_map] of [PrimitiveRCTTable]. *)
Abbreviation pmt_table := (gmap Primitive_T (gmap Z (gset Z))).

(** [PrimitiveRCTTable::Init] (layout/pmt_rct_table.hpp:34-68). *)
Definition pmt_init : pmt_table := list_to_map ((fun p => (p, ∅)) <$> Primitives).

(** The decoding of one modified word (layout/pmt_rct_table.cpp:27-47): the
    element's word, the property key or -1, and the kind of element. *)
Definition extract_item (p : Primitive_T) (item : Z) : Z * Z * Element_T :=
  let id := item >> PID_BITS in
  let pid := i32 (item -64 (id <<64 PID_BITS)) in
  match p with
  | IV | DV => (item, -1, VERTEX)
  | IE | DE => (item, -1, EDGE)
  | IVP | MVP | DVP => (id, pid, VERTEX)
  | IEP | MEP | DEP => (id, pid, EDGE)
  end.

(** [PrimitiveRCTTable::GetRecentActionSet] (layout/pmt_rct_table.cpp:18-52);
    [emplace] keeps an entry that is already there.  The result for a
    transaction is the set of its decoded items. *)
Definition GetRecentActionSet (t : pmt_table) (p : Primitive_T) (trxIDList : list Z)
    (trx_rct_map : gmap Z (list (Z * Z * Element_T))) : option (gmap Z (list (Z * Z * Element_T))) :=
  r ← t !! p;
  Some (foldl (fun acc trxID =>
    match r !! trxID with
    | Some items =>
        match acc !! trxID with
        | Some _ => acc
        | None => <[trxID := extract_item p <$> elements items]> acc
        end
    | None => acc
    end) trx_rct_map trxIDList).

(** [PrimitiveRCTTable::InsertRecentActionSet] (layout/pmt_rct_table.cpp:55-63). *)
Definition InsertRecentActionSet (t : pmt_table) (p : Primitive_T) (trxID : Z) (data : list Z)
    : option pmt_table :=
  if (length data =? 0)%nat then Some t
  else
    r ← t !! p;
    Some (<[p := <[trxID := default ∅ (r !! trxID) ∪ list_to_set data]> r]> t).

(** [PrimitiveRCTTable::EraseRecentActionSet] (layout/pmt_rct_table.cpp:66-79). *)
Definition EraseRecentActionSet (t : pmt_table) (trx_ids : list Z) : option pmt_table :=
  foldl (fun acc p =>
    t ← acc; r ← (t : pmt_table) !! p;
    Some (<[p := foldl (fun r x => delete x r) r trx_ids]> t)) (Some t) Primitives.

(** ** Sorted maps *)

Definition key_lt (x y : Z * Z) : Prop := x.1 < y.1.
Definition sorted (m : list (Z * Z)) : Prop := StronglySorted key_lt m.

Lemma sorted_cons_inv e m : sorted (e :: m) -> sorted m /\ Forall (fun x => e.1 < x.1) m.
Proof. intros H. by inversion H. Qed.

Lemma lower_bound_filter k m : sorted m -> lower_bound k m = filter (fun e => k <= e.1) m.
Proof.
  intros Hs. induction m as [|[k' v] m IH]; cbn [lower_bound upper_bound]; [done|].
  apply sorted_cons_inv in Hs as [Hs Hf]. destruct (Z.ltb_spec k' k).
  - rewrite filter_cons_False by (cbn; lia). by apply IH.
  - rewrite filter_cons_True by (cbn; lia). f_equal. symmetry. apply filter_all.
    eapply Forall_impl; [exact Hf|]. cbn. lia.
Qed.

Lemma upper_bound_filter k m : sorted m -> upper_bound k m = filter (fun e => k < e.1) m.
Proof.
  intros Hs. induction m as [|[k' v] m IH]; cbn [lower_bound upper_bound]; [done|].
  apply sorted_cons_inv in Hs as [Hs Hf]. destruct (Z.leb_spec k' k).
  - rewrite filter_cons_False by (cbn; lia). by apply IH.
  - rewrite filter_cons_True by (cbn; lia). f_equal. symmetry. apply filter_all.
    eapply Forall_impl; [exact Hf|]. cbn. lia.
Qed.

Lemma range_split m lo hi : sorted m -> lo <= hi + 1 ->
  filter (fun e => lo <= e.1) m =
  filter (fun e => lo <= e.1 <= hi) m ++ filter (fun e => hi < e.1) m.
Proof.
  intros Hs Hlo. induction m as [|[k v] m IH]; [done|].
  apply sorted_cons_inv in Hs as [Hs Hf]. cbn in Hf.
  destruct (Z.lt_ge_cases hi k) as [Hk|Hk].
  - rewrite (filter_none (fun e => lo <= e.1 <= hi)).
    + cbn [app]. rewrite !filter_all; [done|..]; constructor; cbn; try lia;
        (eapply Forall_impl; [exact Hf|]; cbn; lia).
    + constructor; cbn; [lia|]. eapply Forall_impl; [exact Hf|]. cbn. lia.
  - rewrite (filter_cons_False (fun e => hi < e.1)) by (cbn; lia).
    destruct (Z.lt_ge_cases k lo) as [Hl|Hl].
    + rewrite !filter_cons_False by (cbn; lia). by apply IH.
    + rewrite !filter_cons_True by (cbn; lia). cbn [app]. f_equal. by apply IH.
Qed.

Lemma between_filter m lo hi : sorted m -> lo <= hi ->
  between (lower_bound lo m) (upper_bound hi m) = filter (fun e => lo <= e.1 <= hi) m.
Proof.
  intros Hs Hlo. unfold between. rewrite lower_bound_filter, upper_bound_filter by done.
  rewrite (range_split m lo hi) by (done || lia). rewrite length_app.
  replace (_ + _ - _)%nat with (length (filter (fun e => lo <= e.1 <= hi) m)) by lia.
  by rewrite take_app_length.
Qed.

Lemma map_insert_elem k v m k' v' :
  (k ∉ m.*1) -> (k', v') ∈ map_insert k v m <-> (k', v') = (k, v) \/ (k', v') ∈ m.
Proof.
  induction m as [|[k0 v0] m IH]; intros Hk; cbn [map_insert].
  - rewrite list_elem_of_singleton. set_solver.
  - cbn in Hk. apply not_elem_of_cons in Hk as [Hk0 Hk].
    destruct (Z.ltb_spec k k0); [rewrite !elem_of_cons; naive_solver|].
    destruct (Z.eqb_spec k k0); [done|]. rewrite !elem_of_cons, IH by done. naive_solver.
Qed.

Lemma map_insert_keys k v m k' : k' ∈ (map_insert k v m).*1 -> k' = k \/ k' ∈ m.*1.
Proof.
  induction m as [|[k0 v0] m IH]; cbn [map_insert]; [set_solver|].
  destruct (k <? k0); [set_solver|]. destruct (k =? k0); set_solver.
Qed.

Lemma map_insert_sorted k v m : sorted m -> sorted (map_insert k v m).
Proof.
  intros Hs. induction m as [|[k0 v0] m IH]; cbn [map_insert]; [repeat constructor|].
  pose proof Hs as Hs0. apply sorted_cons_inv in Hs as [Hs Hf]. cbn in Hf.
  destruct (Z.ltb_spec k k0).
  - constructor; [done|]. constructor; [done|]. eapply Forall_impl; [exact Hf|].
    unfold key_lt. cbn. lia.
  - destruct (Z.eqb_spec k k0); [done|]. constructor; [by apply IH|].
    apply Forall_forall. intros [k1 v1] Hin. unfold key_lt. cbn.
    assert (k1 ∈ (map_insert k v m).*1) as Hk1 by (apply list_elem_of_fmap; by exists (k1, v1)).
    apply map_insert_keys in Hk1 as [->|Hk1]; [lia|].
    apply list_elem_of_fmap in Hk1 as (e & -> & He). rewrite Forall_forall in Hf. by apply Hf.
Qed.

Lemma erase_trxs_filter m b :
  sorted m -> Forall (fun e => fits 64 e.1) m -> fits 64 b ->
  erase_trxs m b = filter (fun e => b <= e.1) m.
Proof.
  intros Hs Hf Hb. unfold erase_trxs. destruct (Z.eqb_spec b 0) as [->|Hb0].
  - symmetry. apply filter_all. eapply Forall_impl; [exact Hf|]. by intros ? [? ?].
  - rewrite lower_bound_filter, filter_all by (done || (eapply Forall_impl; [exact Hf|]; by intros ? [? ?])).
    rewrite Nat.sub_diag, take_0. cbn [app].
    rewrite wrap_small by (unfold fits in *; lia). rewrite upper_bound_filter by done.
    clear -Hs. induction m as [|e m IH]; [done|]. apply sorted_cons_inv in Hs as [Hs _].
    destruct (decide (b <= e.1)).
    + rewrite !filter_cons_True by lia. f_equal. by apply IH.
    + rewrite !filter_cons_False by lia. by apply IH.
Qed.

(** ** Histories of the table *)

Inductive rct_op := Commit_at (ct trx_id : Z) | Erase_below (min_bt : Z).

Fixpoint rct_run (m : list (Z * Z)) (ops : list rct_op) : option (list (Z * Z)) :=
  match ops with
  | [] => Some m
  | Commit_at c t :: ops' => m' ← insert_trx m c t; rct_run m' ops'
  | Erase_below b :: ops' => rct_run (erase_trxs m b) ops'
  end.

(** The commits of a history and the bounds of its erasures. *)
Definition commits (ops : list rct_op) : list (Z * Z) :=
  omap (fun op => match op with Commit_at c t => Some (c, t) | _ => None end) ops.
Definition bounds (ops : list rct_op) : list Z :=
  omap (fun op => match op with Erase_below b => Some b | _ => None end) ops.

Definition rct_inv (bt : Z) (done_ : list (Z * Z)) (m : list (Z * Z)) : Prop :=
  sorted m /\ (forall k, k ∈ m.*1 -> k ∈ done_.*1) /\
  (forall k t, bt <= k -> (k, t) ∈ m <-> (k, t) ∈ done_).

Lemma rct_run_inv bt ops m done_ m' :
  rct_inv bt done_ m -> NoDup (done_ ++ commits ops).*1 ->
  Forall (fits 64) (done_ ++ commits ops).*1 -> Forall (fun b => fits 64 b /\ b <= bt) (bounds ops) ->
  rct_run m ops = Some m' -> rct_inv bt (done_ ++ commits ops) m'.
Proof.
  revert m done_. induction ops as [|op ops IH]; intros m done_ Hinv Hnd Hf Hb Hrun.
  { cbn in *. rewrite app_nil_r. by simplify_eq. }
  destruct Hinv as (Hs & Hk & Hm). destruct op as [c t|b]; cbn in Hnd, Hf, Hb, Hrun.
  - unfold insert_trx in Hrun. destruct (IS_VALID_TRX_ID t); [|done]. cbn in Hrun.
    change (done_ ++ commits (Commit_at c t :: ops)) with (done_ ++ [(c, t)] ++ commits ops).
    assert (c ∉ done_.*1) as Hc.
    { intros Hc. rewrite fmap_app in Hnd. apply NoDup_app in Hnd as (_ & Hd & _).
      apply (Hd c Hc). by left. }
    rewrite (assoc_L (++)) in *. apply IH with (map_insert c t m); try done.
    + assert (c ∉ m.*1) as Hcm by (intros Hcm; by apply Hc, Hk).
      split_and!; [by apply map_insert_sorted|..].
      * intros k Hkin. apply map_insert_keys in Hkin. rewrite fmap_app. set_solver.
      * intros k t' Hle. rewrite map_insert_elem by done.
        rewrite elem_of_app, list_elem_of_singleton, Hm by done. naive_solver.
    + by rewrite <- (assoc_L (++)).
    + by rewrite <- (assoc_L (++)).
  - apply Forall_cons in Hb as [[Hb1 Hb2] Hb]. apply IH with (erase_trxs m b); try done.
    assert (Forall (fun e => fits 64 e.1) m) as Hfm.
    { apply Forall_forall. intros e He. rewrite Forall_forall in Hf. apply Hf.
      rewrite fmap_app. apply elem_of_app. left. apply Hk. apply list_elem_of_fmap. by exists e. }
    rewrite erase_trxs_filter by done. split_and!.
    + clear -Hs. induction m as [|e m IH]; [constructor|]. apply sorted_cons_inv in Hs as [Hs Hf].
      destruct (decide (b <= e.1)); [rewrite filter_cons_True by done|rewrite filter_cons_False by done; by apply IH].
      constructor; [by apply IH|]. apply Forall_forall. intros x Hx.
      apply list_elem_of_filter in Hx as [_ Hx]. rewrite Forall_forall in Hf. by apply Hf.
    + intros k (e & -> & He)%list_elem_of_fmap. apply list_elem_of_filter in He as [_ He].
      apply Hk, list_elem_of_fmap. by exists e.
    + intros k t Hle. rewrite list_elem_of_filter, <- Hm by done. cbn. split; [naive_solver|].
      intros. split; [lia|done].
Qed.

(** C27: a validating transaction learns all recent commits: after any
    history of commits with distinct commit times and of garbage collections
    with bounds at most [bt], the reply to its request is, in commit order,
    exactly the transactions that committed at a time in [bt, ct). *)
Theorem rct_query_complete ops m bt ct :
  rct_run [] ops = Some m -> NoDup (commits ops).*1 -> Forall (fits 64) (commits ops).*1 ->
  Forall (fun b => fits 64 b /\ b <= bt) (bounds ops) -> fits 64 bt -> bt + 1 < ct < 2 ^ 64 ->
  exists ids, answer_rct_request m bt ct = Some ids /\
    ids = (filter (fun e => bt <= e.1 <= ct - 1) m).*2 /\ sorted m /\
    forall t, t ∈ ids <-> exists k, (k, t) ∈ commits ops /\ bt <= k < ct.
Proof.
  intros Hrun Hnd Hf Hb Hbt Hct.
  destruct (rct_run_inv bt ops [] [] m) as (Hs & _ & Hm); try done; [|cbn in Hm].
  { split_and!; [constructor|done|done]. }
  unfold fits in Hbt. unfold answer_rct_request, query_trx. cbn [length Nat.eqb app].
  rewrite wrap_small by (unfold fits; lia).
  destruct (Z.leb_spec (ct - 1) bt); [lia|]. rewrite between_filter by (done || lia).
  eexists. split; [done|]. split; [done|]. split; [done|]. intros t. rewrite list_elem_of_fmap. split.
  - intros ([k t'] & -> & Hin). apply list_elem_of_filter in Hin as [Hk Hin]. cbn in *.
    exists k. split; [apply Hm; [lia|done]|lia].
  - intros (k & Hin & Hk). exists (k, t). split; [done|]. apply list_elem_of_filter. cbn.
    split; [lia|]. by apply Hm; [lia|].
Qed.

Lemma rct_query_complete_witness :
  answer_rct_request [(7, example_id 2); (9, example_id 3)] 7 12 = Some [example_id 2; example_id 3].
Proof.
  destruct (rct_query_complete
    [Commit_at 5 (example_id 1); Commit_at 9 (example_id 3); Commit_at 7 (example_id 2); Erase_below 6]
    [(7, example_id 2); (9, example_id 3)] 7 12) as (ids & H & E & _).
  - by vm_compute.
  - cbn. repeat constructor; set_solver.
  - repeat apply Forall_cons_2; try apply Forall_nil; by vm_compute.
  - repeat apply Forall_cons_2; try apply Forall_nil; by vm_compute.
  - by vm_compute.
  - lia.
  - rewrite H, E. by vm_compute.
Defined.

(** ** Histories of the recent actions *)

Inductive pmt_op := Record_actions (p : Primitive_T) (trx : Z) (data : list Z) | Forget (trxs : list Z).

Fixpoint pmt_run (t : pmt_table) (ops : list pmt_op) : option pmt_table :=
  match ops with
  | [] => Some t
  | Record_actions p x data :: ops' => t' ← InsertRecentActionSet t p x data; pmt_run t' ops'
  | Forget ids :: ops' => t' ← EraseRecentActionSet t ids; pmt_run t' ops'
  end.

(** What a history has recorded of a transaction since it was last forgotten. *)
Definition record_step (f : Primitive_T -> Z -> gset Z) (op : pmt_op) : Primitive_T -> Z -> gset Z :=
  match op with
  | Record_actions p x data => fun p' x' =>
      if decide (p' = p /\ x' = x) then f p' x' ∪ list_to_set data else f p' x'
  | Forget ids => fun p x => if decide (x ∈ ids) then ∅ else f p x
  end.
Definition recorded (ops : list pmt_op) : Primitive_T -> Z -> gset Z :=
  foldl record_step (fun _ _ => ∅) ops.

(** A table that holds a family of sets, without empty entries. *)
Definition holds (r : gmap Z (gset Z)) (f : Z -> gset Z) : Prop :=
  forall x, r !! x = (if decide (f x = ∅) then None else Some (f x)).
Definition pmt_holds (t : pmt_table) (f : Primitive_T -> Z -> gset Z) : Prop :=
  forall p, exists r, t !! p = Some r /\ holds r (f p).

Lemma pmt_init_holds : pmt_holds pmt_init (fun _ _ => ∅).
Proof. intros p. exists ∅. split; [by destruct p|]. intros x. by rewrite lookup_empty. Qed.

Lemma insert_holds t f p x data : pmt_holds t f ->
  exists t', InsertRecentActionSet t p x data = Some t' /\
    pmt_holds t' (record_step f (Record_actions p x data)).
Proof.
  intros H. unfold InsertRecentActionSet, record_step. destruct data as [|d data].
  { exists t. split; [done|]. intros p'. destruct (H p') as (r & Hr & Hh). exists r. split; [done|].
    intros x'. rewrite (Hh x'). destruct (decide (p' = p /\ x' = x)); [|done].
    by rewrite list_to_set_nil, union_empty_r_L. }
  destruct (H p) as (r & Hr & Hh). rewrite Hr. cbn [length Nat.eqb mbind option_bind].
  eexists. split; [done|]. intros p'. destruct (decide (p' = p)) as [->|Hp].
  - rewrite lookup_insert_eq. eexists. split; [done|]. intros x'.
    destruct (decide (x' = x)) as [->|Hx].
    + rewrite lookup_insert_eq, (Hh x). rewrite (decide_True (P := p = p /\ x = x)) by done.
      rewrite (decide_False (P := f p x ∪ list_to_set (d :: data) = ∅)) by set_solver.
      case_decide as E; [by rewrite E|done].
    + rewrite lookup_insert_ne by done. rewrite (decide_False (P := p = p /\ x' = x)) by naive_solver.
      apply Hh.
  - rewrite lookup_insert_ne by done. destruct (H p') as (r' & Hr' & Hh'). exists r'.
    split; [done|]. intros x'. cbn beta. rewrite (decide_False (P := p' = p /\ x' = x)) by naive_solver. apply Hh'.
Qed.

Lemma delete_all_lookup (r : gmap Z (gset Z)) ids x :
  foldl (fun r x => delete x r) r ids !! x = if decide (x ∈ ids) then None else r !! x.
Proof.
  revert r. induction ids as [|y ids IH]; intros r; cbn [foldl].
  { by rewrite decide_False by apply not_elem_of_nil. }
  rewrite IH. destruct (decide (x = y)) as [->|Hne].
  - rewrite lookup_delete_eq, (decide_True (P := y ∈ y :: ids)) by (by left). by case_decide.
  - rewrite lookup_delete_ne by done. repeat case_decide; set_solver.
Qed.

Lemma erase_fold ids t ps : NoDup ps -> (forall p, p ∈ ps -> is_Some (t !! p)) ->
  exists t', foldl (fun acc p => t ← acc; r ← (t : pmt_table) !! p;
    Some (<[p := foldl (fun r x => delete x r) r ids]> t)) (Some t) ps = Some t' /\
  forall p, t' !! p = if decide (p ∈ ps) then (fun r => foldl (fun r x => delete x r) r ids) <$> t !! p
                      else t !! p.
Proof.
  intros Hnd. revert t. induction Hnd as [|p ps Hp _ IH]; intros t Ht.
  { exists t. split; [done|]. intros p. by rewrite decide_False by apply not_elem_of_nil. }
  cbn [foldl]. destruct (Ht p) as [r Hr]; [by left|]. cbn [mbind option_bind]. rewrite Hr.
  cbn [mbind option_bind]. edestruct (IH (<[p := foldl (fun r x => delete x r) r ids]> t)) as (t' & -> & H').
  - intros q Hq. destruct (decide (q = p)) as [->|]; [done|]. rewrite lookup_insert_ne by done.
    apply Ht. by right.
  - exists t'. split; [done|]. intros q. rewrite H'. destruct (decide (q = p)) as [->|Hne].
    + rewrite decide_False, decide_True by (done || by left). by rewrite lookup_insert_eq, Hr.
    + rewrite lookup_insert_ne by done. repeat case_decide; set_solver.
Qed.

Lemma erase_holds t f ids : pmt_holds t f ->
  exists t', EraseRecentActionSet t ids = Some t' /\ pmt_holds t' (record_step f (Forget ids)).
Proof.
  intros H. destruct (erase_fold ids t Primitives) as (t' & Ht' & Hl).
  - apply (bool_decide_unpack _). by vm_compute.
  - intros p _. destruct (H p) as (r & Hr & _). by exists r.
  - exists t'. split; [exact Ht'|]. intros p. destruct (H p) as (r & Hr & Hh).
    rewrite Hl, decide_True by (by destruct p; apply (bool_decide_unpack _); vm_compute).
    rewrite Hr. eexists. split; [done|]. intros x. rewrite delete_all_lookup, (Hh x). cbn [record_step].
    destruct (decide (x ∈ ids)); [|done]. by rewrite decide_True.
Qed.

Lemma get_fold (r : gmap Z (gset Z)) p ids acc x :
  foldl (fun acc trxID =>
    match r !! trxID with
    | Some items =>
        match (acc : gmap Z (list (Z * Z * Element_T))) !! trxID with
        | Some _ => acc
        | None => <[trxID := extract_item p <$> elements items]> acc
        end
    | None => acc
    end) acc ids !! x =
  match acc !! x with
  | Some l => Some l
  | None => if decide (x ∈ ids) then (fun s => extract_item p <$> elements s) <$> r !! x else None
  end.
Proof.
  revert acc. induction ids as [|y ids IH]; intros acc; cbn [foldl].
  { rewrite decide_False by apply not_elem_of_nil. by destruct (acc !! x). }
  rewrite IH. destruct (decide (x = y)) as [->|Hne].
  - rewrite (decide_True (P := y ∈ y :: ids)) by (by left).
    destruct (r !! y); [|by destruct (acc !! y); case_decide].
    destruct (acc !! y) eqn:E; [by rewrite E|]. by rewrite lookup_insert_eq.
  - assert (x ∈ y :: ids <-> x ∈ ids) as Hi by set_solver.
    rewrite (decide_ext _ _ _ _ Hi). destruct (r !! y); [|done]. destruct (acc !! y); [done|]. by rewrite lookup_insert_ne by done.
Qed.

(** The recent-action tables answer a validating transaction correctly:
    no history of recordings and erasures fails, and after it the actions
    reported for a list of transactions are those of the listed transactions
    that have recorded some since they were last erased, each reported with
    exactly the decoded words it recorded. *)
Theorem recent_actions_refine ops :
  exists t, pmt_run pmt_init ops = Some t /\
  forall p ids, exists r, GetRecentActionSet t p ids ∅ = Some r /\
  forall x, (r !! x = None <-> (x ∉ ids) \/ recorded ops p x = ∅) /\
    forall l, r !! x = Some l ->
      forall e, e ∈ l <-> exists item, item ∈ recorded ops p x /\ e = extract_item p item.
Proof.
  assert (forall t f, pmt_holds t f -> exists t', pmt_run t ops = Some t' /\
    pmt_holds t' (foldl record_step f ops)) as Hrun.
  { induction ops as [|op ops IH]; intros t f H; [by exists t|]. cbn [pmt_run foldl].
    destruct op as [p x data|ids].
    - destruct (insert_holds t f p x data H) as (t' & -> & H'). by apply IH.
    - destruct (erase_holds t f ids H) as (t' & -> & H'). by apply IH. }
  destruct (Hrun _ _ pmt_init_holds) as (t & -> & Ht). exists t. split; [done|]. intros p ids.
  destruct (Ht p) as (r & Hr & Hh). unfold GetRecentActionSet. rewrite Hr. cbn [mbind option_bind].
  eexists. split; [done|]. intros x. rewrite get_fold, lookup_empty, (Hh x).
  fold (recorded ops p x). split.
  - destruct (decide (x ∈ ids)), (decide (recorded ops p x = ∅)); cbn; naive_solver.
  - intros l. destruct (decide (x ∈ ids)); [|done]. destruct (decide (recorded ops p x = ∅)); [done|].
    cbn. intros [= <-] a. rewrite list_elem_of_fmap. set_solver.
Qed.
