(* ===== verification/InputSet.v ===== *)
(** * expert/expert_validation_object.cpp and the [valid] methods of the experts

    Every expert that reads data keeps, per transaction and step, the set of
    elements it was given ([ExpertValidationObject]), and answers whether the
    actions of another transaction touch them.  An action is a decoded word of
    the recent-action tables: the word of the element, the property key or -1,
    and the kind of the element. *)
From S2P Require Import Prelude MyMath Types Serialization Wire ToolValue TrxStatus Rct.
Local Open Scope Z_scope.
Local Open Scope word_scope.

(** [rct_extract_data_t] (base/type.hpp:675-675). *)
Definition rct_extract_data_t : Type := Z * Z * Element_T.

(** ** Input sets *)

(** [ExpertValidationObject::validation_record_val_t]
    (expert/expert_validation_object.hpp:83-99). *)
Record record_val := mk_rec { rv_data : list Z; isAll : bool }.
(** [ExpertValidationObject] (expert/expert_validation_object.hpp:31-108); the
    key of a record is the transaction with the step. *)
Record input_sets := mk_sets {
  trx_to_step_table : gmap Z (list Z);
  validation_data : gmap (Z * Z) record_val;
}.
Definition no_sets : input_sets := mk_sets ∅ ∅.

(** [ExpertValidationObject::RecordInputSet]
    (expert/expert_validation_object.cpp:48-65). *)
Definition RecordInputSet (o : input_sets) (trx step : Z) (input_set : list Z) (recordALL : bool) : input_sets :=
  let steps := <[trx := default [] (trx_to_step_table o !! trx) ++ [step]]> (trx_to_step_table o) in
  let old := default (mk_rec [] false) (validation_data o !! (trx, step)) in
  mk_sets steps
    (<[(trx, step) := mk_rec (if recordALL then rv_data old else rv_data old ++ input_set) recordALL]>
       (validation_data o)).

(** [ExpertValidationObject::RecordInputSetValueT]
    (expert/expert_validation_object.cpp:26-46). *)
Definition RecordInputSetValueT (o : input_sets) (trx step : Z) (data_type : Element_T)
    (input_set : list value_t) (recordALL : bool) : option input_sets :=
  transformed ←
    (if recordALL then Some []
     else match data_type with
          | VERTEX => mapM (fun v => wrap 64 <$> value_t2int v) input_set
          | EDGE => mapM value_t2uint64_t input_set
          end);
  Some (RecordInputSet o trx step transformed recordALL).

(** Does a recorded element match a word, or one of the two vertices of it? *)
Definition word_hits (item record_item : Z) : bool :=
  let inv := item >> VID_BITS in
  let outv := item -64 (inv <<64 VID_BITS) in
  (item =? record_item) || (inv =? record_item) || (outv =? record_item).

(** [ExpertValidationObject::Validate]
    (expert/expert_validation_object.cpp:70-95): false is a conflict. *)
Fixpoint Validate (o : input_sets) (trx step : Z) (check_set : list Z) : bool :=
  match check_set with
  | [] => true
  | item :: check_set' =>
      match validation_data o !! (trx, step) with
      | None => true
      | Some r =>
          if isAll r then false
          else if existsb (word_hits item) (rv_data r) then false
          else Validate o trx step check_set'
      end
  end.

(** [ExpertValidationObject::DeleteInputSet]
    (expert/expert_validation_object.cpp:97-107). *)
Definition DeleteInputSet (o : input_sets) (trx : Z) : input_sets :=
  match trx_to_step_table o !! trx with
  | Some steps =>
      mk_sets (delete trx (trx_to_step_table o))
        (foldl (fun d step => delete (trx, step) d) (validation_data o) steps)
  | None => o
  end.

(** ** The actions that concern an expert *)

Definition element_int (e : Element_T) : Z := match e with VERTEX => 0 | EDGE => 1 end.
(** [Tool::value_t2int(params.at(i))] *)
Definition int_param (e : Expert_Object) (i : nat) : option Z := v ← params e !! i; value_t2int v.
(** The keys in the groups of three parameters that begin at [off]. *)
Definition group_keys (e : Expert_Object) (off : nat) : option (list Z) :=
  mapM (fun i => int_param e (i * 3 + off)%nat) (seq 0 ((length (params e) - off) / 3)).
(** The keys in the parameters from 1 on. *)
Definition key_params (e : Expert_Object) : option (list Z) :=
  mapM (int_param e) (seq 1 (length (params e) - 1)).

(** An action on an element of the type of the input, with one of the keys. *)
Definition concerns (inType : Z) (keys : list Z) (d : rct_extract_data_t) : bool :=
  let '(_, pid, t) := d in mem pid keys && (element_int t =? inType).
(** An action of any key. *)
Definition concerns_any (inType : Z) (d : rct_extract_data_t) : bool :=
  let '(_, _, t) := d in element_int t =? inType.

(** The loop over the objects of one step that all [valid] methods share: the
    words of the selected actions are validated for the step of the object. *)
Fixpoint valid_loop (type : EXPERT_T) (select : Expert_Object -> option (rct_extract_data_t -> bool))
    (o : input_sets) (trx : Z) (expert_list : list Expert_Object) (check_set : list rct_extract_data_t)
  : option bool :=
  match expert_list with
  | [] => Some true
  | obj :: rest =>
      if decide (expert_type obj = type) then
        sel ← select obj;
        let local_check_set := (fun d => d.1.1) <$> filter (fun d => sel d = true) check_set in
        if negb (length local_check_set =? 0)%nat && negb (Validate o trx (ex_index obj) local_check_set)
        then Some false
        else valid_loop type select o trx rest check_set
      else None
  end.

Definition has_select (e : Expert_Object) : option (rct_extract_data_t -> bool) :=
  inType ← int_param e 0; keys ← group_keys e 1; Some (concerns inType keys).
(** [HasExpert::valid] (expert/has_expert.hpp:121-150). *)
Definition HasExpert_valid := valid_loop E_HAS has_select.

Definition has_label_select (e : Expert_Object) : option (rct_extract_data_t -> bool) :=
  inType ← int_param e 0; Some (concerns inType [0]).
(** [HasLabelExpert::valid] (expert/has_label_expert.hpp:100-122). *)
Definition HasLabelExpert_valid := valid_loop E_HASLABEL has_label_select.

Definition key_select (e : Expert_Object) : option (rct_extract_data_t -> bool) :=
  inType ← int_param e 0; Some (concerns_any inType).
(** [KeyExpert::valid] (expert/key_expert.hpp:91-113). *)
Definition KeyExpert_valid := valid_loop E_KEY key_select.

Definition project_select (e : Expert_Object) : option (rct_extract_data_t -> bool) :=
  inType ← int_param e 0; key_id ← int_param e 1; value_id ← int_param e 2;
  Some (concerns inType [key_id; value_id]).
(** [ProjectExpert::valid] (expert/project_expert.hpp:104-129). *)
Definition ProjectExpert_valid := valid_loop E_PROJECT project_select.

Definition keys_select (e : Expert_Object) : option (rct_extract_data_t -> bool) :=
  inType ← int_param e 0; keys ← key_params e; Some (concerns inType keys).
(** [PropertiesExpert::valid] (expert/properties_expert.hpp:91-117). *)
Definition PropertiesExpert_valid := valid_loop E_PROPERTIES keys_select.
(** [ValuesExpert::valid] (expert/values_expert.hpp:90-116). *)
Definition ValuesExpert_valid := valid_loop E_VALUES keys_select.

Definition traversal_select (e : Expert_Object) : option (rct_extract_data_t -> bool) :=
  inType ← int_param e 0; Some (concerns inType [0]).
(** [TraversalExpert::valid] (expert/traversal_expert.hpp:116-139). *)
Definition TraversalExpert_valid := valid_loop E_TRAVERSAL traversal_select.

(** [InitExpert::valid] (expert/init_expert.hpp:87-136). *)
Fixpoint InitExpert_valid (o : input_sets) (trx : Z) (expert_list : list Expert_Object)
    (check_set : list rct_extract_data_t) : option bool :=
  match expert_list with
  | [] => Some true
  | obj :: rest =>
      if decide (expert_type obj = E_INIT) then
        if (2 <=? length (params obj))%nat then
          inType ← int_param obj 0;
          with_input ← int_param obj 1;
          if with_input =? 0 then
            if (length (params obj) =? 2)%nat then
              if existsb (concerns_any inType) check_set then Some false
              else InitExpert_valid o trx rest check_set
            else
              keys ← group_keys obj 2;
              let local_check_set := (fun d => d.1.1) <$> filter (fun d => concerns inType keys d = true) check_set in
              if negb (length local_check_set =? 0)%nat && negb (Validate o trx 0 local_check_set)
              then Some false
              else InitExpert_valid o trx rest check_set
          else InitExpert_valid o trx rest check_set
        else None
      else None
  end.

(** The method that an expert of the validated types runs; the others inherit
    [AbstractExpert::valid] (expert/abstract_expert.hpp:41-42), which returns
    nothing. *)
Definition expert_valid (t : EXPERT_T) : input_sets -> Z -> list Expert_Object -> list rct_extract_data_t -> option bool :=
  match t with
  | E_HAS => HasExpert_valid
  | E_HASLABEL => HasLabelExpert_valid
  | E_KEY => KeyExpert_valid
  | E_PROJECT => ProjectExpert_valid
  | E_PROPERTIES => PropertiesExpert_valid
  | E_VALUES => ValuesExpert_valid
  | E_TRAVERSAL => TraversalExpert_valid
  | E_INIT => InitExpert_valid
  | _ => fun _ _ _ _ => None
  end.

(** ** What validation looks at *)

(** A record conflicts with a word. *)
Definition record_hit (r : record_val) (item : Z) : bool := isAll r || existsb (word_hits item) (rv_data r).

Lemma Validate_false o trx step check :
  Validate o trx step check = false <->
  exists r item, validation_data o !! (trx, step) = Some r /\ item ∈ check /\ record_hit r item = true.
Proof.
  induction check as [|item check IH]; cbn.
  { split; [done|]. intros (r & item & _ & H%elem_of_nil & _). done. }
  destruct (validation_data o !! (trx, step)) as [r|] eqn:E; [|split; [done|by intros (? & ? & [=] & _)]].
  unfold record_hit in *. destruct (isAll r) eqn:Ea; [split; [|done]; intros _; exists r, item; rewrite Ea; split_and!; [done|left|done]|].
  destruct (existsb (word_hits item) (rv_data r)) eqn:Ex.
  - split; [|done]. intros _. exists r, item. rewrite Ea. split_and!; [done|left|done].
  - rewrite IH. split; intros (r' & it & [= <-] & Hi & Hh); exists r, it; (split_and!; [done| |done]).
    + by right.
    + apply elem_of_cons in Hi as [->|]; [|done]. rewrite Ea, Ex in Hh. done.
Qed.

Lemma Validate_true_one o trx step check item :
  Validate o trx step check = true -> item ∈ check -> Validate o trx step [item] = true.
Proof.
  intros H Hi. destruct (Validate o trx step [item]) eqn:E; [done|].
  apply Validate_false in E as (r & it & Er & ->%list_elem_of_singleton & Hh).
  assert (Validate o trx step check = false) by (apply Validate_false; eauto). congruence.
Qed.

(** A check that finds no conflict finds none for a single object and action. *)
Lemma valid_loop_one type select o trx objs check obj d :
  valid_loop type select o trx objs check = Some true -> obj ∈ objs -> d ∈ check ->
  valid_loop type select o trx [obj] [d] = Some true.
Proof.
  intros H Ho Hd. induction objs as [|obj' objs IH]; [by apply elem_of_nil in Ho|]. cbn [valid_loop] in *.
  destruct (decide (expert_type obj' = type)) as [Et|]; [|done].
  destruct (select obj') as [sel|] eqn:Es; [|done]. cbn [mbind option_bind] in H.
  destruct (negb _ && negb _) eqn:Ec; [done|].
  apply elem_of_cons in Ho as [->|Ho]; [|by apply IH].
  rewrite decide_True, Es by done. cbn [mbind option_bind]. rewrite filter_cons, filter_nil.
  destruct (decide (sel d = true)) as [Esd|]; [|done]. cbn [fmap list_fmap length Nat.eqb negb andb].
  rewrite (Validate_true_one o trx (ex_index obj') ((fun d => d.1.1) <$> filter (fun d => sel d = true) check)); [done| |].
  - destruct (Validate _ _ _ _); [done|]. rewrite andb_true_r in Ec. apply negb_false_iff, Nat.eqb_eq, nil_length_inv in Ec.
    assert (d.1.1 ∈ (fun d => d.1.1) <$> filter (fun d => sel d = true) check) as Hin.
    { apply list_elem_of_fmap. exists d. split; [done|]. by apply list_elem_of_filter. }
    rewrite Ec in Hin. by apply elem_of_nil in Hin.
  - apply list_elem_of_fmap. exists d. split; [done|]. by apply list_elem_of_filter.
Qed.

Lemma init_valid_one o trx objs check obj d :
  InitExpert_valid o trx objs check = Some true -> obj ∈ objs -> d ∈ check ->
  InitExpert_valid o trx [obj] [d] = Some true.
Proof.
  intros H Ho Hd. induction objs as [|obj' objs IH]; [by apply elem_of_nil in Ho|]. cbn [InitExpert_valid] in *.
  destruct (decide (expert_type obj' = E_INIT)) as [Et|]; [|done].
  destruct (2 <=? length (params obj'))%nat eqn:El; [|done].
  destruct (int_param obj' 0) as [inType|] eqn:E0; [|done]. cbn [mbind option_bind] in H.
  destruct (int_param obj' 1) as [wi|] eqn:E1; [|done]. cbn [mbind option_bind] in H.
  assert (obj = obj' \/ (obj ∈ objs /\ InitExpert_valid o trx objs check = Some true)) as [->|[Hobj Hrec]].
  { apply elem_of_cons in Ho as [->|Ho]; [by left|]. right. split; [done|].
    destruct (wi =? 0); [|done]. destruct (_ =? 2)%nat; [by destruct (existsb _ _)|].
    destruct (group_keys obj' 2); [|done]. cbn [mbind option_bind] in H. by destruct (_ && _). }
  2: { by apply IH. }
  rewrite decide_True, El, E0 by done. cbn [mbind option_bind]. rewrite E1. cbn [mbind option_bind].
  destruct (wi =? 0); [|done]. destruct (length (params obj') =? 2)%nat.
  - destruct (existsb (concerns_any inType) check) eqn:Ex; [done|]. cbn [existsb]. rewrite orb_false_r.
    destruct (concerns_any inType d) eqn:Ed; [|done].
    assert (existsb (concerns_any inType) check = true); [|congruence].
    apply existsb_exists. exists d. split; [by apply list_elem_of_In|done].
  - destruct (group_keys obj' 2) as [keys|] eqn:Ek; [|done]. cbn [mbind option_bind] in *.
    destruct (negb _ && negb _) eqn:Ec; [done|]. rewrite filter_cons, filter_nil.
    destruct (decide (concerns inType keys d = true)) as [Esd|]; [|done]. cbn [fmap list_fmap length Nat.eqb negb andb].
    set (l := (fun d => d.1.1) <$> filter (fun d => concerns inType keys d = true) check) in *.
    assert (d.1.1 ∈ l) as Hin.
    { apply list_elem_of_fmap. exists d. split; [done|]. by apply list_elem_of_filter. }
    rewrite (Validate_true_one o trx 0 l); [done| |done].
    destruct (Validate o trx 0 l); [done|]. rewrite andb_true_r in Ec. apply negb_false_iff, Nat.eqb_eq, nil_length_inv in Ec.
    rewrite Ec in Hin. by apply elem_of_nil in Hin.
Qed.

Lemma expert_valid_one t o trx objs check obj d :
  expert_valid t o trx objs check = Some true -> obj ∈ objs -> d ∈ check ->
  expert_valid t o trx [obj] [d] = Some true.
Proof.
  destruct t; try done; first [apply valid_loop_one | apply init_valid_one].
Qed.

(** Recording an input set keeps what was recorded for the step and adds the
    input. *)
Lemma record_input_hit o trx step input all x item :
  x ∈ input -> word_hits item x = true ->
  exists r, validation_data (RecordInputSet o trx step input all) !! (trx, step) = Some r /\ record_hit r item = true.
Proof.
  intros Hx Hh. cbn. rewrite lookup_insert_eq. eexists. split; [done|]. unfold record_hit. destruct all; [done|]. cbn.
  apply existsb_exists. exists x. split; [|done]. apply list_elem_of_In, elem_of_app. by right.
Qed.

(** ** The life of the input sets *)

(** The steps of a transaction with a record are listed for it. *)
Definition sets_ok (o : input_sets) : Prop :=
  forall t s r, validation_data o !! (t, s) = Some r -> exists l, trx_to_step_table o !! t = Some l /\ s ∈ l.

Inductive sets_op := Record_input (trx step : Z) (input : list Z) (all : bool) | Forget_trx (trx : Z).
Definition sets_step (o : input_sets) (op : sets_op) : input_sets :=
  match op with
  | Record_input t s input all => RecordInputSet o t s input all
  | Forget_trx t => DeleteInputSet o t
  end.

Lemma delete_steps_lookup (d : gmap (Z * Z) record_val) t steps t' s' :
  foldl (fun d step => delete (t, step) d) d steps !! (t', s') =
  if decide (t' = t /\ s' ∈ steps) then None else d !! (t', s').
Proof.
  revert d. induction steps as [|s steps IH]; intros d; cbn.
  { rewrite decide_False; [done|]. by intros [_ ?%elem_of_nil]. }
  rewrite IH. destruct (decide (t' = t /\ s' ∈ steps)) as [[-> H]|H].
  { rewrite decide_True; [done|]. split; [done|by right]. }
  destruct (decide ((t, s) = (t', s'))) as [[= -> ->]|Hne].
  - rewrite lookup_delete_eq, decide_True; [done|]. split; [done|left].
  - rewrite lookup_delete_ne by done. rewrite decide_False; [done|].
    intros [-> [->|?]%elem_of_cons]; [done|]. by apply H.
Qed.

Lemma sets_step_ok o op : sets_ok o -> sets_ok (sets_step o op).
Proof.
  intros Ho. destruct op as [t s input all|t]; cbn.
  - intros t' s' r. cbn. destruct (decide ((t, s) = (t', s'))) as [[= <- <-]|Hne].
    + intros _. rewrite lookup_insert_eq. eexists. split; [done|]. set_solver.
    + rewrite lookup_insert_ne by done. intros (l & E & Hs)%Ho. destruct (decide (t = t')) as [<-|].
      * rewrite lookup_insert_eq, E. eexists. split; [done|]. set_solver.
      * rewrite lookup_insert_ne by done. eauto.
  - unfold DeleteInputSet. destruct (trx_to_step_table o !! t) as [steps|] eqn:E; [|done].
    intros t' s' r. cbn. rewrite delete_steps_lookup. case_decide as Hd; [done|]. intros (l & El & Hs)%Ho.
    destruct (decide (t' = t)) as [->|]; [|rewrite lookup_delete_ne by done; eauto].
    destruct Hd. split; [done|]. congruence.
Qed.

(** The input sets of a transaction live exactly until they are deleted:
    after any sequence of recordings and deletions, deleting a transaction
    leaves none of its records and changes none of another transaction, and
    recording an input makes every later check of the step report a conflict
    with the actions on it. *)
Theorem input_sets_lifecycle ops t step input all x item :
  let o := foldl sets_step no_sets ops in
  (forall s, validation_data (DeleteInputSet o t) !! (t, s) = None) /\
  (forall t' s, t' <> t -> validation_data (DeleteInputSet o t) !! (t', s) = validation_data o !! (t', s)) /\
  (x ∈ input -> word_hits item x = true -> Validate (RecordInputSet o t step input all) t step [item] = false).
Proof.
  intros o. assert (sets_ok o) as Ho.
  { unfold o. assert (sets_ok no_sets) as H0 by (intros ? ? ?; cbn; by rewrite lookup_empty).
    revert H0. generalize no_sets. induction ops as [|op ops IH]; intros o' H; [done|]. apply IH, sets_step_ok, H. }
  unfold DeleteInputSet. split_and!.
  - intros s. destruct (trx_to_step_table o !! t) as [steps|] eqn:E; cbn.
    + rewrite delete_steps_lookup. case_decide as Hd; [done|].
      destruct (validation_data o !! (t, s)) eqn:Ed; [|done]. apply Ho in Ed as (l & El & Hs).
      destruct Hd. split; [done|]. congruence.
    + destruct (validation_data o !! (t, s)) eqn:Ed; [|done]. apply Ho in Ed as (l & El & _). congruence.
  - intros t' s Hne. destruct (trx_to_step_table o !! t); [|done]. cbn. rewrite delete_steps_lookup, decide_False; [done|]. tauto.
  - intros Hx Hh. apply Validate_false. destruct (record_input_hit o t step input all x item Hx Hh) as (r & E & Hr).
    exists r, item. split_and!; [done|by apply list_elem_of_singleton|done].
Qed.

Lemma input_sets_lifecycle_witness :
  Validate (RecordInputSet (foldl sets_step no_sets [Record_input 1 2 [7] false; Forget_trx 1]) 1 2 [5] false) 1 2 [5] = false.
Proof.
  apply (input_sets_lifecycle [Record_input 1 2 [7] false; Forget_trx 1] 1 2 [5] false 5 5); [set_solver|done].
Defined.

(** ** Words and elements *)

Lemma split_property_word id k :
  fits 52 id -> fits 12 k ->
  (id * 2 ^ 12 + k) >> PID_BITS = id /\
  i32 ((id * 2 ^ 12 + k) -64 (id <<64 PID_BITS)) = k.
Proof.
  intros Hid Hk. change PID_BITS with 12. unfold fits in *. split; [rewrite Z.shiftr_div_pow2 by done; lia|].
  assert (wrap 64 (Z.shiftl id 12) = id * 2 ^ 12) as ->.
  { rewrite Z.shiftl_mul_pow2 by done. unfold wrap. rewrite Z.mod_small; lia. }
  replace (id * 2 ^ 12 + k - id * 2 ^ 12) with k by lia.
  unfold swrap, wrap. rewrite !(Z.mod_small k) by lia. cbv zeta. by rewrite (proj2 (Z.ltb_lt _ _)) by lia.
Qed.

(** The decoded action on a property names its element and key. *)
Lemma extract_vertex_property p vp :
  p ∈ [IVP; MVP; DVP] -> vpid_wf vp ->
  extract_item p (vpid_t2uint vp) = (vp_vid vp * 2 ^ 26, vp_pid vp, VERTEX).
Proof.
  intros Hp Hvp. destruct (split_property_word (vp_vid vp * 2 ^ 26) (vp_pid vp)) as [E1 E2].
  { destruct Hvp as [H _]. change VID_BITS with 26 in H. unfold fits in *. lia. } { apply Hvp. }
  replace (vpid_t2uint vp) with (vp_vid vp * 2 ^ 26 * 2 ^ 12 + vp_pid vp) by (rewrite vpid_t2uint_eq by done; lia).
  unfold extract_item. rewrite E1, E2. set_unfold in Hp. by destruct_or! Hp; subst.
Qed.

Lemma extract_edge_property p ep :
  p ∈ [IEP; MEP; DEP] -> epid_wf ep ->
  extract_item p (epid_t2uint ep) = (eid_t2uint (mk_eid (ep_dst_vid ep) (ep_src_vid ep)), ep_pid ep, EDGE).
Proof.
  intros Hp Hep. pose proof Hep as (Hd & Hs & Hk). change VID_BITS with 26 in *. unfold fits in *.
  destruct (split_property_word (ep_dst_vid ep * 2 ^ 26 + ep_src_vid ep) (ep_pid ep)) as [E1 E2];
    [unfold fits; lia|done|].
  rewrite epid_t2uint_eq, eid_t2uint_eq by (done || by split). cbn [dst_v src_v].
  replace (ep_dst_vid ep * 2 ^ 38 + ep_src_vid ep * 2 ^ 12 + ep_pid ep)
    with ((ep_dst_vid ep * 2 ^ 26 + ep_src_vid ep) * 2 ^ 12 + ep_pid ep) by lia.
  unfold extract_item. rewrite E1, E2. set_unfold in Hp. by destruct_or! Hp; subst.
Qed.

Lemma vertex_word_hits v : fits 26 v -> word_hits (v * 2 ^ 26) v = true.
Proof.
  intros Hv. unfold word_hits. change VID_BITS with 26. rewrite Z.shiftr_div_pow2 by done.
  rewrite Z.div_mul by done. rewrite Z.eqb_refl. by rewrite orb_true_r.
Qed.
Lemma same_word_hits w : word_hits w w = true.
Proof. unfold word_hits. by rewrite Z.eqb_refl. Qed.

(** A vertex 0 in the input conflicts with every action on a vertex property,
    whatever the vertex: the low half of the word of such an action is 0. *)
Theorem vertex_zero_always_hit v : fits 26 v -> word_hits (v * 2 ^ 26) 0 = true.
Proof.
  intros Hv. unfold word_hits. change VID_BITS with 26. rewrite Z.shiftr_div_pow2, Z.div_mul by done.
  rewrite Z.shiftl_mul_pow2 by done. unfold fits, wrap in *. rewrite (Z.mod_small (v * 2 ^ 26)) by lia.
  rewrite Z.sub_diag. cbn. by rewrite !orb_true_r.
Qed.
Lemma vertex_zero_always_hit_witness : word_hits (7 * 2 ^ 26) 0 = true.
Proof. apply vertex_zero_always_hit. by vm_compute. Defined.
