(* ===== verification/Routing.v ===== *)
(** * core/message.cpp: routing of messages

    The result of an expert is a list of values with their histories.  It is
    split over the workers that store the values, or sent to the barrier that
    collects it, in messages of bounded size.  Every message carries the path of
    the numbers of messages that its ancestors were split into; barriers count
    with it.  The choice of the receiving thread is that of [Affinity], whose
    state is passed along.  A [std::map] is the list of its entries in the order
    of the keys.  [None] is a failed check, an access out of range, an exception
    or a loop that does not end. *)
From S2P Require Import Prelude MyMath Types Serialization Wire ToolValue TrxStatus RunningTrx Coordinator Rct InputSet Affinity.
Local Open Scope Z_scope.
Local Open Scope word_scope.

(** ** Fields of messages *)

Definition pair_t : Type := history_t * list value_t.

Definition set_step (m : Meta) (s : Z) : Meta :=
  mk_meta (qid m) s (query_count_in_trx m) (msg_type m) (recver_nid m) (recver_tid m) (parent_nid m) (parent_tid m)
    (msg_path m) (branch_infos m) (qplan m).
Definition set_type (m : Meta) (t : MSG_T) : Meta :=
  mk_meta (qid m) (step m) (query_count_in_trx m) t (recver_nid m) (recver_tid m) (parent_nid m) (parent_tid m)
    (msg_path m) (branch_infos m) (qplan m).
Definition set_nid (m : Meta) (n : Z) : Meta :=
  mk_meta (qid m) (step m) (query_count_in_trx m) (msg_type m) n (recver_tid m) (parent_nid m) (parent_tid m)
    (msg_path m) (branch_infos m) (qplan m).
Definition set_tid (m : Meta) (t : Z) : Meta :=
  mk_meta (qid m) (step m) (query_count_in_trx m) (msg_type m) (recver_nid m) t (parent_nid m) (parent_tid m)
    (msg_path m) (branch_infos m) (qplan m).
Definition set_path (m : Meta) (p : list Z) : Meta :=
  mk_meta (qid m) (step m) (query_count_in_trx m) (msg_type m) (recver_nid m) (recver_tid m) (parent_nid m) (parent_tid m)
    p (branch_infos m) (qplan m).
Definition set_branches (m : Meta) (b : list Branch_Info) : Meta :=
  mk_meta (qid m) (step m) (query_count_in_trx m) (msg_type m) (recver_nid m) (recver_tid m) (parent_nid m) (parent_tid m)
    (msg_path m) b (qplan m).
Definition set_meta (msg : Message) (m : Meta) : Message := mk_msg m (data msg) (max_data_size msg) (data_size msg).
(** [Message::Message(const Meta&)] (core/message.hpp:120-123). *)
Definition msg_of (m : Meta) : Message := mk_msg m [] 1048576 8.
Definition with_max (msg : Message) (mx : Z) : Message := mk_msg (meta msg) (data msg) mx (data_size msg).

(** The expert of a step. *)
Definition expert_at (experts : list Expert_Object) (step : Z) : option Expert_Object := at_int experts step.
Definition type_at (experts : list Expert_Object) (step : Z) : option EXPERT_T := expert_type <$> expert_at experts step.

(** ** Filling messages *)

(** [MemSize(value_t)] (core/message.cpp:838-842), with the other overloads
    (core/message.tpp:15-29) expanded. *)
Definition MemSize_value (v : value_t) : Z := 1 + (8 + Z.of_nat (length (v_content v))).
Definition MemSize_history (h : history_t) : Z := 8 + foldr (fun kv s => 4 + MemSize_value kv.2 + s) 0 h.

(** The loop that finds the values for which there is space: those, the rest and
    the size. *)
Fixpoint take_fitting (space in_size : Z) (vs : list value_t) : list value_t * list value_t * Z :=
  match vs with
  | [] => ([], [], in_size)
  | v :: vs' =>
      if MemSize_value v + in_size <=? space then
        let '(a, b, s) := take_fitting space (in_size + MemSize_value v) vs' in (v :: a, b, s)
      else ([], vs, in_size)
  end.
(** [Message::InsertData(pair&)] (core/message.cpp:756-793): whether all values
    were moved, the message, and the pair with the values that are left. *)
Definition InsertData_pair (msg : Message) (p : pair_t) : bool * Message * pair_t :=
  let space := max_data_size msg -64 data_size msg in
  let his_size := MemSize_history p.1 + 8 in
  match p.2 with
  | [] => (true, mk_msg (meta msg) (data msg ++ [p]) (max_data_size msg) (data_size msg + his_size), p)
  | _ =>
      if space <=? his_size then (false, msg, p)
      else
        let '(a, b, in_size) := take_fitting space his_size p.2 in
        let msg' := if in_size =? his_size then msg
                    else mk_msg (meta msg) (data msg ++ [(p.1, a)]) (max_data_size msg) (data_size msg + in_size) in
        ((length b =? 0)%nat, msg', (p.1, b))
  end.
(** [Message::InsertData(vector&)] (core/message.cpp:795-803): the message and
    the pairs that are left. *)
Fixpoint InsertData (msg : Message) (vec : list pair_t) : Message * list pair_t :=
  match vec with
  | [] => (msg, [])
  | p :: vec' =>
      let '(ok, msg', p') := InsertData_pair msg p in
      if ok : bool then InsertData msg' vec' else (msg', p' :: vec')
  end.

(** ** Routes *)

Section Routing.
(** The step of the message that is being processed, and the plan. *)
Context (self_step : Z) (experts : list Expert_Object).

Definition is_union (t : EXPERT_T) : bool := bool_decide (t = E_BRANCH) || bool_decide (t = E_REPEAT).

(** [Message::UpdateRoute] (core/message.cpp:668-706); the recursion removes a
    branch each time. *)
Fixpoint UpdateRoute_loop (fuel : nat) (m : Meta) : option (bool * Meta) :=
  match fuel with
  | O => None
  | S fuel' =>
      e ← expert_at experts (step m);
      if IsBarrier e then
        let nid := match last (branch_infos m) with Some b => bi_node_id b | None => parent_nid m end in
        Some (true, set_type (set_nid m nid) M_BARRIER)
      else if step m <=? self_step then
        b ← last (branch_infos m);
        if is_union (expert_type e) then
          UpdateRoute_loop fuel' (set_branches (set_step m (next_expert e)) (removelast (branch_infos m)))
        else Some (true, set_type (set_tid (set_nid m (bi_node_id b)) (bi_thread_id b)) M_BRANCH)
      else Some (false, set_type m M_SPAWN)
  end.
Definition UpdateRoute (m : Meta) : option (bool * Meta) := UpdateRoute_loop (S (length (branch_infos m))) m.

(** The loop of [UpdateCollectionRoute]: whether a barrier was found, and the
    step that was reached. *)
Fixpoint collection_loop (fuel : nat) (m : Meta) : option (bool * Meta) :=
  match fuel with
  | O => None
  | S fuel' =>
      match expert_at experts (step m) with
      | None => Some (false, m)
      | Some e =>
          if IsBarrier e then Some (true, m)
          else if is_union (expert_type e) then
            if step m <=? self_step then
              match branch_infos m with
              | [] => None
              | bs => collection_loop fuel' (set_step (set_branches m (removelast bs)) (next_expert e))
              end
            else Some (false, m)
          else if step m <=? self_step then Some (false, m)
          else collection_loop fuel' (set_step m (next_expert e))
      end
  end.
(** [Message::UpdateCollectionRoute] (core/message.cpp:708-739).  In a plan every
    round of the loop goes to a later step or leaves a branch. *)
Definition UpdateCollectionRoute (m : Meta) : option (bool * Meta) :=
  '(to_barrier, m') ← collection_loop (S (length experts) * S (length (branch_infos m))) m;
  '(_, m'') ← UpdateRoute m';
  Some (to_barrier, m'').
End Routing.

(** [Message::GetNodeId] (core/message.cpp:741-754), with the mapper of
    [Coordinator]. *)
Definition GetNodeId (size : Z) (v : value_t) (consider_both_edge : bool) : option Z :=
  if v_type v =? 1 then
    i ← value_t2int v; Some (GetMachineIdForVertex size (vid_of_int i))
  else if v_type v =? 5 then
    u ← value_t2uint64_t v; Some (GetMachineIdForEdge size (uint2eid_t u) consider_both_edge)
  else Some (-1).

(** ** Edges to add *)

(** [AddEdgeMethodType] (base/type.hpp:697-697). *)
Inductive AddEdgeMethodType := PlaceHolder | StepLabel | NotApplicable.
Definition method_of_int (i : Z) : option AddEdgeMethodType := enum_of_int [PlaceHolder; StepLabel; NotApplicable] i.
Definition eid_value (dst src : Z) : value_t := uint64_t2value_t (eid_t2uint (eid_of_ints dst src)) value_default.

(** The search for a step label in a history: the iterator is never advanced, so
    the search ends only if the first entry has the label; on an empty history
    the end iterator is read. *)
Definition his_vid (his : history_t) (label : Z) : option Z :=
  match his with
  | (k, v) :: _ => if k =? label then if v_type v =? 1 then value_t2int v else None else None
  | [] => None
  end.
(** [Message::GenerateEdgeWithData] (core/message.cpp:196-248). *)
Definition GenerateEdgeWithData (d : list pair_t) (method : AddEdgeMethodType) (step_param : Z) (isFrom : bool)
  : option (list pair_t) :=
  let edge other v := vid ← value_t2int v; Some (if isFrom : bool then eid_value vid other else eid_value other vid) in
  match method with
  | PlaceHolder => mapM (fun p => vs ← mapM (edge step_param) p.2; Some (p.1, vs)) d
  | StepLabel => mapM (fun p => his ← his_vid p.1 step_param; vs ← mapM (edge his) p.2; Some (p.1, vs)) d
  | NotApplicable => Some d
  end.
(** [Message::GenerateEdgeWithHistory] (core/message.cpp:250-279). *)
Definition GenerateEdgeWithHistory (d : list pair_t) (step_param other_end_vid : Z) (isFrom : bool) : option (list pair_t) :=
  mapM (fun p =>
    his ← his_vid p.1 step_param;
    Some (p.1, [if isFrom : bool then eid_value other_end_vid his else eid_value his other_end_vid])) d.
(** [Message::GenerateEdgeWithBothHistory] (core/message.cpp:281-311).  Both
    labels are compared with the first entry of the history; if it has only one
    of them, the second round counts it again and the other vertex is not
    set. *)
Definition GenerateEdgeWithBothHistory (d : list pair_t) (from_label to_label : Z) : option (list pair_t) :=
  mapM (fun p =>
    from_vid ← his_vid p.1 from_label;
    to_vid ← his_vid p.1 to_label;
    Some (p.1, [eid_value to_vid from_vid])) d.
(** [Message::ConstructEdge] (core/message.cpp:156-194). *)
Definition ConstructEdge (d : list pair_t) (e : Expert_Object) : option (list pair_t) :=
  if decide (expert_type e = E_ADDE) then
    _ ← int_param e 0;
    from_i ← int_param e 1; to_i ← int_param e 3;
    from_m ← method_of_int from_i; to_m ← method_of_int to_i;
    from_p ← match from_m with NotApplicable => Some 0 | _ => int_param e 2 end;
    to_p ← match to_m with NotApplicable => Some 0 | _ => int_param e 4 end;
    match from_m, to_m with
    | PlaceHolder, PlaceHolder => Some [([], [eid_value to_p from_p])]
    | StepLabel, PlaceHolder => GenerateEdgeWithHistory d from_p to_p true
    | PlaceHolder, StepLabel => GenerateEdgeWithHistory d to_p from_p false
    | StepLabel, StepLabel => GenerateEdgeWithBothHistory d from_p to_p
    | NotApplicable, NotApplicable => None
    | _, NotApplicable => GenerateEdgeWithData d from_m from_p true
    | NotApplicable, _ => GenerateEdgeWithData d to_m to_p false
    end
  else None.

(** ** Dispatching data *)

(** [map<int, vector<T>>::operator[](k).push_back(x)] *)
Fixpoint map_push {T} (k : Z) (x : T) (m : list (Z * list T)) : list (Z * list T) :=
  match m with
  | [] => [(k, [x])]
  | (k', l) :: m' =>
      if k <? k' then (k, [x]) :: m
      else if k =? k' then (k', l ++ [x]) :: m'
      else (k', l) :: map_push k x m'
  end.

(** The values of one history, split over the workers that store them. *)
Fixpoint split_values (size : Z) (both : bool) (vs : list value_t) (m : list (Z * list value_t)) : option (list (Z * list value_t)) :=
  match vs with
  | [] => Some m
  | v :: vs' =>
      dst ← (if both then GetNodeId size v both else Some (-1));
      let m := if both then map_push dst v m else m in
      node ← GetNodeId size v false;
      split_values size both vs' (if node =? dst then m else map_push node v m)
  end.
(** The loop of the mapped route: the data of each worker, and the histories
    without data. *)
Fixpoint split_data (size : Z) (both empty_to_barrier : bool) (d : list pair_t) (id2data : list (Z * list pair_t)) (empty_his : list pair_t)
  : option (list (Z * list pair_t) * list pair_t) :=
  match d with
  | [] => Some (id2data, empty_his)
  | (h, []) :: d' => split_data size both empty_to_barrier d' id2data (if empty_to_barrier then empty_his ++ [(h, [])] else empty_his)
  | (h, vs) :: d' =>
      m ← split_values size both vs [];
      split_data size both empty_to_barrier d' (foldl (fun acc kv => map_push kv.1 (h, kv.2) acc) id2data m) empty_his
  end.
(** The loop of a fixed route. *)
Fixpoint collect_data (nid : Z) (is_count empty_to_barrier : bool) (d : list pair_t) (id2data : list (Z * list pair_t)) (empty_his : list pair_t)
  : option (list (Z * list pair_t) * list pair_t) :=
  match d with
  | [] => Some (id2data, empty_his)
  | (h, []) :: d' => collect_data nid is_count empty_to_barrier d' id2data (if empty_to_barrier then empty_his ++ [(h, [])] else empty_his)
  | (h, vs) :: d' =>
      vs' ← (if is_count then v ← str2int (to_string_int (Z.of_nat (length vs))) value_default; Some [v] else Some vs);
      collect_data nid is_count empty_to_barrier d' (map_push nid (h, vs') id2data) empty_his
  end.

(** The number of rounds that take something out of the data. *)
Definition work (vec : list pair_t) : nat := length vec + length (vec ≫= snd).
(** The loop that fills messages until the data is used up; a round that takes
    nothing is repeated for ever. *)
Fixpoint fill_messages (fuel : nat) (mx : Z) (t : EXPERT_T) (m : Meta) (vec : list pair_t) (a : affinity)
  : option (list Message * affinity) :=
  match fuel with
  | O => None
  | S fuel' =>
      '(tid, a) ← GetThreadIdForExpert a t;
      let '(msg, rest) := InsertData (with_max (msg_of (set_tid m tid)) mx) vec in
      match rest with
      | [] => Some ([msg], a)
      | _ => '(msgs, a) ← fill_messages fuel' mx t m rest a; Some (msg :: msgs, a)
      end
  end.
Fixpoint fill_nodes (mx : Z) (t : EXPERT_T) (m : Meta) (id2data : list (Z * list pair_t)) (a : affinity)
  : option (list Message * affinity) :=
  match id2data with
  | [] => Some ([], a)
  | (nid, vec) :: rest =>
      '(msgs, a) ← fill_messages (S (work vec)) mx t (set_nid m nid) vec a;
      '(msgs', a) ← fill_nodes mx t m rest a;
      Some (msgs ++ msgs', a)
  end.

(** Whether an expert needs an edge on the workers of both its vertices. *)
Definition both_ends (e : Expert_Object) (d : list pair_t) : option (bool * list pair_t) :=
  match expert_type e with
  | E_DROP =>
      inType ← int_param e 0; isProperty ← int_param e 1;
      Some ((isProperty =? 0) && (inType =? element_int EDGE), d)
  | E_ADDE => d' ← ConstructEdge d e; Some (true, d')
  | _ => Some (false, d)
  end.

Section Dispatch.
(** The number of workers. *)
Context (size : Z).

(** [Message::DispatchData] (core/message.cpp:557-666): the messages it adds. *)
Definition DispatchData (self : Message) (m : Meta) (experts : list Expert_Object) (d : list pair_t) (a : affinity)
  : option (list Message * affinity) :=
  let self_step := step (meta self) in
  '(route_assigned, m') ← UpdateRoute self_step experts m;
  '(empty_to_barrier, cm) ← UpdateCollectionRoute self_step experts m;
  e ← expert_at experts (step m');
  ce ← expert_at experts (step cm);
  here ← expert_at experts self_step;
  is_count ← (if decide (expert_type e = E_COUNT) then t ← type_at experts (step m' - 1); Some (negb (bool_decide (t = E_INIT))) else Some false);
  '(both, d) ← both_ends e d;
  '(id2data, empty_his) ←
    (if (negb route_assigned && send_remote here) || both then
       '(id2data, empty_his) ← split_data size both empty_to_barrier d [] [];
       Some (id2data, if (length id2data =? 0)%nat && (length empty_his =? 0)%nat then [([], [])] else empty_his)
     else
       '(id2data, empty_his) ← collect_data (recver_nid m') is_count empty_to_barrier d [] [];
       Some (id2data, if (length id2data =? 0)%nat && (length empty_his =? 0)%nat then [([], [])] else empty_his));
  '(msgs, a) ← fill_nodes (max_data_size self) (expert_type e) m' id2data a;
  '(msgs', a) ← (match empty_his with
                 | [] => Some ([], a)
                 | _ => fill_messages (S (work empty_his)) (max_data_size self) (expert_type ce) cm empty_his a
                 end);
  Some (msgs ++ msgs', a).

(** Appending to the path of messages. *)
Definition add_path (suffix : list Z) (msgs : list Message) : list Message :=
  (fun msg => set_meta msg (set_path (meta msg) (msg_path (meta msg) ++ suffix))) <$> msgs.
Definition count_of (msgs : list Message) : list Z := to_string_int (Z.of_nat (length msgs)).

(** [Message::CreateNextMsg] (core/message.cpp:393-411). *)
Definition CreateNextMsg (self : Message) (experts : list Expert_Object) (d : list pair_t) (a : affinity)
  : option (list Message * affinity) :=
  here ← expert_at experts (step (meta self));
  '(msgs, a) ← DispatchData self (set_step (meta self) (next_expert here)) experts d a;
  let num := count_of msgs in
  Some (add_path (if decide (msg_path (meta self) = []) then num else ch_tab :: num) msgs, a).

(** The loop over the steps of a branch. *)
Fixpoint branch_steps (self : Message) (m : Meta) (info : Branch_Info) (experts : list Expert_Object) (d : list pair_t)
    (steps : list Z) (i : Z) (a : affinity) : option (list Message * affinity) :=
  match steps with
  | [] => Some ([], a)
  | s :: steps' =>
      let info' := mk_branch (bi_node_id info) (bi_thread_id info) (i + 1) (bi_key info) (bi_msg_id info) (bi_msg_path info) in
      '(msgs, a) ← DispatchData self (set_step (set_branches m (branch_infos m ++ [info'])) s) experts d a;
      '(msgs', a) ← branch_steps self m info experts d steps' (i + 1) a;
      Some (add_path (ch_tab :: count_of msgs) msgs ++ msgs', a)
  end.
(** [Message::CreateBranchedMsg] (core/message.cpp:413-477). *)
Definition CreateBranchedMsg (self : Message) (experts : list Expert_Object) (steps : list Z) (a : affinity)
  : option (list Message * affinity) :=
  let m := meta self in
  let step_count := to_string_int (Z.of_nat (length steps)) in
  let '(info, parent_path) :=
    match last (branch_infos m) with
    | Some b => (mk_branch (bi_node_id b) (bi_thread_id b) (bi_index b) (bi_key b) (bi_msg_id b)
                   (bi_msg_path b ++ ch_tab :: step_count), bi_msg_path b)
    | None => (mk_branch (parent_nid m) (parent_tid m) 0 (-1) 0 step_count, [])
    end in
  if (length parent_path <=? length (msg_path m))%nat then
    let tail := drop (length parent_path) (msg_path m) in
    let tail := match tail with [] => [] | c :: _ => if c =? ch_tab then tail else ch_tab :: tail end in
    branch_steps self (set_path m (bi_msg_path info ++ tail)) info experts (data self) steps 0 a
  else None.

(** The data with a label per value, in [CreateBranchedMsgWithHisLabel]. *)
Fixpoint label_values (step : Z) (h : history_t) (vs : list value_t) (count : Z) : option (list pair_t * Z) :=
  match vs with
  | [] => Some ([], count)
  | v :: vs' =>
      l ← str2int (to_string_int count) value_default;
      '(r, n) ← label_values step h vs' (count + 1);
      Some ((h ++ [(step, l)], [v]) :: r, n)
  end.
Fixpoint label_data (step : Z) (d : list pair_t) (count : Z) : option (list pair_t) :=
  match d with
  | [] => Some []
  | (h, vs) :: d' =>
      '(r, n) ← label_values step h vs count;
      r' ← label_data step d' n;
      Some ((match vs with [] => [(h, [])] | _ => r end) ++ r')
  end.
(** [Message::CreateBranchedMsgWithHisLabel] (core/message.cpp:479-532). *)
Definition CreateBranchedMsgWithHisLabel (self : Message) (experts : list Expert_Object) (steps : list Z) (msg_id : Z) (a : affinity)
  : option (list Message * affinity) :=
  let m := meta self in
  d ← label_data (step m) (data self) 0;
  branch_steps self m (mk_branch (recver_nid m) (recver_tid m) 0 (step m) msg_id (msg_path m)) experts d steps 0 a.

(** [Message::CreateFeedMsg] (core/message.cpp:534-555); the fields that are not
    set are taken as 0. *)
Definition CreateFeedMsg (self : Message) (key : Z) (nodes_num : nat) (d : list value_t) : list Message :=
  let m := mk_meta (qid (meta self)) key (query_count_in_trx (meta self)) M_FEED 0 (parent_tid (meta self)) 0 0 [] [] plan_default in
  omap (fun i => if Z.of_nat i =? parent_nid (meta self) then None
                 else Some (mk_msg (set_nid m (Z.of_nat i)) [([], d)] 1048576 8)) (seq 0 nodes_num).

(** [Message::CreateBroadcastMsg] (core/message.cpp:363-375). *)
Definition CreateBroadcastMsg (self : Message) (t : MSG_T) (nodes_num : nat) : list Message :=
  let m := set_path (set_tid (set_type (set_step (meta self) (step (meta self) + 1)) t) (parent_tid (meta self)))
             (to_string_int (Z.of_nat nodes_num)) in
  (fun i => msg_of (set_nid m (Z.of_nat i))) <$> seq 0 nodes_num.

(** [Message::CreateAbortMsg] (core/message.cpp:377-391). *)
Definition CreateAbortMsg (self : Message) (experts : list Expert_Object) (abort_info : list Z) : Message :=
  let m := set_tid (set_nid (set_type (set_step (meta self) (i32 (Z.of_nat (length experts) - 1))) M_ABORT) (parent_nid (meta self)))
             (parent_tid (meta self)) in
  mk_msg m (if decide (abort_info = []) then [] else [([], [str2str abort_info value_default])]) 1048576 8.

(** [Message::AssignParamsByLocality] (core/message.cpp:111-154) for the copies
    of one plan: the parameters from the third on go to the workers that store
    them. *)
Definition AssignParamsByLocality (plan : QueryPlan) (nodes_num : nat) : option (list QueryPlan) :=
  e ← experts plan !! 0%nat;
  let copies := replicate nodes_num plan in
  match expert_type e with
  | E_INIT =>
      with_input ← int_param e 1;
      if with_input =? 0 then Some copies
      else
        m ← split_values size false (drop 2 (params e)) [];
        Some ((fun j =>
          let e' := mk_expert (expert_type e) (ex_index e) (next_expert e) (send_remote e)
                      (take 2 (params e) ++ default [] (snd <$> list_find (fun kv => kv.1 = Z.of_nat j) m ≫= fun kv => Some kv.2)) in
          mk_plan (query_index plan) (<[0%nat := e']> (experts plan)) (is_process plan) (trx_type plan) (trxid plan) (st plan))
          <$> seq 0 nodes_num)
  | _ => Some copies
  end.

(** [Message::CreateInitMsg] (core/message.cpp:313-361). *)
Definition CreateInitMsg (qid query_count_in_trx parent_node : Z) (nodes_num : nat) (recv_tid : Z) (plan : QueryPlan)
  : option (list Message) :=
  let m := mk_meta qid 0 query_count_in_trx M_INIT (-1) recv_tid parent_node recv_tid
             (to_string_int (Z.of_nat nodes_num)) [] plan_default in
  e ← experts plan !! 0%nat;
  '(eid, src_node, dst_node) ←
    (if decide (expert_type e = E_ADDE) then
       d ← ConstructEdge [] e;
       p ← d !! 0%nat; eid ← p.2 !! 0%nat;
       src ← GetNodeId size eid false; dst ← GetNodeId size eid true;
       Some (eid, src, dst)
     else Some (value_default, -1, -1));
  plans ← AssignParamsByLocality plan nodes_num;
  Some (imap (fun i p =>
    let n := Z.of_nat i in
    let m' := set_nid m n in
    let m' := mk_meta (Wire.qid m') (step m') (Wire.query_count_in_trx m') (msg_type m') (recver_nid m') (recver_tid m')
                (parent_nid m') (parent_tid m') (msg_path m') (branch_infos m') p in
    mk_msg m'
      (if bool_decide (expert_type e = E_ADDV) && (n =? parent_node) then [([], [value_default])]
       else if bool_decide (expert_type e = E_ADDE) && ((n =? src_node) || (n =? dst_node)) then [([], [eid])]
       else []) 1048576 8) plans).
End Dispatch.

(** ** Nothing is lost *)

(** The values with their histories. *)
Definition flat (d : list pair_t) : list (history_t * value_t) := d ≫= fun p => (fun v => (p.1, v)) <$> p.2.

Lemma flat_app d1 d2 : flat (d1 ++ d2) = flat d1 ++ flat d2.
Proof. apply bind_app. Qed.
Lemma flat_one h vs : flat [(h, vs)] = (fun v => (h, v)) <$> vs.
Proof. unfold flat. cbn. by rewrite app_nil_r. Qed.
Lemma flat_single p : flat [p] = (fun v => (p.1, v)) <$> p.2.
Proof. unfold flat. cbn. by rewrite app_nil_r. Qed.
Lemma flat_cons p d : flat (p :: d) = ((fun v => (p.1, v)) <$> p.2) ++ flat d.
Proof. done. Qed.

Lemma take_fitting_spec space n vs a b s :
  take_fitting space n vs = (a, b, s) ->
  vs = a ++ b /\ s = n + foldr (fun v t => MemSize_value v + t) 0 a /\ (a <> [] -> s <= space) /\
  (b <> [] -> a = [] -> exists v, head vs = Some v /\ space < MemSize_value v + n).
Proof.
  revert n a s. induction vs as [|v vs IH]; intros n a s H; cbn in H.
  { injection H as <- <- <-. cbn. split_and!; [done|lia|done|done]. }
  destruct (Z.leb_spec (MemSize_value v + n) space).
  - destruct (take_fitting space (n + MemSize_value v) vs) as [[a' b'] s'] eqn:E. injection H as <- <- <-.
    destruct (IH _ _ _ E) as (-> & -> & Hs & _). cbn. split_and!; [done|lia| |done].
    intros _. destruct a' as [|w a']; [cbn; lia|]. apply Hs. done.
  - injection H as <- <- <-. cbn. split_and!; [done|lia|done|]. intros _ _. by exists v.
Qed.

Lemma MemSize_value_pos v : 0 < MemSize_value v.
Proof. unfold MemSize_value. lia. Qed.
Lemma MemSize_sum_pos vs : 0 <= foldr (fun v t => MemSize_value v + t) 0 vs /\ (vs <> [] -> 0 < foldr (fun v t => MemSize_value v + t) 0 vs).
Proof.
  induction vs as [|v vs [IH _]]; cbn; [done|]. pose proof (MemSize_value_pos v). split; [lia|]. intros _. lia.
Qed.

Lemma MemSize_history_pos h : 0 < MemSize_history h.
Proof.
  unfold MemSize_history. assert (0 <= foldr (fun kv s => 4 + MemSize_value kv.2 + s) 0 h); [|lia].
  induction h as [|[k u] h IH]; [done|]. cbn [foldr snd]. pose proof (MemSize_value_pos u). lia.
Qed.

(** The space for the data of a message is respected. *)
Definition room_ok (msg : Message) : Prop := data_size msg <= max_data_size msg < 2 ^ 64 /\ 0 <= data_size msg.

Lemma InsertData_pair_spec msg p ok msg' p' :
  InsertData_pair msg p = (ok, msg', p') ->
  meta msg' = meta msg /\ max_data_size msg' = max_data_size msg /\
  flat (data msg') ++ flat [p'] = flat (data msg) ++ flat [p] /\ (ok = true -> flat [p'] = []) /\
  (ok = false -> p.2 <> [] /\ p'.2 <> [] /\ (length (p'.2) < length (p.2) \/ msg' = msg)%nat) /\
  (room_ok msg -> p.2 <> [] -> room_ok msg').
Proof.
  destruct p as [h vs]. unfold InsertData_pair. cbn [fst snd]. destruct vs as [|v vs].
  { intros [= <- <- <-]. cbn [meta max_data_size data]. rewrite flat_app, flat_one, !app_nil_r. by split_and!. }
  destruct (Z.leb_spec (max_data_size msg -64 data_size msg) (MemSize_history h + 8)).
  { intros [= <- <- <-]. split_and!; try done. intros _. split_and!; [done|done|by right]. }
  destruct (take_fitting _ _ (v :: vs)) as [[a b] sz] eqn:E. intros [= <- <- <-].
  destruct (take_fitting_spec _ _ _ _ _ _ E) as (Hab & Hsz & Hsp & _). rewrite Hab.
  destruct (MemSize_sum_pos a) as [Ha0 Ha1].
  assert ((sz =? MemSize_history h + 8) = (length a =? 0)%nat) as Eq.
  { destruct a as [|w a]; [rewrite Hsz; cbn; rewrite Z.add_0_r; apply Z.eqb_refl|]. cbn [length Nat.eqb]. apply Z.eqb_neq.
    specialize (Ha1 ltac:(done)). lia. }
  rewrite Eq. split_and!.
  - by destruct a.
  - by destruct a.
  - destruct a as [|w a]; cbn [length Nat.eqb data]; [done|]. rewrite flat_app, !flat_one, <- app_assoc. f_equal. by rewrite <- fmap_app.
  - intros Hb%Nat.eqb_eq. apply nil_length_inv in Hb. by subst.
  - intros Hb%Nat.eqb_neq. cbn [fst snd]. split_and!; [rewrite <- Hab; done|intros ->; by apply Hb|].
    destruct a as [|w a]; [by right|]. left. rewrite length_app. cbn. lia.
  - intros [Hr1 Hr2] _. destruct a as [|w a]; [done|]. cbn [length Nat.eqb]. unfold room_ok. cbn [data_size max_data_size].
    specialize (Hsp ltac:(done)). rewrite wrap_small in Hsp by (unfold fits; lia).
    specialize (Ha1 ltac:(done)). pose proof (MemSize_history_pos h). lia.
Qed.

Lemma InsertData_spec msg vec msg' rest :
  InsertData msg vec = (msg', rest) ->
  meta msg' = meta msg /\ max_data_size msg' = max_data_size msg /\
  flat (data msg') ++ flat rest = flat (data msg) ++ flat vec.
Proof.
  revert msg. induction vec as [|p vec IH]; intros msg H; cbn in H.
  { injection H as <- <-. done. }
  destruct (InsertData_pair msg p) as [[ok m1] p1] eqn:E. destruct (InsertData_pair_spec _ _ _ _ _ E) as (H1 & H2 & H3 & H4 & _).
  destruct ok.
  - destruct (IH _ H) as (I1 & I2 & I3). split_and!; [congruence|congruence|]. rewrite I3.
    rewrite (H4 eq_refl), app_nil_r in H3. by rewrite H3, flat_single, <- app_assoc, flat_cons.
  - injection H as <- <-. split_and!; [done|done|]. rewrite !flat_single in H3. by rewrite !flat_cons, !app_assoc, H3.
Qed.

(** What the messages carry, with the worker they go to. *)
Definition delivered (msgs : list Message) : list (Z * (history_t * value_t)) :=
  msgs ≫= fun msg => (fun hv => (recver_nid (meta msg), hv)) <$> flat (data msg).
Lemma delivered_cons msg l : delivered (msg :: l) = ((fun hv => (recver_nid (meta msg), hv)) <$> flat (data msg)) ++ delivered l.
Proof. done. Qed.
Lemma delivered_app l1 l2 : delivered (l1 ++ l2) = delivered l1 ++ delivered l2.
Proof. apply bind_app. Qed.

(** The messages that are filled belong to the given route. *)
Definition on_route (m : Meta) (msg : Message) : Prop :=
  exists tid, meta msg = set_tid m tid.

Lemma fill_messages_spec fuel mx t m vec a msgs a' :
  fill_messages fuel mx t m vec a = Some (msgs, a') ->
  msgs <> [] /\ Forall (on_route m) msgs /\ delivered msgs = (fun hv => (recver_nid m, hv)) <$> flat vec.
Proof.
  revert vec a msgs. induction fuel as [|fuel IH]; intros vec a msgs H; [done|]. cbn [fill_messages] in H.
  destruct (GetThreadIdForExpert a t) as [[tid a1]|]; [|done]. cbn [mbind option_bind] in H.
  destruct (InsertData _ vec) as [msg rest] eqn:E. destruct (InsertData_spec _ _ _ _ E) as (Hm & _ & Hf). cbn in Hm, Hf.
  destruct rest as [|p rest].
  - injection H as <- <-. split_and!; [done|constructor; [by exists tid|constructor]|]. unfold delivered. cbn [mbind list_bind].
    rewrite app_nil_r, Hm. cbn. rewrite <- Hf. unfold flat at 3. cbn. by rewrite app_nil_r.
  - destruct (fill_messages fuel mx t m (p :: rest) a1) as [[msgs1 a2]|] eqn:E2; [|done]. cbn [mbind option_bind] in H. injection H as <- <-.
    destruct (IH _ _ _ E2) as (_ & Hr & Hd). split_and!; [done|constructor; [by exists tid|done]|].
    unfold delivered in *. cbn [mbind list_bind]. rewrite Hd, Hm. cbn. rewrite <- fmap_app. f_equal. by rewrite <- Hf.
Qed.

(** ** Filling ends *)

(** A value fits into a message together with its history. *)
Definition pair_fits (mx : Z) (p : pair_t) : Prop :=
  Forall (fun v => MemSize_history p.1 + 8 + MemSize_value v <= mx - 8) p.2.

Lemma work_cons p vec : work (p :: vec) = (1 + length (p.2) + work vec)%nat.
Proof. unfold work. cbn. rewrite length_app. lia. Qed.

Lemma InsertData_pair_left msg p ok msg' p' :
  InsertData_pair msg p = (ok, msg', p') -> exists a, p.2 = a ++ p'.2 /\ p'.1 = p.1.
Proof.
  destruct p as [h vs]. unfold InsertData_pair. cbn [fst snd]. destruct vs as [|v vs]; [intros [= <- <- <-]; by exists []|].
  destruct (_ <=? _); [intros [= <- <- <-]; by exists []|].
  destruct (take_fitting _ _ (v :: vs)) as [[a b] sz] eqn:E. intros [= <- <- <-].
  destruct (take_fitting_spec _ _ _ _ _ _ E) as (Hab & _). by exists a.
Qed.

Lemma InsertData_rest mx msg vec msg' rest :
  InsertData msg vec = (msg', rest) -> Forall (pair_fits mx) vec ->
  (work rest <= work vec)%nat /\ Forall (pair_fits mx) rest.
Proof.
  revert msg. induction vec as [|p vec IH]; intros msg H Hf; cbn in H; [injection H as <- <-; done|].
  apply Forall_cons in Hf as [Hp Hf]. destruct (InsertData_pair msg p) as [[ok m1] p1] eqn:E.
  destruct (InsertData_pair_left _ _ _ _ _ E) as (a & Ea & Eh). rewrite work_cons. destruct ok.
  - destruct (IH _ H Hf). split; [lia|done].
  - injection H as <- <-. rewrite work_cons, Ea, length_app. split; [lia|]. constructor; [|done].
    unfold pair_fits in *. rewrite Eh. rewrite Ea in Hp. by apply Forall_app in Hp as [_ ?].
Qed.

(** A new message takes something. *)
Lemma InsertData_progress mx m vec msg' rest :
  16 < mx < 2 ^ 64 -> InsertData (with_max (msg_of m) mx) vec = (msg', rest) -> Forall (pair_fits mx) vec ->
  rest <> [] -> (work rest < work vec)%nat.
Proof.
  intros Hmx H Hf Hr. destruct vec as [|p vec]; [cbn in H; congruence|]. cbn [InsertData] in H.
  apply Forall_cons in Hf as [Hp Hf]. destruct (InsertData_pair _ p) as [[ok m1] p1] eqn:E.
  destruct (InsertData_pair_left _ _ _ _ _ E) as (a & Ea & Eh). rewrite work_cons. destruct ok.
  { destruct (InsertData_rest mx _ _ _ _ H Hf). lia. }
  injection H as <- <-. rewrite work_cons, Ea, length_app. enough (a <> []) by (destruct a; [done|cbn; lia]).
  intros ->. revert E. unfold InsertData_pair. destruct p as [h vs]. cbn [fst snd] in *. destruct vs as [|v vs]; [done|].
  cbn [max_data_size data_size with_max msg_of]. rewrite wrap_small by (unfold fits; lia).
  apply Forall_cons in Hp as [Hv _]. cbn [fst] in Hv. pose proof (MemSize_value_pos v).
  destruct (Z.leb_spec (mx - 8) (MemSize_history h + 8)); [lia|].
  destruct (take_fitting _ _ (v :: vs)) as [[a b] sz] eqn:Et. intros [= Hb _ <-]. cbn in Ea. subst b.
  destruct (take_fitting_spec _ _ _ _ _ _ Et) as (Hab & _ & _ & Hn).
  assert (a = []) as -> by (apply (app_inv_tail (v :: vs)); by rewrite <- Hab).
  destruct (Hn ltac:(done) eq_refl) as (w & [= <-] & Hw). lia.
Qed.

(** The threads can be chosen. *)
Definition aff_total (a : affinity) : Prop := aff_ok a /\ (forall d l, core_pool_table a !! d = Some l -> exists i, core_pool_table_itr a !! d = Some i /\ (i < length l)%nat)
  \/ (enable_expert_division a = false /\ global_num_threads a <> 0).

Lemma GetThreadIdForExpert_total a t :
  aff_total a -> exists tid a', GetThreadIdForExpert a t = Some (tid, a') /\ aff_total a'.
Proof.
  intros [[Hok Hitr]|[He Hn]].
  - destruct (pick_one a t (fun d => default O (core_pool_table_itr a !! d))) as (a' & E & Hok' & Ht & Hi); [done| |].
    { intros d l Hd. destruct (Hitr d l Hd) as (i & -> & Hlt). cbn. by rewrite Nat.mod_small. }
    eexists _, a'. split; [exact E|]. left. split; [done|]. intros d l Hd. eexists. split; [by apply Hi|].
    apply Nat.mod_upper_bound. rewrite Ht in Hd. destruct Hok as (_ & _ & _ & Hne & _).
    pose proof (Forall_lookup_1 _ _ _ _ Hne Hd). by destruct l.
  - unfold GetThreadIdForExpert. rewrite He, (proj2 (Z.eqb_neq _ 0)) by done. eexists _, _. split; [done|]. right. done.
Qed.

Lemma fill_messages_total mx t m fuel vec a :
  16 < mx < 2 ^ 64 -> Forall (pair_fits mx) vec -> (work vec < fuel)%nat -> aff_total a ->
  exists msgs a', fill_messages fuel mx t m vec a = Some (msgs, a') /\ aff_total a'.
Proof.
  intros Hmx. revert vec a. induction fuel as [|fuel IH]; intros vec a Hf Hw Ha; [lia|]. cbn [fill_messages].
  destruct (GetThreadIdForExpert_total a t Ha) as (tid & a1 & -> & Ha1). cbn [mbind option_bind].
  destruct (InsertData _ vec) as [msg rest] eqn:E. destruct rest as [|p rest]; [by eexists _, _|].
  pose proof (InsertData_progress _ _ _ _ _ Hmx E Hf ltac:(done)) as Hp. destruct (InsertData_rest mx _ _ _ _ E Hf) as [_ Hf'].
  destruct (IH (p :: rest) a1 Hf' ltac:(lia) Ha1) as (msgs & a2 & -> & Ha2). by eexists _, _.
Qed.

(** ** Where values go *)

(** The entries of a map of vectors. *)
Definition placed {T} (m : list (Z * list T)) : list (Z * T) := m ≫= fun kv => (fun x => (kv.1, x)) <$> kv.2.

Lemma map_push_placed {T} k (x : T) m : placed (map_push k x m) ≡ₚ (k, x) :: placed m.
Proof.
  induction m as [|[k' l] m IH]; [done|]. cbn [map_push]. destruct (k <? k'); [done|]. destruct (Z.eqb_spec k k') as [->|].
  - unfold placed. cbn. rewrite fmap_app, <- app_assoc. cbn. by rewrite Permutation_middle.
  - unfold placed in *. cbn. rewrite IH. by rewrite Permutation_middle.
Qed.

(** The workers that get a value: those of both ends of an edge that is added or
    dropped, else the one that stores it; a value that is no element goes
    nowhere. *)
Definition targets (size : Z) (both : bool) (v : value_t) : list Z :=
  match GetNodeId size v false with
  | Some n =>
      if both then match GetNodeId size v true with
                   | Some d => d :: (if n =? d then [] else [n])
                   | None => []
                   end
      else if n =? -1 then [] else [n]
  | None => []
  end.
Definition place (size : Z) (both : bool) (v : value_t) : list (Z * value_t) := (fun k => (k, v)) <$> targets size both v.

Lemma split_values_spec size both vs m r :
  split_values size both vs m = Some r -> placed r ≡ₚ (vs ≫= place size both) ++ placed m.
Proof.
  revert m. induction vs as [|v vs IH]; intros m H; cbn in H; [by injection H as ->|].
  unfold place at 1, targets. cbn [mbind list_bind]. destruct both.
  - destruct (GetNodeId size v true) as [d|]; [|done]. cbn in H. destruct (GetNodeId size v false) as [n|]; [|done]. cbn in H.
    rewrite (IH _ H). destruct (n =? d); cbn; rewrite ?map_push_placed; [by rewrite <- Permutation_middle|].
    rewrite <- !Permutation_middle. by rewrite Permutation_swap.
  - cbn in H. destruct (GetNodeId size v false) as [n|]; [|done]. cbn in H. rewrite (IH _ H). destruct (n =? -1); cbn; [done|].
    by rewrite map_push_placed, <- Permutation_middle.
Qed.

(** The entries of the data of all workers, value by value. *)
Definition placed_flat (m : list (Z * list pair_t)) : list (Z * (history_t * value_t)) :=
  m ≫= fun kv => (fun hv => (kv.1, hv)) <$> flat kv.2.

Lemma placed_flat_bind (m : list (Z * list pair_t)) :
  placed_flat m = placed m ≫= fun kp => (fun hv => (kp.1, hv)) <$> flat [kp.2].
Proof.
  unfold placed_flat, placed. induction m as [|[k l] m IH]; [done|]. cbn. rewrite bind_app, IH. f_equal. clear.
  induction l as [|p l IH]; [done|]. cbn. rewrite <- IH, app_nil_r. unfold flat. cbn. by rewrite fmap_app.
Qed.

Lemma push_all_placed h (m : list (Z * list value_t)) (acc : list (Z * list pair_t)) :
  placed_flat (foldl (fun acc kv => map_push kv.1 (h, kv.2) acc) acc m) ≡ₚ
  ((fun kv => (kv.1, (h, kv.2))) <$> placed m) ++ placed_flat acc.
Proof.
  revert acc. induction m as [|[k l] m IH]; intros acc; [done|]. cbn [foldl fst snd]. rewrite IH.
  rewrite !placed_flat_bind, map_push_placed. cbn [mbind list_bind fst snd]. rewrite flat_one, <- list_fmap_compose, app_assoc. f_equiv.
  change (placed ((k, l) :: m)) with (((fun x => (k, x)) <$> l) ++ placed m). rewrite fmap_app, <- list_fmap_compose. apply Permutation_app_comm.
Qed.

Lemma split_data_spec size both etb d acc eh r eh' :
  split_data size both etb d acc eh = Some (r, eh') -> flat eh = [] ->
  placed_flat r ≡ₚ (flat d ≫= fun hv => (fun k => (k, hv)) <$> targets size both hv.2) ++ placed_flat acc /\ flat eh' = [].
Proof.
  revert acc eh. induction d as [|[h [|v vs]] d IH]; intros acc eh H He; cbn [split_data] in H.
  { injection H as <- <-. done. }
  { destruct (IH _ _ H) as [Hr Hh]; [destruct etb; [rewrite flat_app, He; done|done]|]. done. }
  destruct (split_values size both (v :: vs) []) as [m|] eqn:Em; [|done]. cbn [mbind option_bind] in H.
  apply split_values_spec in Em. change (placed []) with ([] : list (Z * value_t)) in Em. rewrite app_nil_r in Em.
  destruct (IH _ _ H He) as [Hr Hh]. split; [|done]. rewrite Hr, push_all_placed, Em, flat_cons, bind_app. cbn [fst snd].
  rewrite app_assoc, (Permutation_app_comm (flat d ≫= _)). f_equiv. f_equiv. clear.
  generalize (v :: vs). intros l. induction l as [|w l IH]; [done|]. cbn. rewrite fmap_app, IH. f_equal. unfold place.
  by rewrite <- list_fmap_compose.
Qed.

(** The number of values of each history, for a count. *)
Definition counts (d : list pair_t) : option (list pair_t) :=
  mapM (fun p => v ← str2int (to_string_int (Z.of_nat (length (p.2)))) value_default; Some (p.1, [v])) (filter (fun p => p.2 <> []) d).

Lemma counts_cons h v vs d n r :
  str2int (to_string_int (Z.of_nat (length (v :: vs)))) value_default = Some n -> counts d = Some r ->
  counts ((h, v :: vs) :: d) = Some ((h, [n]) :: r).
Proof.
  unfold counts. intros En Er%mapM_Some. apply mapM_Some. rewrite filter_cons_True by done. constructor; [|done].
  cbn [fst snd]. by rewrite En.
Qed.

Lemma collect_data_spec nid is_count etb d acc eh r eh' :
  collect_data nid is_count etb d acc eh = Some (r, eh') -> flat eh = [] ->
  (exists d', (if is_count then counts d else Some d) = Some d' /\
   placed_flat r ≡ₚ ((fun hv => (nid, hv)) <$> flat d') ++ placed_flat acc) /\ flat eh' = [].
Proof.
  revert acc eh. induction d as [|[h [|v vs]] d IH]; intros acc eh H He; cbn [collect_data] in H.
  { injection H as <- <-. split; [|done]. exists []. by destruct is_count. }
  { destruct (IH _ _ H) as [(d' & Ed & Hr) Hh]; [destruct etb; [rewrite flat_app, He; done|done]|].
    split; [|done]. destruct is_count; [|injection Ed as <-; by exists ((h, []) :: d)].
    exists d'. split; [|done]. unfold counts in *. by rewrite filter_cons_False by (cbn; tauto). }
  destruct is_count.
  - destruct (str2int (to_string_int (Z.of_nat (length (v :: vs)))) value_default) as [n|] eqn:En; [|done]. cbn [mbind option_bind] in H.
    destruct (IH _ _ H He) as [(d' & Ed & Hr) Hh]. split; [|done]. exists ((h, [n]) :: d'). split.
    + by apply counts_cons.
    + rewrite Hr, placed_flat_bind, map_push_placed. cbn. rewrite <- placed_flat_bind. by rewrite <- Permutation_middle.
  - cbn [mbind option_bind] in H. destruct (IH _ _ H He) as [(d' & [= <-] & Hr) Hh]. split; [|done]. exists ((h, v :: vs) :: d). split; [done|].
    rewrite Hr, placed_flat_bind, map_push_placed. cbn [mbind list_bind fst snd]. rewrite <- placed_flat_bind, flat_one, flat_cons. cbn [fst snd].
    rewrite fmap_app, app_assoc. f_equiv. apply Permutation_app_comm.
Qed.

Lemma fill_nodes_spec mx t m id2data a msgs a' :
  fill_nodes mx t m id2data a = Some (msgs, a') ->
  delivered msgs = placed_flat id2data /\ Forall (fun msg => exists n, on_route (set_nid m n) msg) msgs /\
  (id2data <> [] -> msgs <> []).
Proof.
  revert a msgs. induction id2data as [|[n vec] rest IH]; intros a msgs H; cbn [fill_nodes] in H; [injection H as <- <-; done|].
  destruct (fill_messages _ mx t (set_nid m n) vec a) as [[ms a1]|] eqn:E; [|done]. cbn [mbind option_bind] in H.
  destruct (fill_nodes mx t m rest a1) as [[ms' a2]|] eqn:E2; [|done]. injection H as <- <-.
  destruct (fill_messages_spec _ _ _ _ _ _ _ _ E) as (Hne & Hr & Hd). destruct (IH _ _ E2) as (Id & Ir & _). split_and!.
  - rewrite delivered_app, Hd, Id. done.
  - apply Forall_app. split; [|done]. eapply Forall_impl; [exact Hr|]. intros msg Hm. by exists n.
  - intros _. by destruct ms.
Qed.

(** ** The next messages *)

(** What routing never changes. *)
Definition same_query (m m' : Meta) : Prop :=
  qid m' = qid m /\ msg_path m' = msg_path m /\ query_count_in_trx m' = query_count_in_trx m /\
  parent_nid m' = parent_nid m /\ parent_tid m' = parent_tid m.
#[global] Instance same_query_preorder : PreOrder same_query.
Proof. split; [by intros m|]. intros m1 m2 m3 (?&?&?&?&?) (?&?&?&?&?). split_and!; congruence. Qed.

Lemma UpdateRoute_same self experts m b m' : UpdateRoute self experts m = Some (b, m') -> same_query m m'.
Proof.
  unfold UpdateRoute. generalize (S (length (branch_infos m))). intros fuel. revert m.
  induction fuel as [|fuel IH]; intros m H; [done|]. cbn [UpdateRoute_loop] in H.
  destruct (expert_at experts (step m)) as [e|]; [|done]. cbn [mbind option_bind] in H.
  destruct (IsBarrier e); [injection H as <- <-; done|]. destruct (step m <=? self); [|injection H as <- <-; done].
  destruct (last (branch_infos m)) as [bi|]; [|done]. cbn [mbind option_bind] in H.
  destruct (is_union (expert_type e)); [|injection H as <- <-; done]. apply IH in H. by etransitivity; [|exact H].
Qed.

Lemma UpdateCollectionRoute_same self experts m b m' : UpdateCollectionRoute self experts m = Some (b, m') -> same_query m m'.
Proof.
  unfold UpdateCollectionRoute. generalize (S (length experts) * S (length (branch_infos m)))%nat. intros fuel H.
  destruct (collection_loop self experts fuel m) as [[b1 m1]|] eqn:E; [|done]. cbn [mbind option_bind] in H.
  destruct (UpdateRoute self experts m1) as [[b2 m2]|] eqn:E2; [|done]. injection H as <- <-. apply UpdateRoute_same in E2.
  etransitivity; [|exact E2]. clear E2. revert m E. induction fuel as [|fuel IH]; intros m E; [done|]. cbn [collection_loop] in E.
  destruct (expert_at experts (step m)) as [e|]; [|injection E as <- <-; done]. destruct (IsBarrier e); [injection E as <- <-; done|].
  destruct (is_union (expert_type e)).
  - destruct (step m <=? self); [|injection E as <- <-; done]. destruct (branch_infos m) as [|bi bs]; [done|].
    apply IH in E. by etransitivity; [|exact E].
  - destruct (step m <=? self); [injection E as <- <-; done|]. apply IH in E. by etransitivity; [|exact E].
Qed.

Lemma on_route_same m msg : on_route m msg -> same_query m (meta msg).
Proof. intros (tid & ->). done. Qed.

Definition counted (experts : list Expert_Object) (e : Expert_Object) (m : Meta) : Prop :=
  expert_type e = E_COUNT /\ type_at experts (step m - 1) <> Some E_INIT.
#[global] Instance counted_dec experts e m : Decision (counted experts e m).
Proof. unfold counted. apply _. Defined.

(** Where the values of the data have to go. *)
Definition destinations (size : Z) (experts : list Expert_Object) (mapped both : bool) (e : Expert_Object) (m : Meta) (d : list pair_t)
    (l : list (Z * (history_t * value_t))) : Prop :=
  if mapped then l ≡ₚ flat d ≫= fun hv => (fun k => (k, hv)) <$> targets size both hv.2
  else exists d', (if decide (counted experts e m) then counts d else Some d) = Some d' /\
    l ≡ₚ (fun hv => (recver_nid m, hv)) <$> flat d'.

Lemma DispatchData_spec size self m experts d a msgs a' :
  DispatchData size self m experts d a = Some (msgs, a') ->
  msgs <> [] /\ Forall (fun msg => same_query m (meta msg)) msgs /\
  exists here route m' e both d',
    expert_at experts (step (meta self)) = Some here /\ UpdateRoute (step (meta self)) experts m = Some (route, m') /\
    expert_at experts (step m') = Some e /\ both_ends e d = Some (both, d') /\
    destinations size experts ((negb route && send_remote here) || both) both e m' d' (delivered msgs).
Proof.
  unfold DispatchData. intros H.
  destruct (UpdateRoute (step (meta self)) experts m) as [[route m']|] eqn:Er; [|done]. cbn [mbind option_bind] in H.
  destruct (UpdateCollectionRoute (step (meta self)) experts m) as [[etb cm]|] eqn:Ec; [|done]. cbn [mbind option_bind] in H.
  destruct (expert_at experts (step m')) as [e|] eqn:Ee; [|done]. cbn [mbind option_bind] in H.
  destruct (expert_at experts (step cm)) as [ce|]; [|done]. cbn [mbind option_bind] in H.
  destruct (expert_at experts (step (meta self))) as [here|] eqn:Eh; [|done]. cbn [mbind option_bind] in H.
  destruct (if decide (expert_type e = E_COUNT) then _ else _) as [is_count|] eqn:Ei; [|done]. cbn [mbind option_bind] in H.
  assert (is_count = bool_decide (counted experts e m')) as ->.
  { symmetry. destruct (decide (expert_type e = E_COUNT)) as [Et|Et].
    - destruct (type_at experts (step m' - 1)) as [t|] eqn:Ety; [|done]. cbn in Ei. injection Ei as <-.
      destruct (decide (t = E_INIT)) as [->|Hn].
      + apply bool_decide_eq_false. intros [_ Hn]. by apply Hn.
      + rewrite (bool_decide_eq_false_2 (t = E_INIT)) by done. apply bool_decide_eq_true. split; congruence.
    - injection Ei as <-. apply bool_decide_eq_false. by intros [? _]. }
  destruct (both_ends e d) as [[both d']|] eqn:Eb; [|done]. cbn [mbind option_bind] in H.
  set (mapped := (negb route && send_remote here) || both) in *.
  destruct (if mapped then _ else _) as [[id2data eh]|] eqn:Es; [|done]. cbn [mbind option_bind] in H.
  destruct (fill_nodes (max_data_size self) (expert_type e) m' id2data a) as [[ms a1]|] eqn:Ef; [|done]. cbn [mbind option_bind] in H.
  destruct (match eh with [] => _ | _ => _ end) as [[ms' a2]|] eqn:Ef2; [|done]. cbn [mbind option_bind] in H. injection H as <- <-.
  destruct (fill_nodes_spec _ _ _ _ _ _ _ Ef) as (Hd & Hr & Hne).
  assert (destinations size experts mapped both e m' d' (placed_flat id2data) /\ flat eh = [] /\ (id2data = [] -> eh <> [])) as (Hdest & Heh & Hemp).
  { unfold destinations. destruct mapped.
    - destruct (split_data size both etb d' [] []) as [[id2 eh0]|] eqn:E2; [|done]. cbn [mbind option_bind] in Es. injection Es as <- <-.
      destruct (split_data_spec _ _ _ _ _ _ _ _ E2 eq_refl) as [Hp Hz]. cbn [placed_flat mbind list_bind] in Hp. rewrite app_nil_r in Hp.
      split_and!; [done|by destruct (_ && _)|]. intros ->. cbn. by destruct eh0.
    - destruct (collect_data (recver_nid m') _ etb d' [] []) as [[id2 eh0]|] eqn:E2; [|done]. cbn [mbind option_bind] in Es. injection Es as <- <-.
      destruct (collect_data_spec _ _ _ _ _ _ _ _ E2 eq_refl) as [(d2 & Hd2 & Hp) Hz]. cbn [placed_flat mbind list_bind] in Hp. rewrite app_nil_r in Hp.
      split_and!; [exists d2; split; [|done]; revert Hd2; unfold bool_decide, decide; by destruct (counted_dec experts e m')|by destruct (_ && _)|]. intros ->. cbn. by destruct eh0. }
  assert (delivered ms' = [] /\ Forall (on_route cm) ms' /\ (eh <> [] -> ms' <> [])) as (Hd2 & Hr2 & Hne2).
  { destruct eh as [|p eh]; [injection Ef2 as <- <-; done|]. destruct (fill_messages_spec _ _ _ _ _ _ _ _ Ef2) as (? & ? & E2).
    rewrite Heh in E2. done. }
  split_and!.
  - destruct id2data as [|x id2data]; [specialize (Hne2 (Hemp eq_refl)); by destruct ms, ms'|]. specialize (Hne ltac:(done)). by destruct ms.
  - apply Forall_app. split.
    + eapply Forall_impl; [exact Hr|]. intros msg (n & Hm). etransitivity; [by eapply UpdateRoute_same|]. by apply on_route_same in Hm.
    + eapply Forall_impl; [exact Hr2|]. intros msg Hm. etransitivity; [by eapply UpdateCollectionRoute_same|]. by apply on_route_same in Hm.
  - exists here, route, m', e, both, d'. split_and!; try done. by rewrite delivered_app, Hd2, app_nil_r, Hd.
Qed.

(** The path of the messages that one message with path [p] is split into. *)
Definition next_path (p : list Z) (n : nat) : list Z :=
  let num := to_string_int (Z.of_nat n) in if decide (p = []) then num else p ++ ch_tab :: num.

Lemma add_path_delivered suffix msgs : delivered (add_path suffix msgs) = delivered msgs.
Proof.
  induction msgs as [|msg msgs IH]; [done|]. change (add_path suffix (msg :: msgs)) with
    (set_meta msg (set_path (meta msg) (msg_path (meta msg) ++ suffix)) :: add_path suffix msgs).
  rewrite !delivered_cons. by rewrite IH.
Qed.

Lemma CreateNextMsg_spec size self experts d a msgs a' :
  CreateNextMsg size self experts d a = Some (msgs, a') ->
  msgs <> [] /\
  Forall (fun msg => msg_path (meta msg) = next_path (msg_path (meta self)) (length msgs) /\ qid (meta msg) = qid (meta self)) msgs /\
  exists here route m' e both d',
    expert_at experts (step (meta self)) = Some here /\
    UpdateRoute (step (meta self)) experts (set_step (meta self) (next_expert here)) = Some (route, m') /\
    expert_at experts (step m') = Some e /\ both_ends e d = Some (both, d') /\
    destinations size experts ((negb route && send_remote here) || both) both e m' d' (delivered msgs).
Proof.
  unfold CreateNextMsg. intros H. destruct (expert_at experts (step (meta self))) as [here|] eqn:Eh; [|done]. cbn [mbind option_bind] in H.
  destruct (DispatchData _ _ _ _ _ _) as [[ms a1]|] eqn:E; [|done]. cbn [mbind option_bind] in H. injection H as <- <-.
  destruct (DispatchData_spec _ _ _ _ _ _ _ _ E) as (Hne & Hs & h & route & m' & e & both & d' & Eh' & Hx).
  rewrite Eh in Eh'. injection Eh' as <-. split_and!.
  - by destruct ms.
  - apply Forall_fmap. eapply Forall_impl; [exact Hs|]. intros msg (Hq & Hp & _). cbn. split; [|done].
    rewrite Hp. unfold next_path, count_of, add_path. cbn [msg_path set_step]. rewrite length_fmap. by case_decide as En; [rewrite En|].
  - exists here, route, m', e, both, d'. split; [done|]. by rewrite add_path_delivered.
Qed.

(** C29: passing on the result of an expert loses nothing: there is at least one
    next message, every one of them carries the path of the processed message
    extended by their number, and together they carry exactly the values of the
    result with their histories (for an edge to add, the edges made from them):
    each value goes to the workers that store it, to both ends of an edge that is
    added or dropped, or all values go to the collecting worker, counted if a
    count follows. *)
Theorem next_messages_complete size self experts d a msgs a' :
  CreateNextMsg size self experts d a = Some (msgs, a') ->
  msgs <> [] /\
  Forall (fun msg => msg_path (meta msg) = next_path (msg_path (meta self)) (length msgs) /\ qid (meta msg) = qid (meta self)) msgs /\
  exists here route m' e both d',
    expert_at experts (step (meta self)) = Some here /\
    UpdateRoute (step (meta self)) experts (set_step (meta self) (next_expert here)) = Some (route, m') /\
    expert_at experts (step m') = Some e /\ both_ends e d = Some (both, d') /\
    destinations size experts ((negb route && send_remote here) || both) both e m' d' (delivered msgs).
Proof. apply CreateNextMsg_spec. Qed.

(** ** Dispatching ends *)

Definition id2data_fits (mx : Z) (m : list (Z * list pair_t)) : Prop := Forall (fun kv => Forall (pair_fits mx) kv.2) m.

Lemma map_push_fits mx k p m : pair_fits mx p -> id2data_fits mx m -> id2data_fits mx (map_push k p m).
Proof.
  intros Hp. induction m as [|[k' l] m IH]; intros Hm; cbn [map_push]; [by repeat constructor|].
  apply Forall_cons in Hm as [Hl Hm]. destruct (k <? k'); [repeat constructor; done|]. destruct (k =? k').
  - constructor; [|done]. apply Forall_app. split; [done|by repeat constructor].
  - constructor; [done|by apply IH].
Qed.

(** The worker of every value can be computed. *)
Definition nodes_known (size : Z) (d : list pair_t) : Prop :=
  Forall (fun p => Forall (fun v => is_Some (GetNodeId size v false) /\ is_Some (GetNodeId size v true)) p.2) d.

Lemma split_values_total size both vs m :
  Forall (fun v => is_Some (GetNodeId size v false) /\ is_Some (GetNodeId size v true)) vs ->
  exists r, split_values size both vs m = Some r.
Proof.
  intros H. revert m. induction H as [|v vs [[n Hn] [dn Hd]] _ IH]; intros m; cbn; [by eexists|].
  rewrite Hn. destruct both; [rewrite Hd|]; cbn; apply IH.
Qed.

Lemma split_data_total mx size both etb d acc eh :
  nodes_known size d -> Forall (pair_fits mx) d -> id2data_fits mx acc -> Forall (pair_fits mx) eh ->
  exists r eh', split_data size both etb d acc eh = Some (r, eh') /\ id2data_fits mx r /\ Forall (pair_fits mx) eh'.
Proof.
  intros Hn. revert acc eh. induction Hn as [|[h vs] d Hv Hn IH]; intros acc eh Hf Ha He; cbn [split_data]; [by eexists _, _|].
  apply Forall_cons in Hf as [Hp Hf]. destruct vs as [|v vs].
  { apply IH; [done|done|]. destruct etb; [|done]. apply Forall_app. split; [done|by repeat constructor]. }
  cbn [snd] in Hv. destruct (split_values_total size both (v :: vs) [] Hv) as [m Em]. rewrite Em. cbn [mbind option_bind].
  apply IH; [done| |done]. apply split_values_spec in Em. change (placed []) with ([] : list (Z * value_t)) in Em. rewrite app_nil_r in Em.
  assert (Forall (fun kv => Forall (fun v => MemSize_history h + 8 + MemSize_value v <= mx - 8) kv.2) m) as Hm.
  { apply Forall_forall. intros [k l] Hkl. apply Forall_forall. intros w Hw. unfold pair_fits in Hp. cbn [fst snd] in Hp.
    rewrite Forall_forall in Hp. apply Hp. assert ((k, w) ∈ placed m) as Hin.
    { unfold placed. apply list_elem_of_bind. exists (k, l). split; [|done]. apply list_elem_of_fmap. by exists w. }
    rewrite Em in Hin. apply list_elem_of_bind in Hin as (u & Hu & Huin). unfold place in Hu.
    apply list_elem_of_fmap in Hu as (k' & [= _ ->] & _). done. }
  clear Em. revert acc Ha. induction Hm as [|[k l] m Hl _ IHm]; intros acc Ha; [done|]. cbn [foldl]. apply IHm. by apply map_push_fits.
Qed.

Lemma to_string_count_value n v : str2int (to_string_int n) value_default = Some v -> length (v_content v) = 4%nat.
Proof. unfold str2int. destruct (atoi _) as [i|]; [|done]. intros [= <-]. done. Qed.

Lemma collect_data_total mx nid is_count etb d acc eh :
  Forall (pair_fits mx) d -> id2data_fits mx acc -> Forall (pair_fits mx) eh ->
  Forall (fun p => Z.of_nat (length (p.2)) < 2 ^ 31 /\ MemSize_history p.1 + 8 + 13 <= mx - 8) d ->
  exists r eh', collect_data nid is_count etb d acc eh = Some (r, eh') /\ id2data_fits mx r /\ Forall (pair_fits mx) eh'.
Proof.
  intros Hf. revert acc eh. induction Hf as [|[h vs] d Hp Hf IH]; intros acc eh Ha He Hc; cbn [collect_data]; [by eexists _, _|].
  apply Forall_cons in Hc as [[Hl Hh] Hc]. cbn [fst snd] in Hl, Hh. destruct vs as [|v vs].
  { apply IH; [done| |done]. destruct etb; [|done]. apply Forall_app. split; [done|by repeat constructor]. }
  destruct is_count; cbn [mbind option_bind].
  - assert (str2int (to_string_int (Z.of_nat (length (v :: vs)))) value_default = Some (int2value_t (Z.of_nat (length (v :: vs))) value_default)) as Es.
    { unfold str2int. rewrite atoi_to_string by lia. done. }
    rewrite Es. cbn [mbind option_bind]. apply IH; [|done|done]. apply map_push_fits; [|done]. constructor; [|constructor]. cbn [fst].
    unfold MemSize_value. rewrite (to_string_count_value _ _ Es). lia.
  - apply IH; [by apply map_push_fits|done|done].
Qed.

Lemma fill_nodes_total mx t m id2data a :
  16 < mx < 2 ^ 64 -> id2data_fits mx id2data -> aff_total a ->
  exists msgs a', fill_nodes mx t m id2data a = Some (msgs, a') /\ aff_total a'.
Proof.
  intros Hmx H. revert a. induction H as [|[n vec] rest Hv _ IH]; intros a Ha; cbn [fill_nodes]; [by eexists _, _|].
  destruct (fill_messages_total mx t (set_nid m n) (S (work vec)) vec a Hmx Hv ltac:(lia) Ha) as (ms & a1 & -> & Ha1). cbn [mbind option_bind].
  destruct (IH a1 Ha1) as (ms' & a2 & -> & Ha2). by eexists _, _.
Qed.

(** C31: dispatching the result of an expert ends: when the routes exist, the
    worker of every value can be computed and every value fits into a message
    together with its history, the next messages are produced. *)
Theorem dispatch_terminates size self experts here d a m route etb cm e ce both d' :
  expert_at experts (step (meta self)) = Some here ->
  UpdateRoute (step (meta self)) experts (set_step (meta self) (next_expert here)) = Some (route, m) ->
  UpdateCollectionRoute (step (meta self)) experts (set_step (meta self) (next_expert here)) = Some (etb, cm) ->
  expert_at experts (step m) = Some e -> expert_at experts (step cm) = Some ce ->
  (expert_type e = E_COUNT -> is_Some (type_at experts (step m - 1))) ->
  both_ends e d = Some (both, d') -> nodes_known size d' ->
  16 < max_data_size self < 2 ^ 64 -> Forall (pair_fits (max_data_size self)) d' ->
  Forall (fun p => Z.of_nat (length (p.2)) < 2 ^ 31 /\ MemSize_history p.1 + 8 + 13 <= max_data_size self - 8) d' ->
  aff_total a ->
  exists msgs a', CreateNextMsg size self experts d a = Some (msgs, a') /\ aff_total a'.
Proof.
  intros Eh Er Ec Ee Ece Hcnt Eb Hn Hmx Hf Hl Ha. unfold CreateNextMsg, DispatchData. rewrite Eh. cbn [mbind option_bind].
  rewrite Er. cbn [mbind option_bind]. rewrite Ec. cbn [mbind option_bind]. rewrite Ee, Ece. cbn [mbind option_bind].
  assert (exists ic, (if decide (expert_type e = E_COUNT) then t ← type_at experts (step m - 1); Some (negb (bool_decide (t = E_INIT))) else Some false) = Some ic) as [ic ->].
  { case_decide as Et; [|by eexists]. destruct (Hcnt Et) as [t ->]. by eexists. }
  cbn [mbind option_bind]. rewrite Eb. cbn [mbind option_bind].
  set (mx := max_data_size self) in *. set (mapped := (negb route && send_remote here) || both).
  assert (exists id2 eh, (if mapped then
       '(id2data, empty_his) ← split_data size both etb d' [] [];
       Some (id2data, if (length id2data =? 0)%nat && (length empty_his =? 0)%nat then [([], [])] else empty_his)
     else
       '(id2data, empty_his) ← collect_data (recver_nid m) ic etb d' [] [];
       Some (id2data, if (length id2data =? 0)%nat && (length empty_his =? 0)%nat then [([], [])] else empty_his)) = Some (id2, eh) /\
    id2data_fits mx id2 /\ Forall (pair_fits mx) eh) as (id2 & eh & -> & Hid & Heh).
  { destruct mapped.
    - destruct (split_data_total mx size both etb d' [] []) as (r & eh & -> & H1 & H2); [done|done|constructor|constructor|].
      cbn [mbind option_bind]. eexists _, _. split; [done|]. split; [done|]. destruct (_ && _); [|done]. by repeat constructor.
    - destruct (collect_data_total mx (recver_nid m) ic etb d' [] []) as (r & eh & -> & H1 & H2); [done|constructor|constructor|done|].
      cbn [mbind option_bind]. eexists _, _. split; [done|]. split; [done|]. destruct (_ && _); [|done]. by repeat constructor. }
  cbn [mbind option_bind]. destruct (fill_nodes_total mx (expert_type e) m id2 a Hmx Hid Ha) as (ms & a1 & -> & Ha1). cbn [mbind option_bind].
  destruct eh as [|p eh]; [by eexists _, _|].
  destruct (fill_messages_total mx (expert_type ce) cm (S (work (p :: eh))) (p :: eh) a1 Hmx Heh ltac:(lia) Ha1) as (ms' & a2 & -> & Ha2).
  by eexists _, _.
Qed.

(** A value that does not fit into a message is sent for ever. *)
Theorem oversized_value_loops fuel mx t m h v a :
  16 < mx < 2 ^ 64 -> mx - 8 < MemSize_history h + 8 + MemSize_value v ->
  fill_messages fuel mx t m [(h, [v])] a = None.
Proof.
  intros Hmx Hbig. revert a. induction fuel as [|fuel IH]; intros a; [done|]. cbn [fill_messages].
  destruct (GetThreadIdForExpert a t) as [[tid a1]|]; [|done]. cbn [mbind option_bind].
  assert (InsertData (with_max (msg_of (set_tid m tid)) mx) [(h, [v])] = (with_max (msg_of (set_tid m tid)) mx, [(h, [v])])) as ->.
  { cbn [InsertData]. unfold InsertData_pair. cbn [fst snd max_data_size data_size with_max msg_of]. rewrite wrap_small by (unfold fits; lia).
    destruct (Z.leb_spec (mx - 8) (MemSize_history h + 8)); [done|]. cbn [take_fitting].
    destruct (Z.leb_spec (MemSize_value v + (MemSize_history h + 8)) (mx - 8)); [lia|]. by rewrite Z.eqb_refl. }
  by rewrite IH.
Qed.

(** ** Example *)

(** A start on two workers whose vertices 7 and 8 go on to the workers that store
    them. *)
Definition rt_int (i : Z) : value_t := int2value_t i value_default.
Definition rt_experts : list Expert_Object :=
  [mk_expert E_INIT 0 1 true [rt_int 0; rt_int 0]; mk_expert E_VALUES 1 2 false [rt_int 0; rt_int 5]; mk_expert E_END 2 3 false []].
Definition rt_affinity : affinity := mk_aff false 4 0 [] [] ∅ ∅ ∅.
Definition rt_self : Message :=
  mk_msg (mk_meta 256 0 2 M_INIT 0 1 0 1 (to_string_int 2) [] plan_default) [] 1048576 8.
Definition rt_data : list pair_t := [([], [rt_int 7; rt_int 8])].

Lemma next_messages_complete_witness :
  exists msgs a', CreateNextMsg 2 rt_self rt_experts rt_data rt_affinity = Some (msgs, a') /\ msgs <> [] /\
    delivered msgs = [(0, ([], rt_int 8)); (1, ([], rt_int 7))].
Proof.
  destruct (CreateNextMsg 2 rt_self rt_experts rt_data rt_affinity) as [[msgs a']|] eqn:E; [|exfalso; revert E; by vm_compute].
  exists msgs, a'. split; [done|]. split.
  - by apply (next_messages_complete 2 rt_self rt_experts rt_data rt_affinity msgs a').
  - revert E. vm_compute. by intros [= <- <-].
Defined.

Lemma dispatch_terminates_witness :
  exists msgs a', CreateNextMsg 2 rt_self rt_experts rt_data rt_affinity = Some (msgs, a') /\ aff_total a'.
Proof.
  eapply (dispatch_terminates 2 rt_self rt_experts (mk_expert E_INIT 0 1 true [rt_int 0; rt_int 0]) rt_data rt_affinity
    _ false true _ (mk_expert E_VALUES 1 2 false [rt_int 0; rt_int 5]) (mk_expert E_END 2 3 false []) false rt_data).
  - by vm_compute.
  - vm_compute; reflexivity.
  - vm_compute; reflexivity.
  - by vm_compute.
  - by vm_compute.
  - done.
  - done.
  - repeat constructor; vm_compute; by eexists.
  - done.
  - repeat constructor; by vm_compute.
  - repeat constructor; by vm_compute.
  - by right.
Defined.

Lemma oversized_value_loops_witness :
  fill_messages 100 32 E_END (meta rt_self) [([], [rt_int 7])] rt_affinity = None.
Proof. apply oversized_value_loops; [lia|by vm_compute]. Defined.
