(* ===== verification/Barrier.v ===== *)
(** * expert/barrier_expert.tpp: collecting the messages of a query

    A barrier expert waits until all messages that a query was split into have
    arrived.  It does not know how many there are: each message carries in its
    path the numbers of messages that its ancestors were split into, and the
    barrier counts, per path, the messages that are complete.  The state of a
    barrier is generic in the data that it collects. *)
From S2P Require Import Prelude MyMath Types Serialization Wire ToolValue TrxStatus RunningTrx Coordinator Rct InputSet Affinity Routing.
Local Open Scope Z_scope.

(** ** Counting paths *)

(** A path without its last number, and that number: the part from the last tab
    on, or the whole path. *)
Fixpoint pop_path (p : list Z) : list Z * list Z :=
  match p with
  | [] => ([], [])
  | c :: p' =>
      if mem ch_tab p' then let '(q, s) := pop_path p' in (c :: q, s)
      else if c =? ch_tab then ([], p') else ([], p)
  end.

Abbreviation path_counter_t := (gmap (list Z) Z).
(** The loop of [IsReady]: whether all messages have arrived, and the counters. *)
Fixpoint IsReady_loop (fuel : nat) (counter : path_counter_t) (path end_path : list Z) : option (bool * path_counter_t) :=
  match fuel with
  | O => None
  | S fuel' =>
      if decide (path = end_path) then Some (true, counter)
      else
        let '(parent, last_number) := pop_path path in
        if decide (last_number = []) then None
        else
          num ← atoi last_number;
          let c := default 0 (counter !! path) + 1 in
          if c =? num then IsReady_loop fuel' (<[path := 0]> counter) parent end_path
          else Some (false, <[path := c]> counter)
  end.
(** [BarrierExpertBase::IsReady] (expert/barrier_expert.tpp:115-144); a round
    shortens the path. *)
Definition IsReady (counter : path_counter_t) (path end_path : list Z) : option (bool * path_counter_t) :=
  IsReady_loop (S (length path)) counter path end_path.

(** ** The state of a barrier *)

#[global] Instance mkey_t_countable : Countable mkey_t.
Proof. by apply (inj_countable' (fun k => (mk_q k, mk_mid k, mk_index k)) (fun x => mk_mkey x.1.1 x.1.2 x.2)); intros []. Defined.

(** [BarrierExpertBase::GetMsgInfo] (expert/barrier_expert.tpp:146-160). *)
Definition GetMsgInfo (m : Meta) : mkey_t * list Z :=
  match last (branch_infos m) with
  | Some b => (mk_mkey (qid m) (bi_msg_id b) (bi_index b), bi_msg_path b)
  | None => (mk_mkey (qid m) 0 0, [])
  end.
(** [BarrierExpertBase::get_branch_key] (expert/barrier_expert.tpp:76-86). *)
Definition get_branch_key (m : Meta) : Z := match last (branch_infos m) with Some b => bi_key b | None => -1 end.

(** The entries of a history up to the one with a key. *)
Fixpoint his_upto (his : history_t) (key : Z) : option (value_t * history_t) :=
  match his with
  | [] => None
  | (k, v) :: his' => if k =? key then Some (v, [(k, v)]) else '(r, h) ← his_upto his' key; Some (r, (k, v) :: h)
  end.
(** [BarrierExpertBase::get_history_value] (expert/barrier_expert.tpp:88-106):
    the value, and the history. *)
Definition get_history_value (his : history_t) (key : Z) (erase_his : bool) : option value_t * history_t :=
  if key <? 0 then (None, his)
  else match his_upto his key with
       | Some (v, h) => (Some v, if erase_his then h else his)
       | None => (None, his)
       end.
(** [BarrierExpertBase::get_branch_value] (expert/barrier_expert.tpp:107-114). *)
Definition get_branch_value (his : history_t) (branch_key : Z) (erase_his : bool) : option (Z * history_t) :=
  match get_history_value his branch_key erase_his with
  | (Some v, h) => i ← value_t2int v; Some (i, h)
  | (None, h) => Some (-1, h)
  end.
(** [BarrierExpertBase::is_next_barrier] (expert/barrier_expert.hpp:71-74). *)
Definition is_next_barrier (experts : list Expert_Object) (step : Z) : option bool :=
  e ← expert_at experts step;
  Some (match expert_at experts (next_expert e) with Some n => IsBarrier n | None => false end).

(** [barrier_data_base] with the data of the expert
    (expert/barrier_expert.hpp:34-38). *)
Record barrier_data (T : Type) := mk_bd { path_counter : path_counter_t; payload : T }.
Arguments mk_bd {_}. Arguments path_counter {_}. Arguments payload {_}.
(** [BarrierExpertBase] (expert/barrier_expert.hpp:41-94). *)
Record barrier_state (T : Type) := mk_bs { data_table : gmap mkey_t (barrier_data T); trx_table : gmap Z (gset mkey_t) }.
Arguments mk_bs {_}. Arguments data_table {_}. Arguments trx_table {_}.

Section Process.
(** The data of an expert, what else its work changes, and its work. *)
Context {T W : Type} (payload0 : T).
Context (do_work : QueryPlan -> Message -> bool -> T -> W -> option (T * Message * W)).

(** The data of a next count: the number of values of each history. *)
Definition count_data (d : list pair_t) : option (list pair_t) :=
  mapM (fun p => v ← str2int (to_string_int (Z.of_nat (length (p.2)))) value_default; Some (p.1, [v])) d.

(** The end of [process]: a message whose next expert is a barrier is moved on
    without being sent. *)
Definition to_next_barrier (qplan : QueryPlan) (msg : Message) : option Message :=
  nb ← is_next_barrier (experts qplan) (step (meta msg));
  if nb : bool then
    e ← expert_at (experts qplan) (step (meta msg));
    let msg := set_meta msg (set_step (meta msg) (next_expert e)) in
    n ← expert_at (experts qplan) (next_expert e);
    if decide (expert_type n = E_COUNT) then
      d ← count_data (data msg); Some (mk_msg (meta msg) d (max_data_size msg) (data_size msg))
    else Some msg
  else Some msg.

(** [BarrierExpertBase::process] (expert/barrier_expert.tpp:15-60); the accessor
    of the entry makes it atomic for one key. *)
Definition barrier_process (qplan : QueryPlan) (msg : Message) (s : barrier_state T) (w : W)
  : option (barrier_state T * Message * W) :=
  let '(key, end_path) := GetMsgInfo (meta msg) in
  let '(entry, trxs) :=
    match data_table s !! key with
    | Some d => (d, trx_table s)
    | None => (mk_bd ∅ payload0, <[trxid qplan := {[key]} ∪ default ∅ (trx_table s !! trxid qplan)]> (trx_table s))
    end in
  '(ready, counter) ← IsReady (path_counter entry) (msg_path (meta msg)) end_path;
  '(p, msg, w) ← do_work qplan (if ready : bool then set_meta msg (set_path (meta msg) end_path) else msg) ready (payload entry) w;
  if ready : bool then
    let trxs := match trxs !! trxid qplan with Some keys => <[trxid qplan := keys ∖ {[key]}]> trxs | None => trxs end in
    msg ← to_next_barrier qplan msg;
    Some (mk_bs (delete key (data_table s)) trxs, msg, w)
  else Some (mk_bs (<[key := mk_bd counter p]> (data_table s)) trxs, msg, w).

(** [BarrierExpertBase::clean_trx_data] (expert/barrier_expert.tpp:62-74). *)
Definition barrier_clean (s : barrier_state T) (trx : Z) : barrier_state T :=
  match trx_table s !! trx with
  | Some keys => mk_bs (foldr delete (data_table s) (elements keys)) (delete trx (trx_table s))
  | None => s
  end.
End Process.

(** ** Paths as lists of numbers *)

(** A path below [end_path], its last number first. *)
Definition path_of (end_path : list Z) (ρ : list nat) : list Z := foldr (fun k p => next_path p k) end_path ρ.
(** The number of messages that the last split made. *)
Definition num_of (ρ : list nat) : nat := match ρ with [] => 1 | k :: _ => k end.
Definition path_ok (ρ : list nat) : Prop := Forall (fun k => (1 <= k)%nat /\ Z.of_nat k < 2 ^ 31) ρ.

Lemma to_string_nat n : to_string_int (Z.of_nat n) <> [] /\ mem ch_tab (to_string_int (Z.of_nat n)) = false.
Proof.
  unfold to_string_int. destruct (Z.ltb_spec (Z.of_nat n) 0); [lia|]. destruct (digits_spec (Z.of_nat n)) as (Hne & Hd & _); [lia|].
  split; [done|]. by apply digits_mem.
Qed.
Lemma pop_path_end s : s <> [] -> mem ch_tab s = false -> pop_path s = ([], s).
Proof.
  destruct s as [|c s]; [done|]. intros _ H. apply mem_false in H. cbn.
  rewrite (proj2 (mem_false _ _)) by set_solver. destruct (Z.eqb_spec c ch_tab); [set_solver|done].
Qed.
Lemma pop_path_tab p s : mem ch_tab s = false -> pop_path (p ++ ch_tab :: s) = (p, s).
Proof.
  intros H. induction p as [|c p IH]; cbn.
  { by rewrite H. }
  rewrite (proj2 (mem_spec _ _)) by set_solver. by rewrite IH.
Qed.
Lemma pop_next_path p n : pop_path (next_path p n) = (p, to_string_int (Z.of_nat n)).
Proof.
  destruct (to_string_nat n) as [Hne Ht]. unfold next_path. case_decide as E.
  - rewrite pop_path_end by done. by rewrite E.
  - by rewrite pop_path_tab.
Qed.
Lemma next_path_longer p n : (length p < length (next_path p n))%nat.
Proof.
  destruct (to_string_nat n) as [Hne _]. unfold next_path. case_decide as E.
  - rewrite E. destruct (to_string_int _); [done|cbn; lia].
  - rewrite length_app. cbn. lia.
Qed.
Lemma path_of_longer e ρ : (length e + length ρ <= length (path_of e ρ))%nat.
Proof. induction ρ as [|k ρ IH]; cbn; [lia|]. pose proof (next_path_longer (path_of e ρ) k). unfold path_of in *. lia. Qed.

Lemma to_string_nat_inj m n : Z.of_nat m < 2 ^ 31 -> Z.of_nat n < 2 ^ 31 -> to_string_int (Z.of_nat m) = to_string_int (Z.of_nat n) -> m = n.
Proof. intros Hm Hn E. apply (f_equal atoi) in E. rewrite !atoi_to_string in E by lia. injection E. lia. Qed.
Lemma path_of_inj e ρ σ : path_ok ρ -> path_ok σ -> path_of e ρ = path_of e σ -> ρ = σ.
Proof.
  revert σ. induction ρ as [|k ρ IH]; intros [|j σ] Hr Hs E.
  - done.
  - pose proof (path_of_longer e (j :: σ)) as Hl. rewrite <- E in Hl. cbn in Hl. lia.
  - pose proof (path_of_longer e (k :: ρ)) as Hl. rewrite E in Hl. cbn in Hl. lia.
  - apply (f_equal pop_path) in E. cbn [path_of foldr] in E. rewrite !pop_next_path in E. injection E as E1 E2.
    apply Forall_cons in Hr as [[_ Hk] Hr]. apply Forall_cons in Hs as [[_ Hj] Hs].
    f_equal; [by apply to_string_nat_inj|by apply IH].
Qed.

(** ** The balance of a barrier *)

(** Sums below a bound. *)
Fixpoint total (f : nat -> nat) (n : nat) : nat := match n with O => 0 | S n' => f n' + total f n' end.
Lemma total_ext f g n : (forall k, (k < n)%nat -> f k = g k) -> total f n = total g n.
Proof. induction n as [|n IH]; intros H; [done|]. cbn. rewrite H, IH by auto with lia. done. Qed.
Lemma total_step f g n k :
  (k < n)%nat -> g k = S (f k) -> (forall j, j <> k -> g j = f j) -> total g n = S (total f n).
Proof.
  intros Hk Hg Ho. induction n as [|n IH]; [lia|]. cbn. destruct (decide (k = n)) as [->|].
  - rewrite Hg. rewrite (total_ext g f n); [lia|]. intros j Hj. apply Ho. lia.
  - rewrite (Ho n), IH by lia. lia.
Qed.
Lemma total_more f n m : (n <= m)%nat -> (forall k, (n <= k)%nat -> f k = 0%nat) -> total f m = total f n.
Proof. intros Hm Hf. induction Hm as [|m Hm IH]; [done|]. cbn. rewrite Hf, IH by lia. done. Qed.
Lemma total_0 f n : total f n = 0%nat -> forall k, (k < n)%nat -> f k = 0%nat.
Proof. induction n as [|n IH]; cbn; intros H k Hk; [lia|]. destruct (decide (k = n)) as [->|]; [lia|]. apply IH; lia. Qed.
Lemma total_all_0 f n : (forall k, f k = 0%nat) -> total f n = 0%nat.
Proof. intros Hf. rewrite (total_more f 0 n); auto with lia. Qed.

Definition upd (f : list nat -> nat) (ρ : list nat) (n : nat) : list nat -> nat := fun σ => if decide (σ = ρ) then n else f σ.
Lemma upd_eq f ρ n : upd f ρ n ρ = n.
Proof. unfold upd. by rewrite decide_True. Qed.
Lemma upd_ne f ρ n σ : σ <> ρ -> upd f ρ n σ = f σ.
Proof. intros. unfold upd. by rewrite decide_False. Qed.

Section Balance.
Context (e : list Z).

Definition counted (c : path_counter_t) (ρ : list nat) : nat := Z.to_nat (default 0 (c !! path_of e ρ)).

(** For messages in flight [F] and counters: [splits (k :: ρ)] is the number of
    splits of a message at [ρ] into [k] that are not complete.  The messages of
    these splits are in flight, counted or themselves split. *)
Record balance (F : list nat -> nat) (c : path_counter_t) (splits : list nat -> nat) (breadth depth : nat) : Prop := {
  bal_root : splits [] = 1%nat;
  bal_eq ρ : path_ok ρ -> (num_of ρ * splits ρ = F ρ + counted c ρ + total (fun k => splits (k :: ρ)) breadth)%nat;
  bal_bound k ρ : splits (k :: ρ) <> 0%nat -> (k < breadth)%nat /\ (length ρ < depth)%nat /\ path_ok (k :: ρ);
  bal_count k ρ : path_ok (k :: ρ) -> 0 <= default 0 (c !! path_of e (k :: ρ)) < Z.of_nat k;
  bal_end : c !! e = None;
}.

Lemma balance_ext F G c s b d : (forall ρ, path_ok ρ -> F ρ = G ρ) -> balance F c s b d -> balance G c s b d.
Proof. intros HFG [B1 B2 B3 B4 B5]. split; try done. intros ρ Hr. rewrite <- HFG by done. by apply B2. Qed.

(** Nothing is pending below a path without splits. *)
Lemma balance_below F c s b d ρ :
  balance F c s b d -> path_ok ρ -> s ρ = 0%nat -> F ρ = 0%nat /\ (forall k, s (k :: ρ) = 0%nat).
Proof.
  intros B Hr Hs. pose proof (bal_eq _ _ _ _ _ B _ Hr) as E. rewrite Hs in E. split; [lia|]. intros k.
  destruct (decide (s (k :: ρ) = 0%nat)); [done|]. destruct (bal_bound _ _ _ _ _ B k ρ) as (Hk & _); [done|].
  apply (total_0 (fun k => s (k :: ρ)) b); [lia|done].
Qed.
(** All is done when only a message at the end is in flight. *)
Lemma balance_done F c s b d σ :
  balance F c s b d -> F [] = 1%nat -> path_ok σ -> σ <> [] -> F σ = 0%nat /\ s σ = 0%nat.
Proof.
  intros B H1 Hs Hne. enough (s σ = 0%nat) as E by (split; [by eapply balance_below|done]).
  induction σ as [|k σ IH]; [done|]. apply Forall_cons in Hs as [Hk Hs].
  destruct (decide (σ = [])) as [->|Hn].
  - pose proof (bal_eq _ _ _ _ _ B [] (Forall_nil_2 _)) as E. rewrite (bal_root _ _ _ _ _ B), H1 in E. cbn in E.
    destruct (decide (s [k] = 0%nat)); [done|]. destruct (bal_bound _ _ _ _ _ B k []) as (Hb & _); [done|].
    apply (total_0 (fun k => s [k]) b); [lia|done].
  - specialize (IH Hs Hn). by eapply balance_below.
Qed.
(** Something is in flight. *)
Lemma balance_pending F c s b d : balance F c s b d -> ~ (forall ρ, path_ok ρ -> F ρ = 0%nat).
Proof.
  intros B HF. assert (forall n k ρ, (d <= length ρ + n)%nat -> s (k :: ρ) = 0%nat) as Hall.
  { induction n as [|n IH]; intros k ρ Hd.
    - destruct (decide (s (k :: ρ) = 0%nat)); [done|]. destruct (bal_bound _ _ _ _ _ B k ρ) as (_ & Hl & _); [done|lia].
    - destruct (decide (s (k :: ρ) = 0%nat)); [done|]. destruct (bal_bound _ _ _ _ _ B k ρ) as (_ & _ & Hok); [done|].
      pose proof (bal_eq _ _ _ _ _ B _ Hok) as E. rewrite HF in E by done.
      rewrite total_all_0 in E by (intros j; apply IH; cbn; lia). cbn [num_of] in E.
      pose proof (bal_count _ _ _ _ _ B _ _ Hok). unfold counted in E. apply Forall_cons in Hok as [Hk _].
      assert (k * 1 <= k * s (k :: ρ))%nat by (apply Nat.mul_le_mono_l; lia). lia. }
  pose proof (bal_eq _ _ _ _ _ B [] (Forall_nil_2 _)) as E.
  rewrite (bal_root _ _ _ _ _ B), HF, total_all_0 in E by (apply Forall_nil_2 || (intros; eapply (Hall d); cbn; lia)).
  unfold counted in E. cbn in E. rewrite (bal_end _ _ _ _ _ B) in E. cbn in E. lia.
Qed.

(** A message at [ρ] is split into [k]. *)
Lemma balance_split F c s b d ρ k :
  balance F c s b d -> path_ok (k :: ρ) -> F ρ <> 0%nat ->
  exists s' b' d', balance (upd (upd F ρ (F ρ - 1)) (k :: ρ) (F (k :: ρ) + k)) c s' b' d'.
Proof.
  intros B Hok HF. exists (upd s (k :: ρ) (S (s (k :: ρ)))), (Nat.max b (S k)), (Nat.max d (S (length ρ))).
  assert (forall σ, total (fun j => s (j :: σ)) (Nat.max b (S k)) = total (fun j => s (j :: σ)) b) as Hmore.
  { intros σ. apply total_more; [lia|]. intros j Hj. destruct (decide (s (j :: σ) = 0%nat)); [done|].
    destruct (bal_bound _ _ _ _ _ B j σ); [done|lia]. }
  assert (k :: ρ <> ρ) as Hne by (intros E%(f_equal length); cbn in E; lia).
  split.
  - rewrite upd_ne by done. by apply (bal_root _ _ _ _ _ B).
  - intros σ Hs. pose proof (bal_eq _ _ _ _ _ B σ Hs) as E. rewrite <- Hmore in E.
    destruct (decide (σ = ρ)) as [->|Hsr].
    + rewrite (upd_ne s), (upd_ne _ (k :: ρ)), upd_eq by done.
      rewrite (total_step (fun j => s (j :: ρ)) _ (Nat.max b (S k)) k);
        [lia|lia|apply upd_eq|intros j Hj; apply upd_ne; congruence].
    + rewrite (total_ext _ (fun j => s (j :: σ))) by (intros j _; apply upd_ne; congruence).
      destruct (decide (σ = k :: ρ)) as [->|]; [rewrite !upd_eq; cbn [num_of] in *; lia|by rewrite !upd_ne].
  - intros j σ. destruct (decide (j :: σ = k :: ρ)) as [[= -> ->]|]; [intros _; split_and!; [lia|lia|done]|].
    rewrite upd_ne by done. intros H. destruct (bal_bound _ _ _ _ _ B j σ H) as (? & ? & ?). split_and!; [lia|lia|done].
  - apply (bal_count _ _ _ _ _ B).
  - apply (bal_end _ _ _ _ _ B).
Qed.

Lemma counter_insert (c : path_counter_t) ρ σ v :
  path_ok ρ -> path_ok σ ->
  default 0 (<[path_of e ρ := v]> c !! path_of e σ) = if decide (σ = ρ) then v else default 0 (c !! path_of e σ).
Proof.
  intros Hr Hs. case_decide as E; [subst; by rewrite lookup_insert_eq|]. rewrite lookup_insert_ne; [done|].
  intros E'. apply E. symmetry. by eapply path_of_inj.
Qed.
Lemma path_of_end k ρ : path_of e (k :: ρ) <> e.
Proof. intros E%(f_equal length). pose proof (path_of_longer e (k :: ρ)). cbn [length] in *. lia. Qed.

(** A message is counted, but does not complete its split. *)
Lemma balance_arrive F c s b d k ρ :
  balance F c s b d -> path_ok (k :: ρ) -> F (k :: ρ) <> 0%nat ->
  default 0 (c !! path_of e (k :: ρ)) + 1 <> Z.of_nat k ->
  balance (upd F (k :: ρ) (F (k :: ρ) - 1)) (<[path_of e (k :: ρ) := default 0 (c !! path_of e (k :: ρ)) + 1]> c) s b d.
Proof.
  intros B Hok HF Hn. pose proof (bal_count _ _ _ _ _ B _ _ Hok) as Hc. split.
  - apply (bal_root _ _ _ _ _ B).
  - intros σ Hs. rewrite (bal_eq _ _ _ _ _ B σ Hs). unfold counted. rewrite counter_insert by done. unfold upd.
    case_decide as E; [subst; lia|done].
  - apply (bal_bound _ _ _ _ _ B).
  - intros j σ Hj. rewrite counter_insert by done. case_decide as E; [injection E as -> ->; lia|by apply (bal_count _ _ _ _ _ B)].
  - rewrite lookup_insert_ne by apply path_of_end. apply (bal_end _ _ _ _ _ B).
Qed.
(** A message completes a split: the split message takes its place. *)
Lemma balance_complete F c s b d k ρ :
  balance F c s b d -> path_ok (k :: ρ) -> F (k :: ρ) <> 0%nat ->
  default 0 (c !! path_of e (k :: ρ)) + 1 = Z.of_nat k ->
  exists s', balance (upd (upd F (k :: ρ) (F (k :: ρ) - 1)) ρ (S (F ρ))) (<[path_of e (k :: ρ) := 0]> c) s' b d.
Proof.
  intros B Hok HF Hk. pose proof (bal_eq _ _ _ _ _ B _ Hok) as E. cbn [num_of] in E. unfold counted in E.
  assert (exists n, s (k :: ρ) = S n) as [n Hn].
  { destruct (s (k :: ρ)) as [|n]; [|by exists n]. lia. }
  destruct (bal_bound _ _ _ _ _ B k ρ) as (Hkb & _); [lia|].
  assert (k :: ρ <> ρ) as Hne by (intros E'%(f_equal length); cbn in E'; lia).
  exists (upd s (k :: ρ) n). split.
  - rewrite upd_ne by done. apply (bal_root _ _ _ _ _ B).
  - intros σ Hs. pose proof (bal_eq _ _ _ _ _ B σ Hs) as Es. unfold counted in *. rewrite counter_insert by done.
    destruct (decide (σ = ρ)) as [->|Hsr].
    + rewrite (upd_ne s), upd_eq, decide_False by done.
      rewrite (total_step (fun j => upd s (k :: ρ) n (j :: ρ)) _ b k) in Es;
        [lia|done|rewrite upd_eq; done|intros j Hj; rewrite upd_ne; congruence].
    + rewrite (upd_ne _ ρ) by done. rewrite (total_ext _ (fun j => s (j :: σ))) by (intros j _; apply upd_ne; congruence).
      case_decide as Eq; [subst σ; rewrite !upd_eq; cbn [num_of] in *; rewrite Hn, Nat.mul_succ_r in Es; apply Forall_cons in Hs as [? _]; lia|by rewrite !upd_ne].
  - intros j σ. destruct (decide (j :: σ = k :: ρ)) as [[= -> ->]|].
    + intros _. apply (bal_bound _ _ _ _ _ B). lia.
    + rewrite upd_ne by done. apply (bal_bound _ _ _ _ _ B).
  - intros j σ Hj. rewrite counter_insert by done. case_decide as Eq.
    + injection Eq as -> ->. apply Forall_cons in Hj as [? _]. lia.
    + by apply (bal_count _ _ _ _ _ B).
  - rewrite lookup_insert_ne by apply path_of_end. apply (bal_end _ _ _ _ _ B).
Qed.

(** The barrier is ready when the message is the only one in flight. *)
Lemma IsReady_loop_spec fuel F c s b d ρ :
  balance F c s b d -> path_ok ρ -> F ρ <> 0%nat -> (length (path_of e ρ) < fuel)%nat ->
  exists ready c', IsReady_loop fuel c (path_of e ρ) e = Some (ready, c') /\
    (if ready : bool then forall σ, path_ok σ -> F σ = if decide (σ = ρ) then 1%nat else 0%nat
     else exists s', balance (upd F ρ (F ρ - 1)) c' s' b d).
Proof.
  revert fuel F c s. induction ρ as [|k ρ IH]; intros fuel F c s B Hok HF Hl; (destruct fuel as [|fuel]; [lia|]).
  { exists true, c. cbn [IsReady_loop path_of foldr]. rewrite decide_True by done. split; [done|]. intros σ Hs.
    assert (F [] = 1%nat) as H1.
    { pose proof (bal_eq _ _ _ _ _ B [] Hok) as E. rewrite (bal_root _ _ _ _ _ B) in E. cbn in E. lia. }
    case_decide as E; [by subst|]. by destruct (balance_done _ _ _ _ _ σ B H1 Hs E). }
  cbn [IsReady_loop]. rewrite decide_False by apply path_of_end.
  change (path_of e (k :: ρ)) with (next_path (path_of e ρ) k) at 1. rewrite pop_next_path.
  destruct (to_string_nat k) as [Hne _]. rewrite decide_False by done.
  pose proof Hok as [[Hk1 Hk2] Hr]%Forall_cons. rewrite atoi_to_string by lia. cbn [mbind option_bind].
  destruct (Z.eqb_spec (default 0 (c !! path_of e (k :: ρ)) + 1) (Z.of_nat k)) as [Ek|Ek].
  2: { eexists _, _. split; [done|]. exists s. by apply balance_arrive. }
  destruct (balance_complete _ _ _ _ _ _ _ B Hok HF Ek) as [s' B'].
  pose proof (next_path_longer (path_of e ρ) k) as Hl'. change (next_path (path_of e ρ) k) with (path_of e (k :: ρ)) in Hl'.
  destruct (IH fuel _ _ _ B' Hr) as (ready & c' & Hr' & Hc); [rewrite upd_eq; lia|lia|].
  exists ready, c'. split; [done|]. assert (k :: ρ <> ρ) as Hkr by (intros E%(f_equal length); cbn in E; lia).
  destruct ready.
  - intros σ Hs. specialize (Hc σ Hs). unfold upd in Hc. repeat case_decide; subst; try done; lia.
  - destruct Hc as [s2 Hc]. exists s2. eapply balance_ext; [|exact Hc]. intros σ Hs. unfold upd.
    repeat case_decide; subst; try done; lia.
Qed.
End Balance.

(** ** A query collected by a barrier *)

Section Collect.
Context {T W : Type} (payload0 : T).
Context (do_work : QueryPlan -> Message -> bool -> T -> W -> option (T * Message * W)).
Context (size : Z) (qplan : QueryPlan) (key : mkey_t) (e : list Z).

(** The data after the work on messages that arrived. *)
Inductive gathered : list Message -> T -> Prop :=
| ga_start : gathered [] payload0
| ga_arrive arr p m w p' m' w' :
    gathered arr p -> do_work qplan m false p w = Some (p', m', w') -> gathered (arr ++ [m]) p'.

Definition in_query (m : Message) : Prop := GetMsgInfo (meta m) = (key, e).

(** The messages in flight, the state of the barrier and the messages that have
    arrived: a query starts with messages made by one split, a message is
    replaced by the next messages of an expert, or arrives; messages of other
    queries and branches arrive at any time. *)
Inductive collecting : list Message -> barrier_state T -> list Message -> Prop :=
| co_start msgs s :
    msgs <> [] -> Z.of_nat (length msgs) < 2 ^ 31 -> Forall in_query msgs ->
    Forall (fun m => msg_path (meta m) = next_path e (length msgs)) msgs ->
    data_table s !! key = None -> collecting msgs s []
| co_next l1 m l2 s arr experts d a new a' :
    collecting (l1 ++ m :: l2) s arr ->
    CreateNextMsg size m experts d a = Some (new, a') -> Z.of_nat (length new) < 2 ^ 31 -> Forall in_query new ->
    collecting (l1 ++ new ++ l2) s arr
| co_arrive l1 m l2 s arr w s' m' w' :
    collecting (l1 ++ m :: l2) s arr -> barrier_process payload0 do_work qplan m s w = Some (s', m', w') ->
    is_Some (data_table s' !! key) -> collecting (l1 ++ l2) s' (arr ++ [m])
| co_other msgs s arr qplan' m w s' m' w' :
    collecting msgs s arr -> barrier_process payload0 do_work qplan' m s w = Some (s', m', w') ->
    (GetMsgInfo (meta m)).1 <> key -> collecting msgs s' arr.

Definition at_path (msgs : list Message) (ρ : list nat) : nat :=
  length (filter (fun m => msg_path (meta m) = path_of e ρ) msgs).
Definition path_below (m : Message) : Prop := exists ρ, path_ok ρ /\ msg_path (meta m) = path_of e ρ.

Lemma at_path_app l1 l2 ρ : at_path (l1 ++ l2) ρ = (at_path l1 ρ + at_path l2 ρ)%nat.
Proof. unfold at_path. by rewrite filter_app, length_app. Qed.
Lemma at_path_cons m l ρ σ :
  msg_path (meta m) = path_of e ρ -> path_ok ρ -> path_ok σ -> at_path (m :: l) σ = ((if decide (σ = ρ) then 1 else 0) + at_path l σ)%nat.
Proof.
  intros Hm Hr Hs. unfold at_path. rewrite filter_cons, Hm. case_decide as E1; case_decide as E2; try done.
  - exfalso. apply E2. symmetry. by eapply path_of_inj.
  - by subst.
Qed.
Lemma at_path_all l ρ σ :
  Forall (fun m => msg_path (meta m) = path_of e ρ) l -> path_ok ρ -> path_ok σ ->
  at_path l σ = if decide (σ = ρ) then length l else 0%nat.
Proof.
  intros Hl Hr Hs. induction Hl as [|m l Hm Hl IH]; [by case_decide|].
  rewrite (at_path_cons m l ρ) by done. rewrite IH. case_decide; cbn; lia.
Qed.

Definition collect_inv (msgs : list Message) (s : barrier_state T) (arr : list Message) : Prop :=
  exists sp b d c p, balance e (at_path msgs) c sp b d /\ Forall path_below msgs /\ Forall in_query msgs /\ gathered arr p /\
    match data_table s !! key with Some bd => bd = mk_bd c p | None => c = ∅ /\ arr = [] /\ p = payload0 end.

Lemma collect_start msgs s :
  msgs <> [] -> Z.of_nat (length msgs) < 2 ^ 31 -> Forall in_query msgs ->
  Forall (fun m => msg_path (meta m) = next_path e (length msgs)) msgs ->
  data_table s !! key = None -> collect_inv msgs s [].
Proof.
  intros Hne Hl Hq Hp Hs. assert (path_ok [length msgs]) as Hok.
  { repeat constructor; [destruct msgs; [done|cbn; lia]|done]. }
  assert (balance e (fun ρ => if decide (ρ = []) then 1%nat else 0%nat) ∅ (fun ρ => if decide (ρ = []) then 1%nat else 0%nat) 0 0) as B.
  { split; try done.
    - intros ρ Hr. unfold counted. rewrite lookup_empty. cbn. case_decide; subst; cbn; lia.
    - intros k ρ [Hk _]%Forall_cons. rewrite lookup_empty. cbn. lia. }
  destruct (balance_split _ _ _ _ _ _ [] (length msgs) B Hok) as (sp & b & d & B'); [done|].
  exists sp, b, d, ∅, payload0. rewrite Hs. split_and!; try done.
  - eapply balance_ext; [|exact B']. intros ρ Hr. rewrite (at_path_all _ [length msgs]) by done. unfold upd.
    repeat case_decide; subst; cbn; try done; lia.
  - eapply Forall_impl; [exact Hp|]. intros m Hm. by exists [length msgs].
  - constructor.
Qed.

Lemma collect_next l1 m l2 s arr experts d a new a' :
  collect_inv (l1 ++ m :: l2) s arr ->
  CreateNextMsg size m experts d a = Some (new, a') -> Z.of_nat (length new) < 2 ^ 31 -> Forall in_query new ->
  collect_inv (l1 ++ new ++ l2) s arr.
Proof.
  intros (sp & b & dp & c & p & B & Hb & Hq & Hg & Hs) Hn Hl Hqn.
  destruct (CreateNextMsg_spec _ _ _ _ _ _ _ Hn) as (Hne & Hp & _).
  apply Forall_app in Hb as [Hb1 [(ρ & Hr & Hm) Hb2]%Forall_cons]. apply Forall_app in Hq as [Hq1 [_ Hq2]%Forall_cons].
  assert (path_ok (length new :: ρ)) as Hok.
  { constructor; [|done]. split; [destruct new; [done|cbn; lia]|done]. }
  assert (Forall (fun m => msg_path (meta m) = path_of e (length new :: ρ)) new) as Hp'.
  { eapply Forall_impl; [exact Hp|]. intros x [-> _]. by rewrite Hm. }
  destruct (balance_split _ _ _ _ _ _ ρ (length new) B Hok) as (sp' & b' & d' & B').
  { rewrite at_path_app, (at_path_cons m l2 ρ), decide_True by done. lia. }
  exists sp', b', d', c, p. split_and!; try done.
  - eapply balance_ext; [|exact B']. intros σ Hσ. unfold upd.
    rewrite !at_path_app, !(at_path_cons m l2 ρ), (at_path_all new (length new :: ρ)) by done.
    assert (length new :: ρ <> ρ) by (intros E%(f_equal length); cbn in E; lia).
    repeat case_decide; subst; try done; lia.
  - apply Forall_app; split; [done|]. apply Forall_app; split; [|done]. eapply Forall_impl; [exact Hp'|].
    intros x Hx. by exists (length new :: ρ).
  - apply Forall_app; split; [done|]. by apply Forall_app.
Qed.

(** What the barrier does with a message in flight. *)
Lemma collect_process l1 m l2 s arr w :
  collect_inv (l1 ++ m :: l2) s arr ->
  exists p sp b d c', gathered arr p /\
    barrier_process payload0 do_work qplan m s w =
      (let ready := bool_decide (l1 ++ l2 = []) in
       '(p', m', w') ← do_work qplan (if ready then set_meta m (set_path (meta m) e) else m) ready p w;
       let trxs := match data_table s !! key with
                   | Some _ => trx_table s
                   | None => <[trxid qplan := {[key]} ∪ default ∅ (trx_table s !! trxid qplan)]> (trx_table s)
                   end in
       if ready then
         let trxs := match trxs !! trxid qplan with Some keys => <[trxid qplan := keys ∖ {[key]}]> trxs | None => trxs end in
         m' ← to_next_barrier qplan m'; Some (mk_bs (delete key (data_table s)) trxs, m', w')
       else Some (mk_bs (<[key := mk_bd c' p']> (data_table s)) trxs, m', w')) /\
    (l1 ++ l2 <> [] -> balance e (at_path (l1 ++ l2)) c' sp b d /\ Forall path_below (l1 ++ l2) /\ Forall in_query (l1 ++ l2)).
Proof.
  intros (sp & b & d & c & p & B & Hb & Hq & Hg & Hs).
  apply Forall_app in Hb as [Hb1 [(ρ & Hr & Hm) Hb2]%Forall_cons]. apply Forall_app in Hq as [Hq1 [Hqm Hq2]%Forall_cons].
  destruct (IsReady_loop_spec e (S (length (msg_path (meta m)))) _ _ _ _ _ ρ B Hr) as (ready & c' & Hready & Hc).
  { rewrite at_path_app, (at_path_cons m l2 ρ), decide_True by done. lia. }
  { rewrite Hm. lia. }
  rewrite <- Hm in Hready. fold (IsReady c (msg_path (meta m)) e) in Hready.
  assert (forall σ, path_ok σ -> at_path (l1 ++ l2) σ = upd (at_path (l1 ++ m :: l2)) ρ (at_path (l1 ++ m :: l2) ρ - 1) σ) as Hat.
  { intros σ Hσ. unfold upd. rewrite !at_path_app, !(at_path_cons m l2 ρ) by done. repeat case_decide; subst; try done; lia. }
  assert (Forall path_below (l1 ++ l2)) as Hb by by apply Forall_app.
  assert (ready = bool_decide (l1 ++ l2 = [])) as Er.
  { destruct ready; symmetry; [apply bool_decide_eq_true|apply bool_decide_eq_false]; [|intros E].
    - destruct (l1 ++ l2) as [|x l] eqn:El; [done|]. apply Forall_cons in Hb as [(σ & Hσ & Hx) _].
      specialize (Hat σ Hσ). rewrite (at_path_cons x l σ), decide_True in Hat by done. unfold upd in Hat.
      rewrite !Hc in Hat by done. repeat case_decide; try done; lia.
    - destruct Hc as [s' B']. eapply balance_pending; [exact B'|]. intros σ Hσ. by rewrite <- Hat, E. }
  assert (exists sp', l1 ++ l2 <> [] -> balance e (at_path (l1 ++ l2)) c' sp' b d) as [sp' B'].
  { rewrite Er in Hc. case_bool_decide as E; [by exists (fun _ => 0%nat)|]. destruct Hc as [s' Hc]. exists s'. intros _.
    eapply balance_ext; [|exact Hc]. intros σ Hσ. by rewrite Hat. }
  exists p, sp', b, d, c'. split_and!; [done| |intros E; split_and!; [by apply B'|done|by apply Forall_app]].
  unfold barrier_process. rewrite Hqm.
  assert (forall X (f : barrier_data T -> gmap Z (gset mkey_t) -> X),
    (let '(entry, trxs) := match data_table s !! key with
       | Some d0 => (d0, trx_table s)
       | None => (mk_bd ∅ payload0, <[trxid qplan := {[key]} ∪ default ∅ (trx_table s !! trxid qplan)]> (trx_table s)) end in f entry trxs)
    = f (mk_bd c p) (match data_table s !! key with Some _ => trx_table s
       | None => <[trxid qplan := {[key]} ∪ default ∅ (trx_table s !! trxid qplan)]> (trx_table s) end)) as ->.
  { intros X f. destruct (data_table s !! key); [by subst|]. destruct Hs as (-> & _ & ->). done. }
  cbn [path_counter payload]. rewrite Hready. cbn [mbind option_bind]. rewrite Er. done.
Qed.

Lemma barrier_process_frame qplan' m s w s' m' w' :
  barrier_process payload0 do_work qplan' m s w = Some (s', m', w') -> (GetMsgInfo (meta m)).1 <> key ->
  data_table s' !! key = data_table s !! key.
Proof.
  unfold barrier_process. destruct (GetMsgInfo (meta m)) as [k ep]. cbn [fst]. intros H Hk.
  destruct (match data_table s !! k with Some _ => _ | None => _ end) as [entry trxs].
  destruct (IsReady _ _ _) as [[ready c]|]; [|done]. cbn [mbind option_bind] in H.
  destruct (do_work _ _ _ _ _) as [[[p m1] w1]|]; [|done]. cbn [mbind option_bind] in H. destruct ready.
  - destruct (to_next_barrier _ _) as [m2|]; [|done]. cbn [mbind option_bind] in H. injection H as <- <- <-. cbn [data_table].
    by rewrite lookup_delete_ne.
  - injection H as <- <- <-. cbn [data_table]. by rewrite lookup_insert_ne.
Qed.

Lemma collecting_inv msgs s arr : collecting msgs s arr -> collect_inv msgs s arr.
Proof.
  induction 1 as [msgs s Hne Hl Hq Hp Hs|l1 m l2 s arr experts d a new a' H IH Hn Hl Hq
    |l1 m l2 s arr w s' m' w' H IH Hp Hk|msgs s arr qplan' m w s' m' w' H IH Hp Hk].
  - by apply collect_start.
  - by eapply collect_next.
  - destruct (collect_process _ _ _ _ _ w IH) as (p & sp & b & d & c' & Hg & E & Hrest). rewrite Hp in E. cbv zeta in E.
    case_bool_decide as Er.
    + destruct (do_work _ _ _ _ _) as [[[p' m1] w1]|]; [|done]. cbn [mbind option_bind] in E.
      destruct (to_next_barrier _ _); [|done]. injection E as -> -> ->. cbn [data_table] in Hk. rewrite lookup_delete_eq in Hk. by destruct Hk.
    + destruct (do_work _ _ _ _ _) as [[[p' m1] w1]|] eqn:Ew; [|done]. cbn [mbind option_bind] in E.
      injection E as -> -> ->. destruct (Hrest Er) as (B & Hb & Hq). exists sp, b, d, c', p'. split_and!; try done.
      * by econstructor.
      * cbn [data_table]. by rewrite lookup_insert_eq.
  - destruct IH as (sp & b & d & c & p & ?). exists sp, b, d, c, p.
    by rewrite (barrier_process_frame _ _ _ _ _ _ _ Hp Hk).
Qed.

(** Messages that arrive in turn while others are in flight. *)
Fixpoint arrive_all (ms : list Message) (s : barrier_state T) (w : W) : option (barrier_state T * W) :=
  match ms with
  | [] => Some (s, w)
  | m :: ms' =>
      '(s', _, w') ← barrier_process payload0 do_work qplan m s w;
      match data_table s' !! key with Some _ => arrive_all ms' s' w' | None => None end
  end.
Lemma collecting_arrivals ms l s w s' w' arr :
  collecting (ms ++ l) s arr -> arrive_all ms s w = Some (s', w') -> collecting l s' (arr ++ ms).
Proof.
  revert s w arr. induction ms as [|m ms IH]; intros s w arr H E; cbn in E.
  { injection E as <- <-. by rewrite app_nil_r. }
  destruct (barrier_process _ _ _ _ _ _) as [[[s1 m1] w1]|] eqn:Ep; [|done]. cbn [mbind option_bind] in E.
  destruct (data_table s1 !! key) eqn:Ek; [|done]. rewrite cons_middle, app_assoc. eapply IH; [|exact E].
  by apply (co_arrive [] m (ms ++ l) s arr w s1 m1 w1).
Qed.
End Collect.

(** C8: a barrier waits for exactly the messages of its query.  Whatever way the
    messages were split while other queries and branches were collected at the
    same time, an arriving message completes the query if and only if no other
    message is in flight: if one is, the expert works on data that was gathered
    from the messages that arrived, and keeps the result; if none is, the expert
    finishes the data gathered from all the others, and the entry is removed. *)
Theorem barrier_collects {T W : Type} (payload0 : T) (do_work : QueryPlan -> Message -> bool -> T -> W -> option (T * Message * W))
    size qplan key e l1 m l2 s arr w :
  collecting payload0 do_work size qplan key e (l1 ++ m :: l2) s arr ->
  exists p counter trxs, gathered payload0 do_work qplan arr p /\
    barrier_process payload0 do_work qplan m s w =
      match l1 ++ l2 with
      | [] => '(_, m', w') ← do_work qplan (set_meta m (set_path (meta m) e)) true p w;
              m' ← to_next_barrier qplan m';
              Some (mk_bs (delete key (data_table s)) trxs, m', w')
      | _ => '(p', m', w') ← do_work qplan m false p w;
             Some (mk_bs (<[key := mk_bd counter p']> (data_table s)) trxs, m', w')
      end.
Proof.
  intros H. apply collecting_inv in H. destruct (collect_process _ _ _ _ _ _ _ _ _ _ w H) as (p & sp & b & d & c & Hg & E & _).
  destruct (l1 ++ l2); cbv zeta in E; rewrite E; eexists p, c, _; by split.
Qed.

(** ** Example *)

(** Two messages start, the first goes on as two, which arrive before the
    second. *)
Definition ex_plan : QueryPlan := mk_plan 0 rt_experts true 0 7 0.
Definition ex_work (_ : QueryPlan) (m : Message) (_ : bool) (p : list pair_t) (_ : unit) : option (list pair_t * Message * unit) :=
  Some (p ++ data m, m, tt).
Definition ex_sent : list Message := match CreateNextMsg 2 rt_self rt_experts rt_data rt_affinity with Some (l, _) => l | None => [] end.

Definition ex_state : barrier_state (list pair_t) :=
  match arrive_all [] ex_work ex_plan (mk_mkey 256 0 0) ex_sent (mk_bs ∅ ∅) tt with Some (s, _) => s | None => mk_bs ∅ ∅ end.

Lemma ex_collecting : collecting [] ex_work 2 ex_plan (mk_mkey 256 0 0) [] [rt_self] ex_state ex_sent.
Proof.
  assert (exists a', CreateNextMsg 2 rt_self rt_experts rt_data rt_affinity = Some (ex_sent, a')) as [a' E] by (vm_compute; by eexists).
  assert (Forall (in_query (mk_mkey 256 0 0) []) ex_sent /\ Z.of_nat (length ex_sent) < 2 ^ 31) as [Hq Hl] by (vm_compute; by repeat constructor).
  destruct (arrive_all [] ex_work ex_plan (mk_mkey 256 0 0) ex_sent (mk_bs ∅ ∅) tt) as [[s []]|] eqn:Ea; [|exfalso; revert Ea; by vm_compute].
  unfold ex_state. rewrite Ea. eapply (collecting_arrivals _ _ _ _ _ _ ex_sent [rt_self] _ _ _ _ []); [|exact Ea].
  eapply (co_next _ _ _ _ _ _ [] rt_self [rt_self]); [|exact E|done|done].
  apply co_start; [done|done|by repeat constructor|by repeat constructor|done].
Qed.

Lemma barrier_collects_witness :
  exists p trxs, gathered [] ex_work ex_plan ex_sent p /\
    barrier_process [] ex_work ex_plan rt_self ex_state tt =
      ('(_, m', w') ← ex_work ex_plan (set_meta rt_self (set_path (meta rt_self) [])) true p tt;
       m' ← to_next_barrier ex_plan m';
       Some (mk_bs (delete (mk_mkey 256 0 0) (data_table ex_state)) trxs, m', w')).
Proof.
  destruct (barrier_collects [] ex_work 2 ex_plan (mk_mkey 256 0 0) [] [] rt_self [] ex_state ex_sent tt ex_collecting) as (p & c & trxs & Hg & Hp).
  exists p, trxs. exact (conj Hg Hp).
Defined.
