(* ===== verification/Validation.v ===== *)
(** * expert/validation_expert: validation of a transaction

    Before a transaction commits, the actions of the transactions that have
    taken a commit time since its begin time are compared with what its steps
    have read.  Each kind of action ([Primitive_T]) concerns some kinds of steps
    ([vstep_t]); a step whose input is touched by an action of a transaction
    that is not aborted aborts the validating transaction, or defers the
    decision while the other one is still validating.

    The states of other transactions change while validation runs: [stat n t] is
    the state of [t] at the [n]-th reading of a state.  The order of an
    [unordered_map] is that of [map_to_list]. *)
From S2P Require Import Prelude MyMath Types Serialization Wire ToolValue Predicate.
From S2P Require Import TrxStatus Rct ExecPlan InputSet.
Local Open Scope Z_scope.
Local Open Scope word_scope.

(** [Step_T] (base/type.hpp:538-542). *)
Inductive Step_T := S_IN | S_OUT | S_BOTH | S_INE | S_OUTE | S_BOTHE | S_INV | S_OUTV | S_BOTHV | S_ADDE
  | S_ADDV | S_AND | S_AGGREGATE | S_AS | S_CAP | S_COUNT | S_DEDUP | S_DROP | S_FROM | S_GROUP
  | S_GROUPCOUNT | S_HAS | S_HASLABEL | S_HASKEY | S_HASVALUE | S_HASNOT | S_IS | S_KEY | S_LABEL | S_LIMIT
  | S_MAX | S_MEAN | S_MIN | S_NOT | S_OR | S_ORDER | S_PROPERTIES | S_PROPERTY | S_RANGE | S_SELECT
  | S_SKIP | S_SUM | S_TO | S_UNION | S_VALUES | S_WHERE | S_COIN | S_REPEAT | S_STATUS.
#[global] Instance Step_T_eq_dec : EqDecision Step_T.
Proof. solve_decision. Defined.
Definition Steps : list Step_T := [S_IN; S_OUT; S_BOTH; S_INE; S_OUTE; S_BOTHE; S_INV; S_OUTV; S_BOTHV; S_ADDE;
  S_ADDV; S_AND; S_AGGREGATE; S_AS; S_CAP; S_COUNT; S_DEDUP; S_DROP; S_FROM; S_GROUP;
  S_GROUPCOUNT; S_HAS; S_HASLABEL; S_HASKEY; S_HASVALUE; S_HASNOT; S_IS; S_KEY; S_LABEL; S_LIMIT;
  S_MAX; S_MEAN; S_MIN; S_NOT; S_OR; S_ORDER; S_PROPERTIES; S_PROPERTY; S_RANGE; S_SELECT;
  S_SKIP; S_SUM; S_TO; S_UNION; S_VALUES; S_WHERE; S_COIN; S_REPEAT; S_STATUS].

(** ** Steps of validation *)

(** [ValidationExpert::vstep_t] (expert/validation_expert.hpp:98-125): the
    expert in 15 bits, the step in 16 bits and whether it is the first one. *)
Definition vstep_t : Type := Z * Z * Z.
Definition vs_expert (v : vstep_t) : Z := v.1.1.
Definition vs_step (v : vstep_t) : Z := v.1.2.
Definition vs_first (v : vstep_t) : Z := v.2.
Definition vstep_new (e : EXPERT_T) (s : Z) (only_first : Z) : vstep_t :=
  (wrap 15 (index_of EXPERT_Ts e), wrap 16 s, wrap 1 only_first).
Definition step_int (s : Step_T) : Z := index_of Steps s.

(** [vstep_t::operator<] (expert/validation_expert.hpp:127-145). *)
Definition vstep_lt (l r : vstep_t) : bool :=
  if vs_expert l <? vs_expert r then true
  else if vs_expert r <? vs_expert l then false
  else if vs_step l <? vs_step r then true
  else if vs_step r <? vs_step l then false
  else vs_first l <? vs_first r.

(** [KeyHasher] (expert/validation_expert.hpp:152-163). *)
Definition vstep_hash (v : vstep_t) : Z :=
  hash_combine_int (hash_combine_int (hash_combine_int 0 (vs_expert v)) (vs_step v)) (vs_first v).

(** [ValidationExpert::needValidateExpertSet_] as filled by
    [prepare_primitive_list] (expert/validation_expert.cpp:175-183). *)
Definition needValidateExpertSet : list EXPERT_T :=
  [E_TRAVERSAL; E_VALUES; E_PROPERTIES; E_KEY; E_HASLABEL; E_HAS; E_PROJECT; E_INIT].
Definition topology_steps : list vstep_t :=
  [vstep_new E_HASLABEL (step_int S_HASLABEL) 1; vstep_new E_HAS (step_int S_HASNOT) 1;
   vstep_new E_PROJECT 0 1; vstep_new E_INIT 0 0].
Definition modify_steps : list vstep_t :=
  [vstep_new E_VALUES 0 0; vstep_new E_PROPERTIES 0 0; vstep_new E_HAS (step_int S_HASVALUE) 0;
   vstep_new E_HAS (step_int S_HAS) 0; vstep_new E_PROJECT 0 0].
Definition key_steps : list vstep_t :=
  modify_steps ++ [vstep_new E_KEY 0 0; vstep_new E_HAS (step_int S_HASNOT) 0; vstep_new E_HAS (step_int S_HASKEY) 0].
(** [ValidationExpert::primitiveStepMap_] as filled by [prepare_primitive_list]
    (expert/validation_expert.cpp:185-214). *)
Definition primitiveStepMap (p : Primitive_T) : gset vstep_t :=
  list_to_set
    match p with
    | IV | DV | IE | DE => topology_steps
    | MVP | MEP => modify_steps
    | IVP | DVP => key_steps
    | IEP | DEP => key_steps ++ [vstep_new E_TRAVERSAL 0 0]
    end.

(** ** The steps of a transaction *)

Abbreviation step_aobj_map := (gmap vstep_t (list Expert_Object)).

(** [ValidationExpert::insert_step_aobj_map] (expert/validation_expert.cpp:449-457). *)
Definition insert_step_aobj_map (m : step_aobj_map) (v : vstep_t) (e : Expert_Object) : step_aobj_map :=
  <[v := default [] (m !! v) ++ [e]]> m.

Definition first_flag (step_num : Z) : Z := if step_num =? 1 then 1 else 0.
(** The step that [ValidationExpert::get_vstep] finds
    (expert/validation_expert.cpp:292-307). *)
Definition get_vstep (e : Expert_Object) (step_num : Z) : vstep_t :=
  match expert_type e with
  | E_HASLABEL => vstep_new E_HASLABEL (step_int S_HASLABEL) (first_flag step_num)
  | E_PROJECT => vstep_new E_PROJECT 0 (first_flag step_num)
  | t => vstep_new t 0 0
  end.

Definition pred_int (p : Predicate_T) : Z := index_of Predicates p.
(** The kind of one condition of a has step. *)
Definition has_step_type (pid pred : Z) : Step_T :=
  if pred =? pred_int P_ANY then S_HASKEY
  else if pred =? pred_int P_NONE then S_HASNOT
  else if pid =? -1 then S_HASVALUE else S_HAS.
(** The steps that [ValidationExpert::get_vstep_for_has] finds, one per
    condition (expert/validation_expert.cpp:309-341). *)
Definition get_vstep_for_has (e : Expert_Object) (step_num : Z) : option (list vstep_t) :=
  if (0 <? length (params e))%nat && ((length (params e) - 1) mod 3 =? 0)%nat then
    _ ← int_param e 0;
    mapM (fun i =>
      pid ← int_param e (i * 3 + 1)%nat;
      pred ← int_param e (i * 3 + 2)%nat;
      v ← params e !! (i * 3 + 3)%nat; _ ← value_t2vec v;
      Some (vstep_new E_HAS (step_int (has_step_type pid pred)) (first_flag step_num)))
      (seq 0 ((length (params e) - 1) / 3))
  else None.

(** The validated steps of the expert at a position of its query. *)
Definition vsteps_of (e : Expert_Object) (step_num : Z) : option (list vstep_t) :=
  if decide (expert_type e ∈ needValidateExpertSet) then
    if decide (expert_type e = E_HAS) then get_vstep_for_has e step_num else Some [get_vstep e step_num]
  else Some [].

Definition add_vsteps (e : Expert_Object) (vs : list vstep_t) (acc : gset vstep_t * step_aobj_map)
  : gset vstep_t * step_aobj_map :=
  foldl (fun acc v => ({[v]} ∪ acc.1, insert_step_aobj_map acc.2 v e)) acc vs.
(** The loop over the experts of one query. *)
Fixpoint process_query (step_counter : Z) (es : list Expert_Object) (acc : gset vstep_t * step_aobj_map)
  : option (gset vstep_t * step_aobj_map) :=
  match es with
  | [] => Some acc
  | e :: es' =>
      vs ← vsteps_of e (step_counter + 1);
      process_query (step_counter + 1) es' (add_vsteps e vs acc)
  end.
(** The identifier of a query of the transaction. *)
Definition query_qid (cur_qid : Z) (i : nat) : Z :=
  Z.lor ((cur_qid >> 8) <<64 8) (Z.of_nat i).
Fixpoint process_queries (logic : gmap Z QueryPlan) (cur_qid : Z) (is_ : list nat) (acc : gset vstep_t * step_aobj_map)
  : option (gset vstep_t * step_aobj_map) :=
  match is_ with
  | [] => Some acc
  | i :: rest =>
      acc ← match logic !! query_qid cur_qid i with
            | Some plan => process_query 0 (experts plan) acc
            | None => Some acc
            end;
      process_queries logic cur_qid rest acc
  end.
(** [ValidationExpert::process_trx] (expert/validation_expert.cpp:251-275); a
    query without a plan is skipped. *)
Definition process_trx (logic : gmap Z QueryPlan) (num_queries : Z) (cur_qid : Z)
  : option (gset vstep_t * step_aobj_map) :=
  process_queries logic cur_qid (seq 0 (Z.to_nat num_queries)) (∅, ∅).

(** ** Recent actions *)

Abbreviation trx_actions := (gmap Z (list rct_extract_data_t)).

(** [ValidationExpert::get_recent_action_set]
    (expert/validation_expert.cpp:278-290), per primitive in order; [None] in the
    result where there is none. *)
Definition get_recent_action_set (pmt : pmt_table) (trxIDList : list Z) : option (list (Primitive_T * trx_actions)) :=
  all ← mapM (fun p => m ← GetRecentActionSet pmt p trxIDList ∅; Some (p, m)) Primitives;
  Some (filter (fun pm => pm.2 <> ∅) all).

(** Adding the actions of a primitive to those that a step is checked with. *)
Definition add_actions (check : gmap vstep_t trx_actions) (m : trx_actions) (v : vstep_t) : gmap vstep_t trx_actions :=
  <[v := match check !! v with
         | None => m
         | Some m' => union_with (fun a b => Some (a ++ b)) m' m
         end]> check.
(** Steps 1.3 and 1.4 of [ValidationExpert::validate]
    (expert/validation_expert.cpp:127-159): each action goes to the steps of the
    transaction that its primitive concerns. *)
Definition check_step_map (steps : gset vstep_t) (content : list (Primitive_T * trx_actions)) : gmap vstep_t trx_actions :=
  foldl (fun check '(p, m) => foldl (fun check v => add_actions check m v) check
           (elements (steps ∩ primitiveStepMap p))) ∅ content.

(** ** Validation *)

(** The number of readings of states so far, and the transactions whose abort
    was written. *)
Record vstate := mk_vs { now : nat; aborted : list Z }.
Definition VM (A : Type) : Type := vstate -> option (A * vstate).
#[global] Instance VM_ret : MRet VM := fun A a s => Some (a, s).
#[global] Instance VM_bind : MBind VM := fun A B f m s =>
  match m s with Some (a, s') => f a s' | None => None end.
Definition lift {A} (o : option A) : VM A := fun s => match o with Some a => Some (a, s) | None => None end.

Section Validation.
Context (stat : nat -> Z -> TRX_STAT).
(** [global_enable_opt_validation], and the input sets of each expert. *)
Context (opt_validation : bool) (v_obj : EXPERT_T -> input_sets).

(** [TrxTableStub::read_status] *)
Definition read_status (t : Z) : VM TRX_STAT := fun s => Some (stat (now s) t, mk_vs (S (now s)) (aborted s)).
(** [TrxTableStub::update_status(t, ABORT)] *)
Definition update_abort (t : Z) : VM () := fun s => Some (tt, mk_vs (now s) (aborted s ++ [t])).

(** The loop over the transactions whose actions a step is checked with: true
    is an abort; otherwise the transactions to wait for. *)
Fixpoint check_trxs (cur : Z) (t : EXPERT_T) (objs : list Expert_Object) (l : list (Z * list rct_extract_data_t))
    (opt : list Z) : VM (bool * list Z) :=
  match l with
  | [] => mret (false, opt)
  | (trx, check) :: l' =>
      ok ← lift (expert_valid t (v_obj t) cur objs check);
      if ok : bool then check_trxs cur t objs l' opt
      else if negb opt_validation then _ ← update_abort cur; mret (true, opt)
      else
        st ← read_status trx;
        match st with
        | VALIDATING => check_trxs cur t objs l' (opt ++ [trx])
        | ABORT => check_trxs cur t objs l' opt
        | _ => _ ← update_abort cur; mret (true, opt)
        end
  end.
(** [ValidationExpert::do_step_validation] (expert/validation_expert.cpp:343-381). *)
Fixpoint do_step_validation (cur : Z) (aobj : step_aobj_map) (steps : list (vstep_t * trx_actions)) (opt : list Z)
  : VM (bool * list Z) :=
  match steps with
  | [] => mret (false, opt)
  | (v, m) :: steps' =>
      st ← read_status cur;
      if decide (st = ABORT) then mret (true, opt)
      else
        t ← lift (enum_of_int EXPERT_Ts (vs_expert v));
        objs ← lift (aobj !! v);
        '(ab, opt) ← check_trxs cur t objs (map_to_list m) opt;
        if ab : bool then mret (true, opt) else do_step_validation cur aobj steps' opt
  end.

(** One pass over the transactions that are waited for; [None] is an abort.
    [done_] is the state that lets a transaction go on. *)
Fixpoint wait_pass (done_ : TRX_STAT) (l : list Z) : VM (option (list Z)) :=
  match l with
  | [] => mret (Some [])
  | t :: l' =>
      st ← read_status t;
      if decide (st = VALIDATING) then r ← wait_pass done_ l'; mret ((cons t) <$> r)
      else if decide (st = done_) then wait_pass done_ l'
      else mret None
  end.
Fixpoint wait_loop (done_ : TRX_STAT) (rounds : nat) (l : list Z) : VM bool :=
  r ← wait_pass done_ l;
  match r with
  | None => mret true
  | Some [] => mret false
  | Some l' => match rounds with O | S O => mret true | S rounds' => wait_loop done_ rounds' l' end
  end.
(** [ValidationExpert::OPT_VALID_TIMEOUT_] (expert/validation_expert.hpp:95-95). *)
Definition OPT_VALID_TIMEOUT : nat := 1.
(** [ValidationExpert::valid_optimistic_validation]
    (expert/validation_expert.cpp:383-414): true is an abort. *)
Definition valid_optimistic_validation (l : list Z) : VM bool := wait_loop ABORT OPT_VALID_TIMEOUT l.
(** [ValidationExpert::valid_optimistic_read]
    (expert/validation_expert.cpp:416-447): true is an abort. *)
Definition valid_optimistic_read (l : list Z) : VM bool := wait_loop COMMITTED OPT_VALID_TIMEOUT l.

(** One loop of [valid_dependency_read]: false when a transaction is in state
    [bad], and those in state [good] are dropped. *)
Fixpoint dependency_loop (bad good : TRX_STAT) (l : list Z) : VM (bool * list Z) :=
  match l with
  | [] => mret (true, [])
  | t :: l' =>
      st ← read_status t;
      if decide (st = bad) then mret (false, l)
      else
        '(b, r) ← dependency_loop bad good l';
        mret (b, if decide (st = good) then r else t :: r)
  end.
(** [ValidationExpert::valid_dependency_read]
    (expert/validation_expert.cpp:217-249): whether to go on, and the homogeneous
    dependencies that are left. *)
Definition valid_dependency_read (homo hetero : list Z) : VM (bool * list Z) :=
  '(ok, homo) ← dependency_loop ABORT COMMITTED homo;
  if ok : bool then '(ok, _) ← dependency_loop COMMITTED ABORT hetero; mret (ok, homo)
  else mret (false, homo).

(** [ValidationExpert::validate] (expert/validation_expert.cpp:98-172): true is
    an abort. *)
Definition validate (pmt : pmt_table) (logic : gmap Z QueryPlan) (qplan : QueryPlan) (qid : Z) (step : nat) : VM bool :=
  let num_queries := Z.land qid flag_8L in
  valid_expert_obj ← lift (experts qplan !! step);
  trxIDList ← lift (mapM value_t2uint64_t (params valid_expert_obj));
  '(steps, aobj) ← lift (process_trx logic num_queries qid);
  content ← lift (get_recent_action_set pmt trxIDList);
  if (length content =? 0)%nat then mret false
  else
    '(ab, opt) ← do_step_validation (trxid qplan) aobj (map_to_list (check_step_map steps content)) [];
    if negb ab && negb (length opt =? 0)%nat then valid_optimistic_validation opt
    else mret ab.

(** The decision of [ValidationExpert::process]
    (expert/validation_expert.cpp:16-96), without the index and the messages:
    true is an abort. *)
Definition process_decision (lvl : ISOLATION_LEVEL) (pmt : pmt_table) (logic : gmap Z QueryPlan) (homo hetero : list Z)
    (qplan : QueryPlan) (qid : Z) (step : nat) : VM bool :=
  if decide (lvl = SNAPSHOT) then mret false
  else
    '(ab, homo) ←
      (if trx_type qplan =? TRX_READONLY then
         ab ← valid_optimistic_read homo;
         if ab : bool then _ ← update_abort (trxid qplan); mret (true, homo) else mret (false, [])
       else
         '(ok, homo) ← valid_dependency_read homo hetero;
         if ok : bool then mret (false, homo) else _ ← update_abort (trxid qplan); mret (true, homo));
    ab ← (if ab : bool then mret true else validate pmt logic qplan qid step);
    if negb ab && negb (length homo =? 0)%nat then valid_optimistic_read homo else mret ab.
End Validation.

(** ** Computations that read states *)

Lemma vm_bind {A B} (m : VM A) (f : A -> VM B) s r :
  (m ≫= f) s = Some r -> exists a s', m s = Some (a, s') /\ f a s' = Some r.
Proof. unfold mbind, VM_bind. destruct (m s) as [[a s']|]; [|done]. eauto. Qed.
Lemma vm_lift {A} (o : option A) s a s' : lift o s = Some (a, s') -> o = Some a /\ s' = s.
Proof. unfold lift. destruct o; naive_solver. Qed.

Tactic Notation "vm_step" hyp(H) "as" ident(x) ident(s) ident(Hx) :=
  apply vm_bind in H as (x & s & Hx & H).

Section Soundness.
Context (stat : nat -> Z -> TRX_STAT) (opt_validation : bool) (v_obj : EXPERT_T -> input_sets).

(** A transaction was seen in a state between two points of the computation. *)
Definition seen (s s' : vstate) (t : Z) (x : TRX_STAT) : Prop :=
  exists i, (now s <= i < now s')%nat /\ stat i t = x.

Lemma seen_mono s1 s2 s3 s4 t x :
  (now s1 <= now s2)%nat -> (now s3 <= now s4)%nat -> seen s2 s3 t x -> seen s1 s4 t x.
Proof. intros H1 H2 (i & Hi & E). exists i. split; [lia|done]. Qed.

Lemma wait_pass_sound d l s r s' :
  wait_pass stat d l s = Some (r, s') ->
  (now s <= now s')%nat /\
  forall l', r = Some l' -> forall t, t ∈ l -> t ∈ l' \/ seen s s' t d.
Proof.
  revert s r s'. induction l as [|t l IH]; intros s r s' H; cbn in H.
  { injection H as <- <-. split; [done|]. intros l' _ t Ht. by apply elem_of_nil in Ht. }
  vm_step H as x s1 Hx. injection Hx as <- <-.
  destruct (decide (stat (now s) t = VALIDATING)) as [Ev|Ev].
  - vm_step H as r1 s2 H1. injection H as <- <-. apply IH in H1 as [Hn Hl]. cbn in Hn. split; [lia|].
    intros l' E. destruct r1 as [l1|]; [|done]. injection E as <-.
    intros u [->|Hu]%elem_of_cons; [left; left|]. destruct (Hl l1 eq_refl u Hu) as [|Hs]; [left; by right|].
    right. eapply seen_mono; [| |exact Hs]; cbn; lia.
  - destruct (decide (stat (now s) t = d)) as [Ed|Ed].
    + apply IH in H as [Hn Hl]. cbn in Hn. split; [lia|]. intros l' -> u [->|Hu]%elem_of_cons.
      * right. exists (now s). split; [lia|done].
      * destruct (Hl l' eq_refl u Hu) as [|Hs]; [by left|]. right. eapply seen_mono; [| |exact Hs]; cbn; lia.
    + injection H as <- <-. split; [cbn; lia|done].
Qed.

(** Waiting without an abort has seen every transaction in the state that is
    waited for. *)
Lemma wait_loop_sound d n l s s' :
  wait_loop stat d n l s = Some (false, s') ->
  (now s <= now s')%nat /\ forall t, t ∈ l -> seen s s' t d.
Proof.
  revert l s. induction n as [|n IH]; intros l s H; cbn [wait_loop] in H;
    vm_step H as r s1 H1; apply wait_pass_sound in H1 as [Hn Hl].
  - destruct r as [[|]|]; try (injection H as H; congruence). injection H as <-. split; [done|].
    intros t Ht. destruct (Hl [] eq_refl t Ht) as [Hf|]; [by apply elem_of_nil in Hf|done].
  - destruct r as [[|u l']|]; [|destruct n as [|n']|]; try (injection H as H; congruence).
    + injection H as <-. split; [done|].
      intros t Ht. destruct (Hl [] eq_refl t Ht) as [Hf|]; [by apply elem_of_nil in Hf|done].
    + apply IH in H as [Hn2 Hl2]. split; [lia|]. intros t Ht.
      destruct (Hl _ eq_refl t Ht) as [Hin|Hs]; [eapply seen_mono; [| |apply Hl2, Hin]|eapply seen_mono; [| |exact Hs]]; lia.
Qed.

(** Whatever is read, waiting comes to an end. *)
Lemma wait_loop_total d n l s : exists b s', wait_loop stat d n l s = Some (b, s').
Proof.
  assert (forall l s, exists r s', wait_pass stat d l s = Some (r, s')) as Hp.
  { clear. induction l as [|t l IH]; intros s; cbn; [by eexists _, _|]. unfold mbind, VM_bind, read_status at 1.
    destruct (decide _); [|destruct (decide _); [apply IH|by eexists _, _]].
    destruct (IH (mk_vs (S (now s)) (aborted s))) as (r & s' & ->). by eexists _, _. }
  revert l s. induction n as [|n IH]; intros l s; cbn [wait_loop]; unfold mbind at 1, VM_bind at 1;
    destruct (Hp l s) as (r & s' & ->); destruct r as [[|u l']|]; try by eexists _, _.
  destruct n; [by eexists _, _|]. apply IH.
Qed.

Lemma check_trxs_sound cur t objs l opt s ab opt' s' :
  check_trxs stat opt_validation v_obj cur t objs l opt s = Some ((ab, opt'), s') ->
  (now s <= now s')%nat /\
  (ab = false -> opt ⊆ opt' /\ forall u check, (u, check) ∈ l ->
     expert_valid t (v_obj t) cur objs check = Some true \/ u ∈ opt' \/ seen s s' u ABORT).
Proof.
  revert opt s. induction l as [|[u check] l IH]; intros opt s H; cbn in H.
  { injection H as <- <- <-. split; [done|]. intros _. split; [done|]. intros u check Hu. by apply elem_of_nil in Hu. }
  vm_step H as ok s1 H1. apply vm_lift in H1 as [Ev ->]. destruct ok.
  { apply IH in H as [Hn Hl]. split; [done|]. intros Ea. destruct (Hl Ea) as [Ho Hu]. split; [done|].
    intros w c [[= -> ->]|Hw]%elem_of_cons; [by left|by apply Hu]. }
  destruct (negb opt_validation).
  { vm_step H as x s1 H1. injection H1 as <- <-. injection H as <- <- <-. split; [done|done]. }
  vm_step H as x s1 H1. injection H1 as <- <-.
  assert (forall opt2, opt ⊆ opt2 -> (stat (now s) u = ABORT \/ u ∈ opt2) ->
    check_trxs stat opt_validation v_obj cur t objs l opt2 (mk_vs (S (now s)) (aborted s)) = Some ((ab, opt'), s') ->
    (now s <= now s')%nat /\ (ab = false -> opt ⊆ opt' /\ forall w c, (w, c) ∈ (u, check) :: l ->
     expert_valid t (v_obj t) cur objs c = Some true \/ w ∈ opt' \/ seen s s' w ABORT)) as Hgo.
  { intros opt2 Hsub Hu H2. apply IH in H2 as [Hn Hl]. cbn in Hn. split; [lia|]. intros Ea.
    destruct (Hl Ea) as [Ho Hw]. split; [by etransitivity|]. intros w c [[= -> ->]|Hin]%elem_of_cons.
    - destruct Hu as [Hu|Hu]; [right; right; exists (now s); split; [lia|done]|right; left; by apply Ho].
    - destruct (Hw w c Hin) as [|[|Hs]]; [by left|right; by left|]. right. right. eapply seen_mono; [| |exact Hs]; cbn; lia. }
  destruct (stat (now s) u) eqn:Es.
  - vm_step H as x s1 H1. injection H1 as <- <-. injection H as <- <- <-. split; [cbn; lia|done].
  - eapply Hgo; [| |exact H]; [set_solver|right; set_solver].
  - eapply Hgo; [| |exact H]; [done|by left].
  - vm_step H as x s1 H1. injection H1 as <- <-. injection H as <- <- <-. split; [cbn; lia|done].
Qed.

Lemma do_step_validation_sound cur aobj steps opt s ab opt' s' :
  do_step_validation stat opt_validation v_obj cur aobj steps opt s = Some ((ab, opt'), s') ->
  (now s <= now s')%nat /\
  (ab = false -> opt ⊆ opt' /\ forall v m u check, (v, m) ∈ steps -> (m : trx_actions) !! u = Some check ->
     (exists t objs, enum_of_int EXPERT_Ts (vs_expert v) = Some t /\ aobj !! v = Some objs /\
        expert_valid t (v_obj t) cur objs check = Some true) \/ u ∈ opt' \/ seen s s' u ABORT).
Proof.
  revert opt s. induction steps as [|[v m] steps IH]; intros opt s H; cbn in H.
  { injection H as <- <- <-. split; [done|]. intros _. split; [done|]. intros v m u check Hu. by apply elem_of_nil in Hu. }
  vm_step H as x s1 H1. injection H1 as <- <-. destruct (decide _).
  { injection H as <- <- <-. split; [cbn; lia|done]. }
  vm_step H as t s1 H1. apply vm_lift in H1 as [Et ->].
  vm_step H as objs s1 H1. apply vm_lift in H1 as [Eo ->].
  vm_step H as r s1 H1. destruct r as [ab1 opt1]. apply check_trxs_sound in H1 as [Hn1 Hl1]. cbn in Hn1.
  destruct ab1; [injection H as <- <- <-; split; [lia|done]|].
  apply IH in H as [Hn Hl]. split; [lia|]. intros Ea. destruct (Hl Ea) as [Ho Hs]. destruct (Hl1 eq_refl) as [Ho1 Hs1].
  split; [by etransitivity|]. intros w m' u check [[= -> ->]|Hin]%elem_of_cons Hu.
  - apply elem_of_map_to_list in Hu. destruct (Hs1 u check Hu) as [Hv|[Hi|Hi]]; [left; by exists t, objs|right; left; by apply Ho|].
    right. right. eapply seen_mono; [| |exact Hi]; cbn; lia.
  - destruct (Hs w m' u check Hin Hu) as [Hv|[Hi|Hi]]; [by left|right; by left|].
    right. right. eapply seen_mono; [| |exact Hi]; cbn; lia.
Qed.
End Soundness.

(** ** The steps and the actions that are compared *)

(** The steps of a query, then of a transaction, each with its expert. *)
Fixpoint query_pairs (step_counter : Z) (es : list Expert_Object) : option (list (vstep_t * Expert_Object)) :=
  match es with
  | [] => Some []
  | e :: es' =>
      vs ← vsteps_of e (step_counter + 1);
      l ← query_pairs (step_counter + 1) es';
      Some (((fun v => (v, e)) <$> vs) ++ l)
  end.
Fixpoint queries_pairs (logic : gmap Z QueryPlan) (cur_qid : Z) (is_ : list nat) : option (list (vstep_t * Expert_Object)) :=
  match is_ with
  | [] => Some []
  | i :: rest =>
      l ← match logic !! query_qid cur_qid i with
          | Some plan => query_pairs 0 (experts plan)
          | None => Some []
          end;
      l' ← queries_pairs logic cur_qid rest;
      Some (l ++ l')
  end.
Definition add_pair (acc : gset vstep_t * step_aobj_map) (ve : vstep_t * Expert_Object) : gset vstep_t * step_aobj_map :=
  ({[ve.1]} ∪ acc.1, insert_step_aobj_map acc.2 ve.1 ve.2).

Lemma add_vsteps_pairs e vs acc : add_vsteps e vs acc = foldl add_pair acc ((fun v => (v, e)) <$> vs).
Proof. revert acc. induction vs as [|v vs IH]; intros acc; [done|]. cbn. apply IH. Qed.

Lemma process_query_pairs c es acc :
  process_query c es acc = (foldl add_pair acc) <$> query_pairs c es.
Proof.
  revert c acc. induction es as [|e es IH]; intros c acc; cbn; [done|].
  destruct (vsteps_of e (c + 1)) as [vs|]; [|done]. cbn. rewrite IH.
  destruct (query_pairs (c + 1) es) as [l|]; [|done]. cbn. by rewrite foldl_app, add_vsteps_pairs.
Qed.

Lemma process_queries_pairs logic qid is_ acc :
  process_queries logic qid is_ acc = (foldl add_pair acc) <$> queries_pairs logic qid is_.
Proof.
  revert acc. induction is_ as [|i is_ IH]; intros acc; cbn; [done|].
  destruct (logic !! query_qid qid i) as [plan|]; cbn; [rewrite process_query_pairs; destruct (query_pairs 0 (experts plan)) as [l|]; [|done]; cbn|];
    rewrite IH; destruct (queries_pairs logic qid is_); cbn; by rewrite ?foldl_app.
Qed.

Lemma add_pair_lookup acc w e v :
  (add_pair acc (w, e)).2 !! v = if decide (w = v) then Some (default [] (acc.2 !! v) ++ [e]) else acc.2 !! v.
Proof.
  unfold add_pair, insert_step_aobj_map. cbn [fst snd].
  case_decide; subst; [by rewrite lookup_insert_eq|by rewrite lookup_insert_ne].
Qed.

Lemma add_pairs_spec l acc v :
  (v ∈ (foldl add_pair acc l).1 <-> v ∈ acc.1 \/ v ∈ l.*1) /\
  (forall objs, (foldl add_pair acc l).2 !! v = Some objs ->
     forall e, e ∈ objs <-> e ∈ default [] (acc.2 !! v) \/ (v, e) ∈ l) /\
  (v ∈ l.*1 \/ is_Some (acc.2 !! v) <-> is_Some ((foldl add_pair acc l).2 !! v)).
Proof.
  revert acc. induction l as [|[w f] l IH]; intros acc; cbn [foldl fmap list_fmap fst].
  { split_and!; [set_solver| |set_solver]. intros objs -> e. cbn. set_solver. }
  destruct (IH (add_pair acc (w, f))) as (H1 & H2 & H3). split_and!.
  - rewrite H1. cbn [add_pair fst]. set_solver.
  - intros objs Ho e. rewrite (H2 objs Ho e), add_pair_lookup. case_decide; cbn; set_solver.
  - rewrite <- H3, add_pair_lookup, elem_of_cons. case_decide as Ew; [|naive_solver].
    split; [|naive_solver]. intros _. right. by eexists.
Qed.

(** The expert [e], at a position of one of the first queries of the
    transaction, has the validated step [v]. *)
Definition occurs (logic : gmap Z QueryPlan) (num_queries qid : Z) (e : Expert_Object) (pos : Z) : Prop :=
  exists i plan k, (Z.of_nat i < num_queries) /\ logic !! query_qid qid i = Some plan /\
    experts plan !! k = Some e /\ pos = Z.of_nat k + 1.

Lemma query_pairs_elem c es l v e :
  query_pairs c es = Some l ->
  (v, e) ∈ l <-> exists k vs, es !! k = Some e /\ vsteps_of e (c + Z.of_nat k + 1) = Some vs /\ v ∈ vs.
Proof.
  revert c l. induction es as [|f es IH]; intros c l H; cbn in H.
  { injection H as <-. split; [by intros ?%elem_of_nil|]. by intros (k & vs & Hk & _). }
  destruct (vsteps_of f (c + 1)) as [vs|] eqn:Ev; [|done]. cbn in H.
  destruct (query_pairs (c + 1) es) as [l'|] eqn:El; [|done]. injection H as <-.
  rewrite elem_of_app, (IH _ _ El), list_elem_of_fmap. split.
  - intros [(v' & [= <- ->] & Hv)|(k & vs' & Hk & Hs & Hv)].
    + exists 0%nat, vs. split_and!; [done| |done]. by rewrite Z.add_0_r.
    + exists (S k), vs'. split_and!; [done| |done]. rewrite <- Hs. f_equal. lia.
  - intros ([|k] & vs' & Hk & Hs & Hv).
    + left. injection Hk as ->. rewrite Z.add_0_r in Hs. exists v. split; [done|]. congruence.
    + right. exists k, vs'. split_and!; [done| |done]. rewrite <- Hs. f_equal. lia.
Qed.

Lemma queries_pairs_elem logic qid is_ l v e :
  queries_pairs logic qid is_ = Some l ->
  (v, e) ∈ l <-> exists i plan k vs, i ∈ is_ /\ logic !! query_qid qid i = Some plan /\ experts plan !! k = Some e /\
     vsteps_of e (Z.of_nat k + 1) = Some vs /\ v ∈ vs.
Proof.
  revert l. induction is_ as [|i is_ IH]; intros l H; cbn in H.
  { injection H as <-. split; [by intros ?%elem_of_nil|]. by intros (i & ? & ? & ? & ?%elem_of_nil & _). }
  destruct (logic !! query_qid qid i) as [plan|] eqn:Ep; cbn in H.
  - destruct (query_pairs 0 (experts plan)) as [l1|] eqn:E1; [|done]. cbn in H.
    destruct (queries_pairs logic qid is_) as [l2|]; [|done]. injection H as <-.
    rewrite elem_of_app, (IH _ eq_refl), (query_pairs_elem _ _ _ _ _ E1). split.
    + intros [(k & vs & Hk & Hs & Hv)|(j & pl & k & vs & Hj & ?)]; [|exists j, pl, k, vs; split; [by right|done]].
      exists i, plan, k, vs. split_and!; [left|done..].
    + intros (j & pl & k & vs & [->|Hj]%elem_of_cons & Hpl & Hk & Hs & Hv); [left|right; by exists j, pl, k, vs].
      exists k, vs. rewrite Ep in Hpl. injection Hpl as ->. done.
  - destruct (queries_pairs logic qid is_) as [l2|]; [|done]. injection H as <-. cbn.
    rewrite (IH _ eq_refl). split.
    + intros (j & pl & k & vs & Hj & ?). exists j, pl, k, vs. split; [by right|done].
    + intros (j & pl & k & vs & [->|Hj]%elem_of_cons & Hpl & ?); [congruence|by exists j, pl, k, vs].
Qed.

(** The steps of a transaction are those of the experts of its queries. *)
Lemma process_trx_spec logic n qid steps aobj :
  process_trx logic n qid = Some (steps, aobj) ->
  forall v,
    (v ∈ steps <-> is_Some (aobj !! v)) /\
    (v ∈ steps <-> exists e pos vs, occurs logic n qid e pos /\ vsteps_of e pos = Some vs /\ v ∈ vs) /\
    (forall objs e, aobj !! v = Some objs ->
       e ∈ objs <-> exists pos vs, occurs logic n qid e pos /\ vsteps_of e pos = Some vs /\ v ∈ vs).
Proof.
  unfold process_trx. rewrite process_queries_pairs. intros H v.
  destruct (queries_pairs logic qid (seq 0 (Z.to_nat n))) as [l|] eqn:El; [|done]. cbn in H.
  destruct (add_pairs_spec l (∅, ∅) v) as (H1 & H2 & H3). injection H as H. rewrite H in *. cbn in *.
  assert (forall e, (v, e) ∈ l <-> exists pos vs, occurs logic n qid e pos /\ vsteps_of e pos = Some vs /\ v ∈ vs) as He.
  { intros e. rewrite (queries_pairs_elem _ _ _ _ _ _ El). split.
    - intros (i & plan & k & vs & Hi & Hp & Hk & Hs & Hv). apply elem_of_seq in Hi.
      exists (Z.of_nat k + 1), vs. split; [|done]. exists i, plan, k. split_and!; [lia|done..].
    - intros (pos & vs & (i & plan & k & Hi & Hp & Hk & ->) & Hs & Hv). exists i, plan, k, vs.
      split_and!; [|done..]. apply elem_of_seq. lia. }
  assert (v ∈ l.*1 <-> exists e, (v, e) ∈ l) as Hl.
  { rewrite list_elem_of_fmap. split; [intros ([w e] & -> & ?); by exists e|intros (e & ?); by exists (v, e)]. }
  rewrite lookup_empty in *. split_and!.
  - rewrite H1, <- H3. rewrite is_Some_alt. set_solver.
  - rewrite H1, Hl. setoid_rewrite He. set_solver.
  - intros objs e Ho. rewrite (H2 objs Ho e), He. cbn. set_solver.
Qed.

(** The actions that reach a step, flattened. *)
Definition step_actions (steps : gset vstep_t) (content : list (Primitive_T * trx_actions)) : list (vstep_t * trx_actions) :=
  content ≫= fun pm => (fun v => (v, pm.2)) <$> elements (steps ∩ primitiveStepMap pm.1).

Lemma check_step_map_flat steps content :
  check_step_map steps content = foldl (fun check vm => add_actions check vm.2 vm.1) ∅ (step_actions steps content).
Proof.
  unfold check_step_map, step_actions. generalize (∅ : gmap vstep_t trx_actions).
  induction content as [|[p m] content IH]; intros check; [done|]. cbn [foldl mbind list_bind fst snd].
  rewrite foldl_app. rewrite IH. f_equal. generalize (elements (steps ∩ primitiveStepMap p)). intros l. revert check.
  induction l as [|v l IHl]; intros check; [done|]. cbn. apply IHl.
Qed.

(** The actions of a transaction that a step is checked with. *)
Definition checked (check : gmap vstep_t trx_actions) (v : vstep_t) (u : Z) (d : rct_extract_data_t) : Prop :=
  exists m l, check !! v = Some m /\ m !! u = Some l /\ d ∈ l.

Lemma add_actions_checked check m w v u d :
  checked (add_actions check m w) v u d <->
  checked check v u d \/ (v = w /\ exists l, m !! u = Some l /\ d ∈ l).
Proof.
  unfold checked, add_actions. destruct (decide (w = v)) as [->|Hne].
  2: { rewrite lookup_insert_ne by done. naive_solver. }
  rewrite lookup_insert_eq. destruct (check !! v) as [m'|]; [|naive_solver]. split.
  - intros (m1 & l & [= <-] & Hl & Hd). rewrite lookup_union_with in Hl.
    destruct (m' !! u) as [a|] eqn:Ea, (m !! u) as [b|] eqn:Eb; cbn in Hl; simplify_eq; [|naive_solver..].
    apply elem_of_app in Hd as [Hd|Hd]; naive_solver.
  - intros H. eexists. assert (exists l, union_with (fun a b => Some (a ++ b)) m' m !! u = Some l /\ d ∈ l) as (l & El & Hd); [|by exists l].
    rewrite lookup_union_with. destruct H as [(m1 & l & [= <-] & -> & Hd)|(_ & l & -> & Hd)].
    + destruct (m !! u); cbn; eexists; (split; [done|]); [apply elem_of_app; by left|done].
    + destruct (m' !! u); cbn; eexists; (split; [done|]); [apply elem_of_app; by right|done].
Qed.

(** Exactly the actions whose primitive concerns a step of the transaction are
    checked. *)
Lemma check_step_map_checked steps content v u d :
  checked (check_step_map steps content) v u d <->
  v ∈ steps /\ exists p m l, (p, m) ∈ content /\ v ∈ primitiveStepMap p /\ m !! u = Some l /\ d ∈ l.
Proof.
  rewrite check_step_map_flat.
  assert (forall l check, checked (foldl (fun check vm => add_actions check vm.2 vm.1) check l) v u d <->
    checked check v u d \/ exists m l', (v, m) ∈ l /\ m !! u = Some l' /\ d ∈ l') as Hf.
  { induction l as [|[w m] l IH]; intros check; cbn [foldl fst snd].
    - split; [by left|]. intros [|(? & ? & ?%elem_of_nil & _)]; done.
    - rewrite IH, add_actions_checked. setoid_rewrite elem_of_cons. naive_solver. }
  rewrite Hf. unfold step_actions. setoid_rewrite list_elem_of_bind. setoid_rewrite list_elem_of_fmap.
  setoid_rewrite elem_of_elements. setoid_rewrite elem_of_intersection. split.
  - intros [(? & ? & E & _)|(m & l & ([p m'] & (w & [= <- ->] & Hw & Hp) & Hc) & Hm & Hd)]; [by rewrite lookup_empty in E|].
    split; [done|]. by exists p, m', l.
  - intros (Hv & p & m & l & Hc & Hp & Hm & Hd). right. exists m, l. split; [|done]. exists (p, m). split; [|done]. by exists v.
Qed.

(** The recent actions are those that the listed transactions have recorded. *)
Lemma get_recent_action_set_spec pmt ids content :
  get_recent_action_set pmt ids = Some content ->
  forall p u d, (exists m l, (p, m) ∈ content /\ m !! u = Some l /\ d ∈ l) <->
    u ∈ ids /\ exists r items w, pmt !! p = Some r /\ r !! u = Some items /\ w ∈ items /\ d = extract_item p w.
Proof.
  unfold get_recent_action_set. intros H p u d.
  destruct (mapM _ Primitives) as [all|] eqn:Ea; [|done]. injection H as <-. apply mapM_Some in Ea.
  assert (forall m, (p, m) ∈ all <-> GetRecentActionSet pmt p ids ∅ = Some m) as Hall.
  { intros m. split.
    - intros (i & Hi)%list_elem_of_lookup. destruct (Forall2_lookup_r _ _ _ _ _ Ea Hi) as (q & Hq & Hg).
      cbn in Hg. destruct (GetRecentActionSet pmt q ids ∅) eqn:E; [|done]. cbn in Hg. congruence.
    - intros Hg. assert (p ∈ Primitives) as (i & Hi)%list_elem_of_lookup by (destruct p; cbn; set_solver).
      destruct (Forall2_lookup_l _ _ _ _ _ Ea Hi) as (q & Hq & Hg'). rewrite Hg in Hg'. cbn in Hg'. simplify_eq.
      by eapply list_elem_of_lookup_2. }
  setoid_rewrite list_elem_of_filter. setoid_rewrite Hall. cbn [snd]. unfold GetRecentActionSet.
  destruct (pmt !! p) as [r|]; [|naive_solver]. cbn [mbind option_bind]. split.
  - intros (m & l & [_ [= <-]] & Hl & Hd). rewrite get_fold, lookup_empty in Hl. case_decide as Hu; [|done].
    destruct (r !! u) as [items|] eqn:Er; [|done]. cbn in Hl. injection Hl as <-.
    apply list_elem_of_fmap in Hd as (w & -> & Hw). split; [done|]. exists r, items, w. set_solver.
  - intros (Hu & r' & items & w & [= <-] & Er & Hw & ->). eexists _, _.
    assert (foldl _ ∅ ids !! u = _) as Hl by (apply (get_fold r p ids ∅ u)).
    rewrite lookup_empty, decide_True, Er in Hl by done. cbn in Hl. split_and!; [|done|exact Hl|].
    + intros E. rewrite E in Hl. by rewrite lookup_empty in Hl.
    + apply list_elem_of_fmap. exists w. set_solver.
Qed.

(** A committed or aborted transaction stays so. *)
Definition settled (stat : nat -> Z -> TRX_STAT) : Prop :=
  forall i j t, (i <= j)%nat -> stat i t = ABORT \/ stat i t = COMMITTED -> stat j t = stat i t.

(** The recent action [w] of kind [p] concerns a step of the expert [e]. *)
Definition concerned (e : Expert_Object) (pos : Z) (p : Primitive_T) : Prop :=
  exists vs v, vsteps_of e pos = Some vs /\ v ∈ vs /\ v ∈ primitiveStepMap p.
Definition recent (pmt : pmt_table) (ids : list Z) (p : Primitive_T) (u w : Z) : Prop :=
  u ∈ ids /\ exists r items, pmt !! p = Some r /\ r !! u = Some items /\ w ∈ items.
(** The transactions that the validating step is given. *)
Definition recent_ids (qplan : QueryPlan) (step : nat) : option (list Z) :=
  obj ← experts qplan !! step; mapM value_t2uint64_t (params obj).

Section Decision.
Context (stat : nat -> Z -> TRX_STAT) (opt_validation : bool) (v_obj : EXPERT_T -> input_sets).
Hypothesis Hstat : settled stat.

Lemma seen_end s s' t x : x = ABORT \/ x = COMMITTED -> seen stat s s' t x -> stat (now s') t = x.
Proof. intros Hx (i & Hi & E). rewrite (Hstat i); [done|lia|]. by rewrite E. Qed.

Lemma vsteps_expert e pos vs v :
  vsteps_of e pos = Some vs -> v ∈ vs -> enum_of_int EXPERT_Ts (vs_expert v) = Some (expert_type e).
Proof.
  unfold vsteps_of. case_decide as Hn; [|by intros [= <-] ?%elem_of_nil]. case_decide as Eh.
  - rewrite Eh. unfold get_vstep_for_has. destruct (_ && _); [|done]. destruct (int_param e 0); [|done]. cbn [mbind option_bind].
    intros H%mapM_Some (i & Hi)%list_elem_of_lookup. destruct (Forall2_lookup_r _ _ _ _ _ H Hi) as (j & _ & Hj).
    destruct (int_param e (j * 3 + 1)); [|done]. destruct (int_param e (j * 3 + 2)); [|done].
    destruct (params e !! (j * 3 + 3)%nat) as [val|]; [|done]. cbn [mbind option_bind] in Hj.
    destruct (value_t2vec val); [|done]. injection Hj as <-. done.
  - intros [= <-] ->%list_elem_of_singleton. unfold get_vstep. by destruct (expert_type e).
Qed.

Lemma validate_sound pmt logic qplan qid step s s' ids e pos p u w :
  validate stat opt_validation v_obj pmt logic qplan qid step s = Some (false, s') ->
  recent_ids qplan step = Some ids -> recent pmt ids p u w ->
  occurs logic (Z.land qid flag_8L) qid e pos -> concerned e pos p ->
  (now s <= now s')%nat /\
  (expert_valid (expert_type e) (v_obj (expert_type e)) (trxid qplan) [e] [extract_item p w] = Some true \/
   stat (now s') u = ABORT).
Proof.
  intros H Hids [Hu (r & items & Hr & Hi & Hw)] Hocc (vs & v & Hvs & Hv & Hp). unfold validate in H.
  vm_step H as obj s1 H1. apply vm_lift in H1 as [Eo ->]. vm_step H as ids' s1 H1. apply vm_lift in H1 as [Ei ->].
  unfold recent_ids in Hids. rewrite Eo in Hids. cbn [mbind option_bind] in Hids. rewrite Hids in Ei. injection Ei as <-.
  vm_step H as sa s1 H1. apply vm_lift in H1 as [Et ->]. destruct sa as [steps aobj].
  vm_step H as content s1 H1. apply vm_lift in H1 as [Ec ->].
  destruct (process_trx_spec _ _ _ _ _ Et v) as (Hs1 & Hs2 & Hs3).
  assert (v ∈ steps) as Hvs' by (apply Hs2; by exists e, pos, vs).
  assert (exists m l, (p, m) ∈ content /\ m !! u = Some l /\ extract_item p w ∈ l) as (m & l & Hc & Hm & Hd).
  { apply (get_recent_action_set_spec _ _ _ Ec). split; [done|]. by exists r, items, w. }
  destruct (length content =? 0)%nat eqn:El.
  { apply Nat.eqb_eq, nil_length_inv in El. subst. by apply elem_of_nil in Hc. }
  assert (checked (check_step_map steps content) v u (extract_item p w)) as (m' & l' & Hcm & Hm' & Hd').
  { apply check_step_map_checked. split; [done|]. by exists p, m, l. }
  vm_step H as ao s1 H1. destruct ao as [ab opt]. apply do_step_validation_sound in H1 as [Hn H1].
  destruct ab; [done|]. destruct (H1 eq_refl) as [_ Hall].
  destruct (Hall v m' u l') as [(t & objs & Ht & Hobj & Hval)|Hopt]; [by apply elem_of_map_to_list|done|..].
  { rewrite (vsteps_expert _ _ _ _ Hvs Hv) in Ht. injection Ht as <-. assert (now s <= now s')%nat.
    { destruct (length opt =? 0)%nat; cbn [negb andb] in H; [by injection H as <-|]. apply wait_loop_sound in H as [? _]. lia. }
    split; [done|]. left. eapply expert_valid_one; [exact Hval| |done]. apply (Hs3 objs e Hobj). by exists pos, vs. }
  destruct (length opt =? 0)%nat eqn:E0; cbn [negb andb] in H.
  - injection H as <-. apply Nat.eqb_eq, nil_length_inv in E0. subst. split; [done|]. right.
    destruct Hopt as [Hf|Hs]; [by apply elem_of_nil in Hf|]. eapply seen_end; [by left|exact Hs].
  - apply wait_loop_sound in H as [Hn2 Hw2]. split; [lia|]. right. apply (seen_end s); [by left|].
    destruct Hopt as [Hf|Hs]; [eapply seen_mono; [| |apply Hw2, Hf]|eapply seen_mono; [| |exact Hs]]; lia.
Qed.

Lemma validate_now pmt logic qplan qid step s b s' :
  validate stat opt_validation v_obj pmt logic qplan qid step s = Some (b, s') -> (now s <= now s')%nat.
Proof.
  unfold validate. intros H.
  vm_step H as obj s1 H1. apply vm_lift in H1 as [Eo ->]. vm_step H as ids' s1 H1. apply vm_lift in H1 as [Ei ->].
  vm_step H as sa s1 H1. apply vm_lift in H1 as [Et ->]. destruct sa as [steps aobj].
  vm_step H as content s1 H1. apply vm_lift in H1 as [Ec ->]. destruct (_ =? 0)%nat; [by injection H as _ <-|].
  vm_step H as ao s1 H1. destruct ao as [ab opt]. apply do_step_validation_sound in H1 as [Hn H1].
  destruct (_ && _); [|by injection H as _ <-]. unfold valid_optimistic_validation, OPT_VALID_TIMEOUT in H. cbn [wait_loop] in H.
  vm_step H as r s2 H2. apply wait_pass_sound in H2 as [Hn2 _]. destruct r as [[|]|]; injection H as _ <-; lia.
Qed.

Lemma dependency_loop_sound bad good l s b r s' :
  dependency_loop stat bad good l s = Some ((b, r), s') ->
  (now s <= now s')%nat /\
  (b = true -> forall t, t ∈ l -> (t ∈ r \/ seen stat s s' t good) /\ exists i, (now s <= i < now s')%nat /\ stat i t <> bad).
Proof.
  revert s b r s'. induction l as [|t l IH]; intros s b r s' H; cbn in H.
  { injection H as <- <- <-. split; [done|]. by intros _ t ?%elem_of_nil. }
  vm_step H as x s1 Hx. injection Hx as <- <-. case_decide as Eb; [injection H as <- _ <-; split; [cbn; lia|done]|].
  vm_step H as br s1 H1. destruct br as [b1 r1]. injection H as <- <- <-. apply IH in H1 as [Hn Hl]. cbn in Hn.
  split; [lia|]. intros -> u [->|Hu]%elem_of_cons.
  - split; [|exists (now s); split; [lia|done]]. case_decide as Eg; [|left; left]. right. exists (now s). split; [lia|done].
  - destruct (Hl eq_refl u Hu) as [H1 (i & Hi & Hb)]. cbn in Hi. split; [|exists i; split; [lia|done]].
    destruct H1 as [Hr|Hs]; [left; case_decide; set_solver|]. right. eapply seen_mono; [| |exact Hs]; cbn; lia.
Qed.

(** A decision to commit, step by step. *)
Lemma decision_sound lvl pmt logic homo hetero qplan qid step s s' ids :
  process_decision stat opt_validation v_obj lvl pmt logic homo hetero qplan qid step s = Some (false, s') ->
  lvl <> SNAPSHOT -> recent_ids qplan step = Some ids ->
  (forall t, t ∈ homo -> stat (now s') t = COMMITTED) /\
  (forall t, trx_type qplan <> TRX_READONLY -> t ∈ hetero -> exists i, (now s <= i < now s')%nat /\ stat i t <> COMMITTED) /\
  (forall e pos p u w, recent pmt ids p u w -> occurs logic (Z.land qid flag_8L) qid e pos -> concerned e pos p ->
     expert_valid (expert_type e) (v_obj (expert_type e)) (trxid qplan) [e] [extract_item p w] = Some true \/
     stat (now s') u = ABORT).
Proof.
  intros H Hlvl Hids. unfold process_decision in H. rewrite decide_False in H by done.
  vm_step H as ah s1 H0. destruct ah as [ab homo1]. vm_step H as ab2 s2 H2.
  assert (ab = false /\ ab2 = false) as [-> ->].
  { destruct ab, ab2; try done; cbn [negb andb] in H; try (injection H2 as H2; congruence); by injection H. }
  assert (H3 := validate_now _ _ _ _ _ _ _ _ H2).
  assert (exists homo2, (now s2 <= now s')%nat /\ homo2 = homo1 /\ forall t, t ∈ homo1 -> seen stat s2 s' t COMMITTED) as (? & Hn' & -> & Hh').
  { exists homo1. destruct (length homo1 =? 0)%nat eqn:E; cbn [negb andb] in H.
    - injection H as <-. apply Nat.eqb_eq, nil_length_inv in E. subst. split_and!; [done|done|]. by intros t ?%elem_of_nil.
    - apply wait_loop_sound in H as [??]. done. }
  assert ((now s <= now s1)%nat /\ (forall t, t ∈ homo -> t ∈ homo1 \/ seen stat s s1 t COMMITTED) /\
    (forall t, trx_type qplan <> TRX_READONLY -> t ∈ hetero -> exists i, (now s <= i < now s1)%nat /\ stat i t <> COMMITTED))
    as (Hn1 & Hho & Hhe).
  { destruct (Z.eqb_spec (trx_type qplan) TRX_READONLY).
    - vm_step H0 as b s3 H4. destruct b; [vm_step H0 as x s4 H5; discriminate|]. injection H0 as <- <-.
      apply wait_loop_sound in H4 as [? Hs]. split_and!; [done| |done]. intros t Ht. right. by apply Hs.
    - vm_step H0 as bh s3 H4. destruct bh as [b h]. destruct b; [|vm_step H0 as x s4 H5; discriminate]. injection H0 as <- <-.
      vm_step H4 as bh s4 H5. destruct bh as [b1 h1]. apply dependency_loop_sound in H5 as [Hn5 H5].
      destruct b1; [|discriminate]. vm_step H4 as bh s5 H6. destruct bh as [b2 h2]. injection H4 as -> <- <-.
      apply dependency_loop_sound in H6 as [Hn6 H6]. split_and!; [lia| |].
      + intros t Ht. destruct (H5 eq_refl t Ht) as [[|Hs] _]; [by left|]. right. eapply seen_mono; [| |exact Hs]; lia.
      + intros t _ Ht. destruct (H6 eq_refl t Ht) as [_ (i & Hi & Hb)]. exists i. split; [lia|done]. }
  split_and!.
  - intros t Ht. apply (seen_end s); [by right|].
    destruct (Hho t Ht) as [Hin|Hs]; [eapply seen_mono; [| |apply Hh', Hin]|eapply seen_mono; [| |exact Hs]]; lia.
  - intros t Hr Ht. destruct (Hhe t Hr Ht) as (i & Hi & Hb). exists i. split; [lia|done].
  - intros e pos p u w Hrec Hocc Hcon. destruct (validate_sound _ _ _ _ _ _ _ _ _ _ _ _ _ H2 Hids Hrec Hocc Hcon) as [_ [|Ha]]; [by left|].
    right. rewrite <- Ha. apply Hstat; [lia|]. by left.
Qed.
End Decision.

(** ** What the steps of a transaction read *)

(** The expert was given the element [x], or every element. *)
Definition given (o : input_sets) (trx step x : Z) : Prop :=
  exists r, validation_data o !! (trx, step) = Some r /\ (isAll r = true \/ x ∈ rv_data r).

(** The word [w] of an action of kind [p] is that of property [k] of the element
    [x]. *)
Definition element_word (t : Element_T) (p : Primitive_T) (k x w : Z) : Prop :=
  match t with
  | VERTEX => p ∈ [IVP; MVP; DVP] /\ exists vp, vpid_wf vp /\ vp_pid vp = k /\ vp_vid vp = x /\ vpid_t2uint vp = w
  | EDGE => p ∈ [IEP; MEP; DEP] /\ exists ep, epid_wf ep /\ ep_pid ep = k /\
      eid_t2uint (mk_eid (ep_dst_vid ep) (ep_src_vid ep)) = x /\ epid_t2uint ep = w
  end.

(** The expert [e] reads property [k] of its input, and the actions of kind [p]
    can change what it reads: [keys] and the tests for the existence of a
    property do not depend on the value. *)
Inductive reads_key (e : Expert_Object) (pos : Z) (p : Primitive_T) (k : Z) : Prop :=
| reads_values keys :
    expert_type e ∈ [E_VALUES; E_PROPERTIES] -> key_params e = Some keys -> k ∈ keys -> reads_key e pos p k
| reads_project key_id value_id :
    expert_type e = E_PROJECT -> pos <> 1 -> int_param e 1 = Some key_id -> int_param e 2 = Some value_id ->
    k = key_id \/ k = value_id -> reads_key e pos p k
| reads_has vs j pred :
    expert_type e = E_HAS -> pos <> 1 -> vsteps_of e pos = Some vs -> (j < (length (params e) - 1) / 3)%nat ->
    int_param e (j * 3 + 1) = Some k -> int_param e (j * 3 + 2) = Some pred ->
    has_step_type k pred = S_HAS \/ p ∈ [IVP; DVP; IEP; DEP] -> reads_key e pos p k
| reads_keys :
    expert_type e = E_KEY -> p ∈ [IVP; DVP; IEP; DEP] -> reads_key e pos p k.

(** What the expert reads, as the actions that change it: a property of an
    element of its input, or the set of all vertices or edges. *)
Inductive reads (v_obj : EXPERT_T -> input_sets) (trx : Z) (e : Expert_Object) (pos : Z) (p : Primitive_T) (w : Z) : Prop :=
| reads_property t k x :
    int_param e 0 = Some (element_int t) -> reads_key e pos p k -> element_word t p k x w ->
    given (v_obj (expert_type e)) trx (ex_index e) x -> reads v_obj trx e pos p w
| reads_all t :
    expert_type e = E_INIT -> length (params e) = 2%nat -> int_param e 0 = Some (element_int t) ->
    int_param e 1 = Some 0 -> p ∈ match t with VERTEX => [IV; DV] | EDGE => [IE; DE] end ->
    reads v_obj trx e pos p w.

Lemma element_word_extract t p k x w :
  element_word t p k x w -> exists item, extract_item p w = (item, k, t) /\ word_hits item x = true.
Proof.
  destruct t; cbn.
  - intros (Hp & vp & Hvp & <- & <- & <-). exists (vp_vid vp * 2 ^ 26). split; [by apply extract_vertex_property|].
    apply vertex_word_hits, Hvp.
  - intros (Hp & ep & Hep & <- & <- & <-). eexists. split; [by apply extract_edge_property|]. apply same_word_hits.
Qed.

Lemma given_hit o trx step x item :
  given o trx step x -> word_hits item x = true -> Validate o trx step [item] = false.
Proof.
  intros (r & E & Hr) Hh. apply Validate_false. exists r, item. split_and!; [done|by apply list_elem_of_singleton|].
  unfold record_hit. destruct Hr as [->|Hx]; [done|]. apply orb_true_iff. right. apply existsb_exists.
  exists x. split; [by apply list_elem_of_In|done].
Qed.

Lemma valid_loop_hit type select o trx e sel item k t :
  expert_type e = type -> select e = Some sel -> sel (item, k, t) = true ->
  Validate o trx (ex_index e) [item] = false ->
  valid_loop type select o trx [e] [(item, k, t)] = Some false.
Proof.
  intros Et Es Ek Hv. cbn [valid_loop]. rewrite decide_True, Es by done. cbn [mbind option_bind].
  rewrite filter_cons, filter_nil, decide_True by done. cbn [fmap list_fmap length Nat.eqb negb andb fst]. by rewrite Hv.
Qed.

Lemma concerns_in t keys item k : k ∈ keys -> concerns (element_int t) keys (item, k, t) = true.
Proof.
  intros Hk. unfold concerns. rewrite Z.eqb_refl, andb_true_r. apply existsb_exists.
  exists k. split; [by apply list_elem_of_In|apply Z.eqb_refl].
Qed.

Lemma get_vstep_for_has_elem e pos vs j k pred :
  get_vstep_for_has e pos = Some vs -> (j < (length (params e) - 1) / 3)%nat ->
  int_param e (j * 3 + 1) = Some k -> int_param e (j * 3 + 2) = Some pred ->
  vstep_new E_HAS (step_int (has_step_type k pred)) (first_flag pos) ∈ vs /\
  exists keys, group_keys e 1 = Some keys /\ k ∈ keys.
Proof.
  unfold get_vstep_for_has. intros H Hj Hk Hp. destruct (_ && _); [|done].
  destruct (int_param e 0); [|done]. cbn [mbind option_bind] in H. apply mapM_Some in H.
  assert (seq 0 ((length (params e) - 1) / 3) !! j = Some j) as Hs by (apply lookup_seq; lia).
  split.
  - destruct (Forall2_lookup_l _ _ _ _ _ H Hs) as (v & Hv & E). rewrite Hk, Hp in E. cbn [mbind option_bind] in E.
    destruct (params e !! (j * 3 + 3)%nat) as [val|]; [|done]. cbn [mbind option_bind] in E.
    destruct (value_t2vec val); [|done]. injection E as <-. by eapply list_elem_of_lookup_2.
  - unfold group_keys. assert (exists keys, mapM (fun i => int_param e (i * 3 + 1)) (seq 0 ((length (params e) - 1) / 3)) = Some keys) as [keys Hkeys].
    { apply mapM_is_Some_2. apply Forall_forall. intros i Hi. apply list_elem_of_lookup in Hi as (n & Hn).
      destruct (Forall2_lookup_l _ _ _ _ _ H Hn) as (v & Hv & E). unfold compose. destruct (int_param e (i * 3 + 1)); [by eexists|done]. }
    exists keys. split; [done|]. apply mapM_Some in Hkeys.
    destruct (Forall2_lookup_l _ _ _ _ _ Hkeys Hs) as (v & Hv & E). rewrite Hk in E. injection E as ->.
    by eapply list_elem_of_lookup_2.
Qed.

Lemma prim_of_property t p k x w : element_word t p k x w -> p ∈ [IVP; MVP; DVP; IEP; MEP; DEP].
Proof. destruct t; cbn; intros [Hp _]; set_solver. Qed.

Lemma step_in_map v p : bool_decide (v ∈ primitiveStepMap p) = true -> v ∈ primitiveStepMap p.
Proof. by apply bool_decide_eq_true. Qed.

Lemma vsteps_of_plain e pos :
  expert_type e ∈ needValidateExpertSet -> expert_type e <> E_HAS -> vsteps_of e pos = Some [get_vstep e pos].
Proof. intros H1 H2. unfold vsteps_of. by rewrite decide_True, decide_False. Qed.
Lemma needs_validation t : bool_decide (t ∈ needValidateExpertSet) = true -> t ∈ needValidateExpertSet.
Proof. by apply bool_decide_eq_true. Qed.

(** Every read is seen by validation: the kind of action concerns a step of the
    expert, and the check of the action reports a conflict. *)
Lemma reads_conflict v_obj trx e pos p w :
  reads v_obj trx e pos p w ->
  concerned e pos p /\ expert_valid (expert_type e) (v_obj (expert_type e)) trx [e] [extract_item p w] = Some false.
Proof.
  intros [t k x H0 Hk Hw Hg|t Et Hl H0 H1 Hp].
  - destruct (element_word_extract _ _ _ _ _ Hw) as (item & -> & Hh). pose proof (prim_of_property _ _ _ _ _ Hw) as Hpp.
    assert (expert_type e ∈ needValidateExpertSet -> expert_type e <> E_HAS ->
      get_vstep e pos ∈ primitiveStepMap p -> concerned e pos p) as Hone.
    { intros H1 H2 Hm. exists [get_vstep e pos], (get_vstep e pos). split_and!; [by apply vsteps_of_plain|left|done]. }
    pose proof (given_hit _ _ _ _ _ Hg Hh) as Hv.
    destruct Hk as [keys Et Hks Hin|key_id value_id Et Hpos Hk1 Hk2 Hor|vs j pred Et Hpos Hvs Hj Hkj Hpj Hor|Et Hp].
    + split.
      * set_unfold in Et. destruct Et as [Et|[Et|[]]];
          (apply Hone; unfold get_vstep; rewrite Et; [by apply needs_validation|done|apply step_in_map]);
          set_unfold in Hpp; destruct_or! Hpp; subst; by vm_compute.
      * set_unfold in Et. destruct Et as [Et|[Et|[]]]; rewrite Et in *;
          (eapply valid_loop_hit; [done|unfold keys_select; rewrite H0, Hks; done|by apply concerns_in|done]).
    + rewrite Et in *. split.
      * apply Hone; [by apply needs_validation|done|]. unfold get_vstep, first_flag.
        rewrite Et, (proj2 (Z.eqb_neq pos 1)) by done. apply step_in_map. set_unfold in Hpp. destruct_or! Hpp; subst; by vm_compute.
      * eapply valid_loop_hit; [done|unfold project_select; rewrite H0, Hk1, Hk2; done|apply concerns_in; set_solver|done].
    + assert (get_vstep_for_has e pos = Some vs) as Hvs'.
      { unfold vsteps_of in Hvs. rewrite Et in Hvs. by rewrite decide_True, decide_True in Hvs by (done || by apply needs_validation). }
      destruct (get_vstep_for_has_elem _ _ _ _ _ _ Hvs' Hj Hkj Hpj) as (Hin & keys & Hkeys & Hkk). split.
      * eexists _, _. split_and!; [exact Hvs|exact Hin|].
        unfold first_flag. rewrite (proj2 (Z.eqb_neq pos 1)) by done. apply step_in_map.
        destruct Hor as [->|Hp].
        -- set_unfold in Hpp. destruct_or! Hpp; subst; by vm_compute.
        -- unfold has_step_type. repeat case_match; set_unfold in Hp; destruct_or! Hp; subst; by vm_compute.
      * rewrite Et in *. eapply valid_loop_hit; [done|unfold has_select; rewrite H0, Hkeys; done|by apply concerns_in|done].
    + rewrite Et in *. split.
      * apply Hone; [by apply needs_validation|done|]. unfold get_vstep. rewrite Et. apply step_in_map. set_unfold in Hp. destruct_or! Hp; subst; by vm_compute.
      * eapply valid_loop_hit; [done|unfold key_select; rewrite H0; done|by apply Z.eqb_refl|done].
  - rewrite Et. split.
    + exists [get_vstep e pos], (get_vstep e pos). split_and!; [apply vsteps_of_plain; rewrite Et; [by apply needs_validation|done]|left|].
      unfold get_vstep. rewrite Et. apply step_in_map. destruct t; set_unfold in Hp; destruct_or! Hp; subst; by vm_compute.
    + cbn [expert_valid InitExpert_valid]. rewrite decide_True, Hl, H0 by done. cbn [mbind option_bind Nat.leb]. rewrite H1.
      cbn [mbind option_bind Z.eqb Nat.eqb existsb]. destruct t; set_unfold in Hp; destruct_or! Hp; subst; done.
Qed.

(** ** Transactions without a conflict *)

Lemma valid_loop_all type select o trx objs check :
  (forall e, e ∈ objs -> valid_loop type select o trx [e] [] = Some true) ->
  (forall e d, e ∈ objs -> d ∈ check -> valid_loop type select o trx [e] [d] <> Some false) ->
  valid_loop type select o trx objs check = Some true.
Proof.
  induction objs as [|e objs IH]; intros H0 H1; [done|]. cbn [valid_loop].
  pose proof (H0 e ltac:(left)) as He. cbn [valid_loop] in He. case_decide as Et; [|done].
  destruct (select e) as [sel|] eqn:Es; [|done]. cbn [mbind option_bind].
  rewrite IH by (intros; (apply H0 || apply H1); [by right|..]; done).
  destruct (Validate o trx (ex_index e) _) eqn:Ev; [cbn [negb]; by rewrite andb_false_r|]. exfalso.
  apply Validate_false in Ev as (r & item & Er & Hi & Hh). apply list_elem_of_fmap in Hi as ([[i k] t] & -> & Hd).
  apply list_elem_of_filter in Hd as [Hs Hd]. apply (H1 e (i, k, t)); [left|done|].
  eapply valid_loop_hit; [done|done|done|]. apply Validate_false. exists r, i. split_and!; [done|by apply list_elem_of_singleton|done].
Qed.

Lemma init_valid_all o trx objs check :
  (forall e, e ∈ objs -> InitExpert_valid o trx [e] [] = Some true) ->
  (forall e d, e ∈ objs -> d ∈ check -> InitExpert_valid o trx [e] [d] <> Some false) ->
  InitExpert_valid o trx objs check = Some true.
Proof.
  induction objs as [|e objs IH]; intros H0 H1; [done|]. cbn [InitExpert_valid].
  rewrite IH by (intros; (apply H0 || apply H1); [by right|..]; done).
  pose proof (H0 e ltac:(left)) as He. pose proof (fun d => H1 e d ltac:(left)) as Hd. clear H0 H1 IH.
  cbn [InitExpert_valid] in He, Hd. case_decide as Et; [|done]. destruct (2 <=? _)%nat; [|done].
  destruct (int_param e 0) as [inType|]; [|done]. cbn [mbind option_bind] in *.
  destruct (int_param e 1) as [wi|]; [|done]. cbn [mbind option_bind] in *. destruct (wi =? 0); [|done].
  destruct (_ =? 2)%nat.
  - destruct (existsb _ check) eqn:Ex; [|done]. exfalso. apply existsb_exists in Ex as (d & Hin & Hc).
    apply (Hd d); [by apply list_elem_of_In|]. cbn [existsb]. by rewrite Hc.
  - destruct (group_keys e 2) as [keys|]; [|done]. cbn [mbind option_bind] in *.
    clear He. destruct (Validate o trx 0 _) eqn:Ev; [cbn [negb]; by rewrite andb_false_r|]. exfalso.
    apply Validate_false in Ev as (r & item & Er & Hi & Hh). apply list_elem_of_fmap in Hi as (d & -> & Hf).
    apply list_elem_of_filter in Hf as [Hs Hf]. apply (Hd d Hf). rewrite filter_cons, filter_nil, decide_True by done.
    cbn [fmap list_fmap length Nat.eqb negb andb].
    assert (Validate o trx 0 [d.1.1] = false) as ->; [|done]. apply Validate_false. exists r, d.1.1.
    split_and!; [done|by apply list_elem_of_singleton|done].
Qed.

Lemma expert_valid_all t o trx objs check :
  t ∈ needValidateExpertSet ->
  (forall e, e ∈ objs -> expert_valid t o trx [e] [] = Some true) ->
  (forall e d, e ∈ objs -> d ∈ check -> expert_valid t o trx [e] [d] <> Some false) ->
  expert_valid t o trx objs check = Some true.
Proof.
  intros Ht. destruct t; first [apply valid_loop_all | apply init_valid_all | exfalso; revert Ht; by apply (bool_decide_unpack _)].
Qed.

Section Commit.
Context (stat : nat -> Z -> TRX_STAT) (opt_validation : bool) (v_obj : EXPERT_T -> input_sets).

Lemma check_trxs_pass cur t objs l opt s :
  (forall u check, (u, check) ∈ l -> expert_valid t (v_obj t) cur objs check = Some true) ->
  check_trxs stat opt_validation v_obj cur t objs l opt s = Some ((false, opt), s).
Proof.
  intros H. induction l as [|[u check] l IH]; [done|]. cbn. unfold mbind, VM_bind, lift.
  rewrite (H u check) by left. apply IH. intros u' c' Hin. apply (H u'). by right.
Qed.

Lemma do_step_validation_pass cur aobj steps opt s :
  (forall i, stat i cur <> ABORT) ->
  (forall v (m : trx_actions), (v, m) ∈ steps -> exists t objs, enum_of_int EXPERT_Ts (vs_expert v) = Some t /\ aobj !! v = Some objs /\
     forall u check, m !! u = Some check -> expert_valid t (v_obj t) cur objs check = Some true) ->
  exists s', do_step_validation stat opt_validation v_obj cur aobj steps opt s = Some ((false, opt), s') /\ aborted s' = aborted s.
Proof.
  intros Hc. revert s. induction steps as [|[v m] steps IH]; intros s H; [by eexists|].
  cbn. unfold mbind, VM_bind, read_status, lift. rewrite decide_False by apply Hc.
  destruct (H v m) as (t & objs & -> & -> & Hv); [left|].
  rewrite check_trxs_pass. 2: { intros u check Hu%elem_of_map_to_list. by apply (Hv u). }
  edestruct (IH (mk_vs (S (now s)) (aborted s))) as (s' & -> & Ha); [|by exists s'].
  intros v' m' Hin. apply H. by right.
Qed.

Lemma wait_loop_pass d n l s :
  (forall i t, t ∈ l -> stat i t = d) -> d <> VALIDATING ->
  exists s', wait_loop stat d n l s = Some (false, s') /\ aborted s' = aborted s.
Proof.
  intros H Hd. assert (forall s, exists s', wait_pass stat d l s = Some (Some [], s') /\ aborted s' = aborted s) as Hp.
  { induction l as [|t l IH]; intros s0; [by eexists|]. cbn. unfold mbind, VM_bind, read_status.
    rewrite (H (now s0) t) by left. rewrite decide_False, decide_True by done.
    edestruct IH as (s' & -> & Ha); [|by exists s']. intros i u Hu. apply H. by right. }
  destruct (Hp s) as (s' & E & Ha). exists s'. split; [|done]. destruct n; cbn [wait_loop]; unfold mbind, VM_bind; by rewrite E.
Qed.

Lemma dependency_loop_pass bad good l s :
  (forall i t, t ∈ l -> stat i t <> bad) ->
  exists r s', dependency_loop stat bad good l s = Some ((true, r), s') /\ aborted s' = aborted s /\ r ⊆ l /\
    ((forall i t, t ∈ l -> stat i t = good) -> r = []).
Proof.
  revert s. induction l as [|t l IH]; intros s H; [by eexists [], s|].
  cbn. unfold mbind, VM_bind, read_status. rewrite decide_False by (apply H; left).
  edestruct (IH (mk_vs (S (now s)) (aborted s))) as (r & s' & -> & Ha & Hr & Hg); [intros i u Hu; apply H; by right|].
  eexists _, s'. split_and!; [done|done|case_decide; set_solver|].
  intros Hgood. rewrite decide_True by (apply Hgood; left). apply Hg. intros i u Hu. apply Hgood. by right.
Qed.
End Commit.

Section Live.
Context (stat : nat -> Z -> TRX_STAT) (opt_validation : bool) (v_obj : EXPERT_T -> input_sets).

(** What a transaction that reaches validation satisfies: its steps and the
    parameters of its experts are readable, and there is a table for every kind
    of action. *)
Definition validatable (pmt : pmt_table) (logic : gmap Z QueryPlan) (qplan : QueryPlan) (qid : Z) (step : nat) (ids : list Z) : Prop :=
  recent_ids qplan step = Some ids /\ (forall p, is_Some (pmt !! p)) /\
  is_Some (process_trx logic (Z.land qid flag_8L) qid) /\
  forall e pos, occurs logic (Z.land qid flag_8L) qid e pos -> expert_type e ∈ needValidateExpertSet ->
    expert_valid (expert_type e) (v_obj (expert_type e)) (trxid qplan) [e] [] = Some true.

(** None of the recent actions conflicts with a step. *)
Definition unconflicted (pmt : pmt_table) (logic : gmap Z QueryPlan) (qplan : QueryPlan) (qid : Z) (ids : list Z) : Prop :=
  forall e pos p u w, occurs logic (Z.land qid flag_8L) qid e pos -> concerned e pos p -> recent pmt ids p u w ->
    expert_valid (expert_type e) (v_obj (expert_type e)) (trxid qplan) [e] [extract_item p w] <> Some false.

Lemma vsteps_need e pos vs v : vsteps_of e pos = Some vs -> v ∈ vs -> expert_type e ∈ needValidateExpertSet.
Proof. unfold vsteps_of. case_decide; [done|]. by intros [= <-] ?%elem_of_nil. Qed.

Lemma get_recent_action_set_total pmt ids :
  (forall p, is_Some (pmt !! p)) -> exists content, get_recent_action_set pmt ids = Some content.
Proof.
  intros H. unfold get_recent_action_set.
  destruct (mapM _ Primitives) as [all|] eqn:E; [by eexists|]. exfalso.
  apply mapM_None in E. apply Exists_exists in E as (p & _ & Ep). destruct (H p) as [r Hr].
  unfold GetRecentActionSet in Ep. by rewrite Hr in Ep.
Qed.

Lemma check_map_pass logic n qid steps aobj pmt ids content trx v (m : trx_actions) :
  process_trx logic n qid = Some (steps, aobj) -> get_recent_action_set pmt ids = Some content ->
  (forall e pos, occurs logic n qid e pos -> expert_type e ∈ needValidateExpertSet ->
    expert_valid (expert_type e) (v_obj (expert_type e)) trx [e] [] = Some true) ->
  (forall e pos p u w, occurs logic n qid e pos -> concerned e pos p -> recent pmt ids p u w ->
    expert_valid (expert_type e) (v_obj (expert_type e)) trx [e] [extract_item p w] <> Some false) ->
  check_step_map steps content !! v = Some m -> v ∈ steps ->
  exists t objs, enum_of_int EXPERT_Ts (vs_expert v) = Some t /\ aobj !! v = Some objs /\
    forall u check, m !! u = Some check -> expert_valid t (v_obj t) trx objs check = Some true.
Proof.
  intros Ht Hc H0 H1 Hm Hv. destruct (process_trx_spec _ _ _ _ _ Ht v) as (Hs1 & Hs2 & Hs3).
  destruct (proj1 Hs2 Hv) as (e0 & pos0 & vs0 & Ho0 & Hvs0 & Hv0). destruct (proj1 Hs1 Hv) as [objs Hobjs].
  exists (expert_type e0), objs. split; [by eapply vsteps_expert|]. split; [done|]. intros u check Hu.
  assert (forall e, e ∈ objs -> exists pos vs, occurs logic n qid e pos /\ vsteps_of e pos = Some vs /\ v ∈ vs /\ expert_type e = expert_type e0) as Ho.
  { intros e He. apply (Hs3 objs e Hobjs) in He as (pos & vs & Ho & Hvs & Hin). exists pos, vs. split_and!; [done..|].
    pose proof (vsteps_expert _ _ _ _ Hvs Hin) as E. rewrite (vsteps_expert _ _ _ _ Hvs0 Hv0) in E. by injection E. }
  apply expert_valid_all; [by eapply vsteps_need| |].
  - intros e He. destruct (Ho e He) as (pos & vs & Hoc & Hvs & Hin & <-). eapply H0; [done|by eapply vsteps_need].
  - intros e d He Hd. destruct (Ho e He) as (pos & vs & Hoc & Hvs & Hin & <-).
    assert (checked (check_step_map steps content) v u d) as Hch by (by exists m, check).
    apply check_step_map_checked in Hch as (_ & p & m0 & l & Hp & Hvp & Hl & Hdl).
    destruct (proj1 (get_recent_action_set_spec _ _ _ Hc p u d)) as (Hui & r & items & w & Hr & Hi & Hw & ->); [by exists m0, l|].
    eapply H1; [done|by exists vs, v|]. split; [done|]. by exists r, items.
Qed.

Lemma check_step_map_steps steps content v m : check_step_map steps content !! v = Some m -> v ∈ steps.
Proof.
  rewrite check_step_map_flat. assert (forall l check, (forall w (m : trx_actions), (w, m) ∈ l -> w ∈ steps) ->
    (forall w m, (check : gmap vstep_t trx_actions) !! w = Some m -> w ∈ steps) ->
    foldl (fun check vm => add_actions check vm.2 vm.1) check l !! v = Some m -> v ∈ steps) as H.
  { induction l as [|[w m'] l IH]; intros check Hl Hc; cbn; [apply Hc|]. apply IH; [intros ???; eapply Hl; by right|].
    intros w' m1. unfold add_actions. destruct (decide (w = w')) as [<-|].
    - intros _. eapply Hl. left.
    - rewrite lookup_insert_ne by done. apply Hc. }
  apply H; [|by intros w ?; rewrite lookup_empty]. unfold step_actions. intros w m' Hin.
  apply list_elem_of_bind in Hin as (pm & Hin & _). apply list_elem_of_fmap in Hin as (w' & [= -> _] & Hw).
  apply elem_of_elements in Hw. set_solver.
Qed.

(** Without a conflict, and with its dependencies settled well, a transaction is
    committed. *)
Lemma decision_live lvl pmt logic homo hetero qplan qid step ids s :
  validatable pmt logic qplan qid step ids -> unconflicted pmt logic qplan qid ids ->
  (forall i, stat i (trxid qplan) <> ABORT) ->
  (forall i t, t ∈ homo -> stat i t = COMMITTED) -> (forall i t, t ∈ hetero -> stat i t <> COMMITTED) ->
  exists s', process_decision stat opt_validation v_obj lvl pmt logic homo hetero qplan qid step s = Some (false, s') /\
    aborted s' = aborted s.
Proof.
  intros (Hids & Hp & [[steps aobj] Ht] & H0) H1 Hc Hho Hhe. unfold process_decision.
  case_decide; [by exists s|].
  assert (forall s, exists s', validate stat opt_validation v_obj pmt logic qplan qid step s = Some (false, s') /\ aborted s' = aborted s) as Hval.
  { intros s0. unfold recent_ids in Hids. destruct (experts qplan !! step) as [obj|] eqn:Eo; [|done]. cbn [mbind option_bind] in Hids.
    destruct (get_recent_action_set_total pmt ids Hp) as [content Ec].
    unfold validate, mbind, VM_bind, lift. rewrite Eo, Hids, Ht, Ec. destruct (_ =? 0)%nat; [by exists s0|].
    edestruct (do_step_validation_pass stat opt_validation v_obj (trxid qplan) aobj (map_to_list (check_step_map steps content)) [] s0)
      as (s' & -> & Ha); [done| |by exists s'].
    intros v m Hin%elem_of_map_to_list. eapply check_map_pass; [done..|]. by eapply check_step_map_steps. }
  assert (exists r s1, (if trx_type qplan =? TRX_READONLY then
         ab ← valid_optimistic_read stat homo;
         if ab : bool then _ ← update_abort (trxid qplan); mret (true, homo) else mret (false, [])
       else
         '(ok, homo) ← valid_dependency_read stat homo hetero;
         if ok : bool then mret (false, homo) else _ ← update_abort (trxid qplan); mret (true, homo)) s = Some ((false, r), s1) /\
    aborted s1 = aborted s /\ r = []) as (r & s1 & E & Ha & ->).
  { unfold mbind, VM_bind. destruct (trx_type qplan =? TRX_READONLY).
    - destruct (wait_loop_pass stat COMMITTED OPT_VALID_TIMEOUT homo s) as (s1 & E & Ha); [done..|].
      unfold valid_optimistic_read. rewrite E. by eexists [], s1.
    - unfold valid_dependency_read, mbind, VM_bind.
      destruct (dependency_loop_pass stat ABORT COMMITTED homo s) as (r & s1 & -> & Ha & _ & Hr).
      { intros i t Hin. by rewrite (Hho i t Hin). }
      destruct (dependency_loop_pass stat COMMITTED ABORT hetero s1 Hhe) as (r2 & s2 & -> & Ha2 & _).
      eexists _, s2. split_and!; [done|congruence|]. by apply Hr. }
  unfold mbind at 1, VM_bind at 1. rewrite E. unfold mbind, VM_bind. destruct (Hval s1) as (s2 & -> & Ha2).
  exists s2. split; [done|]. congruence.
Qed.
End Live.


(** Validation does not abort without a reason: when no recent action
    conflicts with a step, the transactions that were read ahead have committed,
    those that were passed over have not, and nobody has aborted the
    transaction, the decision is to commit, and no abort is written. *)
Theorem unconflicted_commits stat opt_validation v_obj lvl pmt logic homo hetero qplan qid step ids s :
  validatable v_obj pmt logic qplan qid step ids -> unconflicted v_obj pmt logic qplan qid ids ->
  (forall i, stat i (trxid qplan) <> ABORT) ->
  (forall i t, t ∈ homo -> stat i t = COMMITTED) -> (forall i t, t ∈ hetero -> stat i t <> COMMITTED) ->
  exists s', process_decision stat opt_validation v_obj lvl pmt logic homo hetero qplan qid step s = Some (false, s') /\
    aborted s' = aborted s.
Proof. apply decision_live. Qed.

(** ** Reads that validation does not see *)

(** A traversal from vertices and a start from the index. *)
Inductive blind (e : Expert_Object) : Prop :=
| blind_traversal :
    expert_type e = E_TRAVERSAL -> int_param e 0 = Some (element_int VERTEX) -> blind e
| blind_index inType keys :
    expert_type e = E_INIT -> (2 < length (params e))%nat -> int_param e 0 = Some inType -> int_param e 1 = Some 0 ->
    group_keys e 2 = Some keys -> Forall (fits 12) keys -> blind e.

Lemma blind_need e : blind e -> expert_type e ∈ needValidateExpertSet /\ expert_type e <> E_HAS.
Proof. intros []; rewrite H; split; (done || by apply needs_validation). Qed.

Lemma blind_valid e o trx check :
  blind e -> Forall (fun d => d.2 = EDGE \/ expert_type e <> E_TRAVERSAL) check ->
  Forall (fun d => d.1.2 = -1 \/ expert_type e <> E_INIT) check ->
  expert_valid (expert_type e) o trx [e] check = Some true.
Proof.
  intros Hb He Hi. destruct Hb as [Et H0|inType keys Et Hl H0 H1 Hk Hf]; rewrite Et in *; cbn [expert_valid].
  - unfold TraversalExpert_valid. cbn [valid_loop]. rewrite decide_True by done. unfold traversal_select. rewrite H0.
    cbn [mbind option_bind]. rewrite filter_none; [done|]. eapply Forall_impl; [exact He|]. intros [[i k] t] [Ht|]; [|done]. cbn in Ht. subst. cbn. by rewrite andb_false_r.
  - cbn [InitExpert_valid]. rewrite decide_True by done. rewrite (proj2 (Nat.leb_le 2 _)) by lia. rewrite H0. cbn [mbind option_bind].
    rewrite H1. cbn [mbind option_bind Z.eqb]. rewrite (proj2 (Nat.eqb_neq _ 2)) by lia. rewrite Hk. cbn [mbind option_bind].
    rewrite filter_none; [done|]. eapply Forall_impl; [exact Hi|]. intros [[i k] t] [Hd|]; [|done]. cbn in Hd. subst.
    unfold concerns. intros [Hm _]%andb_true_iff. apply existsb_exists in Hm as (k' & Hin & <-%Z.eqb_eq).
    apply list_elem_of_In in Hin. rewrite Forall_forall in Hf. apply Hf in Hin. unfold fits in Hin. lia.
Qed.

Lemma blind_concerned e pos p :
  blind e -> concerned e pos p ->
  (expert_type e = E_TRAVERSAL /\ p ∈ [IEP; DEP]) \/ (expert_type e = E_INIT /\ p ∈ [IV; DV; IE; DE]).
Proof.
  intros Hb (vs & v & Hvs & Hv & Hp). destruct (blind_need e Hb) as [Hn Hh]. rewrite vsteps_of_plain in Hvs by done.
  injection Hvs as <-. apply list_elem_of_singleton in Hv as ->. assert (bool_decide (get_vstep e pos ∈ primitiveStepMap p) = true) as Hd by (by apply bool_decide_eq_true).
  unfold get_vstep in Hd. destruct Hb as [Et _|? ? Et _ _ _ _ _]; rewrite Et in *; [left|right]; (split; [done|]);
    destruct p; (by apply (bool_decide_unpack _); vm_compute) || (exfalso; revert Hd; by vm_compute).
Qed.

(** C39: traversals from vertices and starts from the index are not validated: a
    transaction whose validated steps are all of these kinds commits whatever
    edges and vertices the recent transactions have added or dropped, and
    whatever properties they have changed. *)
Theorem blind_reads_commit stat opt_validation v_obj lvl pmt logic homo hetero qplan qid step ids s :
  recent_ids qplan step = Some ids -> (forall p, is_Some (pmt !! p)) ->
  is_Some (process_trx logic (Z.land qid flag_8L) qid) ->
  (forall e pos, occurs logic (Z.land qid flag_8L) qid e pos -> expert_type e ∈ needValidateExpertSet -> blind e) ->
  (forall i, stat i (trxid qplan) <> ABORT) ->
  (forall i t, t ∈ homo -> stat i t = COMMITTED) -> (forall i t, t ∈ hetero -> stat i t <> COMMITTED) ->
  exists s', process_decision stat opt_validation v_obj lvl pmt logic homo hetero qplan qid step s = Some (false, s').
Proof.
  intros Hi Hp Ht Hb Hs Hho Hhe.
  destruct (decision_live stat opt_validation v_obj lvl pmt logic homo hetero qplan qid step ids s) as (s' & E & _); try done; [..|by exists s'].
  - split_and!; [done..|]. intros e pos Ho Hn. apply blind_valid; [by eapply Hb|constructor|constructor].
  - intros e pos p u w Ho Hc Hr. assert (blind e) as Hbe.
    { destruct Hc as (vs & v & Hvs & Hv & _). eapply Hb; [done|]. by eapply vsteps_need. }
    rewrite blind_valid; [done|done|..]; apply Forall_singleton;
      destruct (blind_concerned e pos p Hbe Hc) as [[-> Hin]|[-> Hin]]; try (by right); left;
      set_unfold in Hin; destruct_or! Hin; by subst.
Qed.

(** ** Examples *)

Definition ex_int (i : Z) : value_t := int2value_t i value_default.
(** Transaction 100 reads property 5 of vertex 7, transaction 200 changes it and
    adds the edge from 7 to 8. *)
Definition ex_values : Expert_Object := mk_expert E_VALUES 2 3 false [ex_int 0; ex_int 5].
Definition ex_out : Expert_Object := mk_expert E_TRAVERSAL 1 2 false [ex_int 0; ex_int 1; ex_int 0].
Definition ex_end : Expert_Object := mk_expert E_END 3 4 false [].
Definition ex_logic (es : list Expert_Object) : gmap Z QueryPlan := {[ 0 := mk_plan 0 es true 1 100 5 ]}.
Definition ex_qplan : QueryPlan :=
  mk_plan 1 [mk_expert E_VALIDATION 0 1 false [uint64_t2value_t 200 value_default]] false 1 100 5.
Definition ex_pmt : pmt_table :=
  default ∅ (pmt_run pmt_init [Record_actions MVP 200 [vpid_t2uint (mk_vpid 7 5)]; Record_actions IE 200 [eid_t2uint (mk_eid 8 7)]]).
Definition ex_sets (_ : EXPERT_T) : input_sets := RecordInputSet no_sets 100 2 [7] false.
(** Transaction 200 is validating, and aborts while 100 waits for it. *)
Definition ex_stat (i : nat) (t : Z) : TRX_STAT :=
  if t =? 200 then if (i <? 2)%nat then VALIDATING else ABORT else VALIDATING.
Definition ex_committed (i : nat) (t : Z) : TRX_STAT := if t =? 200 then COMMITTED else VALIDATING.

Lemma ex_occurs es e pos : occurs (ex_logic es) (Z.land 1 flag_8L) 1 e pos -> exists k, es !! k = Some e /\ pos = Z.of_nat k + 1.
Proof.
  intros (i & plan & k & Hi & Hp & Hk & ->). change (Z.land 1 flag_8L) with 1 in Hi. assert (i = 0%nat) as -> by lia.
  unfold ex_logic in Hp. change (query_qid 1 0) with 0 in Hp. rewrite lookup_singleton_eq in Hp. injection Hp as <-. by exists k.
Qed.

Lemma ex_run_commits :
  process_decision ex_stat true ex_sets SERIALIZABLE ex_pmt (ex_logic [ex_values]) [] [] ex_qplan 1 0 (mk_vs 0 []) =
    Some (false, mk_vs 3 []).
Proof. vm_compute. reflexivity. Qed.
Lemma ex_stat_settled : settled ex_stat.
Proof.
  intros i j t Hij. unfold ex_stat. destruct (t =? 200); [|done]. destruct (Nat.ltb_spec i 2); [naive_solver|].
  by rewrite (proj2 (Nat.ltb_ge j 2)) by lia.
Qed.
Lemma ex_recent_ids : recent_ids ex_qplan 0 = Some [200].
Proof. vm_compute. reflexivity. Qed.
Lemma ex_values_occurs : occurs (ex_logic [ex_values]) (Z.land 1 flag_8L) 1 ex_values 1.
Proof.
  exists 0%nat, (mk_plan 0 [ex_values] true 1 100 5), 0%nat. split_and!; [by vm_compute|vm_compute; reflexivity|done|done].
Qed.
Lemma ex_values_reads : reads ex_sets 100 ex_values 1 MVP (vpid_t2uint (mk_vpid 7 5)).
Proof.
  apply (reads_property _ _ _ _ _ _ VERTEX 5 7).
  - vm_compute; reflexivity.
  - apply (reads_values _ _ _ _ [5]); [cbn; set_solver|vm_compute; reflexivity|set_solver].
  - split; [set_solver|]. exists (mk_vpid 7 5). split_and!; [split; by vm_compute|done..].
  - exists (mk_rec [7] false). split; [vm_compute; reflexivity|]. right. left.
Qed.
Lemma ex_recent : recent ex_pmt [200] MVP 200 (vpid_t2uint (mk_vpid 7 5)).
Proof.
  split; [set_solver|].
  exists {[ 200 := {[ vpid_t2uint (mk_vpid 7 5) ]} ]}, {[ vpid_t2uint (mk_vpid 7 5) ]}.
  split_and!; [vm_compute; reflexivity|vm_compute; reflexivity|set_solver].
Qed.


Lemma ex_pmt_total p : is_Some (ex_pmt !! p).
Proof. destruct p; vm_compute; by eexists. Qed.
Lemma ex_validatable es :
  is_Some (process_trx (ex_logic es) (Z.land 1 flag_8L) 1) ->
  (forall e, e ∈ es -> expert_type e ∈ needValidateExpertSet -> expert_valid (expert_type e) no_sets 100 [e] [] = Some true) ->
  validatable (fun _ => no_sets) ex_pmt (ex_logic es) ex_qplan 1 0 [200].
Proof.
  intros Ht He. split_and!; [exact ex_recent_ids|exact ex_pmt_total|done|].
  intros e pos Ho Hn. apply ex_occurs in Ho as (k & Hk & _). apply He; [by eapply list_elem_of_lookup_2|done].
Qed.
Lemma ex_unconflicted : unconflicted (fun _ => no_sets) ex_pmt (ex_logic [ex_values]) ex_qplan 1 [200].
Proof.
  intros e pos p u w Ho _ _. apply ex_occurs in Ho as (k & Hk & _). destruct k; [|done]. injection Hk as <-.
  change (expert_type ex_values) with E_VALUES. cbn [expert_valid]. unfold ValuesExpert_valid. cbn [valid_loop].
  case_decide; [|done]. destruct (keys_select ex_values); [|done]. cbn [mbind option_bind].
  destruct (Validate no_sets _ _ _) eqn:Ev; [cbn [negb]; by rewrite andb_false_r|].
  apply Validate_false in Ev as (r & ? & Er & _). exfalso. revert Er. by vm_compute.
Qed.

Lemma ex_process_trx es : es ∈ [[ex_values]; [ex_out; ex_end]] -> is_Some (process_trx (ex_logic es) (Z.land 1 flag_8L) 1).
Proof. intros Hes. set_unfold in Hes. destruct Hes as [->|[->|[]]]; vm_compute; by eexists. Qed.

Lemma unconflicted_commits_witness :
  exists s', process_decision ex_committed true (fun _ => no_sets) SERIALIZABLE ex_pmt (ex_logic [ex_values]) [] [] ex_qplan 1 0 (mk_vs 0 []) =
    Some (false, s') /\ aborted s' = [].
Proof.
  refine (unconflicted_commits ex_committed true (fun _ => no_sets) SERIALIZABLE ex_pmt (ex_logic [ex_values]) [] [] ex_qplan 1 0 [200] (mk_vs 0 [])
    _ ex_unconflicted _ _ _).
  - apply ex_validatable; [apply ex_process_trx; left|]. intros e ->%list_elem_of_singleton _. vm_compute. reflexivity.
  - intros i. discriminate.
  - intros i t Ht. by apply elem_of_nil in Ht.
  - intros i t Ht. by apply elem_of_nil in Ht.
Defined.

Lemma ex_blind e pos :
  occurs (ex_logic [ex_out; ex_end]) (Z.land 1 flag_8L) 1 e pos -> expert_type e ∈ needValidateExpertSet -> blind e.
Proof.
  intros Ho Hn. apply ex_occurs in Ho as (k & Hk & _). destruct k as [|[|k]]; [..|done]; injection Hk as <-.
  - by apply blind_traversal.
  - exfalso. revert Hn. by apply (bool_decide_unpack _).
Qed.

Lemma blind_reads_commit_witness :
  exists s', process_decision ex_committed true ex_sets SERIALIZABLE ex_pmt (ex_logic [ex_out; ex_end]) [] [] ex_qplan 1 0 (mk_vs 0 []) =
    Some (false, s').
Proof.
  refine (blind_reads_commit ex_committed true ex_sets SERIALIZABLE ex_pmt (ex_logic [ex_out; ex_end]) [] [] ex_qplan 1 0 [200] (mk_vs 0 [])
    ex_recent_ids ex_pmt_total _ ex_blind _ _ _).
  - apply ex_process_trx. right. left.
  - intros i. discriminate.
  - intros i t Ht. by apply elem_of_nil in Ht.
  - intros i t Ht. by apply elem_of_nil in Ht.
Defined.
