(* ===== verification/TrxStub.v ===== *)
(** * core/trx_table_stub*: access to the transaction tables of other workers

    A worker reads the state of a transaction from the table of the worker
    that coordinates it: from its own memory, bucket by bucket with one-sided
    RDMA reads, or with a request over TCP that the owner answers.  An RDMA
    read of a bucket sees the table as it is at that moment, so a walk over a
    chain takes a sequence of tables.  [None] is a failed [CHECK] or a value
    outside of the enumeration; [Some None] is the result [false]. *)
From S2P Require Import Prelude MyMath Types Serialization TrxStatus Coordinator.
Local Open Scope Z_scope.

(** ** Reads by RDMA *)

Inductive scan_result := Found (e : TidStatus) | NotFound | NextBucket (b : nat).

(** The loop over the slots of a bucket (core/trx_table_stub_rdma.cpp:63-80):
    the last slot holds the link. *)
Fixpoint scan_bucket (buf : list TidStatus) (t : Z) : option scan_result :=
  match buf with
  | [] => None
  | [e] => Some (if trx_id e =? 0 then NotFound else NextBucket (Z.to_nat (trx_id e)))
  | e :: buf' => if trx_id e =? t then Some (Found e) else scan_bucket buf' t
  end.

(** The bucket that a read at its offset copies. *)
Definition RdmaRead (tbl : list TidStatus) (b : nat) : option (list TidStatus) :=
  let buf := take ASSOCIATIVITY (drop (b * ASSOCIATIVITY) tbl) in
  if (length buf =? ASSOCIATIVITY)%nat then Some buf else None.

(** The outer loop of [read_status] (core/trx_table_stub_rdma.cpp:52-81): the
    [k]-th read sees the table [mem k]; the fuel bounds the buckets of a
    chain. *)
Fixpoint rdma_walk (mem : nat -> list TidStatus) (fuel k b : nat) (t : Z) : option (option TidStatus) :=
  match fuel with
  | O => None
  | S f =>
      buf ← RdmaRead (mem k) b;
      r ← scan_bucket buf t;
      match r with
      | Found e => Some (Some e)
      | NotFound => Some None
      | NextBucket b' => rdma_walk mem f (S k) b' t
      end
  end.

(** The walk from the home bucket, [main] being [trx_num_main_buckets_]. *)
Definition rdma_find (main indirect : nat) (mem : nat -> list TidStatus) (t : Z)
    : option (option TidStatus) :=
  rdma_walk mem (S (main + indirect)) 0 (Z.to_nat (TrxIDHash t mod Z.of_nat main)) t.

(** [RDMATrxTableStub::read_status] (core/trx_table_stub_rdma.cpp:40-82): [own]
    is the table of the worker itself. *)
Definition rdma_read_status (rank size : Z) (own : TrxTable) (main indirect : nat)
    (mem : nat -> list TidStatus) (t : Z) : option (option TRX_STAT) :=
  w ← GetWorkerFromTrxID size t;
  if w =? rank then query_status own t
  else
    r ← rdma_find main indirect mem t;
    match r with Some e => s ← getState e; Some (Some s) | None => Some None end.

(** Both queries of the local branch of [read_ct]
    (core/trx_table_stub_rdma.cpp:88-92). *)
Definition query_both (st : TrxTable) (t : Z) : option (option (TRX_STAT * Z)) :=
  s ← query_status st t; c ← query_ct st t;
  Some (match s, c with Some s, Some c => Some (s, c) | _, _ => None end).

(** [RDMATrxTableStub::read_ct] (core/trx_table_stub_rdma.cpp:84-132). *)
Definition rdma_read_ct (rank size : Z) (own : TrxTable) (main indirect : nat)
    (mem : nat -> list TidStatus) (t : Z) : option (option (TRX_STAT * Z)) :=
  w ← GetWorkerFromTrxID size t;
  if w =? rank then query_both own t
  else
    r ← rdma_find main indirect mem t;
    match r with
    | Some e =>
        s ← getState e;
        match s with
        | COMMITTED | VALIDATING => c ← getCT e; Some (Some (s, c))
        | _ => Some (Some (s, 0))
        end
    | None => Some None
    end.

(** ** Requests over TCP *)

(** The enumerators as integers (base/type.hpp:53-53). *)
Definition stat_to_int (s : TRX_STAT) : Z :=
  match s with PROCESSING => 0 | VALIDATING => 1 | ABORT => 2 | COMMITTED => 3 end.
Definition stat_of_int (i : Z) : option TRX_STAT :=
  match i with 0 => Some PROCESSING | 1 => Some VALIDATING | 2 => Some ABORT
  | 3 => Some COMMITTED | _ => None end.

(** [ReadTrxStatusReq] (core/common.hpp:126-140). *)
Record ReadTrxStatusReq := mk_read_req { rd_n_id : Z; rd_t_id : Z; rd_trx_id : Z; rd_ct : bool }.

(** The request of a reader (core/trx_table_stub_zmq.cpp:80-81, 108-109). *)
Definition put_read_req (r : ReadTrxStatusReq) : list Z :=
  put_int (rd_n_id r) ++ put_int (rd_t_id r) ++ put_ull (rd_trx_id r) ++ put_bool (rd_ct r).

(** [Coordinator::ListenTCPTrxReads] (core/coordinator.cpp:278-293). *)
Definition ListenTCPTrxReads : getter ReadTrxStatusReq :=
  n ← get_int; t ← get_int; x ← get_ull; c ← get_bool; mret (mk_read_req n t x c).

(** [Coordinator::ProcessTCPTrxReads] (core/coordinator.cpp:295-322): the
    results of the queries are dropped; [junk_ct] and [junk_status] are the
    contents of the variables that a failed query leaves unset. *)
Definition ProcessTCPTrxReads (st : TrxTable) (junk_ct junk_status : Z) (req : ReadTrxStatusReq)
    : option (list Z) :=
  if rd_ct req then
    c ← query_ct st (rd_trx_id req);
    s ← query_status st (rd_trx_id req);
    Some (put_ull (default junk_ct c) ++ put_int (default junk_status (stat_to_int <$> s)))
  else
    s ← query_status st (rd_trx_id req);
    Some (put_int (default junk_status (stat_to_int <$> s))).

(** A request as it passes the listener. *)
Definition serve (st : TrxTable) (junk_ct junk_status : Z) (bytes : list Z) : option (list Z) :=
  '(req, _) ← ListenTCPTrxReads (mk_ob bytes 0);
  ProcessTCPTrxReads st junk_ct junk_status req.

(** [TcpTrxTableStub::read_status] (core/trx_table_stub_zmq.cpp:69-93): [owner]
    is the table of the worker that coordinates the transaction. *)
Definition tcp_read_status (rank size t_id : Z) (own owner : TrxTable) (junk_ct junk_status : Z) (t : Z)
    : option (option TRX_STAT) :=
  w ← GetWorkerFromTrxID size t;
  if w =? rank then query_status own t
  else
    bytes ← serve owner junk_ct junk_status (put_read_req (mk_read_req rank t_id t false));
    '(i, _) ← get_int (mk_ob bytes 0);
    s ← stat_of_int i;
    Some (Some s).

(** [TcpTrxTableStub::read_ct] (core/trx_table_stub_zmq.cpp:95-125). *)
Definition tcp_read_ct (rank size t_id : Z) (own owner : TrxTable) (junk_ct junk_status : Z) (t : Z)
    : option (option (TRX_STAT * Z)) :=
  w ← GetWorkerFromTrxID size t;
  if w =? rank then query_both own t
  else
    bytes ← serve owner junk_ct junk_status (put_read_req (mk_read_req rank t_id t true));
    '(r, _) ← (c ← get_ull; i ← get_int; mret (c, i)) (mk_ob bytes 0);
    s ← stat_of_int r.2;
    Some (Some (s, r.1)).

(** ** Updates of a status *)

(** [UpdateTrxStatusReq] (core/common.hpp:119-124). *)
Record UpdateTrxStatusReq := mk_upd { up_n_id : Z; up_trx_id : Z; up_status : TRX_STAT; up_ro : bool }.

(** [NOTIFICATION_TYPE] (base/type.hpp:81-85) *)
Definition UPDATE_STATUS : Z := 0.
Definition RCT_TIDS : Z := 1.
Definition QUERY_RCT : Z := 2.

(** What [update_status] does: it queues the request or sends a notification. *)
Inductive update_action := Push (r : UpdateTrxStatusReq) | SendNotification (w : Z) (bytes : list Z).

(** [TcpTrxTableStub::update_status] (core/trx_table_stub_zmq.cpp:48-67), which
    the RDMA stub repeats. *)
Definition update_status (rank size t : Z) (new_status : TRX_STAT) (ro : bool) : option update_action :=
  if bool_decide (new_status = VALIDATING) then None
  else
    w ← GetWorkerFromTrxID size t;
    if w =? rank then Some (Push (mk_upd rank t new_status ro))
    else Some (SendNotification w (put_int UPDATE_STATUS ++ put_int rank ++ put_ull t ++
                 put_int (stat_to_int new_status) ++ put_bool ro)).

(** The branch of [Worker::RecvNotification] for status updates
    (driver/worker.hpp:957-981). *)
Definition recv_update (bytes : list Z) : option UpdateTrxStatusReq :=
  '((ty, (n, t, i, ro)), _) ← (ty ← get_int; n ← get_int; t ← get_ull; i ← get_int; ro ← get_bool;
                               mret (ty, (n, t, i, ro))) (mk_ob bytes 0);
  if ty =? UPDATE_STATUS then
    if i =? stat_to_int VALIDATING then None
    else s ← stat_of_int i; Some (mk_upd n t s ro)
  else None.

(** [Coordinator::ProcessTrxTableWriteReqs] (core/coordinator.cpp:266-276), one
    request. *)
Definition ProcessTrxTableWriteReq (st : TrxTable) (r : UpdateTrxStatusReq) : option TrxTable :=
  if bool_decide (up_status r = VALIDATING) then None
  else '(_, st') ← modify_status st (up_trx_id r) (up_status r); Some st'.

(** ** What a chain looks like while the table changes *)

(** The ids of a bucket's slots, its links included, are those of the slots
    before, except that a slot may be taken over from another transaction. *)
Definition ids_kept (st st' : TrxTable) : Prop :=
  main_buckets st' = main_buckets st /\ indirect_buckets st' = indirect_buckets st /\
  forall s, trx_id <$> table st' !! s = trx_id <$> table st !! s.

Definition evolves (st st' : TrxTable) : Prop :=
  main_buckets st' = main_buckets st /\ indirect_buckets st' = indirect_buckets st /\
  (forall c e, table st !! link_slot c = Some e -> trx_id e <> 0 ->
     exists e', table st' !! link_slot c = Some e' /\ trx_id e' = trx_id e) /\
  (forall b i e e', (i < ASSOCIATIVITY - 1)%nat -> table st !! slot b i = Some e -> trx_id e <> 0 ->
     holds st' (trx_id e) e' ->
     exists e', table st' !! slot b i = Some e' /\ trx_id e' = trx_id e).

Lemma evolves_refl st : evolves st st.
Proof. split_and!; eauto. Qed.

Lemma ids_kept_evolves st st' : ids_kept st st' -> evolves st st'.
Proof.
  intros (Hm & Hi & H). assert (forall s e, table st !! s = Some e ->
    exists e', table st' !! s = Some e' /\ trx_id e' = trx_id e) as Hs.
  { intros s e He. specialize (H s). rewrite He in H. cbn in H.
    apply fmap_Some in H as (e' & ? & ?). eauto. }
  split_and!; eauto.
Qed.

Lemma ids_kept_insert st s e e' : table st !! s = Some e -> trx_id e' = trx_id e ->
  ids_kept st (with_table st (<[s := e']> (table st))).
Proof.
  intros He Hid. split_and!; [done..|]. intros s'. cbn.
  destruct (decide (s' = s)) as [->|Hne]; [|by rewrite list_lookup_insert_ne].
  rewrite list_lookup_insert_eq by (by eapply lookup_lt_Some). rewrite He. cbn. by f_equal.
Qed.

Lemma ids_kept_trans a b c : ids_kept a b -> ids_kept b c -> ids_kept a c.
Proof.
  intros (? & ? & H1) (? & ? & H2). split_and!; [congruence..|]. intros s. by rewrite H2, H1.
Qed.

Lemma update_ids st t f b st' :
  (forall e e', f e = Some e' -> trx_id e' = trx_id e) ->
  update_trx st t f = Some (b, st') -> ids_kept st st'.
Proof.
  intros Hf Hu. unfold update_trx in Hu. destruct (find_trx st t) as [[s|]|]; [..|done];
    cbn [mbind option_bind] in Hu; [|by simplify_eq].
  destruct (table st !! s) as [e|] eqn:He; [|done]. cbn [mbind option_bind] in Hu.
  destruct (f e) as [e'|] eqn:Hfe; [|done]. cbn [mbind option_bind] in Hu. simplify_eq.
  apply (ids_kept_insert st s e e'); [done|by apply Hf].
Qed.

Lemma apply_status_id e s e' : apply_status e s = Some e' -> trx_id e' = trx_id e.
Proof.
  unfold apply_status. destruct (getState e); [|done]. cbn [mbind option_bind].
  destruct s; unfold enterValidationState, enterAbortState, enterCommitState;
    repeat case_match; intros; by simplify_eq.
Qed.

Lemma enterCommitTime_id e c e' : enterCommitTime e c = Some e' -> trx_id e' = trx_id e.
Proof. unfold enterCommitTime. case_match; intros; by simplify_eq. Qed.

Lemma erase_ids l m tbl ids l' tbl' ids' :
  erase l m tbl ids = Some (l', tbl', ids') -> forall s, trx_id <$> tbl' !! s = trx_id <$> tbl !! s.
Proof.
  revert tbl ids. induction l as [|[ts p] l IH]; intros tbl ids He s; [by simplify_eq/=|].
  destruct l as [|n1 [|n2 l]]; [by simplify_eq/=..|]. cbn [erase] in He.
  destruct (m <=? ts); [by simplify_eq/=|].
  destruct p as [s0|]; [|done]. cbn [mbind option_bind] in He.
  destruct (tbl !! s0) as [e|] eqn:Hs0; [|done]. cbn [mbind option_bind] in He.
  rewrite (IH _ _ He s). destruct (decide (s = s0)) as [->|Hne].
  - rewrite list_lookup_insert_eq, Hs0 by (by eapply lookup_lt_Some). done.
  - by rewrite list_lookup_insert_ne by done.
Qed.

(** Taking over a slot: the transactions that are still there have not moved. *)
Lemma put_entry_evolves st b i t e :
  table_ok st -> (i < ASSOCIATIVITY - 1)%nat -> table st !! slot b i = Some e -> trx_map st !! t = None ->
  t <> 0 -> evolves st (put_entry st b i t).
Proof.
  intros Hok Hi He Hn Ht. split_and!; [done|done|..].
  - intros c x Hx Hx0. exists x. cbn. by rewrite lookup_insert_link.
  - intros c j x x' Hj Hx Hx0 (c' & j' & Hj' & Hx' & Hid). cbn in Hx' |- *.
    destruct (decide ((c, j) = (b, i))) as [[= -> ->]|Hne].
    2:{ exists x. rewrite lookup_insert_slot; [done|slot_lia|slot_lia|congruence]. }
    exfalso. apply lookup_insert_cases in Hx'; [|slot_lia..].
    destruct Hx' as [(-> & -> & ->)|[Hne Hx']].
    + cbn in Hid. assert (trx_map st !! t = Some x); [|congruence]. apply trx_map_lookup; [done|].
      split; [|done]. exists b, i. split_and!; [done|done|congruence].
    + pose proof (ok_unique st Hok _ _ _ _ _ _ Hj Hj' Hx Hx' Hx0 ltac:(congruence)) as Hs.
      apply slot_inj in Hs as [-> ->]; [done|slot_lia..].
Qed.

Lemma with_bucket_evolves st b l :
  table_ok st -> (b < total_buckets st)%nat -> table st !! link_slot b = Some l -> trx_id l = 0 ->
  evolves st (with_bucket st b l).
Proof.
  intros Hok Hb Hl Hl0. split_and!; [done|done|..].
  - intros c x Hx Hx0. exists x. split; [|done]. cbn.
    destruct (decide (c = b)) as [->|Hne]; [congruence|].
    rewrite <- Hx. apply list_lookup_insert_ne. slot_lia.
  - intros c j x x' Hj Hx Hx0 _. exists x. split; [|done]. cbn. rewrite <- Hx.
    apply list_lookup_insert_ne. slot_lia.
Qed.

(** A reader that goes on in the table after both steps. *)
Lemma insert_evolves st t bt ro st' :
  table_inv st -> t <> 0 -> trx_map st !! t = None -> inserted st t bt ro st' -> evolves st st'.
Proof.
  intros [Hok _] Ht Hn Hins. destruct Hins as [b i e Hi Hr He Hfree|b l Hr Hl Hl0 Hcap].
  - pose proof (put_entry_evolves st b i t e Hok Hi He Hn Ht). by destruct ro.
  - pose proof (ok_ext st Hok). pose proof (home_allocated st t b Hok Hr) as Hb.
    assert (b < total_buckets st)%nat as Hbt by (unfold total_buckets; lia).
    destruct (slot_is_Some st (main_buckets st + last_ext st) 0 Hok) as [x Hx]; [slot_lia..|].
    pose proof (ok_blank st Hok (main_buckets st + last_ext st) 0%nat x ltac:(lia) ltac:(unfold ASSOCIATIVITY; lia) Hx) as ->.
    assert (table (put_entry (with_bucket st b l) (main_buckets st + last_ext st) 0 t) !!
      link_slot b = Some (set_link l (main_buckets st + last_ext st))) as Hlink.
    { cbn. rewrite lookup_insert_link by slot_lia. rewrite list_lookup_insert_eq; [done|].
      by eapply lookup_lt_Some. }
    split_and!; [done|done|..].
    + intros c y Hy Hy0. exists y. split; [|done]. cbn. rewrite lookup_insert_link by slot_lia.
      destruct (decide (c = b)) as [->|Hne]; [congruence|].
      rewrite <- Hy. apply list_lookup_insert_ne. slot_lia.
    + intros c j y y' Hj Hy Hy0 _. exists y. split; [|done]. cbn. rewrite <- Hy.
      rewrite lookup_insert_slot; [apply list_lookup_insert_ne; slot_lia|slot_lia|slot_lia|].
      intros [= <- <-]. rewrite Hx in Hy. simplify_eq.
Qed.

Lemma table_step_evolves st st' : table_inv st -> table_step st st' -> evolves st st'.
Proof.
  intros Hinv Hs. destruct Hs as [st t bt ro st' Hv Hn Hi|st t s r st' H|st t s c r st' H|
    st t et st' Hv Hsome H|st m v ids st' H].
  - pose proof (insert_single_trx_spec st t bt ro Hinv Hv Hn) as Hsp. rewrite Hi in Hsp.
    apply (insert_evolves st t bt ro); [done|by apply valid_nonzero|done|apply Hsp].
  - apply ids_kept_evolves, (update_ids st t (fun e => apply_status e s) r); [|done].
    intros e e'. apply apply_status_id.
  - apply ids_kept_evolves. unfold modify_status_ct in H.
    destruct (register_ct st t c) as [[ok st1]|] eqn:Hrc; [|done]. cbn in H.
    assert (ids_kept st st1) as H1.
    { apply (update_ids st t (fun e => enterCommitTime e c) ok); [|done].
      intros e e'. apply enterCommitTime_id. }
    destruct ok; [|by simplify_eq]. eapply ids_kept_trans; [done|].
    apply (update_ids st1 t (fun e => apply_status e s) r); [|done]. intros e e'. apply apply_status_id.
  - apply ids_kept_evolves. unfold record_nro_trx_with_et in H.
    destruct (find_trx st t); [|done]. cbn [mbind option_bind] in H. by simplify_eq.
  - apply ids_kept_evolves. unfold erase_trx_via_min_bt in H.
    destruct (erase (ro_trxs st) m (table st) None) as [[[ro tbl] i1]|] eqn:E1; [|done].
    cbn [mbind option_bind] in H.
    destruct (erase (nro_trxs st) m tbl (Some v)) as [[[nro tbl'] [i2|]]|] eqn:E2; [|done..].
    cbn [mbind option_bind] in H. simplify_eq. split_and!; [done..|]. intros s. cbn.
    by rewrite (erase_ids _ _ _ _ _ _ _ E2), (erase_ids _ _ _ _ _ _ _ E1).
Qed.

(** ** The walk *)

Lemma scan_bucket_cons e e1 buf t :
  scan_bucket (e :: e1 :: buf) t = if trx_id e =? t then Some (Found e) else scan_bucket (e1 :: buf) t.
Proof. done. Qed.

(** Scanning the copy of a bucket is the inner loop of [find_trx]. *)
Lemma scan_bucket_eq tbl s n t : (s + n < length tbl)%nat ->
  scan_bucket (take (S n) (drop s tbl)) t =
  (r ← slot_find tbl s n t;
   match r with
   | Some s' => e ← tbl !! s'; Some (Found e)
   | None => e ← tbl !! (s + n)%nat;
             Some (if trx_id e =? 0 then NotFound else NextBucket (Z.to_nat (trx_id e)))
   end).
Proof.
  revert s. induction n as [|n IH]; intros s Hs.
  - destruct (lookup_lt_is_Some_2 tbl s) as [e He]; [lia|].
    rewrite (drop_S tbl e s He). cbn. by rewrite Nat.add_0_r, He.
  - destruct (lookup_lt_is_Some_2 tbl s) as [e He]; [lia|].
    rewrite (drop_S tbl e s He). cbn [slot_find]. rewrite He. cbn [mbind option_bind].
    specialize (IH (S s) ltac:(lia)).
    destruct (lookup_lt_is_Some_2 tbl (S s)) as [e1 He1]; [lia|].
    rewrite (drop_S tbl e1 _ He1) in IH |- *. cbn [take] in IH |- *.
    rewrite scan_bucket_cons, IH.
    destruct (Z.eqb_spec (trx_id e) t); [cbn [mbind option_bind]; by rewrite He|].
    by rewrite Nat.add_succ_r.
Qed.

Lemma rdma_bucket st b t : table_ok st -> (b < total_buckets st)%nat ->
  exists buf, RdmaRead (table st) b = Some buf /\
  match scan_bucket buf t with
  | Some (Found e) => holds st t e
  | Some NotFound => (forall i e, (i < ASSOCIATIVITY - 1)%nat -> table st !! slot b i = Some e -> trx_id e <> t) /\
      exists e, table st !! link_slot b = Some e /\ trx_id e = 0
  | Some (NextBucket b') =>
      (forall i e, (i < ASSOCIATIVITY - 1)%nat -> table st !! slot b i = Some e -> trx_id e <> t) /\
      exists e, table st !! link_slot b = Some e /\ trx_id e <> 0 /\ b' = Z.to_nat (trx_id e)
  | None => False
  end.
Proof.
  intros Hok Hb. unfold RdmaRead.
  assert (b * ASSOCIATIVITY + 7 < length (table st))%nat as Hlen
    by (rewrite (ok_len st Hok); slot_lia).
  rewrite length_take, length_drop.
  replace (ASSOCIATIVITY `min` _)%nat with ASSOCIATIVITY by slot_lia.
  rewrite Nat.eqb_refl. eexists. split; [done|].
  change ASSOCIATIVITY with 8%nat at 1. rewrite scan_bucket_eq by done.
  pose proof (slot_find_spec (table st) (b * ASSOCIATIVITY) 7 t ltac:(lia)) as Hs.
  destruct (slot_find _ _ _ _) as [[s|]|]; [..|done]; cbn [mbind option_bind].
  - destruct Hs as (Hr & e & He & Ht). rewrite He. cbn [mbind option_bind].
    exists b, (s - b * ASSOCIATIVITY)%nat. split; [slot_lia|]. split; [|done].
    rewrite <- He. f_equal. slot_lia.
  - assert (forall i e, (i < ASSOCIATIVITY - 1)%nat -> table st !! slot b i = Some e -> trx_id e <> t)
      as Hhere by (intros i e Hi He; eapply Hs; [|exact He]; slot_lia).
    destruct (slot_is_Some st b 7 Hok) as [l Hl]; [slot_lia|done|].
    unfold slot in Hl. rewrite Hl. cbn [mbind option_bind].
    destruct (Z.eqb_spec (trx_id l) 0); (split; [done|]); by exists l.
Qed.

Section Walk.
Context (st : nat -> TrxTable) (total : nat).
Hypothesis Hok : forall k, table_ok (st k).
Hypothesis Htotal : forall k, total_buckets (st k) = total.

(** The walk ends, and what it returns was in the table at one of its reads. *)
Lemma rdma_walk_sound fuel k b t : (b < total)%nat -> (total - b < fuel)%nat ->
  exists r, rdma_walk (fun k => table (st k)) fuel k b t = Some r /\
    forall e, r = Some e -> exists k', (k <= k' < k + fuel)%nat /\ holds (st k') t e.
Proof using All.
  revert k b. induction fuel as [|fuel IH]; intros k b Hb Hf; [lia|]. cbn [rdma_walk].
  destruct (rdma_bucket (st k) b t (Hok k)) as (buf & -> & Hs); [by rewrite Htotal|].
  cbn [mbind option_bind]. destruct (scan_bucket buf t) as [[e| |b']|]; [..|done];
    cbn [mbind option_bind].
  - exists (Some e). split; [done|]. intros ? [= <-]. exists k. split; [lia|done].
  - by exists None.
  - destruct Hs as (_ & l & Hl & Hl0 & ->). pose proof (link_step (st k) b l (Hok k) Hl Hl0) as Hn.
    rewrite Htotal in Hn. destruct (IH (S k) (Z.to_nat (trx_id l))) as (r & Hr & He); [lia..|].
    exists r. split; [done|]. intros e ->. destruct (He e eq_refl) as (k' & Hk' & ?).
    exists k'. split; [lia|done].
Qed.

Hypothesis Hlinks : forall k c d, reach (table (st k)) c d -> reach (table (st (S k))) c d.

(** A transaction that stays in its slot is found. *)
Lemma rdma_walk_complete fuel k b t b0 i0 : (i0 < ASSOCIATIVITY - 1)%nat ->
  (forall k, exists e, table (st k) !! slot b0 i0 = Some e /\ trx_id e = t) ->
  reach (table (st k)) b b0 -> (b < total)%nat ->
  rdma_walk (fun k => table (st k)) fuel k b t <> Some None.
Proof using All.
  intros Hi0 Hslot. revert k b. induction fuel as [|fuel IH]; intros k b Hr Hb; [done|].
  cbn [rdma_walk]. destruct (rdma_bucket (st k) b t (Hok k)) as (buf & -> & Hs); [by rewrite Htotal|].
  cbn [mbind option_bind].
  destruct (Hslot k) as (e0 & He0 & Ht0). destruct (scan_bucket buf t) as [[e| |b']|]; [done|..|done];
    cbn [mbind option_bind]; destruct Hs as (Hhere & l & Hl & Hl0).
  - destruct Hr as [|b l' b0 Hl' Hne Hr]; [by destruct (Hhere i0 e0)|]. congruence.
  - destruct Hl0 as [Hl0 ->]. destruct Hr as [|b l' b0 Hl' Hne Hr]; [by destruct (Hhere i0 e0)|].
    replace l' with l in * by congruence. apply IH.
    + by apply Hlinks.
    + pose proof (link_step (st k) b l (Hok k) Hl Hl0) as Hn. rewrite Htotal in Hn. lia.
Qed.
End Walk.

(** A table that its owner changes while it is read: one call at a time. *)
Definition table_trace (main indirect : nat) (trace : nat -> TrxTable) : Prop :=
  reachable_table main indirect (trace 0%nat) /\
  forall n, trace (S n) = trace n \/ table_step (trace n) (trace (S n)).

Section Trace.
Context (main indirect : nat) (trace : nat -> TrxTable).
Hypothesis Hmain : (0 < main)%nat.
Hypothesis Htrace : table_trace main indirect trace.

Lemma trace_inv n : table_inv (trace n).
Proof using All.
  destruct Htrace as [H0 Hs]. induction n as [|n IH]; [by eapply reachable_inv|].
  destruct (Hs n) as [->|Hst]; [done|]. by eapply table_step_inv.
Qed.

Lemma trace_evolves n : evolves (trace n) (trace (S n)).
Proof using All.
  destruct (proj2 Htrace n) as [->|Hst]; [apply evolves_refl|].
  apply table_step_evolves; [apply trace_inv|done].
Qed.

Lemma trace_size n : main_buckets (trace n) = main /\ indirect_buckets (trace n) = indirect.
Proof using All.
  induction n as [|n [IH1 IH2]].
  - destruct Htrace as [H0 _]. revert H0. unfold reachable_table.
    assert (forall st, rtc table_step (table_init main indirect) st ->
      table_inv st /\ main_buckets st = main /\ indirect_buckets st = indirect) as H;
      [|intros Hr; by apply H].
    apply (rtc_ind_r _); [split; [by apply table_init_ok|done]|].
    intros x y _ Hxy (Hi & ? & ?). destruct (table_step_evolves x y Hi Hxy) as (? & ? & _).
    split; [by eapply table_step_inv|]. split; congruence.
  - destruct (trace_evolves n) as (? & ? & _). split; congruence.
Qed.

Lemma trace_reach n m c d : (n <= m)%nat ->
  reach (table (trace n)) c d -> reach (table (trace m)) c d.
Proof using All.
  induction 1 as [|m _ IH]; [done|]. intros Hr. specialize (IH Hr). revert IH. apply reach_mono.
  apply (trace_evolves m).
Qed.

Lemma trace_slot t : IS_VALID_TRX_ID t = true -> (forall n, is_Some (trx_map (trace n) !! t)) ->
  exists b i, (i < ASSOCIATIVITY - 1)%nat /\ reach (table (trace 0%nat)) (home_bucket (trace 0%nat) t) b /\
    forall n, exists e, table (trace n) !! slot b i = Some e /\ trx_id e = t.
Proof using All.
  intros Hv Hin. pose proof (valid_nonzero t Hv) as H0.
  assert (forall n, exists e, holds (trace n) t e) as Hh.
  { intros n. destruct (Hin n) as [e He].
    apply trx_map_lookup in He as [He _]; [by exists e|apply trace_inv]. }
  destruct (Hh 0%nat) as (e & b & i & Hi & He & Ht). exists b, i. split; [done|].
  pose proof (proj1 (trace_inv 0)) as Hok. split; [rewrite <- Ht; apply (ok_home _ Hok b i e); congruence|].
  intros n. induction n as [|n (en & Hen & Hten)]; [by exists e|].
  destruct (trace_evolves n) as (_ & _ & _ & Hkeep). destruct (Hh (S n)) as (e' & He').
  destruct (Hkeep b i en e') as (x & Hx & Hxt); [done|done|congruence|by rewrite Hten|].
  exists x. split; [done|congruence].
Qed.
End Trace.

Lemma when_mono (when : nat -> nat) : (forall k, when k <= when (S k))%nat ->
  forall j k, (j <= k)%nat -> (when j <= when k)%nat.
Proof. intros H j k. induction 1 as [|k _ IH]; [done|]. specialize (H k). lia. Qed.

(** What a remote read makes of an entry. *)
Definition remote_ct (e : TidStatus) : Z := if tV e && negb (tA e) then ct e else 0.

Lemma getCT_state e s : tid_inv e = true -> getState e = Some s ->
  match s with
  | COMMITTED | VALIDATING => c ← getCT e; Some (Some (s, c))
  | _ => Some (Some (s, 0))
  end = Some (Some (s, remote_ct e)).
Proof. intros Hi Hs. unfold remote_ct. tid_cases e; done. Qed.


Definition aborted_table : TrxTable := Eval vm_compute in
  default example_table (snd <$> modify_status example_table (example_id 16) ABORT).


(** ** The TCP path *)

Definition int_range (z : Z) : Prop := - 2 ^ 31 <= z < 2 ^ 31.

Lemma reads_whole {A} (g : getter A) bs a :
  reads g bs a -> g (mk_ob bs 0) = Some (a, mk_ob bs (length bs)).
Proof. intros H. apply (H (mk_ob bs 0) []). cbn. by rewrite app_nil_r. Qed.

Lemma serve_req st jc js n i t c :
  int_range n -> int_range i -> fits 64 t ->
  serve st jc js (put_read_req (mk_read_req n i t c)) =
  ProcessTCPTrxReads st jc js (mk_read_req n i t c).
Proof.
  intros Hn Hi Ht. unfold serve.
  assert (reads ListenTCPTrxReads (put_read_req (mk_read_req n i t c)) (mk_read_req n i t c)) as Hr.
  { unfold ListenTCPTrxReads, put_read_req. cbn [rd_n_id rd_t_id rd_trx_id rd_ct].
    eapply reads_bind; [by apply (ser_reads s_int)|]. eapply reads_bind; [by apply (ser_reads s_int)|].
    eapply reads_bind; [by apply (ser_reads s_ull)|].
    by apply (reads_bind_ret _ (mk_read_req n i t)), (ser_reads s_bool). }
  by rewrite (reads_whole _ _ _ Hr).
Qed.

Lemma stat_int s : int_range (stat_to_int s) /\ stat_of_int (stat_to_int s) = Some s.
Proof. unfold int_range. destruct s; cbn; split; lia || done. Qed.

Lemma read_status_reply i : int_range i -> get_int (mk_ob (put_int i) 0) = Some (i, mk_ob (put_int i) 4).
Proof. intros Hi. by apply (reads_whole get_int (put_int i) i), (ser_reads s_int). Qed.

Lemma read_ct_reply c i : fits 64 c -> int_range i ->
  (c ← get_ull; i ← get_int; mret (c, i)) (mk_ob (put_ull c ++ put_int i) 0) =
  Some ((c, i), mk_ob (put_ull c ++ put_int i) (length (put_ull c ++ put_int i))).
Proof.
  intros Hc Hi. apply reads_whole. eapply reads_bind; [by apply (ser_reads s_ull)|].
  by apply (reads_bind_ret _ (fun j => (c, j))), (ser_reads s_int).
Qed.

(** The queries of a known transaction and of an unknown one. *)
Lemma query_known st t e : table_inv st -> IS_VALID_TRX_ID t = true -> trx_map st !! t = Some e ->
  exists s, getState e = Some s /\ query_status st t = Some (Some s) /\ query_ct st t = Some (Some (ct e)).
Proof.
  intros Hinv Hv He. destruct (find_trx_lookup st t (proj1 Hinv) Hv) as ([s|] & Hf & H); [|congruence].
  destruct H as (b & i & e' & -> & Hi & He' & Ht & Hme). replace e' with e in * by congruence.
  destruct (map_entry_state st t e Hinv He) as (_ & _ & x & Hx). exists x.
  unfold query_status, query_ct. rewrite Hf. cbn [mbind option_bind]. rewrite He'.
  cbn [mbind option_bind]. by rewrite Hx.
Qed.

Lemma query_unknown st t : table_inv st -> IS_VALID_TRX_ID t = true -> trx_map st !! t = None ->
  query_status st t = Some None /\ query_ct st t = Some None.
Proof.
  intros Hinv Hv Hn. destruct (find_trx_lookup st t (proj1 Hinv) Hv) as ([s|] & Hf & H).
  - destruct H as (b & i & e' & _ & _ & _ & _ & Hme). congruence.
  - unfold query_status, query_ct. by rewrite Hf.
Qed.

Lemma tcp_read_known rank size i own owner jc js t e w :
  table_inv owner -> IS_VALID_TRX_ID t = true -> fits 64 t -> trx_map owner !! t = Some e ->
  fits 64 (ct e) -> int_range rank -> int_range i ->
  GetWorkerFromTrxID size t = Some w -> w <> rank ->
  exists s, getState e = Some s /\
    tcp_read_status rank size i own owner jc js t = Some (Some s) /\
    tcp_read_ct rank size i own owner jc js t = Some (Some (s, ct e)).
Proof.
  intros Hinv Hv Ht He Hc Hn Hi Hw Hne. destruct (query_known owner t e Hinv Hv He) as (s & Hs & Hq & Hqc).
  exists s. split; [done|]. unfold tcp_read_status, tcp_read_ct. rewrite Hw. cbn [mbind option_bind].
  rewrite (proj2 (Z.eqb_neq w rank) Hne), !serve_req by done.
  unfold ProcessTCPTrxReads. cbn [rd_ct rd_trx_id]. rewrite Hqc, Hq. cbn [mbind option_bind fmap option_fmap option_map from_option id].
  destruct (stat_int s) as [Hr Ho]. rewrite read_status_reply, read_ct_reply by done.
  cbn [mbind option_bind snd fst]. by rewrite Ho.
Qed.

(** Over TCP the status of a transaction that its owner does not know is
    reported as found, with whatever value the reply variable of the owner
    had: the owner drops the result of its query.  The RDMA path and the local
    path report the same transaction as not found. *)
Theorem tcp_unknown_trx_found main indirect rank size i own owner jc junk s t w :
  (0 < main)%nat -> reachable_table main indirect owner -> IS_VALID_TRX_ID t = true -> fits 64 t ->
  trx_map owner !! t = None -> int_range rank -> int_range i ->
  GetWorkerFromTrxID size t = Some w -> w <> rank -> stat_of_int junk = Some s ->
  tcp_read_status rank size i own owner jc junk t = Some (Some s) /\
  query_status owner t = Some None.
Proof.
  intros Hm Hr Hv Ht Hn Hrk Hi Hw Hne Hs. pose proof (reachable_inv main indirect owner Hm Hr) as Hinv.
  destruct (query_unknown owner t Hinv Hv Hn) as [Hq _]. split; [|done].
  unfold tcp_read_status. rewrite Hw. cbn [mbind option_bind].
  rewrite (proj2 (Z.eqb_neq w rank) Hne), serve_req by done.
  unfold ProcessTCPTrxReads. cbn [rd_ct rd_trx_id]. rewrite Hq. cbn [mbind option_bind fmap option_fmap option_map from_option id].
  assert (int_range junk) as Hj.
  { unfold int_range. unfold stat_of_int in Hs. repeat case_match; simplify_eq; lia. }
  rewrite read_status_reply by done. cbn [mbind option_bind]. by rewrite Hs.
Qed.

Lemma tcp_unknown_trx_found_witness :
  tcp_read_status 0 3 5 example_table example_table 0 3 (example_id 77) = Some (Some COMMITTED).
Proof.
  refine (proj1 (tcp_unknown_trx_found 2 2 0 3 5 example_table example_table 0 3 COMMITTED
    (example_id 77) 2 _ example_reachable _ _ _ _ _ _ _ _)); try (by vm_compute); lia.
Defined.

(** ** The interface to the versioned storage *)

(** What the readers of versions rely on: the answer for a transaction of the
    owner's table is its status, and its commit time once it is fixed. *)
Class TrxTableStub (main indirect : nat) := {
  stub_read_status : TrxTable -> Z -> option (option TRX_STAT);
  stub_read_ct : TrxTable -> Z -> option (option (TRX_STAT * Z));
  stub_law st t e :
    (0 < main)%nat -> reachable_table main indirect st -> IS_VALID_TRX_ID t = true -> fits 64 t ->
    trx_map st !! t = Some e -> fits 64 (ct e) ->
    exists s c, getState e = Some s /\ stub_read_status st t = Some (Some s) /\
      stub_read_ct st t = Some (Some (s, c)) /\ (s = VALIDATING \/ s = COMMITTED -> c = ct e);
}.

Lemma worker_known size t : IS_VALID_TRX_ID t = true -> exists w, GetWorkerFromTrxID size t = Some w.
Proof. unfold GetWorkerFromTrxID. intros ->. by eexists. Qed.

Lemma query_both_known st t e : table_inv st -> IS_VALID_TRX_ID t = true -> trx_map st !! t = Some e ->
  exists s, getState e = Some s /\ query_status st t = Some (Some s) /\
    query_both st t = Some (Some (s, ct e)).
Proof.
  intros Hinv Hv He. destruct (query_known st t e Hinv Hv He) as (s & Hs & Hq & Hc).
  exists s. unfold query_both. rewrite Hq, Hc. done.
Qed.

(** The stub of a worker [rank] over one-sided reads. *)
#[program] Definition RDMATrxTableStub (rank size : Z) (main indirect : nat) : TrxTableStub main indirect := {|
  stub_read_status st t := rdma_read_status rank size st main indirect (fun _ => table st) t;
  stub_read_ct st t := rdma_read_ct rank size st main indirect (fun _ => table st) t;
|}.
Next Obligation.
  intros rank size main indirect st t e Hm Hr Hv Ht He Hc. cbn.
  pose proof (reachable_inv main indirect st Hm Hr) as Hinv.
  destruct (worker_known size t Hv) as [w Hw]. destruct (decide (w = rank)) as [->|Hne].
  - destruct (query_both_known st t e Hinv Hv He) as (s & Hs & Hq & Hb). exists s, (ct e).
    unfold rdma_read_status, rdma_read_ct. rewrite Hw. cbn [mbind option_bind]. by rewrite Z.eqb_refl.
  - pose proof (conj Hr (fun n : nat => or_introl eq_refl)
      : table_trace main indirect (fun _ => st)) as Htr.
    destruct (map_entry_state st t e Hinv He) as (Hti & _ & s & Hs).
    assert (rdma_find main indirect (fun _ => table st) t = Some (Some e)) as Hf.
    { destruct (trace_size main indirect (fun _ => st) Hm Htr 0) as [Hm0 Hi0].
      assert (total_buckets st = main + indirect)%nat as Htot by (unfold total_buckets; lia).
      pose proof (home_in_range st t (proj1 Hinv)) as Hb. rewrite Htot in Hb.
      destruct (trace_slot main indirect (fun _ => st) Hm Htr t Hv) as (b & i & Hi & Hreach & Hslot);
        [by intros; eexists|].
      unfold rdma_find. replace (Z.to_nat _) with (home_bucket st t) by (unfold home_bucket; by rewrite Hm0).
      destruct (rdma_walk_sound (fun _ => st) _ (fun _ => proj1 Hinv) (fun _ => Htot)
        (S (main + indirect)) 0 (home_bucket st t) t Hb ltac:(lia)) as (r & Hrw & Hre).
      pose proof (rdma_walk_complete (fun _ => st) _ (fun _ => proj1 Hinv) (fun _ => Htot)
        (fun _ _ _ H => H) (S (main + indirect)) 0 (home_bucket st t) t b i Hi Hslot Hreach Hb) as Hcp.
      cbn beta in Hcp, Hrw. rewrite Hrw. rewrite Hrw in Hcp. destruct r as [e'|]; [|done]. destruct (Hre e' eq_refl) as (_ & _ & Hh).
      do 2 f_equal. assert (trx_map st !! t = Some e'); [|congruence].
      apply trx_map_lookup; [apply Hinv|]. split; [done|by apply valid_nonzero]. }
    exists s, (remote_ct e). unfold rdma_read_status, rdma_read_ct. rewrite Hw. cbn [mbind option_bind].
    rewrite (proj2 (Z.eqb_neq w rank) Hne), Hf. cbn [mbind option_bind]. rewrite Hs.
    cbn [mbind option_bind]. split_and!; [done|done|by apply getCT_state|].
    unfold remote_ct. intros Hvc. tid_cases e; destruct Hvc; done.
Qed.

(** The stub over TCP; the owner's unset variables do not matter. *)
#[program] Definition TcpTrxTableStub (rank size i jc js : Z) (Hrank : int_range rank) (Hi : int_range i)
    (main indirect : nat) : TrxTableStub main indirect := {|
  stub_read_status st t := tcp_read_status rank size i st st jc js t;
  stub_read_ct st t := tcp_read_ct rank size i st st jc js t;
|}.
Next Obligation.
  intros rank size i jc js Hrank Hi main indirect st t e Hm Hr Hv Ht He Hc. cbn.
  pose proof (reachable_inv main indirect st Hm Hr) as Hinv.
  destruct (worker_known size t Hv) as [w Hw]. destruct (decide (w = rank)) as [->|Hne].
  - destruct (query_both_known st t e Hinv Hv He) as (s & Hs & Hq & Hb). exists s, (ct e).
    unfold tcp_read_status, tcp_read_ct. rewrite Hw. cbn [mbind option_bind]. by rewrite Z.eqb_refl.
  - destruct (tcp_read_known rank size i st st jc js t e w) as (s & Hs & H1 & H2); try done.
    by exists s, (ct e).
Qed.

(** C34: the two stubs agree with each other and with the owner's table: for
    every transaction of the table, on any worker, reading over RDMA and over
    TCP gives the transaction's status, and gives its commit time when it is
    validating or committed. *)
Theorem stubs_agree main indirect rank size i jc js st t e
  (Hrank : int_range rank) (Hi : int_range i) :
  (0 < main)%nat -> reachable_table main indirect st -> IS_VALID_TRX_ID t = true -> fits 64 t ->
  trx_map st !! t = Some e -> fits 64 (ct e) ->
  exists s c c', getState e = Some s /\
    rdma_read_status rank size st main indirect (fun _ => table st) t = Some (Some s) /\
    tcp_read_status rank size i st st jc js t = Some (Some s) /\
    rdma_read_ct rank size st main indirect (fun _ => table st) t = Some (Some (s, c)) /\
    tcp_read_ct rank size i st st jc js t = Some (Some (s, c')) /\
    (s = VALIDATING \/ s = COMMITTED -> c = ct e /\ c' = ct e).
Proof.
  intros Hm Hr Hv Ht He Hc.
  destruct (@stub_law _ _ (RDMATrxTableStub rank size main indirect) st t e) as (s & c & H1 & H2 & H3 & H4); try done.
  destruct (@stub_law _ _ (TcpTrxTableStub rank size i jc js Hrank Hi main indirect) st t e)
    as (s' & c' & H1' & H2' & H3' & H4'); try done.
  replace s' with s in * by congruence. exists s, c, c'. split_and!; try done. intros Hs. auto.
Qed.

Lemma stubs_agree_witness :
  tcp_read_status 0 3 5 example_table example_table 0 3 (example_id 16) = Some (Some PROCESSING).
Proof.
  destruct (stubs_agree 2 2 0 3 5 0 3 example_table (example_id 16)
    (process_entry (example_id 16)) ltac:(unfold int_range; lia) ltac:(unfold int_range; lia))
    as (s & c & c' & H1 & _ & H2 & _); [lia|exact example_reachable|by vm_compute..|].
  rewrite H2, <- H1. by vm_compute.
Defined.

(** A status update reaches the coordinating worker unchanged: the
    request that [update_status] queues locally, or that the owner decodes
    from the notification, is the same, so the owner's table is updated the
    same way whichever worker ended the transaction. *)
Theorem update_status_delivered rank size t s ro :
  IS_VALID_TRX_ID t = true -> fits 64 t -> int_range rank -> s <> VALIDATING ->
  exists a, update_status rank size t s ro = Some a /\
    match a with
    | Push r => r = mk_upd rank t s ro
    | SendNotification w bytes => GetWorkerFromTrxID size t = Some w /\ w <> rank /\
        recv_update bytes = Some (mk_upd rank t s ro)
    end.
Proof.
  intros Hv Ht Hn Hs. unfold update_status. rewrite bool_decide_false by done.
  destruct (worker_known size t Hv) as [w Hw]. rewrite Hw. cbn [mbind option_bind].
  destruct (Z.eqb_spec w rank) as [->|Hne]; [by eexists|]. eexists. split; [done|]. cbv beta iota.
  split; [done|]. split; [done|]. unfold recv_update.
  destruct (stat_int s) as [Hr Ho].
  erewrite (reads_whole _ _ (UPDATE_STATUS, (rank, t, stat_to_int s, ro))).
  2:{ eapply reads_bind; [by apply (ser_reads s_int)|]. eapply reads_bind; [by apply (ser_reads s_int)|].
      eapply reads_bind; [by apply (ser_reads s_ull)|]. eapply reads_bind; [by apply (ser_reads s_int)|].
      by apply (reads_bind_ret _ (fun b => (UPDATE_STATUS, (rank, t, stat_to_int s, b)))), (ser_reads s_bool). }
  cbn [mbind option_bind]. change (UPDATE_STATUS =? UPDATE_STATUS) with true. cbv iota.
  destruct (Z.eqb_spec (stat_to_int s) (stat_to_int VALIDATING)); [by destruct s|]. by rewrite Ho.
Qed.

Lemma update_status_delivered_witness :
  exists a, update_status 0 3 (example_id 16) COMMITTED false = Some a.
Proof.
  destruct (update_status_delivered 0 3 (example_id 16) COMMITTED false) as (a & H & _);
    [by vm_compute|by vm_compute|unfold int_range; lia|done|by exists a].
Defined.
