(* ===== verification/MvccList.v ===== *)
(** * layout/mvcc_definition, layout/mvcc_list: lists of versions

    A list of versions is a chain of items in the heap [h], a finite map from
    addresses to items, with pointers to its first item, its last item and the
    item before the last one.  A null pointer is [None].  The cells come from a
    memory pool: an operation that allocates takes the address the pool
    returned and the stale value of that cell.  [None] as a result is a failed
    [CHECK], an invalid access or a read of an unset variable.

    The second part relates a list in memory to its abstract state: the
    committed versions with their commit times, and at most one pending
    version of a running transaction. *)
From S2P Require Import Prelude Types TrxStatus Coordinator TrxStub.
Local Open Scope Z_scope.

(** ** Items *)

(** [AbstractMVCCItem] (layout/mvcc_definition.hpp:26-39) with the [val] of
    its subclasses. *)
Record Item (V : Type) := mk_item {
  begin_time : Z; end_time : Z; next : option nat; val : V;
}.
Arguments mk_item {V}.
Arguments begin_time {V}.
Arguments end_time {V}.
Arguments next {V}.
Arguments val {V}.

Definition MIN_TIME : Z := 0.
Definition MAX_TIME : Z := 0x7FFFFFFFFFFFFFFF.

(** What the subclasses of [AbstractMVCCItem] provide: whether the value owns
    something, what is left of it after [ValueGC], and whether it stands for
    a deletion (layout/mvcc_definition.hpp:96-106). *)
Class MVCCItem (V : Type) := {
  NeedGC : V -> bool;
  ValueGC : V -> V;
  IsEmpty : V -> bool;
}.

(** The item of a vertex holds a flag (layout/mvcc_definition.hpp:136-147);
    no flag owns anything. *)
#[global] Instance VertexMVCCItem : MVCCItem bool :=
  {| NeedGC _ := false; ValueGC v := v; IsEmpty := negb |}.

(** [EdgeVersion] (layout/mvcc_definition.hpp:157-168); [ep_row_list] is the
    address of the edge's property rows, if the version owns some. *)
Record EdgeVersion := mk_edge_version { ev_label : Z; ep_row_list : option nat }.

(** The item of an edge (layout/mvcc_definition.hpp:170-189,
    layout/mvcc_definition.cpp:34-40). *)
#[global] Instance EdgeMVCCItem : MVCCItem EdgeVersion := {|
  NeedGC v := bool_decide (ep_row_list v <> None);
  ValueGC v := mk_edge_version (ev_label v) None;
  IsEmpty v := ev_label v =? 0;
|}.

Section Item.
Context {V : Type}.

(** [AbstractMVCCItem::GetTransactionID] (layout/mvcc_definition.hpp:46-46). *)
Definition GetTransactionID (i : Item V) : Z :=
  if IS_VALID_TRX_ID (begin_time i) then begin_time i else 0.
(** [AbstractMVCCItem::GetEndTime] (layout/mvcc_definition.hpp:47-47). *)
Definition GetEndTime (i : Item V) : Z := if 0 <? GetTransactionID i then MIN_TIME else end_time i.
(** [AbstractMVCCItem::NextIsUncommitted] (layout/mvcc_definition.hpp:49-49). *)
Definition NextIsUncommitted (i : Item V) : bool := IS_VALID_TRX_ID (end_time i).
(** [AbstractMVCCItem::Init] (layout/mvcc_definition.hpp:59-63). *)
Definition Init (trx_id begin : Z) (v : V) : Item V := mk_item trx_id begin None v.
(** [AbstractMVCCItem::AppendNextVersion] (layout/mvcc_definition.hpp:65-68). *)
Definition AppendNextVersion (i : Item V) (p : nat) (new_version : Item V) : Item V :=
  mk_item (begin_time i) (begin_time new_version) (Some p) (val i).
(** [AbstractMVCCItem::AbortNextVersion] (layout/mvcc_definition.hpp:70-73). *)
Definition AbortNextVersion (i : Item V) : Item V := mk_item (begin_time i) MAX_TIME None (val i).
Definition set_end (i : Item V) (e : Z) : Item V := mk_item (begin_time i) e (next i) (val i).
Definition set_val (i : Item V) (v : V) : Item V := mk_item (begin_time i) (end_time i) (next i) v.

(** [AbstractMVCCItem::Commit] (layout/mvcc_definition.hpp:79-86) on the item
    at [p], [prev] being [previous_item]. *)
Definition Commit (h : gmap nat (Item V)) (p : nat) (prev : option nat) (commit_time : Z)
    : option (gmap nat (Item V)) :=
  i ← h !! p;
  let h1 := <[p := mk_item commit_time MAX_TIME (next i) (val i)]> h in
  match prev with
  | Some q => if decide (q = p) then Some h1 else j ← h1 !! q; Some (<[q := set_end j commit_time]> h1)
  | None => Some h1
  end.
End Item.

(** ** Lists *)

(** [MVCCList] (layout/mvcc_list.hpp:84-96). *)
Record MVCCList := mk_list {
  head_ : option nat; tail_ : option nat; pre_tail_ : option nat; tmp_pre_tail_ : option nat;
}.

Definition empty_list : MVCCList := mk_list None None None None.

(** [depend_trx_lists] (layout/mvcc_list.hpp:30-33): the homogeneous and the
    heterogeneous dependencies of a transaction. *)
Record depend_trx_lists := mk_dep { homo_trx_list : gset Z; hetero_trx_list : gset Z }.
Abbreviation dep_trx_map := (gmap Z depend_trx_lists).

Definition no_dep : depend_trx_lists := mk_dep ∅ ∅.
Definition add_homo (m : dep_trx_map) (t d : Z) : dep_trx_map :=
  let x := default no_dep (m !! t) in
  <[t := mk_dep ({[d]} ∪ homo_trx_list x) (hetero_trx_list x)]> m.
Definition add_hetero (m : dep_trx_map) (t d : Z) : dep_trx_map :=
  let x := default no_dep (m !! t) in
  <[t := mk_dep (homo_trx_list x) ({[d]} ∪ hetero_trx_list x)]> m.

Section Lists.
Context {V : Type} `{!MVCCItem V}.
Abbreviation heap := (gmap nat (Item V)).
Implicit Types (h : heap) (l : MVCCList).

(** [MVCCList::AppendInitialVersion] (layout/mvcc_list.tpp:271-282). *)
Definition AppendInitialVersion h l (p : nat) (stale : V) : nat * heap * MVCCList :=
  (p, <[p := Init MIN_TIME MAX_TIME stale]> h, mk_list (Some p) (Some p) (Some p) (tmp_pre_tail_ l)).

(** The result of an append: the item whose value the caller writes ([None]
    on a conflict), the old value if there was one, whether the caller is told
    that no value existed, and the values that were recycled. *)
Record append_result := mk_append {
  ap_item : option nat; ap_old : option V; ap_absent : bool; ap_freed : list V;
}.

(** [MVCCList::AppendVersion] (layout/mvcc_list.tpp:212-268). *)
Definition AppendVersion h l (trx_id begin : Z) (p : nat) (stale : V)
    : option (append_result * heap * MVCCList) :=
  match head_ l with
  | None =>
      Some (mk_append (Some p) None true [], <[p := Init trx_id begin stale]> h,
            mk_list (Some p) (Some p) (Some p) (Some p))
  | Some _ =>
      t ← tail_ l;
      i ← h !! t;
      if MAX_TIME <? begin_time i then
        if GetTransactionID i =? trx_id then
          Some (mk_append (Some t) None false (if NeedGC (val i) then [val i] else []),
                if NeedGC (val i) then <[t := set_val i (ValueGC (val i))]> h else h, l)
        else Some (mk_append None None false [], h, l)
      else
        let n := Init trx_id begin stale in
        Some (mk_append (Some p) (Some (val i)) false [],
              <[t := AppendNextVersion i p n]> (<[p := n]> h),
              mk_list (head_ l) (Some p) (Some t) (pre_tail_ l))
  end.

(** The caller of [AppendVersion] writes the value through the pointer. *)
Definition write_val h (p : nat) (v : V) : option heap := i ← h !! p; Some (<[p := set_val i v]> h).

(** [MVCCList::CommitVersion] (layout/mvcc_list.tpp:288-295). *)
Definition CommitVersion h l (trx_id commit_time : Z) : option (heap * MVCCList) :=
  t ← tail_ l;
  i ← h !! t;
  if GetTransactionID i =? trx_id then
    h' ← Commit h t (pre_tail_ l) commit_time;
    Some (h', mk_list (head_ l) (tail_ l) (pre_tail_ l) None)
  else None.

(** [MVCCList::AbortVersion] (layout/mvcc_list.tpp:298-319): the cell that is
    freed and the values that are recycled come with the new state. *)
Definition AbortVersion h l (trx_id : Z) : option (nat * list V * heap * MVCCList) :=
  t ← tail_ l;
  i ← h !! t;
  if GetTransactionID i =? trx_id then
    let freed := if NeedGC (val i) then [val i] else [] in
    let h1 := delete t h in
    if decide (pre_tail_ l = Some t) then Some (t, freed, h1, mk_list None None None None)
    else
      q ← pre_tail_ l;
      j ← h1 !! q;
      Some (t, freed, <[q := AbortNextVersion j]> h1,
            mk_list (head_ l) (Some q) (tmp_pre_tail_ l) None)
  else None.

(** The loop of [SelfGarbageCollect] from the item [p]; the fuel bounds the
    items of the chain. *)
Fixpoint free_chain (fuel : nat) h (p : option nat) : option (list nat * list V * heap) :=
  match p with
  | None => Some ([], [], h)
  | Some a =>
      match fuel with
      | O => None
      | S f =>
          i ← h !! a;
          '(cells, vals, h') ← free_chain f (delete a h) (next i);
          Some (a :: cells, (if NeedGC (val i) then [val i] else []) ++ vals, h')
      end
  end.

(** [MVCCList::SelfGarbageCollect] (layout/mvcc_list.tpp:322-334). *)
Definition SelfGarbageCollect h l : option (list nat * list V * heap * MVCCList) :=
  '(cells, vals, h') ← free_chain (size h) h (head_ l);
  Some (cells, vals, h', mk_list None None None None).

(** The loop that locates a version (layout/mvcc_list.tpp:137-146, 196-205). *)
Fixpoint locate (fuel : nat) h (p : nat) (tail : option nat) (begin : Z) : option nat :=
  match fuel with
  | O => None
  | S f =>
      i ← h !! p;
      if begin <? GetEndTime i then Some p
      else if decide (tail = Some p) then None
      else n ← next i; locate f h n tail begin
  end.

(** [MVCCList::SnapshotLevelGetVisibleVersion] (layout/mvcc_list.tpp:177-210). *)
Definition SnapshotLevelGetVisibleVersion h l (trx_id begin : Z) : option (option V) :=
  match head_ l with
  | None => Some None
  | Some hd =>
      t ← tail_ l;
      i ← h !! t;
      if GetTransactionID i =? trx_id then Some (Some (val i))
      else
        f ← h !! hd;
        if negb (GetTransactionID f =? 0) || (begin <? begin_time f) then Some None
        else
          p ← locate (size h) h hd (tail_ l) begin;
          v ← h !! p;
          Some (Some (val v))
  end.

(** ** Reads at the serializable level *)

Context {main indirect : nat} `{!TrxTableStub main indirect}.

(** [MVCCList::TryPreReadUncommittedTail] (layout/mvcc_list.tpp:34-87): the pair
    it returns and the dependencies it records. *)
Definition TryPreReadUncommittedTail (tbl : TrxTable) (opt_preread : bool) (tail_trx_id trx_id begin : Z)
    (read_only : bool) (deps : dep_trx_map) : option (bool * bool * dep_trx_map) :=
  if negb opt_preread then Some (false, false, deps)
  else if tail_trx_id =? 0 then None
  else
    r ← stub_read_ct tbl tail_trx_id;
    '(cur_stat, tail_trx_ct) ← r;
    match cur_stat with
    | VALIDATING =>
        if tail_trx_ct <? begin then Some (true, true, add_homo deps trx_id tail_trx_id)
        else Some (true, false, if read_only then deps else add_hetero deps trx_id tail_trx_id)
    | COMMITTED =>
        if tail_trx_ct <? begin then Some (true, true, deps)
        else if read_only then Some (true, false, deps) else Some (false, false, deps)
    | _ => Some (true, false, deps)
    end.

(** The outcome of a read: abort, no visible version, or a value. *)
Inductive read_result := RAbort | RNone | RValue (v : V).

(** [MVCCList::SerializableLevelGetVisibleVersion] (layout/mvcc_list.tpp:104-173). *)
Definition SerializableLevelGetVisibleVersion (tbl : TrxTable) (opt_preread : bool) h l
    (trx_id begin : Z) (read_only : bool) (deps : dep_trx_map) : option (read_result * dep_trx_map) :=
  match head_ l with
  | None => Some (RNone, deps)
  | Some hd =>
      t ← tail_ l;
      i ← h !! t;
      if GetTransactionID i =? trx_id then Some (RValue (val i), deps)
      else
        f ← h !! hd;
        if negb (GetTransactionID f =? 0) then
          '(ok, vis, deps') ← TryPreReadUncommittedTail tbl opt_preread (GetTransactionID i) trx_id begin read_only deps;
          if negb ok then Some (RAbort, deps')
          else Some (if (vis : bool) then RValue (val f) else RNone, deps')
        else if begin <? begin_time f then Some (if read_only then RNone else RAbort, deps)
        else
          p ← locate (size h) h hd (tail_ l) begin;
          v ← h !! p;
          if NextIsUncommitted v then
            '(ok, vis, deps') ← TryPreReadUncommittedTail tbl opt_preread (GetTransactionID i) trx_id begin read_only deps;
            if negb ok then Some (RAbort, deps')
            else Some (if (vis : bool) then RValue (val i) else RValue (val v), deps')
          else if negb read_only && bool_decide (next v <> None) then Some (RAbort, deps)
          else Some (RValue (val v), deps)
  end.

(** [MVCCList::GetVisibleVersion] (layout/mvcc_list.tpp:92-99). *)
Definition GetVisibleVersion (lvl : ISOLATION_LEVEL) (tbl : TrxTable) (opt_preread : bool) h l
    (trx_id begin : Z) (read_only : bool) (deps : dep_trx_map) : option (read_result * dep_trx_map) :=
  match lvl with
  | SERIALIZABLE => SerializableLevelGetVisibleVersion tbl opt_preread h l trx_id begin read_only deps
  | SNAPSHOT =>
      r ← SnapshotLevelGetVisibleVersion h l trx_id begin;
      Some (match r with Some v => RValue v | None => RNone end, deps)
  end.
End Lists.
Arguments append_result : clear implicits.
Arguments read_result : clear implicits.

(** ** Chains in the heap *)

Section Chains.
Context {V : Type}.
Abbreviation heap := (gmap nat (Item V)).
Implicit Types (h : heap) (ps : list nat) (its : list (Z * Z * V)) (n : option nat).

Definition hd_or ps n : option nat := match ps with p :: _ => Some p | [] => n end.

(** The items at [ps] are linked in this order, have the given times and
    values, and the last one points to [n]. *)
Fixpoint seg h ps its n : Prop :=
  match ps, its with
  | [], [] => True
  | p :: ps', (b, e, v) :: its' => h !! p = Some (mk_item b e (hd_or ps' n) v) /\ seg h ps' its' n
  | _, _ => False
  end.

Lemma seg_length h ps its n : seg h ps its n -> length ps = length its.
Proof.
  revert its. induction ps as [|p ps IH]; intros [|[[b e] v] its]; cbn; try done.
  intros [_ H]. f_equal. by apply IH.
Qed.

Lemma hd_or_app ps qs n : hd_or (ps ++ qs) n = hd_or ps (hd_or qs n).
Proof. by destruct ps. Qed.

Lemma seg_app h ps qs its jts n : length ps = length its ->
  seg h (ps ++ qs) (its ++ jts) n <-> seg h ps its (hd_or qs n) /\ seg h qs jts n.
Proof.
  revert its. induction ps as [|p ps IH]; intros [|[[b e] v] its] L; try done; cbn.
  - tauto.
  - rewrite IH by (cbn in L; lia). rewrite hd_or_app. tauto.
Qed.

Lemma seg_snoc_inv h ps its b e v n : seg h ps (its ++ [(b, e, v)]) n ->
  exists qs p, ps = qs ++ [p] /\ h !! p = Some (mk_item b e n v) /\ seg h qs its (Some p).
Proof.
  intros H. pose proof (seg_length _ _ _ _ H) as L. rewrite length_app in L. cbn in L.
  destruct ps as [|p qs _] using rev_ind; [cbn in L; lia|]. rewrite length_app in L. cbn in L.
  apply seg_app in H as [H1 H2]; [|lia]. cbn in H2. exists qs, p. naive_solver.
Qed.

Lemma seg_snoc h qs its p b e v n : length qs = length its ->
  seg h (qs ++ [p]) (its ++ [(b, e, v)]) n <-> seg h qs its (Some p) /\ h !! p = Some (mk_item b e n v).
Proof. intros L. rewrite seg_app by done. cbn. tauto. Qed.

Lemma seg_agree h h' ps its n :
  (forall p, p ∈ ps -> h' !! p = h !! p) -> seg h ps its n -> seg h' ps its n.
Proof.
  revert its. induction ps as [|p ps IH]; intros [|[[b e] v] its] Hag; cbn; try done.
  intros [H1 H2]. split; [rewrite Hag; [done|by left]|]. apply IH; [|done].
  intros q Hq. apply Hag. by right.
Qed.

Lemma seg_lookup h ps its n k b e v : seg h ps its n -> its !! k = Some (b, e, v) ->
  exists p, ps !! k = Some p /\ h !! p = Some (mk_item b e (default n (Some <$> ps !! S k)) v).
Proof.
  revert its k. induction ps as [|p ps IH]; intros [|[[b0 e0] v0] its] [|k]; cbn; try done.
  - intros [H _] [= -> -> ->]. exists p. split; [done|]. rewrite H. by destruct ps.
  - intros [_ H] Hk. by eapply IH.
Qed.

Lemma seg_is_Some h ps its n p : seg h ps its n -> p ∈ ps -> is_Some (h !! p).
Proof.
  revert its. induction ps as [|q ps IH]; intros [|[[b e] v] its]; cbn; try done.
  { by intros _ ?%not_elem_of_nil. }
  intros [H1 H2] [->|Hp]%elem_of_cons; [by eexists|by eapply IH].
Qed.

(** A chain without repetition is no longer than the heap. *)
Lemma seg_size h ps its n : NoDup ps -> seg h ps its n -> (length ps <= size h)%nat.
Proof.
  intros Hnd Hs. rewrite <- (size_list_to_set (C := gset nat)) by done. rewrite <- size_dom.
  apply subseteq_size. intros p Hp%elem_of_list_to_set. apply elem_of_dom. by eapply seg_is_Some.
Qed.
End Chains.

(** ** The abstract state *)

(** Committed versions (time and value, oldest first) and a pending version:
    the transaction, its begin time, the value. *)
Record versions (V : Type) := mk_versions {
  committed : list (Z * V);
  pending : option (Z * Z * V);
}.
Arguments mk_versions {V}.
Arguments committed {V}.
Arguments pending {V}.

Section Abstract.
Context {V : Type}.
Implicit Types (cs : list (Z * V)) (w : option (Z * Z * V)) (a : versions V).

Definition first_time cs (e : Z) : Z := match cs with (c, _) :: _ => c | [] => e end.

(** The items of committed versions: each ends when the next begins. *)
Fixpoint items_to cs (e : Z) : list (Z * Z * V) :=
  match cs with [] => [] | (c, v) :: cs' => (c, first_time cs' e, v) :: items_to cs' e end.

Definition end_of w : Z := match w with Some (t, _, _) => t | None => MAX_TIME end.
Definition pend_items w : list (Z * Z * V) :=
  match w with Some (t, b, v) => [(t, b, v)] | None => [] end.
Definition items_of a : list (Z * Z * V) :=
  items_to (committed a) (end_of (pending a)) ++ pend_items (pending a).

Lemma items_to_snoc cs c v e : items_to (cs ++ [(c, v)]) e = items_to cs c ++ [(c, e, v)].
Proof.
  induction cs as [|[c0 v0] cs IH]; cbn; [done|]. rewrite IH. f_equal. by destruct cs as [|[??]].
Qed.

Lemma items_to_length cs e : length (items_to cs e) = length cs.
Proof. induction cs as [|[??] cs IH]; cbn; [done|]. by rewrite IH. Qed.

(** Times of commits increase and are timestamps; transaction ids are not. *)
Definition is_time (c : Z) : Prop := 0 <= c < MAX_TIME.
Definition is_trx (t : Z) : Prop := fits 64 t /\ IS_VALID_TRX_ID t = true.

Record versions_ok a : Prop := {
  vo_sorted : StronglySorted Z.lt (committed a).*1;
  vo_times : Forall is_time (committed a).*1;
  vo_pending t b v : pending a = Some (t, b, v) -> is_trx t;
}.

(** What a transaction that began at [bt] sees of the committed versions: the
    last one that was committed at or before [bt]. *)
Fixpoint visible cs (bt : Z) : option V :=
  match cs with
  | [] => None
  | (c, v) :: cs' => if c <=? bt then match visible cs' bt with Some x => Some x | None => Some v end else None
  end.

(** The promise of snapshot reads: the own pending version, otherwise the
    visible committed one. *)
Definition snapshot_read a (trx_id bt : Z) : option V :=
  match pending a with
  | Some (t, _, v) => if t =? trx_id then Some v else visible (committed a) bt
  | None => visible (committed a) bt
  end.

(** The abstract operations. *)
Definition append_abs a (trx_id bt : Z) (v : V) : option (versions V) :=
  match pending a with
  | None => Some (mk_versions (committed a) (Some (trx_id, bt, v)))
  | Some (t, b, _) => if t =? trx_id then Some (mk_versions (committed a) (Some (t, b, v))) else None
  end.
Definition commit_abs a (ct : Z) : versions V :=
  match pending a with
  | Some (_, _, v) => mk_versions (committed a ++ [(ct, v)]) None
  | None => a
  end.
Definition abort_abs a : versions V := mk_versions (committed a) None.
End Abstract.

(** ** Representation *)

(** The list [l] in the heap [h] is the chain [ps] and represents [a].  Only
    while a version is pending does the pointer before the tail matter. *)
Record repr {V} (h : gmap nat (Item V)) (l : MVCCList) (ps : list nat) (a : versions V) : Prop := {
  r_nodup : NoDup ps;
  r_seg : seg h ps (items_of a) None;
  r_head : head_ l = head ps;
  r_tail : tail_ l = last ps;
  r_pre : pending a <> None -> pre_tail_ l = ps !! (length ps - 2)%nat;
  r_ok : versions_ok a;
}.

Lemma trx_range t : is_trx t -> 2 ^ 63 <= t < 2 ^ 64.
Proof. intros [Hf Hv]. apply valid_ge in Hv; [|done]. unfold fits in Hf. lia. Qed.

Lemma time_range c : is_time c -> 0 <= c < 2 ^ 63 /\ IS_VALID_TRX_ID c = false.
Proof. unfold is_time, MAX_TIME. intros Hc. split; [lia|]. apply not_valid_low. lia. Qed.

Lemma committed_trx_id {V} (i : Item V) : is_time (begin_time i) -> GetTransactionID i = 0 /\ GetEndTime i = end_time i.
Proof.
  intros Hc. apply time_range in Hc as [_ Hv]. unfold GetEndTime, GetTransactionID. by rewrite Hv.
Qed.

Lemma pending_trx_id {V} (i : Item V) : is_trx (begin_time i) -> GetTransactionID i = begin_time i.
Proof. intros [_ Hv]. unfold GetTransactionID. by rewrite Hv. Qed.

#[export] Hint Resolve r_nodup r_seg r_ok vo_sorted vo_times : gtran.

Section Operations.
Context {V : Type} `{!MVCCItem V}.
Implicit Types (h : gmap nat (Item V)) (l : MVCCList) (ps : list nat) (a : versions V).

(** The tail of a list, by whether it is pending. *)
Lemma tail_pending h l ps a t b v : repr h l ps a -> pending a = Some (t, b, v) ->
  exists qs p, ps = qs ++ [p] /\ tail_ l = Some p /\ h !! p = Some (mk_item t b None v) /\
    seg h qs (items_to (committed a) t) (Some p) /\ pre_tail_ l = Some (default p (last qs)).
Proof.
  intros Hr Hp. pose proof (r_seg _ _ _ _ Hr) as Hs. unfold items_of in Hs. rewrite Hp in Hs.
  apply seg_snoc_inv in Hs as (qs & p & -> & Hpl & Hs). exists qs, p.
  split_and!; [done|by rewrite (r_tail _ _ _ _ Hr), last_snoc|done|done|].
  rewrite (r_pre _ _ _ _ Hr) by (by rewrite Hp). rewrite length_app. cbn.
  destruct qs as [|q qs _] using rev_ind; [done|]. rewrite last_snoc, length_app. cbn.
  rewrite <- app_assoc. cbn [app]. replace (length qs + 1 + 1 - 2)%nat with (length qs) by lia.
  by rewrite list_lookup_middle.
Qed.

Lemma tail_committed h l ps a cs c v : repr h l ps a -> pending a = None -> committed a = cs ++ [(c, v)] ->
  exists qs q, ps = qs ++ [q] /\ tail_ l = Some q /\ h !! q = Some (mk_item c MAX_TIME None v) /\
    seg h qs (items_to cs c) (Some q).
Proof.
  intros Hr Hp Hc. pose proof (r_seg _ _ _ _ Hr) as Hs. unfold items_of in Hs. rewrite Hp, Hc in Hs.
  cbn [end_of pend_items] in Hs. rewrite app_nil_r, items_to_snoc in Hs.
  apply seg_snoc_inv in Hs as (qs & q & -> & Hq & Hs). exists qs, q.
  by rewrite (r_tail _ _ _ _ Hr), last_snoc.
Qed.

Lemma repr_empty h l ps a : repr h l ps a -> ps = [] <-> committed a = [] /\ pending a = None.
Proof.
  intros Hr. pose proof (seg_length _ _ _ _ (r_seg _ _ _ _ Hr)) as L. unfold items_of in L.
  rewrite length_app, items_to_length in L. split.
  - intros ->. cbn in L. destruct (committed a), (pending a) as [[[??]?]|]; cbn in L; done || lia.
  - intros [Hc Hp]. rewrite Hc, Hp in L. by destruct ps.
Qed.

Lemma head_nonempty (ps : list nat) : ps <> [] -> exists x, head ps = Some x.
Proof. destruct ps as [|x ps]; [done|]. by exists x. Qed.

Lemma seg_insert_fresh h ps (its : list (Z * Z * V)) n p i : (p ∉ ps) -> seg h ps its n -> seg (<[p := i]> h) ps its n.
Proof. intros Hp. apply seg_agree. intros q Hq. apply lookup_insert_ne. by intros ->. Qed.

Lemma snoc_not_in (qs : list nat) p : NoDup (qs ++ [p]) -> p ∉ qs.
Proof. intros (_ & Hd & _)%NoDup_app Hp. by apply (Hd p Hp), list_elem_of_singleton. Qed.

Lemma committed_ok_last a cs c v : versions_ok a -> committed a = cs ++ [(c, v)] -> is_time c.
Proof.
  intros Hok Hc. pose proof (vo_times _ Hok) as Ht. rewrite Hc, fmap_app in Ht.
  apply Forall_app in Ht as [_ Ht]. by apply Forall_cons in Ht as [Ht _].
Qed.

(** Writing through the pointer of an item that a write changes only there. *)
Lemma write_insert h p i v : write_val (<[p := i]> h) p v = Some (<[p := set_val i v]> h).
Proof. unfold write_val. rewrite lookup_insert_eq. cbn. by rewrite insert_insert_eq. Qed.

(** Appending to a list: on a conflict nothing changes; otherwise writing the
    value makes it the pending version. *)
Definition appended h l ps a (t bt : Z) (p : nat) (r : append_result V) (h' : gmap nat (Item V)) (l' : MVCCList) : Prop :=
  match ap_item r with
  | None => (forall v, append_abs a t bt v = None) /\ h' = h /\ l' = l
  | Some q =>
      (q = p \/ q ∈ ps) /\
      forall v, exists h'' ps' a', write_val h' q v = Some h'' /\ append_abs a t bt v = Some a' /\
        repr h'' l' ps' a' /\ (forall x, x ∈ ps' -> x = p \/ x ∈ ps) /\
        (forall x, x ∈ ps -> x ∈ ps') /\ (forall x, (x ∉ ps') -> h'' !! x = h !! x)
  end.

Lemma append_empty h l ps a t bt p stale : repr h l ps a -> is_trx t -> ps = [] ->
  AppendVersion h l t bt p stale = Some (mk_append (Some p) None true [], <[p := Init t bt stale]> h,
    mk_list (Some p) (Some p) (Some p) (Some p)) /\
  appended h l ps a t bt p (mk_append (Some p) None true []) (<[p := Init t bt stale]> h)
    (mk_list (Some p) (Some p) (Some p) (Some p)).
Proof.
  intros Hr Ht ->. unfold AppendVersion. rewrite (r_head _ _ _ _ Hr). split; [done|].
  split; [by left|]. intros v. destruct (proj1 (repr_empty _ _ _ _ Hr) eq_refl) as [Hc Hp].
  exists (<[p := mk_item t bt None v]> h), [p], (mk_versions [] (Some (t, bt, v))).
  rewrite write_insert. unfold append_abs. rewrite Hp, Hc. split_and!; try done.
  - split; try done.
    + apply NoDup_singleton.
    + cbn. by rewrite lookup_insert_eq.
    + split; cbn; [constructor|constructor|]. by intros ??? [= <- <- <-].
  - intros x Hx%list_elem_of_singleton. by left.
  - by intros x ?%not_elem_of_nil.
  - intros x Hx. apply lookup_insert_ne. set_solver.
Qed.

Lemma append_own h l ps a t bt p stale b v0 : repr h l ps a -> pending a = Some (t, b, v0) ->
  exists q h', AppendVersion h l t bt p stale =
    Some (mk_append (Some q) None false (if NeedGC v0 then [v0] else []), h', l) /\
  appended h l ps a t bt p (mk_append (Some q) None false (if NeedGC v0 then [v0] else [])) h' l.
Proof.
  intros Hr Hp. destruct (tail_pending _ _ _ _ _ _ _ Hr Hp) as (qs & q & -> & Htl & Hq & Hs & Hpre).
  pose proof (vo_pending _ (r_ok _ _ _ _ Hr) _ _ _ Hp) as Ht.
  assert (exists hd, head_ l = Some hd) as [hd Hhd].
  { rewrite (r_head _ _ _ _ Hr). apply head_nonempty. by destruct qs. }
  unfold AppendVersion. rewrite Hhd, Htl. cbn [mbind option_bind]. rewrite Hq. cbn [mbind option_bind begin_time val].
  rewrite pending_trx_id by done. cbn [begin_time]. rewrite Z.eqb_refl.
  pose proof (trx_range t Ht). destruct (Z.ltb_spec MAX_TIME t); [|unfold MAX_TIME in *; lia].
  eexists q, _. split; [done|]. split; [right; set_solver|]. intros v.
  exists (<[q := mk_item t b None v]> h), (qs ++ [q]), (mk_versions (committed a) (Some (t, b, v))).
  pose proof (snoc_not_in _ _ (r_nodup _ _ _ _ Hr)) as Hnq. split_and!.
  - destruct (NeedGC v0); [by rewrite write_insert|]. unfold write_val. by rewrite Hq.
  - unfold append_abs. by rewrite Hp, Z.eqb_refl.
  - split; [apply Hr|..|apply Hr|apply Hr| |].
    + unfold items_of. cbn. rewrite seg_snoc by (by eapply seg_length).
      split; [by apply seg_insert_fresh|]. by rewrite lookup_insert_eq.
    + intros _. apply (r_pre _ _ _ _ Hr). by rewrite Hp.
    + destruct (r_ok _ _ _ _ Hr) as [H1 H2 H3]. split; [done|done|]. cbn. by intros ??? [= <- <- <-].
  - intros x Hx. by right.
  - done.
  - intros x Hx. apply lookup_insert_ne. set_solver.
Qed.

Lemma append_conflict h l ps a t t0 bt p stale b v0 : repr h l ps a -> pending a = Some (t0, b, v0) -> t0 <> t ->
  AppendVersion h l t bt p stale = Some (mk_append None None false [], h, l) /\
  appended h l ps a t bt p (mk_append None None false []) h l.
Proof.
  intros Hr Hp Hne. destruct (tail_pending _ _ _ _ _ _ _ Hr Hp) as (qs & q & -> & Htl & Hq & Hs & Hpre).
  pose proof (vo_pending _ (r_ok _ _ _ _ Hr) _ _ _ Hp) as Ht.
  assert (exists hd, head_ l = Some hd) as [hd Hhd].
  { rewrite (r_head _ _ _ _ Hr). apply head_nonempty. by destruct qs. }
  unfold AppendVersion. rewrite Hhd, Htl. cbn [mbind option_bind]. rewrite Hq. cbn [mbind option_bind begin_time val].
  rewrite pending_trx_id by done. cbn [begin_time]. rewrite (proj2 (Z.eqb_neq t0 t) Hne).
  pose proof (trx_range t0 Ht). destruct (Z.ltb_spec MAX_TIME t0); [|unfold MAX_TIME in *; lia].
  split; [done|]. split; [|done]. intros v. unfold append_abs. by rewrite Hp, (proj2 (Z.eqb_neq t0 t) Hne).
Qed.

Lemma append_new h l ps a t bt p stale cs c v0 :
  repr h l ps a -> is_trx t -> h !! p = None -> pending a = None -> committed a = cs ++ [(c, v0)] ->
  exists h' l', AppendVersion h l t bt p stale = Some (mk_append (Some p) (Some v0) false [], h', l') /\
  appended h l ps a t bt p (mk_append (Some p) (Some v0) false []) h' l'.
Proof.
  intros Hr Ht Hfresh Hp Hc. destruct (tail_committed _ _ _ _ _ _ _ Hr Hp Hc) as (qs & q & -> & Htl & Hq & Hs).
  pose proof (committed_ok_last _ _ _ _ (r_ok _ _ _ _ Hr) Hc) as Htime.
  assert (p ∉ qs ++ [q]) as Hpn.
  { intros Hin. pose proof (seg_is_Some _ _ _ _ _ (r_seg _ _ _ _ Hr) Hin) as [? ?]. congruence. }
  pose proof (snoc_not_in _ _ (r_nodup _ _ _ _ Hr)) as Hnq.
  assert (exists hd, head_ l = Some hd) as [hd Hhd].
  { rewrite (r_head _ _ _ _ Hr). apply head_nonempty. by destruct qs. }
  unfold AppendVersion. rewrite Hhd, Htl. cbn [mbind option_bind]. rewrite Hq. cbn [mbind option_bind begin_time val].
  destruct (Z.ltb_spec MAX_TIME c) as [Hbad|_]; [destruct Htime; lia|].
  eexists _, _. split; [done|]. split; [by left|]. intros v.
  exists (<[q := mk_item c t (Some p) v0]> (<[p := mk_item t bt None v]> h)), (qs ++ [q; p]),
    (mk_versions (committed a) (Some (t, bt, v))).
  assert (p <> q /\ (p ∉ qs)) as [Hpq Hpqs] by set_solver. split_and!.
  - unfold write_val. rewrite lookup_insert_ne, lookup_insert_eq by done. cbn [mbind option_bind].
    rewrite insert_insert_ne by done. by rewrite insert_insert_eq.
  - unfold append_abs. by rewrite Hp.
  - split; cbn [head_ tail_ pre_tail_ committed pending].
    + pose proof (r_nodup _ _ _ _ Hr). change [q; p] with ([q] ++ [p]). rewrite (assoc_L (++)).
      apply NoDup_app. split; [done|]. split; [|apply NoDup_singleton].
      intros x Hx ->%list_elem_of_singleton. done.
    + unfold items_of. cbn. rewrite Hc, items_to_snoc. change [q; p] with ([q] ++ [p]).
      pose proof (seg_length _ _ _ _ Hs). rewrite (assoc_L (++)). rewrite seg_snoc by (rewrite !length_app; cbn; lia).
      rewrite seg_snoc by done. rewrite lookup_insert_eq, lookup_insert_ne, lookup_insert_eq by done.
      split_and!; [|done..]. by repeat apply seg_insert_fresh.
    + rewrite <- Hhd, (r_head _ _ _ _ Hr). by destruct qs.
    + change [q; p] with ([q] ++ [p]). by rewrite (assoc_L (++)), last_snoc.
    + intros _. rewrite length_app. cbn. replace (length qs + 2 - 2)%nat with (length qs) by lia.
      by rewrite list_lookup_middle.
    + destruct (r_ok _ _ _ _ Hr) as [H1 H2 H3]. split; [done|done|]. cbn. by intros ??? [= <- <- <-].
  - intros x Hx. set_solver.
  - intros x Hx. set_solver.
  - intros x Hx. rewrite !lookup_insert_ne by set_solver. done.
Qed.

Lemma append_spec h l ps a t bt p stale : repr h l ps a -> is_trx t -> h !! p = None ->
  exists r h' l', AppendVersion h l t bt p stale = Some (r, h', l') /\
    appended h l ps a t bt p r h' l' /\
    ap_old r = (match pending a with Some _ => None | None => snd <$> last (committed a) end) /\
    ap_absent r = bool_decide (committed a = [] /\ pending a = None).
Proof.
  intros Hr Ht Hfresh. destruct (pending a) as [[[t0 b0] v0]|] eqn:Hp.
  - rewrite bool_decide_false by naive_solver. destruct (decide (t0 = t)) as [->|Hne].
    + destruct (append_own h l ps a t bt p stale b0 v0 Hr Hp) as (q & h' & H1 & H2). by eauto 10.
    + destruct (append_conflict h l ps a t t0 bt p stale b0 v0 Hr Hp Hne) as [H1 H2]. by eauto 10.
  - destruct (committed a) as [|[c v0] cs _] eqn:Hc using rev_ind.
    + destruct (append_empty h l ps a t bt p stale Hr Ht) as [H1 H2]; [by apply (repr_empty _ _ _ _ Hr)|].
      by eauto 10.
    + rewrite bool_decide_false by (intros [Hx _]; by destruct cs).
      destruct (append_new h l ps a t bt p stale cs c v0 Hr Ht Hfresh Hp Hc) as (h' & l' & H1 & H2).
      rewrite last_snoc. by eauto 10.
Qed.

(** A commit turns the pending version into the newest committed one. *)
Lemma commit_spec h l ps a t b v ct : repr h l ps a -> pending a = Some (t, b, v) ->
  is_time ct -> Forall (fun c => c < ct) (committed a).*1 ->
  exists h' l', CommitVersion h l t ct = Some (h', l') /\ repr h' l' ps (commit_abs a ct) /\
    (forall x, (x ∉ ps) -> h' !! x = h !! x).
Proof.
  intros Hr Hp Hct Hlt. destruct (tail_pending _ _ _ _ _ _ _ Hr Hp) as (qs & p & -> & Htl & Hq & Hs & Hpre).
  pose proof (vo_pending _ (r_ok _ _ _ _ Hr) _ _ _ Hp) as Ht.
  pose proof (snoc_not_in _ _ (r_nodup _ _ _ _ Hr)) as Hnp.
  unfold CommitVersion, Commit. rewrite Htl. cbn [mbind option_bind]. rewrite Hq. cbn [mbind option_bind next val].
  rewrite pending_trx_id by done. cbn [begin_time]. rewrite Z.eqb_refl, Hpre.
  assert (versions_ok (commit_abs a ct)) as Hok'.
  { destruct (r_ok _ _ _ _ Hr) as [H1 H2 H3]. unfold commit_abs. rewrite Hp. split; cbn; [..|done].
    - rewrite fmap_app. cbn. clear -H1 Hlt. induction H1 as [|c cs H1 IH Hf]; cbn; [repeat constructor|].
      apply Forall_cons in Hlt as [? ?]. constructor; [by apply IH|]. apply Forall_app. split; [done|by apply Forall_singleton].
    - rewrite fmap_app. apply Forall_app. split; [done|by apply Forall_singleton]. }
  unfold commit_abs in *. rewrite Hp in *. destruct (committed a) as [|[c w] cs _] eqn:Hc using rev_ind.
  - destruct qs; [|by apply seg_length in Hs]. cbn [last default].
    rewrite decide_True by done. cbn [mbind option_bind]. eexists _, _. split; [done|]. split.
    + split; [exact (r_nodup _ _ _ _ Hr)| |exact (r_head _ _ _ _ Hr)|by rewrite last_snoc|done|done]. cbn. by rewrite lookup_insert_eq.
    + intros x Hx. apply lookup_insert_ne. set_solver.
  - rewrite items_to_snoc in Hs. apply seg_snoc_inv in Hs as (rs & q & -> & Hq' & Hs).
    pose proof (seg_length _ _ _ _ Hs) as L. assert (p <> q /\ (p ∉ rs)) as [Hpq Hprs] by set_solver.
    assert (q ∉ rs) as Hqrs.
    { apply snoc_not_in. pose proof (r_nodup _ _ _ _ Hr) as Hnd. by apply NoDup_app in Hnd as [Hnd _]. }
    rewrite last_snoc. cbn [default]. rewrite decide_False by (cbn; congruence). cbn [from_option id].
    rewrite lookup_insert_ne, Hq' by done. cbn [mbind option_bind]. eexists _, _. split; [done|]. split.
    + split; [exact (r_nodup _ _ _ _ Hr)| |exact (r_head _ _ _ _ Hr)|by rewrite last_snoc|done|done]. unfold items_of. cbn [committed pending pend_items end_of].
      rewrite app_nil_r, items_to_snoc, items_to_snoc. rewrite seg_snoc by (rewrite !length_app; cbn; lia).
      rewrite seg_snoc by done. rewrite lookup_insert_eq, lookup_insert_ne, lookup_insert_eq by done.
      split_and!; [by repeat apply seg_insert_fresh|done|done].
    + intros x Hx. rewrite !lookup_insert_ne by set_solver. done.
Qed.

(** An abort removes the pending version; its cell is freed. *)
Lemma abort_spec h l ps a t b v : repr h l ps a -> pending a = Some (t, b, v) ->
  exists p qs h' l', ps = qs ++ [p] /\
    AbortVersion h l t = Some (p, if NeedGC v then [v] else [], h', l') /\
    repr h' l' qs (abort_abs a) /\ h' !! p = None /\ (forall x, (x ∉ ps) -> h' !! x = h !! x).
Proof.
  intros Hr Hp. destruct (tail_pending _ _ _ _ _ _ _ Hr Hp) as (qs & p & -> & Htl & Hq & Hs & Hpre).
  pose proof (vo_pending _ (r_ok _ _ _ _ Hr) _ _ _ Hp) as Ht.
  pose proof (snoc_not_in _ _ (r_nodup _ _ _ _ Hr)) as Hnp.
  pose proof (r_nodup _ _ _ _ Hr) as Hnd. apply NoDup_app in Hnd as [Hnd _].
  assert (versions_ok (abort_abs a)) as Hok'.
  { destruct (r_ok _ _ _ _ Hr) as [H1 H2 H3]. by split. }
  unfold AbortVersion. rewrite Htl. cbn [mbind option_bind]. rewrite Hq. cbn [mbind option_bind next val].
  rewrite pending_trx_id by done. cbn [begin_time]. rewrite Z.eqb_refl, Hpre. unfold abort_abs in *.
  exists p, qs. destruct (committed a) as [|[c w] cs _] eqn:Hc using rev_ind.
  - destruct qs; [|by apply seg_length in Hs]. cbn [last default from_option].
    rewrite decide_True by done. eexists _, _. split_and!; [done|done|..].
    + by split.
    + apply lookup_delete_eq.
    + intros x Hx. apply lookup_delete_ne. set_solver.
  - rewrite items_to_snoc in Hs. apply seg_snoc_inv in Hs as (rs & q & -> & Hq' & Hs).
    pose proof (seg_length _ _ _ _ Hs) as L. assert (p <> q /\ (p ∉ rs)) as [Hpq Hprs] by set_solver.
    pose proof (snoc_not_in _ _ Hnd) as Hqrs.
    rewrite last_snoc. cbn [from_option id]. rewrite decide_False by congruence. cbn [mbind option_bind].
    rewrite lookup_delete_ne, Hq' by done. cbn [mbind option_bind]. eexists _, _. split_and!; [done|done|..].
    + split; cbn [head_ tail_ pending committed].
      * done.
      * unfold items_of. cbn [committed pending pend_items end_of]. rewrite app_nil_r, items_to_snoc, seg_snoc by done.
        rewrite lookup_insert_eq. split; [|done]. apply seg_insert_fresh; [done|].
        revert Hs. apply seg_agree. intros x Hx. apply lookup_delete_ne. set_solver.
      * rewrite (r_head _ _ _ _ Hr). by destruct rs.
      * by rewrite last_snoc.
      * done.
      * done.
    + rewrite lookup_insert_ne by done. apply lookup_delete_eq.
    + intros x Hx. rewrite lookup_insert_ne, lookup_delete_ne by set_solver. done.
Qed.

(** Clearing a list frees its cells, each once. *)
Lemma free_chain_spec fuel h ps (its : list (Z * Z * V)) :
  NoDup ps -> seg h ps its None -> (length ps <= fuel)%nat ->
  exists h', free_chain fuel h (head ps) = Some (ps, filter (fun v => NeedGC v = true) its.*2, h') /\
    (forall x, x ∈ ps -> h' !! x = None) /\ (forall x, (x ∉ ps) -> h' !! x = h !! x).
Proof.
  revert h its fuel. induction ps as [|p ps IH]; intros h [|[[b e] v] its] fuel Hnd Hs Hf; try done.
  { exists h. split_and!; [by destruct fuel|by intros x ?%not_elem_of_nil|done]. }
  destruct Hs as [Hp Hs]. apply NoDup_cons in Hnd as [Hpn Hnd]. cbn in Hf.
  destruct fuel as [|fuel]; [lia|]. cbn [free_chain head]. rewrite Hp. cbn [mbind option_bind next val].
  destruct (IH (delete p h) its fuel) as (h' & Hfc & H1 & H2); [done| |lia|].
  { revert Hs. apply seg_agree. intros x Hx. apply lookup_delete_ne. by intros ->. }
  replace (hd_or ps None) with (head ps) by (by destruct ps). rewrite Hfc. cbn [mbind option_bind].
  exists h'. split_and!.
  - cbn [fmap list_fmap snd]. destruct (NeedGC v) eqn:Hg.
    + by rewrite filter_cons_True by done.
    + by rewrite filter_cons_False by congruence.
  - intros x [->|Hx]%elem_of_cons; [|by apply H1]. rewrite H2 by done. apply lookup_delete_eq.
  - intros x Hx. apply not_elem_of_cons in Hx as [Hxp Hx]. rewrite H2 by done. by apply lookup_delete_ne.
Qed.
End Operations.

(** ** Reads *)

Section Reads.
Context {V : Type} `{!MVCCItem V}.
Implicit Types (h : gmap nat (Item V)) (l : MVCCList) (ps : list nat) (a : versions V) (cs : list (Z * V)).

Lemma visible_None cs bt : (forall c v, head cs = Some (c, v) -> bt < c) -> visible cs bt = None.
Proof.
  destruct cs as [|[c v] cs]; [done|]. cbn. intros H. specialize (H c v eq_refl).
  by rewrite (proj2 (Z.leb_gt c bt)).
Qed.

(** The loop finds the version whose interval contains the begin time. *)
Lemma locate_spec fuel h ps cs w bt c0 v0 p0 :
  head cs = Some (c0, v0) -> head ps = Some p0 -> c0 <= bt -> bt < end_of w ->
  NoDup ps -> seg h ps (items_to cs (end_of w) ++ pend_items w) None ->
  StronglySorted Z.lt cs.*1 -> Forall is_time cs.*1 -> (length ps <= fuel)%nat ->
  exists k p c v, locate fuel h p0 (last ps) bt = Some p /\ ps !! k = Some p /\ cs !! k = Some (c, v) /\
    visible cs bt = Some v /\ h !! p = Some (mk_item c (first_time (drop (S k) cs) (end_of w)) (ps !! S k) v) /\
    bt < first_time (drop (S k) cs) (end_of w) /\ c <= bt.
Proof.
  intros Hc0 Hp0 Hle Hend. revert fuel ps c0 v0 p0 Hc0 Hp0 Hle.
  induction cs as [|[c v] cs IH]; intros fuel ps c0 v0 p0 Hc0 Hp0 Hle Hnd Hs Hsort Htm Hf; [done|].
  destruct ps as [|p ps]; [done|]. injection Hc0 as -> ->. injection Hp0 as ->.
  destruct Hs as [Hp Hs]. apply NoDup_cons in Hnd as [Hpn Hnd].
  cbn in Hsort, Htm. inversion_clear Hsort as [|? ? Hsort' Hlt]. apply Forall_cons in Htm as [Htc Htm].
  destruct fuel as [|fuel]; [cbn in Hf; lia|]. cbn [locate]. rewrite Hp. cbn [mbind option_bind].
  destruct (committed_trx_id (mk_item c0 (first_time cs (end_of w)) (hd_or ps None) v0)) as [_ ->]; [done|].
  cbn [end_time next visible]. rewrite (proj2 (Z.leb_le c0 bt)) by done.
  destruct (Z.ltb_spec bt (first_time cs (end_of w))) as [Hb|Hb].
  - exists 0%nat, p0, c0, v0. split_and!; [done..| |by destruct ps|done|done].
    rewrite visible_None; [done|]. intros c v Hc. destruct cs as [|[??] ?]; [done|]. by injection Hc as -> ->.
  - destruct cs as [|[c1 v1] cs]; [cbn in Hb; lia|]. cbn in Hb.
    destruct ps as [|p1 ps]; [done|]. rewrite decide_False.
    2:{ rewrite last_cons_cons. intros [= Hl]. apply Hpn. by apply last_Some_elem_of. }
    cbn [hd_or mbind option_bind]. rewrite last_cons_cons.
    destruct (IH fuel (p1 :: ps) c1 v1 p1) as (k & p & c & v & H1 & H2 & H3 & H4 & H5 & H6 & H7);
      [done..|cbn in Hf |- *; lia|].
    exists (S k), p, c, v. split_and!; try done. by rewrite H4.
Qed.

Lemma visible_head cs bt c v : head cs = Some (c, v) -> c <= bt -> is_Some (visible cs bt).
Proof.
  destruct cs as [|[??] cs]; [done|]. intros [= -> ->] Hle. cbn. rewrite (proj2 (Z.leb_le c bt)) by done.
  by destruct (visible cs bt).
Qed.

(** What a nonempty list looks like to a reader. *)
Lemma repr_first h l ps a c v : repr h l ps a -> head (committed a) = Some (c, v) ->
  exists p, head_ l = Some p /\ head ps = Some p /\ is_time c /\
    h !! p = Some (mk_item c (first_time (tail (committed a)) (end_of (pending a))) (hd_or (tail ps) None) v).
Proof.
  intros Hr Hc. pose proof (r_seg _ _ _ _ Hr) as Hs. unfold items_of in Hs.
  pose proof (vo_times _ (r_ok _ _ _ _ Hr)) as Ht. rewrite (r_head _ _ _ _ Hr).
  destruct (committed a) as [|[c0 v0] cs]; [done|]. injection Hc as -> ->.
  destruct ps as [|p ps]; [done|]. cbn in Ht. apply Forall_cons in Ht as [Ht _].
  destruct Hs as [Hp _]. by exists p.
Qed.

Lemma end_of_time a bt : versions_ok a -> is_time bt -> bt < end_of (pending a).
Proof.
  intros Hok [Hb1 Hb2]. destruct (pending a) as [[[t b] v]|] eqn:Hp; cbn; [|done].
  pose proof (trx_range t (vo_pending _ Hok _ _ _ Hp)). unfold MAX_TIME in Hb2. lia.
Qed.

Lemma repr_locate h l ps a bt c v p0 : repr h l ps a -> is_time bt -> head (committed a) = Some (c, v) ->
  c <= bt -> head_ l = Some p0 ->
  exists k p c v, locate (size h) h p0 (tail_ l) bt = Some p /\ ps !! k = Some p /\
    committed a !! k = Some (c, v) /\ visible (committed a) bt = Some v /\
    h !! p = Some (mk_item c (first_time (drop (S k) (committed a)) (end_of (pending a))) (ps !! S k) v) /\
    bt < first_time (drop (S k) (committed a)) (end_of (pending a)) /\ c <= bt.
Proof.
  intros Hr Hbt Hc Hle Hp0. rewrite (r_tail _ _ _ _ Hr). rewrite (r_head _ _ _ _ Hr) in Hp0.
  destruct (r_ok _ _ _ _ Hr) as [Hsort Htm _].
  eapply (locate_spec _ h ps (committed a) (pending a) bt c v p0); eauto with gtran.
  - by apply end_of_time; eauto with gtran.
  - eapply seg_size; eauto with gtran.
Qed.

Lemma trx_nonzero t : is_trx t -> t <> 0.
Proof. intros Ht%trx_range. lia. Qed.

(** The transaction id of the tail: the pending one's, or 0. *)
Lemma tail_trx_id h l ps a : repr h l ps a -> ps <> [] ->
  exists q i, tail_ l = Some q /\ h !! q = Some i /\
    match pending a with
    | Some (t, _, v) => GetTransactionID i = t /\ val i = v
    | None => GetTransactionID i = 0
    end.
Proof.
  intros Hr Hne. destruct (pending a) as [[[t b] v]|] eqn:Hp.
  - destruct (tail_pending _ _ _ _ _ _ _ Hr Hp) as (qs & q & _ & Htl & Hq & _).
    eexists q, _. split_and!; [done|done|..|done]. apply pending_trx_id.
    by eapply (vo_pending _ (r_ok _ _ _ _ Hr)).
  - destruct (committed a) as [|[c v] cs _] eqn:Hc using rev_ind.
    { destruct Hne. by apply (repr_empty _ _ _ _ Hr). }
    destruct (tail_committed _ _ _ _ _ _ _ Hr Hp Hc) as (qs & q & _ & Htl & Hq & _).
    eexists q, _. split_and!; [done|done|]. apply committed_trx_id. cbn.
    by eapply committed_ok_last; [apply (r_ok _ _ _ _ Hr)|].
Qed.

(** A list whose first item is pending has no other. *)
Lemma head_pending h l ps a t b v : repr h l ps a -> committed a = [] -> pending a = Some (t, b, v) ->
  exists p, head_ l = Some p /\ h !! p = Some (mk_item t b None v).
Proof.
  intros Hr Hc Hp. pose proof (r_seg _ _ _ _ Hr) as Hs. unfold items_of in Hs. rewrite Hc, Hp in Hs.
  rewrite (r_head _ _ _ _ Hr). destruct ps as [|p [|]]; cbn in Hs; try naive_solver.
Qed.

Lemma snapshot_read_spec h l ps a t bt : repr h l ps a -> is_trx t -> is_time bt ->
  SnapshotLevelGetVisibleVersion h l t bt = Some (snapshot_read a t bt).
Proof.
  intros Hr Ht Hbt. unfold SnapshotLevelGetVisibleVersion, snapshot_read.
  destruct (decide (ps = [])) as [->|Hne].
  { destruct (proj1 (repr_empty _ _ _ _ Hr) eq_refl) as [-> ->]. by rewrite (r_head _ _ _ _ Hr). }
  destruct (tail_trx_id _ _ _ _ Hr Hne) as (q & i & Htl & Hq & Hi).
  rewrite (r_head _ _ _ _ Hr). destruct (head_nonempty ps Hne) as [p0 Hp0]. rewrite Hp0, Htl.
  cbn [mbind option_bind]. rewrite Hq. cbn [mbind option_bind].
  pose proof (trx_nonzero t Ht) as Ht0.
  destruct (head (committed a)) as [[c v]|] eqn:Hc.
  - destruct (repr_first _ _ _ _ _ _ Hr Hc) as (p & _ & Hpp & Htc & Hhp). replace p with p0 in * by congruence.
    assert ((f ← h !! p0; if negb (GetTransactionID f =? 0) || (bt <? begin_time f) then Some None
      else p ← locate (size h) h p0 (Some q) bt; v ← h !! p; Some (Some (val v))) =
      Some (visible (committed a) bt)) as Hmain.
    { rewrite Hhp. cbn [mbind option_bind]. destruct (committed_trx_id (mk_item c
        (first_time (tail (committed a)) (end_of (pending a))) (hd_or (tail ps) None) v)) as [-> _]; [done|].
      cbn [Z.eqb negb orb begin_time]. destruct (Z.ltb_spec bt c) as [Hlt|Hge].
      - rewrite visible_None; [done|]. intros ?? Hcc. rewrite Hc in Hcc. by injection Hcc as <- <-.
      - rewrite <- Htl. destruct (repr_locate _ _ _ _ bt c v p0 Hr Hbt Hc Hge) as
          (k & p2 & c1 & v1 & -> & _ & _ & -> & Hp1 & _); [by rewrite (r_head _ _ _ _ Hr)|].
        cbn [mbind option_bind]. by rewrite Hp1. }
    destruct (pending a) as [[[t0 b0] v0]|]; [destruct Hi as [-> ->]; by destruct (t0 =? t)|].
    rewrite Hi. by destruct (Z.eqb_spec 0 t); [congruence|].
  - destruct (committed a) as [|x cs] eqn:Hca; [|done].
    destruct (pending a) as [[[t0 b0] v0]|] eqn:Hp.
    2:{ destruct Hne. by apply (repr_empty _ _ _ _ Hr). }
    destruct Hi as [-> ->]. destruct (t0 =? t); [done|].
    destruct (head_pending _ _ _ _ _ _ _ Hr Hca Hp) as (p & Hhd & Hhp).
    rewrite (r_head _ _ _ _ Hr), Hp0 in Hhd. injection Hhd as <-. rewrite Hhp. cbn [mbind option_bind].
    pose proof (vo_pending _ (r_ok _ _ _ _ Hr) _ _ _ Hp) as Ht0'.
    rewrite pending_trx_id by done. cbn [begin_time]. pose proof (trx_nonzero t0 Ht0').
    by rewrite (proj2 (Z.eqb_neq t0 0)).
Qed.
End Reads.

(** ** Histories of a list *)

Inductive event (V : Type) :=
  | EInit (v : V)
  | EAppend (t bt : Z) (v : V)
  | ECommit (t ct : Z)
  | EAbort (t : Z)
  | EClear.
Arguments EInit {V}.
Arguments EAppend {V}.
Arguments ECommit {V}.
Arguments EAbort {V}.
Arguments EClear {V}.

#[global] Instance is_time_dec c : Decision (is_time c).
Proof. unfold is_time. apply _. Defined.
#[global] Instance is_trx_dec t : Decision (is_trx t).
Proof. unfold is_trx, fits. apply _. Defined.

Section Histories.
Context {V : Type} `{!MVCCItem V}.
(** The memory pool: some cell that is not in use. *)
Context (alloc : gmap nat (Item V) -> nat) (stale : V).
Implicit Types (h : gmap nat (Item V)) (l : MVCCList) (ps : list nat) (a : versions V) (e : event V).

(** The calls of the storage on one list; an append is followed by the write
    of the value. *)
Definition run_event (s : gmap nat (Item V) * MVCCList) e : option (gmap nat (Item V) * MVCCList) :=
  let '(h, l) := s in
  match e with
  | EInit v =>
      let '(p, h1, l1) := AppendInitialVersion h l (alloc h) stale in
      h2 ← write_val h1 p v; Some (h2, l1)
  | EAppend t bt v =>
      '(r, h1, l1) ← AppendVersion h l t bt (alloc h) stale;
      match ap_item r with
      | Some q => h2 ← write_val h1 q v; Some (h2, l1)
      | None => Some (h1, l1)
      end
  | ECommit t ct => CommitVersion h l t ct
  | EAbort t => '(_, _, h1, l1) ← AbortVersion h l t; Some (h1, l1)
  | EClear => '(_, _, h1, l1) ← SelfGarbageCollect h l; Some (h1, l1)
  end.

Fixpoint run_events (s : gmap nat (Item V) * MVCCList) (es : list (event V))
    : option (gmap nat (Item V) * MVCCList) :=
  match es with [] => Some s | e :: es' => s' ← run_event s e; run_events s' es' end.

(** The same calls on the abstract state; [None] is a call that breaks the
    protocol: only the writer ends a pending version, and commit times grow. *)
Definition abs_event a e : option (versions V) :=
  match e with
  | EInit v =>
      match committed a, pending a with
      | [], None => Some (mk_versions [(MIN_TIME, v)] None)
      | _, _ => None
      end
  | EAppend t bt v => if decide (is_trx t) then Some (default a (append_abs a t bt v)) else None
  | ECommit t ct =>
      match pending a with
      | Some (t', _, _) =>
          if decide (t' = t /\ is_time ct /\ Forall (fun c => c < ct) (committed a).*1)
          then Some (commit_abs a ct) else None
      | None => None
      end
  | EAbort t =>
      match pending a with
      | Some (t', _, _) => if decide (t' = t) then Some (abort_abs a) else None
      | None => None
      end
  | EClear => Some (mk_versions [] None)
  end.

Fixpoint abs_events a (es : list (event V)) : option (versions V) :=
  match es with [] => Some a | e :: es' => a' ← abs_event a e; abs_events a' es' end.

(** The list represents the state and uses the whole heap. *)
Definition full_repr (s : gmap nat (Item V) * MVCCList) a : Prop :=
  exists ps, repr s.1 s.2 ps a /\ forall x, (x ∉ ps) -> s.1 !! x = None.

Lemma empty_repr : full_repr (∅, empty_list) (mk_versions [] None).
Proof.
  exists []. split; [|intros; apply lookup_empty]. split; try done; [apply NoDup_nil_2|].
  split; cbn; [constructor|constructor|done].
Qed.

Hypothesis alloc_fresh : forall h, h !! alloc h = None.

Lemma init_full h l a v : full_repr (h, l) a -> committed a = [] -> pending a = None ->
  exists s', run_event (h, l) (EInit v) = Some s' /\ full_repr s' (mk_versions [(MIN_TIME, v)] None).
Proof using All.
  intros (ps & Hr & Hd) Hc Hp. cbn in Hr, Hd. cbn [run_event AppendInitialVersion]. rewrite write_insert.
  cbn [mbind option_bind]. eexists. split; [done|]. exists [alloc h]. cbn [fst snd].
  assert (ps = []) as -> by (by apply (repr_empty _ _ _ _ Hr)). split.
  - split; try done.
    + apply NoDup_singleton.
    + cbn. by rewrite lookup_insert_eq.
    + split; cbn; [repeat constructor|apply Forall_singleton; by split|done].
  - intros x Hx. rewrite lookup_insert_ne by set_solver. apply Hd. by apply not_elem_of_nil.
Qed.

Lemma append_full h l a t bt v : full_repr (h, l) a -> is_trx t ->
  exists s', run_event (h, l) (EAppend t bt v) = Some s' /\ full_repr s' (default a (append_abs a t bt v)).
Proof using All.
  intros (ps & Hr & Hd) Ht. cbn in Hr, Hd. cbn [run_event].
  destruct (append_spec h l ps a t bt (alloc h) stale Hr Ht (alloc_fresh h)) as (r & h1 & l1 & -> & Ha & _).
  cbn [mbind option_bind]. unfold appended in Ha. destruct (ap_item r) as [q|].
  - destruct Ha as [_ Ha]. destruct (Ha v) as (h2 & ps' & a' & -> & -> & Hr' & Hsub & Hsup & Hfr).
    cbn [mbind option_bind]. eexists. split; [done|]. exists ps'. split; [done|]. intros x Hx.
    cbn. rewrite Hfr by done. apply Hd. set_solver.
  - destruct Ha as (Hn & -> & ->). eexists. split; [done|]. rewrite Hn. by exists ps.
Qed.

Lemma commit_full h l a t b v ct : full_repr (h, l) a -> pending a = Some (t, b, v) -> is_time ct ->
  Forall (fun c => c < ct) (committed a).*1 ->
  exists s', run_event (h, l) (ECommit t ct) = Some s' /\ full_repr s' (commit_abs a ct).
Proof using All.
  intros (ps & Hr & Hd) Hp Hct Hlt. cbn in Hr, Hd. cbn [run_event].
  destruct (commit_spec h l ps a t b v ct Hr Hp Hct Hlt) as (h' & l' & -> & Hr' & Hfr).
  eexists. split; [done|]. exists ps. split; [done|]. intros x Hx. cbn. by rewrite Hfr, Hd.
Qed.

Lemma abort_full h l a t b v : full_repr (h, l) a -> pending a = Some (t, b, v) ->
  exists s', run_event (h, l) (EAbort t) = Some s' /\ full_repr s' (abort_abs a).
Proof using All.
  intros (ps & Hr & Hd) Hp. cbn in Hr, Hd. cbn [run_event].
  destruct (abort_spec h l ps a t b v Hr Hp) as (p & qs & h' & l' & -> & -> & Hr' & Hpn & Hfr).
  cbn [mbind option_bind]. eexists. split; [done|]. exists qs. split; [done|]. intros x Hx. cbn.
  destruct (decide (x = p)) as [->|Hxp]; [done|]. rewrite Hfr, Hd by set_solver. done.
Qed.

Lemma clear_full h l a : full_repr (h, l) a ->
  exists s', run_event (h, l) EClear = Some s' /\ full_repr s' (mk_versions [] None).
Proof using All.
  intros (ps & Hr & Hd). cbn in Hr, Hd. cbn [run_event]. unfold SelfGarbageCollect.
  rewrite (r_head _ _ _ _ Hr). destruct (free_chain_spec (size h) h ps (items_of a)) as (h' & -> & H1 & H2);
    [eauto with gtran..|eapply seg_size; eauto with gtran|].
  cbn [mbind option_bind]. eexists. split; [done|]. exists []. cbn [fst snd]. split.
  - split; try done; [apply NoDup_nil_2|]. split; cbn; [constructor|constructor|done].
  - intros x _. destruct (decide (x ∈ ps)); [by apply H1|]. by rewrite H2, Hd.
Qed.

(** One call on the list is one step of the abstract state. *)
Lemma event_simulation s a e a' : full_repr s a -> abs_event a e = Some a' ->
  exists s', run_event s e = Some s' /\ full_repr s' a'.
Proof using All.
  destruct s as [h l]. intros Hr Ha. destruct e as [v|t bt v|t ct|t|]; cbn [abs_event] in Ha.
  - destruct (committed a) eqn:Hc, (pending a) eqn:Hp; simplify_eq. by apply (init_full h l a).
  - case_decide; [|done]. simplify_eq. by apply append_full.
  - destruct (pending a) as [[[t' b] v]|] eqn:Hp; [|done]. case_decide as Hd; [|done]. simplify_eq.
    destruct Hd as (-> & ? & ?). by eapply commit_full.
  - destruct (pending a) as [[[t' b] v]|] eqn:Hp; [|done]. case_decide; [|done]. simplify_eq.
    by eapply abort_full.
  - simplify_eq. by eapply clear_full.
Qed.

Lemma events_simulation es s a a' : full_repr s a -> abs_events a es = Some a' ->
  exists s', run_events s es = Some s' /\ full_repr s' a'.
Proof using All.
  revert s a. induction es as [|e es IH]; intros s a Hr Ha; cbn in Ha |- *; [simplify_eq; by exists s|].
  destruct (abs_event a e) as [a1|] eqn:He; [|done]. cbn in Ha.
  destruct (event_simulation s a e a1 Hr He) as (s1 & -> & Hr1). cbn. by eapply IH.
Qed.
End Histories.

Lemma visible_snoc {V} (cs : list (Z * V)) c v bt : bt < c -> visible (cs ++ [(c, v)]) bt = visible cs bt.
Proof.
  intros Hlt. induction cs as [|[c0 v0] cs IH]; cbn; [by rewrite (proj2 (Z.leb_gt c bt))|].
  by rewrite IH.
Qed.

(** An event of another transaction that commits, if it does, after [bt]. *)
Definition foreign {V} (t bt : Z) (e : event V) : Prop :=
  match e with
  | EAppend t' _ _ => t' <> t
  | ECommit t' ct => t' <> t /\ bt < ct
  | EAbort t' => t' <> t
  | EInit _ | EClear => False
  end.

Lemma foreign_read {V} (a a' : versions V) e t bt :
  foreign t bt e -> abs_event a e = Some a' -> snapshot_read a' t bt = snapshot_read a t bt.
Proof.
  intros Hf Ha. unfold snapshot_read. destruct e as [v|t' b' v|t' ct|t'|]; cbn in Hf, Ha; try done.
  - case_decide; [|done]. simplify_eq. unfold append_abs.
    destruct (pending a) as [[[t0 b0] v0]|] eqn:Hp; cbn.
    + destruct (Z.eqb_spec t0 t') as [->|]; cbn; [|by rewrite Hp]. by rewrite (proj2 (Z.eqb_neq t' t)).
    + by rewrite (proj2 (Z.eqb_neq t' t)).
  - destruct (pending a) as [[[t0 b0] v0]|] eqn:Hp; [|done]. case_decide as Hd; [|done]. simplify_eq.
    destruct Hd as (-> & _). destruct Hf as [Hne Hlt]. unfold commit_abs. rewrite Hp. cbn.
    rewrite visible_snoc by done. by rewrite (proj2 (Z.eqb_neq t' t)).
  - destruct (pending a) as [[[t0 b0] v0]|] eqn:Hp; [|done]. case_decide as Hd; [|done]. simplify_eq.
    cbn. by rewrite (proj2 (Z.eqb_neq t' t)).
Qed.

Lemma foreign_reads {V} (es : list (event V)) a a' t bt :
  Forall (foreign t bt) es -> abs_events a es = Some a' -> snapshot_read a' t bt = snapshot_read a t bt.
Proof.
  intros Hf. revert a. induction Hf as [|e es He _ IH]; intros a Ha; cbn in Ha; [by simplify_eq|].
  destruct (abs_event a e) as [a1|] eqn:Hae; [|done]. cbn in Ha.
  rewrite (IH _ Ha). by eapply foreign_read.
Qed.

(** C17: lists of versions implement their abstract state: for every history
    of loads, appends, commits, aborts and clears that respects the protocol,
    the calls on the pointers succeed, the chain in memory represents the
    committed versions and the pending one, no cell is leaked, and a snapshot
    read terminates and returns the own pending version or else the newest
    version committed at or before the reader's begin time. *)
Theorem mvcc_list_refines {V} `{!MVCCItem V} (alloc : gmap nat (Item V) -> nat) stale es a :
  (forall h, h !! alloc h = None) ->
  abs_events (mk_versions [] None) es = Some a ->
  exists h l ps, run_events alloc stale (∅, empty_list) es = Some (h, l) /\ repr h l ps a /\
    (forall x, x ∈ ps <-> is_Some (h !! x)) /\
    forall t bt, is_trx t -> is_time bt ->
      SnapshotLevelGetVisibleVersion h l t bt = Some (snapshot_read a t bt).
Proof.
  intros Hal Ha. destruct (events_simulation alloc stale Hal es _ _ _ empty_repr Ha) as ([h l] & Hrun & ps & Hr & Hd).
  exists h, l, ps. split_and!; [done|done| |].
  - intros x. split; [eapply seg_is_Some, (r_seg _ _ _ _ Hr)|]. intros [i Hi].
    destruct (decide (x ∈ ps)) as [|Hx]; [done|]. apply Hd in Hx. cbn in Hx. congruence.
  - intros t bt. by eapply snapshot_read_spec.
Qed.

(** A plain value, for examples. *)
#[global] Instance Z_item : MVCCItem Z := {| NeedGC v := negb (v =? 0); ValueGC _ := 0; IsEmpty v := v =? 0 |}.
Definition fresh_cell (h : gmap nat (Item Z)) : nat := fresh (dom h : gset nat).
Lemma fresh_cell_ok h : h !! fresh_cell h = None.
Proof. apply (not_elem_of_dom (D := gset nat) h). exact (is_fresh (dom h : gset nat)). Qed.
Definition example_events : list (event Z) :=
  [EInit 5; EAppend (example_id 1) 3 6; EAppend (example_id 2) 4 7; ECommit (example_id 1) 8;
   EAppend (example_id 2) 4 7; EAbort (example_id 2); EAppend (example_id 3) 10 9].
Definition example_versions : versions Z := mk_versions [(0, 5); (8, 6)] (Some (example_id 3, 10, 9)).

Lemma mvcc_list_refines_witness :
  exists h l, run_events fresh_cell 0 (∅, empty_list) example_events = Some (h, l) /\
    SnapshotLevelGetVisibleVersion h l (example_id 4) 7 = Some (Some 5).
Proof.
  destruct (mvcc_list_refines fresh_cell 0 example_events example_versions fresh_cell_ok)
    as (h & l & ps & H1 & _ & _ & H2); [by vm_compute|].
  exists h, l. split; [exact H1|]. rewrite H2; [by vm_compute|split; by vm_compute|by vm_compute].
Defined.

(** C25: snapshots are stable: whatever other transactions append, abort or
    commit after a transaction's begin time, the transaction keeps reading the
    same version of the record. *)
Theorem snapshot_stable {V} `{!MVCCItem V} (alloc : gmap nat (Item V) -> nat) stale es1 es2 a1 a2 t bt :
  (forall h, h !! alloc h = None) ->
  abs_events (mk_versions [] None) es1 = Some a1 -> abs_events a1 es2 = Some a2 ->
  Forall (foreign t bt) es2 -> is_trx t -> is_time bt ->
  exists h1 l1 h2 l2, run_events alloc stale (∅, empty_list) es1 = Some (h1, l1) /\
    run_events alloc stale (h1, l1) es2 = Some (h2, l2) /\
    is_Some (SnapshotLevelGetVisibleVersion h1 l1 t bt) /\
    SnapshotLevelGetVisibleVersion h2 l2 t bt = SnapshotLevelGetVisibleVersion h1 l1 t bt.
Proof.
  intros Hal H1 H2 Hf Ht Hbt.
  destruct (events_simulation alloc stale Hal es1 _ _ _ empty_repr H1) as ([h1 l1] & R1 & Hr1).
  destruct (events_simulation alloc stale Hal es2 _ _ _ Hr1 H2) as ([h2 l2] & R2 & Hr2).
  destruct Hr1 as (ps1 & Hr1 & _), Hr2 as (ps2 & Hr2 & _). cbn [fst snd] in Hr1, Hr2.
  exists h1, l1, h2, l2. split_and!; [done|done|..].
  - rewrite (snapshot_read_spec _ _ _ _ t bt Hr1 Ht Hbt). by eexists.
  - rewrite (snapshot_read_spec _ _ _ _ t bt Hr1 Ht Hbt), (snapshot_read_spec _ _ _ _ t bt Hr2 Ht Hbt).
    f_equal. by eapply foreign_reads.
Qed.

Lemma snapshot_stable_witness :
  exists h1 l1 h2 l2, run_events fresh_cell 0 (∅, empty_list) (take 2 example_events) = Some (h1, l1) /\
    run_events fresh_cell 0 (h1, l1) (drop 2 example_events) = Some (h2, l2) /\
    SnapshotLevelGetVisibleVersion h2 l2 (example_id 4) 7 = SnapshotLevelGetVisibleVersion h1 l1 (example_id 4) 7.
Proof.
  destruct (snapshot_stable fresh_cell 0 (take 2 example_events) (drop 2 example_events)
    (mk_versions [(0, 5)] (Some (example_id 1, 3, 6))) example_versions (example_id 4) 7 fresh_cell_ok)
    as (h1 & l1 & h2 & l2 & H1 & H2 & _ & H3); [by vm_compute..| | | |].
  - repeat apply Forall_cons_2; try apply Forall_nil; try (by vm_compute).
  - split; by vm_compute.
  - by vm_compute.
  - exists h1, l1, h2, l2. split; [exact H1|]. split; [exact H2|exact H3].
Defined.

(** ** Serializable reads *)

Section Serializable.
Context {V : Type} `{!MVCCItem V}.
Context {main indirect : nat} `{!TrxTableStub main indirect} (tbl : TrxTable) (opt_preread : bool).
Implicit Types (h : gmap nat (Item V)) (l : MVCCList) (ps : list nat) (a : versions V) (cs : list (Z * V)).

(** The time of the newest committed version. *)
Definition newest cs : Z := match last cs with Some (c, _) => c | None => -1 end.

(** What a read of the abstract state is meant to return: the own pending
    version; otherwise, unless the oldest version is too new, the visible
    version when it is the newest one, with the outcome of the test against a
    pending writer; a read-only transaction may also read an older version. *)
Definition serializable_read a (trx_id bt : Z) (read_only : bool) (deps : dep_trx_map)
    : option (read_result V * dep_trx_map) :=
  let against t (v : V) (otherwise : read_result V) :=
    '(ok, vis, deps') ← TryPreReadUncommittedTail tbl opt_preread t trx_id bt read_only deps;
    Some (if negb ok then RAbort else if (vis : bool) then RValue v else otherwise, deps') in
  match pending a with
  | Some (t, _, v) =>
      if t =? trx_id then Some (RValue v, deps)
      else match committed a, visible (committed a) bt with
           | [], _ => against t v RNone
           | _, None => Some (if read_only then RNone else RAbort, deps)
           | _, Some x =>
               if newest (committed a) <=? bt then against t v (RValue x)
               else Some (if read_only then RValue x else RAbort, deps)
           end
  | None =>
      match committed a, visible (committed a) bt with
      | [], _ => Some (RNone, deps)
      | _, None => Some (if read_only then RNone else RAbort, deps)
      | _, Some x =>
          Some (if (newest (committed a) <=? bt) || read_only then RValue x else RAbort, deps)
      end
  end.

Lemma newest_bound cs c v k bt : StronglySorted Z.lt cs.*1 -> cs !! k = Some (c, v) -> c <= bt ->
  (drop (S k) cs = [] -> newest cs = c) /\
  (forall e, drop (S k) cs <> [] -> bt < first_time (drop (S k) cs) e -> bt < newest cs).
Proof.
  intros Hs Hk Hc. split.
  - intros Hd. rewrite <- (take_drop_middle cs k (c, v) Hk), Hd. unfold newest. by rewrite last_snoc.
  - intros e Hd Hlt. rewrite <- (take_drop (S k) cs) in Hs |- *.
    destruct (drop (S k) cs) as [|[c1 v1] ds]; [done|]. cbn in Hlt. unfold newest. rewrite last_app.
    rewrite fmap_app in Hs. assert (StronglySorted Z.lt (c1 :: ds.*1)) as Hs'.
    { clear -Hs. induction (take (S k) cs).*1 as [|x xs IH]; [done|]. apply IH. by inversion Hs. }
    destruct ds as [|[c2 v2] ds _] using rev_ind; [done|]. rewrite app_comm_cons, last_snoc.
    inversion_clear Hs' as [|? ? _ Hf]. rewrite fmap_app in Hf. apply Forall_app in Hf as [_ Hf].
    apply Forall_cons in Hf as [Hf _]. cbn in Hf |- *. lia.
Qed.

Lemma serializable_read_spec h l ps a t bt read_only deps : repr h l ps a -> is_trx t -> is_time bt ->
  SerializableLevelGetVisibleVersion tbl opt_preread h l t bt read_only deps =
  serializable_read a t bt read_only deps.
Proof.
  intros Hr Ht Hbt. unfold SerializableLevelGetVisibleVersion, serializable_read.
  destruct (decide (ps = [])) as [->|Hne].
  { destruct (proj1 (repr_empty _ _ _ _ Hr) eq_refl) as [-> ->]. by rewrite (r_head _ _ _ _ Hr). }
  destruct (tail_trx_id _ _ _ _ Hr Hne) as (q & i & Htl & Hq & Hi).
  rewrite (r_head _ _ _ _ Hr). destruct (head_nonempty ps Hne) as [p0 Hp0]. rewrite Hp0, Htl.
  cbn [mbind option_bind]. rewrite Hq. cbn [mbind option_bind].
  pose proof (trx_nonzero t Ht) as Ht0.
  destruct (committed a) as [|[c v] cs] eqn:Hca.
  - destruct (pending a) as [[[t0 b0] v0]|] eqn:Hp.
    2:{ destruct Hne. by apply (repr_empty _ _ _ _ Hr). }
    destruct Hi as [-> ->]. destruct (t0 =? t); [done|].
    destruct (head_pending _ _ _ _ _ _ _ Hr Hca Hp) as (p & Hhd & Hhp).
    rewrite (r_head _ _ _ _ Hr), Hp0 in Hhd. injection Hhd as <-. rewrite Hhp. cbn [mbind option_bind].
    pose proof (vo_pending _ (r_ok _ _ _ _ Hr) _ _ _ Hp) as Ht0'.
    rewrite pending_trx_id by done. cbn [begin_time val]. rewrite (proj2 (Z.eqb_neq t0 0)) by (by apply trx_nonzero).
    cbn [negb]. destruct (TryPreReadUncommittedTail _ _ _ _ _ _ _) as [[[[] []] ?]|]; done.
  - assert (head (committed a) = Some (c, v)) as Hc by (by rewrite Hca).
    destruct (repr_first _ _ _ _ _ _ Hr Hc) as (p & _ & Hpp & Htc & Hhp). replace p with p0 in * by congruence.
    destruct (GetTransactionID i =? t) eqn:Hit.
    { destruct (pending a) as [[[t0 b0] v0]|]; [destruct Hi as [Hi ->]; rewrite Hi in Hit; by rewrite Hit|].
      apply Z.eqb_eq in Hit. congruence. }
    rewrite Hhp. cbn [mbind option_bind]. destruct (committed_trx_id (mk_item c
        (first_time (list.tail (committed a)) (end_of (pending a))) (hd_or (list.tail ps) None) v)) as [-> _]; [done|].
    cbn [Z.eqb negb begin_time]. destruct (Z.ltb_spec bt c) as [Hlt|Hge].
    { rewrite (visible_None ((c, v) :: cs)) by (intros ?? [= <- <-]; done).
      destruct (pending a) as [[[t0 b0] v0]|]; [|done]. destruct Hi as [<- _]. by rewrite Hit. }
    rewrite <- Htl. destruct (repr_locate _ _ _ _ bt c v p0 Hr Hbt Hc Hge) as
      (k & p1 & c1 & v1 & -> & Hpk & Hck & Hvis & Hp1 & Hend & Hc1); [by rewrite (r_head _ _ _ _ Hr)|].
    cbn [mbind option_bind]. rewrite Hp1. cbn [mbind option_bind val next]. rewrite <- Hca, Hvis.
    pose proof (seg_length _ _ _ _ (r_seg _ _ _ _ Hr)) as L. unfold items_of in L.
    rewrite length_app, items_to_length in L.
    destruct (newest_bound (committed a) c1 v1 k bt) as [Hn1 Hn2]; [eauto with gtran|done|done|].
    destruct (drop (S k) (committed a)) as [|[c2 v2] ds] eqn:Hd.
    + rewrite (Hn1 eq_refl), (proj2 (Z.leb_le c1 bt) Hc1), ?Hca. unfold NextIsUncommitted. cbn [end_time first_time].
      destruct (pending a) as [[[t0 b0] v0]|] eqn:Hp; cbn [end_of].
      * destruct Hi as [Hi1 Hi2]. rewrite Hi1 in *. rewrite Hit.
        rewrite (proj2 (vo_pending _ (r_ok _ _ _ _ Hr) _ _ _ Hp)), Hi2.
        destruct (TryPreReadUncommittedTail _ _ _ _ _ _ _) as [[[[] []] ?]|]; done.
      * change (IS_VALID_TRX_ID MAX_TIME) with false. cbv iota. cbn [orb].
        assert (ps !! S k = None) as ->.
        { apply lookup_ge_None. apply (f_equal length) in Hd. rewrite length_drop in Hd. cbn in L, Hd. lia. }
        rewrite bool_decide_false by (by intros []). by rewrite andb_false_r.
    + assert (is_time c2) as Hc2.
      { pose proof (vo_times _ (r_ok _ _ _ _ Hr)) as Hf. rewrite <- (take_drop (S k) (committed a)), Hd, fmap_app in Hf.
        apply Forall_app in Hf as [_ Hf]. by apply Forall_cons in Hf as [Hf _]. }
      apply time_range in Hc2 as [_ Hc2]. unfold NextIsUncommitted. cbn [end_time first_time]. rewrite Hc2.
      assert (bt < newest (committed a)) as Hnew by (by eapply (Hn2 (end_of (pending a)))).
      rewrite (proj2 (Z.leb_gt (newest (committed a)) bt) Hnew). cbn [orb].
      assert (ps !! S k <> None) as Hnx.
      { intros Hx%lookup_ge_None. apply (f_equal length) in Hd. rewrite length_drop in Hd. cbn in L, Hd. lia. }
      rewrite bool_decide_true by done. rewrite andb_true_r, ?Hca.
      destruct (pending a) as [[[t0 b0] v0]|]; [destruct Hi as [Hi1 _]; rewrite Hi1 in Hit; rewrite Hit|];
        by destruct read_only.
Qed.
End Serializable.

Lemma visible_newest {V} (cs : list (Z * V)) c v bt : StronglySorted Z.lt cs.*1 ->
  last cs = Some (c, v) -> c <= bt -> visible cs bt = Some v.
Proof.
  induction cs as [|[c0 v0] cs IH]; intros Hs Hl Hle; [done|]. inversion_clear Hs as [|? ? Hs' Hf].
  cbn [visible]. destruct cs as [|x cs].
  - injection Hl as -> ->. by rewrite (proj2 (Z.leb_le c bt)).
  - rewrite last_cons_cons in Hl. rewrite IH by done.
    assert (c0 < c) as Hlt.
    { rewrite Forall_forall in Hf. apply Hf. apply list_elem_of_fmap. exists (c, v).
      split; [done|]. by apply last_Some_elem_of. }
    by rewrite (proj2 (Z.leb_le c0 bt)) by lia.
Qed.

Lemma newest_last {V} (cs : list (Z * V)) bt x : StronglySorted Z.lt cs.*1 -> visible cs bt = Some x ->
  newest cs <= bt -> last cs = Some (newest cs, x).
Proof.
  intros Hs Hv Hn. unfold newest in *. destruct (last cs) as [[c v]|] eqn:Hl.
  - by rewrite (visible_newest cs c v bt Hs Hl Hn) in Hv; simplify_eq.
  - apply last_None in Hl as ->. done.
Qed.

(** What a writer's state means for a reader that began at [bt]. *)
Definition before (e : TidStatus) (bt : Z) : Prop :=
  (getState e = Some VALIDATING \/ getState e = Some COMMITTED) /\ ct e < bt.

Section PreRead.
Context {main indirect : nat} `{!TrxTableStub main indirect} (tbl : TrxTable) (opt_preread : bool).

(** The test of a read-write transaction against a pending writer. *)
Lemma preread_spec t0 t bt deps e :
  (0 < main)%nat -> reachable_table main indirect tbl -> is_trx t0 ->
  trx_map tbl !! t0 = Some e -> fits 64 (ct e) ->
  exists ok vis deps', TryPreReadUncommittedTail tbl opt_preread t0 t bt false deps = Some (ok, vis, deps') /\
    (ok = true -> vis = true -> before e bt /\
       (getState e = Some VALIDATING -> exists d, deps' !! t = Some d /\ t0 ∈ homo_trx_list d)) /\
    (ok = true -> vis = false -> getState e <> Some COMMITTED /\ ~ before e bt /\
       (getState e = Some VALIDATING -> exists d, deps' !! t = Some d /\ t0 ∈ hetero_trx_list d)).
Proof.
  intros Hm Hr [Hf Hv] He Hc. unfold TryPreReadUncommittedTail, before.
  destruct opt_preread; cbn [negb]; [|by eexists _, _, _].
  rewrite (proj2 (Z.eqb_neq t0 0)) by (by apply valid_nonzero).
  destruct (stub_law tbl t0 e Hm Hr Hv Hf He Hc) as (s & c & Hs & _ & Hrc & Hct).
  rewrite Hrc, Hs. cbn [mbind option_bind]. destruct s.
  - eexists _, _, _. split; [done|]. split; [done|]. intros _ _. split_and!; naive_solver.
  - rewrite Hct by (by left). destruct (Z.ltb_spec (ct e) bt); eexists _, _, _; (split; [done|]); split; try done.
    + intros _ _. split; [split; [by left|done]|]. intros _. unfold add_homo. rewrite lookup_insert_eq.
      eexists. split; [done|]. set_solver.
    + intros _ _. split_and!; [done|intros [_ ?]; lia|]. intros _. unfold add_hetero. rewrite lookup_insert_eq.
      eexists. split; [done|]. set_solver.
  - eexists _, _, _. split; [done|]. split; [done|]. intros _ _. split_and!; naive_solver.
  - rewrite Hct by (by right). destruct (Z.ltb_spec (ct e) bt); eexists _, _, _; (split; [done|]); split; try done.
    intros _ _. split; [split; [by right|done]|done].
Qed.
End PreRead.

(** C18: a read-write transaction never reads silently stale data at the
    serializable level.  The read terminates, and when it does not abort it
    returns its own pending version; or the pending version of a writer that
    is validating or committed with an earlier commit time, a validating one
    being recorded as a homogeneous dependency; or the newest committed
    version, in which case a pending writer has not committed and, when it is
    validating, is recorded as a heterogeneous dependency.  It sees no version
    only when none is committed. *)
Theorem serializable_read_safe {V} `{!MVCCItem V} {main indirect} `{!TrxTableStub main indirect}
    (alloc : gmap nat (Item V) -> nat) stale tbl opt_preread es a h l t bt deps :
  (forall h, h !! alloc h = None) ->
  abs_events (mk_versions [] None) es = Some a ->
  run_events alloc stale (∅, empty_list) es = Some (h, l) ->
  is_trx t -> is_time bt -> (0 < main)%nat -> reachable_table main indirect tbl ->
  (forall t0 b v, pending a = Some (t0, b, v) -> exists e, trx_map tbl !! t0 = Some e /\ fits 64 (ct e)) ->
  exists r deps', SerializableLevelGetVisibleVersion tbl opt_preread h l t bt false deps = Some (r, deps') /\
  match r with
  | RAbort => True
  | RNone => committed a = []
  | RValue v =>
      (exists b, pending a = Some (t, b, v)) \/
      (exists t0 b e, pending a = Some (t0, b, v) /\ trx_map tbl !! t0 = Some e /\ before e bt /\
         (getState e = Some VALIDATING -> exists d, deps' !! t = Some d /\ t0 ∈ homo_trx_list d)) \/
      (exists c, last (committed a) = Some (c, v) /\ c <= bt /\
         forall t0 b w e, pending a = Some (t0, b, w) -> trx_map tbl !! t0 = Some e ->
           getState e <> Some COMMITTED /\ ~ before e bt /\
           (getState e = Some VALIDATING -> exists d, deps' !! t = Some d /\ t0 ∈ hetero_trx_list d))
  end.
Proof.
  intros Hal Ha Hrun Ht Hbt Hm Hreach Hpend.
  destruct (events_simulation alloc stale Hal es _ _ _ empty_repr Ha) as (s & Hrun' & ps & Hr & _).
  rewrite Hrun in Hrun'. injection Hrun' as <-. cbn [fst snd] in Hr.
  rewrite (serializable_read_spec tbl opt_preread h l ps a t bt false deps Hr Ht Hbt).
  pose proof (vo_sorted _ (r_ok _ _ _ _ Hr)) as Hsort. unfold serializable_read.
  destruct (pending a) as [[[t0 b0] v0]|] eqn:Hp.
  - destruct (Z.eqb_spec t0 t) as [->|Hne].
    { eexists _, _. split; [done|]. left. by exists b0. }
    destruct (Hpend _ _ _ eq_refl) as (e & He & Hc).
    pose proof (vo_pending _ (r_ok _ _ _ _ Hr) _ _ _ Hp) as Ht0.
    destruct (preread_spec tbl opt_preread t0 t bt deps e Hm Hreach Ht0 He Hc) as (ok & vis & deps' & -> & H1 & H2).
    cbn [mbind option_bind].
    destruct (committed a) as [|x cs] eqn:Hca.
    { eexists _, _. split; [done|]. destruct ok; [|done]. destruct vis; [|done]. cbn.
      right. left. exists t0, b0, e. split_and!; [done|done|apply H1; done..]. }
    destruct (visible (x :: cs) bt) as [y|] eqn:Hvis; [|by eexists _, _].
    destruct (Z.leb_spec (newest (x :: cs)) bt) as [Hn|]; [|by eexists _, _].
    eexists _, _. split; [done|]. destruct ok; [|done]. destruct vis; cbn [negb].
    { right. left. exists t0, b0, e. split_and!; [done|done|apply H1; done..]. }
    right. right. eexists. split; [by apply (newest_last _ bt)|]. split; [done|].
    intros ???? [= <- <- <-] He'. replace e0 with e in * by congruence. by apply H2.
  - destruct (committed a) as [|x cs] eqn:Hca; [by eexists _, _|].
    destruct (visible (x :: cs) bt) as [y|] eqn:Hvis; [|by eexists _, _].
    destruct (Z.leb_spec (newest (x :: cs)) bt) as [Hn|]; [|by eexists _, _].
    eexists _, _. split; [done|]. right. right. eexists.
    split; [by apply (newest_last _ bt)|]. split; [done|]. done.
Qed.

Lemma serializable_read_safe_witness :
  exists h l r deps', run_events fresh_cell 0 (∅, empty_list) example_events = Some (h, l) /\
    @SerializableLevelGetVisibleVersion Z 2 2 (RDMATrxTableStub 0 3 2 2) example_table true h l
      (example_id 4) 12 false ∅ = Some (r, deps').
Proof.
  assert (exists s, run_events fresh_cell 0 (∅, empty_list) example_events = Some s) as [[h l] Hrun]
    by (vm_compute; by eexists).
  destruct (@serializable_read_safe Z Z_item 2 2 (RDMATrxTableStub 0 3 2 2) fresh_cell 0 example_table true
    example_events example_versions h l (example_id 4) 12 ∅ fresh_cell_ok) as (r & deps' & H & _).
  - by vm_compute.
  - exact Hrun.
  - split; by vm_compute.
  - by vm_compute.
  - lia.
  - exact example_reachable.
  - intros t0 b v [= <- <- <-]. exists (process_entry (example_id 3)). split; by vm_compute.
  - exists h, l, r, deps'. split; [exact Hrun|exact H].
Defined.
