(* ===== verification/MvccGc.v ===== *)
(** * layout/gc_producer.tpp: trimming lists of versions

    The garbage collector cuts off the oldest versions of a list that no
    running transaction can read, and hands the cut chain to a task.  The scan
    is modelled on the heap of the version lists; [min_bt] is the bound that
    [RunningTrxList::GetGlobalMinBT] returns during the scan. *)
From S2P Require Import Prelude Types TrxStatus Coordinator TrxStub MvccList.
Local Open Scope Z_scope.

Section Scan.
Context {V : Type} `{!MVCCItem V}.
Implicit Types (h : gmap nat (Item V)) (l : MVCCList).

(** The loop of [scan_mvcc_list] (layout/gc_producer.tpp:76-103): the
    checkpoint, the number of versions counted and the values whose property
    rows are scanned.  [prop] tells items of properties from items of edges;
    the fuel bounds the items of the chain. *)
Fixpoint scan_loop (fuel : nat) h (prop : bool) (min_bt : Z) (iterate_tail : nat) (cur : nat)
    (checkpoint : option nat) (count : nat) (rows : list V) : option (option nat * nat * list V) :=
  match fuel with
  | O => None
  | S f =>
      i ← h !! cur;
      let continue checkpoint count rows :=
        if decide (cur = iterate_tail) then Some (checkpoint, count, rows)
        else n ← next i; scan_loop f h prop min_bt iterate_tail n checkpoint count rows in
      if GetEndTime i <? min_bt then continue (Some cur) (S count) rows
      else if bool_decide (cur = iterate_tail) && IsEmpty (val i) then Some (Some cur, S count, rows)
      else if prop then Some (checkpoint, count, rows)
      else continue checkpoint count (rows ++ [val i])
  end.

(** What a scan does: its result, the chain that is handed to a task with the
    number of versions given to it, and the rows that are scanned. *)
Record scan_result := mk_scan {
  sc_empty : bool; sc_cut : option (nat * nat); sc_rows : list V;
}.

(** [GCProducer::scan_mvcc_list] (layout/gc_producer.tpp:55-130): the link of
    the checkpoint is cleared before it is compared with the tail. *)
Definition scan_mvcc_list (prop : bool) (min_bt : Z) h l : option (scan_result * gmap nat (Item V) * MVCCList) :=
  match head_ l with
  | None => Some (mk_scan true None [], h, l)
  | Some hd =>
      t ← tail_ l;
      it ← h !! t;
      let uncommitted := negb (GetTransactionID it =? 0) in
      if uncommitted && bool_decide (hd = t) then Some (mk_scan false None [], h, l)
      else
        iterate_tail ← (if uncommitted then pre_tail_ l else Some t);
        '(checkpoint, count, rows) ← scan_loop (size h) h prop min_bt iterate_tail hd None 0 [];
        match checkpoint with
        | None => Some (mk_scan false None rows, h, l)
        | Some c =>
            i ← h !! c;
            let h' := <[c := mk_item (begin_time i) (end_time i) None (val i)]> h in
            let l' := mk_list (next i) (tail_ l) (pre_tail_ l) (tmp_pre_tail_ l) in
            i' ← h' !! c;
            if decide (c = iterate_tail) then
              if negb uncommitted
              then Some (mk_scan true (Some (hd, count)) rows, h', mk_list (next i) None None None)
              else Some (mk_scan false (Some (hd, count)) rows, h', mk_list (next i) (tail_ l) (tail_ l) (tail_ l))
            else if decide (next i' = Some iterate_tail) then
              if negb uncommitted
              then Some (mk_scan false (Some (hd, count)) rows, h',
                         mk_list (next i) (tail_ l) (tail_ l) (tmp_pre_tail_ l))
              else Some (mk_scan false (Some (hd, count)) rows, h',
                         mk_list (next i) (tail_ l) (pre_tail_ l) (pre_tail_ l))
            else Some (mk_scan false (Some (hd, count)) rows, h', l')
        end
  end.

(** ** How many versions a scan of a property removes *)

Implicit Types (cs : list (Z * V)) (a : versions V) (ps : list nat).

Fixpoint gc_count cs (e min_bt : Z) : nat :=
  match cs with
  | [] => 0
  | (c, v) :: cs' =>
      if first_time cs' e <? min_bt then S (gc_count cs' e min_bt)
      else if bool_decide (cs' = []) && IsEmpty v then 1 else 0
  end.

Lemma gc_count_le cs e min_bt : (gc_count cs e min_bt <= length cs)%nat.
Proof.
  induction cs as [|[c v] cs IH]; cbn [gc_count length]; [lia|].
  destruct (_ <? _); [lia|]. destruct (_ && _); lia.
Qed.

(** Readers at or after the bound do not miss what is removed. *)
Lemma gc_count_visible cs e min_bt bt : StronglySorted Z.lt cs.*1 -> min_bt <= e -> min_bt <= bt ->
  visible (drop (gc_count cs e min_bt) cs) bt = visible cs bt \/
  (visible (drop (gc_count cs e min_bt) cs) bt = None /\ exists v, visible cs bt = Some v /\ IsEmpty v = true).
Proof.
  intros Hs He Hb. induction cs as [|[c v] cs IH]; [by left|]. cbn [gc_count].
  inversion_clear Hs as [|? ? Hs' Hf]. specialize (IH Hs').
  destruct (Z.ltb_spec (first_time cs e) min_bt) as [Hlt|Hge].
  - cbn [drop]. assert (visible ((c, v) :: cs) bt = visible cs bt) as ->; [|done].
    destruct cs as [|[c1 v1] cs]; [cbn in Hlt; lia|]. cbn in Hlt. apply Forall_cons in Hf as [Hf _]. cbn in Hf.
    cbn [visible]. rewrite (proj2 (Z.leb_le c bt)), (proj2 (Z.leb_le c1 bt)) by lia.
    by destruct (visible cs bt).
  - destruct (bool_decide_reflect (cs = [])) as [->|Hne]; cbn [andb]; [|by left].
    destruct (IsEmpty v) eqn:Hv; [|by left]. cbn [drop visible].
    destruct (c <=? bt); [right|by left]. eauto.
Qed.

(** The scan of a property stops after that many versions. *)
Lemma scan_loop_spec fuel h ps cs w min_bt p0 q chk count rows :
  cs <> [] -> head ps = Some p0 -> ps !! (length cs - 1)%nat = Some q -> NoDup ps ->
  seg h ps (items_to cs (end_of w) ++ pend_items w) None -> Forall is_time cs.*1 ->
  min_bt <= end_of w -> (length cs <= fuel)%nat ->
  let g := gc_count cs (end_of w) min_bt in
  scan_loop fuel h true min_bt q p0 chk count rows =
    Some (match g with O => chk | S k => ps !! k end, (count + g)%nat, rows).
Proof.
  intros Hne Hp0 Hq Hnd Hs Htm Hmin. revert fuel ps p0 chk count Hne Hp0 Hq Hnd Hs.
  induction cs as [|[c v] cs IH]; intros fuel ps p0 chk count Hne Hp0 Hq Hnd Hs Hf; [done|].
  destruct ps as [|p ps]; [done|]. injection Hp0 as ->. destruct Hs as [Hp Hs].
  apply NoDup_cons in Hnd as [Hpn Hnd]. cbn in Htm. apply Forall_cons in Htm as [Htc Htm].
  destruct fuel as [|fuel]; [cbn in Hf; lia|]. cbn [scan_loop gc_count]. rewrite Hp. cbn [mbind option_bind].
  destruct (committed_trx_id (mk_item c (first_time cs (end_of w)) (hd_or ps None) v)) as [_ ->]; [done|].
  cbn [end_time next val]. destruct (Z.ltb_spec (first_time cs (end_of w)) min_bt) as [Hlt|Hge].
  - destruct cs as [|[c1 v1] cs]; [cbn in Hlt; lia|]. destruct ps as [|p1 ps]; [done|].
    replace (length ((c, v) :: (c1, v1) :: cs) - 1)%nat with (S (length ((c1, v1) :: cs) - 1)) in Hq by (cbn; lia).
    change ((p0 :: p1 :: ps) !! S (length ((c1, v1) :: cs) - 1)%nat) with
      ((p1 :: ps) !! (length ((c1, v1) :: cs) - 1)%nat) in Hq.
    rewrite decide_False by (intros <-; apply Hpn; by eapply list_elem_of_lookup_2).
    cbn [hd_or mbind option_bind].
    rewrite (IH Htm fuel (p1 :: ps) p1) by (done || (cbn in Hf |- *; lia)).
    set (k := gc_count ((c1, v1) :: cs) (end_of w) min_bt).
    replace (S count + k)%nat with (count + S k)%nat by lia. by destruct k.
  - destruct (bool_decide_reflect (cs = [])) as [->|Hcs].
    + assert (p0 = q) as -> by (cbn in Hq; congruence). rewrite bool_decide_true by done. cbn [andb].
      destruct (IsEmpty v); [by rewrite Nat.add_1_r|by rewrite Nat.add_0_r].
    + assert (p0 <> q) as Hpq.
      { intros ->. destruct cs as [|x cs]; [done|]. destruct ps as [|p1 ps]; [done|]. cbn in Hq.
        apply Hpn. by eapply list_elem_of_lookup_2. }
      rewrite bool_decide_false by done. cbn [andb]. by rewrite Nat.add_0_r.
Qed.

(** Cutting a chain behind its [k]-th item. *)
Lemma seg_cut h ps (its : list (Z * Z * V)) k c i : NoDup ps -> seg h ps its None -> ps !! k = Some c ->
  h !! c = Some i ->
  let h' := <[c := mk_item (begin_time i) (end_time i) None (val i)]> h in
  seg h' (take (S k) ps) (take (S k) its) None /\ seg h' (drop (S k) ps) (drop (S k) its) None.
Proof.
  intros Hnd Hs Hk Hc h'. pose proof (lookup_lt_Some _ _ _ Hk) as Hlt. pose proof (seg_length _ _ _ _ Hs) as L.
  rewrite <- (take_drop (S k) ps), <- (take_drop (S k) its) in Hs.
  apply seg_app in Hs as [H1 H2]; [|rewrite !length_take; lia].
  rewrite <- (take_drop (S k) ps) in Hnd. apply NoDup_app in Hnd as (Hnd1 & Hd & _).
  rewrite (take_S_r ps k c Hk) in *. destruct (lookup_lt_is_Some_2 its k) as [[[b e] v] Hi]; [lia|].
  rewrite (take_S_r its k _ Hi) in *.
  rewrite seg_snoc in H1 by (rewrite !length_take; lia). destruct H1 as [H1 Hcc].
  rewrite Hc in Hcc. injection Hcc as ->. cbn [begin_time end_time val] in h'. split.
  - apply seg_snoc; [rewrite !length_take; lia|]. unfold h'. rewrite lookup_insert_eq. split; [|done].
    apply seg_agree with h.
    + intros x Hx. apply lookup_insert_ne. intros ->. by apply (snoc_not_in _ _ Hnd1).
    + done.
  - revert H2. apply seg_agree. intros x Hx. apply lookup_insert_ne. intros ->. apply (Hd x); [|done].
    apply elem_of_app. right. by left.
Qed.

Lemma items_to_drop cs e g : drop g (items_to cs e) = items_to (drop g cs) e.
Proof.
  revert g. induction cs as [|[c v] cs IH]; intros [|g]; cbn; try done.
Qed.

Lemma items_of_drop a g : (g <= length (committed a))%nat ->
  drop g (items_of a) = items_of (mk_versions (drop g (committed a)) (pending a)).
Proof.
  intros Hg. unfold items_of. cbn. rewrite drop_app_le by (by rewrite items_to_length).
  by rewrite items_to_drop.
Qed.

Lemma versions_ok_drop a g : versions_ok a -> versions_ok (mk_versions (drop g (committed a)) (pending a)).
Proof.
  intros [H1 H2 H3]. split; cbn [committed pending]; [..|done].
  - rewrite fmap_drop. clear -H1. revert g. induction H1 as [|c cs H1 IH Hf]; intros [|g]; cbn; try constructor; auto.
  - rewrite fmap_drop. by apply Forall_drop.
Qed.

Lemma repr_length h l ps a : repr h l ps a ->
  length ps = (length (committed a) + match pending a with Some _ => 1 | None => 0 end)%nat.
Proof.
  intros Hr. rewrite (seg_length _ _ _ _ (r_seg _ _ _ _ Hr)). unfold items_of.
  rewrite length_app, items_to_length. by destruct (pending a) as [[[??]?]|].
Qed.

(** What the scan of a property leaves of a list in memory. *)
Lemma cut_repr h l ps a k c i l' :
  repr h l ps a -> (S k <= length (committed a))%nat -> ps !! k = Some c -> h !! c = Some i ->
  head_ l' = ps !! S k -> tail_ l' = last (drop (S k) ps) ->
  (pending a <> None -> pre_tail_ l' = drop (S k) ps !! (length (drop (S k) ps) - 2)%nat) ->
  let h' := <[c := mk_item (begin_time i) (end_time i) None (val i)]> h in
  repr h' l' (drop (S k) ps) (mk_versions (drop (S k) (committed a)) (pending a)) /\
  seg h' (take (S k) ps) (take (S k) (items_of a)) None.
Proof.
  intros Hr Hk Hc Hi Hh Ht Hp h'. pose proof (r_nodup _ _ _ _ Hr) as Hnd.
  destruct (seg_cut h ps (items_of a) k c i Hnd (r_seg _ _ _ _ Hr) Hc Hi) as [H1 H2]. split; [|done].
  split; [|..|done|done|].
  - rewrite <- (take_drop (S k) ps) in Hnd. by apply NoDup_app in Hnd as (_ & _ & ?).
  - rewrite <- items_of_drop by done. done.
  - rewrite Hh, head_lookup, lookup_drop. by rewrite Nat.add_0_r.
  - apply versions_ok_drop, (r_ok _ _ _ _ Hr).
Qed.

Definition trimmed a (min_bt : Z) : versions V :=
  mk_versions (drop (gc_count (committed a) (end_of (pending a)) min_bt) (committed a)) (pending a).

Lemma scan_start h l ps a : repr h l ps a -> committed a <> [] ->
  exists hd t it q, head_ l = Some hd /\ head ps = Some hd /\ tail_ l = Some t /\ h !! t = Some it /\
    negb (GetTransactionID it =? 0) = bool_decide (pending a <> None) /\
    bool_decide (pending a <> None) && bool_decide (hd = t) = false /\
    (if bool_decide (pending a <> None) then pre_tail_ l else Some t) = Some q /\
    ps !! (length (committed a) - 1)%nat = Some q.
Proof.
  intros Hr Hne. pose proof (repr_length _ _ _ _ Hr) as L.
  assert (ps <> []) as Hps by (intros ->; destruct (committed a); cbn in L; done || lia).
  destruct (tail_trx_id _ _ _ _ Hr Hps) as (t & it & Htl & Hit & Hid).
  destruct (head_nonempty ps Hps) as [hd Hhd]. pose proof (r_tail _ _ _ _ Hr) as Hlast.
  rewrite Htl, last_lookup in Hlast. assert (0 < length (committed a))%nat by (destruct (committed a); cbn; done || lia).
  destruct (pending a) as [[[t0 b0] v0]|] eqn:Hp.
  - rewrite bool_decide_true by done. pose proof (trx_nonzero t0 (vo_pending _ (r_ok _ _ _ _ Hr) _ _ _ Hp)).
    destruct Hid as [Hid _]. destruct (lookup_lt_is_Some_2 ps (length (committed a) - 1)) as [q Hq]; [lia|].
    exists hd, t, it, q. rewrite Hid, (proj2 (Z.eqb_neq t0 0)), (r_head _ _ _ _ Hr) by done.
    split_and!; try done.
    + rewrite bool_decide_false; [done|]. intros ->. rewrite head_lookup in Hhd.
      assert (0 = pred (length ps))%nat; [|lia]. eapply NoDup_lookup; [apply (r_nodup _ _ _ _ Hr)|done|done].
    + rewrite (r_pre _ _ _ _ Hr) by (by rewrite Hp). rewrite <- Hq. f_equal. lia.
  - rewrite bool_decide_false by (by intros []). exists hd, t, it, t. rewrite Hid, (r_head _ _ _ _ Hr).
    split_and!; try done. rewrite Hlast. f_equal. lia.
Qed.

Lemma last_drop_lt ps g : (g < length ps)%nat -> last (drop g ps) = last ps.
Proof. intros Hg. rewrite !last_lookup, lookup_drop, length_drop. f_equal. lia. Qed.

(** A list without committed versions is left alone. *)
Lemma scan_uncommitted h l ps a min_bt : repr h l ps a -> committed a = [] ->
  exists r, scan_mvcc_list true min_bt h l = Some (r, h, l) /\
    sc_empty r = bool_decide (ps = []) /\ sc_cut r = None.
Proof.
  intros Hr Hc. unfold scan_mvcc_list. rewrite (r_head _ _ _ _ Hr).
  destruct (pending a) as [[[t b] v]|] eqn:Hp.
  - destruct (tail_pending _ _ _ _ _ _ _ Hr Hp) as (qs & p & -> & Htl & Hq & Hs & _).
    rewrite Hc in Hs. destruct qs; [|done]. cbn [head app]. rewrite Htl. cbn [mbind option_bind].
    rewrite Hq. cbn [mbind option_bind].
    pose proof (vo_pending _ (r_ok _ _ _ _ Hr) _ _ _ Hp) as Ht.
    rewrite pending_trx_id by done. cbn [begin_time].
    rewrite (proj2 (Z.eqb_neq t 0)) by (by apply trx_nonzero). rewrite bool_decide_true by done. by eexists.
  - assert (ps = []) as -> by (by apply (repr_empty _ _ _ _ Hr)). by eexists.
Qed.

Lemma scan_property_spec h l ps a min_bt : repr h l ps a -> is_time min_bt ->
  let g := gc_count (committed a) (end_of (pending a)) min_bt in
  exists r h' l', scan_mvcc_list true min_bt h l = Some (r, h', l') /\
    repr h' l' (drop g ps) (trimmed a min_bt) /\ sc_empty r = bool_decide (drop g ps = []) /\
    sc_cut r = (match g with O => None | _ => (fun p => (p, g)) <$> head ps end) /\
    seg h' (take g ps) (take g (items_of a)) (match g with O => head ps | _ => None end) /\
    (forall x, (x ∉ ps) -> h' !! x = h !! x).
Proof.
  intros Hr Hmin g. pose proof (gc_count_le (committed a) (end_of (pending a)) min_bt) as Hg. fold g in Hg.
  pose proof (end_of_time _ _ (r_ok _ _ _ _ Hr) Hmin) as Hend.
  pose proof (repr_length _ _ _ _ Hr) as L. unfold scan_mvcc_list.
  destruct (decide (committed a = [])) as [Hc|Hc].
  { assert (g = 0%nat) as Hg0 by (unfold g; by rewrite Hc). clearbody g. subst g.
    destruct (scan_uncommitted h l ps a min_bt Hr Hc) as (r & Hscan & H1 & H2). exists r, h, l.
    assert (trimmed a min_bt = a) as -> by (unfold trimmed; destruct a; cbn in *; by subst).
    fold (scan_mvcc_list true min_bt h l). by split_and!. }
  destruct (scan_start _ _ _ _ Hr Hc) as (hd & t & it & q & Hh & Hhd & Htl & Hit & Hu & Hnot & Hpre & Hq).
  rewrite Hh, Htl. cbn [mbind option_bind]. rewrite Hit. cbn [mbind option_bind]. rewrite Hu, Hnot, Hpre.
  cbn [mbind option_bind]. pose proof (r_seg _ _ _ _ Hr) as Hs. pose proof (r_nodup _ _ _ _ Hr) as Hnd.
  rewrite (scan_loop_spec (size h) h ps (committed a) (pending a) min_bt hd q None 0 []); eauto with gtran; [|lia|].
  2:{ etransitivity; [|by eapply seg_size]. lia. }
  cbn [mbind option_bind]. fold g. rewrite Hhd. unfold trimmed. fold g. destruct g as [|k] eqn:Hgk.
  { eexists _, _, _. split; [done|]. rewrite !drop_0. cbn [sc_empty sc_cut].
    split_and!; try done; [by destruct a|]. symmetry. apply bool_decide_false. by intros ->. }
  destruct (lookup_lt_is_Some_2 ps k) as [c Hck]; [lia|]. rewrite Hck. cbn [fmap option_fmap option_map].
  destruct (lookup_lt_is_Some_2 (items_of a) k) as [[[b e] v] Hik]; [rewrite <- (seg_length _ _ _ _ Hs); lia|].
  destruct (seg_lookup _ _ _ _ _ _ _ _ Hs Hik) as (c' & Hc' & Hci). replace c' with c in * by congruence.
  assert (default None (Some <$> ps !! S k) = ps !! S k) as Hnx by (by destruct (ps !! S k)). rewrite Hnx in Hci.
  rewrite Hci. cbn [mbind option_bind next]. rewrite lookup_insert_eq. cbn [mbind option_bind next].
  assert (forall x, (x ∉ ps) -> forall i', <[c := i']> h !! x = h !! x) as Hfr.
  { intros x Hx i'. apply lookup_insert_ne. intros ->. apply Hx. by eapply list_elem_of_lookup_2. }
  destruct (decide (c = q)) as [->|Hcq].
  - assert (k = length (committed a) - 1)%nat as Hkc by (by eapply NoDup_lookup).
    destruct (decide (pending a = None)) as [Hp|Hp].
    + rewrite bool_decide_false by (by intros []). cbn [negb]. rewrite Hp in L. cbn in L.
      assert (drop (S k) ps = []) as Hd by (apply drop_ge; lia).
      destruct (cut_repr h l ps a k q _ (mk_list (ps !! S k) None None None) Hr Hg Hck Hci) as [H1 H2];
        [done|by rewrite Hd|done|].
      eexists _, _, _. split; [done|]. split_and!; [exact H1| |done|exact H2|by auto].
      symmetry. by apply bool_decide_true.
    + rewrite bool_decide_true by done. cbn [negb]. assert (length ps = S (S k)) as L2.
      { destruct (pending a); [lia|done]. }
      assert (drop (S k) ps <> []) as Hd by (intros Hd; apply (f_equal length) in Hd; rewrite length_drop in Hd; cbn in Hd; lia).
      destruct (cut_repr h l ps a k q _ (mk_list (ps !! S k) (tail_ l) (tail_ l) (tail_ l)) Hr Hg Hck Hci) as [H1 H2].
      * done.
      * cbn. rewrite last_drop_lt by lia. apply (r_tail _ _ _ _ Hr).
      * intros _. cbn. rewrite (r_tail _ _ _ _ Hr), lookup_drop, length_drop, last_lookup. f_equal. lia.
      * rewrite Htl in *. eexists _, _, _. split; [done|]. split_and!; [exact H1| |done|exact H2|by auto].
        symmetry. by apply bool_decide_false.
  - rewrite decide_False by done. assert (S k < length (committed a))%nat as Hk.
    { destruct (decide (k = length (committed a) - 1)%nat) as [->|]; [congruence|lia]. }
    assert (drop (S k) ps <> []) as Hd by (intros Hd; apply (f_equal length) in Hd; rewrite length_drop in Hd; cbn in Hd; lia).
    destruct (cut_repr h l ps a k c _ (mk_list (ps !! S k) (tail_ l) (pre_tail_ l) (tmp_pre_tail_ l)) Hr Hg Hck Hci) as [H1 H2].
    + done.
    + cbn. rewrite last_drop_lt by lia. apply (r_tail _ _ _ _ Hr).
    + intros Hp. cbn. rewrite (r_pre _ _ _ _ Hr) by done. rewrite lookup_drop, length_drop. f_equal.
      destruct (pending a); [lia|done].
    + rewrite Htl in *. eexists _, _, _. split; [done|]. split_and!; [exact H1| |done|exact H2|by auto].
      symmetry. by apply bool_decide_false.
Qed.
End Scan.

(** Trimming the versions of a property is safe: on every list that a
    history produces, the scan succeeds, cuts off a well-formed chain with
    exactly the number of versions it reports, leaves a list that represents
    the remaining versions, and a transaction that began at or after the bound
    reads what it read before, or no version where it read a deletion. *)
Theorem property_gc_safe {V} `{!MVCCItem V} (alloc : gmap nat (Item V) -> nat) stale es a h l min_bt :
  (forall h, h !! alloc h = None) ->
  abs_events (mk_versions [] None) es = Some a ->
  run_events alloc stale (∅, empty_list) es = Some (h, l) -> is_time min_bt ->
  exists r h' l' ps, scan_mvcc_list true min_bt h l = Some (r, h', l') /\
    repr h' l' ps (trimmed a min_bt) /\ sc_empty r = bool_decide (ps = []) /\
    (forall hd n, sc_cut r = Some (hd, n) -> exists qs its, head qs = Some hd /\ length qs = n /\
       seg h' qs its None /\ forall x, x ∈ qs -> x ∉ ps) /\
    forall t bt, is_trx t -> is_time bt -> min_bt <= bt ->
      exists x y, SnapshotLevelGetVisibleVersion h l t bt = Some x /\
        SnapshotLevelGetVisibleVersion h' l' t bt = Some y /\
        (y = x \/ (y = None /\ exists v, x = Some v /\ IsEmpty v = true)).
Proof.
  intros Hal Ha Hrun Hmin.
  destruct (events_simulation alloc stale Hal es _ _ _ empty_repr Ha) as (s & Hrun' & ps & Hr & _).
  rewrite Hrun in Hrun'. injection Hrun' as <-. cbn [fst snd] in Hr.
  destruct (scan_property_spec h l ps a min_bt Hr Hmin) as (r & h' & l' & Hs & Hr' & He & Hcut & Hseg & _).
  set (g := gc_count (committed a) (end_of (pending a)) min_bt) in *.
  exists r, h', l', (drop g ps). split_and!; try done.
  - intros hd n Hc. rewrite Hcut in Hc. destruct g as [|k] eqn:Hg; [done|]. destruct ps as [|p ps]; [done|].
    injection Hc as <- <-. exists (take (S k) (p :: ps)), (take (S k) (items_of a)). split_and!; [done| |done|].
    + rewrite length_take. pose proof (gc_count_le (committed a) (end_of (pending a)) min_bt).
      pose proof (repr_length _ _ _ _ Hr). lia.
    + intros x Hx. pose proof (r_nodup _ _ _ _ Hr) as Hnd. rewrite <- (take_drop (S k) (p :: ps)) in Hnd.
      apply NoDup_app in Hnd as (_ & Hd & _). by apply Hd.
  - intros t bt Ht Hbt Hle. exists (snapshot_read a t bt), (snapshot_read (trimmed a min_bt) t bt).
    rewrite (snapshot_read_spec _ _ _ _ t bt Hr Ht Hbt), (snapshot_read_spec _ _ _ _ t bt Hr' Ht Hbt).
    split_and!; [done..|]. unfold snapshot_read, trimmed. cbn [pending committed].
    pose proof (end_of_time _ _ (r_ok _ _ _ _ Hr) Hmin) as Hend.
    destruct (gc_count_visible (committed a) (end_of (pending a)) min_bt bt) as [E|E]; [eauto with gtran|lia|done|..];
      destruct (pending a) as [[[t0 b0] v0]|]; fold g in E |- *; try destruct (t0 =? t); auto.
Qed.

Lemma property_gc_safe_witness :
  exists h l r h' l', run_events fresh_cell 0 (∅, empty_list) example_events = Some (h, l) /\
    scan_mvcc_list true 9 h l = Some (r, h', l').
Proof.
  assert (exists s, run_events fresh_cell 0 (∅, empty_list) example_events = Some s) as [[h l] Hrun]
    by (vm_compute; by eexists).
  destruct (property_gc_safe fresh_cell 0 example_events example_versions h l 9 fresh_cell_ok)
    as (r & h' & l' & _ & H & _); [by vm_compute|exact Hrun|by vm_compute|].
  exists h, l, r, h', l'. split; [exact Hrun|exact H].
Defined.

