(* ===== verification/GcTasks.v ===== *)
(** * layout/gc_task.hpp, gc_producer.cpp, gc_consumer.cpp: collection tasks

    The producer of the garbage collection spawns tasks that free or defragment
    the row lists of vertices and edges, and packs them into jobs for the
    consumers.  Freeing a row list must not meet a defragmentation of it: the
    producer keeps a graph of the tasks, in which a task that frees is upstream of
    the defragmentations of the same rows.  This file has the tasks, the graph,
    the jobs and their queues.

    A task object is a position in a heap.  The sets of upstream and downstream
    tasks are lists; the order of an unordered set is whatever it is, and may
    change at any time.  [None] is a failed [CHECK] or a null pointer. *)
From S2P Require Import Prelude Types.
Local Open Scope Z_scope.

(** ** Tasks *)

(** [TaskStatus] (layout/gc_task.hpp:39-46), without the count. *)
Inductive TaskStatus := ACTIVE | EMPTY | INVALID | BLOCKED | PUSHED.
(** [DepGCTaskType] (layout/gc_task.hpp:48-56). *)
Inductive DepGCTaskType :=
  TOPO_ROW_LIST_GC | TOPO_ROW_LIST_DEFRAG | VP_ROW_LIST_GC | VP_ROW_LIST_DEFRAG | EP_ROW_LIST_GC | EP_ROW_LIST_DEFRAG.
(** The id of a task: a vertex, or an edge with its row list
    [CompoundEPRowListID] (layout/gc_task.hpp:66-80). *)
Inductive task_id := IdV (v : Z) | IdE (eid : eid_t) (ptr : Z).
(** [GetAttachedVid] (layout/gc_task.hpp:73-75). *)
Definition GetAttachedVid (i : task_id) : Z := match i with IdV v => v | IdE e _ => src_v e end.

#[global] Instance TaskStatus_eq_dec : EqDecision TaskStatus.
Proof. solve_decision. Defined.
#[global] Instance DepGCTaskType_eq_dec : EqDecision DepGCTaskType.
Proof. solve_decision. Defined.
#[global] Instance task_id_eq_dec : EqDecision task_id.
Proof. solve_decision. Defined.
#[global] Instance DepGCTaskType_countable : Countable DepGCTaskType.
Proof.
  refine (inj_countable' (fun t => match t with TOPO_ROW_LIST_GC => 0 | TOPO_ROW_LIST_DEFRAG => 1 | VP_ROW_LIST_GC => 2
    | VP_ROW_LIST_DEFRAG => 3 | EP_ROW_LIST_GC => 4 | EP_ROW_LIST_DEFRAG => 5 end)
    (fun n : Z => match n with 0 => TOPO_ROW_LIST_GC | 1 => TOPO_ROW_LIST_DEFRAG | 2 => VP_ROW_LIST_GC | 3 => VP_ROW_LIST_DEFRAG
    | 4 => EP_ROW_LIST_GC | _ => EP_ROW_LIST_DEFRAG end) _). by intros [].
Defined.
#[global] Instance task_id_countable : Countable task_id.
Proof.
  refine (inj_countable' (fun i => match i with IdV v => inl v | IdE e p => inr (dst_v e, src_v e, p) end)
    (fun x => match x with inl v => IdV v | inr (a, b, p) => IdE (mk_eid a b) p end) _). by intros [|[]].
Defined.

(** [DependentGCTask] (layout/gc_task.hpp:124-194) with the members of its six
    subclasses; a null target is 0. *)
Record task := mk_task {
  t_type : DepGCTaskType; t_id : task_id; t_target : Z; t_cost : Z;
  t_status : TaskStatus; t_blocked : Z; t_up : list nat; t_down : list nat;
}.
(** [DependentGCJob] (layout/gc_task.hpp:486-490). *)
Record gc_job := mk_job { j_tasks : list nat; sum_of_cost : Z; sum_blocked_count : Z }.
Abbreviation task_key := (DepGCTaskType * task_id)%type.
(** The heap of tasks, the six maps of [GCTaskDAG] (layout/gc_producer.hpp:73-131)
    as one map, the six jobs that the producer is filling, and the queues of
    [GarbageCollector]. *)
Record gc := mk_gc {
  tasks : gmap nat task; next_task : nat; task_map : gmap task_key nat;
  jobs : DepGCTaskType -> gc_job;
  pending_jobs : list (DepGCTaskType * list nat); finished_jobs : list (DepGCTaskType * list nat);
}.

Definition with_status (s : TaskStatus) (t : task) : task :=
  mk_task (t_type t) (t_id t) (t_target t) (t_cost t) s (t_blocked t) (t_up t) (t_down t).
Definition with_target (p : Z) (t : task) : task :=
  mk_task (t_type t) (t_id t) p (t_cost t) (t_status t) (t_blocked t) (t_up t) (t_down t).
Definition with_blocked (n : Z) (t : task) : task :=
  mk_task (t_type t) (t_id t) (t_target t) (t_cost t) (t_status t) n (t_up t) (t_down t).
Definition with_up (ls : list nat) (t : task) : task :=
  mk_task (t_type t) (t_id t) (t_target t) (t_cost t) (t_status t) (t_blocked t) ls (t_down t).
Definition with_down (ls : list nat) (t : task) : task :=
  mk_task (t_type t) (t_id t) (t_target t) (t_cost t) (t_status t) (t_blocked t) (t_up t) ls.

Definition set_tasks (ts : gmap nat task) (g : gc) : gc :=
  mk_gc ts (next_task g) (task_map g) (jobs g) (pending_jobs g) (finished_jobs g).
Definition set_map (m : gmap task_key nat) (g : gc) : gc :=
  mk_gc (tasks g) (next_task g) m (jobs g) (pending_jobs g) (finished_jobs g).
Definition set_job (ty : DepGCTaskType) (j : gc_job) (g : gc) : gc :=
  mk_gc (tasks g) (next_task g) (task_map g) (fun ty' => if decide (ty' = ty) then j else jobs g ty') (pending_jobs g) (finished_jobs g).
(** Changing a task through a pointer, and [delete]. *)
Definition upd (l : nat) (f : task -> task) (g : gc) : option gc :=
  t ← tasks g !! l; Some (set_tasks (<[l := f t]> (tasks g)) g).
Definition free (l : nat) (g : gc) : gc := set_tasks (delete l (tasks g)) g.
(** [new], with a status. *)
Definition new_task (ty : DepGCTaskType) (i : task_id) (target cost : Z) (s : TaskStatus) (g : gc) : nat * gc :=
  (next_task g, mk_gc (<[next_task g := mk_task ty i target cost s 0 [] []]> (tasks g)) (S (next_task g)) (task_map g)
     (jobs g) (pending_jobs g) (finished_jobs g)).
(** Erasing from the set of downstream tasks. *)
Definition erase_down (d : nat) (t : task) : task := with_down (filter (fun x => x <> d) (t_down t)) t.
(** Connecting an upstream task with a downstream task. *)
Definition connect (u d : nat) (g : gc) : option gc :=
  g ← upd u (fun t => with_down (d :: t_down t) t) g; upd d (fun t => with_up (u :: t_up t) t) g.

(** ** Jobs *)

Section Jobs.
(** The thresholds of the configuration. *)
Context (threshold : DepGCTaskType -> Z).

(** [DependentGCJob::isReady] (layout/gc_task.hpp:501-503). *)
Definition isReady (ty : DepGCTaskType) (j : gc_job) : bool := (threshold ty <=? sum_of_cost j) && (sum_blocked_count j =? 0).
(** [DependentGCJob::AddTask] (layout/gc_task.hpp:509-513). *)
Definition AddTask (ty : DepGCTaskType) (l : nat) (g : gc) : option gc :=
  t ← tasks g !! l;
  let j := jobs g ty in
  Some (set_job ty (mk_job (j_tasks j ++ [l]) (sum_of_cost j + t_cost t) (sum_blocked_count j + t_blocked t)) g).
(** [DependentGCJob::SetTaskInvalid] (layout/gc_task.hpp:516-519). *)
Definition SetTaskInvalid (ty : DepGCTaskType) (l : nat) (g : gc) : option gc :=
  g ← upd l (with_status INVALID) g;
  t ← tasks g !! l;
  let j := jobs g ty in
  Some (set_job ty (mk_job (j_tasks j) (sum_of_cost j - t_cost t) (sum_blocked_count j)) g).
(** [DependentGCJob::ReduceTaskBlockCount] (layout/gc_task.hpp:522-529). *)
Definition ReduceTaskBlockCount (ty : DepGCTaskType) (l : nat) (g : gc) : option gc :=
  g ← upd l (fun t => with_blocked (t_blocked t - 1) t) g;
  t ← tasks g !! l;
  g ← (if t_blocked t =? 0 then upd l (with_status ACTIVE) g else Some g);
  let j := jobs g ty in
  Some (set_job ty (mk_job (j_tasks j) (sum_of_cost j) (sum_blocked_count j - 1)) g).
(** The loop over the tasks of a job that is handed over. *)
Fixpoint mark_pushed (ls : list nat) (g : gc) : option gc :=
  match ls with
  | [] => Some g
  | l :: r =>
      t ← tasks g !! l;
      if decide (t_status t = ACTIVE) then g ← upd l (with_status PUSHED) g; mark_pushed r g
      else if decide (t_status t = INVALID) then mark_pushed r g else None
  end.
(** [GarbageCollector::PushJobToPendingQueue] (layout/garbage_collector.cpp:101-110). *)
Definition PushJobToPendingQueue (ty : DepGCTaskType) (ls : list nat) (g : gc) : option gc :=
  g ← mark_pushed ls g;
  Some (mk_gc (tasks g) (next_task g) (task_map g) (jobs g) (pending_jobs g ++ [(ty, ls)]) (finished_jobs g)).
(** The end of every function that changes a job: a ready job is copied, pushed
    and cleared, as in [GCProducer::spawn_vp_row_list_gctask]
    (layout/gc_producer.cpp:861-866). *)
Definition push_if_ready (ty : DepGCTaskType) (g : gc) : option gc :=
  if isReady ty (jobs g ty) then
    g ← PushJobToPendingQueue ty (j_tasks (jobs g ty)) g;
    Some (set_job ty (mk_job [] 0 0) g)
  else Some g.

(** [GCProducer::ReduceVPRowListGCJobBlockCount], and the same for EP and topology
    (layout/gc_producer.cpp:431-462). *)
Definition ReduceJobBlockCount (ty : DepGCTaskType) (l : nat) (g : gc) : option gc :=
  g ← ReduceTaskBlockCount ty l g; push_if_ready ty g.

(** ** The graph of tasks *)

Definition erase_key (k : task_key) (g : gc) : gc := set_map (delete k (task_map g)) g.
Definition emplace_key (k : task_key) (l : nat) (g : gc) : gc := set_map (<[k := l]> (task_map g)) g.

(** [GCTaskDAG::DisconnectInvalidVPRowListDefragTask] (layout/gc_producer.cpp:115-125). *)
Definition DisconnectInvalidVPRowListDefragTask (d : nat) (g : gc) : option gc :=
  t ← tasks g !! d;
  let g := erase_key (VP_ROW_LIST_DEFRAG, t_id t) g in
  u ← head (t_up t);
  g ← upd d (with_up []) g;
  g ← upd u (erase_down d) g;
  tu ← tasks g !! u;
  if decide (t_down tu = [] /\ t_status tu = ACTIVE) then Some g else None.
(** [GCTaskDAG::DisconnectInvalidTopoRowListDefragTask] (layout/gc_producer.cpp:380-397). *)
Definition DisconnectInvalidTopoRowListDefragTask (d : nat) (g : gc) : option gc :=
  t ← tasks g !! d;
  let g := erase_key (TOPO_ROW_LIST_DEFRAG, t_id t) g in
  u ← head (t_up t);
  g ← upd d (with_up []) g;
  g ← upd u (erase_down d) g;
  tu ← tasks g !! u;
  if decide (t_down tu = []) then
    if decide (t_status tu = EMPTY) then Some (free u (erase_key (TOPO_ROW_LIST_GC, t_id tu) g))
    else if decide (t_status tu = ACTIVE) then Some g else None
  else Some g.
(** The loop of [GCTaskDAG::DisconnectInvalidEPRowListDefragTask]
    (layout/gc_producer.cpp:402-424): the number of active upstream tasks. *)
Fixpoint disconnect_loop (d : nat) (us : list nat) (active : nat) (g : gc) : option (nat * gc) :=
  match us with
  | [] => Some (active, g)
  | u :: r =>
      g ← upd u (erase_down d) g;
      tu ← tasks g !! u;
      if decide (t_down tu = []) then
        if decide (t_status tu = EMPTY) then
          if decide (t_type tu = TOPO_ROW_LIST_GC \/ t_type tu = EP_ROW_LIST_GC)
          then disconnect_loop d r active (free u (erase_key (t_type tu, t_id tu) g)) else None
        else if decide (t_status tu = ACTIVE /\ (t_type tu = TOPO_ROW_LIST_GC \/ t_type tu = EP_ROW_LIST_GC))
        then disconnect_loop d r (S active) g else None
      else disconnect_loop d r active g
  end.
(** [GCTaskDAG::DisconnectInvalidEPRowListDefragTask] (layout/gc_producer.cpp:399-429). *)
Definition DisconnectInvalidEPRowListDefragTask (d : nat) (g : gc) : option gc :=
  t ← tasks g !! d;
  let g := erase_key (EP_ROW_LIST_DEFRAG, t_id t) g in
  '(active, g) ← disconnect_loop d (t_up t) 0 g;
  if decide (active = 1%nat) then upd d (with_up []) g else None.

(** A new task that frees a row list. *)
Definition insert_new_gc (ty : DepGCTaskType) (i : task_id) (target : Z) (g : gc) : option (option nat * gc) :=
  let '(l, g) := new_task ty i target 1 ACTIVE g in Some (Some l, emplace_key (ty, i) l g).
(** [GCTaskDAG::InsertVPRowListGCTask] (layout/gc_producer.cpp:23-60): the
    inserted task, if there is one. *)
Definition InsertVPRowListGCTask (i : task_id) (target : Z) (g : gc) : option (option nat * gc) :=
  match task_map g !! (VP_ROW_LIST_GC, i) with
  | Some l =>
      t ← tasks g !! l;
      if decide (t_status t <> EMPTY) then Some (None, g)
      else if decide (length (t_down t) = 1%nat) then
        d ← head (t_down t);
        td ← tasks g !! d;
        g ← upd l (with_target target) g;
        if decide (t_status td = PUSHED) then
          g ← upd l (with_status BLOCKED) g;
          g ← upd l (fun t => with_blocked (t_blocked t + 1) t) g;
          Some (Some l, g)
        else if decide (t_status td = ACTIVE) then
          g ← upd l (with_status ACTIVE) g;
          g ← SetTaskInvalid VP_ROW_LIST_DEFRAG d g;
          g ← DisconnectInvalidVPRowListDefragTask d g;
          Some (Some l, g)
        else None
      else None
  | None => insert_new_gc VP_ROW_LIST_GC i target g
  end.
(** [GCTaskDAG::InsertEPRowListGCTask] (layout/gc_producer.cpp:216-251). *)
Definition InsertEPRowListGCTask (i : task_id) (target : Z) (g : gc) : option (option nat * gc) :=
  match task_map g !! (EP_ROW_LIST_GC, i) with
  | Some l =>
      t ← tasks g !! l;
      if decide (t_status t <> EMPTY) then Some (None, g)
      else
        d ← head (t_down t);
        td ← tasks g !! d;
        g ← upd l (with_target target) g;
        if decide (t_status td = PUSHED) then
          g ← upd l (fun t => with_blocked (t_blocked t + 1) t) g;
          g ← upd l (with_status BLOCKED) g;
          Some (Some l, g)
        else if decide (t_status td = ACTIVE) then
          g ← upd l (with_status ACTIVE) g;
          g ← SetTaskInvalid EP_ROW_LIST_DEFRAG d g;
          g ← DisconnectInvalidEPRowListDefragTask d g;
          Some (Some l, g)
        else None
  | None => insert_new_gc EP_ROW_LIST_GC i target g
  end.
(** The loop of [GCTaskDAG::InsertTopoRowListGCTask] (layout/gc_producer.cpp:142-159). *)
Fixpoint topo_loop (l : nat) (ds : list nat) (g : gc) : option gc :=
  match ds with
  | [] => Some g
  | d :: r =>
      td ← tasks g !! d;
      if decide (t_status td = PUSHED) then g ← upd l (fun t => with_blocked (t_blocked t + 1) t) g; topo_loop l r g
      else if decide (t_status td = ACTIVE) then
        match t_type td with
        | TOPO_ROW_LIST_DEFRAG =>
            g ← SetTaskInvalid TOPO_ROW_LIST_DEFRAG d g; g ← DisconnectInvalidTopoRowListDefragTask d g; topo_loop l r g
        | EP_ROW_LIST_DEFRAG =>
            g ← SetTaskInvalid EP_ROW_LIST_DEFRAG d g; g ← DisconnectInvalidEPRowListDefragTask d g; topo_loop l r g
        | _ => None
        end
      else None
  end.
(** [GCTaskDAG::InsertTopoRowListGCTask] (layout/gc_producer.cpp:127-172). *)
Definition InsertTopoRowListGCTask (i : task_id) (target : Z) (g : gc) : option (option nat * gc) :=
  match task_map g !! (TOPO_ROW_LIST_GC, i) with
  | Some l =>
      t ← tasks g !! l;
      if decide (t_status t <> EMPTY) then Some (None, g)
      else
        g ← upd l (with_status ACTIVE) g;
        g ← upd l (with_target target) g;
        g ← topo_loop l (t_down t) g;
        t ← tasks g !! l;
        g ← (if 0 <? t_blocked t then upd l (with_status BLOCKED) g else Some g);
        Some (Some l, g)
  | None => insert_new_gc TOPO_ROW_LIST_GC i target g
  end.

(** [GCTaskDAG::InsertVPRowListDefragTask] (layout/gc_producer.cpp:62-85). *)
Definition InsertVPRowListDefragTask (i : task_id) (target cost : Z) (g : gc) : option (option nat * gc) :=
  if decide (is_Some (task_map g !! (VP_ROW_LIST_DEFRAG, i))) then Some (None, g)
  else if decide (is_Some (task_map g !! (VP_ROW_LIST_GC, i))) then Some (None, g)
  else
    let '(d, g) := new_task VP_ROW_LIST_DEFRAG i target cost ACTIVE g in
    let g := emplace_key (VP_ROW_LIST_DEFRAG, i) d g in
    let '(u, g) := new_task VP_ROW_LIST_GC i 0 1 EMPTY g in
    let g := emplace_key (VP_ROW_LIST_GC, i) u g in
    g ← connect u d g;
    Some (Some d, g).
(** [GCTaskDAG::InsertTopoRowListDefragTask] (layout/gc_producer.cpp:174-214). *)
Definition InsertTopoRowListDefragTask (i : task_id) (target cost : Z) (g : gc) : option (option nat * gc) :=
  if decide (is_Some (task_map g !! (TOPO_ROW_LIST_DEFRAG, i))) then Some (None, g)
  else
    match task_map g !! (TOPO_ROW_LIST_GC, i) with
    | Some u =>
        tu ← tasks g !! u;
        if decide (t_status tu = EMPTY) then
          let '(d, g) := new_task TOPO_ROW_LIST_DEFRAG i target cost ACTIVE g in
          g ← connect u d g;
          Some (Some d, emplace_key (TOPO_ROW_LIST_DEFRAG, i) d g)
        else Some (None, g)
    | None =>
        let '(d, g) := new_task TOPO_ROW_LIST_DEFRAG i target cost ACTIVE g in
        let '(u, g) := new_task TOPO_ROW_LIST_GC i 0 1 EMPTY g in
        g ← connect u d g;
        let g := emplace_key (TOPO_ROW_LIST_GC, i) u g in
        Some (Some d, emplace_key (TOPO_ROW_LIST_DEFRAG, i) d g)
    end.
(** [GCTaskDAG::InsertEPRowListDefragTask] (layout/gc_producer.cpp:253-301). *)
Definition InsertEPRowListDefragTask (i : task_id) (target cost : Z) (g : gc) : option (option nat * gc) :=
  if decide (is_Some (task_map g !! (EP_ROW_LIST_DEFRAG, i))) then Some (None, g)
  else if decide (is_Some (task_map g !! (EP_ROW_LIST_GC, i))) then Some (None, g)
  else
    let vk := (TOPO_ROW_LIST_GC, IdV (GetAttachedVid i)) in
    topo ← match task_map g !! vk with
      | Some u => tu ← tasks g !! u; Some (if decide (t_status tu = EMPTY) then Some (u, g) else None)
      | None => let '(u, g) := new_task TOPO_ROW_LIST_GC (IdV (GetAttachedVid i)) 0 1 EMPTY g in Some (Some (u, emplace_key vk u g))
      end;
    match topo with
    | None => Some (None, g)
    | Some (u, g) =>
        let '(d, g) := new_task EP_ROW_LIST_DEFRAG i target cost ACTIVE g in
        g ← connect u d g;
        let '(e, g) := new_task EP_ROW_LIST_GC i 0 1 EMPTY g in
        let g := emplace_key (EP_ROW_LIST_GC, i) e g in
        g ← connect e d g;
        Some (Some d, emplace_key (EP_ROW_LIST_DEFRAG, i) d g)
    end.

(** ** Finished tasks *)

(** [GCTaskDAG::DeleteVPRowListGCTask], and the same for topology and EP
    (layout/gc_producer.cpp:87-90). *)
Definition delete_gc_task (l : nat) (g : gc) : option gc :=
  t ← tasks g !! l;
  if decide (is_Some (task_map g !! (t_type t, t_id t))) then Some (erase_key (t_type t, t_id t) g) else None.
(** [GCTaskDAG::DeleteTopoRowListGCTask] (layout/gc_producer.cpp:303-306). *)
Definition DeleteTopoRowListGCTask := delete_gc_task.
(** [GCTaskDAG::DeleteEPRowListGCTask] (layout/gc_producer.cpp:333-336). *)
Definition DeleteEPRowListGCTask := delete_gc_task.
(** [GCTaskDAG::DeleteVPRowListDefragTask] (layout/gc_producer.cpp:92-113). *)
Definition DeleteVPRowListDefragTask (d : nat) (g : gc) : option gc :=
  t ← tasks g !! d;
  if decide (t_status t = INVALID) then Some g
  else if decide (t_status t = PUSHED /\ is_Some (task_map g !! (VP_ROW_LIST_DEFRAG, t_id t))) then
    u ← head (t_up t);
    tu ← tasks g !! u;
    g ← (if decide (t_status tu = EMPTY) then Some (free u (erase_key (VP_ROW_LIST_GC, t_id t) g))
         else if decide (t_status tu = BLOCKED) then g ← upd u (erase_down d) g; ReduceJobBlockCount VP_ROW_LIST_GC u g
         else None);
    Some (erase_key (VP_ROW_LIST_DEFRAG, t_id t) g)
  else None.
(** [GCTaskDAG::DeleteTopoRowListDefragTask] (layout/gc_producer.cpp:308-331). *)
Definition DeleteTopoRowListDefragTask (d : nat) (g : gc) : option gc :=
  t ← tasks g !! d;
  if decide (t_status t = INVALID) then Some g
  else if decide (t_status t = PUSHED /\ is_Some (task_map g !! (TOPO_ROW_LIST_DEFRAG, t_id t))) then
    u ← head (t_up t);
    g ← upd u (erase_down d) g;
    tu ← tasks g !! u;
    g ← (if decide (t_status tu = EMPTY) then
           if decide (t_down tu = []) then Some (free u (erase_key (TOPO_ROW_LIST_GC, t_id t) g)) else Some g
         else if decide (t_status tu = BLOCKED) then ReduceJobBlockCount TOPO_ROW_LIST_GC u g
         else None);
    Some (erase_key (TOPO_ROW_LIST_DEFRAG, t_id t) g)
  else None.
(** The loop of [GCTaskDAG::DeleteEPRowListDefragTask] (layout/gc_producer.cpp:345-375). *)
Fixpoint delete_loop (d : nat) (i : task_id) (us : list nat) (g : gc) : option gc :=
  match us with
  | [] => Some g
  | u :: r =>
      g ← upd u (erase_down d) g;
      tu ← tasks g !! u;
      match t_type tu with
      | EP_ROW_LIST_GC =>
          if decide (t_status tu = EMPTY) then
            if decide (t_down tu = []) then delete_loop d i r (free u (erase_key (EP_ROW_LIST_GC, i) g)) else None
          else if decide (t_status tu = BLOCKED) then g ← ReduceJobBlockCount EP_ROW_LIST_GC u g; delete_loop d i r g
          else None
      | TOPO_ROW_LIST_GC =>
          if decide (t_status tu = EMPTY) then
            if decide (t_down tu = []) then delete_loop d i r (free u (erase_key (TOPO_ROW_LIST_GC, IdV (GetAttachedVid i)) g))
            else delete_loop d i r g
          else if decide (t_status tu = BLOCKED) then g ← ReduceJobBlockCount TOPO_ROW_LIST_GC u g; delete_loop d i r g
          else None
      | _ => None
      end
  end.
(** [GCTaskDAG::DeleteEPRowListDefragTask] (layout/gc_producer.cpp:338-378). *)
Definition DeleteEPRowListDefragTask (d : nat) (g : gc) : option gc :=
  t ← tasks g !! d;
  if decide (t_status t = INVALID) then Some g
  else if decide (t_status t = PUSHED /\ is_Some (task_map g !! (EP_ROW_LIST_DEFRAG, t_id t))) then
    g ← delete_loop d (t_id t) (t_up t) g;
    Some (erase_key (EP_ROW_LIST_DEFRAG, t_id t) g)
  else None.

Definition DeleteTask (ty : DepGCTaskType) : nat -> gc -> option gc :=
  match ty with
  | TOPO_ROW_LIST_GC => DeleteTopoRowListGCTask
  | TOPO_ROW_LIST_DEFRAG => DeleteTopoRowListDefragTask
  | VP_ROW_LIST_GC => delete_gc_task
  | VP_ROW_LIST_DEFRAG => DeleteVPRowListDefragTask
  | EP_ROW_LIST_GC => DeleteEPRowListGCTask
  | EP_ROW_LIST_DEFRAG => DeleteEPRowListDefragTask
  end.
Fixpoint delete_tasks (ty : DepGCTaskType) (ls : list nat) (g : gc) : option gc :=
  match ls with [] => Some g | l :: r => g ← DeleteTask ty l g; delete_tasks ty r g end.
(** One round of [GCProducer::check_finished_job] (layout/gc_producer.cpp:995-1053):
    the job is popped, its tasks leave the graph, and the job is deleted with its
    tasks. *)
Definition check_finished_job (g : gc) : option gc :=
  match finished_jobs g with
  | [] => Some g
  | (ty, ls) :: rest =>
      g ← delete_tasks ty ls (mk_gc (tasks g) (next_task g) (task_map g) (jobs g) (pending_jobs g) rest);
      Some (foldr free g ls)
  end.

(** ** Spawning and consuming *)

(** Adding the inserted task to its job. *)
Definition spawn (ty : DepGCTaskType) (r : option (option nat * gc)) : option gc :=
  '(l, g) ← r;
  match l with
  | None => Some g
  | Some l => g ← AddTask ty l g; push_if_ready ty g
  end.
(** [GCProducer::spawn_topo_row_list_gctask] (layout/gc_producer.cpp:814-830). *)
Definition spawn_topo_row_list_gctask (target vid : Z) (g : gc) : option gc :=
  spawn TOPO_ROW_LIST_GC (InsertTopoRowListGCTask (IdV vid) target g).
(** [GCProducer::spawn_topo_row_list_defrag_gctask] (layout/gc_producer.cpp:832-849). *)
Definition spawn_topo_row_list_defrag_gctask (target vid cost : Z) (g : gc) : option gc :=
  spawn TOPO_ROW_LIST_DEFRAG (InsertTopoRowListDefragTask (IdV vid) target cost g).
(** [GCProducer::spawn_vp_row_list_gctask] (layout/gc_producer.cpp:851-867). *)
Definition spawn_vp_row_list_gctask (target vid : Z) (g : gc) : option gc :=
  spawn VP_ROW_LIST_GC (InsertVPRowListGCTask (IdV vid) target g).
(** [GCProducer::spawn_vp_row_defrag_gctask] (layout/gc_producer.cpp:869-888). *)
Definition spawn_vp_row_defrag_gctask (target vid cost : Z) (g : gc) : option gc :=
  spawn VP_ROW_LIST_DEFRAG (InsertVPRowListDefragTask (IdV vid) target cost g).
(** [GCProducer::spawn_ep_row_list_gctask] (layout/gc_producer.cpp:890-907). *)
Definition spawn_ep_row_list_gctask (target : Z) (eid : eid_t) (g : gc) : option gc :=
  spawn EP_ROW_LIST_GC (InsertEPRowListGCTask (IdE eid target) target g).
(** [GCProducer::spawn_ep_row_defrag_gctask] (layout/gc_producer.cpp:909-929). *)
Definition spawn_ep_row_defrag_gctask (target : Z) (eid : eid_t) (cost : Z) (g : gc) : option gc :=
  spawn EP_ROW_LIST_DEFRAG (InsertEPRowListDefragTask (IdE eid target) target cost g).

(** The checks of a consumer on the tasks of a job, in
    [GCConsumer::ExecuteTopoRowListGCJob] and the jobs after it
    (layout/gc_consumer.cpp:266-355): the row lists that are freed or
    defragmented.  A defragmentation that has become invalid is skipped. *)
Definition is_defrag (ty : DepGCTaskType) : bool :=
  match ty with TOPO_ROW_LIST_DEFRAG | VP_ROW_LIST_DEFRAG | EP_ROW_LIST_DEFRAG => true | _ => false end.
Fixpoint execute_tasks (ty : DepGCTaskType) (ls : list nat) (g : gc) : option (list Z) :=
  match ls with
  | [] => Some []
  | l :: r =>
      t ← tasks g !! l;
      if is_defrag ty && bool_decide (t_status t = INVALID) then execute_tasks ty r g
      else if decide (t_status t = PUSHED /\ t_target t <> 0) then ps ← execute_tasks ty r g; Some (t_target t :: ps)
      else None
  end.

(** A consumer has popped the job at a position of the queue and has executed it:
    [GCConsumer::Execute] (layout/gc_consumer.cpp:42-113). *)
Definition Execute (n : nat) (g : gc) : option gc :=
  '(ty, ls) ← pending_jobs g !! n;
  _ ← execute_tasks ty ls g;
  Some (mk_gc (tasks g) (next_task g) (task_map g) (jobs g) (delete n (pending_jobs g)) (finished_jobs g ++ [(ty, ls)])).

(** The collector after its start. *)
Definition gc_init : gc := mk_gc ∅ 0 ∅ (fun _ => mk_job [] 0 0) [] [].

(** The steps of the producer and the consumers; the sets may be rehashed. *)
Inductive gc_step : gc -> gc -> Prop :=
| gs_topo_gc p v g g' : p <> 0 -> spawn_topo_row_list_gctask p v g = Some g' -> gc_step g g'
| gs_topo_defrag p v c g g' : p <> 0 -> spawn_topo_row_list_defrag_gctask p v c g = Some g' -> gc_step g g'
| gs_vp_gc p v g g' : p <> 0 -> spawn_vp_row_list_gctask p v g = Some g' -> gc_step g g'
| gs_vp_defrag p v c g g' : p <> 0 -> spawn_vp_row_defrag_gctask p v c g = Some g' -> gc_step g g'
| gs_ep_gc p e g g' : p <> 0 -> spawn_ep_row_list_gctask p e g = Some g' -> gc_step g g'
| gs_ep_defrag p e c g g' : p <> 0 -> spawn_ep_row_defrag_gctask p e c g = Some g' -> gc_step g g'
| gs_execute n g g' : Execute n g = Some g' -> gc_step g g'
| gs_finish g g' : check_finished_job g = Some g' -> gc_step g g'
| gs_rehash l t up down g : tasks g !! l = Some t -> up ≡ₚ t_up t -> down ≡ₚ t_down t ->
    gc_step g (set_tasks (<[l := with_up up (with_down down t)]> (tasks g)) g).
End Jobs.
