(* ===== verification/GcGraph.v ===== *)
(** * The graph of collection tasks

    The invariant of the tasks and of their graph, and of the jobs that the tasks
    of GcTasks.v are in, with the small changes that keep them: a task changes its
    status, an edge is added or removed, a task is created, freed or handed over. *)
From S2P Require Import Prelude Types GcTasks.
Local Open Scope Z_scope.

(** ** Keys *)

Definition key (t : task) : task_key := (t_type t, t_id t).
(** The tasks upstream of a defragmentation. *)
Definition up_keys (k : task_key) : list task_key :=
  match k.1 with
  | VP_ROW_LIST_DEFRAG => [(VP_ROW_LIST_GC, k.2)]
  | TOPO_ROW_LIST_DEFRAG => [(TOPO_ROW_LIST_GC, k.2)]
  | EP_ROW_LIST_DEFRAG => [(TOPO_ROW_LIST_GC, IdV (GetAttachedVid k.2)); (EP_ROW_LIST_GC, k.2)]
  | _ => []
  end.
Lemma up_keys_types k k' : k' ∈ up_keys k -> is_defrag k.1 = true /\ is_defrag k'.1 = false.
Proof. destruct k as [[] i]; cbn; rewrite ?elem_of_cons, ?elem_of_nil; intros H; destruct_or?; try done; by subst. Qed.

(** ** The invariant of the graph *)

Definition stat_ok (ts : gmap nat task) (t : task) : Prop :=
  (t_status t <> EMPTY -> t_target t <> 0) /\
  if is_defrag (t_type t) then t_blocked t = 0 /\ (t_status t = ACTIVE \/ t_status t = PUSHED \/ t_status t = INVALID)
  else
    match t_status t with
    | EMPTY => t_down t <> [] /\ t_blocked t = 0
    | BLOCKED => t_down t <> [] /\ t_blocked t = Z.of_nat (length (t_down t)) /\
        forall d, d ∈ t_down t -> exists td, ts !! d = Some td /\ t_status td = PUSHED
    | ACTIVE | PUSHED => t_down t = [] /\ t_blocked t = 0
    | INVALID => False
    end.

(** [ups] are the upstream tasks of a task; [x] are the tasks that are being inserted
    or deleted; [dead] are the tasks that have left the graph and are not yet
    freed. *)
Record graph (ts : gmap nat task) (mp : gmap task_key nat) (ups : nat -> list nat) (x dead : list nat) : Prop := {
  g_map : forall k l, mp !! k = Some l -> exists t, ts !! l = Some t /\ key t = k /\ t_status t <> INVALID;
  g_reg : forall l t, ts !! l = Some t -> t_status t <> INVALID -> l ∉ dead -> mp !! key t = Some l;
  g_down : forall l t, ts !! l = Some t -> NoDup (t_down t) /\ forall d, d ∈ t_down t <-> l ∈ ups d;
  g_ups : forall d l, l ∈ ups d -> exists td t, ts !! d = Some td /\ ts !! l = Some t /\ key t ∈ up_keys (key td);
  g_stat : forall l t, ts !! l = Some t -> l ∉ x -> l ∉ dead -> stat_ok ts t;
  g_complete : forall d td k, ts !! d = Some td -> t_status td <> INVALID -> d ∉ x -> d ∉ dead -> k ∈ up_keys (key td) ->
    exists l, mp !! k = Some l /\ l ∈ ups d;
  g_dead : forall d, d ∈ dead -> (forall l, l ∉ ups d) /\ (forall d', d ∉ ups d') /\ (forall k, mp !! k <> Some d);
  g_gc : forall l t, ts !! l = Some t -> is_defrag (t_type t) = false -> t_status t <> INVALID;
}.

Lemma stat_ok_mono (ts ts' : gmap nat task) t :
  (forall d td, ts !! d = Some td -> t_status td = PUSHED -> exists td', ts' !! d = Some td' /\ t_status td' = PUSHED) ->
  stat_ok ts t -> stat_ok ts' t.
Proof.
  intros H [H1 H2]. split; [done|]. destruct (is_defrag _); [done|]. destruct (t_status t); try done.
  destruct H2 as (? & ? & Ha). split_and!; [done..|]. intros d Hd. destruct (Ha d Hd) as (td & E1 & E2). by apply (H d td).
Qed.
Lemma pushed_insert (ts : gmap nat task) l t t' :
  ts !! l = Some t -> (t_status t = PUSHED -> t_status t' = PUSHED) ->
  forall d td, ts !! d = Some td -> t_status td = PUSHED -> exists td', <[l:=t']> ts !! d = Some td' /\ t_status td' = PUSHED.
Proof.
  intros E Hp d td Ed Hs. destruct (decide (d = l)) as [->|Hne].
  - rewrite lookup_insert_eq. exists t'. split; [done|]. simplify_eq. auto.
  - rewrite lookup_insert_ne by done. eauto.
Qed.

Lemma key_insert (ts : gmap nat task) l t t' d td :
  ts !! l = Some t -> key t' = key t -> ts !! d = Some td -> exists td', <[l:=t']> ts !! d = Some td' /\ key td' = key td.
Proof.
  intros E Hk Ed. destruct (decide (d = l)) as [->|]; [|rewrite lookup_insert_ne by done; eauto].
  rewrite lookup_insert_eq. rewrite E in Ed. injection Ed as <-. eauto.
Qed.

(** A task keeps its place in the graph. *)
Lemma graph_upd ts mp ups x dead l t t' :
  graph ts mp ups x dead -> ts !! l = Some t -> key t' = key t -> t_down t' ≡ₚ t_down t ->
  (t_status t' = INVALID <-> t_status t = INVALID) -> (t_status t = PUSHED -> t_status t' = PUSHED) ->
  (l ∉ x -> l ∉ dead -> stat_ok ts t -> stat_ok (<[l:=t']> ts) t') ->
  graph (<[l:=t']> ts) mp ups x dead.
Proof.
  intros G E Hk Hd Hi Hp Hs. split.
  - intros k l' Em. destruct (g_map _ _ _ _ _ G k l' Em) as (t1 & E1 & K1 & S1). destruct (decide (l' = l)) as [->|Hne].
    + rewrite lookup_insert_eq. rewrite E in E1. injection E1 as <-. exists t'. split; [done|]. split; [congruence|]. by rewrite Hi.
    + rewrite lookup_insert_ne by done. eauto.
  - intros l' t1. destruct (decide (l' = l)) as [->|Hne].
    + rewrite lookup_insert_eq. intros [= <-] Hn Hd'. rewrite Hk. apply (g_reg _ _ _ _ _ G); [done| |done]. by rewrite <- Hi.
    + rewrite lookup_insert_ne by done. apply G.
  - intros l' t1. destruct (decide (l' = l)) as [->|Hne].
    + rewrite lookup_insert_eq. intros [= <-]. destruct (g_down _ _ _ _ _ G l t E) as [N1 N2]. rewrite Hd. split; [done|]. intros d. by rewrite Hd.
    + rewrite lookup_insert_ne by done. apply G.
  - intros d l' Hu. destruct (g_ups _ _ _ _ _ G d l' Hu) as (td & t1 & E1 & E2 & K).
    destruct (key_insert ts l t t' d td E Hk E1) as (td' & F1 & F2). destruct (key_insert ts l t t' l' t1 E Hk E2) as (t1' & F3 & F4).
    exists td', t1'. by rewrite F2, F4.
  - intros l' t1. destruct (decide (l' = l)) as [->|Hne].
    + rewrite lookup_insert_eq. intros [= <-] Hx Hdd. apply Hs; [done..|]. by apply (g_stat _ _ _ _ _ G l).
    + rewrite lookup_insert_ne by done. intros E1 Hx Hdd. apply (stat_ok_mono ts); [by apply (pushed_insert ts l t)|]. by apply (g_stat _ _ _ _ _ G l').
  - intros d td k. destruct (decide (d = l)) as [->|Hne].
    + rewrite lookup_insert_eq. intros [= <-] Hn Hx Hdd. rewrite Hk. apply (g_complete _ _ _ _ _ G l t); [done| |done..]. by rewrite <- Hi.
    + rewrite lookup_insert_ne by done. apply G.
  - apply G.
  - intros l0 t0. destruct (decide (l0 = l)) as [->|]; [|rewrite lookup_insert_ne by done; apply G]. rewrite lookup_insert_eq. intros [= <-] Hty. rewrite Hi.
    apply (g_gc _ _ _ _ _ G l t E). unfold key in Hk. congruence.
Qed.

Lemma graph_ups ts mp ups ups' x dead : (forall d l, l ∈ ups d <-> l ∈ ups' d) -> graph ts mp ups x dead -> graph ts mp ups' x dead.
Proof.
  intros H G. split; try apply G.
  - intros l t E. destruct (g_down _ _ _ _ _ G l t E) as [N1 N2]. split; [done|]. intros d. by rewrite <- H.
  - intros d l Hl. apply (g_ups _ _ _ _ _ G). by apply H.
  - intros d td k E1 E2 E3 E4 E5. destruct (g_complete _ _ _ _ _ G d td k E1 E2 E3 E4 E5) as (l & F1 & F2). exists l. by rewrite <- H.
  - intros d Hd. destruct (g_dead _ _ _ _ _ G d Hd) as (D1 & D2 & D3). split_and!; [| |done]; intros; by rewrite <- H.
Qed.
Lemma graph_open ts mp ups l x dead : graph ts mp ups x dead -> graph ts mp ups (l :: x) dead.
Proof.
  intros G. split; try apply G.
  - intros l' t E [_ Hx]%not_elem_of_cons. by apply (g_stat _ _ _ _ _ G l').
  - intros d td k E Hn [_ Hx]%not_elem_of_cons. by apply (g_complete _ _ _ _ _ G d td).
Qed.
Lemma graph_close ts mp ups l x dead t :
  graph ts mp ups (l :: x) dead -> ts !! l = Some t -> stat_ok ts t ->
  (t_status t <> INVALID -> forall k, k ∈ up_keys (key t) -> exists u, mp !! k = Some u /\ u ∈ ups l) -> graph ts mp ups x dead.
Proof.
  intros G E Hs Hc. split; try apply G.
  - intros l' t' E' Hx Hd. destruct (decide (l' = l)) as [->|]; [congruence|]. apply (g_stat _ _ _ _ _ G l'); [done|by apply not_elem_of_cons|done].
  - intros d td k E' Hn Hx Hd Hk. destruct (decide (d = l)) as [->|]; [rewrite E in E'; injection E' as <-; by apply Hc|].
    apply (g_complete _ _ _ _ _ G d td); [done..|by apply not_elem_of_cons|done|done].
Qed.

(** The only task of a key. *)
Lemma graph_key ts mp ups x dead l l' t t' :
  graph ts mp ups x dead -> ts !! l = Some t -> ts !! l' = Some t' -> t_status t <> INVALID -> t_status t' <> INVALID ->
  l ∉ dead -> l' ∉ dead -> key t = key t' -> l = l'.
Proof. intros G E E' S S' D D' K. pose proof (g_reg _ _ _ _ _ G l t E S D). pose proof (g_reg _ _ _ _ _ G l' t' E' S' D'). congruence. Qed.
Lemma graph_types ts mp ups x dead d l td t :
  graph ts mp ups x dead -> l ∈ ups d -> ts !! d = Some td -> ts !! l = Some t -> is_defrag (t_type td) = true /\ is_defrag (t_type t) = false.
Proof.
  intros G Hl Ed El. destruct (g_ups _ _ _ _ _ G d l Hl) as (td' & t' & E1 & E2 & K). apply up_keys_types in K. rewrite Ed in E1. rewrite El in E2.
  injection E1 as <-. by injection E2 as <-.
Qed.

(** A defragmentation becomes invalid and leaves the map. *)
Lemma graph_invalidate ts mp ups x dead d td :
  graph ts mp ups x dead -> ts !! d = Some td -> is_defrag (t_type td) = true -> t_status td = ACTIVE -> d ∉ x -> d ∉ dead ->
  graph (<[d := with_status INVALID td]> ts) (delete (key td) mp) ups x dead.
Proof.
  intros G E Hdf Ha Hx Hd. assert (t_status td <> INVALID) as Hni by (by rewrite Ha). pose proof (g_reg _ _ _ _ _ G d td E Hni Hd) as Er.
  assert (forall k t, ts !! k = Some t -> k <> d -> <[d := with_status INVALID td]> ts !! k = Some t) as Hne by (intros; by rewrite lookup_insert_ne).
  split.
  - intros k l [Hk Em]%lookup_delete_Some. destruct (g_map _ _ _ _ _ G k l Em) as (t & E1 & K1 & S1). exists t. split_and!; [|done..].
    apply Hne; [done|]. intros ->. congruence.
  - intros l t. destruct (decide (l = d)) as [->|Hld]; [rewrite lookup_insert_eq; by intros [= <-]|]. rewrite lookup_insert_ne by done.
    intros E1 S1 D1. rewrite lookup_delete_ne; [by apply (g_reg _ _ _ _ _ G)|]. intros K. apply Hld. by apply (graph_key _ _ _ _ _ l d t td G).
  - intros l t. destruct (decide (l = d)) as [->|Hld]; [rewrite lookup_insert_eq; intros [= <-]; by apply (g_down _ _ _ _ _ G d td)|].
    rewrite lookup_insert_ne by done. apply G.
  - intros d' l Hl. destruct (g_ups _ _ _ _ _ G d' l Hl) as (td' & t & E1 & E2 & K).
    destruct (key_insert ts d td (with_status INVALID td) d' td' E eq_refl E1) as (td1 & F1 & F2).
    destruct (key_insert ts d td (with_status INVALID td) l t E eq_refl E2) as (t1 & F3 & F4). exists td1, t1. by rewrite F2, F4.
  - intros l t. destruct (decide (l = d)) as [->|Hld].
    + rewrite lookup_insert_eq. intros [= <-] _ _. destruct (g_stat _ _ _ _ _ G d td E Hx Hd) as [T1 T2]. split; [cbn; intros _; apply T1; by rewrite Ha|].
      cbn. rewrite Hdf in *. destruct T2. auto.
    + rewrite lookup_insert_ne by done. intros E1 X1 D1. apply (stat_ok_mono ts); [|by apply (g_stat _ _ _ _ _ G l)].
      apply (pushed_insert ts d td); [done|]. by rewrite Ha.
  - intros d' td' k. destruct (decide (d' = d)) as [->|Hld]; [rewrite lookup_insert_eq; by intros [= <-]|]. rewrite lookup_insert_ne by done.
    intros E1 S1 X1 D1 K1. destruct (g_complete _ _ _ _ _ G d' td' k E1 S1 X1 D1 K1) as (l & F1 & F2). exists l. split; [|done].
    rewrite lookup_delete_ne; [done|]. intros <-. apply up_keys_types in K1 as [_ K1]. cbn in K1. congruence.
  - intros d' Hd'. destruct (g_dead _ _ _ _ _ G d' Hd') as (A & B & C). split_and!; [done..|]. intros k [_ Em]%lookup_delete_Some. by apply (C k).
  - intros l0 t0. destruct (decide (l0 = d)) as [->|]; [|rewrite lookup_insert_ne by done; apply G]. rewrite lookup_insert_eq. intros [= <-] Hty. cbn in Hty. congruence.
Qed.

(** Removing the edge between [u] and [d]. *)
Definition drop_up (ups : nat -> list nat) (d u : nat) : nat -> list nat :=
  fun d' => if decide (d' = d) then filter (fun l => l <> u) (ups d) else ups d'.
Lemma elem_of_drop_up ups d u d' l : l ∈ drop_up ups d u d' <-> l ∈ ups d' /\ (d' = d -> l <> u).
Proof. unfold drop_up. case_decide as E; [subst; rewrite list_elem_of_filter|]; naive_solver. Qed.

Lemma graph_drop ts mp ups x dead u tu tu' d :
  graph ts mp ups x dead -> ts !! u = Some tu -> u ∈ ups d -> key tu' = key tu -> t_down tu' = filter (fun l => l <> d) (t_down tu) ->
  (t_status tu' = INVALID <-> t_status tu = INVALID) -> (t_status tu = PUSHED -> t_status tu' = PUSHED) ->
  (u ∉ x -> stat_ok (<[u:=tu']> ts) tu') -> (forall td, ts !! d = Some td -> t_status td = INVALID \/ d ∈ x) ->
  graph (<[u:=tu']> ts) mp (drop_up ups d u) x dead.
Proof.
  intros G E Hu Hk Hdn Hi Hp Hs Hex. split.
  - intros k l Em. destruct (g_map _ _ _ _ _ G k l Em) as (t & E1 & K1 & S1). destruct (decide (l = u)) as [->|Hne].
    + rewrite lookup_insert_eq. rewrite E in E1. injection E1 as <-. exists tu'. split; [done|]. split; [congruence|]. by rewrite Hi.
    + rewrite lookup_insert_ne by done. eauto.
  - intros l t. destruct (decide (l = u)) as [->|Hne].
    + rewrite lookup_insert_eq. intros [= <-] S1 D1. rewrite Hk. apply (g_reg _ _ _ _ _ G); [done|by rewrite <- Hi|done].
    + rewrite lookup_insert_ne by done. apply G.
  - intros l t. destruct (decide (l = u)) as [->|Hne].
    + rewrite lookup_insert_eq. intros [= <-]. destruct (g_down _ _ _ _ _ G u tu E) as [N1 N2]. rewrite Hdn. split; [by apply NoDup_filter|].
      intros d'. rewrite list_elem_of_filter, elem_of_drop_up, N2. naive_solver.
    + rewrite lookup_insert_ne by done. intros E1. destruct (g_down _ _ _ _ _ G l t E1) as [N1 N2]. split; [done|].
      intros d'. rewrite elem_of_drop_up, N2. naive_solver.
  - intros d' l [Hl _]%elem_of_drop_up. destruct (g_ups _ _ _ _ _ G d' l Hl) as (td & t & E1 & E2 & K).
    destruct (key_insert ts u tu tu' d' td E Hk E1) as (td1 & F1 & F2). destruct (key_insert ts u tu tu' l t E Hk E2) as (t1 & F3 & F4).
    exists td1, t1. by rewrite F2, F4.
  - intros l t. destruct (decide (l = u)) as [->|Hne]; [rewrite lookup_insert_eq; intros [= <-] X1 _; by apply Hs|].
    rewrite lookup_insert_ne by done. intros E1 X1 D1. apply (stat_ok_mono ts); [by apply (pushed_insert ts u tu)|]. by apply (g_stat _ _ _ _ _ G l).
  - intros d' td k. destruct (g_ups _ _ _ _ _ G d u Hu) as (td0 & tu0 & F1 & F2 & F3). destruct (up_keys_types _ _ F3) as [T1 T2].
    destruct (decide (d' = u)) as [->|Hne].
    { rewrite lookup_insert_eq. intros [= <-] _ _ _ K1. apply up_keys_types in K1 as [K1 _]. rewrite Hk in K1. rewrite E in F2. injection F2 as <-. cbn in *. congruence. }
    rewrite lookup_insert_ne by done. intros E1 S1 X1 D1 K1. destruct (g_complete _ _ _ _ _ G d' td k E1 S1 X1 D1 K1) as (l & G1 & G2).
    exists l. split; [done|]. apply elem_of_drop_up. split; [done|]. intros ->. destruct (Hex td E1); done.
  - intros d' Hd'. destruct (g_dead _ _ _ _ _ G d' Hd') as (A & B & C). split_and!; [| |done].
    + intros l Hl. apply elem_of_drop_up in Hl as [Hl _]. by apply (A l).
    + intros d2 Hl. apply elem_of_drop_up in Hl as [Hl _]. by apply (B d2).
  - intros l0 t0. destruct (decide (l0 = u)) as [->|]; [|rewrite lookup_insert_ne by done; apply G]. rewrite lookup_insert_eq. intros [= <-] Hty. rewrite Hi.
    apply (g_gc _ _ _ _ _ G u tu E). unfold key in Hk. congruence.
Qed.

(** An empty upstream task that has lost its last downstream task is freed. *)
Lemma graph_free ts mp ups x dead u tu d :
  graph ts mp ups x dead -> ts !! u = Some tu -> u ∈ ups d -> t_status tu = EMPTY -> filter (fun l => l <> d) (t_down tu) = [] ->
  (forall td, ts !! d = Some td -> t_status td = INVALID \/ d ∈ x) ->
  graph (delete u ts) (delete (key tu) mp) (drop_up ups d u) x dead.
Proof.
  intros G E Hu He Hf Hex.
  assert (u ∉ dead) as Hud by (intros Hd; destruct (g_dead _ _ _ _ _ G u Hd) as (_ & B & _); by apply (B d)).
  assert (t_status tu <> INVALID) as Hni by (by rewrite He). pose proof (g_reg _ _ _ _ _ G u tu E Hni Hud) as Er.
  assert (forall d', u ∈ ups d' -> d' = d) as Honly.
  { intros d' Hd'. apply (g_down _ _ _ _ _ G u tu E) in Hd'. destruct (decide (d' = d)) as [|Hne]; [done|].
    assert (d' ∈ filter (fun l => l <> d) (t_down tu)) as Hin by (by apply list_elem_of_filter). rewrite Hf in Hin. by apply elem_of_nil in Hin. }
  assert (forall d' l, l ∈ ups d' -> d' <> u) as Hdu.
  { intros d' l Hl ->. destruct (g_ups _ _ _ _ _ G u l Hl) as (td & t & E1 & E2 & K). destruct (g_ups _ _ _ _ _ G d u Hu) as (td2 & t2 & E3 & E4 & K2).
    apply up_keys_types in K as [K _]. apply up_keys_types in K2 as [_ K2]. rewrite E in E1, E4. injection E1 as <-. injection E4 as <-. congruence. }
  split.
  - intros k l [Hk Em]%lookup_delete_Some. destruct (g_map _ _ _ _ _ G k l Em) as (t & E1 & K1 & S1). exists t. split_and!; [|done..].
    rewrite lookup_delete_ne; [done|]. intros <-. congruence.
  - intros l t [Hl E1]%lookup_delete_Some S1 D1. rewrite lookup_delete_ne; [by apply (g_reg _ _ _ _ _ G)|].
    intros K. apply Hl. by apply (graph_key _ _ _ _ _ u l tu t G).
  - intros l t [Hl E1]%lookup_delete_Some. destruct (g_down _ _ _ _ _ G l t E1) as [N1 N2]. split; [done|].
    intros d'. rewrite elem_of_drop_up, N2. naive_solver.
  - intros d' l [Hl Hd']%elem_of_drop_up. destruct (g_ups _ _ _ _ _ G d' l Hl) as (td & t & E1 & E2 & K). exists td, t.
    rewrite !lookup_delete_ne; [done| |]; [|intros <-; by apply (Hdu u l)]. intros <-. by apply Hd'; [apply Honly|].
  - intros l t [Hl E1]%lookup_delete_Some X1 D1. apply (stat_ok_mono ts); [|by apply (g_stat _ _ _ _ _ G l)].
    intros d' td Ed Sd. exists td. split; [|done]. rewrite lookup_delete_ne; [done|]. intros <-. congruence.
  - intros d' td k [Hl E1]%lookup_delete_Some S1 X1 D1 K1. destruct (g_complete _ _ _ _ _ G d' td k E1 S1 X1 D1 K1) as (l & G1 & G2).
    assert (d' <> d) as Hdd by (intros ->; destruct (Hex td E1); done). assert (l <> u) as Hlu by (intros ->; by apply Hdd, Honly).
    exists l. split; [|apply elem_of_drop_up; naive_solver]. rewrite lookup_delete_ne; [done|]. intros <-. congruence.
  - intros d' Hd'. destruct (g_dead _ _ _ _ _ G d' Hd') as (A & B & C). split_and!.
    + intros l Hl. apply elem_of_drop_up in Hl as [Hl _]. by apply (A l).
    + intros d2 Hl. apply elem_of_drop_up in Hl as [Hl _]. by apply (B d2).
    + intros k [_ Em]%lookup_delete_Some. by apply (C k).
  - intros l0 t0 [_ E0]%lookup_delete_Some. by apply (g_gc _ _ _ _ _ G l0).
Qed.

(** A new task. *)
Lemma graph_add ts mp ups x dead l t :
  graph ts mp ups x dead -> ts !! l = None -> mp !! key t = None -> t_down t = [] -> t_status t <> INVALID -> l ∈ x -> l ∉ dead ->
  graph (<[l:=t]> ts) (<[key t:=l]> mp) ups x dead.
Proof.
  intros G El Em Hd Hs Hx Hdd. assert (forall l' t', ts !! l' = Some t' -> l' <> l) as Hne by (intros l' t' E ->; congruence). split.
  - intros k l'. destruct (decide (k = key t)) as [->|Hk].
    + rewrite lookup_insert_eq. intros [= <-]. exists t. by rewrite lookup_insert_eq.
    + rewrite lookup_insert_ne by done. intros E1. destruct (g_map _ _ _ _ _ G k l' E1) as (t' & E2 & K & S). exists t'. rewrite lookup_insert_ne; [done|].
      by apply not_eq_sym, (Hne l' t').
  - intros l' t'. destruct (decide (l' = l)) as [->|Hl]; [rewrite lookup_insert_eq; intros [= <-] _ _; by rewrite lookup_insert_eq|].
    rewrite lookup_insert_ne by done. intros E S D. pose proof (g_reg _ _ _ _ _ G l' t' E S D). rewrite lookup_insert_ne; [done|]. congruence.
  - intros l' t'. destruct (decide (l' = l)) as [->|Hl].
    + rewrite lookup_insert_eq. intros [= <-]. rewrite Hd. split; [constructor|]. intros d. split; [by intros ?%elem_of_nil|].
      intros Hu. destruct (g_ups _ _ _ _ _ G d l Hu) as (? & ? & _ & ? & _). congruence.
    + rewrite lookup_insert_ne by done. apply G.
  - intros d l' Hl'. destruct (g_ups _ _ _ _ _ G d l' Hl') as (td & t' & E1 & E2 & K). exists td, t'.
    rewrite !lookup_insert_ne; [done|by apply not_eq_sym, (Hne l' t')|by apply not_eq_sym, (Hne d td)].
  - intros l' t'. destruct (decide (l' = l)) as [->|Hl]; [done|]. rewrite lookup_insert_ne by done. intros E1 X1 D1.
    apply (stat_ok_mono ts); [|by apply (g_stat _ _ _ _ _ G l')]. intros d td Ed Sd. exists td. split; [|done].
    rewrite lookup_insert_ne; [done|by apply not_eq_sym, (Hne d td)].
  - intros d td k. destruct (decide (d = l)) as [->|Hl]; [done|]. rewrite lookup_insert_ne by done. intros E1 S1 X1 D1 K1.
    destruct (g_complete _ _ _ _ _ G d td k E1 S1 X1 D1 K1) as (u & G1 & G2). exists u. split; [|done]. rewrite lookup_insert_ne; [done|]. congruence.
  - intros d Hd'. destruct (g_dead _ _ _ _ _ G d Hd') as (A & B & C). split_and!; [done..|]. intros k.
    destruct (decide (k = key t)) as [->|Hk]; [rewrite lookup_insert_eq; congruence|rewrite lookup_insert_ne by done; apply C].
  - intros l0 t0. destruct (decide (l0 = l)) as [->|]; [|rewrite lookup_insert_ne by done; apply G]. rewrite lookup_insert_eq. intros [= <-] Hty. done.
Qed.

(** A new edge between two tasks, of which the downstream one is being inserted. *)
Definition add_up (ups : nat -> list nat) (d u : nat) : nat -> list nat := fun d' => if decide (d' = d) then u :: ups d else ups d'.
Lemma elem_of_add_up ups d u d' l : l ∈ add_up ups d u d' <-> l ∈ ups d' \/ (d' = d /\ l = u).
Proof. unfold add_up. case_decide as E; [subst; rewrite elem_of_cons|]; naive_solver. Qed.
Lemma graph_link ts mp ups x dead u tu tu' d td :
  graph ts mp ups x dead -> ts !! u = Some tu -> ts !! d = Some td -> u ∉ ups d -> key tu ∈ up_keys (key td) ->
  key tu' = key tu -> t_down tu' = d :: t_down tu -> t_status tu' = EMPTY -> t_status tu = EMPTY -> t_blocked tu' = 0 ->
  d ∈ x -> d ∉ dead -> u ∉ dead -> graph (<[u:=tu']> ts) mp (add_up ups d u) x dead.
Proof.
  intros G Eu Ed Hn Hkk Hk Hdn S' S Hb Hx Hdd Hud. destruct (up_keys_types _ _ Hkk) as [Td Tu]. split.
  - intros k l Em. destruct (g_map _ _ _ _ _ G k l Em) as (t & E1 & K1 & S1). destruct (decide (l = u)) as [->|Hne].
    + rewrite lookup_insert_eq. exists tu'. split; [done|]. split; [congruence|]. by rewrite S'.
    + rewrite lookup_insert_ne by done. eauto.
  - intros l t. destruct (decide (l = u)) as [->|Hne].
    + rewrite lookup_insert_eq. intros [= <-] S1 D1. rewrite Hk. apply (g_reg _ _ _ _ _ G); [done|by rewrite S|done].
    + rewrite lookup_insert_ne by done. apply G.
  - intros l t. destruct (decide (l = u)) as [->|Hne].
    + rewrite lookup_insert_eq. intros [= <-]. destruct (g_down _ _ _ _ _ G u tu Eu) as [N1 N2]. rewrite Hdn. split.
      * constructor; [|done]. by rewrite N2.
      * intros d'. rewrite elem_of_cons, elem_of_add_up, N2. naive_solver.
    + rewrite lookup_insert_ne by done. intros E1. destruct (g_down _ _ _ _ _ G l t E1) as [N1 N2]. split; [done|].
      intros d'. rewrite elem_of_add_up, N2. naive_solver.
  - intros d' l [Hl|[-> ->]]%elem_of_add_up.
    + destruct (g_ups _ _ _ _ _ G d' l Hl) as (td' & t & E1 & E2 & K).
      destruct (key_insert ts u tu tu' d' td' Eu Hk E1) as (td1 & F1 & F2). destruct (key_insert ts u tu tu' l t Eu Hk E2) as (t1 & F3 & F4).
      exists td1, t1. by rewrite F2, F4.
    + exists td, tu'. rewrite lookup_insert_eq, lookup_insert_ne by (intros ->; congruence). by rewrite Hk.
  - intros l t. destruct (decide (l = u)) as [->|Hne].
    + rewrite lookup_insert_eq. intros [= <-] X1 D1. split; [by rewrite S'|]. replace (t_type tu') with (t_type tu) by (unfold key in Hk; congruence).
      cbn in Tu. rewrite Tu, S', Hdn. done.
    + rewrite lookup_insert_ne by done. intros E1 X1 D1. apply (stat_ok_mono ts); [|by apply (g_stat _ _ _ _ _ G l)].
      apply (pushed_insert ts u tu); [done|]. by rewrite S.
  - intros d' td' k. destruct (decide (d' = u)) as [->|Hne].
    { rewrite lookup_insert_eq. intros [= <-] _ _ _ K1. apply up_keys_types in K1 as [K1 _]. rewrite Hk in K1. cbn in *. congruence. }
    rewrite lookup_insert_ne by done. intros E1 S1 X1 D1 K1. destruct (g_complete _ _ _ _ _ G d' td' k E1 S1 X1 D1 K1) as (l & G1 & G2).
    exists l. split; [done|]. apply elem_of_add_up. by left.
  - intros d' Hd'. destruct (g_dead _ _ _ _ _ G d' Hd') as (A & B & C). split_and!; [| |done].
    + intros l [Hl|[-> ->]]%elem_of_add_up; [by apply (A l)|done].
    + intros d2 [Hl|[-> ->]]%elem_of_add_up; [by apply (B d2)|done].
  - intros l0 t0. destruct (decide (l0 = u)) as [->|]; [|rewrite lookup_insert_ne by done; apply G]. rewrite lookup_insert_eq. intros [= <-] Hty. by rewrite S'.
Qed.

(** A task leaves the graph: it has no edges any more. *)
Lemma graph_bury ts mp ups x dead l t :
  graph ts mp ups (l :: x) dead -> ts !! l = Some t -> t_status t <> INVALID -> l ∉ dead -> (forall u, u ∉ ups l) -> t_down t = [] ->
  graph ts (delete (key t) mp) ups x (l :: dead).
Proof.
  intros G E Hs Hd Hu Hdn. pose proof (g_reg _ _ _ _ _ G l t E Hs Hd) as Er.
  assert (forall d', l ∉ ups d') as Hnu. { intros d' H. apply (g_down _ _ _ _ _ G l t E) in H. rewrite Hdn in H. by apply elem_of_nil in H. }
  split; try apply G.
  - intros k l' [_ Em]%lookup_delete_Some. by apply (g_map _ _ _ _ _ G).
  - intros l' t' E' S' [Hl' D']%not_elem_of_cons. rewrite lookup_delete_ne; [by apply (g_reg _ _ _ _ _ G)|].
    intros K. apply Hl'. symmetry. by apply (graph_key _ _ _ _ _ l l' t t' G).
  - intros l' t' E' X' [Hl' D']%not_elem_of_cons. apply (g_stat _ _ _ _ _ G l'); [done|by apply not_elem_of_cons|done].
  - intros d td k E' S' X' [Hl' D']%not_elem_of_cons K. destruct (g_complete _ _ _ _ _ G d td k E' S') as (u & G1 & G2); [by apply not_elem_of_cons|done..|].
    exists u. split; [|done]. rewrite lookup_delete_ne; [done|]. intros <-. rewrite Er in G1. injection G1 as ->. by apply (Hnu d).
  - intros d [->|Hd']%elem_of_cons.
    + split_and!; [done..|]. intros k [Hk Em]%lookup_delete_Some. destruct (g_map _ _ _ _ _ G k l Em) as (t' & E' & K & _). congruence.
    + destruct (g_dead _ _ _ _ _ G d Hd') as (A & B & C). split_and!; [done..|]. intros k [_ Em]%lookup_delete_Some. by apply (C k).
Qed.

(** ** The invariant of the jobs *)

Definition zsum (f : nat -> Z) (ls : list nat) : Z := foldr (fun l s => f l + s) 0 ls.
Arguments zsum : simpl never.
Lemma zsum_nil f : zsum f [] = 0.
Proof. done. Qed.
Lemma zsum_app f ls1 ls2 : zsum f (ls1 ++ ls2) = zsum f ls1 + zsum f ls2.
Proof. unfold zsum. induction ls1 as [|l ls IH]; cbn; lia. Qed.
Lemma zsum_cons f l ls : zsum f (l :: ls) = f l + zsum f ls.
Proof. done. Qed.
Lemma zsum_ext f g ls : (forall l, l ∈ ls -> f l = g l) -> zsum f ls = zsum g ls.
Proof.
  intros H. unfold zsum. induction ls as [|l ls IH]; [done|]. cbn. rewrite H by (by left). rewrite IH; [done|]. intros. apply H. by right.
Qed.
Lemma zsum_change f g ls l : NoDup ls -> l ∈ ls -> (forall l', l' <> l -> f l' = g l') -> zsum f ls = zsum g ls + (f l - g l).
Proof.
  intros Hn Hl Hfg. apply list_elem_of_split in Hl as (l1 & l2 & ->). apply NoDup_app in Hn as (_ & H12 & (Hl2 & _)%NoDup_cons).
  rewrite !zsum_app, !zsum_cons. rewrite (zsum_ext f g l1), (zsum_ext f g l2); [lia| |].
  - intros l' H. apply Hfg. by intros ->.
  - intros l' H. apply Hfg. intros ->. apply (H12 l H). by left.
Qed.
Lemma zsum_zero f ls : (forall l, l ∈ ls -> 0 <= f l) -> zsum f ls = 0 -> forall l, l ∈ ls -> f l = 0.
Proof.
  unfold zsum. induction ls as [|a ls IH]; intros Hp Hs l Hl; [by apply elem_of_nil in Hl|]. cbn in Hs. pose proof (Hp a ltac:(by left)).
  assert (0 <= foldr (fun l s => f l + s) 0 ls) as Hr.
  { clear -Hp. induction ls as [|b ls IH]; [done|]. cbn. pose proof (Hp b ltac:(by right; left)). assert (0 <= foldr (fun l s => f l + s) 0 ls); [|lia].
    apply IH. intros l Hl. apply Hp. apply elem_of_cons in Hl as [->|Hl]; [by left|by right; right]. }
  apply elem_of_cons in Hl as [->|Hl]; [lia|]. apply IH; [|lia|done]. intros. apply Hp. by right.
Qed.

Definition blocked_of (ts : gmap nat task) (l : nat) : Z := match ts !! l with Some t => t_blocked t | None => 0 end.
Definition cost_of (ts : gmap nat task) (l : nat) : Z :=
  match ts !! l with Some t => if decide (t_status t = INVALID) then 0 else t_cost t | None => 0 end.
Definition handed (H : list (DepGCTaskType * list nat)) : list nat := H ≫= snd.
Lemma elem_of_handed H l : l ∈ handed H <-> exists ty ls, (ty, ls) ∈ H /\ l ∈ ls.
Proof.
  unfold handed. rewrite list_elem_of_bind. split; [intros ([ty ls] & ? & ?); eauto|]. intros (ty & ls & Hin & Hl). by exists (ty, ls).
Qed.

(** [J] are the jobs of the producer, and [H] the ones that it has handed over. *)
Record placed (ts : gmap nat task) (J : DepGCTaskType -> gc_job) (H : list (DepGCTaskType * list nat)) (x : list nat) : Prop := {
  p_job : forall ty l, l ∈ j_tasks (J ty) -> exists t, ts !! l = Some t /\ t_type t = ty /\ (t_status t = ACTIVE \/ t_status t = BLOCKED \/ t_status t = INVALID);
  p_hand : forall ty ls l, (ty, ls) ∈ H -> l ∈ ls -> exists t, ts !! l = Some t /\ t_type t = ty /\ (t_status t = PUSHED \/ t_status t = INVALID);
  p_nodup : forall ty, NoDup (j_tasks (J ty));
  p_nodup_h : NoDup (handed H);
  p_disj : forall ty l, l ∈ j_tasks (J ty) -> l ∉ handed H;
  p_active : forall l t, ts !! l = Some t -> t_status t = ACTIVE \/ t_status t = BLOCKED -> l ∉ x -> l ∈ j_tasks (J (t_type t));
  p_pushed : forall l t, ts !! l = Some t -> t_status t = PUSHED -> l ∈ handed H;
  p_blocked : forall ty, sum_blocked_count (J ty) = zsum (blocked_of ts) (j_tasks (J ty));
  p_cost : forall ty, sum_of_cost (J ty) = zsum (cost_of ts) (j_tasks (J ty));
  p_nonempty : forall ty ls, (ty, ls) ∈ H -> ls <> [];
}.

Definition unplaced (J : DepGCTaskType -> gc_job) (H : list (DepGCTaskType * list nat)) (l : nat) : Prop :=
  (forall ty, l ∉ j_tasks (J ty)) /\ l ∉ handed H.
Definition view (t : task) : DepGCTaskType * TaskStatus * Z * Z := (t_type t, t_status t, t_blocked t, t_cost t).
Lemma placed_idle ts J H x l : placed ts J H x -> (forall t, ts !! l = Some t -> t_status t = EMPTY) -> unplaced J H l.
Proof.
  intros P Hi. split.
  - intros ty Hl. destruct (p_job _ _ _ _ P ty l Hl) as (t & E & _ & S). rewrite (Hi t E) in S. naive_solver.
  - intros (ty & ls & H1 & H2)%elem_of_handed. destruct (p_hand _ _ _ _ P ty ls l H1 H2) as (t & E & _ & S). rewrite (Hi t E) in S. naive_solver.
Qed.

(** Changes that do not concern tasks in jobs. *)
Lemma placed_ext ts ts' J H x x' :
  placed ts J H x -> (forall l, l ∈ x -> l ∈ x' ) ->
  (forall l, view <$> ts' !! l = view <$> ts !! l \/
     (unplaced J H l /\ forall t, ts' !! l = Some t -> t_status t <> PUSHED /\ (t_status t = EMPTY \/ l ∈ x'))) ->
  placed ts' J H x'.
Proof.
  intros P Hx Hv.
  assert (forall l t', (exists ty, l ∈ j_tasks (J ty)) \/ l ∈ handed H -> ts' !! l = Some t' -> exists t, ts !! l = Some t /\ view t' = view t) as Hback.
  { intros l t' Hin E. destruct (Hv l) as [Ev|[[U1 U2] _]].
    - rewrite E in Ev. cbn in Ev. destruct (ts !! l) as [t|] eqn:E0; [|done]. apply (inj Some) in Ev. by exists t.
    - destruct Hin as [[ty Hin]|Hin]; [by destruct (U1 ty)|done]. }
  assert (forall l t, (exists ty, l ∈ j_tasks (J ty)) \/ l ∈ handed H -> ts !! l = Some t -> exists t', ts' !! l = Some t' /\ view t' = view t) as Hfwd.
  { intros l t Hin E. destruct (Hv l) as [Ev|[[U1 U2] _]].
    - rewrite E in Ev. cbn in Ev. destruct (ts' !! l) as [t'|] eqn:E0; [|done]. apply (inj Some) in Ev. by exists t'.
    - destruct Hin as [[ty Hin]|Hin]; [by destruct (U1 ty)|done]. }
  assert (forall t t', view t' = view t -> t_type t' = t_type t /\ t_status t' = t_status t /\ t_blocked t' = t_blocked t /\ t_cost t' = t_cost t) as Hview.
  { intros t t'. unfold view. by intros [= -> -> -> ->]. }
  split; try apply P.
  - intros ty l Hl. destruct (p_job _ _ _ _ P ty l Hl) as (t & E & T & S). destruct (Hfwd l t ltac:(eauto) E) as (t' & E' & V).
    exists t'. by destruct (Hview t t' V) as (-> & -> & _).
  - intros ty ls l H1 H2. destruct (p_hand _ _ _ _ P ty ls l H1 H2) as (t & E & T & S).
    destruct (Hfwd l t ltac:(right; apply elem_of_handed; eauto) E) as (t' & E' & V). exists t'. by destruct (Hview t t' V) as (-> & -> & _).
  - intros l t' E' S' Hxl. destruct (Hv l) as [Ev|[_ Hn]].
    + rewrite E' in Ev. cbn in Ev. destruct (ts !! l) as [t|] eqn:E0; [|done]. injection Ev as V1 V2 V3 V4. rewrite V1. apply (p_active _ _ _ _ P l t); [done|by rewrite <- V2|].
      intros Hin. by apply Hxl, Hx.
    + destruct (Hn t' E') as [_ [He|He]]; [rewrite He in S'; naive_solver|done].
  - intros l t' E' S'. destruct (Hv l) as [Ev|[_ Hn]].
    + rewrite E' in Ev. cbn in Ev. destruct (ts !! l) as [t|] eqn:E0; [|done]. injection Ev as V1 V2 V3 V4. apply (p_pushed _ _ _ _ P l t); [done|by rewrite <- V2].
    + by destruct (Hn t' E').
  - intros ty. rewrite (p_blocked _ _ _ _ P ty). apply zsum_ext. intros l Hl. destruct (p_job _ _ _ _ P ty l Hl) as (t & E & _).
    destruct (Hfwd l t ltac:(eauto) E) as (t' & E' & V). unfold blocked_of. rewrite E, E'. by destruct (Hview t t' V) as (_ & _ & -> & _).
  - intros ty. rewrite (p_cost _ _ _ _ P ty). apply zsum_ext. intros l Hl. destruct (p_job _ _ _ _ P ty l Hl) as (t & E & _).
    destruct (Hfwd l t ltac:(eauto) E) as (t' & E' & V). unfold cost_of. rewrite E, E'. by destruct (Hview t t' V) as (_ & -> & _ & ->).
Qed.

Definition put_job (J : DepGCTaskType -> gc_job) (ty : DepGCTaskType) (j : gc_job) : DepGCTaskType -> gc_job :=
  fun ty' => if decide (ty' = ty) then j else J ty'.
Lemma put_job_eq J ty j : put_job J ty j ty = j.
Proof. unfold put_job. by rewrite decide_True. Qed.
Lemma put_job_ne J ty j ty' : ty' <> ty -> put_job J ty j ty' = J ty'.
Proof. intros. unfold put_job. by rewrite decide_False. Qed.

(** A task in a job changes, and the sums of the job with it. *)
Lemma placed_change ts J H x l t t' :
  placed ts J H x -> ts !! l = Some t -> l ∈ j_tasks (J (t_type t)) -> t_type t' = t_type t ->
  t_status t' = ACTIVE \/ t_status t' = BLOCKED \/ t_status t' = INVALID ->
  placed (<[l:=t']> ts)
    (put_job J (t_type t) (mk_job (j_tasks (J (t_type t))) (sum_of_cost (J (t_type t)) + (cost_of (<[l:=t']> ts) l - cost_of ts l))
       (sum_blocked_count (J (t_type t)) + (t_blocked t' - t_blocked t)))) H x.
Proof.
  intros P E Hl HT HS. set (J' := put_job J _ _). assert (forall ty, j_tasks (J' ty) = j_tasks (J ty)) as EJ.
  { intros ty. unfold J', put_job. case_decide; [by subst|done]. }
  split.
  - intros ty l'. rewrite EJ. intros Hl'. destruct (p_job _ _ _ _ P ty l' Hl') as (t0 & E0 & T0 & S0). destruct (decide (l' = l)) as [->|Hne].
    + rewrite lookup_insert_eq. exists t'. split_and!; [done|congruence|done].
    + rewrite lookup_insert_ne by done. eauto.
  - intros ty ls l' H1 H2. rewrite lookup_insert_ne; [by apply (p_hand _ _ _ _ P ty ls)|]. intros <-.
    apply (p_disj _ _ _ _ P _ _ Hl). apply elem_of_handed. eauto.
  - intros ty. rewrite EJ. apply P.
  - apply P.
  - intros ty l'. rewrite EJ. apply P.
  - intros l' t0. rewrite EJ. destruct (decide (l' = l)) as [->|Hne]; [rewrite lookup_insert_eq; intros [= <-]; by rewrite HT|].
    rewrite lookup_insert_ne by done. apply P.
  - intros l' t0. destruct (decide (l' = l)) as [->|Hne]; [rewrite lookup_insert_eq; intros [= <-] S0; rewrite S0 in HS; naive_solver|].
    rewrite lookup_insert_ne by done. apply P.
  - intros ty. rewrite EJ. unfold J'. destruct (decide (ty = t_type t)) as [->|Hty].
    + rewrite put_job_eq. cbn. rewrite (p_blocked _ _ _ _ P). rewrite (zsum_change (blocked_of (<[l:=t']> ts)) (blocked_of ts) _ l); [|apply P|done|].
      * unfold blocked_of. rewrite lookup_insert_eq, E. lia.
      * intros l' Hne. unfold blocked_of. by rewrite lookup_insert_ne.
    + rewrite put_job_ne by done. rewrite (p_blocked _ _ _ _ P). apply zsum_ext. intros l' Hl'. unfold blocked_of. rewrite lookup_insert_ne; [done|].
      intros <-. destruct (p_job _ _ _ _ P ty l Hl') as (t0 & E0 & T0 & _). congruence.
  - intros ty. rewrite EJ. unfold J'. destruct (decide (ty = t_type t)) as [->|Hty].
    + rewrite put_job_eq. cbn. rewrite (p_cost _ _ _ _ P). rewrite (zsum_change (cost_of (<[l:=t']> ts)) (cost_of ts) _ l); [lia|apply P|done|].
      intros l' Hne. unfold cost_of. by rewrite lookup_insert_ne.
    + rewrite put_job_ne by done. rewrite (p_cost _ _ _ _ P). apply zsum_ext. intros l' Hl'. unfold cost_of. rewrite lookup_insert_ne; [done|].
      intros <-. destruct (p_job _ _ _ _ P ty l Hl') as (t0 & E0 & T0 & _). congruence.
  - apply P.
Qed.

(** A task is added to its job. *)
Lemma placed_add ts J H x l t :
  placed ts J H (l :: x) -> ts !! l = Some t -> unplaced J H l -> t_status t = ACTIVE \/ t_status t = BLOCKED ->
  placed ts (put_job J (t_type t) (mk_job (j_tasks (J (t_type t)) ++ [l]) (sum_of_cost (J (t_type t)) + t_cost t)
    (sum_blocked_count (J (t_type t)) + t_blocked t))) H x.
Proof.
  intros P E [U1 U2] HS. set (J' := put_job J _ _).
  assert (forall ty l', l' ∈ j_tasks (J' ty) <-> l' ∈ j_tasks (J ty) \/ (ty = t_type t /\ l' = l)) as EJ.
  { intros ty l'. unfold J', put_job. case_decide as Hd; [subst; cbn; rewrite elem_of_app, list_elem_of_singleton|]; naive_solver. }
  split.
  - intros ty l' [Hl|[-> ->]]%EJ; [by apply (p_job _ _ _ _ P)|]. exists t. naive_solver.
  - apply P.
  - intros ty. unfold J', put_job. case_decide as Hd; [|apply P]. cbn. apply NoDup_app. split_and!; [apply P| |apply NoDup_singleton].
    intros l' Hl' ->%list_elem_of_singleton. by apply (U1 (t_type t)).
  - apply P.
  - intros ty l' [Hl|[-> ->]]%EJ; [by apply (p_disj _ _ _ _ P ty)|done].
  - intros l' t' E' S' X'. apply EJ. destruct (decide (l' = l)) as [->|Hne]; [right; split; [congruence|done]|]. left.
    apply (p_active _ _ _ _ P); [done..|by apply not_elem_of_cons].
  - apply P.
  - intros ty. unfold J'. destruct (decide (ty = t_type t)) as [->|Hty]; [|rewrite put_job_ne by done; apply P].
    rewrite put_job_eq. cbn. rewrite (p_blocked _ _ _ _ P), zsum_app, zsum_cons, zsum_nil. unfold blocked_of at 3. rewrite E. lia.
  - intros ty. unfold J'. destruct (decide (ty = t_type t)) as [->|Hty]; [|rewrite put_job_ne by done; apply P].
    rewrite put_job_eq. cbn. rewrite (p_cost _ _ _ _ P), zsum_app, zsum_cons, zsum_nil. unfold cost_of at 3. rewrite E.
    rewrite decide_False by (intros HI; rewrite HI in HS; naive_solver). lia.
  - apply P.
Qed.

(** ** Handing over a job *)

Definition push_task (t : task) : task := if decide (t_status t = ACTIVE) then with_status PUSHED t else t.
Fixpoint pushed (ls : list nat) (ts : gmap nat task) : gmap nat task :=
  match ls with
  | [] => ts
  | l :: r => pushed r (match ts !! l with Some t => <[l := push_task t]> ts | None => ts end)
  end.
Lemma push_task_idem t : push_task (push_task t) = push_task t.
Proof. unfold push_task. by repeat (case_decide; cbn in * ). Qed.
Lemma pushed_lookup ls ts l : pushed ls ts !! l = if decide (l ∈ ls) then push_task <$> ts !! l else ts !! l.
Proof.
  revert ts. induction ls as [|a ls IH]; intros ts; [cbn; by rewrite decide_False by (by intros ?%elem_of_nil)|]. cbn [pushed]. rewrite IH.
  destruct (decide (l = a)) as [->|Hne].
  - rewrite (decide_True (P := a ∈ a :: ls)) by (by left). destruct (ts !! a) as [t|] eqn:E; [|rewrite E; by case_decide].
    rewrite lookup_insert_eq. case_decide; cbn; by rewrite ?push_task_idem.
  - assert ((match ts !! a with Some t => <[a:=push_task t]> ts | None => ts end) !! l = ts !! l) as ->.
    { destruct (ts !! a); [|done]. by rewrite lookup_insert_ne. }
    case_decide as H1; case_decide as H2; rewrite ?elem_of_cons in *; try done; naive_solver.
Qed.
Lemma mark_pushed_some ls g :
  (forall l, l ∈ ls -> exists t, tasks g !! l = Some t /\ (t_status t = ACTIVE \/ t_status t = INVALID)) -> NoDup ls ->
  mark_pushed ls g = Some (set_tasks (pushed ls (tasks g)) g).
Proof.
  revert g. induction ls as [|l ls IH]; intros g Hall Hn; [by destruct g|]. apply NoDup_cons in Hn as [Hl Hn].
  destruct (Hall l ltac:(by left)) as (t & E & S). cbn [mark_pushed pushed]. rewrite E. cbn [mbind option_bind]. unfold push_task.
  case_decide as Ha.
  - unfold upd. rewrite E. cbn [mbind option_bind]. rewrite IH; [done| |done]. intros l' Hl'. cbn. rewrite lookup_insert_ne by (by intros ->).
    apply Hall. by right.
  - rewrite decide_True by naive_solver. rewrite IH; [|intros; apply Hall; by right|done]. by rewrite insert_id.
Qed.

Lemma graph_pushed ls ts mp ups x dead :
  graph ts mp ups x dead -> graph (pushed ls ts) mp ups x dead.
Proof.
  revert ts. induction ls as [|l ls IH]; intros ts G; [done|]. cbn [pushed]. apply IH. destruct (ts !! l) as [t|] eqn:E; [|done].
  unfold push_task. case_decide as Ha; [|by rewrite insert_id]. apply (graph_upd ts mp ups x dead l t); try done; cbn.
  - by rewrite Ha.
  - intros _ _ [T1 T2]. split; [intros _; apply T1; by rewrite Ha|]. cbn. destruct (is_defrag _); [naive_solver|]. by rewrite Ha in T2.
Qed.
Lemma placed_push ts J H x ty :
  placed ts J H x -> (forall l t, l ∈ j_tasks (J ty) -> ts !! l = Some t -> t_status t <> BLOCKED) -> j_tasks (J ty) <> [] ->
  placed (pushed (j_tasks (J ty)) ts) (put_job J ty (mk_job [] 0 0)) (H ++ [(ty, j_tasks (J ty))]) x.
Proof.
  intros P Hnb Hne. set (ls := j_tasks (J ty)) in *. set (J' := put_job J ty _).
  assert (forall ty' l, l ∈ j_tasks (J' ty') <-> ty' <> ty /\ l ∈ j_tasks (J ty')) as EJ.
  { intros ty' l. unfold J', put_job. case_decide; [|naive_solver]. cbn. rewrite elem_of_nil. naive_solver. }
  assert (handed (H ++ [(ty, ls)]) = handed H ++ ls) as EH by (unfold handed; rewrite bind_app; cbn; by rewrite app_nil_r).
  assert (forall ty' l, ty' <> ty -> l ∈ j_tasks (J ty') -> l ∉ ls) as Hdis.
  { intros ty' l Hty Hl Hl2. destruct (p_job _ _ _ _ P ty' l Hl) as (t & E & T & _). destruct (p_job _ _ _ _ P ty l Hl2) as (t2 & E2 & T2 & _). congruence. }
  assert (forall l, l ∈ ls -> exists t, ts !! l = Some t /\ t_type t = ty /\ pushed ls ts !! l = Some (push_task t) /\
    (t_status (push_task t) = PUSHED \/ t_status (push_task t) = INVALID)) as Hin.
  { intros l Hl. destruct (p_job _ _ _ _ P ty l Hl) as (t & E & T & S). exists t. rewrite pushed_lookup, decide_True, E by done. split_and!; [done..|].
    pose proof (Hnb l t Hl E). unfold push_task. case_decide; [by left|]. naive_solver. }
  assert (forall l, l ∉ ls -> pushed ls ts !! l = ts !! l) as Hout by (intros; rewrite pushed_lookup; by rewrite decide_False).
  split.
  - intros ty' l [Hty Hl]%EJ. rewrite Hout by (by apply (Hdis ty')). by apply (p_job _ _ _ _ P).
  - intros ty' ls' l. rewrite elem_of_app, list_elem_of_singleton. intros [H1|[= -> ->]] Hl.
    + rewrite Hout; [by apply (p_hand _ _ _ _ P ty' ls')|]. intros Hl2. apply (p_disj _ _ _ _ P ty l Hl2). apply elem_of_handed. eauto.
    + destruct (Hin l Hl) as (t & E & T & E' & S). exists (push_task t). split_and!; [done| |done]. unfold push_task. by case_decide.
  - intros ty'. unfold J', put_job. case_decide; [constructor|apply P].
  - rewrite EH. apply NoDup_app. split_and!; [apply P| |apply P]. intros l Hl Hl2. by apply (p_disj _ _ _ _ P ty l).
  - intros ty' l [Hty Hl]%EJ. rewrite EH, elem_of_app. intros [H1|H1]; [by apply (p_disj _ _ _ _ P ty' l)|by apply (Hdis ty' l)].
  - intros l t E S X. destruct (decide (l ∈ ls)) as [Hl|Hl].
    + destruct (Hin l Hl) as (t0 & E0 & T0 & E' & S'). rewrite E in E'. injection E' as ->. exfalso. destruct S, S'; congruence.
    + rewrite Hout in E by done. pose proof (p_active _ _ _ _ P l t E S X) as Hj. apply EJ. split; [|done]. intros Ht. apply Hl. unfold ls. by rewrite <- Ht.
  - intros l t E S. rewrite EH, elem_of_app. destruct (decide (l ∈ ls)) as [Hl|Hl]; [by right|]. left. rewrite Hout in E by done.
    by apply (p_pushed _ _ _ _ P l t).
  - intros ty'. unfold J'. destruct (decide (ty' = ty)) as [->|Hty]; [by rewrite put_job_eq|]. rewrite put_job_ne by done. rewrite (p_blocked _ _ _ _ P).
    apply zsum_ext. intros l Hl. unfold blocked_of. by rewrite Hout by (by apply (Hdis ty')).
  - intros ty'. unfold J'. destruct (decide (ty' = ty)) as [->|Hty]; [by rewrite put_job_eq|]. rewrite put_job_ne by done. rewrite (p_cost _ _ _ _ P).
    apply zsum_ext. intros l Hl. unfold cost_of. by rewrite Hout by (by apply (Hdis ty')).
  - intros ty' ls'. rewrite elem_of_app, list_elem_of_singleton. intros [H1|[= -> ->]]; [by apply (p_nonempty _ _ _ _ P ty')|done].
Qed.
