(* ===== verification/GcInsert.v ===== *)
(** * Inserting collection tasks

    The invariant of the collector, and that the spawning functions of the producer
    keep it.  Inserting a task to free properties, or a defragmentation, never
    fails a check. *)
From S2P Require Import Prelude Types GcTasks GcGraph.
Local Open Scope Z_scope.

(** ** The invariant *)

(** [G] are jobs that have been popped and not yet been deleted. *)
Record Inv (g : gc) (ups : nat -> list nat) (x dead : list nat) (G : list (DepGCTaskType * list nat)) : Prop := {
  I_graph : graph (tasks g) (task_map g) ups x dead;
  I_placed : placed (tasks g) (jobs g) (G ++ pending_jobs g ++ finished_jobs g) x;
  I_fresh : forall l, is_Some (tasks g !! l) -> (l < next_task g)%nat;
  I_up : forall d td, tasks g !! d = Some td -> d ∉ x -> d ∉ dead -> NoDup (t_up td) /\ forall l, l ∈ t_up td <-> l ∈ ups d;
  I_inv : forall d td, tasks g !! d = Some td -> t_status td = INVALID -> d ∉ x -> forall l, l ∉ ups d;
}.
Definition safe (g : gc) : Prop := exists ups, Inv g ups [] [] [].

Lemma placed_perm ts J H H' x : H ≡ₚ H' -> placed ts J H x -> placed ts J H' x.
Proof.
  intros E P. assert (handed H ≡ₚ handed H') as EH by (unfold handed; by rewrite E). split; try apply P.
  - intros ty ls l Hin. rewrite <- E in Hin. by apply (p_hand _ _ _ _ P ty ls).
  - rewrite <- EH. apply P.
  - intros ty l Hl. rewrite <- EH. by apply (p_disj _ _ _ _ P ty).
  - intros l t E1 S. rewrite <- EH. by apply (p_pushed _ _ _ _ P l t).
  - intros ty ls Hin. rewrite <- E in Hin. by apply (p_nonempty _ _ _ _ P ty ls).
Qed.
Lemma upd_some l f g t : tasks g !! l = Some t -> upd l f g = Some (set_tasks (<[l := f t]> (tasks g)) g).
Proof. intros E. unfold upd. by rewrite E. Qed.
Lemma elem_of_1 (l l' : nat) : l ∉ [l'] <-> l <> l'.
Proof. by rewrite list_elem_of_singleton. Qed.

(** What handing over a job changes. *)
Definition pushes (g g' : gc) : Prop :=
  task_map g' = task_map g /\ finished_jobs g' = finished_jobs g /\ next_task g' = next_task g /\
  forall l, tasks g' !! l = tasks g !! l \/ exists t, tasks g !! l = Some t /\ t_status t = ACTIVE /\ tasks g' !! l = Some (with_status PUSHED t).

Section Invariant.
Context (threshold : DepGCTaskType -> Z).

Lemma push_spec g ups x dead G ty :
  Inv g ups x dead G -> (forall l, l ∈ j_tasks (jobs g ty) -> l ∉ x /\ l ∉ dead) -> j_tasks (jobs g ty) <> [] ->
  exists g', push_if_ready threshold ty g = Some g' /\ Inv g' ups x dead G /\ pushes g g'.
Proof.
  intros I Hx Hne. unfold push_if_ready. destruct (isReady threshold ty (jobs g ty)) eqn:Er.
  2: { exists g. split_and!; [done..|]. split_and!; [done..|]. by left. }
  apply andb_true_iff in Er as [_ Eb%Z.eqb_eq]. pose proof (I_graph _ _ _ _ _ I) as G0. pose proof (I_placed _ _ _ _ _ I) as P.
  assert (forall l t, l ∈ j_tasks (jobs g ty) -> tasks g !! l = Some t -> stat_ok (tasks g) t) as Hst.
  { intros l t Hl E. destruct (Hx l Hl). by apply (g_stat _ _ _ _ _ G0 l). }
  assert (forall l t, l ∈ j_tasks (jobs g ty) -> tasks g !! l = Some t -> t_status t <> BLOCKED) as Hnb.
  { intros l t Hl E S. assert (blocked_of (tasks g) l = 0) as Hz.
    { apply (zsum_zero (blocked_of (tasks g)) (j_tasks (jobs g ty))); [|by rewrite <- (p_blocked _ _ _ _ P)|done].
      intros l' Hl'. unfold blocked_of. destruct (tasks g !! l') as [t'|] eqn:E'; [|done]. destruct (Hst l' t' Hl' E') as [_ T].
      destruct (is_defrag _); [lia|]. destruct (t_status t'); try done; lia. }
    unfold blocked_of in Hz. rewrite E in Hz. destruct (Hst l t Hl E) as [_ T]. rewrite S in T. destruct (is_defrag _); [naive_solver|].
    destruct T as (T1 & T2 & _). destruct (t_down t); [done|cbn in T2; lia]. }
  unfold PushJobToPendingQueue. rewrite mark_pushed_some; [|intros l Hl|apply P].
  2: { destruct (p_job _ _ _ _ P ty l Hl) as (t & E & _ & S). exists t. split; [done|]. pose proof (Hnb l t Hl E). naive_solver. }
  cbn [mbind option_bind]. eexists. split; [done|]. split.
  - split; cbn.
    + by apply graph_pushed.
    + apply (placed_perm _ _ ((G ++ pending_jobs g ++ finished_jobs g) ++ [(ty, j_tasks (jobs g ty))])); [|by apply placed_push].
      rewrite <- !app_assoc. f_equiv. f_equiv. apply Permutation_app_comm.
    + intros l. rewrite pushed_lookup. case_decide; [rewrite fmap_is_Some|]; apply I.
    + intros d td. rewrite pushed_lookup. intros E. assert (exists td0, tasks g !! d = Some td0 /\ t_up td = t_up td0) as (td0 & E0 & ->).
      { case_decide; [|eauto]. destruct (tasks g !! d) as [td0|]; [|done]. injection E as <-. exists td0. split; [done|]. unfold push_task. by case_decide. }
      by apply (I_up _ _ _ _ _ I d td0).
    + intros d td. rewrite pushed_lookup. intros E S. assert (tasks g !! d = Some td) as E0.
      { case_decide; [|done]. destruct (tasks g !! d) as [td0|]; [|done]. injection E as <-. unfold push_task in *. by case_decide. }
      by apply (I_inv _ _ _ _ _ I d td).
  - split_and!; [done..|]. intros l. cbn. rewrite pushed_lookup. case_decide; [|by left]. destruct (tasks g !! l) as [t|]; [|by left].
    unfold push_task. cbn. case_decide; [right; by exists t|by left].
Qed.

Lemma add_spec g ups l t :
  Inv g ups [l] [] [] -> tasks g !! l = Some t -> unplaced (jobs g) (pending_jobs g ++ finished_jobs g) l ->
  t_status t = ACTIVE \/ t_status t = BLOCKED -> stat_ok (tasks g) t ->
  (forall k, k ∈ up_keys (key t) -> exists u, task_map g !! k = Some u /\ u ∈ ups l) ->
  NoDup (t_up t) /\ (forall u, u ∈ t_up t <-> u ∈ ups l) ->
  exists g', spawn threshold (t_type t) (Some (Some l, g)) = Some g' /\ safe g'.
Proof.
  intros I E U S Hst Hc Hup. unfold spawn. cbn [mbind option_bind]. unfold AddTask. rewrite E. cbn [mbind option_bind].
  set (g1 := set_job (t_type t) _ g). assert (Inv g1 ups [] [] []) as I1.
  { split; cbn.
    - apply (graph_close _ _ _ l [] [] t); [apply I|done..].
    - apply (placed_add (tasks g) (jobs g) _ [] l t); [apply I|done..].
    - apply I.
    - intros d td Ed _ _. destruct (decide (d = l)) as [->|Hne]; [rewrite E in Ed; by injection Ed as <-|].
      apply (I_up _ _ _ _ _ I d td); [done|by apply elem_of_1|by apply not_elem_of_nil].
    - intros d td Ed Sd _. destruct (decide (d = l)) as [->|Hne]; [rewrite E in Ed; injection Ed as <-; destruct S; congruence|].
      apply (I_inv _ _ _ _ _ I d td); [done..|by apply elem_of_1]. }
  destruct (push_spec g1 ups [] [] [] (t_type t) I1) as (g' & E' & I' & _).
  { intros; split; by apply not_elem_of_nil. }
  { unfold g1. cbn. rewrite decide_True by done. cbn. by destruct (j_tasks _). }
  exists g'. split; [done|]. by exists ups.
Qed.

(** ** Inserting *)

Lemma fresh_none g ups x dead G : Inv g ups x dead G -> tasks g !! next_task g = None.
Proof. intros I. destruct (tasks g !! next_task g) eqn:E; [|done]. pose proof (I_fresh _ _ _ _ _ I (next_task g) ltac:(by eexists)). lia. Qed.
Lemma fresh_ups g ups x dead G d : Inv g ups x dead G -> tasks g !! d = None -> (forall l, l ∉ ups d) /\ (forall d', d ∉ ups d').
Proof.
  intros I E. split; intros y Hy.
  - destruct (g_ups _ _ _ _ _ (I_graph _ _ _ _ _ I) d y Hy) as (? & ? & ? & _). congruence.
  - destruct (g_ups _ _ _ _ _ (I_graph _ _ _ _ _ I) y d Hy) as (? & ? & _ & ? & _). congruence.
Qed.

(** A new task, unconnected and in no job. *)
Lemma new_spec g ups x ty i target cost s :
  Inv g ups x [] [] -> task_map g !! (ty, i) = None -> (s = EMPTY \/ s = ACTIVE) ->
  let l := next_task g in let g1 := emplace_key (ty, i) l (new_task ty i target cost s g).2 in
  Inv g1 ups (l :: x) [] [] /\ unplaced (jobs g1) (pending_jobs g1 ++ finished_jobs g1) l /\ tasks g !! l = None.
Proof.
  intros I Hm Hs l g1. pose proof (fresh_none _ _ _ _ _ I) as El.
  assert (unplaced (jobs g) (pending_jobs g ++ finished_jobs g) l) as U.
  { apply (placed_idle (tasks g) _ _ x); [apply I|]. intros t E. unfold l in E. congruence. }
  split_and!; [|done..]. split; cbn.
  - apply (graph_add _ _ ups (l :: x) [] l (mk_task ty i target cost s 0 [] [])); try done.
    + apply graph_open, I.
    + cbn. intros ->. naive_solver.
    + by left.
    + by apply not_elem_of_nil.
  - apply (placed_ext (tasks g) _ _ _ x); [apply I|intros; by right|]. intros l'. destruct (decide (l' = l)) as [->|Hne].
    + right. split; [done|]. unfold l. rewrite lookup_insert_eq. intros t [= <-]. cbn. split; [by destruct Hs as [->| ->]|]. right. by left.
    + left. unfold l in *. by rewrite lookup_insert_ne.
  - intros l'. destruct (decide (l' = l)) as [->|Hne]; [unfold l; lia|]. unfold l in *. rewrite lookup_insert_ne by done.
    intros H%(I_fresh _ _ _ _ _ I). lia.
  - intros d td. destruct (decide (d = l)) as [->|Hne]; [intros _ []; by left|]. unfold l in *. rewrite lookup_insert_ne by done.
    intros E [_ Hx]%not_elem_of_cons Hd. by apply (I_up _ _ _ _ _ I d td).
  - intros d td. destruct (decide (d = l)) as [->|Hne]; [intros _ _ []; by left|]. unfold l in *. rewrite lookup_insert_ne by done.
    intros E S [_ Hx]%not_elem_of_cons. by apply (I_inv _ _ _ _ _ I d td).
Qed.

(** A new task that frees a row list. *)
Lemma insert_new_gc_spec g ty i target :
  safe g -> target <> 0 -> task_map g !! (ty, i) = None -> is_defrag ty = false ->
  exists g', spawn threshold ty (insert_new_gc ty i target g) = Some g' /\ safe g'.
Proof.
  intros [ups I] Ht Hm Hty. destruct (new_spec g ups [] ty i target 1 ACTIVE I Hm ltac:(by right)) as (I1 & U & El).
  set (g1 := emplace_key _ _ _) in *. destruct (fresh_ups _ _ _ _ _ _ I El) as [F1 F2].
  assert (tasks g1 !! next_task g = Some (mk_task ty i target 1 ACTIVE 0 [] [])) as E by (cbn; by rewrite lookup_insert_eq).
  apply (add_spec g1 ups (next_task g) _ I1 E U).
  - by left.
  - split; [done|]. cbn. by rewrite Hty.
  - cbn. intros k Hk. apply up_keys_types in Hk as [Hk _]. cbn in Hk. congruence.
  - cbn. split; [constructor|]. intros u. split; [by intros ?%elem_of_nil|]. intros Hu. by destruct (F1 u).
Qed.

(** Connecting a new downstream task [d] with an empty task [u]. *)
Lemma link_spec g ups x u d tu td :
  Inv g ups x [] [] -> tasks g !! u = Some tu -> tasks g !! d = Some td -> d ∈ x -> u ∉ ups d ->
  key tu ∈ up_keys (key td) -> t_status tu = EMPTY -> t_blocked tu = 0 -> (u ∈ x -> t_down tu = [] /\ t_up tu = [] /\ forall l, l ∉ ups u) ->
  exists g1, connect u d g = Some g1 /\ Inv g1 (add_up ups d u) (filter (fun l => l <> u) x) [] [] /\
    tasks g1 !! d = Some (with_up (u :: t_up td) td) /\ (forall l, l <> u -> l <> d -> tasks g1 !! l = tasks g !! l) /\
    (exists tu', tasks g1 !! u = Some tu' /\ key tu' = key tu) /\
    task_map g1 = task_map g /\ jobs g1 = jobs g /\ pending_jobs g1 = pending_jobs g /\ finished_jobs g1 = finished_jobs g /\ next_task g1 = next_task g.
Proof.
  intros I Eu Ed Hdx Hn Hk Hs Hb Hux. destruct (up_keys_types _ _ Hk) as [Td Tu]. assert (d <> u) as Hdu by (intros ->; congruence).
  set (tu' := with_down (d :: t_down tu) tu). set (td' := with_up (u :: t_up td) td).
  unfold connect. rewrite (upd_some u _ g tu Eu). cbn [mbind option_bind]. rewrite (upd_some d _ _ td) by (cbn; by rewrite lookup_insert_ne).
  eexists. split; [done|]. cbn. split.
  2: { rewrite lookup_insert_eq. split_and!; try done.
    - intros l H1 H2. by rewrite !lookup_insert_ne.
    - exists tu'. by rewrite lookup_insert_ne, lookup_insert_eq. }
  assert (graph (<[d:=td']> (<[u:=tu']> (tasks g))) (task_map g) (add_up ups d u) x []) as G1.
  { apply (graph_upd (<[u:=tu']> (tasks g)) _ _ _ _ d td td'); try done; [|by rewrite lookup_insert_ne].
    apply (graph_link (tasks g) (task_map g) ups x [] u tu tu' d td); try done; [apply I|by apply not_elem_of_nil..]. }
  split; cbn.
  - destruct (decide (u ∈ x)) as [Hin|Hin].
    2: { replace (filter (fun l => l <> u) x) with x; [done|]. clear -Hin. induction x as [|a x IH]; [done|]. apply not_elem_of_cons in Hin as [H1 H2].
         rewrite filter_cons_True by done. by rewrite <- IH. }
    destruct (Hux Hin) as (U1 & U2 & U3). split; try apply G1.
    + intros l t E Hx Hd. destruct (decide (l = u)) as [->|Hne].
      * rewrite lookup_insert_ne, lookup_insert_eq in E by done. injection E as <-. split; [by cbn; rewrite Hs|]. cbn in *. rewrite Tu, Hs. done.
      * apply (g_stat _ _ _ _ _ G1 l); [done| |done]. intros Hl. apply Hx. by apply list_elem_of_filter.
    + intros d' td1 k E S Hx Hd K. destruct (decide (d' = u)) as [->|Hne].
      * rewrite lookup_insert_ne, lookup_insert_eq in E by done. injection E as <-. apply up_keys_types in K as [K _]. cbn in *. congruence.
      * apply (g_complete _ _ _ _ _ G1 d' td1); [done..| |done|done]. intros Hl. apply Hx. by apply list_elem_of_filter.
  - apply (placed_ext (tasks g) _ _ _ (filter (fun l => l <> u) x)).
    + destruct (I_placed _ _ _ _ _ I) as [P1 P2 P3 P4 P5 P6 P7 P8 P9]. split; try done. intros l t E S Hx. apply P6; [done..|]. intros Hl. apply Hx.
      apply list_elem_of_filter. split; [|done]. intros ->. rewrite Eu in E. injection E as <-. destruct S; congruence.
    + done.
    + intros l. left. destruct (decide (l = d)) as [->|H1]; [by rewrite lookup_insert_eq, Ed|]. rewrite lookup_insert_ne by done.
      destruct (decide (l = u)) as [->|H2]; [by rewrite lookup_insert_eq, Eu|]. by rewrite lookup_insert_ne.
  - intros l. destruct (decide (l = d)) as [->|H1]; [rewrite lookup_insert_eq; intros _; apply I; by eexists|]. rewrite lookup_insert_ne by done.
    destruct (decide (l = u)) as [->|H2]; [rewrite lookup_insert_eq; intros _; apply I; by eexists|]. rewrite lookup_insert_ne by done. apply I.
  - intros d' td1. destruct (decide (d' = d)) as [->|H1]; [intros _ []; by apply list_elem_of_filter|]. rewrite lookup_insert_ne by done.
    destruct (decide (d' = u)) as [->|H2].
    + rewrite lookup_insert_eq. intros [= <-] _ _. cbn. destruct (decide (u ∈ x)) as [Hin|Hin].
      * destruct (Hux Hin) as (U1 & -> & U3). split; [constructor|]. intros l. rewrite elem_of_add_up. split; [by intros ?%elem_of_nil|].
        intros [Hl|[Hl _]]; [by destruct (U3 l)|congruence].
      * destruct (I_up _ _ _ _ _ I u tu Eu Hin) as [N1 N2]; [by apply not_elem_of_nil|]. split; [done|]. intros l. rewrite N2, elem_of_add_up. naive_solver.
    + rewrite lookup_insert_ne by done. intros E Hx Hd. destruct (I_up _ _ _ _ _ I d' td1 E) as [N1 N2]; [|done|].
      { intros Hl. apply Hx. by apply list_elem_of_filter. }
      split; [done|]. intros l. rewrite N2, elem_of_add_up. naive_solver.
  - intros d' td1. destruct (decide (d' = d)) as [->|H1]; [intros _ _ []; by apply list_elem_of_filter|]. rewrite lookup_insert_ne by done.
    destruct (decide (d' = u)) as [->|H2]; [rewrite lookup_insert_eq; intros [= <-]; cbn; congruence|]. rewrite lookup_insert_ne by done.
    intros E S Hx l. rewrite elem_of_add_up. intros [Hl|[-> _]]; [|done]. apply (I_inv _ _ _ _ _ I d' td1 E S) in Hl; [done|].
    intros Hin. apply Hx. by apply list_elem_of_filter.
Qed.

Lemma upd_set_map l f m g : upd l f (set_map m g) = set_map m <$> upd l f g.
Proof. unfold upd. cbn. by destruct (tasks g !! l). Qed.
Lemma connect_set_map u d m g : connect u d (set_map m g) = set_map m <$> connect u d g.
Proof. unfold connect. rewrite upd_set_map. destruct (upd u _ g) as [g1|]; [|done]. cbn [fmap option_fmap option_map mbind option_bind]. apply upd_set_map. Qed.

Lemma connect_task_map u d g g' : connect u d g = Some g' -> task_map g' = task_map g.
Proof.
  unfold connect, upd. destruct (tasks g !! u); [|done]. cbn. destruct (<[u:=_]> _ !! d); [|done]. by intros [= <-].
Qed.

(** A new defragmentation that is connected with all its upstream tasks. *)
Lemma defrag_add g ups d td :
  Inv g ups [d] [] [] -> tasks g !! d = Some td -> unplaced (jobs g) (pending_jobs g ++ finished_jobs g) d ->
  t_status td = ACTIVE -> t_target td <> 0 -> is_defrag (t_type td) = true -> t_blocked td = 0 ->
  (forall k, k ∈ up_keys (key td) -> exists u, task_map g !! k = Some u /\ u ∈ ups d) ->
  NoDup (t_up td) -> (forall u, u ∈ t_up td <-> u ∈ ups d) ->
  exists g', spawn threshold (t_type td) (Some (Some d, g)) = Some g' /\ safe g'.
Proof.
  intros I E U S T Hdf Hb Hc N1 N2. apply (add_spec g ups d td I E U); [by left| |done|done]. split; [done|]. rewrite Hdf. auto.
Qed.

(** The same with one upstream task. *)
Lemma defrag_add_one g ups d u td k :
  Inv g (add_up ups d u) [d] [] [] -> tasks g !! d = Some (with_up [u] td) -> unplaced (jobs g) (pending_jobs g ++ finished_jobs g) d ->
  t_status td = ACTIVE -> t_target td <> 0 -> is_defrag (t_type td) = true -> t_blocked td = 0 ->
  up_keys (key td) = [k] -> task_map g !! k = Some u -> (forall l, l ∉ ups d) ->
  exists g', spawn threshold (t_type td) (Some (Some d, g)) = Some g' /\ safe g'.
Proof.
  intros I E U S T Hdf Hb Hk Hm F. apply (defrag_add g _ d _ I E); cbn; try done.
  - change (key (with_up [u] td)) with (key td). rewrite Hk. intros k' ->%list_elem_of_singleton. exists u. split; [done|]. apply elem_of_add_up. by right.
  - apply NoDup_singleton.
  - intros w. rewrite list_elem_of_singleton, elem_of_add_up. split; [intros ->; by right|]. intros [Hw|[_ ->]]; [by destruct (F w)|done].
Qed.

Lemma vp_defrag_spec g i target cost :
  safe g -> target <> 0 -> exists g', spawn threshold VP_ROW_LIST_DEFRAG (InsertVPRowListDefragTask i target cost g) = Some g' /\ safe g'.
Proof.
  intros [ups I] Ht. unfold InsertVPRowListDefragTask. case_decide as H1; [exists g; split; [done|by exists ups]|].
  case_decide as H2; [exists g; split; [done|by exists ups]|]. apply eq_None_not_Some in H1, H2.
  destruct (new_spec g ups [] VP_ROW_LIST_DEFRAG i target cost ACTIVE I H1 ltac:(by right)) as (I1 & U1 & El1).
  set (d := next_task g) in *. set (g1 := emplace_key _ _ _) in I1, U1. destruct (fresh_ups _ _ _ _ _ _ I El1) as [F1 F2].
  destruct (new_spec g1 ups [d] VP_ROW_LIST_GC i 0 1 EMPTY I1) as (I2 & U2 & El2); [cbn; by rewrite lookup_insert_ne|by left|].
  set (u := next_task g1) in *. set (g2 := emplace_key _ u _) in I2, U2. assert (u <> d) as Hud by (unfold u, d; cbn; lia).
  destruct (fresh_ups _ _ _ _ _ _ I1 El2) as [F3 F4].
  destruct (link_spec g2 ups [u; d] u d (mk_task VP_ROW_LIST_GC i 0 1 EMPTY 0 [] []) (mk_task VP_ROW_LIST_DEFRAG i target cost ACTIVE 0 [] []) I2)
    as (g3 & Ec & I3 & Ed & _ & _ & Em & Ej & Ep & Ef & _); try done.
  { cbn. by rewrite lookup_insert_eq. } { cbn. rewrite lookup_insert_ne by done. by rewrite lookup_insert_eq. }
  { by right; left. } { by left. }
  change (let '(d0, g0) := new_task VP_ROW_LIST_DEFRAG i target cost ACTIVE g in _) with
    (g3 ← connect u d g2; Some (Some d, g3)). rewrite Ec. cbn [mbind option_bind].
  rewrite filter_cons_False, filter_cons_True in I3 by naive_solver. cbn in I3.
  apply (defrag_add_one g3 ups d u (mk_task VP_ROW_LIST_DEFRAG i target cost ACTIVE 0 [] []) (VP_ROW_LIST_GC, i) I3 Ed); try done.
  - rewrite Ej, Ep, Ef. apply U1.
  - rewrite Em. cbn. by rewrite lookup_insert_eq.
Qed.

Lemma topo_defrag_spec g i target cost :
  safe g -> target <> 0 -> exists g', spawn threshold TOPO_ROW_LIST_DEFRAG (InsertTopoRowListDefragTask i target cost g) = Some g' /\ safe g'.
Proof.
  intros [ups I] Ht. unfold InsertTopoRowListDefragTask. case_decide as H1; [exists g; split; [done|by exists ups]|]. apply eq_None_not_Some in H1.
  set (td := mk_task TOPO_ROW_LIST_DEFRAG i target cost ACTIVE 0 [] []).
  destruct (new_spec g ups [] TOPO_ROW_LIST_DEFRAG i target cost ACTIVE I H1 ltac:(by right)) as (I1 & U1 & El1).
  set (d := next_task g) in *. set (gd := (new_task TOPO_ROW_LIST_DEFRAG i target cost ACTIVE g).2) in *. set (g1 := emplace_key _ _ _) in I1, U1.
  destruct (fresh_ups _ _ _ _ _ _ I El1) as [F1 F2]. assert (tasks g1 !! d = Some td) as Ed1 by (cbn; by rewrite lookup_insert_eq).
  destruct (task_map g !! (TOPO_ROW_LIST_GC, i)) as [u|] eqn:Hm.
  - destruct (g_map _ _ _ _ _ (I_graph _ _ _ _ _ I) _ _ Hm) as (tu & Eu & Ku & Su). rewrite Eu. cbn [mbind option_bind].
    case_decide as He; [|exists g; split; [done|by exists ups]].
    assert (u <> d) as Hud by (intros ->; congruence). assert (tasks g1 !! u = Some tu) as Eu1 by (cbn; by rewrite lookup_insert_ne).
    destruct (g_stat _ _ _ _ _ (I_graph _ _ _ _ _ I) u tu Eu) as [_ T]; [by apply not_elem_of_nil..|]. injection Ku as Ku1 Ku2. rewrite Ku1, He in T. destruct T as [T1 T2].
    destruct (link_spec g1 ups [d] u d tu td I1 Eu1 Ed1) as (g3 & Ec & I3 & Ed & _ & _ & Em & Ej & Ep & Ef & _); try done.
    { by left. } { unfold key. rewrite Ku1, Ku2. by left. } { intros Hx. by apply list_elem_of_singleton in Hx. }
    change (let '(d0, g0) := new_task TOPO_ROW_LIST_DEFRAG i target cost ACTIVE g in _) with
      (g2 ← connect u d gd; Some (Some d, emplace_key (TOPO_ROW_LIST_DEFRAG, i) d g2)).
    unfold g1, emplace_key in Ec. rewrite connect_set_map in Ec. destruct (connect u d gd) as [g2|] eqn:Ec2; [|done]. injection Ec as <-.
    cbn [mbind option_bind]. assert (task_map g2 = task_map g) as Em2.
    { by rewrite (connect_task_map _ _ _ _ Ec2). }
    assert (emplace_key (TOPO_ROW_LIST_DEFRAG, i) d g2 = set_map (<[(TOPO_ROW_LIST_DEFRAG, i):=d]> (task_map gd)) g2) as -> by (unfold emplace_key; by rewrite Em2).
    rewrite filter_cons_True in I3 by done. cbn in I3.
    apply (defrag_add_one _ ups d u td (TOPO_ROW_LIST_GC, i) I3 Ed); try done.
    + cbn in Ej, Ep, Ef |- *. rewrite Ej, Ep, Ef. apply U1.
    + cbn. by rewrite lookup_insert_ne.
  - destruct (new_spec g1 ups [d] TOPO_ROW_LIST_GC i 0 1 EMPTY I1) as (I2 & U2 & El2); [cbn; by rewrite lookup_insert_ne|by left|].
    set (u := next_task g1) in *. set (gu := (new_task TOPO_ROW_LIST_GC i 0 1 EMPTY gd).2).
    set (g2 := emplace_key _ u _) in I2, U2. assert (u <> d) as Hud by (unfold u, d; cbn; lia).
    destruct (fresh_ups _ _ _ _ _ _ I1 El2) as [F3 F4].
    destruct (link_spec g2 ups [u; d] u d (mk_task TOPO_ROW_LIST_GC i 0 1 EMPTY 0 [] []) td I2)
      as (g3 & Ec & I3 & Ed & _ & _ & Em & Ej & Ep & Ef & _); try done.
    { cbn. by rewrite lookup_insert_eq. } { cbn. rewrite lookup_insert_ne by done. by rewrite lookup_insert_eq. }
    { by right; left. } { by left. }
    change (let '(d0, g0) := new_task TOPO_ROW_LIST_DEFRAG i target cost ACTIVE g in _) with
      (g2 ← connect u d gu; Some (Some d, emplace_key (TOPO_ROW_LIST_DEFRAG, i) d (emplace_key (TOPO_ROW_LIST_GC, i) u g2))).
    change g2 with (set_map (<[(TOPO_ROW_LIST_GC, i):=u]> (<[(TOPO_ROW_LIST_DEFRAG, i):=d]> (task_map g))) gu) in Ec.
    rewrite connect_set_map in Ec. destruct (connect u d gu) as [g4|] eqn:Ec2; [|done]. injection Ec as <-.
    cbn [mbind option_bind]. assert (task_map g4 = task_map g) as Em2.
    { by rewrite (connect_task_map _ _ _ _ Ec2). }
    assert (emplace_key (TOPO_ROW_LIST_DEFRAG, i) d (emplace_key (TOPO_ROW_LIST_GC, i) u g4) =
      set_map (<[(TOPO_ROW_LIST_GC, i):=u]> (<[(TOPO_ROW_LIST_DEFRAG, i):=d]> (task_map g))) g4) as ->.
    { unfold emplace_key. cbn. rewrite Em2. unfold set_map. cbn. f_equal. by apply insert_insert_ne. }
    rewrite filter_cons_False, filter_cons_True in I3 by naive_solver. cbn in I3.
    apply (defrag_add_one _ ups d u td (TOPO_ROW_LIST_GC, i) I3 Ed); try done.
    + cbn in Ej, Ep, Ef |- *. rewrite Ej, Ep, Ef. apply U1.
    + cbn. by rewrite lookup_insert_eq.
Qed.

(** The rest of the insertion for an edge, when there is an empty task for the
    topology of its vertex. *)
Definition insert_ep_on (i : task_id) (target cost : Z) (u : nat) (g : gc) : option (option nat * gc) :=
  let '(d, g) := new_task EP_ROW_LIST_DEFRAG i target cost ACTIVE g in
  g ← connect u d g;
  let '(e, g) := new_task EP_ROW_LIST_GC i 0 1 EMPTY g in
  let g := emplace_key (EP_ROW_LIST_GC, i) e g in
  g ← connect e d g;
  Some (Some d, emplace_key (EP_ROW_LIST_DEFRAG, i) d g).

Lemma ep_defrag_on g ups x i target cost u tu :
  Inv g ups x [] [] -> target <> 0 -> tasks g !! u = Some tu -> t_status tu = EMPTY -> t_blocked tu = 0 ->
  key tu = (TOPO_ROW_LIST_GC, IdV (GetAttachedVid i)) -> task_map g !! key tu = Some u ->
  task_map g !! (EP_ROW_LIST_DEFRAG, i) = None -> task_map g !! (EP_ROW_LIST_GC, i) = None ->
  x = [] \/ (x = [u] /\ t_down tu = [] /\ t_up tu = [] /\ forall l, l ∉ ups u) ->
  exists g', spawn threshold EP_ROW_LIST_DEFRAG (insert_ep_on i target cost u g) = Some g' /\ safe g'.
Proof.
  intros I Ht Eu Su Bu Ku Hmu Hd He Hx. set (td := mk_task EP_ROW_LIST_DEFRAG i target cost ACTIVE 0 [] []).
  destruct (new_spec g ups x EP_ROW_LIST_DEFRAG i target cost ACTIVE I Hd ltac:(by right)) as (I1 & U1 & El1).
  set (d := next_task g) in *. set (gd := (new_task EP_ROW_LIST_DEFRAG i target cost ACTIVE g).2) in *. set (g1 := emplace_key _ _ _) in I1, U1.
  destruct (fresh_ups _ _ _ _ _ _ I El1) as [F1 F2]. assert (u <> d) as Hud by (intros ->; congruence).
  assert (tasks g1 !! d = Some td) as Ed1 by (cbn; by rewrite lookup_insert_eq).
  assert (tasks g1 !! u = Some tu) as Eu1 by (cbn; by rewrite lookup_insert_ne).
  destruct (link_spec g1 ups (d :: x) u d tu td I1 Eu1 Ed1) as (g2 & Ec & I2 & Ed2 & _ & (tu2 & Eu2 & Ku2) & Em2 & Ej2 & Ep2 & Ef2 & En2); try done.
  { by left. } { rewrite Ku. unfold td. by left. } { intros [->|Hux]%elem_of_cons; [done|]. by destruct Hx as [-> |(-> & ?)]; [apply elem_of_nil in Hux|]. }
  assert (filter (fun l => l <> u) (d :: x) = [d]) as Ex.
  { rewrite filter_cons_True by done. destruct Hx as [->|[-> _]]; [done|]. by rewrite filter_cons_False by naive_solver. }
  rewrite Ex in I2.
  destruct (new_spec g2 (add_up ups d u) [d] EP_ROW_LIST_GC i 0 1 EMPTY I2) as (I3 & U3 & El3).
  { rewrite Em2. cbn. by rewrite lookup_insert_ne. } { by left. }
  set (e := next_task g2) in *. set (g3 := emplace_key _ e _) in I3, U3. destruct (fresh_ups _ _ _ _ _ _ I2 El3) as [F3 F4].
  assert (e <> d /\ e <> u) as [Hed Heu] by (split; intros ->; congruence).
  destruct (link_spec g3 (add_up ups d u) [e; d] e d (mk_task EP_ROW_LIST_GC i 0 1 EMPTY 0 [] []) (with_up [u] td) I3)
    as (g4 & Ec4 & I4 & Ed4 & _ & _ & Em4 & Ej4 & Ep4 & Ef4 & _); try done.
  { cbn. by rewrite lookup_insert_eq. } { cbn. by rewrite lookup_insert_ne. } { by right; left. } { by right; left. }
  rewrite filter_cons_False, filter_cons_True in I4 by naive_solver. cbn in I4.
  assert (insert_ep_on i target cost u g = Some (Some d, g4)) as ->.
  { change (insert_ep_on i target cost u g) with (connect u d gd ≫= fun g2 =>
      connect (next_task g2) d (emplace_key (EP_ROW_LIST_GC, i) (next_task g2) (new_task EP_ROW_LIST_GC i 0 1 EMPTY g2).2) ≫= fun g4 =>
      Some (Some d, emplace_key (EP_ROW_LIST_DEFRAG, i) d g4)).
    unfold g1, emplace_key in Ec. rewrite connect_set_map in Ec.
    destruct (connect u d gd) as [gc2|] eqn:Ec2; [|done]. injection Ec as Ec. cbn [mbind option_bind].
    pose proof (connect_task_map _ _ _ _ Ec2) as Em. cbn in Em. replace (next_task gc2) with e by (unfold e; by rewrite <- Ec).
    set (m4 := <[(EP_ROW_LIST_GC, i):=e]> (<[(EP_ROW_LIST_DEFRAG, i):=d]> (task_map g))).
    set (ge := (new_task EP_ROW_LIST_GC i 0 1 EMPTY gc2).2).
    assert (g3 = set_map m4 ge) as E3 by (unfold g3, ge, m4, e; rewrite <- Ec; done).
    rewrite E3, connect_set_map in Ec4. unfold emplace_key. rewrite connect_set_map.
    destruct (connect e d ge) as [gc4|] eqn:Ec4'; [|done]. injection Ec4 as <-. cbn [fmap option_fmap option_map mbind option_bind].
    unfold set_map. cbn. do 3 f_equal. rewrite Em. unfold m4. by apply insert_insert_ne. }
  apply (defrag_add g4 _ d _ I4 Ed4); cbn; try done.
  - rewrite Ej4, Ep4, Ef4. cbn. rewrite Ej2, Ep2, Ef2. apply U1.
  - intros k [-> | ->%list_elem_of_singleton]%elem_of_cons; rewrite Em4; cbn.
    + exists u. rewrite lookup_insert_ne by done. rewrite Em2. cbn. rewrite lookup_insert_ne by done. rewrite <- Ku. split; [done|].
      apply elem_of_add_up. left. apply elem_of_add_up. by right.
    + exists e. rewrite lookup_insert_eq. split; [done|]. apply elem_of_add_up. by right.
  - constructor; [|apply NoDup_singleton]. by intros ?%list_elem_of_singleton.
  - intros w. rewrite elem_of_cons, list_elem_of_singleton, !elem_of_add_up. pose proof (F1 w). naive_solver.
Qed.
Lemma ep_defrag_spec g i target cost :
  safe g -> target <> 0 -> exists g', spawn threshold EP_ROW_LIST_DEFRAG (InsertEPRowListDefragTask i target cost g) = Some g' /\ safe g'.
Proof.
  intros [ups I] Ht. unfold InsertEPRowListDefragTask. case_decide as H1; [exists g; split; [done|by exists ups]|].
  case_decide as H2; [exists g; split; [done|by exists ups]|]. apply eq_None_not_Some in H1, H2. cbv zeta.
  destruct (task_map g !! (TOPO_ROW_LIST_GC, IdV (GetAttachedVid i))) as [u|] eqn:Hm.
  - destruct (g_map _ _ _ _ _ (I_graph _ _ _ _ _ I) _ _ Hm) as (tu & Eu & Ku & Su). rewrite Eu. cbn [mbind option_bind].
    case_decide as He; [|exists g; split; [done|by exists ups]].
    destruct (g_stat _ _ _ _ _ (I_graph _ _ _ _ _ I) u tu Eu) as [_ T]; [by apply not_elem_of_nil..|].
    assert (t_type tu = TOPO_ROW_LIST_GC) as Kt by (unfold key in Ku; congruence). rewrite Kt, He in T. destruct T as [T1 T2].
    apply (ep_defrag_on g ups [] i target cost u tu); try done; [by rewrite Ku|by left].
  - destruct (new_spec g ups [] TOPO_ROW_LIST_GC (IdV (GetAttachedVid i)) 0 1 EMPTY I Hm ltac:(by left)) as (I1 & U1 & El1).
    destruct (fresh_ups _ _ _ _ _ _ I El1) as [F1 F2].
    apply (ep_defrag_on _ ups [next_task g] i target cost (next_task g) (mk_task TOPO_ROW_LIST_GC (IdV (GetAttachedVid i)) 0 1 EMPTY 0 [] []) I1); try done; cbn.
    + by rewrite lookup_insert_eq.
    + by rewrite lookup_insert_eq.
    + by rewrite lookup_insert_ne.
    + by rewrite lookup_insert_ne.
    + right. split_and!; done.
Qed.

(** ** Removing edges *)

Lemma Inv_open g ups x dead G l : Inv g ups x dead G -> Inv g ups (l :: x) dead G.
Proof.
  intros I. split; try apply I.
  - by apply graph_open, I.
  - apply (placed_ext (tasks g) _ _ _ x); [apply I|by right|by left].
  - intros d td E [_ Hx]%not_elem_of_cons. by apply (I_up _ _ _ _ _ I).
  - intros d td E S [_ Hx]%not_elem_of_cons. by apply (I_inv _ _ _ _ _ I d td).
Qed.
(** Changing a task that is being inserted. *)
Lemma Inv_upd g ups x dead G l t t' :
  Inv g ups x dead G -> tasks g !! l = Some t -> l ∈ x -> unplaced (jobs g) (G ++ pending_jobs g ++ finished_jobs g) l ->
  key t' = key t -> t_down t' = t_down t -> t_status t <> INVALID -> t_status t' <> INVALID -> t_status t <> PUSHED -> t_status t' <> PUSHED ->
  Inv (set_tasks (<[l:=t']> (tasks g)) g) ups x dead G.
Proof.
  intros I E Hx U Hk Hd S1 S2 S3 S4. split; cbn.
  - apply (graph_upd _ _ _ _ _ l t); try done; [apply I|by rewrite Hd].
  - apply (placed_ext (tasks g) _ _ _ x); [apply I|done|]. intros l'. destruct (decide (l' = l)) as [->|Hne]; [|left; by rewrite lookup_insert_ne].
    right. split; [done|]. rewrite lookup_insert_eq. intros t0 [= <-]. split; [done|by right].
  - intros l'. destruct (decide (l' = l)) as [->|Hne]; [|rewrite lookup_insert_ne by done; apply I]. intros _. apply I. by eexists.
  - intros d td. destruct (decide (d = l)) as [->|Hne]; [done|rewrite lookup_insert_ne by done; apply I].
  - intros d td. destruct (decide (d = l)) as [->|Hne]; [done|rewrite lookup_insert_ne by done; apply I].
Qed.

(** An edge is removed; the upstream task stays. *)
Lemma drop_any g ups x dead G u tu tu' d J :
  Inv g ups x dead G -> tasks g !! u = Some tu -> d ∈ x -> u ∈ ups d -> key tu' = key tu -> t_up tu' = t_up tu ->
  t_down tu' = filter (fun l => l <> d) (t_down tu) -> t_status tu <> PUSHED \/ t_status tu' = t_status tu -> t_status tu' <> INVALID ->
  (u ∉ x -> stat_ok (<[u:=tu']> (tasks g)) tu') -> placed (<[u:=tu']> (tasks g)) J (G ++ pending_jobs g ++ finished_jobs g) x ->
  Inv (mk_gc (<[u:=tu']> (tasks g)) (next_task g) (task_map g) J (pending_jobs g) (finished_jobs g)) (drop_up ups d u) x dead G.
Proof.
  intros I E Hx Hu Hk Hup Hdn Hp Hi Hst P. pose proof (I_graph _ _ _ _ _ I) as G0.
  destruct (g_ups _ _ _ _ _ G0 d u Hu) as (td & tu0 & Ed & Eu & K). rewrite E in Eu. injection Eu as <-. destruct (up_keys_types _ _ K) as [Td Tu].
  pose proof (g_gc _ _ _ _ _ G0 u tu E Tu) as Hi'. split; cbn; try done.
  - apply (graph_drop _ _ _ _ _ u tu); try done; [intros Hps; destruct Hp; congruence|intros; by right].
  - intros l'. destruct (decide (l' = u)) as [->|Hne]; [|rewrite lookup_insert_ne by done; apply I]. intros _. apply I. by eexists.
  - intros d' td'. assert (d' ∉ x -> forall l, l ∈ drop_up ups d u d' <-> l ∈ ups d') as Hsame.
    { intros Hx' l. rewrite elem_of_drop_up. split; [by intros [? _]|]. intros Hl. split; [done|]. by intros ->. }
    destruct (decide (d' = u)) as [->|Hne].
    + rewrite lookup_insert_eq. intros [= <-] Hx' Hd'. rewrite Hup. destruct (I_up _ _ _ _ _ I u tu E Hx' Hd') as [N1 N2]. split; [done|]. intros l. by rewrite Hsame.
    + rewrite lookup_insert_ne by done. intros E' Hx' Hd'. destruct (I_up _ _ _ _ _ I d' td' E' Hx' Hd') as [N1 N2]. split; [done|]. intros l. by rewrite Hsame.
  - intros d' td' E' S' Hx' l [Hl _]%elem_of_drop_up. destruct (decide (d' = u)) as [->|Hne]; [rewrite lookup_insert_eq in E'; congruence|].
    rewrite lookup_insert_ne in E' by done. by apply (I_inv _ _ _ _ _ I d' td' E' S' Hx' l).
Qed.
Lemma drop_keep g ups x dead G u tu d :
  Inv g ups x dead G -> tasks g !! u = Some tu -> d ∈ x -> u ∈ ups d ->
  u ∈ x \/ (t_status tu = EMPTY /\ filter (fun l => l <> d) (t_down tu) <> []) ->
  Inv (set_tasks (<[u:=erase_down d tu]> (tasks g)) g) (drop_up ups d u) x dead G.
Proof.
  intros I E Hx Hu Hc. pose proof (I_graph _ _ _ _ _ I) as G0.
  destruct (g_ups _ _ _ _ _ G0 d u Hu) as (td & tu0 & Ed & Eu & K). rewrite E in Eu. injection Eu as <-. destruct (up_keys_types _ _ K) as [Td Tu].
  assert (u ∉ dead) as Hnd by (intros Hd; destruct (g_dead _ _ _ _ _ G0 u Hd) as (_ & B & _); by apply (B d)).
  apply (drop_any g ups x dead G u tu (erase_down d tu) d (jobs g)); try done; [by right|by apply (g_gc _ _ _ _ _ G0 u tu)| |].
  - intros Hux. destruct Hc as [|[He Hf]]; [done|].
    destruct (g_stat _ _ _ _ _ G0 u tu E Hux Hnd) as [T1 T2]. split; [done|]. cbn in *. rewrite Tu, He in *. destruct T2. done.
  - apply (placed_ext (tasks g) _ _ _ x); [apply I|done|]. intros l'. left. destruct (decide (l' = u)) as [->|Hne]; [by rewrite lookup_insert_eq, E|by rewrite lookup_insert_ne].
Qed.
(** The upstream task was empty and is freed. *)
Lemma drop_free g ups x dead G u tu d :
  Inv g ups x dead G -> tasks g !! u = Some tu -> d ∈ x -> u ∈ ups d -> t_status tu = EMPTY -> filter (fun l => l <> d) (t_down tu) = [] ->
  Inv (free u (erase_key (key tu) g)) (drop_up ups d u) x dead G.
Proof.
  intros I E Hx Hu He Hf. pose proof (I_graph _ _ _ _ _ I) as G0. split; cbn.
  - apply (graph_free _ _ _ _ _ u tu); try done. intros; by right.
  - apply (placed_ext (tasks g) _ _ _ x); [apply I|done|]. intros l'. destruct (decide (l' = u)) as [->|Hne]; [|left; by rewrite lookup_delete_ne].
    right. split; [|by rewrite lookup_delete_eq]. apply (placed_idle (tasks g) _ _ x); [apply I|]. intros t Et. congruence.
  - intros l' [t [_ Hl]%lookup_delete_Some]. apply I. by eexists.
  - intros d' td' [Hne E']%lookup_delete_Some Hx' Hd'. destruct (I_up _ _ _ _ _ I d' td' E' Hx' Hd') as [N1 N2]. split; [done|]. intros l.
    rewrite N2, elem_of_drop_up. split; [|by intros [? _]]. intros Hl. split; [done|]. by intros ->.
  - intros d' td' [Hne E']%lookup_delete_Some S' Hx' l [Hl _]%elem_of_drop_up. by apply (I_inv _ _ _ _ _ I d' td' E' S' Hx' l).
Qed.

(** A defragmentation that has not been handed over becomes invalid. *)
Lemma invalidate_spec g ups x d td :
  Inv g ups x [] [] -> tasks g !! d = Some td -> is_defrag (t_type td) = true -> t_status td = ACTIVE -> d ∉ x ->
  exists g1, SetTaskInvalid (t_type td) d g = Some g1 /\ Inv (erase_key (key td) g1) ups (d :: x) [] [] /\
    tasks g1 = <[d := with_status INVALID td]> (tasks g) /\ (forall ty, j_tasks (jobs g1 ty) = j_tasks (jobs g ty)) /\
    task_map g1 = task_map g /\ pending_jobs g1 = pending_jobs g /\ finished_jobs g1 = finished_jobs g.
Proof.
  intros I E Hdf Ha Hx. unfold SetTaskInvalid. rewrite (upd_some d _ g td E). cbn [mbind option_bind]. cbn [tasks set_tasks]. rewrite lookup_insert_eq. cbn [mbind option_bind].
  eexists. split; [done|]. split.
  2: { split_and!; try done. intros ty. cbn. case_decide; [by subst|done]. }
  pose proof (I_placed _ _ _ _ _ I) as P. assert (d ∈ j_tasks (jobs g (t_type td))) as Hj by (apply (p_active _ _ _ _ P d td); auto).
  split; cbn.
  - apply graph_open, graph_invalidate; try done; [apply I|by apply not_elem_of_nil].
  - pose proof (placed_change (tasks g) (jobs g) _ x d td (with_status INVALID td) P E Hj eq_refl ltac:(by right; right)) as P'.
    unfold put_job in P'. cbn in P'. unfold cost_of in P'. rewrite lookup_insert_eq, E in P'. rewrite decide_True, decide_False in P' by (cbn; congruence).
    replace (sum_of_cost (jobs g (t_type td)) - t_cost td) with (sum_of_cost (jobs g (t_type td)) + (0 - t_cost td)) by lia.
    replace (sum_blocked_count (jobs g (t_type td))) with (sum_blocked_count (jobs g (t_type td)) + (t_blocked td - t_blocked td)) by lia.
    by apply (placed_ext _ _ _ _ x _ P'); [right|left].
  - intros l'. destruct (decide (l' = d)) as [->|Hne]; [|rewrite lookup_insert_ne by done; apply I]. intros _. apply I. by eexists.
  - intros d' td' E' [Hne Hx']%not_elem_of_cons. rewrite lookup_insert_ne in E' by done. by apply (I_up _ _ _ _ _ I d' td').
  - intros d' td' E' S' [Hne Hx']%not_elem_of_cons. rewrite lookup_insert_ne in E' by done. by apply (I_inv _ _ _ _ _ I d' td').
Qed.
(** ... and is out of the graph when it has no edges any more. *)
Lemma close_invalid g ups x d td :
  Inv g ups (d :: x) [] [] -> tasks g !! d = Some td -> is_defrag (t_type td) = true -> t_status td = INVALID -> t_target td <> 0 ->
  t_blocked td = 0 -> (forall l, l ∉ ups d) -> Inv (set_tasks (<[d := with_up [] td]> (tasks g)) g) ups x [] [].
Proof.
  intros I E Hdf Hs Ht Hb Hu. split; cbn.
  - apply (graph_close _ _ _ d _ _ (with_up [] td)); [|by rewrite lookup_insert_eq| |by cbn; rewrite Hs].
    + apply (graph_upd _ _ _ _ _ d td); try done; [apply I|]. intros Hx. destruct Hx. by left.
    + split; [done|]. cbn. rewrite Hdf, Hs. auto.
  - destruct (I_placed _ _ _ _ _ I) as [P1 P2 P3 P4 P5 P6 P7 P8 P9]. apply (placed_ext (tasks g) _ _ _ x); [|done|].
    + split; try done. intros l t El Sl Xl. apply P6; [done..|]. apply not_elem_of_cons. split; [|done]. intros ->. rewrite E in El. injection El as <-. destruct Sl; congruence.
    + intros l. left. destruct (decide (l = d)) as [->|Hne]; [by rewrite lookup_insert_eq, E|by rewrite lookup_insert_ne].
  - intros l'. destruct (decide (l' = d)) as [->|Hne]; [|rewrite lookup_insert_ne by done; apply I]. intros _. apply I. by eexists.
  - intros d' td'. destruct (decide (d' = d)) as [->|Hne].
    + rewrite lookup_insert_eq. intros [= <-] _ _. cbn. split; [constructor|]. intros l. split; [by intros ?%elem_of_nil|]. intros Hl. by destruct (Hu l).
    + rewrite lookup_insert_ne by done. intros E' Hx'. apply (I_up _ _ _ _ _ I d' td' E'). by apply not_elem_of_cons.
  - intros d' td'. destruct (decide (d' = d)) as [->|Hne]; [done|]. rewrite lookup_insert_ne by done. intros E' S' Hx'.
    apply (I_inv _ _ _ _ _ I d' td' E' S'). by apply not_elem_of_cons.
Qed.

(** The upstream tasks of a defragmentation in the graph. *)
Lemma ups_keys g ups x dead G d td :
  Inv g ups x dead G -> tasks g !! d = Some td -> t_status td <> INVALID -> d ∉ x -> d ∉ dead ->
  (forall k, k ∈ up_keys (key td) -> exists u tu, task_map g !! k = Some u /\ u ∈ t_up td /\ tasks g !! u = Some tu /\ key tu = k) /\
  (forall u, u ∈ t_up td -> exists tu, tasks g !! u = Some tu /\ key tu ∈ up_keys (key td) /\ u ∈ ups d /\ d ∈ t_down tu /\ task_map g !! key tu = Some u).
Proof.
  intros I E S X D. pose proof (I_graph _ _ _ _ _ I) as G0. destruct (I_up _ _ _ _ _ I d td E X D) as [N1 N2]. split.
  - intros k Hk. destruct (g_complete _ _ _ _ _ G0 d td k E S X D Hk) as (u & Hm & Hu). destruct (g_map _ _ _ _ _ G0 k u Hm) as (tu & Eu & Ku & _).
    exists u, tu. by rewrite N2.
  - intros u Hu%N2. destruct (g_ups _ _ _ _ _ G0 d u Hu) as (td' & tu & E1 & E2 & K). rewrite E in E1. injection E1 as <-. exists tu.
    destruct (g_complete _ _ _ _ _ G0 d td _ E S X D K) as (u' & Hm & Hu'). destruct (g_map _ _ _ _ _ G0 _ u' Hm) as (tu' & Eu' & Ku' & Su').
    assert (d ∈ t_down tu) as Hd by (by apply (g_down _ _ _ _ _ G0 u tu E2)). split_and!; try done.
    destruct (decide (u ∈ dead)) as [Hdd|Hdd]; [destruct (g_dead _ _ _ _ _ G0 u Hdd) as (_ & B & _); by destruct (B d)|].
    apply (g_reg _ _ _ _ _ G0); [done| |done]. apply (g_gc _ _ _ _ _ G0 u tu E2). by apply up_keys_types in K as [_ K].
Qed.

Lemma free_upd u t k g : free u (erase_key k (set_tasks (<[u:=t]> (tasks g)) g)) = free u (erase_key k g).
Proof. unfold free, erase_key, set_tasks, set_map. cbn. by rewrite delete_insert_eq. Qed.

(** What removing edges leaves as it is. *)
Definition same_rest (us : list nat) (g g' : gc) : Prop :=
  jobs g' = jobs g /\ pending_jobs g' = pending_jobs g /\ finished_jobs g' = finished_jobs g /\
  forall l t, tasks g !! l = Some t -> l ∉ us -> tasks g' !! l = Some t.

(** The loop over the upstream tasks of an edge: [l] is the task that is being
    inserted, the others are empty. *)
Lemma disconnect_loop_spec d l tl us g ups x n :
  Inv g ups x [] [] -> d ∈ x -> l ∈ x -> tasks g !! l = Some tl -> t_status tl = ACTIVE -> NoDup us -> (forall u, u ∈ us -> u ∈ ups d) ->
  (forall u, u ∈ us -> exists tu, tasks g !! u = Some tu /\ (t_type tu = TOPO_ROW_LIST_GC \/ t_type tu = EP_ROW_LIST_GC) /\
     (u = l \/ (u ∉ x /\ t_status tu = EMPTY))) ->
  exists g' ups', disconnect_loop d us n g = Some ((n + if decide (l ∈ us /\ filter (fun y => y <> d) (t_down tl) = []) then 1 else 0)%nat, g') /\
    Inv g' ups' x [] [] /\ (forall y, y ∈ ups' d <-> y ∈ ups d /\ y ∉ us) /\ (forall d' y, d' <> d -> y ∈ ups' d' <-> y ∈ ups d') /\
    same_rest us g g' /\ (l ∈ us -> tasks g' !! l = Some (erase_down d tl)).
Proof.
  revert g ups n tl. induction us as [|u us IH]; intros g ups n tl I Hd Hl El Sl Hn Hu Ht.
  { exists g, ups. rewrite decide_False by (by intros [?%elem_of_nil _]). cbn. rewrite Nat.add_0_r. split_and!; try done.
    - intros y. rewrite elem_of_nil. naive_solver.
    - by intros ?%elem_of_nil. }
  apply NoDup_cons in Hn as [Hnu Hn]. destruct (Ht u ltac:(by left)) as (tu & Eu & Ty & Hc). pose proof (Hu u ltac:(by left)) as Huu.
  cbn [disconnect_loop]. rewrite (upd_some u _ g tu Eu). cbn [mbind option_bind]. cbn [tasks set_tasks]. rewrite lookup_insert_eq. cbn [mbind option_bind].
  change (t_down (erase_down d tu)) with (filter (fun y => y <> d) (t_down tu)).
  destruct (decide (u = l)) as [->|Hul].
  - rewrite El in Eu. injection Eu as <-. pose proof (drop_keep g ups x [] [] l tl d I El Hd Huu ltac:(by left)) as I1.
    set (g1 := set_tasks _ g) in *. assert (tasks g1 !! l = Some (erase_down d tl)) as El1 by (cbn; by rewrite lookup_insert_eq).
    assert (forall n, exists g' ups', disconnect_loop d us n g1 = Some (n, g') /\
      Inv g' ups' x [] [] /\ (forall y, y ∈ ups' d <-> y ∈ drop_up ups d l d /\ y ∉ us) /\ (forall d' y, d' <> d -> y ∈ ups' d' <-> y ∈ drop_up ups d l d') /\
      same_rest us g1 g') as Hrec.
    { intros n1. destruct (IH g1 (drop_up ups d l) n1 (erase_down d tl) I1 Hd Hl El1 Sl Hn) as (g' & ups' & E' & I' & U1 & U2 & R & _).
      - intros y Hy. apply elem_of_drop_up. split; [apply Hu; by right|]. intros _ ->. done.
      - intros y Hy. destruct (Ht y ltac:(by right)) as (ty & Ey & Ty' & Hc'). exists ty. assert (y <> l) by (by intros ->).
        cbn. rewrite lookup_insert_ne by done. split_and!; [done..|]. destruct Hc'; [done|by right].
      - exists g', ups'. rewrite decide_False in E' by naive_solver. rewrite Nat.add_0_r in E'. done. }
    assert (forall g' ups', Inv g' ups' x [] [] -> (forall y, y ∈ ups' d <-> y ∈ drop_up ups d l d /\ y ∉ us) ->
      (forall d' y, d' <> d -> y ∈ ups' d' <-> y ∈ drop_up ups d l d') -> same_rest us g1 g' ->
      Inv g' ups' x [] [] /\ (forall y, y ∈ ups' d <-> y ∈ ups d /\ y ∉ l :: us) /\ (forall d' y, d' <> d -> y ∈ ups' d' <-> y ∈ ups d') /\
      same_rest (l :: us) g g' /\ (l ∈ l :: us -> tasks g' !! l = Some (erase_down d tl))) as Hfin.
    { intros g' ups' I' U1 U2 (R1 & R2 & R3 & R4). split_and!; try done.
      - intros y. rewrite U1, elem_of_drop_up, not_elem_of_cons. naive_solver.
      - intros d' y Hne. rewrite U2, elem_of_drop_up by done. naive_solver.
      - split_and!; try done. intros y t Ey [Hyl Hyu]%not_elem_of_cons. apply R4; [|done]. cbn. by rewrite lookup_insert_ne.
      - intros _. by apply R4. }
    rewrite (decide_False (P := t_status _ = EMPTY)) by (cbn; congruence). rewrite (decide_True (P := t_status _ = ACTIVE /\ _)) by done.
    destruct (decide (filter _ (t_down tl) = [])) as [Hf|Hf].
    + destruct (Hrec (S n)) as (g' & ups' & E' & I' & U1 & U2 & R). exists g', ups'. rewrite decide_True by (split; [by left|done]).
      rewrite Nat.add_1_r. split; [done|]. by apply Hfin.
    + destruct (Hrec n) as (g' & ups' & E' & I' & U1 & U2 & R). exists g', ups'. rewrite decide_False by naive_solver. rewrite Nat.add_0_r. split; [done|]. by apply Hfin.
  - destruct Hc as [|[Hux He]]; [done|]. rewrite (decide_True (P := t_status _ = EMPTY)) by done. rewrite (decide_True (P := t_type _ = TOPO_ROW_LIST_GC \/ _)) by done.
    assert (forall g1, Inv g1 (drop_up ups d u) x [] [] -> same_rest [u] g g1 ->
      exists g' ups', disconnect_loop d us n g1 = Some ((n + if decide (l ∈ u :: us /\ filter (fun y => y <> d) (t_down tl) = []) then 1 else 0)%nat, g') /\
        Inv g' ups' x [] [] /\ (forall y, y ∈ ups' d <-> y ∈ ups d /\ y ∉ u :: us) /\ (forall d' y, d' <> d -> y ∈ ups' d' <-> y ∈ ups d') /\
        same_rest (u :: us) g g' /\ (l ∈ u :: us -> tasks g' !! l = Some (erase_down d tl))) as Hrec.
    { intros g1 I1 (R1 & R2 & R3 & R4).
      destruct (IH g1 (drop_up ups d u) n tl I1 Hd Hl) as (g' & ups' & E' & I' & U1 & U2 & (Q1 & Q2 & Q3 & Q4) & L); try done.
      - apply R4; [done|]. rewrite list_elem_of_singleton. by intros ->.
      - intros y Hy. apply elem_of_drop_up. split; [apply Hu; by right|]. intros _ ->. done.
      - intros y Hy. destruct (Ht y ltac:(by right)) as (ty & Ey & Ty' & Hc'). exists ty. split_and!; [|done..]. apply R4; [done|]. rewrite list_elem_of_singleton. by intros ->.
      - exists g', ups'. split_and!; try done; try congruence.
        + rewrite E'. do 3 f_equal. apply decide_ext. rewrite elem_of_cons. naive_solver.
        + intros y. rewrite U1, elem_of_drop_up, not_elem_of_cons. naive_solver.
        + intros d' y Hne. rewrite U2, elem_of_drop_up by done. naive_solver.
        + split_and!; try congruence. intros y t Ey [Hyl Hyu]%not_elem_of_cons. apply Q4; [|done]. apply R4; [done|]. by rewrite list_elem_of_singleton.
        + intros [->|Hlu]%elem_of_cons; [done|]. by apply L. }
    destruct (decide (filter _ (t_down tu) = [])) as [Hf|Hf].
    + cbn [tasks set_tasks]. rewrite free_upd. change (t_type (erase_down d tu), t_id (erase_down d tu)) with (key tu). apply Hrec; [by apply drop_free|].
      split_and!; try done. intros y t Ey Hyu%elem_of_1. cbn. by rewrite lookup_delete_ne.
    + apply Hrec; [apply drop_keep; try done; by right|]. split_and!; try done. intros y t Ey Hyu%elem_of_1. cbn. by rewrite lookup_insert_ne.
Qed.
End Invariant.
