(* ===== verification/GcFree.v ===== *)
(** * Inserting the tasks that free row lists

    A task that frees a row list finds an empty task with its defragmentations
    downstream, or is new.  Freeing properties always succeeds; freeing topology
    fails a check when a defragmentation of an edge is active downstream together
    with another task. *)
From S2P Require Import Prelude Types GcTasks GcGraph GcInsert.
Local Open Scope Z_scope.


(** ** Turning an empty task into one that frees *)

(** The only task downstream of a task that frees properties. *)
Lemma single_down g ups x dead G l t d :
  Inv g ups x dead G -> tasks g !! l = Some t -> l ∉ dead -> (forall k, key t ∈ up_keys k -> k = (d, t_id t)) ->
  (forall d', d' ∈ t_down t -> d' ∉ dead /\ forall td, tasks g !! d' = Some td -> t_status td <> INVALID) -> (length (t_down t) <= 1)%nat.
Proof.
  intros I E Hd Hk Ha. pose proof (I_graph _ _ _ _ _ I) as G0. destruct (g_down _ _ _ _ _ G0 l t E) as [N1 N2].
  assert (forall d1 d2, d1 ∈ t_down t -> d2 ∈ t_down t -> d1 = d2) as Hu.
  { intros d1 d2 H1 H2. destruct (Ha d1 H1) as [A1 B1]. destruct (Ha d2 H2) as [A2 B2]. apply N2 in H1, H2.
    destruct (g_ups _ _ _ _ _ G0 d1 l H1) as (td1 & t1 & E1 & F1 & K1). destruct (g_ups _ _ _ _ _ G0 d2 l H2) as (td2 & t2 & E2 & F2 & K2).
    rewrite E in F1, F2. injection F1 as <-. injection F2 as <-. apply Hk in K1, K2.
    apply (graph_key _ _ _ _ _ d1 d2 td1 td2 G0); try done; [by apply B1|by apply B2|congruence]. }
  destruct (t_down t) as [|a [|b r]]; cbn; [lia|lia|]. exfalso. apply NoDup_cons in N1 as [N1 _]. apply N1.
  rewrite (Hu a b); [by left|by left|by right; left].
Qed.
Lemma down_not_invalid g ups l t d td : Inv g ups [] [] [] -> tasks g !! l = Some t -> d ∈ t_down t -> tasks g !! d = Some td -> t_status td <> INVALID.
Proof.
  intros I E Hd Ed S. apply (g_down _ _ _ _ _ (I_graph _ _ _ _ _ I) l t E) in Hd.
  by apply (I_inv _ _ _ _ _ I d td Ed S) in Hd; [|by apply not_elem_of_nil].
Qed.
Lemma idle_unplaced g ups l t : Inv g ups [] [] [] -> tasks g !! l = Some t -> t_status t = EMPTY -> unplaced (jobs g) (pending_jobs g ++ finished_jobs g) l.
Proof. intros I E S. apply (placed_idle (tasks g) _ _ []); [apply I|]. intros t' E'. congruence. Qed.
(** An empty task gets its target. *)
Lemma start_spec g ups l t t' :
  Inv g ups [] [] [] -> tasks g !! l = Some t -> t_status t = EMPTY -> key t' = key t -> t_down t' = t_down t ->
  t_status t' = ACTIVE \/ t_status t' = BLOCKED ->
  Inv (set_tasks (<[l:=t']> (tasks g)) g) ups [l] [] [] /\ unplaced (jobs g) (pending_jobs g ++ finished_jobs g) l.
Proof.
  intros I E S Hk Hd S'. pose proof (idle_unplaced g ups l t I E S) as U. split; [|done].
  apply (Inv_upd g ups [l] [] [] l t t' (Inv_open _ _ _ _ _ l I)); try done; [by left|congruence|destruct S'; congruence|congruence|destruct S'; congruence].
Qed.

(** Invalidating the only downstream task [d] with one edge. *)
Lemma disconnect_one g ups l t d td :
  Inv g ups [l] [] [] -> tasks g !! l = Some t -> tasks g !! d = Some td -> d <> l -> t_status td = ACTIVE -> is_defrag (t_type td) = true ->
  up_keys (key td) = [key t] -> task_map g !! key t = Some l ->
  exists g1 g2 td1 ups', SetTaskInvalid (t_type td) d g = Some g1 /\
    g2 = set_tasks (<[l := erase_down d t]> (<[d := td1]> (tasks g1))) (erase_key (key td) g1) /\
    tasks g1 !! d = Some (with_status INVALID td) /\ td1 = with_up [] (with_status INVALID td) /\ tasks g1 !! l = Some t /\ t_up td = [l] /\
    Inv g2 ups' [l] [] [] /\ (forall d' y, y ∈ ups' d' <-> d' <> d /\ y ∈ ups d') /\
    (forall ty, j_tasks (jobs g1 ty) = j_tasks (jobs g ty)) /\ pending_jobs g1 = pending_jobs g /\ finished_jobs g1 = finished_jobs g /\
    (forall l', l' <> l -> l' <> d -> tasks g1 !! l' = tasks g !! l').
Proof.
  intros I El Ed Hdl Sd Td Hk Hm. assert (t_status td <> INVALID) as Sni by congruence.
  destruct (ups_keys g ups [l] [] [] d td I Ed Sni) as [K1 K2]; [by apply elem_of_1|by apply not_elem_of_nil|].
  destruct (I_up _ _ _ _ _ I d td Ed) as [N1 N2]; [by apply elem_of_1|by apply not_elem_of_nil|].
  assert (forall u, u ∈ t_up td <-> u = l) as Hup.
  { intros u. split.
    - intros Hu. destruct (K2 u Hu) as (tu & Eu & Ku & _ & _ & Mu). rewrite Hk in Ku. apply list_elem_of_singleton in Ku. congruence.
    - intros ->. destruct (K1 (key t)) as (u & tu & Mu & Hu & _); [rewrite Hk; by left|]. congruence. }
  assert (t_up td = [l]) as Eup.
  { destruct (t_up td) as [|a [|b r]] eqn:Ea.
    - pose proof (proj2 (Hup l) eq_refl) as Hl. by apply elem_of_nil in Hl.
    - f_equal. apply Hup. by left.
    - apply NoDup_cons in N1 as [N1 _]. exfalso. apply N1. rewrite (proj1 (Hup a)), (proj1 (Hup b)); [by left|by right; left|by left]. }
  destruct (invalidate_spec g ups [l] d td I Ed Td Sd) as (g1 & E1 & I1 & T1 & J1 & M1 & P1 & F1); [by apply elem_of_1|].
  set (td' := with_status INVALID td) in *. assert (tasks g1 !! l = Some t) as El1 by (rewrite T1; by rewrite lookup_insert_ne).
  assert (tasks g1 !! d = Some td') as Ed1 by (rewrite T1; by rewrite lookup_insert_eq).
  assert (l ∈ ups d) as Hld by (apply N2; by apply Hup).
  pose proof (drop_keep (erase_key (key td) g1) ups [d; l] [] [] l t d I1 El1 ltac:(by left) Hld ltac:(left; by right; left)) as I2.
  destruct (g_stat _ _ _ _ _ (I_graph _ _ _ _ _ I) d td Ed) as [Q1 Q2]; [by apply elem_of_1|by apply not_elem_of_nil|]. rewrite Td in Q2.
  assert (forall y, y ∉ drop_up ups d l d) as Hnone.
  { intros y Hy. apply elem_of_drop_up in Hy as [Hy1 Hy2]. by apply Hy2, Hup, N2. }
  pose proof (close_invalid _ _ [l] d td' I2 ltac:(cbn; by rewrite lookup_insert_ne) Td eq_refl ltac:(cbn; apply Q1; congruence) ltac:(cbn; apply Q2) Hnone) as I3.
  eexists g1, _, _, _. split_and!; try done.
  - cbn in I3. unfold set_tasks in *. cbn in *. rewrite insert_insert_ne by done. exact I3.
  - intros d' y. rewrite elem_of_drop_up. split.
    + intros [H1 H2]. split; [|done]. intros ->. by apply (H2 eq_refl), Hup, N2.
    + naive_solver.
  - intros l' H1 H2. rewrite T1. by rewrite lookup_insert_ne.
Qed.

(** Invalidating a defragmentation of the properties of an edge, upstream of which
    [l] is being inserted: the check of the code asks that [d] was the last task
    downstream of [l]. *)
Lemma disconnect_ep g ups l t d td :
  Inv g ups [l] [] [] -> tasks g !! l = Some t -> t_status t = ACTIVE -> tasks g !! d = Some td -> d <> l -> t_status td = ACTIVE ->
  t_type td = EP_ROW_LIST_DEFRAG -> d ∈ t_down t ->
  exists g1, SetTaskInvalid EP_ROW_LIST_DEFRAG d g = Some g1 /\
    if decide (filter (fun y => y <> d) (t_down t) = []) then
      exists g2 ups', DisconnectInvalidEPRowListDefragTask d g1 = Some g2 /\ Inv g2 ups' [l] [] [] /\ (forall d' y, y ∈ ups' d' <-> d' <> d /\ y ∈ ups d') /\
        tasks g2 !! l = Some (erase_down d t) /\ (forall ty, j_tasks (jobs g2 ty) = j_tasks (jobs g ty)) /\
        pending_jobs g2 = pending_jobs g /\ finished_jobs g2 = finished_jobs g
    else DisconnectInvalidEPRowListDefragTask d g1 = None.
Proof.
  intros I El Sl Ed Hdl Sd Td Hd. pose proof (I_graph _ _ _ _ _ I) as G0. assert (t_status td <> INVALID) as Sni by congruence.
  assert (is_defrag (t_type td) = true) as Tdf by (by rewrite Td).
  destruct (ups_keys g ups [l] [] [] d td I Ed Sni) as [K1 K2]; [by apply elem_of_1|by apply not_elem_of_nil|].
  destruct (I_up _ _ _ _ _ I d td Ed) as [N1 N2]; [by apply elem_of_1|by apply not_elem_of_nil|].
  assert (l ∈ ups d) as Hld by (by apply (g_down _ _ _ _ _ G0 l t El)).
  destruct (invalidate_spec g ups [l] d td I Ed Tdf Sd) as (g1 & E1 & I1 & T1 & J1 & M1 & P1 & F1); [by apply elem_of_1|].
  rewrite Td in E1. exists g1. split; [done|]. set (td' := with_status INVALID td) in *.
  assert (forall y, y <> d -> tasks g1 !! y = tasks g !! y) as T1' by (intros; rewrite T1; by rewrite lookup_insert_ne).
  assert (tasks g1 !! d = Some td') as Ed1 by (rewrite T1; by rewrite lookup_insert_eq).
  assert (forall u, u ∈ t_up td -> u <> d) as Hud.
  { intros u Hu ->. destruct (K2 d Hu) as (tu & Eu & Ku & _). apply up_keys_types in Ku as [_ Ku]. cbn in Ku. congruence. }
  destruct (disconnect_loop_spec d l t (t_up td) (erase_key (key td) g1) ups [d; l] 0 I1) as (g2 & ups2 & E2 & I2 & U1 & U2 & (R1 & R2 & R3 & R4) & L2); try done.
  { by left. } { by right; left. } { cbn. by rewrite T1' by done. } { intros u Hu. by apply N2. }
  { intros u Hu. destruct (K2 u Hu) as (tu & Eu & Ku & _ & Du & Mu). exists tu. cbn. rewrite T1' by (by apply Hud). split; [done|].
    assert (is_defrag (t_type tu) = false) as Tu by (by apply up_keys_types in Ku as [_ Ku]). split.
    { unfold key in Ku. rewrite Td in Ku. cbn in Ku. apply elem_of_cons in Ku as [Ku|Ku%list_elem_of_singleton]; [left|right]; congruence. }
    destruct (decide (u = l)) as [->|Hul]; [by left|]. right. split; [rewrite not_elem_of_cons, elem_of_1; split; [by apply Hud|done]|].
    destruct (g_stat _ _ _ _ _ G0 u tu Eu) as [_ Q]; [by apply elem_of_1|by apply not_elem_of_nil|]. rewrite Tu in Q.
    destruct (t_status tu); try done; try (destruct Q as [Q _]; rewrite Q in Du; by apply elem_of_nil in Du).
    destruct Q as (_ & _ & Q). destruct (Q d Du) as (td2 & Ed2 & Sd2). congruence. }
  assert (DisconnectInvalidEPRowListDefragTask d g1 =
    if decide (filter (fun y => y <> d) (t_down t) = []) then upd d (with_up []) g2 else None) as Edis.
  { unfold DisconnectInvalidEPRowListDefragTask. rewrite Ed1. cbn [mbind option_bind].
    change (t_up td') with (t_up td). change (EP_ROW_LIST_DEFRAG, t_id td') with (EP_ROW_LIST_DEFRAG, t_id td). rewrite <- Td. fold (key td).
    rewrite E2. cbn [mbind option_bind]. assert (l ∈ t_up td) as Hlu by (by apply N2).
    destruct (decide (l ∈ t_up td /\ _)) as [[_ Hf]|Hf]; destruct (decide (filter _ (t_down t) = [])); try done; naive_solver. }
  rewrite Edis. case_decide as Hf; [|done].
  assert (tasks g2 !! d = Some td') as Ed2 by (apply R4; [done|]; intros Hu; by apply (Hud d Hu)).
  destruct (g_stat _ _ _ _ _ G0 d td Ed) as [Q1 Q2]; [by apply elem_of_1|by apply not_elem_of_nil|]. rewrite Tdf in Q2.
  assert (forall y, y ∉ ups2 d) as Hnone by (intros y Hy; apply U1 in Hy as [Hy1 Hy2]; by apply Hy2, N2).
  rewrite (upd_some d _ g2 td' Ed2). eexists _, ups2. split; [done|]. split.
  { apply (close_invalid g2 ups2 [l] d td' I2 Ed2 Tdf eq_refl); [cbn; apply Q1; congruence|apply Q2|done]. }
  split_and!.
  - intros d' y. destruct (decide (d' = d)) as [->|Hne]; [split; [intros Hy; by destruct (Hnone y)|naive_solver]|]. rewrite U2 by done. naive_solver.
  - cbn. rewrite lookup_insert_ne by done. apply L2. by apply N2.
  - intros ty. cbn. rewrite R1. apply J1.
  - cbn. by rewrite R2.
  - cbn. by rewrite R3.
Qed.

(** ** Freeing properties *)

Lemma empty_task g ups ty i l t :
  Inv g ups [] [] [] -> task_map g !! (ty, i) = Some l -> is_defrag ty = false -> tasks g !! l = Some t -> t_status t = EMPTY ->
  key t = (ty, i) /\ t_down t <> [] /\ t_blocked t = 0 /\ t_up t = [] /\ (forall y, y ∉ ups l) /\
  forall d, d ∈ t_down t -> exists td, tasks g !! d = Some td /\ key t ∈ up_keys (key td) /\ t_status td <> INVALID /\ d <> l /\
    is_defrag (t_type td) = true /\ t_target td <> 0 /\ (t_status td = ACTIVE \/ t_status td = PUSHED).
Proof.
  intros I Hm Hty E S. pose proof (I_graph _ _ _ _ _ I) as G0. destruct (g_map _ _ _ _ _ G0 _ _ Hm) as (t' & E' & K & _). rewrite E in E'. injection E' as <-.
  assert (t_type t = ty) as Et by (unfold key in K; congruence).
  destruct (g_stat _ _ _ _ _ G0 l t E) as [_ Q]; [by apply not_elem_of_nil..|]. rewrite Et, Hty, S in Q. destruct Q as [Q1 Q2].
  assert (forall y, y ∉ ups l) as Hnu.
  { intros y Hy. destruct (g_ups _ _ _ _ _ G0 l y Hy) as (t1 & ty' & E1 & _ & K1). rewrite E in E1. injection E1 as <-.
    apply up_keys_types in K1 as [K1 _]. cbn in K1. congruence. }
  split_and!; try done.
  - destruct (I_up _ _ _ _ _ I l t E) as [_ N]; [by apply not_elem_of_nil..|]. destruct (t_up t) as [|a r]; [done|]. exfalso. apply (Hnu a), N. by left.
  - intros d Hd. pose proof Hd as Hd'. apply (g_down _ _ _ _ _ G0 l t E) in Hd'. destruct (g_ups _ _ _ _ _ G0 d l Hd') as (td & t1 & E1 & E2 & K1).
    rewrite E in E2. injection E2 as <-. destruct (up_keys_types _ _ K1) as [T1 T2]. exists td. pose proof (down_not_invalid g ups l t d td I E Hd E1) as Hni.
    destruct (g_stat _ _ _ _ _ G0 d td E1) as [Q3 Q4]; [by apply not_elem_of_nil..|]. cbn in T1. rewrite T1 in Q4. split_and!; try done.
    + intros ->. cbn in T2. congruence.
    + apply Q3. intros He. rewrite He in Q4. naive_solver.
    + naive_solver.
Qed.

Section Free.
Context (threshold : DepGCTaskType -> Z).

Lemma blocked_add g ups ty i l t d td target :
  Inv g ups [] [] [] -> target <> 0 -> task_map g !! (ty, i) = Some l -> is_defrag ty = false -> tasks g !! l = Some t -> t_status t = EMPTY ->
  t_down t = [d] -> tasks g !! d = Some td -> t_status td = PUSHED ->
  let t' := mk_task (t_type t) (t_id t) target (t_cost t) BLOCKED (t_blocked t + 1) (t_up t) (t_down t) in
  exists g', spawn threshold ty (Some (Some l, set_tasks (<[l:=t']> (tasks g)) g)) = Some g' /\ safe g'.
Proof.
  intros I Ht Hm Hty E S Hd Ed Sd t'. destruct (empty_task g ups ty i l t I Hm Hty E S) as (K & _ & B & Up & Nu & D).
  destruct (start_spec g ups l t t' I E S eq_refl eq_refl ltac:(by right)) as [I1 U]. assert (t_type t' = ty) as <- by (unfold key in K; cbn; congruence).
  assert (d <> l) as Hdl by (destruct (D d) as (? & ? & ? & ? & ? & _); [rewrite Hd; by left|done]).
  apply (add_spec threshold _ ups l t' I1); try done.
  - cbn. by rewrite lookup_insert_eq.
  - by right.
  - split; [done|]. rewrite Hty. cbn. rewrite Hd, B. split_and!; [done..|]. intros d' ->%list_elem_of_singleton. exists td. by rewrite lookup_insert_ne.
  - intros k Hk. apply up_keys_types in Hk as [Hk _]. cbn in Hk, Hty. congruence.
  - cbn. rewrite Up. split; [constructor|]. intros y. split; [by intros ?%elem_of_nil|]. intros Hy. by destruct (Nu y).
Qed.
Lemma active_add g ups l t :
  Inv g ups [l] [] [] -> tasks g !! l = Some t -> unplaced (jobs g) (pending_jobs g ++ finished_jobs g) l -> is_defrag (t_type t) = false ->
  t_status t = ACTIVE -> t_target t <> 0 -> t_blocked t = 0 -> t_down t = [] -> t_up t = [] -> (forall y, y ∉ ups l) ->
  exists g', spawn threshold (t_type t) (Some (Some l, g)) = Some g' /\ safe g'.
Proof.
  intros I E U Hty S T B D Up Nu. apply (add_spec threshold g ups l t I E U); [by left| | |].
  - split; [done|]. by rewrite Hty, S.
  - intros k Hk. apply up_keys_types in Hk as [Hk _]. cbn in Hk. congruence.
  - rewrite Up. split; [constructor|]. intros y. split; [by intros ?%elem_of_nil|]. intros Hy. by destruct (Nu y).
Qed.
Lemma unplaced_same g g' l :
  (forall ty, j_tasks (jobs g' ty) = j_tasks (jobs g ty)) -> pending_jobs g' = pending_jobs g -> finished_jobs g' = finished_jobs g ->
  unplaced (jobs g) (pending_jobs g ++ finished_jobs g) l -> unplaced (jobs g') (pending_jobs g' ++ finished_jobs g') l.
Proof. intros H1 H2 H3 [U1 U2]. rewrite H2, H3. split; [|done]. intros ty. by rewrite H1. Qed.

Lemma vp_gc_keys k i : (VP_ROW_LIST_GC, i) ∈ up_keys k -> k = (VP_ROW_LIST_DEFRAG, i).
Proof. destruct k as [[] j]; cbn; rewrite ?elem_of_cons, ?elem_of_nil; naive_solver. Qed.
Lemma ep_gc_keys k i : (EP_ROW_LIST_GC, i) ∈ up_keys k -> k = (EP_ROW_LIST_DEFRAG, i).
Proof. destruct k as [[] j]; cbn; rewrite ?elem_of_cons, ?elem_of_nil; naive_solver. Qed.
Lemma topo_gc_keys k i : (TOPO_ROW_LIST_GC, i) ∈ up_keys k -> up_keys k = [(TOPO_ROW_LIST_GC, i)] /\ k.1 = TOPO_ROW_LIST_DEFRAG \/ k.1 = EP_ROW_LIST_DEFRAG.
Proof. destruct k as [[] j]; cbn; rewrite ?elem_of_cons, ?elem_of_nil; naive_solver. Qed.

(** Freeing the properties of a vertex always succeeds. *)
Lemma vp_gc_spec g i target :
  safe g -> target <> 0 -> exists g', spawn threshold VP_ROW_LIST_GC (InsertVPRowListGCTask i target g) = Some g' /\ safe g'.
Proof.
  intros [ups I] Ht. unfold InsertVPRowListGCTask. destruct (task_map g !! (VP_ROW_LIST_GC, i)) as [l|] eqn:Hm.
  2: { apply insert_new_gc_spec; try done. by exists ups. }
  destruct (g_map _ _ _ _ _ (I_graph _ _ _ _ _ I) _ _ Hm) as (t & E & K0 & _). rewrite E. cbn [mbind option_bind].
  case_decide as S; [exists g; split; [done|by exists ups]|].
  destruct (empty_task g ups _ i l t I Hm eq_refl E S) as (K & Hd & B & Up & Nu & D).
  assert (exists d, t_down t = [d]) as [d Ed].
  { pose proof (single_down g ups [] [] [] l t VP_ROW_LIST_DEFRAG I E ltac:(by apply not_elem_of_nil)) as Hle.
    destruct (t_down t) as [|d [|d' r]]; [done|by exists d|]. cbn in Hle. exfalso.
    assert (2 + length r <= 1)%nat; [|lia]. apply Hle.
    - intros k. rewrite K. intros Hk%vp_gc_keys. unfold key in K. congruence.
    - intros d0 Hd0. split; [by apply not_elem_of_nil|]. intros td Etd. by destruct (D d0 Hd0) as (td0 & Etd0 & _ & Hni & _); congruence. }
  destruct (D d) as (td & Etd & Kd & Sni & Hdl & Tdf & _ & Std); [rewrite Ed; by left|]. rewrite Ed. cbn [length head decide]. rewrite decide_True by done.
  cbn [mbind option_bind head]. rewrite Etd. cbn [mbind option_bind]. rewrite (upd_some l _ g t E). cbn [mbind option_bind].
  destruct Std as [Std|Std]; rewrite Std.
  - rewrite decide_False by done. rewrite decide_True by done. rewrite (upd_some l _ _ (with_target target t)) by (cbn; by rewrite lookup_insert_eq).
    cbn [mbind option_bind tasks set_tasks]. rewrite insert_insert_eq. set (t' := with_status ACTIVE _).
    destruct (start_spec g ups l t t' I E S eq_refl eq_refl ltac:(by left)) as [I1 U]. set (g1 := set_tasks _ g) in I1.
    change (set_tasks _ (set_tasks _ g)) with g1. rewrite K in Kd. pose proof Kd as Kd'. apply vp_gc_keys in Kd'.
    destruct (disconnect_one g1 ups l t' d td I1) as (g2 & g3 & td1 & ups' & E2 & E3 & Ed2 & -> & El2 & Eup & I3 & U3 & J3 & P3 & F3 & _); try done.
    { cbn. by rewrite lookup_insert_eq. } { cbn. by rewrite lookup_insert_ne. } { rewrite Kd'. change (key t') with (key t). by rewrite K. }
    { change (key t') with (key t). by rewrite K. }
    assert (t_type td = VP_ROW_LIST_DEFRAG /\ t_id td = i) as [Ty Ti] by (unfold key in Kd'; split; congruence). rewrite Ty in E2. rewrite E2. cbn [mbind option_bind].
    unfold DisconnectInvalidVPRowListDefragTask. rewrite Ed2. cbn [mbind option_bind]. change (t_up (with_status INVALID td)) with (t_up td). rewrite Eup.
    cbn [head mbind option_bind]. rewrite (upd_some d _ _ (with_status INVALID td)) by done. cbn [mbind option_bind].
    rewrite (upd_some l _ _ t') by (cbn; by rewrite lookup_insert_ne). cbn [mbind option_bind]. cbn [tasks set_tasks]. rewrite lookup_insert_eq. cbn [mbind option_bind].
    assert (t_down (erase_down d t') = []) as Hd0 by (cbn; rewrite Ed; cbn; by rewrite decide_False by naive_solver).
    rewrite decide_True by done. cbn [mbind option_bind].
    assert (t_type t = VP_ROW_LIST_GC) as Tt by (unfold key in K; congruence).
    match goal with |- context [spawn _ _ (Some (Some l, ?x))] => assert (x = g3) as -> end.
    { rewrite E3. unfold key. rewrite Ty. done. }
    replace VP_ROW_LIST_GC with (t_type (erase_down d t')) by done.
    apply (active_add g3 ups' l (erase_down d t') I3); try done.
    + rewrite E3. cbn. by rewrite lookup_insert_eq.
    + apply (unplaced_same g); subst g3; done.
    + cbn. by rewrite Tt.
    + intros y Hy. apply U3 in Hy as [_ Hy]. by apply (Nu y).
  - rewrite decide_True by done. rewrite (upd_some l _ _ (with_target target t)) by (cbn; by rewrite lookup_insert_eq). cbn [mbind option_bind tasks set_tasks].
    rewrite insert_insert_eq. rewrite (upd_some l _ _ (with_status BLOCKED (with_target target t))) by (cbn; by rewrite lookup_insert_eq).
    cbn [mbind option_bind tasks set_tasks]. rewrite insert_insert_eq. by apply (blocked_add g ups VP_ROW_LIST_GC i l t d td target).
Qed.

Lemma erase_single d t : t_down t = [d] -> filter (fun y => y <> d) (t_down t) = [].
Proof. intros ->. cbn. by rewrite decide_False by naive_solver. Qed.

(** Freeing the properties of an edge always succeeds. *)
Lemma ep_gc_spec g i target :
  safe g -> target <> 0 -> exists g', spawn threshold EP_ROW_LIST_GC (InsertEPRowListGCTask i target g) = Some g' /\ safe g'.
Proof.
  intros [ups I] Ht. unfold InsertEPRowListGCTask. destruct (task_map g !! (EP_ROW_LIST_GC, i)) as [l|] eqn:Hm.
  2: { apply insert_new_gc_spec; try done. by exists ups. }
  destruct (g_map _ _ _ _ _ (I_graph _ _ _ _ _ I) _ _ Hm) as (t & E & K0 & _). rewrite E. cbn [mbind option_bind].
  case_decide as S; [exists g; split; [done|by exists ups]|].
  destruct (empty_task g ups _ i l t I Hm eq_refl E S) as (K & Hd & B & Up & Nu & D).
  assert (exists d, t_down t = [d]) as [d Ed].
  { pose proof (single_down g ups [] [] [] l t EP_ROW_LIST_DEFRAG I E ltac:(by apply not_elem_of_nil)) as Hle.
    destruct (t_down t) as [|d [|d' r]]; [done|by exists d|]. cbn in Hle. exfalso.
    assert (2 + length r <= 1)%nat; [|lia]. apply Hle.
    - intros k. rewrite K. intros Hk%ep_gc_keys. unfold key in K. congruence.
    - intros d0 Hd0. split; [by apply not_elem_of_nil|]. intros td Etd. by destruct (D d0 Hd0) as (td0 & Etd0 & _ & Hni & _); congruence. }
  destruct (D d) as (td & Etd & Kd & Sni & Hdl & Tdf & _ & Std); [rewrite Ed; by left|]. rewrite Ed.
  cbn [mbind option_bind head]. rewrite Etd. cbn [mbind option_bind]. rewrite (upd_some l _ g t E). cbn [mbind option_bind].
  destruct Std as [Std|Std]; rewrite Std.
  - rewrite decide_False by done. rewrite decide_True by done. rewrite (upd_some l _ _ (with_target target t)) by (cbn; by rewrite lookup_insert_eq).
    cbn [mbind option_bind tasks set_tasks]. rewrite insert_insert_eq. set (t' := with_status ACTIVE _).
    destruct (start_spec g ups l t t' I E S eq_refl eq_refl ltac:(by left)) as [I1 U]. set (g1 := set_tasks _ g) in I1.
    change (set_tasks _ (set_tasks _ g)) with g1. rewrite K in Kd. apply ep_gc_keys in Kd.
    assert (t_type td = EP_ROW_LIST_DEFRAG) as Ty by (unfold key in Kd; congruence).
    destruct (disconnect_ep g1 ups l t' d td I1) as (g2 & E2 & H2); try done.
    { cbn. by rewrite lookup_insert_eq. } { cbn. by rewrite lookup_insert_ne. } { cbn. rewrite Ed. by left. }
    rewrite decide_True in H2 by (by apply erase_single). destruct H2 as (g3 & ups' & E3 & I3 & U3 & El3 & J3 & P3 & F3).
    rewrite E2. cbn [mbind option_bind]. rewrite E3. cbn [mbind option_bind].
    assert (t_type t = EP_ROW_LIST_GC) as Tt by (unfold key in K; congruence). replace EP_ROW_LIST_GC with (t_type (erase_down d t')) by done.
    apply (active_add g3 ups' l (erase_down d t') I3); try done.
    + by apply (unplaced_same g).
    + cbn. by rewrite Tt.
    + by apply erase_single.
    + intros y Hy. apply U3 in Hy as [_ Hy]. by apply (Nu y).
  - rewrite decide_True by done. rewrite (upd_some l _ _ (with_target target t)) by (cbn; by rewrite lookup_insert_eq). cbn [mbind option_bind tasks set_tasks].
    rewrite insert_insert_eq. rewrite (upd_some l _ _ (with_blocked (t_blocked (with_target target t) + 1) (with_target target t))) by (cbn; by rewrite lookup_insert_eq).
    cbn [mbind option_bind tasks set_tasks]. rewrite insert_insert_eq. by apply (blocked_add g ups EP_ROW_LIST_GC i l t d td target).
Qed.

(** ** Freeing topology *)

(** While the loop visits the tasks downstream of [l]: the ones that were visited
    and are still there have been handed over and block [l]. *)
Record topo_inv (g : gc) (l : nat) (target : Z) (r : list nat) (ups : nat -> list nat) (t : task) : Prop := {
  ti_inv : Inv g ups [l] [] [];
  ti_task : tasks g !! l = Some t;
  ti_attr : t_status t = ACTIVE /\ t_target t = target /\ t_type t = TOPO_ROW_LIST_GC /\ t_up t = [] /\ (forall y, y ∉ ups l);
  ti_place : unplaced (jobs g) (pending_jobs g ++ finished_jobs g) l;
  ti_todo : NoDup r /\ (forall d, d ∈ r -> d ∈ t_down t);
  ti_blocked : t_blocked t = Z.of_nat (length (t_down t)) - Z.of_nat (length r);
  ti_seen : forall d, d ∈ t_down t -> d ∉ r -> exists td, tasks g !! d = Some td /\ t_status td = PUSHED;
}.

Lemma topo_down g l target r ups t d :
  topo_inv g l target r ups t -> d ∈ t_down t -> exists td, tasks g !! d = Some td /\ d <> l /\ key t ∈ up_keys (key td) /\ is_defrag (t_type td) = true /\
    (t_status td = ACTIVE \/ t_status td = PUSHED) /\ (t_type td = TOPO_ROW_LIST_DEFRAG /\ up_keys (key td) = [key t] \/ t_type td = EP_ROW_LIST_DEFRAG).
Proof.
  intros T Hd. destruct (ti_attr _ _ _ _ _ _ T) as (A1 & A2 & A3 & A4 & A5). pose proof (ti_task _ _ _ _ _ _ T) as E. pose proof (ti_inv _ _ _ _ _ _ T) as I.
  pose proof (I_graph _ _ _ _ _ I) as G0. apply (g_down _ _ _ _ _ G0 l t E) in Hd. destruct (g_ups _ _ _ _ _ G0 d l Hd) as (td & t1 & E1 & E2 & K1).
  rewrite E in E2. injection E2 as <-. destruct (up_keys_types _ _ K1) as [T1 T2]. cbn in T1.
  assert (d <> l) as Hne by (intros ->; cbn in T2; congruence). exists td. split_and!; try done.
  - destruct (g_stat _ _ _ _ _ G0 d td E1) as [_ Q]; [by apply elem_of_1|by apply not_elem_of_nil|]. rewrite T1 in Q.
    destruct (decide (t_status td = INVALID)) as [Si|]; [|naive_solver].
    exfalso. by apply (I_inv _ _ _ _ _ I d td E1 Si (proj2 (elem_of_1 d l) Hne) l).
  - pose proof K1 as K2. unfold key in K2 at 1. rewrite A3 in K2. apply topo_gc_keys in K2. cbn in K2. unfold key at 2. rewrite A3. naive_solver.
Qed.

(** A task that has been handed over blocks the collection. *)
Lemma topo_skip g l target d td r ups t :
  topo_inv g l target (d :: r) ups t -> tasks g !! d = Some td -> t_status td = PUSHED ->
  exists g', upd l (fun t => with_blocked (t_blocked t + 1) t) g = Some g' /\ topo_inv g' l target r ups (with_blocked (t_blocked t + 1) t) /\
    forall l', l' <> l -> tasks g' !! l' = tasks g !! l'.
Proof.
  intros T E S. pose proof (ti_task _ _ _ _ _ _ T) as El. destruct (ti_attr _ _ _ _ _ _ T) as (A1 & A2 & A3 & A4 & A5).
  destruct (ti_todo _ _ _ _ _ _ T) as [[N1 N1']%NoDup_cons N2]. rewrite (upd_some l _ _ t El). eexists. split; [done|].
  assert (d <> l) as Hne by congruence. split; [|intros; cbn; by rewrite lookup_insert_ne]. split; cbn; try done.
  - apply (Inv_upd g ups [l] [] [] l t); try done; [apply T|by left|apply T|cbn; congruence..].
  - by rewrite lookup_insert_eq.
  - apply T.
  - split; [done|]. intros d' Hd'. apply N2. by right.
  - rewrite (ti_blocked _ _ _ _ _ _ T). cbn. lia.
  - intros d' H1 H2. destruct (decide (d' = d)) as [->|Hd']; [exists td; by rewrite lookup_insert_ne|].
    destruct (ti_seen _ _ _ _ _ _ T d' H1) as (td' & E' & S'); [by rewrite not_elem_of_cons|]. exists td'. rewrite lookup_insert_ne; [done|congruence].
Qed.

Lemma filter_out_length (d : nat) ds : NoDup ds -> d ∈ ds -> length ds = S (length (filter (fun y => y <> d) ds)).
Proof.
  induction ds as [|a ds IH]; intros N Hd; [by apply elem_of_nil in Hd|]. apply NoDup_cons in N as [N1 N2]. rewrite filter_cons.
  destruct (decide (a = d)) as [->|Hne].
  - rewrite decide_False by naive_solver. cbn. f_equal. f_equal. symmetry. apply filter_all, Forall_forall. intros y Hy ->. done.
  - rewrite decide_True by done. cbn. apply elem_of_cons in Hd as [|Hd]; [congruence|]. by rewrite <- (IH N2 Hd).
Qed.

(** An active defragmentation of topology is invalidated. *)
Lemma topo_invalidate g l target d td r ups t :
  topo_inv g l target (d :: r) ups t -> tasks g !! d = Some td -> t_status td = ACTIVE -> t_type td = TOPO_ROW_LIST_DEFRAG ->
  exists g1 g2 ups', SetTaskInvalid TOPO_ROW_LIST_DEFRAG d g = Some g1 /\ DisconnectInvalidTopoRowListDefragTask d g1 = Some g2 /\
    topo_inv g2 l target r ups' (erase_down d t) /\ forall l', l' <> l -> l' <> d -> tasks g2 !! l' = tasks g !! l'.
Proof.
  intros T E S Ty. pose proof (ti_task _ _ _ _ _ _ T) as El. destruct (ti_attr _ _ _ _ _ _ T) as (A1 & A2 & A3 & A4 & A5). pose proof (ti_inv _ _ _ _ _ _ T) as I.
  destruct (ti_todo _ _ _ _ _ _ T) as [[N1 N1']%NoDup_cons N2]. assert (d ∈ t_down t) as Hd by (apply N2; by left).
  destruct (topo_down _ _ _ _ _ _ d T Hd) as (td0 & E0 & Hdl & _ & Tdf & _ & Tk). rewrite E in E0. injection E0 as <-.
  assert (up_keys (key td) = [key t]) as Hk by (destruct Tk as [[_ ?]|?]; congruence). destruct (g_down _ _ _ _ _ (I_graph _ _ _ _ _ I) l t El) as [Nd _].
  destruct (disconnect_one g ups l t d td I El E Hdl S Tdf Hk) as (g1 & g2 & td1 & ups' & E1 & E2 & Ed1 & -> & El1 & Eup & I2 & U2 & J2 & P2 & F2 & T2).
  { apply (g_reg _ _ _ _ _ (I_graph _ _ _ _ _ I)); [done|congruence|by apply not_elem_of_nil]. }
  rewrite Ty in E1. exists g1, g2, ups'. split; [done|].
  assert (tasks g2 !! l = Some (erase_down d t)) as El2 by (rewrite E2; cbn; by rewrite lookup_insert_eq). split.
  { unfold DisconnectInvalidTopoRowListDefragTask. rewrite Ed1. cbn [mbind option_bind]. change (t_up (with_status INVALID td)) with (t_up td). rewrite Eup.
    cbn [head mbind option_bind]. rewrite (upd_some d _ _ (with_status INVALID td)) by done. cbn [mbind option_bind].
    rewrite (upd_some l _ _ t) by (cbn; by rewrite lookup_insert_ne). cbn [mbind option_bind]. cbn [tasks set_tasks]. rewrite lookup_insert_eq. cbn [mbind option_bind].
    rewrite E2. unfold key. rewrite Ty. case_decide; [|done]. change (t_status (erase_down d t)) with (t_status t). rewrite A1. done. }
  assert (forall l', l' <> l -> l' <> d -> tasks g2 !! l' = tasks g !! l') as Hoth.
  { intros l' H1 H2. rewrite E2. cbn. rewrite !lookup_insert_ne by done. by apply T2. }
  split; [|done]. split; cbn; try done.
  - split_and!; try done. intros y Hy. apply U2 in Hy as [_ Hy]. by apply (A5 y).
  - apply (unplaced_same g); subst g2; try done. apply T.
  - split; [done|]. intros d' Hd'. apply list_elem_of_filter. split; [congruence|]. apply N2. by right.
  - rewrite (ti_blocked _ _ _ _ _ _ T). rewrite (filter_out_length d (t_down t)) by done. cbn. lia.
  - intros d' [H1 H2]%list_elem_of_filter H3. destruct (ti_seen _ _ _ _ _ _ T d' H2) as (td' & E' & S'); [by rewrite not_elem_of_cons|].
    exists td'. rewrite Hoth; [done|congruence|done].
Qed.

(** The first step of the loop, by the task it visits. *)
Lemma topo_step g l target d r ups t :
  topo_inv g l target (d :: r) ups t -> exists td, tasks g !! d = Some td /\
  if decide (t_status td = ACTIVE /\ t_type td = EP_ROW_LIST_DEFRAG) then
    if decide (filter (fun y => y <> d) (t_down t) = []) then
      exists g' ups' t', topo_loop l (d :: r) g = topo_loop l r g' /\ topo_inv g' l target r ups' t' /\ r = []
    else topo_loop l (d :: r) g = None
  else exists g' ups' t', topo_loop l (d :: r) g = topo_loop l r g' /\ topo_inv g' l target r ups' t' /\
    (forall l', l' <> l -> l' <> d \/ t_status td = PUSHED -> tasks g' !! l' = tasks g !! l') /\ (forall y, y ∈ t_down t -> y <> d \/ t_status td = PUSHED -> y ∈ t_down t').
Proof.
  intros T. pose proof (ti_task _ _ _ _ _ _ T) as El. destruct (ti_attr _ _ _ _ _ _ T) as (A1 & A2 & A3 & A4 & A5). pose proof (ti_inv _ _ _ _ _ _ T) as I.
  destruct (ti_todo _ _ _ _ _ _ T) as [[N1 N1']%NoDup_cons N2]. assert (d ∈ t_down t) as Hd by (apply N2; by left).
  destruct (topo_down _ _ _ _ _ _ d T Hd) as (td & E & Hdl & _ & Tdf & Std & Tk). exists td. split; [done|]. cbn [topo_loop]. rewrite E. cbn [mbind option_bind].
  destruct Std as [S|S]; rewrite S.
  2: { rewrite decide_False by naive_solver. rewrite decide_True by done. destruct (topo_skip _ _ _ _ _ _ _ _ T E S) as (g' & E' & T' & H').
       rewrite E'. cbn [mbind option_bind]. eexists g', ups, _. split_and!; try done. intros; by apply H'. }
  rewrite (decide_False (P := ACTIVE = PUSHED)) by done. rewrite (decide_True (P := ACTIVE = ACTIVE)) by done.
  destruct Tk as [[Ty Hk]|Ty]; rewrite Ty.
  { rewrite decide_False by naive_solver. destruct (topo_invalidate _ _ _ _ _ _ _ _ T E S Ty) as (g1 & g2 & ups' & E1 & E2 & T2 & H2).
    rewrite E1. cbn [mbind option_bind]. rewrite E2. cbn [mbind option_bind]. eexists g2, ups', _. split_and!; try done; [intros l' Hl' [?|?]; [by apply H2|done]|].
    intros y Hy [Hne|?]; [|done]. cbn. apply list_elem_of_filter. done. }
  rewrite (decide_True (P := ACTIVE = ACTIVE /\ _)) by done. destruct (disconnect_ep g ups l t d td I El A1 E Hdl S Ty Hd) as (g1 & E1 & H1).
  rewrite E1. cbn [mbind option_bind]. case_decide as Hf; [|by rewrite H1].
  destruct H1 as (g2 & ups' & E2 & I2 & U2 & El2 & J2 & P2 & F2). rewrite E2. cbn [mbind option_bind].
  assert (r = []) as ->.
  { destruct r as [|d' r]; [done|]. assert (d' ∈ filter (fun y => y <> d) (t_down t)) as Hin; [|rewrite Hf in Hin; by apply elem_of_nil in Hin].
    apply list_elem_of_filter. split; [intros ->; apply N1; by left|apply N2; by right; left]. }
  exists g2, ups', (erase_down d t). split_and!; try done. destruct (g_down _ _ _ _ _ (I_graph _ _ _ _ _ I) l t El) as [Nd _]. split; cbn; try done.
  - split_and!; try done. intros y Hy. apply U2 in Hy as [_ Hy]. by apply (A5 y).
  - apply (unplaced_same g); try done. apply T.
  - split; [constructor|]. by intros ? ?%elem_of_nil.
  - rewrite (ti_blocked _ _ _ _ _ _ T). rewrite (filter_out_length d (t_down t)) by done. cbn. lia.
  - rewrite Hf. by intros ? ?%elem_of_nil.
Qed.

(** The loop keeps the invariant, and fails on an active defragmentation of an edge
    unless it is the last task. *)
Lemma topo_loop_inv l target r g ups t g' :
  topo_inv g l target r ups t -> topo_loop l r g = Some g' -> exists ups' t', topo_inv g' l target [] ups' t'.
Proof.
  revert g ups t. induction r as [|d r IH]; intros g ups t T; [intros [= <-]; eauto|].
  destruct (topo_step _ _ _ _ _ _ _ T) as (td & E & H). case_decide; [case_decide|]; [destruct H as (g1 & ups1 & t1 & -> & T1 & _)|by rewrite H|destruct H as (g1 & ups1 & t1 & -> & T1 & _)]; eauto.
Qed.
Definition edge_defrag (g : gc) (d : nat) : Prop := exists td, tasks g !! d = Some td /\ t_status td = ACTIVE /\ t_type td = EP_ROW_LIST_DEFRAG.
Lemma topo_loop_total l target r g ups t :
  topo_inv g l target r ups t -> (forall d, d ∈ r -> ~ edge_defrag g d) -> is_Some (topo_loop l r g).
Proof.
  revert g ups t. induction r as [|d r IH]; intros g ups t T Hn; [by eexists|].
  destruct (topo_step _ _ _ _ _ _ _ T) as (td & E & H). rewrite decide_False in H by (intros []; apply (Hn d); [by left|by exists td]).
  destruct (ti_todo _ _ _ _ _ _ T) as [[N1 N1']%NoDup_cons N2]. destruct H as (g1 & ups1 & t1 & -> & T1 & H1 & _). apply (IH g1 ups1 t1 T1).
  intros d' Hd' (td' & E' & S'). apply (Hn d'); [by right|]. exists td'. rewrite <- H1; [done| |left; congruence].
  intros ->. destruct (topo_down _ _ _ _ _ _ l T) as (? & ? & ? & _); [apply N2; by right|done].
Qed.
Lemma topo_loop_fails l target r g ups t d d' :
  topo_inv g l target r ups t -> d ∈ r -> edge_defrag g d -> d' ∈ t_down t -> d' <> d ->
  (forall td, tasks g !! d' = Some td -> t_status td = PUSHED \/ t_type td = EP_ROW_LIST_DEFRAG) -> topo_loop l r g = None.
Proof.
  revert g ups t. induction r as [|a r IH]; intros g ups t T Hd He Hd' Hne Ho; [by apply elem_of_nil in Hd|].
  destruct (topo_step _ _ _ _ _ _ _ T) as (ta & Ea & H). destruct (ti_todo _ _ _ _ _ _ T) as [[N1 N1']%NoDup_cons N2].
  pose proof (N2 d Hd) as Hd2. case_decide as Hc.
  - case_decide as Hf; [|done]. exfalso. assert (d ∈ filter (fun y => y <> a) (t_down t) \/ d' ∈ filter (fun y => y <> a) (t_down t)) as Hin.
    { rewrite !list_elem_of_filter. destruct (decide (d = a)) as [->|]; [right; naive_solver|left; naive_solver]. }
    rewrite Hf in Hin. by destruct Hin as [?%elem_of_nil|?%elem_of_nil].
  - destruct H as (g1 & ups1 & t1 & -> & T1 & H1 & H2). destruct He as (td & Etd & Std & Ttd).
    assert (d <> a) as Hda by (intros ->; apply Hc; split; congruence).
    assert (forall y, y ∈ t_down t -> y <> l) as Hyl by (intros y Hy; by destruct (topo_down _ _ _ _ _ _ y T Hy) as (? & ? & ? & _)).
    assert (d' <> a \/ t_status ta = PUSHED) as Hor.
    { destruct (decide (d' = a)) as [->|]; [|by left]. right. destruct (Ho ta Ea); [done|].
      destruct (topo_down _ _ _ _ _ _ a T) as (ta' & E' & _ & _ & _ & S' & _); [apply N2; by left|]. rewrite Ea in E'. injection E' as <-. naive_solver. }
    apply (IH g1 ups1 t1 T1); try done.
    + by apply elem_of_cons in Hd as [|].
    + exists td. rewrite H1; [done|by apply Hyl|by left].
    + by apply H2.
    + intros td'. rewrite H1; [apply Ho|by apply Hyl|done].
Qed.

(** The state in which the loop starts. *)
Lemma topo_start g ups i l t target :
  Inv g ups [] [] [] -> target <> 0 -> task_map g !! (TOPO_ROW_LIST_GC, i) = Some l -> tasks g !! l = Some t -> t_status t = EMPTY ->
  let t1 := with_target target (with_status ACTIVE t) in
  topo_inv (set_tasks (<[l:=t1]> (tasks g)) g) l target (t_down t) ups t1.
Proof.
  intros I Ht Hm E S t1. destruct (empty_task g ups _ i l t I Hm eq_refl E S) as (K & Hd & B & Up & Nu & D).
  destruct (start_spec g ups l t t1 I E S eq_refl eq_refl ltac:(by left)) as [I1 U]. assert (t_type t = TOPO_ROW_LIST_GC) as Ty by (unfold key in K; congruence).
  split; cbn; try done.
  - by rewrite lookup_insert_eq.
  - split; [|done]. apply (g_down _ _ _ _ _ (I_graph _ _ _ _ _ I) l t E).
  - lia.
Qed.
(** What the producer does with a task of topology, up to the loop. *)
Lemma topo_insert g i target l t :
  task_map g !! (TOPO_ROW_LIST_GC, i) = Some l -> tasks g !! l = Some t -> t_status t = EMPTY ->
  InsertTopoRowListGCTask i target g =
    (g1 ← topo_loop l (t_down t) (set_tasks (<[l:=with_target target (with_status ACTIVE t)]> (tasks g)) g);
     t' ← tasks g1 !! l; g2 ← (if 0 <? t_blocked t' then upd l (with_status BLOCKED) g1 else Some g1); Some (Some l, g2)).
Proof.
  intros Hm E S. unfold InsertTopoRowListGCTask. rewrite Hm, E. cbn [mbind option_bind]. rewrite decide_False by naive_solver.
  rewrite (upd_some l _ g t E). cbn [mbind option_bind]. rewrite (upd_some l _ _ (with_status ACTIVE t)) by (cbn; by rewrite lookup_insert_eq).
  cbn [mbind option_bind tasks set_tasks]. by rewrite insert_insert_eq.
Qed.
Lemma topo_end g l target ups t :
  topo_inv g l target [] ups t -> target <> 0 ->
  exists g', spawn threshold TOPO_ROW_LIST_GC (t' ← tasks g !! l; g2 ← (if 0 <? t_blocked t' then upd l (with_status BLOCKED) g else Some g); Some (Some l, g2)) = Some g' /\ safe g'.
Proof.
  intros T Ht. pose proof (ti_task _ _ _ _ _ _ T) as El. destruct (ti_attr _ _ _ _ _ _ T) as (A1 & A2 & A3 & A4 & A5). pose proof (ti_inv _ _ _ _ _ _ T) as I.
  pose proof (ti_blocked _ _ _ _ _ _ T) as B. cbn in B. rewrite El. cbn [mbind option_bind]. destruct (0 <? t_blocked t) eqn:Eb.
  - apply Z.ltb_lt in Eb. rewrite (upd_some l _ _ t El). cbn [mbind option_bind]. set (t' := with_status BLOCKED t).
    rewrite <- A3. change (t_type t) with (t_type t').
    apply (add_spec threshold _ ups l t'); try done.
    + apply (Inv_upd g ups [l] [] [] l t); try done; [by left|apply T|congruence..].
    + cbn. by rewrite lookup_insert_eq.
    + apply T.
    + by right.
    + split; [cbn; congruence|]. cbn. rewrite A3. cbn. split_and!; [intros Hd; rewrite Hd in B; cbn in B; lia|lia|].
      intros d Hd. destruct (ti_seen _ _ _ _ _ _ T d Hd) as (td & E & S); [by apply not_elem_of_nil|]. exists td. rewrite lookup_insert_ne; [done|congruence].
    + change (key t') with (key t). unfold key. rewrite A3. cbn. by intros k ?%elem_of_nil.
    + cbn. rewrite A4. split; [constructor|]. intros y. split; [by intros ?%elem_of_nil|]. intros Hy. by destruct (A5 y).
  - apply Z.ltb_ge in Eb. cbn [mbind option_bind]. rewrite <- A3. assert (t_down t = []) as Hd by (apply length_zero_iff_nil; lia).
    apply (active_add g ups l t I El); try done; [apply T|by rewrite A3|congruence|lia].
Qed.

(** Freeing topology keeps the collector safe when its checks hold, and they hold
    when no defragmentation of an edge is active downstream. *)
Lemma topo_gc_spec g i target g' :
  safe g -> target <> 0 -> spawn threshold TOPO_ROW_LIST_GC (InsertTopoRowListGCTask i target g) = Some g' -> safe g'.
Proof.
  intros [ups I] Ht Hs. destruct (task_map g !! (TOPO_ROW_LIST_GC, i)) as [l|] eqn:Hm.
  2: { unfold InsertTopoRowListGCTask in Hs. rewrite Hm in Hs.
       destruct (insert_new_gc_spec threshold g TOPO_ROW_LIST_GC i target) as (g2 & E2 & S2); try done; [by exists ups|congruence]. }
  destruct (g_map _ _ _ _ _ (I_graph _ _ _ _ _ I) _ _ Hm) as (t & E & K0 & _). destruct (decide (t_status t = EMPTY)) as [S|S].
  - rewrite (topo_insert g i target l t Hm E S) in Hs. destruct (topo_loop _ _ _) as [g1|] eqn:El; [|done]. cbn [mbind option_bind] in Hs.
    destruct (topo_loop_inv _ _ _ _ _ _ _ (topo_start g ups i l t target I Ht Hm E S) El) as (ups' & t' & T').
    destruct (topo_end _ _ _ _ _ T' Ht) as (g2 & E2 & S2). congruence.
  - unfold InsertTopoRowListGCTask in Hs. rewrite Hm, E in Hs. cbn [mbind option_bind] in Hs. rewrite decide_True in Hs by done. injection Hs as <-. by exists ups.
Qed.
Lemma topo_gc_total g i target :
  safe g -> target <> 0 ->
  (forall l t d, task_map g !! (TOPO_ROW_LIST_GC, i) = Some l -> tasks g !! l = Some t -> t_status t = EMPTY -> d ∈ t_down t -> ~ edge_defrag g d) ->
  exists g', spawn threshold TOPO_ROW_LIST_GC (InsertTopoRowListGCTask i target g) = Some g' /\ safe g'.
Proof.
  intros [ups I] Ht Hn. destruct (task_map g !! (TOPO_ROW_LIST_GC, i)) as [l|] eqn:Hm.
  2: { unfold InsertTopoRowListGCTask. rewrite Hm. apply insert_new_gc_spec; try done. by exists ups. }
  destruct (g_map _ _ _ _ _ (I_graph _ _ _ _ _ I) _ _ Hm) as (t & E & K0 & _). destruct (decide (t_status t = EMPTY)) as [S|S].
  - rewrite (topo_insert g i target l t Hm E S). pose proof (topo_start g ups i l t target I Ht Hm E S) as T.
    destruct (topo_loop_total _ _ _ _ _ _ T) as [g1 El].
    { intros d Hd (td & Ed & Sd). destruct (topo_down _ _ _ _ _ _ d T Hd) as (_ & _ & Hdl & _). apply (Hn l t d eq_refl E S Hd).
      exists td. cbn in Ed. by rewrite lookup_insert_ne in Ed. }
    destruct (topo_loop_inv _ _ _ _ _ _ _ T El) as (ups' & t' & T'). rewrite El. cbn [mbind option_bind]. by apply (topo_end g1 l target ups' t').
  - unfold InsertTopoRowListGCTask. rewrite Hm, E. cbn [mbind option_bind]. rewrite decide_True by done. exists g. split; [done|by exists ups].
Qed.
Lemma topo_gc_fails g i target l t d d' :
  safe g -> target <> 0 -> task_map g !! (TOPO_ROW_LIST_GC, i) = Some l -> tasks g !! l = Some t -> t_status t = EMPTY ->
  d ∈ t_down t -> edge_defrag g d -> d' ∈ t_down t -> d' <> d ->
  (forall td, tasks g !! d' = Some td -> t_status td = PUSHED \/ t_type td = EP_ROW_LIST_DEFRAG) ->
  spawn threshold TOPO_ROW_LIST_GC (InsertTopoRowListGCTask i target g) = None.
Proof.
  intros [ups I] Ht Hm E S Hd He Hd' Hne Ho. rewrite (topo_insert g i target l t Hm E S). pose proof (topo_start g ups i l t target I Ht Hm E S) as T.
  assert (forall y, y ∈ t_down t -> y <> l) as Hyl by (intros y Hy; by destruct (topo_down _ _ _ _ _ _ y T Hy) as (_ & _ & ? & _)).
  rewrite (topo_loop_fails _ _ _ _ _ _ d d' T); try done.
  - destruct He as (td & Etd & ?). exists td. cbn. rewrite lookup_insert_ne; [done|]. by apply not_eq_sym, Hyl.
  - intros td. cbn. rewrite lookup_insert_ne; [apply Ho|]. by apply not_eq_sym, Hyl.
Qed.
End Free.
