(* ===== verification/GcDag.v ===== *)
(** * The graph of collection tasks is safe

    A row list is never freed and defragmented at the same time, no check of the
    producer or the consumers fails except for one, and no task stays blocked when
    the jobs are finished. *)
From S2P Require Import Prelude Types GcTasks GcGraph GcInsert GcFree.
Local Open Scope Z_scope.

Section Dag.
Context (threshold : DepGCTaskType -> Z).

(** ** Finished tasks leave the graph *)

(** What the producer leaves as it is while it deletes tasks. *)
Definition keeps (g g' : gc) : Prop :=
  finished_jobs g' = finished_jobs g /\ (forall y t, tasks g !! y = Some t -> t_status t = PUSHED \/ t_status t = INVALID -> tasks g' !! y = Some t) /\
  forall y, is_Some (tasks g' !! y) -> is_Some (tasks g !! y).
Lemma keeps_trans g1 g2 g3 : keeps g1 g2 -> keeps g2 g3 -> keeps g1 g3.
Proof. intros (F1 & K1 & D1) (F2 & K2 & D2). split_and!; [congruence| |auto]. intros y t E S. by apply K2, S; apply K1. Qed.

(** A task that frees is not blocked by [d] any more. *)
Lemma reduce_spec g ups x dead G u tu d :
  Inv g ups x dead G -> tasks g !! u = Some tu -> t_status tu = BLOCKED -> u ∉ x -> d ∈ x -> u ∈ ups d ->
  (forall y, y ∈ x \/ y ∈ dead -> y ∈ handed G) ->
  exists g', ReduceJobBlockCount threshold (t_type tu) u (set_tasks (<[u:=erase_down d tu]> (tasks g)) g) = Some g' /\
    Inv g' (drop_up ups d u) x dead G /\ keeps g g'.
Proof.
  intros I E S Hux Hdx Hu HG. pose proof (I_graph _ _ _ _ _ I) as G0. pose proof (I_placed _ _ _ _ _ I) as P.
  destruct (g_ups _ _ _ _ _ G0 d u Hu) as (td & tu0 & Ed & Eu & K). rewrite E in Eu. injection Eu as <-. destruct (up_keys_types _ _ K) as [Td Tu].
  assert (u ∉ dead) as Hnd by (intros Hd; destruct (g_dead _ _ _ _ _ G0 u Hd) as (_ & B & _); by apply (B d)).
  destruct (g_stat _ _ _ _ _ G0 u tu E Hux Hnd) as [Q1 Q2]. cbn in Tu. rewrite Tu, S in Q2. destruct Q2 as (Q2 & Q3 & Q4).
  destruct (g_down _ _ _ _ _ G0 u tu E) as [N1 N2]. pose proof (filter_out_length d (t_down tu) N1 (proj2 (N2 d) Hu)) as Hlen.
  set (tu1 := with_blocked (t_blocked tu - 1) (erase_down d tu)). set (tu2 := if t_blocked tu - 1 =? 0 then with_status ACTIVE tu1 else tu1).
  assert (t_type tu2 = t_type tu /\ t_blocked tu2 = t_blocked tu - 1 /\ t_cost tu2 = t_cost tu /\ key tu2 = key tu /\ t_up tu2 = t_up tu /\
    t_down tu2 = t_down tu1 /\ t_target tu2 = t_target tu /\ (t_status tu2 = ACTIVE \/ t_status tu2 = BLOCKED)) as (V1 & V2 & V3 & V4 & V5 & V6 & V7 & V8).
  { unfold tu2. destruct (_ =? _); split_and!; try done; [by left|right; exact S]. }
  assert (u ∈ j_tasks (jobs g (t_type tu))) as Hj by (apply (p_active _ _ _ _ P u tu); auto).
  set (g1 := set_job (t_type tu) (mk_job (j_tasks (jobs g (t_type tu))) (sum_of_cost (jobs g (t_type tu))) (sum_blocked_count (jobs g (t_type tu)) - 1))
    (set_tasks (<[u:=tu2]> (tasks g)) g)).
  assert (ReduceTaskBlockCount (t_type tu) u (set_tasks (<[u:=erase_down d tu]> (tasks g)) g) = Some g1) as E1.
  { unfold ReduceTaskBlockCount. rewrite (upd_some u _ _ (erase_down d tu)) by (cbn; by rewrite lookup_insert_eq). cbn [mbind option_bind tasks set_tasks].
    rewrite insert_insert_eq, lookup_insert_eq. cbn [mbind option_bind]. change (with_blocked _ _) with tu1. change (t_blocked tu1) with (t_blocked tu - 1). unfold g1, tu2.
    destruct (t_blocked tu - 1 =? 0); [|done].
    rewrite (upd_some u _ _ tu1) by (cbn; by rewrite lookup_insert_eq). cbn [mbind option_bind tasks set_tasks]. by rewrite insert_insert_eq. }
  assert (Inv g1 (drop_up ups d u) x dead G) as I1.
  { apply (drop_any g ups x dead G u tu tu2 d (jobs g1)); try done; [left; congruence|destruct V8; congruence| |].
    - intros _. split; [intros _; rewrite V7; apply Q1; congruence|]. rewrite V1, Tu. unfold tu2. destruct (t_blocked tu - 1 =? 0) eqn:Eb; cbn.
      + apply Z.eqb_eq in Eb. split; [|done]. apply length_zero_iff_nil. lia.
      + rewrite S. apply Z.eqb_neq in Eb. split_and!; [intros Hf; rewrite Hf in Hlen; cbn in Hlen; lia|lia|].
        intros d' [_ Hd']%list_elem_of_filter. destruct (Q4 d' Hd') as (td' & Ed' & Sd'). exists td'. rewrite lookup_insert_ne; [done|congruence].
    - pose proof (placed_change (tasks g) (jobs g) _ x u tu tu2 P E Hj V1 ltac:(naive_solver)) as P'. unfold put_job, cost_of in P'.
      rewrite lookup_insert_eq, E in P'. rewrite !decide_False in P' by (destruct V8; congruence). rewrite V2, V3 in P'. unfold g1. cbn.
      replace (sum_of_cost (jobs g (t_type tu)) + (t_cost tu - t_cost tu)) with (sum_of_cost (jobs g (t_type tu))) in P' by lia.
      replace (sum_blocked_count (jobs g (t_type tu)) + (t_blocked tu - 1 - t_blocked tu)) with (sum_blocked_count (jobs g (t_type tu)) - 1) in P' by lia.
      exact P'. }
  destruct (push_spec threshold g1 _ x dead G (t_type tu) I1) as (g2 & E2 & I2 & (M2 & F2 & _ & T2)).
  { intros l Hl. pose proof (p_disj _ _ _ _ (I_placed _ _ _ _ _ I1) _ l Hl) as Hh. unfold handed in Hh. rewrite bind_app, not_elem_of_app in Hh. destruct Hh as [Hh _]. split; intros Hx; apply Hh, HG; auto. }
  { unfold g1. cbn. rewrite decide_True by done. cbn. intros Hn. rewrite Hn in Hj. by apply elem_of_nil in Hj. }
  unfold ReduceJobBlockCount. rewrite E1. cbn [mbind option_bind]. exists g2. split_and!; try done. split_and!; [done| |].
  - intros y t Ey Sy. assert (y <> u) as Hyu by (intros ->; rewrite E in Ey; injection Ey as <-; destruct Sy; congruence).
    assert (tasks g1 !! y = Some t) as Ey1 by (cbn; by rewrite lookup_insert_ne).
    destruct (T2 y) as [H2|(t2 & E3 & S3 & _)]; [congruence|]. rewrite Ey1 in E3. injection E3 as <-. destruct Sy; congruence.
  - intros y Hy. destruct (decide (y = u)) as [->|Hne]; [by eexists|]. assert (tasks g1 !! y = tasks g !! y) as <- by (cbn; by rewrite lookup_insert_ne).
    destruct (T2 y) as [<-|(t2 & E3 & _)]; [done|by eexists].
Qed.

(** Removing one edge of the finished task [d]. *)
Lemma edge_spec g ups dead G d td u :
  Inv g ups [d] dead G -> tasks g !! d = Some td -> u ∈ ups d -> (forall y, y ∈ [d] \/ y ∈ dead -> y ∈ handed G) ->
  exists tu, tasks g !! u = Some tu /\ u <> d /\ key tu ∈ up_keys (key td) /\
    (t_status tu = EMPTY /\ (forall g', g' = (if decide (filter (fun y => y <> d) (t_down tu) = []) then free u (erase_key (key tu) g)
          else set_tasks (<[u:=erase_down d tu]> (tasks g)) g) -> Inv g' (drop_up ups d u) [d] dead G /\ keeps g g') \/
     t_status tu = BLOCKED /\ exists g', ReduceJobBlockCount threshold (t_type tu) u (set_tasks (<[u:=erase_down d tu]> (tasks g)) g) = Some g' /\
       Inv g' (drop_up ups d u) [d] dead G /\ keeps g g').
Proof.
  intros I Ed Hu HG. pose proof (I_graph _ _ _ _ _ I) as G0. destruct (g_ups _ _ _ _ _ G0 d u Hu) as (td0 & tu & Ed0 & Eu & K).
  rewrite Ed in Ed0. injection Ed0 as <-. destruct (up_keys_types _ _ K) as [Td Tu]. cbn in Td, Tu. assert (u <> d) as Hne by congruence.
  assert (u ∉ dead) as Hnd by (intros Hd; destruct (g_dead _ _ _ _ _ G0 u Hd) as (_ & B & _); by apply (B d)).
  assert (d ∈ t_down tu) as Hdd by (by apply (g_down _ _ _ _ _ G0 u tu Eu)). assert (d ∈ [d]) as Hx by (by left).
  destruct (g_stat _ _ _ _ _ G0 u tu Eu) as [_ Q]; [by apply elem_of_1|done|]. rewrite Tu in Q.
  exists tu. split_and!; try done. destruct (t_status tu) eqn:S; try done; try (destruct Q as [Q _]; rewrite Q in Hdd; by apply elem_of_nil in Hdd).
  - left. split; [done|]. intros g' ->. case_decide as Hf.
    + split; [by apply drop_free|]. split_and!; [done| |].
      * intros y t Ey Sy. cbn. rewrite lookup_delete_ne; [done|]. intros ->. rewrite Eu in Ey. injection Ey as <-. destruct Sy; congruence.
      * cbn. intros y [t [_ Ey]%lookup_delete_Some]. by eexists.
    + split; [apply drop_keep; try done; by right|]. split_and!; [done| |].
      * intros y t Ey Sy. cbn. rewrite lookup_insert_ne; [done|]. intros ->. rewrite Eu in Ey. injection Ey as <-. destruct Sy; congruence.
      * cbn. intros y. destruct (decide (y = u)) as [->|Hn]; [by eexists|by rewrite lookup_insert_ne].
  - right. split; [done|]. apply (reduce_spec g ups [d] dead G u tu d); try done. by apply elem_of_1.
Qed.

(** A task without edges leaves the graph. *)
Lemma bury_spec g ups dead G d td :
  Inv g ups [d] dead G -> tasks g !! d = Some td -> t_status td = PUSHED -> d ∉ dead -> (forall y, y ∉ ups d) -> t_down td = [] ->
  Inv (erase_key (key td) g) ups [] (d :: dead) G.
Proof.
  intros I E S Hd Hu Hdn. split; cbn; try apply I.
  - apply (graph_bury _ _ _ _ _ d td); try done; [apply I|congruence].
  - destruct (I_placed _ _ _ _ _ I). split; try done. intros l t El Sl _. apply p_active; try done. apply elem_of_1. intros ->. rewrite E in El. injection El as <-. destruct Sl; congruence.
  - intros d' td' E' _ [H1 H2]%not_elem_of_cons. apply (I_up _ _ _ _ _ I d' td'); [done|by apply elem_of_1|done].
  - intros d' td' E' S' _. apply (I_inv _ _ _ _ _ I d' td'); try done. apply elem_of_1. congruence.
Qed.
Lemma bury_invalid g ups dead G d td : Inv g ups [] dead G -> tasks g !! d = Some td -> t_status td = INVALID -> Inv g ups [] (d :: dead) G.
Proof.
  intros I E S. pose proof (I_graph _ _ _ _ _ I) as G0. assert (forall y, y ∉ ups d) as Hu by (apply (I_inv _ _ _ _ _ I d td); [done..|by apply not_elem_of_nil]).
  split; try apply I.
  - split; try apply G0.
    + intros l t El Sl [_ Hl]%not_elem_of_cons. by apply (g_reg _ _ _ _ _ G0).
    + intros l t El Hx [_ Hl]%not_elem_of_cons. by apply (g_stat _ _ _ _ _ G0 l).
    + intros d' td' k E' S' Hx [_ Hl]%not_elem_of_cons. by apply (g_complete _ _ _ _ _ G0).
    + intros d' [->|Hd']%elem_of_cons; [|by apply (g_dead _ _ _ _ _ G0)]. split_and!; [done| |].
      * intros y Hy. destruct (g_ups _ _ _ _ _ G0 y d Hy) as (? & t & _ & Et & K). apply up_keys_types in K as [_ K]. rewrite E in Et. injection Et as <-.
        by apply (g_gc _ _ _ _ _ G0 d td E K).
      * intros k Hk. destruct (g_map _ _ _ _ _ G0 k d Hk) as (t & Et & _ & St). congruence.
  - intros d' td' E' Hx [_ Hl]%not_elem_of_cons. by apply (I_up _ _ _ _ _ I).
Qed.

(** [d] is the only task downstream of a task that frees properties. *)
Lemma last_down ty g ups dead G d td u tu :
  Inv g ups [d] dead G -> tasks g !! d = Some td -> t_status td = PUSHED -> u ∈ ups d -> tasks g !! u = Some tu -> (forall k, key tu ∈ up_keys k -> k = (ty, t_id tu)) ->
  filter (fun y => y <> d) (t_down tu) = [].
Proof.
  intros I Ed Sd Hu Eu K. pose proof (I_graph _ _ _ _ _ I) as G0. destruct (g_down _ _ _ _ _ G0 u tu Eu) as [N1 N2].
  assert (d ∈ t_down tu) as Hd by (by apply N2). assert (u ∉ dead) as Hnd by (intros Hx; destruct (g_dead _ _ _ _ _ G0 u Hx) as (_ & B & _); by apply (B d)).
  pose proof (single_down g ups [d] dead G u tu ty I Eu Hnd K) as Hle.
  assert (length (t_down tu) <= 1)%nat as Hl.
  { apply Hle. intros d' Hd'%N2. split; [intros Hx; destruct (g_dead _ _ _ _ _ G0 d' Hx) as (B & _); by apply (B u)|].
    intros td' E' S'. assert (d' <> d) as Hne by congruence. by apply (I_inv _ _ _ _ _ I d' td' E' S' (proj2 (elem_of_1 d' d) Hne) u). }
  rewrite (filter_out_length d _ N1 Hd) in Hl. apply length_zero_iff_nil. lia.
Qed.
Lemma delete_loop_spec d td i us g ups dead G :
  Inv g ups [d] dead G -> tasks g !! d = Some td -> t_status td = PUSHED -> key td = (EP_ROW_LIST_DEFRAG, i) ->
  (forall y, y ∈ [d] \/ y ∈ dead -> y ∈ handed G) -> NoDup us -> (forall u, u ∈ us -> u ∈ ups d) ->
  exists g' ups', delete_loop threshold d i us g = Some g' /\ Inv g' ups' [d] dead G /\ keeps g g' /\ (forall y, y ∈ ups' d <-> y ∈ ups d /\ y ∉ us).
Proof.
  revert g ups. induction us as [|u us IH]; intros g ups I Ed Sd Kd HG N Hus.
  { exists g, ups. split_and!; try done. intros y. rewrite elem_of_nil. naive_solver. }
  apply NoDup_cons in N as [N1 N2]. destruct (edge_spec g ups dead G d td u I Ed) as (tu & Eu & Hne & K & C); [apply Hus; by left|done|].
  assert (forall g1, Inv g1 (drop_up ups d u) [d] dead G -> keeps g g1 -> exists g' ups', delete_loop threshold d i us g1 = Some g' /\ Inv g' ups' [d] dead G /\
    keeps g g' /\ (forall y, y ∈ ups' d <-> y ∈ ups d /\ y ∉ u :: us)) as Hgo.
  { intros g1 I1 K1. destruct (IH g1 _ I1) as (g' & ups' & E' & I' & K' & U'); try done.
    - apply K1; [done|by left].
    - intros u' Hu'. apply elem_of_drop_up. split; [apply Hus; by right|]. intros _ ->. done.
    - exists g', ups'. split_and!; try done; [by apply (keeps_trans g g1)|]. intros y. rewrite U', elem_of_drop_up, not_elem_of_cons. naive_solver. }
  cbn [delete_loop]. rewrite (upd_some u _ _ tu Eu). cbn [mbind option_bind]. cbn [tasks set_tasks]. rewrite lookup_insert_eq. cbn [mbind option_bind].
  change (t_type (erase_down d tu)) with (t_type tu). change (t_status (erase_down d tu)) with (t_status tu).
  change (t_down (erase_down d tu)) with (filter (fun y => y <> d) (t_down tu)). rewrite Kd in K. cbn in K.
  apply elem_of_cons in K as [K|K%list_elem_of_singleton]; assert (t_type tu = (key tu).1) as Ty by done; rewrite K in Ty; cbn in Ty; rewrite Ty.
  - destruct C as [[S C]|(S & g1 & E1 & I1 & K1)]; rewrite S.
    + destruct (C _ eq_refl) as [I1 K1]. rewrite decide_True by done. case_decide; [rewrite free_upd; rewrite K in *|]; by apply Hgo.
    + rewrite decide_False, decide_True by done. rewrite Ty in E1. rewrite E1. by apply Hgo.
  - destruct C as [[S C]|(S & g1 & E1 & I1 & K1)]; rewrite S.
    + destruct (C _ eq_refl) as [I1 K1]. rewrite decide_True by done. assert (filter (fun y => y <> d) (t_down tu) = []) as Hf.
      { apply (last_down EP_ROW_LIST_DEFRAG g ups dead G d td u tu); try done; [apply Hus; by left|]. intros k. unfold key. rewrite Ty. apply ep_gc_keys. }
      rewrite decide_True in I1, K1 by done. rewrite decide_True by done. rewrite free_upd. rewrite K in *. by apply Hgo.
    + rewrite decide_False, decide_True by done. rewrite Ty in E1. rewrite E1. by apply Hgo.
Qed.

(** A finished task that was handed over leaves the graph. *)
Lemma defrag_down g ups x dead G d td : Inv g ups x dead G -> tasks g !! d = Some td -> is_defrag (t_type td) = true -> t_down td = [].
Proof.
  intros I E T. pose proof (I_graph _ _ _ _ _ I) as G0. destruct (t_down td) as [|y r] eqn:Ey; [done|]. exfalso.
  assert (d ∈ ups y) as Hy by (apply (g_down _ _ _ _ _ G0 d td E); rewrite Ey; by left).
  destruct (g_ups _ _ _ _ _ G0 y d Hy) as (? & t & _ & Et & K). apply up_keys_types in K as [_ K]. cbn in K. congruence.
Qed.
Lemma gc_ups g ups x dead G d td : Inv g ups x dead G -> tasks g !! d = Some td -> is_defrag (t_type td) = false -> forall y, y ∉ ups d.
Proof.
  intros I E T y Hy. destruct (g_ups _ _ _ _ _ (I_graph _ _ _ _ _ I) d y Hy) as (t & ? & Et & _ & K). apply up_keys_types in K as [K _]. cbn in K. congruence.
Qed.
Lemma delete_gc_spec g ups dead G d td :
  Inv g ups [] dead G -> tasks g !! d = Some td -> t_status td = PUSHED -> is_defrag (t_type td) = false -> d ∉ dead ->
  exists g', delete_gc_task d g = Some g' /\ Inv g' ups [] (d :: dead) G /\ keeps g g'.
Proof.
  intros I E S T Hd. pose proof (I_graph _ _ _ _ _ I) as G0. unfold delete_gc_task. rewrite E. cbn [mbind option_bind].
  rewrite decide_True by (exists d; apply (g_reg _ _ _ _ _ G0 d td); [done|congruence|done]). eexists. split; [done|]. split; [|done].
  destruct (g_stat _ _ _ _ _ G0 d td E) as [_ Q]; [by apply not_elem_of_nil|done|]. rewrite T, S in Q. destruct Q as [Q _].
  apply (bury_spec g ups dead G d td); try done; [by apply Inv_open|by apply (gc_ups g ups [] dead G d td)].
Qed.

(** The only upstream task of a defragmentation of topology or of a vertex. *)
Lemma one_up g ups dead G d td ty i :
  Inv g ups [] dead G -> tasks g !! d = Some td -> t_status td <> INVALID -> d ∉ dead -> up_keys (key td) = [(ty, i)] ->
  exists u, t_up td = [u] /\ (forall y, y ∈ ups d <-> y = u).
Proof.
  intros I E S Hd K. destruct (ups_keys g ups [] dead G d td I E S) as [K1 K2]; [by apply not_elem_of_nil|done|].
  destruct (I_up _ _ _ _ _ I d td E) as [N1 N2]; [by apply not_elem_of_nil|done|].
  destruct (K1 (ty, i)) as (u & tu & Mu & Hu & _); [rewrite K; by left|]. assert (forall y, y ∈ t_up td <-> y = u) as Hy.
  { intros y. split; [|by intros ->]. intros Hy. destruct (K2 y Hy) as (ty' & _ & Ky & _ & _ & My). rewrite K in Ky. apply list_elem_of_singleton in Ky. congruence. }
  exists u. split; [|intros y; by rewrite <- N2, Hy]. destruct (t_up td) as [|a [|b r]].
  - by apply elem_of_nil in Hu.
  - f_equal. apply Hy. by left.
  - apply NoDup_cons in N1 as [N1 _]. exfalso. apply N1. rewrite (proj1 (Hy a)), (proj1 (Hy b)); [by left|by right; left|by left].
Qed.

(** What is left after the edges of [d] have been removed. *)
Lemma delete_end g g1 ups dead G d td :
  Inv g1 ups [d] dead G -> keeps g g1 -> tasks g !! d = Some td -> t_status td = PUSHED -> is_defrag (t_type td) = true -> d ∉ dead -> (forall y, y ∉ ups d) ->
  exists ups', Inv (erase_key (key td) g1) ups' [] (d :: dead) G /\ keeps g (erase_key (key td) g1).
Proof.
  intros I K E S T Hd Hu. assert (tasks g1 !! d = Some td) as E1 by (apply K; [done|by left]). exists ups. split; [|done].
  apply (bury_spec g1 ups dead G d td); try done. by apply (defrag_down g1 ups [d] dead G d).
Qed.

Definition deletes (ty : DepGCTaskType) (d : nat) (g : gc) (dead : list nat) (G : list (DepGCTaskType * list nat)) : Prop :=
  exists g' ups', DeleteTask threshold ty d g = Some g' /\ Inv g' ups' [] (d :: dead) G /\ keeps g g'.

Lemma delete_ep_spec g ups dead G d td :
  Inv g ups [] dead G -> tasks g !! d = Some td -> t_status td = PUSHED -> t_type td = EP_ROW_LIST_DEFRAG -> d ∉ dead ->
  (forall y, y ∈ [d] \/ y ∈ dead -> y ∈ handed G) -> deletes EP_ROW_LIST_DEFRAG d g dead G.
Proof.
  intros I E S Ty Hd HG. assert (key td = (EP_ROW_LIST_DEFRAG, t_id td)) as K by (unfold key; by rewrite Ty).
  assert (task_map g !! (EP_ROW_LIST_DEFRAG, t_id td) = Some d) as Hm by (rewrite <- K; apply (g_reg _ _ _ _ _ (I_graph _ _ _ _ _ I) d td); [done|congruence|done]).
  destruct (I_up _ _ _ _ _ I d td E) as [N1 N2]; [by apply not_elem_of_nil|done|].
  destruct (delete_loop_spec d td (t_id td) (t_up td) g ups dead G) as (g1 & ups1 & E1 & I1 & K1 & U1); try done; [by apply Inv_open|intros u; by rewrite N2|].
  destruct (delete_end g g1 ups1 dead G d td I1 K1 E S) as (ups' & I' & K'); try done; [by rewrite Ty| |].
  { intros y [Hy1 Hy2]%U1. by apply Hy2, N2. }
  exists (erase_key (key td) g1), ups'. split_and!; try done. cbn [DeleteTask]. unfold DeleteEPRowListDefragTask. rewrite E. cbn [mbind option_bind].
  rewrite decide_False by congruence. rewrite decide_True by eauto. rewrite E1. cbn [mbind option_bind]. by rewrite K.
Qed.
Lemma delete_topo_spec g ups dead G d td :
  Inv g ups [] dead G -> tasks g !! d = Some td -> t_status td = PUSHED -> t_type td = TOPO_ROW_LIST_DEFRAG -> d ∉ dead ->
  (forall y, y ∈ [d] \/ y ∈ dead -> y ∈ handed G) -> deletes TOPO_ROW_LIST_DEFRAG d g dead G.
Proof.
  intros I E S Ty Hd HG. assert (key td = (TOPO_ROW_LIST_DEFRAG, t_id td)) as K by (unfold key; by rewrite Ty).
  assert (task_map g !! (TOPO_ROW_LIST_DEFRAG, t_id td) = Some d) as Hm by (rewrite <- K; apply (g_reg _ _ _ _ _ (I_graph _ _ _ _ _ I) d td); [done|congruence|done]).
  destruct (one_up g ups dead G d td TOPO_ROW_LIST_GC (t_id td)) as (u & Eup & Hu); try done; [congruence|by rewrite K|].
  destruct (edge_spec g ups dead G d td u (Inv_open _ _ _ _ _ d I) E) as (tu & Eu & Hne & Ku & C); [by apply Hu|done|].
  rewrite K in Ku. apply list_elem_of_singleton in Ku. assert (t_type tu = TOPO_ROW_LIST_GC) as Tu by (unfold key in Ku; congruence).
  assert (forall g1, Inv g1 (drop_up ups d u) [d] dead G -> keeps g g1 -> exists ups', Inv (erase_key (TOPO_ROW_LIST_DEFRAG, t_id td) g1) ups' [] (d :: dead) G /\
    keeps g (erase_key (TOPO_ROW_LIST_DEFRAG, t_id td) g1)) as Hend.
  { intros g1 I1 K1. rewrite <- K. apply (delete_end g g1 (drop_up ups d u)); try done; [by rewrite Ty|].
    intros y [Hy1 Hy2]%elem_of_drop_up. by apply Hy2, Hu. }
  unfold deletes. cbn [DeleteTask]. unfold DeleteTopoRowListDefragTask. rewrite E. cbn [mbind option_bind].
  rewrite decide_False by congruence. rewrite decide_True by eauto. rewrite Eup. cbn [head mbind option_bind]. rewrite (upd_some u _ _ tu Eu).
  cbn [mbind option_bind]. cbn [tasks set_tasks]. rewrite lookup_insert_eq. cbn [mbind option_bind].
  change (t_status (erase_down d tu)) with (t_status tu). change (t_down (erase_down d tu)) with (filter (fun y => y <> d) (t_down tu)).
  destruct C as [[Su C]|(Su & g1 & E1 & I1 & K1)]; rewrite Su.
  - rewrite decide_True by done. destruct (C _ eq_refl) as [I1 K1]. case_decide; cbn [mbind option_bind].
    + rewrite free_upd. rewrite Ku in *. destruct (Hend _ I1 K1) as (ups' & I' & K'). eexists _, ups'. split_and!; done.
    + destruct (Hend _ I1 K1) as (ups' & I' & K'). eexists _, ups'. split_and!; done.
  - rewrite decide_False, decide_True by done. rewrite Tu in E1. rewrite E1. cbn [mbind option_bind].
    destruct (Hend _ I1 K1) as (ups' & I' & K'). eexists _, ups'. split_and!; done.
Qed.
Lemma delete_vp_spec g ups dead G d td :
  Inv g ups [] dead G -> tasks g !! d = Some td -> t_status td = PUSHED -> t_type td = VP_ROW_LIST_DEFRAG -> d ∉ dead ->
  (forall y, y ∈ [d] \/ y ∈ dead -> y ∈ handed G) -> deletes VP_ROW_LIST_DEFRAG d g dead G.
Proof.
  intros I E S Ty Hd HG. assert (key td = (VP_ROW_LIST_DEFRAG, t_id td)) as K by (unfold key; by rewrite Ty).
  assert (task_map g !! (VP_ROW_LIST_DEFRAG, t_id td) = Some d) as Hm by (rewrite <- K; apply (g_reg _ _ _ _ _ (I_graph _ _ _ _ _ I) d td); [done|congruence|done]).
  destruct (one_up g ups dead G d td VP_ROW_LIST_GC (t_id td)) as (u & Eup & Hu); try done; [congruence|by rewrite K|].
  destruct (edge_spec g ups dead G d td u (Inv_open _ _ _ _ _ d I) E) as (tu & Eu & Hne & Ku & C); [by apply Hu|done|].
  rewrite K in Ku. apply list_elem_of_singleton in Ku. assert (t_type tu = VP_ROW_LIST_GC) as Tu by (unfold key in Ku; congruence).
  assert (forall g1, Inv g1 (drop_up ups d u) [d] dead G -> keeps g g1 -> exists ups', Inv (erase_key (VP_ROW_LIST_DEFRAG, t_id td) g1) ups' [] (d :: dead) G /\
    keeps g (erase_key (VP_ROW_LIST_DEFRAG, t_id td) g1)) as Hend.
  { intros g1 I1 K1. rewrite <- K. apply (delete_end g g1 (drop_up ups d u)); try done; [by rewrite Ty|].
    intros y [Hy1 Hy2]%elem_of_drop_up. by apply Hy2, Hu. }
  unfold deletes. cbn [DeleteTask]. unfold DeleteVPRowListDefragTask. rewrite E. cbn [mbind option_bind].
  rewrite decide_False by congruence. rewrite decide_True by eauto. rewrite Eup. cbn [head mbind option_bind]. rewrite Eu. cbn [mbind option_bind].
  destruct C as [[Su C]|(Su & g1 & E1 & I1 & K1)]; rewrite Su.
  - rewrite decide_True by done. destruct (C _ eq_refl) as [I1 K1]. assert (filter (fun y => y <> d) (t_down tu) = []) as Hf.
    { apply (last_down VP_ROW_LIST_DEFRAG g ups dead G d td u tu); try done; [by apply Inv_open|by apply Hu|]. intros k. unfold key. rewrite Tu. apply vp_gc_keys. }
    rewrite decide_True in I1, K1 by done. cbn [mbind option_bind]. rewrite Ku in *. destruct (Hend _ I1 K1) as (ups' & I' & K'). eexists _, ups'. split_and!; done.
  - rewrite decide_False, decide_True by done. rewrite (upd_some u _ _ tu Eu). cbn [mbind option_bind]. rewrite Tu in E1. rewrite E1. cbn [mbind option_bind].
    destruct (Hend _ I1 K1) as (ups' & I' & K'). eexists _, ups'. split_and!; done.
Qed.

Lemma delete_spec ty ls g ups dead G d :
  Inv g ups [] dead G -> (ty, ls) ∈ G -> d ∈ ls -> d ∉ dead -> (forall y, y ∈ dead -> y ∈ handed G) -> deletes ty d g dead G.
Proof.
  intros I HG Hl Hd Hdead. assert (d ∈ handed G) as Hh by (apply elem_of_handed; eauto).
  destruct (p_hand _ _ _ _ (I_placed _ _ _ _ _ I) ty ls d) as (td & E & Ty & S); [apply elem_of_app; by left|done|].
  assert (forall y, y ∈ [d] \/ y ∈ dead -> y ∈ handed G) as HG' by (intros y [->%list_elem_of_singleton|?]; auto).
  destruct S as [S|S].
  - assert (is_defrag ty = false -> DeleteTask threshold ty = delete_gc_task -> deletes ty d g dead G) as Hgc.
    { intros Hf Heq. destruct (delete_gc_spec g ups dead G d td I E S) as (g' & E' & I' & K'); [congruence|done|].
      exists g', ups. rewrite Heq. done. }
    destruct ty; try (by apply Hgc); [by apply (delete_topo_spec g ups dead G d td)|by apply (delete_vp_spec g ups dead G d td)|by apply (delete_ep_spec g ups dead G d td)].
  - assert (is_defrag ty = true) as Hdf.
    { destruct (is_defrag ty) eqn:Ef; [done|]. rewrite <- Ty in Ef. by destruct (g_gc _ _ _ _ _ (I_graph _ _ _ _ _ I) d td E Ef). }
    exists g, ups. split_and!; [|by apply (bury_invalid g ups dead G d td)|done].
    destruct ty; try done; cbn [DeleteTask]; unfold DeleteTopoRowListDefragTask, DeleteVPRowListDefragTask, DeleteEPRowListDefragTask;
      rewrite E; cbn [mbind option_bind]; by rewrite decide_True.
Qed.
Lemma delete_tasks_spec ty ls r g ups dead G :
  Inv g ups [] dead G -> (ty, ls) ∈ G -> NoDup r -> (forall y, y ∈ r -> y ∈ ls /\ y ∉ dead) -> (forall y, y ∈ dead -> y ∈ handed G) ->
  exists g' ups' dead', delete_tasks threshold ty r g = Some g' /\ Inv g' ups' [] dead' G /\ (forall y, y ∈ dead' <-> y ∈ dead \/ y ∈ r) /\ keeps g g'.
Proof.
  revert g ups dead. induction r as [|d r IH]; intros g ups dead I HG N Hr Hdead.
  { exists g, ups, dead. split_and!; try done. intros y. rewrite elem_of_nil. naive_solver. }
  apply NoDup_cons in N as [N1 N2]. destruct (Hr d ltac:(by left)) as [H1 H2].
  destruct (delete_spec ty ls g ups dead G d I HG H1 H2 Hdead) as (g1 & ups1 & E1 & I1 & K1).
  destruct (IH g1 ups1 (d :: dead) I1 HG N2) as (g' & ups' & dead' & E' & I' & D' & F').
  - intros y Hy. destruct (Hr y ltac:(by right)) as [Hy1 Hy2]. split; [done|]. apply not_elem_of_cons. split; [congruence|done].
  - intros y [->|Hy]%elem_of_cons; [apply elem_of_handed; eauto|by apply Hdead].
  - exists g', ups', dead'. cbn [delete_tasks]. rewrite E1. cbn [mbind option_bind]. split_and!; try done; [|by apply (keeps_trans g g1)].
    intros y. rewrite D', !elem_of_cons. naive_solver.
Qed.

Lemma foldr_free ls g :
  task_map (foldr free g ls) = task_map g /\ jobs (foldr free g ls) = jobs g /\ pending_jobs (foldr free g ls) = pending_jobs g /\
  finished_jobs (foldr free g ls) = finished_jobs g /\ next_task (foldr free g ls) = next_task g /\
  forall y t, tasks (foldr free g ls) !! y = Some t <-> y ∉ ls /\ tasks g !! y = Some t.
Proof.
  induction ls as [|l ls (E1 & E2 & E3 & E4 & E5 & T)]; cbn; split_and!; try done.
  - intros y t. split; [intros E; split; [by apply not_elem_of_nil|done]|by intros [_ E]].
  - intros y t. rewrite lookup_delete_Some, T, not_elem_of_cons. naive_solver.
Qed.
(** The tasks of a finished job are freed. *)
Lemma finish_free g ups dead ty ls :
  Inv g ups [] dead [(ty, ls)] -> (forall y, y ∈ dead <-> y ∈ ls) -> Inv (foldr free g ls) ups [] [] [].
Proof.
  intros I Hd. pose proof (I_graph _ _ _ _ _ I) as G0. pose proof (I_placed _ _ _ _ _ I) as P. destruct (foldr_free ls g) as (E1 & E2 & E3 & E4 & E5 & T).
  assert (handed ([(ty, ls)] ++ pending_jobs g ++ finished_jobs g) = ls ++ handed (pending_jobs g ++ finished_jobs g)) as Eh by (unfold handed; done).
  pose proof (p_nodup_h _ _ _ _ P) as N. rewrite Eh in N. apply NoDup_app in N as (_ & N1 & N2).
  assert (forall ty l, l ∈ j_tasks (jobs g ty) -> l ∉ ls /\ l ∉ handed (pending_jobs g ++ finished_jobs g)) as Hj.
  { intros ty' l Hl%(p_disj _ _ _ _ P). rewrite Eh in Hl. by apply not_elem_of_app in Hl. }
  assert (forall ty, Forall (fun l => tasks (foldr free g ls) !! l = tasks g !! l) (j_tasks (jobs g ty))) as Hs.
  { intros ty'. apply Forall_forall. intros l Hl. destruct (p_job _ _ _ _ P ty' l Hl) as (t & E & _). rewrite E. apply T. split; [by apply (Hj ty')|done]. }
  split; rewrite ?E1, ?E2, ?E3, ?E4, ?E5.
  - split.
    + intros k l Hm. destruct (g_map _ _ _ _ _ G0 k l Hm) as (t & E & ?). exists t. split; [|done]. apply T. split; [|done].
      intros Hl%Hd. by destruct (g_dead _ _ _ _ _ G0 l Hl) as (_ & _ & B); apply (B k).
    + intros l t [Hl E]%T S _. apply (g_reg _ _ _ _ _ G0); [done..|by rewrite Hd].
    + intros l t [Hl E]%T. by apply (g_down _ _ _ _ _ G0).
    + intros d l Hu. destruct (g_ups _ _ _ _ _ G0 d l Hu) as (td & t & H1 & H2 & K). exists td, t. rewrite !T. split_and!; try done; intros Hx%Hd;
        destruct (g_dead _ _ _ _ _ G0 _ Hx) as (B1 & B2 & _); [by apply (B1 l)|by apply (B2 d)].
    + intros l t [Hl E]%T Hx _. destruct (g_stat _ _ _ _ _ G0 l t E Hx) as [Q1 Q2]; [by rewrite Hd|]. split; [done|]. destruct (is_defrag _); [done|].
      destruct (t_status t); try done. destruct Q2 as (Q2 & Q3 & Q4). split_and!; try done. intros d Hdn. destruct (Q4 d Hdn) as (td & Ed & Sd). exists td.
      rewrite T. split_and!; try done. intros Hx'%Hd. destruct (g_dead _ _ _ _ _ G0 d Hx') as (B1 & _). by apply (B1 l), (g_down _ _ _ _ _ G0 l t E).
    + intros d td k [Hl E]%T S Hx _ Hk. apply (g_complete _ _ _ _ _ G0 d td k); try done. by rewrite Hd.
    + by intros d ?%elem_of_nil.
    + intros l t [Hl E]%T. by apply (g_gc _ _ _ _ _ G0 l).
  - split.
    + intros ty' l Hl. destruct (p_job _ _ _ _ P ty' l Hl) as (t & E & ?). exists t. split; [|done]. apply T. split; [by apply (Hj ty')|done].
    + intros ty' ls' l H1 H2. destruct (p_hand _ _ _ _ P ty' ls' l) as (t & E & ?); [by right|done|]. exists t. split; [|done]. apply T. split; [|done].
      intros Hx. apply (N1 l Hx), elem_of_handed. eauto.
    + apply P.
    + done.
    + intros ty' l Hl. by apply (Hj ty').
    + intros l t [Hl E]%T. by apply (p_active _ _ _ _ P).
    + intros l t [Hl E]%T S. pose proof (p_pushed _ _ _ _ P l t E S) as H. rewrite Eh in H. by apply elem_of_app in H as [|].
    + intros ty'. rewrite (p_blocked _ _ _ _ P). apply zsum_ext. intros l Hl. unfold blocked_of. pose proof (Hs ty') as F. rewrite Forall_forall in F. by rewrite F.
    + intros ty'. rewrite (p_cost _ _ _ _ P). apply zsum_ext. intros l Hl. unfold cost_of. pose proof (Hs ty') as F. rewrite Forall_forall in F. by rewrite F.
    + intros ty' ls' Hin. apply (p_nonempty _ _ _ _ P ty'). by right.
  - intros l [t [_ E]%T]. apply I. by eexists.
  - intros d td [Hl E]%T Hx _. apply (I_up _ _ _ _ _ I d td); [done..|by rewrite Hd].
  - intros d td [Hl E]%T. by apply (I_inv _ _ _ _ _ I).
Qed.

(** The producer's round over a finished job succeeds, and frees its tasks. *)
Lemma gc_finish_spec g :
  safe g -> exists g', check_finished_job threshold g = Some g' /\ safe g' /\ (finished_jobs g <> [] -> (size (tasks g') < size (tasks g))%nat).
Proof.
  intros [ups I]. unfold check_finished_job. destruct (finished_jobs g) as [|[ty ls] rest] eqn:Ef; [exists g; split; [done|split; [by exists ups|done]]|].
  set (g0 := mk_gc _ _ _ _ _ _). assert (Inv g0 ups [] [] [(ty, ls)]) as I0.
  { split; try apply I. cbn. apply (placed_perm _ _ (pending_jobs g ++ finished_jobs g)); [|apply I]. rewrite Ef. symmetry. apply Permutation_middle. }
  destruct (delete_tasks_spec ty ls ls g0 ups [] [(ty, ls)] I0) as (g1 & ups1 & dead & E1 & I1 & D1 & (_ & K1 & K2)).
  - by left.
  - pose proof (p_nodup_h _ _ _ _ (I_placed _ _ _ _ _ I0)) as N. unfold handed in N. cbn in N. by apply NoDup_app in N as (N & _).
  - intros y Hy. split; [done|by apply not_elem_of_nil].
  - by intros y ?%elem_of_nil.
  - rewrite E1. cbn [mbind option_bind]. eexists. split; [done|]. split.
    { exists ups1. apply (finish_free g1 ups1 dead ty ls I1). intros y. rewrite D1, elem_of_nil. naive_solver. }
    intros _. rewrite <- !size_dom. apply subset_size. destruct (foldr_free ls g1) as (_ & _ & _ & _ & _ & T).
    destruct ls as [|l ls]; [by destruct (p_nonempty _ _ _ _ (I_placed _ _ _ _ _ I0) ty []); [left|]|].
    destruct (p_hand _ _ _ _ (I_placed _ _ _ _ _ I0) ty (l :: ls) l) as (t & E & _); [by left..|]. split.
    + intros y. rewrite !elem_of_dom. intros [t' [_ E']%T]. apply (K2 y). by eexists.
    + intros Hs. assert (l ∈ dom (tasks g)) as Hl by (apply elem_of_dom; by exists t). apply Hs, elem_of_dom in Hl as [t' [Hn _]%T]. apply Hn. by left.
Qed.

(** ** Executed jobs *)

(** The checks of the consumers hold. *)
Lemma execute_tasks_spec g ups ty ls :
  Inv g ups [] [] [] -> (forall l, l ∈ ls -> exists t, tasks g !! l = Some t /\ t_type t = ty /\ (t_status t = PUSHED \/ t_status t = INVALID)) ->
  is_Some (execute_tasks ty ls g).
Proof.
  intros I. induction ls as [|l ls IH]; intros H; [by eexists|]. cbn. destruct (H l ltac:(by left)) as (t & E & Ty & S). rewrite E. cbn [mbind option_bind].
  destruct IH as [r Er]; [intros; apply H; by right|]. pose proof (I_graph _ _ _ _ _ I) as G0.
  destruct (g_stat _ _ _ _ _ G0 l t E) as [Q _]; [by apply not_elem_of_nil..|]. destruct S as [S|S].
  - rewrite bool_decide_false by congruence. rewrite andb_false_r. rewrite decide_True by (split; [done|apply Q; congruence]). rewrite Er. by eexists.
  - rewrite bool_decide_true by done. destruct (is_defrag ty) eqn:Ed; [rewrite Er; by eexists|]. rewrite <- Ty in Ed. by destruct (g_gc _ _ _ _ _ G0 l t E Ed).
Qed.
Lemma execute_spec n g : safe g -> (n < length (pending_jobs g))%nat -> exists g', Execute n g = Some g' /\ safe g'.
Proof.
  intros [ups I] Hn. apply lookup_lt_is_Some in Hn as [[ty ls] En]. unfold Execute. rewrite En. cbn [mbind option_bind].
  destruct (execute_tasks_spec g ups ty ls I) as [r ->].
  { intros l Hl. apply (p_hand _ _ _ _ (I_placed _ _ _ _ _ I) ty ls l); [|done]. apply elem_of_app. right. apply elem_of_app. left. by apply list_elem_of_lookup_2 in En. }
  cbn [mbind option_bind]. eexists. split; [done|]. exists ups. split; try apply I. cbn.
  apply (placed_perm _ _ (pending_jobs g ++ finished_jobs g)); [|apply I].
  rewrite (delete_Permutation _ _ _ En) at 1. cbn. rewrite (app_assoc (delete n _)). apply Permutation_cons_append.
Qed.

(** ** Rehashed sets *)

Lemma rehash_spec g l t up down :
  safe g -> tasks g !! l = Some t -> up ≡ₚ t_up t -> down ≡ₚ t_down t -> safe (set_tasks (<[l := with_up up (with_down down t)]> (tasks g)) g).
Proof.
  intros [ups I] E Hu Hd. exists ups. set (t' := with_up up (with_down down t)). pose proof (I_graph _ _ _ _ _ I) as G0.
  destruct (g_down _ _ _ _ _ G0 l t E) as [N1 N2]. split; cbn.
  - apply (graph_upd _ _ _ _ _ l t); try done. intros _ _ Q. destruct (g_stat _ _ _ _ _ G0 l t E) as [Q1 Q2]; [by apply not_elem_of_nil..|].
    assert (t_down t = [] <-> down = []) as Hn by (split; intros Hx; rewrite Hx in Hd; [by apply Permutation_nil_r in Hd|symmetry in Hd; by apply Permutation_nil_r in Hd]).
    split; [done|]. cbn. destruct (is_defrag _); [done|]. destruct (t_status t) eqn:S; try done.
    + destruct Q2 as [Q2 Q3]. by rewrite <- Hn.
    + destruct Q2 as [Q2 Q3]. by rewrite <- Hn.
    + destruct Q2 as (Q2 & Q3 & Q4). rewrite <- Hn. split_and!; [done|by rewrite (Permutation_length Hd)|]. intros d Hx. rewrite Hd in Hx. destruct (Q4 d Hx) as (td & Ed & Sd). exists td.
      rewrite lookup_insert_ne; [done|congruence].
    + destruct Q2 as [Q2 Q3]. by rewrite <- Hn.
  - apply (placed_ext (tasks g) _ _ _ []); [apply I|done|]. intros l'. left. destruct (decide (l' = l)) as [->|Hne]; [by rewrite lookup_insert_eq, E|by rewrite lookup_insert_ne].
  - intros l'. destruct (decide (l' = l)) as [->|Hne]; [|rewrite lookup_insert_ne by done; apply I]. intros _. apply I. by eexists.
  - intros d td. destruct (decide (d = l)) as [->|Hne]; [|rewrite lookup_insert_ne by done; apply I]. rewrite lookup_insert_eq. intros [= <-] H1 H2. cbn.
    destruct (I_up _ _ _ _ _ I l t E H1 H2) as [M1 M2]. split; [by rewrite Hu|]. intros y. by rewrite Hu.
  - intros d td. destruct (decide (d = l)) as [->|Hne]; [|rewrite lookup_insert_ne by done; apply I]. rewrite lookup_insert_eq. intros [= <-]. by apply (I_inv _ _ _ _ _ I l t).
Qed.

(** ** Every step of the collector *)

Lemma init_safe : safe gc_init.
Proof.
  exists (fun _ => []). split; cbn; try (by intros; set_solver).
  - split; cbn; try (intros; set_solver); intros; try constructor.
  - split; cbn; try (intros; set_solver); intros; try constructor.
  - by intros l [? ?].
Qed.
Lemma step_safe g g' : gc_step threshold g g' -> safe g -> safe g'.
Proof.
  assert (forall r g2, (exists g1, r = Some g1 /\ safe g1) -> r = Some g2 -> safe g2) as Hdet by (intros r g2 (g1 & -> & ?) [= <-]; done).
  intros H S. destruct H.
  - by eapply topo_gc_spec.
  - eapply Hdet; [by apply topo_defrag_spec|done].
  - eapply Hdet; [by apply vp_gc_spec|done].
  - eapply Hdet; [by apply vp_defrag_spec|done].
  - eapply Hdet; [by apply ep_gc_spec|done].
  - eapply Hdet; [by apply ep_defrag_spec|done].
  - eapply Hdet; [|done]. apply execute_spec; [done|]. unfold Execute in H. destruct (pending_jobs g !! n) eqn:E; [by apply lookup_lt_Some in E|done].
  - destruct (gc_finish_spec g S) as (g1 & E & S1 & _). congruence.
  - by apply rehash_spec.
Qed.
(** The states that the collector reaches from its start. *)
Definition reachable (g : gc) : Prop := rtc (gc_step threshold) gc_init g.
Lemma reachable_safe g : reachable g -> safe g.
Proof. intros R. pose proof init_safe as S. induction R as [|g1 g2 g3 H1 _ IH]; [done|]. apply IH. by apply (step_safe g1). Qed.

(** ** The theorems *)


(** No check of the producer or the consumers fails in a reachable state, but for
    one; freeing topology succeeds when no defragmentation of an edge is active
    downstream. *)
Theorem gc_checks_hold g :
  reachable g ->
  (forall p v c, p <> 0 -> is_Some (spawn_topo_row_list_defrag_gctask threshold p v c g) /\ is_Some (spawn_vp_row_list_gctask threshold p v g) /\
     is_Some (spawn_vp_row_defrag_gctask threshold p v c g)) /\
  (forall p e c, p <> 0 -> is_Some (spawn_ep_row_list_gctask threshold p e g) /\ is_Some (spawn_ep_row_defrag_gctask threshold p e c g)) /\
  (forall n, (n < length (pending_jobs g))%nat -> is_Some (Execute n g)) /\ is_Some (check_finished_job threshold g) /\
  (forall p v, p <> 0 ->
     (forall l t d td, task_map g !! (TOPO_ROW_LIST_GC, IdV v) = Some l -> tasks g !! l = Some t -> d ∈ t_down t -> tasks g !! d = Some td ->
        t_type td = EP_ROW_LIST_DEFRAG -> t_status td <> ACTIVE) ->
     is_Some (spawn_topo_row_list_gctask threshold p v g)).
Proof.
  intros R. pose proof (reachable_safe g R) as S. assert (forall r, (exists g1, r = Some g1 /\ safe g1) -> is_Some r) as Hs by (intros r (g1 & -> & _); by eexists).
  split_and!.
  - intros p v c Hp. split_and!; apply Hs; [by apply topo_defrag_spec|by apply vp_gc_spec|by apply vp_defrag_spec].
  - intros p e c Hp. split_and!; apply Hs; [by apply ep_gc_spec|by apply ep_defrag_spec].
  - intros n Hn. apply Hs. by apply execute_spec.
  - destruct (gc_finish_spec g S) as (g' & -> & _). by eexists.
  - intros p v Hp Hn. apply Hs. apply topo_gc_total; [done..|]. intros l t d Hm E _ Hd (td & Ed & Sd & Td). by apply (Hn l t d td).
Qed.

Lemma zsum_0 f ls : (forall l, l ∈ ls -> f l = 0) -> zsum f ls = 0.
Proof. intros H. rewrite (zsum_ext f (fun _ => 0) ls H). clear H. by induction ls. Qed.

(** The rounds of the consumers and the producer when nothing is spawned. *)
Definition drain (g g' : gc) : Prop := Execute 0 g = Some g' \/ check_finished_job threshold g = Some g'.
Lemma drain_spec g : safe g -> exists g', rtc drain g g' /\ safe g' /\ pending_jobs g' = [] /\ finished_jobs g' = [].
Proof.
  remember (size (tasks g)) as n eqn:En. revert g En. induction (lt_wf n) as [n _ IHn]. intros g En.
  remember (length (pending_jobs g)) as m eqn:Em. revert g En Em. induction (lt_wf m) as [m _ IHm]. intros g En Em S.
  destruct (pending_jobs g) as [|j js] eqn:Ep.
  - destruct (finished_jobs g) as [|j js] eqn:Ef; [exists g; by split_and!|].
    destruct (gc_finish_spec g S) as (g1 & E1 & S1 & L1). destruct (IHn (size (tasks g1)) ltac:(rewrite En; apply L1; by rewrite Ef) g1 eq_refl S1) as (g' & R & H').
    exists g'. split; [|done]. apply (rtc_l _ g g1); [by right|done].
  - destruct (execute_spec 0 g S) as (g1 & E1 & S1); [rewrite Ep; cbn; lia|].
    assert (tasks g1 = tasks g /\ pending_jobs g1 = js) as [T1 P1].
    { unfold Execute in E1. rewrite Ep in E1. cbn in E1. destruct j as [ty ls]. destruct (execute_tasks ty ls g); [|done]. cbn in E1. by injection E1 as <-. }
    destruct (IHm (length js) ltac:(rewrite Em; cbn; lia) g1) as (g' & R & H'); [by rewrite T1|by rewrite P1|done|].
    exists g'. split; [|done]. apply (rtc_l _ g g1); [by left|done].
Qed.

Lemma quiet_unblocked g :
  safe g -> pending_jobs g = [] -> finished_jobs g = [] -> forall l t, tasks g !! l = Some t -> t_status t <> BLOCKED /\ t_status t <> PUSHED.
Proof.
  intros [ups I] Hp Hf. pose proof (I_graph _ _ _ _ _ I) as G0. pose proof (I_placed _ _ _ _ _ I) as P. rewrite Hp, Hf in P. cbn in P.
  assert (forall l t, tasks g !! l = Some t -> t_status t <> PUSHED) as Hnp by (intros l t E S; by apply (p_pushed _ _ _ _ P l t E), elem_of_nil in S).
  intros l t E. split; [|by apply (Hnp l)]. intros S. destruct (g_stat _ _ _ _ _ G0 l t E) as [_ Q]; [by apply not_elem_of_nil..|].
  rewrite S in Q. destruct (is_defrag _); [naive_solver|]. destruct Q as (Q1 & _ & Q3). destruct (t_down t) as [|d r]; [done|].
  destruct (Q3 d) as (td & Ed & Sd); [by left|]. by apply (Hnp d td).
Qed.

(** C16: when nothing is spawned any more, the consumers and the producer reach a state
    in which all jobs that were handed over are finished; no task is blocked then,
    and no job waits for one. *)
Theorem gc_drains g :
  reachable g ->
  exists g', rtc drain g g' /\ pending_jobs g' = [] /\ finished_jobs g' = [] /\
    (forall l t, tasks g' !! l = Some t -> t_status t <> BLOCKED /\ t_status t <> PUSHED) /\ (forall ty, sum_blocked_count (jobs g' ty) = 0).
Proof.
  intros R%reachable_safe. destruct (drain_spec g R) as (g' & D & S & Hp & Hf). pose proof (quiet_unblocked g' S Hp Hf) as Hnb. exists g'. split_and!; try done.
  destruct S as [ups I]. intros ty. rewrite (p_blocked _ _ _ _ (I_placed _ _ _ _ _ I)). apply zsum_0. intros l Hl. unfold blocked_of.
  destruct (tasks g' !! l) as [t|] eqn:E; [|done]. destruct (g_stat _ _ _ _ _ (I_graph _ _ _ _ _ I) l t E) as [_ Q]; [by apply not_elem_of_nil..|].
  destruct (Hnb l t E) as [N1 N2]. destruct (is_defrag _); [by destruct Q|]. destruct (t_status t); try done; by destruct Q.
Qed.

(** C37: freeing the topology of a vertex fails a check of the producer when two
    defragmentations of properties of its edges wait below it, or one waits while
    another task is executed: the producer expects that the task which it is
    inserting has no other task downstream. *)
Theorem topo_check_fails g p v l t d td d' td' :
  reachable g -> p <> 0 ->
  task_map g !! (TOPO_ROW_LIST_GC, IdV v) = Some l -> tasks g !! l = Some t -> t_status t = EMPTY -> d ∈ t_down t -> d' ∈ t_down t -> d' <> d ->
  tasks g !! d = Some td -> t_type td = EP_ROW_LIST_DEFRAG -> t_status td = ACTIVE ->
  tasks g !! d' = Some td' -> t_type td' = EP_ROW_LIST_DEFRAG \/ t_status td' = PUSHED ->
  spawn_topo_row_list_gctask threshold p v g = None.
Proof.
  intros R%reachable_safe Hp Hm E S Hd Hd' Hne Ed Td Sd Ed' H'. apply (topo_gc_fails threshold g (IdV v) p l t d d'); try done; [by exists td|].
  intros td2 E2. destruct H'; [right|left]; congruence.
Qed.
End Dag.

(** ** Runs *)

Definition threshold0 (ty : DepGCTaskType) : Z := if is_defrag ty then 5 else 2.
Definition gc_run (fs : list (gc -> option gc)) : gc := default gc_init (foldl (fun r f => r ≫= f) (Some gc_init) fs).

(** Two edges of vertex 7 are to be defragmented. *)
Definition gc_edges : gc :=
  gc_run [spawn_ep_row_defrag_gctask threshold0 100 (mk_eid 1 7) 2; spawn_ep_row_defrag_gctask threshold0 200 (mk_eid 2 7) 2].
Lemma gc_edges_reachable : reachable threshold0 gc_edges.
Proof.
  eapply rtc_l; [eapply (gs_ep_defrag _ 100 (mk_eid 1 7) 2); [lia|vm_compute; reflexivity]|].
  eapply rtc_l; [eapply (gs_ep_defrag _ 200 (mk_eid 2 7) 2); [lia|vm_compute; reflexivity]|]. vm_compute. apply rtc_refl.
Qed.
Lemma topo_check_fails_witness : spawn_topo_row_list_gctask threshold0 300 7 gc_edges = None.
Proof.
  exact (topo_check_fails threshold0 gc_edges 300 7 0%nat
    (mk_task TOPO_ROW_LIST_GC (IdV 7) 0 1 EMPTY 0 [] [3%nat; 1%nat]) 3%nat
    (mk_task EP_ROW_LIST_DEFRAG (IdE (mk_eid 2 7) 200) 200 2 ACTIVE 0 [4%nat; 0%nat] []) 1%nat
    (mk_task EP_ROW_LIST_DEFRAG (IdE (mk_eid 1 7) 100) 100 2 ACTIVE 0 [2%nat; 0%nat] [])
    gc_edges_reachable ltac:(lia) ltac:(vm_compute; reflexivity) ltac:(vm_compute; reflexivity) eq_refl
    ltac:(by left) ltac:(by right; left) ltac:(lia) ltac:(vm_compute; reflexivity) eq_refl eq_refl ltac:(vm_compute; reflexivity) ltac:(by left)).
Defined.

(** The rows of vertex 7 are defragmented while the topology of the vertex is to be
    freed: the free waits until the defragmentation is finished. *)
Definition gc_blocked : gc :=
  gc_run [spawn_topo_row_list_defrag_gctask threshold0 100 7 5; spawn_topo_row_list_gctask threshold0 100 7; spawn_vp_row_list_gctask threshold0 400 8;
    spawn_topo_row_list_gctask threshold0 500 9].
Lemma gc_blocked_reachable : reachable threshold0 gc_blocked.
Proof.
  eapply rtc_l; [eapply (gs_topo_defrag _ 100 7 5); [lia|vm_compute; reflexivity]|].
  eapply rtc_l; [eapply (gs_topo_gc _ 100 7); [lia|vm_compute; reflexivity]|].
  eapply rtc_l; [eapply (gs_vp_gc _ 400 8); [lia|vm_compute; reflexivity]|].
  eapply rtc_l; [eapply (gs_topo_gc _ 500 9); [lia|vm_compute; reflexivity]|]. vm_compute. apply rtc_refl.
Qed.
Lemma gc_checks_hold_witness : length (pending_jobs gc_blocked) = 1%nat /\ is_Some (Execute 0 gc_blocked) /\ is_Some (check_finished_job threshold0 gc_blocked).
Proof.
  assert (length (pending_jobs gc_blocked) = 1%nat) as H1 by (vm_compute; reflexivity).
  pose proof (gc_checks_hold threshold0 gc_blocked gc_blocked_reachable) as (_ & _ & H2 & H3 & _).
  exact (conj H1 (conj (H2 0%nat ltac:(rewrite H1; lia)) H3)).
Defined.
Lemma gc_drains_witness :
  sum_blocked_count (jobs gc_blocked TOPO_ROW_LIST_GC) = 1 /\
  exists g', rtc (drain threshold0) gc_blocked g' /\ pending_jobs g' = [] /\ finished_jobs g' = [] /\
    (forall l t, tasks g' !! l = Some t -> t_status t <> BLOCKED /\ t_status t <> PUSHED) /\ (forall ty, sum_blocked_count (jobs g' ty) = 0).
Proof. exact (conj eq_refl (gc_drains threshold0 gc_blocked gc_blocked_reachable)). Defined.
(** In the run, finishing the defragmentation hands over the job that frees the
    topology of the vertices 7 and 9, and finishing this one frees all its tasks. *)
Example gc_blocked_drained :
  let run n := foldl (fun r f => r ≫= f) (Some gc_blocked) (take n [Execute 0; check_finished_job threshold0; Execute 0; check_finished_job threshold0]) in
  pending_jobs <$> run 2%nat = Some [(TOPO_ROW_LIST_GC, [1%nat; 3%nat])] /\ (map_to_list ∘ tasks) <$> run 4%nat = Some [(2%nat, mk_task VP_ROW_LIST_GC (IdV 8) 400 1 ACTIVE 0 [] [])].
Proof. by vm_compute. Qed.
