(* ===== verification/CellPool.v ===== *)
(** * layout/concurrent_mem_pool: pools of cells

    A pool hands out cells of a preallocated array.  Free cells form chains
    through the array [next_offset_]: a shared chain and one chain per thread.
    A thread works on its own chain and exchanges blocks of [BLOCK_SIZE] cells
    with the shared one under a lock, so the operations of different threads
    are modelled as steps that follow each other.  [None] is a failed
    [assert] or an access outside of an array.

    The first part is about chains, shared by [ConcurrentMemPool] here and by
    the value store, which links its cells in the same way. *)
From S2P Require Import Prelude.
Local Open Scope nat_scope.

(** ** Chains *)

(** [k] steps along the links. *)
Fixpoint walk (next : list nat) (x k : nat) : option nat :=
  match k with O => Some x | S k' => y ← next !! x; walk next y k' end.

Fixpoint linked (next : list nat) (xs : list nat) : Prop :=
  match xs with
  | a :: ((b :: _) as t) => next !! a = Some b /\ linked next t
  | _ => True
  end.

Definition chain (next : list nat) (hd tl : nat) (xs : list nat) : Prop :=
  head xs = Some hd /\ last xs = Some tl /\ linked next xs.

Section Chains.
Implicit Types (next xs ys : list nat).

Lemma linked_cons next a b xs : linked next (a :: b :: xs) <-> next !! a = Some b /\ linked next (b :: xs).
Proof. done. Qed.

Lemma linked_app next xs y ys :
  linked next (xs ++ y :: ys) <-> linked next (xs ++ [y]) /\ linked next (y :: ys).
Proof.
  induction xs as [|a xs IH]; [cbn; tauto|].
  destruct xs as [|b xs]; [cbn [app]; rewrite !linked_cons; cbn; tauto|].
  cbn [app] in *. rewrite !linked_cons, IH. tauto.
Qed.

(** The link of the last cell does not matter. *)
Lemma linked_agree next next' xs t : (forall x, x ∈ xs -> next' !! x = next !! x) ->
  linked next (xs ++ [t]) -> linked next' (xs ++ [t]).
Proof.
  induction xs as [|a xs IH]; intros Hag; [done|]. destruct xs as [|b xs].
  - cbn. intros [H _]. rewrite Hag; [done|by left].
  - cbn [app]. rewrite !linked_cons. intros [H1 H2]. split; [rewrite Hag; [done|by left]|].
    apply IH; [|done]. intros x Hx. apply Hag. by right.
Qed.

Lemma chain_snoc next hd tl xs : chain next hd tl xs -> exists ys, xs = ys ++ [tl].
Proof.
  intros (_ & Hl & _). destruct xs as [|x xs _] using rev_ind; [done|].
  rewrite last_snoc in Hl. injection Hl as ->. by exists xs.
Qed.

Lemma chain_agree next next' hd tl xs : (forall x, x ∈ xs -> x <> tl -> next' !! x = next !! x) ->
  NoDup xs -> chain next hd tl xs -> chain next' hd tl xs.
Proof.
  intros Hag Hnd Hc. destruct (chain_snoc _ _ _ _ Hc) as [ys ->]. destruct Hc as (H1 & H2 & H3).
  split; [done|]. split; [done|]. revert H3. apply linked_agree. intros x Hx. apply Hag; [set_solver|].
  intros ->. apply NoDup_app in Hnd as (_ & Hd & _). by apply (Hd tl Hx), list_elem_of_singleton.
Qed.

Lemma chain_walk next hd tl xs k : chain next hd tl xs -> k < length xs -> walk next hd k = xs !! k.
Proof.
  intros (Hh & _ & Hl). revert hd xs Hh Hl. induction k as [|k IH]; intros hd [|a xs] Hh Hl Hk; cbn in Hk; try lia.
  - done.
  - injection Hh as ->. destruct xs as [|b xs]; [cbn in Hk; lia|]. destruct Hl as [Hab Hl].
    cbn [walk]. rewrite Hab. cbn. apply IH; [done|done|lia].
Qed.

(** Cutting a chain. *)
Lemma chain_split next hd tl xs y ys m : chain next hd tl (xs ++ y :: ys) -> last xs = Some m ->
  chain next hd m xs /\ next !! m = Some y /\ chain next y tl (y :: ys).
Proof.
  intros (Hh & Hl & Hk) Hm. apply linked_app in Hk as [Hk1 Hk2].
  destruct xs as [|x xs _] using rev_ind; [done|]. rewrite last_snoc in Hm. injection Hm as ->.
  rewrite <- app_assoc in Hk1. cbn [app] in Hk1. apply linked_app in Hk1 as [Hk1 Hmy]. split_and!.
  - split; [|by rewrite last_snoc]. by destruct xs.
  - by destruct Hmy.
  - split; [done|]. split; [|done]. rewrite last_app, last_cons in Hl. rewrite last_cons. by destruct (last ys).
Qed.

(** Appending a chain to another one by a link from its last cell. *)
Lemma chain_join next h1 t1 h2 t2 xs ys : chain next h1 t1 xs -> chain next h2 t2 ys ->
  NoDup (xs ++ ys) -> t1 < length next -> chain (<[t1 := h2]> next) h1 t2 (xs ++ ys).
Proof.
  intros Hx Hy Hnd Hlt. destruct (chain_snoc _ _ _ _ Hx) as [xs' ->].
  apply NoDup_app in Hnd as (Hnx & Hd & Hny).
  assert (chain (<[t1 := h2]> next) h1 t1 (xs' ++ [t1])) as (H1 & H2 & H3).
  { apply (chain_agree next); [|done|done]. intros x _ Hne. by apply list_lookup_insert_ne. }
  assert (chain (<[t1 := h2]> next) h2 t2 ys) as (H4 & H5 & H6).
  { apply (chain_agree next); [|done|done]. intros x Hin _. apply list_lookup_insert_ne. intros <-.
    apply (Hd t1); [set_solver|done]. }
  destruct ys as [|y ys]; [done|]. injection H4 as ->. split_and!.
  - destruct xs'; done.
  - rewrite last_app, last_cons. rewrite last_cons in H5. by destruct (last ys).
  - apply linked_app. split; [|done]. rewrite <- app_assoc. cbn [app]. apply linked_app. split; [done|].
    cbn. split; [by apply list_lookup_insert_eq|done].
Qed.

Lemma chain_seq next a n : 0 < n -> (forall i, a <= i < a + n -> next !! i = Some (S i)) ->
  chain next a (a + n - 1) (seq a n).
Proof.
  intros Hn. revert a. induction n as [|[|n] IH]; intros a Hnx; [lia| |].
  - split; [done|]. split; [|done]. change (Some a = Some (a + 1 - 1)). f_equal. lia.
  - destruct (IH ltac:(lia) (S a)) as (H1 & H2 & H3); [intros; apply Hnx; lia|].
    split; [done|]. split.
    + cbn [seq] in *. rewrite last_cons_cons. rewrite H2. f_equal. lia.
    + cbn [seq] in *. split; [apply Hnx; lia|done].
Qed.
End Chains.

(** ** The pool *)

(** [ThreadLocalBlock] (layout/concurrent_mem_pool.hpp:109-114). *)
Record ThreadLocalBlock := mk_block {
  block_head : nat; block_tail : nat; free_cell_count : nat; get_counter : Z; free_counter : Z;
}.

(** [ConcurrentMemPool] (layout/concurrent_mem_pool.hpp:94-120). *)
Record Pool := mk_pool {
  next_offset : list nat; cell_count : nat; head_ : nat; tail_ : nat; blocks : list ThreadLocalBlock;
}.

Section Pool.
(** The template parameter [BLOCK_SIZE]. *)
Context (BLOCK_SIZE : nat).
Implicit Types (st : Pool) (b : ThreadLocalBlock).

(** The blocks that [Init] gives to the threads, and the head that is left
    (layout/concurrent_mem_pool.tpp:53-63). *)
Fixpoint init_blocks (n head : nat) : list ThreadLocalBlock * nat :=
  match n with
  | O => ([], head)
  | S n' =>
      let '(bs, h) := init_blocks n' (head + BLOCK_SIZE) in
      (mk_block head (head + BLOCK_SIZE - 1) BLOCK_SIZE 0 0 :: bs, h)
  end.

(** [ConcurrentMemPool::Init] (layout/concurrent_mem_pool.tpp:24-69). *)
Definition Init (cells nthreads : nat) : option Pool :=
  if nthreads * (BLOCK_SIZE + 2) <? cells then
    let '(bs, h) := init_blocks nthreads 0 in
    Some (mk_pool (S <$> seq 0 cells) cells h (cells - 1) bs)
  else None.

(** The loop that moves cells from the shared block
    (layout/concurrent_mem_pool.tpp:84-89): the new head and the new tail of
    the thread's block. *)
Fixpoint fetch_loop (next : list nat) (tail k tmp_head tl : nat) : option (nat * nat) :=
  match k with
  | O => Some (tmp_head, tl)
  | S k' =>
      let tl' := if k' =? 0 then tmp_head else tl in
      t ← next !! tmp_head;
      if t =? tail then None else fetch_loop next tail k' t tl'
  end.

(** A thread fetches a block from the shared block
    (layout/concurrent_mem_pool.tpp:80-91). *)
Definition fetch st (tid : nat) b : option Pool :=
  let next := <[block_tail b := head_ st]> (next_offset st) in
  '(hd, tl) ← fetch_loop next (tail_ st) BLOCK_SIZE (head_ st) (block_tail b);
  Some (mk_pool next (cell_count st) hd (tail_ st)
    (<[tid := mk_block (block_head b) tl (free_cell_count b + BLOCK_SIZE) (get_counter b) (free_counter b)]> (blocks st))).

(** [ConcurrentMemPool::Get] (layout/concurrent_mem_pool.tpp:72-102). *)
Definition Get st (tid : nat) : option (nat * Pool) :=
  b ← blocks st !! tid;
  n ← next_offset st !! block_head b;
  st1 ← (if n =? block_tail b then fetch st tid b else Some st);
  b1 ← blocks st1 !! tid;
  n1 ← next_offset st1 !! block_head b1;
  Some (block_head b1,
    mk_pool (next_offset st1) (cell_count st1) (head_ st1) (tail_ st1)
      (<[tid := mk_block n1 (block_tail b1) (free_cell_count b1 - 1)
                  (u32 (get_counter b1 + 1)) (free_counter b1)]> (blocks st1))).

(** A thread gives its first [n] cells back to the shared block
    (layout/concurrent_mem_pool.tpp:116-130). *)
Definition give_back st (tid : nat) b (n : nat) : option Pool :=
  tmp_tail ← walk (next_offset st) (block_head b) (n - 1);
  nh ← next_offset st !! tmp_tail;
  Some (mk_pool (<[tail_ st := block_head b]> (next_offset st)) (cell_count st) (head_ st) tmp_tail
    (<[tid := mk_block nh (block_tail b) (free_cell_count b - n) (get_counter b) (free_counter b)]> (blocks st))).

(** [ConcurrentMemPool::Free] (layout/concurrent_mem_pool.tpp:105-134). *)
Definition Free st (cell tid : nat) : option Pool :=
  b ← blocks st !! tid;
  let b1 := mk_block (block_head b) cell (free_cell_count b + 1) (get_counter b) (u32 (free_counter b + 1)) in
  let st1 := mk_pool (<[block_tail b := cell]> (next_offset st)) (cell_count st) (head_ st) (tail_ st)
               (<[tid := b1]> (blocks st)) in
  if free_cell_count b1 =? 2 * BLOCK_SIZE then give_back st1 tid b1 BLOCK_SIZE else Some st1.

(** [ConcurrentMemPool::GetUsage] (layout/concurrent_mem_pool.tpp:163-172):
    the counters are unsigned offsets. *)
Definition GetUsage st : Z * Z :=
  (foldr (fun b acc => u32 (acc + get_counter b)) 0%Z (blocks st),
   foldr (fun b acc => u32 (acc + free_counter b)) 0%Z (blocks st)).

(** ** The invariant *)

(** The chains of the threads, the shared chain and the cells in use are
    together all cells, each once. *)
Record pool_ok st (ls : list (list nat)) (shared used : list nat) : Prop := {
  po_len : length (next_offset st) = cell_count st;
  po_shared : chain (next_offset st) (head_ st) (tail_ st) shared;
  po_blocks : Forall2 (fun b l => chain (next_offset st) (block_head b) (block_tail b) l /\
                free_cell_count b = length l /\ 2 <= length l) (blocks st) ls;
  po_cells : concat ls ++ shared ++ used ≡ₚ seq 0 (cell_count st);
}.

(** The cells of the other threads. *)
Definition others (ls : list (list nat)) (tid : nat) : list nat := concat (take tid ls ++ drop (S tid) ls).

Lemma concat_pick (ls : list (list nat)) tid l : ls !! tid = Some l -> concat ls ≡ₚ l ++ others ls tid.
Proof.
  intros Hl. unfold others. rewrite <- (take_drop_middle ls tid l Hl) at 1.
  rewrite !concat_app. cbn [concat]. by rewrite Permutation_app_swap_app.
Qed.

Lemma concat_insert (ls : list (list nat)) tid l l' : ls !! tid = Some l ->
  concat (<[tid := l']> ls) ≡ₚ l' ++ others ls tid.
Proof.
  intros Hl. pose proof (lookup_lt_Some _ _ _ Hl) as Hlt.
  rewrite (concat_pick (<[tid := l']> ls) tid l') by (by rewrite list_lookup_insert_eq).
  f_equiv. unfold others. rewrite take_insert_ge, drop_insert_lt by lia. done.
Qed.

Lemma pool_cells_of st ls shared used tid l : pool_ok st ls shared used -> ls !! tid = Some l ->
  l ++ shared ++ used ++ others ls tid ≡ₚ seq 0 (cell_count st).
Proof.
  intros Hok Hl. rewrite <- (po_cells _ _ _ _ Hok), (concat_pick ls tid l Hl). solve_Permutation.
Qed.

Lemma pool_nodup st ls shared used tid l : pool_ok st ls shared used -> ls !! tid = Some l ->
  NoDup (l ++ shared ++ used ++ others ls tid).
Proof. intros Hok Hl. rewrite (pool_cells_of _ _ _ _ _ _ Hok Hl). apply NoDup_seq. Qed.

Lemma pool_in_range st ls shared used tid l x : pool_ok st ls shared used -> ls !! tid = Some l ->
  x ∈ l ++ shared ++ used ++ others ls tid -> x < cell_count st.
Proof. intros Hok Hl Hx. rewrite (pool_cells_of _ _ _ _ _ _ Hok Hl), elem_of_seq in Hx. lia. Qed.

(** Rebuilding the invariant after a change of one thread's chain and of the
    shared one. *)
Lemma pool_rebuild st ls shared used tid l next' hd' tl' b' l' shared' used' :
  pool_ok st ls shared used -> ls !! tid = Some l ->
  length next' = cell_count st ->
  (forall x, x ∈ others ls tid -> next' !! x = next_offset st !! x) ->
  chain next' hd' tl' shared' -> chain next' (block_head b') (block_tail b') l' ->
  free_cell_count b' = length l' -> 2 <= length l' -> l' ++ shared' ++ used' ≡ₚ l ++ shared ++ used ->
  pool_ok (mk_pool next' (cell_count st) hd' tl' (<[tid := b']> (blocks st))) (<[tid := l']> ls) shared' used'.
Proof.
  intros Hok Hl Hlen Hag Hsh Hb Hfc Hge Hperm. split; cbn; [done|done|..].
  - apply Forall2_same_length_lookup_2.
    { rewrite !length_insert. by eapply Forall2_length, (po_blocks _ _ _ _ Hok). }
    intros j c m Hc Hm. destruct (decide (j = tid)) as [->|Hne].
    + apply list_lookup_insert_Some in Hc as [(_ & <- & _)|[? _]]; [|done].
      apply list_lookup_insert_Some in Hm as [(_ & <- & _)|[? _]]; [|done]. done.
    + rewrite list_lookup_insert_ne in Hc by done. rewrite list_lookup_insert_ne in Hm by done.
      destruct (Forall2_lookup_lr _ _ _ _ _ _ (po_blocks _ _ _ _ Hok) Hc Hm) as (Hch & Hf & Hg).
      split; [|done]. assert (forall x, x ∈ m -> x ∈ others ls tid) as Hin.
      { intros x Hx. unfold others. apply list_elem_of_In, in_concat. exists m.
        split; [|by apply list_elem_of_In]. apply list_elem_of_In, elem_of_app.
        destruct (decide (j < tid)).
        - left. apply list_elem_of_lookup. exists j. by rewrite lookup_take_lt.
        - right. apply list_elem_of_lookup. exists (j - S tid). rewrite lookup_drop, <- Hm. f_equal. lia. }
      revert Hch. apply chain_agree; [intros; by apply Hag, Hin|].
      pose proof (pool_nodup _ _ _ _ _ _ Hok Hm) as Hnd. by apply NoDup_app in Hnd as [? _].
  - rewrite (concat_insert ls tid l l' Hl), <- (pool_cells_of _ _ _ _ _ _ Hok Hl).
    transitivity (others ls tid ++ (l' ++ shared' ++ used')); [solve_Permutation|].
    rewrite Hperm. solve_Permutation.
Qed.

(** ** Operations *)

Lemma fetch_loop_spec next hd tl zs k bt : chain next hd tl zs -> NoDup zs -> k + 2 <= length zs ->
  exists y m, fetch_loop next tl k hd bt = Some (y, m) /\ zs !! k = Some y /\
    (k = 0 -> m = bt) /\ (forall j, k = S j -> zs !! j = Some m).
Proof.
  revert hd zs bt. induction k as [|k IH]; intros hd zs bt Hc Hnd Hk.
  - exists hd, bt. destruct Hc as (Hh & _). destruct zs as [|a zs]; [done|]. injection Hh as ->.
    split_and!; try done.
  - destruct zs as [|a [|a' zs]]; [cbn in Hk; lia..|]. destruct Hc as (Hh & Hl & Hab & Hlk).
    injection Hh as ->. cbn [fetch_loop]. rewrite Hab. cbn [mbind option_bind].
    rewrite last_cons_cons in Hl. apply NoDup_cons in Hnd as [Ha Hnd].
    destruct (Nat.eqb_spec a' tl) as [->|Hne].
    { destruct zs as [|a2 zs]; [cbn in Hk; lia|]. apply NoDup_cons in Hnd as [Hn _]. destruct Hn.
      rewrite last_cons_cons in Hl. by apply last_Some_elem_of. }
    destruct (IH a' (a' :: zs) (if k =? 0 then hd else bt)) as (y & m & -> & Hy & Hm1 & Hm2);
      [by split|done|cbn in Hk |- *; lia|].
    exists y, m. split_and!; [done|done|done|]. intros j [= <-]. destruct k as [|k].
    + rewrite Hm1 by done. done.
    + by apply Hm2.
Qed.

Lemma block_chain st ls shared used tid b l : pool_ok st ls shared used ->
  blocks st !! tid = Some b -> ls !! tid = Some l ->
  chain (next_offset st) (block_head b) (block_tail b) l /\ free_cell_count b = length l /\ 2 <= length l.
Proof. intros Hok Hb Hl. by apply (Forall2_lookup_lr _ _ _ _ _ _ (po_blocks _ _ _ _ Hok) Hb Hl). Qed.

Lemma chain_tail_in next hd tl xs : chain next hd tl xs -> tl ∈ xs.
Proof. intros (_ & Hl & _). by apply last_Some_elem_of. Qed.

Lemma fetch_spec st ls shared used tid b l : 0 < BLOCK_SIZE -> pool_ok st ls shared used ->
  blocks st !! tid = Some b -> ls !! tid = Some l -> BLOCK_SIZE + 2 <= length shared ->
  exists st' s1 s2 tl, fetch st tid b = Some st' /\ shared = s1 ++ s2 /\ length s1 = BLOCK_SIZE /\
    pool_ok st' (<[tid := l ++ s1]> ls) s2 used /\ cell_count st' = cell_count st /\
    blocks st' !! tid = Some (mk_block (block_head b) tl (free_cell_count b + BLOCK_SIZE) (get_counter b) (free_counter b)).
Proof.
  intros HB Hok Hb Hl Hlen. destruct (block_chain _ _ _ _ _ _ _ Hok Hb Hl) as (Hc & Hf & H2).
  pose proof (pool_nodup _ _ _ _ _ _ Hok Hl) as Hnd.
  assert (block_tail b < length (next_offset st)) as Htl.
  { rewrite (po_len _ _ _ _ Hok). eapply pool_in_range; [done|done|]. apply elem_of_app. left.
    by eapply chain_tail_in. }
  rewrite (assoc_L (++)) in Hnd. apply NoDup_app in Hnd as (Hnd & Hdis & _).
  pose proof (chain_join _ _ _ _ _ _ _ Hc (po_shared _ _ _ _ Hok) Hnd Htl) as Hj.
  unfold fetch. set (next := <[block_tail b := head_ st]> (next_offset st)) in *.
  apply NoDup_app in Hnd as (Hnl & Hls & Hns).
  assert (chain next (head_ st) (tail_ st) shared) as Hsh.
  { apply (chain_agree (next_offset st)); [|done|apply Hok]. intros x Hx _. apply list_lookup_insert_ne.
    intros <-. apply (Hls (block_tail b)); [by eapply chain_tail_in|done]. }
  destruct (fetch_loop_spec next _ _ shared BLOCK_SIZE (block_tail b) Hsh Hns Hlen) as (y & m & -> & Hy & _ & Hm).
  cbn [mbind option_bind]. destruct BLOCK_SIZE as [|B] eqn:HBS; [lia|]. rewrite <- HBS in *. specialize (Hm B HBS).
  assert (shared = take BLOCK_SIZE shared ++ y :: drop (S BLOCK_SIZE) shared) as Hsplit
    by (by rewrite take_drop_middle).
  assert (length (take BLOCK_SIZE shared) = BLOCK_SIZE) as L1 by (rewrite length_take; lia).
  assert (last (take BLOCK_SIZE shared) = Some m) as Hlast.
  { rewrite last_lookup, L1, lookup_take_lt by lia. rewrite HBS. done. }
  rewrite Hsplit, (assoc_L (++)) in Hj.
  destruct (chain_split _ _ _ _ _ _ m Hj) as (Hj1 & _ & Hj2); [by rewrite last_app, Hlast|].
  eexists _, (take BLOCK_SIZE shared), (y :: drop (S BLOCK_SIZE) shared), m. split_and!; [done|done|done| |done|].
  - eapply pool_rebuild; [done|done|..|done|done| | |]; cbn.
    + unfold next. rewrite length_insert. apply Hok.
    + intros x Hx. apply list_lookup_insert_ne. intros <-. apply (Hdis (block_tail b)).
      * apply elem_of_app. left. by eapply chain_tail_in.
      * apply elem_of_app. by right.
    + rewrite length_app, L1, Hf. done.
    + rewrite length_app. lia.
    + rewrite Hsplit at 3. by rewrite <- !(assoc_L (++)).
  - cbn. rewrite list_lookup_insert_eq; [done|by eapply lookup_lt_Some].
Qed.

Definition get_from st (tid : nat) b1 : option (nat * Pool) :=
  n1 ← next_offset st !! block_head b1;
  Some (block_head b1,
    mk_pool (next_offset st) (cell_count st) (head_ st) (tail_ st)
      (<[tid := mk_block n1 (block_tail b1) (free_cell_count b1 - 1)
                  (u32 (get_counter b1 + 1)) (free_counter b1)]> (blocks st))).

Lemma get_from_spec st ls shared used tid b l : pool_ok st ls shared used ->
  blocks st !! tid = Some b -> ls !! tid = Some l -> 2 < length l ->
  exists c l' st', get_from st tid b = Some (c, st') /\ l = c :: l' /\ cell_count st' = cell_count st /\
    pool_ok st' (<[tid := l']> ls) shared (c :: used).
Proof.
  intros Hok Hb Hl H3. destruct (block_chain _ _ _ _ _ _ _ Hok Hb Hl) as (Hc & Hf & _).
  destruct l as [|c [|y l']]; [cbn in H3; lia..|]. change (c :: y :: l') with ([c] ++ y :: l') in Hc.
  destruct (chain_split _ _ _ _ _ _ c Hc eq_refl) as (_ & Hn & Hc').
  destruct Hc as (Hh & _). injection Hh as Hh. unfold get_from. rewrite <- Hh, Hn. cbn [mbind option_bind].
  eexists c, (y :: l'), _. split_and!; [done|done|done|].
  eapply pool_rebuild; [done|done|apply Hok|done|apply Hok|done|cbn [free_cell_count]|cbn in H3 |- *; lia|].
  - rewrite Hf. cbn. lia.
  - solve_Permutation.
Qed.

(** The shared block has too few cells: the walk runs into its tail. *)
Lemma fetch_loop_fails next hd tl zs k bt : chain next hd tl zs -> 2 <= length zs -> length zs < k + 2 ->
  fetch_loop next tl k hd bt = None.
Proof.
  revert hd zs bt. induction k as [|k IH]; intros hd zs bt Hc H2 Hk; [lia|].
  destruct zs as [|a [|a' zs]]; [cbn in H2; lia..|]. destruct Hc as (Hh & Hl & Hab & Hlk).
  injection Hh as ->. cbn [fetch_loop]. rewrite Hab. cbn [mbind option_bind].
  rewrite last_cons_cons in Hl. destruct (Nat.eqb_spec a' tl) as [|Hne]; [done|].
  apply (IH a' (a' :: zs)); [by split| |cbn in Hk |- *; lia].
  destruct zs; [|cbn; lia]. injection Hl as ->. done.
Qed.

Lemma fetch_fails st ls shared used tid b l : pool_ok st ls shared used ->
  blocks st !! tid = Some b -> ls !! tid = Some l -> 2 <= length shared < BLOCK_SIZE + 2 ->
  fetch st tid b = None.
Proof.
  intros Hok Hb Hl Hlen. destruct (block_chain _ _ _ _ _ _ _ Hok Hb Hl) as (Hc & _).
  pose proof (pool_nodup _ _ _ _ _ _ Hok Hl) as Hnd. apply NoDup_app in Hnd as (_ & Hd & Hnd).
  apply NoDup_app in Hnd as (Hns & _). unfold fetch.
  rewrite (fetch_loop_fails _ _ _ shared); [done|..|lia|lia].
  apply (chain_agree (next_offset st)); [|done|apply Hok]. intros x Hx _. apply list_lookup_insert_ne.
  intros <-. apply (Hd (block_tail b)); [by eapply chain_tail_in|]. apply elem_of_app. by left.
Qed.

(** [Get] succeeds exactly when the thread has a third cell or the shared
    block can give a block away and keep two cells. *)
Lemma get_spec st ls shared used tid l : 0 < BLOCK_SIZE -> pool_ok st ls shared used -> ls !! tid = Some l ->
  2 <= length shared ->
  match Get st tid with
  | Some (c, st') => exists l' shared', pool_ok st' (<[tid := l']> ls) shared' (c :: used) /\
      cell_count st' = cell_count st /\ 2 <= length shared' /\ (length l' < length l \/ length l' = BLOCK_SIZE + 1)
  | None => length l = 2 /\ length shared < BLOCK_SIZE + 2
  end.
Proof.
  intros HB Hok Hl Hsh. destruct (Forall2_lookup_r _ _ _ _ _ (po_blocks _ _ _ _ Hok) Hl) as (b & Hb & Hc & Hf & H2).
  unfold Get. rewrite Hb. cbn [mbind option_bind].
  pose proof (pool_nodup _ _ _ _ _ _ Hok Hl) as Hnd. apply NoDup_app in Hnd as [Hnd _].
  assert (next_offset st !! block_head b = l !! 1) as Hn.
  { pose proof (chain_walk _ _ _ _ 1 Hc ltac:(lia)) as Hw. cbn in Hw. by destruct (next_offset st !! block_head b). }
  destruct (lookup_lt_is_Some_2 l 1) as [n Hn1]; [lia|]. rewrite Hn, Hn1. cbn [mbind option_bind].
  destruct Hc as (Hc1 & Hlast & Hc2). rewrite last_lookup in Hlast.
  destruct (Nat.eqb_spec n (block_tail b)) as [Heq|Hne].
  - assert (length l = 2) as L2.
    { assert (1 = pred (length l)); [|lia]. eapply NoDup_lookup; [done|done|]. by rewrite Heq. }
    destruct (decide (length shared < BLOCK_SIZE + 2)) as [Hlt|Hge].
    { by rewrite (fetch_fails st ls shared used tid b l) by (done || lia). }
    destruct (fetch_spec st ls shared used tid b l HB Hok Hb Hl) as (st1 & s1 & s2 & tl & -> & -> & L1 & Hok1 & Hcc & Hb1);
      [lia|]. cbn [mbind option_bind]. rewrite Hb1. cbn [mbind option_bind]. rewrite length_app in Hge.
    destruct (get_from_spec st1 _ s2 used tid _ (l ++ s1) Hok1 Hb1) as (c & l' & st' & Hg & Hl' & Hcc' & Hok').
    + apply list_lookup_insert_eq. by eapply lookup_lt_Some.
    + rewrite length_app. lia.
    + unfold get_from in Hg. rewrite Hg. apply (f_equal length) in Hl'. rewrite length_app in Hl'. cbn in Hl'.
      exists l', s2. rewrite list_insert_insert_eq in Hok'. split_and!; [done|congruence|lia|lia].
  - cbn [mbind option_bind]. rewrite Hb. cbn [mbind option_bind].
    destruct (get_from_spec st ls shared used tid b l Hok Hb Hl) as (c & l' & st' & Hg & Hl' & Hcc & Hok').
    { destruct (decide (length l = 2)) as [L2|]; [|lia]. destruct Hne. rewrite L2 in Hlast. cbn in Hlast. congruence. }
    unfold get_from in Hg. rewrite Hn, Hn1 in Hg. rewrite Hn, Hn1, Hg.
    exists l', shared. apply (f_equal length) in Hl'. cbn in Hl'. split_and!; [done|done|done|lia].
Qed.

(** Appending freed cells, themselves a chain, to the chain of a thread. *)
Lemma attach_spec st ls shared used tid b l hd tl cs used' gc fc : pool_ok st ls shared used ->
  blocks st !! tid = Some b -> ls !! tid = Some l -> used ≡ₚ cs ++ used' ->
  chain (next_offset st) hd tl cs ->
  pool_ok (mk_pool (<[block_tail b := hd]> (next_offset st)) (cell_count st) (head_ st) (tail_ st)
      (<[tid := mk_block (block_head b) tl (free_cell_count b + length cs) gc fc]> (blocks st)))
    (<[tid := l ++ cs]> ls) shared used'.
Proof.
  intros Hok Hb Hl Hu Hcs. destruct (block_chain _ _ _ _ _ _ _ Hok Hb Hl) as (Hc & Hf & H2).
  pose proof (pool_nodup _ _ _ _ _ _ Hok Hl) as Hnd.
  assert (block_tail b ∈ l) as Hin by (by eapply chain_tail_in).
  assert (block_tail b < length (next_offset st)) as Htl.
  { rewrite (po_len _ _ _ _ Hok). eapply pool_in_range; [done|done|]. set_solver. }
  assert (NoDup (l ++ cs) /\ (block_tail b ∉ shared) /\ (block_tail b ∉ others ls tid) /\ NoDup shared) as (N1 & N2 & N3 & N4).
  { rewrite Hu in Hnd. assert (l ++ shared ++ (cs ++ used') ++ others ls tid ≡ₚ (l ++ cs) ++ shared ++ used' ++ others ls tid)
      as E by solve_Permutation. pose proof Hnd as Hnd2. rewrite E in Hnd.
    apply NoDup_app in Hnd as (? & _ & Hr). apply NoDup_app in Hnd2 as (_ & Hd & _).
    apply NoDup_app in Hr as (? & _ & _). split_and!; try done; intros Hx; apply (Hd _ Hin); set_solver. }
  eapply pool_rebuild; [done|done|..]; cbn.
  - rewrite length_insert. apply Hok.
  - intros x Hx. apply list_lookup_insert_ne. by intros <-.
  - apply (chain_agree (next_offset st)); [|done|apply Hok]. intros x Hx _. apply list_lookup_insert_ne. by intros <-.
  - by apply chain_join.
  - by rewrite length_app, Hf.
  - rewrite length_app. lia.
  - rewrite Hu. solve_Permutation.
Qed.

Lemma give_back_spec st ls shared used tid b l n : pool_ok st ls shared used ->
  blocks st !! tid = Some b -> ls !! tid = Some l -> 0 < n -> n + 2 <= length l ->
  exists st', give_back st tid b n = Some st' /\ cell_count st' = cell_count st /\
    pool_ok st' (<[tid := drop n l]> ls) (shared ++ take n l) used.
Proof.
  intros Hok Hb Hl Hn Hlen. destruct (block_chain _ _ _ _ _ _ _ Hok Hb Hl) as (Hc & Hf & H2).
  pose proof (pool_nodup _ _ _ _ _ _ Hok Hl) as Hnd.
  destruct (lookup_lt_is_Some_2 l n) as [y Hy]; [lia|]. destruct (lookup_lt_is_Some_2 l (n - 1)) as [m Hm]; [lia|].
  assert (l = take n l ++ y :: drop (S n) l) as Hsplit by (by rewrite take_drop_middle).
  assert (last (take n l) = Some m) as Hlast.
  { rewrite last_lookup, length_take, lookup_take_lt by lia. rewrite <- Hm. f_equal. lia. }
  pose proof Hc as Hc0. rewrite Hsplit in Hc. destruct (chain_split _ _ _ _ _ _ m Hc Hlast) as (Hc1 & Hmy & Hc2).
  unfold give_back. rewrite (chain_walk _ _ _ l (n - 1) Hc0) by lia. rewrite Hm. cbn [mbind option_bind].
  rewrite Hmy. cbn [mbind option_bind]. eexists. split; [done|]. split; [done|].
  assert (drop n l = y :: drop (S n) l) as Hd by (by apply drop_S). rewrite Hd.
  pose proof (chain_tail_in _ _ _ _ (po_shared _ _ _ _ Hok)) as Htin.
  apply NoDup_app in Hnd as (Hnl & Hdl & Hnr). apply NoDup_app in Hnr as (Hns & Hds & _).
  assert (NoDup (y :: drop (S n) l)) as Hnd2.
  { rewrite Hsplit in Hnl. by apply NoDup_app in Hnl as (_ & _ & ?). }
  assert (forall x, x ∈ take n l \/ x ∈ y :: drop (S n) l -> x ∈ l) as Hinl.
  { intros x Hx. rewrite Hsplit. apply elem_of_app. tauto. }
  eapply pool_rebuild; [done|done|..]; cbn [block_head block_tail free_cell_count].
  - rewrite length_insert. apply Hok.
  - intros x Hx. apply list_lookup_insert_ne. intros <-. apply (Hds (tail_ st)); [done|]. apply elem_of_app. by right.
  - apply chain_join; [apply Hok|done| |].
    + apply NoDup_app. split_and!; [done|intros x Hx Hx'; apply (Hdl x); set_solver|].
      rewrite Hsplit in Hnl. by apply NoDup_app in Hnl as (? & _).
    + rewrite (po_len _ _ _ _ Hok). eapply pool_in_range; [done|done|]. set_solver.
  - apply (chain_agree (next_offset st)); [|done|done]. intros x Hx _. apply list_lookup_insert_ne.
    intros <-. apply (Hdl (tail_ st)); [apply Hinl; by right|]. apply elem_of_app. by left.
  - rewrite <- Hd, length_drop. lia.
  - rewrite <- Hd, length_drop. lia.
  - rewrite Hsplit at 3. solve_Permutation.
Qed.

Lemma free_spec st ls shared used tid l c used' : 1 < BLOCK_SIZE -> pool_ok st ls shared used ->
  ls !! tid = Some l -> used ≡ₚ c :: used' ->
  exists st' l' shared', Free st c tid = Some st' /\ pool_ok st' (<[tid := l']> ls) shared' used' /\
    cell_count st' = cell_count st /\ length shared <= length shared' /\
    (length l < 2 * BLOCK_SIZE -> length l' < 2 * BLOCK_SIZE).
Proof.
  intros HB Hok Hl Hu. destruct (Forall2_lookup_r _ _ _ _ _ (po_blocks _ _ _ _ Hok) Hl) as (b & Hb & Hc & Hf & H2).
  unfold Free. rewrite Hb. cbn [mbind option_bind free_cell_count].
  pose proof (attach_spec st ls shared used tid b l c c [c] used' (get_counter b) (u32 (free_counter b + 1))
    Hok Hb Hl Hu ltac:(done)) as Hok1. cbn [length] in Hok1.
  set (b1 := mk_block (block_head b) c (free_cell_count b + 1) (get_counter b) (u32 (free_counter b + 1))) in *.
  destruct (Nat.eqb_spec (free_cell_count b + 1) (2 * BLOCK_SIZE)) as [Heq|Hne].
  - destruct (give_back_spec _ _ _ _ tid b1 (l ++ [c]) BLOCK_SIZE Hok1) as (st' & Hg & Hcc & Hok').
    + cbn. apply list_lookup_insert_eq. by eapply lookup_lt_Some.
    + apply list_lookup_insert_eq. by eapply lookup_lt_Some.
    + lia.
    + rewrite length_app. cbn. lia.
    + rewrite Hg. rewrite list_insert_insert_eq in Hok'. eexists _, _, _. split_and!; [done|done|done|..].
      * rewrite length_app. lia.
      * rewrite length_drop, length_app. cbn. lia.
  - eexists _, _, _. split_and!; [done|done|done|done|]. rewrite length_app. cbn. lia.
Qed.

(** ** Initialisation *)

Fixpoint init_lists (n h : nat) : list (list nat) :=
  match n with O => [] | S n' => seq h BLOCK_SIZE :: init_lists n' (h + BLOCK_SIZE) end.

Lemma init_lists_concat n h : concat (init_lists n h) = seq h (n * BLOCK_SIZE).
Proof.
  revert h. induction n as [|n IH]; intros h; cbn [init_lists concat]; [done|].
  rewrite IH, <- seq_app. f_equal.
Qed.

Lemma init_blocks_spec next n h : 1 < BLOCK_SIZE ->
  (forall i, h <= i < h + n * BLOCK_SIZE -> next !! i = Some (S i)) ->
  exists bs, init_blocks n h = (bs, h + n * BLOCK_SIZE) /\
    Forall2 (fun b l => chain next (block_head b) (block_tail b) l /\
      free_cell_count b = length l /\ 2 <= length l) bs (init_lists n h).
Proof.
  intros HB. revert h. induction n as [|n IH]; intros h Hn; cbn [init_blocks init_lists].
  - exists []. rewrite Nat.add_0_r. split; [done|constructor].
  - destruct (IH (h + BLOCK_SIZE)) as (bs & -> & Hbs); [intros; apply Hn; lia|].
    eexists. split; [f_equal; lia|]. constructor; [|done]. cbn. rewrite length_seq.
    split_and!; [|done|lia]. apply chain_seq; [lia|]. intros; apply Hn; lia.
Qed.

Lemma init_spec cells nthreads : 1 < BLOCK_SIZE -> nthreads * (BLOCK_SIZE + 2) < cells ->
  exists st ls shared, Init cells nthreads = Some st /\ pool_ok st ls shared [] /\
    length ls = nthreads /\ cell_count st = cells /\ 2 * nthreads < length shared /\
    Forall (fun l => length l < 2 * BLOCK_SIZE) ls.
Proof.
  intros HB Hc. unfold Init. rewrite (proj2 (Nat.ltb_lt _ _) Hc).
  assert (forall i, i < cells -> (S <$> seq 0 cells) !! i = Some (S i)) as Hn.
  { intros i Hi. rewrite list_lookup_fmap, lookup_seq_lt by lia. done. }
  destruct (init_blocks_spec (S <$> seq 0 cells) nthreads 0 HB) as (bs & -> & Hbs); [intros; apply Hn; lia|].
  eexists _, (init_lists nthreads 0), (seq (nthreads * BLOCK_SIZE) (cells - nthreads * BLOCK_SIZE)).
  split_and!; [done| |clear|done|rewrite length_seq; lia|clear -HB].
  - split; cbn.
    + by rewrite length_fmap, length_seq.
    + replace (cells - 1) with (nthreads * BLOCK_SIZE + (cells - nthreads * BLOCK_SIZE) - 1) by lia.
      apply chain_seq; [lia|]. intros; apply Hn; lia.
    + done.
    + rewrite init_lists_concat, app_nil_r, <- seq_app. f_equiv. lia.
  - generalize 0. induction nthreads as [|n IH]; intros h; cbn; [done|]. by rewrite IH.
  - assert (forall h, Forall (fun l => length l < 2 * BLOCK_SIZE) (init_lists nthreads h)) as H; [|apply H].
    induction nthreads as [|n IH]; intros h; cbn [init_lists]; constructor; [rewrite length_seq; lia|apply IH].
Qed.

(** ** Use of the pool *)

(** The calls of the threads; the second component is the list of cells in
    use, and only a cell in use is freed. *)
Inductive pool_step : Pool * list nat -> Pool * list nat -> Prop :=
  | ps_get st used tid c st' : Get st tid = Some (c, st') -> tid < length (blocks st) ->
      pool_step (st, used) (st', c :: used)
  | ps_free st used used' tid c st' : used ≡ₚ c :: used' -> Free st c tid = Some st' ->
      tid < length (blocks st) -> pool_step (st, used) (st', used').

Definition pool_inv (cells nthreads : nat) (s : Pool * list nat) : Prop :=
  exists ls shared, pool_ok s.1 ls shared s.2 /\ length ls = nthreads /\ cell_count s.1 = cells /\
    2 <= length shared /\ Forall (fun l => length l < 2 * BLOCK_SIZE) ls.

Lemma pool_blocks_length st ls shared used : pool_ok st ls shared used -> length (blocks st) = length ls.
Proof. intros Hok. by eapply Forall2_length, (po_blocks _ _ _ _ Hok). Qed.

Lemma pool_step_inv cells nthreads s s' : 1 < BLOCK_SIZE ->
  pool_inv cells nthreads s -> pool_step s s' -> pool_inv cells nthreads s'.
Proof.
  intros HB (ls & shared & Hok & Hlen & Hc & H2 & Hb) Hs.
  destruct Hs as [st used tid c st' Hg Ht|st used used' tid c st' Hu Hf Ht]; cbn in *;
    (destruct (lookup_lt_is_Some_2 ls tid) as [l Hl]; [by rewrite <- (pool_blocks_length _ _ _ _ Hok)|]);
    pose proof (Forall_lookup_1 _ _ _ _ Hb Hl) as Hlb; cbn in Hlb.
  - pose proof (get_spec st ls shared used tid l ltac:(lia) Hok Hl H2) as H. rewrite Hg in H.
    destruct H as (l' & shared' & Hok' & Hcc & H2' & Hl'). exists (<[tid := l']> ls), shared'. cbn.
    split_and!; [done|by rewrite length_insert|congruence|done|]. apply Forall_insert; [done|]. cbn. lia.
  - destruct (free_spec st ls shared used tid l c used' HB Hok Hl Hu) as (st1 & l' & shared' & Hf1 & Hok' & Hcc & Hsl & Hlt).
    replace st' with st1 by congruence. exists (<[tid := l']> ls), shared'. cbn.
    split_and!; [done|by rewrite length_insert|congruence|lia|]. apply Forall_insert; [done|]. auto.
Qed.

Lemma pool_reachable cells nthreads st0 s : 1 < BLOCK_SIZE -> 0 < nthreads ->
  Init cells nthreads = Some st0 -> rtc pool_step (st0, []) s -> pool_inv cells nthreads s.
Proof.
  intros HB Hn Hi. apply (rtc_ind_r (fun s => pool_inv cells nthreads s)).
  - assert (nthreads * (BLOCK_SIZE + 2) < cells) as Hc.
    { unfold Init in Hi. destruct (Nat.ltb_spec (nthreads * (BLOCK_SIZE + 2)) cells); [done|]. done. }
    destruct (init_spec cells nthreads HB Hc) as (st & ls & shared & Hi' & Hok & Hl & Hcc & Hs & Hb).
    replace st with st0 in * by congruence. exists ls, shared. cbn. split_and!; try done. lia.
  - intros x y _ Hxy Hx. by eapply pool_step_inv.
Qed.

Lemma total_length (ls : list (list nat)) n : Forall (fun l => length l < n) ls -> length (concat ls) <= length ls * n.
Proof. induction 1 as [|l ls Hl _ IH]; cbn; [lia|]. rewrite length_app. lia. Qed.
End Pool.

(** C24: the memory pool never hands out a cell twice: whatever the threads
    get and free in whatever order, the cells in use are distinct cells of the
    pool, every successful [Get] returns a cell that is not in use, every
    [Free] of a cell in use succeeds, and [Get] fails only when at most
    [(2 * nthreads + 1) * BLOCK_SIZE + 1] cells are not in use. *)
Theorem pool_safe BLOCK_SIZE cells nthreads st0 st used tid :
  1 < BLOCK_SIZE -> 0 < nthreads -> Init BLOCK_SIZE cells nthreads = Some st0 ->
  rtc (pool_step BLOCK_SIZE) (st0, []) (st, used) -> tid < nthreads ->
  NoDup used /\ Forall (fun c => c < cells) used /\
  match Get BLOCK_SIZE st tid with
  | Some (c, _) => (c ∉ used) /\ c < cells
  | None => cells <= length used + (2 * nthreads + 1) * BLOCK_SIZE + 1
  end /\
  forall c, c ∈ used -> is_Some (Free BLOCK_SIZE st c tid).
Proof.
  intros HB Hn Hi Hr Ht. destruct (pool_reachable _ cells nthreads st0 _ HB Hn Hi Hr)
    as (ls & shared & Hok & Hlen & Hc & H2 & Hb). cbn in *. subst cells.
  destruct (lookup_lt_is_Some_2 ls tid) as [l Hl]; [lia|].
  assert (forall st used ls shared, pool_ok st ls shared used ->
    NoDup used /\ Forall (fun c => c < cell_count st) used) as Hused.
  { clear. intros st used ls shared Hok. pose proof (po_cells _ _ _ _ Hok) as Hp. split.
    - assert (NoDup (concat ls ++ shared ++ used)) as Hnd by (rewrite Hp; apply NoDup_seq).
      apply NoDup_app in Hnd as (_ & _ & Hnd). by apply NoDup_app in Hnd as (_ & _ & Hnd).
    - apply Forall_forall. intros c Hc. assert (c ∈ seq 0 (cell_count st)) as Hs
        by (rewrite <- Hp, !elem_of_app; tauto). apply elem_of_seq in Hs. lia. }
  destruct (Hused _ _ _ _ Hok) as [Hnd Hran]. split_and!; [done|done|..].
  - pose proof (get_spec BLOCK_SIZE st ls shared used tid l ltac:(lia) Hok Hl H2) as H.
    destruct (Get BLOCK_SIZE st tid) as [[c st']|].
    + destruct H as (l' & shared' & Hok' & Hcc & _). destruct (Hused _ _ _ _ Hok') as [Hnd' Hran'].
      apply NoDup_cons in Hnd' as [? _]. apply Forall_cons in Hran' as [? _]. split; [done|congruence].
    + destruct H as [_ Hs]. pose proof (Permutation_length (po_cells _ _ _ _ Hok)) as Hp.
      rewrite length_seq, !length_app in Hp. pose proof (total_length ls _ Hb) as Ht2. lia.
  - intros c Hc. apply list_elem_of_split in Hc as (u1 & u2 & ->).
    destruct (free_spec BLOCK_SIZE st ls shared (u1 ++ c :: u2) tid l c (u1 ++ u2) HB Hok Hl) as (st' & _ & _ & -> & _);
      [solve_Permutation|by eexists].
Qed.

Definition example_pool : Pool := Eval vm_compute in default (mk_pool [] 0 0 0 []) (Init 3 20 2).
Definition example_pool1 : Pool := Eval vm_compute in default example_pool (snd <$> Get 3 example_pool 1).
Definition example_pool2 : Pool := Eval vm_compute in default example_pool (snd <$> Get 3 example_pool1 1).

Lemma pool_safe_witness :
  NoDup [4; 3] /\ exists c st, Get 3 example_pool2 1 = Some (c, st) /\ (c ∉ [4; 3]).
Proof.
  assert (rtc (pool_step 3) (example_pool, []) (example_pool2, [4; 3])) as Hr.
  { eapply rtc_l; [apply (ps_get 3 example_pool [] 1 3 example_pool1); [by vm_compute|cbn; lia]|].
    eapply rtc_l; [apply (ps_get 3 example_pool1 [3] 1 4 example_pool2); [by vm_compute|cbn; lia]|]. apply rtc_refl. }
  destruct (pool_safe 3 20 2 example_pool example_pool2 [4; 3] 1) as (H1 & _ & H2 & _);
    [lia|lia|by vm_compute|exact Hr|lia|]. split; [exact H1|].
  destruct (Get 3 example_pool2 1) as [[c st]|] eqn:E; [|vm_compute in E; discriminate E].
  exists c, st. split; [reflexivity|exact (proj1 H2)].
Defined.
