(* ===== verification/ValueStore.v ===== *)
(** * layout/mvcc_value_store: the store of property values

    A value is kept in a chain of cells of 8 bytes: its type byte followed by
    its content.  The cells are managed like those of the memory pool, but a
    value takes and returns several at once.  The memory is a list of cells,
    each a list of bytes; the use of cells is recorded.  [None] is a failed
    [assert] or an access outside of an array. *)
From S2P Require Import Prelude Types CellPool.
Local Open Scope nat_scope.

Definition MEM_CELL_SIZE : nat := 8.

(** [ValueHeader] (layout/mvcc_value_store.hpp:55-70). *)
Record ValueHeader := mk_header { head_offset : nat; byte_count : Z }.

(** [ValueHeader::GetCellCount] (layout/mvcc_value_store.hpp:64-69). *)
Definition GetCellCount (h : ValueHeader) : nat :=
  let bytes := Z.to_nat (byte_count h) in
  let c := bytes / MEM_CELL_SIZE in
  if c * MEM_CELL_SIZE =? bytes then c else S c.

(** [ValueHeader::IsEmpty] (layout/mvcc_value_store.hpp:61-61). *)
Definition header_empty (h : ValueHeader) : bool := (byte_count h =? 0)%Z.

(** [MVCCValueStore] (layout/mvcc_value_store.hpp:72-107): the pool of cells
    and the memory attached to it. *)
Record ValueStore := mk_store { pool : Pool; mem : list (list Z) }.

Section Store.
Context (BLOCK_SIZE : nat).
Implicit Types (st : Pool) (b : ThreadLocalBlock).

(** [MVCCValueStore::Init] (layout/mvcc_value_store.cpp:29-72), the memory being
    given. *)
Definition store_init (cells nthreads : nat) (memory : list (list Z)) : option ValueStore :=
  p ← Init BLOCK_SIZE cells nthreads; Some (mk_store p memory).

(** The loop that takes cells from the shared block
    (layout/mvcc_value_store.cpp:170-173). *)
Fixpoint skip_loop (next : list nat) (tail k head : nat) : option nat :=
  match k with
  | O => Some head
  | S k' => h ← next !! head; if h =? tail then None else skip_loop next tail k' h
  end.

Definition count_got b (n : nat) : ThreadLocalBlock :=
  mk_block (block_head b) (block_tail b) (free_cell_count b) (u32 (get_counter b + Z.of_nat n)) (free_counter b).
Definition count_freed b (n : nat) : ThreadLocalBlock :=
  mk_block (block_head b) (block_tail b) (free_cell_count b) (get_counter b) (u32 (free_counter b + Z.of_nat n)).
Definition with_block st (tid : nat) b : Pool :=
  mk_pool (next_offset st) (cell_count st) (head_ st) (tail_ st) (<[tid := b]> (blocks st)).

(** [MVCCValueStore::Get] (layout/mvcc_value_store.cpp:158-201). *)
Definition get_cells st (count tid : nat) : option (nat * Pool) :=
  b0 ← blocks st !! tid;
  let b := count_got b0 count in
  let st0 := with_block st tid b in
  if (BLOCK_SIZE <? count) && (free_cell_count b <? count + 2) then
    h ← skip_loop (next_offset st0) (tail_ st0) count (head_ st0);
    Some (head_ st0, mk_pool (next_offset st0) (cell_count st0) h (tail_ st0) (blocks st0))
  else
    st1 ← (if free_cell_count b <? count + 2 then fetch BLOCK_SIZE st0 tid b else Some st0);
    b1 ← blocks st1 !! tid;
    h ← walk (next_offset st1) (block_head b1) count;
    Some (block_head b1, with_block st1 tid
      (mk_block h (block_tail b1) (free_cell_count b1 - count) (get_counter b1) (free_counter b1))).

(** [MVCCValueStore::Free] (layout/mvcc_value_store.cpp:204-250). *)
Definition free_cells st (offset count tid : nat) : option Pool :=
  b0 ← blocks st !! tid;
  let b := count_freed b0 count in
  let st0 := with_block st tid b in
  if (BLOCK_SIZE <? count) && (2 * BLOCK_SIZE <=? free_cell_count b + count) then
    tmp_tail ← walk (next_offset st0) offset (count - 1);
    Some (mk_pool (<[tail_ st0 := offset]> (next_offset st0)) (cell_count st0) (head_ st0) tmp_tail (blocks st0))
  else
    let next := <[block_tail b := offset]> (next_offset st0) in
    tl ← walk next (block_tail b) count;
    let b1 := mk_block (block_head b) tl (free_cell_count b + count) (get_counter b) (free_counter b) in
    let st1 := mk_pool next (cell_count st0) (head_ st0) (tail_ st0) (<[tid := b1]> (blocks st0)) in
    if 2 * BLOCK_SIZE <=? free_cell_count b1
    then give_back st1 tid b1 (free_cell_count b1 - BLOCK_SIZE) else Some st1.

(** [memcpy] of bytes to the start of a cell. *)
Definition overwrite (bytes cell : list Z) : list Z := bytes ++ drop (length bytes) cell.

(** The loop of [InsertValue] (layout/mvcc_value_store.cpp:88-113) from cell
    number [i] on, [k] cells being left. *)
Fixpoint insert_loop (next : list nat) (v : value_t) (cells k i off current : nat) (m : list (list Z))
    : option (list (list Z)) :=
  match k with
  | O => Some m
  | S k' =>
      cell ← m !! current;
      let len := length (v_content v) in
      let '(cell', off') :=
        if i =? 0 then
          if len <? MEM_CELL_SIZE - 1
          then (overwrite (u8 (v_type v) :: v_content v) cell, off)
          else (overwrite (u8 (v_type v) :: take (MEM_CELL_SIZE - 1) (drop off (v_content v))) cell,
                off + (MEM_CELL_SIZE - 1))
        else if i =? cells - 1 then (overwrite (take (len - off) (drop off (v_content v))) cell, off)
        else (overwrite (take MEM_CELL_SIZE (drop off (v_content v))) cell, off + MEM_CELL_SIZE) in
      n ← next !! current;
      insert_loop next v cells k' (S i) off' n (<[current := cell']> m)
  end.

(** [MVCCValueStore::InsertValue] (layout/mvcc_value_store.cpp:74-116). *)
Definition InsertValue (s : ValueStore) (v : value_t) (tid : nat) : option (ValueHeader * ValueStore) :=
  let bytes := u32 (Z.of_nat (length (v_content v)) + 1) in
  let cells := GetCellCount (mk_header 0 bytes) in
  '(h, p) ← get_cells (pool s) cells tid;
  m ← insert_loop (next_offset p) v cells cells 0 0 h (mem s);
  Some (mk_header h bytes, mk_store p m).

(** The loop of [ReadValue] (layout/mvcc_value_store.cpp:131-148): the type and
    the content in the order in which they are copied. *)
Fixpoint read_loop (next : list nat) (m : list (list Z)) (len cells k i off current : nat)
    (ty : Z) (content : list Z) : option (Z * list Z) :=
  match k with
  | O => Some (ty, content)
  | S k' =>
      cell ← m !! current;
      n ← next !! current;
      if i =? 0 then
        t ← head cell;
        if len <? MEM_CELL_SIZE - 1
        then read_loop next m len cells k' (S i) off n t (content ++ take len (drop 1 cell))
        else read_loop next m len cells k' (S i) (off + (MEM_CELL_SIZE - 1)) n t
               (content ++ take (MEM_CELL_SIZE - 1) (drop 1 cell))
      else if i =? cells - 1 then
        read_loop next m len cells k' (S i) off n ty (content ++ take (len - off) cell)
      else read_loop next m len cells k' (S i) (off + MEM_CELL_SIZE) n ty (content ++ take MEM_CELL_SIZE cell)
  end.

(** [MVCCValueStore::ReadValue] (layout/mvcc_value_store.cpp:118-149): a header
    without bytes leaves the value as it is. *)
Definition ReadValue (s : ValueStore) (h : ValueHeader) (value : value_t) : option value_t :=
  if header_empty h then Some value
  else
    '(ty, content) ← read_loop (next_offset (pool s)) (mem s) (Z.to_nat (byte_count h) - 1) (GetCellCount h)
                       (GetCellCount h) 0 0 (head_offset h) 0%Z [];
    Some (mk_value ty content (v_empty value)).

(** [MVCCValueStore::FreeValue] (layout/mvcc_value_store.cpp:151-155). *)
Definition FreeValue (s : ValueStore) (h : ValueHeader) (tid : nat) : option ValueStore :=
  p ← free_cells (pool s) (head_offset h) (GetCellCount h) tid; Some (mk_store p (mem s)).

(** ** Taking and returning cells *)

Lemma with_counters st ls shared used tid b b' : pool_ok st ls shared used -> blocks st !! tid = Some b ->
  block_head b' = block_head b -> block_tail b' = block_tail b -> free_cell_count b' = free_cell_count b ->
  pool_ok (with_block st tid b') ls shared used /\ blocks (with_block st tid b') !! tid = Some b'.
Proof.
  intros Hok Hb H1 H2 H3. destruct (Forall2_lookup_l _ _ _ _ _ (po_blocks _ _ _ _ Hok) Hb) as (l & Hl & Hc & Hf & Hge).
  split.
  - rewrite <- (list_insert_id ls tid l Hl). eapply pool_rebuild; [done|done|..].
    + apply Hok.
    + done.
    + apply Hok.
    + by rewrite H1, H2.
    + congruence.
    + done.
    + done.
  - cbn. apply list_lookup_insert_eq. by eapply lookup_lt_Some.
Qed.

Lemma skip_loop_spec next hd tl zs k : chain next hd tl zs -> NoDup zs -> 2 <= length zs ->
  skip_loop next tl k hd = if decide (k + 2 <= length zs) then zs !! k else None.
Proof.
  revert hd zs. induction k as [|k IH]; intros hd zs Hc Hnd H2.
  { rewrite decide_True by lia. destruct Hc as (Hh & _). by destruct zs. }
  destruct zs as [|a [|a' zs]]; [cbn in H2; lia..|]. destruct Hc as (Hh & Hl & Hab & Hlk). injection Hh as ->.
  cbn [skip_loop]. rewrite Hab. cbn [mbind option_bind]. rewrite last_cons_cons in Hl.
  apply NoDup_cons in Hnd as [_ Hnd]. destruct (Nat.eqb_spec a' tl) as [->|Hne].
  - rewrite decide_False; [done|]. destruct zs as [|a2 zs]; [cbn; lia|]. apply NoDup_cons in Hnd as [Hn _].
    destruct Hn. rewrite last_cons_cons in Hl. by apply last_Some_elem_of.
  - assert (2 <= length (a' :: zs)) as H2' by (destruct zs; [injection Hl as ->; done|cbn; lia]).
    rewrite (IH a' (a' :: zs)) by done. cbn [length]. repeat case_decide; done || lia.
Qed.

(** The links of the cells in use stay as they are. *)
Definition keeps_links (used : list nat) st st' : Prop :=
  forall x, x ∈ used -> next_offset st' !! x = next_offset st !! x.

Lemma lookup_last_take (l : list nat) n m : 0 < n -> n <= length l -> l !! (n - 1) = Some m -> last (take n l) = Some m.
Proof.
  intros Hn Hl Hm. rewrite last_lookup, length_take, lookup_take_lt by lia. rewrite <- Hm. f_equal. lia.
Qed.

Lemma give_back_next st tid b n st' : give_back st tid b n = Some st' ->
  next_offset st' = <[tail_ st := block_head b]> (next_offset st).
Proof.
  unfold give_back. destruct (walk (next_offset st) (block_head b) (n - 1)) as [t|]; [|done]. cbn [mbind option_bind].
  destruct (next_offset st !! t); [|done]. cbn [mbind option_bind]. by intros [= <-].
Qed.

(** The first cells of a chain. *)
Lemma chain_prefix next hd tl l n : chain next hd tl l -> 0 < n < length l ->
  exists m y, l !! n = Some y /\ chain next hd m (take n l) /\ chain next y tl (drop n l).
Proof.
  intros Hc Hn. destruct (lookup_lt_is_Some_2 l n) as [y Hy]; [lia|].
  destruct (lookup_lt_is_Some_2 l (n - 1)) as [m Hm]; [lia|].
  rewrite <- (take_drop_middle l n y Hy) in Hc.
  destruct (chain_split _ _ _ _ _ _ m Hc) as (H1 & _ & H3); [apply lookup_last_take; lia || done|].
  exists m, y. rewrite (drop_S l y n Hy). done.
Qed.

Lemma take_local_spec st ls shared used tid b l count : pool_ok st ls shared used ->
  blocks st !! tid = Some b -> ls !! tid = Some l -> 0 < count -> count + 2 <= length l ->
  exists h m, walk (next_offset st) (block_head b) count = Some h /\
    chain (next_offset st) (block_head b) m (take count l) /\
    pool_ok (with_block st tid (mk_block h (block_tail b) (free_cell_count b - count) (get_counter b) (free_counter b)))
      (<[tid := drop count l]> ls) shared (take count l ++ used).
Proof.
  intros Hok Hb Hl Hc0 Hlen. destruct (block_chain _ _ _ _ _ _ _ Hok Hb Hl) as (Hc & Hf & _).
  destruct (chain_prefix _ _ _ _ count Hc) as (m & y & Hy & Hc1 & Hc2); [lia|].
  exists y, m. rewrite (chain_walk _ _ _ l count Hc) by lia. split_and!; [done|done|].
  eapply pool_rebuild; [done|done|apply Hok|done|apply Hok|done|..]; cbn.
  - rewrite length_drop. lia.
  - rewrite length_drop. lia.
  - rewrite <- (take_drop count l) at 3. solve_Permutation.
Qed.

Lemma get_cells_spec st ls shared used tid l count : 1 < BLOCK_SIZE -> pool_ok st ls shared used ->
  ls !! tid = Some l -> 2 <= length shared -> 0 < count ->
  match get_cells st count tid with
  | Some (c, st') => exists xs m l' shared', length xs = count /\ chain (next_offset st') c m xs /\
      pool_ok st' (<[tid := l']> ls) shared' (xs ++ used) /\ 2 <= length shared' /\
      keeps_links used st st' /\ cell_count st' = cell_count st
  | None => length shared < Nat.max BLOCK_SIZE count + 2
  end.
Proof.
  intros HB Hok Hl H2 Hcount. destruct (Forall2_lookup_r _ _ _ _ _ (po_blocks _ _ _ _ Hok) Hl) as (b0 & Hb0 & _).
  unfold get_cells. rewrite Hb0. cbn [mbind option_bind]. set (b := count_got b0 count).
  destruct (with_counters st ls shared used tid b0 b Hok Hb0 eq_refl eq_refl eq_refl) as [Hok0 Hb].
  set (st0 := with_block st tid b) in *. destruct (block_chain _ _ _ _ _ _ _ Hok0 Hb Hl) as (Hc & Hf & Hl2).
  pose proof (pool_nodup _ _ _ _ _ _ Hok0 Hl) as Hnd. apply NoDup_app in Hnd as (_ & Hdis & Hnd).
  apply NoDup_app in Hnd as (Hns & _).
  destruct ((BLOCK_SIZE <? count) && (free_cell_count b <? count + 2)) eqn:Hcase.
  - rewrite (skip_loop_spec _ _ _ shared count (po_shared _ _ _ _ Hok0) Hns H2).
    case_decide as Hlt; [|cbn; lia].
    destruct (chain_prefix _ _ _ _ count (po_shared _ _ _ _ Hok0)) as (m & y & Hy & Hc1 & Hc2); [lia|].
    rewrite Hy. cbn [mbind option_bind]. exists (take count shared), m, l, (drop count shared).
    split_and!; [rewrite length_take; lia|exact Hc1| |rewrite length_drop; lia|done|done].
    apply (pool_rebuild st ls shared used tid l (next_offset st) y (tail_ st) b l (drop count shared)
      (take count shared ++ used)); try done; [apply Hok|].
    rewrite <- (take_drop count shared) at 3. solve_Permutation.
  - destruct (Nat.ltb_spec (free_cell_count b) (count + 2)) as [Hfew|Hmany].
    + rewrite andb_true_r in Hcase. apply Nat.ltb_ge in Hcase.
      destruct (decide (length shared < BLOCK_SIZE + 2)) as [Hs|Hs].
      { rewrite (fetch_fails BLOCK_SIZE st0 ls shared used tid b l) by (done || lia). cbn. lia. }
      destruct (fetch_spec BLOCK_SIZE st0 ls shared used tid b l) as
        (st1 & s1 & s2 & tl & Hfetch & -> & L1 & Hok1 & Hcc & Hb1); [lia|done..|lia|].
      rewrite Hfetch. cbn [mbind option_bind]. rewrite Hb1. cbn [mbind option_bind block_head].
      destruct (take_local_spec st1 _ s2 used tid _ (l ++ s1) count Hok1 Hb1) as (h & m & Hw & Hcm & Hok2).
      { apply list_lookup_insert_eq. by eapply lookup_lt_Some. }
      { done. } { rewrite length_app. lia. }
      cbn [block_head] in Hw, Hcm. rewrite Hw. cbn [mbind option_bind].
      rewrite list_insert_insert_eq in Hok2. rewrite length_app in Hs.
      exists (take count (l ++ s1)), m, (drop count (l ++ s1)), s2.
      split_and!; [rewrite length_take, length_app; lia|exact Hcm|exact Hok2|lia| |done].
      intros x Hx. cbn [next_offset with_block]. unfold fetch in Hfetch.
      destruct (fetch_loop _ _ _ _ _) as [[??]|]; [|done]. cbn in Hfetch. injection Hfetch as <-. cbn.
      apply list_lookup_insert_ne. intros <-. apply (Hdis (block_tail b0)); [by eapply (chain_tail_in _ _ _ _ Hc)|].
      set_solver.
    + cbn [mbind option_bind]. rewrite Hb. cbn [mbind option_bind].
      destruct (take_local_spec st0 ls shared used tid b l count Hok0 Hb Hl) as (h & m & Hw & Hcm & Hok2); [lia..|].
      rewrite Hw. cbn [mbind option_bind]. exists (take count l), m, (drop count l), shared.
      split_and!; [rewrite length_take; lia|exact Hcm|exact Hok2|done|done|done].
Qed.

(** The cells of a thread, of the shared block and of a value are distinct. *)
Lemma free_facts st ls shared used used' xs tid b l : pool_ok st ls shared used ->
  blocks st !! tid = Some b -> ls !! tid = Some l -> used ≡ₚ xs ++ used' ->
  NoDup (l ++ xs) /\ NoDup (shared ++ xs) /\ (forall x, x ∈ used' -> (x ∉ l) /\ (x ∉ shared)) /\
  (tail_ st ∉ l) /\ (tail_ st ∉ others ls tid) /\ tail_ st < length (next_offset st) /\
  block_tail b ∈ l /\ block_tail b < length (next_offset st).
Proof.
  intros Hok Hb Hl Hu. destruct (block_chain _ _ _ _ _ _ _ Hok Hb Hl) as (Hc & _).
  pose proof (pool_nodup _ _ _ _ _ _ Hok Hl) as Hnd. rewrite Hu in Hnd.
  assert (tail_ st ∈ shared) as Htin by (apply (chain_tail_in _ _ _ _ (po_shared _ _ _ _ Hok))).
  assert (block_tail b ∈ l) as Hbin by (by eapply chain_tail_in).
  assert (l ++ shared ++ (xs ++ used') ++ others ls tid ≡ₚ (l ++ xs) ++ shared ++ used' ++ others ls tid) as E1 by solve_Permutation.
  assert (l ++ shared ++ (xs ++ used') ++ others ls tid ≡ₚ (shared ++ xs) ++ l ++ used' ++ others ls tid) as E2 by solve_Permutation.
  pose proof Hnd as Hn1. rewrite E1 in Hn1. pose proof Hnd as Hn2. rewrite E2 in Hn2.
  apply NoDup_app in Hn1 as (? & Hd1 & _). apply NoDup_app in Hn2 as (? & Hd2 & _).
  rewrite (po_len _ _ _ _ Hok). split_and!; [done|done|intros x Hx; split; intros Hx'|..|done|].
  - apply (Hd1 x); set_solver.
  - apply (Hd2 x); set_solver.
  - intros Hx. apply (Hd2 (tail_ st)); set_solver.
  - intros Hx. apply (Hd2 (tail_ st)); set_solver.
  - eapply pool_in_range; [done|done|set_solver].
  - eapply pool_in_range; [done|done|set_solver].
Qed.

Lemma free_cells_spec st ls shared used used' xs tid l c m : 1 < BLOCK_SIZE -> pool_ok st ls shared used ->
  ls !! tid = Some l -> 2 <= length shared -> used ≡ₚ xs ++ used' -> chain (next_offset st) c m xs ->
  exists st' l' shared', free_cells st c (length xs) tid = Some st' /\
    pool_ok st' (<[tid := l']> ls) shared' used' /\ 2 <= length shared' /\
    keeps_links used' st st' /\ cell_count st' = cell_count st.
Proof.
  intros HB Hok Hl H2 Hu Hxs. destruct (Forall2_lookup_r _ _ _ _ _ (po_blocks _ _ _ _ Hok) Hl) as (b0 & Hb0 & _).
  unfold free_cells. rewrite Hb0. cbn [mbind option_bind]. set (b := count_freed b0 (length xs)).
  destruct (with_counters st ls shared used tid b0 b Hok Hb0 eq_refl eq_refl eq_refl) as [Hok0 Hb].
  set (st0 := with_block st tid b) in *. destruct (block_chain _ _ _ _ _ _ _ Hok0 Hb Hl) as (Hc & Hf & Hl2).
  assert (0 < length xs) as Hpos by (destruct Hxs as (Hh & _); destruct xs; [done|cbn; lia]).
  destruct (free_facts st ls shared used used' xs tid b0 l Hok Hb0 Hl Hu)
    as (N1 & N2 & N3 & N4 & N5 & Hrange & Hbin & Hbrange).
  pose proof (chain_walk _ _ _ _ (length xs - 1) Hxs ltac:(lia)) as Hw.
  assert (xs !! (length xs - 1) = Some m) as Hm.
  { destruct Hxs as (_ & Hlast & _). rewrite last_lookup in Hlast. rewrite <- Hlast. f_equal. lia. }
  destruct (_ && _).
  - cbn [next_offset with_block st0]. rewrite Hw, Hm. cbn [mbind option_bind].
    exists (mk_pool (<[tail_ st := c]> (next_offset st)) (cell_count st) (head_ st) m (<[tid := b]> (blocks st))),
      l, (shared ++ xs). split_and!; [done| |rewrite length_app; lia| |done].
    + eapply pool_rebuild; [exact Hok|exact Hl|..|exact Hf|done|].
      * rewrite length_insert. apply Hok.
      * intros x Hx. apply list_lookup_insert_ne. by intros <-.
      * apply chain_join; [apply Hok|done|done|done].
      * apply (chain_agree (next_offset st)); [|by apply NoDup_app in N1 as [? _]|done]. intros x Hx _.
        apply list_lookup_insert_ne. by intros <-.
      * rewrite Hu. solve_Permutation.
    + intros x Hx. cbn. apply list_lookup_insert_ne. intros <-. destruct (N3 _ Hx) as [_ Hn]. by apply Hn, (chain_tail_in _ _ _ _ (po_shared _ _ _ _ Hok)).
  - pose proof (attach_spec st0 ls shared used tid b l c m xs used' (get_counter b) (free_counter b) Hok0 Hb Hl Hu Hxs) as Hok1.
    cbn [next_offset with_block st0] in Hok1 |- *.
    assert (walk (<[block_tail b := c]> (next_offset st)) (block_tail b) (length xs) = Some m) as ->.
    { assert (chain (<[block_tail b := c]> (next_offset st)) (block_tail b) m ([block_tail b] ++ xs)) as Hj.
      { apply chain_join; [done|done| |].
        - apply NoDup_app in N1 as (_ & Hd & ?). apply NoDup_cons. split; [by apply Hd|done].
        - done. }
      rewrite (chain_walk _ _ _ _ _ Hj) by (cbn; lia). destruct xs; [done|]. cbn in Hm |- *.
      by rewrite Nat.sub_0_r in Hm. }
    cbn [mbind option_bind]. cbn [blocks cell_count head_ tail_ free_cell_count].
    assert (keeps_links used' st (mk_pool (<[block_tail b := c]> (next_offset st)) (cell_count st) (head_ st) (tail_ st) (blocks st))) as Hkeep.
    { intros x Hx. cbn. apply list_lookup_insert_ne. intros <-. destruct (N3 _ Hx) as [Hn _]. by apply Hn. }
    destruct (Nat.leb_spec (2 * BLOCK_SIZE) (free_cell_count b + length xs)) as [Hbig|Hsmall].
    + edestruct (give_back_spec _ _ _ _ tid
        (mk_block (block_head b) m (free_cell_count b + length xs) (get_counter b) (free_counter b))
        (l ++ xs) (free_cell_count b + length xs - BLOCK_SIZE) Hok1) as (st' & Hg & Hcc & Hok').
      * cbn. apply list_lookup_insert_eq. rewrite length_insert. by eapply lookup_lt_Some.
      * apply list_lookup_insert_eq. by eapply lookup_lt_Some.
      * lia.
      * rewrite length_app. lia.
      * rewrite Hg. rewrite list_insert_insert_eq in Hok'. eexists _, _, _. split_and!; [done|done| | |done].
        -- rewrite length_app. lia.
        -- intros x Hx. rewrite (give_back_next _ _ _ _ _ Hg). cbn [next_offset tail_].
           rewrite list_lookup_insert_ne by (intros <-; destruct (N3 _ Hx) as [_ Hn]; by apply Hn, (chain_tail_in _ _ _ _ (po_shared _ _ _ _ Hok))). by apply Hkeep.
    + eexists _, _, _. split_and!; [done|done|done|exact Hkeep|done].
Qed.

(** ** Values in cells *)

Definition data_of (v : value_t) : list Z := u8 (v_type v) :: v_content v.

(** The cells [xs] hold the bytes in order, the last one with a remainder. *)
Definition stored (m : list (list Z)) (i : nat) (xs : list nat) (data : list Z) : Prop :=
  forall j x, xs !! j = Some x -> exists rest, m !! x = Some (take 8 (drop (8 * (i + j)) data) ++ rest).

Lemma stored_cons m i x xs data : stored m i (x :: xs) data <->
  (exists rest, m !! x = Some (take 8 (drop (8 * i) data) ++ rest)) /\ stored m (S i) xs data.
Proof.
  split.
  - intros H. split; [destruct (H 0 x eq_refl) as [r Hr]; exists r; by rewrite Nat.add_0_r in Hr|].
    intros j y Hy. destruct (H (S j) y Hy) as [r Hr]. exists r. by rewrite Nat.add_succ_r in Hr.
  - intros [[r Hr] H] [|j] y Hy; [injection Hy as <-; exists r; by rewrite Nat.add_0_r|].
    rewrite Nat.add_succ_r. by apply H.
Qed.

Lemma stored_agree m m' i xs data : (forall x, x ∈ xs -> m' !! x = m !! x) -> stored m i xs data -> stored m' i xs data.
Proof. intros Hag H j x Hx. rewrite Hag; [by apply H|by eapply list_elem_of_lookup_2]. Qed.

Lemma GetCellCount_bounds h : 0 < Z.to_nat (byte_count h) ->
  0 < GetCellCount h /\ 8 * (GetCellCount h - 1) < Z.to_nat (byte_count h) <= 8 * GetCellCount h.
Proof.
  intros Hb. unfold GetCellCount, MEM_CELL_SIZE.
  destruct (Nat.eqb_spec (Z.to_nat (byte_count h) / 8 * 8) (Z.to_nat (byte_count h))); lia.
Qed.

Lemma drop_data v i : 0 < i -> drop i (data_of v) = drop (i - 1) (v_content v).
Proof. intros Hi. destruct i as [|i]; [lia|]. cbn [data_of drop]. f_equal. lia. Qed.

(** The loop over the cells behind the first one. *)
Lemma insert_loop_rest next v cells xs m i hd tl :
  0 < i -> i + length xs = cells -> 8 * (cells - 1) < length (data_of v) <= 8 * cells ->
  chain next hd tl xs -> NoDup xs -> (forall x, x ∈ xs -> is_Some (m !! x) /\ is_Some (next !! x)) ->
  exists m', insert_loop next v cells (length xs) i (8 * i - 1) hd m = Some m' /\
    stored m' i xs (data_of v) /\ (forall x, (x ∉ xs) -> m' !! x = m !! x).
Proof.
  intros Hi Hlen Hb Hc Hnd Hin. revert i hd m Hi Hlen Hc Hin. induction xs as [|x xs IH];
    intros i hd m Hi Hlen Hc Hin; [by destruct Hc|].
  assert (hd = x) as -> by (destruct Hc as (Hh & _); by injection Hh).
  apply NoDup_cons in Hnd as [Hx Hnd]. destruct (Hin x) as [[cell Hcell] [n Hn]]; [by left|].
  cbn [length insert_loop]. rewrite Hcell. cbn [mbind option_bind]. rewrite Hn. cbn [mbind option_bind].
  destruct (Nat.eqb_spec i 0); [lia|]. cbn in Hlen. cbn [data_of length] in Hb.
  pose proof (lookup_lt_Some _ _ _ Hcell) as Hcl.
  assert (forall m1, exists rest, <[x := overwrite (take 8 (drop (8 * i) (data_of v))) cell]> m1 !! x =
    Some (take 8 (drop (8 * i) (data_of v)) ++ rest) \/ length m1 <= x) as Hfirst.
  { intros m1. eexists. destruct (decide (x < length m1)); [left; by rewrite list_lookup_insert_eq|right; lia]. }
  assert (drop (8 * i) (data_of v) = drop (8 * i - 1) (v_content v)) as Hdrop by (apply drop_data; lia).
  destruct (Nat.eqb_spec i (cells - 1)) as [Hlast|Hmid].
  - assert (xs = []) as -> by (destruct xs; [done|cbn in Hlen; lia]). cbn [length insert_loop].
    eexists. split; [done|].
    assert (take (length (v_content v) - (8 * i - 1)) (drop (8 * i - 1) (v_content v)) = take 8 (drop (8 * i) (data_of v))) as ->.
    { rewrite Hdrop, !take_ge; [done|rewrite length_drop; lia..]. }
    split; [apply stored_cons; split; [|by intros ??]|].
    + destruct (Hfirst m) as [r [Hr|?]]; [by exists r|lia].
    + intros y Hy. apply list_lookup_insert_ne. set_solver.
  - destruct xs as [|y xs]; [cbn in Hlen; lia|]. destruct Hc as (_ & Hl & Hxy & Hk). replace n with y in * by congruence.
    unfold MEM_CELL_SIZE. replace (8 * i - 1 + 8) with (8 * S i - 1) by lia. rewrite <- Hdrop.
    destruct (IH Hnd (S i) y (<[x := overwrite (take 8 (drop (8 * i) (data_of v))) cell]> m)) as (m' & Hm' & Hst & Hfr).
    + lia.
    + cbn in Hlen |- *. lia.
    + by split.
    + intros z Hz. destruct (Hin z) as [? ?]; [by right|]. split; [|done].
      rewrite list_lookup_insert_ne by (intros ->; done). done.
    + exists m'. split; [exact Hm'|]. split; [apply stored_cons; split; [|done]|].
      * rewrite Hfr by done. destruct (Hfirst m) as [r [Hr|?]]; [by exists r|lia].
      * intros z Hz. apply not_elem_of_cons in Hz as [? ?]. rewrite Hfr by done. by apply list_lookup_insert_ne.
Qed.

Lemma insert_loop_spec next v xs m hd tl :
  8 * (length xs - 1) < length (data_of v) <= 8 * length xs ->
  chain next hd tl xs -> NoDup xs -> (forall x, x ∈ xs -> is_Some (m !! x) /\ is_Some (next !! x)) ->
  exists m', insert_loop next v (length xs) (length xs) 0 0 hd m = Some m' /\
    stored m' 0 xs (data_of v) /\ (forall x, (x ∉ xs) -> m' !! x = m !! x).
Proof.
  intros Hb Hc Hnd Hin. destruct xs as [|x xs]; [by destruct Hc|].
  assert (hd = x) as -> by (destruct Hc as (Hh & _); by injection Hh).
  apply NoDup_cons in Hnd as [Hx Hnd]. destruct (Hin x) as [[cell Hcell] [n Hn]]; [by left|].
  cbn [length insert_loop]. rewrite Hcell. cbn [mbind option_bind]. rewrite Hn. cbn [mbind option_bind].
  cbn [Nat.eqb drop]. pose proof (lookup_lt_Some _ _ _ Hcell) as Hcl. cbn [length] in Hb.
  unfold MEM_CELL_SIZE. cbn [data_of length] in Hb.
  assert (exists rest, <[x := overwrite (take 8 (data_of v)) cell]> m !! x =
    Some (take 8 (drop (8 * 0) (data_of v)) ++ rest)) as Hfirst
    by (rewrite list_lookup_insert_eq by done; by eexists).
  destruct xs as [|y xs].
  - destruct (Nat.ltb_spec (length (v_content v)) (8 - 1)); cbn [insert_loop]; eexists; (split; [done|]).
    + replace (u8 (v_type v) :: v_content v) with (take 8 (data_of v)) by (apply take_ge; cbn; lia).
      split; [apply stored_cons; split; [done|by intros ??]|]. intros z Hz. apply list_lookup_insert_ne. set_solver.
    + change (u8 (v_type v) :: take (8 - 1) (v_content v)) with (take 8 (data_of v)).
      split; [apply stored_cons; split; [done|by intros ??]|]. intros z Hz. apply list_lookup_insert_ne. set_solver.
  - cbn [length] in Hb. destruct (Nat.ltb_spec (length (v_content v)) (8 - 1)); [lia|].
    change (u8 (v_type v) :: take (8 - 1) (v_content v)) with (take 8 (data_of v)).
    destruct Hc as (_ & Hl & Hxy & Hk). replace n with y in * by congruence.
    destruct (insert_loop_rest next v (S (length (y :: xs))) (y :: xs)
      (<[x := overwrite (take 8 (data_of v)) cell]> m) 1 y tl) as (m' & Hm' & Hst & Hfr); try done; try (cbn; lia).
    + intros z Hz. destruct (Hin z) as [? ?]; [by right|]. split; [|done].
      rewrite list_lookup_insert_ne by (intros ->; done). done.
    + exists m'. split; [exact Hm'|]. split; [apply stored_cons; split; [by rewrite Hfr|done]|].
      intros z Hz. apply not_elem_of_cons in Hz as [? ?]. rewrite Hfr by done. by apply list_lookup_insert_ne.
Qed.

Lemma read_loop_rest next m v cells xs i hd tl ty :
  0 < i -> i + length xs = cells -> 8 * (cells - 1) < length (data_of v) <= 8 * cells ->
  chain next hd tl xs -> (forall x, x ∈ xs -> is_Some (next !! x)) -> stored m i xs (data_of v) ->
  read_loop next m (length (v_content v)) cells (length xs) i (8 * i - 1) hd ty (take (8 * i - 1) (v_content v)) =
  Some (ty, v_content v).
Proof.
  intros Hi Hlen Hb Hc Hin Hst. revert i hd Hi Hlen Hc Hin Hst.
  induction xs as [|x xs IH]; intros i hd Hi Hlen Hc Hin Hst; [by destruct Hc|].
  assert (hd = x) as -> by (destruct Hc as (Hh & _); by injection Hh).
  apply stored_cons in Hst as [[rest Hr] Hst]. destruct (Hin x) as [n Hn]; [by left|].
  cbn [length read_loop]. rewrite Hr. cbn [mbind option_bind]. rewrite Hn. cbn [mbind option_bind].
  destruct (Nat.eqb_spec i 0); [lia|]. cbn in Hlen. cbn [data_of length] in Hb.
  assert (drop (8 * i) (data_of v) = drop (8 * i - 1) (v_content v)) as -> by (apply drop_data; lia).
  destruct (Nat.eqb_spec i (cells - 1)) as [Hlast|Hmid].
  - assert (xs = []) as -> by (destruct xs; [done|cbn in Hlen; lia]). cbn [length read_loop]. do 2 f_equal.
    pose proof (length_drop (v_content v) (8 * i - 1)) as Ld.
    rewrite (take_ge (drop (8 * i - 1) (v_content v)) 8) by lia. rewrite take_app_length' by lia.
    apply take_drop.
  - destruct xs as [|y xs]; [cbn in Hlen; lia|]. destruct Hc as (_ & Hl & Hxy & Hk). replace n with y in * by congruence.
    unfold MEM_CELL_SIZE. replace (8 * i - 1 + 8) with (8 * S i - 1) by lia.
    assert (length (take 8 (drop (8 * i - 1) (v_content v))) = 8) as L8 by (rewrite length_take, length_drop; lia).
    rewrite take_app_le, take_take by lia. rewrite Nat.min_id.
    replace (take (8 * i - 1) (v_content v) ++ take 8 (drop (8 * i - 1) (v_content v)))
      with (take (8 * S i - 1) (v_content v)).
    2:{ replace (8 * S i - 1) with (8 * i - 1 + 8) by lia. by rewrite take_take_drop. }
    apply IH; [lia|cbn in Hlen |- *; lia|by split|intros; apply Hin; by right|done].
Qed.

Lemma read_loop_spec next m v xs hd tl :
  8 * (length xs - 1) < length (data_of v) <= 8 * length xs ->
  chain next hd tl xs -> (forall x, x ∈ xs -> is_Some (next !! x)) -> stored m 0 xs (data_of v) ->
  read_loop next m (length (v_content v)) (length xs) (length xs) 0 0 hd 0%Z [] = Some (u8 (v_type v), v_content v).
Proof.
  intros Hb Hc Hin Hst. destruct xs as [|x xs]; [by destruct Hc|].
  assert (hd = x) as -> by (destruct Hc as (Hh & _); by injection Hh).
  apply stored_cons in Hst as [[rest Hr] Hst]. destruct (Hin x) as [n Hn]; [by left|].
  rewrite Nat.mul_0_r, drop_0 in Hr. change (take 8 (data_of v)) with (u8 (v_type v) :: take 7 (v_content v)) in Hr.
  cbn [length read_loop]. rewrite Hr. cbn [mbind option_bind]. rewrite Hn.
  cbn [mbind option_bind Nat.eqb app head]. cbn [data_of length] in Hb. unfold MEM_CELL_SIZE.
  change (drop 1 ((u8 (v_type v) :: take 7 (v_content v) ++ rest))) with (take 7 (v_content v) ++ rest).
  destruct xs as [|y xs].
  - cbn [length] in Hb. destruct (Nat.ltb_spec (length (v_content v)) (8 - 1)); cbn [length read_loop]; do 2 f_equal.
    + rewrite (take_ge (v_content v)) by lia. by rewrite take_app_length.
    + rewrite (take_ge (v_content v)) by lia. apply take_app_length'. lia.
  - cbn [length] in Hb. destruct (Nat.ltb_spec (length (v_content v)) (8 - 1)); [lia|].
    destruct Hc as (_ & Hl & Hxy & Hk). replace n with y in * by congruence.
    replace (take (8 - 1) (take 7 (v_content v) ++ rest)) with (take (8 * 1 - 1) (v_content v)).
    2:{ rewrite take_app_le by (rewrite length_take; lia). by rewrite take_take. }
    apply (read_loop_rest next m v _ (y :: xs) 1 y tl); [lia|cbn; lia|cbn [data_of length]; lia|by split|
      intros; apply Hin; by right|done].
Qed.

(** ** Use of the store *)

(** A value that a header can describe. *)
Definition storable (v : value_t) : Prop := (Z.of_nat (length (v_content v)) + 1 < 2 ^ 32)%Z.

(** The calls of the threads; the second component lists the values in the
    store with their headers, and only such a value is freed. *)
Inductive store_step : ValueStore * list (ValueHeader * value_t) -> ValueStore * list (ValueHeader * value_t) -> Prop :=
  | ss_insert s lives v tid h s' : storable v -> tid < length (blocks (pool s)) ->
      InsertValue s v tid = Some (h, s') -> store_step (s, lives) (s', (h, v) :: lives)
  | ss_free s l1 h v l2 tid s' : tid < length (blocks (pool s)) ->
      FreeValue s h tid = Some s' -> store_step (s, l1 ++ (h, v) :: l2) (s', l1 ++ l2).

Definition value_ok (s : ValueStore) (hv : ValueHeader * value_t) (xs : list nat) : Prop :=
  (exists tl, chain (next_offset (pool s)) (head_offset hv.1) tl xs) /\ length xs = GetCellCount hv.1 /\
  byte_count hv.1 = Z.of_nat (length (data_of hv.2)) /\ stored (mem s) 0 xs (data_of hv.2).

Record store_ok (s : ValueStore) (lives : list (ValueHeader * value_t)) (ls : list (list nat)) (shared : list nat)
    (chains : list (list nat)) : Prop := {
  so_pool : pool_ok (pool s) ls shared (concat chains);
  so_shared : 2 <= length shared;
  so_mem : length (mem s) = cell_count (pool s);
  so_values : Forall2 (value_ok s) lives chains;
}.

Definition store_inv (s : ValueStore * list (ValueHeader * value_t)) : Prop :=
  exists ls shared chains, store_ok s.1 s.2 ls shared chains.

Lemma value_ok_agree s s' hv xs (used : list nat) : NoDup xs -> (forall x, x ∈ xs -> x ∈ used) ->
  keeps_links used (pool s) (pool s') -> (forall x, x ∈ xs -> mem s' !! x = mem s !! x) ->
  value_ok s hv xs -> value_ok s' hv xs.
Proof.
  intros Hnd Hin Hk Hm ([tl Hc] & H2 & H3 & H4). split_and!; [|done|done|].
  - exists tl. revert Hc. apply chain_agree; [|done]. intros x Hx _. by apply Hk, Hin.
  - revert H4. apply stored_agree. exact Hm.
Qed.

Lemma insert_loop_length next v cells k i off cur m m' :
  insert_loop next v cells k i off cur m = Some m' -> length m' = length m.
Proof.
  revert i off cur m. induction k as [|k IH]; intros i off cur m; cbn [insert_loop]; [by intros [= <-]|].
  destruct (m !! cur); [|done]. cbn [mbind option_bind]. case_match.
  destruct (next !! cur); [|done]. cbn [mbind option_bind]. intros Hi. apply IH in Hi. by rewrite length_insert in Hi.
Qed.

Lemma chains_nodup st ls shared chains : pool_ok st ls shared (concat chains) -> NoDup (concat chains).
Proof.
  intros Hok. assert (NoDup (concat ls ++ shared ++ concat chains)) as Hnd
    by (rewrite (po_cells _ _ _ _ Hok); apply NoDup_seq).
  apply NoDup_app in Hnd as (_ & _ & Hnd). by apply NoDup_app in Hnd as (_ & _ & Hnd).
Qed.

Lemma used_range st ls shared used x : pool_ok st ls shared used -> x ∈ used -> x < cell_count st.
Proof.
  intros Hok Hx. assert (x ∈ seq 0 (cell_count st)) as Hs by (rewrite <- (po_cells _ _ _ _ Hok); set_solver).
  apply elem_of_seq in Hs. lia.
Qed.

Lemma concat_chain_in (chains : list (list nat)) xs x : xs ∈ chains -> x ∈ xs -> x ∈ concat chains.
Proof. intros H1 H2. apply list_elem_of_In, in_concat. exists xs. split; by apply list_elem_of_In. Qed.

Lemma concat_chain_nodup (chains : list (list nat)) xs : NoDup (concat chains) -> xs ∈ chains -> NoDup xs.
Proof.
  intros Hnd Hin. apply list_elem_of_split in Hin as (c1 & c2 & ->). rewrite concat_app in Hnd. cbn in Hnd.
  apply NoDup_app in Hnd as (_ & _ & Hnd). by apply NoDup_app in Hnd as (? & _).
Qed.

(** Values whose cells and links are left alone stay. *)
Lemma values_agree s s' lives chains (used : list nat) : NoDup (concat chains) ->
  (forall x, x ∈ concat chains -> x ∈ used) -> keeps_links used (pool s) (pool s') ->
  (forall x, x ∈ concat chains -> mem s' !! x = mem s !! x) ->
  Forall2 (value_ok s) lives chains -> Forall2 (value_ok s') lives chains.
Proof.
  intros Hnd Hin Hk Hm Hv. apply Forall2_same_length_lookup_2; [by eapply Forall2_length|].
  intros j hv xs Hj Hxj. pose proof (Forall2_lookup_lr _ _ _ _ _ _ Hv Hj Hxj) as H.
  assert (xs ∈ chains) as Hxs by (by eapply list_elem_of_lookup_2).
  eapply (value_ok_agree s s' hv xs used); [by eapply concat_chain_nodup| |done| |done].
  - intros x Hx. apply Hin. by eapply concat_chain_in.
  - intros x Hx. apply Hm. by eapply concat_chain_in.
Qed.

Lemma insert_ok s lives v tid h s' : 1 < BLOCK_SIZE -> storable v -> tid < length (blocks (pool s)) ->
  InsertValue s v tid = Some (h, s') -> store_inv (s, lives) -> store_inv (s', (h, v) :: lives).
Proof.
  intros HB Hsto Htid Hins (ls & shared & chains & [Hok Hsh Hmem Hvals]). cbn in *. unfold InsertValue in Hins.
  assert (u32 (Z.of_nat (length (v_content v)) + 1) = Z.of_nat (length (data_of v))) as Hu.
  { unfold storable in Hsto. rewrite wrap_small by (unfold fits; lia). cbn. lia. }
  rewrite Hu in Hins. set (cells := GetCellCount (mk_header 0 (Z.of_nat (length (data_of v))))) in *.
  assert (0 < cells /\ 8 * (cells - 1) < length (data_of v) <= 8 * cells) as [Hc0 Hcb].
  { pose proof (GetCellCount_bounds (mk_header 0 (Z.of_nat (length (data_of v))))) as Hg. cbn [byte_count] in Hg.
    rewrite Nat2Z.id in Hg. apply Hg. cbn. lia. }
  destruct (lookup_lt_is_Some_2 ls tid) as [l Hl]; [by rewrite <- (pool_blocks_length _ _ _ _ Hok)|].
  pose proof (get_cells_spec (pool s) ls shared (concat chains) tid l cells HB Hok Hl Hsh Hc0) as Hget.
  destruct (get_cells (pool s) cells tid) as [[c p]|]; [|done]. cbn [mbind option_bind] in Hins.
  destruct Hget as (xs & m & l' & shared' & Hlen & Hch & Hok' & Hsh' & Hkeep & Hcc).
  change (xs ++ concat chains) with (concat (xs :: chains)) in Hok'.
  pose proof (chains_nodup _ _ _ _ Hok') as Hnd'. cbn in Hnd'. apply NoDup_app in Hnd' as (Hndx & Hdis & Hnd).
  rewrite <- Hlen in Hins. destruct (insert_loop_spec (next_offset p) v xs (mem s) c m) as (m' & Hm' & Hst & Hfr).
  - rewrite Hlen. done.
  - done.
  - done.
  - intros x Hx. pose proof (used_range _ _ _ _ x Hok' ltac:(cbn; set_solver)).
    split; apply lookup_lt_is_Some_2; [rewrite Hmem|rewrite (po_len _ _ _ _ Hok')]; lia.
  - rewrite Hm' in Hins. cbn [mbind option_bind] in Hins. injection Hins as <- <-.
    exists (<[tid := l']> ls), shared', (xs :: chains). split; cbn; [done|done|..].
    + rewrite Hcc, <- Hmem. by eapply insert_loop_length.
    + constructor; [split_and!; [by exists m|done|done|done]|].
      eapply values_agree; [exact Hnd|done|exact Hkeep| |exact Hvals].
      intros x Hx. cbn. apply Hfr. intros Hxx. by apply (Hdis x Hxx).
Qed.

Lemma free_ok s l1 h v l2 tid : 1 < BLOCK_SIZE -> tid < length (blocks (pool s)) ->
  store_inv (s, l1 ++ (h, v) :: l2) -> exists s', FreeValue s h tid = Some s' /\ store_inv (s', l1 ++ l2).
Proof.
  intros HB Htid (ls & shared & chains & [Hok Hsh Hmem Hvals]). cbn in *.
  apply Forall2_app_inv_l in Hvals as (c1 & c2' & Hv1 & Hv2 & ->).
  apply Forall2_cons_inv_l in Hv2 as (xs & c2 & Hv & Hv2 & ->).
  destruct (lookup_lt_is_Some_2 ls tid) as [l Hl]; [by rewrite <- (pool_blocks_length _ _ _ _ Hok)|].
  destruct Hv as ([tl Hc] & Hlen & _). cbn in Hc, Hlen.
  assert (concat (c1 ++ xs :: c2) ≡ₚ xs ++ concat (c1 ++ c2)) as Hperm
    by (rewrite !concat_app; cbn; solve_Permutation).
  destruct (free_cells_spec (pool s) ls shared _ (concat (c1 ++ c2)) xs tid l (head_offset h) tl HB Hok Hl Hsh Hperm Hc)
    as (p & l' & shared' & Hf & Hok' & Hsh' & Hkeep & Hcc).
  unfold FreeValue. rewrite <- Hlen, Hf. cbn [mbind option_bind]. eexists. split; [done|].
  exists (<[tid := l']> ls), shared', (c1 ++ c2). split; cbn; [done|done|congruence|].
  eapply (values_agree s); [by eapply (chains_nodup p)|done|done|done|by apply Forall2_app].
Qed.

Lemma read_ok s lives h v junk : store_inv (s, lives) -> (h, v) ∈ lives ->
  ReadValue s h junk = Some (mk_value (u8 (v_type v)) (v_content v) (v_empty junk)).
Proof.
  intros (ls & shared & chains & [Hok Hsh Hmem Hvals]) Hin. cbn in *.
  apply list_elem_of_lookup in Hin as [j Hj].
  destruct (Forall2_lookup_l _ _ _ _ _ Hvals Hj) as (xs & Hxs & [tl Hc] & Hlen & Hbc & Hst). cbn [fst snd] in *.
  unfold ReadValue, header_empty. rewrite Hbc. destruct (Z.eqb_spec (Z.of_nat (length (data_of v))) 0); [cbn in *; lia|].
  rewrite Nat2Z.id, <- Hlen. replace (length (data_of v) - 1) with (length (v_content v)) by (cbn; lia).
  rewrite (read_loop_spec _ _ v xs _ tl); [done|..|done].
  - rewrite Hlen. pose proof (GetCellCount_bounds h) as Hg. rewrite Hbc, Nat2Z.id in Hg. apply Hg. cbn. lia.
  - done.
  - intros x Hx. apply lookup_lt_is_Some_2. rewrite (po_len _ _ _ _ Hok). eapply used_range; [done|].
    eapply concat_chain_in; [by eapply list_elem_of_lookup_2|done].
Qed.
End Store.

Lemma store_init_inv BLOCK_SIZE cells nthreads memory s :
  1 < BLOCK_SIZE -> 0 < nthreads -> length memory = cells ->
  store_init BLOCK_SIZE cells nthreads memory = Some s -> store_inv (s, []).
Proof.
  intros HB Hn Hmem Hi. unfold store_init in Hi. destruct (Init BLOCK_SIZE cells nthreads) as [p|] eqn:Hp; [|done].
  cbn in Hi. injection Hi as <-.
  destruct (pool_reachable BLOCK_SIZE cells nthreads p (p, []) HB Hn Hp (rtc_refl _ _)) as (ls & shared & Hok & _ & Hc & H2 & _).
  exists ls, shared, []. split; [done|done|by rewrite <- Hmem in Hc|constructor].
Qed.

(** C23: the value store returns what was stored: whatever values the threads
    insert and free in whatever order, every value that has not been freed
    reads back with its type and content, however the cells of freed values
    are reused, and freeing it succeeds. *)
Theorem value_store_roundtrip BLOCK_SIZE cells nthreads memory s0 s lives h v junk tid :
  1 < BLOCK_SIZE -> 0 < nthreads -> length memory = cells ->
  store_init BLOCK_SIZE cells nthreads memory = Some s0 ->
  rtc (store_step BLOCK_SIZE) (s0, []) (s, lives) -> (h, v) ∈ lives -> tid < length (blocks (pool s)) ->
  ReadValue s h junk = Some (mk_value (u8 (v_type v)) (v_content v) (v_empty junk)) /\
  is_Some (FreeValue BLOCK_SIZE s h tid).
Proof.
  intros HB Hn Hmem Hi Hr Hin Htid. assert (store_inv (s, lives)) as Hinv.
  { revert Hr. generalize (s, lives). apply (rtc_ind_r store_inv).
    - by eapply store_init_inv.
    - intros [s1 l1] [s2 l2] _ Hstep Hinv. inversion Hstep; subst.
      + by eapply insert_ok.
      + destruct (free_ok BLOCK_SIZE s1 l0 h0 v0 l3 tid0 HB) as (s' & Hf & Hs'); [done|done|]. congruence. }
  split; [by eapply read_ok|]. apply list_elem_of_split in Hin as (l1 & l2 & ->).
  destruct (free_ok BLOCK_SIZE s l1 h v l2 tid HB Htid Hinv) as (s' & -> & _). by eexists.
Qed.

Definition example_value (n : nat) : value_t := mk_value 4 (Z.of_nat <$> seq 1 n) true.
Definition example_store : ValueStore := Eval vm_compute in
  default (mk_store example_pool []) (store_init 3 20 2 (replicate 20 (replicate 8 0%Z))).
Definition example_store1 : ValueStore := Eval vm_compute in
  default example_store (snd <$> InsertValue 3 example_store (example_value 12) 1).
Definition example_header : ValueHeader := Eval vm_compute in
  default (mk_header 0 0) (fst <$> InsertValue 3 example_store (example_value 12) 1).

Lemma value_store_roundtrip_witness :
  ReadValue example_store1 example_header value_default = Some (example_value 12).
Proof.
  refine (proj1 (value_store_roundtrip 3 20 2 (replicate 20 (replicate 8 0%Z)) example_store example_store1
    [(example_header, example_value 12)] example_header (example_value 12) value_default 0 _ _ _ _ _ _ _)).
  - lia.
  - lia.
  - done.
  - by vm_compute.
  - eapply rtc_l; [|apply rtc_refl]. apply (ss_insert 3 example_store [] (example_value 12) 1).
    + by vm_compute.
    + cbn. lia.
    + by vm_compute.
  - by left.
  - cbn. lia.
Defined.
