(* ===== verification/RowChain.v ===== *)
(** * Rows of cells

    The containers of the storage layer are chains of rows with [ROW_CELL_COUNT]
    cells each and a counter of cells (layout/layout_type.hpp).  The chain is a
    list of rows, a pointer to a row is its position in the list, and a pointer
    to a cell is a row with a position in it.  This file has what the property
    rows and the topology rows share: the traversals step from row to row, a
    new cell may need a new row, and a defragmentation moves cells from the
    tail to empty cells.  The lemmas view the chain as one list of cells. *)
From S2P Require Import Prelude.
Local Open Scope nat_scope.

Abbreviation cell_ptr := (nat * nat)%type.

Section Rows.
(** The number of cells in a row, and the cells. *)
Context (R : nat) {C : Type}.
Implicit Types (rs : list (list C)).

Definition cell_at rs (p : cell_ptr) : option C := row ← rs !! p.1; row !! p.2.
Definition set_cell rs (p : cell_ptr) (c : C) : option (list (list C)) :=
  row ← rs !! p.1;
  if p.2 <? length row then Some (<[p.1 := <[p.2 := c]> row]> rs) else None.

(** The step of every loop over the cells: cell [i] is in the next row when a
    row is full. *)
Definition row_of (i r : nat) : nat := if (0 <? i) && (i mod R =? 0) then S r else r.

(** A new last row (layout/property_row_list.tpp:60-68); [new_row] is the row that
    the memory pool returned. *)
Definition add_row rs (tl : option nat) (cell_id : nat) (new_row : list C) : option (list (list C) * option nat) :=
  if cell_id =? 0 then Some ([new_row], Some 0)
  else t ← tl; Some (take (S t) rs ++ [new_row], Some (S t)).

(** The rows with place for cell [cell_id]
    (layout/property_row_list.tpp:153-164). *)
Definition next_place rs (tl : option nat) (cell_id : nat) (new_row : list C)
    : option (list (list C) * option nat) :=
  if cell_id mod R =? 0 then add_row rs tl cell_id new_row else Some (rs, tl).

(** The number of rows that hold [n] cells
    (layout/property_row_list.tpp:588-592). *)
Definition row_count (n : nat) : nat := if n mod R =? 0 then n / R else S (n / R).

Context (live : C -> Prop) {live_dec : forall c, Decision (live c)}.

(** The loop that moves cells from the tail to the empty cells
    (layout/property_row_list.tpp:594-619): cell [idx] of row [r] comes next. *)
Fixpoint move_loop (count : nat) (fuel : nat) rs (q : list cell_ptr) (idx r movable : nat) : option (list (list C)) :=
  match fuel with
  | O => None
  | S f =>
      r' ← (if (idx mod R =? R - 1) && negb (idx =? count - 1) then
              match r with O => None | S r0 => Some r0 end else Some r);
      c ← cell_at rs (r', idx mod R);
      '(rs', q', movable') ←
        (if decide (live c) then e ← head q; rs' ← set_cell rs e c; Some (rs', tail q, movable - 1)
         else Some (rs, q, movable));
      if (length q' =? 0) || (movable' =? 0) then Some rs'
      else match idx with O => Some rs' | S idx' => move_loop count f rs' q' idx' r' movable' end
  end.
End Rows.

(** ** The cells of the rows as one list *)

Section Flat.
Context (R : nat) (HR : 0 < R) {C : Type}.
Implicit Types (rs : list (list C)).

Definition shaped rs : Prop := Forall (fun row => length row = R) rs.
Definition ptr (i : nat) : cell_ptr := (i / R, i mod R).

Lemma ptr_sub i : R <= i -> i / R = S ((i - R) / R) /\ i mod R = (i - R) mod R.
Proof using HR.
  intros. replace i with (i - R + 1 * R) at 1 3 by lia. rewrite Nat.div_add, Nat.Div0.mod_add by lia. lia.
Qed.

Lemma concat_length rs : shaped rs -> length (concat rs) = length rs * R.
Proof. induction 1 as [|row rs E _ IH]; cbn; [done|]. rewrite length_app. lia. Qed.

Lemma cell_at_flat rs i : shaped rs -> cell_at rs (ptr i) = concat rs !! i.
Proof using HR.
  intros H. revert i. induction H as [|row rs E _ IH]; intros i; [done|].
  unfold cell_at, ptr in *. cbn [fst snd concat] in *. destruct (decide (i < R)).
  - rewrite Nat.div_small, Nat.mod_small by done. cbn. by rewrite lookup_app_l by lia.
  - rewrite lookup_app_r by lia. specialize (IH (i - R)). rewrite E, <- IH.
    by destruct (ptr_sub i ltac:(lia)) as [-> ->].
Qed.

Lemma set_cell_flat rs i c : shaped rs -> i < length (concat rs) ->
  exists rs', set_cell rs (ptr i) c = Some rs' /\ shaped rs' /\ length rs' = length rs /\
    concat rs' = <[i := c]> (concat rs).
Proof using HR.
  intros H. revert i. induction H as [|row rs E Hrs IH]; intros i Hi; [cbn in Hi; lia|].
  unfold set_cell, ptr in *. cbn [fst snd concat] in *. rewrite length_app in Hi. destruct (decide (i < R)).
  - rewrite Nat.div_small, Nat.mod_small by done. cbn [lookup list_lookup mbind option_bind].
    rewrite (proj2 (Nat.ltb_lt i (length row))) by lia.
    eexists. split_and!; [done|..].
    + constructor; [by rewrite length_insert|done].
    + done.
    + cbn. by rewrite insert_app_l by lia.
  - destruct (IH (i - R)) as (rs' & Hs & Hsh & Hlen & Hc); [lia|].
    destruct (ptr_sub i ltac:(lia)) as [-> ->]. cbn [lookup list_lookup].
    destruct (rs !! ((i - R) / R)) as [row'|]; [|done]. cbn [mbind option_bind] in *. destruct (_ <? _); [|done]. simplify_eq.
    eexists. split_and!; [done|by constructor|by rewrite length_insert|].
    change (row ++ concat (<[(i - R) / R := <[(i - R) mod R := c]> row']> rs) = <[i := c]> (row ++ concat rs)).
    rewrite Hc, insert_app_r_alt by lia. by rewrite E.
Qed.

Definition prev_row (i : nat) : nat := if i =? 0 then 0 else (i - 1) / R.

Lemma row_of_prev i : row_of R i (prev_row i) = i / R.
Proof using HR.
  unfold row_of, prev_row. destruct i as [|i]; [cbn; by rewrite Nat.Div0.div_0_l|].
  cbn [Nat.eqb Nat.ltb Nat.leb andb]. replace (S i - 1) with i by lia.
  pose proof (Nat.div_mod_eq i R). pose proof (Nat.mod_upper_bound i R ltac:(lia)).
  remember (i / R) as q eqn:Eq. remember (i mod R) as r eqn:Er. clear Eq Er.
  destruct (decide (r = R - 1)) as [E|E].
  - assert (S i = R * S q + 0) as Hs by (rewrite Nat.mul_succ_r; lia).
    rewrite <- (Nat.mod_unique (S i) R (S q) 0 HR Hs). by apply (Nat.div_unique (S i) R (S q) 0).
  - assert (S i = R * q + S r) as Hs by lia. assert (S r < R) as Hr by lia.
    rewrite <- (Nat.mod_unique (S i) R q (S r) Hr Hs). by apply (Nat.div_unique (S i) R q (S r)).
Qed.

Lemma ptr_row_of i : (row_of R i (prev_row i), i mod R) = ptr i.
Proof using HR. by rewrite row_of_prev. Qed.

Lemma prev_row_S i : prev_row (S i) = i / R.
Proof. unfold prev_row. cbn. by rewrite Nat.sub_0_r. Qed.

Lemma row_count_S n : row_count R (S n) = S (n / R).
Proof using HR.
  unfold row_count. rewrite <- !(row_of_prev (S n)), prev_row_S. unfold row_of. cbn [Nat.ltb Nat.leb andb].
  by destruct (S n mod R =? 0).
Qed.

Lemma row_count_ge n : n <= row_count R n * R.
Proof using HR.
  destruct n as [|n]; [lia|]. rewrite row_count_S. cbn. pose proof (Nat.div_mod_eq n R).
  pose proof (Nat.mod_upper_bound n R ltac:(lia)). rewrite (Nat.mul_comm R) in *. remember (n / R * R). lia.
Qed.

Lemma row_count_tail n : 0 < n -> row_count R n = S (prev_row n).
Proof using HR. intros. destruct n as [|n]; [lia|]. by rewrite row_count_S, prev_row_S. Qed.

Lemma row_count_mono n n' : n <= n' -> row_count R n <= row_count R n'.
Proof using HR.
  intros. destruct n as [|n]; [unfold row_count; rewrite Nat.Div0.mod_0_l, Nat.Div0.div_0_l; cbn; lia|].
  destruct n' as [|n']; [lia|]. rewrite !row_count_S. apply le_n_S, Nat.Div0.div_le_mono. lia.
Qed.

Lemma concat_take rs n : shaped rs -> concat (take n rs) = take (n * R) (concat rs).
Proof using HR.
  intros H. revert n. induction H as [|row rs E Hrs IH]; intros [|n]; cbn; try done; [by rewrite take_nil|].
  rewrite IH, take_app, E. rewrite (firstn_all2 row) by lia. do 2 f_equal. lia.
Qed.

Lemma div_succ i : S i / R = if i mod R =? R - 1 then S (i / R) else i / R.
Proof using HR.
  pose proof (Nat.div_mod_eq i R) as Hd. pose proof (Nat.mod_upper_bound i R ltac:(lia)) as Hb.
  remember (i / R) as q eqn:Eq. remember (i mod R) as r eqn:Er. clear Eq Er.
  symmetry. destruct (Nat.eqb_spec r (R - 1)) as [E|E].
  - apply (Nat.div_unique (S i) R (S q) 0); [done|]. rewrite Nat.mul_succ_r. lia.
  - apply (Nat.div_unique (S i) R q (S r)); lia.
Qed.

Definition tail_of (n : nat) : option nat := if n =? 0 then None else Some (prev_row n).

(** The rows are just enough for [n] cells, and the tail is the last one. *)
Record chain_ok rs (tl : option nat) (n : nat) : Prop := {
  ch_shape : shaped rs;
  ch_rows : length rs = row_count R n;
  ch_tail : tl = tail_of n;
}.

Lemma chain_len rs tl n : chain_ok rs tl n -> n <= length (concat rs).
Proof using HR. intros H. rewrite concat_length by apply H. rewrite (ch_rows _ _ _ H). apply row_count_ge. Qed.

Lemma next_place_spec rs tl n new_row : chain_ok rs tl n -> length new_row = R ->
  exists rs', next_place R rs tl n new_row = Some (rs', Some (n / R)) /\ shaped rs' /\
    length rs' = row_count R (S n) /\ take n (concat rs') = take n (concat rs).
Proof using HR.
  intros H Hn. unfold next_place. rewrite row_count_S. pose proof (chain_len _ _ _ H) as Hl.
  destruct (Nat.eqb_spec (n mod R) 0) as [E|E].
  - assert (length rs = n / R) as Hlen by (rewrite (ch_rows _ _ _ H); unfold row_count; by rewrite E).
    exists (rs ++ [new_row]). split_and!.
    + unfold add_row. destruct (Nat.eqb_spec n 0) as [->|E'].
      * rewrite Nat.Div0.div_0_l in *. by rewrite (nil_length_inv _ Hlen).
      * rewrite (ch_tail _ _ _ H). unfold tail_of. destruct (Nat.eqb_spec n 0); [done|].
        cbn [mbind option_bind]. pose proof (row_count_tail n ltac:(lia)) as Ht.
        rewrite <- (ch_rows _ _ _ H) in Ht. rewrite <- Ht, Hlen. by rewrite firstn_all2 by lia.
    + apply Forall_app. split; [apply H|by constructor].
    + rewrite length_app. cbn. lia.
    + rewrite concat_app. by rewrite take_app_le.
  - exists rs. split_and!; [|apply H| |done].
    + do 2 f_equal. rewrite (ch_tail _ _ _ H). unfold tail_of. destruct (Nat.eqb_spec n 0) as [->|E'].
      { by rewrite Nat.Div0.mod_0_l in E. }
      f_equal. rewrite <- row_of_prev. unfold row_of. by rewrite (proj2 (Nat.eqb_neq _ _) E), andb_false_r.
    + rewrite (ch_rows _ _ _ H). unfold row_count. by rewrite (proj2 (Nat.eqb_neq _ _) E).
Qed.

Lemma take_S_insert {A} (l : list A) n x : n < length l -> take (S n) (<[n := x]> l) = take n l ++ [x].
Proof.
  intros. rewrite (take_S_r _ _ x) by (by apply list_lookup_insert_eq). by rewrite take_insert_ge by lia.
Qed.

(** Writing the cell that comes next. *)
Lemma write_next_spec rs tl n new_row c : chain_ok rs tl n -> length new_row = R ->
  exists rs1 rs', next_place R rs tl n new_row = Some (rs1, Some (n / R)) /\
    set_cell rs1 (ptr n) c = Some rs' /\ chain_ok rs' (Some (n / R)) (S n) /\
    take (S n) (concat rs') = take n (concat rs) ++ [c].
Proof using HR.
  intros H Hn. destruct (next_place_spec rs tl n new_row H Hn) as (rs1 & Hp & Hs & Hlen & Ht).
  assert (n < length (concat rs1)) as Hlt by (rewrite concat_length, Hlen by done; apply row_count_ge).
  destruct (set_cell_flat rs1 _ c Hs Hlt) as (rs' & Hc & Hs' & Hlen' & Hcat). exists rs1, rs'.
  split_and!; [done..| |by rewrite Hcat, take_S_insert, Ht].
  split; [done|congruence|]. unfold tail_of. cbn [Nat.eqb]. by rewrite prev_row_S.
Qed.

(** The first [k] cells in just enough rows. *)
Lemma cut_chain rs n k : shaped rs -> length rs = row_count R n -> k <= n ->
  chain_ok (take (row_count R k) rs) (if row_count R k =? 0 then None else Some (row_count R k - 1)) k /\
  take k (concat (take (row_count R k) rs)) = take k (concat rs).
Proof using HR.
  intros Hs Hlen Hk. pose proof (row_count_mono k n Hk). split; [split|].
  - by apply Forall_take.
  - rewrite length_take. lia.
  - unfold tail_of. destruct k as [|k]; [unfold row_count; by rewrite Nat.Div0.mod_0_l, Nat.Div0.div_0_l|].
    rewrite row_count_tail by lia. cbn [Nat.eqb]. by rewrite Nat.sub_1_r.
  - rewrite concat_take, take_take by done. f_equal. pose proof (row_count_ge k). lia.
Qed.
End Flat.

(** ** Moving cells *)

Section Moving.
Context (R : nat) (HR : 0 < R) {C : Type} (live : C -> Prop) {live_dec : forall c, Decision (live c)}.
Implicit Types (rs : list (list C)) (D : list C).

Definition lives D : list C := filter live D.

(** The positions of the null cells among the [k] cells from [i]. *)
Definition nullb D (j : nat) : bool := match D !! j with Some c => bool_decide (~ live c) | None => false end.
Definition nulls D (i k : nat) : list nat := filter (fun j => nullb D j = true) (seq i k).

Lemma elem_of_nulls D i k j : j ∈ nulls D i k <-> i <= j < i + k /\ nullb D j = true.
Proof. unfold nulls. rewrite list_elem_of_filter, elem_of_seq. tauto. Qed.

Lemma nulls_app D i k k' : nulls D i (k + k') = nulls D i k ++ nulls D (i + k) k'.
Proof. unfold nulls. by rewrite seq_app, filter_app. Qed.

Lemma nulls_NoDup D i k : NoDup (nulls D i k).
Proof. apply NoDup_filter, NoDup_seq. Qed.

Lemma nulls_cons D i k : nulls D i (S k) = if nullb D i then i :: nulls D (S i) k else nulls D (S i) k.
Proof. unfold nulls. cbn [seq]. rewrite filter_cons. by destruct (nullb D i). Qed.

Lemma lives_take_S D k c : D !! k = Some c ->
  lives (take (S k) D) = lives (take k D) ++ (if decide (live c) then [c] else []).
Proof. intros H. unfold lives. rewrite (take_S_r _ _ _ H), filter_app, filter_cons, filter_nil. by destruct (decide _). Qed.

Lemma nulls_lives D k : k <= length D -> length (nulls D 0 k) + length (lives (take k D)) = k.
Proof.
  induction k as [|k IH]; intros Hk; [done|].
  destruct (lookup_lt_is_Some_2 D k ltac:(lia)) as [c Hc]. rewrite (lives_take_S _ _ _ Hc).
  replace (S k) with (k + 1) at 1 by lia. rewrite nulls_app, !length_app, nulls_cons. unfold nullb. cbn [Nat.add].
  rewrite Hc. specialize (IH ltac:(lia)). destruct (decide (live c)).
  - rewrite bool_decide_eq_false_2 by tauto. cbn. lia.
  - rewrite bool_decide_eq_true_2 by tauto. cbn. lia.
Qed.

(** Filling the first null cell. *)
Lemma nullb_insert D e c j : live c -> e < length D -> nullb (<[e := c]> D) j = true <-> nullb D j = true /\ j <> e.
Proof.
  intros Hc He. unfold nullb. destruct (decide (j = e)) as [->|Hne].
  - rewrite list_lookup_insert_eq by done. rewrite bool_decide_eq_false_2 by tauto. naive_solver.
  - rewrite list_lookup_insert_ne by done. tauto.
Qed.

Lemma nullb_lt D e : nullb D e = true -> e < length D.
Proof. unfold nullb. destruct (D !! e) eqn:E; [|done]. intros _. by eapply lookup_lt_Some. Qed.

Lemma nulls_fill D e q n c : nulls D 0 n = e :: q -> live c -> nulls (<[e := c]> D) 0 n = q.
Proof.
  intros Hq Hc. assert (e ∈ nulls D 0 n) as [_ He]%elem_of_nulls by (rewrite Hq; left).
  apply nullb_lt in He. pose proof (nulls_NoDup D 0 n) as Hnd.
  assert (nulls (<[e := c]> D) 0 n = filter (fun j => j <> e) (nulls D 0 n)) as ->.
  { unfold nulls. rewrite list_filter_filter. apply list_filter_iff. intros j. rewrite nullb_insert by done. tauto. }
  rewrite Hq in *. apply NoDup_cons in Hnd as [Hne _]. rewrite filter_cons_False by tauto.
  apply filter_all, Forall_forall. intros j Hj ->. done.
Qed.

Lemma lives_fill D e c k : nullb D e = true -> e < k -> live c -> lives (take k (<[e := c]> D)) ≡ₚ c :: lives (take k D).
Proof.
  intros He Hk Hc. unfold nullb in He. destruct (D !! e) as [x|] eqn:Ex; [|done]. apply bool_decide_eq_true in He.
  rewrite take_insert_lt by done. assert (take k D !! e = Some x) as Ex' by (by rewrite lookup_take_lt).
  unfold lives. rewrite (insert_take_drop _ _ _ (lookup_lt_Some _ _ _ Ex')).
  rewrite <- (take_drop_middle _ _ _ Ex') at 3. rewrite !filter_app, filter_cons_True, filter_cons_False by done.
  solve_Permutation.
Qed.

(** The live cells at positions from [k] up to [m]. *)
Definition seg D (k m : nat) : list C := lives (drop k (take m D)).

Lemma seg_S D k m c : D !! m = Some c -> k <= m ->
  seg D k (S m) = seg D k m ++ (if decide (live c) then [c] else []).
Proof.
  intros Hc Hk. pose proof (lookup_lt_Some _ _ _ Hc). unfold seg, lives.
  rewrite (take_S_r _ _ _ Hc), drop_app_le, filter_app by (rewrite length_take; lia).
  rewrite filter_cons, filter_nil. by destruct (decide _).
Qed.

Lemma seg_ge D k m : m <= k -> seg D k m = [].
Proof. intros. unfold seg. rewrite drop_ge; [done|]. rewrite length_take. lia. Qed.

Lemma seg_insert D k m e c : e < k -> seg (<[e := c]> D) k m = seg D k m.
Proof.
  intros. unfold seg. destruct (decide (e < m)).
  - by rewrite take_insert_lt, drop_insert_lt by lia.
  - by rewrite take_insert_ge by lia.
Qed.

(** The row of the cell that comes next in the backward traversal. *)
Definition back_row (n idx : nat) : nat := if idx =? n - 1 then idx / R else S idx / R.

Lemma back_row_step n idx :
  (if (idx mod R =? R - 1) && negb (idx =? n - 1) then match back_row n idx with O => None | S r0 => Some r0 end
   else Some (back_row n idx)) = Some (idx / R).
Proof using HR.
  unfold back_row. rewrite (div_succ R HR). destruct (idx =? n - 1), (idx mod R =? R - 1); done.
Qed.

(** What the moving loop keeps: the live cells of the first [k] places together
    with those that are still to be visited behind them are all live cells
    [L], and the queue has the null cells. *)
Record moving (L : list C) (n k : nat) rs (q : list cell_ptr) (m movable : nat) : Prop := {
  mv_shape : shaped R rs;
  mv_len : n <= length (concat rs);
  mv_k : k <= n;
  mv_queue : q = ptr R <$> nulls (concat rs) 0 n;
  mv_perm : lives (take k (concat rs)) ++ seg (concat rs) k m ≡ₚ L;
  mv_movable : length (seg (concat rs) k m) <= movable;
}.

Lemma moving_done L n k rs q m movable : length L = k -> moving L n k rs q m movable ->
  seg (concat rs) k m = [] -> take k (concat rs) ≡ₚ L.
Proof.
  intros HL H E. pose proof (mv_perm _ _ _ _ _ _ _ H) as Hp. rewrite E, app_nil_r in Hp.
  pose proof (mv_len _ _ _ _ _ _ _ H). pose proof (mv_k _ _ _ _ _ _ _ H).
  rewrite <- Hp. apply Permutation_length in Hp. rewrite HL in Hp.
  pose proof (nulls_lives (concat rs) k ltac:(lia)) as Hc. unfold lives in *. rewrite filter_all; [done|].
  apply Forall_lookup. intros j c Hj. destruct (decide (live c)) as [|Hn]; [done|exfalso].
  assert (j ∈ nulls (concat rs) 0 k) as Hin; [|destruct (nulls (concat rs) 0 k); [by apply not_elem_of_nil in Hin|cbn in *; lia]].
  apply elem_of_nulls. apply lookup_take_Some in Hj as [Hj Hlt]. split; [lia|]. unfold nullb. rewrite Hj.
  by apply bool_decide_eq_true.
Qed.

Lemma moving_null L n k rs q idx mov c : moving L n k rs q (S idx) mov -> concat rs !! idx = Some c -> ~ live c ->
  moving L n k rs q idx mov.
Proof.
  intros [H1 H2 H3 H4 H5 H6] Hc Hn.
  assert (seg (concat rs) k idx = seg (concat rs) k (S idx)) as E.
  { destruct (decide (k <= idx)); [|by rewrite !seg_ge by lia].
    rewrite (seg_S _ _ _ _ Hc) by done. by rewrite decide_False, app_nil_r. }
  by split; rewrite ?E.
Qed.

(** The first null cell is among the first [k] ones just as long as live cells
    remain behind them. *)
Lemma first_null L n k rs q m mov e q' : length L = k -> moving L n k rs q m mov ->
  nulls (concat rs) 0 n = e :: q' -> nullb (concat rs) e = true /\ (e < k <-> seg (concat rs) k m <> []).
Proof.
  intros HL [H1 H2 H3 H4 H5 H6] Hq.
  assert (e ∈ nulls (concat rs) 0 n) as [Hlt He]%elem_of_nulls by (rewrite Hq; left).
  split; [done|]. apply Permutation_length in H5. rewrite length_app, HL in H5.
  pose proof (nulls_lives (concat rs) k ltac:(lia)) as Hc.
  replace n with (k + (n - k)) in Hq by lia. rewrite nulls_app in Hq. split; intros Hk.
  - intros E. rewrite E in H5. cbn in H5. assert (e ∈ nulls (concat rs) 0 k) as Hin by (apply elem_of_nulls; split; [lia|done]).
    destruct (nulls (concat rs) 0 k); [by apply not_elem_of_nil in Hin|cbn in *; lia].
  - destruct (nulls (concat rs) 0 k) as [|x l] eqn:E.
    + destruct (seg (concat rs) k m); [done|]. cbn in *. lia.
    + injection Hq as -> _. assert (e ∈ nulls (concat rs) 0 k) as Hin by (rewrite E; left).
      apply elem_of_nulls in Hin. lia.
Qed.

Lemma moving_live L n k rs q idx mov c : length L = k -> moving L n k rs q (S idx) mov -> q <> [] ->
  concat rs !! idx = Some c -> live c ->
  exists e q' rs', q = e :: q' /\ set_cell rs e c = Some rs' /\ length rs' = length rs /\
    length (concat rs') = length (concat rs) /\ moving L n k rs' q' idx (mov - 1).
Proof using HR.
  intros HL H Hq Hc Hl. pose proof H as [H1 H2 H3 H4 H5 H6].
  destruct (nulls (concat rs) 0 n) as [|e q'] eqn:Eq; [by rewrite H4 in Hq|].
  destruct (first_null L n k rs q (S idx) mov e q' HL H Eq) as [He Hek].
  destruct (set_cell_flat R HR rs e c H1 (nullb_lt _ _ He)) as (rs' & Hset & Hs & Hlen & Hcat).
  exists (ptr R e), (ptr R <$> q'), rs'. split_and!; [done..|by rewrite Hcat, length_insert|].
  assert (lives (take k (concat rs')) ++ seg (concat rs') k idx ≡ₚ L /\
          length (seg (concat rs') k idx) <= mov - 1) as [Hp Hm].
  { destruct (decide (k <= idx)) as [Hki|Hki].
    - pose proof (seg_S _ k _ _ Hc Hki) as Es. rewrite decide_True in Es by done. rewrite Es in *.
      rewrite length_app in H6. cbn in H6. assert (e < k) as Hk by (apply Hek; by destruct (seg (concat rs) k idx)).
      rewrite Hcat, seg_insert by done. split; [|lia]. rewrite lives_fill by done. rewrite <- H5. solve_Permutation.
    - rewrite (seg_ge (concat rs) k (S idx)) in * by lia. rewrite Hcat. rewrite take_insert_ge by (destruct (decide (e < k)); [|lia]; naive_solver).
      rewrite seg_ge by lia. split; [done|cbn; lia]. }
  split; try done.
  - by rewrite Hcat, length_insert.
  - rewrite Hcat. by rewrite (nulls_fill _ _ _ _ _ Eq Hl).
Qed.

Lemma moving_stop L n k rs q m mov : length L = k -> moving L n k rs q m mov ->
  (length q =? 0) || (mov =? 0) = true -> take k (concat rs) ≡ₚ L.
Proof.
  intros HL H Hstop. eapply moving_done; [done..|]. pose proof H as [H1 H2 H3 H4 H5 H6].
  apply orb_true_iff in Hstop as [E%Nat.eqb_eq|E%Nat.eqb_eq]; apply nil_length_inv; [|lia].
  rewrite H4, length_fmap in E. replace n with (k + (n - k)) in E by lia. rewrite nulls_app, length_app in E.
  pose proof (nulls_lives (concat rs) k ltac:(lia)). apply Permutation_length in H5. rewrite length_app in H5. lia.
Qed.

Lemma move_loop_spec L n k idx : length L = k -> forall fuel rs q mov, idx < fuel -> idx < n -> q <> [] ->
  moving L n k rs q (S idx) mov ->
  exists rs', move_loop R live n fuel rs q idx (back_row n idx) mov = Some rs' /\ shaped R rs' /\
    length rs' = length rs /\ take k (concat rs') ≡ₚ L.
Proof using HR.
  intros HL. induction idx as [idx IH] using lt_wf_ind. intros [|f] rs q mov Hf Hn Hq H; [lia|].
  cbn [move_loop]. rewrite back_row_step. cbn [mbind option_bind].
  change (idx / R, idx mod R) with (ptr R idx). rewrite cell_at_flat by (done || apply H).
  pose proof (mv_len _ _ _ _ _ _ _ H) as Hlen.
  destruct (lookup_lt_is_Some_2 (concat rs) idx ltac:(lia)) as [c Hc]. rewrite Hc. cbn [mbind option_bind].
  assert (exists rs' q' mov', (if decide (live c) then e ← head q; rs' ← set_cell rs e c; Some (rs', tail q, mov - 1)
      else Some (rs, q, mov)) = Some (rs', q', mov') /\ length rs' = length rs /\
      moving L n k rs' q' idx mov') as (rs' & q' & mov' & -> & Hl & Hm).
  { destruct (decide (live c)) as [Hv|Hv].
    - destruct (moving_live L n k rs q idx mov c HL H Hq Hc Hv) as (e & q' & rs' & -> & Hset & Hl & _ & Hm).
      exists rs', q', (mov - 1). cbn [head mbind option_bind]. by rewrite Hset.
    - exists rs, q, mov. split_and!; [done..|]. by eapply moving_null. }
  cbn [mbind option_bind]. destruct ((length q' =? 0) || (mov' =? 0)) eqn:Estop.
  { exists rs'. split_and!; [done|apply Hm|done|]. by eapply moving_stop. }
  destruct idx as [|idx].
  - exists rs'. split_and!; [done|apply Hm|done|]. eapply moving_done; [done..|]. by apply seg_ge; lia.
  - replace (S idx / R) with (back_row n idx) by (unfold back_row; destruct (Nat.eqb_spec idx (n - 1)); [lia|done]).
    destruct (IH idx ltac:(lia) f rs' q' mov') as (rs'' & -> & H1 & H2 & H3); [lia|lia| |done|].
    { by destruct q'. }
    exists rs''. split_and!; [done..|lia|done].
Qed.

(** The whole move: the live cells among the first [n] end up in front. *)
Lemma compact_spec rs n : shaped R rs -> length rs = row_count R n -> nulls (concat rs) 0 n <> [] ->
  let k := n - length (nulls (concat rs) 0 n) in
  length (lives (take n (concat rs))) = k /\
  exists rs', move_loop R live n n rs (ptr R <$> nulls (concat rs) 0 n) (n - 1)
      ((if row_count R n =? 0 then 1 else row_count R n) - 1) k = Some rs' /\
    shaped R rs' /\ length rs' = length rs /\ take k (concat rs') ≡ₚ lives (take n (concat rs)).
Proof using HR.
  intros Hs Hlen Hq k.
  assert (n <= length (concat rs)) as Hn by (rewrite (concat_length R HR), Hlen by done; by apply row_count_ge).
  pose proof (nulls_lives (concat rs) n Hn) as Hnl.
  assert (0 < length (nulls (concat rs) 0 n)) as Hpos by (destruct (nulls (concat rs) 0 n); [done|cbn; lia]).
  assert (length (lives (take n (concat rs))) = k) as Hk by lia. split; [done|].
  rewrite (row_count_tail R HR n) by lia. cbn [Nat.eqb].
  replace (S (prev_row R n) - 1) with (back_row n (n - 1)).
  2:{ unfold prev_row, back_row. destruct (Nat.eqb_spec n 0); [lia|]. rewrite Nat.eqb_refl. lia. }
  apply (move_loop_spec _ n k (n - 1) Hk n); [lia|lia|by intros ?%fmap_nil_inv|].
  assert (lives (take k (concat rs)) ++ seg (concat rs) k n = lives (take n (concat rs))) as Esplit.
  { unfold seg, lives. rewrite <- filter_app. f_equal.
    rewrite <- (take_drop k (take n (concat rs))) at 2. by rewrite take_take, Nat.min_l by lia. }
  replace (S (n - 1)) with n by lia. split; [done|done|lia|done|by rewrite Esplit|].
  apply (f_equal length) in Esplit. rewrite length_app in Esplit. lia.
Qed.
End Moving.
