(* ===== verification/PropertyRows.v ===== *)
(** * layout/property_row_list: the properties of a vertex or an edge

    The properties are cells in a chain of rows with [ROW_CELL_COUNT] cells
    each; a cell has a property id and the list of its versions.  The chain is
    the list [rows], a pointer to a row is its position in the list, and a
    pointer to a cell is a row with a position in it.  A list of versions is
    known by its address ([None] for a null pointer).  [None] as a result is a
    failed [CHECK], an invalid access or a missing result.

    A property id is the pair of its owner's word and its key; the hash map
    [cell_map_], which the code builds for long lists, uses the key alone. *)
From S2P Require Import Prelude Types TrxStatus Coordinator TrxStub MvccList CellPool ValueStore Serialization.
From S2P Require Import RowChain.
Local Open Scope nat_scope.

(** [VPHeader] and [EPHeader] (layout/layout_type.hpp:44-88). *)
Record Cell := mk_cell { c_pid : Z * Z; c_list : option nat }.

(** A cell with a list (layout/property_row_list.tpp:607-607). *)
Definition live (c : Cell) : Prop := is_Some (c_list c).
#[global] Instance live_dec c : Decision (live c).
Proof. unfold live. apply _. Defined.

(** [PropertyRowList] (layout/property_row_list.hpp:30-65). *)
Record RowList := mk_rows {
  rows : list (list Cell);
  row_tail : option nat;
  property_count : nat;
  cell_map : option (gmap Z cell_ptr);
}.

(** [PropertyRowList::Init] (layout/property_row_list.tpp:15-20). *)
Definition rows_init : RowList := mk_rows [] None 0 None.

Section Rows.
(** [PropertyRow::ROW_CELL_COUNT], which is also [MAP_THRESHOLD]. *)
Context (R : nat).
Implicit Types (rl : RowList) (pid : Z * Z).

Abbreviation row_of := (row_of R).
Abbreviation row_count := (row_count R).

(** The traversals of [LocateCell] (layout/property_row_list.tpp:127-140) and of
    [AllocateCell], which starts at the cells after the snapshot. *)
Fixpoint locate_loop (rs : list (list Cell)) (k i r : nat) pid : option (option cell_ptr) :=
  match k with
  | O => Some None
  | S k' =>
      let p := (row_of i r, i mod R) in
      c ← cell_at rs p;
      if decide (c_pid c = pid) then Some (Some p) else locate_loop rs k' (S i) p.1 pid
  end.

(** [PropertyRowList::LocateCell] (layout/property_row_list.tpp:107-149): the
    cell, and the snapshot of the count and the tail. *)
Definition LocateCell rl pid : option (option cell_ptr * (nat * option nat)) :=
  r ← match cell_map rl with
      | None => locate_loop (rows rl) (property_count rl) 0 0 pid
      | Some m => Some (m !! pid.2)
      end;
  Some (r, (property_count rl, row_tail rl)).

(** The loop that builds the map (layout/property_row_list.tpp:79-90). *)
Fixpoint build_loop (rs : list (list Cell)) (k i r : nat) (m : gmap Z cell_ptr) : option (gmap Z cell_ptr) :=
  match k with
  | O => Some m
  | S k' =>
      let p := (row_of i r, i mod R) in
      c ← cell_at rs p;
      build_loop rs k' (S i) p.1 (<[(c_pid c).2 := p]> m)
  end.

(** [PropertyRowList::AllocateCell] (layout/property_row_list.tpp:25-104): the new
    cell, or a null pointer when another thread has allocated the property
    since the snapshot. *)
Definition AllocateCell rl pid (recent_count : nat) (tail_snapshot : option nat) (new_row : list Cell)
    : option (option cell_ptr * RowList) :=
  let count := property_count rl in
  found ← (if recent_count =? count then Some None
           else locate_loop (rows rl) (count - recent_count) recent_count (default 0 tail_snapshot) pid);
  match found with
  | Some _ => Some (None, rl)
  | None =>
      '(rs, tl) ← next_place R (rows rl) (row_tail rl) count new_row;
      t ← tl;
      let p := (t, count mod R) in
      rs' ← set_cell rs p (mk_cell pid None);
      m ← (if R <=? count then
             m0 ← match cell_map rl with None => build_loop rs' (S count) 0 0 ∅ | Some m => Some m end;
             Some (Some (<[pid.2 := p]> m0))
           else Some (cell_map rl));
      Some (Some p, mk_rows rs' tl (S count) m)
  end.

(** The list of a cell is assigned once it has a version. *)
Definition assign_list rl (p : cell_ptr) (a : nat) : option RowList :=
  c ← cell_at (rows rl) p;
  rs ← set_cell (rows rl) p (mk_cell (c_pid c) (Some a));
  Some (mk_rows rs (row_tail rl) (property_count rl) (cell_map rl)).

(** [PropertyRowList::InsertInitialCell] (layout/property_row_list.tpp:152-171), [a]
    being the new list with the loaded value. *)
Definition InsertInitialCell rl pid (a : nat) (new_row : list Cell) : option RowList :=
  let cell_id := property_count rl in
  '(rs, tl) ← next_place R (rows rl) (row_tail rl) cell_id new_row;
  t ← tl;
  rs' ← set_cell rs (t, cell_id mod R) (mk_cell pid (Some a));
  Some (mk_rows rs' tl (S cell_id) (cell_map rl)).

(** ** Defragmentation *)

(** The loop of [SelfDefragment] that collects the empty cells
    (layout/property_row_list.tpp:552-578); [empty] tells the lists without
    versions. *)
Fixpoint collect_loop (empty : nat -> bool) (k i r : nat) (rs : list (list Cell)) (q : list cell_ptr)
    (m : option (gmap Z cell_ptr)) : option (list (list Cell) * list cell_ptr * option (gmap Z cell_ptr)) :=
  match k with
  | O => Some (rs, q, m)
  | S k' =>
      let p := (row_of i r, i mod R) in
      c ← cell_at rs p;
      l ← c_list c;
      if empty l then
        rs' ← set_cell rs p (mk_cell (c_pid c) None);
        collect_loop empty k' (S i) p.1 rs' (q ++ [(i / R, i mod R)]) (delete (c_pid c).2 <$> m)
      else collect_loop empty k' (S i) p.1 rs q m
  end.

(** The loop that updates the map (layout/property_row_list.tpp:641-655). *)
Fixpoint reindex_loop (rs : list (list Cell)) (k i r : nat) (m : gmap Z cell_ptr) : option (gmap Z cell_ptr) :=
  match k with
  | O => Some m
  | S k' =>
      let p := (row_of i r, i mod R) in
      c ← cell_at rs p;
      _ ← m !! (c_pid c).2;
      reindex_loop rs k' (S i) p.1 (<[(c_pid c).2 := p]> m)
  end.

(** [PropertyRowList::SelfDefragment] (layout/property_row_list.tpp:534-655): with
    the number of rows that go back to the memory pool. *)
Definition SelfDefragment (empty : nat -> bool) rl : option (nat * RowList) :=
  match rows rl with
  | [] => Some (0, rl)
  | _ =>
      let count := property_count rl in
      let nrows := if row_count count =? 0 then 1 else row_count count in
      '(rs, q, m) ← collect_loop empty count 0 0 (rows rl) [] (cell_map rl);
      match q with
      | [] => Some (0, mk_rows rs (row_tail rl) count m)
      | _ =>
          let cur := count - length q in
          rs' ← move_loop R live count count rs q (count - 1) (nrows - 1) cur;
          let keep := row_count cur in
          let rs'' := take keep rs' in
          m' ← match m with None => Some None | Some m0 => m1 ← reindex_loop rs'' cur 0 0 m0; Some (Some m1) end;
          Some (nrows - keep, mk_rows rs'' (if keep =? 0 then None else Some (keep - 1)) cur m')
      end
  end.

(** ** Reads *)

(** A reader knows the lists through [MVCCList::GetVisibleVersion] for its
    transaction, which also records dependencies in a state of type [D]. *)
Context {D : Type} (get_visible : nat -> D -> option (read_result ValueHeader * D)).
Context (store : ValueStore) (read_only : bool).

(** The read of one cell, common to all readers
    (layout/property_row_list.tpp:335-358): the header when there is one. *)
Definition read_cell (c : Cell) (d : D) : option (read_result ValueHeader * D) :=
  match c_list c with
  | None => Some (if read_only then RNone else RAbort, d)
  | Some l =>
      '(r, d') ← get_visible l d;
      Some (match r with RValue h => if header_empty h then RNone else r | _ => r end, d')
  end.

(** [PropertyRowList::ReadProperty] (layout/property_row_list.tpp:173-203).  For a
    deleted property the function ends without a [return]: its result is
    [None] here. *)
Definition ReadProperty rl pid (d : D) (ret : value_t) : option (READ_STAT * value_t * D) :=
  '(cell, _) ← LocateCell rl pid;
  match cell with
  | None => Some (READ_NOTFOUND, ret, d)
  | Some p =>
      c ← cell_at (rows rl) p;
      match c_list c with
      | None => Some (if read_only then READ_NOTFOUND else READ_ABORT, ret, d)
      | Some l =>
          '(r, d') ← get_visible l d;
          match r with
          | RAbort => Some (READ_ABORT, ret, d')
          | RNone => Some (READ_NOTFOUND, ret, d')
          | RValue h =>
              if header_empty h then None
              else v ← ReadValue store h ret; Some (READ_SUCCESS, v, d')
          end
      end
  end.

(** The loop of [ReadAllProperty] (layout/property_row_list.tpp:327-361); the flag is
    [READ_STAT::ABORT]. *)
Fixpoint read_all_loop (rs : list (list Cell)) (k i r : nat) (d : D) (ret : list (Z * value_t))
    : option (bool * list (Z * value_t) * D) :=
  match k with
  | O => Some (false, ret, d)
  | S k' =>
      let p := (row_of i r, i mod R) in
      c ← cell_at rs p;
      '(x, d') ← read_cell c d;
      match x with
      | RAbort => Some (true, ret, d')
      | RNone => read_all_loop rs k' (S i) p.1 d' ret
      | RValue h => v ← ReadValue store h value_default; read_all_loop rs k' (S i) p.1 d' (ret ++ [((c_pid c).2, v)])
      end
  end.

(** [PropertyRowList::ReadAllProperty] (layout/property_row_list.tpp:313-362). *)
Definition ReadAllProperty rl (d : D) : option (READ_STAT * list (Z * value_t) * D) :=
  '(abort, ret, d') ← read_all_loop (rows rl) (property_count rl) 0 0 d [];
  Some (if abort : bool then READ_ABORT else READ_SUCCESS, ret, d').

(** The loop of [ReadPidList] (layout/property_row_list.tpp:379-408). *)
Fixpoint pid_list_loop (rs : list (list Cell)) (k i r : nat) (d : D) (ret : list (Z * Z))
    : option (bool * list (Z * Z) * D) :=
  match k with
  | O => Some (false, ret, d)
  | S k' =>
      let p := (row_of i r, i mod R) in
      c ← cell_at rs p;
      '(x, d') ← read_cell c d;
      match x with
      | RAbort => Some (true, ret, d')
      | RNone => pid_list_loop rs k' (S i) p.1 d' ret
      | RValue _ => pid_list_loop rs k' (S i) p.1 d' (ret ++ [c_pid c])
      end
  end.

(** [PropertyRowList::ReadPidList] (layout/property_row_list.tpp:364-411). *)
Definition ReadPidList rl (d : D) : option (READ_STAT * list (Z * Z) * D) :=
  '(abort, ret, d') ← pid_list_loop (rows rl) (property_count rl) 0 0 d [];
  Some (if abort : bool then READ_ABORT else READ_SUCCESS, ret, d').

(** The traversal of [ReadPropertyByPKeyList] (layout/property_row_list.tpp:223-271). *)
Fixpoint by_key_loop (rs : list (list Cell)) (k i r : nat) (keys : gset Z) (d : D) (ret : list (Z * value_t))
    : option (bool * list (Z * value_t) * D) :=
  match k with
  | O => Some (false, ret, d)
  | S k' =>
      if decide (keys = ∅) then Some (false, ret, d)
      else
        let p := (row_of i r, i mod R) in
        c ← cell_at rs p;
        let key := (c_pid c).2 in
        if decide (key ∈ keys) then
          '(x, d') ← read_cell c d;
          match x with
          | RAbort => Some (true, ret, d')
          | RNone => by_key_loop rs k' (S i) p.1 (keys ∖ {[key]}) d' ret
          | RValue h => v ← ReadValue store h value_default;
              by_key_loop rs k' (S i) p.1 (keys ∖ {[key]}) d' (ret ++ [(key, v)])
          end
        else by_key_loop rs k' (S i) p.1 keys d ret
  end.

(** The lookups of [ReadPropertyByPKeyList] in the map
    (layout/property_row_list.tpp:272-305). *)
Fixpoint by_map_loop (rs : list (list Cell)) (m : gmap Z cell_ptr) (p_key : list Z) (d : D)
    (ret : list (Z * value_t)) : option (bool * list (Z * value_t) * D) :=
  match p_key with
  | [] => Some (false, ret, d)
  | key :: rest =>
      match m !! key with
      | None => by_map_loop rs m rest d ret
      | Some p =>
          c ← cell_at rs p;
          '(x, d') ← read_cell c d;
          match x with
          | RAbort => Some (true, ret, d')
          | RNone => by_map_loop rs m rest d' ret
          | RValue h => v ← ReadValue store h value_default; by_map_loop rs m rest d' (ret ++ [((c_pid c).2, v)])
          end
      end
  end.

(** [PropertyRowList::ReadPropertyByPKeyList] (layout/property_row_list.tpp:205-311). *)
Definition ReadPropertyByPKeyList rl (p_key : list Z) (d : D) : option (READ_STAT * list (Z * value_t) * D) :=
  match rows rl with
  | [] => Some (READ_NOTFOUND, [], d)
  | _ =>
      '(abort, ret, d') ← match cell_map rl with
                 | None => by_key_loop (rows rl) (property_count rl) 0 0 (list_to_set p_key) d []
                 | Some m => by_map_loop (rows rl) m p_key d []
                 end;
      Some (if abort : bool then READ_ABORT else if 0 <? length ret then READ_SUCCESS else READ_NOTFOUND, ret, d')
  end.
End Rows.

(** ** Modification *)

(** The item of a property holds a header (layout/mvcc_definition.hpp:106-134,
    layout/mvcc_definition.cpp:24-30); the cells of a recycled header go back
    to the value store. *)
#[global] Instance PropertyMVCCItem : MVCCItem ValueHeader := {|
  NeedGC h := negb (header_empty h); ValueGC h := h; IsEmpty := header_empty;
|}.

(** The memory behind the rows: the version lists, their items, the values. *)
Record Memory := mk_memory {
  lists : gmap nat MVCCList; items : gmap nat (Item ValueHeader); values : ValueStore;
}.

Section Modify.
Context (R BLOCK_SIZE : nat).
Implicit Types (rl : RowList) (pid : Z * Z) (m : Memory).

(** [FreeValue] on the recycled headers. *)
Fixpoint free_values (s : ValueStore) (hs : list ValueHeader) (tid : nat) : option ValueStore :=
  match hs with [] => Some s | h :: r => s' ← FreeValue BLOCK_SIZE s h tid; free_values s' r tid end.

(** The part of a modification that appends a version to list [a], and the
    old value (layout/property_row_list.tpp:441-450, 474-483); [q] is a free item. *)
Definition append_to m (a : nat) (trx_id begin : Z) (q tid : nat) (old_val : value_t)
    : option (option nat * value_t * Memory) :=
  l ← lists m !! a;
  '(r, h, l') ← AppendVersion (items m) l trx_id begin q (mk_header 0 0);
  s ← free_values (values m) (ap_freed r) tid;
  old ← (if ap_absent r then Some old_val else ReadValue s (default (mk_header 0 0) (ap_old r)) old_val);
  Some (ap_item r, old, mk_memory (<[a := l']> (lists m)) h s).

(** [ProcessModifyProperty] (layout/property_row_list.tpp:413-460): whether the
    property was modified (and not added), the list of versions unless the
    transaction must abort, and the old value.  [a] is a new list, [q] a free
    item and [new_row] a free row. *)
Definition ProcessModifyProperty rl m pid (value old_val : value_t) (trx_id begin : Z) (a q tid : nat)
    (new_row : list Cell) : option (bool * option nat * value_t * RowList * Memory) :=
  '(cell, (tmp_count, tmp_tail)) ← LocateCell R rl pid;
  match cell with
  | None =>
      '(cell', rl') ← AllocateCell R rl pid tmp_count tmp_tail new_row;
      match cell' with
      | None => Some (false, None, old_val, rl', m)
      | Some p =>
          let m1 := mk_memory (<[a := empty_list]> (lists m)) (items m) (values m) in
          '(v, old, m2) ← append_to m1 a trx_id begin q tid old_val;
          match v with
          | None => Some (true, None, old, rl', m2)
          | Some i =>
              '(h, s) ← InsertValue BLOCK_SIZE (values m2) value tid;
              h' ← write_val (items m2) i h;
              rl'' ← assign_list rl' p a;
              Some (false, Some a, old, rl'', mk_memory (lists m2) h' s)
          end
      end
  | Some p =>
      c ← cell_at (rows rl) p;
      match c_list c with
      | None => Some (true, None, old_val, rl, m)
      | Some l =>
          '(v, old, m2) ← append_to m l trx_id begin q tid old_val;
          match v with
          | None => Some (true, None, old, rl, m2)
          | Some i =>
              '(h, s) ← InsertValue BLOCK_SIZE (values m2) value tid;
              h' ← write_val (items m2) i h;
              Some (true, Some l, old, rl, mk_memory (lists m2) h' s)
          end
      end
  end.

(** [ProcessDropProperty] (layout/property_row_list.tpp:462-488). *)
Definition ProcessDropProperty rl m pid (trx_id begin : Z) (q tid : nat) (old_val : value_t)
    : option (option nat * value_t * Memory) :=
  '(cell, _) ← LocateCell R rl pid;
  p ← cell;
  c ← cell_at (rows rl) p;
  l ← c_list c;
  '(v, old, m2) ← append_to m l trx_id begin q tid old_val;
  match v with
  | None => Some (None, old, m2)
  | Some i =>
      it ← items m2 !! i;
      h' ← write_val (items m2) i (mk_header (head_offset (val it)) 0);
      Some (Some l, old, mk_memory (lists m2) h' (values m2))
  end.

(** The loop of [SelfGarbageCollect] over the cells
    (layout/property_row_list.tpp:504-520): the items and values of all lists. *)
Fixpoint gc_rows_loop (rs : list (list Cell)) (k i r tid : nat) m : option Memory :=
  match k with
  | O => Some m
  | S k' =>
      let p := (row_of R i r, i mod R) in
      c ← cell_at rs p;
      a ← c_list c;
      l ← lists m !! a;
      '(_, vals, h, _) ← SelfGarbageCollect (items m) l;
      s ← free_values (values m) vals tid;
      gc_rows_loop rs k' (S i) p.1 tid (mk_memory (delete a (lists m)) h s)
  end.

(** [PropertyRowList::SelfGarbageCollect] (layout/property_row_list.tpp:490-532): the
    number of freed rows.  The counter is left as it is; the map is deleted
    ([None] here stands for the pointer that is left to it). *)
Definition rows_self_gc rl m (tid : nat) : option (nat * RowList * Memory) :=
  match rows rl with
  | [] => Some (0, rl, m)
  | _ =>
      m' ← gc_rows_loop (rows rl) (property_count rl) 0 0 tid m;
      Some (Nat.max 1 (row_count R (property_count rl)), mk_rows [] None (property_count rl) None, m')
  end.
End Modify.

(** ** The cells of the rows as one list *)

Section Flat.
Context (R : nat) (HR : 0 < R).
Implicit Types (rs : list (list Cell)).

Abbreviation ptr := (ptr R).
Abbreviation prev_row := (prev_row R).
Abbreviation shaped := (shaped R).

Lemma locate_loop_spec rs pid k i : shaped rs -> i + k <= length (concat rs) ->
  exists r, locate_loop R rs k i (prev_row i) pid = Some r /\
    match r with
    | Some p => exists j c, i <= j < i + k /\ p = ptr j /\ concat rs !! j = Some c /\ c_pid c = pid
    | None => forall j c, i <= j < i + k -> concat rs !! j = Some c -> c_pid c <> pid
    end.
Proof using HR.
  intros H. revert i. induction k as [|k IH]; intros i Hi; cbn [locate_loop].
  { exists None. split; [done|]. lia. }
  cbv zeta. rewrite ptr_row_of, cell_at_flat by done.
  destruct (lookup_lt_is_Some_2 (concat rs) i ltac:(lia)) as [c Hc]. rewrite Hc. cbn [mbind option_bind].
  destruct (decide (c_pid c = pid)) as [E|E].
  - exists (Some (ptr i)). split; [done|]. exists i, c. split_and!; [lia|lia|done..].
  - cbn [fst]. cbn [ptr fst]. rewrite <- prev_row_S. destruct (IH (S i)) as (r & -> & Hr); [lia|].
    exists r. split; [done|]. destruct r as [p|].
    + destruct Hr as (j & c' & Hj & Hr). exists j, c'. split; [lia|done].
    + intros j c' Hj Hc'. destruct (decide (j = i)) as [->|]; [congruence|]. apply (Hr j); [lia|done].
Qed.

(** The map [m] holds the positions of the first [n] cells by key. *)
Definition key_at (C : list Cell) (j : nat) (key : Z) : Prop := exists c, C !! j = Some c /\ (c_pid c).2 = key.
Definition indexes (m : gmap Z cell_ptr) (C : list Cell) (n : nat) : Prop :=
  forall key p, m !! key = Some p <-> exists j, j < n /\ p = ptr j /\ key_at C j key.
Definition keys_once (C : list Cell) (n : nat) : Prop :=
  forall i j key, i < n -> j < n -> key_at C i key -> key_at C j key -> i = j.

Lemma indexes_snoc m C n c : indexes m C n -> C !! n = Some c -> keys_once C (S n) ->
  indexes (<[(c_pid c).2 := ptr n]> m) C (S n).
Proof using HR.
  intros Hm Hc Hone key p. rewrite lookup_insert_Some. split.
  - intros [[<- <-]|[Hne Hp]].
    + exists n. split_and!; [lia|done|by exists c].
    + apply Hm in Hp as (j & Hj & Hp). exists j. split; [lia|done].
  - intros (j & Hj & -> & Hk). destruct (decide (j = n)) as [->|].
    + left. destruct Hk as (c' & Hc' & <-). by simplify_eq.
    + right. split; [|apply Hm; exists j; split_and!; [lia|done..]]. intros <-.
      assert (n = j); [|done]. apply (Hone n j (c_pid c).2); [lia..| |done]. by exists c.
Qed.

Lemma keys_once_le C n k : keys_once C n -> k <= n -> keys_once C k.
Proof. intros H Hk i j key Hi Hj. apply H; lia. Qed.

Lemma build_loop_spec rs k i m : shaped rs -> i + k <= length (concat rs) ->
  keys_once (concat rs) (i + k) -> indexes m (concat rs) i ->
  exists m', build_loop R rs k i (prev_row i) m = Some m' /\ indexes m' (concat rs) (i + k).
Proof using HR.
  intros H. revert i m. induction k as [|k IH]; intros i m Hi Hone Hm; cbn [build_loop].
  { exists m. by rewrite Nat.add_0_r. }
  cbv zeta. rewrite ptr_row_of, cell_at_flat by done.
  destruct (lookup_lt_is_Some_2 (concat rs) i ltac:(lia)) as [c Hc]. rewrite Hc. cbn [mbind option_bind].
  cbn [ptr fst]. rewrite <- prev_row_S. rewrite Nat.add_succ_r in *. apply (IH (S i)); [lia|done|].
  apply indexes_snoc; [done..|]. eapply keys_once_le; [done|lia].
Qed.

(** Every remaining key is found and gets its new position. *)
Lemma reindex_loop_spec rs n k i m : shaped rs -> n <= length (concat rs) -> i + k = n ->
  keys_once (concat rs) n ->
  (forall key, is_Some (m !! key) <-> exists j, j < n /\ key_at (concat rs) j key) ->
  (forall j key, j < i -> key_at (concat rs) j key -> m !! key = Some (ptr j)) ->
  exists m', reindex_loop R rs k i (prev_row i) m = Some m' /\ indexes m' (concat rs) n.
Proof using HR.
  intros H Hn. revert i m. induction k as [|k IH]; intros i m Hi Hone Hdom Hm; cbn [reindex_loop].
  { exists m. split; [done|]. intros key p. split.
    - intros Hp. destruct (proj1 (Hdom key)) as (j & Hj & Hk); [by eexists|]. exists j.
      pose proof (Hm j key ltac:(lia) Hk). split_and!; [done|congruence|done].
    - intros (j & Hj & -> & Hk). apply Hm; [lia|done]. }
  cbv zeta. rewrite ptr_row_of, cell_at_flat by done.
  destruct (lookup_lt_is_Some_2 (concat rs) i ltac:(lia)) as [c Hc]. rewrite Hc. cbn [mbind option_bind].
  destruct (proj2 (Hdom (c_pid c).2)) as [p ->]; [exists i; split; [lia|by exists c]|]. cbn [mbind option_bind].
  cbn [ptr fst]. rewrite <- prev_row_S. apply (IH (S i)); [lia|done|..].
  - intros key. rewrite lookup_insert_is_Some, <- Hdom. split; [|intros; destruct (decide ((c_pid c).2 = key)); auto].
    intros [<-|[_ ?]]; [|done]. apply Hdom. exists i. split; [lia|by exists c].
  - intros j key Hj Hk. destruct (decide (j = i)) as [->|].
    + destruct Hk as (c' & Hc' & <-). simplify_eq. apply lookup_insert_eq.
    + rewrite lookup_insert_ne; [apply Hm; [lia|done]|]. intros <-.
      assert (i = j); [|done]. apply (Hone i j (c_pid c).2); [lia..| |done]. by exists c.
Qed.
End Flat.

(** ** The invariant of a row list

    The cells up to the counter belong to the owner and have distinct keys,
    there are just enough rows for them, and the map, if any, indexes them. *)
Section Invariant.
Context (R : nat) (HR : 0 < R) (owner : Z).
Implicit Types (rl : RowList) (pid : Z * Z).

Definition cells rl : list Cell := take (property_count rl) (concat (rows rl)).
Abbreviation tail_of := (tail_of R).

Record rows_ok rl : Prop := {
  ro_shape : shaped R (rows rl);
  ro_rows : length (rows rl) = row_count R (property_count rl);
  ro_tail : row_tail rl = tail_of (property_count rl);
  ro_once : keys_once (cells rl) (property_count rl);
  ro_owner : Forall (fun c => (c_pid c).1 = owner) (cells rl);
  ro_map : forall m, cell_map rl = Some m -> indexes R m (cells rl) (property_count rl);
}.

Lemma rows_chain rl : rows_ok rl -> chain_ok R (rows rl) (row_tail rl) (property_count rl).
Proof. intros []. by split. Qed.

Lemma rows_len rl : rows_ok rl -> property_count rl <= length (concat (rows rl)).
Proof using HR. intros H. by apply (chain_len R HR _ _ _ (rows_chain _ H)). Qed.

Lemma cells_len rl : rows_ok rl -> length (cells rl) = property_count rl.
Proof using HR. intros H%rows_len. unfold cells. rewrite length_take. lia. Qed.

Lemma cells_lookup rl j c : cells rl !! j = Some c <-> j < property_count rl /\ concat (rows rl) !! j = Some c.
Proof. unfold cells. rewrite lookup_take_Some. tauto. Qed.

Lemma cell_at_cells rl j : rows_ok rl -> j < property_count rl -> cell_at (rows rl) (ptr R j) = cells rl !! j.
Proof using HR. intros H Hj. rewrite cell_at_flat by (done || apply H). unfold cells. by rewrite lookup_take_lt. Qed.

Lemma key_at_take C n j key : j < n -> key_at (take n C) j key <-> key_at C j key.
Proof. intros. unfold key_at. by rewrite lookup_take_lt. Qed.

Lemma keys_once_take C n : keys_once (take n C) n <-> keys_once C n.
Proof.
  split; intros H i j key Hi Hj Hk Hk'; apply (H i j key Hi Hj);
    first [by rewrite key_at_take|by rewrite key_at_take in *|by eapply key_at_take].
Qed.

Lemma indexes_take m C n : indexes R m (take n C) n <-> indexes R m C n.
Proof.
  unfold indexes. split; intros H key p; rewrite H; split; intros (j & Hj & E & Hk);
    exists j; rewrite key_at_take in *; done.
Qed.

Lemma keys_once_NoDup rl : rows_ok rl -> NoDup (c_pid <$> cells rl).
Proof using HR.
  intros H. apply NoDup_alt. intros i j x Hi Hj. rewrite !list_lookup_fmap in *.
  destruct (cells rl !! i) as [c|] eqn:Ei, (cells rl !! j) as [c'|] eqn:Ej; cbn in *; try done. injection Hi as <-. injection Hj as Hj.
  pose proof (lookup_lt_Some _ _ _ Ei) as Hl. pose proof (lookup_lt_Some _ _ _ Ej) as Hl'. rewrite cells_len in * by done.
  apply (ro_once _ H i j (c_pid c).2); [done|done|by exists c|exists c'; by rewrite Hj].
Qed.

(** The cell of [pid] by its position, if it has one. *)
Definition is_cell_of rl pid (r : option cell_ptr) : Prop :=
  match r with
  | Some p => exists j c, p = ptr R j /\ cells rl !! j = Some c /\ c_pid c = pid
  | None => forall j c, cells rl !! j = Some c -> c_pid c <> pid
  end.

Lemma scan_spec rl pid : rows_ok rl ->
  exists r, locate_loop R (rows rl) (property_count rl) 0 0 pid = Some r /\ is_cell_of rl pid r.
Proof using HR.
  intros H. destruct (locate_loop_spec R HR (rows rl) pid (property_count rl) 0 (ro_shape _ H) (rows_len _ H))
    as (r & Hr & Hs). exists r. split; [done|]. destruct r as [p|]; cbn in *.
  - destruct Hs as (j & c & Hj & -> & Hc & E). exists j, c. rewrite cells_lookup. split_and!; [done|lia|done..].
  - intros j c [Hj Hc]%cells_lookup. apply (Hs j c); [lia|done].
Qed.

Lemma LocateCell_spec rl pid : rows_ok rl -> pid.1 = owner ->
  exists r, LocateCell R rl pid = Some (r, (property_count rl, tail_of (property_count rl))) /\ is_cell_of rl pid r.
Proof using HR.
  intros H Ho. unfold LocateCell. rewrite (ro_tail _ H). destruct (cell_map rl) as [m|] eqn:Em.
  - exists (m !! pid.2). split; [done|]. pose proof (ro_map _ H _ Em) as Hm. destruct (m !! pid.2) as [p|] eqn:Ep; cbn.
    + apply Hm in Ep as (j & Hj & -> & c & Hc & E). exists j, c. split_and!; [done..|].
      pose proof (proj1 (Forall_lookup _ _) (ro_owner _ H) _ _ Hc) as Hc'. cbn in Hc'.
      destruct pid, (c_pid c). cbn in *. congruence.
    + intros j c Hc E. assert (m !! pid.2 = Some (ptr R j)); [|congruence]. apply Hm.
      exists j. apply cells_lookup in Hc as Hj. split_and!; [apply Hj|done|exists c; by rewrite E].
  - destruct (scan_spec rl pid H) as (r & -> & Hr). by exists r.
Qed.

Lemma keys_once_snoc rl c : rows_ok rl -> (c_pid c).1 = owner -> is_cell_of rl (c_pid c) None ->
  keys_once (cells rl ++ [c]) (S (property_count rl)).
Proof using HR.
  intros H Ho Hnew. pose proof (cells_len _ H) as Hlen.
  assert (forall i, i < property_count rl -> key_at (cells rl ++ [c]) i (c_pid c).2 -> False) as Hc.
  { intros i Hi (c' & Hc' & E). rewrite lookup_app_l in Hc' by lia. apply (Hnew i c' Hc').
    pose proof (proj1 (Forall_lookup _ _) (ro_owner _ H) _ _ Hc') as Ho'. cbn in Ho'.
    destruct (c_pid c), (c_pid c'). cbn in *. congruence. }
  assert (forall key, key_at (cells rl ++ [c]) (property_count rl) key -> key = (c_pid c).2) as Hl.
  { intros key (c' & Hc' & <-). rewrite lookup_app_r, Hlen, Nat.sub_diag in Hc' by lia. by injection Hc' as <-. }
  intros i j key Hi Hj Hki Hkj.
  destruct (decide (i = property_count rl)) as [->|], (decide (j = property_count rl)) as [->|]; [done|..].
  - apply Hl in Hki as ->. destruct (Hc j); [lia|done].
  - apply Hl in Hkj as ->. destruct (Hc i); [lia|done].
  - destruct Hki as (ci & Hci & Ei), Hkj as (cj & Hcj & Ej). rewrite lookup_app_l in * by lia.
    apply (ro_once _ H i j key); [lia|lia|by exists ci|by exists cj].
Qed.

Lemma rows_ok_extend rl rs' c m : rows_ok rl -> (c_pid c).1 = owner -> is_cell_of rl (c_pid c) None ->
  shaped R rs' -> length rs' = row_count R (S (property_count rl)) ->
  take (S (property_count rl)) (concat rs') = cells rl ++ [c] ->
  (forall m', m = Some m' -> indexes R m' (cells rl ++ [c]) (S (property_count rl))) ->
  rows_ok (mk_rows rs' (Some (property_count rl / R)) (S (property_count rl)) m).
Proof using HR.
  intros H Ho Hnew Hs Hlen Ht Hm.
  split; unfold cells; cbn [rows row_tail property_count cell_map]; rewrite ?Ht; try done.
  - unfold tail_of. cbn [Nat.eqb]. by rewrite prev_row_S.
  - by apply keys_once_snoc.
  - apply Forall_app. split; [apply H|by constructor].
Qed.

(** The search of the cells that were added since a snapshot. *)
Lemma recheck_spec rl pid n : rows_ok rl -> n <= property_count rl ->
  (forall j c, j < n -> cells rl !! j = Some c -> c_pid c <> pid) ->
  exists r, (if n =? property_count rl then Some None
             else locate_loop R (rows rl) (property_count rl - n) n (default 0 (tail_of n)) pid) = Some r /\
    is_cell_of rl pid r.
Proof using HR.
  intros H Hn Hold. destruct (Nat.eqb_spec n (property_count rl)) as [->|Hne].
  { exists None. split; [done|]. intros j c Hc. apply (Hold j); [by apply cells_lookup in Hc as []|done]. }
  replace (default 0 (tail_of n)) with (prev_row R n) by (unfold tail_of, prev_row; by destruct (n =? 0)).
  destruct (locate_loop_spec R HR (rows rl) pid (property_count rl - n) n (ro_shape _ H)) as (r & Hr & Hs).
  { pose proof (rows_len _ H). lia. }
  exists r. split; [done|]. destruct r as [p|]; cbn in *.
  - destruct Hs as (j & c & Hj & -> & Hc & E). exists j, c. rewrite cells_lookup. split_and!; [done|lia|done..].
  - intros j c Hc. destruct (decide (j < n)); [by apply (Hold j)|]. apply cells_lookup in Hc as [Hj Hc].
    apply (Hs j c); [lia|done].
Qed.

(** The map after an allocation indexes the new cell as well. *)
Lemma new_map_spec rl rs' c : rows_ok rl -> (c_pid c).1 = owner -> is_cell_of rl (c_pid c) None -> shaped R rs' ->
  length rs' = row_count R (S (property_count rl)) -> take (S (property_count rl)) (concat rs') = cells rl ++ [c] ->
  exists m, (if R <=? property_count rl then
     m0 ← match cell_map rl with None => build_loop R rs' (S (property_count rl)) 0 0 ∅ | Some m => Some m end;
     Some (Some (<[(c_pid c).2 := ptr R (property_count rl)]> m0)) else Some (cell_map rl)) = Some m /\
   ((R <= property_count rl -> is_Some m) /\ (property_count rl < R -> m = cell_map rl)) /\
   (R <= property_count rl -> forall m', m = Some m' -> indexes R m' (cells rl ++ [c]) (S (property_count rl))).
Proof using HR.
  intros H Ho Hnew Hs Hlen Ht. pose proof (keys_once_snoc rl c H Ho Hnew) as Hone.
  pose proof (cells_len _ H) as Hcl.
  destruct (Nat.leb_spec R (property_count rl)) as [Hle|Hlt]; [|exists (cell_map rl); split_and!; [done|lia|done|lia]].
  assert (Hc : (cells rl ++ [c]) !! property_count rl = Some c).
  { rewrite lookup_app_r, Hcl, Nat.sub_diag by lia. done. }
  destruct (cell_map rl) as [m|] eqn:Em; cbn [mbind option_bind].
  - eexists. split_and!; [done|by eexists|lia|]. intros _ m' [= <-]. apply indexes_snoc; [done| |done|done].
    rewrite <- indexes_take, take_app_le, take_ge by lia. by apply H.
  - destruct (build_loop_spec R HR rs' (S (property_count rl)) 0 ∅ Hs) as (m & Hm & Hi).
    { rewrite (concat_length R HR) by done. rewrite Hlen. by apply row_count_ge. }
    { cbn [Nat.add]. rewrite <- keys_once_take, Ht. done. }
    { intros key p. rewrite lookup_empty. split; [done|]. intros (j & Hj & _). lia. }
    change (prev_row R 0) with 0 in Hm. rewrite Hm. cbn [mbind option_bind]. eexists.
    split_and!; [done|by eexists|lia|]. intros _ m' [= <-]. cbn [Nat.add] in Hi. rewrite <- indexes_take, Ht in Hi.
    rewrite insert_id; [done|]. apply Hi. exists (property_count rl). split_and!; [lia|done|by exists c].
Qed.

(** There is a map only for lists with a full row. *)
Definition map_needed rl : Prop := cell_map rl <> None -> R <= property_count rl.

Lemma AllocateCell_spec rl pid n new_row : rows_ok rl -> map_needed rl -> pid.1 = owner -> length new_row = R ->
  n <= property_count rl -> (forall j c, j < n -> cells rl !! j = Some c -> c_pid c <> pid) ->
  exists r rl', AllocateCell R rl pid n (tail_of n) new_row = Some (r, rl') /\ rows_ok rl' /\ map_needed rl' /\
    match r with
    | None => rl' = rl /\ exists j c, cells rl !! j = Some c /\ c_pid c = pid
    | Some p => p = ptr R (property_count rl) /\ cells rl' = cells rl ++ [mk_cell pid None]
    end.
Proof using HR.
  intros H Hmap Ho Hn Hle Hold. destruct (recheck_spec rl pid n H Hle Hold) as (r & Hr & Hcell).
  unfold AllocateCell. cbv zeta. rewrite Hr. cbn [mbind option_bind]. destruct r as [p|].
  { exists None, rl. split_and!; [done..|]. destruct Hcell as (j & c & _ & Hc). by exists j, c. }
  destruct (write_next_spec R HR _ _ _ new_row (mk_cell pid None) (rows_chain rl H) Hn)
    as (rs & rs' & Hp & Hset & [Hs Hlen _] & Ht).
  rewrite Hp. cbn [mbind option_bind].
  change (property_count rl / R, property_count rl mod R) with (ptr R (property_count rl)).
  rewrite Hset. cbn [mbind option_bind].
  destruct (new_map_spec rl rs' (mk_cell pid None) H Ho Hcell Hs Hlen Ht) as (m & Hm & [Hm1 Hm2] & Hm3).
  cbn [c_pid] in Hm. rewrite Hm. cbn [mbind option_bind]. eexists _, _. split; [done|].
  assert (property_count rl < R -> m = None) as Hsmall.
  { intros Hlt. rewrite Hm2 by done. destruct (cell_map rl) eqn:E; [|done]. unfold map_needed in Hmap.
    rewrite E in Hmap. specialize (Hmap ltac:(done)). lia. }
  split_and!; [|..|done].
  - apply (rows_ok_extend rl rs' (mk_cell pid None)); try done. intros m' ->.
    destruct (decide (R <= property_count rl)); [by apply Hm3|]. specialize (Hsmall ltac:(lia)). done.
  - unfold map_needed. cbn. intros Hne. destruct (decide (R <= property_count rl)); [lia|].
    destruct Hne. apply Hsmall. lia.
  - done.
Qed.

Lemma InsertInitialCell_spec rl pid a new_row : rows_ok rl -> cell_map rl = None -> pid.1 = owner ->
  length new_row = R -> is_cell_of rl pid None ->
  exists rl', InsertInitialCell R rl pid a new_row = Some rl' /\ rows_ok rl' /\ cell_map rl' = None /\
    cells rl' = cells rl ++ [mk_cell pid (Some a)].
Proof using HR.
  intros H Hmap Ho Hn Hnew.
  destruct (write_next_spec R HR _ _ _ new_row (mk_cell pid (Some a)) (rows_chain rl H) Hn)
    as (rs & rs' & Hp & Hset & [Hs Hlen _] & Ht).
  unfold InsertInitialCell. cbv zeta. rewrite Hp. cbn [mbind option_bind].
  change (property_count rl / R, property_count rl mod R) with (ptr R (property_count rl)).
  rewrite Hset. cbn [mbind option_bind]. eexists. split_and!; [done|..]; [|done|done].
  apply (rows_ok_extend rl rs' (mk_cell pid (Some a))); try done. by rewrite Hmap.
Qed.

(** Assigning a list changes neither the ids nor the positions. *)
Lemma key_at_pids (C C' : list Cell) j key : c_pid <$> C = c_pid <$> C' -> key_at C j key <-> key_at C' j key.
Proof.
  intros E. unfold key_at. assert (c_pid <$> C !! j = c_pid <$> C' !! j) as Ej by (by rewrite <- !list_lookup_fmap, E).
  destruct (C !! j) as [c|], (C' !! j) as [c'|]; simplify_eq/=; [|naive_solver].
  split; intros (? & [= <-] & <-); eexists; (split; [done|congruence]).
Qed.

Lemma rows_ok_pids rl rs' : rows_ok rl -> shaped R rs' -> length rs' = length (rows rl) ->
  c_pid <$> take (property_count rl) (concat rs') = c_pid <$> cells rl ->
  rows_ok (mk_rows rs' (row_tail rl) (property_count rl) (cell_map rl)).
Proof.
  intros H Hs Hlen E. split; unfold cells; cbn [rows row_tail property_count cell_map]; try done.
  - rewrite Hlen. apply H.
  - apply H.
  - intros i j key Hi Hj. rewrite !(key_at_pids _ _ _ _ E). by apply H.
  - apply Forall_lookup. intros i c Hc. assert (c_pid <$> cells rl !! i = Some (c_pid c)) as Hi.
    { rewrite <- list_lookup_fmap, <- E, list_lookup_fmap. by rewrite Hc. }
    destruct (cells rl !! i) as [c'|] eqn:E'; [|done]. injection Hi as <-.
    by apply (proj1 (Forall_lookup _ _) (ro_owner _ H) i c').
  - intros m Hm key p. rewrite (ro_map _ H m Hm key p).
    split; intros (j & Hj & -> & Hk); exists j; (split_and!; [done..|]); by apply (key_at_pids _ _ _ _ E).
Qed.

Lemma assign_list_spec rl j c a : rows_ok rl -> cells rl !! j = Some c ->
  exists rl', assign_list rl (ptr R j) a = Some rl' /\ rows_ok rl' /\ cell_map rl' = cell_map rl /\
    property_count rl' = property_count rl /\ cells rl' = <[j := mk_cell (c_pid c) (Some a)]> (cells rl).
Proof using HR.
  intros H Hc. apply cells_lookup in Hc as Hj. destruct Hj as [Hj Hc'].
  unfold assign_list. rewrite cell_at_flat, Hc' by (done || apply H). cbn [mbind option_bind].
  destruct (set_cell_flat R HR (rows rl) j (mk_cell (c_pid c) (Some a)) (ro_shape _ H)) as (rs' & -> & Hs & Hlen & E).
  { by eapply lookup_lt_Some. }
  cbn [mbind option_bind]. eexists. split; [done|].
  assert (take (property_count rl) (concat rs') = <[j := mk_cell (c_pid c) (Some a)]> (cells rl)) as Ht.
  { by rewrite E, take_insert_lt. }
  split_and!; [|done|done|done]. apply rows_ok_pids; [done..|]. rewrite Ht, list_fmap_insert. cbn [c_pid].
  apply list_insert_id. by rewrite list_lookup_fmap, Hc.
Qed.
End Invariant.

(** ** Defragmentation keeps the non-empty cells *)

Section Defragment.
Context (R : nat) (HR : 0 < R).
Implicit Types (rs : list (list Cell)) (D : list Cell).

Abbreviation lives := (lives live).
Abbreviation nullb := (nullb live).
Abbreviation nulls := (nulls live).

Lemma keys_once_alt C n : length C = n -> keys_once C n <-> NoDup ((fun c => (c_pid c).2) <$> C).
Proof.
  intros <-. rewrite NoDup_alt. unfold keys_once, key_at. split.
  - intros H i j key Hi Hj. rewrite !list_lookup_fmap in *.
    destruct (C !! i) as [c|] eqn:Ei, (C !! j) as [c'|] eqn:Ej; try done. cbn in *.
    apply (H i j key); [by eapply lookup_lt_Some..| |]; [exists c|exists c']; naive_solver.
  - intros H i j key Hi Hj (c & Hc & <-) (c' & Hc' & E). apply (H i j (c_pid c).2); rewrite list_lookup_fmap.
    + by rewrite Hc.
    + rewrite Hc'. cbn. by rewrite E.
Qed.

Section Collect.
Context (empty : nat -> bool).

(** What the first loop leaves of a cell. *)
Definition clear (c : Cell) : Cell :=
  match c_list c with Some l => if empty l then mk_cell (c_pid c) None else c | None => c end.

(** The keys of the null cells among the [k] cells from [i] are erased. *)
Definition erased (m m' : option (gmap Z cell_ptr)) D (i k : nat) : Prop :=
  match m, m' with
  | None, None => True
  | Some m0, Some m1 => forall key p, m1 !! key = Some p <->
      m0 !! key = Some p /\ forall j, i <= j < i + k -> nullb D j = true -> ~ key_at D j key
  | _, _ => False
  end.

Lemma erased_cons m m1 m' D i k c : D !! i = Some c ->
  m1 = (if nullb D i then delete (c_pid c).2 <$> m else m) -> erased m1 m' D (S i) k -> erased m m' D i (S k).
Proof.
  intros Hc -> H. unfold erased in *.
  assert (forall key, (forall j, i <= j < i + S k -> nullb D j = true -> ~ key_at D j key) <->
    (nullb D i = true -> (c_pid c).2 <> key) /\ (forall j, S i <= j < S i + k -> nullb D j = true -> ~ key_at D j key)) as E.
  { intros key. split.
    - intros Hk. split; [|intros j Hj; apply Hk; lia]. intros Hi <-. apply (Hk i); [lia|done|by exists c].
    - intros [Hi Hk] j Hj Hn Hkey. destruct (decide (j = i)) as [->|]; [|apply (Hk j); [lia|done..]].
      destruct Hkey as (c' & Hc' & <-). simplify_eq. by apply Hi. }
  destruct m as [m0|], m' as [m2|]; destruct (nullb D i); try done; cbn in H; intros key p; rewrite H, E.
  - rewrite lookup_delete_Some. naive_solver.
  - naive_solver.
Qed.

Lemma collect_loop_spec k i rs q m : shaped R rs ->
  (forall j, i <= j < i + k -> exists c, concat rs !! j = Some c /\ live c) ->
  exists rs' m', collect_loop R empty k i (prev_row R i) rs q m =
      Some (rs', q ++ (ptr R <$> nulls (concat rs') i k), m') /\
    shaped R rs' /\ length rs' = length rs /\
    (forall j, concat rs' !! j = if decide (i <= j < i + k) then clear <$> concat rs !! j else concat rs !! j) /\
    erased m m' (concat rs') i k.
Proof using HR.
  revert i rs q m. induction k as [|k IH]; intros i rs q m Hs Hl; cbn [collect_loop].
  { exists rs, m. rewrite app_nil_r. split_and!; [done..| |]; [intros j; by rewrite decide_False by lia|].
    destruct m; cbn; [|done]. intros key p. split; [|tauto]. intros; split; [done|lia]. }
  cbv zeta. rewrite ptr_row_of, cell_at_flat by done. destruct (Hl i ltac:(lia)) as (c & Hc & l & Ec).
  rewrite Hc. cbn [mbind option_bind]. rewrite Ec. cbn [mbind option_bind]. pose proof (lookup_lt_Some _ _ _ Hc) as Hlt.
  assert (clear c = if empty l then mk_cell (c_pid c) None else c) as Eclr by (unfold clear; by rewrite Ec).
  destruct (empty l) eqn:Eemp.
  - destruct (set_cell_flat R HR rs i (clear c) Hs Hlt) as (rs1 & Hset & Hs1 & Hlen1 & Hcat1).
    rewrite Eclr in Hset. rewrite Hset. cbn [mbind option_bind].
    change (i / R, i mod R) with (ptr R i). change ((ptr R i).1) with (i / R). rewrite <- prev_row_S.
    destruct (IH (S i) rs1 (q ++ [ptr R i]) (delete (c_pid c).2 <$> m) Hs1) as (rs' & m' & -> & Hs' & Hlen' & Hlk & He).
    { intros j Hj. rewrite Hcat1, list_lookup_insert_ne by lia. apply Hl. lia. }
    assert (concat rs' !! i = Some (clear c)) as Hi.
    { rewrite Hlk, decide_False, Hcat1 by lia. by apply list_lookup_insert_eq. }
    assert (nullb (concat rs') i = true) as Hni.
    { unfold nullb. rewrite Hi, Eclr. apply bool_decide_eq_true. cbn. by intros []. }
    exists rs', m'. split_and!; [|done|lia| |].
    + by rewrite nulls_cons, Hni, <- app_assoc.
    + intros j. rewrite Hlk, Hcat1. destruct (decide (j = i)) as [->|].
      * rewrite decide_False, decide_True, Hc, list_lookup_insert_eq by lia. done.
      * rewrite list_lookup_insert_ne by done. by apply decide_ext; lia.
    + eapply erased_cons; [done| |done]. by rewrite Hni, Eclr.
  - cbn [ptr fst]. rewrite <- prev_row_S.
    destruct (IH (S i) rs q m Hs) as (rs' & m' & -> & Hs' & Hlen' & Hlk & He); [intros j Hj; apply Hl; lia|].
    assert (concat rs' !! i = Some c) as Hi by (by rewrite Hlk, decide_False by lia).
    assert (nullb (concat rs') i = false) as Hni.
    { unfold nullb. rewrite Hi. apply bool_decide_eq_false. unfold live. rewrite Ec. naive_solver. }
    exists rs', m'. split_and!; [|done|lia| |].
    + by rewrite nulls_cons, Hni.
    + intros j. rewrite Hlk. destruct (decide (j = i)) as [->|]; [|by apply decide_ext; lia].
      rewrite decide_False, decide_True, Hc by lia. cbn. by rewrite Eclr.
    + eapply erased_cons; [done| |done]. by rewrite Hni.
Qed.

(** A cell that defragmentation keeps. *)
Definition kept (c : Cell) : Prop := match c_list c with Some l => empty l = false | None => False end.
#[global] Instance kept_dec c : Decision (kept c).
Proof. unfold kept. destruct (c_list c); apply _. Defined.

Lemma live_clear c : live (clear c) <-> kept c.
Proof.
  unfold live, clear, kept. destruct (c_list c) as [l|] eqn:E; [|rewrite E; split; [by intros []|done]].
  destruct (empty l) eqn:El; cbn; [split; [by intros []|done]|]. rewrite E. naive_solver.
Qed.

Lemma kept_clear c : kept c -> clear c = c.
Proof. unfold clear, kept. destruct (c_list c); [|done]. by intros ->. Qed.

Lemma clear_pid c : c_pid (clear c) = c_pid c.
Proof. unfold clear. destruct (c_list c) as [l|]; [|done]. by destruct (empty l). Qed.

Lemma lives_clear l : lives (clear <$> l) = filter kept l.
Proof.
  unfold lives. induction l as [|c l IH]; [done|]. rewrite fmap_cons, !filter_cons, IH.
  destruct (decide (kept c)) as [Hk|Hk].
  - rewrite decide_True by (by apply live_clear). by rewrite kept_clear.
  - by rewrite decide_False by (by rewrite live_clear).
Qed.

(** The cells after the first loop. *)
Lemma collected_cells owner rl D : rows_ok R owner rl ->
  (forall j, D !! j = if decide (0 <= j < 0 + property_count rl) then clear <$> concat (rows rl) !! j
                      else concat (rows rl) !! j) ->
  take (property_count rl) D = clear <$> cells rl.
Proof.
  intros H Hlk. apply list_eq. intros j. rewrite list_lookup_fmap. unfold cells. destruct (decide (j < property_count rl)).
  - rewrite !lookup_take_lt by done. rewrite Hlk. by rewrite decide_True by lia.
  - by rewrite !lookup_take_ge by lia.
Qed.

(** The keys that are left in the map are those of the kept cells. *)
Lemma erased_keys owner rl D m m' : rows_ok R owner rl -> take (property_count rl) D = clear <$> cells rl ->
  cell_map rl = Some m -> erased (Some m) (Some m') D 0 (property_count rl) ->
  forall key, is_Some (m' !! key) <-> exists c, c ∈ filter kept (cells rl) /\ (c_pid c).2 = key.
Proof.
  intros H HD Hm He key. cbn in He. pose proof (ro_map _ _ _ H m Hm) as Hi.
  assert (forall j c, cells rl !! j = Some c -> j < property_count rl /\ D !! j = Some (clear c)) as HDj.
  { intros j c Hc. assert (j < property_count rl) as Hj by (by apply cells_lookup in Hc as []). split; [done|].
    rewrite <- (lookup_take_lt _ (property_count rl)) by done. by rewrite HD, list_lookup_fmap, Hc. }
  split.
  - intros [p Hp]. apply He in Hp as [Hp Hno]. apply Hi in Hp as (j & Hj & -> & c & Hc & E).
    exists c. split; [|done]. apply list_elem_of_filter. split; [|by eapply list_elem_of_lookup_2].
    destruct (decide (kept c)) as [|Hk]; [done|exfalso]. destruct (HDj _ _ Hc) as [_ Hd]. apply (Hno j); [lia|..].
    + unfold nullb. rewrite Hd. apply bool_decide_eq_true. by rewrite live_clear.
    + exists (clear c). by rewrite clear_pid.
  - intros (c & [Hk [j Hc]%list_elem_of_lookup]%list_elem_of_filter & E). destruct (HDj _ _ Hc) as [Hj Hd].
    exists (ptr R j). apply He. split; [apply Hi; exists j; split_and!; [done|done|by exists c]|].
    intros j' Hj' Hn (c' & Hc' & E').
    destruct (lookup_lt_is_Some_2 (cells rl) j') as [x Hx].
    { apply (f_equal length) in HD. rewrite length_fmap in HD. rewrite <- HD, length_take.
      pose proof (lookup_lt_Some _ _ _ Hc'). lia. }
    destruct (HDj _ _ Hx) as [_ Hd']. simplify_eq.
    assert (j' = j) as ->. { apply (ro_once _ _ _ H j' j (c_pid c).2); [lia|lia|exists x|by exists c].
      rewrite <- E', clear_pid. done. }
    simplify_eq. unfold nullb in Hn. rewrite Hd in Hn. apply bool_decide_eq_true in Hn. by rewrite live_clear in Hn.
Qed.

Lemma SelfDefragment_empty_queue owner rl rs m : rows_ok R owner rl -> shaped R rs -> length rs = length (rows rl) ->
  take (property_count rl) (concat rs) = clear <$> cells rl -> nulls (concat rs) 0 (property_count rl) = [] ->
  erased (cell_map rl) m (concat rs) 0 (property_count rl) ->
  let rl' := mk_rows rs (row_tail rl) (property_count rl) m in
  rows_ok R owner rl' /\ cells rl' ≡ₚ filter kept (cells rl).
Proof using HR.
  intros H Hs Hlen HD Hq He. cbv zeta.
  assert (Forall kept (cells rl)) as Hall.
  { apply Forall_lookup. intros j c Hc. apply live_clear. destruct (decide (live (clear c))) as [|Hn]; [done|exfalso].
    assert (j ∈ nulls (concat rs) 0 (property_count rl)) as Hin; [|rewrite Hq in Hin; by apply not_elem_of_nil in Hin].
    apply cells_lookup in Hc as Hj. destruct Hj as [Hj _]. apply elem_of_nulls. split; [lia|]. unfold nullb.
    rewrite <- (lookup_take_lt _ (property_count rl)), HD, list_lookup_fmap, Hc by done. by apply bool_decide_eq_true. }
  assert (take (property_count rl) (concat rs) = cells rl) as E.
  { rewrite HD. rewrite <- list_fmap_id. apply list_fmap_ext. intros j c Hc. apply kept_clear.
    by apply (proj1 (Forall_lookup _ _) Hall j). }
  split; [|unfold cells at 1; cbn; by rewrite E, filter_all].
  split; unfold cells; cbn [rows row_tail property_count cell_map]; rewrite ?E; try by apply H.
  - done.
  - rewrite Hlen. apply H.
  - intros m1 ->. destruct (cell_map rl) as [m0|] eqn:Em; [|done]. cbn in He. intros key p. rewrite He.
    rewrite (ro_map _ _ _ H m0 Em key p). split; [by intros [? _]|]. intros Hk. split; [done|].
    intros j Hj Hn. assert (j ∈ nulls (concat rs) 0 (property_count rl)) as Hin by (by apply elem_of_nulls).
    rewrite Hq in Hin. by apply not_elem_of_nil in Hin.
Qed.

Lemma compacted_ok owner rl rs D m k : rows_ok R owner rl -> shaped R rs -> length rs = length (rows rl) ->
  k <= property_count rl -> take k (concat rs) ≡ₚ filter kept (cells rl) -> length (filter kept (cells rl)) = k ->
  take (property_count rl) D = clear <$> cells rl -> erased (cell_map rl) m D 0 (property_count rl) ->
  exists m', match m with
    | None => Some None
    | Some m0 => m1 ← reindex_loop R (take (row_count R k) rs) k 0 0 m0; Some (Some m1) end = Some m' /\
    let rl' := mk_rows (take (row_count R k) rs) (if row_count R k =? 0 then None else Some (row_count R k - 1)) k m' in
    rows_ok R owner rl' /\ cells rl' ≡ₚ filter kept (cells rl).
Proof using HR.
  intros H Hs Hlen Hk Hp Hkl HD He. rewrite (ro_rows _ _ _ H) in Hlen.
  destruct (cut_chain R HR rs (property_count rl) k Hs Hlen Hk) as [Hch Ht]. pose proof Hch as [Hs' Hl _].
  pose proof (chain_len R HR _ _ _ Hch) as Hkc.
  assert (length (take k (concat rs)) = k) as Hlk by (by rewrite Hp).
  assert (keys_once (take k (concat rs)) k) as Hone.
  { rewrite keys_once_alt by done. rewrite Hp. eapply sublist_NoDup; [|apply fmap_sublist, sublist_filter].
    apply keys_once_alt with (n := property_count rl); [by apply (cells_len R HR owner)|apply H]. }
  assert (exists m', match m with
    | None => Some None
    | Some m0 => m1 ← reindex_loop R (take (row_count R k) rs) k 0 0 m0; Some (Some m1) end = Some m' /\
    forall m1, m' = Some m1 -> indexes R m1 (take k (concat rs)) k) as (m' & Hm' & Hidx).
  { destruct m as [m0|]; [|by exists None]. destruct (cell_map rl) as [m1|] eqn:Em; [|done].
    destruct (reindex_loop_spec R HR (take (row_count R k) rs) k k 0 m0) as (m2 & Hm2 & Hi); try done.
    - rewrite <- keys_once_take. by rewrite Ht.
    - intros key. rewrite (erased_keys owner rl D m1 m0 H HD Em He). setoid_rewrite <- Hp. split.
      + intros (c & [j Hc]%list_elem_of_lookup & E). pose proof (lookup_lt_Some _ _ _ Hc). exists j. split; [lia|].
        rewrite <- (key_at_take _ k) by lia. rewrite Ht. by exists c.
      + intros (j & Hj & Hkey). rewrite <- (key_at_take _ k), Ht in Hkey by done. destruct Hkey as (c & Hc & E).
        exists c. split; [by eapply list_elem_of_lookup_2|done].
    - intros j key Hj. lia.
    - change (prev_row R 0) with 0 in Hm2. exists (Some m2). rewrite Hm2. split; [done|]. intros ? [= <-].
      rewrite <- Ht. by apply indexes_take. }
  exists m'. split; [done|]. cbv zeta. unfold cells at 1 2. cbn [rows property_count]. split; [|by rewrite Ht].
  split; unfold cells; cbn [rows row_tail property_count cell_map]; rewrite ?Ht; try done.
  - apply Hch.
  - rewrite Hp. eapply Forall_forall. intros c Hc%list_elem_of_filter.
    by apply (proj1 (Forall_forall _ _) (ro_owner _ _ _ H)), Hc.
Qed.

Lemma SelfDefragment_spec owner rl : rows_ok R owner rl -> Forall live (cells rl) ->
  exists freed rl', SelfDefragment R empty rl = Some (freed, rl') /\ rows_ok R owner rl' /\
    cells rl' ≡ₚ filter kept (cells rl) /\ freed + length (rows rl') = length (rows rl).
Proof using HR.
  intros H Hlive. unfold SelfDefragment. destruct (rows rl) as [|r0 rs0] eqn:Er.
  { exists 0, rl. split_and!; [done..| |by rewrite Er]. unfold cells. rewrite Er. cbn [concat]. by rewrite take_nil. }
  rewrite <- Er. clear r0 rs0 Er. cbv zeta.
  destruct (collect_loop_spec (property_count rl) 0 (rows rl) [] (cell_map rl) (ro_shape _ _ _ H))
    as (rs & m & Hc & Hs & Hlen & Hlk & He).
  { intros j Hj. pose proof (rows_len R HR owner rl H) as Hl.
    destruct (lookup_lt_is_Some_2 (concat (rows rl)) j) as [c Hc]; [lia|]. exists c. split; [done|].
    apply (proj1 (Forall_lookup _ _) Hlive j). apply cells_lookup. split; [lia|done]. }
  change (prev_row R 0) with 0 in Hc. rewrite Hc. cbn [mbind option_bind app].
  pose proof (collected_cells owner rl _ H Hlk) as HD. set (count := property_count rl) in *.
  destruct (ptr R <$> nulls (concat rs) 0 count) as [|e q] eqn:Eq.
  { apply fmap_nil_inv in Eq. exists 0. eexists. split; [done|].
    destruct (SelfDefragment_empty_queue owner rl rs m H Hs Hlen HD Eq He) as [? ?]. split_and!; [done..|]. cbn. lia. }
  rewrite <- Eq, length_fmap.
  destruct (compact_spec R HR live rs count Hs) as (Hk & rs' & Hmv & Hs' & Hlen' & Hp).
  { rewrite Hlen. apply H. }
  { intros E. by rewrite E in Eq. }
  rewrite Hmv. cbn [mbind option_bind]. rewrite HD, lives_clear in Hk, Hp.
  set (k := count - length (nulls (concat rs) 0 count)) in *.
  destruct (compacted_ok owner rl rs' (concat rs) m k H Hs' ltac:(lia) ltac:(lia) Hp Hk HD He) as (m' & -> & Hok & Hperm).
  cbn [mbind option_bind]. eexists _, _. split; [done|]. split_and!; [done..|]. cbn [rows].
  rewrite length_take, Hlen', Hlen, (ro_rows _ _ _ H). fold count.
  pose proof (row_count_mono R HR k count ltac:(lia)). destruct (Nat.eqb_spec (row_count R count) 0) as [E|]; [|lia].
  pose proof (row_count_ge R HR count) as Hge. rewrite E in Hge. assert (count = 0) as E0 by lia. by rewrite E0 in Eq.
Qed.
End Collect.
End Defragment.

(** ** Row lists under concurrent modification

    A state is a row list with the snapshots of the threads that are between
    [LocateCell] and [AllocateCell]; the two take [rwlock_] one after the
    other.  Loading comes before all queries.  Defragmentation holds the
    write side of [gc_rwlock_]: there are no snapshots and every cell has its
    list.  It is restricted here to results that still fill a row if there is
    a map; [map_after_defragment] shows why. *)
Section Steps.
Context (R : nat) (HR : 0 < R) (owner : Z).
Abbreviation snapshot := (Z * Z * (nat * option nat))%type.

Inductive row_step : RowList * list snapshot -> RowList * list snapshot -> Prop :=
  | RowLoad rl pid a new_row rl' : cell_map rl = None -> pid.1 = owner -> length new_row = R ->
      Forall (fun c => c_pid c <> pid) (cells rl) ->
      InsertInitialCell R rl pid a new_row = Some rl' -> row_step (rl, []) (rl', [])
  | RowLocate rl ps pid snap : pid.1 = owner -> LocateCell R rl pid = Some (None, snap) ->
      row_step (rl, ps) (rl, (pid, snap) :: ps)
  | RowAllocate rl ps1 ps2 pid n t new_row r rl' : length new_row = R ->
      AllocateCell R rl pid n t new_row = Some (r, rl') ->
      row_step (rl, ps1 ++ (pid, (n, t)) :: ps2) (rl', ps1 ++ ps2)
  | RowAssign rl ps j c a rl' : cells rl !! j = Some c -> assign_list rl (ptr R j) a = Some rl' ->
      row_step (rl, ps) (rl', ps)
  | RowDefragment rl empty freed rl' : Forall live (cells rl) -> SelfDefragment R empty rl = Some (freed, rl') ->
      map_needed R rl' -> row_step (rl, []) (rl', []).

Definition snapshot_ok rl (s : snapshot) : Prop :=
  s.1.1 = owner /\ s.2.1 <= property_count rl /\ s.2.2 = tail_of R s.2.1 /\
  forall j c, j < s.2.1 -> cells rl !! j = Some c -> c_pid c <> s.1.

Definition row_inv (s : RowList * list snapshot) : Prop :=
  rows_ok R owner s.1 /\ map_needed R s.1 /\ Forall (snapshot_ok s.1) s.2.

Lemma snapshot_ok_extend rl rl' c s : property_count rl <= property_count rl' -> length (cells rl) = property_count rl ->
  cells rl' = cells rl ++ [c] -> snapshot_ok rl s -> snapshot_ok rl' s.
Proof.
  intros Hle Hlen E (H1 & H2 & H3 & H4). split_and!; [done|lia|done|]. intros j c' Hj Hc. rewrite E in Hc.
  rewrite lookup_app_l in Hc by lia. by apply (H4 j).
Qed.

Lemma row_step_inv s s' : row_step s s' -> row_inv s -> row_inv s'.
Proof using HR.
  intros Hstep (H & Hmap & Hps). destruct Hstep as
    [rl pid a row rl' Hm Ho Hl Hnew E|rl ps pid [n t] Ho E|rl ps1 ps2 pid n t row r rl' Hl E|rl ps j c a rl' Hc E
    |rl empty freed rl' Hlive E Hmap']; cbn [fst snd] in *.
  - destruct (InsertInitialCell_spec R HR owner rl pid a row H Hm Ho Hl) as (rl1 & E1 & H1 & Hm1 & _).
    { intros j c Hc. by apply (proj1 (Forall_lookup _ _) Hnew j). }
    simplify_eq. split_and!; [done| |done]. unfold map_needed. cbn. by rewrite Hm1.
  - destruct (LocateCell_spec R HR owner rl pid H Ho) as (r & E1 & Hr). simplify_eq. split_and!; [done..|].
    constructor; [|done]. split_and!; [done|cbn; lia|done|]. intros j c _. apply Hr.
  - apply Forall_app in Hps as [Hps1 [(Ho & Hle & Ht & Hold) Hps2]%Forall_cons].
    cbn in Hle, Hold, Ho, Ht, E. subst t.
    destruct (AllocateCell_spec R HR owner rl pid n row H Hmap Ho Hl Hle Hold) as (r1 & rl1 & E1 & H1 & Hm1 & Hr).
    rewrite E in E1. injection E1 as <- <-. split_and!; [done..|]. cbn.
    assert (Forall (snapshot_ok rl) (ps1 ++ ps2)) as Hall by (by apply Forall_app). destruct r as [p|]; [|by destruct Hr as [-> _]].
    destruct Hr as [_ Hcells]. eapply Forall_impl; [done|]. intros s. eapply snapshot_ok_extend; [|by apply (cells_len R HR owner)|done].
    apply (f_equal length) in Hcells. rewrite length_app, !(cells_len R HR owner) in Hcells by done. cbn in Hcells. lia.
  - destruct (assign_list_spec R HR owner rl j c a H Hc) as (rl1 & E1 & H1 & Hm1 & Hn1 & Hcells). simplify_eq.
    split_and!; [done|unfold map_needed in *; cbn; by rewrite Hm1, Hn1|]. cbn. eapply Forall_impl; [done|].
    intros s (H2 & H3 & H4 & H5). split_and!; [done|lia|done|]. intros i x Hi Hx. rewrite Hcells in Hx.
    apply list_lookup_insert_Some in Hx as [(<- & <- & _)|[_ Hx]]; [by apply (H5 j c)|by apply (H5 i x)].
  - destruct (SelfDefragment_spec R HR empty owner rl H Hlive) as (f & rl1 & E1 & H1 & _). simplify_eq. done.
Qed.

Lemma rows_init_inv : row_inv (rows_init, []).
Proof using HR.
  split_and!; [|intros Hn; by destruct Hn|by constructor]. split; try done; cbn.
  - constructor.
  - unfold row_count. by rewrite Nat.Div0.mod_0_l, Nat.Div0.div_0_l.
  - intros i j key Hi. lia.
Qed.

Lemma row_steps_inv s s' : rtc row_step s s' -> row_inv s -> row_inv s'.
Proof using HR. induction 1; eauto using row_step_inv. Qed.

Lemma is_cell_of_unique rl pid r r' : rows_ok R owner rl -> is_cell_of R rl pid r -> is_cell_of R rl pid r' -> r = r'.
Proof using HR.
  intros H Hr Hr'. destruct r as [p|], r' as [p'|]; cbn in *; [|naive_solver..].
  destruct Hr as (j & c & -> & Hc & E), Hr' as (j' & c' & -> & Hc' & E'). do 2 f_equal.
  pose proof (keys_once_NoDup R HR owner rl H) as Hnd. eapply NoDup_lookup; [done|..]; rewrite list_lookup_fmap.
  - rewrite Hc. cbn. by rewrite E.
  - rewrite Hc'. cbn. by rewrite E'.
Qed.
End Steps.



(** *** An example: rows of two cells, three loaded properties, one added *)
Definition blank_row (R : nat) : list Cell := replicate R (mk_cell (0, 0)%Z None).

Definition loaded_rows : RowList := Eval vm_compute in
  default rows_init (
    r1 ← InsertInitialCell 2 rows_init (1, 10)%Z 100 (blank_row 2);
    r2 ← InsertInitialCell 2 r1 (1, 11)%Z 101 (blank_row 2);
    InsertInitialCell 2 r2 (1, 12)%Z 102 (blank_row 2)).

Definition added_rows : RowList := Eval vm_compute in
  default rows_init (snd <$> AllocateCell 2 loaded_rows (1, 13)%Z 3 (Some 1) (blank_row 2)).

Definition assigned_rows : RowList := Eval vm_compute in default rows_init (assign_list added_rows (ptr 2 3) 103).

Lemma load_step R owner rl pid a rl' : cell_map rl = None -> pid.1 = owner ->
  bool_decide (Forall (fun c => c_pid c <> pid) (cells rl)) = true ->
  InsertInitialCell R rl pid a (blank_row R) = Some rl' -> row_step R owner (rl, []) (rl', []).
Proof. intros. eapply RowLoad; [done|done|apply length_replicate|by eapply bool_decide_eq_true|done]. Qed.

Lemma loaded_run : rtc (row_step 2 1) (rows_init, []) (loaded_rows, []).
Proof.
  eapply rtc_l; [apply (load_step 2 1 rows_init (1, 10)%Z 100); by vm_compute|].
  eapply rtc_l; [eapply (load_step 2 1 _ (1, 11)%Z 101); by vm_compute|].
  eapply rtc_l; [eapply (load_step 2 1 _ (1, 12)%Z 102); by vm_compute|]. apply rtc_refl.
Qed.

Lemma added_run : rtc (row_step 2 1) (rows_init, []) (added_rows, [((1, 13)%Z, (3, Some 1))]).
Proof.
  etrans; [apply loaded_run|].
  do 2 (eapply rtc_l; [apply (RowLocate 2 1 loaded_rows _ (1, 13)%Z (3, Some 1)); by vm_compute|]).
  apply rtc_once. apply (RowAllocate 2 1 loaded_rows [] [((1, 13)%Z, (3, Some 1))] (1, 13)%Z 3 (Some 1) (blank_row 2)
    (Some (1, 1))); by vm_compute.
Qed.

Lemma assigned_run : rtc (row_step 2 1) (rows_init, []) (assigned_rows, []).
Proof.
  etrans; [apply loaded_run|].
  eapply rtc_l; [apply (RowLocate 2 1 loaded_rows [] (1, 13)%Z (3, Some 1)); by vm_compute|].
  eapply rtc_l; [apply (RowAllocate 2 1 loaded_rows [] [] (1, 13)%Z 3 (Some 1) (blank_row 2) (Some (1, 1)) added_rows);
    by vm_compute|].
  apply rtc_once. apply (RowAssign 2 1 added_rows [] 3 (mk_cell (1, 13)%Z None) 103); by vm_compute.
Qed.



(** *** The map after a defragmentation

    [VP_ROW_CELL_COUNT] (layout/layout_type.hpp:66-72): seven cells of 16 bytes,
    and a pointer, in 128 bytes. *)
Definition VP_ROW_CELL_COUNT : nat := (128 - 8) / 16.

(** A modification that adds the property and assigns list [a]. *)
Definition add_property rl (pid : Z * Z) (a : nat) : option RowList :=
  '(_, (n, t)) ← LocateCell VP_ROW_CELL_COUNT rl pid;
  '(p, rl') ← AllocateCell VP_ROW_CELL_COUNT rl pid n t (blank_row VP_ROW_CELL_COUNT);
  p ← p; assign_list rl' p a.

Definition eight_properties : RowList := Eval vm_compute in
  default rows_init (foldl (fun r k => rl ← r; add_property rl (1, Z.of_nat k)%Z k) (Some rows_init) (seq 1 8)).

Definition three_properties : RowList := Eval vm_compute in
  default rows_init (snd <$> SelfDefragment VP_ROW_CELL_COUNT (Nat.ltb 3) eight_properties).

(** [SelfDefragment] keeps the map when fewer cells than a row remain, but
    [AllocateCell] adds a cell to the map only when a row is full: of eight
    properties of a vertex five go, and a property that is then added is not
    found, and adding it again gives it a second cell. *)
Theorem map_after_defragment :
  foldl (fun r k => rl ← r; add_property rl (1, Z.of_nat k)%Z k) (Some rows_init) (seq 1 8) = Some eight_properties /\
  SelfDefragment VP_ROW_CELL_COUNT (Nat.ltb 3) eight_properties = Some (1, three_properties) /\
  exists rl1 rl2 s, add_property three_properties (1, 20)%Z 20 = Some rl1 /\
    mk_cell (1, 20)%Z (Some 20) ∈ cells rl1 /\
    LocateCell VP_ROW_CELL_COUNT rl1 (1, 20)%Z = Some (None, s) /\
    add_property rl1 (1, 20)%Z 21 = Some rl2 /\
    mk_cell (1, 20)%Z (Some 20) ∈ cells rl2 /\ mk_cell (1, 20)%Z (Some 21) ∈ cells rl2.
Proof.
  split_and!; [by vm_compute|by vm_compute|]. do 3 eexists. split; [by vm_compute|].
  split; [by apply (list_elem_of_lookup_2 _ 3)|]. split; [by vm_compute|]. split; [by vm_compute|].
  split; [by apply (list_elem_of_lookup_2 _ 3)|by apply (list_elem_of_lookup_2 _ 4)].
Qed.

(** ** Bulk reads

    The three readers that visit several cells are one function of the list of
    cells that they visit. *)
Section BulkReads.
Context (R : nat) (HR : 0 < R) (owner : Z).
Context {D : Type} (get_visible : nat -> D -> option (read_result ValueHeader * D)).
Context (store : ValueStore) (read_only : bool).

Fixpoint run_cells (cs : list Cell) (d : D) (ret : list (Z * value_t)) : option (bool * list (Z * value_t) * D) :=
  match cs with
  | [] => Some (false, ret, d)
  | c :: cs' =>
      '(x, d') ← read_cell get_visible read_only c d;
      match x with
      | RAbort => Some (true, ret, d')
      | RNone => run_cells cs' d' ret
      | RValue h => v ← ReadValue store h value_default; run_cells cs' d' (ret ++ [((c_pid c).2, v)])
      end
  end.

Definition wanted (keys : gset Z) (c : Cell) : Prop := (c_pid c).2 ∈ keys.
#[global] Instance wanted_dec keys c : Decision (wanted keys c).
Proof. unfold wanted. apply _. Defined.

Lemma take_drop_cons (C : list Cell) n i c : C !! i = Some c -> i < n -> drop i (take n C) = c :: drop (S i) (take n C).
Proof. intros. apply drop_S. by rewrite lookup_take_lt. Qed.

Lemma read_all_run rs k i d ret : shaped R rs -> i + k <= length (concat rs) ->
  read_all_loop R get_visible store read_only rs k i (prev_row R i) d ret =
    run_cells (drop i (take (i + k) (concat rs))) d ret.
Proof using HR.
  intros Hs. revert i d ret. induction k as [|k IH]; intros i d ret Hk; cbn [read_all_loop].
  { by rewrite drop_ge by (rewrite length_take; lia). }
  cbv zeta. rewrite ptr_row_of, cell_at_flat by done.
  destruct (lookup_lt_is_Some_2 (concat rs) i ltac:(lia)) as [c Hc]. rewrite Hc. cbn [mbind option_bind].
  rewrite (take_drop_cons _ _ _ _ Hc) by lia. cbn [run_cells ptr fst]. rewrite <- prev_row_S, Nat.add_succ_r.
  destruct (read_cell _ _ _ _) as [[[| |h] d']|]; cbn [mbind option_bind]; [done|by apply (IH (S i)); lia| |done].
  destruct (ReadValue _ _ _) as [v|]; cbn [mbind option_bind]; [by apply (IH (S i)); lia|done].
Qed.

Lemma run_wanted_removed keys key (l : list Cell) : Forall (fun c => (c_pid c).2 <> key) l ->
  filter (wanted (keys ∖ {[key]})) l = filter (wanted keys) l.
Proof.
  induction 1 as [|c l Hc _ IH]; [done|]. rewrite !filter_cons, IH. unfold wanted in *.
  apply decide_ext. set_solver.
Qed.

Lemma by_key_run rs k i keys d ret : shaped R rs -> i + k <= length (concat rs) ->
  keys_once (concat rs) (i + k) ->
  by_key_loop R get_visible store read_only rs k i (prev_row R i) keys d ret =
    run_cells (filter (wanted keys) (drop i (take (i + k) (concat rs)))) d ret.
Proof using HR.
  intros Hs. revert i keys d ret. induction k as [|k IH]; intros i keys d ret Hk Hone; cbn [by_key_loop].
  { by rewrite drop_ge by (rewrite length_take; lia). }
  destruct (decide (keys = ∅)) as [->|Hne].
  { rewrite filter_none; [done|]. apply Forall_forall. intros c _. unfold wanted. set_solver. }
  cbv zeta. rewrite ptr_row_of, cell_at_flat by done.
  destruct (lookup_lt_is_Some_2 (concat rs) i ltac:(lia)) as [c Hc]. rewrite Hc. cbn [mbind option_bind].
  rewrite (take_drop_cons _ _ _ _ Hc) by lia. cbn [ptr fst]. rewrite <- prev_row_S, Nat.add_succ_r in *.
  assert (Forall (fun x => (c_pid x).2 <> (c_pid c).2) (drop (S i) (take (S (i + k)) (concat rs)))) as Hother.
  { apply Forall_lookup. intros j x Hx E. rewrite lookup_drop, lookup_take_Some in Hx. destruct Hx as [Hx Hlt].
    assert (i = S i + j); [|lia]. apply (Hone i (S i + j) (c_pid c).2); [lia|lia|by exists c|by exists x]. }
  destruct (decide ((c_pid c).2 ∈ keys)) as [Hin|Hin].
  - rewrite filter_cons_True by done. cbn [run_cells].
    rewrite <- (run_wanted_removed keys _ _ Hother).
    destruct (read_cell _ _ _ _) as [[[| |h] d']|]; cbn [mbind option_bind]; [done|by apply (IH (S i)); [lia|]| |done].
    destruct (ReadValue _ _ _) as [v|]; cbn [mbind option_bind]; [by apply (IH (S i)); [lia|]|done].
  - rewrite filter_cons_False by done. by apply (IH (S i)); [lia|].
Qed.

(** The cells of the keys in the map, in the order of the keys. *)
Definition mapped rs (m : gmap Z cell_ptr) (p_key : list Z) : list Cell :=
  omap (fun key => p ← m !! key; cell_at rs p) p_key.

Lemma by_map_run rs m p_key d ret : (forall key p, m !! key = Some p -> is_Some (cell_at rs p)) ->
  by_map_loop get_visible store read_only rs m p_key d ret = run_cells (mapped rs m p_key) d ret.
Proof.
  intros Hm. revert d ret. induction p_key as [|key ks IH]; intros d ret; [done|]. cbn [by_map_loop].
  unfold mapped. cbn [omap list_omap]. destruct (m !! key) as [p|] eqn:Ep; cbn [mbind option_bind]; [|by apply IH].
  destruct (Hm _ _ Ep) as [c Hc]. rewrite Hc. cbn [mbind option_bind run_cells].
  destruct (read_cell _ _ _ _) as [[[| |h] d']|]; cbn [mbind option_bind]; [done|by apply IH| |done].
  destruct (ReadValue _ _ _) as [v|]; cbn [mbind option_bind]; [by apply IH|done].
Qed.

(** The visible version of a list does not depend on the recorded dependencies,
    and the headers that are visible can be read. *)
Context (vis : nat -> read_result ValueHeader).
Hypothesis Hvis : forall l d, exists d', get_visible l d = Some (vis l, d').
Hypothesis Hread : forall l h, vis l = RValue h -> header_empty h = false -> is_Some (ReadValue store h value_default).

Definition got (c : Cell) : option (Z * value_t) :=
  l ← c_list c;
  match vis l with
  | RValue h => if header_empty h then None else v ← ReadValue store h value_default; Some ((c_pid c).2, v)
  | _ => None
  end.
Definition aborts (c : Cell) : Prop :=
  match c_list c with None => read_only = false | Some l => vis l = RAbort end.

Lemma run_cells_spec cs d ret :
  Exists aborts cs /\ (exists ret' d', run_cells cs d ret = Some (true, ret', d')) \/
  ~ Exists aborts cs /\ (exists d', run_cells cs d ret = Some (false, ret ++ omap got cs, d')).
Proof using Hvis Hread.
  revert d ret. induction cs as [|c cs IH]; intros d ret; cbn [run_cells].
  { right. split; [by intros ?%Exists_nil|]. exists d. by rewrite app_nil_r. }
  assert (aborts c /\ (exists d', read_cell get_visible read_only c d = Some (RAbort, d')) \/
    ~ aborts c /\ (exists d', read_cell get_visible read_only c d = Some (RNone, d')) /\ got c = None \/
    ~ aborts c /\ (exists h v d', read_cell get_visible read_only c d = Some (RValue h, d') /\
       ReadValue store h value_default = Some v /\ got c = Some ((c_pid c).2, v))) as Hc.
  { unfold read_cell, aborts, got. destruct (c_list c) as [l|]; cbn [mbind option_bind].
    2:{ destruct read_only; [right; left|left]; split_and!; try done; by eexists. }
    destruct (Hvis l d) as [d' ->]. cbn [mbind option_bind]. destruct (vis l) as [| |h] eqn:Ev.
    - left. split; [done|by eexists].
    - right. left. split_and!; [done|by eexists|done].
    - destruct (header_empty h) eqn:Eh; [right; left; split_and!; [done|by eexists|done]|]. right. right.
      destruct (Hread l h Ev Eh) as [v Hv]. split; [done|]. exists h, v, d'. by rewrite Hv. }
  destruct Hc as [(Ha & d' & ->)|[(Hn & (d' & ->) & Hg)|(Hn & h & v & d' & -> & Hv & Hg)]]; cbn [mbind option_bind].
  - left. split; [by left|]. by eexists _, _.
  - cbn [omap list_omap]. rewrite Hg. destruct (IH d' ret) as [[He Hr]|[He Hr]]; [left|right]; split; try done.
    + by right.
    + by intros [?|?]%Exists_cons.
  - rewrite Hv. cbn [mbind option_bind omap list_omap]. rewrite Hg.
    destruct (IH d' (ret ++ [((c_pid c).2, v)])) as [[He Hr]|[He [d1 Hr]]]; [left|right]; split; try done.
    + by right.
    + by intros [?|?]%Exists_cons.
    + exists d1. rewrite Hr. by rewrite <- app_assoc.
Qed.

(** The map gives the same cells as the traversal. *)
Lemma mapped_cells rl m p_key : rows_ok R owner rl -> cell_map rl = Some m -> NoDup p_key ->
  mapped (rows rl) m p_key ≡ₚ filter (wanted (list_to_set p_key)) (cells rl).
Proof using HR.
  intros H Em Hk.
  assert (forall key c, (p ← m !! key; cell_at (rows rl) p) = Some c <-> c ∈ cells rl /\ (c_pid c).2 = key) as Hm.
  { intros key c. rewrite bind_Some. split.
    - intros (p & (j & Hj & -> & c' & Hc' & E)%(ro_map _ _ _ H m Em) & Hc). rewrite (cell_at_cells R HR owner) in Hc by done.
      simplify_eq. split; [by eapply list_elem_of_lookup_2|done].
    - intros [[j Hc]%list_elem_of_lookup E]. assert (j < property_count rl) as Hj by (by apply cells_lookup in Hc as []).
      exists (ptr R j). split; [apply (ro_map _ _ _ H m Em); exists j; split_and!; [done|done|by exists c]|].
      by rewrite (cell_at_cells R HR owner). }
  assert (NoDup (cells rl)) as Hnd by (eapply NoDup_fmap_1, keys_once_NoDup; done).
  apply NoDup_Permutation.
  - unfold mapped. clear -Hk Hm. induction Hk as [|key ks Hnin _ IH]; cbn; [constructor|].
    destruct (p ← m !! key; cell_at (rows rl) p) as [c|] eqn:Ec; [|done]. constructor; [|done].
    intros (key' & Hin & Hc')%list_elem_of_omap. apply Hm in Ec as [_ <-]. apply Hm in Hc' as [_ <-]. done.
  - by apply NoDup_filter.
  - intros c. unfold mapped. rewrite list_elem_of_omap, list_elem_of_filter. unfold wanted.
    rewrite elem_of_list_to_set. split.
    + intros (key & Hin & [Hc <-]%Hm). done.
    + intros [Hin Hc]. exists (c_pid c).2. split; [done|]. by apply Hm.
Qed.

Lemma omap_wanted p_key (cs : list Cell) :
  omap got (filter (wanted (list_to_set p_key)) cs) = filter (fun kv => kv.1 ∈ p_key) (omap got cs).
Proof.
  induction cs as [|c cs IH]; [done|].
  assert (forall kv, got c = Some kv -> kv.1 = (c_pid c).2) as Hkey.
  { intros kv. unfold got. destruct (c_list c); [|done]. cbn. destruct (vis _); try done. destruct (header_empty _); [done|].
    destruct (ReadValue _ _ _); [|done]. cbn. by intros [= <-]. }
  cbn [omap list_omap]. destruct (decide (wanted (list_to_set p_key) c)) as [Hw|Hw].
  - rewrite filter_cons_True by done. cbn [omap list_omap]. destruct (got c) as [kv|] eqn:Eg; [|done].
    rewrite filter_cons_True; [by f_equal|]. rewrite (Hkey _ eq_refl). by apply elem_of_list_to_set in Hw.
  - rewrite filter_cons_False by done. destruct (got c) as [kv|] eqn:Eg; [|done].
    rewrite filter_cons_False; [done|]. rewrite (Hkey _ eq_refl). intros Hin. by apply Hw, elem_of_list_to_set.
Qed.

(** What [ReadPropertyByPKeyList] returns for a list of cells. *)
Definition key_list_result (cs : list Cell) (r : option (READ_STAT * list (Z * value_t) * D)) : Prop :=
  exists d', (Exists aborts cs /\ exists ret, r = Some (READ_ABORT, ret, d')) \/
    (~ Exists aborts cs /\ exists ret, ret ≡ₚ omap got cs /\
       r = Some (if 0 <? length ret then READ_SUCCESS else READ_NOTFOUND, ret, d')).

Lemma by_key_list_spec rl p_key d : rows_ok R owner rl -> NoDup p_key ->
  key_list_result (filter (wanted (list_to_set p_key)) (cells rl))
    (ReadPropertyByPKeyList R get_visible store read_only rl p_key d).
Proof using HR Hvis Hread.
  intros H Hk. unfold ReadPropertyByPKeyList. destruct (rows rl) as [|r0 rs0] eqn:Er.
  { exists d. right. unfold cells. rewrite Er. cbn [concat]. rewrite take_nil. cbn.
    split; [by intros ?%Exists_nil|]. by exists []. }
  rewrite <- Er. assert (exists cs, cs ≡ₚ filter (wanted (list_to_set p_key)) (cells rl) /\
    match cell_map rl with
    | Some m => by_map_loop get_visible store read_only (rows rl) m p_key d []
    | None => by_key_loop R get_visible store read_only (rows rl) (property_count rl) 0 0 (list_to_set p_key) d []
    end = run_cells cs d []) as (cs & Hcs & ->).
  { destruct (cell_map rl) as [m|] eqn:Em.
    - exists (mapped (rows rl) m p_key). split; [by apply mapped_cells|]. apply by_map_run.
      intros key p (j & Hj & -> & c & Hc & _)%(ro_map _ _ _ H m Em). exists c. by rewrite (cell_at_cells R HR owner).
    - eexists. split; [reflexivity|]. change 0 with (prev_row R 0) at 2.
      rewrite by_key_run; [done|apply H|by apply (rows_len R HR owner)|]. cbn [Nat.add].
      apply keys_once_take, H. }
  destruct (run_cells_spec cs d []) as [[Ha (ret & d' & ->)]|[Ha (d' & ->)]]; exists d'; cbn [mbind option_bind]; rewrite Hcs in Ha.
  - left. split; [done|]. by eexists.
  - right. split; [done|]. eexists. split; [|done]. cbn [app]. by rewrite Hcs.
Qed.
End BulkReads.

(** Reading several properties of an element at once: in every reachable
    state, [ReadPropertyByPKeyList] returns the same status and the same
    properties whether it goes through the map or traverses the rows, and when
    [ReadAllProperty] succeeds it returns those among all the properties that
    were asked for. *)
Theorem bulk_reads_agree R owner rl ps D (get_visible : nat -> D -> option (read_result ValueHeader * D)) store read_only
    vis p_key d :
  0 < R -> rtc (row_step R owner) (rows_init, []) (rl, ps) -> NoDup p_key ->
  (forall l d, exists d', get_visible l d = Some (vis l, d')) ->
  (forall l h, vis l = RValue h -> header_empty h = false -> is_Some (ReadValue store h value_default)) ->
  exists st ret d1 ret0 d0,
    ReadPropertyByPKeyList R get_visible store read_only rl p_key d = Some (st, ret, d1) /\
    ReadPropertyByPKeyList R get_visible store read_only
      (mk_rows (rows rl) (row_tail rl) (property_count rl) None) p_key d = Some (st, ret0, d0) /\
    (st <> READ_ABORT -> ret ≡ₚ ret0) /\
    forall all d2, ReadAllProperty R get_visible store read_only rl d = Some (READ_SUCCESS, all, d2) ->
      st <> READ_ABORT /\ ret ≡ₚ filter (fun kv => kv.1 ∈ p_key) all.
Proof.
  intros HR Hrun Hk Hvis Hread. destruct (row_steps_inv R HR owner _ _ Hrun (rows_init_inv R HR owner)) as (H & _ & _).
  cbn in H. set (rl0 := mk_rows (rows rl) (row_tail rl) (property_count rl) None).
  assert (rows_ok R owner rl0) as H0 by (destruct H; by split).
  pose proof (by_key_list_spec R HR owner get_visible store read_only vis Hvis Hread rl p_key d H Hk) as (d1 & Hr).
  pose proof (by_key_list_spec R HR owner get_visible store read_only vis Hvis Hread rl0 p_key d H0 Hk) as (d0 & Hr0).
  change (cells rl0) with (cells rl) in Hr0. set (cs := filter (wanted (list_to_set p_key)) (cells rl)) in *.
  assert (forall all d2, ReadAllProperty R get_visible store read_only rl d = Some (READ_SUCCESS, all, d2) ->
    ~ Exists (aborts read_only vis) cs /\ omap (got store vis) cs = filter (fun kv => kv.1 ∈ p_key) all) as Hall.
  { intros all d2. unfold ReadAllProperty. change 0 with (prev_row R 0) at 2.
    rewrite read_all_run by (done || apply H || by apply (rows_len R HR owner)). rewrite drop_0. cbn [Nat.add].
    change (take (property_count rl) (concat (rows rl))) with (cells rl).
    destruct (run_cells_spec get_visible store read_only vis Hvis Hread (cells rl) d []) as [[Ha (? & ? & ->)]|[Ha (? & ->)]];
      [done|]. cbn. intros [= <- _]. split; [|apply omap_wanted].
    intros (c & Hc & Hab)%Exists_exists. apply Ha, Exists_exists. exists c. by apply list_elem_of_filter in Hc as []. }
  destruct Hr as [[Ha (ret & ->)]|[Ha (ret & Hp & ->)]], Hr0 as [[Ha0 (ret0 & ->)]|[Ha0 (ret0 & Hp0 & ->)]]; try done.
  - exists READ_ABORT, ret, d1, ret0, d0. split_and!; [done..|]. intros all d2 [? _]%Hall. done.
  - assert (ret ≡ₚ ret0) as Hpp by (by rewrite Hp, Hp0). eexists _, ret, d1, ret0, d0.
    split; [done|]. split; [by rewrite Hpp|]. split; [done|]. intros all d2 [_ <-]%Hall. split; [|done].
    by destruct (0 <? length ret).
Qed.

Lemma bulk_reads_agree_witness :
  exists st ret d1, ReadPropertyByPKeyList 2 (fun l d => Some (RNone, l :: d)) example_store true added_rows [11; 13]%Z [] =
    Some (st, ret, d1).
Proof.
  destruct (bulk_reads_agree 2 1 added_rows _ (list nat) (fun l d => Some (RNone, l :: d)) example_store true
    (fun _ => RNone) [11; 13]%Z [] ltac:(lia) added_run) as (st & ret & d1 & _ & _ & H & _).
  - by apply (bool_decide_unpack _).
  - intros l d. by exists (l :: d).
  - done.
  - by exists st, ret, d1.
Defined.

(** ** A transaction reads what it has written *)

Section ReadYourWrites.
Context (R BLOCK_SIZE : nat) (HR : 0 < R) (HB : 1 < BLOCK_SIZE) (owner : Z).
Context {main indirect : nat} `{!TrxTableStub main indirect}.

(** [GetVisibleVersion] on the lists in the memory, for one transaction. *)
Definition visible_in (lvl : ISOLATION_LEVEL) (tbl : TrxTable) (opt_preread : bool) (m : Memory)
    (trx_id begin : Z) (read_only : bool) (a : nat) (deps : dep_trx_map) :=
  l ← lists m !! a; GetVisibleVersion lvl tbl opt_preread (items m) l trx_id begin read_only deps.

(** Every header in an item that is not empty belongs to a stored value. *)
Definition headers_stored (m : Memory) (vals : list (ValueHeader * value_t)) : Prop :=
  store_inv (values m, vals) /\
  forall q i, items m !! q = Some i -> header_empty (val i) = false -> exists v, (val i, v) ∈ vals.

Lemma own_tail_read lvl tbl op (h : gmap nat (Item ValueHeader)) l t begin ro d hd p i :
  MvccList.head_ l = Some hd -> MvccList.tail_ l = Some p -> h !! p = Some i -> GetTransactionID i = t ->
  GetVisibleVersion lvl tbl op h l t begin ro d = Some (RValue (val i), d).
Proof.
  intros H1 H2 H3 H4. destruct lvl; unfold GetVisibleVersion, SerializableLevelGetVisibleVersion,
    SnapshotLevelGetVisibleVersion; rewrite H1, H2; cbn [mbind option_bind]; rewrite H3; cbn [mbind option_bind];
    by rewrite H4, Z.eqb_refl.
Qed.

Lemma append_writes_tail (h h' : gmap nat (Item ValueHeader)) l l' t begin q st r p :
  is_trx t -> h !! q = None -> AppendVersion h l t begin q st = Some (r, h', l') -> ap_item r = Some p ->
  (exists i hd, h' !! p = Some i /\ begin_time i = t /\ MvccList.tail_ l' = Some p /\ MvccList.head_ l' = Some hd) /\
  (ap_freed r = [] \/ exists i, h !! p = Some i /\ ap_freed r = [val i] /\ header_empty (val i) = false).
Proof.
  intros Ht Hq Ha Hp. unfold AppendVersion in Ha. destruct (MvccList.head_ l) as [hd|] eqn:Eh.
  2:{ injection Ha as <- <- <-. cbn in Hp. injection Hp as <-. split; [|by left]. eexists _, _.
      rewrite lookup_insert_eq. by split_and!. }
  destruct (MvccList.tail_ l) as [t0|] eqn:Et; [|done]. cbn [mbind option_bind] in Ha.
  destruct (h !! t0) as [i|] eqn:Ei; [|done]. cbn [mbind option_bind] in Ha.
  destruct (MAX_TIME <? begin_time i)%Z.
  - destruct (Z.eqb_spec (GetTransactionID i) t) as [E|]; injection Ha as <- <- <-; [|done].
    cbn in Hp. injection Hp as <-. pose proof (trx_range t Ht) as Hr.
    assert (begin_time i = t) as Hb by (unfold GetTransactionID in E; destruct (IS_VALID_TRX_ID _); [done|lia]).
    cbn [NeedGC PropertyMVCCItem ap_freed]. destruct (header_empty (val i)) eqn:He; cbn [negb].
    + split; [|by left]. exists i, hd. by split_and!.
    + split; [|right; by exists i]. eexists _, hd. rewrite lookup_insert_eq. by split_and!.
  - injection Ha as <- <- <-. cbn in Hp. injection Hp as <-. split; [|by left]. eexists _, hd.
    assert (t0 <> q) by congruence. rewrite lookup_insert_ne, lookup_insert_eq by done. by split_and!.
Qed.

Lemma InsertValue_tid s v tid h s' : InsertValue BLOCK_SIZE s v tid = Some (h, s') ->
  tid < length (blocks (pool s)) /\ byte_count h = u32 (Z.of_nat (length (v_content v)) + 1).
Proof.
  unfold InsertValue, get_cells. destruct (blocks (pool s) !! tid) as [b|] eqn:E; [|done]. cbn [mbind option_bind].
  intros H. split; [by eapply lookup_lt_Some|]. cbv zeta in H. destruct (if _ && _ then _ else _) as [[c pl]|]; [|done].
  cbn [mbind option_bind] in H. destruct (insert_loop _ _ _ _ _ _ _ _); [|done]. cbn in H. by injection H as <- <-.
Qed.

Lemma FreeValue_tid s h tid s' : FreeValue BLOCK_SIZE s h tid = Some s' -> tid < length (blocks (pool s)).
Proof.
  unfold FreeValue, free_cells. destruct (blocks (pool s) !! tid) as [b|] eqn:E; [|done]. intros _. by eapply lookup_lt_Some.
Qed.

(** The version that a modification writes is the one its transaction sees. *)
Lemma written_visible lvl tbl op m vals a t begin q tid old old' m2 i value h s h' ro d :
  headers_stored m vals -> is_trx t -> items m !! q = None -> storable value ->
  append_to BLOCK_SIZE m a t begin q tid old = Some (Some i, old', m2) ->
  InsertValue BLOCK_SIZE (values m2) value tid = Some (h, s) -> write_val (items m2) i h = Some h' ->
  visible_in lvl tbl op (mk_memory (lists m2) h' s) t begin ro a d = Some (RValue h, d) /\
  header_empty h = false /\
  forall ret, ReadValue s h ret = Some (mk_value (u8 (v_type value)) (v_content value) (v_empty ret)).
Proof using HB HR.
  intros [Hinv Hst] Ht Hq Hsto Ha Hins Hw. destruct (InsertValue_tid _ _ _ _ _ Hins) as [Htid Hbc].
  unfold append_to in Ha. destruct (lists m !! a) as [l|] eqn:El; [|done]. cbn [mbind option_bind] in Ha.
  destruct (AppendVersion _ _ _ _ _ _) as [[[r h1] l1]|] eqn:Eapp; [|done]. cbn [mbind option_bind] in Ha.
  destruct (free_values _ _ _ _) as [s1|] eqn:Ef; [|done]. cbn [mbind option_bind] in Ha.
  destruct (if ap_absent r then _ else _) as [o|]; [|done]. cbn in Ha. injection Ha as Hi <- <-. cbn in *.
  destruct (append_writes_tail _ _ _ _ _ _ _ _ _ _ Ht Hq Eapp Hi) as [(it & hd & Hit & Hb & Htl & Hhd) Hfr].
  assert (exists vals', store_inv (s1, vals')) as [vals' Hinv'].
  { destruct Hfr as [E|(it0 & Hit0 & E & Hne)]; rewrite E in Ef; cbn in Ef; [injection Ef as <-; by exists vals|].
    destruct (FreeValue BLOCK_SIZE (values m) (val it0) tid) as [s2|] eqn:Efree; [|done]. cbn in Ef. injection Ef as <-.
    destruct (Hst _ _ Hit0 Hne) as [v (v1 & v2 & ->)%list_elem_of_split].
    destruct (free_ok BLOCK_SIZE (values m) v1 (val it0) v v2 tid HB (FreeValue_tid _ _ _ _ Efree) Hinv) as (s3 & E3 & Hs3).
    simplify_eq. by eexists. }
  pose proof (insert_ok BLOCK_SIZE s1 vals' value tid h s HB Hsto Htid Hins Hinv') as Hnew. split_and!.
  - unfold visible_in. cbn. rewrite lookup_insert_eq. cbn [mbind option_bind]. unfold write_val in Hw. rewrite Hit in Hw.
    cbn in Hw. injection Hw as <-. rewrite (own_tail_read lvl tbl op _ l1 t begin ro d hd i (set_val it h)); [done..| |].
    + by rewrite lookup_insert_eq.
    + rewrite pending_trx_id by (cbn; by rewrite Hb). done.
  - unfold header_empty. rewrite Hbc. unfold storable in Hsto. rewrite wrap_small by (unfold fits; lia).
    apply Z.eqb_neq. lia.
  - intros ret. apply (read_ok s ((h, value) :: vals')); [done|left].
Qed.

(** What [ProcessModifyProperty] leaves in the rows and in the memory. *)
Lemma modified_cell rl ps m pid value old t begin a q tid new_row flag l old' rl' m' :
  row_inv R owner (rl, ps) -> pid.1 = owner -> length new_row = R ->
  ProcessModifyProperty R BLOCK_SIZE rl m pid value old t begin a q tid new_row = Some (flag, Some l, old', rl', m') ->
  (exists p s, LocateCell R rl' pid = Some (Some p, s) /\ cell_at (rows rl') p = Some (mk_cell pid (Some l))) /\
  exists m1 i m2 h s h', items m1 = items m /\ values m1 = values m /\
    append_to BLOCK_SIZE m1 l t begin q tid old = Some (Some i, old', m2) /\
    InsertValue BLOCK_SIZE (values m2) value tid = Some (h, s) /\ write_val (items m2) i h = Some h' /\
    m' = mk_memory (lists m2) h' s.
Proof using HR HB.
  intros (Hok & Hmap & _) Ho Hn Hp. cbn [fst snd] in *. unfold ProcessModifyProperty in Hp.
  destruct (LocateCell_spec R HR owner rl pid Hok Ho) as (r & Hr & Hcell). rewrite Hr in Hp. cbn [mbind option_bind] in Hp.
  destruct r as [p|].
  - destruct Hcell as (j & c & -> & Hc & E). assert (j < property_count rl) as Hj by (by apply cells_lookup in Hc as []).
    rewrite (cell_at_cells R HR owner), Hc in Hp by done. cbn [mbind option_bind] in Hp.
    destruct (c_list c) as [l0|] eqn:El; [|done].
    destruct (append_to _ _ _ _ _ _ _ _) as [[[[i|] o] m2]|] eqn:Ea; try done. cbn [mbind option_bind] in Hp.
    destruct (InsertValue _ _ _ _) as [[h s]|] eqn:Ei; [|done]. cbn [mbind option_bind] in Hp.
    destruct (write_val _ _ _) as [h'|] eqn:Ew; [|done]. cbn in Hp. injection Hp as <- <- <- <- <-. split.
    + eexists _, _. split; [done|]. rewrite (cell_at_cells R HR owner), Hc by done. destruct c. cbn in *. congruence.
    + by exists m, i, m2, h, s, h'.
  - destruct (AllocateCell_spec R HR owner rl pid (property_count rl) new_row Hok Hmap Ho Hn ltac:(lia))
      as (r & rl1 & E1 & Hok1 & _ & Hr1); [intros j c _; apply Hcell|].
    rewrite E1 in Hp. cbn [mbind option_bind] in Hp. destruct r as [p|]; [|done]. destruct Hr1 as [-> Hc1].
    destruct (append_to _ _ _ _ _ _ _ _) as [[[[i|] o] m2]|] eqn:Ea; try done. cbn [mbind option_bind] in Hp.
    destruct (InsertValue _ _ _ _) as [[h s]|] eqn:Ei; [|done]. cbn [mbind option_bind] in Hp.
    destruct (write_val _ _ _) as [h'|] eqn:Ew; [|done]. cbn [mbind option_bind] in Hp.
    assert (cells rl1 !! property_count rl = Some (mk_cell pid None)) as Hnew.
    { rewrite Hc1, lookup_app_r, (cells_len R HR owner), Nat.sub_diag by (done || (rewrite (cells_len R HR owner) by done; lia)). done. }
    destruct (assign_list_spec R HR owner rl1 _ _ a Hok1 Hnew) as (rl2 & E2 & Hok2 & _ & Hn2 & Hc2).
    rewrite E2 in Hp. cbn in Hp. injection Hp as <- <- <- <- <-. split;
      [|by exists (mk_memory (<[a := empty_list]> (lists m)) (items m) (values m)), i, m2, h, s, h'].
    assert (cells rl2 !! property_count rl = Some (mk_cell pid (Some a))) as Hc.
    { rewrite Hc2. apply list_lookup_insert_eq. by eapply lookup_lt_Some. }
    destruct (LocateCell_spec R HR owner rl2 pid Hok2 Ho) as (r & Hr2 & Hcell2).
    rewrite (is_cell_of_unique R HR owner rl2 pid r (Some (ptr R (property_count rl))) Hok2 Hcell2) in Hr2
      by (eexists _, _; split_and!; done).
    eexists _, _. split; [done|]. rewrite (cell_at_cells R HR owner) by (done || by apply cells_lookup in Hc as []). done.
Qed.
End ReadYourWrites.


Definition example_memory : Memory := mk_memory ∅ ∅ example_store.
Definition example_modified : option (bool * option nat * value_t * RowList * Memory) := Eval vm_compute in
  ProcessModifyProperty 2 3 rows_init example_memory (1, 10)%Z (example_value 12) value_default (example_id 3) 5 100 7 1
    (blank_row 2).
Definition modified_rows : RowList := Eval vm_compute in
  match example_modified with Some (_, _, _, rl, _) => rl | None => rows_init end.
Definition modified_memory : Memory := Eval vm_compute in
  match example_modified with Some (_, _, _, _, m) => m | None => example_memory end.

