(* ===== verification/Topology.v ===== *)
(** * layout/topology_row_list: the edges of a vertex

    The edges of a vertex are cells in a chain of rows.  A cell has the
    direction, the vertex at the other end and the list of versions of the
    edge.  Readers take no lock against writers: they read the counter, which a
    writer increments only after it has written the cell.  The lists of
    versions are shared with the edge map of the storage, which is why a
    defragmentation does not delete them. *)
From S2P Require Import Prelude Types TrxStatus Coordinator TrxStub MvccList RowChain.
Local Open Scope nat_scope.

(** [Direction_T] (base/type.hpp:552-552). *)
Inductive Direction_T := IN | OUT | BOTH.
#[global] Instance Direction_T_eq_dec : EqDecision Direction_T.
Proof. solve_decision. Defined.

(** [EdgeHeader] (layout/layout_type.hpp:92-104). *)
Record EdgeHeader := mk_edge_cell { is_out : bool; conn_vtx_id : Z; e_list : nat }.

(** [TopologyRowList] (layout/topology_row_list.hpp:26-42). *)
Record TopologyRowList := mk_topo {
  t_rows : list (list EdgeHeader); t_tail : option nat; edge_count : nat; my_vid : Z;
}.

(** [TopologyRowList::Init] (layout/topology_row_list.cpp:18-23). *)
Definition topo_init (vid : Z) : TopologyRowList := mk_topo [] None 0 vid.

(** The edge of a cell (layout/topology_row_list.cpp:141-144). *)
Definition cell_eid (vid : Z) (c : EdgeHeader) : eid_t :=
  if is_out c then eid_of_ints (conn_vtx_id c) vid else eid_of_ints vid (conn_vtx_id c).

(** The memory of edge versions. *)
Record EdgeMemory := mk_emem { e_lists : gmap nat MVCCList; e_items : gmap nat (Item EdgeVersion) }.

Section Topology.
(** [VE_ROW_CELL_COUNT]. *)
Context (R : nat).
Implicit Types (tl : TopologyRowList) (m : EdgeMemory).

(** [TopologyRowList::AllocateCell] (layout/topology_row_list.cpp:29-57). *)
Definition TopoAllocateCell tl (out : bool) (conn : Z) (a : nat) (new_row : list EdgeHeader)
    : option TopologyRowList :=
  let cell_id := edge_count tl in
  '(rs, tail) ← next_place R (t_rows tl) (t_tail tl) cell_id new_row;
  t ← tail;
  rs' ← set_cell rs (t, cell_id mod R) (mk_edge_cell out conn a);
  Some (mk_topo rs' tail (S cell_id) (my_vid tl)).

(** [TopologyRowList::InsertInitialCell] (layout/topology_row_list.cpp:60-69): [a] is
    the new list and [q] the item of its first version. *)
Definition TopoInsertInitialCell tl m (out : bool) (conn label : Z) (ep : option nat) (a q : nat)
    (new_row : list EdgeHeader) : option (TopologyRowList * EdgeMemory) :=
  let '(p, h, l) := AppendInitialVersion (e_items m) empty_list q (mk_edge_version 0 None) in
  h' ← write_val h p (mk_edge_version label ep);
  tl' ← TopoAllocateCell tl out conn a new_row;
  Some (tl', mk_emem (<[a := l]> (e_lists m)) h').

(** [TopologyRowList::ProcessAddEdge] (layout/topology_row_list.cpp:152-163). *)
Definition ProcessAddEdge tl m (out : bool) (conn label : Z) (ep : option nat) (trx_id begin : Z) (a q : nat)
    (new_row : list EdgeHeader) : option (TopologyRowList * EdgeMemory) :=
  '(r, h, l) ← AppendVersion (e_items m) empty_list trx_id begin q (mk_edge_version 0 None);
  p ← ap_item r;
  h' ← write_val h p (mk_edge_version label ep);
  tl' ← TopoAllocateCell tl out conn a new_row;
  Some (tl', mk_emem (<[a := l]> (e_lists m)) h').

(** ** Reads *)
Section Reads.
Context {D : Type} (get_visible : nat -> D -> option (read_result EdgeVersion * D)).

(** The direction test of the readers (layout/topology_row_list.cpp:89-89). *)
Definition dir_match (dir : Direction_T) (c : EdgeHeader) : bool :=
  bool_decide (dir = BOTH) || Bool.eqb (is_out c) (bool_decide (dir = OUT)).

(** The loop of [ReadConnectedVertex] (layout/topology_row_list.cpp:81-104); the
    flag is [READ_STAT::ABORT]. *)
Fixpoint connected_vertex_loop (dir : Direction_T) (label : Z) (rs : list (list EdgeHeader)) (k i r : nat) (d : D)
    (ret : list Z) : option (bool * list Z * D) :=
  match k with
  | O => Some (false, ret, d)
  | S k' =>
      let p := (row_of R i r, i mod R) in
      c ← cell_at rs p;
      if dir_match dir c then
        '(x, d') ← get_visible (e_list c) d;
        match x with
        | RAbort => Some (true, ret, d')
        | RNone => connected_vertex_loop dir label rs k' (S i) p.1 d' ret
        | RValue v =>
            if (ev_label v =? 0)%Z then connected_vertex_loop dir label rs k' (S i) p.1 d' ret
            else if (label =? 0)%Z || (label =? ev_label v)%Z
            then connected_vertex_loop dir label rs k' (S i) p.1 d' (ret ++ [conn_vtx_id c])
            else connected_vertex_loop dir label rs k' (S i) p.1 d' ret
        end
      else connected_vertex_loop dir label rs k' (S i) p.1 d ret
  end.

(** [TopologyRowList::ReadConnectedVertex] (layout/topology_row_list.cpp:71-107). *)
Definition ReadConnectedVertex tl (dir : Direction_T) (label : Z) (d : D) : option (READ_STAT * list Z * D) :=
  match t_rows tl with
  | [] => Some (READ_SUCCESS, [], d)
  | _ =>
      '(abort, ret, d') ← connected_vertex_loop dir label (t_rows tl) (edge_count tl) 0 0 d [];
      Some (if abort : bool then READ_ABORT else READ_SUCCESS, ret, d')
  end.

(** The loop of [ReadConnectedEdge] (layout/topology_row_list.cpp:120-147). *)
Fixpoint connected_edge_loop (vid : Z) (dir : Direction_T) (label : Z) (rs : list (list EdgeHeader)) (k i r : nat)
    (d : D) (ret : list eid_t) : option (bool * list eid_t * D) :=
  match k with
  | O => Some (false, ret, d)
  | S k' =>
      let p := (row_of R i r, i mod R) in
      c ← cell_at rs p;
      if dir_match dir c then
        '(x, d') ← get_visible (e_list c) d;
        match x with
        | RAbort => Some (true, ret, d')
        | RNone => connected_edge_loop vid dir label rs k' (S i) p.1 d' ret
        | RValue v =>
            if (ev_label v =? 0)%Z then connected_edge_loop vid dir label rs k' (S i) p.1 d' ret
            else if (label =? 0)%Z || (label =? ev_label v)%Z
            then connected_edge_loop vid dir label rs k' (S i) p.1 d' (ret ++ [cell_eid vid c])
            else connected_edge_loop vid dir label rs k' (S i) p.1 d' ret
        end
      else connected_edge_loop vid dir label rs k' (S i) p.1 d ret
  end.

(** [TopologyRowList::ReadConnectedEdge] (layout/topology_row_list.cpp:109-150). *)
Definition ReadConnectedEdge tl (dir : Direction_T) (label : Z) (d : D) : option (READ_STAT * list eid_t * D) :=
  match t_rows tl with
  | [] => Some (READ_SUCCESS, [], d)
  | _ =>
      '(abort, ret, d') ← connected_edge_loop (my_vid tl) dir label (t_rows tl) (edge_count tl) 0 0 d [];
      Some (if abort : bool then READ_ABORT else READ_SUCCESS, ret, d')
  end.
End Reads.

(** ** Garbage collection *)

(** The versions of a list from [p] whose edge properties are collected first
    (layout/topology_row_list.cpp:199-207). *)
Fixpoint ep_lists (fuel : nat) (h : gmap nat (Item EdgeVersion)) (p : option nat) : option (list nat) :=
  match p with
  | None => Some []
  | Some a =>
      match fuel with
      | O => None
      | S f =>
          i ← h !! a;
          rest ← ep_lists f h (next i);
          Some (match ep_row_list (val i) with Some e => e :: rest | None => rest end)
      end
  end.

(** The loop of [SelfGarbageCollect] (layout/topology_row_list.cpp:182-211): the
    edges with their directions, and the property rows that are collected. *)
Fixpoint topo_gc_loop (vid : Z) (rs : list (list EdgeHeader)) (k i r : nat) m (eids : list (eid_t * bool))
    (eps : list nat) : option (list (eid_t * bool) * list nat * EdgeMemory) :=
  match k with
  | O => Some (eids, eps, m)
  | S k' =>
      let p := (row_of R i r, i mod R) in
      c ← cell_at rs p;
      l ← e_lists m !! e_list c;
      es ← ep_lists (size (e_items m)) (e_items m) (head_ l);
      '(_, _, h, l') ← SelfGarbageCollect (e_items m) l;
      topo_gc_loop vid rs k' (S i) p.1 (mk_emem (<[e_list c := l']> (e_lists m)) h)
        (eids ++ [(cell_eid vid c, is_out c)]) (eps ++ es)
  end.

(** [TopologyRowList::SelfGarbageCollect] (layout/topology_row_list.cpp:165-221): the
    edges, the property rows and the number of freed rows.  The counter stays. *)
Definition topo_self_gc tl m : option (list (eid_t * bool) * list nat * nat * TopologyRowList * EdgeMemory) :=
  match t_rows tl with
  | [] => Some ([], [], 0, tl, m)
  | _ =>
      '(eids, eps, m') ← topo_gc_loop (my_vid tl) (t_rows tl) (edge_count tl) 0 0 m [] [];
      Some (eids, eps, Nat.max 1 (row_count R (edge_count tl)), mk_topo [] None (edge_count tl) (my_vid tl), m')
  end.

Section Defragment.
(** The lists without versions. *)
Context (empty : nat -> bool).

Definition has_version (c : EdgeHeader) : Prop := empty (e_list c) = false.
#[global] Instance has_version_dec c : Decision (has_version c).
Proof. unfold has_version. apply _. Defined.

(** The loop of [SelfDefragment] that finds the empty cells
    (layout/topology_row_list.cpp:240-264). *)
Fixpoint topo_collect_loop (vid : Z) (rs : list (list EdgeHeader)) (k i r : nat) (q : list cell_ptr)
    (eids : list (eid_t * bool)) : option (list cell_ptr * list (eid_t * bool)) :=
  match k with
  | O => Some (q, eids)
  | S k' =>
      let p := (row_of R i r, i mod R) in
      c ← cell_at rs p;
      if empty (e_list c)
      then topo_collect_loop vid rs k' (S i) p.1 (q ++ [(i / R, i mod R)]) (eids ++ [(cell_eid vid c, is_out c)])
      else topo_collect_loop vid rs k' (S i) p.1 q eids
  end.

(** The loop of [SelfDefragment] that moves cells
    (layout/topology_row_list.cpp:280-305). *)
Definition topo_move := move_loop R has_version.

(** [TopologyRowList::SelfDefragment] (layout/topology_row_list.cpp:223-323). *)
Definition topo_defragment tl : option (list (eid_t * bool) * nat * TopologyRowList) :=
  match t_rows tl with
  | [] => Some ([], 0, tl)
  | _ =>
      let count := edge_count tl in
      let nrows := if row_count R count =? 0 then 1 else row_count R count in
      '(q, eids) ← topo_collect_loop (my_vid tl) (t_rows tl) count 0 0 [] [];
      match q with
      | [] => Some (eids, 0, tl)
      | _ =>
          let cur := count - length q in
          rs ← topo_move count count (t_rows tl) q (count - 1) (nrows - 1) cur;
          let keep := row_count R cur in
          Some (eids, nrows - keep,
            mk_topo (take keep rs) (if keep =? 0 then None else Some (keep - 1)) cur (my_vid tl))
      end
  end.
End Defragment.
End Topology.

(** ** Reachable row lists *)

Definition edges (tl : TopologyRowList) : list EdgeHeader := take (edge_count tl) (concat (t_rows tl)).

Section Invariant.
Context (R : nat) (HR : 0 < R).
Implicit Types (tl : TopologyRowList).

(** Threads add edges one after the other; defragmentation excludes them. *)
Inductive topo_add : TopologyRowList -> TopologyRowList -> Prop :=
  | TopoAdd tl out conn a new_row tl' : length new_row = R ->
      TopoAllocateCell R tl out conn a new_row = Some tl' -> topo_add tl tl'.

Inductive topo_step : TopologyRowList -> TopologyRowList -> Prop :=
  | TopoStepAdd tl tl' : topo_add tl tl' -> topo_step tl tl'
  | TopoStepDefragment tl empty eids freed tl' : topo_defragment R empty tl = Some (eids, freed, tl') -> topo_step tl tl'.

Definition topo_ok tl : Prop := chain_ok R (t_rows tl) (t_tail tl) (edge_count tl).

Lemma topo_init_ok vid : topo_ok (topo_init vid).
Proof using HR.
  split; [constructor| |done]. cbn. unfold row_count. by rewrite Nat.Div0.mod_0_l, Nat.Div0.div_0_l.
Qed.

Lemma edges_len tl : topo_ok tl -> length (edges tl) = edge_count tl.
Proof using HR. intros H. pose proof (chain_len R HR _ _ _ H). unfold edges. rewrite length_take. lia. Qed.

Lemma topo_allocate_spec tl out conn a new_row : topo_ok tl -> length new_row = R ->
  exists tl', TopoAllocateCell R tl out conn a new_row = Some tl' /\ topo_ok tl' /\ my_vid tl' = my_vid tl /\
    edge_count tl' = S (edge_count tl) /\ edges tl' = edges tl ++ [mk_edge_cell out conn a].
Proof using HR.
  intros H Hn. unfold TopoAllocateCell. cbv zeta.
  destruct (write_next_spec R HR _ _ _ new_row (mk_edge_cell out conn a) H Hn) as (rs & rs' & -> & Hset & Hok & Ht).
  cbn [mbind option_bind]. change (edge_count tl / R, edge_count tl mod R) with (ptr R (edge_count tl)).
  rewrite Hset. cbn [mbind option_bind]. eexists. by split_and!.
Qed.

(** The cells that a reader visits up to a counter are those of that time. *)
Lemma topo_adds_prefix tl tl' : rtc topo_add tl tl' -> topo_ok tl ->
  topo_ok tl' /\ my_vid tl' = my_vid tl /\ edge_count tl <= edge_count tl' /\ edges tl `prefix_of` edges tl'.
Proof using HR.
  induction 1 as [|x y z Hstep Hrtc IH]; intros H; [split_and!; done|].
  inversion Hstep as [tl0 out conn a row tl1 Hl E]; subst.
  destruct (topo_allocate_spec x out conn a row H Hl) as (tl2 & E2 & H2 & Hv & Hc & He). simplify_eq.
  destruct (IH H2) as (H3 & Hv3 & Hc3 & Hp3). split_and!; [done|congruence|lia|].
  etrans; [|done]. rewrite He. by apply prefix_app_r.
Qed.

(** ** Defragmentation *)
Section Defragment.
Context (empty : nat -> bool).
Lemma topo_collect_spec vid rs k i q es : shaped R rs -> i + k <= length (concat rs) ->
  topo_collect_loop R empty vid rs k i (prev_row R i) q es =
    Some (q ++ (ptr R <$> nulls (has_version empty) (concat rs) i k),
          es ++ ((fun c => (cell_eid vid c, is_out c)) <$>
                 filter (fun c => ~ has_version empty c) (drop i (take (i + k) (concat rs))))).
Proof using HR.
  intros Hs. revert i q es. induction k as [|k IH]; intros i q es Hk; cbn [topo_collect_loop].
  { rewrite drop_ge by (rewrite length_take; lia). cbn. by rewrite !app_nil_r. }
  cbv zeta. rewrite (ptr_row_of R HR), (cell_at_flat R HR) by done.
  destruct (lookup_lt_is_Some_2 (concat rs) i ltac:(lia)) as [c Hc]. rewrite Hc. cbn [mbind option_bind].
  assert (drop i (take (i + S k) (concat rs)) = c :: drop (S i) (take (S i + k) (concat rs))) as ->.
  { rewrite (drop_S _ c i); [by rewrite Nat.add_succ_r|]. by rewrite lookup_take_lt by lia. }
  rewrite nulls_cons. unfold nullb at 1. rewrite Hc.
  change (i / R, i mod R) with (ptr R i). change ((ptr R i).1) with (i / R). rewrite <- (prev_row_S R).
  destruct (decide (has_version empty c)) as [Hv|Hv].
  - rewrite bool_decide_eq_false_2 by tauto. rewrite (filter_cons_False _ c) by tauto.
    unfold has_version in Hv. rewrite Hv. by rewrite IH by lia.
  - rewrite bool_decide_eq_true_2 by done. rewrite filter_cons_True by done.
    assert (empty (e_list c) = true) as -> by (unfold has_version in Hv; by destruct (empty (e_list c))).
    rewrite IH by lia. cbn. by rewrite <- !app_assoc.
Qed.

Lemma topo_defragment_spec tl : topo_ok tl ->
  exists freed tl', topo_defragment R empty tl =
      Some ((fun c => (cell_eid (my_vid tl) c, is_out c)) <$> filter (fun c => ~ has_version empty c) (edges tl), freed, tl') /\
    topo_ok tl' /\ my_vid tl' = my_vid tl /\ edges tl' ≡ₚ filter (has_version empty) (edges tl) /\
    freed + length (t_rows tl') = length (t_rows tl).
Proof using HR.
  intros H. unfold topo_defragment. destruct (t_rows tl) as [|r0 rs0] eqn:Er.
  { exists 0, tl. unfold edges. rewrite !Er. cbn [concat]. rewrite take_nil. by split_and!. }
  rewrite <- Er. clear r0 rs0 Er. cbv zeta. pose proof (chain_len R HR _ _ _ H) as Hl.
  change 0 with (prev_row R 0) at 3. rewrite topo_collect_spec by (done || apply H).
  cbn [mbind option_bind app Nat.add]. rewrite drop_0. fold (edges tl). set (n := edge_count tl) in *.
  destruct (ptr R <$> nulls (has_version empty) (concat (t_rows tl)) 0 n) as [|e q] eqn:Eq.
  { exists 0, tl. split_and!; [done..| |done]. apply fmap_nil_inv in Eq.
    rewrite filter_all; [done|]. apply Forall_lookup. intros j c Hc. destruct (decide (has_version empty c)) as [|Hn]; [done|].
    unfold edges in Hc. apply lookup_take_Some in Hc as [Hc Hj].
    assert (j ∈ nulls (has_version empty) (concat (t_rows tl)) 0 n) as Hin; [|rewrite Eq in Hin; by apply not_elem_of_nil in Hin].
    apply elem_of_nulls. split; [lia|]. unfold nullb. rewrite Hc. by apply bool_decide_eq_true. }
  rewrite <- Eq, length_fmap.
  destruct (compact_spec R HR (has_version empty) (t_rows tl) n) as (Hk & rs & Hmv & Hs & Hlen & Hp); [apply H|apply H| |].
  { intros E. by rewrite E in Eq. }
  unfold topo_move. rewrite Hmv. cbn [mbind option_bind].
  set (k := n - length (nulls (has_version empty) (concat (t_rows tl)) 0 n)) in *.
  assert (length rs = row_count R n) as Hlen' by (rewrite Hlen; apply H).
  destruct (cut_chain R HR rs n k Hs Hlen') as [Hch Ht]; [lia|]. eexists _, _. split; [done|].
  split; [exact Hch|]. split; [done|]. unfold edges at 1. cbn [t_rows edge_count]. rewrite Ht. split; [exact Hp|].
  rewrite (ch_rows _ _ _ _ Hch), (ch_rows _ _ _ _ H). pose proof (row_count_mono R HR k n ltac:(lia)). fold n.
  destruct (Nat.eqb_spec (row_count R n) 0) as [E|]; [|lia].
  pose proof (row_count_ge R HR n) as Hge. rewrite E in Hge. assert (n = 0) as E0 by lia. by rewrite E0 in Eq.
Qed.
End Defragment.
End Invariant.

(** ** The readers *)

Section ReadSpec.
Context (R : nat) (HR : 0 < R) {D A : Type} (get_visible : nat -> D -> option (read_result EdgeVersion * D)).
Context (f : EdgeHeader -> A) (dir : Direction_T) (label : Z).

(** Both readers visit the cells in order and keep something of the matching
    ones. *)
Fixpoint run_edges (cs : list EdgeHeader) (d : D) (ret : list A) : option (bool * list A * D) :=
  match cs with
  | [] => Some (false, ret, d)
  | c :: cs' =>
      if dir_match dir c then
        '(x, d') ← get_visible (e_list c) d;
        match x with
        | RAbort => Some (true, ret, d')
        | RNone => run_edges cs' d' ret
        | RValue v =>
            if (ev_label v =? 0)%Z then run_edges cs' d' ret
            else if (label =? 0)%Z || (label =? ev_label v)%Z then run_edges cs' d' (ret ++ [f c])
            else run_edges cs' d' ret
        end
      else run_edges cs' d ret
  end.

(** A loop with the equations of the readers is [run_edges] on the cells that
    it visits. *)
Lemma loop_run (loop : list (list EdgeHeader) -> nat -> nat -> nat -> D -> list A -> option (bool * list A * D)) rs :
  (forall i r d ret, loop rs 0 i r d ret = Some (false, ret, d)) ->
  (forall k i r d ret, loop rs (S k) i r d ret =
     (c ← cell_at rs (row_of R i r, i mod R);
      if dir_match dir c then
        '(x, d') ← get_visible (e_list c) d;
        match x with
        | RAbort => Some (true, ret, d')
        | RNone => loop rs k (S i) (row_of R i r) d' ret
        | RValue v =>
            if (ev_label v =? 0)%Z then loop rs k (S i) (row_of R i r) d' ret
            else if (label =? 0)%Z || (label =? ev_label v)%Z
            then loop rs k (S i) (row_of R i r) d' (ret ++ [f c])
            else loop rs k (S i) (row_of R i r) d' ret
        end
      else loop rs k (S i) (row_of R i r) d ret)) ->
  shaped R rs -> forall k i d ret, i + k <= length (concat rs) ->
  loop rs k i (prev_row R i) d ret = run_edges (drop i (take (i + k) (concat rs))) d ret.
Proof using HR.
  intros H0 HS Hs k. induction k as [|k IH]; intros i d ret Hk.
  { rewrite H0. by rewrite drop_ge by (rewrite length_take; lia). }
  rewrite HS, (ptr_row_of R HR), (cell_at_flat R HR) by done.
  destruct (lookup_lt_is_Some_2 (concat rs) i ltac:(lia)) as [c Hc]. rewrite Hc. cbn [mbind option_bind].
  assert (drop i (take (i + S k) (concat rs)) = c :: drop (S i) (take (S i + k) (concat rs))) as ->.
  { rewrite (drop_S _ c i); [by rewrite Nat.add_succ_r|]. by rewrite lookup_take_lt by lia. }
  cbn [run_edges]. rewrite (row_of_prev R HR), <- (prev_row_S R).
  destruct (dir_match dir c); [|by apply IH; lia]. destruct (get_visible _ _) as [[[| |v] d']|]; cbn [mbind option_bind]; try done.
  - by apply IH; lia.
  - destruct (ev_label v =? 0)%Z; [by apply IH; lia|]. destruct (_ || _); by apply IH; lia.
Qed.

(** The visible version of a list does not depend on the dependencies. *)
Context (vis : nat -> read_result EdgeVersion).
Hypothesis Hvis : forall l d, exists d', get_visible l d = Some (vis l, d').

Definition edge_aborts (c : EdgeHeader) : Prop := dir_match dir c = true /\ vis (e_list c) = RAbort.
(** The edge is there for the reader. *)
Definition edge_matches (c : EdgeHeader) : Prop :=
  dir_match dir c = true /\
  match vis (e_list c) with RValue v => ev_label v <> 0%Z /\ (label = 0%Z \/ label = ev_label v) | _ => False end.
#[global] Instance edge_matches_dec c : Decision (edge_matches c).
Proof. unfold edge_matches. destruct (vis _); apply _. Defined.

Lemma run_edges_spec cs d ret :
  Exists edge_aborts cs /\ (exists ret' d', run_edges cs d ret = Some (true, ret', d')) \/
  ~ Exists edge_aborts cs /\ (exists d', run_edges cs d ret = Some (false, ret ++ (f <$> filter edge_matches cs), d')).
Proof using Hvis.
  revert d ret. induction cs as [|c cs IH]; intros d ret; cbn [run_edges].
  { right. split; [by intros ?%Exists_nil|]. exists d. by rewrite app_nil_r. }
  assert (forall b d' ret', (b = true -> ret' = ret ++ [f c]) -> (b = false -> ret' = ret) ->
    (if b then edge_matches c else ~ edge_matches c) -> ~ edge_aborts c ->
    Exists edge_aborts (c :: cs) /\ (exists ret2 d2, run_edges cs d' ret' = Some (true, ret2, d2)) \/
    ~ Exists edge_aborts (c :: cs) /\
      (exists d2, run_edges cs d' ret' = Some (false, ret ++ (f <$> filter edge_matches (c :: cs)), d2))) as Hgo.
  { intros b d' ret' H1 H2 Hm Hna. destruct (IH d' ret') as [[He Hr]|[He [d2 Hr]]]; [left|right].
    - split; [by right|done].
    - split; [by intros [?|?]%Exists_cons|]. exists d2. rewrite Hr. destruct b.
      + rewrite filter_cons_True by done. rewrite H1 by done. cbn. by rewrite <- app_assoc.
      + rewrite filter_cons_False by done. by rewrite H2. }
  destruct (dir_match dir c) eqn:Ed.
  2:{ apply (Hgo false); unfold edge_matches, edge_aborts; try done; rewrite Ed; by intros []. }
  destruct (Hvis (e_list c) d) as [d' ->]. cbn [mbind option_bind]. destruct (vis (e_list c)) as [| |v] eqn:Ev.
  - left. split; [|by eexists _, _]. left. by split.
  - apply (Hgo false); unfold edge_matches, edge_aborts; try done; rewrite Ev; naive_solver.
  - assert (~ edge_aborts c) as Hna by (unfold edge_aborts; rewrite Ev; naive_solver).
    destruct (Z.eqb_spec (ev_label v) 0).
    { apply (Hgo false); try done. unfold edge_matches. rewrite Ev. naive_solver. }
    destruct (Z.eqb_spec label 0); cbn [orb]; [|destruct (Z.eqb_spec label (ev_label v))].
    + apply (Hgo true); try done. unfold edge_matches. rewrite Ev. naive_solver.
    + apply (Hgo true); try done. unfold edge_matches. rewrite Ev. naive_solver.
    + apply (Hgo false); try done. unfold edge_matches. rewrite Ev. naive_solver.
Qed.
End ReadSpec.

Section Theorems.
Context (R : nat) (HR : 0 < R).

Lemma topo_step_ok tl tl' : topo_step R tl tl' -> topo_ok R tl -> topo_ok R tl' /\ my_vid tl' = my_vid tl.
Proof using HR.
  intros [x y Hadd|x empty eids freed y E] H.
  - destruct (topo_adds_prefix R HR x y (rtc_once _ _ Hadd) H) as (? & ? & _). done.
  - destruct (topo_defragment_spec R HR empty x H) as (f & y' & E' & H' & Hv & _). simplify_eq. done.
Qed.

Lemma topo_reachable vid tl : rtc (topo_step R) (topo_init vid) tl -> topo_ok R tl /\ my_vid tl = vid.
Proof using HR.
  revert tl. apply rtc_ind_r; [split; [by apply topo_init_ok|done]|].
  intros x y _ Hs [Hx Hv]. destruct (topo_step_ok x y Hs Hx). split; congruence.
Qed.

(** A traversal up to an older counter sees the edges of that time. *)
Lemma old_counter tl tl' : topo_ok R tl -> rtc (topo_add R) tl tl' ->
  shaped R (t_rows tl') /\ edge_count tl <= length (concat (t_rows tl')) /\
  take (edge_count tl) (concat (t_rows tl')) = edges tl.
Proof using HR.
  intros H Hadds. destruct (topo_adds_prefix R HR tl tl' Hadds H) as (H' & _ & Hc & l & Hp).
  pose proof (chain_len R HR _ _ _ H') as Hlen. split_and!; [apply H'|lia|].
  assert (take (edge_count tl) (edges tl') = edges tl) as Ht.
  { rewrite Hp, take_app_le by (by rewrite (edges_len R HR)). apply take_ge. by rewrite (edges_len R HR). }
  rewrite <- Ht. unfold edges at 1. by rewrite take_take, Nat.min_l.
Qed.

Lemma vertex_loop_run {D} get_visible dir label rs n (d : D) : shaped R rs -> n <= length (concat rs) ->
  connected_vertex_loop R get_visible dir label rs n 0 0 d [] =
    run_edges get_visible conn_vtx_id dir label (take n (concat rs)) d [].
Proof using HR.
  intros Hs Hn. rewrite <- (drop_0 (take n (concat rs))).
  by apply (loop_run R HR get_visible conn_vtx_id dir label (connected_vertex_loop R get_visible dir label) rs).
Qed.

Lemma edge_loop_run {D} vid get_visible dir label rs n (d : D) : shaped R rs -> n <= length (concat rs) ->
  connected_edge_loop R get_visible vid dir label rs n 0 0 d [] =
    run_edges get_visible (cell_eid vid) dir label (take n (concat rs)) d [].
Proof using HR.
  intros Hs Hn. rewrite <- (drop_0 (take n (concat rs))).
  by apply (loop_run R HR get_visible (cell_eid vid) dir label (connected_edge_loop R get_visible vid dir label) rs).
Qed.
End Theorems.

(** The neighbours and the edges of a vertex: in every reachable state both
    readers end, abort exactly when the version of an edge in the wanted
    direction makes the transaction abort, and otherwise return, for the
    edges in that direction that are visible with the wanted label, the
    vertex at the other end and the edge with the right end points, in the
    same order.  A reader that has read the counter before other threads add
    edges visits, in the rows that have grown meanwhile, the cells of that
    time. *)
Theorem topology_reads R vid tl tl' D (get_visible : nat -> D -> option (read_result EdgeVersion * D)) vis dir label d :
  0 < R -> rtc (topo_step R) (topo_init vid) tl -> rtc (topo_add R) tl tl' ->
  (forall l d, exists d', get_visible l d = Some (vis l, d')) ->
  let cs := filter (edge_matches dir label vis) (edges tl) in
  (Exists (edge_aborts dir vis) (edges tl) /\
     (exists ret d1, ReadConnectedVertex R get_visible tl dir label d = Some (READ_ABORT, ret, d1)) /\
     (exists ret d1, ReadConnectedEdge R get_visible tl dir label d = Some (READ_ABORT, ret, d1)) \/
   ~ Exists (edge_aborts dir vis) (edges tl) /\
     (exists d1, ReadConnectedVertex R get_visible tl dir label d = Some (READ_SUCCESS, conn_vtx_id <$> cs, d1)) /\
     (exists d1, ReadConnectedEdge R get_visible tl dir label d = Some (READ_SUCCESS, cell_eid vid <$> cs, d1))) /\
  connected_vertex_loop R get_visible dir label (t_rows tl') (edge_count tl) 0 0 d [] =
    connected_vertex_loop R get_visible dir label (t_rows tl) (edge_count tl) 0 0 d [] /\
  connected_edge_loop R get_visible vid dir label (t_rows tl') (edge_count tl) 0 0 d [] =
    connected_edge_loop R get_visible vid dir label (t_rows tl) (edge_count tl) 0 0 d [].
Proof.
  intros HR Hrun Hadds Hvis cs. destruct (topo_reachable R HR vid tl Hrun) as [Hok Hv].
  pose proof (chain_len R HR _ _ _ Hok) as Hlen. destruct (old_counter R HR tl tl' Hok Hadds) as (Hs' & Hlen' & Ht').
  assert (shaped R (t_rows tl)) as Hs by apply Hok. split.
  - unfold ReadConnectedVertex, ReadConnectedEdge. rewrite Hv. destruct (t_rows tl) as [|r0 rs0] eqn:Er.
    { right. subst cs. unfold edges. rewrite Er. cbn [concat]. rewrite take_nil. split_and!; [by intros ?%Exists_nil|by eexists..]. }
    rewrite <- Er in *. rewrite vertex_loop_run, edge_loop_run by done. fold (edges tl). clear r0 rs0 Er.
    destruct (run_edges_spec get_visible conn_vtx_id dir label vis Hvis (edges tl) d []) as [[He (r1 & d1 & ->)]|[He (d1 & ->)]],
      (run_edges_spec get_visible (cell_eid vid) dir label vis Hvis (edges tl) d []) as [[He' (r2 & d2 & ->)]|[He' (d2 & ->)]];
      try done; [left|right]; split_and!; try done; by repeat eexists.
  - by rewrite !vertex_loop_run, !edge_loop_run, Ht' by done.
Qed.

(** Defragmenting the edges of a vertex: in every reachable state it ends,
    keeps exactly the cells whose list has a version, reports exactly the
    edges of the others, with their directions, for removal from the edge
    map, and frees the rows that are no longer needed. *)
Theorem topology_defragment R vid tl empty : 0 < R -> rtc (topo_step R) (topo_init vid) tl ->
  exists freed tl', topo_defragment R empty tl =
      Some ((fun c => (cell_eid vid c, is_out c)) <$> filter (fun c => ~ has_version empty c) (edges tl), freed, tl') /\
    edges tl' ≡ₚ filter (has_version empty) (edges tl) /\
    length (t_rows tl') = row_count R (edge_count tl') /\ freed + length (t_rows tl') = length (t_rows tl).
Proof.
  intros HR Hrun. destruct (topo_reachable R HR vid tl Hrun) as [Hok Hv].
  destruct (topo_defragment_spec R HR empty tl Hok) as (freed & tl' & E & Hok' & _ & Hp & Hf).
  rewrite Hv in E. exists freed, tl'. split_and!; [done|done|apply Hok'|done].
Qed.

(** *** An example: rows of two cells, three edges *)
Definition blank_edges (R : nat) : list EdgeHeader := replicate R (mk_edge_cell false 0 0).
Definition two_edges : TopologyRowList := Eval vm_compute in
  default (topo_init 1) (t ← TopoAllocateCell 2 (topo_init 1) true 5 10 (blank_edges 2);
    TopoAllocateCell 2 t false 6 11 (blank_edges 2)).
Definition three_edges : TopologyRowList := Eval vm_compute in
  default (topo_init 1) (TopoAllocateCell 2 two_edges true 7 12 (blank_edges 2)).

Lemma two_edges_run : rtc (topo_step 2) (topo_init 1) two_edges.
Proof.
  eapply rtc_l; [apply TopoStepAdd, (TopoAdd 2 _ true 5 10 (blank_edges 2)); by vm_compute|].
  apply rtc_once, TopoStepAdd, (TopoAdd 2 _ false 6 11 (blank_edges 2)); by vm_compute.
Qed.

Lemma third_edge : topo_add 2 two_edges three_edges.
Proof. by apply (TopoAdd 2 _ true 7 12 (blank_edges 2)). Qed.

Lemma topology_reads_witness :
  connected_vertex_loop 2 (fun _ d => Some (RValue (mk_edge_version 3 None), d)) BOTH 3 (t_rows three_edges)
    (edge_count two_edges) 0 0 tt [] =
  connected_vertex_loop 2 (fun _ d => Some (RValue (mk_edge_version 3 None), d)) BOTH 3 (t_rows two_edges)
    (edge_count two_edges) 0 0 tt [].
Proof.
  refine (proj1 (proj2 (topology_reads 2 1 two_edges three_edges unit
    (fun _ d => Some (RValue (mk_edge_version 3 None), d)) (fun _ => RValue (mk_edge_version 3 None)) BOTH 3 tt _ _ _ _))).
  - lia.
  - exact two_edges_run.
  - exact (rtc_once _ _ third_edge).
  - intros l []. by exists tt.
Defined.

Lemma topology_defragment_witness :
  exists freed tl', topo_defragment 2 (Nat.eqb 11) three_edges = Some ([(mk_eid 1 6, false)], freed, tl').
Proof.
  destruct (topology_defragment 2 1 three_edges (Nat.eqb 11)) as (freed & tl' & E & _).
  - lia.
  - exact (rtc_r _ _ _ two_edges_run (TopoStepAdd 2 _ _ third_edge)).
  - exists freed, tl'. exact E.
Defined.
