(* ===== verification/Forest.v ===== *)
(** * Many lists of versions in one heap

    The storage keeps the lists of one kind in one heap.  A forest says which
    items belong to which list and what each list represents; an operation on
    one list leaves the others alone.  For lists of properties the value store
    is added: every item that is not a deletion owns the value its header
    names. *)
From S2P Require Import Prelude Types TrxStatus Coordinator TrxStub MvccList CellPool ValueStore Serialization.
From S2P Require Import RowChain PropertyRows.
Local Open Scope Z_scope.

Definition no_versions {V} : versions V := mk_versions [] None.

Section Forest.
Context {V : Type} `{!MVCCItem V}.
Abbreviation heap := (gmap nat (Item V)).
Implicit Types (ls : gmap nat MVCCList) (h : heap) (C : gmap nat (list nat)) (A : gmap nat (versions V)).

Definition forest_at h (l : option MVCCList) (ps : option (list nat)) (v : option (versions V)) : Prop :=
  match l, ps, v with
  | Some l, Some ps, Some v => repr h l ps v
  | None, None, None => True
  | _, _, _ => False
  end.

(** The list at each address is the chain of its items and represents its
    versions; no item is in two lists. *)
Record forest ls h C A : Prop := {
  fo_at a : forest_at h (ls !! a) (C !! a) (A !! a);
  fo_disj a b ps qs x : C !! a = Some ps -> C !! b = Some qs -> x ∈ ps -> x ∈ qs -> a = b;
}.

Lemma forest_list ls h C A a l : forest ls h C A -> ls !! a = Some l ->
  exists ps v, C !! a = Some ps /\ A !! a = Some v /\ repr h l ps v.
Proof. intros [F _] E. specialize (F a). rewrite E in F. destruct (C !! a), (A !! a); try done. eauto. Qed.

Lemma forest_abs ls h C A a v : forest ls h C A -> A !! a = Some v ->
  exists ps l, C !! a = Some ps /\ ls !! a = Some l /\ repr h l ps v.
Proof. intros [F _] E. specialize (F a). rewrite E in F. destruct (C !! a), (ls !! a); try done. eauto. Qed.

Lemma forest_None ls h C A a : forest ls h C A -> ls !! a = None <-> A !! a = None.
Proof. intros [F _]. specialize (F a). destruct (ls !! a), (C !! a), (A !! a); naive_solver. Qed.

Lemma forest_item ls h C A a ps x : forest ls h C A -> C !! a = Some ps -> x ∈ ps -> is_Some (h !! x).
Proof.
  intros [F _] E Hx. specialize (F a). rewrite E in F. destruct (ls !! a), (A !! a); try done.
  eapply seg_is_Some; [by eapply r_seg|done].
Qed.

(** A list is replaced; its items are its old ones and fresh ones. *)
Lemma forest_update ls h C A a l' ps ps' v' h' : forest ls h C A -> C !! a = Some ps ->
  repr h' l' ps' v' -> (forall x, x ∈ ps' -> x ∈ ps \/ h !! x = None) ->
  (forall x, (x ∉ ps) -> (x ∉ ps') -> h' !! x = h !! x) ->
  forest (<[a := l']> ls) h' (<[a := ps']> C) (<[a := v']> A).
Proof.
  intros F Ea R Hin Hout.
  assert (forall b qs x, b <> a -> C !! b = Some qs -> x ∈ qs -> (x ∉ ps) /\ (x ∉ ps')) as Hsep.
  { intros b qs x N Eb Hx. assert (x ∉ ps) as Hn by (intros Hp; apply N; by eapply fo_disj).
    split; [done|]. intros Hp. destruct (Hin _ Hp) as [?|E]; [done|].
    destruct (forest_item _ _ _ _ _ _ _ F Eb Hx). congruence. }
  split.
  - intros b. destruct (decide (b = a)) as [->|N]; [by rewrite !lookup_insert_eq|].
    rewrite !lookup_insert_ne by done. pose proof (fo_at _ _ _ _ F b) as Fb. unfold forest_at in *.
    destruct (ls !! b) as [l|], (C !! b) as [qs|] eqn:Eb, (A !! b) as [v|]; try done.
    destruct Fb as [H1 H2 H3 H4 H5 H6]. split; try done. revert H2. apply seg_agree. intros x Hx.
    destruct (Hsep b qs x N Eb Hx). by apply Hout.
  - intros b c qs rs x. rewrite !lookup_insert_Some.
    intros [[<- <-]|[N1 E1]] [[<- <-]|[N2 E2]] H1 H2; [done| | |by eapply fo_disj].
    + by destruct (Hsep c rs x (not_eq_sym N2) E2 H2).
    + by destruct (Hsep b qs x (not_eq_sym N1) E1 H1).
Qed.

Lemma repr_new h : repr h empty_list [] no_versions.
Proof.
  split; try done; [constructor|]. split; cbn; [constructor|constructor|done].
Qed.

Lemma forest_new ls h C A a : forest ls h C A -> ls !! a = None ->
  forest (<[a := empty_list]> ls) h (<[a := []]> C) (<[a := no_versions]> A).
Proof.
  intros F E. split.
  - intros b. destruct (decide (b = a)) as [->|N]; [rewrite !lookup_insert_eq; apply repr_new|].
    rewrite !lookup_insert_ne by done. apply F.
  - intros b c qs rs x. rewrite !lookup_insert_Some.
    intros [[<- <-]|[N1 E1]] [[<- <-]|[N2 E2]] H1 H2; [done|by apply not_elem_of_nil in H1|by apply not_elem_of_nil in H2|by eapply fo_disj].
Qed.

(** What the operations do to the values in the items. *)
Definition same_vals h h' (q : nat) : Prop := forall y, y <> q -> val <$> h' !! y = val <$> h !! y.

(** A list with one version that is visible to everyone, as the loader makes it. *)
Lemma forest_initial ls h C A a p stale x : forest ls h C A -> ls !! a = None -> h !! p = None ->
  exists h' l', AppendInitialVersion h empty_list p stale = (p, <[p := MvccList.Init MIN_TIME MAX_TIME stale]> h, l') /\
    write_val (<[p := MvccList.Init MIN_TIME MAX_TIME stale]> h) p x = Some h' /\
    same_vals h h' p /\ val <$> h' !! p = Some x /\
    forest (<[a := l']> ls) h' (<[a := [p]]> C) (<[a := mk_versions [(MIN_TIME, x)] None]> A).
Proof.
  intros F En Hp. eexists _, _. split; [done|]. rewrite write_insert. split; [done|]. split_and!.
  - intros y Hy. by rewrite lookup_insert_ne.
  - by rewrite lookup_insert_eq.
  - rewrite <- (insert_insert_eq ls a (mk_list (Some p) (Some p) (Some p) None) empty_list), <- (insert_insert_eq C a [p] []),
      <- (insert_insert_eq A a (mk_versions [(MIN_TIME, x)] None) no_versions).
    eapply (forest_update _ _ _ _ a _ []); [by apply forest_new|by rewrite lookup_insert_eq|..].
    + split; try done; [apply NoDup_singleton|by cbn; rewrite lookup_insert_eq|].
      split; cbn; [repeat constructor|apply Forall_singleton; by split|done].
    + intros y ->%list_elem_of_singleton. by right.
    + intros y _ Hy. rewrite lookup_insert_ne; [done|]. intros <-. apply Hy. by left.
Qed.

Lemma forest_delete ls h C A a : forest ls h C A -> forest (delete a ls) h (delete a C) (delete a A).
Proof.
  intros F. split.
  - intros b. destruct (decide (b = a)) as [->|N]; [by rewrite !lookup_delete_eq|].
    rewrite !lookup_delete_ne by done. apply F.
  - intros b c qs rs x. rewrite !lookup_delete_Some. intros [_ E1] [_ E2]. by eapply fo_disj.
Qed.

(** ** The operations on one list *)

Lemma append_vals h l t bt p stale r h' l' q x h'' : h !! p = None -> AppendVersion h l t bt p stale = Some (r, h', l') ->
  ap_item r = Some q -> write_val h' q x = Some h'' ->
  same_vals h h'' q /\ val <$> h'' !! q = Some x /\
  ap_freed r = match h !! q with Some i => if NeedGC (val i) then [val i] else [] | None => [] end.
Proof.
  intros Hp Ha Hq Hw. unfold write_val in Hw. destruct (h' !! q) as [i'|] eqn:Ei'; [|done]. cbn in Hw. injection Hw as <-.
  assert (same_vals h h' q /\ ap_freed r = match h !! q with Some i => if NeedGC (val i) then [val i] else [] | None => [] end)
    as [Hs Hf].
  { unfold AppendVersion in Ha. destruct (MvccList.head_ l) as [hd|] eqn:Eh.
    2:{ injection Ha as <- <- <-. cbn in Hq. injection Hq as <-. rewrite Hp. split; [|done].
        intros y Hy. by rewrite lookup_insert_ne. }
    destruct (MvccList.tail_ l) as [tl|]; [|done]. cbn [mbind option_bind] in Ha.
    destruct (h !! tl) as [i|] eqn:Ei; [|done]. cbn [mbind option_bind] in Ha.
    destruct (MAX_TIME <? begin_time i).
    - destruct (_ =? t); injection Ha as <- <- <-; [|done]. cbn in Hq. injection Hq as <-. cbn. rewrite Ei.
      split; [|done]. intros y Hy. destruct (NeedGC (val i)); [by rewrite lookup_insert_ne|done].
    - injection Ha as <- <- <-. cbn in Hq. injection Hq as <-. rewrite Hp. split; [|done]. intros y Hy.
      destruct (decide (y = tl)) as [->|]; [by rewrite lookup_insert_eq, Ei|]. by rewrite !lookup_insert_ne. }
  split_and!; [|by rewrite lookup_insert_eq|done]. intros y Hy. rewrite lookup_insert_ne by done. by apply Hs.
Qed.

Lemma append_freed h l ps v t bt p stale r h' l' : repr h l ps v -> is_trx t -> h !! p = None ->
  AppendVersion h l t bt p stale = Some (r, h', l') ->
  ap_freed r = match pending v with Some (t0, _, x) => if (t0 =? t) && NeedGC x then [x] else [] | None => [] end.
Proof.
  intros Hr Ht Hfresh E. destruct (pending v) as [[[t0 b0] v0]|] eqn:Hp.
  - destruct (Z.eqb_spec t0 t) as [->|Hne].
    + destruct (append_own h l ps v t bt p stale b0 v0 Hr Hp) as (q & h1 & H1 & _). rewrite E in H1. by injection H1 as -> -> ->.
    + destruct (append_conflict h l ps v t t0 bt p stale b0 v0 Hr Hp Hne) as [H1 _]. rewrite E in H1. by injection H1 as -> -> ->.
  - destruct (committed v) as [|[c v0] cs _] eqn:Hc using rev_ind.
    + destruct (append_empty h l ps v t bt p stale Hr Ht) as [H1 _]; [by apply (repr_empty _ _ _ _ Hr)|].
      rewrite E in H1. by injection H1 as -> -> ->.
    + destruct (append_new h l ps v t bt p stale cs c v0 Hr Ht Hfresh Hp Hc) as (h1 & l1 & H1 & _). rewrite E in H1. by injection H1 as -> -> ->.
Qed.

Lemma append_old h l t bt p stale r h' l' x : AppendVersion h l t bt p stale = Some (r, h', l') -> ap_old r = Some x ->
  ap_freed r = [] /\ exists y i, h !! y = Some i /\ val i = x.
Proof.
  unfold AppendVersion. destruct (MvccList.head_ l); [|by intros [= <- <- <-]].
  destruct (MvccList.tail_ l) as [tl|]; [|done]. cbn [mbind option_bind].
  destruct (h !! tl) as [i|] eqn:Ei; [|done]. cbn [mbind option_bind]. destruct (_ <? _).
  - by destruct (_ =? t); intros [= <- <- <-].
  - intros [= <- <- <-] [= <-]. split; [done|]. by exists tl, i.
Qed.

Lemma commit_vals h l t ct h' l' : CommitVersion h l t ct = Some (h', l') -> forall y, val <$> h' !! y = val <$> h !! y.
Proof.
  unfold CommitVersion, Commit. destruct (MvccList.tail_ l) as [p|]; [|done]. cbn [mbind option_bind].
  destruct (h !! p) as [i|] eqn:Ei; [|done]. cbn [mbind option_bind]. destruct (_ =? t); [|done].
  assert (forall y, val <$> (<[p := mk_item ct MAX_TIME (next i) (val i)]> h) !! y = val <$> h !! y) as H1.
  { intros y. destruct (decide (y = p)) as [->|]; [by rewrite lookup_insert_eq, Ei|by rewrite lookup_insert_ne]. }
  destruct (pre_tail_ l) as [q|]; [|by intros [= <- <-]]. destruct (decide (q = p)); [by intros [= <- <-]|].
  destruct (_ !! q) as [j|] eqn:Ej; [|done]. cbn. intros [= <- <-] y. rewrite <- H1.
  destruct (decide (y = q)) as [->|]; [by rewrite lookup_insert_eq, Ej|by rewrite lookup_insert_ne].
Qed.

Lemma abort_vals h l t p freed h' l' : AbortVersion h l t = Some (p, freed, h', l') ->
  (exists i, h !! p = Some i /\ freed = if NeedGC (val i) then [val i] else []) /\ same_vals h h' p /\ h' !! p = None.
Proof.
  unfold AbortVersion. destruct (MvccList.tail_ l) as [q|]; [|done]. cbn [mbind option_bind].
  destruct (h !! q) as [i|] eqn:Ei; [|done]. cbn [mbind option_bind]. destruct (_ =? t); [|done]. destruct (decide _).
  - intros [= <- <- <- <-]. split; [by exists i|]. split; [|apply lookup_delete_eq]. intros y Hy. by rewrite lookup_delete_ne.
  - destruct (pre_tail_ l) as [r|]; [|done]. cbn [mbind option_bind]. assert (r <> q) by congruence.
    rewrite lookup_delete_ne by done. destruct (h !! r) as [j|] eqn:Ej; [|done]. cbn. intros [= <- <- <- <-].
    split; [by exists i|]. split; [|by rewrite lookup_insert_ne, lookup_delete_eq by done]. intros y Hy.
    destruct (decide (y = r)) as [->|]; [by rewrite lookup_insert_eq, Ej|by rewrite lookup_insert_ne, lookup_delete_ne].
Qed.

Lemma forest_append ls h C A a l v t bt p stale : forest ls h C A -> ls !! a = Some l -> A !! a = Some v ->
  is_trx t -> h !! p = None ->
  exists r h' l', AppendVersion h l t bt p stale = Some (r, h', l') /\
    match ap_item r with
    | None => (forall x, append_abs v t bt x = None) /\ h' = h /\ l' = l
    | Some q => (q = p \/ is_Some (h !! q)) /\ forall x, exists h'' C' v', write_val h' q x = Some h'' /\ append_abs v t bt x = Some v' /\
        forest (<[a := l']> ls) h'' C' (<[a := v']> A)
    end.
Proof.
  intros F El Ev Ht Hp. destruct (forest_list _ _ _ _ _ _ F El) as (ps & v0 & Ec & Ev0 & R). simplify_eq.
  destruct (append_spec h l ps v t bt p stale R Ht Hp) as (r & h' & l' & Ea & Happ & _). exists r, h', l'. split; [done|].
  unfold appended in Happ. destruct (ap_item r) as [q|]; [|done]. destruct Happ as [Hq Happ].
  split; [destruct Hq as [->|Hq]; [by left|right; by eapply forest_item]|]. intros x.
  destruct (Happ x) as (h'' & ps' & v' & Hw & Hv & R' & Hin & Hsub & Hout). exists h'', (<[a := ps']> C), v'. split_and!; [done..|].
  eapply forest_update; [done..| |].
  - intros y [->|Hy]%Hin; [by right|by left].
  - intros y _ Hy. by apply Hout.
Qed.

Lemma forest_commit ls h C A a v t b x ct : forest ls h C A -> A !! a = Some v -> pending v = Some (t, b, x) ->
  is_time ct -> Forall (fun c => c < ct) (committed v).*1 ->
  exists l h' l', ls !! a = Some l /\ CommitVersion h l t ct = Some (h', l') /\
    forest (<[a := l']> ls) h' C (<[a := commit_abs v ct]> A).
Proof.
  intros F Ev Hp Hct Hlt. destruct (forest_abs _ _ _ _ _ _ F Ev) as (ps & l & Ec & El & R).
  destruct (commit_spec h l ps v t b x ct R Hp Hct Hlt) as (h' & l' & Hc & R' & Hout). exists l, h', l'. split_and!; [done..|].
  rewrite <- (insert_id C a ps) by done. eapply forest_update; [done..| |]; [by left|]. intros y Hy _. by apply Hout.
Qed.

Lemma forest_abort ls h C A a v t b x : forest ls h C A -> A !! a = Some v -> pending v = Some (t, b, x) ->
  exists l p C' h' l', ls !! a = Some l /\ AbortVersion h l t = Some (p, if NeedGC x then [x] else [], h', l') /\
    forest (<[a := l']> ls) h' C' (<[a := abort_abs v]> A).
Proof.
  intros F Ev Hp. destruct (forest_abs _ _ _ _ _ _ F Ev) as (ps & l & Ec & El & R).
  destruct (abort_spec h l ps v t b x R Hp) as (p & qs & h' & l' & -> & Ha & R' & Hn & Hout).
  exists l, p, (<[a := qs]> C), h', l'. split_and!; [done..|]. eapply forest_update; [done..| |].
  - intros y Hy. left. set_solver.
  - intros y Hy _. by apply Hout.
Qed.

(** Clearing a list: its items are freed and its values are recycled. *)
Lemma forest_clear ls h C A a l : forest ls h C A -> ls !! a = Some l ->
  exists ps vals h', C !! a = Some ps /\ SelfGarbageCollect h l = Some (ps, vals, h', empty_list) /\
    forest (<[a := empty_list]> ls) h' (<[a := []]> C) (<[a := no_versions]> A) /\
    NoDup ps /\ vals = filter (fun v => NeedGC v = true) (val <$> omap (fun x => h !! x) ps) /\
    (forall x, x ∈ ps -> is_Some (h !! x) /\ h' !! x = None) /\ (forall x, (x ∉ ps) -> h' !! x = h !! x).
Proof.
  intros F El. destruct (forest_list _ _ _ _ _ _ F El) as (ps & v & Ec & Ev & R).
  destruct (free_chain_spec (size h) h ps (items_of v)) as (h' & Hf & Hin & Hout); [apply R|apply R| |].
  { eapply seg_size; [apply R|apply R]. }
  exists ps, (filter (fun v => NeedGC v = true) (items_of v).*2), h'. split; [done|]. unfold SelfGarbageCollect.
  rewrite (r_head _ _ _ _ R), Hf. cbn [mbind option_bind]. split; [done|]. split.
  { eapply forest_update; [done..|apply repr_new| |]; [by intros x ?%not_elem_of_nil|]. intros x Hx _. by apply Hout. }
  split; [apply R|]. split; [|split; [|done]].
  - f_equal. pose proof (r_seg _ _ _ _ R) as Hs. clear -Hs. revert Hs. generalize (items_of v) as its.
    induction ps as [|p ps IH]; intros [|[[b e] w] its] Hs; try done. destruct Hs as [Hp Hs]. cbn. rewrite Hp. cbn. f_equal. by apply IH.
  - intros x Hx. split; [by eapply forest_item|by apply Hin].
Qed.
End Forest.

(** ** The values of the items *)
Local Open Scope nat_scope.

Definition threads (s : ValueStore) : nat := length (blocks (pool s)).

Section Blocks.
Context (BLOCK_SIZE : nat).
Lemma give_back_blocks st tid b n st' : give_back st tid b n = Some st' -> length (blocks st') = length (blocks st).
Proof.
  unfold give_back. destruct (walk _ _ _) as [x|]; [|done]. cbn [mbind option_bind]. destruct (_ !! x); [|done].
  intros [= <-]. apply length_insert.
Qed.
Lemma FreeValue_threads s h tid s' : FreeValue BLOCK_SIZE s h tid = Some s' -> threads s' = threads s.
Proof.
  unfold FreeValue, free_cells, threads. destruct (blocks (pool s) !! tid) as [b|]; [|done]. cbn [mbind option_bind].
  cbv zeta. destruct (_ && _).
  - destruct (walk _ _ _); [|done]. intros [= <-]. cbn. apply length_insert.
  - destruct (walk _ _ _); [|done]. cbn [mbind option_bind]. destruct (_ <=? _).
    + destruct (give_back _ _ _ _) as [p|] eqn:E; [|done]. intros [= <-]. apply give_back_blocks in E. cbn in *.
      rewrite E. by rewrite !length_insert.
    + intros [= <-]. cbn. by rewrite !length_insert.
Qed.
Lemma fetch_blocks st tid b st' : fetch BLOCK_SIZE st tid b = Some st' -> length (blocks st') = length (blocks st).
Proof.
  unfold fetch. cbv zeta. destruct (fetch_loop _ _ _ _ _) as [[hd tl]|]; [|done]. intros [= <-]. apply length_insert.
Qed.
Lemma InsertValue_threads s v tid h s' : InsertValue BLOCK_SIZE s v tid = Some (h, s') -> threads s' = threads s.
Proof.
  unfold InsertValue, threads. cbv zeta. intros E. destruct (get_cells _ _ _ _) as [[x p]|] eqn:Eg; [|done].
  cbn [mbind option_bind] in E. destruct (insert_loop _ _ _ _ _ _ _ _); [|done]. injection E as <- <-. cbn.
  unfold get_cells in Eg. destruct (blocks (pool s) !! tid) as [b|]; [|done]. cbn [mbind option_bind] in Eg. cbv zeta in Eg.
  destruct (_ && _).
  - destruct (skip_loop _ _ _ _); [|done]. injection Eg as <- <-. apply length_insert.
  - destruct (if _ <? _ then _ else _) as [st1|] eqn:Es; [|done]. cbn [mbind option_bind] in Eg.
    destruct (blocks st1 !! tid); [|done]. cbn [mbind option_bind] in Eg. destruct (walk _ _ _); [|done]. injection Eg as <- <-.
    cbn. rewrite length_insert. destruct (_ <? _); [apply fetch_blocks in Es|injection Es as <-]; cbn in *; by rewrite ?Es, length_insert.
Qed.
End Blocks.

Lemma pool_ok_perm st ls shared used used' : pool_ok st ls shared used -> used ≡ₚ used' -> pool_ok st ls shared used'.
Proof. intros [] E. split; try done. by rewrite <- E. Qed.

Lemma store_inv_perm s l l' : l ≡ₚ l' -> store_inv (s, l) -> store_inv (s, l').
Proof.
  intros E (ls & shared & chains & [H1 H2 H3 H4]). cbn in *.
  destruct (Permutation_Forall2 E H4) as (chains' & Ec & H4'). exists ls, shared, chains'. split; cbn; try done.
  eapply pool_ok_perm; [done|]. by rewrite Ec.
Qed.

Definition full_header (x : option ValueHeader) : option ValueHeader :=
  hd ← x; if header_empty hd then None else Some hd.

(** Exactly the items that are not deletions own a value. *)
Definition owns (h : gmap nat (Item ValueHeader)) (W : gmap nat (ValueHeader * value_t)) : Prop :=
  forall p, fst <$> W !! p = full_header (val <$> h !! p).

Lemma owns_same h h' W : (forall y, val <$> h' !! y = val <$> h !! y) -> owns h W -> owns h' W.
Proof. intros E O p. by rewrite E. Qed.

Section Values.
Context (BLOCK_SIZE : nat) (HB : 1 < BLOCK_SIZE).
Implicit Types (W : gmap nat (ValueHeader * value_t)) (h : gmap nat (Item ValueHeader)).

(** The lists of a memory represent [A], and its items own what is stored. *)
Record mem_ok (m : Memory) (A : gmap nat (versions ValueHeader)) : Prop := {
  mo_forest : exists C, forest (lists m) (items m) C A;
  mo_values : exists W, store_inv (values m, (map_to_list W).*2) /\ owns (items m) W;
}.

Lemma free_owned s W p hd v tid : store_inv (s, (map_to_list W).*2) -> W !! p = Some (hd, v) -> tid < threads s ->
  exists s', FreeValue BLOCK_SIZE s hd tid = Some s' /\ store_inv (s', (map_to_list (delete p W)).*2) /\ threads s' = threads s.
Proof using HB.
  intros S E Ht. eapply store_inv_perm in S; [|by rewrite <- (map_to_list_delete W p _ E)].
  destruct (free_ok BLOCK_SIZE s [] hd v (map_to_list (delete p W)).*2 tid HB Ht S) as (s' & Hf & S').
  exists s'. split_and!; [done..|by eapply FreeValue_threads].
Qed.

(** Recycling the value of one item. *)
Lemma free_item s W (h : gmap nat (Item ValueHeader)) p i tid : store_inv (s, (map_to_list W).*2) -> owns h W -> h !! p = Some i ->
  tid < threads s ->
  exists s', free_values BLOCK_SIZE s (if NeedGC (val i) then [val i] else []) tid = Some s' /\
    store_inv (s', (map_to_list (delete p W)).*2) /\ threads s' = threads s.
Proof using HB.
  intros S O Hp Ht. pose proof (O p) as Ow. rewrite Hp in Ow. cbn in Ow. cbn [NeedGC PropertyMVCCItem].
  destruct (header_empty (val i)) eqn:E; cbn [negb].
  - exists s. split_and!; [done| |done]. rewrite delete_id; [done|]. by destruct (W !! p).
  - destruct (W !! p) as [[hd v]|] eqn:Ew; [|done]. cbn in Ow. injection Ow as ->.
    destruct (free_owned s W p (val i) v tid S Ew Ht) as (s' & Hf & S' & Ht'). exists s'. cbn. rewrite Hf. by cbn.
Qed.

(** An item gets the header of a value that was just stored. *)
Lemma own_item s W h h' p v tid hd s' : store_inv (s, (map_to_list (delete p W)).*2) -> owns h W ->
  storable v -> tid < threads s -> InsertValue BLOCK_SIZE s v tid = Some (hd, s') ->
  same_vals h h' p -> val <$> h' !! p = Some hd ->
  let W' := <[p := (hd, v)]> (delete p W) in
  store_inv (s', (map_to_list W').*2) /\ owns h' W' /\ threads s' = threads s.
Proof using HB.
  intros S O Hv Ht Hi Hs Hp W'. subst W'. split_and!.
  - eapply store_inv_perm; [by rewrite map_to_list_insert by apply lookup_delete_eq|]. cbn. by eapply insert_ok.
  - intros q. destruct (decide (q = p)) as [->|N].
    2:{ rewrite lookup_insert_ne, lookup_delete_ne by done. rewrite Hs by done. apply O. }
    rewrite lookup_insert_eq, Hp. cbn. destruct (InsertValue_tid BLOCK_SIZE s v tid hd s' Hi) as [_ Hb].
    unfold header_empty. rewrite Hb. unfold storable in Hv. rewrite wrap_small by (unfold fits; lia).
    destruct (Z.eqb_spec (Z.of_nat (length (v_content v)) + 1) 0); [lia|done].
  - by eapply InsertValue_threads.
Qed.
Lemma owns_delete h h' W p : owns h W -> same_vals h h' p -> full_header (val <$> h' !! p) = None -> owns h' (delete p W).
Proof.
  intros O Hs Hp q. destruct (decide (q = p)) as [->|N]; [by rewrite lookup_delete_eq, Hp|].
  rewrite lookup_delete_ne, Hs by done. apply O.
Qed.

Definition mem_update m (a : nat) l h s : Memory := mk_memory (<[a := l]> (lists m)) h s.

Lemma mem_new m A a : mem_ok m A -> lists m !! a = None ->
  mem_ok (mk_memory (<[a := empty_list]> (lists m)) (items m) (values m)) (<[a := no_versions]> A).
Proof. intros [[C F] M] E. split; [exists (<[a := []]> C); by apply forest_new|done]. Qed.

Lemma mem_commit m A a v t b x ct : mem_ok m A -> A !! a = Some v -> pending v = Some (t, b, x) ->
  is_time ct -> Forall (fun c => c < ct)%Z (committed v).*1 ->
  exists l h' l', lists m !! a = Some l /\ CommitVersion (items m) l t ct = Some (h', l') /\
    mem_ok (mem_update m a l' h' (values m)) (<[a := commit_abs v ct]> A).
Proof.
  intros [[C F] (W & S & O)] Ev Hp Hct Hlt.
  destruct (forest_commit _ _ _ _ _ _ _ _ _ _ F Ev Hp Hct Hlt) as (l & h' & l' & El & Hc & F').
  exists l, h', l'. split_and!; [done..|]. split; [by exists C|]. exists W. split; [done|].
  eapply owns_same; [by eapply commit_vals|done].
Qed.

Lemma mem_abort m A a v t b x tid : mem_ok m A -> A !! a = Some v -> pending v = Some (t, b, x) -> tid < threads (values m) ->
  exists l p freed h' l' s', lists m !! a = Some l /\ AbortVersion (items m) l t = Some (p, freed, h', l') /\
    free_values BLOCK_SIZE (values m) freed tid = Some s' /\ threads s' = threads (values m) /\
    mem_ok (mem_update m a l' h' s') (<[a := abort_abs v]> A).
Proof using HB.
  intros [[C F] (W & S & O)] Ev Hp Ht.
  destruct (forest_abort _ _ _ _ _ _ _ _ _ F Ev Hp) as (l & p & C' & h' & l' & El & Ha & F').
  destruct (abort_vals _ _ _ _ _ _ _ Ha) as ((i & Hi & Ef) & Hs & Hn).
  destruct (free_item (values m) W (items m) p i tid S O Hi Ht) as (s' & Hf & S' & Ht').
  exists l, p, (if NeedGC x then [x] else []), h', l', s'. split_and!; try done.
  - by rewrite Ef.
  - split; [by exists C'|]. exists (delete p W). split; [done|]. eapply owns_delete; [done..|]. cbn. by rewrite Hn.
Qed.

(** ** Appending to a list of a property *)

(** What appending leaves to be done: the caller writes a header at [q]. *)
Lemma mem_append m A a v t bt p tid old : mem_ok m A -> A !! a = Some v -> is_trx t -> items m !! p = None ->
  tid < threads (values m) ->
  exists w old' m', append_to BLOCK_SIZE m a t bt p tid old = Some (w, old', m') /\ threads (values m') = threads (values m) /\
    match w with
    | None => (forall x, append_abs v t bt x = None) /\ m' = m
    | Some q => (exists i, items m' !! q = Some i) /\ forall x, exists v' h', append_abs v t bt x = Some v' /\ write_val (items m') q x = Some h' /\
        (header_empty x = true -> mem_ok (mk_memory (lists m') h' (values m')) (<[a := v']> A)) /\
        (forall value s', storable value -> InsertValue BLOCK_SIZE (values m') value tid = Some (x, s') ->
           mem_ok (mk_memory (lists m') h' s') (<[a := v']> A) /\ threads s' = threads (values m))
    end.
Proof using HB.
  intros [[C F] (W & S & O)] Ev Htrx Hp Ht.
  destruct (forest_abs _ _ _ _ _ _ F Ev) as (ps & l & Ec & El & R). unfold append_to. rewrite El. cbn [mbind option_bind].
  destruct (forest_append _ _ _ _ _ _ _ t bt p (mk_header 0 0) F El Ev Htrx Hp) as (r & h1 & l1 & Ea & Hr).
  rewrite Ea. cbn [mbind option_bind]. pose proof (fun x => append_old _ _ _ _ _ _ _ _ _ x Ea) as Hold.
  assert (forall s, (ap_old r = None \/ s = values m) ->
    is_Some (if ap_absent r then Some old else ReadValue s (default (mk_header 0 0) (ap_old r)) old)) as Hread.
  { intros s Hs. destruct (ap_absent r); [by eexists|]. destruct (ap_old r) as [hd|] eqn:Eo; [|by eexists].
    destruct Hs as [? | ->]; [done|]. destruct (Hold hd eq_refl) as (_ & y & i & Hy & Ei). cbn.
    destruct (header_empty hd) eqn:Ee; [unfold ReadValue; rewrite Ee; by eexists|].
    pose proof (O y) as Oy. rewrite Hy in Oy. cbn in Oy. rewrite Ei, Ee in Oy. destruct (W !! y) as [[hd' w]|] eqn:Ew; [|done].
    injection Oy as ->. eexists. eapply read_ok; [exact S|]. apply list_elem_of_fmap. exists (y, (hd, w)).
    split; [done|]. by apply elem_of_map_to_list. }
  destruct (ap_item r) as [q|] eqn:Eq.
  2:{ destruct Hr as (Hc & -> & ->). assert (ap_freed r = [] /\ ap_old r = None) as [Ef Eo].
      { clear -Ea Eq. unfold AppendVersion in Ea. destruct (MvccList.head_ l); [|by simplify_eq/=].
        destruct (MvccList.tail_ l); [|done]. cbn [mbind option_bind] in Ea. destruct (_ !! _); [|done].
        cbn [mbind option_bind] in Ea. destruct (_ <? _)%Z; [|by simplify_eq/=]. by destruct (_ =? _)%Z; simplify_eq/=. }
      rewrite Ef. cbn [free_values mbind option_bind]. destruct (Hread (values m) (or_introl Eo)) as [o ->]. cbn.
      eexists _, _, _. split_and!; [done..|]. rewrite insert_id by done. by destruct m. }
  destruct Hr as [Hq Hr]. destruct (Hr (mk_header 0 0)) as (h0 & _ & _ & Hw0 & _).
  destruct (append_vals _ _ _ _ _ _ _ _ _ _ _ _ Hp Ea Eq Hw0) as (_ & _ & Ef).
  assert (exists s1, free_values BLOCK_SIZE (values m) (ap_freed r) tid = Some s1 /\
    store_inv (s1, (map_to_list (delete q W)).*2) /\ threads s1 = threads (values m)) as (s1 & Hf & S1 & Ht1).
  { rewrite Ef. destruct (items m !! q) as [i|] eqn:Ei; [by eapply free_item|]. exists (values m). split_and!; [done| |done].
    rewrite delete_id; [done|]. pose proof (O q) as Oq. rewrite Ei in Oq. by destruct (W !! q). }
  rewrite Hf. cbn [mbind option_bind]. destruct (Hread s1) as [o ->].
  { destruct (ap_old r) as [hd|]; [|by left]. right. destruct (Hold hd eq_refl) as [E _]. rewrite E in Hf. by injection Hf as <-. }
  cbn [mbind option_bind]. eexists _, _, _. split; [done|]. split; [done|]. cbn [items values lists]. split.
  { unfold write_val in Hw0. destruct (h1 !! q); [by eexists|done]. }
  intros x. destruct (Hr x) as (h' & C' & v' & Hw & Hv & F'). exists v', h'. split_and!; [done..| |].
  - intros Hx. split; [by exists C'|]. exists (delete q W). split; [done|].
    destruct (append_vals _ _ _ _ _ _ _ _ _ _ _ _ Hp Ea Eq Hw) as (Hs & Hqx & _).
    eapply owns_delete; [done..|]. cbn. rewrite Hqx. cbn. by rewrite Hx.
  - intros value s' Hst Hi. destruct (append_vals _ _ _ _ _ _ _ _ _ _ _ _ Hp Ea Eq Hw) as (Hs & Hqx & _).
    destruct (own_item s1 W (items m) h' q value tid x s' S1 O Hst ltac:(lia) Hi Hs Hqx) as (S' & O' & Ht').
    split; [|lia]. split; [by exists C'|]. by eexists.
Qed.

(** ** A property that is loaded *)
Lemma mem_initial m A a q tid value hd st : mem_ok m A -> lists m !! a = None -> items m !! q = None -> tid < threads (values m) ->
  storable value -> InsertValue BLOCK_SIZE (values m) value tid = Some (hd, st) ->
  exists h' l', AppendInitialVersion (items m) empty_list q (mk_header 0 0) = (q, <[q := MvccList.Init MIN_TIME MAX_TIME (mk_header 0 0)]> (items m), l') /\
    write_val (<[q := MvccList.Init MIN_TIME MAX_TIME (mk_header 0 0)]> (items m)) q hd = Some h' /\
    mem_ok (mk_memory (<[a := l']> (lists m)) h' st) (<[a := mk_versions [(MIN_TIME, hd)] None]> A) /\ threads st = threads (values m).
Proof using HB.
  intros [[C F] (W & S & O)] Ha Hq Ht Hv Hi.
  destruct (forest_initial _ _ _ _ a q (mk_header 0 0) hd F Ha Hq) as (h' & l' & E1 & E2 & Hs & Hx & F').
  exists h', l'. split_and!; [done..| |by eapply InsertValue_threads]. split; [by eexists|].
  assert (delete q W = W) as Hd by (apply delete_id; pose proof (O q) as Oq; rewrite Hq in Oq; by destruct (W !! q)).
  destruct (own_item (values m) W (items m) h' q value tid hd st) as (S' & O' & _); try done; [by rewrite Hd|]. by eexists.
Qed.
End Values.
