(* ===== verification/RowMemory.v ===== *)
(** * Rows over a memory of versions

    What modifying, dropping and collecting the properties in rows does to the
    lists of versions behind the cells, in terms of the versions that the lists
    represent; likewise for the rows of edges. *)
From S2P Require Import Prelude Types TrxStatus Coordinator TrxStub MvccList CellPool ValueStore Serialization.
From S2P Require Import RowChain PropertyRows Topology Forest.
Local Open Scope nat_scope.

Lemma foldr_delete_comm {V} (m : gmap nat V) p ps : delete p (foldr delete m ps) = foldr delete (delete p m) ps.
Proof. induction ps as [|q ps IH]; [done|]. cbn. by rewrite delete_delete, IH. Qed.
Lemma foldr_delete_lookup {V} (m : gmap nat V) ps p :
  foldr delete m ps !! p = if decide (p ∈ ps) then None else m !! p.
Proof.
  induction ps as [|q ps IH]; [by rewrite decide_False by apply not_elem_of_nil|]. cbn.
  destruct (decide (p = q)) as [->|N]; [rewrite lookup_delete_eq, decide_True by left; done|].
  rewrite lookup_delete_ne, IH by done. apply decide_ext. set_solver.
Qed.

(** The lists of the cells. *)
Definition row_lists (rl : RowList) : list nat := omap c_list (cells rl).

Section Properties.
Context (R : nat) (HR : 0 < R) (BLOCK_SIZE : nat) (HB : 1 < BLOCK_SIZE) (owner : Z).
Implicit Types (rl : RowList) (A : gmap nat (versions ValueHeader)) (W : gmap nat (ValueHeader * value_t)).

(** Rows as they are between operations: every cell has its list. *)
Record rows_good rl : Prop := {
  rg_ok : rows_ok R owner rl; rg_map : map_needed R rl; rg_live : Forall live (cells rl);
}.

Lemma rows_good_init : rows_good rows_init.
Proof using HR. destruct (rows_init_inv R HR owner) as (H1 & H2 & _). split; [done..|constructor]. Qed.

Lemma row_lists_in rl j c l : cells rl !! j = Some c -> c_list c = Some l -> l ∈ row_lists rl.
Proof. intros Hc El. apply list_elem_of_omap. exists c. split; [by eapply list_elem_of_lookup_2|done]. Qed.

Lemma modify_rows rl m A pid value old t bt a0 q tid new_row flag w old' rl' m' :
  rows_good rl -> (forall a, a ∈ row_lists rl -> is_Some (A !! a)) -> mem_ok m A -> is_trx t ->
  items m !! q = None -> tid < threads (values m) -> lists m !! a0 = None -> length new_row = R -> pid.1 = owner ->
  storable value ->
  ProcessModifyProperty R BLOCK_SIZE rl m pid value old t bt a0 q tid new_row = Some (flag, w, old', rl', m') ->
  threads (values m') = threads (values m) /\ rows_good rl' /\
  match w with
  | None => m' = m /\ rl' = rl
  | Some a => exists x v v', append_abs v t bt x = Some v' /\ mem_ok m' (<[a := v']> A) /\
      ((rl' = rl /\ a ∈ row_lists rl /\ A !! a = Some v) \/ (a = a0 /\ v = no_versions /\ row_lists rl' = row_lists rl ++ [a0]))
  end.
Proof using HR HB.
  intros [Hok Hmap Hlive] Hdom M Ht Hq Htid Ha0 Hn Ho Hst E. unfold ProcessModifyProperty in E.
  destruct (LocateCell_spec R HR owner rl pid Hok Ho) as (r & Hr & Hcell). rewrite Hr in E. cbn [mbind option_bind] in E.
  destruct r as [p|].
  - destruct Hcell as (j & c & -> & Hc & Ec). assert (j < property_count rl) as Hj by (by apply cells_lookup in Hc as []).
    rewrite (cell_at_cells R HR owner), Hc in E by done. cbn [mbind option_bind] in E.
    destruct (proj1 (Forall_lookup _ _) Hlive _ _ Hc) as [l El]. rewrite El in E.
    pose proof (row_lists_in _ _ _ _ Hc El) as Hin. destruct (Hdom l Hin) as [v Ev].
    destruct (mem_append BLOCK_SIZE HB m A l v t bt q tid old M Ev Ht Hq Htid) as (w1 & o1 & m1 & Ea & Ht1 & Hw1).
    rewrite Ea in E. cbn [mbind option_bind] in E. destruct w1 as [i|].
    + destruct (InsertValue BLOCK_SIZE (values m1) value tid) as [[hd s]|] eqn:Ei; [|done]. cbn [mbind option_bind] in E.
      destruct Hw1 as [_ Hw1]. destruct (Hw1 hd) as (v' & h' & Hv & Hw & _ & Hm). rewrite Hw in E. cbn in E.
      injection E as <- <- <- <- <-. destruct (Hm value s Hst Ei) as [Hm' Ht']. split; [done|]. split; [done|].
      exists hd, v, v'. split_and!; [done..|by left].
    + injection E as <- <- <- <- <-. destruct Hw1 as [_ ->]. by split_and!.
  - destruct (AllocateCell_spec R HR owner rl pid (property_count rl) new_row Hok Hmap Ho Hn ltac:(lia))
      as (r & rl1 & E1 & Hok1 & Hmap1 & Hr1); [intros j c _; apply Hcell|].
    rewrite E1 in E. cbn [mbind option_bind] in E. destruct r as [p|].
    2:{ destruct Hr1 as (_ & j & c & Hc & Ec). by apply Hcell in Hc. }
    destruct Hr1 as [-> Hc1]. pose proof (mem_new _ _ a0 M Ha0) as M1.
    destruct (mem_append BLOCK_SIZE HB _ _ a0 no_versions t bt q tid old M1 (lookup_insert_eq _ _ _) Ht Hq Htid)
      as (w1 & o1 & m1 & Ea & Ht1 & Hw1). rewrite Ea in E. cbn [mbind option_bind] in E. destruct w1 as [i|].
    2:{ destruct Hw1 as [Hw1 _]. by specialize (Hw1 (mk_header 0 0)). }
    destruct (InsertValue BLOCK_SIZE (values m1) value tid) as [[hd s]|] eqn:Ei; [|done]. cbn [mbind option_bind] in E.
    destruct Hw1 as [_ Hw1]. destruct (Hw1 hd) as (v' & h' & Hv & Hw & _ & Hm). rewrite Hw in E. cbn [mbind option_bind] in E.
    assert (cells rl1 !! property_count rl = Some (mk_cell pid None)) as Hnew.
    { rewrite Hc1, lookup_app_r, (cells_len R HR owner), Nat.sub_diag by (done || (rewrite (cells_len R HR owner) by done; lia)). done. }
    destruct (assign_list_spec R HR owner rl1 _ _ a0 Hok1 Hnew) as (rl2 & E2 & Hok2 & Em2 & En2 & Hc2).
    rewrite E2 in E. cbn in E. injection E as <- <- <- <- <-.
    assert (cells rl2 = cells rl ++ [mk_cell pid (Some a0)]) as Hcells.
    { rewrite Hc2, Hc1. rewrite <- (cells_len R HR owner rl Hok) at 1. rewrite <- (Nat.add_0_r (length (cells rl))), insert_app_r. done. }
    destruct (Hm value s Hst Ei) as [Hm' Ht']. cbn [values] in Ht'. split; [done|]. split.
    { split; [done|unfold map_needed in *; by rewrite Em2, En2|]. rewrite Hcells. apply Forall_app. split; [done|]. repeat constructor. by eexists. }
    exists hd, no_versions, v'. split_and!; [done|by rewrite insert_insert_eq in Hm'|]. right. split_and!; [done..|].
    unfold row_lists. rewrite Hcells, omap_app. done.
Qed.

Lemma drop_rows rl m A pid t bt q tid old w old' m' :
  rows_good rl -> (forall a, a ∈ row_lists rl -> is_Some (A !! a)) -> mem_ok m A -> is_trx t ->
  items m !! q = None -> tid < threads (values m) -> pid.1 = owner ->
  ProcessDropProperty R BLOCK_SIZE rl m pid t bt q tid old = Some (w, old', m') ->
  threads (values m') = threads (values m) /\
  match w with
  | None => m' = m
  | Some a => exists x v v', append_abs v t bt x = Some v' /\ mem_ok m' (<[a := v']> A) /\ a ∈ row_lists rl /\ A !! a = Some v
  end.
Proof using HR HB.
  intros [Hok Hmap Hlive] Hdom M Ht Hq Htid Ho E. unfold ProcessDropProperty in E.
  destruct (LocateCell_spec R HR owner rl pid Hok Ho) as (r & Hr & Hcell). rewrite Hr in E. cbn [mbind option_bind] in E.
  destruct r as [p|]; [|done]. cbn [mbind option_bind] in E. destruct Hcell as (j & c & -> & Hc & Ec).
  assert (j < property_count rl) as Hj by (by apply cells_lookup in Hc as []).
  rewrite (cell_at_cells R HR owner), Hc in E by done. cbn [mbind option_bind] in E.
  destruct (proj1 (Forall_lookup _ _) Hlive _ _ Hc) as [l El]. rewrite El in E. cbn [mbind option_bind] in E.
  pose proof (row_lists_in _ _ _ _ Hc El) as Hin. destruct (Hdom l Hin) as [v Ev].
  destruct (mem_append BLOCK_SIZE HB m A l v t bt q tid old M Ev Ht Hq Htid) as (w1 & o1 & m1 & Ea & Ht1 & Hw1).
  rewrite Ea in E. cbn [mbind option_bind] in E. destruct w1 as [i|].
  - destruct Hw1 as [[it Hit] Hw1]. rewrite Hit in E. cbn [mbind option_bind] in E.
    destruct (Hw1 (mk_header (head_offset (val it)) 0)) as (v' & h' & Hv & Hw & Hm & _). rewrite Hw in E. cbn in E.
    injection E as <- <- <-. split; [done|]. exists (mk_header (head_offset (val it)) 0), v, v'. split_and!; try done. by apply Hm.
  - injection E as <- <- <-. by destruct Hw1 as [_ ->].
Qed.

(** ** Collecting rows *)

Lemma free_values_app s l1 l2 tid : free_values BLOCK_SIZE s (l1 ++ l2) tid =
  s' ← free_values BLOCK_SIZE s l1 tid; free_values BLOCK_SIZE s' l2 tid.
Proof. revert s. induction l1 as [|x l1 IH]; intros s; cbn; [done|]. destruct (FreeValue _ _ _ _); cbn; [apply IH|done]. Qed.

(** The values of freed items go back to the store. *)
Lemma free_items (ps : list nat) s W (h : gmap nat (Item ValueHeader)) tid : NoDup ps ->
  store_inv (s, (map_to_list W).*2) -> (forall p, p ∈ ps -> fst <$> W !! p = full_header (val <$> h !! p)) ->
  (forall p, p ∈ ps -> is_Some (h !! p)) -> tid < threads s ->
  exists s', free_values BLOCK_SIZE s (filter (fun v => NeedGC v = true) (val <$> omap (fun x => h !! x) ps)) tid = Some s' /\
    store_inv (s', (map_to_list (foldr delete W ps)).*2) /\ threads s' = threads s.
Proof using HR HB.
  revert s W. induction ps as [|p ps IH]; intros s W ND S O Hin Ht; [by exists s|].
  apply NoDup_cons in ND as [Np ND]. destruct (Hin p) as [i Hi]; [left|]. cbn [omap list_omap]. rewrite Hi.
  assert (exists s1, free_values BLOCK_SIZE s (if NeedGC (val i) then [val i] else []) tid = Some s1 /\
    store_inv (s1, (map_to_list (delete p W)).*2) /\ threads s1 = threads s) as (s1 & Hf & S1 & Ht1).
  { assert (fst <$> W !! p = full_header (Some (val i))) as Op by (rewrite O by left; by rewrite Hi).
    cbn in Op. cbn [NeedGC PropertyMVCCItem]. destruct (header_empty (val i)); cbn [negb].
    - exists s. split_and!; [done| |done]. rewrite delete_id; [done|]. by destruct (W !! p).
    - destruct (W !! p) as [[hd w]|] eqn:Ew; [|done]. injection Op as ->.
      destruct (free_owned BLOCK_SIZE HB s W p (val i) w tid S Ew Ht) as (s1 & Hf & S1 & Ht1). exists s1. cbn. rewrite Hf. by cbn. }
  destruct (IH s1 (delete p W) ND S1) as (s' & Hf' & S' & Ht'); [| |lia|].
  { intros x Hx. rewrite lookup_delete_ne by (by intros ->). apply O. by right. }
  { intros x Hx. apply Hin. by right. }
  exists s'. split_and!; [|..|lia].
  - cbn [fmap list_fmap]. cbn [NeedGC PropertyMVCCItem] in *. destruct (negb (header_empty (val i))) eqn:En.
    + rewrite filter_cons_True by done. change (?x :: ?l) with ([x] ++ l). rewrite free_values_app, Hf. done.
    + rewrite filter_cons_False by (by rewrite En). cbn in Hf. injection Hf as <-. done.
  - cbn [foldr]. by rewrite foldr_delete_comm.
Qed.

(** One list is cleared and deleted. *)
Lemma mem_clear m A a l tid : mem_ok m A -> lists m !! a = Some l -> tid < threads (values m) ->
  exists cells vals h l' s', SelfGarbageCollect (items m) l = Some (cells, vals, h, l') /\
    free_values BLOCK_SIZE (values m) vals tid = Some s' /\ threads s' = threads (values m) /\
    mem_ok (mk_memory (delete a (lists m)) h s') (delete a A).
Proof using HR HB.
  intros [[C F] (W & S & O)] El Ht.
  destruct (forest_clear _ _ _ _ _ _ F El) as (ps & vals & h' & Ec & Hgc & F' & ND & -> & Hin & Hout).
  destruct (free_items ps (values m) W (items m) tid ND S) as (s' & Hf & S' & Ht'); [intros p _; apply O|intros p Hp; by apply Hin|done|].
  eexists _, _, _, _, s'. split_and!; [done..|]. split; cbn.
  - exists (delete a C). eapply (forest_delete _ _ _ _ a) in F'. by rewrite !delete_insert_eq in F'.
  - exists (foldr delete W ps). split; [done|]. intros p. rewrite foldr_delete_lookup. case_decide as Hp.
    + destruct (Hin _ Hp) as [_ ->]. done.
    + rewrite Hout by done. apply O.
Qed.

Lemma gc_rows_spec rl k i m A tid : rows_good rl -> mem_ok m A -> i + k = property_count rl ->
  (forall a, a ∈ omap c_list (drop i (cells rl)) -> is_Some (A !! a)) -> NoDup (omap c_list (drop i (cells rl))) ->
  tid < threads (values m) ->
  exists m', gc_rows_loop R BLOCK_SIZE (rows rl) k i (prev_row R i) tid m = Some m' /\ threads (values m') = threads (values m) /\
    mem_ok m' (foldr delete A (omap c_list (drop i (cells rl)))).
Proof using HR HB.
  intros [Hok Hmap Hlive]. revert i m A. induction k as [|k IH]; intros i m A M Hk Hdom ND Ht; cbn [gc_rows_loop].
  { rewrite drop_ge by (rewrite (cells_len R HR owner) by done; lia). by exists m. }
  cbv zeta. rewrite (ptr_row_of R HR), (cell_at_cells R HR owner) by (done || lia).
  destruct (lookup_lt_is_Some_2 (cells rl) i) as [c Hc]; [rewrite (cells_len R HR owner) by done; lia|].
  rewrite Hc. cbn [mbind option_bind]. destruct (proj1 (Forall_lookup _ _) Hlive _ _ Hc) as [a Ea]. rewrite Ea. cbn [mbind option_bind].
  rewrite (drop_S _ c i Hc) in Hdom, ND |- *. cbn [omap list_omap] in Hdom, ND |- *. rewrite Ea in Hdom, ND |- *.
  apply NoDup_cons in ND as [Na ND]. destruct (Hdom a) as [v Ev]; [left|].
  destruct M as [[C F] MV]. destruct (forest_abs _ _ _ _ _ _ F Ev) as (ps & l & _ & El & _). rewrite El. cbn [mbind option_bind].
  destruct (mem_clear m A a l tid) as (cl & vals & h & l' & s' & Hgc & Hf & Ht' & M'); [by split; [exists C|]|done..|].
  rewrite Hgc. cbn [mbind option_bind]. rewrite Hf. cbn [mbind option_bind].
  change ((ptr R i).1) with (i / R). rewrite <- (prev_row_S R).
  destruct (IH (S i) _ _ M' ltac:(lia)) as (m' & Hm & Htm & Mm); [|done|cbn; lia|].
  { intros b Hb. rewrite lookup_delete_ne; [apply Hdom; by right|]. intros ->. done. }
  exists m'. split_and!; [done|cbn in *; lia|]. cbn [foldr]. by rewrite foldr_delete_comm.
Qed.

Lemma gc_rows rl m A tid : rows_good rl -> mem_ok m A -> (forall a, a ∈ row_lists rl -> is_Some (A !! a)) -> NoDup (row_lists rl) ->
  tid < threads (values m) ->
  exists n rl' m', rows_self_gc R BLOCK_SIZE rl m tid = Some (n, rl', m') /\ threads (values m') = threads (values m) /\
    mem_ok m' (foldr delete A (row_lists rl)).
Proof using HR HB.
  intros G M Hdom ND Ht. unfold rows_self_gc. destruct (rows rl) as [|r0 rs] eqn:Er.
  - exists 0, rl, m. split_and!; [done..|]. unfold row_lists, cells. rewrite Er. cbn [concat]. by rewrite take_nil.
  - rewrite <- Er. clear r0 rs Er.
    destruct (gc_rows_spec rl (property_count rl) 0 m A tid G M eq_refl) as (m' & Hm & Ht' & M'); [by rewrite drop_0..|done|].
    change (prev_row R 0) with 0 in Hm. rewrite Hm.
    cbn [mbind option_bind]. eexists _, _, _. split; [done|]. split; [done|]. by rewrite drop_0 in M'.
Qed.
End Properties.

(** ** Collecting the edges of a vertex whose lists are empty *)
Section Edges.
Context (R : nat) (HR : 0 < R).
Implicit Types (A : gmap nat (versions EdgeVersion)) (m : EdgeMemory).

Lemma repr_no_versions {V} (h : gmap nat (Item V)) l ps : repr h l ps no_versions -> ps = [] /\ MvccList.head_ l = None.
Proof.
  intros Hr. assert (ps = []) as -> by (by apply (repr_empty _ _ _ _ Hr)). split; [done|]. by rewrite (r_head _ _ _ _ Hr).
Qed.

(** Replacing an empty list by a fresh one. *)
Lemma forest_reset {V} `{!MVCCItem V} ls (h : gmap nat (Item V)) C (B : gmap nat (versions V)) a :
  forest ls h C B -> B !! a = Some no_versions -> exists C', forest (<[a := empty_list]> ls) h C' B.
Proof.
  intros F E. destruct (forest_abs _ _ _ _ _ _ F E) as (ps & l & Ec & _ & _). exists (<[a := []]> C).
  rewrite <- (insert_id B a no_versions) by done.
  eapply forest_update; [exact F|exact Ec|apply repr_new|by intros x ?%not_elem_of_nil|done].
Qed.

Lemma topo_gc_loop_empty vid rs k i m A es : shaped R rs -> i + k <= length (concat rs) ->
  (exists C, forest (e_lists m) (e_items m) C A) ->
  Forall (fun c => A !! e_list c = Some no_versions) (drop i (take (i + k) (concat rs))) ->
  exists m', topo_gc_loop R vid rs k i (prev_row R i) m es [] =
      Some (es ++ ((fun c => (cell_eid vid c, is_out c)) <$> drop i (take (i + k) (concat rs))), [], m') /\
    (exists C, forest (e_lists m') (e_items m') C A).
Proof using HR.
  intros Hs. revert i m es. induction k as [|k IH]; intros i m es Hk F HA; cbn [topo_gc_loop].
  { rewrite drop_ge by (rewrite length_take; lia). exists m. cbn. by rewrite app_nil_r. }
  cbv zeta. rewrite (ptr_row_of R HR), (cell_at_flat R HR) by done.
  destruct (lookup_lt_is_Some_2 (concat rs) i ltac:(lia)) as [c Hc]. rewrite Hc. cbn [mbind option_bind].
  assert (drop i (take (i + S k) (concat rs)) = c :: drop (S i) (take (S i + k) (concat rs))) as Ed.
  { rewrite (drop_S _ c i); [by rewrite Nat.add_succ_r|]. by rewrite lookup_take_lt by lia. }
  rewrite Ed in HA |- *. apply Forall_cons in HA as [Hc0 HA]. destruct F as [C F].
  destruct (forest_abs _ _ _ _ _ _ F Hc0) as (ps & l & Ec & El & Rp). rewrite El. cbn [mbind option_bind].
  destruct (repr_no_versions _ _ _ Rp) as [-> Eh]. rewrite Eh.
  assert (ep_lists (size (e_items m)) (e_items m) None = Some []) as -> by by destruct (size (e_items m)).
  cbn [mbind option_bind]. unfold SelfGarbageCollect. rewrite Eh.
  assert (free_chain (size (e_items m)) (e_items m) None = Some ([], [], e_items m)) as -> by by destruct (size (e_items m)).
  cbn [mbind option_bind app]. change ((ptr R i).1) with (i / R). rewrite <- (prev_row_S R).
  destruct (IH (S i) (mk_emem (<[e_list c := empty_list]> (e_lists m)) (e_items m)) (es ++ [(cell_eid vid c, is_out c)])) as (m' & Hm & F').
  { lia. }
  { cbn. by eapply forest_reset. }
  { done. }
  exists m'. split; [|done]. fold empty_list. rewrite Hm. cbn. by rewrite <- app_assoc.
Qed.

Lemma topo_gc_empty tl m A : topo_ok R tl -> (exists C, forest (e_lists m) (e_items m) C A) ->
  Forall (fun c => A !! e_list c = Some no_versions) (edges tl) ->
  exists n tl' m', topo_self_gc R tl m = Some ((fun c => (cell_eid (my_vid tl) c, is_out c)) <$> edges tl, [], n, tl', m') /\
    (exists C, forest (e_lists m') (e_items m') C A).
Proof using HR.
  intros Hok F HA. unfold topo_self_gc, edges in *. destruct (t_rows tl) as [|r0 rs] eqn:Er.
  { cbn [concat]. rewrite take_nil. by exists 0, tl, m. }
  rewrite <- Er in *. clear r0 rs Er. pose proof (chain_len R HR _ _ _ Hok) as Hl.
  destruct (topo_gc_loop_empty (my_vid tl) (t_rows tl) (edge_count tl) 0 m A []) as (m' & Hm & F'); [apply Hok|lia|done|by rewrite drop_0|].
  change (prev_row R 0) with 0 in Hm. rewrite Hm. cbn [mbind option_bind app Nat.add]. rewrite drop_0. eauto 10.
Qed.
End Edges.
