(* ===== verification/DataStorage.v ===== *)
(** * layout/data_storage: the graph of a worker

    The storage of a worker: the map of vertices and the two maps of edges, the
    rows and lists of versions behind them, and the history of each running
    transaction, from which [Commit] and [Abort] find the lists to change.

    Operations run in a monad over the storage; [None] is a failed [CHECK], a
    null or dangling pointer, or an exhausted pool.  The lists of versions of
    vertices, edges and properties are in four maps by address; the code keeps
    pointers of all four kinds in one history, so that addresses are unique
    across the maps.  An operation is one step here: a vertex or an edge whose
    insertion another thread has begun and not finished is not a state of the
    model. *)
From S2P Require Import Prelude Types TrxStatus Coordinator TrxStub MvccList CellPool ValueStore Serialization.
From S2P Require Import RowChain PropertyRows Topology.
Local Open Scope Z_scope.

(** ** Data *)

(** [PROCESS_STAT] (base/type.hpp:57-77). *)
Inductive PROCESS_STAT :=
  | PS_SUCCESS | PS_ABORT | ABORT_DROP_V_GET_CONN_E | ABORT_DROP_V_APPEND | ABORT_ADD_E_INVISIBLE_V
  | ABORT_ADD_E_APPEND | ABORT_ADD_E_SAME_VID | ABORT_DROP_E_APPEND | ABORT_MODIFY_VP_INVISIBLE_V
  | ABORT_MODIFY_VP_APPEND | ABORT_MODIFY_EP_EITEM | ABORT_MODIFY_EP_DELETED_E | ABORT_MODIFY_EP_MODIFY
  | ABORT_DROP_VP_INVISIBLE_V | ABORT_DROP_VP_DROP | ABORT_DROP_EP_EITEM | ABORT_DROP_EP_DELETED_E
  | ABORT_DROP_EP_DROP | ABORT_MULTIPLE_TRX_ADD_SAME_EDGE.

(** [Vertex] (layout/layout_type.hpp:149-162). *)
Record Vertex := mk_vertex {
  v_label : Z; ve_row_list : option TopologyRowList; vp_row_list : option RowList; v_mvcc_list : option nat;
}.

(** [TrxProcessHistory::ProcessType] (layout/data_storage.hpp:43-54). *)
Inductive ProcessType :=
  | PROCESS_ADD_V | PROCESS_ADD_E | PROCESS_DROP_V | PROCESS_DROP_E | PROCESS_ADD_VP | PROCESS_ADD_EP
  | PROCESS_DROP_VP | PROCESS_DROP_EP | PROCESS_MODIFY_VP | PROCESS_MODIFY_EP.
#[global] Instance ProcessType_eq_dec : EqDecision ProcessType.
Proof. solve_decision. Defined.

(** [TrxProcessHistory::ProcessRecord] (layout/data_storage.hpp:56-64). *)
Record ProcessRecord := mk_record { pr_type : ProcessType; pr_list : nat }.
(** [TrxProcessHistory] (layout/data_storage.hpp:42-80). *)
Record TrxProcessHistory := mk_history { process_vector : list ProcessRecord; mvcclist_to_vid_map : gmap nat Z }.
Definition no_history : TrxProcessHistory := mk_history [] ∅.

(** [DataStorage] (layout/data_storage.hpp:137-206): [status_updates] are the
    transactions it has set to [TRX_STAT::ABORT], [gc_eids] and [gc_vids] what
    it has pushed to the garbage collector. *)
Record Storage := mk_storage {
  vertex_map : gmap Z Vertex;
  out_edge_map : gmap Z (option nat);
  in_edge_map : gmap Z (option nat);
  v_lists : gmap nat MVCCList;
  v_items : gmap nat (Item bool);
  edge_mem : EdgeMemory;
  ep_rows : gmap nat RowList;
  vp_mem : Memory;
  ep_mem : Memory;
  num_of_vertex_local : Z;
  process_history : gmap Z TrxProcessHistory;
  dep_map : dep_trx_map;
  status_updates : list Z;
  gc_eids : list (eid_t * bool);
  gc_vids : list Z;
}.

Section Updates.
Implicit Types (s : Storage).
Definition set_vertices s x := mk_storage x (out_edge_map s) (in_edge_map s) (v_lists s) (v_items s) (edge_mem s)
  (ep_rows s) (vp_mem s) (ep_mem s) (num_of_vertex_local s) (process_history s) (dep_map s) (status_updates s) (gc_eids s) (gc_vids s).
Definition set_edge_maps s o i := mk_storage (vertex_map s) o i (v_lists s) (v_items s) (edge_mem s)
  (ep_rows s) (vp_mem s) (ep_mem s) (num_of_vertex_local s) (process_history s) (dep_map s) (status_updates s) (gc_eids s) (gc_vids s).
Definition set_v_mem s l h := mk_storage (vertex_map s) (out_edge_map s) (in_edge_map s) l h (edge_mem s)
  (ep_rows s) (vp_mem s) (ep_mem s) (num_of_vertex_local s) (process_history s) (dep_map s) (status_updates s) (gc_eids s) (gc_vids s).
Definition set_edge_mem s m := mk_storage (vertex_map s) (out_edge_map s) (in_edge_map s) (v_lists s) (v_items s) m
  (ep_rows s) (vp_mem s) (ep_mem s) (num_of_vertex_local s) (process_history s) (dep_map s) (status_updates s) (gc_eids s) (gc_vids s).
Definition set_ep s r m := mk_storage (vertex_map s) (out_edge_map s) (in_edge_map s) (v_lists s) (v_items s) (edge_mem s)
  r (vp_mem s) m (num_of_vertex_local s) (process_history s) (dep_map s) (status_updates s) (gc_eids s) (gc_vids s).
Definition set_vp_mem s m := mk_storage (vertex_map s) (out_edge_map s) (in_edge_map s) (v_lists s) (v_items s) (edge_mem s)
  (ep_rows s) m (ep_mem s) (num_of_vertex_local s) (process_history s) (dep_map s) (status_updates s) (gc_eids s) (gc_vids s).
Definition set_counter s n := mk_storage (vertex_map s) (out_edge_map s) (in_edge_map s) (v_lists s) (v_items s) (edge_mem s)
  (ep_rows s) (vp_mem s) (ep_mem s) n (process_history s) (dep_map s) (status_updates s) (gc_eids s) (gc_vids s).
Definition set_history s h := mk_storage (vertex_map s) (out_edge_map s) (in_edge_map s) (v_lists s) (v_items s) (edge_mem s)
  (ep_rows s) (vp_mem s) (ep_mem s) (num_of_vertex_local s) h (dep_map s) (status_updates s) (gc_eids s) (gc_vids s).
Definition set_deps s d := mk_storage (vertex_map s) (out_edge_map s) (in_edge_map s) (v_lists s) (v_items s) (edge_mem s)
  (ep_rows s) (vp_mem s) (ep_mem s) (num_of_vertex_local s) (process_history s) d (status_updates s) (gc_eids s) (gc_vids s).
Definition set_status s u := mk_storage (vertex_map s) (out_edge_map s) (in_edge_map s) (v_lists s) (v_items s) (edge_mem s)
  (ep_rows s) (vp_mem s) (ep_mem s) (num_of_vertex_local s) (process_history s) (dep_map s) u (gc_eids s) (gc_vids s).
Definition set_gc s e v := mk_storage (vertex_map s) (out_edge_map s) (in_edge_map s) (v_lists s) (v_items s) (edge_mem s)
  (ep_rows s) (vp_mem s) (ep_mem s) (num_of_vertex_local s) (process_history s) (dep_map s) (status_updates s) e v.
End Updates.

(** ** The monad *)
Definition DS (A : Type) : Type := Storage -> option (A * Storage).
#[global] Instance DS_ret : MRet DS := fun A x s => Some (x, s).
#[global] Instance DS_bind : MBind DS := fun A B f m s => '(x, s') ← m s; f x s'.
Definition lift {A} (o : option A) : DS A := fun s => x ← o; Some (x, s).
Definition get : DS Storage := fun s => Some (s, s).
Definition modify (f : Storage -> Storage) : DS unit := fun s => Some (tt, f s).

(** What an operation gets from [new] and from the pools: a list of versions, an
    item, rows of edge properties, blank rows of the three kinds, and the id of
    the thread. *)
Record Alloc := mk_alloc {
  al_list : nat; al_item : nat; al_rows : nat;
  al_vp_row : list Cell; al_ep_row : list Cell; al_ve_row : list EdgeHeader; al_tid : nat;
}.

(** The pair of owner and key by which the rows know a property. *)
Definition vp_key (p : vpid_t) : Z * Z := (vp_vid p, vp_pid p).
Definition ep_eid (p : epid_t) : eid_t := mk_eid (ep_dst_vid p) (ep_src_vid p).
Definition ep_key (p : epid_t) : Z * Z := (eid_t2uint (ep_eid p), ep_pid p).
Definition vpid_of_key (k : Z * Z) : vpid_t := mk_vpid k.1 k.2.
Definition epid_of_key (k : Z * Z) : epid_t := let e := uint2eid_t k.1 in mk_epid (dst_v e) (src_v e) k.2.

Section DataStorage.
Context {main indirect : nat} `{!TrxTableStub main indirect}.
(** The configuration, the table of transaction states that reads consult, and
    the numbers of cells per row. *)
Context (lvl : ISOLATION_LEVEL) (tbl : TrxTable) (opt_preread : bool).
Context (VPR EPR VER BLOCK_SIZE : nat) (worker_size worker_rank : Z).

(** [TrxTableStub::update_status] with [TRX_STAT::ABORT]. *)
Definition update_status (t : Z) : DS unit := modify (fun s => set_status s (status_updates s ++ [t])).

(** ** Reads *)
Section Reads.
Context (trx_id begin : Z) (read_only : bool).

(** [GetVisibleVersion] of the lists of vertices, edges and properties. *)
Definition v_visible s (a : nat) (d : dep_trx_map) : option (read_result bool * dep_trx_map) :=
  l ← v_lists s !! a; GetVisibleVersion lvl tbl opt_preread (v_items s) l trx_id begin read_only d.
Definition e_visible s (a : nat) (d : dep_trx_map) : option (read_result EdgeVersion * dep_trx_map) :=
  l ← e_lists (edge_mem s) !! a;
  GetVisibleVersion lvl tbl opt_preread (e_items (edge_mem s)) l trx_id begin read_only d.
Definition p_visible (m : Memory) (a : nat) (d : dep_trx_map) := visible_in lvl tbl opt_preread m trx_id begin read_only a d.

(** A read that may record dependencies. *)
Definition with_deps {A} (f : Storage -> dep_trx_map -> option (A * dep_trx_map)) : DS A := fun s =>
  '(x, d) ← f s (dep_map s); Some (x, set_deps s d).

(** [DataStorage::CheckVertexVisibility] (layout/data_storage.cpp:456-473). *)
Definition CheckVertexVisibility (v : Vertex) : DS READ_STAT :=
  a ← lift (v_mvcc_list v);
  r ← with_deps (fun s => v_visible s a);
  mret (match r with RAbort => READ_ABORT | RNone => READ_NOTFOUND
        | RValue exists_ => if exists_ : bool then READ_SUCCESS else READ_NOTFOUND end).

(** [DataStorage::GetVertexIterator] (layout/data_storage.cpp:475-493). *)
Definition GetVertexIterator (vid : Z) : DS (READ_STAT * option Vertex) :=
  s ← get;
  match vertex_map s !! vid with
  | None => mret (READ_NOTFOUND, None)
  | Some v =>
      read_stat ← CheckVertexVisibility v;
      match read_stat with
      | READ_ABORT => _ ← update_status trx_id; mret (READ_ABORT, Some v)
      | _ => mret (read_stat, Some v)
      end
  end.

(** [DataStorage::GetOutEdgeVersion] (layout/data_storage.cpp:495-520). *)
Definition GetOutEdgeVersion (eid : eid_t) : DS (READ_STAT * option EdgeVersion) :=
  s ← get;
  match out_edge_map s !! eid_t2uint eid with
  | None => mret (READ_NOTFOUND, None)
  | Some p =>
      a ← lift p;
      r ← with_deps (fun s => e_visible s a);
      match r with
      | RAbort => _ ← update_status trx_id; mret (READ_ABORT, None)
      | RNone => mret (READ_NOTFOUND, None)
      | RValue ev => mret (if ev_label ev =? 0 then READ_NOTFOUND else READ_SUCCESS, Some ev)
      end
  end.

(** The end of a read of rows: the status is reported when it is an abort. *)
Definition read_rows {A} (f : Storage -> dep_trx_map -> option (READ_STAT * A * dep_trx_map)) : DS (READ_STAT * A) :=
  r ← with_deps f;
  _ ← (match r.1 with READ_ABORT => update_status trx_id | _ => mret tt end : DS unit);
  mret r.

(** A read on a vertex: the vertex must be visible. *)
Definition on_vertex {A} (vid : Z) (ret : A) (f : Vertex -> DS (READ_STAT * A)) : DS (READ_STAT * A) :=
  '(read_stat, v) ← GetVertexIterator vid;
  match read_stat, v with
  | READ_SUCCESS, Some v => f v
  | _, _ => mret (read_stat, ret)
  end.
Definition on_edge {A} (eid : eid_t) (ret : A) (f : EdgeVersion -> DS (READ_STAT * A)) : DS (READ_STAT * A) :=
  '(read_stat, ev) ← GetOutEdgeVersion eid;
  match read_stat, ev with
  | READ_SUCCESS, Some ev => f ev
  | _, _ => mret (read_stat, ret)
  end.
Definition rows_of (ev : EdgeVersion) : DS RowList := e ← lift (ep_row_list ev); s ← get; lift (ep_rows s !! e).

(** [DataStorage::GetVPByPKey] (layout/data_storage.cpp:522-536). *)
Definition GetVPByPKey (pid : vpid_t) (ret : value_t) : DS (READ_STAT * value_t) :=
  on_vertex (vp_vid pid) ret (fun v => rl ← lift (vp_row_list v);
    read_rows (fun s d => ReadProperty VPR (p_visible (vp_mem s)) (values (vp_mem s)) read_only rl (vp_key pid) d ret)).
(** [DataStorage::GetAllVP] (layout/data_storage.cpp:538-552). *)
Definition GetAllVP (vid : Z) : DS (READ_STAT * list (Z * value_t)) :=
  on_vertex vid [] (fun v => rl ← lift (vp_row_list v);
    read_rows (fun s d => ReadAllProperty VPR (p_visible (vp_mem s)) (values (vp_mem s)) read_only rl d)).
(** [DataStorage::GetVPByPKeyList] (layout/data_storage.cpp:554-569). *)
Definition GetVPByPKeyList (vid : Z) (p_key : list Z) : DS (READ_STAT * list (Z * value_t)) :=
  on_vertex vid [] (fun v => rl ← lift (vp_row_list v);
    read_rows (fun s d => ReadPropertyByPKeyList VPR (p_visible (vp_mem s)) (values (vp_mem s)) read_only rl p_key d)).
(** [DataStorage::GetVPidList] (layout/data_storage.cpp:571-585). *)
Definition GetVPidList (vid : Z) : DS (READ_STAT * list vpid_t) :=
  '(st, l) ← on_vertex vid [] (fun v => rl ← lift (vp_row_list v);
    read_rows (fun s d => ReadPidList VPR (p_visible (vp_mem s)) read_only rl d));
  mret (st, vpid_of_key <$> l).
(** [DataStorage::GetVL] (layout/data_storage.cpp:587-598). *)
Definition GetVL (vid : Z) (ret : Z) : DS (READ_STAT * Z) := on_vertex vid ret (fun v => mret (READ_SUCCESS, v_label v)).

(** [DataStorage::GetEPByPKey] (layout/data_storage.cpp:600-615). *)
Definition GetEPByPKey (pid : epid_t) (ret : value_t) : DS (READ_STAT * value_t) :=
  on_edge (ep_eid pid) ret (fun ev => rl ← rows_of ev;
    read_rows (fun s d => ReadProperty EPR (p_visible (ep_mem s)) (values (ep_mem s)) read_only rl (ep_key pid) d ret)).
(** [DataStorage::GetAllEP] (layout/data_storage.cpp:617-630). *)
Definition GetAllEP (eid : eid_t) : DS (READ_STAT * list (Z * value_t)) :=
  on_edge eid [] (fun ev => rl ← rows_of ev;
    read_rows (fun s d => ReadAllProperty EPR (p_visible (ep_mem s)) (values (ep_mem s)) read_only rl d)).
(** [DataStorage::GetEPByPKeyList] (layout/data_storage.cpp:632-646). *)
Definition GetEPByPKeyList (eid : eid_t) (p_key : list Z) : DS (READ_STAT * list (Z * value_t)) :=
  on_edge eid [] (fun ev => rl ← rows_of ev;
    read_rows (fun s d => ReadPropertyByPKeyList EPR (p_visible (ep_mem s)) (values (ep_mem s)) read_only rl p_key d)).
(** [DataStorage::GetEPidList] (layout/data_storage.cpp:648-661). *)
Definition GetEPidList (eid : eid_t) : DS (READ_STAT * list epid_t) :=
  '(st, l) ← on_edge eid [] (fun ev => rl ← rows_of ev;
    read_rows (fun s d => ReadPidList EPR (p_visible (ep_mem s)) read_only rl d));
  mret (st, epid_of_key <$> l).
(** [DataStorage::GetEL] (layout/data_storage.cpp:663-672). *)
Definition GetEL (eid : eid_t) (ret : Z) : DS (READ_STAT * Z) := on_edge eid ret (fun ev => mret (READ_SUCCESS, ev_label ev)).

(** [DataStorage::GetConnectedVertexList] (layout/data_storage.cpp:674-690). *)
Definition GetConnectedVertexList (vid label : Z) (dir : Direction_T) : DS (READ_STAT * list Z) :=
  on_vertex vid [] (fun v => tl ← lift (ve_row_list v);
    read_rows (fun s d => ReadConnectedVertex VER (e_visible s) tl dir label d)).
(** [DataStorage::GetConnectedEdgeList] (layout/data_storage.cpp:692-709). *)
Definition GetConnectedEdgeList (vid label : Z) (dir : Direction_T) : DS (READ_STAT * list eid_t) :=
  on_vertex vid [] (fun v => tl ← lift (ve_row_list v);
    read_rows (fun s d => ReadConnectedEdge VER (e_visible s) tl dir label d)).

(** The scan of a map for what is visible, common to the next two: the keys
    come in the order of the map's iterator. *)
Fixpoint scan_visible {K V : Type} (vis : nat -> dep_trx_map -> option (read_result V * dep_trx_map)) (is_there : V -> bool)
    (l : list (K * option nat)) (d : dep_trx_map) (ret : list K) : option (READ_STAT * list K * dep_trx_map) :=
  match l with
  | [] => Some (READ_SUCCESS, ret, d)
  | (k, None) :: r => scan_visible vis is_there r d ret
  | (k, Some a) :: r =>
      '(x, d') ← vis a d;
      match x with
      | RAbort => Some (READ_ABORT, ret, d')
      | RNone => scan_visible vis is_there r d' ret
      | RValue v => scan_visible vis is_there r d' (if is_there v then ret ++ [k] else ret)
      end
  end.
(** [DataStorage::GetAllVertices] (layout/data_storage.cpp:711-739). *)
Definition GetAllVertices : DS (READ_STAT * list Z) :=
  read_rows (fun s d => scan_visible (v_visible s) (fun b => b) (prod_map id v_mvcc_list <$> map_to_list (vertex_map s)) d []).
(** [DataStorage::GetAllEdges] (layout/data_storage.cpp:741-771). *)
Definition GetAllEdges : DS (READ_STAT * list eid_t) :=
  read_rows (fun s d => scan_visible (e_visible s) (fun ev => negb (ev_label ev =? 0))
    (prod_map uint2eid_t id <$> map_to_list (out_edge_map s)) d []).

(** [DataStorage::CheckVertexVisibilityWithVid] (layout/data_storage.cpp:773-789). *)
Definition CheckVertexVisibilityWithVid (vid : Z) : DS bool :=
  s ← get;
  match vertex_map s !! vid with
  | None => mret false
  | Some v => read_stat ← CheckVertexVisibility v; mret (bool_decide (read_stat = READ_SUCCESS))
  end.
(** [DataStorage::CheckEdgeVisibilityWithEid] (layout/data_storage.cpp:791-801). *)
Definition CheckEdgeVisibilityWithEid (eid : eid_t) : DS bool :=
  '(read_stat, _) ← GetOutEdgeVersion eid; mret (bool_decide (read_stat = READ_SUCCESS)).
End Reads.

(** ** Modifications *)

(** [DataStorage::InsertTrxProcessHistory] (layout/data_storage.cpp:899-909). *)
Definition InsertTrxProcessHistory (t : Z) (ty : ProcessType) (a : nat) : DS unit :=
  match ty with
  | PROCESS_ADD_V => lift None
  | _ => modify (fun s => let h := default no_history (process_history s !! t) in
      set_history s (<[t := mk_history (process_vector h ++ [mk_record ty a]) (mvcclist_to_vid_map h)]> (process_history s)))
  end.
(** [DataStorage::InsertTrxAddVHistory] (layout/data_storage.cpp:915-927). *)
Definition InsertTrxAddVHistory (t : Z) (a : nat) (vid : Z) : DS unit :=
  modify (fun s => let h := default no_history (process_history s !! t) in
    set_history s (<[t := mk_history (process_vector h ++ [mk_record PROCESS_ADD_V a])
      (<[a := vid]> (mvcclist_to_vid_map h))]> (process_history s))).

Section Process.
Context (trx_id begin : Z) (al : Alloc).

(** [DataStorage::ProcessAddV] (layout/data_storage.cpp:929-955). *)
Definition ProcessAddV (label : Z) : DS vid_t :=
  s ← get;
  let '(vid, n) := AssignVID (num_of_vertex_local s) worker_size worker_rank in
  match vertex_map s !! vid_vid vid with
  | Some _ => lift None
  | None =>
      '(r, h, l) ← lift (AppendVersion (v_items s) empty_list trx_id begin (al_item al) false);
      p ← lift (ap_item r);
      h' ← lift (write_val h p true);
      let v := mk_vertex label (Some (topo_init (vid_vid vid))) (Some rows_init) (Some (al_list al)) in
      _ ← modify (fun s => set_counter s n);
      _ ← modify (fun s => set_v_mem s (<[al_list al := l]> (v_lists s)) h');
      _ ← modify (fun s => set_vertices s (<[vid_vid vid := v]> (vertex_map s)));
      _ ← InsertTrxAddVHistory trx_id (al_list al) (vid_vid vid);
      mret vid
  end.

(** [ValueGC] of the recycled versions of edges (layout/mvcc_definition.cpp:34-40):
    their property rows go. *)
Fixpoint free_ep_rows (l : list (option nat)) : DS unit :=
  match l with
  | [] => mret tt
  | None :: r => free_ep_rows r
  | Some e :: r =>
      s ← get;
      rl ← lift (ep_rows s !! e);
      '(_, _, m) ← lift (rows_self_gc EPR BLOCK_SIZE rl (ep_mem s) (al_tid al));
      _ ← modify (fun s => set_ep s (delete e (ep_rows s)) m);
      free_ep_rows r
  end.

(** [AppendVersion] on the list of an edge, with the value written through the
    pointer (layout/data_storage.cpp:1089-1105); the value may need new rows of
    properties. *)
Definition append_edge (a : nat) (ev : EdgeVersion) (new_rows : option nat) : DS bool :=
  s ← get;
  l ← lift (e_lists (edge_mem s) !! a);
  '(r, h, l') ← lift (AppendVersion (e_items (edge_mem s)) l trx_id begin (al_item al) (mk_edge_version 0 None));
  match ap_item r with
  | None => mret false
  | Some p =>
      _ ← free_ep_rows (ep_row_list <$> ap_freed r);
      h' ← lift (write_val h p ev);
      _ ← modify (fun s => set_edge_mem s (mk_emem (<[a := l']> (e_lists (edge_mem s))) h'));
      _ ← (match new_rows with
           | Some e => modify (fun s => set_ep s (<[e := rows_init]> (ep_rows s)) (ep_mem s))
           | None => mret tt end : DS unit);
      mret true
  end.

Definition edge_map_of (is_out : bool) s : gmap Z (option nat) := if is_out then out_edge_map s else in_edge_map s.
Definition set_edge_map (is_out : bool) s m : Storage :=
  if is_out then set_edge_maps s m (in_edge_map s) else set_edge_maps s (out_edge_map s) m.

(** [DataStorage::ProcessDropV] (layout/data_storage.cpp:957-998): the status, the
    in-edges and the out-edges. *)
Definition ProcessDropV (vid : Z) : DS (PROCESS_STAT * list eid_t * list eid_t) :=
  '(read_stat, v) ← GetVertexIterator trx_id begin false vid;
  match read_stat, v with
  | READ_SUCCESS, Some v =>
      '(st, conn) ← GetConnectedEdgeList trx_id begin false vid 0 BOTH;
      match st with
      | READ_SUCCESS =>
          s ← get;
          a ← lift (v_mvcc_list v);
          l ← lift (v_lists s !! a);
          '(r, h, l') ← lift (AppendVersion (v_items s) l trx_id begin (al_item al) false);
          match ap_item r with
          | None => _ ← update_status trx_id; mret (ABORT_DROP_V_APPEND, [], [])
          | Some p =>
              h' ← lift (write_val h p false);
              _ ← modify (fun s => set_v_mem s (<[a := l']> (v_lists s)) h');
              _ ← InsertTrxProcessHistory trx_id PROCESS_DROP_V a;
              mret (PS_SUCCESS, filter (fun e => src_v e <> vid) conn, filter (fun e => src_v e = vid) conn)
          end
      | _ => _ ← update_status trx_id; mret (ABORT_DROP_V_GET_CONN_E, [], [])
      end
  | READ_NOTFOUND, _ => mret (PS_SUCCESS, [], [])
  | _, _ => mret (PS_ABORT, [], [])
  end.

(** [DataStorage::ProcessAddE] (layout/data_storage.cpp:1005-1111). *)
Definition ProcessAddE (eid : eid_t) (label : Z) (is_out : bool) : DS PROCESS_STAT :=
  if src_v eid =? dst_v eid then _ ← update_status trx_id; mret ABORT_ADD_E_SAME_VID
  else
    let vid := if is_out then src_v eid else dst_v eid in
    let adj_vid := if is_out then dst_v eid else src_v eid in
    let rows := if is_out then Some (al_rows al) else None in
    '(read_stat, v) ← GetVertexIterator trx_id begin false vid;
    match read_stat, v with
    | READ_SUCCESS, Some v =>
        s ← get;
        match edge_map_of is_out s !! eid_t2uint eid with
        | None =>
            tl ← lift (ve_row_list v);
            '(tl', m) ← lift (ProcessAddEdge VER tl (edge_mem s) is_out adj_vid label rows trx_id begin (al_list al)
                                (al_item al) (al_ve_row al));
            _ ← modify (fun s => set_vertices s
                  (<[vid := mk_vertex (v_label v) (Some tl') (vp_row_list v) (v_mvcc_list v)]> (vertex_map s)));
            _ ← modify (fun s => set_edge_mem s m);
            _ ← modify (fun s => set_edge_map is_out s (<[eid_t2uint eid := Some (al_list al)]> (edge_map_of is_out s)));
            _ ← (match rows with
                 | Some e => modify (fun s => set_ep s (<[e := rows_init]> (ep_rows s)) (ep_mem s))
                 | None => mret tt end : DS unit);
            _ ← InsertTrxProcessHistory trx_id PROCESS_ADD_E (al_list al);
            mret PS_SUCCESS
        | Some None => mret ABORT_MULTIPLE_TRX_ADD_SAME_EDGE
        | Some (Some a) =>
            ok ← append_edge a (mk_edge_version label rows) rows;
            if ok : bool then _ ← InsertTrxProcessHistory trx_id PROCESS_ADD_E a; mret PS_SUCCESS
            else _ ← update_status trx_id; mret ABORT_ADD_E_APPEND
        end
    | _, _ =>
        _ ← (match read_stat with READ_ABORT => mret tt | _ => update_status trx_id end : DS unit);
        mret ABORT_ADD_E_INVISIBLE_V
    end.

(** [DataStorage::ProcessDropE] (layout/data_storage.cpp:1113-1167). *)
Definition ProcessDropE (eid : eid_t) (is_out : bool) : DS PROCESS_STAT :=
  s ← get;
  match edge_map_of is_out s !! eid_t2uint eid with
  | None => mret PS_SUCCESS
  | Some p =>
      a ← lift p;
      ok ← append_edge a (mk_edge_version 0 None) None;
      if ok : bool then _ ← InsertTrxProcessHistory trx_id PROCESS_DROP_E a; mret PS_SUCCESS
      else _ ← update_status trx_id; mret ABORT_DROP_E_APPEND
  end.

(** [DataStorage::ProcessModifyVP] (layout/data_storage.cpp:1169-1199), with the
    old value. *)
Definition ProcessModifyVP (pid : vpid_t) (value old : value_t) : DS (PROCESS_STAT * value_t) :=
  '(read_stat, v) ← GetVertexIterator trx_id begin false (vp_vid pid);
  match read_stat, v with
  | READ_SUCCESS, Some v =>
      s ← get;
      rl ← lift (vp_row_list v);
      '(flag, a, old', rl', m) ← lift (ProcessModifyProperty VPR BLOCK_SIZE rl (vp_mem s) (vp_key pid) value old
        trx_id begin (al_list al) (al_item al) (al_tid al) (al_vp_row al));
      _ ← modify (fun s => set_vertices s
            (<[vp_vid pid := mk_vertex (v_label v) (ve_row_list v) (Some rl') (v_mvcc_list v)]> (vertex_map s)));
      _ ← modify (fun s => set_vp_mem s m);
      match a with
      | None => _ ← update_status trx_id; mret (ABORT_MODIFY_VP_APPEND, old')
      | Some a => _ ← InsertTrxProcessHistory trx_id (if flag : bool then PROCESS_MODIFY_VP else PROCESS_ADD_VP) a;
          mret (PS_SUCCESS, old')
      end
  | _, _ =>
      _ ← (match read_stat with READ_ABORT => mret tt | _ => update_status trx_id end : DS unit);
      mret (ABORT_MODIFY_VP_INVISIBLE_V, old)
  end.

(** [DataStorage::ProcessModifyEP] (layout/data_storage.cpp:1201-1229). *)
Definition ProcessModifyEP (pid : epid_t) (value old : value_t) : DS (PROCESS_STAT * value_t) :=
  '(read_stat, ev) ← GetOutEdgeVersion trx_id begin false (ep_eid pid);
  match read_stat, ev with
  | READ_SUCCESS, Some ev =>
      e ← lift (ep_row_list ev);
      s ← get;
      rl ← lift (ep_rows s !! e);
      '(flag, a, old', rl', m) ← lift (ProcessModifyProperty EPR BLOCK_SIZE rl (ep_mem s) (ep_key pid) value old
        trx_id begin (al_list al) (al_item al) (al_tid al) (al_ep_row al));
      _ ← modify (fun s => set_ep s (<[e := rl']> (ep_rows s)) m);
      match a with
      | None => _ ← update_status trx_id; mret (ABORT_MODIFY_EP_MODIFY, old')
      | Some a => _ ← InsertTrxProcessHistory trx_id (if flag : bool then PROCESS_MODIFY_EP else PROCESS_ADD_EP) a;
          mret (PS_SUCCESS, old')
      end
  | _, _ => _ ← update_status trx_id; mret (ABORT_MODIFY_EP_DELETED_E, old)
  end.

(** [DataStorage::ProcessDropVP] (layout/data_storage.cpp:1231-1253). *)
Definition ProcessDropVP (pid : vpid_t) (old : value_t) : DS (PROCESS_STAT * value_t) :=
  '(read_stat, v) ← GetVertexIterator trx_id begin false (vp_vid pid);
  match read_stat, v with
  | READ_SUCCESS, Some v =>
      s ← get;
      rl ← lift (vp_row_list v);
      '(a, old', m) ← lift (ProcessDropProperty VPR BLOCK_SIZE rl (vp_mem s) (vp_key pid) trx_id begin
        (al_item al) (al_tid al) old);
      _ ← modify (fun s => set_vp_mem s m);
      match a with
      | None => _ ← update_status trx_id; mret (ABORT_DROP_VP_DROP, old')
      | Some a => _ ← InsertTrxProcessHistory trx_id PROCESS_DROP_VP a; mret (PS_SUCCESS, old')
      end
  | _, _ =>
      _ ← (match read_stat with READ_ABORT => mret tt | _ => update_status trx_id end : DS unit);
      mret (ABORT_MODIFY_VP_INVISIBLE_V, old)
  end.

(** [DataStorage::ProcessDropEP] (layout/data_storage.cpp:1255-1275). *)
Definition ProcessDropEP (pid : epid_t) (old : value_t) : DS (PROCESS_STAT * value_t) :=
  '(read_stat, ev) ← GetOutEdgeVersion trx_id begin false (ep_eid pid);
  match read_stat, ev with
  | READ_SUCCESS, Some ev =>
      e ← lift (ep_row_list ev);
      s ← get;
      rl ← lift (ep_rows s !! e);
      '(a, old', m) ← lift (ProcessDropProperty EPR BLOCK_SIZE rl (ep_mem s) (ep_key pid) trx_id begin
        (al_item al) (al_tid al) old);
      _ ← modify (fun s => set_ep s (ep_rows s) m);
      match a with
      | None => _ ← update_status trx_id; mret (ABORT_DROP_EP_DROP, old')
      | Some a => _ ← InsertTrxProcessHistory trx_id PROCESS_DROP_EP a; mret (PS_SUCCESS, old')
      end
  | _, _ => _ ← update_status trx_id; mret (ABORT_DROP_EP_DELETED_E, old)
  end.
End Process.

(** ** Commit and abort *)

(** The kinds of lists in a history. *)
Inductive list_kind := KVertex | KEdge | KVP | KEP.
#[global] Instance list_kind_eq_dec : EqDecision list_kind.
Proof. solve_decision. Defined.
Definition kind_of (ty : ProcessType) : list_kind :=
  match ty with
  | PROCESS_ADD_V | PROCESS_DROP_V => KVertex
  | PROCESS_ADD_E | PROCESS_DROP_E => KEdge
  | PROCESS_MODIFY_VP | PROCESS_ADD_VP | PROCESS_DROP_VP => KVP
  | PROCESS_MODIFY_EP | PROCESS_ADD_EP | PROCESS_DROP_EP => KEP
  end.

(** [CommitVersion] on the list of a record (layout/data_storage.cpp:1299-1321). *)
Definition commit_record (t ct : Z) (r : ProcessRecord) : DS unit :=
  s ← get;
  let a := pr_list r in
  match kind_of (pr_type r) with
  | KVP => l ← lift (lists (vp_mem s) !! a); '(h, l') ← lift (CommitVersion (items (vp_mem s)) l t ct);
      modify (fun s => set_vp_mem s (mk_memory (<[a := l']> (lists (vp_mem s))) h (values (vp_mem s))))
  | KEP => l ← lift (lists (ep_mem s) !! a); '(h, l') ← lift (CommitVersion (items (ep_mem s)) l t ct);
      modify (fun s => set_ep s (ep_rows s) (mk_memory (<[a := l']> (lists (ep_mem s))) h (values (ep_mem s))))
  | KVertex => l ← lift (v_lists s !! a); '(h, l') ← lift (CommitVersion (v_items s) l t ct);
      modify (fun s => set_v_mem s (<[a := l']> (v_lists s)) h)
  | KEdge => l ← lift (e_lists (edge_mem s) !! a); '(h, l') ← lift (CommitVersion (e_items (edge_mem s)) l t ct);
      modify (fun s => set_edge_mem s (mk_emem (<[a := l']> (e_lists (edge_mem s))) h))
  end.

(** The loops of [Commit] and [Abort] over the records: a list is handled once
    (layout/data_storage.cpp:1293-1297, 1353-1357). *)
Fixpoint each_list (f : ProcessRecord -> DS unit) (rs : list ProcessRecord) (touched : gset nat) : DS unit :=
  match rs with
  | [] => mret tt
  | r :: rest =>
      if decide (pr_list r ∈ touched) then each_list f rest touched
      else _ ← f r; each_list f rest ({[pr_list r]} ∪ touched)
  end.

(** [DataStorage::Commit] (layout/data_storage.cpp:1281-1325). *)
Definition Commit (t ct : Z) : DS unit :=
  s ← get;
  match process_history s !! t with
  | None => mret tt
  | Some hist =>
      _ ← each_list (commit_record t ct) (process_vector hist) ∅;
      modify (fun s => set_history s (delete t (process_history s)))
  end.

Section Abort.
Context (al : Alloc).

(** What [Abort] does to a vertex that the transaction added
    (layout/data_storage.cpp:1377-1404). *)
Definition abort_vertex (vid : Z) : DS unit :=
  s ← get;
  v ← lift (vertex_map s !! vid);
  tl ← lift (ve_row_list v);
  '(eids, eps, _, _, em) ← lift (topo_self_gc VER tl (edge_mem s));
  _ ← modify (fun s => set_edge_mem s em);
  _ ← free_ep_rows al (Some <$> eps);
  _ ← modify (fun s => set_gc s (gc_eids s ++ eids) (gc_vids s));
  s ← get;
  rl ← lift (vp_row_list v);
  '(_, _, m) ← lift (rows_self_gc VPR BLOCK_SIZE rl (vp_mem s) (al_tid al));
  _ ← modify (fun s => set_vp_mem s m);
  s ← get;
  a ← lift (v_mvcc_list v);
  l ← lift (v_lists s !! a);
  '(_, _, h, l') ← lift (SelfGarbageCollect (v_items s) l);
  _ ← modify (fun s => set_v_mem s (<[a := l']> (v_lists s)) h);
  _ ← modify (fun s => set_vertices s (<[vid := mk_vertex (v_label v) None None (Some a)]> (vertex_map s)));
  modify (fun s => set_gc s (gc_eids s) (gc_vids s ++ [vid_vid (uint2vid_t vid)])).

(** [AbortVersion] on the list of a record (layout/data_storage.cpp:1359-1411). *)
Definition abort_record (t : Z) (vids : gmap nat Z) (r : ProcessRecord) : DS unit :=
  s ← get;
  let a := pr_list r in
  match kind_of (pr_type r) with
  | KVP => l ← lift (lists (vp_mem s) !! a);
      '(_, freed, h, l') ← lift (AbortVersion (items (vp_mem s)) l t);
      st ← lift (free_values BLOCK_SIZE (values (vp_mem s)) freed (al_tid al));
      modify (fun s => set_vp_mem s (mk_memory (<[a := l']> (lists (vp_mem s))) h st))
  | KEP => l ← lift (lists (ep_mem s) !! a);
      '(_, freed, h, l') ← lift (AbortVersion (items (ep_mem s)) l t);
      st ← lift (free_values BLOCK_SIZE (values (ep_mem s)) freed (al_tid al));
      modify (fun s => set_ep s (ep_rows s) (mk_memory (<[a := l']> (lists (ep_mem s))) h st))
  | KVertex => l ← lift (v_lists s !! a);
      '(_, _, h, l') ← lift (AbortVersion (v_items s) l t);
      _ ← modify (fun s => set_v_mem s (<[a := l']> (v_lists s)) h);
      match pr_type r with
      | PROCESS_ADD_V => abort_vertex (default 0 (vids !! a))
      | _ => mret tt
      end
  | KEdge => l ← lift (e_lists (edge_mem s) !! a);
      '(_, freed, h, l') ← lift (AbortVersion (e_items (edge_mem s)) l t);
      _ ← free_ep_rows al (ep_row_list <$> freed);
      modify (fun s => set_edge_mem s (mk_emem (<[a := l']> (e_lists (edge_mem s))) h))
  end.

(** [DataStorage::Abort] (layout/data_storage.cpp:1331-1415). *)
Definition Abort (t : Z) : DS unit :=
  s ← get;
  match process_history s !! t with
  | None => mret tt
  | Some hist =>
      _ ← each_list (abort_record t (mvcclist_to_vid_map hist)) (reverse (process_vector hist)) ∅;
      modify (fun s => set_history s (delete t (process_history s)))
  end.
End Abort.
End DataStorage.

(** ** Aggregates *)

(** [agg_t] (base/type.hpp:625-640). *)
Abbreviation agg_t := (Z * Z)%type (only parsing).
Definition mk_agg (qid label_key : Z) : agg_t := (Z.land qid 0xFFFFFFFFFFFFFF00, u8 label_key).
Abbreviation agg_table := (gmap (Z * Z) (list value_t)).

(** [DataStorage::InsertAggData] (layout/data_storage.cpp:803-813). *)
Definition InsertAggData (t : agg_table) (key : agg_t) (data : list value_t) : agg_table :=
  match t !! key with None => <[key := data]> t | Some old => <[key := old ++ data]> t end.
(** [DataStorage::GetAggData] (layout/data_storage.cpp:815-822). *)
Definition GetAggData (t : agg_table) (key : agg_t) (data : list value_t) : list value_t := default data (t !! key).
(** The loop of [DeleteAggData] (layout/data_storage.cpp:827-832), whose label
    is a byte that wraps. *)
Fixpoint delete_agg_loop (fuel : nat) (t : agg_table) (qid se_label : Z) : option agg_table :=
  match t !! mk_agg qid se_label with
  | None => Some t
  | Some _ => match fuel with O => None | S f => delete_agg_loop f (delete (mk_agg qid se_label) t) qid (u8 (se_label + 1)) end
  end.
(** [DataStorage::DeleteAggData] (layout/data_storage.cpp:824-833). *)
Definition DeleteAggData (t : agg_table) (qid : Z) : option agg_table := delete_agg_loop (size t) t qid 0.

(** ** Dependencies *)

(** [DataStorage::GetDepReadTrxList] (layout/data_storage.cpp:872-880). *)
Definition GetDepReadTrxList (d : dep_trx_map) (t : Z) (homo hetero : gset Z) : gset Z * gset Z :=
  match d !! t with Some x => (homo_trx_list x, hetero_trx_list x) | None => (homo, hetero) end.
(** [DataStorage::CleanDepReadTrxList] (layout/data_storage.cpp:882-888). *)
Definition CleanDepReadTrxList (d : dep_trx_map) (t : Z) : dep_trx_map := delete t d.

(** ** Deleting aggregates *)

(** The keys of the first [n] labels of a query. *)
Definition agg_keys (qid : Z) (n : nat) : list agg_t := (fun i => mk_agg qid (Z.of_nat i)) <$> seq 0 n.

Lemma mk_agg_inj qid (i j : nat) : (i < 256)%nat -> (j < 256)%nat -> mk_agg qid (Z.of_nat i) = mk_agg qid (Z.of_nat j) -> i = j.
Proof. intros Hi Hj H. unfold mk_agg in H. injection H as H. rewrite !wrap_small in H by (unfold fits; lia). lia. Qed.
Lemma mk_agg_u8 qid i : mk_agg qid (u8 i) = mk_agg qid i.
Proof. unfold mk_agg. f_equal. by rewrite wrap_wrap. Qed.
Lemma agg_keys_elem qid n k : k ∈ agg_keys qid n <-> exists i, (i < n)%nat /\ k = mk_agg qid (Z.of_nat i).
Proof.
  unfold agg_keys. rewrite list_elem_of_fmap. split.
  - intros (i & -> & Hi%elem_of_seq). exists i. split; [lia|done].
  - intros (i & Hi & ->). exists i. split; [done|]. apply elem_of_seq. lia.
Qed.

(** The loop after [n] labels, whose aggregates are gone. *)
Lemma delete_agg_spec qid fuel : forall n (t : agg_table), (n <= 256)%nat -> (size t <= fuel)%nat -> (forall k, k ∈ agg_keys qid n -> t !! k = None) ->
  exists m t', delete_agg_loop fuel t qid (u8 (Z.of_nat n)) = Some t' /\ (n <= m <= 256)%nat /\
    (forall i, (n <= i < m)%nat -> is_Some (t !! mk_agg qid (Z.of_nat i))) /\ ((m < 256)%nat -> t !! mk_agg qid (Z.of_nat m) = None) /\
    forall k, t' !! k = if decide (k ∈ agg_keys qid m) then None else t !! k.
Proof.
  assert (forall n (t : agg_table), (n <= 256)%nat -> (forall k, k ∈ agg_keys qid n -> t !! k = None) -> t !! mk_agg qid (Z.of_nat n) = None ->
    (n <= n <= 256)%nat /\ (forall i, (n <= i < n)%nat -> is_Some (t !! mk_agg qid (Z.of_nat i))) /\ ((n < 256)%nat -> t !! mk_agg qid (Z.of_nat n) = None) /\
    forall k, t !! k = if decide (k ∈ agg_keys qid n) then None else t !! k) as Hstop.
  { intros n t Hn Hk H. split_and!; [lia..|intros; lia|done|]. intros k. destruct (decide _); [by apply Hk|done]. }
  induction fuel as [|fuel IH]; intros n t Hn Hs Hk; cbn [delete_agg_loop]; rewrite mk_agg_u8; destruct (t !! mk_agg qid (Z.of_nat n)) as [x|] eqn:E.
  - exfalso. assert (t = ∅) as -> by (apply map_size_empty_iff; lia). by rewrite lookup_empty in E.
  - exists n, t. split; [done|by apply Hstop].
  - assert (n < 256)%nat as Hlt.
    { destruct (decide (n < 256)%nat); [done|]. assert (n = 256%nat) as -> by lia.
      assert (t !! mk_agg qid (Z.of_nat 256) = None); [|congruence]. apply Hk. apply agg_keys_elem. exists 0%nat. split; [lia|]. done. }
    set (k0 := mk_agg qid (Z.of_nat n)) in *.
    destruct (IH (S n) (delete k0 t)) as (m & t' & E' & Hm & H1 & H2 & H3).
    + lia.
    + rewrite map_size_delete, E. cbn. lia.
    + intros k (i & Hi & ->)%agg_keys_elem. destruct (decide (i = n)) as [->|N]; [apply lookup_delete_eq|].
      rewrite lookup_delete_ne; [apply Hk, agg_keys_elem; exists i; split; [lia|done]|]. intros Hx. apply mk_agg_inj in Hx; lia.
    + exists m, t'. split; [|split_and!; [lia..| | |]].
      * rewrite <- E'. f_equal. replace (Z.of_nat (S n)) with (Z.of_nat n + 1) by lia. unfold wrap. by rewrite Zplus_mod_idemp_l.
      * intros i Hi. destruct (decide (i = n)) as [->|N]; [by eexists|]. destruct (H1 i ltac:(lia)) as [y Hy]. apply lookup_delete_Some in Hy as [_ Hy]. by eexists.
      * intros Hm'. specialize (H2 Hm'). apply lookup_delete_None in H2 as [Hx|]; [|done]. apply mk_agg_inj in Hx; lia.
      * intros k. rewrite H3. destruct (decide (k ∈ agg_keys qid m)) as [|Nk]; [done|]. apply lookup_delete_ne. intros <-. apply Nk, agg_keys_elem.
        exists n. split; [lia|done].
  - exists n, t. split; [done|by apply Hstop].
Qed.

(** Deleting the aggregates of a query terminates for every table: it
    removes the labels from 0 up to the first one without data, at most all 256
    although the label is a byte that wraps, and touches nothing else; labels
    after a gap stay. *)
Theorem delete_agg_terminates (t : agg_table) qid : exists m t', DeleteAggData t qid = Some t' /\ (m <= 256)%nat /\
  (forall i, (i < m)%nat -> is_Some (t !! mk_agg qid (Z.of_nat i))) /\ ((m < 256)%nat -> t !! mk_agg qid (Z.of_nat m) = None) /\
  forall k, t' !! k = if decide (k ∈ agg_keys qid m) then None else t !! k.
Proof.
  destruct (delete_agg_spec qid (size t) 0 t) as (m & t' & E & Hm & H1 & H2 & H3); [lia|lia|by intros k ?%not_elem_of_nil|].
  exists m, t'. split_and!; [exact E|lia| |done|done]. intros i Hi. apply H1. lia.
Qed.
