(* ===== verification/BarrierExperts.v ===== *)
(** * expert/barrier_expert.cpp: the work of the barrier experts

    What end, aggregate, cap, count, dedup, group, order, post-validation,
    range, coin and math do with the messages that they collect, and what they
    send when all have arrived.  A hash table is a list of entries in the order
    of their insertion; the order in which it is walked is a parameter. *)
From S2P Require Import Prelude MyMath Types Serialization Wire ToolValue Predicate ExecPlan.
From S2P Require Import TrxStatus RunningTrx Coordinator Rct InputSet TrxStub Affinity Routing Barrier DataStorage.
From Stdlib Require String Ascii.
Import String.StringSyntax.
Local Open Scope string_scope.
Local Open Scope Z_scope.
Local Open Scope word_scope.

(** ** Histories and tables *)

(** [operator==] on histories (core/message.cpp:816-828). *)
Fixpoint his_eq (l r : history_t) : option bool :=
  match l, r with
  | [], [] => Some true
  | (k, v) :: l', (k', v') :: r' =>
      if (length l' =? length r')%nat then
        if k =? k' then b ← value_eq v v'; if b : bool then his_eq l' r' else Some false else Some false
      else Some false
  | _, _ => Some false
  end.
(** The index of the entry with a history. *)
Fixpoint find_his (vec : list pair_t) (h : history_t) : option (option nat) :=
  match vec with
  | [] => Some None
  | p :: vec' => b ← his_eq p.1 h; if b : bool then Some (Some 0%nat) else i ← find_his vec' h; Some (option_map S i)
  end.
(** The entry of a history in the data of a branch, which is added if there is
    none; useless histories with no values are cleared. *)
Definition slot_of (vec : list pair_t) (h : history_t) : option (list pair_t * nat) :=
  match vec with
  | [] | (_, []) :: _ => Some ([(h, [])], 0%nat)
  | _ => i ← find_his vec h;
         match i with Some i => Some (vec, i) | None => Some (vec ++ [(h, [])], length vec) end
  end.
Definition push_values (vec : list pair_t) (i : nat) (vs : list value_t) : list pair_t :=
  alter (fun p : pair_t => (p.1, p.2 ++ vs)) i vec.

Section Tables.
Context {A : Type}.
Fixpoint tab_find (k : Z) (m : list (Z * A)) : option A :=
  match m with [] => None | (k', a) :: m' => if k =? k' then Some a else tab_find k m' end.
Fixpoint tab_set (k : Z) (a : A) (m : list (Z * A)) : list (Z * A) :=
  match m with [] => [(k, a)] | (k', a') :: m' => if k =? k' then (k, a) :: m' else (k', a') :: tab_set k a m' end.
(** The loop over the data of a message. *)
Fixpoint each_pair (f : A -> pair_t -> option A) (a : A) (d : list pair_t) : option A :=
  match d with [] => Some a | p :: d' => a' ← f a p; each_pair f a' d' end.
End Tables.

Definition at_branch (m : Meta) (h : history_t) (erase_his : bool) : option (Z * history_t) :=
  get_branch_value h (get_branch_key m) erase_his.
(** The result of an [int] addition, whose overflow is undefined. *)
Definition int_of (z : Z) : option Z := if (- 2 ^ 31 <=? z) && (z <? 2 ^ 31) then Some z else None.

(** ** What the experts change besides their data *)

(** The affinity of the threads, the messages that are sent, the replies to
    queries [reply] (core/result_collector.hpp:36-40), the aggregated data of
    the worker, its requests to the table of transactions, and the number of
    blocks of random numbers that were drawn. *)
Record world := mk_world {
  w_aff : affinity; w_sent : list Message; w_replies : list (Z * list value_t * ReplyType);
  w_agg : gmap (Z * Z) (list value_t); w_updates : list update_action; w_random : nat }.
Definition w_send (a : affinity) (v : list Message) (w : world) : world :=
  mk_world a (w_sent w ++ v) (w_replies w) (w_agg w) (w_updates w) (w_random w).
(** [ResultCollector::InsertResult], [InsertAbortResult]
    (core/result_collector.hpp:44-58). *)
Definition InsertResult (kind : ReplyType) (id : Z) (d : list value_t) (w : world) : world :=
  mk_world (w_aff w) (w_sent w) (w_replies w ++ [(id, d, kind)]) (w_agg w) (w_updates w) (w_random w).

Definition with_data (msg : Message) (d : list pair_t) : Message := mk_msg (meta msg) d (max_data_size msg) (data_size msg).

Section Experts.
(** The rank of the worker, the number of workers, and the order in which the
    entries of a hash table are visited. *)
Context (rank : Z) (size : Z) (bucket_order : list Z -> list Z).

Definition walk {A} (m : list (Z * A)) : list A := omap (fun k => tab_find k m) (bucket_order (m.*1)).

(** What the experts do with their result: it is passed to a barrier that
    follows, or sent to the next expert. *)
Definition pass_on (qplan : QueryPlan) (msg : Message) (msg_data : list pair_t) (w : world) : option (Message * world) :=
  nb ← is_next_barrier (experts qplan) (step (meta msg));
  if nb : bool then Some (with_data msg msg_data, w)
  else '(v, a) ← CreateNextMsg size msg (experts qplan) msg_data (w_aff w); Some (msg, w_send a v w).
Definition finish {T} (ready : bool) (t : T) (qplan : QueryPlan) (msg : Message) (result : option (list pair_t)) (w : world)
  : option (T * Message * world) :=
  if ready then d ← result; '(msg, w) ← pass_on qplan msg d w; Some (t, msg, w) else Some (t, msg, w).

(** *** End *)

(** [end_data] (expert/barrier_expert.hpp:97-100). *)
Record end_data := mk_end { result : list value_t; is_abort : bool }.
Definition all_values (d : list pair_t) : list value_t := d ≫= snd.
(** [EndExpert::do_work] (expert/barrier_expert.cpp:19-49); the data of a reply
    is moved out of the entry. *)
Definition End_do_work (_ : QueryPlan) (msg : Message) (ready : bool) (t : end_data) (w : world) : option (end_data * Message * world) :=
  if decide (msg_type (meta msg) = M_ABORT) then
    if is_abort t then Some (t, msg, w)
    else
      d ← (match data msg with [] => Some [] | p :: _ => v ← p.2 !! 0%nat; Some [v] end);
      Some (mk_end [] true, msg, InsertResult RESULT_ABORT (qid (meta msg)) d w)
  else if is_abort t then Some (t, msg, w)
  else
    let d := result t ++ all_values (data msg) in
    if ready then Some (mk_end [] false, msg, InsertResult RESULT_NORMAL (qid (meta msg)) d w)
    else Some (mk_end d false, msg, w).

(** *** Aggregate and cap *)

(** [agg_data] (expert/barrier_expert.hpp:126-129). *)
Record agg_data := mk_agg_data { agg_values : list value_t; agg_msg_data : list pair_t }.
Definition aggregate_pair (t : agg_data) (p : pair_t) : option agg_data :=
  i ← find_his (agg_msg_data t) p.1;
  let '(vec, i) := match i with Some i => (agg_msg_data t, i) | None => (agg_msg_data t ++ [(p.1, [])], length (agg_msg_data t)) end in
  Some (mk_agg_data (agg_values t ++ p.2) (push_values vec i p.2)).
(** [AggregateExpert::do_work] (expert/barrier_expert.cpp:51-95). *)
Definition Aggregate_do_work (qplan : QueryPlan) (msg : Message) (ready : bool) (t : agg_data) (w : world)
  : option (agg_data * Message * world) :=
  t ← each_pair aggregate_pair t (data msg);
  if ready : bool then
    e ← expert_at (experts qplan) (step (meta msg));
    match params e with
    | [k] =>
        key ← value_t2int k;
        let w := mk_world (w_aff w) (w_sent w ++ CreateFeedMsg msg key (Z.to_nat size) (agg_values t)) (w_replies w)
                   (InsertAggData (w_agg w) (mk_agg (qid (meta msg)) key) (agg_values t)) (w_updates w) (w_random w) in
        '(msg, w) ← pass_on qplan msg (agg_msg_data t) w; Some (t, msg, w)
    | _ => None
    end
  else Some (t, msg, w).

(** [MemSize] of the data of a message (core/message.tpp:15-29). *)
Definition MemSize_data (d : list pair_t) : Z :=
  8 + foldr (fun p s => MemSize_history p.1 + (8 + foldr (fun v t => MemSize_value v + t) 0 p.2) + s) 0 d.
(** The loop that cuts a string into values of at most [max_size] bytes: it does
    not end for the size 0. *)
Fixpoint cut_string (fuel : nat) (max_size : Z) (s : list Z) : option (list value_t) :=
  match fuel with
  | O => None
  | S fuel' =>
      let n := Z.to_nat (Z.min max_size (Z.of_nat (length s))) in
      let v := str2str (take n s) value_default in
      if max_size <? Z.of_nat (length s) then vs ← cut_string fuel' max_size (drop n s); Some (v :: vs) else Some [v]
  end.
Definition cut (max_size : Z) (s : list Z) : option (list value_t) := cut_string (S (length s)) max_size s.
(** The values printed between brackets. *)
Definition bracketed (vs : list value_t) : option (list Z) :=
  ss ← mapM DebugString vs;
  let s := concat ((fun s => s ++ str ", ") <$> ss) in
  Some (str "[" ++ take (length s - 2) s ++ str "]").
Fixpoint cap_keys (agg : gmap (Z * Z) (list value_t)) (id : Z) (max_size : Z) (ps : list value_t) : option (list value_t) :=
  match ps with
  | [] => Some []
  | k :: n :: ps' =>
      se_key ← value_t2int k;
      s ← bracketed (GetAggData agg (mk_agg id se_key) []);
      vs ← cut max_size (value_t2string n ++ str ":" ++ s);
      r ← cap_keys agg id max_size ps'; Some (vs ++ r)
  | _ => None
  end.
(** [CapExpert::do_work] (expert/barrier_expert.cpp:97-152). *)
Definition Cap_do_work (qplan : QueryPlan) (msg : Message) (ready : bool) (t : unit) (w : world) : option (unit * Message * world) :=
  finish ready t qplan msg
    (e ← expert_at (experts qplan) (step (meta msg));
     vs ← cap_keys (w_agg w) (qid (meta msg)) (max_data_size msg -64 MemSize_data [([], [])] -64 MemSize_value value_default) (params e);
     Some [([], vs)]) w.

(** *** Count *)

(** [count_data] (expert/barrier_expert.hpp:174-180): per branch value the
    history and the count. *)
Definition count_table : Type := list (Z * (history_t * Z)).
Definition count_pair (m : Meta) (t : count_table) (p : pair_t) : option count_table :=
  count ← (match p.2 with [] => Some 0 | v :: _ => value_t2int v end);
  '(bv, h) ← at_branch m p.1 true;
  let '(h, c) := default (h, 0) (tab_find bv t) in
  c ← int_of (c + count); Some (tab_set bv (h, c) t).
(** [CountExpert::do_work] (expert/barrier_expert.cpp:154-194). *)
Definition Count_do_work (qplan : QueryPlan) (msg : Message) (ready : bool) (t : count_table) (w : world)
  : option (count_table * Message * world) :=
  t ← each_pair (count_pair (meta msg)) t (data msg);
  finish ready t qplan msg
    (mapM (fun hc => v ← str2int (to_string_int hc.2) value_default; Some (hc.1, [v])) (walk t)) w.

(** *** Dedup *)

(** [dedup_data] (expert/barrier_expert.hpp:203-209). *)
Record dedup_data := mk_dedup {
  dd_data : list (Z * list pair_t); dedup_his : list (Z * list history_t); dedup_val : list (Z * list value_t) }.
Fixpoint any_his (hs : list history_t) (h : history_t) : option bool :=
  match hs with [] => Some false | h' :: hs' => b ← his_eq h' h; if b : bool then Some true else any_his hs' h end.
(** The values that are not in a set, which is extended. *)
Fixpoint new_values (seen : list value_t) (vs : list value_t) : option (list value_t * list value_t) :=
  match vs with
  | [] => Some ([], seen)
  | v :: vs' =>
      b ← any_equal seen v;
      if b : bool then new_values seen vs'
      else '(r, seen) ← new_values (seen ++ [v]) vs'; Some (v :: r, seen)
  end.
Definition dedup_pair (m : Meta) (keys : list Z) (t : dedup_data) (p : pair_t) : option dedup_data :=
  '(bv, _) ← at_branch m p.1 false;
  '(vec, i) ← slot_of (default [] (tab_find bv (dd_data t))) p.1;
  match keys, p.2 with
  | _ :: _, v :: _ =>
      let seen := default [] (tab_find bv (dedup_his t)) in
      let his := filter (fun kv => kv.1 ∈ keys) p.1 in
      b ← any_his seen his;
      Some (if b : bool then mk_dedup (tab_set bv vec (dd_data t)) (tab_set bv seen (dedup_his t)) (dedup_val t)
            else mk_dedup (tab_set bv (push_values vec i [v]) (dd_data t)) (tab_set bv (seen ++ [his]) (dedup_his t)) (dedup_val t))
  | _, _ =>
      '(vs, seen) ← new_values (default [] (tab_find bv (dedup_val t))) p.2;
      Some (mk_dedup (tab_set bv (push_values vec i vs) (dd_data t)) (dedup_his t) (tab_set bv seen (dedup_val t)))
  end.
(** [DedupExpert::do_work] (expert/barrier_expert.cpp:196-281). *)
Definition Dedup_do_work (qplan : QueryPlan) (msg : Message) (ready : bool) (t : dedup_data) (w : world)
  : option (dedup_data * Message * world) :=
  e ← expert_at (experts qplan) (step (meta msg));
  keys ← mapM value_t2int (params e);
  t ← each_pair (dedup_pair (meta msg) keys) t (data msg);
  finish ready t qplan msg (Some (concat (walk (dd_data t)))) w.

(** *** Group *)

(** [std::string] is compared as unsigned bytes. *)
Fixpoint str_compare (a b : list Z) : comparison :=
  match a, b with
  | [], [] => Eq
  | [], _ => Lt
  | _, [] => Gt
  | x :: a', y :: b' => match x ?= y with Eq => str_compare a' b' | c => c end
  end.
(** [map_[key].push_back(val)] on a map that is kept in order. *)
Fixpoint group_push (key : list Z) (v : value_t) (m : list (list Z * list value_t)) : list (list Z * list value_t) :=
  match m with
  | [] => [(key, [v])]
  | (k, vs) :: m' =>
      match str_compare key k with
      | Lt => (key, [v]) :: m
      | Eq => (k, vs ++ [v]) :: m'
      | Gt => (k, vs) :: group_push key v m'
      end
  end.
(** [group_data] (expert/barrier_expert.hpp:232-238). *)
Definition group_table : Type := list (Z * (history_t * list (list Z * list value_t))).
Fixpoint group_values (label_step : Z) (key : list Z) (vs : list value_t) (m : list (list Z * list value_t))
  : option (list (list Z * list value_t)) :=
  match vs with
  | [] => Some m
  | v :: vs' =>
      key ← (if label_step =? -1 then DebugString v else Some key);
      group_values label_step key vs' (group_push key v m)
  end.
Definition group_pair (m : Meta) (label_step : Z) (t : group_table) (p : pair_t) : option group_table :=
  key ← (match (get_history_value p.1 label_step false).1 with Some k => DebugString k | None => Some [] end);
  '(bv, h) ← at_branch m p.1 true;
  let '(h, g) := default (h, []) (tab_find bv t) in
  g ← group_values label_step key p.2 g; Some (tab_set bv (h, g) t).
(** The string of a group. *)
Definition group_string (isCount : bool) (item : list Z * list value_t) : option (list Z) :=
  if isCount then Some (item.1 ++ str ":" ++ to_string_int (Z.of_nat (length (item.2))))
  else s ← bracketed (item.2); Some (item.1 ++ str ":" ++ s).
(** The groups of the branch values, whose size counts for the strings that
    follow. *)
Fixpoint group_data (max_data_size : Z) (isCount : bool) (gs : list (history_t * list (list Z * list value_t))) (msg_data : list pair_t)
  : option (list pair_t) :=
  match gs with
  | [] => Some msg_data
  | (h, items) :: gs' =>
      let max_size := max_data_size -64 MemSize_data msg_data -64 MemSize_history h -64 MemSize_value value_default in
      vss ← mapM (fun item => s ← group_string isCount item; cut max_size s) items;
      group_data max_data_size isCount gs' (msg_data ++ [(h, concat vss)])
  end.
(** [GroupExpert::do_work] (expert/barrier_expert.cpp:283-373). *)
Definition Group_do_work (qplan : QueryPlan) (msg : Message) (ready : bool) (t : group_table) (w : world)
  : option (group_table * Message * world) :=
  e ← expert_at (experts qplan) (step (meta msg));
  match params e with
  | [c; l] =>
      label_step ← value_t2int l;
      t ← each_pair (group_pair (meta msg) label_step) t (data msg);
      finish ready t qplan msg (isCount ← value_t2int c; group_data (max_data_size msg) (negb (isCount =? 0)) (walk t) []) w
  | _ => None
  end.

(** *** Order *)

(** Values that [operator<] orders: numbers that are not NaN, 64-bit numbers,
    and values that are compared by their bytes.  Among others it is no order,
    and what a tree does with them is undefined. *)
Definition order_kind (v : value_t) : option Z :=
  if v_type v =? 1 then Some 1
  else if v_type v =? 2 then
    d ← value_t2double v; match double_of_bits d with NaN => None | _ => Some 1 end
  else if v_type v =? 5 then Some 5 else Some 0.
Definition tree_lt (a b : value_t) : option bool :=
  k ← order_kind a; l ← order_kind b; if k =? l then value_lt a b else None.
(** [std::multiset::insert]: after the values that are not greater. *)
Fixpoint ms_insert (v : value_t) (l : list value_t) : option (list value_t) :=
  match l with
  | [] => Some [v]
  | u :: l' => b ← tree_lt v u; if b : bool then Some (v :: l) else r ← ms_insert v l'; Some (u :: r)
  end.
Fixpoint ms_insert_all (vs : list value_t) (l : list value_t) : option (list value_t) :=
  match vs with [] => Some l | v :: vs' => l ← ms_insert v l; ms_insert_all vs' l end.
(** [map_[key].insert(...)] *)
Fixpoint order_push (key : value_t) (vs : list value_t) (m : list (value_t * list value_t)) : option (list (value_t * list value_t)) :=
  match m with
  | [] => l ← ms_insert_all vs []; Some [(key, l)]
  | (k, l) :: m' =>
      b ← tree_lt key k;
      if b : bool then l' ← ms_insert_all vs []; Some ((key, l') :: m)
      else
        b ← tree_lt k key;
        if b : bool then r ← order_push key vs m'; Some ((k, l) :: r)
        else l ← ms_insert_all vs l; Some ((k, l) :: m')
  end.
(** [order_data] (expert/barrier_expert.hpp:261-273). *)
Record order_data := mk_order {
  od_map : list (Z * (history_t * list (value_t * list value_t))); od_set : list (Z * (history_t * list value_t)) }.
Definition order_pair (m : Meta) (label_step : Z) (t : order_data) (p : pair_t) : option order_data :=
  let key := default value_default (get_history_value p.1 label_step false).1 in
  '(bv, h) ← at_branch m p.1 true;
  if label_step <? 0 then
    let '(h, l) := default (h, []) (tab_find bv (od_set t)) in
    l ← ms_insert_all p.2 l; Some (mk_order (od_map t) (tab_set bv (h, l) (od_set t)))
  else
    let '(h, g) := default (h, []) (tab_find bv (od_map t)) in
    g ← order_push key p.2 g; Some (mk_order (tab_set bv (h, g) (od_map t)) (od_set t)).
Definition in_order (incr : bool) (l : list value_t) : list value_t := if incr then l else reverse l.
(** [OrderExpert::do_work] (expert/barrier_expert.cpp:375-462). *)
Definition Order_do_work (qplan : QueryPlan) (msg : Message) (ready : bool) (t : order_data) (w : world)
  : option (order_data * Message * world) :=
  e ← expert_at (experts qplan) (step (meta msg));
  match params e with
  | [l; o] =>
      label_step ← value_t2int l;
      t ← each_pair (order_pair (meta msg) label_step) t (data msg);
      finish ready t qplan msg
        (order ← value_t2int o;
         Some (if label_step <? 0 then (fun p => (p.1, in_order (order =? 0) p.2)) <$> walk (od_set t)
               else (fun p => (p.1, in_order (order =? 0) (p.2 ≫= snd))) <$> walk (od_map t))) w
  | _ => None
  end.

(** *** Post-validation *)

Section PostValidation.
Context {main indirect : nat} (stub : TrxTableStub main indirect) (table : TrxTable).

(** [PostValidationExpert::do_work] (expert/barrier_expert.cpp:464-494), whose
    data is whether an abort has arrived. *)
Definition PostValidation_do_work (qplan : QueryPlan) (msg : Message) (ready : bool) (isAbort : bool) (w : world)
  : option (bool * Message * world) :=
  let isAbort := isAbort || bool_decide (msg_type (meta msg) = M_ABORT) in
  if ready : bool then
    '(t, d, w) ←
      (if isAbort : bool then Some (M_ABORT, [], w)
       else
         a ← TrxStub.update_status rank size (trxid qplan) COMMITTED false;
         r ← stub_read_ct table (trxid qplan);
         let ct := match r with Some (_, ct) => ct | None => 0 end in
         if ct =? 0 then None
         else Some (M_COMMIT, [([], [uint64_t2value_t ct value_default])],
                    mk_world (w_aff w) (w_sent w) (w_replies w) (w_agg w) (w_updates w ++ [a]) (w_random w)));
    Some (isAbort, msg, w_send (w_aff w) ((fun m => with_data m d) <$> CreateBroadcastMsg msg t (Z.to_nat size)) w)
  else Some (isAbort, msg, w).
End PostValidation.

(** *** Range and coin *)

(** [range_data] (expert/barrier_expert.hpp:326-332). *)
Definition range_table : Type := list (Z * (Z * list pair_t)).
Fixpoint range_values (start end_ : Z) (c : Z) (vs : list value_t) : option (Z * list value_t) :=
  match vs with
  | [] => Some (c, [])
  | v :: vs' =>
      if end_ <? c then Some (c, [])
      else
        c' ← int_of (c + 1);
        '(n, r) ← range_values start end_ c' vs';
        Some (n, if start <=? c then v :: r else r)
  end.
Definition range_pair (m : Meta) (start end_ : Z) (t : range_table) (p : pair_t) : option range_table :=
  '(bv, _) ← at_branch m p.1 false;
  let '(c, vec) := default (0, []) (tab_find bv t) in
  if (negb (length vec =? 0)%nat) && (end_ <? c) then Some t
  else
    '(vec, i) ← slot_of vec p.1;
    '(c, vs) ← range_values start end_ c p.2;
    Some (tab_set bv (c, push_values vec i vs) t).
(** [RangeExpert::do_work] (expert/barrier_expert.cpp:496-578). *)
Definition Range_do_work (qplan : QueryPlan) (msg : Message) (ready : bool) (t : range_table) (w : world)
  : option (range_table * Message * world) :=
  e ← expert_at (experts qplan) (step (meta msg));
  match params e with
  | [s; n] =>
      start ← value_t2int s; end_ ← value_t2int n;
      let end_ := if end_ =? -1 then 2 ^ 31 - 1 else end_ in
      t ← each_pair (range_pair (meta msg) start end_) t (data msg);
      finish ready t qplan msg (Some (concat (snd <$> walk t))) w
  | _ => None
  end.

Section Coin.
(** The random numbers: block and position. *)
Context (uniform : nat -> nat -> double).

Definition coin_pair (m : Meta) (rate : double) (tn : range_table * nat) (p : pair_t) : option (range_table * nat) :=
  let '(t, n) := tn in
  '(bv, _) ← at_branch m p.1 false;
  let '(c, vec) := default (0, []) (tab_find bv t) in
  '(vec, i) ← slot_of vec p.1;
  let vs := snd <$> filter (fun iv : nat * value_t => double_lt (uniform n iv.1) rate = true) (imap pair p.2) in
  Some (tab_set bv (c, push_values vec i vs) t, match p.2 with [] => n | _ => S n end).
(** [CoinExpert::do_work] (expert/barrier_expert.cpp:580-661). *)
Definition Coin_do_work (qplan : QueryPlan) (msg : Message) (ready : bool) (t : range_table) (w : world)
  : option (range_table * Message * world) :=
  e ← expert_at (experts qplan) (step (meta msg));
  match params e with
  | [r] =>
      rate ← value_t2double r;
      '(t, n) ← each_pair (coin_pair (meta msg) (double_of_bits rate)) (t, w_random w) (data msg);
      finish ready t qplan msg (Some (concat (snd <$> walk t)))
        (mk_world (w_aff w) (w_sent w) (w_replies w) (w_agg w) (w_updates w) n)
  | _ => None
  end.
End Coin.

(** *** Math *)

Definition ratio_bits (neg : bool) (n d : Z) : Z := if neg then round_double n d + 2 ^ 63 else round_double n d.
(** The addition of two finite [double]s, and the division by a positive [int];
    infinities and NaNs are not translated. *)
Definition double_add (a b : Z) : option Z :=
  match double_of_bits a, double_of_bits b with
  | Fin m e, Fin m' e' =>
      let k := Z.min e e' in
      let s := m * 2 ^ (e - k) + m' * 2 ^ (e' - k) in
      Some (if s =? 0 then if double_neg a && double_neg b then 2 ^ 63 else 0
            else if 0 <=? k then ratio_bits (s <? 0) (Z.abs s * 2 ^ k) 1 else ratio_bits (s <? 0) (Z.abs s) (2 ^ (- k)))
  | _, _ => None
  end.
Definition double_div (a n : Z) : option Z :=
  match double_of_bits a with
  | Fin m e =>
      Some (if m =? 0 then a
            else if 0 <=? e then ratio_bits (m <? 0) (Z.abs m * 2 ^ e) n else ratio_bits (m <? 0) (Z.abs m) (n * 2 ^ (- e)))
  | _ => None
  end.

(** [math_meta_t] (expert/barrier_expert.hpp:374-378). *)
Record math_meta_t := mk_math { mm_count : Z; mm_value : value_t; mm_history : history_t }.
Definition cleared (v : value_t) : value_t := mk_value (v_type v) [] (v_empty v).
(** [MathExpert::sum] (expert/barrier_expert.cpp:725-741). *)
Definition math_sum (d : math_meta_t) (v : value_t) : option math_meta_t :=
  n ← int_of (mm_count d + 1);
  if n =? 1 then Some (mk_math n v (mm_history d))
  else
    let temp := mm_value d in
    r ← (if v_type v =? 1 then
           i ← value_t2int temp; j ← value_t2int v; s ← int_of (i + j); str2int (to_string_int s) (cleared temp)
         else if v_type v =? 2 then
           x ← value_t2double temp; y ← value_t2double v; s ← double_add x y; str2double (to_string_double s) (cleared temp)
         else Some (cleared temp));
    Some (mk_math n r (mm_history d)).
(** [MathExpert::max] (expert/barrier_expert.cpp:743-748). *)
Definition math_max (d : math_meta_t) (v : value_t) : option math_meta_t :=
  b ← (if mm_count d =? 0 then Some true else value_lt (mm_value d) v);
  n ← int_of (mm_count d + 1);
  Some (mk_math n (if b : bool then v else mm_value d) (mm_history d)).
(** [MathExpert::min] (expert/barrier_expert.cpp:750-755). *)
Definition math_min (d : math_meta_t) (v : value_t) : option math_meta_t :=
  b ← (if mm_count d =? 0 then Some true else value_gt (mm_value d) v);
  n ← int_of (mm_count d + 1);
  Some (mk_math n (if b : bool then v else mm_value d) (mm_history d)).
(** [MathExpert::to_double] (expert/barrier_expert.cpp:757-772). *)
Definition math_to_double (d : math_meta_t) (isMean : bool) : option value_t :=
  let temp := mm_value d in
  let count := if isMean then mm_count d else 1 in
  if v_type temp =? 1 then
    i ← value_t2int temp; q ← double_div (ratio_bits (i <? 0) (Z.abs i) 1) count; str2double (to_string_double q) (cleared temp)
  else if v_type temp =? 2 then
    x ← value_t2double temp; q ← double_div x count; str2double (to_string_double q) (cleared temp)
  else Some (cleared temp).
(** [Math_T] (base/type.hpp:550-550). *)
Inductive Math_T := MATH_SUM | MATH_MAX | MATH_MIN | MATH_MEAN.
Definition Math_of (i : Z) : option Math_T := at_int [MATH_SUM; MATH_MAX; MATH_MIN; MATH_MEAN] i.
Definition math_op (t : Math_T) : math_meta_t -> value_t -> option math_meta_t :=
  match t with MATH_SUM | MATH_MEAN => math_sum | MATH_MAX => math_max | MATH_MIN => math_min end.
Fixpoint math_values (op : math_meta_t -> value_t -> option math_meta_t) (d : math_meta_t) (vs : list value_t) : option math_meta_t :=
  match vs with [] => Some d | v :: vs' => d ← op d v; math_values op d vs' end.
Definition math_pair (m : Meta) (op : math_meta_t -> value_t -> option math_meta_t) (t : list (Z * math_meta_t)) (p : pair_t)
  : option (list (Z * math_meta_t)) :=
  '(bv, h) ← at_branch m p.1 true;
  d ← math_values op (default (mk_math 0 value_default h) (tab_find bv t)) p.2;
  Some (tab_set bv d t).
(** [MathExpert::do_work] (expert/barrier_expert.cpp:663-723); [math_data]
    (expert/barrier_expert.hpp:380-384) is its data. *)
Definition Math_do_work (qplan : QueryPlan) (msg : Message) (ready : bool) (t : list (Z * math_meta_t)) (w : world)
  : option (list (Z * math_meta_t) * Message * world) :=
  e ← expert_at (experts qplan) (step (meta msg));
  match params e with
  | [k] =>
      i ← value_t2int k; math_type ← Math_of i;
      t ← each_pair (math_pair (meta msg) (math_op math_type)) t (data msg);
      finish ready t qplan msg
        (mapM (fun d => vs ← (if 0 <? mm_count d then v ← math_to_double d (match math_type with MATH_MEAN => true | _ => false end); Some [v]
                              else Some []);
                        Some (mm_history d, vs)) (walk t)) w
  | _ => None
  end.
End Experts.
