(* ===== verification/BarrierResults.v ===== *)
(** * What the barrier experts compute

    Theorems about the experts of [BarrierExperts] in a run of [Barrier]: the
    result that is passed on when the last message of a query arrives, in terms
    of the data of all its messages. *)
From S2P Require Import Prelude MyMath Types Serialization Wire ToolValue Predicate ExecPlan.
From S2P Require Import TrxStatus RunningTrx Coordinator Rct InputSet TrxStub Affinity Routing Barrier DataStorage BarrierExperts.
Local Open Scope Z_scope.
Local Open Scope word_scope.

(** ** Tables of branch values *)

Section TableFacts.
Context {A : Type}.
Implicit Types (m : list (Z * A)).

Lemma tab_find_set k k' a m : tab_find k' (tab_set k a m) = if k' =? k then Some a else tab_find k' m.
Proof.
  induction m as [|[k1 a1] m IH]; cbn; [by destruct (k' =? k)|].
  destruct (Z.eqb_spec k k1) as [->|Hk]; cbn; [by destruct (Z.eqb_spec k' k1)|].
  rewrite IH. destruct (Z.eqb_spec k' k1) as [->|]; [|done]. destruct (Z.eqb_spec k1 k); congruence.
Qed.
Lemma tab_find_none k m : tab_find k m = None <-> k ∉ m.*1.
Proof.
  induction m as [|[k1 a1] m IH]; cbn; [set_solver|]. destruct (Z.eqb_spec k k1) as [->|]; [set_solver|].
  rewrite IH. set_solver.
Qed.
Lemma tab_set_keys k a m : (tab_set k a m).*1 = if decide (k ∈ m.*1) then m.*1 else m.*1 ++ [k].
Proof.
  induction m as [|[k1 a1] m IH]; cbn; [done|]. destruct (Z.eqb_spec k k1) as [->|Hk]; cbn.
  - by rewrite decide_True by set_solver.
  - rewrite IH. case_decide; case_decide; try done; set_solver.
Qed.
Lemma tab_set_NoDup k a m : NoDup m.*1 -> NoDup (tab_set k a m).*1.
Proof.
  intros H. rewrite tab_set_keys. case_decide; [done|]. apply NoDup_app. split_and!; [done|set_solver|apply NoDup_singleton].
Qed.
Lemma tab_find_elem k a m : NoDup m.*1 -> tab_find k m = Some a <-> (k, a) ∈ m.
Proof.
  induction m as [|[k1 a1] m IH]; cbn; intros Hn; [set_solver|]. apply NoDup_cons in Hn as [Hk Hn].
  rewrite elem_of_cons. destruct (Z.eqb_spec k k1) as [->|Hne].
  - split; [intros [= ->]; by left|]. intros [[= ->]|Hin]; [done|]. exfalso. apply Hk.
    apply list_elem_of_fmap. by exists (k1, a).
  - rewrite IH by done. split; [by right|]. intros [[= -> ->]|]; done.
Qed.
Lemma tab_set_same k a m : tab_find k m = Some a -> tab_set k a m = m.
Proof.
  induction m as [|[k1 a1] m IH]; cbn; [done|]. destruct (Z.eqb_spec k k1) as [->|]; [by intros [= ->]|]. intros H. by rewrite IH.
Qed.
(** Walking a table visits its entries in some order. *)
Lemma walk_entries bucket_order m :
  (forall l, bucket_order l ≡ₚ l) -> NoDup m.*1 -> exists es, es ≡ₚ m /\ walk bucket_order m = es.*2.
Proof.
  intros Hb Hn. unfold walk. exists (omap (fun k => pair k <$> tab_find k m) (bucket_order (m.*1))). split.
  - rewrite Hb. clear Hb. enough (forall m', m' ⊆ m -> omap (fun k => pair k <$> tab_find k m) (m'.*1) = m') as -> by done.
    intros m' Hs. induction m' as [|[k a] m' IH]; [done|]. cbn.
    rewrite (proj2 (tab_find_elem k a m Hn)) by set_solver. cbn. f_equal. apply IH. set_solver.
  - induction (bucket_order (m.*1)) as [|k l IH]; [done|]. cbn. destruct (tab_find k m); cbn; by rewrite IH.
Qed.
End TableFacts.

(** The branch value of data that arrives, and the data of one branch. *)
Definition branch_of (mp : Message * pair_t) : option Z := fst <$> at_branch (meta mp.1) mp.2.1 false.
Definition at_bv (bv : Z) (L : list (Message * pair_t)) : list (Message * pair_t) := filter (fun mp => branch_of mp = Some bv) L.
(** The data of messages. *)
Definition pairs_of (arr : list Message) : list (Message * pair_t) := arr ≫= fun m => pair m <$> data m.
Definition flat_of (L : list (Message * pair_t)) : list (history_t * value_t) := flat (snd <$> L).

Lemma at_bv_app bv L1 L2 : at_bv bv (L1 ++ L2) = at_bv bv L1 ++ at_bv bv L2.
Proof. apply filter_app. Qed.
Lemma flat_of_app L1 L2 : flat_of (L1 ++ L2) = flat_of L1 ++ flat_of L2.
Proof. unfold flat_of. by rewrite fmap_app, flat_app. Qed.
Lemma flat_of_one mp : flat_of [mp] = pair mp.2.1 <$> mp.2.2.
Proof. unfold flat_of. cbn [fmap list_fmap]. apply flat_single. Qed.
Lemma at_branch_value m h b bv h' : at_branch m h b = Some (bv, h') -> fst <$> at_branch m h false = Some bv.
Proof.
  unfold at_branch, get_branch_value, get_history_value. destruct (get_branch_key m <? 0); [by intros [= <- <-]|].
  destruct (his_upto h _) as [[v hu]|]; [|by intros [= <- <-]].
  destruct (value_t2int v); [|done]. cbn. destruct b; by intros [= <- <-].
Qed.

(** A table with one entry per branch value of the data, each of which is right
    for the data of its branch. *)
Definition table_ok {A} (P : list (Message * pair_t) -> A -> Prop) (L : list (Message * pair_t)) (t : list (Z * A)) : Prop :=
  NoDup t.*1 /\ (forall bv, bv ∈ t.*1 <-> at_bv bv L <> []) /\ (forall bv a, (bv, a) ∈ t -> P (at_bv bv L) a).

Lemma table_ok_nil {A} (P : list (Message * pair_t) -> A -> Prop) : table_ok P [] [].
Proof. split_and!; [constructor| |]; cbn; set_solver. Qed.
Lemma table_ok_set {A} (P : list (Message * pair_t) -> A -> Prop) L t mp bv a :
  table_ok P L t -> branch_of mp = Some bv ->
  (forall o, tab_find bv t = o -> match o with Some a0 => P (at_bv bv L) a0 | None => at_bv bv L = [] end -> P (at_bv bv L ++ [mp]) a) ->
  table_ok P (L ++ [mp]) (tab_set bv a t).
Proof.
  intros (Hn & Hk & Hp) Hb Ha.
  assert (forall k, at_bv k (L ++ [mp]) = at_bv k L ++ if k =? bv then [mp] else []) as Hat.
  { intros k. rewrite at_bv_app. f_equal. unfold at_bv. cbn. case_decide as E; rewrite Hb in E.
    - injection E as ->. by rewrite Z.eqb_refl.
    - destruct (Z.eqb_spec k bv); [congruence|done]. }
  split_and!.
  - by apply tab_set_NoDup.
  - intros k. rewrite tab_set_keys, Hat. specialize (Hk k). destruct (Z.eqb_spec k bv) as [->|Hne].
    + split; [intros _; by destruct (at_bv bv L)|]. intros _. case_decide; set_solver.
    + rewrite app_nil_r, <- Hk. case_decide; set_solver.
  - intros k b Hin. apply tab_find_elem in Hin; [|by apply tab_set_NoDup]. rewrite tab_find_set in Hin. rewrite Hat.
    destruct (Z.eqb_spec k bv) as [->|Hne].
    + injection Hin as <-. apply (Ha (tab_find bv t)); [done|]. destruct (tab_find bv t) as [a0|] eqn:E.
      * apply Hp. by apply tab_find_elem.
      * apply tab_find_none in E. rewrite Hk in E. destruct (at_bv bv L); [done|]. exfalso. by apply E.
    + rewrite app_nil_r. apply Hp. by apply tab_find_elem.
Qed.
Lemma table_ok_perm {A} (P : list (Message * pair_t) -> A -> Prop) L t t' : t' ≡ₚ t -> table_ok P L t -> table_ok P L t'.
Proof.
  intros Hp (Hn & Hk & Ha). split_and!.
  - by rewrite Hp.
  - intros bv. by rewrite Hp.
  - intros bv a Hin. apply Ha. by rewrite <- Hp.
Qed.

(** ** Collecting *)

Section Collected.
Context {T : Type} (t0 : T) (do_work : QueryPlan -> Message -> bool -> T -> world -> option (T * Message * world)).
Context (I : list (Message * pair_t) -> T -> Prop).

Lemma each_pair_inv {S} (J : list (Message * pair_t) -> S -> Prop) (f : S -> pair_t -> option S) m L t d t' :
  (forall L t p t', J L t -> f t p = Some t' -> J (L ++ [(m, p)]) t') ->
  J L t -> each_pair f t d = Some t' -> J (L ++ (pair m <$> d)) t'.
Proof.
  intros Hf. revert L t. induction d as [|p d IH]; intros L t Ht E; cbn in E.
  - injection E as <-. cbn. by rewrite app_nil_r.
  - destruct (f t p) as [t1|] eqn:Ef; [|done]. cbn [mbind option_bind] in E.
    specialize (IH (L ++ [(m, p)]) t1 ltac:(by eapply Hf) E). by rewrite <- app_assoc in IH.
Qed.

Lemma gathered_inv qplan arr t :
  I [] t0 ->
  (forall m b t w t' m' w' L, m ∈ arr -> I L t -> do_work qplan m b t w = Some (t', m', w') -> I (L ++ (pair m <$> data m)) t') ->
  gathered t0 do_work qplan arr t -> I (pairs_of arr) t.
Proof.
  intros H0 Hs H. induction H as [|arr t m w t' m' w' H IH E]; [done|].
  unfold pairs_of. rewrite bind_app. cbn. rewrite app_nil_r. eapply (Hs m); [set_solver| |exact E]. apply IH.
  intros m1 b t1 w1 t2 m2 w2 L Hin. apply Hs. set_solver.
Qed.

(** The last message: the work on it, with the data of all others gathered. *)
Definition last_message (m : Message) (e : list Z) : Message := set_meta m (set_path (meta m) e).
Lemma collected_last size qplan key e m s arr w s' m' w' :
  collecting t0 do_work size qplan key e [m] s arr ->
  barrier_process t0 do_work qplan m s w = Some (s', m', w') ->
  I [] t0 ->
  (forall m1 b t w t' m' w' L, m1 ∈ arr ++ [last_message m e] -> I L t -> do_work qplan m1 b t w = Some (t', m', w') ->
     I (L ++ (pair m1 <$> data m1)) t') ->
  exists t t' m1, gathered t0 do_work qplan arr t /\ do_work qplan (last_message m e) true t w = Some (t', m1, w') /\
    to_next_barrier qplan m1 = Some m' /\ I (pairs_of (arr ++ [last_message m e])) t'.
Proof.
  intros H E H0 Hs. apply collecting_inv in H.
  destruct (collect_process _ _ _ _ _ [] m [] s arr w H) as (t & _ & _ & _ & c & Hg & Ep & _).
  rewrite E in Ep. cbn in Ep. fold (last_message m e) in Ep.
  destruct (do_work qplan (last_message m e) true t w) as [[[t' m1] w1]|] eqn:Ew; [|done]. cbn [mbind option_bind] in Ep.
  destruct (to_next_barrier qplan m1) as [m2|] eqn:En; [|done]. injection Ep as -> -> ->.
  exists t, t', m1. split_and!; try done. unfold pairs_of. rewrite bind_app. cbn. rewrite app_nil_r.
  eapply (Hs (last_message m e)); [set_solver| |exact Ew]. eapply gathered_inv; [done| |exact Hg].
  intros m3 b t1 w3 t2 m4 w2 L Hin. apply Hs. set_solver.
Qed.
End Collected.

Lemma finish_spec size {T} ready (t : T) qplan msg res w t' m' w' :
  finish size ready t qplan msg res w = Some (t', m', w') ->
  t' = t /\ (ready = true -> exists d, res = Some d /\ pass_on size qplan msg d w = Some (m', w')).
Proof.
  unfold finish. destruct ready; [|by intros [= <- <- <-]]. destruct res as [d|]; [|done]. cbn [mbind option_bind].
  destruct (pass_on _ _ _ _ _) as [[m1 w1]|] eqn:E; [|done]. intros [= <- <- <-]. split; [done|]. intros _. by exists d.
Qed.
Lemma int_of_spec z z' : int_of z = Some z' -> z' = z /\ - 2 ^ 31 <= z < 2 ^ 31.
Proof. unfold int_of. destruct (_ && _) eqn:E; [|done]. intros [= <-]. apply andb_true_iff in E. split; [done|lia]. Qed.

Lemma mapM_all {A B} (f : A -> option B) (g : A -> B) l : (forall x, x ∈ l -> f x = Some (g x)) -> mapM f l = Some (g <$> l).
Proof. intros H. induction l as [|x l IH]; [done|]. cbn. rewrite H by set_solver. cbn. rewrite IH by set_solver. done. Qed.

(** ** Count *)

Definition pair_count (p : pair_t) : Z := match p.2 with [] => 0 | v :: _ => default 0 (value_t2int v) end.
Definition counts (L : list (Message * pair_t)) : Z := foldr Z.add 0 ((fun mp => pair_count mp.2) <$> L).
Lemma counts_snoc L mp : counts (L ++ [mp]) = counts L + pair_count mp.2.
Proof. unfold counts. rewrite fmap_app, foldr_app. cbn. rewrite Z.add_0_r. induction L as [|x L IH]; cbn; [lia|]. rewrite IH. lia. Qed.
Definition counted_ok (L : list (Message * pair_t)) (hc : history_t * Z) : Prop := hc.2 = counts L /\ - 2 ^ 31 <= hc.2 < 2 ^ 31.

Lemma count_pair_ok m L t p t' : table_ok counted_ok L t -> count_pair (meta m) t p = Some t' -> table_ok counted_ok (L ++ [(m, p)]) t'.
Proof.
  unfold count_pair. intros Ht E.
  destruct (match p.2 with [] => _ | v :: _ => _ end) as [c|] eqn:Ec; [|done]. cbn [mbind option_bind] in E.
  destruct (at_branch _ _ _) as [[bv h]|] eqn:Eb; [|done]. cbn [mbind option_bind] in E.
  assert (pair_count p = c) as Hc by (unfold pair_count; destruct (p.2); [by injection Ec|by rewrite Ec]).
  destruct (tab_find bv t) as [[h0 c0]|] eqn:Ef; cbn [default] in E; unfold id in E.
  all: destruct (int_of _) as [c1|] eqn:Ei; [|done]; cbn [mbind option_bind] in E; injection E as <-; apply int_of_spec in Ei as [-> Hr].
  all: apply table_ok_set; [done|by eapply at_branch_value|]; rewrite Ef; intros o <- Ho; split; cbn [snd]; try done;
    rewrite counts_snoc; cbn [snd]; rewrite Hc.
  - destruct Ho as [Ho _]. cbn [snd] in Ho. lia.
  - by rewrite Ho.
Qed.

(** Counting is exact: when the last message of a query arrives, the count
    expert passes on one count per branch value (one in all outside of
    branches), and it is the sum of the counts of all messages that arrived. *)
Theorem count_exact size bucket_order qplan key e m s arr w s' m' w' :
  (forall l, bucket_order l ≡ₚ l) ->
  collecting [] (Count_do_work size bucket_order) size qplan key e [m] s arr ->
  barrier_process [] (Count_do_work size bucket_order) qplan m s w = Some (s', m', w') ->
  exists es m1, table_ok counted_ok (pairs_of (arr ++ [last_message m e])) es /\
    pass_on size qplan (last_message m e) ((fun x => (x.2.1, [int2value_t x.2.2 value_default])) <$> es) w = Some (m1, w') /\
    to_next_barrier qplan m1 = Some m'.
Proof.
  intros Hb H E. destruct (collected_last _ _ (table_ok counted_ok) _ _ _ _ _ _ _ _ _ _ _ H E) as (t & t' & m1 & _ & Ew & En & Ht).
  { apply table_ok_nil. }
  { intros m2 b t w1 t' m3 w2 L _ HL Ew. unfold Count_do_work in Ew. destruct (each_pair _ _ _) as [t1|] eqn:Ee; [|done].
    apply finish_spec in Ew as [-> _]. eapply each_pair_inv; [|exact HL|exact Ee]. intros. by eapply count_pair_ok. }
  unfold Count_do_work in Ew. destruct (each_pair _ _ _) as [t1|]; [|done]. cbn [mbind option_bind] in Ew. apply finish_spec in Ew as [-> Hf].
  destruct (Hf eq_refl) as (d & Ed & Ep). destruct (walk_entries bucket_order t1 Hb (proj1 Ht)) as (es & Hes & Hw).
  exists es, m1. pose proof (table_ok_perm _ _ _ _ Hes Ht) as Hok. split_and!; [done| |done]. rewrite <- Ep. f_equal.
  rewrite Hw in Ed. rewrite (mapM_all _ (fun hc => (hc.1, [int2value_t hc.2 value_default]))) in Ed.
  - injection Ed as <-. by rewrite <- list_fmap_compose.
  - intros hc ([bv hc'] & -> & Hin)%list_elem_of_fmap. destruct Hok as (_ & _ & Hc). destruct (Hc _ _ Hin) as [_ Hr].
    cbn [snd]. unfold str2int. by rewrite atoi_to_string by lia.
Qed.

(** ** Filing values under their histories *)

Definition same_his (h h' : history_t) : Prop := h = h' \/ his_eq h h' = Some true.
Definition filed_as (x y : history_t * value_t) : Prop := same_his x.1 y.1 /\ x.2 = y.2.
(** The entries hold these values, in any order, under their histories. *)
Definition filed (vec : list pair_t) (l : list (history_t * value_t)) : Prop := exists l', flat vec ≡ₚ l' /\ Forall2 filed_as l' l.
(** Only a single entry has no values at the front. *)
Definition slots_ok (vec : list pair_t) : Prop := match vec with (_, []) :: _ :: _ => False | _ => True end.

Lemma find_his_spec vec h i : find_his vec h = Some (Some i) -> exists p, vec !! i = Some p /\ his_eq p.1 h = Some true.
Proof.
  revert i. induction vec as [|p vec IH]; intros i H; cbn in H; [done|]. destruct (his_eq p.1 h) as [[]|] eqn:E; [|cbn in H|done].
  - injection H as <-. by exists p.
  - destruct (find_his vec h) as [[j|]|] eqn:Ef; try done. injection H as <-. by apply IH.
Qed.
Lemma flat_push vec i p vs : vec !! i = Some p -> flat (push_values vec i vs) ≡ₚ flat vec ++ (pair p.1 <$> vs).
Proof.
  revert i. induction vec as [|q vec IH]; intros [|i] H; try done.
  - injection H as ->. unfold push_values. cbn [alter list_alter]. rewrite !flat_cons. cbn [fst snd]. rewrite fmap_app, <- !app_assoc.
    by rewrite (Permutation_app_comm (pair p.1 <$> vs) (flat vec)).
  - unfold push_values in *. cbn [alter list_alter]. rewrite !flat_cons, <- app_assoc. f_equiv. by apply IH.
Qed.

Lemma slot_of_spec vec h vec' i :
  slots_ok vec -> slot_of vec h = Some (vec', i) ->
  exists p, vec' !! i = Some p /\ same_his p.1 h /\ flat vec' = flat vec /\ (forall vs, slots_ok (push_values vec' i vs)).
Proof.
  unfold slot_of. intros Hok E. destruct vec as [|[h0 [|v0 vs0]] vec].
  - injection E as <- <-. exists (h, []). split_and!; try done; [by left|]. by intros [].
  - injection E as <- <-. exists (h, []). split_and!; try done; [by left| |by intros []].
    destruct vec; [done|]. by destruct Hok.
  - destruct (find_his _ h) as [[j|]|] eqn:Ef; [| |done]; cbn [mbind option_bind] in E; injection E as <- <-.
    + destruct (find_his_spec _ _ _ Ef) as (p & Hp & Hh). exists p. split_and!; [done|by right|done|].
      intros vs. unfold push_values. destruct j as [|j]; cbn; done.
    + exists (h, []). split_and!; [|by left| |].
      * by apply (list_lookup_middle ((h0, v0 :: vs0) :: vec) [] (h, [])).
      * change (flat (((h0, v0 :: vs0) :: vec) ++ [(h, [])]) = flat ((h0, v0 :: vs0) :: vec)). rewrite flat_app. apply app_nil_r.
      * intros vs. unfold push_values. cbn. done.
Qed.
(** Values are filed in the slot of their history. *)
Lemma filed_push vec h vec' i l vs :
  slots_ok vec -> slot_of vec h = Some (vec', i) -> filed vec l ->
  filed (push_values vec' i vs) (l ++ (pair h <$> vs)) /\ slots_ok (push_values vec' i vs).
Proof.
  intros Hok E (l' & Hl & Hf). destruct (slot_of_spec _ _ _ _ Hok E) as (p & Hp & Hh & Hv & Hok'). split; [|done].
  exists (l' ++ (pair p.1 <$> vs)). split; [rewrite (flat_push _ _ _ _ Hp), Hv; by rewrite Hl|].
  apply Forall2_app; [done|]. induction vs; cbn; constructor; done.
Qed.

(** ** Range *)

Lemma range_values_spec start end_ c vs c' r :
  0 <= c -> range_values start end_ c vs = Some (c', r) ->
  r = drop (Z.to_nat (start - c)) (take (Z.to_nat (end_ + 1 - c)) vs) /\
  c' = c + Z.of_nat (length (take (Z.to_nat (end_ + 1 - c)) vs)).
Proof.
  revert c c' r. induction vs as [|v vs IH]; intros c c' r Hc E; cbn in E.
  { injection E as <- <-. rewrite take_nil, drop_nil. cbn. split; [done|lia]. }
  destruct (Z.ltb_spec end_ c).
  { injection E as <- <-. replace (Z.to_nat (end_ + 1 - c)) with 0%nat by lia. cbn. rewrite drop_nil. split; [done|lia]. }
  destruct (int_of (c + 1)) as [c1|] eqn:Ei; [|done]. apply int_of_spec in Ei as [-> _]. cbn [mbind option_bind] in E.
  destruct (range_values start end_ (c + 1) vs) as [[n r1]|] eqn:Er; [|done]. injection E as <- <-.
  destruct (IH (c + 1) n r1 ltac:(lia) Er) as [-> ->].
  replace (Z.to_nat (end_ + 1 - c)) with (S (Z.to_nat (end_ + 1 - (c + 1)))) by lia. cbn [take length]. split; [|lia].
  destruct (Z.leb_spec start c).
  - replace (Z.to_nat (start - c)) with 0%nat by lia. replace (Z.to_nat (start - (c + 1))) with 0%nat by lia. done.
  - replace (Z.to_nat (start - c)) with (S (Z.to_nat (start - (c + 1)))) by lia. done.
Qed.

(** The elements from one position up to another. *)
Definition slice {A} (start end_ : Z) (l : list A) : list A := drop (Z.to_nat start) (take (Z.to_nat (end_ + 1)) l).
Definition ranged (start end_ : Z) (L : list (Message * pair_t)) (cv : Z * list pair_t) : Prop :=
  cv.1 = Z.min (Z.of_nat (length (flat_of L))) (Z.max 0 (end_ + 1)) /\ slots_ok cv.2 /\ cv.2 <> [] /\
  filed cv.2 (slice start end_ (flat_of L)).

Lemma slice_app {A} start end_ (l1 l2 : list A) :
  let c := Z.min (Z.of_nat (length l1)) (Z.max 0 (end_ + 1)) in
  slice start end_ (l1 ++ l2) = slice start end_ l1 ++ drop (Z.to_nat (start - c)) (take (Z.to_nat (end_ + 1 - c)) l2).
Proof.
  cbn zeta. unfold slice. rewrite take_app, drop_app, length_take. f_equal.
  destruct (decide (Z.of_nat (length l1) <= end_ + 1)).
  - f_equal; [lia|]. f_equal. lia.
  - replace (Z.to_nat (end_ + 1) - length l1)%nat with 0%nat by lia.
    replace (Z.to_nat (end_ + 1 - _)) with 0%nat by lia. by rewrite !take_0, !drop_nil.
Qed.

Lemma range_pair_ok start end_ m L t p t' :
  table_ok (ranged start end_) L t -> range_pair (meta m) start end_ t p = Some t' -> table_ok (ranged start end_) (L ++ [(m, p)]) t'.
Proof.
  unfold range_pair. intros Ht E. destruct (at_branch _ _ _) as [[bv h]|] eqn:Eb; [|done]. cbn [mbind option_bind] in E.
  apply at_branch_value in Eb.
  assert (forall c vec, default (0, []) (tab_find bv t) = (c, vec) ->
    c = Z.min (Z.of_nat (length (flat_of (at_bv bv L)))) (Z.max 0 (end_ + 1)) /\ slots_ok vec /\ filed vec (slice start end_ (flat_of (at_bv bv L)))) as Hcv.
  { intros c vec. destruct (tab_find bv t) as [cv|] eqn:Ef; cbn; unfold id.
    - intros ->. apply tab_find_elem in Ef; [|apply Ht]. destruct (proj2 (proj2 Ht) _ _ Ef) as (H1 & H2 & _ & H3). done.
    - intros [= <- <-]. apply tab_find_none in Ef. destruct Ht as (_ & Hk & _). rewrite Hk in Ef.
      destruct (at_bv bv L) as [|x l]; [|exfalso; by apply Ef]. cbn. split_and!; [lia|done|]. exists [].
      unfold slice. rewrite take_nil, drop_nil. split; [done|constructor]. }
  destruct (default (0, []) (tab_find bv t)) as [c vec] eqn:Ed. destruct (Hcv c vec eq_refl) as (Hc & Hok & Hf). clear Hcv.
  assert (forall a, ranged start end_ (at_bv bv L ++ [(m, p)]) a -> table_ok (ranged start end_) (L ++ [(m, p)]) (tab_set bv a t)) as Hset.
  { intros a Ha. by apply table_ok_set. }
  assert (0 <= c) as Hc0 by lia. unfold ranged in Hset. rewrite flat_of_app, flat_of_one, length_app, length_fmap in Hset. cbn [fst snd] in Hset.
  rewrite slice_app, <- Hc in Hset. destruct (negb _ && _) eqn:Eskip.
  - injection E as <-. apply andb_true_iff in Eskip as [Hv He]. apply negb_true_iff, Nat.eqb_neq in Hv. apply Z.ltb_lt in He.
    destruct (tab_find bv t) as [cv|] eqn:Ef; cbn in Ed; unfold id in Ed; [|by injection Ed as <- <-]. subst cv.
    rewrite <- (tab_set_same _ _ _ Ef). apply Hset. cbn [fst snd]. split_and!; [lia|done|by destruct vec|].
    replace (Z.to_nat (end_ + 1 - c)) with 0%nat by lia. by rewrite take_0, drop_nil, app_nil_r.
  - destruct (slot_of vec p.1) as [[vec' i]|] eqn:Es; [|done]. cbn [mbind option_bind] in E.
    destruct (range_values start end_ c p.2) as [[c' vs]|] eqn:Er; [|done]. injection E as <-.
    destruct (range_values_spec _ _ _ _ _ _ Hc0 Er) as [-> ->].
    destruct (filed_push _ _ _ _ _ (drop (Z.to_nat (start - c)) (take (Z.to_nat (end_ + 1 - c)) p.2)) Hok Es Hf) as [Hf' Hok'].
    apply Hset. cbn [fst snd]. rewrite length_take. split_and!; [lia|done| |].
    + destruct (slot_of_spec _ _ _ _ Hok Es) as (q & Hq & _). intros En.
      destruct vec' as [|x vec']; [done|by destruct i].
    + rewrite fmap_drop, fmap_take in Hf'. done.
Qed.

(** The parameters of the expert of messages. *)
Definition with_params (qplan : QueryPlan) (ps : list value_t) (msgs : list Message) : Prop :=
  Forall (fun m => exists ex, expert_at (experts qplan) (step (meta m)) = Some ex /\ params ex = ps) msgs.
Lemma with_params_last qplan ps arr m e : with_params qplan ps (arr ++ [m]) -> with_params qplan ps (arr ++ [last_message m e]).
Proof. intros [H1 [H2 _]%Forall_cons]%Forall_app. apply Forall_app. split; [done|]. by constructor. Qed.
Lemma with_params_at qplan ps msgs m :
  with_params qplan ps msgs -> m ∈ msgs -> exists ex, expert_at (experts qplan) (step (meta m)) = Some ex /\ params ex = ps.
Proof. unfold with_params. rewrite Forall_forall. auto. Qed.

(** The range expert keeps exactly the values from position [start] to
    position [end] (to the last one for -1) in the order of their arrival, for
    each branch value, and files each under its history. *)
Theorem range_exact size bucket_order qplan key e m s arr w s' m' w' vstart vend start end_ :
  (forall l, bucket_order l ≡ₚ l) -> with_params qplan [vstart; vend] (arr ++ [m]) ->
  value_t2int vstart = Some start -> value_t2int vend = Some end_ ->
  collecting [] (Range_do_work size bucket_order) size qplan key e [m] s arr ->
  barrier_process [] (Range_do_work size bucket_order) qplan m s w = Some (s', m', w') ->
  exists es m1, table_ok (ranged start (if end_ =? -1 then 2 ^ 31 - 1 else end_)) (pairs_of (arr ++ [last_message m e])) es /\
    pass_on size qplan (last_message m e) (concat (es.*2.*2)) w = Some (m1, w') /\
    to_next_barrier qplan m1 = Some m'.
Proof.
  intros Hb Hps Es Ee H E. set (en := if end_ =? -1 then 2 ^ 31 - 1 else end_).
  pose proof (with_params_last _ _ _ _ e Hps) as Hps'.
  assert (forall m1 b t w t' m2 w2, m1 ∈ arr ++ [last_message m e] -> Range_do_work size bucket_order qplan m1 b t w = Some (t', m2, w2) ->
    each_pair (range_pair (meta m1) start en) t (data m1) = Some t' /\
    (b = true -> pass_on size qplan m1 (concat (snd <$> walk bucket_order t')) w = Some (m2, w2))) as Hwork.
  { intros m1 b t w1 t' m2 w2 Hin Ew. destruct (with_params_at _ _ _ m1 Hps' Hin) as (ex & Hex & Hpx). unfold Range_do_work in Ew. rewrite Hex in Ew. cbn [mbind option_bind] in Ew.
    rewrite Hpx, Es, Ee in Ew. cbn [mbind option_bind] in Ew. fold en in Ew. destruct (each_pair _ _ _) as [t1|]; [|done].
    cbn [mbind option_bind] in Ew. apply finish_spec in Ew as [-> Hf]. split; [done|]. intros Hb1.
    destruct (Hf Hb1) as (d & [= <-] & Ep). done. }
  destruct (collected_last _ _ (table_ok (ranged start en)) _ _ _ _ _ _ _ _ _ _ _ H E) as (t & t' & m1 & _ & Ew & En & Ht).
  { apply table_ok_nil. }
  { intros m2 b t w1 t' m3 w2 L Hin HL Ew. destruct (Hwork _ _ _ _ _ _ _ Hin Ew) as [Hp _].
    eapply each_pair_inv; [|exact HL|exact Hp]. intros. by eapply range_pair_ok. }
  destruct (Hwork (last_message m e) true t w t' m1 w') as [_ Hp]; [set_solver|done|].
  destruct (walk_entries bucket_order t' Hb (proj1 Ht)) as (es & Hes & Hw). specialize (Hp eq_refl). rewrite Hw in Hp.
  exists es, m1. split_and!; [by eapply table_ok_perm|done|done].
Qed.

(** ** End *)

Definition is_abort_msg (m : Message) : bool := bool_decide (msg_type (meta m) = M_ABORT).
(** The data that an abort replies with. *)
Definition abort_data (m : Message) : list value_t := match data m with [] => [] | p :: _ => take 1 p.2 end.
Definition abort_readable (m : Message) : Prop := is_abort_msg m = true -> match data m with [] => True | p :: _ => p.2 <> [] end.
(** The replies when [m] arrives after [arr]. *)
Definition end_replies (m : Message) (arr : list Message) (final : bool) : list (Z * list value_t * ReplyType) :=
  if existsb is_abort_msg arr then []
  else if is_abort_msg m then [(qid (meta m), abort_data m, RESULT_ABORT)]
  else if final then [(qid (meta m), (arr ++ [m]) ≫= fun m => all_values (data m), RESULT_NORMAL)] else [].

Lemma existsb_snoc {A} (f : A -> bool) l x : existsb f (l ++ [x]) = existsb f l || f x.
Proof. rewrite existsb_app. cbn. by rewrite orb_false_r. Qed.

Lemma end_gathered qplan arr t :
  gathered (mk_end [] false) End_do_work qplan arr t ->
  is_abort t = existsb is_abort_msg arr /\ (is_abort t = false -> result t = arr ≫= fun m => all_values (data m)).
Proof.
  induction 1 as [|arr t m w t' m' w' H [IH1 IH2] E]; [done|]. rewrite existsb_snoc, bind_app, <- IH1. cbn. rewrite app_nil_r.
  unfold End_do_work in E. unfold is_abort_msg. case_decide as Ea.
  - rewrite bool_decide_true, orb_true_r by done. destruct (is_abort t) eqn:Et; [injection E as <- _ _; by rewrite Et|].
    destruct (match data m with [] => _ | _ => _ end); [|done]. by injection E as <- _ _.
  - rewrite bool_decide_false, orb_false_r by done. destruct (is_abort t) eqn:Et; [injection E as <- _ _; by rewrite Et|].
    injection E as <- _ _. cbn. by rewrite IH2.
Qed.

(** A query is answered exactly once, with everything that was found: while
    messages are in flight, only the first abort that arrives is answered; the
    last message is answered with the values of all messages, unless an abort
    has been. *)
Theorem end_replies_once size qplan key e l1 m l2 s arr w ex :
  collecting (mk_end [] false) End_do_work size qplan key e (l1 ++ m :: l2) s arr ->
  abort_readable m -> expert_at (experts qplan) (step (meta m)) = Some ex -> expert_at (experts qplan) (next_expert ex) = None ->
  exists s' m' w', barrier_process (mk_end [] false) End_do_work qplan m s w = Some (s', m', w') /\
    w_replies w' = w_replies w ++ end_replies m arr (bool_decide (l1 ++ l2 = [])).
Proof.
  intros H Hr Hex Hnx. apply collecting_inv in H. destruct (collect_process _ _ _ _ _ _ _ _ _ _ w H) as (t & _ & _ & _ & c & Hg & -> & _).
  cbv zeta. destruct (end_gathered _ _ _ Hg) as [Ha Hres]. set (ready := bool_decide (l1 ++ l2 = [])). clearbody ready.
  set (m0 := if ready then set_meta m (set_path (meta m) e) else m).
  assert (qid (meta m0) = qid (meta m) /\ msg_type (meta m0) = msg_type (meta m) /\ data m0 = data m /\ step (meta m0) = step (meta m))
    as (Eq & Et & Ed & Est) by by destruct ready.
  assert (exists t' w', End_do_work qplan m0 ready t w = Some (t', m0, w') /\ w_replies w' = w_replies w ++ end_replies m arr ready) as (t' & w' & -> & Hw).
  { unfold End_do_work, end_replies. rewrite Et, Ed, Eq, <- Ha. unfold abort_readable, is_abort_msg in *. case_decide as Em.
    - rewrite bool_decide_true by done. destruct (is_abort t); [eexists _, _; by rewrite app_nil_r|].
      rewrite bool_decide_true in Hr by done. specialize (Hr eq_refl). unfold abort_data.
      destruct (data m) as [|[h [|v vs]] d]; [by eexists _, _| by destruct Hr|by eexists _, _].
    - rewrite bool_decide_false by done. destruct (is_abort t); [eexists _, _; by rewrite app_nil_r|].
      destruct ready; eexists _, _; (split; [done|]); [|by rewrite app_nil_r].
      cbn. rewrite Hres by done. by rewrite bind_app, bind_singleton. }
  cbn [mbind option_bind]. destruct ready; [|by eexists _, _, _].
  assert (to_next_barrier qplan m0 = Some m0) as ->.
  { unfold to_next_barrier, is_next_barrier. rewrite Est, Hex. cbn [mbind option_bind]. by rewrite Hnx. }
  by eexists _, _, _.
Qed.

(** ** Post-validation *)

Section Votes.
Context {main indirect : nat} (stub : TrxTableStub main indirect) (table : TrxTable) (rank size : Z).

Lemma votes_gathered qplan arr t :
  gathered false (PostValidation_do_work rank size stub table) qplan arr t -> t = existsb is_abort_msg arr.
Proof.
  induction 1 as [|arr t m w t' m' w' H IH E]; [done|]. rewrite existsb_snoc, <- IH.
  unfold PostValidation_do_work in E. by injection E as <- _ _.
Qed.

(** The decision that is sent to a worker. *)
Definition decision_msg (m : Message) (t : MSG_T) (d : list pair_t) (n : nat) : Message :=
  mk_msg (set_nid (set_path (set_tid (set_type (set_step (meta m) (step (meta m) + 1)) t) (parent_tid (meta m)))
    (to_string_int (Z.of_nat (Z.to_nat size)))) (Z.of_nat n)) d 1048576 8.

(** C6: a transaction commits only when every worker has voted for it: the
    post-validation expert sends nothing while votes are in flight; with the last
    one, it sends a commit with the commit time to every worker, and asks for the
    status committed, if no vote was an abort, and an abort to every worker
    otherwise. *)
Theorem votes_decide qplan key e l1 m l2 s arr w en :
  collecting false (PostValidation_do_work rank size stub table) size qplan key e (l1 ++ m :: l2) s arr ->
  is_next_barrier (experts qplan) (step (meta m)) = Some false ->
  (0 < main)%nat -> reachable_table main indirect table -> IS_VALID_TRX_ID (trxid qplan) = true -> fits 64 (trxid qplan) ->
  trx_map table !! trxid qplan = Some en -> getState en = Some VALIDATING -> fits 64 (ct en) -> ct en <> 0 ->
  exists s' m' w', barrier_process false (PostValidation_do_work rank size stub table) qplan m s w = Some (s', m', w') /\
    (l1 ++ l2 <> [] -> w' = w) /\
    (l1 ++ l2 = [] ->
     if existsb is_abort_msg (arr ++ [m])
     then w_sent w' = w_sent w ++ (decision_msg m M_ABORT [] <$> seq 0 (Z.to_nat size)) /\ w_updates w' = w_updates w
     else w_sent w' = w_sent w ++ (decision_msg m M_COMMIT [([], [uint64_t2value_t (ct en) value_default])] <$> seq 0 (Z.to_nat size)) /\
       exists a, TrxStub.update_status rank size (trxid qplan) COMMITTED false = Some a /\ w_updates w' = w_updates w ++ [a]).
Proof.
  intros H Hnb Hm0 Hreach Hv Hf Hen Hst Hfc Hne.
  assert (stub_read_ct table (trxid qplan) = Some (Some (VALIDATING, ct en))) as Hct.
  { destruct (stub_law table (trxid qplan) en Hm0 Hreach Hv Hf Hen Hfc) as (st & c & Hs & _ & -> & Hc).
    rewrite Hst in Hs. injection Hs as <-. by rewrite Hc by by left. }
  apply collecting_inv in H. destruct (collect_process _ _ _ _ _ _ _ _ _ _ w H) as (t & _ & _ & _ & c & Hg & -> & _).
  cbv zeta. apply votes_gathered in Hg. case_bool_decide as Er.
  2: { eexists _, _, _. split; [done|]. split; [done|]. intros Ee. done. }
  rewrite existsb_snoc, <- Hg.
  unfold PostValidation_do_work at 1. cbn [meta msg_type set_meta set_path]. fold (is_abort_msg m).
  assert (forall m0, step (meta m0) = step (meta m) -> to_next_barrier qplan m0 = Some m0) as Hnext.
  { intros m0 Es. unfold to_next_barrier. rewrite Es, Hnb. done. }
  assert (forall t d, (fun m => with_data m d) <$> CreateBroadcastMsg (set_meta m (set_path (meta m) e)) t (Z.to_nat size)
    = decision_msg m t d <$> seq 0 (Z.to_nat size)) as Hbc.
  { intros t1 d. unfold CreateBroadcastMsg. rewrite <- list_fmap_compose. done. }
  destruct (t || is_abort_msg m) eqn:Ea.
  - cbn [mbind option_bind]. rewrite Hnext by done. cbn [mbind option_bind]. eexists _, _, _. split; [done|].
    split; [done|]. intros _. cbn. by rewrite Hbc.
  - unfold TrxStub.update_status. destruct (worker_known size (trxid qplan) Hv) as [wk Hwk].
    rewrite bool_decide_false, Hwk by done. cbn [mbind option_bind]. rewrite Hct.
    assert (exists a, (if wk =? rank then Some (Push (mk_upd rank (trxid qplan) COMMITTED false)) else
      Some (SendNotification wk (put_int UPDATE_STATUS ++ put_int rank ++ put_ull (trxid qplan) ++ put_int (stat_to_int COMMITTED) ++ put_bool false)))
      = Some a) as [a ->] by (destruct (wk =? rank); by eexists).
    cbn [mbind option_bind]. rewrite (proj2 (Z.eqb_neq _ _) Hne). cbn [mbind option_bind].
    rewrite Hnext by done. cbn [mbind option_bind]. eexists _, _, _. split; [done|].
    split; [done|]. intros _. cbn. rewrite Hbc. split; [done|]. by exists a.
Qed.
End Votes.

(** ** Order *)

(** What a value is ordered by. *)
Inductive okey := KNum (d : double) | KUint (u : Z) | KText (s : list Z).
Definition okey_of (v : value_t) : option okey :=
  if v_type v =? 1 then KNum ∘ double_of_int <$> value_t2int v
  else if v_type v =? 2 then d ← value_t2double v; match double_of_bits d with NaN => None | x => Some (KNum x) end
  else if v_type v =? 5 then KUint <$> value_t2uint64_t v
  else Some (KText (v_content v)).
Definition okey_lt (a b : okey) : bool :=
  match a, b with KNum x, KNum y => double_lt x y | KUint u, KUint v => u <? v | KText s, KText t => chars_lt s t | _, _ => false end.
Definition same_shape (a b : okey) : Prop :=
  match a, b with KNum x, KNum y => x <> NaN /\ y <> NaN | KUint _, KUint _ | KText _, KText _ => True | _, _ => False end.

Lemma fin_compare m e m' e' k :
  k <= e -> k <= e' -> double_compare (Fin m e) (Fin m' e') = Some (m * 2 ^ (e - k) ?= m' * 2 ^ (e' - k)).
Proof.
  intros H1 H2. cbn. f_equal. set (k0 := Z.min e e'). assert (k <= k0 /\ k0 <= e /\ k0 <= e') as (Hk & He & He') by (unfold k0; lia). clearbody k0.
  replace (2 ^ (e - k)) with (2 ^ (e - k0) * 2 ^ (k0 - k)) by (rewrite <- Z.pow_add_r by lia; f_equal; lia).
  replace (2 ^ (e' - k)) with (2 ^ (e' - k0) * 2 ^ (k0 - k)) by (rewrite <- Z.pow_add_r by lia; f_equal; lia).
  rewrite !Z.mul_assoc. apply Zmult_compare_compat_r. apply Z.lt_gt, Z.pow_pos_nonneg; lia.
Qed.
Lemma double_lt_asym x y : double_lt x y = true -> double_lt y x = false.
Proof.
  unfold double_lt. rewrite bool_decide_eq_true, bool_decide_eq_false. destruct x as [m e|a|], y as [m' e'|b|]; try by repeat match goal with b : bool |- _ => destruct b end.
  rewrite (fin_compare _ _ _ _ (Z.min e e')), (fin_compare m' _ _ _ (Z.min e e')) by lia.
    generalize (m * 2 ^ (e - Z.min e e')), (m' * 2 ^ (e' - Z.min e e')).
    intros p q [= H] [= H']. rewrite Z.compare_lt_iff in *. lia.
Qed.
Lemma double_le_trans x y z :
  x <> NaN -> y <> NaN -> z <> NaN -> double_lt y x = false -> double_lt z y = false -> double_lt z x = false.
Proof.
  unfold double_lt. rewrite !bool_decide_eq_false. destruct x as [m e|a|], y as [m' e'|b|], z as [m'' e''|c|]; intros Hx Hy Hz; try by repeat match goal with b : bool |- _ => destruct b end.
  set (k := Z.min e (Z.min e' e'')).
    rewrite (fin_compare m' _ _ _ k), (fin_compare m'' _ m' _ k), (fin_compare m'' _ m _ k) by (unfold k; lia).
    generalize (m * 2 ^ (e - k)), (m' * 2 ^ (e' - k)), (m'' * 2 ^ (e'' - k)). intros p q r H1 H2 [= H3]. rewrite Z.compare_lt_iff in H3.
    assert (~ q < p) by (intros H; apply H1; f_equal; by apply Z.compare_lt_iff).
    assert (~ r < q) by (intros H'; apply H2; f_equal; by apply Z.compare_lt_iff). lia.
Qed.
Lemma chars_le_trans a b c : chars_lt b a = false -> chars_lt c b = false -> chars_lt c a = false.
Proof.
  revert b c. induction a as [|x a IH]; intros [|y b] [|z c]; cbn; try done.
  destruct (Z.ltb_spec (swrap 8 y) (swrap 8 x)), (Z.ltb_spec (swrap 8 x) (swrap 8 y)), (Z.ltb_spec (swrap 8 z) (swrap 8 y)),
    (Z.ltb_spec (swrap 8 y) (swrap 8 z)), (Z.ltb_spec (swrap 8 z) (swrap 8 x)), (Z.ltb_spec (swrap 8 x) (swrap 8 z));
    try done; try lia. apply IH.
Qed.

Lemma double_lt_int i j : double_lt (double_of_int i) (double_of_int j) = (i <? j).
Proof.
  unfold double_lt. cbn. rewrite !Z.mul_1_r. destruct (Z.ltb_spec i j).
  - apply bool_decide_eq_true. f_equal. by apply Z.compare_lt_iff.
  - apply bool_decide_eq_false. intros [= E]. rewrite Z.compare_lt_iff in E. lia.
Qed.
(** Evaluating the reads of a hypothesis. *)
Ltac read_in H :=
  repeat (cbn [mbind option_bind fmap option_fmap option_map compose] in H;
    match type of H with
    | context [value_t2int ?v] => destruct (value_t2int v) eqn:?
    | context [value_t2double ?v] => destruct (value_t2double v) eqn:?
    | context [value_t2uint64_t ?v] => destruct (value_t2uint64_t v) eqn:?
    | context [double_of_bits ?d] => destruct (double_of_bits d) eqn:?
    end; try discriminate H).

Lemma tree_lt_keys a b r :
  tree_lt a b = Some r -> exists ka kb, okey_of a = Some ka /\ okey_of b = Some kb /\ same_shape ka kb /\ r = okey_lt ka kb.
Proof.
  unfold tree_lt, order_kind, okey_of, value_lt, compare_values. intros H.
  destruct (Z.eqb_spec (v_type a) 1) as [Ea|Ea]; [rewrite Ea in H|destruct (Z.eqb_spec (v_type a) 2) as [Ea2|Ea2];
    [rewrite Ea2 in H|destruct (Z.eqb_spec (v_type a) 5) as [Ea5|Ea5]; [rewrite Ea5 in H|]]];
  (destruct (Z.eqb_spec (v_type b) 1) as [Eb|Eb]; [rewrite Eb in H|destruct (Z.eqb_spec (v_type b) 2) as [Eb2|Eb2];
    [rewrite Eb2 in H|destruct (Z.eqb_spec (v_type b) 5) as [Eb5|Eb5]; [rewrite Eb5 in H|]]]).
  all: cbn [Z.eqb Pos.eqb negb andb] in H; read_in H; cbn [mbind option_bind Z.eqb Pos.eqb negb andb] in H; try discriminate H.
  all: try (destruct (negb _) in H); injection H as <-; cbn [mbind option_bind fmap option_fmap option_map compose];
    repeat match goal with E : double_of_bits _ = _ |- _ => rewrite E; clear E end;
    eexists _, _; (split; [done|]); (split; [done|]); (split; [done|]); cbn; by rewrite ?double_lt_int.
Qed.

(** The order of values: numbers by their values, others by their bytes. *)
Definition value_below (a b : value_t) : Prop :=
  exists ka kb, okey_of a = Some ka /\ okey_of b = Some kb /\ same_shape ka kb /\ okey_lt kb ka = false.
Lemma okey_lt_asym a b : okey_lt a b = true -> okey_lt b a = false.
Proof. destruct a, b; cbn; try done; [apply double_lt_asym|lia|apply chars_lt_asym]. Qed.
Lemma same_shape_sym a b : same_shape a b -> same_shape b a.
Proof. destruct a, b; cbn; naive_solver. Qed.
Definition value_less (a b : value_t) : Prop :=
  exists ka kb, okey_of a = Some ka /\ okey_of b = Some kb /\ same_shape ka kb /\ okey_lt ka kb = true.
Definition value_same (a b : value_t) : Prop := value_below a b /\ value_below b a.
Lemma okey_le_trans a b c : same_shape a b -> same_shape b c -> okey_lt b a = false -> okey_lt c b = false -> same_shape a c /\ okey_lt c a = false.
Proof.
  intros Hs Hs' Hl Hl'. split; destruct a, b, c; cbn in *; try done; [naive_solver| |lia|].
  - destruct Hs, Hs'. by apply (double_le_trans _ d0).
  - by apply (chars_le_trans _ s0).
Qed.
Lemma value_below_trans a b c : value_below a b -> value_below b c -> value_below a c.
Proof.
  intros (ka & kb & Ha & Hb & Hs & Hl) (kb' & kc & Hb' & Hc & Hs' & Hl'). rewrite Hb in Hb'. injection Hb' as <-.
  destruct (okey_le_trans _ _ _ Hs Hs' Hl Hl'). by exists ka, kc.
Qed.
Lemma value_less_trans a b c : value_less a b -> value_less b c -> value_less a c.
Proof.
  intros (ka & kb & Ha & Hb & Hs & Hl) (kb' & kc & Hb' & Hc & Hs' & Hl'). rewrite Hb in Hb'. injection Hb' as <-.
  destruct (okey_le_trans _ _ _ Hs Hs') as [Hs'' _]; [by apply okey_lt_asym..|]. exists ka, kc. split; [done|]. split; [done|]. split; [done|].
  destruct (okey_lt ka kc) eqn:E; [done|]. destruct (okey_le_trans kc ka kb) as [_ Hx]; [by apply same_shape_sym|done|done|by apply okey_lt_asym|]. congruence.
Qed.
Lemma tree_lt_less a b : tree_lt a b = Some true -> value_less a b.
Proof. intros (ka & kb & Ha & Hb & Hs & Hl)%tree_lt_keys. by exists ka, kb. Qed.
Lemma tree_lt_true a b : tree_lt a b = Some true -> value_below a b.
Proof. intros (ka & kb & Ha & Hb & Hs & Hl)%tree_lt_keys. exists ka, kb. split_and!; try done. by apply okey_lt_asym. Qed.
Lemma tree_lt_false a b : tree_lt a b = Some false -> value_below b a.
Proof. intros (ka & kb & Ha & Hb & Hs & Hl)%tree_lt_keys. exists kb, ka. split_and!; try done. by apply same_shape_sym. Qed.

Lemma ms_insert_spec v l l' : StronglySorted value_below l -> ms_insert v l = Some l' -> StronglySorted value_below l' /\ l' ≡ₚ v :: l.
Proof.
  intros Hs. revert l'. induction Hs as [|u l Hs IH Hu]; intros l' E; cbn in E.
  { injection E as <-. split; [repeat constructor|done]. }
  destruct (tree_lt v u) as [[]|] eqn:Et; [| |done]; cbn [mbind option_bind] in E.
  - injection E as <-. apply tree_lt_true in Et. split; [|done]. constructor; [by constructor|]. constructor; [done|].
    eapply Forall_impl; [exact Hu|]. intros x. by apply value_below_trans.
  - destruct (ms_insert v l) as [r|] eqn:Er; [|done]. injection E as <-. destruct (IH r eq_refl) as [Hr Hp]. split.
    + constructor; [done|]. rewrite Hp. constructor; [by apply tree_lt_false|done].
    + rewrite Hp. apply perm_swap.
Qed.
Lemma ms_insert_all_spec vs l l' :
  StronglySorted value_below l -> ms_insert_all vs l = Some l' -> StronglySorted value_below l' /\ l' ≡ₚ l ++ vs.
Proof.
  revert l. induction vs as [|v vs IH]; intros l Hs E; cbn in E.
  { injection E as <-. by rewrite app_nil_r. }
  destruct (ms_insert v l) as [l1|] eqn:E1; [|done]. cbn [mbind option_bind] in E.
  destruct (ms_insert_spec _ _ _ Hs E1) as [Hs1 Hp1]. destruct (IH _ Hs1 E) as [Hs2 Hp2]. split; [done|].
  rewrite Hp2, Hp1. by rewrite <- Permutation_middle.
Qed.

(** Sorted values that are those of the data. *)
Definition ordered_ok (L : list (Message * pair_t)) (hl : history_t * list value_t) : Prop :=
  StronglySorted value_below hl.2 /\ hl.2 ≡ₚ (flat_of L).*2.
(** Sorted by the value of a label in the history first. *)
Definition label_of (label_step : Z) (h : history_t) : value_t := default value_default (get_history_value h label_step false).1.
Definition labelled_ok (label_step : Z) (L : list (Message * pair_t)) (hg : history_t * list (value_t * list value_t)) : Prop :=
  StronglySorted value_less hg.2.*1 /\ Forall (fun kl => StronglySorted value_below kl.2) hg.2 /\
  exists l, (hg.2 ≫= fun kl => pair kl.1 <$> kl.2) ≡ₚ l /\
    Forall2 (fun kv hv => kv.2 = hv.2 /\ (kv.1 = label_of label_step hv.1 \/ value_same kv.1 (label_of label_step hv.1))) l (flat_of L).

Lemma order_push_spec key vs m m' :
  StronglySorted value_less m.*1 -> Forall (fun kl => StronglySorted value_below kl.2) m -> order_push key vs m = Some m' ->
  StronglySorted value_less m'.*1 /\ Forall (fun kl => StronglySorted value_below kl.2) m' /\
  (forall x, x ∈ m'.*1 -> x ∈ m.*1 \/ x = key) /\
  exists k, (k = key \/ value_same k key) /\ (m' ≫= fun kl => pair kl.1 <$> kl.2) ≡ₚ (m ≫= fun kl => pair kl.1 <$> kl.2) ++ (pair k <$> vs).
Proof.
  revert m'. induction m as [|[k l] m IH]; intros m' Hs Hl E; cbn in E.
  { destruct (ms_insert_all vs []) as [l'|] eqn:E1; [|done]. injection E as <-.
    destruct (ms_insert_all_spec vs [] l' (SSorted_nil _) E1) as [Hs1 Hp]. cbn. split_and!; [repeat constructor|by repeat constructor|set_solver|].
    exists key. split; [by left|]. rewrite app_nil_r. by rewrite Hp. }
  apply StronglySorted_inv in Hs as [Hs Hk]. apply Forall_cons in Hl as [Hl1 Hl].
  destruct (tree_lt key k) as [[]|] eqn:E1; [| |done]; cbn [mbind option_bind] in E.
  - destruct (ms_insert_all vs []) as [l'|] eqn:E2; [|done]. injection E as <-.
    destruct (ms_insert_all_spec vs [] l' (SSorted_nil _) E2) as [Hs1 Hp]. apply tree_lt_less in E1. split_and!.
    + cbn. constructor; [by constructor|]. constructor; [done|]. eapply Forall_impl; [exact Hk|]. intros x. by apply value_less_trans.
    + by repeat constructor.
    + set_solver.
    + exists key. split; [by left|]. cbn. rewrite Hp. cbn. apply Permutation_app_comm.
  - destruct (tree_lt k key) as [[]|] eqn:E2; [| |done]; cbn [mbind option_bind] in E.
    + destruct (order_push key vs m) as [r|] eqn:Er; [|done]. injection E as <-.
      destruct (IH r Hs Hl eq_refl) as (I1 & I2 & I3 & k' & I4 & I5). split_and!.
      * cbn. constructor; [done|]. apply Forall_forall. intros x Hx. rewrite Forall_forall in Hk. destruct (I3 x Hx) as [Hx' | ->]; [by apply Hk|].
        by apply tree_lt_less.
      * by constructor.
      * set_solver.
      * exists k'. split; [done|]. cbn. rewrite I5. by rewrite app_assoc.
    + destruct (ms_insert_all vs l) as [l'|] eqn:E3; [|done]. injection E as <-.
      destruct (ms_insert_all_spec vs l l' Hl1 E3) as [Hs1 Hp]. split_and!; [by constructor|by constructor|set_solver|].
      exists k. split; [right; split; by apply tree_lt_false|]. cbn. rewrite Hp, fmap_app, <- !app_assoc. f_equiv. apply Permutation_app_comm.
Qed.

Lemma order_pair_ok m label_step L t p t' :
  (if label_step <? 0 then table_ok ordered_ok L (od_set t) else table_ok (labelled_ok label_step) L (od_map t)) ->
  order_pair (meta m) label_step t p = Some t' ->
  if label_step <? 0 then table_ok ordered_ok (L ++ [(m, p)]) (od_set t') else table_ok (labelled_ok label_step) (L ++ [(m, p)]) (od_map t').
Proof.
  unfold order_pair. intros Ht E. destruct (at_branch _ _ _) as [[bv h]|] eqn:Eb; [|done]. cbn [mbind option_bind] in E.
  apply at_branch_value in Eb. destruct (label_step <? 0).
  - destruct (default (h, []) (tab_find bv (od_set t))) as [h1 l] eqn:Ed. destruct (ms_insert_all (p.2) l) as [l'|] eqn:Ei; [|done].
    injection E as <-. cbn [od_set]. apply table_ok_set; [done|done|]. intros o Eo Ho. rewrite Eo in Ed.
    assert (ordered_ok (at_bv bv L) (h1, l)) as [H1 H2].
    { destruct o as [hl|]; cbn in Ed; unfold id in Ed; [by subst|]. injection Ed as <- <-. rewrite Ho. split; [constructor|done]. }
    destruct (ms_insert_all_spec _ _ _ H1 Ei) as [H3 H4]. split; [done|]. cbn [snd] in *. rewrite H4, H2, flat_of_app, flat_of_one, fmap_app.
    cbn. by rewrite <- list_fmap_compose, list_fmap_id.
  - destruct (default (h, []) (tab_find bv (od_map t))) as [h1 g] eqn:Ed.
    destruct (order_push _ (p.2) g) as [g'|] eqn:Ei; [|done].
    injection E as <-. cbn [od_map]. apply table_ok_set; [done|done|]. intros o Eo Ho. rewrite Eo in Ed.
    assert (labelled_ok label_step (at_bv bv L) (h1, g)) as (H1 & H2 & l & H3 & H4).
    { destruct o as [hl|]; cbn in Ed; unfold id in Ed; [by subst|]. injection Ed as <- <-. rewrite Ho. split_and!; [constructor|constructor|].
      exists []. split; [done|constructor]. }
    destruct (order_push_spec _ _ _ _ H1 H2 Ei) as (I1 & I2 & _ & k & I3 & I4). split_and!; [done|done|]. cbn [snd] in *.
    exists (l ++ (pair k <$> p.2)). split; [by rewrite I4, H3|]. rewrite flat_of_app, flat_of_one. apply Forall2_app; [done|].
    cbn [fst snd]. fold (label_of label_step (p.1)) in I3. clear -I3. induction (p.2) as [|v vs IH]; cbn; constructor; done.
Qed.

(** The order expert sorts: for each branch value it passes on exactly the
    values that arrived, in ascending or descending order of the values, or
    first of the values of the label in their histories. *)
Theorem order_exact size bucket_order qplan key e m s arr w s' m' w' vlabel vorder label order :
  (forall l, bucket_order l ≡ₚ l) -> with_params qplan [vlabel; vorder] (arr ++ [m]) ->
  value_t2int vlabel = Some label -> value_t2int vorder = Some order ->
  collecting (mk_order [] []) (Order_do_work size bucket_order) size qplan key e [m] s arr ->
  barrier_process (mk_order [] []) (Order_do_work size bucket_order) qplan m s w = Some (s', m', w') ->
  let L := pairs_of (arr ++ [last_message m e]) in
  exists d m1, pass_on size qplan (last_message m e) d w = Some (m1, w') /\ to_next_barrier qplan m1 = Some m' /\
    if label <? 0 then exists es, table_ok ordered_ok L es /\ d = (fun x => (x.2.1, in_order (order =? 0) x.2.2)) <$> es
    else exists es, table_ok (labelled_ok label) L es /\ d = (fun x => (x.2.1, in_order (order =? 0) (x.2.2 ≫= snd))) <$> es.
Proof.
  intros Hb Hps El Eo H E L. pose proof (with_params_last _ _ _ _ e Hps) as Hps'.
  set (I := fun L t => if label <? 0 then table_ok ordered_ok L (od_set t) else table_ok (labelled_ok label) L (od_map t)).
  assert (forall m1 b t w t' m2 w2, m1 ∈ arr ++ [last_message m e] -> Order_do_work size bucket_order qplan m1 b t w = Some (t', m2, w2) ->
    each_pair (order_pair (meta m1) label) t (data m1) = Some t' /\
    (b = true -> pass_on size qplan m1
       (if label <? 0 then (fun p => (p.1, in_order (order =? 0) p.2)) <$> walk bucket_order (od_set t')
        else (fun p => (p.1, in_order (order =? 0) (p.2 ≫= snd))) <$> walk bucket_order (od_map t')) w = Some (m2, w2))) as Hwork.
  { intros m1 b t w1 t' m2 w2 Hin Ew. destruct (with_params_at _ _ _ m1 Hps' Hin) as (ex & Hex & Hpx). unfold Order_do_work in Ew.
    rewrite Hex in Ew. cbn [mbind option_bind] in Ew. rewrite Hpx, El in Ew. cbn [mbind option_bind] in Ew.
    destruct (each_pair _ _ _) as [t1|]; [|done]. cbn [mbind option_bind] in Ew. apply finish_spec in Ew as [-> Hf]. split; [done|].
    intros Hb1. destruct (Hf Hb1) as (d & Ed & Ep). rewrite Eo in Ed. by injection Ed as <-. }
  destruct (collected_last _ _ I _ _ _ _ _ _ _ _ _ _ _ H E) as (t & t' & m1 & _ & Ew & En & Ht).
  { unfold I. destruct (label <? 0); apply table_ok_nil. }
  { intros m2 b t w1 t' m3 w2 L' Hin HL Ew. destruct (Hwork _ _ _ _ _ _ _ Hin Ew) as [Hp _].
    eapply each_pair_inv; [|exact HL|exact Hp]. unfold I. intros. by eapply order_pair_ok. }
  destruct (Hwork (last_message m e) true t w t' m1 w') as [_ Hp]; [set_solver|done|]. specialize (Hp eq_refl).
  eexists _, m1. split; [exact Hp|]. split; [done|]. unfold I in Ht. destruct (label <? 0).
  all: destruct (walk_entries bucket_order _ Hb (proj1 Ht)) as (es & Hes & ->); exists es; split; [by eapply table_ok_perm|].
  all: by rewrite <- list_fmap_compose.
Qed.

(** ** Dedup *)

Definition distinct_values (l : list value_t) : Prop := forall i j u v, (i < j)%nat -> l !! i = Some u -> l !! j = Some v -> value_eq u v = Some false.
(** Filed values without repetitions, among them one for every value of the
    data. *)
Definition deduped (L : list (Message * pair_t)) (vs : list pair_t * list value_t) : Prop :=
  slots_ok vs.1 /\ exists K, filed vs.1 K /\ vs.2 = K.*2 /\ K `sublist_of` flat_of L /\ distinct_values K.*2 /\
    forall hv, hv ∈ flat_of L -> exists u, u ∈ K.*2 /\ (u = hv.2 \/ value_eq u hv.2 = Some true).

Lemma any_equal_spec l v b :
  any_equal l v = Some b -> if b : bool then exists u, u ∈ l /\ value_eq u v = Some true else forall u, u ∈ l -> value_eq u v = Some false.
Proof.
  induction l as [|u l IH]; cbn; [intros [= <-]; set_solver|]. destruct (value_eq u v) as [[]|] eqn:E; [| |done]; cbn.
  - intros [= <-]. exists u. set_solver.
  - intros H. specialize (IH H). destruct b.
    + destruct IH as (x & Hx & He). exists x. set_solver.
    + intros x [->|Hx]%elem_of_cons; auto.
Qed.
Lemma new_values_spec seen vs r seen' :
  distinct_values seen -> new_values seen vs = Some (r, seen') ->
  seen' = seen ++ r /\ r `sublist_of` vs /\ distinct_values (seen ++ r) /\
  forall v, v ∈ vs -> exists u, u ∈ seen ++ r /\ (u = v \/ value_eq u v = Some true).
Proof.
  revert seen r seen'. induction vs as [|v vs IH]; intros seen r seen' Hd E; cbn in E.
  { injection E as <- <-. rewrite !app_nil_r. split_and!; [done|constructor|done|set_solver]. }
  destruct (any_equal seen v) as [b|] eqn:Ea; [|done]. apply any_equal_spec in Ea. cbn [mbind option_bind] in E. destruct b.
  - destruct (IH _ _ _ Hd E) as (I1 & I2 & I3 & I4). split_and!; [done|by constructor|done|].
    intros x [->|Hx]%elem_of_cons; [|by apply I4]. destruct Ea as (u & Hu & He). exists u. split; [set_solver|by right].
  - destruct (new_values (seen ++ [v]) vs) as [[r1 s1]|] eqn:En; [|done]. injection E as <- <-.
    assert (distinct_values (seen ++ [v])) as Hd'.
    { intros i j x y Hij Hi Hj. apply lookup_lt_Some in Hj as Hlj. rewrite length_app in Hlj. cbn in Hlj.
      rewrite lookup_app_l in Hi by lia. destruct (decide (j < length seen)%nat); [rewrite lookup_app_l in Hj by done; by apply (Hd i j)|].
      rewrite lookup_app_r in Hj by lia. replace (j - length seen)%nat with 0%nat in Hj by lia. injection Hj as <-.
      apply Ea. by eapply list_elem_of_lookup_2. }
    destruct (IH _ _ _ Hd' En) as (-> & I2 & I3 & I4). rewrite <- app_assoc in *. split_and!; [done|by constructor|done|].
    intros x [->|Hx]%elem_of_cons; [exists v; set_solver|by apply I4].
Qed.

(** The data and the set of values of each branch. *)
Definition dd_view (t : dedup_data) : list (Z * (list pair_t * list value_t)) :=
  (fun x => (x.1, (x.2, default [] (tab_find x.1 (dedup_val t))))) <$> dd_data t.
Definition dedup_inv (L : list (Message * pair_t)) (t : dedup_data) : Prop :=
  table_ok deduped L (dd_view t) /\ forall bv, tab_find bv (dd_data t) = None -> tab_find bv (dedup_val t) = None.

Lemma dd_view_keys t : (dd_view t).*1 = (dd_data t).*1.
Proof. unfold dd_view. by rewrite <- list_fmap_compose. Qed.
Lemma dd_view_find t bv : tab_find bv (dd_view t) = (fun vec => (vec, default [] (tab_find bv (dedup_val t)))) <$> tab_find bv (dd_data t).
Proof.
  unfold dd_view. induction (dd_data t) as [|[k a] m IH]; [done|]. cbn. destruct (Z.eqb_spec bv k) as [->|]; done.
Qed.
Lemma dd_view_set t bv vec seen :
  NoDup (dd_data t).*1 ->
  dd_view (mk_dedup (tab_set bv vec (dd_data t)) (dedup_his t) (tab_set bv seen (dedup_val t))) = tab_set bv (vec, seen) (dd_view t).
Proof.
  unfold dd_view. cbn [dd_data dedup_val]. induction (dd_data t) as [|[k a] m IH]; intros Hn; cbn.
  { by rewrite tab_find_set, Z.eqb_refl. }
  apply NoDup_cons in Hn as [Hk Hn]. destruct (Z.eqb_spec bv k) as [->|Hne]; cbn.
  - rewrite tab_find_set, Z.eqb_refl. cbn. f_equal. apply list_fmap_ext. intros i [k' a'] Hi. cbn. rewrite tab_find_set.
    destruct (Z.eqb_spec k' k) as [->|]; [|done]. exfalso. apply Hk. apply list_elem_of_fmap. exists (k, a').
    split; [done|by eapply list_elem_of_lookup_2].
  - rewrite tab_find_set. destruct (Z.eqb_spec k bv); [congruence|]. f_equal. by apply IH.
Qed.

Lemma dedup_pair_ok m L t p t' : dedup_inv L t -> dedup_pair (meta m) [] t p = Some t' -> dedup_inv (L ++ [(m, p)]) t'.
Proof.
  unfold dedup_pair. intros [Ht Hn] E. destruct (at_branch _ _ _) as [[bv h]|] eqn:Eb; [|done]. cbn [mbind option_bind] in E.
  apply at_branch_value in Eb. destruct (slot_of _ _) as [[vec i]|] eqn:Es; [|done]. cbn [mbind option_bind] in E.
  destruct (new_values _ _) as [[r seen]|] eqn:En; [|done]. injection E as <-.
  assert (deduped (at_bv bv L) (default [] (tab_find bv (dd_data t)), default [] (tab_find bv (dedup_val t)))) as (Hok & K & K1 & K2 & K3 & K4 & K5).
  { pose proof (dd_view_find t bv) as Ev. destruct (tab_find bv (dd_data t)) as [v0|] eqn:Ef.
    - apply tab_find_elem in Ev; [|apply Ht]. by apply Ht in Ev.
    - rewrite (Hn bv Ef). apply tab_find_none in Ev. destruct Ht as (_ & Hk & _). rewrite Hk in Ev.
      destruct (at_bv bv L) as [|x l]; [|exfalso; by apply Ev]. split; [done|]. exists []. split_and!; [by exists []|done|constructor| |].
      + by intros [] j u v Hij Hi.
      + cbn. set_solver. }
  cbn [fst snd] in *. rewrite K2 in En. destruct (new_values_spec _ _ _ _ K4 En) as (-> & N1 & N2 & N3).
  destruct (filed_push _ _ _ _ _ r Hok Es K1) as [Hf Hs'].
  assert ((K ++ (pair p.1 <$> r)).*2 = K.*2 ++ r) as Ek by (rewrite fmap_app; f_equal; cbn; by rewrite <- list_fmap_compose, list_fmap_id).
  split.
  - rewrite dd_view_set by (rewrite <- dd_view_keys; apply Ht). apply table_ok_set; [done|done|]. intros _ _ _.
    split; [done|]. exists (K ++ (pair p.1 <$> r)). rewrite Ek, flat_of_app, flat_of_one. cbn [fst snd]. split_and!; [done|done| |done|].
    + apply sublist_app; [done|]. clear -N1. induction N1; cbn; by constructor.
    + intros hv [Hin|(v & -> & Hv)%list_elem_of_fmap]%elem_of_app; [|by apply N3]. destruct (K5 _ Hin) as (u & Hu & Hx). exists u. set_solver.
  - intros k. cbn [dd_data dedup_val]. rewrite !tab_find_set. destruct (k =? bv); [done|apply Hn].
Qed.

(** The dedup expert without labels keeps one of each value: for each branch
    value the values that it passes on are among those that arrived, under their
    histories, no two of them are equal, and every value that arrived equals one
    of them. *)
Theorem dedup_exact size bucket_order qplan key e m s arr w s' m' w' :
  (forall l, bucket_order l ≡ₚ l) -> with_params qplan [] (arr ++ [m]) ->
  collecting (mk_dedup [] [] []) (Dedup_do_work size bucket_order) size qplan key e [m] s arr ->
  barrier_process (mk_dedup [] [] []) (Dedup_do_work size bucket_order) qplan m s w = Some (s', m', w') ->
  exists es m1, table_ok deduped (pairs_of (arr ++ [last_message m e])) es /\
    pass_on size qplan (last_message m e) (concat (es.*2.*1)) w = Some (m1, w') /\
    to_next_barrier qplan m1 = Some m'.
Proof.
  intros Hb Hps H E. pose proof (with_params_last _ _ _ _ e Hps) as Hps'.
  assert (forall m1 b t w t' m2 w2, m1 ∈ arr ++ [last_message m e] -> Dedup_do_work size bucket_order qplan m1 b t w = Some (t', m2, w2) ->
    each_pair (dedup_pair (meta m1) []) t (data m1) = Some t' /\
    (b = true -> pass_on size qplan m1 (concat (walk bucket_order (dd_data t'))) w = Some (m2, w2))) as Hwork.
  { intros m1 b t w1 t' m2 w2 Hin Ew. destruct (with_params_at _ _ _ m1 Hps' Hin) as (ex & Hex & Hpx). unfold Dedup_do_work in Ew.
    rewrite Hex in Ew. cbn [mbind option_bind] in Ew. rewrite Hpx in Ew. cbn [mbind option_bind mapM mret option_ret] in Ew.
    destruct (each_pair _ _ _) as [t1|]; [|done]. cbn [mbind option_bind] in Ew. apply finish_spec in Ew as [-> Hf]. split; [done|].
    intros Hb1. by destruct (Hf Hb1) as (d & [= <-] & Ep). }
  destruct (collected_last _ _ dedup_inv _ _ _ _ _ _ _ _ _ _ _ H E) as (t & t' & m1 & _ & Ew & En & Ht).
  { split; [apply table_ok_nil|done]. }
  { intros m2 b t w1 t' m3 w2 L' Hin HL Ew. destruct (Hwork _ _ _ _ _ _ _ Hin Ew) as [Hp _].
    eapply each_pair_inv; [|exact HL|exact Hp]. intros. by eapply dedup_pair_ok. }
  destruct (Hwork (last_message m e) true t w t' m1 w') as [_ Hp]; [set_solver|done|]. specialize (Hp eq_refl). destruct Ht as [Ht _].
  destruct (walk_entries bucket_order (dd_data t') Hb) as (es & Hes & Hw). { rewrite <- dd_view_keys. apply Ht. }
  exists ((fun x => (x.1, (x.2, default [] (tab_find x.1 (dedup_val t'))))) <$> es), m1. split_and!; [|rewrite <- Hp, Hw|done].
  - eapply table_ok_perm; [|exact Ht]. unfold dd_view. by rewrite Hes.
  - do 3 f_equal. by rewrite <- !list_fmap_compose.
Qed.

(** ** Strings that are cut into values *)

(** A string is cut into values of at most [max_size] bytes that make it up;
    the size 0, for which the loop does not end, is the only exception. *)
Theorem cut_complete max_size s :
  0 < max_size -> exists vs, cut max_size s = Some vs /\ concat (v_content <$> vs) = s /\
    Forall (fun v => Z.of_nat (length (v_content v)) <= max_size /\ v_type v = 4) vs.
Proof.
  intros Hm. unfold cut. enough (forall fuel s, (length s < fuel)%nat -> exists vs, cut_string fuel max_size s = Some vs /\
    concat (v_content <$> vs) = s /\ Forall (fun v => Z.of_nat (length (v_content v)) <= max_size /\ v_type v = 4) vs) as H by (apply H; lia).
  clear s. induction fuel as [|fuel IH]; intros s Hl; [lia|]. cbn [cut_string].
  destruct (Z.ltb_spec max_size (Z.of_nat (length s))).
  - rewrite Z.min_l by lia. destruct (IH (drop (Z.to_nat max_size) s)) as (vs & -> & Hc & Hf).
    { rewrite length_drop. lia. }
    eexists. split; [done|]. split; [cbn; rewrite Hc; apply take_drop|]. constructor; [|done]. cbn. rewrite length_take. split; [lia|done].
  - rewrite Z.min_r, Nat2Z.id, firstn_all by lia. eexists. split; [done|]. split; [cbn; apply app_nil_r|]. by repeat constructor.
Qed.
Lemma cut_complete_witness : exists vs, cut 3 [1; 2; 3; 4; 5; 6; 7] = Some vs /\ concat (v_content <$> vs) = [1; 2; 3; 4; 5; 6; 7].
Proof. destruct (cut_complete 3 [1; 2; 3; 4; 5; 6; 7]) as (vs & H1 & H2 & _); [lia|]. by exists vs. Defined.

(** ** Examples *)

(** Two messages of a query at the expert of step 1, of which the first has
    arrived. *)
Definition wit_plan (t : EXPERT_T) (ps : list value_t) : QueryPlan :=
  mk_plan 0 [mk_expert E_INIT 0 1 true [rt_int 0; rt_int 0]; mk_expert t 1 2 false ps; mk_expert E_END 2 3 false []] true 0 (example_id 16) 0.
Definition wit_msg (t : MSG_T) (stp : Z) (vs : list value_t) : Message :=
  mk_msg (mk_meta 256 stp 2 t 0 1 0 1 (to_string_int 2) [] plan_default) [([], vs)] 1048576 8.
Definition wit_world : world := mk_world rt_affinity [] [] ∅ [] 0.

Lemma wit_start {T} (t0 : T) do_work qplan m1 m2 (s' : barrier_state T) (w : world) :
  Forall (fun m => GetMsgInfo (meta m) = (mk_mkey 256 0 0, []) /\ msg_path (meta m) = next_path [] 2) [m1; m2] ->
  arrive_all t0 do_work qplan (mk_mkey 256 0 0) [m1] (mk_bs ∅ ∅) wit_world = Some (s', w) ->
  collecting t0 do_work 2 qplan (mk_mkey 256 0 0) [] [m2] s' [m1].
Proof.
  intros Hf Ha. eapply (collecting_arrivals _ _ _ _ _ _ [m1] [m2] _ _ _ _ []); [|exact Ha]. apply co_start; try done.
  - eapply Forall_impl; [exact Hf|]. by intros x [H _].
  - eapply Forall_impl; [exact Hf|]. by intros x [_ H].
Qed.
(** The barrier after the first message. *)
Definition wit_state {T} (t0 : T) do_work qplan m1 : barrier_state T :=
  match arrive_all t0 do_work qplan (mk_mkey 256 0 0) [m1] (mk_bs ∅ ∅) wit_world with Some (s, _) => s | None => mk_bs ∅ ∅ end.
Lemma wit_collecting {T} (t0 : T) do_work qplan m1 m2 :
  Forall (fun m => GetMsgInfo (meta m) = (mk_mkey 256 0 0, []) /\ msg_path (meta m) = next_path [] 2) [m1; m2] ->
  match arrive_all t0 do_work qplan (mk_mkey 256 0 0) [m1] (mk_bs ∅ ∅) wit_world with Some _ => true | None => false end = true ->
  collecting t0 do_work 2 qplan (mk_mkey 256 0 0) [] [m2] (wit_state t0 do_work qplan m1) [m1].
Proof.
  intros Hf H. unfold wit_state. destruct (arrive_all _ _ _ _ _ _ _) as [[s w]|] eqn:E; [|done]. by eapply wit_start.
Qed.

Definition order_plan : QueryPlan := wit_plan E_ORDER [rt_int (-1); rt_int 0].
Definition order_work := Order_do_work 2 (fun l => l).
Definition wit_m1 : Message := wit_msg M_SPAWN 1 [rt_int 5; rt_int 3; rt_int 5].
Definition wit_m2 : Message := wit_msg M_SPAWN 1 [rt_int 4].

Lemma order_exact_witness :
  exists d m1 m' w', pass_on 2 order_plan (last_message wit_m2 []) d wit_world = Some (m1, w') /\ to_next_barrier order_plan m1 = Some m' /\
    exists es, table_ok ordered_ok (pairs_of ([wit_m1] ++ [last_message wit_m2 []])) es /\ d = (fun x => (x.2.1, in_order true x.2.2)) <$> es.
Proof.
  destruct (barrier_process (mk_order [] []) order_work order_plan wit_m2 (wit_state (mk_order [] []) order_work order_plan wit_m1) wit_world)
    as [[[s' m'] w']|] eqn:E; [|exfalso; revert E; by vm_compute].
  destruct (order_exact 2 (fun l => l) order_plan (mk_mkey 256 0 0) [] wit_m2 (wit_state (mk_order [] []) order_work order_plan wit_m1) [wit_m1] wit_world s' m' w' (rt_int (-1)) (rt_int 0) (-1) 0)
    as (d & m1 & H1 & H2 & H3); [done|repeat constructor; by eexists|done|done|apply wit_collecting; [by repeat constructor|by vm_compute]|exact E|].
  exists d, m1, m', w'. exact (conj H1 (conj H2 H3)).
Defined.

Definition range_plan : QueryPlan := wit_plan E_RANGE [rt_int 1; rt_int 2].
Definition range_work := Range_do_work 2 (fun l => l).
Lemma range_exact_witness :
  exists es m1 m' w', table_ok (ranged 1 2) (pairs_of ([wit_m1] ++ [last_message wit_m2 []])) es /\
    pass_on 2 range_plan (last_message wit_m2 []) (concat (es.*2.*2)) wit_world = Some (m1, w') /\ to_next_barrier range_plan m1 = Some m'.
Proof.
  destruct (barrier_process [] range_work range_plan wit_m2 (wit_state [] range_work range_plan wit_m1) wit_world)
    as [[[s' m'] w']|] eqn:E; [|exfalso; revert E; by vm_compute].
  destruct (range_exact 2 (fun l => l) range_plan (mk_mkey 256 0 0) [] wit_m2 (wit_state [] range_work range_plan wit_m1) [wit_m1] wit_world
    s' m' w' (rt_int 1) (rt_int 2) 1 2) as (es & m1 & H1 & H2 & H3);
    [done|repeat constructor; by eexists|done|done|apply wit_collecting; [by repeat constructor|by vm_compute]|exact E|].
  exists es, m1, m', w'. exact (conj H1 (conj H2 H3)).
Defined.

Definition dedup_plan : QueryPlan := wit_plan E_DEDUP [].
Definition dedup_work := Dedup_do_work 2 (fun l => l).
Lemma dedup_exact_witness :
  exists es m1 m' w', table_ok deduped (pairs_of ([wit_m1] ++ [last_message wit_m2 []])) es /\
    pass_on 2 dedup_plan (last_message wit_m2 []) (concat (es.*2.*1)) wit_world = Some (m1, w') /\ to_next_barrier dedup_plan m1 = Some m'.
Proof.
  destruct (barrier_process (mk_dedup [] [] []) dedup_work dedup_plan wit_m2 (wit_state (mk_dedup [] [] []) dedup_work dedup_plan wit_m1) wit_world)
    as [[[s' m'] w']|] eqn:E; [|exfalso; revert E; by vm_compute].
  destruct (dedup_exact 2 (fun l => l) dedup_plan (mk_mkey 256 0 0) [] wit_m2 (wit_state (mk_dedup [] [] []) dedup_work dedup_plan wit_m1) [wit_m1] wit_world
    s' m' w') as (es & m1 & H1 & H2 & H3);
    [done|repeat constructor; by eexists|apply wit_collecting; [by repeat constructor|by vm_compute]|exact E|].
  exists es, m1, m', w'. exact (conj H1 (conj H2 H3)).
Defined.

Definition count_plan : QueryPlan := wit_plan E_COUNT [].
Definition count_work := Count_do_work 2 (fun l => l).
Lemma count_exact_witness :
  exists es m1 m' w', table_ok counted_ok (pairs_of ([wit_m1] ++ [last_message wit_m2 []])) es /\
    pass_on 2 count_plan (last_message wit_m2 []) ((fun x => (x.2.1, [int2value_t x.2.2 value_default])) <$> es) wit_world = Some (m1, w') /\
    to_next_barrier count_plan m1 = Some m'.
Proof.
  destruct (barrier_process [] count_work count_plan wit_m2 (wit_state [] count_work count_plan wit_m1) wit_world)
    as [[[s' m'] w']|] eqn:E; [|exfalso; revert E; by vm_compute].
  destruct (count_exact 2 (fun l => l) count_plan (mk_mkey 256 0 0) [] wit_m2 (wit_state [] count_work count_plan wit_m1) [wit_m1] wit_world
    s' m' w') as (es & m1 & H1 & H2 & H3); [done|apply wit_collecting; [by repeat constructor|by vm_compute]|exact E|].
  exists es, m1, m', w'. exact (conj H1 (conj H2 H3)).
Defined.

(** The end of a query: the reply holds the values of both messages. *)
Definition end_plan : QueryPlan := wit_plan E_VALUES [].
Definition end_m1 : Message := wit_msg M_SPAWN 2 [rt_int 5; rt_int 3].
Definition end_m2 : Message := wit_msg M_SPAWN 2 [rt_int 4].
Lemma end_replies_once_witness :
  exists s' m' w', barrier_process (mk_end [] false) End_do_work end_plan end_m2 (wit_state (mk_end [] false) End_do_work end_plan end_m1) wit_world
      = Some (s', m', w') /\ w_replies w' = [(256, [rt_int 5; rt_int 3; rt_int 4], RESULT_NORMAL)].
Proof.
  destruct (end_replies_once 2 end_plan (mk_mkey 256 0 0) [] [] end_m2 [] (wit_state (mk_end [] false) End_do_work end_plan end_m1) [end_m1] wit_world
    (mk_expert E_END 2 3 false [])) as (s' & m' & w' & H1 & H2);
    [apply wit_collecting; [by repeat constructor|by vm_compute]|done|done|done|].
  exists s', m', w'. exact (conj H1 H2).
Defined.

(** Votes for a transaction that is being validated. *)
Definition vote_table : TrxTable := default example_table (snd <$> modify_status_ct example_table (example_id 16) VALIDATING 99).
Definition vote_entry : TidStatus := default blank (trx_map vote_table !! example_id 16).
Definition vote_stub : TrxTableStub 2 2 := RDMATrxTableStub 0 2 2 2.
Definition vote_plan : QueryPlan :=
  mk_plan 0 [mk_expert E_VALIDATION 0 1 true []; mk_expert E_POSTVALIDATION 1 2 false []; mk_expert E_TERMINATE 2 3 false []] true 0 (example_id 16) 0.
Definition vote_work := PostValidation_do_work 0 2 vote_stub vote_table.
Definition vote_yes : Message := wit_msg M_SPAWN 1 [].
Lemma votes_decide_witness :
  exists s' m' w', barrier_process false vote_work vote_plan vote_yes (wit_state false vote_work vote_plan vote_yes) wit_world = Some (s', m', w') /\
    w_sent w' = decision_msg 2 vote_yes M_COMMIT [([], [uint64_t2value_t 99 value_default])] <$> [0%nat; 1%nat].
Proof.
  destruct (votes_decide vote_stub vote_table 0 2 vote_plan (mk_mkey 256 0 0) [] [] vote_yes [] (wit_state false vote_work vote_plan vote_yes) [vote_yes] wit_world
    vote_entry) as (s' & m' & w' & H1 & _ & H2).
  - apply wit_collecting; [by repeat constructor|by vm_compute].
  - done.
  - lia.
  - eapply rtc_r; [exact example_reachable|]. apply (ts_modify_ct _ (example_id 16) VALIDATING 99 true). by vm_compute.
  - done.
  - by vm_compute.
  - by vm_compute.
  - by vm_compute.
  - by vm_compute.
  - by vm_compute.
  - exists s', m', w'. split; [exact H1|]. exact (proj1 (H2 eq_refl)).
Defined.
