(* ===== verification/IndexStore.v ===== *)
(** * layout/index_store: indexes of the graph

    The index store keeps the ids of all vertices and edges, and for a property
    key the elements by their value.  Updates of a transaction are buffered,
    moved to an update region when the transaction validates or commits, and
    merged into the index by the garbage collection.  A [std::map] is the list of
    its entries in the order of the keys, and a [std::set] of numbers is
    enumerated in increasing order.  [None] is a failed check, an access out of
    range, or values for which [operator<] is no order. *)
From S2P Require Import Prelude MyMath Types Serialization Wire ToolValue Predicate TrxStatus RunningTrx Coordinator Rct InputSet TrxStub.
From S2P Require Import MvccList PropertyRows Topology DataStorage ExecPlan Affinity Routing Barrier BarrierExperts.
Local Open Scope Z_scope.

(** ** Maps from values *)

Abbreviation vmap A := (list (value_t * A)).
Section ValueMap.
Context {A : Type}.
(** The entries before [lower_bound], and the others. *)
Fixpoint vsplit (k : value_t) (m : vmap A) : option (vmap A * vmap A) :=
  match m with
  | [] => Some ([], [])
  | (k', a) :: m' =>
      b ← tree_lt k' k;
      if b : bool then '(l, r) ← vsplit k m'; Some ((k', a) :: l, r) else Some ([], m)
  end.
(** The entries before [upper_bound], and the others. *)
Fixpoint vsplit_upper (k : value_t) (m : vmap A) : option (vmap A * vmap A) :=
  match m with
  | [] => Some ([], [])
  | (k', a) :: m' =>
      b ← tree_lt k k';
      if b : bool then Some ([], m) else '(l, r) ← vsplit_upper k m'; Some ((k', a) :: l, r)
  end.
(** [std::map::find] *)
Definition vfind (k : value_t) (m : vmap A) : option (option A) :=
  '(_, r) ← vsplit k m;
  match r with
  | [] => Some None
  | (k', a) :: _ => b ← tree_lt k k'; Some (if b : bool then None else Some a)
  end.
(** [m[k] = f(m[k])], where [f] is given nothing for a new entry. *)
Definition vset (k : value_t) (f : option A -> A) (m : vmap A) : option (vmap A) :=
  '(l, r) ← vsplit k m;
  match r with
  | [] => Some (l ++ [(k, f None)])
  | (k', a) :: r' => b ← tree_lt k k'; Some (if b : bool then l ++ (k, f None) :: r else l ++ (k', f (Some a)) :: r')
  end.
End ValueMap.

(** The numbers of a set in increasing order. *)
Definition sorted (X : gset Z) : list Z := merge_sort Z.le (elements X).

(** ** The state *)

(** [IndexStore::PropertyUpdateT] (layout/index_store.hpp:61-61). *)
Inductive PropertyUpdateT := UP_NONE | UP_ADD | UP_MODIFY | UP_DROP.
(** [IndexStore::update_element] (layout/index_store.hpp:74-100). *)
Record update_element := mk_up {
  up_id : Z; up_isAdd : bool; up_trx : Z; up_ct : Z; up_value : value_t; up_type : PropertyUpdateT }.
Definition set_ct (ct : Z) (u : update_element) : update_element :=
  mk_up (up_id u) (up_isAdd u) (up_trx u) ct (up_value u) (up_type u).
(** [IndexStore::index_] (layout/index_store.hpp:143-150), without the values that
    are drawn at random. *)
Record index_ := mk_index {
  isEnabled : bool; total : Z; index_map : vmap (gset Z); no_key : gset Z; count_map : vmap Z }.
Definition index_default : index_ := mk_index false 0 [] ∅ [].
(** [IndexStore] (layout/index_store.hpp:166-207). *)
Record index_store := mk_store {
  topo_vtx_data : list Z; topo_edge_data : list eid_t;
  vtx_prop_index : gmap Z index_; edge_prop_index : gmap Z index_;
  vtx_update_list : list update_element; edge_update_list : list update_element;
  vp_update_map : gmap Z (vmap (list update_element)); ep_update_map : gmap Z (vmap (list update_element));
  vtx_update_buffers : gmap Z (list update_element); edge_update_buffers : gmap Z (list update_element);
  vp_update_buffers : gmap Z (list update_element); ep_update_buffers : gmap Z (list update_element);
  trx_status_and_count_table : gmap Z (TRX_STAT * Z) }.
Definition no_index : index_store := mk_store [] [] ∅ ∅ [] [] ∅ ∅ ∅ ∅ ∅ ∅ ∅.

Definition set_topo_v (o : index_store) d u t : index_store :=
  mk_store d (topo_edge_data o) (vtx_prop_index o) (edge_prop_index o) u (edge_update_list o) (vp_update_map o) (ep_update_map o)
    (vtx_update_buffers o) (edge_update_buffers o) (vp_update_buffers o) (ep_update_buffers o) t.
Definition set_topo_e (o : index_store) d u : index_store :=
  mk_store (topo_vtx_data o) d (vtx_prop_index o) (edge_prop_index o) (vtx_update_list o) u (vp_update_map o) (ep_update_map o)
    (vtx_update_buffers o) (edge_update_buffers o) (vp_update_buffers o) (ep_update_buffers o) (trx_status_and_count_table o).
Definition set_buffers (o : index_store) bv be bvp bep : index_store :=
  mk_store (topo_vtx_data o) (topo_edge_data o) (vtx_prop_index o) (edge_prop_index o) (vtx_update_list o) (edge_update_list o)
    (vp_update_map o) (ep_update_map o) bv be bvp bep (trx_status_and_count_table o).
Definition set_regions (o : index_store) uv ue rv re t : index_store :=
  mk_store (topo_vtx_data o) (topo_edge_data o) (vtx_prop_index o) (edge_prop_index o) uv ue rv re
    (vtx_update_buffers o) (edge_update_buffers o) (vp_update_buffers o) (ep_update_buffers o) t.
(** The property indexes and the update regions of an element type. *)
Definition prop_index (o : index_store) (t : Element_T) : gmap Z index_ :=
  match t with VERTEX => vtx_prop_index o | EDGE => edge_prop_index o end.
Definition set_prop_index (o : index_store) (t : Element_T) (m : gmap Z index_) : index_store :=
  mk_store (topo_vtx_data o) (topo_edge_data o) (match t with VERTEX => m | EDGE => vtx_prop_index o end)
    (match t with VERTEX => edge_prop_index o | EDGE => m end) (vtx_update_list o) (edge_update_list o)
    (vp_update_map o) (ep_update_map o) (vtx_update_buffers o) (edge_update_buffers o) (vp_update_buffers o) (ep_update_buffers o)
    (trx_status_and_count_table o).
Definition update_map (o : index_store) (t : Element_T) : gmap Z (vmap (list update_element)) :=
  match t with VERTEX => vp_update_map o | EDGE => ep_update_map o end.
Definition set_update_map (o : index_store) (t : Element_T) m : index_store :=
  match t with
  | VERTEX => set_regions o (vtx_update_list o) (edge_update_list o) m (ep_update_map o) (trx_status_and_count_table o)
  | EDGE => set_regions o (vtx_update_list o) (edge_update_list o) (vp_update_map o) m (trx_status_and_count_table o)
  end.

(** ** Ranges *)

Section Range.
Context {A : Type}.
Definition is_one_of (p : Predicate_T) (ps : list Predicate_T) : bool := bool_decide (p ∈ ps).
(** [build_range] (layout/index_store.tpp:16-61): the positions of the two
    iterators. *)
Definition build_range (m : vmap A) (pred : PredicateValue) : option (nat * nat) :=
  let p := pred_type pred in
  low ← (if is_one_of p [P_GT; P_GTE; P_INSIDE; P_BETWEEN] then
           v0 ← pv_values pred !! 0%nat; '(l, _) ← vsplit v0 m; Some (length l)
         else Some 0%nat);
  low ← (if is_one_of p [P_GT; P_INSIDE] then
           v0 ← pv_values pred !! 0%nat;
           match m !! low with None => Some low | Some (k, _) => b ← value_eq k v0; Some (if b : bool then S low else low) end
         else Some low);
  let param := if is_one_of p [P_LT; P_LTE] then 0%nat else 1%nat in
  high ← (if is_one_of p [P_LT; P_LTE; P_INSIDE; P_BETWEEN] then
            v ← pv_values pred !! param; '(l, _) ← vsplit_upper v m; Some (length l)
          else Some (length m));
  high ← (if is_one_of p [P_LT; P_INSIDE] then
            if decide (high = low) then Some high
            else
              v ← pv_values pred !! param;
              match high with
              | O => None
              | S h => '(k, _) ← m !! h; b ← value_neq k v; Some (if b : bool then high else h)
              end
          else Some high);
  Some (low, high).
(** The entries from one iterator to the other; past each other they never meet. *)
Definition range_entries (m : vmap A) (pred : PredicateValue) : option (vmap A) :=
  '(low, high) ← build_range m pred;
  if (low <=? high)%nat then Some (take (high - low) (drop low m)) else None.
(** The ranges of a predicate; OUTSIDE is searched in two ranges, and leaves the
    predicate changed. *)
Definition in_ranges (m : vmap A) (pred : PredicateValue) : option (vmap A * PredicateValue) :=
  match pred_type pred with
  | P_OUTSIDE =>
      l ← range_entries m (mk_pv P_LT (pv_values pred));
      match pv_values pred with
      | a :: b :: vs => r ← range_entries m (mk_pv P_GT (b :: a :: vs)); Some (l ++ r, mk_pv P_GT (b :: a :: vs))
      | _ => None
      end
  | _ => l ← range_entries m pred; Some (l, pred)
  end.
(** The entries whose key satisfies a predicate, in the order of the map. *)
Fixpoint matching (m : vmap A) (pred : PredicateValue) : option (vmap A) :=
  match m with
  | [] => Some []
  | (k, a) :: m' => b ← Evaluate pred (Some k); r ← matching m' pred; Some (if b : bool then (k, a) :: r else r)
  end.
(** The entries of given keys, in the order of the keys. *)
Fixpoint found (m : vmap A) (vs : list value_t) : option (list A) :=
  match vs with
  | [] => Some []
  | v :: vs' => a ← vfind v m; r ← found m vs'; Some (match a with Some x => x :: r | None => r end)
  end.
End Range.

(** ** Reading the property index *)

(** [IndexStore::get_count_by_predicate] (layout/index_store.cpp:825-887): the
    count, and the predicate as it is left. *)
Definition get_count_by_predicate (idx : index_) (pred : PredicateValue) : option (Z * PredicateValue) :=
  let sum (l : list Z) := wrap 64 (foldr Z.add 0 l) in
  match pred_type pred with
  | P_ANY => Some (wrap 64 (total idx - Z.of_nat (size (no_key idx))), pred)
  | P_NEQ | P_WITHOUT => l ← matching (count_map idx) pred; Some (sum (l.*2), pred)
  | P_EQ => v ← pv_values pred !! 0%nat; c ← vfind v (count_map idx); Some (default 0 c, pred)
  | P_WITHIN => l ← found (count_map idx) (pv_values pred); Some (sum l, pred)
  | P_NONE => Some (Z.of_nat (size (no_key idx)), pred)
  | _ => '(l, pred) ← in_ranges (count_map idx) pred; Some (sum (l.*2), pred)
  end.
(** [IndexStore::IsIndexEnabled] (layout/index_store.cpp:21-62): the answer, and
    with a predicate its count and what is left of it.  The product of an integer
    below 2^50 with 0.2 is truncated to the fifth of it. *)
Definition IsIndexEnabled (indexing : bool) (o : index_store) (type : Element_T) (pid : Z) (pred : option PredicateValue)
  : option (bool * option (Z * PredicateValue)) :=
  if indexing then
    match prop_index o type !! pid with
    | None => Some (false, None)
    | Some idx =>
        if isEnabled idx then
          match pred with
          | None => Some (true, None)
          | Some p => '(c, p) ← get_count_by_predicate idx p; Some (negb (total idx / 5 <=? c), Some (c, p))
          end
        else Some (false, None)
    end
  else Some (false, None).

(** [IndexStore::read_prop_update_data] (layout/index_store.cpp:811-823). *)
Definition read_prop_update_data (vec : list Z) (u : update_element) : list Z :=
  if up_id u =? 0 then vec
  else if up_isAdd u then if decide (up_id u ∈ vec) then vec else vec ++ [up_id u]
  else match list_find (fun x => x = up_id u) vec with Some (i, _) => delete i vec | None => vec end.
Definition read_updates (vec : list Z) (us : list update_element) : list Z := foldl read_prop_update_data vec us.
(** The effect of the updates on the elements without the key. *)
Definition read_no_key (vec : list Z) (u : update_element) : list Z :=
  match up_type u with
  | UP_DROP => vec ++ [up_id u]
  | UP_ADD => match list_find (fun x => x = up_id u) vec with Some (i, _) => delete i vec | None => vec end
  | _ => vec
  end.
Definition all_elements (l : list (gset Z)) : list Z := l ≫= sorted.

(** The elements that satisfy a predicate, and the number of sets they come from. *)
Definition elements_of (idx : index_) (up : vmap (list update_element)) (pred : PredicateValue) : option (list Z * nat) :=
  match pred_type pred with
  | P_ANY => Some (read_updates (all_elements ((index_map idx).*2)) (concat (up.*2)), length (index_map idx))
  | P_NEQ | P_WITHOUT =>
      l ← matching (index_map idx) pred; u ← matching up pred;
      Some (read_updates (all_elements (l.*2)) (concat (u.*2)), length l)
  | P_EQ =>
      v ← pv_values pred !! 0%nat; a ← vfind v (index_map idx); u ← vfind v up;
      Some (read_updates (default [] (sorted <$> a)) (default [] u), match a with Some _ => 1%nat | None => 0%nat end)
  | P_WITHIN =>
      l ← found (index_map idx) (pv_values pred); u ← found up (pv_values pred);
      Some (read_updates (all_elements l) (concat u), length l)
  | P_NONE => Some (foldl read_no_key (sorted (no_key idx)) (concat (up.*2)), 1%nat)
  | _ => '(l, _) ← in_ranges (index_map idx) pred; Some (all_elements (l.*2), length l)
  end.
(** [IndexStore::get_elements_by_predicate] (layout/index_store.cpp:670-809); a
    missing index is made. *)
Definition get_elements_by_predicate (o : index_store) (type : Element_T) (pid : Z) (pred : PredicateValue) (need_sort : bool)
  : option (list Z * index_store) :=
  let idx := default index_default (prop_index o type !! pid) in
  let o := set_prop_index o type (<[pid := idx]> (prop_index o type)) in
  '(vec, num_set) ← elements_of idx (default [] (update_map o type !! pid)) pred;
  Some (if need_sort && (1 <? num_set)%nat then merge_sort Z.le vec else vec, o).

(** [std::set_intersection] of two sequences. *)
Fixpoint set_intersection (fuel : nat) (a b : list Z) : list Z :=
  match fuel, a, b with
  | S f, x :: a', y :: b' =>
      if x <? y then set_intersection f a' b else if y <? x then set_intersection f a b' else x :: set_intersection f a' b'
  | _, _, _ => []
  end.
Fixpoint read_chain (o : index_store) (type : Element_T) (chain : list (Z * PredicateValue)) (need_sort : bool) (acc : option (list Z))
  : option (list Z * index_store) :=
  match chain with
  | [] => Some (default [] acc, o)
  | (pid, pred) :: chain' =>
      '(vec, o) ← get_elements_by_predicate o type pid pred need_sort;
      read_chain o type chain' need_sort
        (Some match acc with None => vec | Some t => set_intersection (length t + length vec) t vec end)
  end.
(** [IndexStore::ReadPropIndex] (layout/index_store.cpp:131-160). *)
Definition ReadPropIndex (o : index_store) (type : Element_T) (pred_chain : list (Z * PredicateValue)) : option (list value_t * index_store) :=
  '(l, o) ← read_chain o type pred_chain (negb (length pred_chain =? 1)%nat) None;
  Some ((fun u => uint64_t2value_t u value_default) <$> (l : list Z), o).

(** ** Building an index *)

(** [IndexStore::SetIndexMap] (layout/index_store.cpp:68-102): an entry whose key
    the index has already stays as it is, but its count is replaced. *)
Definition SetIndexMap (indexing : bool) (o : index_store) (type : Element_T) (pid : Z) (m : vmap (list Z)) (no_key_vec : list Z)
  : option (bool * index_store) :=
  if indexing then
    let idx := default index_default (prop_index o type !! pid) in
    im ← foldl (fun acc e => acc ≫= vset e.1 (fun old => default (list_to_set e.2) old)) (Some (index_map idx)) m;
    cm ← foldl (fun acc e => acc ≫= vset e.1 (fun _ => Z.of_nat (size (list_to_set e.2 : gset Z)))) (Some (count_map idx)) m;
    let nk : gset Z := list_to_set no_key_vec in
    let sum := foldr (fun e s => Z.of_nat (size (list_to_set e.2 : gset Z)) + s) 0 m + Z.of_nat (size nk) in
    Some (true, set_prop_index o type (<[pid := mk_index (isEnabled idx) (wrap 64 sum) im nk cm]> (prop_index o type)))
  else Some (false, o).
(** [IndexStore::SetIndexMapEnable] (layout/index_store.cpp:104-129). *)
Definition SetIndexMapEnable (indexing : bool) (o : index_store) (type : Element_T) (pid : Z) (inverse : bool) : bool * index_store :=
  if indexing then
    let idx := default index_default (prop_index o type !! pid) in
    let b := if inverse then negb (isEnabled idx) else true in
    (b, set_prop_index o type (<[pid := mk_index b (total idx) (index_map idx) (no_key idx) (count_map idx)]> (prop_index o type)))
  else (false, o).

(** ** Buffered updates *)

(** [ID_T] (base/type.hpp:684-684). *)
Inductive ID_T := VID | EID | VPID | EPID.
Definition append_to_buffer (b : gmap Z (list update_element)) (trx_id : Z) (l : list update_element) : gmap Z (list update_element) :=
  <[trx_id := default [] (b !! trx_id) ++ l]> b.
(** The elements for one id: [isEmpty] is the flag of the constructor. *)
Definition updates_of (trx_id : Z) (isAdd : bool) (new_val : option value_t) (id : Z) (old : option value_t) : list update_element :=
  match new_val, old with
  | Some v, Some old =>
      [mk_up id true trx_id 0 v UP_MODIFY;
       if v_empty old then mk_up id true trx_id 0 old UP_ADD else mk_up id false trx_id 0 old UP_MODIFY]
  | Some v, None => [mk_up id isAdd trx_id 0 v UP_ADD]
  | None, Some old => [mk_up id isAdd trx_id 0 old UP_DROP]
  | None, None => [mk_up id isAdd trx_id 0 value_default UP_NONE]
  end.
(** [IndexStore::InsertToUpdateBuffer] (layout/index_store.cpp:431-480). *)
Definition InsertToUpdateBuffer (o : index_store) (trx_id : Z) (ids : list Z) (type : ID_T) (isAdd : bool)
    (new_val : option value_t) (old_vals : option (list value_t)) : option index_store :=
  l ← (match old_vals with
       | None => Some (concat ((fun id => updates_of trx_id isAdd new_val id None) <$> ids))
       | Some vs => if (length ids =? length vs)%nat
                    then Some (concat (zip_with (fun id v => updates_of trx_id isAdd new_val id (Some v)) ids vs)) else None
       end);
  let add b := append_to_buffer b trx_id l in
  Some (match type with
        | VID => set_buffers o (add (vtx_update_buffers o)) (edge_update_buffers o) (vp_update_buffers o) (ep_update_buffers o)
        | EID => set_buffers o (vtx_update_buffers o) (add (edge_update_buffers o)) (vp_update_buffers o) (ep_update_buffers o)
        | VPID => set_buffers o (vtx_update_buffers o) (edge_update_buffers o) (add (vp_update_buffers o)) (ep_update_buffers o)
        | EPID => set_buffers o (vtx_update_buffers o) (edge_update_buffers o) (vp_update_buffers o) (add (ep_update_buffers o))
        end).

(** One more update of a transaction in the region. *)
Definition count_update (trx_id : Z) (t : gmap Z (TRX_STAT * Z)) : gmap Z (TRX_STAT * Z) :=
  <[trx_id := match t !! trx_id with None => (VALIDATING, 1) | Some (s, n) => (s, n + 1) end]> t.
(** [IndexStore::MoveTopoBufferToRegion] (layout/index_store.cpp:482-515). *)
Definition MoveTopoBufferToRegion (o : index_store) (trx_id ct : Z) : index_store :=
  let bv := default [] (vtx_update_buffers o !! trx_id) in
  let be := default [] (edge_update_buffers o !! trx_id) in
  let t := Nat.iter (length bv + length be) (count_update trx_id) (trx_status_and_count_table o) in
  set_buffers (set_regions o (vtx_update_list o ++ (set_ct ct <$> bv)) (edge_update_list o ++ (set_ct ct <$> be)) (vp_update_map o) (ep_update_map o) t)
    (delete trx_id (vtx_update_buffers o)) (delete trx_id (edge_update_buffers o)) (vp_update_buffers o) (ep_update_buffers o).
(** An update enters the region of its property key. *)
Definition add_to_region (ct : Z) (is_edge : bool) (r : gmap Z (vmap (list update_element))) (u : update_element)
  : option (gmap Z (vmap (list update_element))) :=
  let '(id, pid) := if is_edge then (Z.shiftr (up_id u) PID_BITS, wrap 64 (up_id u - wrap 64 (Z.shiftl (Z.shiftr (up_id u) PID_BITS) PID_BITS)))
                    else let p := uint2vpid_t (up_id u) in (vp_vid p, vp_pid p) in
  let u := mk_up id (up_isAdd u) (up_trx u) ct (up_value u) (up_type u) in
  m ← vset (up_value u) (fun old => default [] old ++ [u]) (default [] (r !! pid));
  Some (<[pid := m]> r).
(** [IndexStore::MovePropBufferToRegion] (layout/index_store.cpp:517-558). *)
Definition MovePropBufferToRegion (o : index_store) (trx_id ct : Z) : option index_store :=
  rv ← foldl (fun acc u => acc ≫= fun r => add_to_region ct false r u) (Some (vp_update_map o)) (default [] (vp_update_buffers o !! trx_id));
  re ← foldl (fun acc u => acc ≫= fun r => add_to_region ct true r u) (Some (ep_update_map o)) (default [] (ep_update_buffers o !! trx_id));
  Some (set_buffers (set_regions o (vtx_update_list o) (edge_update_list o) rv re (trx_status_and_count_table o))
    (vtx_update_buffers o) (edge_update_buffers o) (delete trx_id (vp_update_buffers o)) (delete trx_id (ep_update_buffers o))).
(** [IndexStore::UpdateTrxStatus] (layout/index_store.cpp:560-565). *)
Definition UpdateTrxStatus (o : index_store) (trx_id : Z) (stat : TRX_STAT) : index_store :=
  set_regions o (vtx_update_list o) (edge_update_list o) (vp_update_map o) (ep_update_map o)
    (alter (fun p => (stat, p.2)) trx_id (trx_status_and_count_table o)).

(** ** Reading the topology index *)

Section Topo.
(** [check] answers whether an element is visible to the reader. *)
Context (check : Z -> DS bool).
(** The loop over the update list: the elements that were added and are visible,
    and the ones that were deleted and are not. *)
Fixpoint scan_updates (us : list update_element) : DS (list Z * list Z) :=
  match us with
  | [] => mret ([], [])
  | u :: us' =>
      if up_id u =? 0 then scan_updates us'
      else
        b ← check (up_id u);
        '(add, del) ← scan_updates us';
        mret (if b : bool then (if up_isAdd u then up_id u :: add else add, del)
              else (add, if up_isAdd u then del else up_id u :: del))
  end.
End Topo.

Section ReadTopo.
Context {main indirect : nat} `{!TrxTableStub main indirect}.
Context (lvl : ISOLATION_LEVEL) (tbl : TrxTable) (opt_preread : bool) (trx_id begin : Z) (read_only : bool).

Definition vid_word (u : Z) : Z := vid_vid (uint2vid_t u).
Definition check_vid (u : Z) : DS bool := CheckVertexVisibilityWithVid lvl tbl opt_preread trx_id begin read_only (vid_word u).
Definition check_eid (u : Z) : DS bool := CheckEdgeVisibilityWithEid lvl tbl opt_preread trx_id begin read_only (uint2eid_t u).

(** The ids of the vertices, merged with the updates. *)
Definition merge_vertices (topo : list Z) (add del : list Z) (own : list Z) : list Z :=
  filter (fun v => v ∉ del) topo ++ add ++ own.
(** The ids of the edges, by their words: the set of added edges loses those that
    are met while deleted ones are removed. *)
Definition merge_edges (topo : list Z) (add del : list Z) (own : list Z) : list Z :=
  let add_set : gset Z := list_to_set add in
  (if decide (del = []) then topo ++ sorted add_set
   else filter (fun e => e ∉ del) topo ++ sorted (add_set ∖ list_to_set topo)) ++ own.

(** [IndexStore::ReadVtxTopoIndex] (layout/index_store.cpp:567-614). *)
Definition ReadVtxTopoIndex (o : index_store) : DS (list Z) :=
  '(add, del) ← scan_updates check_vid (vtx_update_list o);
  mret (merge_vertices (topo_vtx_data o) (vid_word <$> add) (vid_word <$> del)
    (vid_word ∘ up_id <$> default [] (vtx_update_buffers o !! trx_id))).
(** [IndexStore::ReadEdgeTopoIndex] (layout/index_store.cpp:616-668). *)
Definition ReadEdgeTopoIndex (o : index_store) : DS (list eid_t) :=
  '(add, del) ← scan_updates check_eid (edge_update_list o);
  mret (uint2eid_t <$> merge_edges (eid_t2uint <$> topo_edge_data o) (eid_t2uint ∘ uint2eid_t <$> add) (eid_t2uint ∘ uint2eid_t <$> del)
    (eid_t2uint ∘ uint2eid_t ∘ up_id <$> default [] (edge_update_buffers o !! trx_id))).
(** [IndexStore::build_topo_data] (layout/index_store.cpp:913-929), with the reader
    of the start: transaction 0 at time 0, read only. *)
Definition build_topo_data (o : index_store) : DS index_store :=
  '(_, vs) ← GetAllVertices lvl tbl opt_preread 0 0 true;
  '(_, es) ← GetAllEdges lvl tbl opt_preread 0 0 true;
  mret (mk_store vs es (vtx_prop_index o) (edge_prop_index o) (vtx_update_list o) (edge_update_list o)
    (vp_update_map o) (ep_update_map o) (vtx_update_buffers o) (edge_update_buffers o) (vp_update_buffers o) (ep_update_buffers o)
    (trx_status_and_count_table o)).
End ReadTopo.

(** ** Garbage collection of the index *)

Definition mergable (threshold : Z) (u : update_element) : bool := (up_ct u <? threshold) && negb (up_ct u =? 0).
(** One update of a transaction less; the last one removes the entry. *)
Definition uncount (trx : Z) (s : TRX_STAT) (n : Z) (t : gmap Z (TRX_STAT * Z)) : gmap Z (TRX_STAT * Z) :=
  if n - 1 =? 0 then delete trx t else <[trx := (s, n - 1)]> t.
(** The loop over the updates of vertices: the ids
    that are added and deleted, the updates that stay, and the table of
    transactions. *)
Fixpoint vtx_gc_loop (threshold : Z) (us : list update_element) (t : gmap Z (TRX_STAT * Z))
  : list Z * list Z * list update_element * gmap Z (TRX_STAT * Z) :=
  match us with
  | [] => ([], [], [], t)
  | u :: us' =>
      if mergable threshold u then
        match t !! up_trx u with
        | None => vtx_gc_loop threshold us' t
        | Some (COMMITTED, n) =>
            let '(add, del, stay, t) := vtx_gc_loop threshold us' (uncount (up_trx u) COMMITTED n t) in
            if up_isAdd u then (vid_word (up_id u) :: add, del, stay, t) else (add, vid_word (up_id u) :: del, stay, t)
        | Some (ABORT, n) => vtx_gc_loop threshold us' (uncount (up_trx u) ABORT n t)
        | Some (s, n) =>
            let '(add, del, stay, t) := vtx_gc_loop threshold us' (if n =? 0 then delete (up_trx u) t else t) in (add, del, u :: stay, t)
        end
      else let '(add, del, stay, t) := vtx_gc_loop threshold us' t in (add, del, u :: stay, t)
  end.
(** [IndexStore::VtxSelfGarbageCollect] (layout/index_store.cpp:246-304). *)
Definition VtxSelfGarbageCollect (threshold : Z) (o : index_store) : index_store :=
  let '(add, del, stay, t) := vtx_gc_loop threshold (vtx_update_list o) (trx_status_and_count_table o) in
  set_topo_v o (filter (fun v => v ∉ del) (topo_vtx_data o) ++ add) stay t.
(** The loop over the updates of edges. *)
Fixpoint edge_gc_loop (threshold : Z) (us : list update_element) (t : gmap Z (TRX_STAT * Z)) : list Z * list Z * list update_element :=
  match us with
  | [] => ([], [], [])
  | u :: us' =>
      let '(add, del, stay) := edge_gc_loop threshold us' t in
      if mergable threshold u then
        match t !! up_trx u with
        | None => (add, del, stay)
        | Some (COMMITTED, _) =>
            let e := eid_t2uint (uint2eid_t (up_id u)) in
            if up_isAdd u then (e :: add, del, stay) else (add, e :: del, stay)
        | Some (ABORT, _) => (add, del, stay)
        | _ => (add, del, u :: stay)
        end
      else (add, del, u :: stay)
  end.
(** [IndexStore::EdgeSelfGarbageCollect] (layout/index_store.cpp:306-362). *)
Definition EdgeSelfGarbageCollect (threshold : Z) (o : index_store) : index_store :=
  let '(add, del, stay) := edge_gc_loop threshold (edge_update_list o) (trx_status_and_count_table o) in
  set_topo_e o (uint2eid_t <$> merge_edges (eid_t2uint <$> topo_edge_data o) add del []) stay.

(** [IndexStore::modify_index] (layout/index_store.cpp:933-960); the count is never
    decreased, since [exists] is false. *)
Definition modify_index (idx : index_) (id : Z) (v : value_t) (isAdd : bool) : option index_ :=
  if isAdd then
    im ← vset v (fun old => default ∅ old ∪ {[id]}) (index_map idx);
    cm ← vset v (fun old => default 0 old + 1) (count_map idx);
    Some (mk_index (isEnabled idx) (total idx) im (no_key idx) cm)
  else
    f ← vfind v (index_map idx);
    im ← (match f with Some _ => vset v (fun old => default ∅ old ∖ {[id]}) (index_map idx) | None => Some (index_map idx) end);
    Some (mk_index (isEnabled idx) (total idx) im (no_key idx) (count_map idx)).
Definition apply_update (idx : index_) (u : update_element) : option index_ :=
  let with_no_key nk := mk_index (isEnabled idx) (total idx) (index_map idx) nk (count_map idx) in
  match up_type u with
  | UP_ADD => modify_index (with_no_key (no_key idx ∖ {[up_id u]})) (up_id u) (up_value u) true
  | UP_DROP => modify_index (with_no_key (no_key idx ∪ {[up_id u]})) (up_id u) (up_value u) false
  | UP_MODIFY => modify_index idx (up_id u) (up_value u) (up_isAdd u)
  | UP_NONE => Some idx
  end.
(** [IndexStore::PropSelfGarbageCollect] (layout/index_store.cpp:364-429). *)
Definition PropSelfGarbageCollect (threshold pid : Z) (type : Element_T) (o : index_store) : option index_store :=
  match prop_index o type !! pid, update_map o type !! pid with
  | Some idx, Some up =>
      let us := filter (fun u => mergable threshold u = true) (concat (up.*2)) in
      idx ← foldl (fun acc u => acc ≫= fun i => apply_update i u) (Some idx) us;
      let up := prod_map id (filter (fun u => mergable threshold u = false)) <$> up in
      Some (set_update_map (set_prop_index o type (<[pid := idx]> (prop_index o type))) type (<[pid := up]> (update_map o type)))
  | _, _ => Some o
  end.
