(* ===== verification/IndexRange.v ===== *)
(** * Property index: lookups by predicates

    On a map whose keys are well-typed values of one type, in order, the lookups
    of the index (binary searches of ranges and of single keys) find exactly the
    entries whose key satisfies the predicate. *)
From S2P Require Import Prelude MyMath Types Serialization Wire ToolValue Predicate TrxStatus RunningTrx Coordinator Rct InputSet TrxStub.
From S2P Require Import MvccList PropertyRows Topology DataStorage BarrierExperts BarrierResults IndexStore.
Local Open Scope Z_scope.

(** ** Values of one type *)

(** A well-typed value of a type whose equal values have equal contents: all
    types but [double], which has two zeros. *)
Definition kind (t : Z) (v : value_t) : Prop := value_wf v = true /\ v_type v = t /\ t <> 2.
Definition below (a b : value_t) : bool := default false (value_lt a b).

Lemma kind_key t v : kind t v -> exists k, okey_of v = Some k /\ same_shape k k.
Proof.
  intros (Hw & Ht & Hn). apply wf_reads in Hw as (H1 & H2 & H5). unfold okey_of. rewrite Ht in *.
  destruct (Z.eqb_spec t 1) as [->|]; [destruct H1 as [i ->]; [done|]; by eexists|]. destruct (Z.eqb_spec t 2); [done|].
  destruct (Z.eqb_spec t 5) as [->|]; [destruct H5 as [i ->]; [done|]; by eexists|]. by eexists.
Qed.
Lemma kind_tree t a b : kind t a -> kind t b -> tree_lt a b = value_lt a b.
Proof.
  intros (_ & Ha & Hn) (_ & Hb & _). unfold tree_lt, order_kind. rewrite Ha, Hb. destruct (Z.eqb_spec t 1); [done|]. destruct (Z.eqb_spec t 2); [done|].
  by destruct (t =? 5).
Qed.
Lemma kind_lt t a b : kind t a -> kind t b -> value_lt a b = Some (below a b).
Proof. intros (Ha & _) (Hb & _). unfold below. by destruct (value_lt_some a b Ha Hb) as [x ->]. Qed.
Lemma kind_ordered t a : kind t a -> ordered a.
Proof. intros (_ & Ht & Hn). unfold ordered, view_of. rewrite Ht. repeat case_match; try done; lia. Qed.
Lemma kind_gt t a b : kind t a -> kind t b -> value_gt a b = Some (below b a).
Proof.
  intros Ha Hb. destruct (value_gt_some a b) as [x Hx]; [apply Ha|apply Hb|]. rewrite Hx. f_equal. pose proof (kind_lt _ b a Hb Ha) as Hl.
  unfold value_gt, value_lt in *. rewrite compare_values_views in * by (apply Ha || apply Hb). injection Hx as <-. injection Hl as <-.
  destruct Ha as (Ha & Ta & Hn), Hb as (Hb & Tb & _). unfold view_of. rewrite Ta, Tb. repeat case_match; cbn; try done; lia.
Qed.
Lemma kind_ge t a b : kind t a -> kind t b -> value_ge a b = Some (negb (below a b)).
Proof. intros Ha Hb. rewrite value_ge_lt, (kind_lt t) by (apply Ha || apply Hb || by eapply kind_ordered). done. Qed.
Lemma kind_le t a b : kind t a -> kind t b -> value_le a b = Some (negb (below b a)).
Proof. intros Ha Hb. rewrite value_le_gt, (kind_gt t) by (apply Ha || apply Hb || by eapply kind_ordered). done. Qed.

(** ** Contents of equal values *)

Lemma le_combine_inj a b :
  length a = length b -> Forall (fits 8) a -> Forall (fits 8) b -> le_combine a = le_combine b -> a = b.
Proof.
  revert b. induction a as [|x a IH]; intros [|y b] Hl Ha Hb E; try done. cbn in E.
  apply Forall_cons in Ha as [Hx Ha], Hb as [Hy Hb]. unfold fits in *. injection Hl as Hl.
  assert (x = y /\ le_combine a = le_combine b) as [-> E'] by lia. f_equal. by apply IH.
Qed.
Lemma le_combine_bound a : Forall (fits 8) a -> 0 <= le_combine a < 2 ^ (8 * Z.of_nat (length a)).
Proof.
  induction 1 as [|x a Hx Ha IH]; [done|]. cbn [le_combine length]. unfold fits in Hx.
  replace (8 * Z.of_nat (S (length a))) with (8 + 8 * Z.of_nat (length a)) by lia. rewrite Z.pow_add_r by lia. lia.
Qed.
Lemma swrap_inj w x y : 0 < w -> 0 <= x < 2 ^ w -> 0 <= y < 2 ^ w -> swrap w x = swrap w y -> x = y.
Proof.
  intros Hw Hx Hy. unfold swrap, wrap. cbv zeta. rewrite !Z.mod_small by done.
  destruct (Z.ltb_spec x (2 ^ (w - 1))), (Z.ltb_spec y (2 ^ (w - 1))); lia.
Qed.
Lemma chars_same a b : Forall (fits 8) a -> Forall (fits 8) b -> chars_lt a b = false -> chars_lt b a = false -> a = b.
Proof.
  revert b. induction a as [|x a IH]; intros [|y b] Ha Hb; cbn; try done. apply Forall_cons in Ha as [Hx Ha], Hb as [Hy Hb].
  destruct (Z.ltb_spec (swrap 8 x) (swrap 8 y)), (Z.ltb_spec (swrap 8 y) (swrap 8 x)); try done. intros H1 H2.
  f_equal; [apply (swrap_inj 8); [done..|lia]|by apply IH].
Qed.
Lemma kind_same t a b : kind t a -> kind t b -> below a b = false -> below b a = false -> v_content a = v_content b.
Proof.
  intros (Ha & Ta & Hn) (Hb & Tb & _). unfold below, value_lt, compare_values. rewrite Ta, Tb, Z.eqb_refl. cbn [negb].
  assert (forall v, value_wf v = true -> v_type v = t -> Forall (fits 8) (v_content v) /\ (t = 1 -> length (v_content v) = 4%nat) /\ (t = 5 -> length (v_content v) = 8%nat)) as Hwf.
  { intros v H Ht. unfold value_wf in H. rewrite Ht in H. apply andb_true_iff in H as [Hl Hf].
    split; [by apply Forall_forall; intros x Hx; apply fitsb_true; rewrite forallb_forall in Hf; apply Hf, list_elem_of_In|].
    split; intros ->; cbn in Hl; rewrite ?orb_false_r in Hl; by apply Nat.eqb_eq. }
  destruct (Hwf a Ha Ta) as (Fa & La4 & La8), (Hwf b Hb Tb) as (Fb & Lb4 & Lb8).
  pose proof (le_combine_bound _ Fa) as Ba. pose proof (le_combine_bound _ Fb) as Bb.
  destruct (Z.eqb_spec t 1) as [->|]; [|destruct (Z.eqb_spec t 2); [done|destruct (Z.eqb_spec t 5) as [->|]; [|by apply chars_same]]].
  - rewrite La4 in Ba by done. rewrite Lb4 in Bb by done. specialize (La4 eq_refl). specialize (Lb4 eq_refl). unfold value_t2int. rewrite !content_at_some by lia. cbn [fmap option_fmap option_map mbind option_bind default from_option id].
    rewrite !take_ge by lia. rewrite !Z.ltb_ge. intros H1 H2. apply le_combine_inj; [lia|done|done|]. apply (swrap_inj 32); [lia..|unfold i32 in *; lia].
  - rewrite La8 in Ba by done. rewrite Lb8 in Bb by done. specialize (La8 eq_refl). specialize (Lb8 eq_refl). unfold value_t2uint64_t. rewrite !content_at_some by lia. cbn [fmap option_fmap option_map mbind option_bind default from_option id].
    rewrite !take_ge by lia. rewrite !Z.ltb_ge. intros H1 H2. apply le_combine_inj; [lia|done|done|lia].
Qed.
Lemma kind_below t a b : kind t a -> kind t b -> exists ka kb, okey_of a = Some ka /\ okey_of b = Some kb /\ same_shape ka kb /\ below a b = okey_lt ka kb.
Proof.
  intros Ha Hb. pose proof (kind_lt t a b Ha Hb) as E. rewrite <- (kind_tree t) in E by done. by apply tree_lt_keys.
Qed.
Lemma below_irrefl t a : kind t a -> below a a = false.
Proof.
  intros Ha. destruct (below a a) eqn:E; [|done]. destruct (kind_below t a a Ha Ha) as (ka & kb & Ea & Eb & _ & Hl).
  rewrite Ea in Eb. injection Eb as <-. rewrite E in Hl. pose proof (okey_lt_asym ka ka (eq_sym Hl)). congruence.
Qed.
Lemma below_asym t a b : kind t a -> kind t b -> below a b = true -> below b a = false.
Proof.
  intros Ha Hb E. destruct (kind_below t a b Ha Hb) as (ka & kb & Ea & Eb & _ & Hl), (kind_below t b a Hb Ha) as (kb' & ka' & Eb' & Ea' & _ & Hl').
  rewrite Ea in Ea'. rewrite Eb in Eb'. injection Ea' as <-. injection Eb' as <-. rewrite Hl'. apply okey_lt_asym. congruence.
Qed.
(** [below] is transitive, also with a step that is only not above. *)
Lemma below_le_trans t a b c : kind t a -> kind t b -> kind t c -> below b a = false -> below c b = false -> below c a = false.
Proof.
  intros Ha Hb Hc E1 E2. destruct (kind_below t b a Hb Ha) as (kb & ka & Eb & Ea & S1 & L1), (kind_below t c b Hc Hb) as (kc & kb' & Ec & Eb' & S2 & L2),
    (kind_below t c a Hc Ha) as (kc' & ka' & Ec' & Ea' & S3 & L3). simplify_eq.
  rewrite L3. apply (okey_le_trans ka kb kc); [by apply same_shape_sym|by apply same_shape_sym|congruence|congruence].
Qed.
Lemma below_trans t a b c : kind t a -> kind t b -> kind t c -> below a b = true -> below c b = false -> below a c = true.
Proof.
  intros Ha Hb Hc E1 E2. destruct (below a c) eqn:E; [done|]. rewrite (below_le_trans t b c a) in E1; done.
Qed.
Lemma below_content a a' b : v_type a = v_type a' -> v_content a = v_content a' -> below a b = below a' b.
Proof. destruct a, a'. cbn. by intros -> ->. Qed.
Lemma kind_eq t a b : kind t a -> kind t b -> value_eq a b = Some (negb (below a b) && negb (below b a)).
Proof.
  intros Ha Hb. unfold value_eq. pose proof (proj1 (proj2 Ha)) as Ta. pose proof (proj1 (proj2 Hb)) as Tb. rewrite Ta, Tb, Z.eqb_refl. cbn [negb]. f_equal.
  destruct (below a b) eqn:E1; [|destruct (below b a) eqn:E2].
  - apply bool_decide_eq_false. intros E. rewrite (below_content a b b), (below_irrefl t) in E1 by congruence. done.
  - apply bool_decide_eq_false. intros E. rewrite (below_content b a a), (below_irrefl t) in E2 by congruence. done.
  - apply bool_decide_eq_true. by apply (kind_same t).
Qed.

(** ** Sorted maps *)

Section Maps.
Context {A : Type} (t : Z).
Implicit Types (m : vmap A) (v : value_t).
Definition keys_ok (m : vmap A) : Prop := Forall (fun e => kind t e.1) m /\ StronglySorted (fun x y => below x.1 y.1 = true) m.

(** A value divides a map into the keys below it, equal to it, and above it. *)
Definition divides v m (P E S : vmap A) : Prop :=
  m = P ++ E ++ S /\ Forall (fun e => below e.1 v = true) P /\ Forall (fun e => below e.1 v = false /\ below v e.1 = false) E /\
  (length E <= 1)%nat /\ Forall (fun e => below v e.1 = true) S.
Lemma keys_cons e m : keys_ok (e :: m) -> kind t e.1 /\ keys_ok m /\ Forall (fun x => kind t x.1 /\ below e.1 x.1 = true) m.
Proof.
  intros [[He Hm]%Forall_cons [Hs Hb]%StronglySorted_inv]. split; [done|]. split; [done|]. by apply Forall_and.
Qed.
Lemma keys_app m1 m2 : keys_ok (m1 ++ m2) -> keys_ok m1 /\ keys_ok m2.
Proof.
  induction m1 as [|e m1 IH]; [intros H; split; [by split; constructor|done]|]. intros (He & Hm & Hb)%keys_cons. destruct (IH Hm) as [[H1 H2] H3].
  split; [|done]. apply Forall_app in Hb as [Hb _]. split; [by constructor|]. constructor; [done|]. eapply Forall_impl; [exact Hb|]. by intros x [_ ?].
Qed.
Lemma divide v m : keys_ok m -> kind t v ->
  exists P E S, divides v m P E S /\ vsplit v m = Some (P, E ++ S) /\ vsplit_upper v m = Some (P ++ E, S).
Proof.
  intros Hm Hv. induction m as [|[k a] m IH].
  { exists [], [], []. repeat split; try constructor; cbn; lia. }
  apply keys_cons in Hm as (Hk & Hm & Hb). cbn in Hk. cbn [vsplit vsplit_upper]. rewrite !(kind_tree t), !(kind_lt t) by done. cbn [mbind option_bind].
  destruct (below k v) eqn:Ekv.
  - destruct (IH Hm) as (P & E & S & (-> & HP & HE & HL & HS) & E1 & E2).
    rewrite (below_asym t k v), E1, E2 by done. exists ((k, a) :: P), E, S. repeat split; try done. by constructor.
  - assert (Forall (fun e => below v e.1 = true) m) as Ha.
    { eapply Forall_impl; [exact Hb|]. intros x [Hx Hlt]. cbn in Hlt. destruct (below v x.1) eqn:Ex; [done|].
      by rewrite (below_le_trans t x.1 v k) in Hlt. }
    destruct (below v k) eqn:Evk.
    + exists [], [], ((k, a) :: m). repeat split; try (by constructor); cbn; lia.
    + assert (vsplit_upper v m = Some ([], m)) as ->.
      { destruct m as [|[k' a'] m]; [done|]. cbn. apply Forall_cons in Ha as [Ha _]. apply keys_cons in Hm as [Hk' _]. cbn in Ha, Hk'.
        by rewrite (kind_tree t), (kind_lt t), Ha by done. }
      exists [], [(k, a)], m. repeat split; try done; try (by repeat constructor); cbn; lia.
Qed.

(** Filtering by a predicate, in parts that satisfy it and parts that do not. *)
Lemma matching_app m1 m2 pred l1 l2 : matching m1 pred = Some l1 -> matching m2 pred = Some l2 -> matching (m1 ++ m2) pred = Some (l1 ++ l2).
Proof.
  revert l1. induction m1 as [|[k a] m1 IH]; intros l1 E1 E2; [by injection E1 as <-|]. cbn in *.
  destruct (Evaluate pred (Some k)) as [b|]; [|done]. cbn in *. destruct (matching m1 pred) as [r|]; [|done]. cbn in *.
  rewrite (IH r eq_refl E2). cbn. destruct b; by injection E1 as <-.
Qed.
Lemma matching_all m pred (b : bool) : Forall (fun e => Evaluate pred (Some e.1) = Some b) m -> matching m pred = Some (if b then m else []).
Proof. induction 1 as [|[k a] m He _ IH]; [by destruct b|]. cbn in *. rewrite He, IH. by destruct b. Qed.
Lemma take_drop_mid (P M S : vmap A) lo hi :
  lo = length P -> hi = (length P + length M)%nat -> (if (lo <=? hi)%nat then Some (take (hi - lo) (drop lo (P ++ M ++ S))) else None) = Some M.
Proof.
  intros -> ->. rewrite (proj2 (Nat.leb_le _ _)) by lia. rewrite drop_app_length. replace (_ + _ - _)%nat with (length M) by lia. by rewrite take_app_length.
Qed.
Lemma low_excl v m P E S : keys_ok m -> kind t v -> divides v m P E S ->
  match m !! length P with None => Some (length P) | Some (k, _) => b ← value_eq k v; Some (if b : bool then Datatypes.S (length P) else length P) end
    = Some (length P + length E)%nat.
Proof.
  intros [Hk _] Hv (-> & _ & HE & HL & HS). rewrite lookup_app_r, Nat.sub_diag by done. rewrite !Forall_app in Hk. destruct Hk as (_ & HkE & HkS).
  destruct E as [|[k a] [|]]; cbn [app length lookup list_lookup] in *; [|apply Forall_cons in HE as [[H1 H2] _]|lia].
  - destruct S as [|[k a] S]; cbn [lookup list_lookup]; [f_equal; lia|]. apply Forall_cons in HkS as [Hk _], HS as [Hs _]. cbn in Hk, Hs.
    rewrite (kind_eq t), Hs by done. cbn. rewrite andb_false_r. f_equal. lia.
  - apply Forall_cons in HkE as [Hk _]. cbn in *. rewrite (kind_eq t), H1, H2 by done. cbn. f_equal. lia.
Qed.
Lemma high_excl v L m P E S high : keys_ok m -> kind t v -> divides v m P E S ->
  high = (length L + (length P + length E))%nat ->
  (if decide (high = length L) then Some high
   else match high with O => None | Datatypes.S h => '(k, _) ← (L ++ m) !! h; b ← value_neq k v; Some (if b : bool then high else h) end)
    = Some (length L + length P)%nat.
Proof.
  intros [Hk _] Hv (-> & HP & HE & HL & _) Eh. case_decide as Hd; [f_equal; lia|].
  rewrite !Forall_app in Hk. destruct Hk as (HkP & HkE & _). destruct high as [|h]; [lia|].
  rewrite lookup_app_r by (lia). destruct E as [|[k a] [|]]; cbn [length] in *; [| |lia].
  - destruct (exists_last (l := P)) as (Q & [k a] & ->); [intros ->; cbn in *; lia|].
    rewrite length_app in *. cbn [length] in *. rewrite <- !app_assoc. rewrite lookup_app_r by (lia).
    replace (h - length L - length Q)%nat with 0%nat by (lia). cbn [app lookup list_lookup mbind option_bind].
    apply Forall_app in HkP as [_ [Hk _]%Forall_cons], HP as [_ [Hp _]%Forall_cons]. cbn in Hk, Hp.
    rewrite value_eq_neq, (kind_eq t), Hp by done. cbn. f_equal. lia.
  - rewrite lookup_app_r by (lia). replace (h - length L - length P)%nat with 0%nat by (lia). cbn [app lookup list_lookup mbind option_bind].
    apply Forall_cons in HkE as [Hk _], HE as [[H1 H2] _]. cbn in Hk, H1, H2. rewrite value_eq_neq, (kind_eq t), H1, H2 by done. cbn. f_equal. lia.
Qed.
Lemma vsplit_upper_app v L m l r :
  keys_ok (L ++ m) -> kind t v -> Forall (fun e => below v e.1 = false) L -> vsplit_upper v m = Some (l, r) -> vsplit_upper v (L ++ m) = Some (L ++ l, r).
Proof.
  intros Hm Hv HL E. induction HL as [|[k a] L Hk HL IH]; [done|]. apply keys_cons in Hm as (Hk' & Hm & _). cbn in Hk, Hk'. cbn [app vsplit_upper].
  rewrite (kind_tree t), (kind_lt t), Hk by done. cbn [mbind option_bind]. by rewrite IH.
Qed.
(** The values of a predicate: of the type of the keys, as many as it takes, and
    the bounds of an interval in order. *)
Definition pred_ok (pred : PredicateValue) : Prop :=
  Forall (kind t) (pv_values pred) /\ arity_ok pred = true /\
  match pred_type pred, pv_values pred with (P_INSIDE | P_OUTSIDE | P_BETWEEN), [a; b] => below b a = false | _, _ => True end.
Definition same_range m pred : Prop := exists l, range_entries m pred = Some l /\ matching m pred = Some l.

Lemma by_parts m pred P M S lo hi :
  m = P ++ M ++ S -> build_range m pred = Some (lo, hi) -> lo = length P -> hi = (length P + length M)%nat ->
  Forall (fun e => Evaluate pred (Some e.1) = Some false) P -> Forall (fun e => Evaluate pred (Some e.1) = Some true) M ->
  Forall (fun e => Evaluate pred (Some e.1) = Some false) S -> same_range m pred.
Proof.
  intros -> Hr Hlo Hhi HP HM HS. exists M. unfold range_entries. rewrite Hr. cbn [mbind option_bind]. split; [by apply take_drop_mid|].
  apply (matching_app _ _ _ [] M); [by apply (matching_all _ _ false)|].
  rewrite <- (app_nil_r M) at 2. apply matching_app; [by apply (matching_all _ _ true)|by apply (matching_all _ _ false)].
Qed.
(** What is known of a part of the map, for the evaluation of a predicate. *)
Ltac part := repeat match goal with H : Forall _ (_ ++ _) |- _ => apply Forall_app in H as [? ?] end; rewrite ?Forall_app; repeat split;
  apply Forall_forall; intros e He; rewrite ?Forall_forall in *;
  repeat match goal with H : forall x, x ∈ ?l -> _, He : _ ∈ ?l |- _ => specialize (H _ He) end;
  cbn [Evaluate pred_type pv_values and_then or_else];
  rewrite ?(kind_lt t), ?(kind_gt t), ?(kind_le t), ?(kind_ge t) by assumption;
  unfold and_then, or_else; cbn [mbind option_bind];
  repeat match goal with H : _ /\ _ |- _ => destruct H end;
  repeat match goal with H : below ?a ?b = true |- _ =>
    lazymatch goal with _ : below b a = false |- _ => fail | _ => pose proof (below_asym t a b ltac:(assumption) ltac:(assumption) H) end end;
  repeat match goal with H : below ?a ?b = _ |- context [below ?a ?b] => rewrite H; cbn [mbind option_bind negb] end; try done.
Ltac range_simpl := unfold build_range; cbn [pred_type pv_values];
  repeat match goal with |- context [is_one_of ?p ?l] => let b := eval vm_compute in (is_one_of p l) in change (is_one_of p l) with b end;
  cbn [lookup list_lookup mbind option_bind].

Lemma one_bound m p v vs :
  keys_ok m -> kind t v -> p ∈ [P_LT; P_LTE; P_GT; P_GTE] -> same_range m (mk_pv p (v :: vs)).
Proof.
  intros Hm Hv Hp. destruct (divide v m Hm Hv) as (P & E & S & Hd & E1 & E2). pose proof (low_excl v m P E S Hm Hv Hd) as Hlow.
  pose proof (high_excl v [] m P E S _ Hm Hv Hd eq_refl) as Hhigh. cbn [app length Nat.add] in Hhigh.
  destruct Hd as (Em & HP & HE & HL & HS). pose proof (proj1 Hm) as Hk. rewrite Em, !Forall_app in Hk. destruct Hk as (KP & KE & KS).
  assert (length m = (length P + length E + length S)%nat) as El by (rewrite Em, !length_app; lia).
  rewrite !elem_of_cons, elem_of_nil in Hp. destruct Hp as [-> | [-> | [-> | [-> | []]]]].
  - apply (by_parts m _ [] P (E ++ S) 0 (length P)); [done| |done|done|done| |].
    + range_simpl. rewrite E2. cbn [mbind option_bind]. rewrite length_app, Hhigh. done.
    + part.
    + part.
  - apply (by_parts m _ [] (P ++ E) S 0 (length P + length E)); [by rewrite <- app_assoc| |done|by rewrite length_app|done| |].
    + range_simpl. rewrite E2. cbn [mbind option_bind]. by rewrite length_app.
    + part.
    + part.
  - apply (by_parts m _ (P ++ E) S [] (length P + length E) (length m)); [by rewrite <- app_assoc, app_nil_r| |by rewrite length_app|by rewrite length_app| | |done].
    + range_simpl. rewrite E1. cbn [mbind option_bind]. rewrite Hlow. done.
    + part.
    + part.
  - apply (by_parts m _ P (E ++ S) [] (length P) (length m)); [by rewrite app_nil_r| |done|rewrite length_app; lia| | |done].
    + range_simpl. rewrite E1. cbn [mbind option_bind]. done.
    + part.
    + part.
Qed.
(** Two bounds divide a map in five parts. *)
Lemma divide_twice m a b : keys_ok m -> kind t a -> kind t b -> below b a = false ->
  exists P E M F S, m = (P ++ E) ++ (M ++ F ++ S) /\ divides a m P E (M ++ F ++ S) /\ divides b (M ++ F ++ S) M F S /\ keys_ok (M ++ F ++ S) /\
    vsplit a m = Some (P, E ++ M ++ F ++ S) /\ vsplit_upper b m = Some ((P ++ E) ++ M ++ F, S) /\
    Forall (fun e => below b e.1 = false) (P ++ E) /\ Forall (fun e => below a e.1 = true) (M ++ F ++ S) /\
    Forall (fun e => kind t e.1) (P ++ E) /\ Forall (fun e => kind t e.1) (M ++ F ++ S).
Proof.
  intros Hm Ha Hb Hab. destruct (divide a m Hm Ha) as (P & E & S0 & Hd & E1 & _). pose proof Hd as (Em & HP & HE & HL & HS0).
  assert (m = (P ++ E) ++ S0) as Em' by (by rewrite <- app_assoc). pose proof Hm as Hm'. rewrite Em' in Hm'. destruct (keys_app _ _ Hm') as [[K1 _] HS].
  destruct (divide b S0 HS Hb) as (M & F & S & Hd' & _ & E2). pose proof Hd' as (Es & _).
  assert (Forall (fun e => below b e.1 = false) (P ++ E)) as Hn.
  { apply Forall_forall. intros e He. rewrite Forall_forall in K1. pose proof (K1 e He) as Ke. apply elem_of_app in He as [He|He].
    - rewrite Forall_forall in HP. apply (below_asym t); [done|done|]. apply (below_trans t _ a); auto.
    - rewrite Forall_forall in HE. apply (below_le_trans t _ a); try done. by apply HE. }
  exists P, E, M, F, S. rewrite Es in *. split_and!; try done; [|by apply HS].
  rewrite Em'. by apply vsplit_upper_app.
Qed.
Lemma two_bounds m p a b :
  keys_ok m -> kind t a -> kind t b -> below b a = false -> p ∈ [P_INSIDE; P_BETWEEN] -> same_range m (mk_pv p [a; b]).
Proof.
  intros Hm Ha Hb Hab Hp. destruct (divide_twice m a b Hm Ha Hb Hab) as (P & E & M & F & S & Em & Hd & Hd' & HT & E1 & E2 & HL & HU & K1 & K2).
  pose proof (low_excl a m _ _ _ Hm Ha Hd) as Hlow. pose proof (high_excl b (P ++ E) _ _ _ _ _ HT Hb Hd' eq_refl) as Hhigh. rewrite <- Em in Hhigh.
  destruct Hd as (_ & HP & HE & _ & _), Hd' as (_ & HM & HF & _ & HS).
  rewrite !elem_of_cons, elem_of_nil in Hp. destruct Hp as [-> | [-> | []]].
  - apply (by_parts m _ (P ++ E) M (F ++ S) (length (P ++ E)) (length (P ++ E) + length M)); [done| |done|done|part|part|part].
    range_simpl. rewrite E1. cbn [mbind option_bind]. rewrite Hlow. cbn [mbind option_bind]. rewrite E2. cbn [mbind option_bind].
    rewrite <- length_app, (length_app (P ++ E)), (length_app M), Hhigh. done.
  - apply (by_parts m _ P (E ++ M ++ F) S (length P) (length P + length (E ++ M ++ F))); [by rewrite Em, <- !app_assoc| |done|done|part|part|part].
    range_simpl. rewrite E1. cbn [mbind option_bind]. rewrite E2. cbn [mbind option_bind]. by rewrite <- !app_assoc, (length_app P).
Qed.
Lemma range_unique m pred l : same_range m pred -> matching m pred = Some l -> range_entries m pred = Some l.
Proof. intros (l' & H1 & H2) H. congruence. Qed.

(** Every range of the index is what filtering by the predicate gives. *)
Lemma in_ranges_exact m pred :
  keys_ok m -> pred_ok pred -> pred_type pred ∈ [P_LT; P_LTE; P_GT; P_GTE; P_INSIDE; P_OUTSIDE; P_BETWEEN] ->
  exists l pred', in_ranges m pred = Some (l, pred') /\ matching m pred = Some l.
Proof.
  destruct pred as [p vs]. intros Hm (Hv & Har & Hab) Hp. cbn [pred_type pv_values] in *. unfold arity_ok in Har. cbn [pred_type pv_values] in Har.
  assert (forall q, q <> P_OUTSIDE -> in_ranges m (mk_pv q vs) = (l ← range_entries m (mk_pv q vs); Some (l, mk_pv q vs))) as Hr.
  { intros q Hq. unfold in_ranges. cbn [pred_type]. by destruct q. }
  assert (p ∈ [P_LT; P_LTE; P_GT; P_GTE] -> same_range m (mk_pv p vs)) as Hone.
  { intros Hq. destruct vs as [|v vs]; [by rewrite !elem_of_cons, elem_of_nil in Hq; destruct Hq as [-> | [-> | [-> | [-> | []]]]]|].
    apply Forall_cons in Hv as [Hv _]. by apply one_bound. }
  assert (same_range m (mk_pv p vs) -> p <> P_OUTSIDE -> exists l pred', in_ranges m (mk_pv p vs) = Some (l, pred') /\ matching m (mk_pv p vs) = Some l) as Hdone.
  { intros (l & H1 & H2) Hq. exists l, (mk_pv p vs). rewrite Hr, H1 by done. done. }
  assert (p ∈ [P_LT; P_LTE; P_GT; P_GTE] \/ p ∈ [P_INSIDE; P_OUTSIDE; P_BETWEEN]) as [Hq|Hq] by set_solver.
  { apply Hdone; [auto|]. intros ->. by rewrite !elem_of_cons, elem_of_nil in Hq; destruct Hq as [|[|[|[|[]]]]]. }
  destruct vs as [|a [|b [|]]]; try (by rewrite !elem_of_cons, elem_of_nil in Hq; destruct Hq as [-> | [-> | [-> | []]]]).
  apply Forall_cons in Hv as [Ha [Hb _]%Forall_cons]. assert (below b a = false) as Hba.
  { by rewrite !elem_of_cons, elem_of_nil in Hq; destruct Hq as [-> | [-> | [-> | []]]]. }
  destruct (decide (p = P_OUTSIDE)) as [-> | Hne]; [|apply Hdone; [|done]; apply two_bounds; try done; set_solver].
  destruct (divide_twice m a b Hm Ha Hb Hba) as (P & E & M & F & S & Em & Hd & Hd' & HT & _ & _ & HL & HU & K1 & K2).
  destruct Hd as (_ & HP & HE & _ & _), Hd' as (_ & HM & HF & _ & HS).
  exists (P ++ S), (mk_pv P_GT [b; a]). unfold in_ranges. cbn [pred_type pv_values].
  assert (forall q p1 p2 p3, Forall (fun e => Evaluate q (Some e.1) = Some p1) P -> Forall (fun e => Evaluate q (Some e.1) = Some p2) (E ++ M ++ F) ->
    Forall (fun e => Evaluate q (Some e.1) = Some p3) S ->
    matching m q = Some ((if p1 : bool then P else []) ++ (if p2 : bool then E ++ M ++ F else []) ++ (if p3 : bool then S else []))) as Hmatch.
  { intros q p1 p2 p3 H1 H2 H3. rewrite Em. replace ((P ++ E) ++ M ++ F ++ S) with (P ++ (E ++ M ++ F) ++ S) by (by rewrite <- !app_assoc).
    repeat apply matching_app; by apply matching_all. }
  rewrite (range_unique m (mk_pv P_LT [a; b]) P).
  2: apply one_bound; try done; set_solver.
  2: rewrite (Hmatch _ true false false); [by rewrite app_nil_r|part..].
  cbn [mbind option_bind]. rewrite (range_unique m (mk_pv P_GT [b; a]) S).
  2: apply one_bound; try done; set_solver.
  2: rewrite (Hmatch _ false false true); [done|part..].
  split; [done|]. rewrite (Hmatch _ true false true); [done|part..].
Qed.
(** ** Single keys *)

Lemma vfind_spec v m : keys_ok m -> kind t v ->
  exists r, vfind v m = Some r /\ forall a, r = Some a <-> exists k, (k, a) ∈ m /\ value_eq k v = Some true.
Proof.
  intros Hm Hv. destruct (divide v m Hm Hv) as (P & E & S & (Em & HP & HE & HL & HS) & E1 & _). pose proof (proj1 Hm) as Hk. rewrite Em, !Forall_app in Hk.
  destruct Hk as (KP & KE & KS). unfold vfind. rewrite E1. cbn [mbind option_bind].
  assert (forall k a, (k, a) ∈ m -> value_eq k v = Some true -> (k, a) ∈ E) as HinE.
  { intros k a Hi Heq. rewrite Em, !elem_of_app in Hi. rewrite Forall_forall in HP, HS, KP, KS. destruct Hi as [Hi|[Hi|Hi]]; [|done|].
    - specialize (HP _ Hi). specialize (KP _ Hi). cbn in *. by rewrite (kind_eq t), HP in Heq.
    - specialize (HS _ Hi). specialize (KS _ Hi). cbn in *. by rewrite (kind_eq t), HS, andb_false_r in Heq. }
  destruct E as [|[k a] [|]]; cbn [length] in HL; [| |lia].
  - exists None. split.
    + destruct S as [|[k a] S]; [done|]. cbn [app]. apply Forall_cons in HS as [Hs _], KS as [Ks _]. cbn in Hs, Ks. by rewrite (kind_tree t), (kind_lt t), Hs by done.
    + intros a. split; [done|]. intros (k & Hi & Heq). by apply (HinE k a) in Hi; [apply elem_of_nil in Hi|].
  - apply Forall_cons in HE as [[H1 H2] _], KE as [Ke _]. cbn in H1, H2, Ke. exists (Some a). split.
    + cbn [app]. by rewrite (kind_tree t), (kind_lt t), H2 by done.
    + intros a'. split.
      * intros [= <-]. exists k. rewrite (kind_eq t), H1, H2 by done. split; [|done]. rewrite Em. set_solver.
      * intros (k' & Hi & Heq). apply (HinE k' a') in Hi; [|done]. apply list_elem_of_singleton in Hi. by injection Hi as _ <-.
Qed.
Lemma found_spec vs m : keys_ok m -> Forall (kind t) vs ->
  exists l, found m vs = Some l /\ forall a, a ∈ l <-> exists k, (k, a) ∈ m /\ any_equal vs k = Some true.
Proof.
  intros Hm Hvs. induction Hvs as [|v vs Hv Hvs (l & El & Hl)].
  { exists []. split; [done|]. intros a. rewrite elem_of_nil. split; [done|]. by intros (k & _ & H). }
  destruct (vfind_spec v m Hm Hv) as (r & Er & Hr). cbn [found]. rewrite Er, El. cbn [mbind option_bind]. eexists. split; [done|]. intros a.
  assert (a ∈ match r with Some x => x :: l | None => l end <-> r = Some a \/ a ∈ l) as ->.
  { destruct r; rewrite ?elem_of_cons; naive_solver. }
  rewrite Hr, Hl. pose proof (proj1 Hm) as Hk. rewrite Forall_forall in Hk. cbn [any_equal]. split.
  - intros [(k & Hi & H)|(k & Hi & H)]; exists k; (split; [done|]); pose proof (Hk _ Hi) as Kk; cbn in Kk; rewrite (kind_eq t) in * by done.
    + by rewrite andb_comm, H.
    + rewrite H. by destruct (_ && _).
  - intros (k & Hi & H). pose proof (Hk _ Hi) as Kk. cbn in Kk. rewrite (kind_eq t) in H by done. cbn [mbind option_bind] in H.
    destruct (negb (below v k) && negb (below k v)) eqn:E; [|by right; exists k]. left. exists k. rewrite (kind_eq t) by done. by rewrite andb_comm, E.
Qed.
Lemma matching_spec m pred : Forall (fun e => is_Some (Evaluate pred (Some e.1))) m ->
  exists l, matching m pred = Some l /\ forall e, e ∈ l <-> e ∈ m /\ Evaluate pred (Some e.1) = Some true.
Proof.
  induction 1 as [|[k a] m [b Hb] _ (l & El & Hl)]; [exists []; split; [done|]; intros e; rewrite elem_of_nil; tauto|].
  cbn in Hb. cbn [matching]. rewrite Hb, El. cbn [mbind option_bind]. eexists. split; [done|]. intros e.
  destruct b; rewrite ?elem_of_cons, Hl; split.
  - intros [-> | [He H]]; [split; [by left|done]|auto].
  - intros [[-> | He] H]; auto.
  - intros [He H]. auto.
  - intros [[-> | He] H]; [cbn in H; congruence|auto].
Qed.
Lemma evaluate_defined pred m : keys_ok m -> pred_ok pred -> Forall (fun e => is_Some (Evaluate pred (Some e.1))) m.
Proof.
  intros [Hk _] (Hv & Har & _). eapply Forall_impl; [exact Hk|]. intros [k a] Kk. cbn in *. destruct pred as [p vs]. unfold arity_ok in Har. unfold Evaluate.
  cbn [pred_type pv_values] in *. assert (forallb value_wf (vs) = true) as Hw.
  { apply forallb_forall. intros x Hx. apply list_elem_of_In in Hx. rewrite Forall_forall in Hv. by apply (Hv x). }
  destruct vs as [|v0 vs]; [by destruct p|]. pose proof Hv as Hv'. apply Forall_cons in Hv as [Hv0 Hvs].
  destruct p; try (by eexists); rewrite ?value_eq_neq, ?(kind_eq t), ?(kind_lt t), ?(kind_gt t), ?(kind_le t), ?(kind_ge t) by done; try (by eexists).
  1-3: destruct vs as [|v1 [|]]; try discriminate Har; apply Forall_cons in Hvs as [Hv1 _];
    rewrite ?(kind_lt t), ?(kind_gt t), ?(kind_le t), ?(kind_ge t) by done; unfold and_then, or_else; cbn; case_match; by eexists.
  - apply any_equal_some; [done|apply Kk].
  - destruct (any_equal_some (v0 :: vs) k Hw (proj1 Kk)) as [b ->]. by eexists.
Qed.
End Maps.

(** ** Elements of the index *)

Lemma elem_sorted x (X : gset Z) : x ∈ sorted X <-> x ∈ X.
Proof. unfold sorted. rewrite merge_sort_Permutation. apply elem_of_elements. Qed.
Lemma elem_all x (l : list (gset Z)) : x ∈ all_elements l <-> exists X, X ∈ l /\ x ∈ X.
Proof. unfold all_elements. rewrite list_elem_of_bind. setoid_rewrite elem_sorted. naive_solver. Qed.
Lemma sorted_sorted X : Sorted Z.le (sorted X).
Proof. apply Sorted_merge_sort. intros x y. lia. Qed.
Lemma all_sorted l : (length l <= 1)%nat -> Sorted Z.le (all_elements l).
Proof. destruct l as [|X [|]]; cbn; [constructor| |lia]. rewrite app_nil_r. intros _. apply sorted_sorted. Qed.
(** The ids of the entries of a map whose key satisfies a predicate. *)
Definition selected (m : vmap (gset Z)) (pred : PredicateValue) (x : Z) : Prop :=
  exists k X, (k, X) ∈ m /\ x ∈ X /\ Evaluate pred (Some k) = Some true.
Lemma selected_matching m pred l x :
  (forall e, e ∈ l <-> e ∈ m /\ Evaluate pred (Some e.1) = Some true) -> x ∈ all_elements (l.*2) <-> selected m pred x.
Proof.
  intros Hl. rewrite elem_all. split.
  - intros (X & ([k X'] & -> & Hi)%list_elem_of_fmap & Hx). apply Hl in Hi as [Hi He]. by exists k, X'.
  - intros (k & X & Hi & Hx & He). exists X. split; [|done]. apply list_elem_of_fmap. exists (k, X). split; [done|]. by apply Hl.
Qed.

Lemma elements_of_exact t idx pred :
  keys_ok t (index_map idx) -> pred_ok t pred -> pred_type pred <> P_NONE ->
  exists vec n, elements_of idx [] pred = Some (vec, n) /\ ((n <= 1)%nat -> Sorted Z.le vec) /\ forall x, x ∈ vec <-> selected (index_map idx) pred x.
Proof.
  intros Hm Hp Hn. set (m := index_map idx) in *. pose proof (matching_spec m pred (evaluate_defined t pred m Hm Hp)) as (l & El & Hl).
  pose proof (in_ranges_exact t m pred Hm Hp) as Hr. destruct Hp as (Hv & Har & _). destruct pred as [p vs]. cbn [pred_type pv_values] in *.
  unfold arity_ok in Har. cbn [pred_type pv_values] in Har. unfold elements_of. cbn [pred_type pv_values]. fold m.
  assert (forall v vs', vs = v :: vs' -> p = P_EQ -> exists r, vfind v m = Some r /\ Sorted Z.le (default [] (sorted <$> r)) /\ forall x, x ∈ default [] (sorted <$> r) <-> selected m (mk_pv p vs) x) as Heq.
  { intros v vs' -> ->. apply Forall_cons in Hv as [Hv _]. destruct (vfind_spec t v m Hm Hv) as (r & Er & H). exists r. split; [done|].
    split; [destruct r; [apply sorted_sorted|constructor]|]. intros x. split.
    - destruct r as [X|]; [|by intros ?%elem_of_nil]. intros Hx%elem_sorted. destruct (proj1 (H X) eq_refl) as (k & Hi & He). by exists k, X.
    - intros (k & X & Hi & Hx & He). rewrite (proj2 (H X)); [by apply elem_sorted|]. by exists k. }
  destruct p; try done; try (destruct Hr as (l' & pr & -> & E'); [set_solver|]; rewrite El in E'; injection E' as <-; eexists _, _; (split; [done|]);
    (split; [rewrite <- (length_fmap snd l); apply all_sorted|]); intros x; by apply selected_matching).
  - eexists _, _. split; [done|]. split; [rewrite <- (length_fmap snd m); apply all_sorted|]. intros x. change (x ∈ all_elements (m.*2) <-> selected m (mk_pv P_ANY vs) x). rewrite elem_all. destruct vs as [|v vs]; [done|]. split.
    + intros (X & ([k X'] & -> & Hi)%list_elem_of_fmap & Hx). by exists k, X'.
    + intros (k & X & Hi & Hx & _). exists X. split; [|done]. apply list_elem_of_fmap. by exists (k, X).
  - destruct vs as [|v vs]; [done|]. destruct (Heq v vs eq_refl eq_refl) as (r & Er & Hs & Hx). cbn [lookup list_lookup mbind option_bind]. rewrite Er. cbn.
    eexists _, _. split; [done|]. split; [done|]. exact Hx.
  - rewrite El. cbn [mbind option_bind matching]. eexists _, _. split; [done|]. split; [rewrite <- (length_fmap snd l); apply all_sorted|].
    intros x. by apply selected_matching.
  - destruct (found_spec t vs m Hm Hv) as (f & Ef & Hf). rewrite Ef. cbn [mbind option_bind].
    assert (found ([] : vmap (list update_element)) vs = Some []) as ->.
    { clear. induction vs as [|v vs IH]; [done|]. cbn. by rewrite IH. }
    eexists _, _. split; [done|]. split; [apply all_sorted|]. intros x. change (x ∈ all_elements f <-> selected m (mk_pv P_WITHIN vs) x). rewrite elem_all. setoid_rewrite Hf. unfold selected, Evaluate. cbn [pv_values pred_type].
    destruct vs; [done|]. naive_solver.
  - rewrite El. cbn [mbind option_bind matching]. eexists _, _. split; [done|]. split; [rewrite <- (length_fmap snd l); apply all_sorted|].
    intros x. by apply selected_matching.
Qed.

(** ** Chains of predicates *)

Lemma sorted_min x l y : Sorted Z.le (x :: l) -> y ∈ x :: l -> x <= y.
Proof.
  intros H. apply Sorted_StronglySorted in H; [|intros a b c; lia]. apply StronglySorted_inv in H as [_ H]. rewrite Forall_forall in H.
  intros [-> | Hy]%elem_of_cons; [lia|by apply H].
Qed.
Lemma intersection_spec f a b : Sorted Z.le a -> Sorted Z.le b -> (length a + length b <= f)%nat ->
  Sorted Z.le (set_intersection f a b) /\ forall x, x ∈ set_intersection f a b <-> x ∈ a /\ x ∈ b.
Proof.
  revert a b. induction f as [|f IH]; intros a b Ha Hb Hf.
  { destruct a, b; cbn in Hf; try lia. split; [constructor|]. intros x. cbn. rewrite elem_of_nil. tauto. }
  destruct a as [|x a]; [split; [constructor|]; intros z; cbn; rewrite !elem_of_nil; tauto|].
  destruct b as [|y b]; [split; [constructor|]; intros z; cbn; rewrite !elem_of_nil; tauto|]. cbn in Hf. cbn [set_intersection].
  pose proof (Sorted_inv Ha) as [Ha' _]. pose proof (Sorted_inv Hb) as [Hb' _].
  pose proof (fun z => sorted_min x a z Ha) as Ma. pose proof (fun z => sorted_min y b z Hb) as Mb.
  destruct (Z.ltb_spec x y); [|destruct (Z.ltb_spec y x)].
  - destruct (IH a (y :: b)) as [Hs Hi]; [done|done|cbn; lia|]. split; [done|]. intros z. rewrite Hi. specialize (Mb z). rewrite (elem_of_cons a).
    split; [tauto|]. intros [[-> | Hz] Hz']; [|tauto]. apply Mb in Hz'. lia.
  - destruct (IH (x :: a) b) as [Hs Hi]; [done|done|cbn; lia|]. split; [done|]. intros z. rewrite Hi. specialize (Ma z). rewrite (elem_of_cons b).
    split; [tauto|]. intros [Hz [-> | Hz']]; [|tauto]. apply Ma in Hz. lia.
  - assert (x = y) as <- by lia. destruct (IH a b) as [Hs Hi]; [done|done|lia|]. split.
    + constructor; [done|]. destruct (set_intersection f a b) as [|z r] eqn:E; constructor. apply Ma. right. apply (Hi z). left.
    + intros z. rewrite !elem_of_cons, Hi. tauto.
Qed.

Definition idx_of (o : index_store) (type : Element_T) (pid : Z) : index_ := default index_default (prop_index o type !! pid).
(** The index of a key is in order, and its updates are merged. *)
Definition lookup_ok (o : index_store) (type : Element_T) (c : Z * PredicateValue) : Prop :=
  (exists t, keys_ok t (index_map (idx_of o type c.1)) /\ pred_ok t c.2) /\ pred_type c.2 <> P_NONE /\ default [] (update_map o type !! c.1) = [].
Definition satisfies (o : index_store) (type : Element_T) (x : Z) (c : Z * PredicateValue) : Prop :=
  selected (index_map (idx_of o type c.1)) c.2 x.

Lemma get_elements_exact o type c ns :
  lookup_ok o type c -> exists vec o', get_elements_by_predicate o type c.1 c.2 ns = Some (vec, o') /\ (ns = true -> Sorted Z.le vec) /\
    (forall x, x ∈ vec <-> satisfies o type x c) /\ (forall pid, idx_of o' type pid = idx_of o type pid) /\ update_map o' type = update_map o type.
Proof.
  destruct c as [pid pred]. cbn [fst snd]. intros ((t & Hk & Hp) & Hn & Hu). cbn [fst snd] in *. unfold get_elements_by_predicate. fold (idx_of o type pid).
  set (o' := set_prop_index o type _). assert (update_map o' type = update_map o type) as Eu by (by destruct type). rewrite Eu, Hu.
  destruct (elements_of_exact t (idx_of o type pid) pred Hk Hp Hn) as (vec & n & -> & Hs & Hx). cbn [mbind option_bind].
  eexists _, o'. split; [done|]. split_and!; try done.
  - intros ->. cbn [andb]. destruct (Nat.ltb_spec 1 n); [apply Sorted_merge_sort; intros ? ?; lia|auto].
  - intros x. unfold satisfies. cbn [fst snd]. rewrite <- Hx. destruct (ns && _); [by rewrite merge_sort_Permutation|done].
  - intros q. unfold idx_of at 1. assert (prop_index o' type = <[pid := idx_of o type pid]> (prop_index o type)) as -> by (by destruct type).
    destruct (decide (pid = q)) as [<- | Hq]; [by rewrite lookup_insert_eq|by rewrite lookup_insert_ne].
Qed.
Lemma read_chain_exact o type chain ns acc (Q : Z -> Prop) :
  Forall (lookup_ok o type) chain -> (chain <> [] -> acc <> None -> ns = true) ->
  match acc with Some l => (chain = [] \/ Sorted Z.le l) /\ forall x, x ∈ l <-> Q x | None => chain <> [] /\ (tail chain <> [] -> ns = true) /\ forall x, Q x end ->
  exists l o', read_chain o type chain ns acc = Some (l, o') /\ forall x, x ∈ l <-> Q x /\ Forall (satisfies o type x) chain.
Proof.
  revert o acc Q. induction chain as [|[pid pred] chain IH]; intros o acc Q Hok Hns Hacc.
  { destruct acc as [l|]; [|by destruct Hacc]. destruct Hacc as [_ Hl]. exists l, o. split; [done|]. intros x. rewrite Hl. split; [|tauto]. intros H. by split. }
  apply Forall_cons in Hok as [Hc Hok]. destruct (get_elements_exact o type (pid, pred) ns Hc) as (vec & o1 & E & Hs & Hx & Hi & Hu).
  cbn [read_chain]. cbn [fst snd] in E. rewrite E. cbn [mbind option_bind].
  assert (Forall (lookup_ok o1 type) chain) as Hok1.
  { eapply Forall_impl; [exact Hok|]. intros c. unfold lookup_ok. by rewrite Hi, Hu. }
  assert (forall x, Forall (satisfies o1 type x) chain <-> Forall (satisfies o type x) chain) as Hsat.
  { intros x. apply Forall_iff. intros c. unfold satisfies. by rewrite Hi. }
  destruct (IH o1 (Some match acc with Some t => set_intersection (length t + length vec) t vec | None => vec end) (fun x => Q x /\ satisfies o type x (pid, pred)))
    as (l & o' & El & Hl); [done| | |].
  - intros Hch _. destruct acc; [by apply Hns|]. by apply Hacc.
  - destruct acc as [t|].
    + destruct Hacc as [[?|Ht] Hq]; [done|]. destruct (intersection_spec (length t + length vec) t vec Ht) as [H1 H2]; [by apply Hs, Hns|done|].
      split; [by right|]. intros x. by rewrite H2, Hq, Hx.
    + destruct Hacc as (_ & Hn & Hq). split; [destruct chain; [by left|right; by apply Hs, Hn]|]. intros x. rewrite Hx. naive_solver.
  - exists l, o'. split; [done|]. intros x. rewrite Hl, Hsat, Forall_cons. tauto.
Qed.


(** ** Keeping the keys in order *)

Section Order.
Context {A : Type} (t : Z).
Implicit Types m : vmap A.
Lemma keys_split m1 m2 :
  keys_ok t (m1 ++ m2) <-> keys_ok t m1 /\ keys_ok t m2 /\ forall x y, x ∈ m1 -> y ∈ m2 -> below x.1 y.1 = true.
Proof.
  induction m1 as [|e m1 IH].
  { cbn. split; [|tauto]. intros H. split; [by split; constructor|]. split; [done|]. by intros x y ?%not_elem_of_nil. }
  split.
  - intros H. apply (keys_cons t) in H as (He & Hm & Hb). apply IH in Hm as ((K1 & S1) & H2 & H3). rewrite Forall_app in Hb. destruct Hb as [B1 B2].
    split; [split; [by constructor|]; constructor; [done|]; eapply Forall_impl; [exact B1|]; by intros x [_ ?]|]. split; [done|].
    intros x y [-> | Hx]%elem_of_cons Hy; [|by apply H3]. rewrite Forall_forall in B2. by apply B2.
  - intros (H1 & H2 & H3). apply (keys_cons t) in H1 as (He & Hm & Hb).
    assert (keys_ok t (m1 ++ m2)) as [K S]. { apply IH. split_and!; try done. intros x y Hx. apply H3. by right. }
    split; [by constructor|]. cbn. constructor; [done|]. apply Forall_app. split; [eapply Forall_impl; [exact Hb|]; by intros x [_ ?]|].
    apply Forall_forall. intros y Hy. apply H3; [left|done].
Qed.
Lemma vset_keys v f m : keys_ok t m -> kind t v -> exists m', vset v f m = Some m' /\ keys_ok t m'.
Proof.
  intros Hm Hv. destruct (divide t v m Hm Hv) as (P & E & S & (Em & HP & HE & HL & HS) & E1 & _). unfold vset. rewrite E1. cbn [mbind option_bind].
  rewrite Em in Hm. apply keys_split in Hm as (HmP & HmES & HPx). apply keys_split in HmES as (HmE & HmS & HEx).
  assert (forall k b, kind t k -> (forall x, x ∈ P -> below x.1 k = true) -> (forall y, y ∈ S -> below k y.1 = true) -> keys_ok t (P ++ (k, b) :: S)) as Hput.
  { intros k b Hk H1 H2. apply keys_split. split; [done|]. split.
    - change ((k, b) :: S) with ([(k, b)] ++ S). apply keys_split.
      split; [split; [by apply Forall_singleton|by repeat constructor]|]. split; [done|]. intros x y ->%list_elem_of_singleton Hy. by apply H2.
    - intros x y Hx [-> | Hy]%elem_of_cons; [by apply H1|]. apply HPx; [done|]. apply elem_of_app. by right. }
  rewrite Forall_forall in HP, HS. destruct E as [|[k a] [|]]; cbn [length app] in *; [| |lia].
  - destruct S as [|[k a] S]; [eexists; split; [done|]; by apply Hput|]. assert (below v k = true) as Hb by (apply (HS (k, a)); left).
    pose proof (proj1 HmS) as [Kk _]%Forall_cons. cbn in Kk. rewrite (kind_tree t), (kind_lt t), Hb by done. cbn. eexists. split; [done|]. by apply Hput.
  - apply Forall_cons in HE as [[H1 H2] _]. pose proof (proj1 HmE) as [Kk _]%Forall_cons. cbn in H1, H2, Kk. rewrite (kind_tree t), (kind_lt t), H2 by done.
    cbn. eexists. split; [done|]. apply Hput; [done| |].
    + intros x Hx. apply (HPx x (k, a)); [done|left].
    + intros y Hy. apply (HEx (k, a) y); [left|done].
Qed.
Lemma vset_all_keys {B} (g : value_t * B -> option A -> A) (l : vmap B) m :
  keys_ok t m -> Forall (fun e => kind t e.1) l ->
  exists m', foldl (fun acc e => acc ≫= vset e.1 (g e)) (Some m) l = Some m' /\ keys_ok t m'.
Proof.
  intros Hm Hl. revert m Hm. induction Hl as [|e l He _ IH]; intros m Hm; [by exists m|]. cbn.
  destruct (vset_keys e.1 (g e) m Hm He) as (m' & -> & Hm'). by apply IH.
Qed.
End Order.

(** The keys of an index, and of its counts. *)
Definition index_ok (t : Z) (idx : index_) : Prop := keys_ok t (index_map idx) /\ keys_ok t (count_map idx).

(** An index that is built from values of one type has its keys in order. *)
Lemma set_index_ok t o type pid (m : vmap (list Z)) nk :
  index_ok t (idx_of o type pid) -> Forall (fun e => kind t e.1) m ->
  exists o', SetIndexMap true o type pid m nk = Some (true, o') /\ index_ok t (idx_of o' type pid).
Proof.
  intros [H1 H2] Hm. unfold SetIndexMap. fold (idx_of o type pid).
  destruct (vset_all_keys t (fun e old => default (list_to_set e.2) old) m _ H1 Hm) as (im & -> & H1').
  destruct (vset_all_keys t (fun e _ => Z.of_nat (size (list_to_set e.2 : gset Z))) m _ H2 Hm) as (cm & -> & H2'). cbn [mbind option_bind].
  eexists. split; [done|]. unfold idx_of. destruct type; cbn; by rewrite lookup_insert_eq.
Qed.
(** Merging the updates keeps the keys in order. *)
Lemma apply_update_ok t idx u : index_ok t idx -> kind t (up_value u) -> exists idx', apply_update idx u = Some idx' /\ index_ok t idx'.
Proof.
  intros [H1 H2] Hv. assert (forall i id add, index_ok t i -> exists i', modify_index i id (up_value u) add = Some i' /\ index_ok t i') as Hmod.
  { intros i id add [G1 G2]. unfold modify_index. destruct add.
    - destruct (vset_keys t (up_value u) (fun old => default ∅ old ∪ {[id]}) _ G1 Hv) as (im & -> & Him).
      destruct (vset_keys t (up_value u) (fun old => default 0 old + 1) _ G2 Hv) as (cm & -> & Hcm). cbn. eexists. by split.
    - destruct (vfind_spec t (up_value u) _ G1 Hv) as (r & -> & _). cbn [mbind option_bind]. destruct r as [X|]; [|eexists; by split].
      destruct (vset_keys t (up_value u) (fun old => default ∅ old ∖ {[id]}) _ G1 Hv) as (im & -> & Him). cbn. eexists. by split. }
  unfold apply_update. destruct (up_type u); try (by apply Hmod). eexists. by split.
Qed.
Lemma prop_gc_ok t th pid type o :
  index_ok t (idx_of o type pid) -> (forall up, update_map o type !! pid = Some up -> Forall (fun u => kind t (up_value u)) (concat (up.*2))) ->
  exists o', PropSelfGarbageCollect th pid type o = Some o' /\ index_ok t (idx_of o' type pid).
Proof.
  intros Hi Hu. unfold PropSelfGarbageCollect, idx_of in *. destruct (prop_index o type !! pid) as [idx|] eqn:Ei.
  2: { exists o. by rewrite Ei. }
  destruct (update_map o type !! pid) as [up|] eqn:Eu; [|exists o; by rewrite Ei]. specialize (Hu up eq_refl).
  assert (forall us i, Forall (fun u => kind t (up_value u)) us -> index_ok t i ->
    exists i', foldl (fun acc u => acc ≫= fun i => apply_update i u) (Some i) us = Some i' /\ index_ok t i') as Hall.
  { intros us. induction us as [|u us IH]; intros i Hk Hok; [by exists i|]. apply Forall_cons in Hk as [Hk Hks]. cbn.
    destruct (apply_update_ok t i u Hok Hk) as (i' & -> & Hi'). by apply IH. }
  destruct (Hall (filter (fun u => mergable th u = true) (concat (up.*2))) idx) as (i' & -> & Hi'); [|done|].
  { apply Forall_forall. intros u Hin. apply list_elem_of_filter in Hin as [_ Hin]. rewrite Forall_forall in Hu. by apply Hu. }
  cbn [mbind option_bind]. eexists. split; [done|]. destruct type; cbn; by rewrite lookup_insert_eq.
Qed.

(** ** Example *)

Definition ex_int (i : Z) : value_t := int2value_t i value_default.
Definition ex_ages : index_store :=
  match SetIndexMap true no_index VERTEX 3 [(ex_int 5, [12]); (ex_int 9, [13; 10]); (ex_int (-2), [11; 10])] [] with Some (_, o) => o | None => no_index end.
Definition ex_chain : list (Z * PredicateValue) := [(3, mk_pv P_OUTSIDE [ex_int 0; ex_int 6]); (3, mk_pv P_LTE [ex_int 5])].
Lemma ex_int_kind i : kind 1 (ex_int i).
Proof.
  split; [|done]. unfold value_wf, ex_int, int2value_t, add_content. cbn [v_type v_content]. change (v_content value_default) with (@nil Z). cbn [app].
  rewrite length_le_split. cbn [Z.eqb Pos.eqb Nat.eqb andb orb]. apply forallb_forall. intros x Hx. apply list_elem_of_In in Hx.
  apply fitsb_true. pose proof (le_split_bytes 4 i) as H. rewrite Forall_forall in H. by apply H.
Qed.
Lemma ex_ages_ok : index_ok 1 (idx_of ex_ages VERTEX 3).
Proof.
  destruct (set_index_ok 1 no_index VERTEX 3 [(ex_int 5, [12]); (ex_int 9, [13; 10]); (ex_int (-2), [11; 10])] []) as (o & E & Ho).
  - split; split; constructor.
  - repeat (apply Forall_cons; split; [apply ex_int_kind|]). constructor.
  - unfold ex_ages. by rewrite E.
Qed.
Lemma ex_chain_ok : Forall (lookup_ok ex_ages VERTEX) ex_chain.
Proof.
  destruct ex_ages_ok as [Hk _]. assert (forall c, c ∈ ex_chain -> c.1 = 3 /\ pred_ok 1 c.2 /\ pred_type c.2 <> P_NONE) as H.
  { apply Forall_forall. repeat (apply Forall_cons; split; [split; [done|]; split; [|done]; split; [|by vm_compute]; repeat (apply Forall_cons; split; [apply ex_int_kind|]); constructor|]).
    constructor. }
  apply Forall_forall. intros c (E & Hp & Hn)%H. split; [exists 1; by rewrite E|]. split; [done|]. rewrite E. by vm_compute.
Qed.
