(* ===== verification/StorageInv.v ===== *)
(** * The invariant of the storage, and commits

    The state of a storage is related to a [graph]: the versions that its lists
    of the four kinds represent.  [storage_ok] says that the maps, rows and lists
    fit together; [history_ok] says that the history of a running transaction
    names exactly the lists in which it has a version, and that what hangs on a
    vertex or an edge version that the transaction created is its own.

    The second part shows that [Commit] turns exactly the versions of the
    transaction into committed ones. *)
From S2P Require Import Prelude Types TrxStatus Coordinator TrxStub MvccList CellPool ValueStore Serialization.
From S2P Require Import RowChain PropertyRows Topology Forest RowMemory DataStorage.
Local Open Scope nat_scope.

(** ** The versions behind a storage *)

Record graph := mk_graph {
  g_v : gmap nat (versions bool); g_e : gmap nat (versions EdgeVersion);
  g_vp : gmap nat (versions ValueHeader); g_ep : gmap nat (versions ValueHeader);
}.

(** Whether a list has committed versions, and whose version is pending. *)
Definition info {V} (v : versions V) : bool * option Z :=
  (match committed v with [] => false | _ => true end, (fun x => x.1.1) <$> pending v).
#[global] Arguments info : simpl never.
Definition look (g : graph) (k : list_kind) (a : nat) : option (bool * option Z) :=
  match k with
  | KVertex => info <$> g_v g !! a | KEdge => info <$> g_e g !! a
  | KVP => info <$> g_vp g !! a | KEP => info <$> g_ep g !! a
  end.
Definition pends (g : graph) (t : Z) (k : list_kind) (a : nat) : Prop := exists c, look g k a = Some (c, Some t).

(** The values in the versions of a list. *)
Definition vals {V} (v : versions V) : list V := (committed v).*2 ++ option_list (snd <$> pending v).

(** Version number [i] of the edge list [a] has the property rows [e]. *)
Definition uses (g : graph) (a i e : nat) : Prop :=
  exists v x, g_e g !! a = Some v /\ vals v !! i = Some x /\ ep_row_list x = Some e.

(** ** The invariant *)
Section Invariant.
Context (VPR EPR VER NT : nat).
Implicit Types (s : Storage) (g : graph).

(** The memory of the four kinds. *)
Record mem_rel s g : Prop := {
  mr_v : exists C, forest (v_lists s) (v_items s) C (g_v g);
  mr_e : exists C, forest (e_lists (edge_mem s)) (e_items (edge_mem s)) C (g_e g);
  mr_vp : mem_ok (vp_mem s) (g_vp g);
  mr_ep : mem_ok (ep_mem s) (g_ep g);
  mr_kinds k k' a : is_Some (look g k a) -> is_Some (look g k' a) -> k = k';
  mr_vp_threads : threads (values (vp_mem s)) = NT;
  mr_ep_threads : threads (values (ep_mem s)) = NT;
}.

Definition alive g (k : list_kind) (a : nat) : Prop := is_Some (look g k a).

(** The rows of a vertex: its lists of edges and of properties. *)
Definition ve_lists (v : Vertex) : list nat :=
  match ve_row_list v with Some tl => e_list <$> edges tl | None => [] end.
Definition vp_lists (v : Vertex) : list nat := match vp_row_list v with Some rl => row_lists rl | None => [] end.

Record vertex_ok g (vid : Z) (v : Vertex) : Prop := {
  vk_list : exists a, v_mvcc_list v = Some a /\ alive g KVertex a;
  vk_ve : forall tl, ve_row_list v = Some tl -> topo_ok VER tl;
  vk_vp : forall rl, vp_row_list v = Some rl -> rows_good VPR vid rl;
  vk_ve_alive : Forall (alive g KEdge) (ve_lists v);
  vk_vp_alive : Forall (alive g KVP) (vp_lists v);
  vk_vp_once : NoDup (vp_lists v);
}.

Record eprows_ok g (rl : RowList) : Prop := {
  er_good : exists owner, rows_good EPR owner rl;
  er_alive : Forall (alive g KEP) (row_lists rl);
  er_once : NoDup (row_lists rl);
}.

Record storage_ok s g : Prop := {
  so_mem : mem_rel s g;
  so_vertex vid v : vertex_map s !! vid = Some v -> vertex_ok g vid v;
  so_v_inj u w vu vw a : vertex_map s !! u = Some vu -> vertex_map s !! w = Some vw ->
    v_mvcc_list vu = Some a -> v_mvcc_list vw = Some a -> u = w;
  so_vp_inj u w vu vw l : vertex_map s !! u = Some vu -> vertex_map s !! w = Some vw ->
    l ∈ vp_lists vu -> l ∈ vp_lists vw -> u = w;
  so_out k p : out_edge_map s !! k = Some p -> exists a, p = Some a /\ alive g KEdge a;
  so_in k p : in_edge_map s !! k = Some p -> exists a, p = Some a /\ alive g KEdge a;
  so_out_inj k k' a : out_edge_map s !! k = Some (Some a) -> out_edge_map s !! k' = Some (Some a) -> k = k';
  so_in_out k k' a : out_edge_map s !! k = Some (Some a) -> in_edge_map s !! k' <> Some (Some a);
  so_in_uses k a i e : in_edge_map s !! k = Some (Some a) -> ~ uses g a i e;
  so_rows e rl : ep_rows s !! e = Some rl -> eprows_ok g rl;
  so_ep_inj e e' rl rl' l : ep_rows s !! e = Some rl -> ep_rows s !! e' = Some rl' ->
    l ∈ row_lists rl -> l ∈ row_lists rl' -> e = e';
  so_uses a i e : uses g a i e -> is_Some (ep_rows s !! e);
  so_uses_inj a b i j e : uses g a i e -> uses g b j e -> a = b /\ i = j;
  so_owner k a i e rl : out_edge_map s !! k = Some (Some a) -> uses g a i e -> ep_rows s !! e = Some rl -> rows_good EPR k rl;
}.

(** ** Histories *)

(** What a transaction [t] created and what hangs on it: the rows of a vertex
    that it added, the properties of an edge version of its own. *)
Inductive depends s g (t : Z) : list_kind * nat -> list_kind * nat -> Prop :=
  | DepVE vid v a l : vertex_map s !! vid = Some v -> v_mvcc_list v = Some a ->
      look g KVertex a = Some (false, Some t) -> l ∈ ve_lists v -> depends s g t (KVertex, a) (KEdge, l)
  | DepVP vid v a l : vertex_map s !! vid = Some v -> v_mvcc_list v = Some a ->
      look g KVertex a = Some (false, Some t) -> l ∈ vp_lists v -> depends s g t (KVertex, a) (KVP, l)
  | DepEP a v b x e rl l : g_e g !! a = Some v -> pending v = Some (t, b, x) -> ep_row_list x = Some e ->
      ep_rows s !! e = Some rl -> l ∈ row_lists rl -> depends s g t (KEdge, a) (KEP, l).

(** The records whose abort recycles what hangs on their list. *)
Definition opens (r : ProcessRecord) (p : list_kind * nat) : Prop :=
  pr_list r = p.2 /\ kind_of (pr_type r) = p.1 /\ pr_type r <> PROCESS_DROP_V.

Record history_ok s g : Prop := {
  ho_trx t h : process_history s !! t = Some h -> is_trx t;
  ho_pends t h r : process_history s !! t = Some h -> r ∈ process_vector h -> pends g t (kind_of (pr_type r)) (pr_list r);
  ho_recorded t k a : pends g t k a ->
    exists h r, process_history s !! t = Some h /\ r ∈ process_vector h /\ kind_of (pr_type r) = k /\ pr_list r = a;
  ho_vid t h a : process_history s !! t = Some h -> mk_record PROCESS_ADD_V a ∈ process_vector h ->
    exists vid v tl rl, mvcclist_to_vid_map h !! a = Some vid /\ vertex_map s !! vid = Some v /\ v_mvcc_list v = Some a /\
      ve_row_list v = Some tl /\ vp_row_list v = Some rl /\ look g KVertex a = Some (false, Some t);
  ho_own t p c : depends s g t p c -> look g c.1 c.2 = Some (false, Some t);
  ho_order t h p c i j r r' : process_history s !! t = Some h -> depends s g t p c ->
    process_vector h !! i = Some r -> opens r p -> process_vector h !! j = Some r' -> pr_list r' = c.2 -> i < j;
}.

Definition storage_inv s g : Prop := storage_ok s g /\ history_ok s g.
End Invariant.

(** ** Steps of the monad *)

Lemma ds_bind {A B} (m : DS A) (f : A -> DS B) s r : (m ≫= f) s = Some r <-> exists x s1, m s = Some (x, s1) /\ f x s1 = Some r.
Proof. unfold mbind, DS_bind. destruct (m s) as [[x s1]|]; cbn; naive_solver. Qed.
Lemma ds_ret {A} (x : A) s r : (mret x : DS A) s = Some r <-> r = (x, s).
Proof. unfold mret, DS_ret. naive_solver. Qed.
Lemma ds_lift {A} (o : option A) s r : lift o s = Some r <-> exists x, o = Some x /\ r = (x, s).
Proof. unfold lift. destruct o; cbn; naive_solver. Qed.
Lemma ds_get s r : get s = Some r <-> r = (s, s).
Proof. unfold get. naive_solver. Qed.
Lemma ds_modify f s r : modify f s = Some r <-> r = (tt, f s).
Proof. unfold modify. naive_solver. Qed.

(** Runs the steps whose results are known. *)
Lemma run_get {B} (f : Storage -> DS B) s : (get ≫= f) s = f s s.
Proof. done. Qed.
Lemma run_lift {A B} (x : A) (f : A -> DS B) s : (lift (Some x) ≫= f) s = f x s.
Proof. done. Qed.
Lemma run_modify {B} h (f : unit -> DS B) s : (modify h ≫= f) s = f tt (h s).
Proof. done. Qed.
Lemma run_ret {A B} (x : A) (f : A -> DS B) s : ((mret x : DS A) ≫= f) s = f x s.
Proof. done. Qed.
Lemma run_step {A B} (m : DS A) (f : A -> DS B) s x s1 : m s = Some (x, s1) -> (m ≫= f) s = f x s1.
Proof. intros E. unfold mbind, DS_bind. by rewrite E. Qed.
Ltac ds_simpl := repeat first [rewrite run_get | rewrite run_lift | rewrite run_modify | rewrite run_ret]; cbv beta iota.

(** ** Changing the lists of a set *)

Section OnSet.
Context {V : Type}.
Implicit Types (f : versions V -> versions V) (A : gmap nat (versions V)) (S T : gset nat).

Definition at_set f S (a : nat) (v : versions V) : versions V := if decide (a ∈ S) then f v else v.
Definition on_set f S A A' : Prop := forall a, A' !! a = at_set f S a <$> A !! a.

Lemma at_set_in f S a v : a ∈ S -> at_set f S a v = f v.
Proof. intros H. unfold at_set. by rewrite decide_True. Qed.
Lemma at_set_out f S a v : (a ∉ S) -> at_set f S a v = v.
Proof. intros H. unfold at_set. by rewrite decide_False. Qed.

Lemma on_set_one f A a v : A !! a = Some v -> on_set f {[a]} A (<[a := f v]> A).
Proof.
  intros E b. destruct (decide (b = a)) as [->|N].
  - rewrite lookup_insert_eq, E. cbn. by rewrite at_set_in by set_solver.
  - rewrite lookup_insert_ne by done. destruct (A !! b); [|done]. cbn. by rewrite at_set_out by set_solver.
Qed.
Lemma on_set_skip f S A : (forall a, a ∈ S -> A !! a = None) -> on_set f S A A.
Proof. intros H b. destruct (A !! b) eqn:E; [|done]. cbn. rewrite at_set_out; [done|]. intros Hb%H. congruence. Qed.
Lemma on_set_trans f S T A A1 A2 : (forall v, f (f v) = f v) -> on_set f S A A1 -> on_set f T A1 A2 -> on_set f (S ∪ T) A A2.
Proof.
  intros Hf H1 H2 a. rewrite H2, H1. destruct (A !! a) as [v|]; [|done]. cbn. f_equal. unfold at_set.
  destruct (decide (a ∈ S)) as [i|n], (decide (a ∈ T)) as [i'|n'].
  1-3: rewrite decide_True by set_solver; by rewrite ?Hf. by rewrite decide_False by set_solver.
Qed.
Lemma on_set_all f S A A' : on_set f S A A' -> (forall a v, A !! a = Some v -> (a ∉ S) -> f v = v) -> A' = f <$> A.
Proof.
  intros H1 H2. apply map_eq. intros a. rewrite H1, lookup_fmap. destruct (A !! a) as [v|] eqn:E; [|done]. cbn. f_equal.
  unfold at_set. case_decide; [done|]. symmetry. by eapply H2.
Qed.
End OnSet.

Definition own_pending {V} (v : versions V) (t : Z) : bool := match pending v with Some (t', _, _) => (t' =? t)%Z | None => false end.
(** The version of [t], if there is one, is committed or undone. *)
Definition commit_own {V} (t ct : Z) (v : versions V) : versions V := if own_pending v t then commit_abs v ct else v.
Definition abort_own {V} (t : Z) (v : versions V) : versions V := if own_pending v t then abort_abs v else v.

Lemma commit_own_idem {V} t ct (v : versions V) : commit_own t ct (commit_own t ct v) = commit_own t ct v.
Proof. unfold commit_own, own_pending, commit_abs. destruct (pending v) as [[[t' b] x]|] eqn:E; [|by rewrite E]. destruct (t' =? t)%Z eqn:Et; cbn; by rewrite ?E, ?Et. Qed.
Lemma abort_own_idem {V} t (v : versions V) : abort_own t (abort_own t v) = abort_own t v.
Proof. unfold abort_own, own_pending, abort_abs. destruct (pending v) as [[[t' b] x]|] eqn:E; [|by rewrite E]. destruct (t' =? t)%Z eqn:Et; cbn; by rewrite ?E, ?Et. Qed.

Lemma info_pending {V} (v : versions V) c t : info v = (c, Some t) -> exists b x, pending v = Some (t, b, x).
Proof. unfold info. destruct (pending v) as [[[t' b] x]|]; [|by intros [=]]. intros [= _ ->]. eauto. Qed.
Lemma own_pending_info {V} (v : versions V) t : own_pending v t = true <-> exists c, info v = (c, Some t).
Proof.
  unfold own_pending, info. destruct (pending v) as [[[t' b] x]|]; cbn; [|naive_solver]. rewrite Z.eqb_eq. naive_solver.
Qed.

(** The lists of all kinds at the addresses of [S] change by [f]. *)
Record changed (f : forall V, versions V -> versions V) (S : gset nat) (g g' : graph) : Prop := {
  ch_v : on_set (f bool) S (g_v g) (g_v g'); ch_e : on_set (f EdgeVersion) S (g_e g) (g_e g');
  ch_vp : on_set (f ValueHeader) S (g_vp g) (g_vp g'); ch_ep : on_set (f ValueHeader) S (g_ep g) (g_ep g');
}.
Definition commits (t ct : Z) : gset nat -> graph -> graph -> Prop := changed (fun V => commit_own t ct).

Lemma changed_trans (f : forall V, versions V -> versions V) S T g g1 g2 : (forall V v, f V (f V v) = f V v) ->
  changed f S g g1 -> changed f T g1 g2 -> changed f (S ∪ T) g g2.
Proof. intros Hf [] []. split; eapply on_set_trans; eauto. Qed.

(** ** Commit *)
Section Commit.
Context (NT : nat).
Implicit Types (s : Storage) (g : graph).

(** What a commit leaves alone. *)
Definition same_shape s s' : Prop :=
  vertex_map s' = vertex_map s /\ out_edge_map s' = out_edge_map s /\ in_edge_map s' = in_edge_map s /\
  ep_rows s' = ep_rows s /\ process_history s' = process_history s /\ status_updates s' = status_updates s /\
  gc_eids s' = gc_eids s /\ gc_vids s' = gc_vids s.
Lemma same_shape_trans s1 s2 s3 : same_shape s1 s2 -> same_shape s2 s3 -> same_shape s1 s3.
Proof. unfold same_shape. naive_solver congruence. Qed.

(** The commit time is later than what is committed in the lists of [t]. *)
Definition later g (t ct : Z) : Prop :=
  let ok V (A : gmap nat (versions V)) := forall a v, A !! a = Some v -> own_pending v t = true -> Forall (fun c => c < ct)%Z (committed v).*1 in
  ok _ (g_v g) /\ ok _ (g_e g) /\ ok _ (g_vp g) /\ ok _ (g_ep g).

Lemma look_alive g k a : look g k a = None <->
  match k with KVertex => g_v g !! a = None | KEdge => g_e g !! a = None | KVP => g_vp g !! a = None | KEP => g_ep g !! a = None end.
Proof. destruct k; cbn; apply fmap_None. Qed.

Lemma kinds_ne s g k k' a : mem_rel NT s g -> is_Some (look g k a) -> k <> k' -> look g k' a = None.
Proof. intros M H N. destruct (look g k' a) eqn:E; [|done]. destruct N. eapply mr_kinds; [done..|by rewrite E]. Qed.

(** Changing one list keeps the memory related when its kind's memory is. *)
Lemma changed_look (f : forall V, versions V -> versions V) S g g' k a : changed f S g g' -> is_Some (look g' k a) <-> is_Some (look g k a).
Proof.
  intros [H1 H2 H3 H4]. destruct k; cbn; rewrite !fmap_is_Some; [rewrite (H1 a)|rewrite (H2 a)|rewrite (H3 a)|rewrite (H4 a)]; apply fmap_is_Some.
Qed.

Lemma mem_rel_changed f S s s' g g' : mem_rel NT s g -> changed f S g g' ->
  (exists C, forest (v_lists s') (v_items s') C (g_v g')) ->
  (exists C, forest (e_lists (edge_mem s')) (e_items (edge_mem s')) C (g_e g')) ->
  mem_ok (vp_mem s') (g_vp g') -> mem_ok (ep_mem s') (g_ep g') ->
  threads (values (vp_mem s')) = NT -> threads (values (ep_mem s')) = NT -> mem_rel NT s' g'.
Proof.
  intros M Hch F1 F2 F3 F4 F5 F6. split; try done. intros k k' a X1 X2. eapply (mr_kinds _ _ _ M);
    eapply (changed_look f S g g'); done.
Qed.

(** A change of one list of kind [k]. *)
Definition set_versions g (k : list_kind) (a : nat) (f : forall V, versions V -> versions V) : graph :=
  match k with
  | KVertex => mk_graph (alter (f bool) a (g_v g)) (g_e g) (g_vp g) (g_ep g)
  | KEdge => mk_graph (g_v g) (alter (f EdgeVersion) a (g_e g)) (g_vp g) (g_ep g)
  | KVP => mk_graph (g_v g) (g_e g) (alter (f ValueHeader) a (g_vp g)) (g_ep g)
  | KEP => mk_graph (g_v g) (g_e g) (g_vp g) (alter (f ValueHeader) a (g_ep g))
  end.
Lemma on_set_alter {V} (f : versions V -> versions V) A a : on_set f {[a]} A (alter f a A).
Proof.
  intros b. destruct (decide (b = a)) as [->|N].
  - rewrite lookup_alter_eq. destruct (A !! a); [|done]. cbn. by rewrite at_set_in by set_solver.
  - rewrite lookup_alter_ne by done. destruct (A !! b); [|done]. cbn. by rewrite at_set_out by set_solver.
Qed.
Lemma set_versions_changed f g k a : (forall k', k' <> k -> look g k' a = None) -> changed f {[a]} g (set_versions g k a f).
Proof.
  intros H. assert (forall k', k' <> k -> forall b, b ∈ ({[a]} : gset nat) -> look g k' b = None) as H'.
  { intros k' N b ->%elem_of_singleton. by apply H. }
  destruct k; split; cbn; try apply on_set_alter; apply on_set_skip; intros b Hb.
  all: match goal with
    | |- g_v _ !! _ = None => by eapply (look_alive g KVertex), H'
    | |- g_e _ !! _ = None => by eapply (look_alive g KEdge), H'
    | |- g_vp _ !! _ = None => by eapply (look_alive g KVP), H'
    | |- g_ep _ !! _ = None => by eapply (look_alive g KEP), H' end.
Qed.
Lemma alter_insert {V} (f : versions V -> versions V) A a v : A !! a = Some v -> alter f a A = <[a := f v]> (A : gmap nat (versions V)).
Proof.
  intros E. apply map_eq. intros b. destruct (decide (b = a)) as [->|].
  - by rewrite lookup_alter_eq, lookup_insert_eq, E. 
  - by rewrite lookup_alter_ne, lookup_insert_ne.
Qed.

Lemma commit_record_spec t ct r s g : mem_rel NT s g -> is_time ct -> later g t ct ->
  pends g t (kind_of (pr_type r)) (pr_list r) ->
  exists s' g', commit_record t ct r s = Some (tt, s') /\ same_shape s s' /\ mem_rel NT s' g' /\ commits t ct {[pr_list r]} g g'.
Proof.
  intros M Hct (L1 & L2 & L3 & L4) [c P]. set (a := pr_list r) in *.
  assert (is_Some (look g (kind_of (pr_type r)) a)) as Ha by (by rewrite P).
  pose proof (set_versions_changed (fun V => commit_own t ct) g (kind_of (pr_type r)) a) as Hch.
  specialize (Hch (fun k' N => kinds_ne s g _ k' a M Ha (not_eq_sym N))).
  assert (forall V (v : versions V) b x, pending v = Some (t, b, x) -> own_pending v t = true /\ commit_own t ct v = commit_abs v ct) as Hown.
  { intros V v b x E. unfold commit_own, own_pending. rewrite E, Z.eqb_refl. done. }
  pose proof M as [[Cv Fv] [Ce Fe] Mvp Mep _ T1 T2].
  unfold commit_record. fold a. destruct (kind_of (pr_type r)) eqn:Ek; cbn in P; apply fmap_Some in P as (v & Ev & (b & x & Hp)%eq_sym%info_pending);
    destruct (Hown _ v b x Hp) as [Ho Hc].
  - destruct (forest_commit _ _ _ _ _ _ _ _ _ ct Fv Ev Hp Hct (L1 _ _ Ev Ho)) as (l & h' & l' & El & Hcv & F').
    eexists _, _. split; [|split; [|split; [|exact Hch]]].
    + ds_simpl. rewrite El. ds_simpl. rewrite Hcv. done.
    + done.
    + eapply mem_rel_changed; [exact M|exact Hch|..]; cbn; try done; [|by eexists]. exists Cv. by rewrite (alter_insert _ _ _ _ Ev), Hc.
  - destruct (forest_commit _ _ _ _ _ _ _ _ _ ct Fe Ev Hp Hct (L2 _ _ Ev Ho)) as (l & h' & l' & El & Hcv & F').
    eexists _, _. split; [|split; [|split; [|exact Hch]]].
    + ds_simpl. rewrite El. ds_simpl. rewrite Hcv. done.
    + done.
    + eapply mem_rel_changed; [exact M|exact Hch|..]; cbn; try done; [by eexists|]. exists Ce. by rewrite (alter_insert _ _ _ _ Ev), Hc.
  - destruct (mem_commit _ _ _ _ _ _ _ ct Mvp Ev Hp Hct (L3 _ _ Ev Ho)) as (l & h' & l' & El & Hcv & F').
    eexists _, _. split; [|split; [|split; [|exact Hch]]].
    + ds_simpl. rewrite El. ds_simpl. rewrite Hcv. done.
    + done.
    + eapply mem_rel_changed; [exact M|exact Hch|..]; cbn; try done; [by eexists..|]. by rewrite (alter_insert _ _ _ _ Ev), Hc.
  - destruct (mem_commit _ _ _ _ _ _ _ ct Mep Ev Hp Hct (L4 _ _ Ev Ho)) as (l & h' & l' & El & Hcv & F').
    eexists _, _. split; [|split; [|split; [|exact Hch]]].
    + ds_simpl. rewrite El. ds_simpl. rewrite Hcv. done.
    + done.
    + eapply mem_rel_changed; [exact M|exact Hch|..]; cbn; try done; [by eexists..|]. by rewrite (alter_insert _ _ _ _ Ev), Hc.
Qed.

Lemma changed_pends f S g g' k a : changed f S g g' -> (a ∉ S) -> look g' k a = look g k a.
Proof.
  intros [H1 H2 H3 H4] N. destruct k; cbn; [rewrite (H1 a)|rewrite (H2 a)|rewrite (H3 a)|rewrite (H4 a)];
    match goal with |- context [_ <$> (at_set _ _ _ <$> ?o)] => destruct o; [|done] end; cbn; by rewrite at_set_out.
Qed.
Lemma later_changed t ct S g g' : commits t ct S g g' -> later g t ct -> later g' t ct.
Proof.
  intros [H1 H2 H3 H4] (L1 & L2 & L3 & L4). assert (forall V (A A' : gmap nat (versions V)), on_set (commit_own t ct) S A A' ->
    (forall a v, A !! a = Some v -> own_pending v t = true -> Forall (fun c => c < ct)%Z (committed v).*1) ->
    forall a v, A' !! a = Some v -> own_pending v t = true -> Forall (fun c => c < ct)%Z (committed v).*1) as Hl.
  { intros V A A' Hs L a v Ev Ho. rewrite Hs in Ev. apply fmap_Some in Ev as (w & Ew & ->). revert Ho. unfold at_set.
    case_decide; [|by eauto]. unfold commit_own. destruct (own_pending w t) eqn:E; [|by rewrite E].
    unfold commit_abs, own_pending. destruct (pending w) as [[[]]|] eqn:Ep; [done|]. unfold own_pending in E. by rewrite Ep in E. }
  split_and!; eauto.
Qed.

Lemma commit_loop t ct rs T s g : mem_rel NT s g -> is_time ct -> later g t ct ->
  (forall r, r ∈ rs -> (pr_list r ∉ T) -> pends g t (kind_of (pr_type r)) (pr_list r)) ->
  (forall r r', r ∈ rs -> r' ∈ rs -> pr_list r = pr_list r' -> kind_of (pr_type r) = kind_of (pr_type r')) ->
  exists s' g' S, each_list (commit_record t ct) rs T s = Some (tt, s') /\ same_shape s s' /\ mem_rel NT s' g' /\ commits t ct S g g' /\
    (forall r, r ∈ rs -> (pr_list r ∉ T) -> pr_list r ∈ S).
Proof.
  revert T s g. induction rs as [|r rs IH]; intros T s g M Hct L P K.
  { exists s, g, ∅. split_and!; try done; [|by intros r ?%not_elem_of_nil]. split; apply on_set_skip; set_solver. }
  assert (forall r0 r', r0 ∈ rs -> r' ∈ rs -> pr_list r0 = pr_list r' -> kind_of (pr_type r0) = kind_of (pr_type r')) as K' by set_solver.
  cbn [each_list]. destruct (decide (pr_list r ∈ T)) as [Hin|Hout].
  - destruct (IH T s g M Hct L) as (s' & g' & S & E & Sh & M' & C & H); [set_solver|done|].
    exists s', g', S. split_and!; try done. intros r0 [->|Hr]%elem_of_cons ?; [done|by apply H].
  - destruct (commit_record_spec t ct r s g M Hct L) as (s1 & g1 & E1 & Sh1 & M1 & C1); [apply P; [left|done]|].
    destruct (IH ({[pr_list r]} ∪ T) s1 g1 M1 Hct (later_changed _ _ _ _ _ C1 L)) as (s' & g' & S & E & Sh & M' & C & H).
    { intros r0 Hr N. destruct (P r0) as [c Pc]; [by right|set_solver|]. exists c. rewrite <- Pc. eapply changed_pends; [exact C1|set_solver]. }
    { done. }
    exists s', g', ({[pr_list r]} ∪ S). split_and!.
    + unfold mbind, DS_bind. rewrite E1. cbn. exact E.
    + by eapply same_shape_trans.
    + done.
    + eapply changed_trans; [intros; apply commit_own_idem|done..].
    + intros r0 [->|Hr]%elem_of_cons ?; [set_solver|]. destruct (decide (pr_list r0 = pr_list r)) as [->|]; [set_solver|]. set_solver.
Qed.
End Commit.

(** Every version of [t] is committed at [ct]. *)
Definition commit_all (t ct : Z) (g : graph) : graph :=
  mk_graph (commit_own t ct <$> g_v g) (commit_own t ct <$> g_e g) (commit_own t ct <$> g_vp g) (commit_own t ct <$> g_ep g).

Lemma own_false_look {V} (A : gmap nat (versions V)) a v t :
  A !! a = Some v -> (forall c, info <$> A !! a <> Some (c, Some t)) -> own_pending v t = false.
Proof.
  intros E N. destruct (own_pending v t) eqn:O; [|done]. apply own_pending_info in O as [c Ec]. destruct (N c). rewrite E. cbn. by rewrite Ec.
Qed.
Lemma info_commit {V} t ct (v : versions V) : info (commit_own t ct v) = if own_pending v t then (true, None) else info v.
Proof.
  unfold commit_own. destruct (own_pending v t) eqn:O; [|done]. unfold own_pending in O. unfold commit_abs.
  destruct (pending v) as [[[t' b] x]|] eqn:E; [|done]. unfold info. cbn. by destruct (committed v).
Qed.
Lemma own_pending_dec {V} (v : versions V) t : own_pending v t = bool_decide ((info v).2 = Some t).
Proof. unfold own_pending, info. destruct (pending v) as [[[t' b] x]|]; cbn; [|done]. destruct (Z.eqb_spec t' t); symmetry; [apply bool_decide_eq_true|apply bool_decide_eq_false]; naive_solver. Qed.

Lemma look_commit t ct g k a : look (commit_all t ct g) k a =
  (fun i => if bool_decide (i.2 = Some t) then (true, None) else i) <$> look g k a.
Proof.
  assert (forall V (A : gmap nat (versions V)), info <$> (commit_own t ct <$> A) !! a =
    (fun i => if bool_decide (i.2 = Some t) then (true, None) else i) <$> (info <$> A !! a)) as H.
  { intros V A. rewrite lookup_fmap. destruct (A !! a) as [v|]; [|done]. cbn. by rewrite info_commit, own_pending_dec. }
  destruct k; apply H.
Qed.
Lemma look_commit_pend t ct g k a c t' : look (commit_all t ct g) k a = Some (c, Some t') <-> look g k a = Some (c, Some t') /\ t' <> t.
Proof.
  rewrite look_commit. destruct (look g k a) as [[c0 p]|]; cbn; [|naive_solver]. case_bool_decide; naive_solver.
Qed.
Lemma alive_commit t ct g k a : alive (commit_all t ct g) k a <-> alive g k a.
Proof. unfold alive. rewrite look_commit. apply fmap_is_Some. Qed.
Lemma vals_commit {V} t ct (v : versions V) : vals (commit_own t ct v) = vals v.
Proof.
  unfold commit_own, own_pending. destruct (pending v) as [[[t' b] x]|] eqn:E; [|done]. destruct (t' =? t)%Z; [|done].
  unfold commit_abs, vals. rewrite E. cbn. by rewrite fmap_app, app_nil_r.
Qed.
Lemma uses_commit t ct g a i e : uses (commit_all t ct g) a i e <-> uses g a i e.
Proof.
  unfold uses. cbn. rewrite lookup_fmap. split.
  - intros (v & x & (w & Ew & ->)%fmap_Some & Hx & He). rewrite vals_commit in Hx. eauto.
  - intros (v & x & Ev & Hx & He). rewrite Ev. exists (commit_own t ct v), x. by rewrite vals_commit.
Qed.

Section CommitInv.
Context (VPR EPR VER NT : nat).
Abbreviation storage_ok := (storage_ok VPR EPR VER NT).
Abbreviation storage_inv := (storage_inv VPR EPR VER NT).

Lemma vertex_ok_alive g g' vid v : (forall k a, alive g k a -> alive g' k a) -> vertex_ok VPR VER g vid v -> vertex_ok VPR VER g' vid v.
Proof.
  intros H [(a & E1 & E2) H2 H3 H4 H5 H6]. split; [by exists a; auto|done|done|..|done]; eapply Forall_impl; eauto.
Qed.
Lemma eprows_ok_alive g g' rl : (forall k a, alive g k a -> alive g' k a) -> eprows_ok EPR g rl -> eprows_ok EPR g' rl.
Proof. intros H [H1 H2 H3]. split; [done| |done]. eapply Forall_impl; eauto. Qed.

(** The maps and rows stay, no list goes, and no version with rows comes. *)
Lemma storage_ok_shape s s' g g' : storage_ok s g -> mem_rel NT s' g' ->
  vertex_map s' = vertex_map s -> out_edge_map s' = out_edge_map s -> in_edge_map s' = in_edge_map s -> ep_rows s' = ep_rows s ->
  (forall k a, alive g k a -> alive g' k a) -> (forall a i e, uses g' a i e -> uses g a i e) -> storage_ok s' g'.
Proof.
  intros [] M E1 E2 E3 E4 Ha Hu. split; rewrite ?E1, ?E2, ?E3, ?E4; try done.
  - intros vid v Ev. eapply vertex_ok_alive; eauto.
  - intros k p Ek. destruct (so_out0 k p Ek) as (a & ? & ?). eauto.
  - intros k p Ek. destruct (so_in0 k p Ek) as (a & ? & ?). eauto.
  - intros k a i e Ek U%Hu. by eapply so_in_uses0.
  - intros e rl Er. eapply eprows_ok_alive; eauto.
  - intros a i e U%Hu. eauto.
  - intros a b i j e U%Hu U'%Hu. eauto.
  - intros k a i e rl Ek U%Hu. eauto.
Qed.

Lemma storage_ok_commit t ct s s' g : storage_ok s g -> same_shape s s' -> mem_rel NT s' (commit_all t ct g) -> storage_ok s' (commit_all t ct g).
Proof.
  intros H (E1 & E2 & E3 & E4 & _) M. eapply storage_ok_shape; try done.
  - intros k a. apply alive_commit.
  - intros a i e. apply uses_commit.
Qed.

Lemma depends_commit t ct s s' g t' p c : same_shape s s' -> depends s' (commit_all t ct g) t' p c -> depends s g t' p c /\ t' <> t.
Proof.
  intros (E1 & _ & _ & E4 & _) D. destruct D as [vid v a l Ev El Hl Hin|vid v a l Ev El Hl Hin|a v b x e rl l Ev Ep Hx Er Hin].
  - rewrite E1 in Ev. apply look_commit_pend in Hl as [Hl N]. split; [by econstructor|done].
  - rewrite E1 in Ev. apply look_commit_pend in Hl as [Hl N]. split; [by eapply DepVP|done].
  - rewrite E4 in Er. cbn in Ev. rewrite lookup_fmap in Ev. apply fmap_Some in Ev as (w & Ew & ->).
    assert (own_pending w t = false) as O.
    { destruct (own_pending w t) eqn:O; [|done]. unfold commit_own in Ep. rewrite O in Ep. unfold commit_abs in Ep.
      unfold own_pending in O. by destruct (pending w) as [[[]]|]. }
    unfold commit_own in Ep. rewrite O in Ep. unfold own_pending in O. rewrite Ep in O. apply Z.eqb_neq in O.
    split; [by eapply DepEP|done].
Qed.

Lemma history_ok_commit t ct s s' g : history_ok s g -> same_shape s s' ->
  history_ok (set_history s' (delete t (process_history s'))) (commit_all t ct g).
Proof.
  intros H Sh. pose proof Sh as (E1 & _ & _ & E4 & E5 & _).
  assert (forall t' h, delete t (process_history s') !! t' = Some h <-> t' <> t /\ process_history s !! t' = Some h) as Hh.
  { intros t' h. rewrite lookup_delete_Some, E5. naive_solver. }
  assert (forall t' p c, depends (set_history s' (delete t (process_history s'))) (commit_all t ct g) t' p c -> depends s g t' p c /\ t' <> t) as Hd.
  { intros t' p c D. apply (depends_commit t ct s s' g t' p c Sh). by destruct D; econstructor. }
  split; cbn [process_history set_history vertex_map].
  - intros t' h [_ E]%Hh. by eapply ho_trx.
  - intros t' h r [N E]%Hh Hr. destruct (ho_pends _ _ H _ _ _ E Hr) as [c Hc]. exists c. by apply look_commit_pend.
  - intros t' k a [c [Hc N]%look_commit_pend]. destruct (ho_recorded _ _ H t' k a) as (h & r & Eh & ?); [by exists c|].
    exists h, r. split; [by apply Hh|done].
  - intros t' h a [N E]%Hh Hr. destruct (ho_vid _ _ H _ _ _ E Hr) as (vid & v & tl & rl & X1 & X2 & X3 & X4 & X5 & X6).
    exists vid, v, tl, rl. rewrite E1. split_and!; try done. by apply look_commit_pend.
  - intros t' p c [D N]%Hd. apply look_commit_pend. split; [by eapply ho_own|done].
  - intros t' h p c i j r r' [N E]%Hh [D _]%Hd. by eapply ho_order.
Qed.

Lemma storage_ok_history s g h : storage_ok s g -> storage_ok (set_history s h) g.
Proof. intros [[] ]. by split; [split|..]. Qed.

Lemma commit_inv t ct s g : storage_inv s g -> is_time ct -> later g t ct ->
  exists s', Commit t ct s = Some (tt, s') /\ storage_inv s' (commit_all t ct g) /\ process_history s' !! t = None /\
    vertex_map s' = vertex_map s /\ out_edge_map s' = out_edge_map s /\ in_edge_map s' = in_edge_map s /\ ep_rows s' = ep_rows s.
Proof.
  intros [Ok H] Hct L. unfold Commit. ds_simpl.
  assert (forall V (A : gmap nat (versions V)) (S : gset nat), (forall a v, A !! a = Some v -> own_pending v t = true -> a ∈ S) ->
    forall a v, A !! a = Some v -> (a ∉ S) -> commit_own t ct v = v) as Hskip.
  { intros V A S HS a v Ev N. unfold commit_own. destruct (own_pending v t) eqn:O; [|done]. by destruct N; eauto. }
  destruct (process_history s !! t) as [h|] eqn:Eh.
  - destruct (commit_loop NT t ct (process_vector h) ∅ s g (so_mem _ _ _ _ _ _ Ok) Hct L) as (s1 & g1 & S & E & Sh & M & C & HS).
    { intros r Hr _. by eapply ho_pends. }
    { intros r r' Hr Hr' E. destruct (ho_pends _ _ H _ _ _ Eh Hr) as [c Hc], (ho_pends _ _ H _ _ _ Eh Hr') as [c' Hc'].
      eapply (mr_kinds _ _ _ (so_mem _ _ _ _ _ _ Ok)); [by rewrite Hc|]. rewrite E, Hc'. by eexists. }
    assert (forall k a, pends g t k a -> a ∈ S) as Hall.
    { intros k a P. destruct (ho_recorded _ _ H t k a P) as (h' & r & Eh' & Hr & _ & <-). simplify_eq. apply HS; [done|set_solver]. }
    assert (g1 = commit_all t ct g) as ->.
    { destruct g1, C as [C1 C2 C3 C4]; cbn in *. unfold commit_all. f_equal; (eapply on_set_all; [done|]; eapply Hskip; intros a v Ev [c Ec]%own_pending_info).
      - apply (Hall KVertex). exists c. cbn. rewrite Ev. cbn. by rewrite Ec.
      - apply (Hall KEdge). exists c. cbn. rewrite Ev. cbn. by rewrite Ec.
      - apply (Hall KVP). exists c. cbn. rewrite Ev. cbn. by rewrite Ec.
      - apply (Hall KEP). exists c. cbn. rewrite Ev. cbn. by rewrite Ec. }
    rewrite (run_step _ _ _ _ _ E). eexists. split; [done|]. split; [split|].
    + apply storage_ok_history. by eapply storage_ok_commit.
    + by eapply history_ok_commit.
    + pose proof Sh as (? & ? & ? & ? & ? & _). cbn. split_and!; try done. apply lookup_delete_eq.
  - exists s. split; [done|]. assert (commit_all t ct g = g) as Eg.
    { assert (forall V (A : gmap nat (versions V)), (forall a v, A !! a = Some v -> own_pending v t = false) -> commit_own t ct <$> A = A) as Hid.
      { intros V A HA. apply map_eq. intros a. rewrite lookup_fmap. destruct (A !! a) as [v|] eqn:Ev; [|done]. cbn. unfold commit_own.
        by rewrite (HA a v). }
      assert (forall k a c, look g k a <> Some (c, Some t)) as Hn.
      { intros k a c Hc. destruct (ho_recorded _ _ H t k a) as (h & r & Eh' & _); [by exists c|]. congruence. }
      unfold commit_all. destruct g. cbn in *. f_equal; apply Hid; intros a v Ev; eapply own_false_look; [done| |done| |done| |done|]; intros c.
      - apply (Hn KVertex).
      - apply (Hn KEdge).
      - apply (Hn KVP).
      - apply (Hn KEP). }
    rewrite Eg. by split_and!.
Qed.
End CommitInv.
