(* ===== verification/StorageAbort.v ===== *)
(** * Abort of a transaction in the storage

    [Abort] walks the history backwards: it undoes the pending version of every
    list of the transaction, recycles the property rows of edge versions it
    created and, for a vertex it added, the rows of the vertex.  The order
    matters: what hangs on a vertex or an edge version was recorded later, so
    it is undone before. *)
From S2P Require Import Prelude Types TrxStatus Coordinator TrxStub MvccList CellPool ValueStore Serialization.
From S2P Require Import RowChain PropertyRows Topology Forest RowMemory DataStorage StorageInv.
Local Open Scope nat_scope.

(** ** What undoing does to the versions *)
Section Undo.
Context (t : Z).

(** Each list stays or loses the version of [t]; a list may go when nothing is
    left in it. *)
Definition undo {V} (lossy : bool) (A A' : gmap nat (versions V)) : Prop := forall a,
  match A !! a, A' !! a with
  | Some v, Some v' => v' = v \/ v' = abort_own t v
  | Some v, None => lossy = true /\ abort_own t v = no_versions
  | None, None => True
  | None, Some _ => False
  end.

Lemma undo_refl {V} b (A : gmap nat (versions V)) : undo b A A.
Proof. intros a. destruct (A !! a); [by left|done]. Qed.
Lemma undo_trans {V} b (A1 A2 A3 : gmap nat (versions V)) : undo b A1 A2 -> undo b A2 A3 -> undo b A1 A3.
Proof.
  intros H1 H2 a. specialize (H1 a). specialize (H2 a).
  destruct (A1 !! a) as [v1|], (A2 !! a) as [v2|], (A3 !! a) as [v3|]; try done.
  - destruct H1 as [-> | ->]; [done|]. rewrite abort_own_idem in H2. right. by destruct H2.
  - destruct H1 as [-> | ->]; [done|]. by rewrite abort_own_idem in H2.
Qed.
Lemma undo_alter {V} b (A : gmap nat (versions V)) a : undo b A (alter (abort_own t) a A).
Proof.
  intros x. destruct (decide (x = a)) as [->|N]; [rewrite lookup_alter_eq|rewrite lookup_alter_ne by done];
    destruct (A !! _); cbn; auto.
Qed.

Record undone (g g' : graph) : Prop := {
  un_v : undo false (g_v g) (g_v g'); un_e : undo false (g_e g) (g_e g');
  un_vp : undo true (g_vp g) (g_vp g'); un_ep : undo true (g_ep g) (g_ep g');
}.
Lemma undone_refl g : undone g g.
Proof. split; apply undo_refl. Qed.
Lemma undone_trans g1 g2 g3 : undone g1 g2 -> undone g2 g3 -> undone g1 g3.
Proof. intros [] []. split; by eapply undo_trans. Qed.

Lemma info_abort {V} (v : versions V) : info (abort_own t v) = if bool_decide ((info v).2 = Some t) then ((info v).1, None) else info v.
Proof. unfold abort_own. rewrite own_pending_dec. by case_bool_decide. Qed.

Lemma undo_info {V} b (A A' : gmap nat (versions V)) a : undo b A A' ->
  match info <$> A !! a, info <$> A' !! a with
  | Some i, Some i' => i' = i \/ (i.2 = Some t /\ i' = (i.1, None))
  | Some i, None => b = true /\ i.1 = false /\ (i.2 = Some t \/ i.2 = None)
  | None, None => True
  | None, Some _ => False
  end.
Proof.
  intros H. specialize (H a). destruct (A !! a) as [v|], (A' !! a) as [v'|]; cbn; try done.
  - destruct H as [-> | ->]; [by left|]. rewrite info_abort. case_bool_decide; auto.
  - destruct H as [-> H]. apply (f_equal info) in H. rewrite info_abort in H. destruct (info v) as [c p]. cbn in *.
    change (info no_versions) with (false, @None Z) in H. case_bool_decide; injection H as ->; auto.
Qed.

Lemma undone_look g g' k a : undone g g' ->
  match look g k a, look g' k a with
  | Some i, Some i' => i' = i \/ (i.2 = Some t /\ i' = (i.1, None))
  | Some i, None => (k = KVP \/ k = KEP) /\ i.1 = false /\ (i.2 = Some t \/ i.2 = None)
  | None, None => True
  | None, Some _ => False
  end.
Proof.
  intros [H1 H2 H3 H4]. destruct k; cbn.
  - pose proof (undo_info _ _ _ a H1). repeat case_match; naive_solver.
  - pose proof (undo_info _ _ _ a H2). repeat case_match; naive_solver.
  - pose proof (undo_info _ _ _ a H3). repeat case_match; naive_solver.
  - pose proof (undo_info _ _ _ a H4). repeat case_match; naive_solver.
Qed.
Lemma undone_other g g' k a c t' : undone g g' -> t' <> t -> look g k a = Some (c, Some t') <-> look g' k a = Some (c, Some t').
Proof. intros U N. pose proof (undone_look _ _ k a U) as H. destruct (look g k a) as [[]|], (look g' k a) as [[]|]; naive_solver. Qed.
Lemma undone_pends g g' k a c t' : undone g g' -> look g' k a = Some (c, Some t') -> look g k a = Some (c, Some t').
Proof. intros U E. pose proof (undone_look _ _ k a U) as H. rewrite E in H. destruct (look g k a) as [[]|]; naive_solver. Qed.
Lemma undone_alive g g' k a : undone g g' -> alive g' k a -> alive g k a.
Proof. unfold alive. intros U [i E]. pose proof (undone_look _ _ k a U) as H. rewrite E in H. destruct (look g k a); naive_solver. Qed.
End Undo.

(** ** Undoing one record *)
Section Abort.
Context (VPR EPR VER NT BLOCK_SIZE : nat).
Context (HVP : 0 < VPR) (HEP : 0 < EPR) (HVE : 0 < VER) (HB : 1 < BLOCK_SIZE).
Context (t : Z) (al : Alloc) (Htid : al_tid al < NT).
Implicit Types (s : Storage) (g : graph).
Abbreviation storage_ok := (storage_ok VPR EPR VER NT).

(** The storage loses at most the rows of vertices that are gone, and rows of
    edge properties. *)
Record shrinks s s' g' : Prop := {
  sh_vertex vid v' : vertex_map s' !! vid = Some v' -> exists v, vertex_map s !! vid = Some v /\
    (v' = v \/ (v_mvcc_list v' = v_mvcc_list v /\ ve_row_list v' = None /\ vp_row_list v' = None /\
               exists a, v_mvcc_list v = Some a /\ look g' KVertex a = Some (false, None)));
  sh_back vid : is_Some (vertex_map s !! vid) -> is_Some (vertex_map s' !! vid);
  sh_out : out_edge_map s' = out_edge_map s; sh_in : in_edge_map s' = in_edge_map s;
  sh_history : process_history s' = process_history s;
  sh_rows e rl : ep_rows s' !! e = Some rl -> ep_rows s !! e = Some rl;
}.

Lemma shrinks_same s s' g' : vertex_map s' = vertex_map s -> out_edge_map s' = out_edge_map s -> in_edge_map s' = in_edge_map s ->
  process_history s' = process_history s -> ep_rows s' = ep_rows s -> shrinks s s' g'.
Proof. intros E1 E2 E3 E4 E5. split; rewrite ?E1, ?E5; try done. eauto. Qed.

Lemma shrinks_trans s1 s2 s3 g2 g3 : shrinks s1 s2 g2 -> shrinks s2 s3 g3 -> undone t g2 g3 -> shrinks s1 s3 g3.
Proof.
  intros [H1 B1 E1 E2 E3 R1] [H2 B2 E4 E5 E6 R2] U. split; [|eauto|congruence..|eauto]. intros vid v3 Ev3.
  destruct (H2 _ _ Ev3) as (v2 & Ev2 & D2). destruct (H1 _ _ Ev2) as (v1 & Ev1 & D1). exists v1. split; [done|].
  assert (forall a, look g2 KVertex a = Some (false, None) -> look g3 KVertex a = Some (false, None)) as Hl.
  { intros a E. pose proof (undone_look t _ _ KVertex a U) as H. rewrite E in H. destruct (look g3 KVertex a); naive_solver. }
  destruct D2 as [-> |(X1 & X2 & X3 & a & Xa & Xl)].
  - destruct D1 as [-> |(Y1 & Y2 & Y3 & a & Ya & Yl)]; [by left|]. right. split_and!; try done. eauto.
  - right. destruct D1 as [-> |(Y1 & Y2 & Y3 & b & Yb & Yl)]; [by eauto 10|]. split_and!; try congruence. exists a. split; [congruence|done].
Qed.

(** What undoing the record [r] achieves. *)
Record undoes (r : ProcessRecord) s s' g g' : Prop := {
  ud_ok : storage_ok s' g';
  ud_undone : undone t g g';
  ud_shrinks : shrinks s s' g';
  ud_list : exists c, look g' (kind_of (pr_type r)) (pr_list r) = Some (c, None);
  ud_other k b : b <> pr_list r -> look g' k b = look g k b \/
    (opens r (kind_of (pr_type r), pr_list r) /\ depends s g t (kind_of (pr_type r), pr_list r) (k, b));
}.

Lemma own_abort {V} (v : versions V) b x : pending v = Some (t, b, x) -> abort_own t v = abort_abs v.
Proof. intros E. unfold abort_own, own_pending. by rewrite E, Z.eqb_refl. Qed.

Abbreviation undo_list g k a := (set_versions g k a (fun V => abort_own t)).

Lemma undo_list_undone g k a : undone t g (undo_list g k a).
Proof. destruct k; split; cbn; try apply undo_refl; apply undo_alter. Qed.
Lemma undo_list_look g k a c : look g k a = Some (c, Some t) -> look (undo_list g k a) k a = Some (c, None).
Proof.
  destruct k; cbn; intros (v & Ev & Ei)%fmap_Some; rewrite lookup_alter_eq, Ev; cbn; by rewrite info_abort, <- Ei, bool_decide_eq_true_2.
Qed.
Lemma undo_list_other s g k a k' b : mem_rel NT s g -> is_Some (look g k a) -> b <> a -> look (undo_list g k a) k' b = look g k' b.
Proof.
  intros M Ha N. eapply changed_pends; [eapply set_versions_changed; intros k0 N0; by eapply kinds_ne|set_solver].
Qed.
Lemma undo_list_uses g k a b i e : uses (undo_list g k a) b i e -> uses g b i e.
Proof.
  destruct k; try done. intros (v & x & Ev & Hx & He). cbn in Ev. destruct (decide (b = a)) as [->|N].
  - rewrite lookup_alter_eq in Ev. apply fmap_Some in Ev as (w & Ew & ->). exists w, x. split_and!; [done| |done].
    unfold abort_own in Hx. destruct (own_pending w t); [|done]. unfold vals in *. cbn in Hx. rewrite app_nil_r in Hx.
    by apply lookup_app_l_Some.
  - rewrite lookup_alter_ne in Ev by done. by exists v, x.
Qed.

(** A record whose list alone changes. *)
Lemma undoes_list r s s' g : storage_ok s g -> pends g t (kind_of (pr_type r)) (pr_list r) ->
  mem_rel NT s' (undo_list g (kind_of (pr_type r)) (pr_list r)) ->
  vertex_map s' = vertex_map s -> out_edge_map s' = out_edge_map s -> in_edge_map s' = in_edge_map s ->
  process_history s' = process_history s -> ep_rows s' = ep_rows s ->
  undoes r s s' g (undo_list g (kind_of (pr_type r)) (pr_list r)).
Proof.
  intros Ok [c P] M' E1 E2 E3 E4 E5. assert (is_Some (look g (kind_of (pr_type r)) (pr_list r))) as Ha by by rewrite P.
  pose proof (so_mem _ _ _ _ _ _ Ok) as M. split.
  - eapply storage_ok_shape; try done; [|apply undo_list_uses]. intros k b. unfold alive.
    eapply changed_look, set_versions_changed. intros k0 N0. by eapply kinds_ne.
  - apply undo_list_undone.
  - by apply shrinks_same.
  - exists c. by apply undo_list_look.
  - intros k b N. left. by eapply undo_list_other.
Qed.

Abbreviation abort_record := (abort_record VPR EPR VER BLOCK_SIZE al t).

Lemma undo_changed s g k a : mem_rel NT s g -> is_Some (look g k a) -> changed (fun V => abort_own t) {[a]} g (undo_list g k a).
Proof. intros M Ha. apply set_versions_changed. intros k0 N0. by eapply kinds_ne. Qed.

Lemma undo_vp r vids s g : storage_ok s g -> pends g t (kind_of (pr_type r)) (pr_list r) -> kind_of (pr_type r) = KVP ->
  exists s', abort_record vids r s = Some (tt, s') /\ undoes r s s' g (undo_list g KVP (pr_list r)).
Proof using All.
  intros Ok P Ek. pose proof (undoes_list r s) as U. rewrite Ek in P, U. pose proof P as [c Pc]. pose proof (so_mem _ _ _ _ _ _ Ok) as M.
  pose proof (undo_changed s g KVP (pr_list r) M ltac:(by rewrite Pc)) as Hch. cbn in Pc.
  apply fmap_Some in Pc as (v & Ev & (b & x & Hp)%eq_sym%info_pending). pose proof M as [Fv Fe Mvp Mep _ T1 T2].
  destruct (mem_abort BLOCK_SIZE HB _ _ _ _ _ _ _ (al_tid al) Mvp Ev Hp ltac:(lia)) as (l & p & fr & h' & l' & st & El & Ha & Hf & Ht & M').
  eexists. split.
  - unfold DataStorage.abort_record. rewrite Ek. ds_simpl. rewrite El. ds_simpl. rewrite Ha. ds_simpl. rewrite Hf. ds_simpl. done.
  - apply U; try done. eapply mem_rel_changed; [exact M|exact Hch|..]; cbn; try done; [|by rewrite Ht].
    by rewrite (alter_insert _ _ _ _ Ev), (own_abort v b x Hp).
Qed.

Lemma undo_ep r vids s g : storage_ok s g -> pends g t (kind_of (pr_type r)) (pr_list r) -> kind_of (pr_type r) = KEP ->
  exists s', abort_record vids r s = Some (tt, s') /\ undoes r s s' g (undo_list g KEP (pr_list r)).
Proof using All.
  intros Ok P Ek. pose proof (undoes_list r s) as U. rewrite Ek in P, U. pose proof P as [c Pc]. pose proof (so_mem _ _ _ _ _ _ Ok) as M.
  pose proof (undo_changed s g KEP (pr_list r) M ltac:(by rewrite Pc)) as Hch. cbn in Pc.
  apply fmap_Some in Pc as (v & Ev & (b & x & Hp)%eq_sym%info_pending). pose proof M as [Fv Fe Mvp Mep _ T1 T2].
  destruct (mem_abort BLOCK_SIZE HB _ _ _ _ _ _ _ (al_tid al) Mep Ev Hp ltac:(lia)) as (l & p & fr & h' & l' & st & El & Ha & Hf & Ht & M').
  eexists. split.
  - unfold DataStorage.abort_record. rewrite Ek. ds_simpl. rewrite El. ds_simpl. rewrite Ha. ds_simpl. rewrite Hf. ds_simpl. done.
  - apply U; try done. eapply mem_rel_changed; [exact M|exact Hch|..]; cbn; try done; [|by rewrite Ht].
    by rewrite (alter_insert _ _ _ _ Ev), (own_abort v b x Hp).
Qed.

(** The version of a vertex. *)
Lemma undo_v_version r s g : storage_ok s g -> pends g t (kind_of (pr_type r)) (pr_list r) -> kind_of (pr_type r) = KVertex ->
  exists l p fr h l', v_lists s !! pr_list r = Some l /\ AbortVersion (v_items s) l t = Some (p, fr, h, l') /\
    undoes r s (set_v_mem s (<[pr_list r := l']> (v_lists s)) h) g (undo_list g KVertex (pr_list r)).
Proof.
  intros Ok P Ek. pose proof (undoes_list r s) as U. rewrite Ek in P, U. pose proof P as [c Pc]. pose proof (so_mem _ _ _ _ _ _ Ok) as M.
  pose proof (undo_changed s g KVertex (pr_list r) M ltac:(by rewrite Pc)) as Hch. cbn in Pc.
  apply fmap_Some in Pc as (v & Ev & (b & x & Hp)%eq_sym%info_pending). pose proof M as [[C Fv] Fe Mvp Mep _ T1 T2].
  destruct (forest_abort _ _ _ _ _ _ _ _ _ Fv Ev Hp) as (l & p & C' & h' & l' & El & Ha & F').
  eexists l, p, _, h', l'. split_and!; [done..|]. apply U; try done.
  eapply mem_rel_changed; [exact M|exact Hch|..]; cbn; try done. exists C'. by rewrite (alter_insert _ _ _ _ Ev), (own_abort v b x Hp).
Qed.

Lemma undo_drop_v r vids s g : storage_ok s g -> pends g t (kind_of (pr_type r)) (pr_list r) -> pr_type r = PROCESS_DROP_V ->
  exists s', abort_record vids r s = Some (tt, s') /\ undoes r s s' g (undo_list g KVertex (pr_list r)).
Proof.
  intros Ok P Er. destruct (undo_v_version r s g Ok P) as (l & p & fr & h & l' & El & Ha & U); [by rewrite Er|].
  eexists. split; [|exact U]. unfold DataStorage.abort_record. rewrite Er. cbn [kind_of]. ds_simpl. rewrite El. ds_simpl. rewrite Ha. by ds_simpl.
Qed.

(** ** Recycling property rows of an edge version *)

Definition drop_lists g (ls : list nat) : graph := mk_graph (g_v g) (g_e g) (g_vp g) (foldr delete (g_ep g) ls).

Lemma look_drop g ls k b : look (drop_lists g ls) k b = if bool_decide (k = KEP /\ b ∈ ls) then None else look g k b.
Proof.
  destruct k; cbn; [rewrite bool_decide_eq_false_2 by naive_solver; done..|].
  rewrite foldr_delete_lookup. destruct (decide (b ∈ ls)); [rewrite bool_decide_eq_true_2 by done|rewrite bool_decide_eq_false_2 by naive_solver]; done.
Qed.

Lemma remove_rows s g e rl m : storage_ok s g -> ep_rows s !! e = Some rl -> (forall a i, ~ uses g a i e) ->
  mem_ok m (foldr delete (g_ep g) (row_lists rl)) -> threads (values m) = NT ->
  storage_ok (set_ep s (delete e (ep_rows s)) m) (drop_lists g (row_lists rl)).
Proof.
  intros [[] ] Er Nu M Ht.
  assert (forall k a, look (drop_lists g (row_lists rl)) k a <> None -> look g k a <> None) as Hback.
  { intros k a. rewrite look_drop. by case_bool_decide. }
  assert (forall k a, k <> KEP -> alive g k a -> alive (drop_lists g (row_lists rl)) k a) as Hk.
  { intros k a N. unfold alive. rewrite look_drop. by rewrite bool_decide_eq_false_2 by naive_solver. }
  split; try done; cbn [ep_rows set_ep vertex_map out_edge_map in_edge_map].
  - split; try done. intros k k' a H1 H2. apply (mr_kinds k k' a); apply not_eq_None_Some, Hback; by apply not_eq_None_Some.
  - intros vid v Ev. destruct (so_vertex vid v Ev) as [(a & E1 & E2) H2 H3 H4 H5 H6]. split; try done.
    exists a. split; [done|]. by apply Hk.
  - intros e' rl' [N Er']%lookup_delete_Some. destruct (so_rows e' rl' Er') as [H1 H2 H3]. split; try done.
    apply Forall_forall. intros l Hl. unfold alive. rewrite look_drop, bool_decide_eq_false_2.
    + by eapply (proj1 (Forall_forall _ _) H2).
    + intros [_ Hl']. apply N. by eapply so_ep_inj.
  - intros e1 e2 r1 r2 l [N1 X1]%lookup_delete_Some [N2 X2]%lookup_delete_Some. by eapply so_ep_inj.
  - intros a i e' U. rewrite lookup_delete_ne; [by eapply so_uses|]. intros ->. by eapply Nu.
  - intros k a i e' r1 Ek U [N1 X1]%lookup_delete_Some. by eapply so_owner.
Qed.

Lemma info_none {V} (v : versions V) : info v = (false, None) -> v = no_versions.
Proof. unfold info. destruct v as [[|? ?] [[[]]|]]; cbn; by intros [=]. Qed.

Lemma undo_edge r vids s g : storage_ok s g -> pends g t (kind_of (pr_type r)) (pr_list r) -> kind_of (pr_type r) = KEdge ->
  (forall c, depends s g t (KEdge, pr_list r) c -> look g c.1 c.2 = Some (false, None)) ->
  exists s' g', abort_record vids r s = Some (tt, s') /\ undoes r s s' g g'.
Proof using All.
  intros Ok P Ek Hch0. pose proof (undoes_list r s) as U. rewrite Ek in P, U. pose proof P as [c Pc]. pose proof (so_mem _ _ _ _ _ _ Ok) as M.
  pose proof (undo_changed s g KEdge (pr_list r) M ltac:(by rewrite Pc)) as Hch. cbn in Pc.
  apply fmap_Some in Pc as (v & Ev & (b & x & Hp)%eq_sym%info_pending). pose proof M as [Fv [C Fe] Mvp Mep _ T1 T2].
  destruct (forest_abort _ _ _ _ _ _ _ _ _ Fe Ev Hp) as (l & p & C' & h' & l' & El & Ha & F').
  set (a := pr_list r) in *. set (s1 := set_edge_mem s (mk_emem (<[a := l']> (e_lists (edge_mem s))) h')).
  assert (undoes r s s1 g (undo_list g KEdge a)) as U1.
  { apply U; try done. eapply mem_rel_changed; [exact M|exact Hch|..]; cbn; try done. exists C'.
    by rewrite (alter_insert _ _ _ _ Ev), (own_abort v b x Hp). }
  unfold DataStorage.abort_record. rewrite Ek. ds_simpl. fold a. rewrite El. ds_simpl. rewrite Ha. ds_simpl.
  cbn [NeedGC EdgeMVCCItem]. destruct (ep_row_list x) as [e|] eqn:Ee.
  2:{ exists s1, (undo_list g KEdge a). split; [|done]. rewrite bool_decide_eq_false_2 by naive_solver. by cbn [fmap list_fmap free_ep_rows]. }
  rewrite bool_decide_eq_true_2 by done. cbn [fmap list_fmap]. rewrite Ee.
  assert (uses g a (length (committed v)) e) as Hu.
  { exists v, x. split_and!; try done. unfold vals. rewrite Hp, lookup_app_r by (by rewrite length_fmap). by rewrite length_fmap, Nat.sub_diag. }
  destruct (so_uses _ _ _ _ _ _ Ok _ _ _ Hu) as [rl Er]. destruct (so_rows _ _ _ _ _ _ Ok _ _ Er) as [[ow Hgood] Hal Hnd].
  destruct (gc_rows EPR HEP BLOCK_SIZE HB ow rl (ep_mem s) (g_ep g) (al_tid al) Hgood Mep) as (n & rl' & m' & Hgc & Ht & M').
  { intros l0 Hl0. eapply (proj1 (Forall_forall _ _) Hal) in Hl0. unfold alive in Hl0. cbn in Hl0. by apply fmap_is_Some in Hl0. }
  { done. }
  { lia. }
  exists (set_ep s1 (delete e (ep_rows s1)) m'), (drop_lists (undo_list g KEdge a) (row_lists rl)). split.
  { assert (free_ep_rows EPR BLOCK_SIZE al [Some e] s = Some (tt, set_ep s (delete e (ep_rows s)) m')) as Hfr.
    { cbn [free_ep_rows]. ds_simpl. rewrite Er. ds_simpl. rewrite Hgc. by ds_simpl. }
    by rewrite (run_step _ _ _ _ _ Hfr). }
  destruct U1 as [Uok Uun Ush Ul Uo]. split.
  - apply (remove_rows s1 _ e rl m'); try done.
    + intros b' i U'. apply undo_list_uses in U' as U0. destruct (so_uses_inj _ _ _ _ _ _ Ok _ _ _ _ _ Hu U0) as [<- <-].
      destruct U' as (w & y & Ew & Hy & _). cbn in Ew. rewrite lookup_alter_eq, Ev in Ew. injection Ew as <-.
      rewrite (own_abort v b x Hp) in Hy. unfold vals in Hy. cbn in Hy. rewrite app_nil_r in Hy.
      apply lookup_lt_Some in Hy. rewrite length_fmap in Hy. lia.
    + by rewrite Ht.
  - eapply undone_trans; [exact Uun|]. split; try apply undo_refl. intros l0. cbn [g_ep drop_lists set_versions]. rewrite foldr_delete_lookup.
    destruct (g_ep g !! l0) as [w|] eqn:Ew; [|by destruct (decide _)]. destruct (decide (l0 ∈ row_lists rl)) as [Hin|]; [|by left].
    split; [done|]. specialize (Hch0 (KEP, l0) (DepEP _ _ _ _ _ _ _ _ _ _ Ev Hp Ee Er Hin)). cbn in Hch0. rewrite Ew in Hch0.
    assert (info w = (false, None)) as Hw%info_none by (by apply (inj Some)). by rewrite Hw.
  - destruct Ush as [S1 S2 S3 S4 S5 S6]. split; try done. cbn. intros e' rl0 [_ E0]%lookup_delete_Some. done.
  - destruct Ul as [c0 Ul]. exists c0. rewrite Ek in Ul |- *. rewrite look_drop. by rewrite bool_decide_eq_false_2 by naive_solver.
  - intros k b' N. rewrite look_drop. case_bool_decide as Hb; [|by apply Uo]. destruct Hb as [-> Hin]. right. rewrite Ek. split.
    + split_and!; cbn; try done. intros E. by rewrite E in Ek.
    + by eapply DepEP.
Qed.

(** ** Recycling the rows of a vertex *)

Definition drop_vp_lists g (ls : list nat) : graph := mk_graph (g_v g) (g_e g) (foldr delete (g_vp g) ls) (g_ep g).

Lemma look_drop_vp g ls k b : look (drop_vp_lists g ls) k b = if bool_decide (k = KVP /\ b ∈ ls) then None else look g k b.
Proof.
  destruct k; cbn; try (rewrite bool_decide_eq_false_2 by naive_solver; done).
  rewrite foldr_delete_lookup. destruct (decide (b ∈ ls)); [rewrite bool_decide_eq_true_2 by done|rewrite bool_decide_eq_false_2 by naive_solver]; done.
Qed.

Lemma remove_vertex_rows s s2 g vid v rl : storage_ok s g -> vertex_map s !! vid = Some v -> vp_row_list v = Some rl ->
  (exists C, forest (v_lists s2) (v_items s2) C (g_v g)) ->
  (exists C, forest (e_lists (edge_mem s2)) (e_items (edge_mem s2)) C (g_e g)) ->
  mem_ok (vp_mem s2) (foldr delete (g_vp g) (row_lists rl)) -> threads (values (vp_mem s2)) = NT -> ep_mem s2 = ep_mem s ->
  vertex_map s2 = <[vid := mk_vertex (v_label v) None None (v_mvcc_list v)]> (vertex_map s) ->
  out_edge_map s2 = out_edge_map s -> in_edge_map s2 = in_edge_map s -> ep_rows s2 = ep_rows s ->
  storage_ok s2 (drop_vp_lists g (row_lists rl)).
Proof.
  intros [M0 Hv Hvi Hvpi Ho Hi Hoi Hio Hiu Hr Hei Hu Hui How] Ev Erl Fv Fe Mvp Ht Eep E1 E2 E3 E4. pose proof M0 as [].
  assert (vp_lists v = row_lists rl) as Evp by (unfold vp_lists; by rewrite Erl).
  assert (forall u w, vertex_map s2 !! u = Some w -> exists w0, vertex_map s !! u = Some w0 /\ v_mvcc_list w = v_mvcc_list w0 /\
    (w = w0 /\ u <> vid \/ ve_row_list w = None /\ vp_row_list w = None)) as Hw.
  { intros u w. rewrite E1, lookup_insert_Some. intros [[<- <-]|[N E]]; [by exists v; auto|by exists w; auto]. }
  split; rewrite ?E2, ?E3, ?E4; try done.
  - split; try done; [by rewrite Eep| |by rewrite Eep].
    intros k k' a H1 H2. apply (mr_kinds k k' a); [clear -H1|clear -H2]; rewrite look_drop_vp in *; by case_bool_decide.
  - intros u w Eu. destruct (Hw u w Eu) as (w0 & Ew & El & Hc). destruct (Hv u w0 Ew) as [(a & X1 & X2) X3 X4 X5 X6 X7].
    destruct Hc as [[-> N]|[R1 R2]].
    + split; try done; [by exists a|]. apply Forall_forall. intros l Hl. unfold alive. rewrite look_drop_vp, bool_decide_eq_false_2.
      * by eapply (proj1 (Forall_forall _ _) X6).
      * intros [_ Hl']. apply N. eapply Hvpi; [exact Ew|exact Ev|exact Hl|by rewrite Evp].
    + split; unfold ve_lists, vp_lists; rewrite ?R1, ?R2; try done; [|constructor]. exists a. by rewrite El.
  - intros u w vu vw a Eu Ew. destruct (Hw u vu Eu) as (u0 & Eu0 & -> & _), (Hw w vw Ew) as (w0 & Ew0 & -> & _). by eapply Hvi.
  - intros u w vu vw l Eu Ew. destruct (Hw u vu Eu) as (u0 & Eu0 & _ & [[-> _]|[_ R1]]), (Hw w vw Ew) as (w0 & Ew0 & _ & [[-> _]|[_ R2]]);
      unfold vp_lists; rewrite ?R1, ?R2; try (by intros ?%not_elem_of_nil); try (by intros ? ?%not_elem_of_nil). by eapply Hvpi.
  - intros e rl0 Er0. destruct (Hr e rl0 Er0) as [X1 X2 X3]. by split.
Qed.

Lemma undo_add_v r vids vid v tl rl s g : storage_ok s g -> pr_type r = PROCESS_ADD_V ->
  vids !! pr_list r = Some vid -> vertex_map s !! vid = Some v -> v_mvcc_list v = Some (pr_list r) ->
  ve_row_list v = Some tl -> vp_row_list v = Some rl -> look g KVertex (pr_list r) = Some (false, Some t) ->
  (forall c, depends s g t (KVertex, pr_list r) c -> look g c.1 c.2 = Some (false, None)) ->
  exists s' g', abort_record vids r s = Some (tt, s') /\ undoes r s s' g g'.
Proof using All.
  intros Ok Er Evid Ev Elist Etl Erl Hl Hch. assert (kind_of (pr_type r) = KVertex) as Ek by by rewrite Er.
  destruct (undo_v_version r s g Ok) as (l & p & fr & h & l' & El & Ha & U); [rewrite Ek; by eexists|done|].
  set (a := pr_list r) in *. destruct U as [Uok Uun Ush Ul Uo]. set (g1 := undo_list g KVertex a) in *.
  set (s1 := set_v_mem s (<[a := l']> (v_lists s)) h) in *.
  assert (look g1 KVertex a = Some (false, None)) as Hl1 by (by apply undo_list_look).
  destruct (so_vertex _ _ _ _ _ _ Ok vid v Ev) as [_ Htopo Hrows Hve Hvp Hnd]. unfold ve_lists in Hve. rewrite Etl in Hve.
  unfold vp_lists in Hvp, Hnd. rewrite Erl in Hvp, Hnd. pose proof (so_mem _ _ _ _ _ _ Uok) as [[Cv Fv] Fe Mvp Mep _ T1 T2].
  destruct (topo_gc_empty VER HVE tl (edge_mem s) (g_e g) (Htopo tl Etl) Fe) as (n & tl' & em & Hgc & Fe').
  { apply Forall_forall. intros c Hc. specialize (Hch (KEdge, e_list c)). cbn in Hch.
    assert (info <$> g_e g !! e_list c = Some (false, None)) as H%fmap_Some.
    { apply Hch. eapply DepVE; [done..|]. unfold ve_lists. rewrite Etl. by apply list_elem_of_fmap_2. }
    destruct H as (w & Ew & Hw). symmetry in Hw. apply info_none in Hw. by rewrite Ew, Hw. }
  destruct (gc_rows VPR HVP BLOCK_SIZE HB vid rl (vp_mem s) (g_vp g) (al_tid al) (Hrows rl Erl) Mvp) as (n2 & rl' & m' & Hgc2 & Ht2 & M2).
  { intros l0 Hl0. eapply (proj1 (Forall_forall _ _) Hvp) in Hl0. unfold alive in Hl0. cbn in Hl0. by apply fmap_is_Some in Hl0. }
  { done. }
  { cbn in T1. lia. }
  assert (g_v g1 !! a = Some no_versions) as Ea.
  { cbn in Hl1. apply fmap_Some in Hl1 as (w & Ew & Hw). symmetry in Hw. apply info_none in Hw. by rewrite <- Hw. }
  destruct (forest_abs _ _ _ _ _ _ Fv Ea) as (ps & lx & _ & Elx & Rp). cbn in Elx. rewrite lookup_insert_eq in Elx. injection Elx as <-.
  destruct (repr_no_versions _ _ _ Rp) as [_ Eh].
  assert (SelfGarbageCollect h l' = Some ([], [], h, empty_list)) as Hgc3.
  { unfold SelfGarbageCollect. rewrite Eh. by destruct (size h). }
  unfold DataStorage.abort_record. rewrite Ek. ds_simpl. fold a. rewrite El. ds_simpl. rewrite Ha. ds_simpl. fold s1. rewrite Er, Evid.
  unfold abort_vertex. cbn [default from_option id]. ds_simpl. change (vertex_map s1) with (vertex_map s). rewrite Ev. ds_simpl. rewrite Etl. ds_simpl.
  change (edge_mem s1) with (edge_mem s). rewrite Hgc. ds_simpl. cbn [fmap list_fmap free_ep_rows]. ds_simpl. rewrite Erl. ds_simpl.
  cbn [vp_mem set_gc set_edge_mem]. change (vp_mem s1) with (vp_mem s). rewrite Hgc2. ds_simpl. rewrite Elist. ds_simpl.
  cbn [v_lists v_items set_vp_mem set_gc set_edge_mem]. change (v_lists s1) with (<[a := l']> (v_lists s)). rewrite lookup_insert_eq. ds_simpl.
  change (v_items s1) with h. rewrite Hgc3. ds_simpl. eexists _, (drop_vp_lists g1 (row_lists rl)). split; [done|].
  match goal with |- undoes r s ?x g _ => set (s2 := x) end. split.
  - apply (remove_vertex_rows s1 s2 g1 vid v rl); try done.
    + cbn. eapply forest_reset in Fv as [C' Fv]; [|exact Ea]. exists C'. exact Fv.
    + cbn. by rewrite Ht2.
    + cbn. by rewrite Elist.
  - eapply undone_trans; [exact Uun|]. split; try apply undo_refl. intros l0. cbn [g_vp drop_vp_lists g1 set_versions]. rewrite foldr_delete_lookup.
    destruct (g_vp g !! l0) as [w|] eqn:Ew; [|by destruct (decide _)]. destruct (decide (l0 ∈ row_lists rl)) as [Hin|]; [|by left].
    split; [done|]. assert (look g KVP l0 = Some (false, None)) as Hl0.
    { apply (Hch (KVP, l0)). eapply DepVP; [done..|]. unfold vp_lists. by rewrite Erl. }
    cbn in Hl0. rewrite Ew in Hl0. assert (info w = (false, None)) as ->%info_none by (by apply (inj Some)). done.
  - split; cbn; try done.
    + intros u w. rewrite lookup_insert_Some. intros [[<- <-]|[N E]]; [|by exists w; auto]. exists v. split; [done|]. right. split_and!; try done.
      exists a. done.
    + intros u [w Hw]. destruct (decide (u = vid)) as [->|N]; [rewrite lookup_insert_eq; by eexists|rewrite lookup_insert_ne by done; by eexists].
  - exists false. rewrite Ek. rewrite look_drop_vp. by rewrite bool_decide_eq_false_2 by naive_solver.
  - intros k b N. rewrite look_drop_vp. case_bool_decide as Hb.
    + destruct Hb as [-> Hin]. right. rewrite Ek. split; [split_and!; cbn; congruence|]. eapply DepVP; [done..|]. unfold vp_lists. by rewrite Erl.
    + destruct (Uo k b N) as [?|[_ D]]; [by left|]. left. rewrite Ek in D. eapply undo_list_other; [by eapply so_mem|by rewrite Hl|done].
Qed.

(** ** The loop *)

(** A vertex that [t] added, as [Abort] finds it. *)
Definition added s g (vids : gmap nat Z) (a : nat) : Prop :=
  exists vid v tl rl, vids !! a = Some vid /\ vertex_map s !! vid = Some v /\ v_mvcc_list v = Some a /\
    ve_row_list v = Some tl /\ vp_row_list v = Some rl /\ look g KVertex a = Some (false, Some t).

Lemma undo_record r vids s g : storage_ok s g -> pends g t (kind_of (pr_type r)) (pr_list r) ->
  (pr_type r = PROCESS_ADD_V -> added s g vids (pr_list r)) ->
  (forall c, opens r (kind_of (pr_type r), pr_list r) -> depends s g t (kind_of (pr_type r), pr_list r) c -> look g c.1 c.2 = Some (false, None)) ->
  exists s' g', abort_record vids r s = Some (tt, s') /\ undoes r s s' g g'.
Proof using All.
  intros Ok P Hadd Hch. destruct (decide (pr_type r = PROCESS_ADD_V)) as [Ea|Na].
  - destruct (Hadd Ea) as (vid & v & tl & rl & ? & ? & ? & ? & ? & ?). eapply undo_add_v; try done.
    rewrite Ea in Hch. cbn in Hch. intros c. apply Hch. split_and!; cbn; by rewrite ?Ea.
  - destruct (kind_of (pr_type r)) eqn:Ek.
    + assert (pr_type r = PROCESS_DROP_V) as Er by (by destruct (pr_type r)).
      destruct (undo_drop_v r vids s g Ok) as (s' & ? & ?); [by rewrite Ek|done|eauto].
    + eapply undo_edge; [done|by rewrite Ek|done|]. intros c. apply Hch. split_and!; cbn; [done..|]. intros E. by rewrite E in Ek.
    + destruct (undo_vp r vids s g Ok) as (s' & ? & ?); [by rewrite Ek|done|eauto].
    + destruct (undo_ep r vids s g Ok) as (s' & ? & ?); [by rewrite Ek|done|eauto].
Qed.

(** What is left to do: [rs] are the records that remain, the latest first. *)
Record todo s g (vids : gmap nat Z) (rs : list ProcessRecord) (T : gset nat) : Prop := {
  td_ok : storage_ok s g;
  td_pends r : r ∈ rs -> (pr_list r ∉ T) -> pends g t (kind_of (pr_type r)) (pr_list r);
  td_recorded k a : pends g t k a -> (a ∉ T) /\ exists r, r ∈ rs /\ kind_of (pr_type r) = k /\ pr_list r = a;
  td_added a : mk_record PROCESS_ADD_V a ∈ rs -> (a ∉ T) -> added s g vids a;
  td_own p c : depends s g t p c -> look g c.1 c.2 = Some (false, Some t) \/ look g c.1 c.2 = Some (false, None);
  td_order p c i j r r' : depends s g t p c -> rs !! i = Some r -> opens r p -> rs !! j = Some r' -> pr_list r' = c.2 -> j < i;
}.

Lemma shrinks_depends s s' g g' t' p c : shrinks s s' g' -> undone t g g' -> depends s' g' t' p c -> depends s g t' p c.
Proof.
  intros Sh U D. destruct D as [vid v a l Ev El Hl Hin|vid v a l Ev El Hl Hin|a v b x e rl l Ev Ep Hx Er Hin].
  - destruct (sh_vertex _ _ _ Sh _ _ Ev) as (v0 & Ev0 & [-> |(_ & R1 & _)]); [|unfold ve_lists in Hin; rewrite R1 in Hin; by apply not_elem_of_nil in Hin].
    eapply DepVE; [done..| |done]. by eapply undone_pends.
  - destruct (sh_vertex _ _ _ Sh _ _ Ev) as (v0 & Ev0 & [-> |(_ & _ & R1 & _)]); [|unfold vp_lists in Hin; rewrite R1 in Hin; by apply not_elem_of_nil in Hin].
    eapply DepVP; [done..| |done]. by eapply undone_pends.
  - apply (sh_rows _ _ _ Sh) in Er. pose proof (un_e _ _ _ U a) as Ha. rewrite Ev in Ha. destruct (g_e g !! a) as [v0|] eqn:Ev0; [|done].
    eapply DepEP; try done. destruct Ha as [-> | ->]; [done|]. unfold abort_own in Ep. by destruct (own_pending v0 t).
Qed.

(** A vertex whose version is still pending keeps its rows. *)
Lemma added_kept s s' g g' vids a : shrinks s s' g' -> pends g' t KVertex a -> undone t g g' -> added s g vids a -> added s' g' vids a.
Proof.
  intros Sh [c P] U (vid & v & tl & rl & X1 & X2 & X3 & X4 & X5 & X6).
  pose proof (undone_pends _ _ _ _ _ _ _ U P) as P0. rewrite X6 in P0. injection P0 as <-.
  destruct (sh_back _ _ _ Sh vid) as [v' Ev']; [by eexists|]. destruct (sh_vertex _ _ _ Sh _ _ Ev') as (v0 & Ev0 & D).
  rewrite X2 in Ev0. injection Ev0 as <-. destruct D as [-> |(_ & _ & _ & b & Eb & Hb)]; [by exists vid, v, tl, rl|].
  rewrite X3 in Eb. injection Eb as <-. congruence.
Qed.

Lemma todo_next s s' g g' vids r rs T : todo s g vids (r :: rs) T -> (pr_list r ∉ T) -> undoes r s s' g g' ->
  todo s' g' vids rs ({[pr_list r]} ∪ T).
Proof.
  intros [Ok Hp Hr Ha Ho Hord] N [Uok Uun Ush [c0 Ul] Uo].
  assert (forall p c, depends s' g' t p c -> depends s g t p c) as Hd by (intros p c; by eapply shrinks_depends).
  assert (forall r', r' ∈ rs -> (pr_list r' ∉ ({[pr_list r]} ∪ T : gset nat)) -> pends g' t (kind_of (pr_type r')) (pr_list r')) as Hp'.
  { intros r' Hr' N'. destruct (Hp r') as [c Hc]; [by right|set_solver|]. exists c.
    destruct (Uo (kind_of (pr_type r')) (pr_list r')) as [->|[Op D]]; [set_solver|done|].
    apply list_elem_of_lookup in Hr' as [j Hj]. pose proof (Hord _ _ 0 (S j) r r' D eq_refl Op Hj eq_refl). lia. }
  split; try done.
  - intros k a [c Hc]. pose proof (undone_pends _ _ _ _ _ _ _ Uun Hc) as Hc0. destruct (Hr k a) as (Na & r' & Hin & Ek & El); [by exists c|].
    assert (a <> pr_list r) as Ne.
    { intros ->. assert (k = kind_of (pr_type r)) as ->; [|congruence]. eapply (mr_kinds _ _ _ (so_mem _ _ _ _ _ _ Uok)); [by rewrite Hc|by rewrite Ul]. }
    split; [set_solver|]. exists r'. apply elem_of_cons in Hin as [->|Hin]; [congruence|done].
  - intros a Hin Na. eapply added_kept; [done| |done|]; [|apply Ha; [by right|set_solver]]. apply (Hp' (mk_record PROCESS_ADD_V a) Hin Na).
  - intros p c D. pose proof (Hd _ _ D) as D0. pose proof (undone_look t _ _ c.1 c.2 Uun) as Hl.
    assert (is_Some (look g' c.1 c.2)) as [i Ei].
    { destruct D as [vid v a l Ev El Hl' Hin|vid v a l Ev El Hl' Hin|a v b x e rl l Ev Ep Hx Er Hin]; cbn [fst snd].
      - eapply (proj1 (Forall_forall _ _) (vk_ve_alive _ _ _ _ _ (so_vertex _ _ _ _ _ _ Uok _ _ Ev))); done.
      - eapply (proj1 (Forall_forall _ _) (vk_vp_alive _ _ _ _ _ (so_vertex _ _ _ _ _ _ Uok _ _ Ev))); done.
      - eapply (proj1 (Forall_forall _ _) (er_alive _ _ _ (so_rows _ _ _ _ _ _ Uok _ _ Er))); done. }
    rewrite Ei in Hl |- *. destruct (Ho _ _ D0) as [E|E]; rewrite E in Hl; naive_solver.
  - intros p c i j r1 r2 D Hi Op Hj El. pose proof (Hord p c (S i) (S j) r1 r2 (Hd _ _ D) Hi Op Hj El). lia.
Qed.

Lemma abort_loop vids rs T s g : todo s g vids rs T ->
  exists s' g', each_list (abort_record vids) rs T s = Some (tt, s') /\ storage_ok s' g' /\ undone t g g' /\ shrinks s s' g' /\
    forall k a, ~ pends g' t k a.
Proof using All.
  revert T s g. induction rs as [|r rs IH]; intros T s g J.
  { exists s, g. split_and!; [done|apply J|apply undone_refl|by apply shrinks_same|]. intros k a P.
    destruct (td_recorded _ _ _ _ _ J k a P) as (_ & r & Hr & _). by apply not_elem_of_nil in Hr. }
  cbn [each_list]. destruct (decide (pr_list r ∈ T)) as [Hin|Hout].
  - apply IH. destruct J as [Ok Hp Hr Ha Ho Hord]. split; try done.
    + intros r' H. apply Hp. by right.
    + intros k a P. destruct (Hr k a P) as (Na & r' & [->|Hr']%elem_of_cons & Ek & <-); [done|]. eauto.
    + intros a H. apply Ha. by right.
    + intros p c i j r1 r2 D Hi Op Hj El. pose proof (Hord p c (S i) (S j) r1 r2 D Hi Op Hj El). lia.
  - destruct (undo_record r vids s g) as (s1 & g1 & E1 & U).
    + apply J.
    + eapply td_pends; [done|left|done].
    + intros Er. eapply td_added; [done| |done]. destruct r. cbn in *. subst. left.
    + intros c Op D. destruct (td_own _ _ _ _ _ J _ _ D) as [E|E]; [|done].
      destruct (td_recorded _ _ _ _ _ J c.1 c.2) as (_ & r' & Hr' & _ & El); [by exists false|].
      apply list_elem_of_lookup in Hr' as [j Hj]. pose proof (td_order _ _ _ _ _ J _ _ 0 j r r' D eq_refl Op Hj El). lia.
    + destruct (IH _ s1 g1 (todo_next _ _ _ _ _ _ _ _ J Hout U)) as (s' & g' & E & Ok' & Un & Sh & Hn).
      exists s', g'. split_and!; [|done|eapply undone_trans; [by apply U|done]|eapply shrinks_trans; [by apply U|done..]|done].
      by rewrite (run_step _ _ _ _ _ E1).
Qed.

(** ** Abort *)

(** Every version of [t] is gone; of the lists of properties, those that held
    nothing else may be gone too. *)
Record aborted g g' : Prop := {
  ab_v : g_v g' = abort_own t <$> g_v g;
  ab_e : g_e g' = abort_own t <$> g_e g;
  ab_vp a : match g_vp g !! a with
            | Some v => g_vp g' !! a = Some (abort_own t v) \/ (g_vp g' !! a = None /\ abort_own t v = no_versions)
            | None => g_vp g' !! a = None end;
  ab_ep a : match g_ep g !! a with
            | Some v => g_ep g' !! a = Some (abort_own t v) \/ (g_ep g' !! a = None /\ abort_own t v = no_versions)
            | None => g_ep g' !! a = None end;
}.

Lemma undo_done {V} b (A A' : gmap nat (versions V)) a : undo t b A A' -> (forall c, info <$> A' !! a <> Some (c, Some t)) ->
  match A !! a with
  | Some v => A' !! a = Some (abort_own t v) \/ (b = true /\ A' !! a = None /\ abort_own t v = no_versions)
  | None => A' !! a = None end.
Proof.
  intros H N. specialize (H a). destruct (A !! a) as [v|], (A' !! a) as [v'|]; try done; [|naive_solver]. left.
  destruct H as [-> | ->]; [|done]. f_equal. unfold abort_own. destruct (own_pending v t) eqn:O; [|done].
  apply own_pending_info in O as [c Hc]. destruct (N c). cbn. by rewrite Hc.
Qed.
Lemma undo_map {V} (A A' : gmap nat (versions V)) : undo t false A A' -> (forall a c, info <$> A' !! a <> Some (c, Some t)) -> A' = abort_own t <$> A.
Proof.
  intros H N. apply map_eq. intros a. rewrite lookup_fmap. pose proof (undo_done _ _ _ a H (N a)) as D.
  destruct (A !! a); [|done]. by destruct D as [?|[? _]].
Qed.
Lemma undone_aborted g g' : undone t g g' -> (forall k a, ~ pends g' t k a) -> aborted g g'.
Proof.
  intros [H1 H2 H3 H4] N. assert (forall k a c, look g' k a <> Some (c, Some t)) as N' by (intros k a c E; apply (N k a); by exists c).
  split.
  - apply undo_map; [done|]. intros a. apply (N' KVertex).
  - apply undo_map; [done|]. intros a. apply (N' KEdge).
  - intros a. pose proof (undo_done _ _ _ a H3 (N' KVP a)) as D. destruct (g_vp g !! a); naive_solver.
  - intros a. pose proof (undo_done _ _ _ a H4 (N' KEP a)) as D. destruct (g_ep g !! a); naive_solver.
Qed.

Lemma history_ok_abort s s' g g' : history_ok s g -> shrinks s s' g' -> undone t g g' -> (forall k a, ~ pends g' t k a) ->
  history_ok (set_history s' (delete t (process_history s'))) g'.
Proof.
  intros H Sh U N.
  assert (forall t' h, delete t (process_history s') !! t' = Some h <-> t' <> t /\ process_history s !! t' = Some h) as Hh.
  { intros t' h. rewrite lookup_delete_Some, (sh_history _ _ _ Sh). naive_solver. }
  assert (forall t' p c, depends (set_history s' (delete t (process_history s'))) g' t' p c -> depends s g t' p c) as Hd.
  { intros t' p c D. eapply shrinks_depends; [done..|]. by destruct D; econstructor. }
  assert (forall t' k a c, look g' k a = Some (c, Some t') -> t' <> t) as Ht by (intros t' k a c E ->; apply (N k a); by exists c).
  split; cbn [process_history set_history vertex_map].
  - intros t' h [_ E]%Hh. by eapply ho_trx.
  - intros t' h r [Nt E]%Hh Hr. destruct (ho_pends _ _ H _ _ _ E Hr) as [c Hc]. exists c. by apply (undone_other t g).
  - intros t' k a [c Hc]. pose proof (Ht _ _ _ _ Hc) as Nt. destruct (ho_recorded _ _ H t' k a) as (h & r & Eh & ?); [exists c; by eapply undone_pends|].
    exists h, r. split; [by apply Hh|done].
  - intros t' h a [Nt E]%Hh Hr. destruct (ho_vid _ _ H _ _ _ E Hr) as (vid & v & tl & rl & X1 & X2 & X3 & X4 & X5 & X6).
    assert (look g' KVertex a = Some (false, Some t')) as Hl by (by apply (undone_other t g)).
    destruct (sh_back _ _ _ Sh vid) as [v' Ev']; [by eexists|]. destruct (sh_vertex _ _ _ Sh _ _ Ev') as (v0 & Ev0 & D).
    rewrite X2 in Ev0. injection Ev0 as <-. destruct D as [-> |(_ & _ & _ & b & Eb & Hb)]; [by exists vid, v, tl, rl|].
    rewrite X3 in Eb. injection Eb as <-. congruence.
  - intros t' p c D. pose proof (Hd _ _ _ D) as D0. apply (undone_other t g); [done| |by eapply ho_own].
    destruct D as [????? ? Hl|????? ? Hl|a v b x e rl l Ev Ep]; [by eapply Ht..|]. eapply (Ht t' KEdge a). cbn. rewrite Ev. cbn.
    unfold info. by rewrite Ep.
  - intros t' h p c i j r r' [Nt E]%Hh D%Hd. by eapply ho_order.
Qed.

Lemma todo_start s g h : storage_inv VPR EPR VER NT s g -> process_history s !! t = Some h ->
  todo s g (mvcclist_to_vid_map h) (reverse (process_vector h)) ∅.
Proof.
  intros [Ok H] Eh. split.
  - done.
  - intros r Hr _. rewrite elem_of_reverse in Hr. by eapply ho_pends.
  - intros k a P. destruct (ho_recorded _ _ H _ _ _ P) as (h' & r & Eh' & Hr & ?). simplify_eq.
    split; [set_solver|]. exists r. by rewrite elem_of_reverse.
  - intros a Hr _. rewrite elem_of_reverse in Hr. by eapply ho_vid.
  - intros p c D. left. by eapply ho_own.
  - intros p c i j r r' D Hi Op Hj El. pose proof Hi as Li%lookup_lt_Some. pose proof Hj as Lj%lookup_lt_Some. rewrite length_reverse in *.
    apply reverse_lookup_Some in Hi as [Hi _]. apply reverse_lookup_Some in Hj as [Hj _].
    pose proof (ho_order _ _ H _ _ _ _ _ _ _ _ Eh D Hi Op Hj El). lia.
Qed.

Lemma abort_inv s g : storage_inv VPR EPR VER NT s g ->
  exists s' g', Abort VPR EPR VER BLOCK_SIZE al t s = Some (tt, s') /\ storage_inv VPR EPR VER NT s' g' /\ aborted g g' /\
    process_history s' !! t = None.
Proof using All.
  intros I. pose proof I as [Ok H]. unfold Abort. ds_simpl. destruct (process_history s !! t) as [h|] eqn:Eh.
  - destruct (abort_loop (mvcclist_to_vid_map h) (reverse (process_vector h)) ∅ s g) as (s1 & g1 & E & Ok1 & Un & Sh & N); [by apply todo_start|].
    rewrite (run_step _ _ _ _ _ E). eexists _, g1. split; [done|]. split; [split|split].
    + by apply storage_ok_history.
    + by eapply history_ok_abort.
    + by apply undone_aborted.
    + cbn. apply lookup_delete_eq.
  - exists s, g. split_and!; [done..| |done]. apply undone_aborted; [apply undone_refl|]. intros k a P.
    destruct (ho_recorded _ _ H _ _ _ P) as (h & r & Eh' & _). congruence.
Qed.
End Abort.
