(* ===== verification/StorageSteps.v ===== *)
(** * The operations of transactions keep the invariant of the storage

    The operations run without pre-reads of versions of transactions that are
    still validating; [StorageFindings] shows what goes wrong with them.  A
    transaction does not add or drop again an edge whose version it has already
    given properties. *)
From S2P Require Import Prelude Types TrxStatus Coordinator TrxStub MvccList CellPool ValueStore Serialization.
From S2P Require Import RowChain PropertyRows Topology Forest RowMemory DataStorage StorageInv StorageAbort.
Local Open Scope nat_scope.

(** ** A write and its record *)
Section Write.
Implicit Types (s : Storage) (g : graph).

(** A transaction [t] writes the list [a] of kind [k], which may be new, and
    records it. *)
Record writes s s' g g' (t : Z) (ty : ProcessType) (a : nat) : Prop := {
  wr_before : (exists c, (look g (kind_of ty) a = Some (c, None) \/ look g (kind_of ty) a = Some (c, Some t)) /\
                         look g' (kind_of ty) a = Some (c, Some t)) \/
              ((forall k, look g k a = None) /\ look g' (kind_of ty) a = Some (false, Some t));
  wr_other k b : (k, b) <> (kind_of ty, a) -> look g' k b = look g k b;
  wr_depends t' p c : depends s' g' t' p c -> depends s g t' p c \/ (t' = t /\ c = (kind_of ty, a) /\ look g (kind_of ty) a = None);
  wr_fresh c : ty <> PROCESS_DROP_V -> ~ depends s' g' t (kind_of ty, a) c \/ (kind_of ty <> KEdge /\ kind_of ty <> KVertex);
  wr_vertex vid v : vertex_map s !! vid = Some v -> exists v', vertex_map s' !! vid = Some v' /\ v_mvcc_list v' = v_mvcc_list v /\
    (is_Some (ve_row_list v) -> is_Some (ve_row_list v')) /\ (is_Some (vp_row_list v) -> is_Some (vp_row_list v'));
  wr_history : exists m, process_history s' = <[t := mk_history (process_vector (default no_history (process_history s !! t)) ++ [mk_record ty a]) m]>
      (process_history s) /\
    (forall b vid, b <> a -> mvcclist_to_vid_map (default no_history (process_history s !! t)) !! b = Some vid -> m !! b = Some vid) /\
    (ty <> PROCESS_ADD_V -> m = mvcclist_to_vid_map (default no_history (process_history s !! t))) /\
    (ty = PROCESS_ADD_V -> exists vid v tl rl, m !! a = Some vid /\ vertex_map s' !! vid = Some v /\ v_mvcc_list v = Some a /\
      ve_row_list v = Some tl /\ vp_row_list v = Some rl /\ forall k, look g k a = None);
}.

Lemma depends_kinds s g t p c : depends s g t p c -> c.1 <> p.1.
Proof. by destruct 1. Qed.
Lemma depends_parent s g t p c : depends s g t p c -> p.1 = KEdge \/ p.1 = KVertex.
Proof. destruct 1; auto. Qed.
Lemma depends_alive VPR EPR VER NT s g t p c : storage_ok VPR EPR VER NT s g -> depends s g t p c ->
  is_Some (look g p.1 p.2) /\ is_Some (look g c.1 c.2).
Proof.
  intros Ok D. destruct D as [vid v a l Ev El Hl' Hin|vid v a l Ev El Hl' Hin|a v b x e rl l Ev Ep Hx Er Hin]; cbn [fst snd].
  - split; [by rewrite Hl'|]. eapply (proj1 (Forall_forall _ _) (vk_ve_alive _ _ _ _ _ (so_vertex _ _ _ _ _ _ Ok _ _ Ev))); done.
  - split; [by rewrite Hl'|]. eapply (proj1 (Forall_forall _ _) (vk_vp_alive _ _ _ _ _ (so_vertex _ _ _ _ _ _ Ok _ _ Ev))); done.
  - split; [cbn; by rewrite Ev|]. eapply (proj1 (Forall_forall _ _) (er_alive _ _ _ (so_rows _ _ _ _ _ _ Ok _ _ Er))); done.
Qed.

Lemma history_ok_write VPR EPR VER NT s s' g g' t ty a : is_trx t -> storage_ok VPR EPR VER NT s g -> storage_ok VPR EPR VER NT s' g' ->
  history_ok s g -> writes s s' g g' t ty a -> history_ok s' g'.
Proof.
  intros Ht Ok Ok' H [Wb Wo Wd Wf Wv (m & Eh & Hm & Hm' & Hadd)].
  set (h0 := default no_history (process_history s !! t)) in *.
  assert (forall r, r ∈ process_vector h0 -> pends g t (kind_of (pr_type r)) (pr_list r)) as Hp0.
  { intros r Hr. subst h0. destruct (process_history s !! t) as [h|] eqn:E; [by eapply ho_pends|by apply not_elem_of_nil in Hr]. }
  assert (look g' (kind_of ty) a = Some (match look g (kind_of ty) a with Some (c, _) => c | None => false end, Some t)) as Ha.
  { destruct Wb as [(c & [E|E] & E')|[E E']]; by rewrite E', E. }
  assert (forall k b c t', look g k b = Some (c, Some t') -> (t' = t \/ (k, b) <> (kind_of ty, a))) as Hdiff.
  { intros k b c t' E. destruct (decide ((k, b) = (kind_of ty, a))) as [Ek|]; [|by right]. injection Ek as -> ->. left.
    destruct Wb as [(c' & [E1|E1] & _)|[E1 _]]; [congruence..|]. specialize (E1 (kind_of ty)). congruence. }
  assert (forall k b c t', look g k b = Some (c, Some t') -> look g' k b = Some (c, Some t')) as Hkeep.
  { intros k b c t' E. destruct (decide ((k, b) = (kind_of ty, a))) as [Ek|N]; [|by rewrite Wo].
    destruct (Hdiff _ _ _ _ E) as [-> |]; [|done]. injection Ek as -> ->. rewrite Ha, E. done. }
  split; rewrite ?Eh.
  - intros t' h. rewrite lookup_insert_Some. intros [[<- _]|[_ E]]; [done|by eapply ho_trx].
  - intros t' h r. rewrite lookup_insert_Some. intros [[<- <-]|[N E]]; cbn.
    + intros [Hr| ->%list_elem_of_singleton]%elem_of_app; [|eexists; exact Ha]. destruct (Hp0 r Hr) as [c Hc]. exists c. by apply Hkeep.
    + intros Hr. destruct (ho_pends _ _ H _ _ _ E Hr) as [c Hc]. exists c. by apply Hkeep.
  - intros t' k b [c Hc]. destruct (decide ((k, b) = (kind_of ty, a))) as [Ek|N].
    + injection Ek as -> ->. rewrite Ha in Hc. injection Hc as _ <-. eexists _, (mk_record ty a). rewrite lookup_insert_eq.
      split; [done|]. cbn. split_and!; try done. apply elem_of_app. right. by left.
    + rewrite Wo in Hc by done. destruct (ho_recorded _ _ H t' k b) as (h & r & E & Hr & ?); [by exists c|].
      destruct (decide (t' = t)) as [->|Nt]; [|exists h, r; by rewrite lookup_insert_ne].
      eexists _, r. rewrite lookup_insert_eq. split; [done|]. split; [|done]. cbn. subst h0. rewrite E. cbn. apply elem_of_app. by left.
  - intros t' h b. rewrite lookup_insert_Some. intros [[<- <-]|[N E]]; cbn.
    + intros [Hr|Hr%list_elem_of_singleton]%elem_of_app.
      * assert (process_history s !! t = Some h0) as E0 by (subst h0; destruct (process_history s !! t); [done|by apply not_elem_of_nil in Hr]).
        destruct (ho_vid _ _ H _ _ _ E0 Hr) as (vid & v & tl & rl & X1 & X2 & X3 & X4 & X5 & X6).
        destruct (Wv vid v X2) as (v' & Y1 & Y2 & Y3 & Y4). destruct Y3 as [tl' Y3]; [by eexists|]. destruct Y4 as [rl' Y4]; [by eexists|].
        exists vid, v', tl', rl'. split_and!; try done; [|congruence|by apply (Hkeep KVertex)]. destruct (decide (b = a)) as [->|Nb]; [|by apply Hm].
        destruct (decide (ty = PROCESS_ADD_V)) as [->|Nt]; [|by rewrite Hm']. destruct (Hadd eq_refl) as (_ & _ & _ & _ & _ & _ & _ & _ & _ & Hn). specialize (Hn KVertex). congruence.
      * injection Hr as <- <-. destruct (Hadd eq_refl) as (vid & v & tl & rl & X1 & X2 & X3 & X4 & X5 & Hn). exists vid, v, tl, rl. split_and!; try done.
        cbn in Ha. rewrite Ha. specialize (Hn KVertex). cbn in Hn. by rewrite Hn.
    + intros Hr. destruct (ho_vid _ _ H _ _ _ E Hr) as (vid & v & tl & rl & X1 & X2 & X3 & X4 & X5 & X6).
      destruct (Wv vid v X2) as (v' & Y1 & Y2 & Y3 & Y4). destruct Y3 as [tl' Y3]; [by eexists|]. destruct Y4 as [rl' Y4]; [by eexists|].
      exists vid, v', tl', rl'. split_and!; try done; [congruence|by apply (Hkeep KVertex)].
  - intros t' p c D. destruct (Wd _ _ _ D) as [D0|(-> & -> & Hn)]; [apply Hkeep; by eapply ho_own|]. cbn. by rewrite Ha, Hn.
  - intros t' h p c i j r r'. rewrite lookup_insert_Some. intros [[<- <-]|[N E]]; cbn.
    2:{ intros D. destruct (Wd _ _ _ D) as [D0|(-> & _)]; [by eapply ho_order|done]. }
    intros D Hi Op Hj El. assert (p <> (kind_of ty, a) \/ r <> mk_record ty a) as Hne.
    { destruct (decide (p = (kind_of ty, a))) as [->|]; [|by left]. right. intros ->. destruct Op as (_ & _ & Op). cbn in Op.
      destruct (Wf c Op) as [?|[K1 K2]]; [done|]. by destruct (depends_parent _ _ _ _ _ D). }
    assert (i < length (process_vector h0)) as Li.
    { apply lookup_app_Some in Hi as [Hi|[Hi Hi']]; [by eapply lookup_lt_Some|]. apply list_lookup_singleton_Some in Hi' as [Hi' <-].
      destruct Hne as [Np|]; [|done]. destruct Op as (Op1 & Op2 & _). cbn in *. destruct p. cbn in *. congruence. }
    rewrite lookup_app_l in Hi by done.
    destruct (decide (j < length (process_vector h0))) as [Lj|]; [|lia]. rewrite lookup_app_l in Hj by done.
    assert (process_history s !! t = Some h0) as E0 by (subst h0; destruct (process_history s !! t); [done|cbn in Li; lia]).
    destruct (Wd _ _ _ D) as [D0|(_ & -> & Hn)]; [by eapply (ho_order _ _ H)|]. cbn in El.
    destruct (Hp0 r') as [c' Hc']; [by eapply list_elem_of_lookup_2|]. rewrite El in Hc'. destruct Wb as [(x & [E|E] & _)|[E _]]; congruence.
Qed.
End Write.

(** ** Changing the versions of one list *)

Lemma append_info {V} (v v' : versions V) t bt x : append_abs v t bt x = Some v' ->
  info v' = ((info v).1, Some t) /\ ((info v).2 = None \/ (info v).2 = Some t) /\ committed v' = committed v /\
  (exists b, pending v' = Some (t, b, x)).
Proof.
  unfold append_abs, info. destruct (pending v) as [[[t0 b] y]|]; cbn.
  - destruct (Z.eqb_spec t0 t) as [->|]; [|done]. intros [= <-]. cbn. eauto 10.
  - intros [= <-]. cbn. eauto 10.
Qed.

Definition put_v g a w : graph := mk_graph (<[a := w]> (g_v g)) (g_e g) (g_vp g) (g_ep g).
Definition put_e g a w : graph := mk_graph (g_v g) (<[a := w]> (g_e g)) (g_vp g) (g_ep g).
Definition put_vp g a w : graph := mk_graph (g_v g) (g_e g) (<[a := w]> (g_vp g)) (g_ep g).
Definition put_ep g a w : graph := mk_graph (g_v g) (g_e g) (g_vp g) (<[a := w]> (g_ep g)).

Lemma info_insert {V} (A : gmap nat (versions V)) a w b :
  info <$> <[a := w]> A !! b = if decide (b = a) then Some (info w) else info <$> A !! b.
Proof. destruct (decide (b = a)) as [->|]; [by rewrite lookup_insert_eq|by rewrite lookup_insert_ne]. Qed.

(** A graph [g'] has at [(k, a)] the information [i] and elsewhere that of [g]. *)
Definition puts g g' (k : list_kind) (a : nat) (i : bool * option Z) : Prop :=
  look g' k a = Some i /\ forall k' b, (k', b) <> (k, a) -> look g' k' b = look g k' b.
Lemma puts_v g a w : puts g (put_v g a w) KVertex a (info w).
Proof. split; [cbn; by rewrite lookup_insert_eq|]. intros k' b N. destruct k'; cbn; try done. rewrite lookup_insert_ne; congruence. Qed.
Lemma puts_e g a w : puts g (put_e g a w) KEdge a (info w).
Proof. split; [cbn; by rewrite lookup_insert_eq|]. intros k' b N. destruct k'; cbn; try done. rewrite lookup_insert_ne; congruence. Qed.
Lemma puts_vp g a w : puts g (put_vp g a w) KVP a (info w).
Proof. split; [cbn; by rewrite lookup_insert_eq|]. intros k' b N. destruct k'; cbn; try done. rewrite lookup_insert_ne; congruence. Qed.
Lemma puts_ep g a w : puts g (put_ep g a w) KEP a (info w).
Proof. split; [cbn; by rewrite lookup_insert_eq|]. intros k' b N. destruct k'; cbn; try done. rewrite lookup_insert_ne; congruence. Qed.

Lemma puts_alive g g' k a i k' b : puts g g' k a i -> alive g k' b -> alive g' k' b.
Proof.
  unfold alive. intros [H1 H2] Hb. destruct (decide ((k', b) = (k, a))) as [E|N]; [injection E as -> ->; by rewrite H1|by rewrite H2].
Qed.
(** The kinds stay apart when the list was there or is new. *)
Lemma puts_kinds NT s g g' k a i k1 k2 b : mem_rel NT s g -> puts g g' k a i -> (alive g k a \/ forall k', look g k' a = None) ->
  is_Some (look g' k1 b) -> is_Some (look g' k2 b) -> k1 = k2.
Proof.
  intros M [H1 H2] Ha X1 X2. destruct (decide (b = a)) as [->|N].
  - destruct Ha as [Ha|Ha].
    + assert (forall k', is_Some (look g' k' a) -> is_Some (look g k' a)) as Hb.
      { intros k' Hk. destruct (decide (k' = k)) as [->|]; [done|]. by rewrite <- H2 by congruence. }
      eapply (mr_kinds _ _ _ M); by apply Hb.
    + assert (forall k', is_Some (look g' k' a) -> k' = k) as Hb.
      { intros k' Hk. destruct (decide (k' = k)); [done|]. rewrite H2, Ha in Hk by congruence. by destruct Hk. }
      by rewrite (Hb k1 X1), (Hb k2 X2).
  - rewrite H2 in X1, X2 by congruence. by eapply (mr_kinds _ _ _ M).
Qed.

Section ForestSteps.
Context {V : Type} `{!MVCCItem V}.
Implicit Types (ls : gmap nat MVCCList) (h : gmap nat (Item V)) (A : gmap nat (versions V)).

Lemma forest_write ls h A a l v t bt p stale r h1 l1 q x h2 : (exists C, forest ls h C A) -> ls !! a = Some l -> A !! a = Some v ->
  is_trx t -> h !! p = None -> AppendVersion h l t bt p stale = Some (r, h1, l1) -> ap_item r = Some q -> write_val h1 q x = Some h2 ->
  exists v', append_abs v t bt x = Some v' /\ exists C, forest (<[a := l1]> ls) h2 C (<[a := v']> A).
Proof.
  intros [C F] El Ev Ht Hp Ea Eq Ew. destruct (forest_append _ _ _ _ _ _ _ t bt p stale F El Ev Ht Hp) as (r' & h' & l' & Ea' & Hr).
  rewrite Ea in Ea'. injection Ea' as <- <- <-. rewrite Eq in Hr. destruct Hr as [_ Hr]. destruct (Hr x) as (h'' & C' & v' & Ew' & Hv & F').
  rewrite Ew in Ew'. injection Ew' as <-. eauto.
Qed.
Lemma forest_add ls h A a t bt p stale r h1 l1 q x h2 : (exists C, forest ls h C A) -> ls !! a = None ->
  is_trx t -> h !! p = None -> AppendVersion h empty_list t bt p stale = Some (r, h1, l1) -> ap_item r = Some q -> write_val h1 q x = Some h2 ->
  exists C, forest (<[a := l1]> ls) h2 C (<[a := mk_versions [] (Some (t, bt, x))]> A).
Proof.
  intros [C F] En Ht Hp Ea Eq Ew. pose proof (forest_new _ _ _ _ a F En) as F1.
  destruct (forest_write (<[a := empty_list]> ls) h (<[a := no_versions]> A) a empty_list no_versions t bt p stale r h1 l1 q x h2)
    as (v' & Hv & F'); try done; [by eexists|by rewrite lookup_insert_eq..|]. rewrite !insert_insert_eq in F'. by injection Hv as <-.
Qed.
End ForestSteps.

(** ** What a transaction changes before it ends *)

(** The lists get no committed version and lose none: a list changes only by a
    pending version of [t], where [t] had one or nobody had. *)
Definition own_change {V} (t : Z) (A A' : gmap nat (versions V)) : Prop := forall a, A' !! a = A !! a \/
  exists b x, let v := default no_versions (A !! a) in
    (pending v = None \/ own_pending v t = true) /\ A' !! a = Some (mk_versions (committed v) (Some (t, b, x))).
Definition own_changes (t : Z) g g' : Prop :=
  own_change t (g_v g) (g_v g') /\ own_change t (g_e g) (g_e g') /\ own_change t (g_vp g) (g_vp g') /\ own_change t (g_ep g) (g_ep g').

Lemma own_change_refl {V} t (A : gmap nat (versions V)) : own_change t A A.
Proof. by left. Qed.
Lemma own_change_append {V} t bt x (A : gmap nat (versions V)) a v v' : default no_versions (A !! a) = v ->
  append_abs v t bt x = Some v' -> own_change t A (<[a := v']> A).
Proof.
  intros E H b. destruct (decide (b = a)) as [->|]; [|left; by rewrite lookup_insert_ne]. right. rewrite lookup_insert_eq, E.
  unfold append_abs, own_pending in *. destruct (pending v) as [[[t0 b0] y]|].
  - destruct (Z.eqb_spec t0 t) as [->|]; [|done]. injection H as <-. eexists _, _. split; [by right|done].
  - injection H as <-. eauto.
Qed.

(** ** Reads change no list *)

Definition reads (s s' : Storage) : Prop := exists d u, s' = set_status (set_deps s d) u.
Lemma reads_refl s : reads s s.
Proof. exists (dep_map s), (status_updates s). by destruct s. Qed.
Lemma reads_trans s1 s2 s3 : reads s1 s2 -> reads s2 s3 -> reads s1 s3.
Proof. intros (d & u & ->) (d' & u' & ->). by exists d', u'. Qed.

Lemma storage_inv_reads VPR EPR VER NT s s' g : reads s s' -> storage_inv VPR EPR VER NT s g -> storage_inv VPR EPR VER NT s' g.
Proof.
  intros (d & u & ->) [Ok H]. split.
  - destruct Ok as [[] ]. by split; [split|..].
  - assert (forall t p c, depends (set_status (set_deps s d) u) g t p c -> depends s g t p c) as Hd by (intros t p c D; destruct D; by econstructor).
    destruct H. split; eauto.
Qed.

(** Without pre-reads a read returns the pending version of its own transaction
    or a committed one. *)
Lemma visible_in_list {V} (cs : list (Z * V)) bt x : visible cs bt = Some x -> x ∈ cs.*2.
Proof.
  induction cs as [|[c v] cs IH]; cbn; [done|]. destruct (c <=? bt)%Z; [|done]. destruct (visible cs bt) as [y|].
  - intros [= ->]. right. by apply IH.
  - intros [= ->]. left.
Qed.
Lemma read_version {V} `{!MVCCItem V} {main indirect} `{!TrxTableStub main indirect} lvl tbl (h : gmap nat (Item V)) l ps v t bt ro d x d' :
  repr h l ps v -> is_trx t -> is_time bt -> GetVisibleVersion lvl tbl false h l t bt ro d = Some (RValue x, d') ->
  (exists b, pending v = Some (t, b, x)) \/ x ∈ (committed v).*2.
Proof.
  intros R Ht Hb Hg. destruct lvl; unfold GetVisibleVersion in Hg.
  - rewrite (snapshot_read_spec _ _ _ _ t bt R Ht Hb) in Hg. cbn in Hg. unfold snapshot_read in Hg.
    destruct (pending v) as [[[t0 b] y]|].
    + destruct (Z.eqb_spec t0 t) as [->|]; [injection Hg as -> _; eauto|].
      destruct (visible _ _) eqn:E; [|done]. injection Hg as -> _. right. by eapply visible_in_list.
    + destruct (visible _ _) eqn:E; [|done]. injection Hg as -> _. right. by eapply visible_in_list.
  - rewrite (serializable_read_spec tbl false _ _ _ _ t bt ro d R Ht Hb) in Hg. unfold serializable_read in Hg. cbv zeta in Hg.
    destruct (pending v) as [[[t0 b] y]|].
    + destruct (Z.eqb_spec t0 t) as [->|]; [injection Hg as -> _; eauto|].
      destruct (committed v) as [|c cs]; [done|]. destruct (visible _ _) eqn:E; [|by destruct ro].
      destruct (_ <=? _)%Z; [done|]. destruct ro; [|done]. injection Hg as -> _. right. by eapply visible_in_list.
    + destruct (committed v) as [|c cs]; [done|]. destruct (visible _ _) eqn:E; [|by destruct ro].
      destruct (_ || _); [|done]. injection Hg as -> _. right. by eapply visible_in_list.
Qed.

(** ** The operations *)

(** Takes a run of the monad apart. *)
Ltac ds_inv H := repeat (lazymatch type of H with
  | (get ≫= _) _ = Some _ => rewrite run_get in H
  | (modify _ ≫= _) _ = Some _ => rewrite run_modify in H
  | (mret _ ≫= _) _ = Some _ => rewrite run_ret in H
  | (lift (Some _) ≫= _) _ = Some _ => rewrite run_lift in H
  | (lift ?o ≫= _) _ = Some _ => let E := fresh "E" in destruct o eqn:E; [rewrite run_lift in H|discriminate H]
  | mret _ _ = Some _ => apply ds_ret in H
  end; cbv beta iota in H).
Ltac ds_step H x s1 H1 := apply ds_bind in H as (x & s1 & H1 & H).

(** Operations that change no list. *)
Definition reading {A} (m : DS A) : Prop := forall s x s', m s = Some (x, s') -> reads s s'.
Lemma reading_ret {A} (x : A) : reading (mret x).
Proof. intros s y s' H%ds_ret. injection H as -> ->. apply reads_refl. Qed.
Lemma reading_lift {A} (o : option A) : reading (lift o).
Proof. intros s y s' (x & _ & H)%ds_lift. injection H as -> ->. apply reads_refl. Qed.
Lemma reading_get : reading get.
Proof. intros s y s' H%ds_get. injection H as -> ->. apply reads_refl. Qed.
Lemma reading_bind {A B} (m : DS A) (f : A -> DS B) : reading m -> (forall x, reading (f x)) -> reading (m ≫= f).
Proof. intros Hm Hf s y s' (x & s1 & H1 & H2)%ds_bind. eapply reads_trans; [by eapply Hm|by eapply Hf]. Qed.
Lemma reading_status x : reading (update_status x).
Proof. intros s r s' H. injection H as <- <-. exists (dep_map s), (status_updates s ++ [x]). by destruct s. Qed.
Lemma reading_deps {A} (f : Storage -> dep_trx_map -> option (A * dep_trx_map)) : reading (with_deps f).
Proof.
  intros s x s'. unfold with_deps. destruct (f s (dep_map s)) as [[y d]|]; [|done]. intros H. injection H as <- <-.
  exists d, (status_updates s). by destruct s.
Qed.
Create HintDb reading.
#[export] Hint Resolve reading_ret reading_lift reading_get reading_status reading_deps : reading.
Ltac reading := repeat (first [solve [eauto with reading] | apply reading_bind; intros | case_match]).
Ltac reads_by H := lazymatch type of H with
  ?m _ = _ => let Hr := fresh in enough (reading m) as Hr by exact (Hr _ _ _ H) end; reading.

Section Readers.
Context {main indirect : nat} `{!TrxTableStub main indirect} (lvl : ISOLATION_LEVEL) (tbl : TrxTable) (t bt : Z) (VER : nat).
Lemma reading_vertex opt ro vid : reading (GetVertexIterator lvl tbl opt t bt ro vid).
Proof. unfold GetVertexIterator, CheckVertexVisibility. reading. Qed.
Lemma reading_edge opt ro eid : reading (GetOutEdgeVersion lvl tbl opt t bt ro eid).
Proof. unfold GetOutEdgeVersion. reading. Qed.
Lemma reading_rows {A} (f : Storage -> dep_trx_map -> option (READ_STAT * A * dep_trx_map)) : reading (read_rows t f).
Proof. unfold read_rows. reading. Qed.
#[local] Hint Resolve reading_vertex reading_edge reading_rows : reading.
Lemma reading_connected opt ro vid label dir : reading (GetConnectedEdgeList lvl tbl opt VER t bt ro vid label dir).
Proof. unfold GetConnectedEdgeList, on_vertex. reading. Qed.
End Readers.
#[export] Hint Resolve reading_vertex reading_edge reading_rows reading_connected : reading.

Section Steps.
Context {main indirect : nat} `{!TrxTableStub main indirect} (lvl : ISOLATION_LEVEL) (tbl : TrxTable).
Context (VPR EPR VER NT BLOCK_SIZE : nat) (worker_size worker_rank : Z).
Context (HVP : 0 < VPR) (HEP : 0 < EPR) (HVE : 0 < VER) (HB : 1 < BLOCK_SIZE).
Context (t bt : Z) (Ht : is_trx t) (Hbt : is_time bt).
Implicit Types (s : Storage) (g : graph).
Abbreviation storage_ok := (storage_ok VPR EPR VER NT).
Abbreviation storage_inv := (storage_inv VPR EPR VER NT).

Lemma vertex_visible s g vid ov s1 ro : storage_ok s g -> GetVertexIterator lvl tbl false t bt ro vid s = Some (READ_SUCCESS, ov, s1) ->
  exists v a, ov = Some v /\ vertex_map s !! vid = Some v /\ v_mvcc_list v = Some a /\
    exists c o, look g KVertex a = Some (c, o) /\ (c = true \/ o = Some t).
Proof using Ht Hbt.
  intros Ok H. unfold GetVertexIterator in H. ds_inv H. destruct (vertex_map s !! vid) as [v|] eqn:Ev; [|by apply ds_ret in H].
  ds_step H rs s2 H1. unfold CheckVertexVisibility in H1. ds_inv H1. rename n into a. ds_step H1 r s3 H2. apply ds_ret in H1.
  injection H1 as -> ->. assert (exists b d, v_visible lvl tbl false t bt ro s a (dep_map s) = Some (RValue b, d) /\ ov = Some v) as (b & d & Hv & ->).
  { unfold with_deps in H2. destruct (v_visible _ _ _ _ _ _ _ _ _) as [[y d]|]; [|done]. injection H2 as -> <-.
    destruct r as [| |[]]; [by ds_step H u s4 H3; apply ds_ret in H|by apply ds_ret in H| |by apply ds_ret in H].
    apply ds_ret in H. injection H as -> _. eauto. }
  exists v, a. split_and!; try done. destruct (vk_list _ _ _ _ _ (so_vertex _ _ _ _ _ _ Ok _ _ Ev)) as (a' & Ea & [i Hi]).
  assert (a' = a) as -> by congruence. unfold v_visible in Hv. cbn in Hi. apply fmap_Some in Hi as (w & Ew & Hw).
  destruct (mr_v _ _ _ (so_mem _ _ _ _ _ _ Ok)) as [C F]. destruct (forest_abs _ _ _ _ _ _ F Ew) as (ps & l & Ec & El & R).
  rewrite El in Hv. cbn [mbind option_bind] in Hv. eexists _, _. split; [cbn; by rewrite Ew|].
  destruct (read_version _ _ _ _ _ _ _ _ _ _ _ _ R Ht Hbt Hv) as [[b0 ->]|Hin]; [by right|left].
  by destruct (committed w); [apply not_elem_of_nil in Hin|].
Qed.

Lemma edge_visible s g eid oev s1 ro : storage_ok s g -> GetOutEdgeVersion lvl tbl false t bt ro eid s = Some (READ_SUCCESS, oev, s1) ->
  exists ev a v, oev = Some ev /\ out_edge_map s !! eid_t2uint eid = Some (Some a) /\ g_e g !! a = Some v /\
    ((exists b, pending v = Some (t, b, ev)) \/ ev ∈ (committed v).*2).
Proof using Ht Hbt.
  intros Ok H. unfold GetOutEdgeVersion in H. ds_inv H. destruct (out_edge_map s !! _) as [p|] eqn:Ep; [|by apply ds_ret in H].
  ds_inv H. rename n into a. subst p. ds_step H r s2 H1. unfold with_deps in H1.
  destruct (e_visible _ _ _ _ _ _ _ _ _) as [[y d]|] eqn:Hv; [|done]. injection H1 as -> <-.
  destruct r as [| |ev]; [by ds_step H u s4 H3; apply ds_ret in H|by apply ds_ret in H|].
  apply ds_ret in H. destruct (ev_label ev =? 0)%Z; [done|]. injection H as -> ->.
  destruct (so_out _ _ _ _ _ _ Ok _ _ Ep) as (a' & Ea & [i Hi]). injection Ea as <-. cbn in Hi. apply fmap_Some in Hi as (w & Ew & Hw).
  destruct (mr_e _ _ _ (so_mem _ _ _ _ _ _ Ok)) as [C F]. destruct (forest_abs _ _ _ _ _ _ F Ew) as (ps & l & Ec & El & R).
  unfold e_visible in Hv. rewrite El in Hv. cbn [mbind option_bind] in Hv. exists ev, a, w. split_and!; try done. by eapply read_version.
Qed.

(** The state after the history of [t] has got a record. *)
Definition recorded s (ty : ProcessType) (a : nat) : Storage :=
  let h := default no_history (process_history s !! t) in
  set_history s (<[t := mk_history (process_vector h ++ [mk_record ty a]) (mvcclist_to_vid_map h)]> (process_history s)).
Lemma run_history {B} ty a (f : unit -> DS B) s : ty <> PROCESS_ADD_V ->
  (InsertTrxProcessHistory t ty a ≫= f) s = f tt (recorded s ty a).
Proof. by destruct ty. Qed.

Lemma append_vals_of {V} (w w' : versions V) x : append_abs w t bt x = Some w' -> vals w' = (committed w).*2 ++ [x].
Proof. intros Ew. destruct (append_info _ _ _ _ _ Ew) as (_ & _ & Ec & [b Ep]). unfold vals. by rewrite Ec, Ep. Qed.

(** What the allocators give an operation is new. *)
Record alloc_ok s (al : Alloc) : Prop := {
  ao_v : v_lists s !! al_list al = None; ao_e : e_lists (edge_mem s) !! al_list al = None;
  ao_vp : lists (vp_mem s) !! al_list al = None; ao_ep : lists (ep_mem s) !! al_list al = None;
  ao_v_item : v_items s !! al_item al = None; ao_e_item : e_items (edge_mem s) !! al_item al = None;
  ao_vp_item : items (vp_mem s) !! al_item al = None; ao_ep_item : items (ep_mem s) !! al_item al = None;
  ao_rows : ep_rows s !! al_rows al = None;
  ao_vp_row : length (al_vp_row al) = VPR; ao_ep_row : length (al_ep_row al) = EPR; ao_ve_row : length (al_ve_row al) = VER;
  ao_tid : al_tid al < NT;
}.
Lemma alloc_reads s s' al : reads s s' -> alloc_ok s al -> alloc_ok s' al.
Proof. intros (d & u & ->) []. by split. Qed.
Lemma alloc_fresh s g al k : storage_ok s g -> alloc_ok s al -> look g k (al_list al) = None.
Proof.
  intros [[[C1 F1] [C2 F2] [[C3 F3] _] [[C4 F4] _] _ _ _] ] [].
  destruct k; cbn; apply fmap_None; (eapply forest_None; [eassumption|done]).
Qed.

(** ** Properties of vertices *)

(** A property of a vertex, old or new, gets a version. *)
Section VertexProperty.
Context (s : Storage) (g : graph) (vid : Z) (v : Vertex) (av : nat) (rl rl' : RowList) (m' : Memory) (a : nat).
Context (w w' : versions ValueHeader) (x : ValueHeader) (ty : ProcessType).
Context (Inv : storage_inv s g) (Ev : vertex_map s !! vid = Some v) (Erl : vp_row_list v = Some rl) (Eav : v_mvcc_list v = Some av).
Context (Own : forall t0, look g KVertex av = Some (false, Some t0) -> t0 = t).
Context (Ew : append_abs w t bt x = Some w') (M : mem_ok m' (<[a := w']> (g_vp g))) (Hthr : threads (values m') = NT).
Context (G : rows_good VPR vid rl') (Hty : kind_of ty = KVP).
Context (Case : (rl' = rl /\ a ∈ row_lists rl /\ g_vp g !! a = Some w) \/
  ((forall k, look g k a = None) /\ w = no_versions /\ row_lists rl' = row_lists rl ++ [a])).

Let v' := mk_vertex (v_label v) (ve_row_list v) (Some rl') (v_mvcc_list v).
Let s1 := set_vp_mem (set_vertices s (<[vid := v']> (vertex_map s))) m'.
Let g' := put_vp g a w'.

Lemma vp_alive k b : alive g k b -> alive g' k b.
Proof. eapply puts_alive. apply puts_vp. Qed.
Lemma vp_vertices u y : vertex_map s1 !! u = Some y -> exists y0, vertex_map s !! u = Some y0 /\
  v_mvcc_list y = v_mvcc_list y0 /\ ve_row_list y = ve_row_list y0 /\ ((u <> vid /\ y = y0) \/ (u = vid /\ y = v' /\ y0 = v)).
Proof.
  cbn. rewrite lookup_insert_Some. intros [[<- <-]|[N E]]; [exists v; split_and!; auto|exists y; split_and!; auto].
Qed.
Lemma vp_new_list l : l ∈ vp_lists v' -> l ∈ vp_lists v \/ (l = a /\ forall k, look g k a = None).
Proof.
  unfold vp_lists. rewrite Erl. cbn. destruct Case as [(-> & _)|(N & _ & ->)]; [by left|].
  intros [?| ->%list_elem_of_singleton]%elem_of_app; auto.
Qed.

Lemma vp_written_ok : storage_ok s1 g'.
Proof using Inv Ev Erl M Hthr G Case.
  destruct Inv as [[] _]. assert (Hn := so_vertex _ _ Ev). split; try done.
  - destruct so_mem. split; try done. intros k k' b. eapply puts_kinds; [by split|apply puts_vp|].
    destruct Case as [(_ & _ & Hw)|(N & _)]; [left|by right]. unfold alive. cbn. by rewrite Hw.
  - intros u y Ey. destruct (vp_vertices _ _ Ey) as (y0 & E0 & _ & _ & [[_ ->]|(-> & -> & ->)]).
    { eapply vertex_ok_alive; [apply vp_alive|eauto]. }
    destruct (vertex_ok_alive VPR VER _ _ _ _ vp_alive Hn) as [X1 X2 X3 X4 X5 X6]. split; try done.
    + intros ? [= <-]. done.
    + apply Forall_forall. intros l [Hl|[-> _]]%vp_new_list; [by eapply (proj1 (Forall_forall _ _) X5)|].
      unfold alive. cbn. by rewrite lookup_insert_eq.
    + unfold vp_lists in *. rewrite Erl in X6. cbn. destruct Case as [(-> & _)|(N & _ & ->)]; [done|].
      apply NoDup_app. split_and!; [done| |apply NoDup_singleton]. intros l Hl ->%list_elem_of_singleton.
      pose proof (vk_vp_alive _ _ _ _ _ Hn) as Ha. unfold vp_lists in Ha. rewrite Erl in Ha.
      apply (proj1 (Forall_forall _ _) Ha) in Hl. unfold alive in Hl. rewrite N in Hl. by destruct Hl.
  - intros u1 u2 y1 y2 b E1 E2. destruct (vp_vertices _ _ E1) as (? & ? & -> & _), (vp_vertices _ _ E2) as (? & ? & -> & _). eauto.
  - assert (forall u y l, vertex_map s1 !! u = Some y -> l ∈ vp_lists y ->
      (exists y0, vertex_map s !! u = Some y0 /\ l ∈ vp_lists y0) \/ (u = vid /\ l = a /\ forall k, look g k a = None)) as Hl.
    { intros u y l Ey Hl. destruct (vp_vertices _ _ Ey) as (y0 & E0 & _ & _ & [[_ ->]|(-> & -> & ->)]); [eauto|].
      destruct (vp_new_list _ Hl) as [?|[-> ?]]; eauto. }
    assert (forall u y, vertex_map s !! u = Some y -> a ∈ vp_lists y -> ~ forall k, look g k a = None) as Hno.
    { intros u y Ey Ha N. apply (proj1 (Forall_forall _ _) (vk_vp_alive _ _ _ _ _ (so_vertex _ _ Ey))) in Ha.
      unfold alive in Ha. rewrite N in Ha. by destruct Ha. }
    intros u1 u2 y1 y2 l E1 E2 L1 L2. destruct (Hl _ _ _ E1 L1) as [(z1 & Z1 & Z1')|(-> & El1 & N1)], (Hl _ _ _ E2 L2) as [(z2 & Z2 & Z2')|(-> & El2 & N2)]; subst; eauto.
    + by destruct (Hno _ _ Z1 Z1').
    + by destruct (Hno _ _ Z2 Z2').
  - intros e r Er. eapply eprows_ok_alive; [apply vp_alive|eauto].
Qed.

Lemma vp_written : storage_inv (recorded s1 ty a) g'.
Proof using All.
  pose proof (storage_ok_history VPR EPR VER NT _ _ (process_history (recorded s1 ty a)) vp_written_ok) as Ok'. split; [exact Ok'|].
  destruct Inv as [Ok H]. destruct (append_info _ _ _ _ _ Ew) as (Ei & Eb & _).
  assert (puts g g' KVP a (info w')) as Hp by apply puts_vp.
  eapply (history_ok_write VPR EPR VER NT s (recorded s1 ty a) g g' t ty a); try done. split.
  - rewrite Hty. destruct Hp as [-> _]. destruct Case as [(_ & _ & Hw)|(N & -> & _)]; [left|right; by rewrite Ei].
    exists (info w).1. rewrite Ei. cbn. rewrite Hw. cbn. destruct (info w) as [c o]. cbn in *. destruct Eb as [-> | ->]; auto.
  - intros k b N. apply Hp. congruence.
  - intros t' p c D. destruct D as [u y b l E1 E2 E3 E4|u y b l E1 E2 E3 E4|b ve b0 x0 e r l E1 E2 E3 E4 E5].
    + left. destruct (vp_vertices _ _ E1) as (y0 & E0 & L1 & L2 & _). eapply DepVE; [exact E0|congruence|done|].
      unfold ve_lists in *. by rewrite <- L2.
    + destruct (vp_vertices _ _ E1) as (y0 & E0 & L1 & L2 & [[_ ->]|(-> & -> & ->)]).
      * left. by eapply DepVP.
      * destruct (vp_new_list _ E4) as [?|[-> N]]; [left; by eapply DepVP|]. right. rewrite Hty, N. split_and!; try done.
        apply Own. cbn in E2. rewrite Eav in E2. by injection E2 as <-.
    + left. by eapply DepEP.
  - intros c _. right. by rewrite Hty.
  - intros u y Ey. destruct (decide (u = vid)) as [->|N].
    + exists v'. cbn. rewrite lookup_insert_eq. assert (y = v) as -> by congruence. split_and!; done.
    + exists y. cbn. rewrite lookup_insert_ne by done. done.
  - eexists. split; [reflexivity|]. split_and!; try done. intros ->. done.
Qed.
End VertexProperty.

(** The state [s'] is one that the operation may leave. *)
Definition keeps (g : graph) (s' : Storage) : Prop := exists g', storage_inv s' g' /\ own_changes t g g'.
Lemma keeps_reads s s' g : storage_inv s g -> reads s s' -> keeps g s'.
Proof. intros H R. exists g. split; [by eapply storage_inv_reads|]. repeat split; apply own_change_refl. Qed.

(** The end of an operation that fails. *)
Ltac fails := lazymatch goal with Inv : storage_inv ?s ?g |- keeps ?g _ => apply (keeps_reads s); [exact Inv|] end.

Lemma enter_vertex al s g vid ov s1 : storage_inv s g -> alloc_ok s al ->
  GetVertexIterator lvl tbl false t bt false vid s = Some (READ_SUCCESS, ov, s1) ->
  storage_inv s1 g /\ alloc_ok s1 al /\ exists v av, ov = Some v /\ vertex_map s1 !! vid = Some v /\ v_mvcc_list v = Some av /\
    (forall t0, look g KVertex av = Some (false, Some t0) -> t0 = t) /\ look g KVertex av <> Some (false, None).
Proof using Ht Hbt.
  intros Inv Al H. pose proof (reading_vertex _ _ _ _ _ _ _ _ _ _ H) as R. split; [by eapply storage_inv_reads|]. split; [by eapply alloc_reads|].
  destruct (vertex_visible _ _ _ _ _ _ (proj1 Inv) H) as (v & av & E1 & E2 & E3 & c & o & El & Hc). exists v, av.
  split_and!; [done|by destruct R as (d & u & ->)|done| |]; [intros t0|]; rewrite El; destruct Hc; congruence.
Qed.
Lemma enter_edge al s g eid oev s1 : storage_inv s g -> alloc_ok s al ->
  GetOutEdgeVersion lvl tbl false t bt false eid s = Some (READ_SUCCESS, oev, s1) ->
  storage_inv s1 g /\ alloc_ok s1 al /\ exists ev a v, oev = Some ev /\ out_edge_map s1 !! eid_t2uint eid = Some (Some a) /\ g_e g !! a = Some v /\
    ((exists b, pending v = Some (t, b, ev)) \/ ev ∈ (committed v).*2).
Proof using Ht Hbt.
  intros Inv Al H. pose proof (reading_edge _ _ _ _ _ _ _ _ _ _ H) as R. split; [by eapply storage_inv_reads|]. split; [by eapply alloc_reads|].
  destruct (edge_visible _ _ _ _ _ _ (proj1 Inv) H) as (ev & a & v & ?). exists ev, a, v. by destruct R as (d & u & ->).
Qed.
Lemma keeps_after s s1 s' g : storage_inv s g -> reads s s1 -> reads s1 s' -> keeps g s'.
Proof. intros Inv R R'. eapply keeps_reads; [exact Inv|by eapply reads_trans]. Qed.

Lemma vp_lists_alive s g vid v rl : storage_ok s g -> vertex_map s !! vid = Some v -> vp_row_list v = Some rl ->
  rows_good VPR vid rl /\ forall a, a ∈ row_lists rl -> is_Some (g_vp g !! a).
Proof.
  intros Ok Ev Erl. destruct (so_vertex _ _ _ _ _ _ Ok _ _ Ev) as [_ _ G _ L _]. split; [by apply G|]. intros a Ha.
  unfold vp_lists in L. rewrite Erl in L. apply (proj1 (Forall_forall _ _) L) in Ha as [i Hi]. cbn in Hi. apply fmap_Some in Hi as (? & ? & _). by eexists.
Qed.

Lemma vertex_same s vid v rl : vertex_map s !! vid = Some v -> vp_row_list v = Some rl ->
  set_vertices s (<[vid := mk_vertex (v_label v) (ve_row_list v) (Some rl) (v_mvcc_list v)]> (vertex_map s)) = s.
Proof. intros Ev <-. rewrite insert_id; [by destruct s|]. rewrite Ev. by destruct v. Qed.
Lemma vp_same s vid v rl : vertex_map s !! vid = Some v -> vp_row_list v = Some rl ->
  set_vp_mem (set_vertices s (<[vid := mk_vertex (v_label v) (ve_row_list v) (Some rl) (v_mvcc_list v)]> (vertex_map s))) (vp_mem s) = s.
Proof. intros Ev Erl. rewrite (vertex_same _ _ _ _ Ev Erl). by destruct s. Qed.

Lemma modify_vp_keeps al pid value old s g r s' : storage_inv s g -> alloc_ok s al -> storable value ->
  ProcessModifyVP lvl tbl false VPR BLOCK_SIZE t bt al pid value old s = Some (r, s') -> keeps g s'.
Proof using All.
  intros Inv Al Hst H. unfold ProcessModifyVP in H. ds_step H sv s1 H1. destruct sv as [st ov].
  pose proof (reading_vertex _ _ _ _ _ _ _ _ _ _ H1) as R1.
  destruct st; try solve [eapply (keeps_after s s1); [done..|]; reads_by H].
  destruct (enter_vertex _ _ _ _ _ _ Inv Al H1) as (Inv1 & Al1 & v & av & -> & Ev & Eav & Own & _). clear Inv Al R1 H1.
  ds_inv H. rename r0 into rl. destruct p as [[[[flag w] old'] rl'] m']. ds_inv H.
  destruct (vp_lists_alive _ _ _ _ _ (proj1 Inv1) Ev E) as [G L]. pose proof (so_mem _ _ _ _ _ _ (proj1 Inv1)) as M.
  destruct (modify_rows VPR HVP BLOCK_SIZE HB (vp_vid pid) rl (vp_mem s1) (g_vp g) (vp_key pid) _ _ t bt _ _ _ _ _ _ _ _ _ G L (mr_vp _ _ _ M) Ht
    (ao_vp_item _ _ Al1) ltac:(rewrite (mr_vp_threads _ _ _ M); apply Al1) (ao_vp _ _ Al1) (ao_vp_row _ _ Al1) eq_refl Hst E0) as (Hthr & G' & Hw).
  rewrite (mr_vp_threads _ _ _ M) in Hthr.
  destruct w as [a|].
  - rewrite run_history in H by (by destruct flag). ds_inv H. injection H as -> ->. destruct Hw as (x & w & w' & Ew & M' & Hc).
    exists (put_vp g a w'). split.
    + eapply vp_written; try done; [by destruct flag|]. destruct Hc as [?|(-> & -> & ?)]; [by left|right]. split_and!; try done.
      intros k. eapply alloc_fresh; [apply Inv1|done].
    + repeat split; try apply own_change_refl. eapply own_change_append; [|done].
      destruct Hc as [(_ & _ & ->)|(-> & -> & _)]; [done|]. pose proof (alloc_fresh _ _ _ KVP (proj1 Inv1) Al1) as Hf. apply fmap_None in Hf. by rewrite Hf.
  - destruct Hw as [-> ->]. ds_step H u s2 H2. apply reading_status in H2. apply ds_ret in H. injection H as -> ->.
    rewrite vp_same in H2 by done. by apply (keeps_reads s1).
Qed.

Lemma drop_vp_keeps al pid old s g r s' : storage_inv s g -> alloc_ok s al ->
  ProcessDropVP lvl tbl false VPR BLOCK_SIZE t bt al pid old s = Some (r, s') -> keeps g s'.
Proof using All.
  intros Inv Al H. unfold ProcessDropVP in H. ds_step H sv s1 H1. destruct sv as [st ov].
  pose proof (reading_vertex _ _ _ _ _ _ _ _ _ _ H1) as R1.
  destruct st; try solve [eapply (keeps_after s s1); [done..|]; reads_by H].
  destruct (enter_vertex _ _ _ _ _ _ Inv Al H1) as (Inv1 & Al1 & v & av & -> & Ev & Eav & Own & _). clear Inv Al R1 H1.
  ds_inv H. rename r0 into rl. destruct p as [[w old'] m']. ds_inv H.
  destruct (vp_lists_alive _ _ _ _ _ (proj1 Inv1) Ev E) as [G L]. pose proof (so_mem _ _ _ _ _ _ (proj1 Inv1)) as M.
  destruct (drop_rows VPR HVP BLOCK_SIZE HB (vp_vid pid) rl (vp_mem s1) (g_vp g) (vp_key pid) t bt _ _ _ _ _ _ G L (mr_vp _ _ _ M) Ht
    (ao_vp_item _ _ Al1) ltac:(rewrite (mr_vp_threads _ _ _ M); apply Al1) eq_refl E0) as (Hthr & Hw).
  rewrite (mr_vp_threads _ _ _ M) in Hthr.
  destruct w as [a|].
  - rewrite run_history in H by done. ds_inv H. injection H as -> ->. destruct Hw as (x & w & w' & Ew & M' & Ha & Hw).
    exists (put_vp g a w'). split.
    + rewrite <- (vertex_same s1 (vp_vid pid) v rl Ev E) at 1. eapply vp_written; try done. by left.
    + repeat split; try apply own_change_refl. eapply own_change_append; [|done]. by rewrite Hw.
  - subst m'. ds_step H u s2 H2. apply reading_status in H2. apply ds_ret in H. injection H as -> ->.
    assert (set_vp_mem s1 (vp_mem s1) = s1) as Es by (by destruct s1). rewrite Es in H2. by apply (keeps_reads s1).
Qed.

(** ** Properties of edges *)

(** The version that a read of an edge returned has the rows [e]. *)
Lemma visible_uses g ae ve ev e : g_e g !! ae = Some ve -> ((exists b, pending ve = Some (t, b, ev)) \/ ev ∈ (committed ve).*2) ->
  ep_row_list ev = Some e -> exists i, uses g ae i e /\
    forall t' b y, pending ve = Some (t', b, y) -> i = length (committed ve) -> t' = t.
Proof.
  intros Ea Hv He. destruct Hv as [[b Hp]|[i Hi]%list_elem_of_lookup_1].
  - exists (length (committed ve)). split; [|intros; congruence]. exists ve, ev. split_and!; try done.
    unfold vals. rewrite Hp. cbn. by rewrite lookup_app_r, length_fmap, Nat.sub_diag by (by rewrite length_fmap).
  - pose proof (lookup_lt_Some _ _ _ Hi) as Hl. rewrite length_fmap in Hl. exists i. split; [|lia]. exists ve, ev. split_and!; try done.
    unfold vals. by apply lookup_app_l_Some.
Qed.
Lemma pending_uses g b vb t' b0 y e : g_e g !! b = Some vb -> pending vb = Some (t', b0, y) -> ep_row_list y = Some e ->
  uses g b (length (committed vb)) e.
Proof.
  intros Eb Hp He. exists vb, y. split_and!; try done. unfold vals. rewrite Hp. cbn. by rewrite lookup_app_r, length_fmap, Nat.sub_diag by (by rewrite length_fmap).
Qed.

Section EdgeProperty.
Context (s : Storage) (g : graph) (k : Z) (ae : nat) (ve : versions EdgeVersion) (i e : nat) (rl rl' : RowList) (m' : Memory) (a : nat).
Context (w w' : versions ValueHeader) (x : ValueHeader) (ty : ProcessType).
Context (Inv : storage_inv s g) (Ek : out_edge_map s !! k = Some (Some ae)) (Ea : g_e g !! ae = Some ve) (U : uses g ae i e).
Context (Own : forall t' b y, pending ve = Some (t', b, y) -> i = length (committed ve) -> t' = t) (Er : ep_rows s !! e = Some rl).
Context (Ew : append_abs w t bt x = Some w') (M : mem_ok m' (<[a := w']> (g_ep g))) (Hthr : threads (values m') = NT).
Context (G : rows_good EPR k rl') (Hty : kind_of ty = KEP).
Context (Case : (rl' = rl /\ a ∈ row_lists rl /\ g_ep g !! a = Some w) \/
  ((forall k, look g k a = None) /\ w = no_versions /\ row_lists rl' = row_lists rl ++ [a])).

Let s1 := set_ep s (<[e := rl']> (ep_rows s)) m'.
Let g' := put_ep g a w'.

Lemma ep_alive k' b : alive g k' b -> alive g' k' b.
Proof. eapply puts_alive. apply puts_ep. Qed.
Lemma ep_rows_of e' r : ep_rows s1 !! e' = Some r -> exists r0, ep_rows s !! e' = Some r0 /\ ((e' <> e /\ r = r0) \/ (e' = e /\ r = rl' /\ r0 = rl)).
Proof. cbn. rewrite lookup_insert_Some. intros [[<- <-]|[N E]]; [exists rl; auto|exists r; auto]. Qed.
Lemma ep_new_list l : l ∈ row_lists rl' -> l ∈ row_lists rl \/ (l = a /\ forall k, look g k a = None).
Proof. destruct Case as [(-> & _)|(N & _ & ->)]; [by left|]. intros [?| ->%list_elem_of_singleton]%elem_of_app; auto. Qed.
Lemma ep_listed e' r l : ep_rows s1 !! e' = Some r -> l ∈ row_lists r ->
  (exists r0, ep_rows s !! e' = Some r0 /\ l ∈ row_lists r0) \/ (e' = e /\ l = a /\ forall k, look g k a = None).
Proof.
  intros E Hl. destruct (ep_rows_of _ _ E) as (r0 & E0 & [[_ ->]|(-> & -> & ->)]); [eauto|]. destruct (ep_new_list _ Hl) as [?|[-> ?]]; eauto.
Qed.

Lemma ep_written_ok : storage_ok s1 g'.
Proof using Inv Ek Ea U Er M Hthr G Case.
  destruct Inv as [[] _]. assert (Hn := so_rows _ _ Er).
  assert (forall e' r, ep_rows s !! e' = Some r -> a ∈ row_lists r -> ~ forall k, look g k a = None) as Hno.
  { intros e' r E Ha N. apply (proj1 (Forall_forall _ _) (er_alive _ _ _ (so_rows _ _ E))) in Ha.
    unfold alive in Ha. rewrite N in Ha. by destruct Ha. }
  split; try done.
  - destruct so_mem. split; try done. intros k1 k2 b. eapply puts_kinds; [by split|apply puts_ep|].
    destruct Case as [(_ & _ & Hw)|(N & _)]; [left|by right]. unfold alive. cbn. by rewrite Hw.
  - intros vid v Ev. eapply vertex_ok_alive; [apply ep_alive|eauto].
  - intros e' r E. destruct (ep_rows_of _ _ E) as (r0 & E0 & [[_ ->]|(-> & -> & ->)]).
    { eapply eprows_ok_alive; [apply ep_alive|eauto]. }
    destruct (eprows_ok_alive EPR _ _ _ ep_alive Hn) as [X1 X2 X3]. split.
    + by exists k.
    + apply Forall_forall. intros l [Hl|[-> _]]%ep_new_list; [by eapply (proj1 (Forall_forall _ _) X2)|]. unfold alive. cbn. by rewrite lookup_insert_eq.
    + destruct Case as [(-> & _)|(N & _ & ->)]; [done|]. apply NoDup_app. split_and!; [done| |apply NoDup_singleton].
      intros l Hl ->%list_elem_of_singleton. by eapply Hno.
  - intros e1 e2 r1 r2 l E1 E2 L1 L2.
    destruct (ep_listed _ _ _ E1 L1) as [(z1 & Z1 & Z1')|(-> & El1 & N1)], (ep_listed _ _ _ E2 L2) as [(z2 & Z2 & Z2')|(-> & El2 & N2)]; subst; eauto.
    + by destruct (Hno _ _ Z1 Z1').
    + by destruct (Hno _ _ Z2 Z2').
  - intros b j e' Hu. destruct (so_uses b j e' Hu) as [r0 E0]. cbn. destruct (decide (e' = e)) as [->|]; [by rewrite lookup_insert_eq|by rewrite lookup_insert_ne].
  - intros k' b j e' r E0 Hu E. destruct (ep_rows_of _ _ E) as (r0 & E1 & [[_ ->]|(-> & -> & ->)]); [eauto|].
    destruct (so_uses_inj _ _ _ _ _ Hu U) as [-> _]. by rewrite (so_out_inj _ _ _ E0 Ek).
Qed.

Lemma ep_written : storage_inv (recorded s1 ty a) g'.
Proof using All.
  pose proof (storage_ok_history VPR EPR VER NT _ _ (process_history (recorded s1 ty a)) ep_written_ok) as Ok'. split; [exact Ok'|].
  destruct Inv as [Ok H]. destruct (append_info _ _ _ _ _ Ew) as (Ei & Eb & _).
  assert (puts g g' KEP a (info w')) as Hp by apply puts_ep.
  eapply (history_ok_write VPR EPR VER NT s (recorded s1 ty a) g g' t ty a); try done. split.
  - rewrite Hty. destruct Hp as [-> _]. destruct Case as [(_ & _ & Hw)|(N & -> & _)]; [left|right; by rewrite Ei].
    exists (info w).1. rewrite Ei. cbn. rewrite Hw. cbn. destruct (info w) as [c o]. cbn in *. destruct Eb as [-> | ->]; auto.
  - intros k' b N. apply Hp. by rewrite <- Hty.
  - intros t' p c D. destruct D as [u y b l E1 E2 E3 E4|u y b l E1 E2 E3 E4|b vb b0 x0 e' r l E1 E2 E3 E4 E5].
    + left. by eapply DepVE.
    + left. by eapply DepVP.
    + destruct (ep_listed _ _ _ E4 E5) as [(r0 & E0 & L0)|(-> & -> & N)]; [left; by eapply DepEP|]. right. rewrite Hty, N. split_and!; try done.
      destruct (so_uses_inj _ _ _ _ _ _ Ok _ _ _ _ _ (pending_uses _ _ _ _ _ _ _ E1 E2 E3) U) as [-> Hi].
      change (g_e g') with (g_e g) in E1. assert (vb = ve) as -> by congruence. by eapply Own.
  - intros c _. right. by rewrite Hty.
  - intros u y Ey. by exists y.
  - eexists. split; [reflexivity|]. split_and!; try done. intros ->. done.
Qed.
End EdgeProperty.

Lemma ep_lists_alive s g k a i e rl : storage_ok s g -> out_edge_map s !! k = Some (Some a) -> uses g a i e -> ep_rows s !! e = Some rl ->
  rows_good EPR k rl /\ forall a, a ∈ row_lists rl -> is_Some (g_ep g !! a).
Proof.
  intros Ok Ek U Er. split; [by eapply so_owner|]. intros b Hb. destruct (so_rows _ _ _ _ _ _ Ok _ _ Er) as [_ L _].
  apply (proj1 (Forall_forall _ _) L) in Hb as [j Hj]. cbn in Hj. apply fmap_Some in Hj as (? & ? & _). by eexists.
Qed.

Lemma modify_ep_keeps al pid value old s g r s' : storage_inv s g -> alloc_ok s al -> storable value ->
  ProcessModifyEP lvl tbl false EPR BLOCK_SIZE t bt al pid value old s = Some (r, s') -> keeps g s'.
Proof using All.
  intros Inv Al Hst H. unfold ProcessModifyEP in H. ds_step H sv s1 H1. destruct sv as [st ov].
  pose proof (reading_edge _ _ _ _ _ _ _ _ _ _ H1) as R1. destruct st; try solve [eapply (keeps_after s s1); [done..|]; reads_by H].
  destruct (enter_edge _ _ _ _ _ _ Inv Al H1) as (Inv1 & Al1 & ev & ae & ve & -> & Ek & Ea & Hvis). clear Inv Al R1 H1.
  ds_inv H. rename n into e, r0 into rl. destruct p as [[[[flag w] old'] rl'] m']. ds_inv H.
  destruct (visible_uses _ _ _ _ _ Ea Hvis E) as (i & U & Own).
  destruct (ep_lists_alive _ _ _ _ _ _ _ (proj1 Inv1) Ek U E0) as [G L]. pose proof (so_mem _ _ _ _ _ _ (proj1 Inv1)) as M.
  destruct (modify_rows EPR HEP BLOCK_SIZE HB (eid_t2uint (ep_eid pid)) rl (ep_mem s1) (g_ep g) (ep_key pid) _ _ t bt _ _ _ _ _ _ _ _ _ G L (mr_ep _ _ _ M) Ht
    (ao_ep_item _ _ Al1) ltac:(rewrite (mr_ep_threads _ _ _ M); apply Al1) (ao_ep _ _ Al1) (ao_ep_row _ _ Al1) eq_refl Hst E1) as (Hthr & G' & Hw).
  rewrite (mr_ep_threads _ _ _ M) in Hthr.
  destruct w as [a|].
  - rewrite run_history in H by (by destruct flag). ds_inv H. injection H as -> ->. destruct Hw as (x & w & w' & Ew & M' & Hc).
    exists (put_ep g a w'). split.
    + eapply ep_written; try done; [by destruct flag|]. destruct Hc as [?|(-> & -> & ?)]; [by left|right]. split_and!; try done.
      intros k. eapply alloc_fresh; [apply Inv1|done].
    + repeat split; try apply own_change_refl. eapply own_change_append; [|done].
      destruct Hc as [(_ & _ & ->)|(-> & -> & _)]; [done|]. pose proof (alloc_fresh _ _ _ KEP (proj1 Inv1) Al1) as Hf. apply fmap_None in Hf. by rewrite Hf.
  - destruct Hw as [-> ->]. rewrite insert_id in H by done. ds_step H u s2 H2. apply reading_status in H2. apply ds_ret in H. injection H as -> ->.
    assert (set_ep s1 (ep_rows s1) (ep_mem s1) = s1) as Es by (by destruct s1). rewrite Es in H2. by apply (keeps_reads s1).
Qed.

Lemma drop_ep_keeps al pid old s g r s' : storage_inv s g -> alloc_ok s al ->
  ProcessDropEP lvl tbl false EPR BLOCK_SIZE t bt al pid old s = Some (r, s') -> keeps g s'.
Proof using All.
  intros Inv Al H. unfold ProcessDropEP in H. ds_step H sv s1 H1. destruct sv as [st ov].
  pose proof (reading_edge _ _ _ _ _ _ _ _ _ _ H1) as R1. destruct st; try solve [eapply (keeps_after s s1); [done..|]; reads_by H].
  destruct (enter_edge _ _ _ _ _ _ Inv Al H1) as (Inv1 & Al1 & ev & ae & ve & -> & Ek & Ea & Hvis). clear Inv Al R1 H1.
  ds_inv H. rename n into e, r0 into rl. destruct p as [[w old'] m']. ds_inv H.
  destruct (visible_uses _ _ _ _ _ Ea Hvis E) as (i & U & Own).
  destruct (ep_lists_alive _ _ _ _ _ _ _ (proj1 Inv1) Ek U E0) as [G L]. pose proof (so_mem _ _ _ _ _ _ (proj1 Inv1)) as M.
  destruct (drop_rows EPR HEP BLOCK_SIZE HB (eid_t2uint (ep_eid pid)) rl (ep_mem s1) (g_ep g) (ep_key pid) t bt _ _ _ _ _ _ G L (mr_ep _ _ _ M) Ht
    (ao_ep_item _ _ Al1) ltac:(rewrite (mr_ep_threads _ _ _ M); apply Al1) eq_refl E1) as (Hthr & Hw).
  rewrite (mr_ep_threads _ _ _ M) in Hthr.
  destruct w as [a|].
  - rewrite run_history in H by done. ds_inv H. injection H as -> ->. destruct Hw as (x & w & w' & Ew & M' & Ha & Hw).
    exists (put_ep g a w'). split.
    + rewrite <- (insert_id (ep_rows s1) e rl) by done. eapply ep_written; try done. by left.
    + repeat split; try apply own_change_refl. eapply own_change_append; [|done]. by rewrite Hw.
  - subst m'. ds_step H u s2 H2. apply reading_status in H2. apply ds_ret in H. injection H as -> ->.
    assert (set_ep s1 (ep_rows s1) (ep_mem s1) = s1) as Es by (by destruct s1). rewrite Es in H2. by apply (keeps_reads s1).
Qed.

(** ** Vertices *)

(** The version of a vertex changes: its list was there. *)
Lemma vertex_written s g a w w' x (ls : gmap nat MVCCList) h : storage_inv s g -> g_v g !! a = Some w -> append_abs w t bt x = Some w' ->
  info w <> (false, None) ->
  (exists C, forest ls h C (<[a := w']> (g_v g))) -> storage_inv (recorded (set_v_mem s ls h) PROCESS_DROP_V a) (put_v g a w').
Proof using Ht.
  intros [Ok H] Ea Ew Hw F. destruct (append_info _ _ _ _ _ Ew) as (Ei & Eb & _). pose proof (puts_v g a w') as Hp.
  assert (storage_ok (recorded (set_v_mem s ls h) PROCESS_DROP_V a) (put_v g a w')) as Ok'.
  { pose proof (so_mem _ _ _ _ _ _ Ok) as M. eapply storage_ok_shape; try done; [|intros; by eapply puts_alive].
    pose proof M as []. split; try done. intros k k' b. eapply puts_kinds; [exact M|exact Hp|]. left. unfold alive. cbn. by rewrite Ea. }
  split; [done|]. eapply (history_ok_write VPR EPR VER NT s _ g _ t PROCESS_DROP_V a); try done.
  assert (forall t' b, look (put_v g a w') KVertex b = Some (false, Some t') -> look g KVertex b = Some (false, Some t')) as Hl.
  { intros t' b E. destruct (decide (b = a)) as [->|N]; [|rewrite (proj2 Hp) in E by congruence; done].
    rewrite (proj1 Hp), Ei in E. cbn. rewrite Ea. cbn. destruct (info w) as [c o]. cbn in *. injection E as -> ->. destruct Eb as [-> | ->]; done. }
  split.
  - left. exists (info w).1. cbn [kind_of]. destruct Hp as [-> _]. rewrite Ei. cbn. rewrite Ea. cbn. destruct (info w) as [c o]. cbn in *. destruct Eb as [-> | ->]; auto.
  - intros k b N. by apply Hp.
  - intros t' p c D. left. destruct D as [u y b l E1 E2 E3 E4|u y b l E1 E2 E3 E4|b vb b0 x0 e' r l E1 E2 E3 E4 E5].
    + eapply DepVE; eauto.
    + eapply DepVP; eauto.
    + by eapply DepEP.
  - done.
  - intros u y Ey. by exists y.
  - eexists. split; [reflexivity|]. by split_and!.
Qed.

Lemma drop_v_keeps al vid s g r s' : storage_inv s g -> alloc_ok s al ->
  ProcessDropV lvl tbl false VER t bt al vid s = Some (r, s') -> keeps g s'.
Proof using All.
  intros Inv Al H. unfold ProcessDropV in H. ds_step H sv s1 H1. destruct sv as [st ov].
  pose proof (reading_vertex _ _ _ _ _ _ _ _ _ _ H1) as R1. destruct st; try solve [eapply (keeps_after s s1); [done..|]; reads_by H].
  destruct (enter_vertex _ _ _ _ _ _ Inv Al H1) as (Inv1 & Al1 & v & av & -> & Ev & Eav & _ & Hi). clear Inv Al R1 H1.
  ds_step H cs s2 H2. destruct cs as [st conn]. pose proof (reading_connected _ _ _ _ _ _ _ _ _ _ _ _ _ H2) as R2.
  destruct st; try solve [eapply (keeps_after s1 s2); [done..|]; reads_by H].
  pose proof (storage_inv_reads _ _ _ _ _ _ _ R2 Inv1) as Inv2. pose proof (alloc_reads _ _ _ R2 Al1) as Al2. clear Inv1 Al1 R2 H2 Ev s s1.
  ds_inv H. assert (n = av) as -> by congruence. rename m into l. destruct p as [[ra h] l']. 
  destruct (ap_item ra) as [p|] eqn:Ep.
  2:{ ds_step H u s3 H3. apply reading_status in H3. apply ds_ret in H. injection H as -> ->. by apply (keeps_reads s2). }
  ds_inv H. rewrite run_history in H by done. ds_inv H. injection H as -> ->.
  destruct (mr_v _ _ _ (so_mem _ _ _ _ _ _ (proj1 Inv2))) as [C F]. destruct (forest_list _ _ _ _ _ _ F E0) as (ps & w & Ec & Ew & R).
  destruct (forest_write _ _ _ _ _ _ _ _ _ _ _ _ _ _ _ _ (ex_intro _ C F) E0 Ew Ht (ao_v_item _ _ Al2) E1 Ep E2) as (w' & Hw' & F').
  exists (put_v g av w'). split.
  - eapply vertex_written; try done. intros Hn. apply Hi. cbn. by rewrite Ew, <- Hn.
  - repeat split; try apply own_change_refl. eapply own_change_append; [|done]. by rewrite Ew.
Qed.

(** A new vertex. *)
Section NewVertex.
Context (s : Storage) (g : graph) (vid label : Z) (a : nat) (ls : gmap nat MVCCList) (h : gmap nat (Item bool)) (n : Z).
Context (Inv : storage_inv s g) (Fresh : forall k, look g k a = None) (w : versions bool).
Context (F : exists C, forest ls h C (<[a := w]> (g_v g))).
Let v := mk_vertex label (Some (topo_init vid)) (Some rows_init) (Some a).
Let s1 := set_vertices (set_v_mem (set_counter s n) ls h) (<[vid := v]> (vertex_map s)).
Let g' := put_v g a w.

Lemma nv_alive k b : alive g k b -> alive g' k b.
Proof. eapply puts_alive. apply puts_v. Qed.
Lemma nv_vertices u y : vertex_map s1 !! u = Some y -> (u <> vid /\ vertex_map s !! u = Some y /\ v_mvcc_list y <> Some a) \/ (u = vid /\ y = v).
Proof.
  cbn. rewrite lookup_insert_Some. intros [[<- <-]|[N E]]; [by right|left]. split_and!; try done. intros Ea.
  destruct (vk_list _ _ _ _ _ (so_vertex _ _ _ _ _ _ (proj1 Inv) _ _ E)) as (b & Eb & Hb). assert (b = a) as -> by congruence.
  unfold alive in Hb. rewrite Fresh in Hb. by destruct Hb.
Qed.

Lemma new_vertex_ok : storage_ok s1 g'.
Proof using All.
  pose proof nv_vertices as Hv. destruct Inv as [[] _]. split; try done.
  - pose proof so_mem as []. split; try done. intros k k' b. eapply puts_kinds; [exact so_mem|apply puts_v|by right].
  - intros u y Ey. destruct (Hv _ _ Ey) as [(_ & E & _)|[-> ->]].
    + eapply vertex_ok_alive; [apply nv_alive|eauto].
    + split; cbn; try done.
      * exists a. split; [done|]. unfold alive. cbn. by rewrite lookup_insert_eq.
      * intros tl [= <-]. by apply topo_init_ok.
      * intros rl [= <-]. by apply rows_good_init.
      * constructor.
  - intros u1 u2 y1 y2 b E1 E2 B1 B2. destruct (Hv _ _ E1) as [(_ & Z1 & N1)|[-> ->]], (Hv _ _ E2) as [(_ & Z2 & N2)|[-> ->]]; cbn in *; try congruence. eauto.
  - intros u1 u2 y1 y2 b E1 E2. destruct (Hv _ _ E1) as [(_ & Z1 & N1)|[-> ->]], (Hv _ _ E2) as [(_ & Z2 & N2)|[-> ->]]; cbn;
      try (by intros ?%not_elem_of_nil); try (by intros ? ?%not_elem_of_nil). eauto.
  - intros e r Er. eapply eprows_ok_alive; [apply nv_alive|eauto].
Qed.

Context (Ev : vertex_map s !! vid = None) (Hw : w = mk_versions (V := bool) [] (Some (t, bt, true))).
Lemma new_vertex : exists s', InsertTrxAddVHistory t a vid s1 = Some (tt, s') /\ storage_inv s' g'.
Proof using All.
  eexists. split; [reflexivity|]. pose proof (storage_ok_history VPR EPR VER NT _ _ (<[t := mk_history (process_vector (default no_history (process_history s1 !! t)) ++
    [mk_record PROCESS_ADD_V a]) (<[a := vid]> (mvcclist_to_vid_map (default no_history (process_history s1 !! t))))]> (process_history s1)) new_vertex_ok) as Ok'.
  split; [exact Ok'|]. pose proof nv_vertices as Hv. destruct Inv as [Ok H]. assert (puts g g' KVertex a (info w)) as Hp by apply puts_v.
  eapply (history_ok_write VPR EPR VER NT s _ g g' t PROCESS_ADD_V a); try done.
  split.
  - right. split; [done|]. cbn [kind_of]. destruct Hp as [-> _]. by rewrite Hw.
  - intros k b N. by apply Hp.
  - intros t' p c D. left. destruct D as [u y b l E1 E2 E3 E4|u y b l E1 E2 E3 E4|b vb b0 x0 e' r l E1 E2 E3 E4 E5].
    + destruct (Hv _ _ E1) as [(_ & Z1 & N1)|[-> ->]]; [|by apply not_elem_of_nil in E4]. eapply DepVE; try done.
      rewrite (proj2 Hp) in E3; [done|congruence].
    + destruct (Hv _ _ E1) as [(_ & Z1 & N1)|[-> ->]]; [|by apply not_elem_of_nil in E4]. eapply DepVP; try done.
      rewrite (proj2 Hp) in E3; [done|congruence].
    + by eapply DepEP.
  - intros c _. left. intros D. inversion D as [u y b l E1 E2 E3 E4|u y b l E1 E2 E3 E4|]; subst;
      (destruct (Hv _ _ E1) as [(_ & Z1 & N1)|[-> ->]]; [done|by apply not_elem_of_nil in E4]).
  - intros u y Ey. exists y. cbn. rewrite lookup_insert_ne by congruence. done.
  - eexists. split; [reflexivity|]. split_and!; try done.
    + intros b u N Hb. by rewrite lookup_insert_ne.
    + intros _. exists vid, v, (topo_init vid), rows_init. cbn. rewrite !lookup_insert_eq. by split_and!.
Qed.
End NewVertex.

Lemma add_v_keeps al label s g r s' : storage_inv s g -> alloc_ok s al ->
  ProcessAddV worker_size worker_rank t bt al label s = Some (r, s') -> keeps g s'.
Proof using All.
  intros Inv Al H. unfold ProcessAddV in H. ds_inv H. destruct (AssignVID _ _ _) as [vid n].
  destruct (vertex_map s !! vid_vid vid) eqn:Ev; [done|]. ds_inv H. destruct p as [[ra h] l]. ds_inv H. ds_step H u s1 H1.
  ds_inv H. injection H as -> ->. pose proof (fun k => alloc_fresh _ _ _ k (proj1 Inv) Al) as Hf.
  pose proof (forest_add _ _ _ _ _ _ _ _ _ _ _ _ _ _ (mr_v _ _ _ (so_mem _ _ _ _ _ _ (proj1 Inv))) (ao_v _ _ Al) Ht (ao_v_item _ _ Al) E E0 E1) as F.
  destruct (new_vertex s g (vid_vid vid) label (al_list al) _ _ n Inv Hf _ F Ev eq_refl) as (s2 & E2 & Inv2).
  unfold InsertTrxAddVHistory in *. injection H1 as <- <-. injection E2 as <-. eexists. split; [exact Inv2|].
  repeat split; try apply own_change_refl. eapply own_change_append; [reflexivity|]. specialize (Hf KVertex). apply fmap_None in Hf. by rewrite Hf.
Qed.

(** ** Edges *)

(** A list of versions of an edge, old or new, gets a version; the rows of the
    version that it replaces go, and those of the new one are empty. *)
Section EdgeVersion.
Context (s s1 : Storage) (g : graph) (a : nat) (w w' : versions EdgeVersion) (ev : EdgeVersion) (ty : ProcessType).
Let fresh_a := forall k, look g k a = None.
Let g' := put_e g a w'.
Context (Inv : storage_inv s g) (Hvals : vals w' = (committed w).*2 ++ [ev]).
Context (Hw : g_e g !! a = Some w \/ (fresh_a /\ w = no_versions)).
Context (Fe : exists C, forest (e_lists (edge_mem s1)) (e_items (edge_mem s1)) C (<[a := w']> (g_e g))).
Context (Mep : mem_ok (ep_mem s1) (g_ep g)) (Tep : threads (values (ep_mem s1)) = NT).
Context (Evp : vp_mem s1 = vp_mem s) (Evl : v_lists s1 = v_lists s) (Evi : v_items s1 = v_items s).
Context (Eh : process_history s1 = process_history s).
(** The rows of edges at a vertex may get a new list. *)
Context (HV : forall u y, vertex_map s1 !! u = Some y -> exists y0, vertex_map s !! u = Some y0 /\
  v_mvcc_list y = v_mvcc_list y0 /\ vp_row_list y = vp_row_list y0 /\
  (ve_row_list y = ve_row_list y0 \/ fresh_a /\ exists av tl, v_mvcc_list y0 = Some av /\ ve_row_list y = Some tl /\ topo_ok VER tl /\
     ve_lists y = ve_lists y0 ++ [a] /\ forall t0, look g KVertex av = Some (false, Some t0) -> t0 = t)).
Context (HV' : forall u y0, vertex_map s !! u = Some y0 -> exists y, vertex_map s1 !! u = Some y /\
  v_mvcc_list y = v_mvcc_list y0 /\ vp_row_list y = vp_row_list y0 /\ (is_Some (ve_row_list y0) -> is_Some (ve_row_list y))).
(** A new list is in one of the two maps. *)
Context (dir : bool).
Context (HO : forall k p, out_edge_map s1 !! k = Some p -> out_edge_map s !! k = Some p \/ (p = Some a /\ fresh_a /\ dir = true)).
Context (HI : forall k p, in_edge_map s1 !! k = Some p -> in_edge_map s !! k = Some p \/ (p = Some a /\ fresh_a /\ dir = false)).
Context (HO1 : forall k k', out_edge_map s1 !! k = Some (Some a) -> out_edge_map s1 !! k' = Some (Some a) -> k = k').
Context (Hrows : ep_row_list ev <> None -> exists k, out_edge_map s1 !! k = Some (Some a)).
(** The rows of properties. *)
Context (HX : forall e r, ep_rows s1 !! e = Some r -> ep_rows s !! e = Some r \/ (ep_row_list ev = Some e /\ r = rows_init)).
Context (HXnew : forall e, ep_row_list ev = Some e -> ep_rows s !! e = None /\ ep_rows s1 !! e = Some rows_init).
Context (HXold : forall b j e, uses g b j e -> b <> a \/ j < length (committed w) -> ep_rows s1 !! e = ep_rows s !! e).

Lemma ed_alive k b : alive g k b -> alive g' k b.
Proof. eapply puts_alive. apply puts_e. Qed.
Lemma ed_fresh k b : alive g k b -> fresh_a -> b <> a.
Proof. intros [i Hi] N ->. specialize (N k). congruence. Qed.
Lemma ed_uses b j e : uses g' b j e -> (uses g b j e /\ (b <> a \/ j < length (committed w))) \/
  (b = a /\ j = length (committed w) /\ ep_row_list ev = Some e).
Proof using All.
  intros (v & x & Ev & Hx & He). cbn in Ev. destruct (decide (b = a)) as [->|N].
  - rewrite lookup_insert_eq in Ev. injection Ev as <-.
    rewrite Hvals in Hx. apply lookup_app_Some in Hx as [Hx|[Hl Hx]].
    + left. pose proof (lookup_lt_Some _ _ _ Hx) as Hl. rewrite length_fmap in Hl. split; [|by right]. destruct Hw as [Hw'|[_ ->]]; [|cbn in Hl; lia].
      exists w, x. split_and!; try done. unfold vals. by apply lookup_app_l_Some.
    + right. apply list_lookup_singleton_Some in Hx as [Hj <-]. rewrite length_fmap in *. split_and!; [done|lia|done].
  - rewrite lookup_insert_ne in Ev by done. left. split; [by exists v, x|by left].
Qed.
Lemma ed_out k b : out_edge_map s1 !! k = Some (Some b) -> out_edge_map s !! k = Some (Some b) \/ (b = a /\ fresh_a /\ dir = true).
Proof. intros [?|(? & ? & ?)]%HO; [by left|right; by simplify_eq]. Qed.
Lemma ed_in k b : in_edge_map s1 !! k = Some (Some b) -> in_edge_map s !! k = Some (Some b) \/ (b = a /\ fresh_a /\ dir = false).
Proof. intros [?|(? & ? & ?)]%HI; [by left|right; by simplify_eq]. Qed.
Lemma ed_row_lists e r l : ep_rows s1 !! e = Some r -> l ∈ row_lists r -> ep_rows s !! e = Some r.
Proof. intros [?|[_ ->]]%HX Hl; [done|by apply not_elem_of_nil in Hl]. Qed.

Lemma ed_vertex u y : vertex_map s1 !! u = Some y -> vertex_ok VPR VER g' u y.
Proof using Inv Hw HV.
  intros Ey. destruct (HV _ _ Ey) as (y0 & E0 & L1 & L2 & Hve).
  destruct (vertex_ok_alive VPR VER _ _ _ _ ed_alive (so_vertex _ _ _ _ _ _ (proj1 Inv) _ _ E0)) as [X1 X2 X3 X4 X5 X6].
  unfold vp_lists in *. rewrite <- L2 in X5, X6. split; try done.
  - by rewrite L1.
  - destruct Hve as [-> |(_ & _ & tl & _ & -> & Htl & _)]; [done|]. by intros ? [= <-].
  - by rewrite L2.
  - destruct Hve as [Hve|(_ & _ & tl & _ & _ & _ & -> & _)]; [by unfold ve_lists in *; rewrite Hve|]. apply Forall_app. split; [done|].
    constructor; [|constructor]. unfold alive. cbn. by rewrite lookup_insert_eq.
Qed.

Lemma ed_out_alive k b : out_edge_map s !! k = Some (Some b) -> alive g KEdge b.
Proof using Inv. intros E. destruct (so_out _ _ _ _ _ _ (proj1 Inv) _ _ E) as (? & [= <-] & ?). done. Qed.
Lemma ed_in_alive k b : in_edge_map s !! k = Some (Some b) -> alive g KEdge b.
Proof using Inv. intros E. destruct (so_in _ _ _ _ _ _ (proj1 Inv) _ _ E) as (? & [= <-] & ?). done. Qed.
Lemma ed_a_alive : alive g' KEdge a.
Proof. unfold alive. cbn. by rewrite lookup_insert_eq. Qed.
Lemma ed_in_out k k' b : out_edge_map s1 !! k = Some (Some b) -> in_edge_map s1 !! k' <> Some (Some b).
Proof using All.
  intros E E'. destruct (ed_out _ _ E) as [E1|(-> & N & Hd)], (ed_in _ _ E') as [E2|(Eb & N' & Hd')].
  - by eapply (so_in_out _ _ _ _ _ _ (proj1 Inv)).
  - rewrite Eb in E1. by destruct (ed_fresh KEdge a (ed_out_alive _ _ E1) N').
  - by destruct (ed_fresh KEdge a (ed_in_alive _ _ E2) N).
  - congruence.
Qed.

Lemma edge_version_ok : storage_ok s1 g'.
Proof using All.
  pose proof ed_alive as Ha. pose proof (proj1 Inv) as Ok. pose proof Ok as []. split.
  - pose proof so_mem as []. split; rewrite ?Evp, ?Evl, ?Evi; try done. intros k k' b. eapply puts_kinds; [exact so_mem|apply puts_e|].
    destruct Hw as [E|[N _]]; [left|by right]. unfold alive. cbn. by rewrite E.
  - apply ed_vertex.
  - intros u1 u2 y1 y2 b E1 E2. destruct (HV _ _ E1) as (z1 & Z1 & -> & _), (HV _ _ E2) as (z2 & Z2 & -> & _). eauto.
  - intros u1 u2 y1 y2 b E1 E2. destruct (HV _ _ E1) as (z1 & Z1 & _ & L1 & _), (HV _ _ E2) as (z2 & Z2 & _ & L2 & _).
    unfold vp_lists. rewrite L1, L2. by apply so_vp_inj.
  - intros k p [E|(-> & _)]%HO; [destruct (so_out _ _ E) as (b & -> & Hb); eauto|]. exists a. split; [done|apply ed_a_alive].
  - intros k p [E|(-> & _)]%HI; [destruct (so_in _ _ E) as (b & -> & Hb); eauto|]. exists a. split; [done|apply ed_a_alive].
  - intros k k' b E E'. destruct (decide (b = a)) as [->|N]; [by eapply HO1|].
    destruct (ed_out _ _ E) as [?|(? & _)], (ed_out _ _ E') as [?|(? & _)]; try done. eauto.
  - intros k k' b. apply ed_in_out.
  - intros k b j e E [[U _]|(-> & _ & He)]%ed_uses.
    + destruct (ed_in _ _ E) as [E0|(-> & N & _)]; [by eapply so_in_uses|]. destruct U as (v & x & Ev & _). specialize (N KEdge). cbn in N. by rewrite Ev in N.
    + destruct Hrows as [k' Hk']; [congruence|]. by destruct (ed_in_out _ _ _ Hk' E).
  - intros e r [E|[_ ->]]%HX; [eapply eprows_ok_alive; eauto|]. split; [exists 0%Z; by apply rows_good_init|constructor..].
  - intros e1 e2 r1 r2 l E1 E2 L1 L2. eapply so_ep_inj; [by eapply ed_row_lists|by eapply ed_row_lists|done..].
  - intros b j e [[U Hb]|(-> & _ & He)]%ed_uses; [rewrite (HXold _ _ _ U Hb); eauto|]. destruct (HXnew _ He) as [_ ->]. by eexists.
  - assert (forall b j e, uses g b j e -> ep_row_list ev <> Some e) as Hne.
    { intros b j e [r Er]%so_uses He. destruct (HXnew _ He) as [E _]. congruence. }
    intros b1 b2 j1 j2 e [[U1 _]|(-> & -> & H1)]%ed_uses [[U2 _]|(-> & -> & H2)]%ed_uses; [by eapply so_uses_inj|..|done];
      by (eapply Hne in H1 || eapply Hne in H2).
  - intros k b j e r Ek [[U Hb]|(-> & _ & He)]%ed_uses Er.
    + rewrite (HXold _ _ _ U Hb) in Er. destruct (ed_out _ _ Ek) as [?|(-> & N & _)]; [by eapply so_owner|].
      destruct U as (v & x & Ev & _). specialize (N KEdge). cbn in N. by rewrite Ev in N.
    + destruct (HXnew _ He) as [_ E]. assert (r = rows_init) as -> by congruence. by apply rows_good_init.
Qed.

Context (Hty : kind_of ty = KEdge) (Ew : append_abs w t bt ev = Some w').
Lemma edge_version : storage_inv (recorded s1 ty a) g'.
Proof using All.
  pose proof (storage_ok_history VPR EPR VER NT _ _ (process_history (recorded s1 ty a)) edge_version_ok) as Ok'. split; [exact Ok'|].
  destruct Inv as [Ok H]. destruct (append_info _ _ _ _ _ Ew) as (Ei & Eb & _ & [b0 Ep]).
  assert (puts g g' KEdge a (info w')) as Hp by apply puts_e.
  assert (forall t' b vb c x e r l, g_e g' !! b = Some vb -> pending vb = Some (t', c, x) -> ep_row_list x = Some e -> ep_rows s1 !! e = Some r ->
    l ∈ row_lists r -> b <> a /\ depends s g t' (KEdge, b) (KEP, l)) as Hep.
  { intros t' b vb c x e r l E1 E2 E3 E4 E5. cbn in E1. destruct (decide (b = a)) as [->|N].
    - rewrite lookup_insert_eq in E1. injection E1 as <-. rewrite Ep in E2. injection E2 as <- <- <-.
      destruct (HXnew _ E3) as [_ E]. assert (r = rows_init) as -> by congruence. by apply not_elem_of_nil in E5.
    - rewrite lookup_insert_ne in E1 by done. split; [done|]. eapply DepEP; try done. by eapply ed_row_lists. }
  eapply (history_ok_write VPR EPR VER NT s (recorded s1 ty a) g g' t ty a); try done. split.
  - rewrite Hty. destruct Hp as [-> _]. destruct Hw as [Hw'|(N & ->)]; [left|right; by rewrite Ei].
    exists (info w).1. rewrite Ei. cbn. rewrite Hw'. cbn. destruct (info w) as [c o]. cbn in *. destruct Eb as [-> | ->]; auto.
  - intros k b N. apply Hp. by rewrite <- Hty.
  - intros t' p c D. destruct D as [u y b l E1 E2 E3 E4|u y b l E1 E2 E3 E4|b vb b1 x e r l E1 E2 E3 E4 E5].
    + destruct (HV _ _ E1) as (y0 & E0 & L1 & _ & [L|(N & av & tl & L & _ & _ & Hl & Own)]).
      * left. eapply DepVE; [exact E0|congruence|done|]. unfold ve_lists in *. by rewrite <- L.
      * rewrite Hl in E4. apply elem_of_app in E4 as [E4| ->%list_elem_of_singleton]; [left; eapply DepVE; [exact E0|congruence|done|done]|].
        right. rewrite Hty. split_and!; [|done|apply N]. apply Own. assert (av = b) as -> by congruence. done.
    + left. destruct (HV _ _ E1) as (y0 & E0 & L1 & L2 & _). eapply DepVP; [exact E0|congruence|done|]. unfold vp_lists in *. by rewrite <- L2.
    + left. by eapply Hep.
  - intros c _. left. rewrite Hty. intros D. inversion D as [| |b vb b1 x e r l E1 E2 E3 E4 E5]; subst. by eapply Hep.
  - intros u y Ey. destruct (HV' _ _ Ey) as (y' & E' & L1 & L2 & L3). exists y'. split_and!; try done. by rewrite L2.
  - eexists. split; [cbn; rewrite Eh; reflexivity|]. split_and!; try done. intros ->. done.
Qed.
End EdgeVersion.

(** Whether the version of [t] in the list [a] of an edge has properties. *)
Definition own_props s (a : nat) : bool :=
  match (l ← e_lists (edge_mem s) !! a; q ← MvccList.tail_ l; i ← e_items (edge_mem s) !! q;
         if (begin_time i =? t)%Z then e ← ep_row_list (val i); rl ← ep_rows s !! e; Some (row_lists rl) else None) with
  | Some (_ :: _) => true
  | _ => false
  end.

Lemma own_props_false s g a v b x e rl : storage_ok s g -> g_e g !! a = Some v -> pending v = Some (t, b, x) ->
  ep_row_list x = Some e -> ep_rows s !! e = Some rl -> own_props s a = false -> row_lists rl = [].
Proof.
  intros Ok Ev Hp He Er. destruct (mr_e _ _ _ (so_mem _ _ _ _ _ _ Ok)) as [C F]. destruct (forest_abs _ _ _ _ _ _ F Ev) as (ps & l & Ec & El & R).
  destruct (tail_pending _ _ _ _ _ _ _ R Hp) as (qs & q & _ & Hq & Ei & _). unfold own_props. rewrite El. cbn [mbind option_bind].
  rewrite Hq. cbn [mbind option_bind]. rewrite Ei. cbn [mbind option_bind begin_time val]. rewrite Z.eqb_refl, He. cbn [mbind option_bind].
  rewrite Er. cbn. by destruct (row_lists rl).
Qed.

(** Recycling the version that a transaction replaces. *)
Lemma free_own_rows al s g a v : storage_ok s g -> alloc_ok s al -> g_e g !! a = Some v -> own_props s a = false ->
  exists X m, free_ep_rows EPR BLOCK_SIZE al (ep_row_list <$> match pending v with Some (t0, _, x) =>
      if (t0 =? t)%Z && NeedGC x then [x] else [] | None => [] end) s = Some (tt, set_ep s X m) /\
    mem_ok m (g_ep g) /\ threads (values m) = NT /\ (forall e r, X !! e = Some r -> ep_rows s !! e = Some r) /\
    (forall b j e, uses g b j e -> b <> a \/ j < length (committed v) -> X !! e = ep_rows s !! e).
Proof using HVP HEP HVE HB.
  intros Ok Al Ev Hg. pose proof (so_mem _ _ _ _ _ _ Ok) as M.
  assert (exists X m, free_ep_rows EPR BLOCK_SIZE al [] s = Some (tt, set_ep s X m) /\
    mem_ok m (g_ep g) /\ threads (values m) = NT /\ (forall e r, X !! e = Some r -> ep_rows s !! e = Some r) /\
    (forall b j e, uses g b j e -> b <> a \/ j < length (committed v) -> X !! e = ep_rows s !! e)) as Hnone.
  { exists (ep_rows s), (ep_mem s). split_and!; try done; [by destruct s|apply M..]. }
  destruct (pending v) as [[[t0 b0] x]|] eqn:Hp; [|done]. destruct (Z.eqb_spec t0 t) as [->|]; [|done]. cbn [andb].
  cbn [NeedGC EdgeMVCCItem]. destruct (ep_row_list x) as [e|] eqn:He; [|by rewrite bool_decide_eq_false_2 by naive_solver].
  rewrite bool_decide_eq_true_2 by done. cbn [fmap list_fmap]. rewrite He.
  pose proof (pending_uses _ _ _ _ _ _ _ Ev Hp He) as U. destruct (so_uses _ _ _ _ _ _ Ok _ _ _ U) as [rl Er].
  pose proof (own_props_false _ _ _ _ _ _ _ _ Ok Ev Hp He Er Hg) as Hrl. destruct (so_rows _ _ _ _ _ _ Ok _ _ Er) as [[ow G] _ _].
  destruct (gc_rows EPR HEP BLOCK_SIZE HB ow rl (ep_mem s) (g_ep g) (al_tid al) G (mr_ep _ _ _ M)) as (n & rl' & m & Hgc & Ht' & M').
  { rewrite Hrl. by intros ? ?%not_elem_of_nil. }
  { rewrite Hrl. constructor. }
  { rewrite (mr_ep_threads _ _ _ M). apply Al. }
  rewrite Hrl in M'. exists (delete e (ep_rows s)), m. split_and!; [|done|by rewrite Ht', (mr_ep_threads _ _ _ M)|..].
  - cbn [free_ep_rows]. ds_simpl. rewrite Er. ds_simpl. rewrite Hgc. by ds_simpl.
  - by intros e' r [_ ?]%lookup_delete_Some.
  - intros b j e' U' Hb. rewrite lookup_delete_ne; [done|]. intros <-. destruct (so_uses_inj _ _ _ _ _ _ Ok _ _ _ _ _ U U') as [-> <-].
    destruct Hb as [|Hb]; [done|lia].
Qed.

Lemma append_edge_keeps al a ev ty s g ok s1 : storage_inv s g -> alloc_ok s al -> own_props s a = false -> kind_of ty = KEdge ->
  (ep_row_list ev <> None -> ep_row_list ev = Some (al_rows al) /\ exists k, out_edge_map s !! k = Some (Some a)) ->
  append_edge EPR BLOCK_SIZE t bt al a ev (ep_row_list ev) s = Some (ok, s1) ->
  if ok then keeps g (recorded s1 ty a) else s1 = s.
Proof using All.
  intros Inv Al Hg Hty Hev H. unfold append_edge in H. ds_inv H. rename m into l. destruct p as [[r h] l'].
  pose proof (so_mem _ _ _ _ _ _ (proj1 Inv)) as M. destruct (mr_e _ _ _ M) as [C F]. destruct (forest_list _ _ _ _ _ _ F E) as (ps & w & Ec & Ew & R).
  destruct (ap_item r) as [q|] eqn:Eq; [|ds_inv H; by injection H as -> ->].
  destruct (free_own_rows _ _ _ _ _ (proj1 Inv) Al Ew Hg) as (X & m & Hfr & Hm & Htm & HX & HXold).
  rewrite (append_freed _ _ _ _ _ _ _ _ _ _ _ R Ht (ao_e_item _ _ Al) E0) in H. rewrite (run_step _ _ _ _ _ Hfr) in H. ds_inv H.
  destruct (forest_write _ _ _ _ _ _ _ _ _ _ _ _ _ _ _ _ (ex_intro _ C F) E Ew Ht (ao_e_item _ _ Al) E0 Eq E1) as (w' & Hw' & F').
  set (s2 := set_edge_mem (set_ep s X m) _) in H.
  assert (exists Y, s1 = set_ep s2 Y m /\ ok = true /\ Y = match ep_row_list ev with Some e => <[e := rows_init]> X | None => X end) as (Y & -> & -> & EY).
  { destruct (ep_row_list ev); ds_inv H; injection H as -> ->; eexists; by split_and!. }
  exists (put_e g a w'). split.
  2:{ repeat split; try apply own_change_refl. eapply own_change_append; [|done]. by rewrite Ew. }
  assert (forall e, ep_row_list ev = Some e -> ep_rows s !! e = None /\ Y !! e = Some rows_init /\ e = al_rows al) as Hnew.
  { intros e He. rewrite EY, He, lookup_insert_eq. destruct Hev as [He' _]; [congruence|]. assert (e = al_rows al) as -> by congruence.
    split_and!; try done. apply Al. }
  pose proof (append_vals_of _ _ _ Hw') as Hvals.
  eapply (edge_version s (set_ep s2 Y m) g a w w' ev ty); cbn; try done; eauto.
  - intros u y Ey. exists y. split_and!; auto.
  - intros k k' B1 B2. by eapply (so_out_inj _ _ _ _ _ _ (proj1 Inv)).
  - intros Hn. by apply Hev.
  - intros e rl Er. rewrite EY in Er. destruct (ep_row_list ev) as [e0|]; [|eauto]. apply lookup_insert_Some in Er as [[<- <-]|[_ Er]]; eauto.
  - intros e He. by destruct (Hnew e He) as (? & ? & _).
  - intros b j e U Hb. rewrite <- (HXold _ _ _ U Hb), EY. destruct (ep_row_list ev) as [e0|] eqn:He; [|done]. rewrite lookup_insert_ne; [done|].
    intros ->. destruct (Hnew e eq_refl) as [En _]. destruct (so_uses _ _ _ _ _ _ (proj1 Inv) _ _ _ U). congruence.
  Unshelve. exact true.
Qed.

Lemma drop_e_keeps al eid is_out s g r s' : storage_inv s g -> alloc_ok s al ->
  (forall a, edge_map_of is_out s !! eid_t2uint eid = Some (Some a) -> own_props s a = false) ->
  ProcessDropE EPR BLOCK_SIZE t bt al eid is_out s = Some (r, s') -> keeps g s'.
Proof using All.
  intros Inv Al Hg H. unfold ProcessDropE in H. ds_inv H. destruct (edge_map_of is_out s !! _) as [p|]; [|by ds_inv H; injection H as -> ->; apply (keeps_reads s), reads_refl].
  ds_inv H. subst p. rename n into a. ds_step H ok s1 H1.
  pose proof (append_edge_keeps al a (mk_edge_version 0 None) PROCESS_DROP_E s g ok s1 Inv Al (Hg a eq_refl) eq_refl) as K. cbn in K. specialize (K ltac:(done) H1).
  destruct ok.
  - rewrite run_history in H by done. ds_inv H. by injection H as -> ->.
  - subst s1. apply (keeps_reads s); [done|]. reads_by H.
Qed.

(** A new edge at a vertex. *)
Lemma new_edge_keeps al s g vid v av tl tl' m out conn label k : storage_inv s g -> alloc_ok s al -> vertex_map s !! vid = Some v ->
  v_mvcc_list v = Some av -> (forall t0, look g KVertex av = Some (false, Some t0) -> t0 = t) -> ve_row_list v = Some tl ->
  edge_map_of out s !! k = None ->
  let rows := if out then Some (al_rows al) else None in
  ProcessAddEdge VER tl (edge_mem s) out conn label rows t bt (al_list al) (al_item al) (al_ve_row al) = Some (tl', m) ->
  keeps g (recorded (set_ep (set_edge_map out (set_edge_mem (set_vertices s (<[vid := mk_vertex (v_label v) (Some tl') (vp_row_list v) (v_mvcc_list v)]>
      (vertex_map s))) m) (<[k := Some (al_list al)]> (edge_map_of out s)))
      (match rows with Some e => <[e := rows_init]> (ep_rows s) | None => ep_rows s end) (ep_mem s)) PROCESS_ADD_E (al_list al)).
Proof using All.
  intros Inv Al Ev Eav Own Etl Ek rows H. unfold ProcessAddEdge in H.
  destruct (AppendVersion _ _ _ _ _ _) as [[[r h] l]|] eqn:Ea; [|done]. cbn [mbind option_bind] in H.
  destruct (ap_item r) as [p|] eqn:Ep; [|done]. cbn [mbind option_bind] in H.
  destruct (write_val h p _) as [h'|] eqn:Ew; [|done]. cbn [mbind option_bind] in H.
  pose proof (vk_ve _ _ _ _ _ (so_vertex _ _ _ _ _ _ (proj1 Inv) _ _ Ev) _ Etl) as Htl.
  destruct (topo_allocate_spec VER HVE tl out conn (al_list al) (al_ve_row al) Htl (ao_ve_row _ _ Al)) as (tl1 & Et & Htl' & _ & _ & He).
  rewrite Et in H. cbn in H. injection H as <- <-. pose proof (so_mem _ _ _ _ _ _ (proj1 Inv)) as M.
  pose proof (fun k => alloc_fresh _ _ _ k (proj1 Inv) Al) as Hf.
  pose proof (forest_add _ _ _ _ _ _ _ _ _ _ _ _ _ _ (mr_e _ _ _ M) (ao_e _ _ Al) Ht (ao_e_item _ _ Al) Ea Ep Ew) as F.
  assert (forall k p, edge_map_of out s !! k = Some p -> p <> Some (al_list al)) as Hno.
  { intros k0 p0 E0 ->. assert (alive g KEdge (al_list al)) as [i Hi].
    { destruct out; [destruct (so_out _ _ _ _ _ _ (proj1 Inv) _ _ E0) as (? & [= <-] & ?)|destruct (so_in _ _ _ _ _ _ (proj1 Inv) _ _ E0) as (? & [= <-] & ?)]; done. }
    by rewrite Hf in Hi. }
  set (v' := mk_vertex (v_label v) (Some tl1) (vp_row_list v) (v_mvcc_list v)).
  set (s1 := set_ep _ _ _). assert (vertex_map s1 = <[vid := v']> (vertex_map s)) as EV by (by destruct out).
  exists (put_e g (al_list al) (mk_versions [] (Some (t, bt, mk_edge_version label rows)))). split.
  2:{ repeat split; try apply own_change_refl. eapply own_change_append; [reflexivity|]. specialize (Hf KEdge). apply fmap_None in Hf. by rewrite Hf. }
  eapply (edge_version s s1 g (al_list al) no_versions _ (mk_edge_version label rows) PROCESS_ADD_E) with (dir := out); try done.
  - by right.
  - by destruct out.
  - by destruct out; apply M.
  - by destruct out; apply M.
  - by destruct out.
  - by destruct out.
  - by destruct out.
  - by destruct out.
  - intros u y. rewrite EV, lookup_insert_Some. intros [[<- <-]|[N E]]; [|exists y; split_and!; auto].
    exists v. split_and!; try done. right. split; [done|]. exists av, tl1. split_and!; try done. unfold ve_lists. rewrite Etl. cbn.
    by rewrite He, fmap_app.
  - intros u y0 Ey. rewrite EV. destruct (decide (u = vid)) as [->|N].
    + exists v'. rewrite lookup_insert_eq. by assert (y0 = v) as -> by congruence.
    + exists y0. by rewrite lookup_insert_ne.
  - intros k0 p0 E0. destruct out; cbn in *; [|by left]. apply lookup_insert_Some in E0 as [[<- <-]|[_ E0]]; auto.
  - intros k0 p0 E0. destruct out; cbn in *; [by left|]. apply lookup_insert_Some in E0 as [[<- <-]|[_ E0]]; auto.
  - intros k0 k1 E0 E1. destruct out; cbn in *.
    + apply lookup_insert_Some in E0 as [[<- _]|[_ E0]]; [|by destruct (Hno _ _ E0)]. apply lookup_insert_Some in E1 as [[<- _]|[_ E1]]; [done|by destruct (Hno _ _ E1)].
    + destruct (so_out _ _ _ _ _ _ (proj1 Inv) _ _ E0) as (? & [= <-] & [i Hi]). by rewrite Hf in Hi.
  - intros Hn. destruct out; [|done]. exists k. cbn. by rewrite lookup_insert_eq.
  - intros e rl Er. destruct out; cbn in *; [|by left]. apply lookup_insert_Some in Er as [[<- <-]|[_ Er]]; auto.
  - intros e He'. destruct out; cbn in *; [|done]. injection He' as <-. rewrite lookup_insert_eq. split; [apply Al|done].
  - intros b j e U _. destruct out; cbn; [|done]. rewrite lookup_insert_ne; [done|]. intros <-.
    destruct (so_uses _ _ _ _ _ _ (proj1 Inv) _ _ _ U) as [? E0]. rewrite (ao_rows _ _ Al) in E0. done.
Qed.

Lemma add_e_keeps al eid label is_out s g r s' : storage_inv s g -> alloc_ok s al ->
  (forall a, edge_map_of is_out s !! eid_t2uint eid = Some (Some a) -> own_props s a = false) ->
  ProcessAddE lvl tbl false EPR VER BLOCK_SIZE t bt al eid label is_out s = Some (r, s') -> keeps g s'.
Proof using All.
  intros Inv Al Hg H. unfold ProcessAddE in H. destruct (src_v eid =? dst_v eid)%Z; [apply (keeps_reads s); [done|]; reads_by H|].
  cbv zeta in H. ds_step H sv s1 H1. destruct sv as [st ov]. pose proof (reading_vertex _ _ _ _ _ _ _ _ _ _ H1) as R1.
  destruct st; try solve [eapply (keeps_after s s1); [done..|]; reads_by H].
  destruct (enter_vertex _ _ _ _ _ _ Inv Al H1) as (Inv1 & Al1 & v & av & -> & Ev & Eav & Own & _). clear Inv Al H1.
  assert (edge_map_of is_out s1 = edge_map_of is_out s /\ forall a, own_props s1 a = own_props s a) as [Em Eo] by (destruct R1 as (d & u & ->); by destruct is_out).
  rewrite <- Em in Hg. setoid_rewrite <- Eo in Hg. clear Em Eo R1. ds_inv H.
  destruct (edge_map_of is_out s1 !! _) as [[a|]|] eqn:Ek.
  - ds_step H ok s2 H2. pose proof (append_edge_keeps al a (mk_edge_version label (if is_out then Some (al_rows al) else None)) PROCESS_ADD_E
      s1 g ok s2 Inv1 Al1 (Hg a eq_refl) eq_refl) as K.
    cbn in K. specialize (K ltac:(destruct is_out; [by eauto|done]) H2). destruct ok.
    + rewrite run_history in H by done. ds_inv H. by injection H as -> ->.
    + subst s2. apply (keeps_reads s1); [done|]. reads_by H.
  - apply (keeps_reads s1); [done|]. reads_by H.
  - ds_inv H. rename t0 into tl. destruct p as [tl' m]. ds_inv H.
    pose proof (new_edge_keeps al s1 g _ v av tl tl' m is_out _ label (eid_t2uint eid) Inv1 Al1 Ev Eav Own E Ek E0) as K.
    destruct is_out; ds_inv H; rewrite run_history in H by done; ds_inv H; injection H as -> ->; exact K.
Qed.
End Steps.
