(* ===== verification/Loading.v ===== *)
(** * Loading the graph

    [DataStorage::FillVertexContainer] and [FillEdgeContainer]
    (layout/data_storage.cpp): the vertices, edges and properties that the
    loader has shuffled to the worker become versions that every transaction
    sees.  What [new] and the pools return is a function [fresh_alloc] of the
    state; progress lines and usage prints are not modelled. *)
From S2P Require Import Prelude MyMath Types TrxStatus Coordinator TrxStub MvccList CellPool ValueStore.
From S2P Require Import Serialization RowChain PropertyRows Topology Forest RowMemory DataStorage StorageInv.
From S2P Require Import StorageAbort StorageSteps Wire.
Local Open Scope nat_scope.

Definition void {A} (m : DS A) : DS unit := _ ← m; mret tt.
Lemma void_run {A} (m : DS A) s r : void m s = Some r -> exists x, m s = Some (x, r.2).
Proof. intros (x & s1 & H & ->%ds_ret)%ds_bind. by exists x. Qed.

Section Loading.
Context {main indirect : nat} `{!TrxTableStub main indirect}.
Context (lvl : ISOLATION_LEVEL) (tbl : TrxTable) (opt_preread : bool).
Context (VPR EPR VER BLOCK_SIZE : nat) (worker_size worker_rank : Z) (fresh_alloc : Storage -> Alloc).

(** [PropertyRowList::InsertInitialCell] (layout/property_row_list.tpp:152-171) with
    the memory of the lists. *)
Definition load_property (R : nat) (rl : RowList) (m : Memory) (pid : Z * Z) (value : value_t) (a q tid : nat) (new_row : list Cell)
    : option (RowList * Memory) :=
  rl' ← InsertInitialCell R rl pid a new_row;
  let '(p, h, l) := AppendInitialVersion (items m) empty_list q (mk_header 0 0) in
  '(hd, st) ← InsertValue BLOCK_SIZE (values m) value tid;
  h' ← write_val h p hd;
  Some (rl', mk_memory (<[a := l]> (lists m)) h' st).

(** The loop over the properties of a vertex (layout/data_storage.cpp:363-366). *)
Fixpoint fill_vp (vid : Z) (labels : list Z) (vals : list value_t) : DS unit :=
  match labels with
  | [] => mret tt
  | label :: labels' =>
      value ← lift (head vals);
      s ← get;
      let al := fresh_alloc s in
      v ← lift (vertex_map s !! vid);
      rl ← lift (vp_row_list v);
      '(rl', m) ← lift (load_property VPR rl (vp_mem s) (vid, label) value (al_list al) (al_item al) (al_tid al) (al_vp_row al));
      _ ← modify (fun s => set_vertices s (<[vid := mk_vertex (v_label v) (ve_row_list v) (Some rl') (v_mvcc_list v)]> (vertex_map s)));
      _ ← modify (fun s => set_vp_mem s m);
      fill_vp vid labels' (tail vals)
  end.

(** A vertex with its list and its empty rows (layout/data_storage.cpp:345-361). *)
Definition fill_v (vid label : Z) : DS unit :=
  s ← get;
  let al := fresh_alloc s in
  let '(p, h, l) := AppendInitialVersion (v_items s) empty_list (al_item al) false in
  h' ← lift (write_val h p true);
  _ ← modify (fun s => set_v_mem s (<[al_list al := l]> (v_lists s)) h');
  modify (fun s => set_vertices s
    (<[vid := mk_vertex label (Some (topo_init vid)) (Some rows_init) (Some (al_list al))]> (vertex_map s))).

(** The loop over the vertices (layout/data_storage.cpp:339-367), with the largest
    id so far. *)
Fixpoint fill_vertices (l : list TMPVertex) (max_vid : Z) : DS Z :=
  match l with
  | [] => mret max_vid
  | vtx :: rest =>
      let vid := vid_vid (tv_id vtx) in
      _ ← fill_v vid (tv_label vtx);
      _ ← fill_vp vid (tv_vp_label_list vtx) (tv_vp_value_list vtx);
      fill_vertices rest (if (max_vid <? vid)%Z then vid else max_vid)
  end.

(** [DataStorage::FillVertexContainer] (layout/data_storage.cpp:332-378). *)
Definition FillVertexContainer (l : list TMPVertex) : DS unit :=
  max_vid ← fill_vertices l worker_rank;
  modify (fun s => set_counter s (i32 (Z.quot (i32 (max_vid - worker_rank)) worker_size))).

(** One half of an edge: a cell in the rows of the vertex [vid] and an entry in
    the map (layout/data_storage.cpp:393-403). *)
Definition fill_half_edge (is_out : bool) (vid conn : Z) (eid : eid_t) (label : Z) (rows : option nat) : DS nat :=
  s ← get;
  let al := fresh_alloc s in
  v ← lift (vertex_map s !! vid);
  tl ← lift (ve_row_list v);
  '(tl', m) ← lift (TopoInsertInitialCell VER tl (edge_mem s) is_out conn label rows (al_list al) (al_item al) (al_ve_row al));
  _ ← modify (fun s => set_vertices s (<[vid := mk_vertex (v_label v) (Some tl') (vp_row_list v) (v_mvcc_list v)]> (vertex_map s)));
  _ ← modify (fun s => set_edge_mem s m);
  _ ← modify (fun s => set_edge_map is_out s (<[eid_t2uint eid := Some (al_list al)]> (edge_map_of is_out s)));
  mret (al_list al).

(** The loop over the properties of an edge (layout/data_storage.cpp:409-411). *)
Fixpoint fill_ep (eid : eid_t) (e : nat) (labels : list Z) (vals : list value_t) : DS unit :=
  match labels with
  | [] => mret tt
  | label :: labels' =>
      value ← lift (head vals);
      s ← get;
      let al := fresh_alloc s in
      rl ← lift (ep_rows s !! e);
      '(rl', m) ← lift (load_property EPR rl (ep_mem s) (eid_t2uint eid, label) value (al_list al) (al_item al) (al_tid al) (al_ep_row al));
      _ ← modify (fun s => set_ep s (<[e := rl']> (ep_rows s)) m);
      fill_ep eid e labels' (tail vals)
  end.

(** One edge of the loop over the out-edges (layout/data_storage.cpp:386-424). *)
Definition fill_out_edge (edge : TMPOutEdge) : DS unit :=
  let eid := toe_id edge in
  s ← get;
  let e := al_rows (fresh_alloc s) in
  _ ← modify (fun s => set_ep s (<[e := rows_init]> (ep_rows s)) (ep_mem s));
  a ← fill_half_edge true (src_v eid) (dst_v eid) eid (toe_label edge) (Some e);
  r ← with_deps (fun s => e_visible lvl tbl opt_preread 0 0 true s a);
  _ ← (match toe_ep_label_list edge with
       | [] => mret tt
       | labels => e' ← lift (match r with RValue ev => ep_row_list ev | _ => None end); fill_ep eid e' labels (toe_ep_value_list edge)
       end : DS unit);
  if IsVertexLocal worker_size worker_rank (mk_vid (dst_v eid))
  then void (fill_half_edge false (dst_v eid) (src_v eid) eid (toe_label edge) None)
  else mret tt.
Fixpoint fill_out_edges (l : list TMPOutEdge) : DS unit :=
  match l with [] => mret tt | e :: r => _ ← fill_out_edge e; fill_out_edges r end.

(** The loop over the in-edges of other workers' vertices
    (layout/data_storage.cpp:428-444). *)
Fixpoint fill_in_edges (l : list TMPInEdge) : DS unit :=
  match l with
  | [] => mret tt
  | e :: r => _ ← fill_half_edge false (dst_v (tie_id e)) (src_v (tie_id e)) (tie_id e) (tie_label e) None; fill_in_edges r
  end.

(** [DataStorage::FillEdgeContainer] (layout/data_storage.cpp:380-454). *)
Definition FillEdgeContainer (out_edges : list TMPOutEdge) (in_edges : list TMPInEdge) : DS unit :=
  _ ← fill_out_edges out_edges; fill_in_edges in_edges.
End Loading.

(** ** The loaded storage satisfies the invariant *)

(** No transaction has begun. *)
Definition quiet (g : graph) : Prop := forall k a c t, look g k a <> Some (c, Some t).
Lemma quiet_history s g : quiet g -> process_history s = ∅ -> history_ok s g.
Proof.
  intros Q E. assert (forall t p c, ~ depends s g t p c) as Nd.
  { intros t p c D. destruct D as [u y b l _ _ D _|u y b l _ _ D _|b v b0 x e r l D1 D2 _ _ _]; [by eapply Q..|].
    apply (Q KEdge b (info v).1 t). cbn. rewrite D1. cbn. unfold info. by rewrite D2. }
  split; rewrite ?E.
  - intros t h. by rewrite lookup_empty.
  - intros t h r. by rewrite lookup_empty.
  - intros t k a [c P]. by destruct (Q k a c t).
  - intros t h a. by rewrite lookup_empty.
  - intros t p c D. by destruct (Nd t p c).
  - intros t h p c i j r r' _ D. by destruct (Nd t p c).
Qed.
Lemma quiet_puts g g' k a c : quiet g -> puts g g' k a (c, None) -> quiet g'.
Proof.
  intros Q [H1 H2] k' b c' t E. destruct (decide ((k', b) = (k, a))) as [X|N]; [injection X as -> ->; congruence|].
  rewrite H2 in E by done. by eapply Q.
Qed.

(** A list that was loaded, read as the loader reads it. *)
Lemma initial_visible {V} `{!MVCCItem V} {main indirect} `{!TrxTableStub main indirect} lvl tbl opt (h : gmap nat (Item V)) q stale x l' h1 h' d :
  AppendInitialVersion h empty_list q stale = (q, h1, l') -> write_val h1 q x = Some h' ->
  GetVisibleVersion lvl tbl opt h' l' 0 0 true d = Some (RValue x, d).
Proof.
  intros Ea Ew. injection Ea as <- <-. rewrite write_insert in Ew. injection Ew as <-.
  destruct lvl; cbn [GetVisibleVersion SnapshotLevelGetVisibleVersion SerializableLevelGetVisibleVersion MvccList.head_ MvccList.tail_ mbind option_bind];
    rewrite lookup_insert_eq; done.
Qed.

Section LoadInv.
Context {main indirect : nat} `{!TrxTableStub main indirect}.
Context (lvl : ISOLATION_LEVEL) (tbl : TrxTable) (opt_preread : bool).
Context (VPR EPR VER NT BLOCK_SIZE : nat) (worker_size worker_rank : Z) (fresh_alloc : Storage -> Alloc).
Context (HVP : 0 < VPR) (HEP : 0 < EPR) (HVE : 0 < VER) (HB : 1 < BLOCK_SIZE).
Context (Hnew : forall s, alloc_ok VPR EPR VER NT s (fresh_alloc s)).
Abbreviation storage_ok := (storage_ok VPR EPR VER NT).
Abbreviation storage_inv := (storage_inv VPR EPR VER NT).

Definition loading s g : Prop := storage_ok s g /\ quiet g /\ process_history s = ∅.
Lemma loading_inv s g : loading s g -> storage_inv s g.
Proof. intros (Ok & Q & E). split; [done|by apply quiet_history]. Qed.

(** A property goes into rows that have no map yet. *)
Lemma load_property_ok R owner rl m A pid value a q tid row rl' m' : 0 < R -> rows_good R owner rl -> cell_map rl = None -> pid.1 = owner ->
  length row = R -> (forall c, c ∈ cells rl -> c_pid c <> pid) -> mem_ok m A -> lists m !! a = None -> items m !! q = None ->
  tid < threads (values m) -> storable value ->
  load_property BLOCK_SIZE R rl m pid value a q tid row = Some (rl', m') ->
  exists hd, mem_ok m' (<[a := mk_versions [(MIN_TIME, hd)] None]> A) /\ threads (values m') = threads (values m) /\
    rows_good R owner rl' /\ cell_map rl' = None /\ cells rl' = cells rl ++ [mk_cell pid (Some a)].
Proof using HB.
  intros HR [G1 G2 G3] Hmap Ho Hrow Hno M Ha Hq Ht Hv H. unfold load_property in H.
  assert (is_cell_of R rl pid None) as Hn by (intros j c Hc; apply Hno; by eapply list_elem_of_lookup_2).
  destruct (InsertInitialCell_spec R HR owner rl pid a row G1 Hmap Ho Hrow Hn) as (rl1 & E1 & G1' & Hmap' & Hc).
  rewrite E1 in H. cbn [mbind option_bind] in H. 
  destruct (InsertValue BLOCK_SIZE (values m) value tid) as [[hd st]|] eqn:Ei; [|done].
  destruct (mem_initial BLOCK_SIZE HB m A a q tid value hd st M Ha Hq Ht Hv Ei) as (h' & l' & Ea & Ew & M' & Ht').
  rewrite Ea in H. cbn [mbind option_bind] in H. rewrite Ew in H. cbn in H. injection H as <- <-. exists hd.
  split_and!; try done. split; [done|by unfold map_needed; rewrite Hmap'|]. rewrite Hc. apply Forall_app. split; [done|].
  repeat constructor. by eexists.
Qed.

Lemma fill_v_ok vid label s g s' : loading s g -> fill_v fresh_alloc vid label s = Some (tt, s') ->
  exists g' v, loading s' g' /\ vertex_map s' !! vid = Some v /\ vp_row_list v = Some rows_init.
Proof using All.
  intros L H. pose proof (loading_inv _ _ L) as Inv. destruct L as (Ok & Q & Eh). unfold fill_v in H. ds_inv H.
  set (al := fresh_alloc s) in *. pose proof (Hnew s) as Al. fold al in Al.
  destruct (mr_v _ _ _ (so_mem _ _ _ _ _ _ Ok)) as [C F].
  destruct (forest_initial _ _ _ _ (al_list al) (al_item al) false true F (ao_v _ _ _ _ _ _ Al) (ao_v_item _ _ _ _ _ _ Al))
    as (h' & l' & Ea & Ew & _ & _ & F').
  rewrite Ea in H. rewrite Ew, run_lift in H. ds_inv H. apply ds_modify in H. injection H as ->.
  eexists (put_v g (al_list al) (mk_versions [(MIN_TIME, true)] None)), _. split; [|split; [cbn; by rewrite lookup_insert_eq|done]].
  split_and!; [|eapply quiet_puts; [done|apply puts_v]|done].
  assert (set_counter s (num_of_vertex_local s) = s) as Es by (by destruct s).
  pose proof (new_vertex_ok lvl tbl VPR EPR VER NT BLOCK_SIZE worker_size worker_rank HVP HEP HVE HB (2 ^ 63)%Z 0%Z) as N.
  specialize (N ltac:(by split) ltac:(by split) s g vid label (al_list al) (<[al_list al := l']> (v_lists s)) h' (num_of_vertex_local s) Inv).
  specialize (N (fun k => alloc_fresh _ _ _ _ _ _ _ k Ok Al) (mk_versions [(MIN_TIME, true)] None) (ex_intro _ _ F')). rewrite Es in N. exact N.
Qed.

Lemma fill_vp_ok vid labels : forall vals s g s' v rl, loading s g -> vertex_map s !! vid = Some v -> vp_row_list v = Some rl ->
  cell_map rl = None -> NoDup labels -> (forall c l, c ∈ cells rl -> l ∈ labels -> c_pid c <> (vid, l)) -> Forall storable vals ->
  fill_vp VPR BLOCK_SIZE fresh_alloc vid labels vals s = Some (tt, s') -> exists g', loading s' g'.
Proof using All.
  induction labels as [|label labels IH]; intros vals s g s' v rl L Ev Erl Hmap ND Hno Hst H; cbn [fill_vp] in H.
  { apply ds_ret in H. injection H as ->. by exists g. }
  destruct vals as [|value vals]; [done|]. cbn [head tail] in H. ds_inv H.
  assert (v0 = v) as -> by congruence. assert (r = rl) as -> by congruence. set (al := fresh_alloc s) in *.
  pose proof (Hnew s) as Al. fold al in Al. destruct p as [rl' m']. ds_inv H.
  pose proof (loading_inv _ _ L) as Inv. destruct L as (Ok & Q & Eh). pose proof (so_mem _ _ _ _ _ _ Ok) as M.
  apply NoDup_cons in ND as [Hl ND]. apply Forall_cons in Hst as [Hv Hst].
  destruct (vp_lists_alive _ _ _ _ _ _ _ _ _ Ok E Erl) as [G _].
  destruct (load_property_ok VPR vid rl (vp_mem s) (g_vp g) (vid, label) value (al_list al) (al_item al) (al_tid al) (al_vp_row al) rl' m')
    as (hd & M' & Ht' & G' & Hmap' & Hc); try done; try apply Al; [|apply M|rewrite (mr_vp_threads _ _ _ M); apply Al|].
  { intros c Hcin. apply Hno; [done|by left]. }
  assert (row_lists rl' = row_lists rl ++ [al_list al]) as Hrl by (unfold row_lists; by rewrite Hc, omap_app).
  refine (IH vals _ (put_vp g (al_list al) (mk_versions [(MIN_TIME, hd)] None)) s'
    (mk_vertex (v_label v) (ve_row_list v) (Some rl') (v_mvcc_list v)) rl' _ (lookup_insert_eq _ _ _) eq_refl Hmap' ND _ Hst H).
  - split_and!; [|eapply quiet_puts; [exact Q|apply puts_vp]|done].
    eapply (vp_written_ok VPR EPR VER NT s g vid v rl rl' m' (al_list al) no_versions); try done; [by rewrite Ht', (mr_vp_threads _ _ _ M)|].
    right. split_and!; try done. intros k. by eapply alloc_fresh.
  - intros c l Hcin Hlin. rewrite Hc in Hcin. apply elem_of_app in Hcin as [Hcin| ->%list_elem_of_singleton].
    + apply Hno; [done|by right].
    + cbn. intros [= ->]. done.
Qed.

(** The rows of properties that an edge brings. *)
Definition with_rows s (rows : option nat) : Storage :=
  match rows with Some e => set_ep s (<[e := rows_init]> (ep_rows s)) (ep_mem s) | None => s end.

Lemma half_edge_ok out vid conn eid label rows s g a s' : loading s g -> (rows <> None -> out = true) ->
  (forall e, rows = Some e -> ep_rows s !! e = None) ->
  fill_half_edge VER fresh_alloc out vid conn eid label rows (with_rows s rows) = Some (a, s') ->
  exists g', loading s' g' /\ edge_map_of out s' !! eid_t2uint eid = Some (Some a) /\
    g_e g' !! a = Some (mk_versions [(MIN_TIME, mk_edge_version label rows)] None) /\ ep_rows s' = ep_rows (with_rows s rows) /\
    forall d, e_visible lvl tbl opt_preread 0 0 true s' a d = Some (RValue (mk_edge_version label rows), d).
Proof using All.
  intros L Hout Hfree H. pose proof (loading_inv _ _ L) as Inv. destruct L as (Ok & Q & Eh). unfold fill_half_edge in H.
  set (s0 := with_rows s rows) in *. pose proof (Hnew s0) as Al. set (al := fresh_alloc s0) in *. ds_inv H. fold al in E1.
  destruct p as [tl' m]. ds_inv H. fold al in H. injection H as -> ->. unfold TopoInsertInitialCell in E1.
  assert (vertex_map s0 = vertex_map s /\ edge_mem s0 = edge_mem s /\ v_lists s0 = v_lists s /\ v_items s0 = v_items s /\ vp_mem s0 = vp_mem s /\ ep_mem s0 = ep_mem s /\
    out_edge_map s0 = out_edge_map s /\ in_edge_map s0 = in_edge_map s /\ process_history s0 = process_history s) as (X1 & X2 & X3 & X4 & X5 & X6 & X7 & X8 & X9) by (by destruct rows).
  pose proof (so_mem _ _ _ _ _ _ Ok) as M. destruct (mr_e _ _ _ M) as [C F].
  pose proof (ao_e _ _ _ _ _ _ Al) as Hl. pose proof (ao_e_item _ _ _ _ _ _ Al) as Hi. rewrite X2 in Hl, Hi.
  destruct (forest_initial _ _ _ _ (al_list al) (al_item al) (mk_edge_version 0 None) (mk_edge_version label rows) F Hl Hi) as (h' & l' & Ea & Ew & _ & Hx & F').
  rewrite X2, Ea, Ew in E1. cbn [mbind option_bind] in E1. rewrite X1 in E.
  pose proof (vk_ve _ _ _ _ _ (so_vertex _ _ _ _ _ _ Ok _ _ E) _ E0) as Htl.
  destruct (topo_allocate_spec VER HVE t out conn (al_list al) (al_ve_row al) Htl (ao_ve_row _ _ _ _ _ _ Al)) as (tl1 & Et & Htl' & _ & _ & He).
  rewrite Et in E1. cbn in E1. injection E1 as <- <-.
  assert (forall k, look g k (al_list al) = None) as Hf.
  { intros k. pose proof Al as []. rewrite X3, X2, X5, X6 in *. destruct (mr_v _ _ _ M) as [C1 F1], (mr_vp _ _ _ M) as [[C3 F3] _], (mr_ep _ _ _ M) as [[C4 F4] _].
    destruct k; cbn; apply fmap_None; (eapply forest_None; [eassumption|done]). }
  set (v' := mk_vertex (v_label v) (Some tl1) (vp_row_list v) (v_mvcc_list v)).
  set (s1 := set_edge_map _ _ _). assert (vertex_map s1 = <[vid := v']> (vertex_map s)) as EV by (destruct out; cbn; by rewrite X1).
  assert (ep_rows s1 = ep_rows s0) as ER by (by destruct out).
  exists (put_e g (al_list al) (mk_versions [(MIN_TIME, mk_edge_version label rows)] None)). split; [split; [|split]|split_and!; try done].
  2:{ eapply quiet_puts; [exact Q|apply puts_e]. }
  2:{ destruct out; cbn; by rewrite X9. }
  2:{ destruct out; cbn; apply lookup_insert_eq. }
  2:{ cbn. apply lookup_insert_eq. }
  2:{ intros d. unfold e_visible, s1. destruct out; cbn [set_edge_map edge_mem set_edge_maps set_edge_mem e_lists e_items]; rewrite lookup_insert_eq; cbn [mbind option_bind];
        by eapply initial_visible. }
  assert (forall k0 p0, edge_map_of out s !! k0 = Some p0 -> p0 <> Some (al_list al)) as Hno.
  { intros k0 p0 E2 ->. assert (alive g KEdge (al_list al)) as [i Hi'].
    { destruct out; [destruct (so_out _ _ _ _ _ _ Ok _ _ E2) as (? & [= <-] & ?)|destruct (so_in _ _ _ _ _ _ Ok _ _ E2) as (? & [= <-] & ?)]; done. }
    by rewrite Hf in Hi'. }
  eapply (edge_version_ok lvl tbl VPR EPR VER NT BLOCK_SIZE worker_size worker_rank HVP HEP HVE HB (2 ^ 63)%Z 0%Z ltac:(by split) ltac:(by split)
    s s1 g (al_list al) no_versions _ (mk_edge_version label rows) PROCESS_ADD_E) with (dir := out); try done.
  - by right.
  - exists (<[al_list al := [al_item al]]> C). destruct out; cbn; exact F'.
  - destruct out; cbn; rewrite X6; apply M.
  - destruct out; cbn; rewrite X6; apply M.
  - by destruct out.
  - by destruct out.
  - by destruct out.
  - by destruct out.
  - intros u y. rewrite EV, lookup_insert_Some. intros [[<- <-]|[N Ey]]; [|exists y; split_and!; auto].
    exists v. split_and!; try done. right. split; [done|]. destruct (vk_list _ _ _ _ _ (so_vertex _ _ _ _ _ _ Ok _ _ E)) as (av & Eav & _).
    exists av, tl1. split_and!; try done; [unfold ve_lists; rewrite E0; cbn; by rewrite He, fmap_app|]. intros t0 Ht0. by destruct (Q _ _ _ _ Ht0).
  - intros u y0 Ey. rewrite EV. destruct (decide (u = vid)) as [->|N].
    + exists v'. rewrite lookup_insert_eq. by assert (y0 = v) as -> by congruence.
    + exists y0. by rewrite lookup_insert_ne.
  - intros k0 p0 E2. destruct out; cbn in *; rewrite X7 in E2; [|by left]. apply lookup_insert_Some in E2 as [[<- <-]|[_ E2]]; auto.
  - intros k0 p0 E2. destruct out; cbn in *; rewrite X8 in E2; [by left|]. apply lookup_insert_Some in E2 as [[<- <-]|[_ E2]]; auto.
  - intros k0 k1 E2 E3. destruct out; cbn in *; rewrite X7 in *.
    + apply lookup_insert_Some in E2 as [[<- _]|[_ E2]]; [|by destruct (Hno _ _ E2)]. apply lookup_insert_Some in E3 as [[<- _]|[_ E3]]; [done|by destruct (Hno _ _ E3)].
    + destruct (so_out _ _ _ _ _ _ Ok _ _ E2) as (? & [= <-] & [i Hi']). by rewrite Hf in Hi'.
  - intros Hn. exists (eid_t2uint eid). unfold s1. rewrite (Hout Hn). cbn. apply lookup_insert_eq.
  - intros e rl Er. rewrite ER in Er. subst s0. destruct rows as [e0|]; cbn in *; [|by left]. apply lookup_insert_Some in Er as [[<- <-]|[_ Er]]; auto.
  - intros e He'. rewrite ER. subst s0. cbn in He'. subst rows. cbn. rewrite lookup_insert_eq. split; [by apply Hfree|done].
  - intros b j e U _. rewrite ER. subst s0. destruct rows as [e0|]; cbn; [|done]. rewrite lookup_insert_ne; [done|]. intros <-.
    destruct (so_uses _ _ _ _ _ _ Ok _ _ _ U) as [? E2]. by rewrite (Hfree e0 eq_refl) in E2.
Qed.

Lemma fill_ep_ok eid e ae ve labels : forall vals s g s' rl, loading s g -> out_edge_map s !! eid_t2uint eid = Some (Some ae) ->
  g_e g !! ae = Some ve -> uses g ae 0 e -> ep_rows s !! e = Some rl ->
  cell_map rl = None -> NoDup labels -> (forall c l, c ∈ cells rl -> l ∈ labels -> c_pid c <> (eid_t2uint eid, l)) -> Forall storable vals ->
  fill_ep EPR BLOCK_SIZE fresh_alloc eid e labels vals s = Some (tt, s') -> exists g', loading s' g'.
Proof using All.
  induction labels as [|label labels IH]; intros vals s g s' rl L Ek Ea U Er Hmap ND Hno Hst H; cbn [fill_ep] in H.
  { apply ds_ret in H. injection H as ->. by exists g. }
  destruct vals as [|value vals]; [done|]. cbn [head tail] in H. ds_inv H.
  assert (r = rl) as -> by congruence. set (al := fresh_alloc s) in *.
  pose proof (Hnew s) as Al. fold al in Al. destruct p as [rl' m']. ds_inv H.
  pose proof (loading_inv _ _ L) as Inv. destruct L as (Ok & Q & Eh). pose proof (so_mem _ _ _ _ _ _ Ok) as M.
  apply NoDup_cons in ND as [Hl ND]. apply Forall_cons in Hst as [Hv Hst].
  destruct (ep_lists_alive _ _ _ _ _ _ _ _ _ _ _ Ok Ek U E) as [G _].
  destruct (load_property_ok EPR (eid_t2uint eid) rl (ep_mem s) (g_ep g) (eid_t2uint eid, label) value (al_list al) (al_item al) (al_tid al) (al_ep_row al) rl' m')
    as (hd & M' & Ht' & G' & Hmap' & Hc); try done; try apply Al; [|apply M|rewrite (mr_ep_threads _ _ _ M); apply Al|].
  { intros c Hcin. apply Hno; [done|by left]. }
  assert (row_lists rl' = row_lists rl ++ [al_list al]) as Hrl by (unfold row_lists; by rewrite Hc, omap_app).
  refine (IH vals (set_ep s (<[e := rl']> (ep_rows s)) m') (put_ep g (al_list al) (mk_versions [(MIN_TIME, hd)] None)) s' rl' _ Ek Ea U (lookup_insert_eq _ _ _) Hmap' ND _ Hst H).
  - split_and!; [|eapply quiet_puts; [exact Q|apply puts_ep]|done].
    eapply (ep_written_ok VPR EPR VER NT s g (eid_t2uint eid) ae ve 0 e rl rl' m' (al_list al) no_versions); try done; [by rewrite Ht', (mr_ep_threads _ _ _ M)|].
    right. split_and!; try done. intros k. by eapply alloc_fresh.
  - intros c l Hcin Hlin. rewrite Hc in Hcin. apply elem_of_app in Hcin as [Hcin| ->%list_elem_of_singleton].
    + apply Hno; [done|by right].
    + cbn. intros [= ->]. done.
Qed.

(** What the loader has read: the labels of the properties of one vertex or edge
    differ and the values fit in the store. *)
Definition vertex_data_ok (v : TMPVertex) : Prop := NoDup (tv_vp_label_list v) /\ Forall storable (tv_vp_value_list v).
Definition edge_data_ok (e : TMPOutEdge) : Prop := NoDup (toe_ep_label_list e) /\ Forall storable (toe_ep_value_list e).

Lemma fill_vertices_ok l : forall s g mx n s', Forall vertex_data_ok l -> loading s g ->
  fill_vertices VPR BLOCK_SIZE fresh_alloc l mx s = Some (n, s') -> exists g', loading s' g'.
Proof using All.
  induction l as [|v l IH]; intros s g mx n s' Hd L H; cbn [fill_vertices] in H.
  { apply ds_ret in H. injection H as -> ->. by exists g. }
  apply Forall_cons in Hd as [[ND Hst] Hd]. ds_step H u s1 H1. ds_step H u' s2 H2. destruct u, u'.
  destruct (fill_v_ok _ _ _ _ _ L H1) as (g1 & v1 & L1 & Ev & Er).
  destruct (fill_vp_ok _ _ _ _ _ _ _ _ L1 Ev Er eq_refl ND ltac:(by intros ? ? ?%not_elem_of_nil) Hst H2) as (g2 & L2). by eapply IH.
Qed.
Lemma loading_counter s g n : loading s g -> loading (set_counter s n) g.
Proof. intros ([[] ] & Q & E). split_and!; [|done..]. by split; [split|..]. Qed.
Lemma fill_vertex_container_ok l s g s' : Forall vertex_data_ok l -> loading s g ->
  FillVertexContainer VPR BLOCK_SIZE worker_size worker_rank fresh_alloc l s = Some (tt, s') -> exists g', loading s' g'.
Proof using All.
  intros Hd L H. unfold FillVertexContainer in H. ds_step H mx s1 H1. apply ds_modify in H. injection H as ->.
  destruct (fill_vertices_ok _ _ _ _ _ _ Hd L H1) as (g1 & L1). exists g1. by apply loading_counter.
Qed.

Lemma loading_reads s g s' : reads s s' -> loading s g -> loading s' g.
Proof. intros (d & u & ->) ([[] ] & Q & E). split_and!; [|done..]. by split; [split|..]. Qed.
Lemma fill_out_edge_ok e s g s' : edge_data_ok e -> loading s g ->
  fill_out_edge lvl tbl opt_preread EPR VER BLOCK_SIZE worker_size worker_rank fresh_alloc e s = Some (tt, s') -> exists g', loading s' g'.
Proof using All.
  intros [ND Hst] L H. unfold fill_out_edge in H. ds_inv H. set (er := al_rows (fresh_alloc s)) in *.
  ds_step H a s1 H1. change (set_ep s (<[er := rows_init]> (ep_rows s)) (ep_mem s)) with (with_rows s (Some er)) in H1.
  destruct (half_edge_ok true _ _ _ _ (Some er) s g a s1 L ltac:(done) ltac:(intros ? [= <-]; apply Hnew) H1) as (g1 & L1 & Ek & Ea & ER & Hvis).
  ds_step H r s2 H2. assert (reads s1 s2) as R by (by eapply reading_deps). apply (loading_reads _ _ _ R) in L1 as L2.
  assert (r = RValue (mk_edge_version (toe_label e) (Some er))) as ->.
  { unfold with_deps in H2. rewrite Hvis in H2. by injection H2 as <- <-. }
  assert (out_edge_map s2 = out_edge_map s1 /\ ep_rows s2 = ep_rows s1) as [E1 E2] by (by destruct R as (d & u & ->)). ds_step H u s3 H3.
  assert (exists g3, loading s3 g3) as (g3 & L3).
  { destruct (toe_ep_label_list e) as [|lb lbs] eqn:El; [apply ds_ret in H3; injection H3 as -> ->; by exists g1|]. cbn [ep_row_list] in H3. ds_inv H3. destruct u.
    cbn [edge_map_of] in Ek. rewrite <- E1 in Ek. eapply (fill_ep_ok (toe_id e) er a _ (lb :: lbs) (toe_ep_value_list e) s2 g1 s3 rows_init); [exact L2|exact Ek|exact Ea| | |reflexivity|done| |exact Hst|exact H3].
    - eexists _, _. split; [exact Ea|]. done.
    - rewrite E2, ER. cbn. apply lookup_insert_eq.
    - by intros ? ? ?%not_elem_of_nil. }
  destruct (IsVertexLocal _ _ _); [|apply ds_ret in H; injection H as ->; by exists g3].
  apply void_run in H as [a' H]. cbn [snd] in H. destruct (half_edge_ok false _ _ _ _ None s3 g3 a' s' L3 ltac:(done) ltac:(done) H) as (g4 & L4 & _). by exists g4.
Qed.
Lemma fill_edge_container_ok es ies s g s' : Forall edge_data_ok es -> loading s g ->
  FillEdgeContainer lvl tbl opt_preread EPR VER BLOCK_SIZE worker_size worker_rank fresh_alloc es ies s = Some (tt, s') -> exists g', loading s' g'.
Proof using All.
  intros Hd L H. unfold FillEdgeContainer in H. ds_step H u s1 H1. destruct u.
  assert (exists g1, loading s1 g1) as (g1 & L1).
  { clear H. revert s g L H1. induction es as [|e es IH]; intros s g L H1; cbn [fill_out_edges] in H1; [apply ds_ret in H1; injection H1 as ->; by exists g|].
    apply Forall_cons in Hd as [He Hd]. ds_step H1 u s2 H2. destruct u. destruct (fill_out_edge_ok _ _ _ _ He L H2) as (g2 & L2). by eapply (IH Hd s2 g2). }
  clear H1. revert s1 g1 L1 H. induction ies as [|e ies IH]; intros s1 g1 L1 H; cbn [fill_in_edges] in H; [apply ds_ret in H; injection H as ->; by exists g1|].
  ds_step H a s2 H2. destruct (half_edge_ok false _ _ _ _ None s1 g1 a s2 L1 ltac:(done) ltac:(done) H2) as (g2 & L2 & _). by eapply IH.
Qed.
End LoadInv.
