(* ===== verification/StorageRun.v ===== *)
(** * Runs of the storage

    Transactions read, write, commit and abort in any order.  Every state that
    such a run reaches from a loaded or an empty storage satisfies the
    invariant, and a run refines a specification in which the state is a map
    from lists to versions: writes touch only pending versions of the writer,
    a commit turns all the versions of the transaction into committed ones at
    once, an abort removes all of them. *)
From S2P Require Import Prelude Types TrxStatus Coordinator TrxStub MvccList CellPool ValueStore Serialization.
From S2P Require Import RowChain PropertyRows Topology Forest RowMemory DataStorage StorageInv StorageAbort.
From S2P Require Import StorageSteps Wire Loading.
Local Open Scope nat_scope.

(** ** Steps *)

Inductive write_op :=
  | OAddV (label : Z) | ODropV (vid : Z) | OAddE (eid : eid_t) (label : Z) (is_out : bool) | ODropE (eid : eid_t) (is_out : bool)
  | OModifyVP (pid : vpid_t) (value old : value_t) | OModifyEP (pid : epid_t) (value old : value_t)
  | ODropVP (pid : vpid_t) (old : value_t) | ODropEP (pid : epid_t) (old : value_t).

Inductive read_op :=
  | RVPByPKey (pid : vpid_t) (ret : value_t) | RAllVP (vid : Z) | RVPByPKeyList (vid : Z) (p_key : list Z) | RVPidList (vid : Z)
  | RVL (vid ret : Z) | REPByPKey (pid : epid_t) (ret : value_t) | RAllEP (eid : eid_t) | REPByPKeyList (eid : eid_t) (p_key : list Z)
  | REPidList (eid : eid_t) | REL (eid : eid_t) (ret : Z) | RConnectedV (vid label : Z) (dir : Direction_T)
  | RConnectedE (vid label : Z) (dir : Direction_T) | RAllVertices | RAllEdges | RCheckV (vid : Z) | RCheckE (eid : eid_t).

Section Run.
Context {main indirect : nat} `{!TrxTableStub main indirect} (lvl : ISOLATION_LEVEL).
Context (VPR EPR VER NT BLOCK_SIZE : nat) (worker_size worker_rank : Z).
Implicit Types (s : Storage) (g : graph).

Definition run_write (tbl : TrxTable) (t bt : Z) (al : Alloc) (op : write_op) : DS unit :=
  match op with
  | OAddV label => void (ProcessAddV worker_size worker_rank t bt al label)
  | ODropV vid => void (ProcessDropV lvl tbl false VER t bt al vid)
  | OAddE eid label is_out => void (ProcessAddE lvl tbl false EPR VER BLOCK_SIZE t bt al eid label is_out)
  | ODropE eid is_out => void (ProcessDropE EPR BLOCK_SIZE t bt al eid is_out)
  | OModifyVP pid value old => void (ProcessModifyVP lvl tbl false VPR BLOCK_SIZE t bt al pid value old)
  | OModifyEP pid value old => void (ProcessModifyEP lvl tbl false EPR BLOCK_SIZE t bt al pid value old)
  | ODropVP pid old => void (ProcessDropVP lvl tbl false VPR BLOCK_SIZE t bt al pid old)
  | ODropEP pid old => void (ProcessDropEP lvl tbl false EPR BLOCK_SIZE t bt al pid old)
  end.

Definition run_read (tbl : TrxTable) (t bt : Z) (read_only : bool) (op : read_op) : DS unit :=
  match op with
  | RVPByPKey pid ret => void (GetVPByPKey lvl tbl false VPR t bt read_only pid ret)
  | RAllVP vid => void (GetAllVP lvl tbl false VPR t bt read_only vid)
  | RVPByPKeyList vid p_key => void (GetVPByPKeyList lvl tbl false VPR t bt read_only vid p_key)
  | RVPidList vid => void (GetVPidList lvl tbl false VPR t bt read_only vid)
  | RVL vid ret => void (GetVL lvl tbl false t bt read_only vid ret)
  | REPByPKey pid ret => void (GetEPByPKey lvl tbl false EPR t bt read_only pid ret)
  | RAllEP eid => void (GetAllEP lvl tbl false EPR t bt read_only eid)
  | REPByPKeyList eid p_key => void (GetEPByPKeyList lvl tbl false EPR t bt read_only eid p_key)
  | REPidList eid => void (GetEPidList lvl tbl false EPR t bt read_only eid)
  | REL eid ret => void (GetEL lvl tbl false t bt read_only eid ret)
  | RConnectedV vid label dir => void (GetConnectedVertexList lvl tbl false VER t bt read_only vid label dir)
  | RConnectedE vid label dir => void (GetConnectedEdgeList lvl tbl false VER t bt read_only vid label dir)
  | RAllVertices => void (GetAllVertices lvl tbl false t bt read_only)
  | RAllEdges => void (GetAllEdges lvl tbl false t bt read_only)
  | RCheckV vid => void (CheckVertexVisibilityWithVid lvl tbl false t bt read_only vid)
  | RCheckE eid => void (CheckEdgeVisibilityWithEid lvl tbl false t bt read_only eid)
  end.

(** The values fit, and an edge is not added or dropped again by a transaction
    that has given its version properties. *)
Definition write_ok (t : Z) s (op : write_op) : Prop :=
  match op with
  | OModifyVP _ value _ | OModifyEP _ value _ => storable value
  | OAddE eid _ is_out | ODropE eid is_out => forall a, edge_map_of is_out s !! eid_t2uint eid = Some (Some a) -> own_props t s a = false
  | _ => True
  end.

(** In the lists in which [t] has a version, the version before it was committed
    before [ct]. *)
Definition newest_before {V} (ls : gmap nat MVCCList) (h : gmap nat (Item V)) (t ct : Z) : Prop :=
  forall a l q i p j, ls !! a = Some l -> MvccList.tail_ l = Some q -> h !! q = Some i -> begin_time i = t ->
    pre_tail_ l = Some p -> p <> q -> h !! p = Some j -> (begin_time j < ct)%Z.
Definition commit_ok s (t ct : Z) : Prop :=
  is_time ct /\ newest_before (v_lists s) (v_items s) t ct /\ newest_before (e_lists (edge_mem s)) (e_items (edge_mem s)) t ct /\
  newest_before (lists (vp_mem s)) (items (vp_mem s)) t ct /\ newest_before (lists (ep_mem s)) (items (ep_mem s)) t ct.

Inductive ds_step s : Storage -> Prop :=
  | StepRead tbl t bt read_only op s' : run_read tbl t bt read_only op s = Some (tt, s') -> ds_step s s'
  | StepWrite tbl t bt al op s' : is_trx t -> is_time bt -> alloc_ok VPR EPR VER NT s al -> write_ok t s op ->
      run_write tbl t bt al op s = Some (tt, s') -> ds_step s s'
  | StepCommit t ct s' : commit_ok s t ct -> DataStorage.Commit t ct s = Some (tt, s') -> ds_step s s'
  | StepAbort t al s' : al_tid al < NT -> DataStorage.Abort VPR EPR VER BLOCK_SIZE al t s = Some (tt, s') -> ds_step s s'.

(** ** The specification *)

Inductive graph_step g : graph -> Prop :=
  | GraphRead : graph_step g g
  | GraphWrite t g' : own_changes t g g' -> graph_step g g'
  | GraphCommit t ct : graph_step g (commit_all t ct g)
  | GraphAbort t g' : aborted t g g' -> graph_step g g'.

Context (HVP : 0 < VPR) (HEP : 0 < EPR) (HVE : 0 < VER) (HB : 1 < BLOCK_SIZE).
Abbreviation storage_inv := (storage_inv VPR EPR VER NT).

Lemma read_reads tbl t bt ro op s s' : run_read tbl t bt ro op s = Some (tt, s') -> reads s s'.
Proof using.
  intros H. destruct op; cbn [run_read] in H; unfold void, GetVPByPKey, GetAllVP, GetVPByPKeyList, GetVPidList, GetVL, GetEPByPKey, GetAllEP,
    GetEPByPKeyList, GetEPidList, GetEL, GetConnectedVertexList, GetAllVertices, GetAllEdges, CheckVertexVisibilityWithVid,
    CheckEdgeVisibilityWithEid, CheckVertexVisibility, on_vertex, on_edge, rows_of in H; reads_by H.
Qed.

Lemma write_keeps tbl t bt al op s g s' : storage_inv s g -> is_trx t -> is_time bt -> alloc_ok VPR EPR VER NT s al -> write_ok t s op ->
  run_write tbl t bt al op s = Some (tt, s') -> exists g', storage_inv s' g' /\ own_changes t g g'.
Proof using HVP HEP HVE HB.
  intros Inv Ht Hbt Al Hok H. destruct op; apply void_run in H as [x H]; cbn [snd] in H.
  - by eapply add_v_keeps.
  - by eapply drop_v_keeps.
  - by eapply add_e_keeps.
  - by eapply drop_e_keeps.
  - by eapply modify_vp_keeps.
  - by eapply modify_ep_keeps.
  - by eapply drop_vp_keeps.
  - by eapply drop_ep_keeps.
Qed.

(** The commit time is later than the versions before. *)
Lemma newest_later {V} `{!MVCCItem V} (ls : gmap nat MVCCList) (h : gmap nat (Item V)) A t ct : (exists C, forest ls h C A) -> newest_before ls h t ct ->
  forall a v, A !! a = Some v -> own_pending v t = true -> Forall (fun c => c < ct)%Z (committed v).*1.
Proof using.
  clear HVP HEP HVE HB. intros [C F] Hn a v Ev O. destruct (forest_abs _ _ _ _ _ _ F Ev) as (ps & l & Ec & El & R).
  unfold own_pending in O. destruct (pending v) as [[[t' b] x]|] eqn:Hp; [|done]. apply Z.eqb_eq in O as ->.
  destruct (tail_pending _ _ _ _ _ _ _ R Hp) as (qs & q & -> & Hq & Ei & Hs & Hpre).
  destruct (committed v) as [|[c y] cs _] eqn:Hc using rev_ind; [constructor|]. rewrite items_to_snoc in Hs.
  apply seg_snoc_inv in Hs as (qs' & p & -> & Hpl & _). rewrite last_snoc in Hpre. cbn in Hpre.
  assert (p <> q) as Hpq. { pose proof (r_nodup _ _ _ _ R) as ND. rewrite <- app_assoc in ND. apply NoDup_app in ND as (_ & _ & ND). apply NoDup_cons in ND as [N _]. intros ->. apply N. by left. }
  pose proof (Hn a l q _ p _ El Hq Ei eq_refl Hpre Hpq Hpl) as Hlt. cbn in Hlt.
  pose proof (vo_sorted _ (r_ok _ _ _ _ R)) as So. rewrite Hc in So. rewrite fmap_app in So |- *. cbn in So |- *.
  apply Forall_app. split; [|by constructor]. apply Forall_forall. intros c' Hc'.
  enough (c' < c)%Z by lia. clear -So Hc'. induction cs.*1 as [|d ds IH]; [by apply not_elem_of_nil in Hc'|].
  cbn in So. apply StronglySorted_inv in So as [So Hd]. apply elem_of_cons in Hc' as [->|Hc']; [|by apply IH].
  apply Forall_app in Hd as [_ Hd]. by inversion Hd.
Qed.

Lemma commit_ok_later s g t ct : storage_inv s g -> commit_ok s t ct -> is_time ct /\ later g t ct.
Proof.
  intros [Ok _] (Hct & H1 & H2 & H3 & H4). split; [done|]. destruct (so_mem _ _ _ _ _ _ Ok) as [Fv Fe [Fvp _] [Fep _] _ _ _].
  split_and!; by eapply newest_later.
Qed.

(** One step of the storage is one step of the specification. *)
Lemma step_refines s g s' : storage_inv s g -> ds_step s s' -> exists g', storage_inv s' g' /\ graph_step g g'.
Proof using HVP HEP HVE HB.
  intros Inv Hs. destruct Hs as [tbl t bt ro op s' H|tbl t bt al op s' Ht Hbt Al Hok H|t ct s' Hc H|t al s' Htid H].
  - exists g. split; [|constructor]. eapply storage_inv_reads; [|done]. by eapply read_reads.
  - destruct (write_keeps _ _ _ _ _ _ _ _ Inv Ht Hbt Al Hok H) as (g' & ? & ?). exists g'. split; [done|by eapply GraphWrite].
  - destruct (commit_ok_later _ _ _ _ Inv Hc) as [Hct L]. destruct (commit_inv _ _ _ _ t ct s g Inv Hct L) as (s1 & E & Inv1 & _).
    rewrite E in H. injection H as <-. eexists. split; [done|constructor].
  - destruct (abort_inv VPR EPR VER NT BLOCK_SIZE HVP HEP HVE HB t al Htid s g Inv) as (s1 & g' & E & Inv1 & Ab & _).
    rewrite E in H. injection H as <-. exists g'. split; [done|by econstructor].
Qed.

Lemma run_refines s0 g0 s : storage_inv s0 g0 -> rtc ds_step s0 s -> exists g, storage_inv s g /\ rtc graph_step g0 g.
Proof using HVP HEP HVE HB.
  intros H0 R. revert g0 H0. induction R as [s|s s1 s2 Hs _ IH]; intros g0 H0; [by exists g0|].
  destruct (step_refines _ _ _ H0 Hs) as (g1 & H1 & G1). destruct (IH g1 H1) as (g2 & H2 & G2). exists g2. split; [done|by econstructor].
Qed.
End Run.

(** ** The start of a worker *)

(** The containers of [DataStorage::CreateContainer]
    (layout/data_storage.cpp:78-120), before anything is loaded. *)
Definition CreateContainer (vp_store ep_store : ValueStore) : Storage :=
  mk_storage ∅ ∅ ∅ ∅ ∅ (mk_emem ∅ ∅) ∅ (mk_memory ∅ ∅ vp_store) (mk_memory ∅ ∅ ep_store) 0 ∅ ∅ [] [] [].

Lemma init_threads BLOCK_SIZE cells n memory st : store_init BLOCK_SIZE cells n memory = Some st -> threads st = n.
Proof.
  unfold store_init, Init, threads. destruct (_ <? _); [|done]. destruct (init_blocks BLOCK_SIZE n 0) as [bs h] eqn:E. cbn. intros [= <-]. cbn.
  revert bs h E. generalize 0. induction n as [|n IH]; intros k bs h E; cbn in E; [by injection E as <- _|].
  destruct (init_blocks BLOCK_SIZE n (k + BLOCK_SIZE)) as [bs' h'] eqn:E'. injection E as <- _. cbn. by rewrite (IH _ _ _ E').
Qed.

Lemma create_loading VPR EPR VER NT BLOCK_SIZE cells memory cells' memory' vs es : 1 < BLOCK_SIZE -> 0 < NT ->
  length memory = cells -> length memory' = cells' ->
  store_init BLOCK_SIZE cells NT memory = Some vs -> store_init BLOCK_SIZE cells' NT memory' = Some es ->
  loading VPR EPR VER NT (CreateContainer vs es) (mk_graph ∅ ∅ ∅ ∅).
Proof.
  intros HB HN Hm Hm' Ev Ee. split_and!; [|intros [] a c t; cbn; rewrite lookup_empty; by intros [=]|done].
  assert (forall V (h : gmap nat (Item V)), forest (V := V) ∅ h ∅ ∅) as F.
  { intros V h. split; [intros a; unfold forest_at; by rewrite !lookup_empty|]. intros a b ps qs x. by rewrite lookup_empty. }
  assert (forall st, store_inv (st, []) -> mem_ok (mk_memory ∅ ∅ st) ∅) as M.
  { intros st Hs. split; [exists ∅; apply F|]. exists ∅. split; [done|]. intros p. by rewrite !lookup_empty. }
  split; cbn; try (intros *; rewrite ?lookup_empty; done).
  - split; cbn; eauto using init_threads, store_init_inv. intros k k' a [i Hi]. destruct k; cbn in Hi; by rewrite lookup_empty in Hi.
  - intros a i e (v & x & Ex & _). cbn in Ex. by rewrite lookup_empty in Ex.
  - intros a b i j e (v & x & Ex & _). cbn in Ex. by rewrite lookup_empty in Ex.
Qed.

(** [DataStorage::Init] (layout/data_storage.cpp:32-76) from the containers on. *)
Definition DataStorage_Init {main indirect : nat} `{!TrxTableStub main indirect} (lvl : ISOLATION_LEVEL) (tbl : TrxTable) (opt_preread : bool)
    (VPR EPR VER BLOCK_SIZE : nat) (worker_size worker_rank : Z) (fresh_alloc : Storage -> Alloc)
    (shuffled_vtx : list TMPVertex) (shuffled_out_edge : list TMPOutEdge) (shuffled_in_edge : list TMPInEdge) : DS unit :=
  _ ← FillVertexContainer VPR BLOCK_SIZE worker_size worker_rank fresh_alloc shuffled_vtx;
  FillEdgeContainer lvl tbl opt_preread EPR VER BLOCK_SIZE worker_size worker_rank fresh_alloc shuffled_out_edge shuffled_in_edge.

(** ** What a transaction sees at the snapshot level *)
Section View.
Context {V : Type} `{!MVCCItem V}.
Implicit Types (ls : gmap nat MVCCList) (h : gmap nat (Item V)) (A : gmap nat (versions V)).

(** The version of the list [a] that a transaction reads, if it sees one. *)
Definition see ls h (t bt : Z) (a : nat) : option V := mjoin (l ← ls !! a; SnapshotLevelGetVisibleVersion h l t bt).
Definition seen A (t bt : Z) (a : nat) : option V := v ← A !! a; snapshot_read v t bt.

Lemma see_versions ls h A t bt a : (exists C, forest ls h C A) -> is_trx t -> is_time bt -> see ls h t bt a = seen A t bt a.
Proof.
  intros [C F] Ht Hb. unfold see, seen. destruct (A !! a) as [v|] eqn:Ea.
  - destruct (forest_abs _ _ _ _ _ _ F Ea) as (ps & l & _ & El & R). rewrite El. cbn [mbind option_bind].
    by rewrite (snapshot_read_spec _ _ _ _ t bt R Ht Hb).
  - by rewrite (proj2 (forest_None _ _ _ _ a F) Ea).
Qed.

Lemma own_change_seen t A A' a t' bt : own_change t A A' -> t' <> t -> seen A' t' bt a = seen A t' bt a.
Proof.
  intros H N. unfold seen. destruct (H a) as [->|(b & x & Hp & ->)]; [done|]. cbn. unfold snapshot_read at 1. cbn.
  rewrite (proj2 (Z.eqb_neq t t')) by done. destruct (A !! a) as [v|]; cbn in *; [|done]. unfold snapshot_read, own_pending in *.
  destruct (pending v) as [[[t0 b0] y]|]; [|done]. destruct Hp as [|Hp]; [done|]. apply Z.eqb_eq in Hp as ->. by rewrite (proj2 (Z.eqb_neq t t')).
Qed.

Lemma commit_seen_before t ct A a t' bt : t' <> t -> (bt < ct)%Z -> seen (commit_own t ct <$> A) t' bt a = seen A t' bt a.
Proof.
  intros N Hlt. unfold seen. rewrite lookup_fmap. destruct (A !! a) as [v|]; [|done]. cbn. unfold commit_own, own_pending, snapshot_read, commit_abs.
  destruct (pending v) as [[[t0 b] x]|] eqn:Hp; [|by rewrite Hp]. destruct (Z.eqb_spec t0 t) as [->|]; [|by rewrite Hp]. cbn.
  rewrite (proj2 (Z.eqb_neq t t')) by done. by apply visible_snoc.
Qed.
(** After the commit time everybody sees what the transaction saw of its own. *)
Lemma commit_seen_after ls h t ct A a t' bt : (exists C, forest ls h C A) ->
  (forall a v, A !! a = Some v -> own_pending v t = true -> Forall (fun c => c < ct)%Z (committed v).*1) -> (ct <= bt)%Z ->
  (exists v, A !! a = Some v /\ own_pending v t = true) -> seen (commit_own t ct <$> A) t' bt a = seen A t bt a.
Proof.
  intros [C F] L Hle (v & Ea & O). pose proof (L a v Ea O) as Hlt. destruct (forest_abs _ _ _ _ _ _ F Ea) as (ps & l & _ & _ & R).
  unfold seen. rewrite lookup_fmap, Ea. cbn. unfold commit_own. rewrite O. unfold own_pending in O. unfold snapshot_read, commit_abs.
  destruct (pending v) as [[[t0 b] x]|] eqn:Hp; [|done]. rewrite O. cbn. eapply (visible_newest _ ct); [|by rewrite last_snoc|done].
  rewrite fmap_app. cbn. apply StronglySorted_app_2; [|apply R|repeat constructor].
  intros c1 c2 H1 ->%list_elem_of_singleton. by eapply (proj1 (Forall_forall _ _) Hlt).
Qed.
Lemma commit_seen_other t ct A a t' bt : (forall v, A !! a = Some v -> own_pending v t = false) -> seen (commit_own t ct <$> A) t' bt a = seen A t' bt a.
Proof.
  intros H. unfold seen. rewrite lookup_fmap. destruct (A !! a) as [v|]; [|done]. cbn. unfold commit_own. by rewrite (H v).
Qed.

Lemma abort_seen t A A' a t' bt : (match A !! a with
    | Some v => A' !! a = Some (abort_own t v) \/ (A' !! a = None /\ abort_own t v = no_versions)
    | None => A' !! a = None end) -> t' <> t -> seen A' t' bt a = seen A t' bt a.
Proof.
  intros H N. unfold seen. destruct (A !! a) as [v|]; [|by rewrite H].
  assert (snapshot_read (abort_own t v) t' bt = snapshot_read v t' bt) as E.
  { unfold abort_own, own_pending, abort_abs, snapshot_read. destruct (pending v) as [[[t0 b] x]|] eqn:Hp; [|by rewrite Hp].
    destruct (Z.eqb_spec t0 t) as [->|]; [|by rewrite Hp]. cbn. by rewrite (proj2 (Z.eqb_neq t t')). }
  destruct H as [->|[-> Hn]]; cbn; [done|]. by rewrite <- E, Hn.
Qed.
End View.

(** What a transaction sees of the vertices, edges and properties. *)
Definition see_v s := see (v_lists s) (v_items s).
Definition see_e s := see (e_lists (edge_mem s)) (e_items (edge_mem s)).
Definition see_vp s := see (lists (vp_mem s)) (items (vp_mem s)).
Definition see_ep s := see (lists (ep_mem s)) (items (ep_mem s)).
Definition same_view s s' (t bt : Z) : Prop := forall a,
  see_v s' t bt a = see_v s t bt a /\ see_e s' t bt a = see_e s t bt a /\
  see_vp s' t bt a = see_vp s t bt a /\ see_ep s' t bt a = see_ep s t bt a.

Section Views.
Context (VPR EPR VER NT : nat).
Lemma view_versions s g t bt a : storage_ok VPR EPR VER NT s g -> is_trx t -> is_time bt ->
  see_v s t bt a = seen (g_v g) t bt a /\ see_e s t bt a = seen (g_e g) t bt a /\
  see_vp s t bt a = seen (g_vp g) t bt a /\ see_ep s t bt a = seen (g_ep g) t bt a.
Proof.
  intros Ok Ht Hb. destruct (so_mem _ _ _ _ _ _ Ok) as [Fv Fe [Fvp _] [Fep _] _ _ _]. split_and!; by apply see_versions.
Qed.
Lemma views_agree s s' g g' t bt : storage_ok VPR EPR VER NT s g -> storage_ok VPR EPR VER NT s' g' -> is_trx t -> is_time bt ->
  (forall a, seen (g_v g') t bt a = seen (g_v g) t bt a /\ seen (g_e g') t bt a = seen (g_e g) t bt a /\
     seen (g_vp g') t bt a = seen (g_vp g) t bt a /\ seen (g_ep g') t bt a = seen (g_ep g) t bt a) -> same_view s s' t bt.
Proof.
  intros Ok Ok' Ht Hb H a. destruct (view_versions s g t bt a Ok Ht Hb) as (-> & -> & -> & ->).
  destruct (view_versions s' g' t bt a Ok' Ht Hb) as (-> & -> & -> & ->). apply H.
Qed.
End Views.

(** The transaction has written the list [a] of kind [k]. *)
Definition wrote s (t : Z) (k : list_kind) (a : nat) : bool :=
  match process_history s !! t with
  | Some h => existsb (fun r => bool_decide (kind_of (pr_type r) = k) && bool_decide (pr_list r = a)) (process_vector h)
  | None => false
  end.
Lemma wrote_pends s g t k a : history_ok s g -> wrote s t k a = true <-> pends g t k a.
Proof.
  intros H. unfold wrote. split.
  - destruct (process_history s !! t) as [h|] eqn:Eh; [|done]. intros (r & Hr & Hk)%existsb_exists.
    apply andb_true_iff in Hk as [Hk%bool_decide_eq_true Hl%bool_decide_eq_true]. subst k a. eapply (ho_pends _ _ H); [done|]. by apply list_elem_of_In.
  - intros (h & r & -> & Hr & <- & <-)%(ho_recorded _ _ H). apply existsb_exists. exists r. split; [by apply list_elem_of_In|].
    by rewrite !bool_decide_eq_true_2.
Qed.
Lemma commit_seen {V} `{!MVCCItem V} ls h t ct (A : gmap nat (versions V)) a t' bt (w : bool) : (exists C, forest ls h C A) ->
  (forall a v, A !! a = Some v -> own_pending v t = true -> Forall (fun c => c < ct)%Z (committed v).*1) -> (ct <= bt)%Z ->
  (w = true <-> exists c, info <$> A !! a = Some (c, Some t)) ->
  seen (commit_own t ct <$> A) t' bt a = seen A (if w then t else t') bt a.
Proof.
  intros F L Hle Hw. destruct w.
  - eapply commit_seen_after; [done..|]. destruct (proj1 Hw eq_refl) as (c & (v & Ea & Hi)%fmap_Some). exists v. split; [done|].
    apply own_pending_info. by exists c.
  - apply commit_seen_other. intros v Ea. apply not_true_iff_false. intros [c Hi]%own_pending_info.
    discriminate (proj2 Hw). exists c. rewrite Ea. cbn. by rewrite Hi.
Qed.

(** ** Theorems *)
Section Theorems.
Context {main indirect : nat} `{!TrxTableStub main indirect} (lvl : ISOLATION_LEVEL).
Context (VPR EPR VER NT BLOCK_SIZE : nat) (worker_size worker_rank : Z).
Context (HVP : 0 < VPR) (HEP : 0 < EPR) (HVE : 0 < VER) (HB : 1 < BLOCK_SIZE) (HN : 0 < NT).
(** What [new] and the pools return while the graph is loaded. *)
Context (fresh_alloc : Storage -> Alloc) (Hnew : forall s, alloc_ok VPR EPR VER NT s (fresh_alloc s)).

(** A worker that has started, and the states that transactions reach. *)
Inductive started (s : Storage) : Prop :=
  | Started tbl opt cells memory cells' memory' vs es vtx out_edges in_edges :
      length memory = cells -> length memory' = cells' ->
      store_init BLOCK_SIZE cells NT memory = Some vs -> store_init BLOCK_SIZE cells' NT memory' = Some es ->
      Forall vertex_data_ok vtx -> Forall edge_data_ok out_edges ->
      DataStorage_Init lvl tbl opt VPR EPR VER BLOCK_SIZE worker_size worker_rank fresh_alloc vtx out_edges in_edges
        (CreateContainer vs es) = Some (tt, s) -> started s.
Abbreviation ds_step := (ds_step lvl VPR EPR VER NT BLOCK_SIZE worker_size worker_rank).
Definition reachable (s : Storage) : Prop := exists s0, started s0 /\ rtc ds_step s0 s.

Lemma started_loading s : started s -> exists g, loading VPR EPR VER NT s g.
Proof using All.
  intros [tbl opt cells memory cells' memory' vs es vtx oes ies Hm Hm' Ev Ee Dv De H]. unfold DataStorage_Init in H. ds_step H u s1 H1. destruct u.
  destruct (fill_vertex_container_ok lvl tbl opt VPR EPR VER NT BLOCK_SIZE worker_size worker_rank fresh_alloc HVP HEP HVE HB Hnew vtx _ _ _ Dv
    (create_loading VPR EPR VER NT _ _ _ _ _ _ _ HB HN Hm Hm' Ev Ee) H1) as (g1 & L1).
  by eapply (fill_edge_container_ok lvl tbl opt VPR EPR VER NT BLOCK_SIZE worker_size worker_rank fresh_alloc HVP HEP HVE HB Hnew).
Qed.
Lemma storage_reachable s : reachable s -> exists g, storage_inv VPR EPR VER NT s g.
Proof using All.
  intros (s0 & H0 & R). destruct (started_loading s0 H0) as (g0 & L0).
  destruct (run_refines lvl VPR EPR VER NT BLOCK_SIZE worker_size worker_rank HVP HEP HVE HB s0 g0 s (loading_inv _ _ _ _ _ _ L0) R) as (g & ? & _). by exists g.
Qed.




End Theorems.
