(* ===== verification/StorageFindings.v ===== *)
(** * Runs of the storage on concrete data

    Witnesses of the theorems of [StorageRun] on a small graph, and runs that
    show where the storage goes wrong. *)
From S2P Require Import Prelude Types TrxStatus Coordinator TrxStub MvccList CellPool ValueStore Serialization.
From S2P Require Import RowChain PropertyRows Topology Forest RowMemory DataStorage StorageInv StorageAbort.
From S2P Require Import StorageSteps Wire Loading StorageRun.
Local Open Scope nat_scope.

(** ** A worker with two vertices *)

(** Addresses that are not in use; rows of two cells. *)
Definition next_alloc (s : Storage) : Alloc :=
  let l := fresh (dom (v_lists s) ∪ dom (e_lists (edge_mem s)) ∪ dom (lists (vp_mem s)) ∪ dom (lists (ep_mem s)) : gset nat) in
  let q := fresh (dom (v_items s) ∪ dom (e_items (edge_mem s)) ∪ dom (items (vp_mem s)) ∪ dom (items (ep_mem s)) : gset nat) in
  mk_alloc l q (fresh (dom (ep_rows s) : gset nat)) (blank_row 2) (blank_row 2) (blank_edges 2) 1.
Lemma next_alloc_ok s : alloc_ok 2 2 2 2 s (next_alloc s).
Proof.
  unfold next_alloc. split; cbn [al_list al_item al_rows al_vp_row al_ep_row al_ve_row al_tid]; try done; try lia; apply not_elem_of_dom.
  all: match goal with |- (fresh ?X ∉ _) => pose proof (is_fresh X) as Hf; set_solver end.
Qed.

Definition ex_vertices : list TMPVertex :=
  [mk_tmpv (mk_vid 1) 7 [] [] [10; 11]%Z [example_value 3; example_value 12]; mk_tmpv (mk_vid 4) 7 [] [] [10]%Z [example_value 5]].
Definition ex_eid : eid_t := mk_eid 4 1.
Definition ex_edges : list TMPOutEdge := [mk_tmpoe ex_eid 9 [20]%Z [example_value 2]].

Definition ex_init : DS unit := @DataStorage_Init 2 2 (RDMATrxTableStub 0 3 2 2) SNAPSHOT example_table false 2 2 2 3 3 1 next_alloc ex_vertices ex_edges [].
Definition ex_loaded : Storage := Eval vm_compute in
  match ex_init (CreateContainer example_store example_store) with Some (_, s) => s | None => CreateContainer example_store example_store end.

Abbreviation ex_run := (@run_write 2 2 (RDMATrxTableStub 0 3 2 2) SNAPSHOT 2 2 2 3 3 1 example_table).
Definition ex_write (t : Z) (op : write_op) (s : Storage) : Storage :=
  match ex_run t 5 (next_alloc s) op s with Some (_, s') => s' | None => s end.
Definition t1 : Z := example_id 3.
Definition t2 : Z := example_id 4.

(** [t1] adds a vertex and an edge to it, and changes a property. *)
Definition ex_new_eid : eid_t := mk_eid 7 1.
Definition ex_1 : Storage := Eval vm_compute in ex_write t1 (OAddV 8) ex_loaded.
Definition ex_2 : Storage := Eval vm_compute in ex_write t1 (OAddE ex_new_eid 9 true) ex_1.
Definition ex_3 : Storage := Eval vm_compute in ex_write t1 (OModifyVP (mk_vpid 1 10) (example_value 4) value_default) ex_2.

Lemma ex_data : Forall vertex_data_ok ex_vertices /\ Forall edge_data_ok ex_edges.
Proof.
  assert (forall n, n < 100 -> storable (example_value n)) as Hs.
  { intros n Hn. unfold storable, example_value. cbn [v_content]. rewrite length_fmap, length_seq. lia. }
  split; repeat constructor; cbn [tv_vp_label_list toe_ep_label_list]; try (apply (bool_decide_unpack _); by vm_compute); apply Hs; lia.
Qed.
Lemma ex_started : @started 2 2 (RDMATrxTableStub 0 3 2 2) SNAPSHOT 2 2 2 2 3 3 1 next_alloc ex_loaded.
Proof.
  destruct ex_data. apply (Started _ _ _ _ _ _ _ _ _ ex_loaded example_table false 20 (replicate 20 (replicate 8 0%Z)) 20 (replicate 20 (replicate 8 0%Z))
    example_store example_store ex_vertices ex_edges []).
  - by vm_compute.
  - by vm_compute.
  - by vm_compute.
  - by vm_compute.
  - done.
  - done.
  - by vm_compute.
Qed.

Lemma ex_trx : is_trx t1 /\ is_trx t2 /\ t2 <> t1.
Proof. split_and!; [by split|by split|by vm_compute]. Qed.

Abbreviation ex_step := (@ds_step 2 2 (RDMATrxTableStub 0 3 2 2) SNAPSHOT 2 2 2 2 3 3 1).
Lemma ex_run_steps : rtc ex_step ex_loaded ex_3.
Proof.
  destruct ex_trx as (Ht & _). assert (is_time 5) as Hb by (by split).
  eapply (rtc_l _ _ ex_1); [|eapply (rtc_l _ _ ex_2); [|eapply (rtc_l _ _ ex_3); [|apply rtc_refl]]].
  - apply (StepWrite _ _ _ _ _ _ _ _ _ example_table t1 5 (next_alloc ex_loaded) (OAddV 8)); [done|done|apply next_alloc_ok|done|by vm_compute].
  - apply (StepWrite _ _ _ _ _ _ _ _ _ example_table t1 5 (next_alloc ex_1) (OAddE ex_new_eid 9 true)); [done|done|apply next_alloc_ok| |by vm_compute].
    intros a. by vm_compute.
  - apply (StepWrite _ _ _ _ _ _ _ _ _ example_table t1 5 (next_alloc ex_2) (OModifyVP (mk_vpid 1 10) (example_value 4) value_default));
      [done|done|apply next_alloc_ok|unfold write_ok, storable, example_value; cbn; lia|by vm_compute].
Qed.
Lemma ex_reachable : @reachable 2 2 (RDMATrxTableStub 0 3 2 2) SNAPSHOT 2 2 2 2 3 3 1 next_alloc ex_3.
Proof. exists ex_loaded. split; [apply ex_started|apply ex_run_steps]. Qed.


Definition ex_4 : Storage := Eval vm_compute in ex_write t1 (ODropE ex_eid true) ex_3.

(** [newest_before] can be computed. *)
Definition newest_check {V} (ls : gmap nat MVCCList) (h : gmap nat (Item V)) (t ct : Z) : bool :=
  forallb (fun '(_, l) => match q ← MvccList.tail_ l; i ← h !! q; p ← pre_tail_ l; j ← h !! p; Some (q, i, p, j) with
    | Some (q, i, p, j) => negb (begin_time i =? t)%Z || bool_decide (p = q) || (begin_time j <? ct)%Z
    | None => true end) (map_to_list ls).
Lemma newest_checked {V} ls (h : gmap nat (Item V)) t ct : newest_check ls h t ct = true -> newest_before ls h t ct.
Proof.
  intros H a l q i p j El Hq Hi Ht Hp N Hj. unfold newest_check in H. rewrite forallb_forall in H.
  specialize (H (a, l) ltac:(apply list_elem_of_In; by apply elem_of_map_to_list)). cbn in H. rewrite Hq in H. cbn in H. rewrite Hi in H. cbn in H.
  rewrite Hp in H. cbn in H. rewrite Hj in H. cbn in H. rewrite Ht, Z.eqb_refl in H. cbn in H.
  rewrite bool_decide_eq_false_2 in H by done. by apply Z.ltb_lt.
Qed.



(** ** Where the storage goes wrong *)

Definition ex_ep : epid_t := mk_epid 7 1 20.
(** [t1] gives its new edge a property, and drops the edge. *)
Definition ex_5 : Storage := Eval vm_compute in ex_write t1 (OModifyEP ex_ep (example_value 4) value_default) ex_2.
Definition ex_6 : Storage := Eval vm_compute in ex_write t1 (ODropE ex_new_eid true) ex_5.


(** [t1] drops the vertex that it has added, and aborts. *)
Definition ex_7 : Storage := Eval vm_compute in ex_write t1 (ODropV 7) ex_1.
Definition after_abort (s : Storage) : Storage :=
  match DataStorage.Abort 2 2 2 3 (next_alloc s) t1 s with Some (_, s') => s' | None => s end.

(** The abort of a transaction that has added a vertex recycles its rows and
    hands it to the garbage collector, but not when the transaction has dropped
    the vertex before: its rows stay for ever. *)
Theorem dropped_vertex_kept :
  gc_vids (after_abort ex_1) = [7%Z] /\ ve_row_list <$> vertex_map (after_abort ex_1) !! 7%Z = Some None /\
  is_Some (DataStorage.Abort 2 2 2 3 (next_alloc ex_7) t1 ex_7) /\
  gc_vids (after_abort ex_7) = [] /\ ve_row_list <$> vertex_map (after_abort ex_7) !! 7%Z = Some (Some (topo_init 7)).
Proof. split_and!; try (by vm_compute). by eexists; vm_compute. Qed.

(** [t1] is validating with an earlier commit time than the begin time of [t2]. *)
Definition ex_validating : TrxTable := Eval vm_compute in
  match modify_status_ct example_table t1 VALIDATING 3 with Some (_, st) => st | None => example_table end.
Definition ex_preread : DS (PROCESS_STAT * value_t) := fun s =>
  @ProcessModifyVP 2 2 (RDMATrxTableStub 0 3 2 2) SERIALIZABLE ex_validating true 2 3 t2 5 (next_alloc s) (mk_vpid 7 10) (example_value 4) value_default s.
Definition ex_10 : Storage := Eval vm_compute in match ex_preread ex_1 with Some (_, s) => s | None => ex_1 end.
Definition ex_11 : Storage := Eval vm_compute in after_abort ex_10.

(** With pre-reads, a transaction can give a property to a vertex that a
    validating transaction has added; when the latter aborts, the property goes
    with the rows of the vertex, and the former, which has to abort because it
    depends on it, no longer can. *)
Theorem preread_dangles :
  (exists old, ex_preread ex_1 = Some (PS_SUCCESS, old, ex_10)) /\
  homo_trx_list <$> dep_map ex_10 !! t2 = Some {[t1]} /\
  DataStorage.Abort 2 2 2 3 (next_alloc ex_10) t1 ex_10 = Some (tt, ex_11) /\
  DataStorage.Abort 2 2 2 3 (next_alloc ex_11) t2 ex_11 = None.
Proof. split_and!; try (by vm_compute). by eexists; vm_compute. Qed.
