(* ===== verification/IndexTopo.v ===== *)
(** * Topology index: reads and merges

    The vertices that the index stands for at a time are given by its data and by
    the updates of the transactions that committed before.  A read returns these
    vertices, and the garbage collection keeps them unless it merges the
    addition and the deletion of a vertex in one round. *)
From S2P Require Import Prelude MyMath Types Serialization Wire ToolValue Predicate TrxStatus RunningTrx Coordinator Rct InputSet TrxStub.
From S2P Require Import MvccList PropertyRows Topology DataStorage StorageInv StorageFindings IndexStore.
Local Open Scope Z_scope.

(** ** Contents *)

Local Abbreviation table := (gmap Z (TRX_STAT * Z)).
(** The update belongs to a transaction that committed before a time. *)
Definition seen (t : table) (b : Z) (u : update_element) : Prop :=
  fst <$> t !! up_trx u = Some COMMITTED /\ up_ct u <> 0 /\ up_ct u < b.
Definition updates (us : list update_element) (t : table) (b : Z) (add : bool) (v : Z) : Prop :=
  exists u, u ∈ us /\ up_isAdd u = add /\ vid_word (up_id u) = v /\ seen t b u.
(** The vertices that the index stands for at a time. *)
Definition holds (data : list Z) (us : list update_element) (t : table) (b v : Z) : Prop :=
  (v ∈ data \/ updates us t b true v) /\ ~ updates us t b false v.
Definition contents (o : index_store) (b v : Z) : Prop :=
  holds (topo_vtx_data o) (vtx_update_list o) (trx_status_and_count_table o) b v.

#[global] Instance seen_dec t b u : Decision (seen t b u).
Proof. unfold seen. apply _. Defined.
#[global] Instance updates_dec us t b a v : Decision (updates us t b a v).
Proof. unfold updates. apply list_exist_dec. apply _. Defined.
#[global] Instance contents_dec o b v : Decision (contents o b v).
Proof. unfold contents, holds. apply _. Defined.

(** The updates of a transaction. *)
Definition of_trx (k : Z) (us : list update_element) : nat := length (filter (fun u => up_trx u = k) us).
(** Every transaction with updates has an entry, that counts them. *)
Definition counted (us : list update_element) (more : Z -> nat) (t : table) : Prop :=
  forall k, match t !! k with Some (_, n) => Z.of_nat (of_trx k us + more k) <= n | None => (of_trx k us + more k)%nat = 0%nat end.
Definition counts_ok (o : index_store) : Prop :=
  counted (vtx_update_list o ++ edge_update_list o) (fun _ => 0%nat) (trx_status_and_count_table o).
(** A deletion that is merged has no addition that is seen beside it. *)
Definition separate (threshold : Z) (us : list update_element) (t : table) (b : Z) : Prop :=
  forall u d, u ∈ us -> d ∈ us -> up_isAdd u = true -> up_isAdd d = false -> vid_word (up_id u) = vid_word (up_id d) ->
  mergable threshold d = true -> seen t b d -> ~ seen t b u.

(** ** Buffers *)

Lemma of_trx_app k a b : of_trx k (a ++ b) = (of_trx k a + of_trx k b)%nat.
Proof. unfold of_trx. by rewrite filter_app, length_app. Qed.
Lemma of_trx_cons k u us : of_trx k (u :: us) = ((if decide (up_trx u = k) then 1 else 0) + of_trx k us)%nat.
Proof. unfold of_trx. rewrite filter_cons. by case_decide. Qed.
Lemma iter_count_other n k t j : j <> k -> Nat.iter n (count_update k) t !! j = t !! j.
Proof.
  intros Hj. induction n as [|n IH]; [done|].
  change (Nat.iter (S n) (count_update k) t) with (count_update k (Nat.iter n (count_update k) t)).
  unfold count_update at 1. by rewrite lookup_insert_ne.
Qed.
Lemma iter_count n k t :
  Nat.iter (S n) (count_update k) t !! k =
    Some match t !! k with None => (VALIDATING, Z.of_nat (S n)) | Some (s, m) => (s, m + Z.of_nat (S n)) end.
Proof.
  induction n as [|n IH].
  { cbn. unfold count_update. rewrite lookup_insert_eq. by destruct (t !! k) as [[]|]. }
  change (Nat.iter (S (S n)) (count_update k) t) with (count_update k (Nat.iter (S n) (count_update k) t)).
  unfold count_update at 1. rewrite IH, lookup_insert_eq. destruct (t !! k) as [[s m]|]; do 2 f_equal; lia.
Qed.
Lemma of_trx_set_ct k ct us : of_trx k (set_ct ct <$> us) = of_trx k us.
Proof. induction us as [|u us IH]; [done|]. rewrite fmap_cons, !of_trx_cons, IH. done. Qed.
Lemma of_trx_own k t us : Forall (fun u => up_trx u = t) us -> of_trx k us = if decide (t = k) then length us else 0%nat.
Proof.
  induction 1 as [|u us Hu _ IH]; [by case_decide|]. rewrite of_trx_cons, IH, Hu. by case_decide.
Qed.

(** Moving the buffer of a transaction into the regions keeps the counts. *)
Lemma move_topo_counts o trx ct :
  Forall (fun u => up_trx u = trx) (default [] (vtx_update_buffers o !! trx)) ->
  Forall (fun u => up_trx u = trx) (default [] (edge_update_buffers o !! trx)) ->
  counts_ok o -> counts_ok (MoveTopoBufferToRegion o trx ct).
Proof.
  intros Hv He Ho k. unfold MoveTopoBufferToRegion. cbn [set_buffers set_regions vtx_update_list edge_update_list trx_status_and_count_table]. set (bv := default [] (vtx_update_buffers o !! trx)) in *. set (be := default [] (edge_update_buffers o !! trx)) in *.
  specialize (Ho k). rewrite !of_trx_app, !of_trx_set_ct in *. rewrite (of_trx_own k _ _ Hv), (of_trx_own k _ _ He).
  destruct (decide (trx = k)) as [<- | Hk].
  2: { rewrite iter_count_other by done. by rewrite !Nat.add_0_r in *. }
  destruct (length bv + length be)%nat as [|n] eqn:E; [|rewrite iter_count];
    cbn [Nat.iter nat_rect]; destruct (trx_status_and_count_table o !! trx) as [[s m]|]; lia.
Qed.

Lemma update_status_counts o trx s : counts_ok o -> counts_ok (UpdateTrxStatus o trx s).
Proof.
  intros Ho k. specialize (Ho k). unfold UpdateTrxStatus. cbn [set_regions vtx_update_list edge_update_list trx_status_and_count_table].
  destruct (decide (trx = k)) as [<- | Hk]; [|by rewrite lookup_alter_ne].
  rewrite lookup_alter_eq. by destruct (trx_status_and_count_table o !! trx) as [[]|].
Qed.

(** ** Garbage collection *)

(** What the loop of the vertices does with a transaction whose count is kept. *)
Lemma uncount_keeps k s n t more us j u :
  up_trx u = k -> t !! k = Some (s, n) -> counted (u :: us) more t ->
  counted us more (uncount k s n t) /\ ((0 < of_trx j us + more j)%nat -> fst <$> uncount k s n t !! j = fst <$> t !! j).
Proof.
  intros Hu Hk Hc. unfold uncount. assert (forall j, of_trx j (u :: us) = ((if decide (k = j) then 1 else 0) + of_trx j us)%nat) as Hn.
  { intros i. by rewrite of_trx_cons, Hu. }
  pose proof (Hc k) as H. rewrite Hk, Hn, decide_True in H by done. split.
  - intros i. specialize (Hc i). rewrite Hn in Hc. destruct (Z.eqb_spec (n - 1) 0); destruct (decide (k = i)) as [<- | Hi].
    + rewrite lookup_delete_eq. lia.
    + by rewrite lookup_delete_ne.
    + rewrite lookup_insert_eq. lia.
    + by rewrite lookup_insert_ne.
  - intros Hp. destruct (Z.eqb_spec (n - 1) 0); destruct (decide (k = j)) as [<- | Hi].
    + lia.
    + by rewrite lookup_delete_ne.
    + by rewrite lookup_insert_eq, Hk.
    + by rewrite lookup_insert_ne.
Qed.

Definition final (t : table) (u : update_element) : Prop :=
  fst <$> t !! up_trx u = Some COMMITTED \/ fst <$> t !! up_trx u = Some ABORT.
Definition merged (threshold : Z) (t : table) (us : list update_element) (add : bool) (v : Z) : Prop :=
  exists u, u ∈ us /\ up_isAdd u = add /\ vid_word (up_id u) = v /\ mergable threshold u = true /\ fst <$> t !! up_trx u = Some COMMITTED.
Definition stays (threshold : Z) (t : table) (u : update_element) : Prop := mergable threshold u = false \/ ~ final t u.
(** What the loop returns. *)
Definition loop_ok (threshold : Z) (us : list update_element) (more : Z -> nat) (t : table) (r : list Z * list Z * list update_element * table) : Prop :=
  let '(add, del, stay, t') := r in
  (forall v, v ∈ add <-> merged threshold t us true v) /\ (forall v, v ∈ del <-> merged threshold t us false v) /\
  (forall u, u ∈ stay <-> u ∈ us /\ stays threshold t u) /\
  counted stay more t' /\ (forall j, (0 < of_trx j stay + more j)%nat -> fst <$> t' !! j = fst <$> t !! j).

Lemma of_trx_in u us : u ∈ us -> (0 < of_trx (up_trx u) us)%nat.
Proof.
  induction us as [|w us IH]; [by intros ?%not_elem_of_nil|]. rewrite of_trx_cons. intros [-> | H]%elem_of_cons; [rewrite decide_True by done; lia|].
  apply IH in H. lia.
Qed.
Lemma merged_cons th t t1 u us add v :
  (forall w, w ∈ us -> fst <$> t1 !! up_trx w = fst <$> t !! up_trx w) ->
  merged th t (u :: us) add v <->
    (up_isAdd u = add /\ vid_word (up_id u) = v /\ mergable th u = true /\ fst <$> t !! up_trx u = Some COMMITTED) \/ merged th t1 us add v.
Proof.
  intros Ht. unfold merged. setoid_rewrite elem_of_cons. split.
  - intros (w & [-> | Hw] & H); [by left|]. right. exists w. by rewrite (Ht w Hw).
  - intros [H | (w & Hw & H)]; [exists u; auto|]. exists w. rewrite (Ht w Hw) in H. auto.
Qed.
Lemma loop_stay th u us more t add del stay t' :
  stays th t u -> counted (u :: us) more t ->
  (counted us (fun k => of_trx k [u] + more k)%nat t -> loop_ok th us (fun k => of_trx k [u] + more k)%nat t (add, del, stay, t')) ->
  loop_ok th (u :: us) more t (add, del, u :: stay, t').
Proof.
  intros Hs Hc IH. destruct IH as (Ha & Hd & Hst & Hc' & Ht').
  { intros k. specialize (Hc k). cbn beta. rewrite of_trx_cons in *. change (of_trx k []) with 0%nat. destruct (t !! k) as [[]|]; lia. }
  assert (forall a v, merged th t (u :: us) a v <-> merged th t us a v) as Hm.
  { intros a v. rewrite (merged_cons th t t) by done. split; [|by right]. intros [(_ & _ & Hm & Hf)|]; [|done]. destruct Hs as [Hs|Hs]; [congruence|].
    destruct Hs. by left. }
  split_and!; try (intros; rewrite Hm; auto).
  - intros w. rewrite !elem_of_cons, Hst. naive_solver.
  - intros k. specialize (Hc' k). cbn beta in Hc'. rewrite of_trx_cons in *. change (of_trx k []) with 0%nat in Hc'. destruct (t' !! k) as [[]|]; lia.
  - intros j Hj. apply Ht'. rewrite of_trx_cons in *. change (of_trx j []) with 0%nat. lia.
Qed.
Lemma loop_leave th u us more t s n r :
  mergable th u = true -> t !! up_trx u = Some (s, n) -> s = COMMITTED \/ s = ABORT -> counted (u :: us) more t ->
  (counted us more (uncount (up_trx u) s n t) -> loop_ok th us more (uncount (up_trx u) s n t) r) ->
  let '(add, del, stay, t') := r in
  loop_ok th (u :: us) more t
    (if decide (s = COMMITTED) then if up_isAdd u then (vid_word (up_id u) :: add, del, stay, t') else (add, vid_word (up_id u) :: del, stay, t') else r).
Proof.
  intros Hm Hu Hs Hc IH. destruct r as [[[add del] stay] t'].
  destruct (uncount_keeps (up_trx u) s n t more us (up_trx u) u eq_refl Hu Hc) as [Hc1 _].
  destruct (IH Hc1) as (Ha & Hd & Hst & Hc' & Ht'). clear IH.
  assert (forall j, (0 < of_trx j us + more j)%nat -> fst <$> uncount (up_trx u) s n t !! j = fst <$> t !! j) as Hk.
  { intros j. by apply (uncount_keeps _ s n t more us j u). }
  assert (forall w, w ∈ us -> fst <$> uncount (up_trx u) s n t !! up_trx w = fst <$> t !! up_trx w) as Hw.
  { intros w ?%of_trx_in. apply Hk. lia. }
  pose proof (fun a v => merged_cons th t _ u us a v Hw) as Hmc. rewrite Hu in Hmc.
  assert (forall w, w ∈ stay <-> w ∈ u :: us /\ stays th t w) as Hst'.
  { intros w. rewrite Hst, elem_of_cons. unfold stays, final. split.
    - intros [Hi Hn]. rewrite (Hw w Hi) in Hn. auto.
    - intros [[-> | Hi] Hn]; [|by rewrite (Hw w Hi)]. rewrite Hu in Hn. cbn in Hn. destruct Hs as [-> | ->], Hn as [Hn|Hn]; try congruence; destruct Hn; auto. }
  assert (forall j, (0 < of_trx j stay + more j)%nat -> fst <$> t' !! j = fst <$> t !! j) as Ht2.
  { intros j Hj. rewrite Ht', Hk; [done| |done]. destruct (decide (0 < more j)%nat); [lia|]. destruct stay as [|w l] eqn:El; [cbn in Hj; lia|].
    assert (exists w, w ∈ stay /\ up_trx w = j) as (x & Hx & <-).
    { rewrite El. unfold of_trx in Hj. destruct (filter (fun u => up_trx u = j) (w :: l)) as [|x lx] eqn:Ef; [cbn in Hj; lia|].
      exists x. assert (x ∈ filter (fun u => up_trx u = j) (w :: l)) as Hx by (rewrite Ef; left). apply list_elem_of_filter in Hx. tauto. }
    rewrite El in Hx. apply Hst in Hx as [Hx _]. apply of_trx_in in Hx. lia. }
  destruct Hs as [-> | ->]; [rewrite decide_True by done; destruct (up_isAdd u) eqn:Ei|rewrite decide_False by done];
    (split; [|split; [|split; [exact Hst'|split; [exact Hc'|exact Ht2]]]]); intros v; rewrite ?elem_of_cons, ?Hmc, ?Ha, ?Hd, ?Hm, ?Ei; cbn [fmap option_fmap option_map fst]; intuition congruence.
Qed.

Lemma vtx_gc_loop_ok th us more t : counted us more t -> loop_ok th us more t (vtx_gc_loop th us t).
Proof.
  revert more t. induction us as [|u us IH]; intros more t Hc.
  { cbn. unfold merged. split_and!; try done; intros ?; rewrite elem_of_nil; (split; [done|]); [intros (? & []%not_elem_of_nil & _)..|by intros [[] _]]. }
  cbn [vtx_gc_loop]. pose proof (Hc (up_trx u)) as Hu. pose proof (of_trx_in u (u :: us) ltac:(left)) as Hp.
  destruct (mergable th u) eqn:Em.
  - destruct (t !! up_trx u) as [[s n]|] eqn:Et; [|lia].
    assert (stays th t u -> loop_ok th (u :: us) more t
      (let '(add, del, stay, t) := vtx_gc_loop th us (if n =? 0 then delete (up_trx u) t else t) in (add, del, u :: stay, t))) as Hstay.
    { intros Hs. destruct (Z.eqb_spec n 0); [lia|]. destruct (vtx_gc_loop th us t) as [[[add del] stay] t'] eqn:E.
      apply loop_stay; [done|done|]. intros Hc1. rewrite <- E. by apply IH. }
    assert (s = COMMITTED \/ s = ABORT -> let '(add, del, stay, t') := vtx_gc_loop th us (uncount (up_trx u) s n t) in
      loop_ok th (u :: us) more t
        (if decide (s = COMMITTED) then if up_isAdd u then (vid_word (up_id u) :: add, del, stay, t') else (add, vid_word (up_id u) :: del, stay, t')
         else (add, del, stay, t'))) as Hleave.
    { intros Hs. pose proof (loop_leave th u us more t s n (vtx_gc_loop th us (uncount (up_trx u) s n t)) Em Et Hs Hc (IH more _)) as H.
      by destruct (vtx_gc_loop th us (uncount (up_trx u) s n t)) as [[[add del] stay] t']. }
    destruct s; try (apply Hstay; right; intros [H|H]; rewrite Et in H; discriminate H);
      specialize (Hleave ltac:(auto)); clear Hstay; revert Hleave; destruct (vtx_gc_loop th us _) as [[[add del] stay] t'];
      by case_decide.
  - destruct (vtx_gc_loop th us t) as [[[add del] stay] t'] eqn:E. apply loop_stay; [by left|done|]. intros Hc1. rewrite <- E. by apply IH.
Qed.

Lemma counts_vtx o : counts_ok o -> counted (vtx_update_list o) (fun k => of_trx k (edge_update_list o)) (trx_status_and_count_table o).
Proof.
  intros Hc k. specialize (Hc k). rewrite of_trx_app in Hc. destruct (trx_status_and_count_table o !! k) as [[]|]; lia.
Qed.
(** Merging keeps the contents at every time from the threshold on, and the counts. *)
Lemma vtx_gc_contents th o b :
  counts_ok o -> th <= b -> separate th (vtx_update_list o) (trx_status_and_count_table o) b ->
  counts_ok (VtxSelfGarbageCollect th o) /\ (forall v, contents (VtxSelfGarbageCollect th o) b v <-> contents o b v).
Proof.
  intros Hc Hb Hs. unfold contents, VtxSelfGarbageCollect.
  set (us := vtx_update_list o) in *. set (t := trx_status_and_count_table o) in *.
  pose proof (vtx_gc_loop_ok th us _ t (counts_vtx o Hc)) as H. destruct (vtx_gc_loop th us t) as [[[add del] stay] t'].
  destruct H as (Ha & Hd & Hst & Hc' & Ht). cbn [set_topo_v topo_vtx_data vtx_update_list trx_status_and_count_table]. split.
  { intros k. cbn [set_topo_v vtx_update_list edge_update_list trx_status_and_count_table]. specialize (Hc' k). rewrite of_trx_app.
    destruct (t' !! k) as [[]|]; lia. }
  assert (forall u, u ∈ stay -> seen t' b u <-> seen t b u) as Hseen.
  { intros u Hu. unfold seen. rewrite Ht; [done|]. apply of_trx_in in Hu. lia. }
  assert (forall a v, updates us t b a v <-> merged th t us a v \/ updates stay t' b a v) as Hup.
  { intros a v. split.
    - intros (u & Hu & Hau & Hv & Hsu). destruct (decide (mergable th u = true)) as [Hm|Hm]; [left; exists u; destruct Hsu; auto|].
      right. assert (u ∈ stay) by (apply Hst; split; [done|left; by destruct (mergable th u)]). exists u. by rewrite Hseen.
    - intros [(u & Hu & Hau & Hv & Hm & Hst1)|(u & Hu & Hau & Hv & Hsu)].
      + exists u. unfold mergable in Hm. repeat (split; [done|]). lia.
      + exists u. rewrite Hseen in Hsu by done. apply Hst in Hu as [Hu _]. auto. }
  intros v. unfold holds. rewrite elem_of_app, list_elem_of_filter, Ha, Hd, !Hup.
  destruct (decide (v ∈ del)) as [Hx|Hx]; [|rewrite Hd in Hx; tauto]. apply Hd in Hx. split; [|tauto].
  intros [Hin Hn]. exfalso. destruct Hx as (d & Hdi & Hda & Hdv & Hdm & Hdc).
  assert (updates us t b true v) as (u & Hu & Hua & Huv & Hus).
  { apply Hup. destruct Hin as [[[Hz _]|Hm]|Hm]; [|by left|by right]. destruct Hz. by exists d. }
  apply (Hs u d); try done; [congruence|]. split; [done|]. unfold mergable in Hdm. lia.
Qed.

Lemma vtx_gc_sub th o u : counts_ok o -> u ∈ vtx_update_list (VtxSelfGarbageCollect th o) -> u ∈ vtx_update_list o.
Proof.
  intros Hc. unfold VtxSelfGarbageCollect. pose proof (vtx_gc_loop_ok th (vtx_update_list o) _ _ (counts_vtx o Hc)) as H.
  destruct (vtx_gc_loop _ _ _) as [[[add del] stay] t']. destruct H as (_ & _ & Hst & _). intros Hu. by apply Hst in Hu as [Hu _].
Qed.

(** When a round of the garbage collection merges the addition and the deletion
    of a vertex, by transactions that have both committed, the deleted vertex is
    among the data of the index from then on, though no reader after the threshold
    could see it before. *)
Theorem merged_vertex_returns th o v b :
  counts_ok o -> th <= b -> merged th (trx_status_and_count_table o) (vtx_update_list o) true v ->
  merged th (trx_status_and_count_table o) (vtx_update_list o) false v ->
  ~ contents o b v /\ v ∈ topo_vtx_data (VtxSelfGarbageCollect th o).
Proof.
  intros Hc Hb Ha Hd. split.
  - intros [_ Hn]. apply Hn. destruct Hd as (d & Hdi & Hda & Hdv & Hdm & Hdc). exists d. unfold mergable in Hdm. repeat (split; [done|]). lia.
  - unfold VtxSelfGarbageCollect. pose proof (vtx_gc_loop_ok th (vtx_update_list o) _ _ (counts_vtx o Hc)) as H.
    destruct (vtx_gc_loop _ _ _) as [[[add del] stay] t']. destruct H as (Hadd & _). apply elem_of_app. right. by apply Hadd.
Qed.

(** ** Reads *)

Section Reads.
Context {main indirect : nat} `{!TrxTableStub main indirect}.
Context (lvl : ISOLATION_LEVEL) (tbl : TrxTable) (opt_preread : bool) (trx_id begin : Z) (read_only : bool).
Local Abbreviation check := (check_vid lvl tbl opt_preread trx_id begin read_only).
Local Abbreviation read := (ReadVtxTopoIndex lvl tbl opt_preread trx_id begin read_only).

(** The storage answers the visibility of every vertex that was updated with
    [vis], in every state of [R]. *)
Definition answers (R : Storage -> Prop) (vis : Z -> bool) (us : list update_element) : Prop :=
  forall u s, u ∈ us -> R s -> exists s', check (up_id u) s = Some (vis (vid_word (up_id u)), s') /\ R s'.
Lemma exists_cons {A} (P : A -> Prop) x l : (exists y, y ∈ x :: l /\ P y) <-> P x \/ exists y, y ∈ l /\ P y.
Proof.
  setoid_rewrite elem_of_cons. split; [intros (y & [-> | H] & Hy); eauto|]. intros [H | (y & H & Hy)]; eauto.
Qed.
Lemma scan_updates_spec R vis us s :
  answers R vis us -> R s -> Forall (fun u => up_id u <> 0) us ->
  exists add del s', scan_updates check us s = Some (add, del, s') /\ R s' /\
    (forall v, v ∈ vid_word <$> add <-> exists u, u ∈ us /\ up_isAdd u = true /\ vid_word (up_id u) = v /\ vis v = true) /\
    (forall v, v ∈ vid_word <$> del <-> exists u, u ∈ us /\ up_isAdd u = false /\ vid_word (up_id u) = v /\ vis v = false).
Proof.
  revert s. induction us as [|u us IH]; intros s Hc Hs Hz.
  { exists [], [], s. split_and!; try done; intros v; rewrite fmap_nil, elem_of_nil; (split; [done|]); by intros (? & []%not_elem_of_nil & _). }
  apply Forall_cons in Hz as [Hz1 Hz]. destruct (Hc u s) as (s1 & E1 & Hs1); [left|done|].
  destruct (IH s1) as (add & del & s2 & E2 & Hs2 & Ha & Hd); [intros w s' Hw; apply Hc; by right|done|done|].
  cbn [scan_updates]. rewrite (proj2 (Z.eqb_neq _ _) Hz1), (run_step _ _ _ _ _ E1), (run_step _ _ _ _ _ E2). unfold mret, DS_ret.
  destruct (vis (vid_word (up_id u))) eqn:Ev, (up_isAdd u) eqn:Ei; eexists _, _, s2; (split; [done|]); (split; [done|]);
    (split; intros v; rewrite exists_cons, ?fmap_cons, ?elem_of_cons, ?Ha, ?Hd, ?Ei; clear Ha Hd; intuition congruence).
Qed.

(** The ids that the transaction has buffered. *)
Definition buffered (o : index_store) : list Z := vid_word ∘ up_id <$> default [] (vtx_update_buffers o !! trx_id).
Definition visible_in (o : index_store) (v : Z) : bool := bool_decide (contents o begin v).

Lemma read_contents R o s :
  answers R (visible_in o) (vtx_update_list o) -> R s -> Forall (fun u => up_id u <> 0) (vtx_update_list o) ->
  exists l s', read o s = Some (l, s') /\ R s' /\ (forall v, v ∈ l <-> contents o begin v \/ v ∈ buffered o).
Proof.
  intros Hc Hs Hz. destruct (scan_updates_spec R _ _ s Hc Hs Hz) as (add & del & s1 & E & Hs1 & Ha & Hd).
  unfold ReadVtxTopoIndex. rewrite (run_step _ _ _ _ _ E). unfold mret, DS_ret. eexists _, _. split; [done|]. split; [done|].
  intros v. unfold merge_vertices. rewrite !elem_of_app, list_elem_of_filter, Ha, Hd. unfold visible_in.
  setoid_rewrite bool_decide_eq_true. setoid_rewrite bool_decide_eq_false. fold (buffered o). split.
  - intros [[Hn Hv]|[(u & _ & _ & _ & H)|H]]; [|by left|by right]. left. split; [by left|]. intros (u & Hu & Hau & Hvu & Hsu). apply Hn. exists u.
    split_and!; try done. intros [_ Hx]. apply Hx. by exists u.
  - intros [H|H]; [|by right; right]. destruct (proj1 H) as [Hv | (u & Hu & Hau & Hvu & _)].
    + left. split; [|done]. by intros (u & _ & _ & _ & Hx).
    + right. left. by exists u.
Qed.

End Reads.

(** ** Example *)

(** A transaction adds or deletes vertices, moves its updates and ends. *)
Definition ex_update (trx ct : Z) (ids : list Z) (add : bool) (st : TRX_STAT) (o : index_store) : index_store :=
  match InsertToUpdateBuffer o trx ids VID add None None with
  | Some o => UpdateTrxStatus (MoveTopoBufferToRegion o trx ct) trx st
  | None => o
  end.
Lemma ex_update_counts trx ct ids add st o :
  vtx_update_buffers o !! trx = None -> edge_update_buffers o !! trx = None -> counts_ok o -> counts_ok (ex_update trx ct ids add st o).
Proof.
  intros Hv He Ho. unfold ex_update, InsertToUpdateBuffer. cbn [mbind option_bind]. apply update_status_counts, move_topo_counts; [| |done].
  - cbn [set_buffers vtx_update_buffers]. unfold append_to_buffer. rewrite lookup_insert_eq, Hv. cbn [default from_option id app].
    induction ids; cbn; [constructor|by constructor].
  - cbn [set_buffers edge_update_buffers]. by rewrite He.
Qed.
(** Vertices 1 and 9 from the start; 4 is added and 9 deleted; 7 is being added. *)
Definition ex_index_0 : index_store := set_topo_v no_index [1; 9] [] ∅.
Definition ex_index : index_store :=
  ex_update t1 5 [7] true VALIDATING (ex_update 17 4 [9] false COMMITTED (ex_update 16 3 [4] true COMMITTED ex_index_0)).
Lemma ex_index_counts : counts_ok ex_index.
Proof. repeat (apply ex_update_counts; [by vm_compute|by vm_compute|]). intros k. cbn. by rewrite lookup_empty. Qed.
Lemma ex_index_updates : vtx_update_list ex_index =
  [mk_up 4 true 16 3 value_default UP_NONE; mk_up 9 false 17 4 value_default UP_NONE; mk_up 7 true t1 5 value_default UP_NONE].
Proof. by vm_compute. Qed.
Lemma ex_index_separate : separate 5 (vtx_update_list ex_index) (trx_status_and_count_table ex_index) 6.
Proof.
  rewrite ex_index_updates. intros u d Hu Hd Hua Hda Huv. rewrite !elem_of_cons, elem_of_nil in Hu, Hd.
  destruct Hu as [-> | [-> | [-> | []]]]; try discriminate Hua;
    destruct Hd as [-> | [-> | [-> | []]]]; try discriminate Hda; by vm_compute in Huv.
Qed.
Lemma ex_index_answers :
  @answers 2 2 (RDMATrxTableStub 0 3 2 2) SNAPSHOT example_table false t2 6 true (fun s => s = ex_loaded) (visible_in 6 ex_index) (vtx_update_list ex_index).
Proof.
  rewrite ex_index_updates. intros u s Hu ->. exists ex_loaded. split; [|done]. revert u Hu. apply Forall_forall. repeat constructor; by vm_compute.
Qed.
Lemma ex_index_visible : contents ex_index 6 4 /\ ~ contents ex_index 6 9 /\ buffered t2 ex_index = [].
Proof.
  split; [apply (bool_decide_eq_true_1 (contents ex_index 6 4)); by vm_compute|].
  split; [apply (bool_decide_eq_false_1 (contents ex_index 6 9)); by vm_compute|by vm_compute].
Qed.
Definition ex_index_both : index_store := ex_update 17 4 [4] false COMMITTED (ex_update 16 3 [4] true COMMITTED ex_index_0).
Lemma merged_vertex_returns_witness : ~ contents ex_index_both 6 4 /\ 4 ∈ topo_vtx_data (VtxSelfGarbageCollect 5 ex_index_both).
Proof.
  apply (merged_vertex_returns 5 ex_index_both 4 6); [|lia| |].
  - repeat (apply ex_update_counts; [by vm_compute|by vm_compute|]). intros k. cbn. by rewrite lookup_empty.
  - exists (mk_up 4 true 16 3 value_default UP_NONE). split_and!; try (by vm_compute). left.
  - exists (mk_up 4 false 17 4 value_default UP_NONE). split_and!; try (by vm_compute). right; left.
Defined.
