(* ===== verification/Experts.v ===== *)
(** * expert: the experts that read the graph or transform data

    An expert takes a message, works on its data with the graph storage, and
    sends messages to the next step, or a message that aborts the transaction.
    Data are pairs of a history and values.  The state of a worker that the
    experts share is a record; an expert is a function on it that may fail: a
    failed check, an access out of range, the use of an unset variable, or an
    exit of the process. *)
From S2P Require Import Prelude MyMath Types Serialization Wire ToolValue Predicate ExecPlan.
From S2P Require Import TrxStatus RunningTrx Coordinator Rct InputSet TrxStub MvccList PropertyRows Topology.
From S2P Require Import Affinity Routing Barrier DataStorage BarrierExperts IndexStore.
From Stdlib Require String Ascii.
Import String.StringSyntax.
Local Open Scope string_scope.
Local Open Scope Z_scope.
Local Open Scope word_scope.

(** ** The state of a worker *)

(** [ReadWriteRecord] (utils/global.hpp:40-55). *)
Record ReadWriteRecord := mk_rw { rw_trx : Z; rw_size : Z; rw_read : bool }.
Record node := mk_node {
  n_store : Storage; n_index : index_store; n_sets : EXPERT_T -> input_sets; n_pmt : pmt_table;
  n_agg : agg_table; n_rw : list ReadWriteRecord; n_enabled : Element_T -> gset Z; n_aff : affinity; n_sent : list Message }.
Definition set_store (x : Storage) (n : node) : node :=
  mk_node x (n_index n) (n_sets n) (n_pmt n) (n_agg n) (n_rw n) (n_enabled n) (n_aff n) (n_sent n).
Definition set_index (x : index_store) (n : node) : node :=
  mk_node (n_store n) x (n_sets n) (n_pmt n) (n_agg n) (n_rw n) (n_enabled n) (n_aff n) (n_sent n).
Definition set_sets (e : EXPERT_T) (x : input_sets) (n : node) : node :=
  mk_node (n_store n) (n_index n) (fun e' => if decide (e' = e) then x else n_sets n e') (n_pmt n) (n_agg n) (n_rw n) (n_enabled n) (n_aff n) (n_sent n).
Definition set_pmt (x : pmt_table) (n : node) : node :=
  mk_node (n_store n) (n_index n) (n_sets n) x (n_agg n) (n_rw n) (n_enabled n) (n_aff n) (n_sent n).
Definition set_agg (x : agg_table) (n : node) : node :=
  mk_node (n_store n) (n_index n) (n_sets n) (n_pmt n) x (n_rw n) (n_enabled n) (n_aff n) (n_sent n).
Definition set_enabled (x : Element_T -> gset Z) (n : node) : node :=
  mk_node (n_store n) (n_index n) (n_sets n) (n_pmt n) (n_agg n) (n_rw n) x (n_aff n) (n_sent n).
(** [PushToRWRecord] (utils/global.cpp:19-24). *)
Definition PushToRWRecord (trx size : Z) (is_read : bool) (n : node) : node :=
  mk_node (n_store n) (n_index n) (n_sets n) (n_pmt n) (n_agg n) (n_rw n ++ [mk_rw trx size is_read]) (n_enabled n) (n_aff n) (n_sent n).
Definition send_all (a : affinity) (msgs : list Message) (n : node) : node :=
  mk_node (n_store n) (n_index n) (n_sets n) (n_pmt n) (n_agg n) (n_rw n) (n_enabled n) a (n_sent n ++ msgs).

(** An expert changes the state of its worker. *)
Definition EX (A : Type) : Type := node -> option (A * node).
#[global] Instance EX_ret : MRet EX := fun A x n => Some (x, n).
#[global] Instance EX_bind : MBind EX := fun A B f m n => '(x, n') ← m n; f x n'.
Definition attempt {A} (o : option A) : EX A := fun n => x ← o; Some (x, n).
Definition on_node (f : node -> node) : EX unit := fun n => Some (tt, f n).
Definition node_now : EX node := fun n => Some (n, n).
Definition on_store {A} (m : DS A) : EX A := fun n => '(x, s) ← m (n_store n); Some (x, set_store s n).

(** The names of labels and properties ([string_index] of the storage), without
    an entry the name stays empty: [DataStorage::GetNameFromIndex]
    (layout/data_storage.cpp:835-869). *)
Inductive Index_T := E_LABEL_NAME | E_PROPERTY_NAME | V_LABEL_NAME | V_PROPERTY_NAME.
Definition name_table : Type := Index_T -> gmap Z (list Z).
Definition GetNameFromIndex (names : name_table) (type : Index_T) (id : Z) : list Z := default [] (names type !! id).

(** ** Loops over the data *)

(** The values that take the place of a value; [None] is a read that aborts the
    transaction. *)
Section Loops.
Context (f : value_t -> EX (READ_STAT * list value_t)).
Fixpoint expand_values (vs : list value_t) : EX (option (list value_t)) :=
  match vs with
  | [] => mret (Some [])
  | v :: vs' =>
      '(stat, new) ← f v;
      match stat with
      | READ_ABORT => mret None
      | READ_NOTFOUND => expand_values vs'
      | READ_SUCCESS => r ← expand_values vs'; mret (app new <$> r)
      end
  end.
End Loops.
(** The loop over the pairs, with what is done before the values of a pair. *)
Fixpoint expand_data (before : pair_t -> EX unit) (f : value_t -> EX (READ_STAT * list value_t)) (d : list pair_t) : EX (option (list pair_t)) :=
  match d with
  | [] => mret (Some [])
  | (h, vs) :: d' =>
      _ ← before (h, vs);
      r ← expand_values f vs;
      match r with
      | None => mret None
      | Some new => rest ← expand_data before f d'; mret (cons (h, new) <$> rest)
      end
  end.
(** [remove_if] with a check that keeps a value or not. *)
Definition keep_if (v : value_t) (r : READ_STAT * bool) : READ_STAT * list value_t :=
  (r.1, if r.2 then [v] else []).

Section Experts.
Context {main indirect : nat} `{!TrxTableStub main indirect}.
(** The configuration, the table of transactions, the numbers of cells per row,
    the number of workers, and the names of labels and properties. *)
Context (lvl : ISOLATION_LEVEL) (tbl : TrxTable) (opt_preread : bool) (VPR EPR VER : nat) (size : Z) (names : name_table).

(** The expert of the current step. *)
Definition here (qplan : QueryPlan) (msg : Message) : EX Expert_Object := attempt (expert_at (experts qplan) (step (meta msg))).
Definition read_only (qplan : QueryPlan) : bool := trx_type qplan =? TRX_READONLY.
(** Sending the messages to the next step. *)
Definition send_next (qplan : QueryPlan) (msg : Message) (d : list pair_t) : EX unit := fun n =>
  '(msgs, a) ← CreateNextMsg size msg (experts qplan) d (n_aff n); Some (tt, send_all a msgs n).
Definition send_abort (qplan : QueryPlan) (msg : Message) (info : list Z) : EX unit := fun n =>
  Some (tt, send_all (n_aff n) [CreateAbortMsg msg (experts qplan) info] n).
(** The end of an expert that reads: its data, or an abort. *)
Definition send_result (qplan : QueryPlan) (msg : Message) (info : list Z) (r : option (list pair_t)) : EX unit :=
  match r with Some d => send_next qplan msg d | None => send_abort qplan msg info end.
(** Recording the input of a step for the validation. *)
Fixpoint record_pairs (e : EXPERT_T) (trx index : Z) (t : Element_T) (all : bool) (d : list pair_t) (o : input_sets) : option input_sets :=
  match d with
  | [] => Some o
  | p :: d' => o ← RecordInputSetValueT o trx index t (p.2) all; record_pairs e trx index t all d' o
  end.
Definition record_input (e : EXPERT_T) (qplan : QueryPlan) (msg : Message) (obj : Expert_Object) (inType : Element_T) : EX unit := fun n =>
  if negb (read_only qplan) && bool_decide (lvl = SERIALIZABLE) then
    o ← record_pairs e (trxid qplan) (ex_index obj) inType (step (meta msg) =? 1) (data msg) (n_sets n e);
    Some (tt, set_sets e o n)
  else Some (tt, n).
Definition Element_of (i : Z) : option Element_T := at_int [VERTEX; EDGE] i.
Definition int_at (obj : Expert_Object) (i : nat) : EX Z := attempt (int_param obj i).
Definition element_at (obj : Expert_Object) (i : nat) : EX Element_T := i ← int_at obj i; attempt (Element_of i).
Definition no_work (_ : pair_t) : EX unit := mret tt.

(** Ids from values. *)
Definition vid_arg (v : value_t) : EX Z := attempt ((fun i => vid_vid (vid_of_int i)) <$> value_t2int v).
Definition eid_arg (v : value_t) : EX eid_t := attempt (uint2eid_t <$> value_t2uint64_t v).

(** ** Has *)

(** The predicates of the parameters, three for each. *)
Fixpoint pred_groups (ps : list value_t) : option (list (Z * PredicateValue)) :=
  match ps with
  | [] => Some []
  | k :: p :: v :: ps' =>
      pid ← value_t2int k; p ← value_t2int p; type ← enum_of_int Predicates p; vs ← value_t2vec v;
      r ← pred_groups ps'; Some ((pid, mk_pv type vs) :: r)
  | _ => None
  end.
(** The number of values that satisfy a predicate. *)
Fixpoint count_true (pred : PredicateValue) (props : list (Z * value_t)) : option nat :=
  match props with
  | [] => Some 0%nat
  | (_, v) :: props' => b ← Evaluate pred (Some v); n ← count_true pred props'; Some (if b : bool then S n else n)
  end.
(** The loop over the predicates: is the element kept? *)
Fixpoint has_check (props : list (Z * value_t)) (chain : list (Z * PredicateValue)) : option bool :=
  match chain with
  | [] => Some true
  | (pid, pred) :: chain' =>
      if pid =? -1 then
        n ← count_true pred props;
        if (n =? 0)%nat then Some false else has_check props chain'
      else
        match tab_find pid props with
        | None => if decide (pred_type pred = P_NONE) then has_check props chain' else Some false
        | Some val =>
            if decide (pred_type pred = P_ANY) then has_check props chain'
            else b ← Evaluate pred (Some val); if b : bool then has_check props chain' else Some false
        end
  end.
(** What a read gives is kept or dropped. *)
Definition check_read {A} (v : value_t) (r : READ_STAT * A) (check : A -> option bool) : EX (READ_STAT * list value_t) :=
  match r.1 with
  | READ_SUCCESS => b ← attempt (check (r.2)); mret (READ_SUCCESS, if b : bool then [v] else [])
  | stat => mret (stat, [])
  end.
(** [HasExpert::EvaluateVertex] (expert/has_expert.hpp:169-234). *)
Definition has_vertex (qplan : QueryPlan) (chain : list (Z * PredicateValue)) (v : value_t) : EX (READ_STAT * list value_t) :=
  vid ← vid_arg v;
  r ← on_store (GetAllVP lvl tbl opt_preread VPR (trxid qplan) (st qplan) (read_only qplan) vid);
  check_read v r (fun props => has_check props chain).
(** [HasExpert::EvaluateEdge] (expert/has_expert.hpp:236-302). *)
Definition has_edge (qplan : QueryPlan) (chain : list (Z * PredicateValue)) (v : value_t) : EX (READ_STAT * list value_t) :=
  eid ← eid_arg v;
  r ← on_store (GetAllEP lvl tbl opt_preread EPR (trxid qplan) (st qplan) (read_only qplan) eid);
  check_read v r (fun props => has_check props chain).
(** [HasExpert::process] (expert/has_expert.hpp:61-119). *)
Definition HasExpert_process (qplan : QueryPlan) (msg : Message) : EX unit :=
  obj ← here qplan msg;
  inType ← element_at obj 0;
  _ ← record_input E_HAS qplan msg obj inType;
  chain ← attempt (pred_groups (tail (params obj)));
  r ← expand_data no_work (match inType with VERTEX => has_vertex qplan chain | EDGE => has_edge qplan chain end) (data msg);
  send_result qplan msg (str "Abort with [Processing][HasExpert::process]") r.

(** ** HasLabel *)

(** The parameters from an index on, as labels. *)
Definition labels_from (obj : Expert_Object) : option (list Z) := mapM (fun v => wrap 16 <$> value_t2int v) (tail (params obj)).
(** [HasLabelExpert::VertexHasLabel] (expert/has_label_expert.hpp:141-166). *)
Definition has_label_vertex (qplan : QueryPlan) (lid_list : list Z) (v : value_t) : EX (READ_STAT * list value_t) :=
  vid ← vid_arg v;
  r ← on_store (GetVL lvl tbl opt_preread (trxid qplan) (st qplan) (read_only qplan) vid 0);
  check_read v r (fun label => Some (bool_decide (label ∈ lid_list))).
(** [HasLabelExpert::EdgeHasLabel] (expert/has_label_expert.hpp:168-194). *)
Definition has_label_edge (qplan : QueryPlan) (lid_list : list Z) (v : value_t) : EX (READ_STAT * list value_t) :=
  eid ← eid_arg v;
  r ← on_store (GetEL lvl tbl opt_preread (trxid qplan) (st qplan) (read_only qplan) eid 0);
  check_read v r (fun label => Some (bool_decide (label ∈ lid_list))).
(** [HasLabelExpert::process] (expert/has_label_expert.hpp:50-98). *)
Definition HasLabelExpert_process (qplan : QueryPlan) (msg : Message) : EX unit :=
  obj ← here qplan msg;
  _ ← attempt (guard (1 < length (params obj))%nat);
  inType ← element_at obj 0;
  _ ← record_input E_HASLABEL qplan msg obj inType;
  lids ← attempt (labels_from obj);
  r ← expand_data no_work (match inType with VERTEX => has_label_vertex qplan lids | EDGE => has_label_edge qplan lids end) (data msg);
  send_result qplan msg (str "Abort with [Processing][HasLabelExpert::process]") r.

(** ** Is *)

Fixpoint pred_pairs (ps : list value_t) : option (list PredicateValue) :=
  match ps with
  | [] => Some []
  | p :: v :: ps' =>
      p ← value_t2int p; type ← enum_of_int Predicates p; vs ← value_t2vec v; r ← pred_pairs ps'; Some (mk_pv type vs :: r)
  | _ => None
  end.
(** All predicates are evaluated; the value is kept if all hold. *)
Fixpoint all_hold (chain : list PredicateValue) (v : value_t) : option bool :=
  match chain with
  | [] => Some true
  | p :: chain' => b ← Evaluate p (Some v); r ← all_hold chain' v; Some (b && r)
  end.
Fixpoint filter_values (f : value_t -> option bool) (vs : list value_t) : option (list value_t) :=
  match vs with [] => Some [] | v :: vs' => b ← f v; r ← filter_values f vs'; Some (if b : bool then v :: r else r) end.
Definition filter_data (f : history_t -> value_t -> option bool) (d : list pair_t) : option (list pair_t) :=
  mapM (fun p : pair_t => r ← filter_values (f (p.1)) (p.2); Some (p.1, r)) d.
(** [IsExpert::process], [EvaluateData] (expert/is_expert.hpp:41-107). *)
Definition IsExpert_process (qplan : QueryPlan) (msg : Message) : EX unit :=
  obj ← here qplan msg;
  _ ← attempt (guard (0 < length (params obj))%nat);
  chain ← attempt (pred_pairs (params obj));
  d ← attempt (filter_data (fun _ => all_hold chain) (data msg));
  send_next qplan msg d.

(** ** Where *)

(** [PredicateHistory] (base/predicate.hpp:45-52). *)
Record PredicateHistory := mk_ph { ph_type : Predicate_T; history_step_labels : list Z }.
(** The first entry of a history with a label. *)
Definition his_find (h : history_t) (label : Z) : option value_t := tab_find label h.
(** [WhereExpert::GetHistoryValue] (expert/where_expert.hpp:230-249): nothing if a
    label is missing.  The loop looks at the first entry before it tests whether
    there is one. *)
Definition GetHistoryValue (h : history_t) (labels : list Z) : option (option (list value_t)) :=
  if bool_decide (h = []) && negb (bool_decide (labels = [])) then None
  else Some (mapM (his_find h) labels).
(** [WhereExpert::EvaluateData] (expert/where_expert.hpp:128-175), for one pair. *)
Definition where_pair (pred : PredicateHistory) (p : pair_t) : option pair_t :=
  match history_step_labels pred with
  | [] => None
  | -1 :: labels =>
      his ← GetHistoryValue (p.1) labels;
      match his with
      | None => Some (p.1, [])
      | Some vals => r ← filter_values (fun v => Evaluate (mk_pv (ph_type pred) vals) (Some v)) (p.2); Some (p.1, r)
      end
  | labels =>
      his ← GetHistoryValue (p.1) labels;
      match his with
      | None => Some (p.1, [])
      | Some vals =>
          b ← (if (2 <? length labels)%nat then
                 match vals with v0 :: vals' => Evaluate (mk_pv (ph_type pred) vals') (Some v0) | [] => None end
               else match vals with v0 :: v1 :: _ => Evaluate2 (ph_type pred) v0 v1 | _ => None end);
          Some (p.1, if b : bool then p.2 else [])
      end
  end.
Fixpoint where_data (chain : list PredicateHistory) (d : list pair_t) : option (list pair_t) :=
  match chain with [] => Some d | p :: chain' => d ← mapM (where_pair p) d; where_data chain' d end.
(** Is a value among the aggregated ones?  They are the keys of a [std::map]. *)
Definition in_agg (agg : vmap unit) (within : bool) (v : value_t) : option bool :=
  r ← vfind v agg; Some (match r with Some _ => within | None => negb within end).
(** [WhereExpert::EvaluateForAggregate] (expert/where_expert.hpp:177-219). *)
Definition where_aggregate (agg : vmap unit) (his_label : Z) (within : bool) (d : list pair_t) : option (list pair_t) :=
  if his_label =? -1 then filter_data (fun _ => in_agg agg within) d
  else
    mapM (fun p : pair_t =>
      bs ← mapM (fun kv => in_agg agg within kv.2) (filter (fun kv => kv.1 = his_label) (p.1));
      Some (p.1, if forallb id bs then p.2 else [])) d.
(** [WhereExpert::HasAggregateData] (expert/where_expert.hpp:221-228), for the
    labels of a predicate: the aggregated values, or nothing while one of them is
    missing. *)
Fixpoint aggregated (t : agg_table) (qid : Z) (labels : list Z) (agg : vmap unit) : option (option (vmap unit)) :=
  match labels with
  | [] => Some (Some agg)
  | l :: labels' =>
      match GetAggData t (mk_agg qid l) [] with
      | [] => Some None
      | vs => agg ← foldl (fun acc v => acc ≫= vset v (fun _ => tt)) (Some agg) vs; aggregated t qid labels' agg
      end
  end.
(** The loop over the groups of parameters: the data after the aggregated ones,
    with the other predicates; or the data when an aggregate is missing. *)
Fixpoint where_groups (t : agg_table) (qid : Z) (ps : list value_t) (d : list pair_t) : option (list pair_t * option (list PredicateHistory)) :=
  match ps with
  | [] => Some (d, Some [])
  | k :: p :: v :: ps' =>
      label ← value_t2int k; p ← value_t2int p; type ← enum_of_int Predicates p; vs ← value_t2vec v;
      labels ← mapM value_t2int vs;
      if bool_decide (type = P_WITHIN) || bool_decide (type = P_WITHOUT) then
        agg ← aggregated t qid labels [];
        match agg with
        | None => Some (d, None)
        | Some agg => d ← where_aggregate agg label (bool_decide (type = P_WITHIN)) d; where_groups t qid ps' d
        end
      else
        '(d, chain) ← where_groups t qid ps' d;
        Some (d, option_map (cons (mk_ph type (label :: labels))) chain)
  | _ => None
  end.
(** [WhereExpert::process] (expert/where_expert.hpp:49-116). *)
Definition WhereExpert_process (qplan : QueryPlan) (msg : Message) : EX unit :=
  obj ← here qplan msg;
  _ ← attempt (guard (0 < length (params obj))%nat);
  n ← node_now;
  '(d, chain) ← attempt (where_groups (n_agg n) (qid (meta msg)) (params obj) (data msg));
  match chain with
  | None => on_node (send_all (n_aff n) [with_data (set_meta msg (set_tid (meta msg) (parent_tid (meta msg)))) d])
  | Some chain => d ← attempt (where_data chain d); send_next qplan msg d
  end.

(** ** As *)

(** The loop over the values of a pair.  The position of a value is counted from
    the start of the pair, but is used for all the data that were made. *)
Fixpoint as_values (label : Z) (h : history_t) (vs : list value_t) (value_pos : vmap nat) (cnt : nat) (newData : list pair_t) : option (list pair_t) :=
  match vs with
  | [] => Some newData
  | elem :: vs' =>
      found ← vfind elem value_pos;
      match found with
      | None =>
          value_pos ← vset elem (fun _ => cnt) value_pos;
          as_values label h vs' value_pos (S cnt) (newData ++ [(h ++ [(label, elem)], [elem])])
      | Some pos =>
          if (pos <? length value_pos)%nat then
            _ ← newData !! pos;
            as_values label h vs' value_pos cnt (push_values newData pos [elem])
          else as_values label h vs' value_pos cnt newData
      end
  end.
(** [AsExpert::RecordHistory] (expert/as_expert.hpp:75-114). *)
Definition RecordHistory (label : Z) (d : list pair_t) : option (list pair_t) :=
  foldl (fun acc p => newData ← acc; as_values label p.1 p.2 [] 0 newData) (Some []) d.
(** [AsExpert::process] (expert/as_expert.hpp:41-62). *)
Definition AsExpert_process (qplan : QueryPlan) (msg : Message) : EX unit :=
  obj ← here qplan msg;
  label ← int_at obj 0;
  d ← attempt (RecordHistory label (data msg));
  send_next qplan msg d.

(** ** Select *)

(** The pairs of labels and names of the parameters. *)
Fixpoint label_steps (ps : list value_t) : option (list (Z * list Z)) :=
  match ps with
  | [] => Some []
  | k :: n :: ps' => k ← value_t2int k; r ← label_steps ps'; Some ((k, value_t2string n) :: r)
  | _ => None
  end.
Definition label_le (l r : Z * list Z) : Prop := l.1 <= r.1.
#[local] Instance label_le_dec l r : Decision (label_le l r).
Proof. unfold label_le. apply _. Defined.
(** The entries of a history with the given labels, both in the order of the
    labels; the loop ends when one of the lists does. *)
Fixpoint grab_loop (fuel : nat) (ls : list (Z * list Z)) (h : history_t) : option (list Z) :=
  match fuel, ls, h with
  | S f, (l, name) :: ls', (k, v) :: h' =>
      if l =? k then s ← DebugString v; r ← grab_loop f ls' h'; Some (name ++ str ":" ++ s ++ str ", " ++ r)
      else if l <? k then grab_loop f ls' h else grab_loop f ls h'
  | _, _, _ => Some []
  end.
(** [SelectExpert::GrabHistory] (expert/select_expert.hpp:88-134), for one pair. *)
Definition GrabHistory (ls : list (Z * list Z)) (p : pair_t) : option pair_t :=
  if bool_decide (p.1 = []) then Some (p.1, [])
  else if bool_decide (ls = []) then None
  else
    res ← grab_loop (length ls + length (p.1)) ls (p.1);
    if bool_decide (res = []) then Some (p.1, [])
    else Some (p.1, replicate (length (p.2)) (str2str (str "[" ++ take (length res - 2) res ++ str "]") value_default)).
(** [SelectExpert::GrabHistory] of one label (expert/select_expert.hpp:136-153). *)
Definition GrabHistory_one (label : Z) (p : pair_t) : pair_t :=
  (p.1, match his_find (p.1) label with Some v => replicate (length (p.2)) v | None => [] end).
(** [SelectExpert::process] (expert/select_expert.hpp:41-76); labels are
    different, so that sorting them gives one order. *)
Definition SelectExpert_process (qplan : QueryPlan) (msg : Message) : EX unit :=
  obj ← here qplan msg;
  ls ← attempt (label_steps (params obj));
  d ← attempt (match merge_sort label_le ls with
               | [(l, _)] => Some (GrabHistory_one l <$> data msg)
               | ls => mapM (GrabHistory ls) (data msg)
               end);
  send_next qplan msg d.

(** ** Key and Label *)

(** What a read gives becomes new values. *)
Definition map_read {A} (r : READ_STAT * A) (f : A -> option (list value_t)) : EX (READ_STAT * list value_t) :=
  match r.1 with
  | READ_SUCCESS => l ← attempt (f (r.2)); mret (READ_SUCCESS, l)
  | stat => mret (stat, [])
  end.
Definition name_value (type : Index_T) (id : Z) : value_t := str2str (GetNameFromIndex names type id) value_default.
(** [KeyExpert::VertexKeys] (expert/key_expert.hpp:133-159). *)
Definition key_vertex (qplan : QueryPlan) (v : value_t) : EX (READ_STAT * list value_t) :=
  vid ← vid_arg v;
  r ← on_store (GetVPidList lvl tbl opt_preread VPR (trxid qplan) (st qplan) (read_only qplan) vid);
  map_read r (fun l => Some ((fun p => name_value V_PROPERTY_NAME (vp_pid p)) <$> l)).
(** [KeyExpert::EdgeKeys] (expert/key_expert.hpp:161-188). *)
Definition key_edge (qplan : QueryPlan) (v : value_t) : EX (READ_STAT * list value_t) :=
  eid ← eid_arg v;
  r ← on_store (GetEPidList lvl tbl opt_preread EPR (trxid qplan) (st qplan) (read_only qplan) eid);
  map_read r (fun l => Some ((fun p => name_value E_PROPERTY_NAME (ep_pid p)) <$> l)).
(** [KeyExpert::process] (expert/key_expert.hpp:47-89). *)
Definition KeyExpert_process (qplan : QueryPlan) (msg : Message) : EX unit :=
  obj ← here qplan msg;
  inType ← element_at obj 0;
  _ ← record_input E_KEY qplan msg obj inType;
  r ← expand_data no_work (match inType with VERTEX => key_vertex qplan | EDGE => key_edge qplan end) (data msg);
  send_result qplan msg (str "Abort with [Processing][KeyExpert::process]") r.
(** [LabelExpert::VertexLabel] (expert/label_expert.hpp:97-121). *)
Definition label_vertex (qplan : QueryPlan) (v : value_t) : EX (READ_STAT * list value_t) :=
  vid ← vid_arg v;
  r ← on_store (GetVL lvl tbl opt_preread (trxid qplan) (st qplan) (read_only qplan) vid 0);
  map_read r (fun l => Some [name_value V_LABEL_NAME l]).
(** [LabelExpert::EdgeLabel] (expert/label_expert.hpp:123-147). *)
Definition label_edge (qplan : QueryPlan) (v : value_t) : EX (READ_STAT * list value_t) :=
  eid ← eid_arg v;
  r ← on_store (GetEL lvl tbl opt_preread (trxid qplan) (st qplan) (read_only qplan) eid 0);
  map_read r (fun l => Some [name_value E_LABEL_NAME l]).
(** [LabelExpert::process] (expert/label_expert.hpp:48-83). *)
Definition LabelExpert_process (qplan : QueryPlan) (msg : Message) : EX unit :=
  obj ← here qplan msg;
  inType ← element_at obj 0;
  r ← expand_data no_work (match inType with VERTEX => label_vertex qplan | EDGE => label_edge qplan end) (data msg);
  send_result qplan msg (str "Abort with [Processing][LabelExpert::process]") r.

(** ** Properties and Values *)

(** All properties, or those with the given keys. *)
Definition read_vp (qplan : QueryPlan) (keys : list Z) (vid : Z) : DS (READ_STAT * list (Z * value_t)) :=
  match keys with
  | [] => GetAllVP lvl tbl opt_preread VPR (trxid qplan) (st qplan) (read_only qplan) vid
  | _ => GetVPByPKeyList lvl tbl opt_preread VPR (trxid qplan) (st qplan) (read_only qplan) vid keys
  end.
Definition read_ep (qplan : QueryPlan) (keys : list Z) (eid : eid_t) : DS (READ_STAT * list (Z * value_t)) :=
  match keys with
  | [] => GetAllEP lvl tbl opt_preread EPR (trxid qplan) (st qplan) (read_only qplan) eid
  | _ => GetEPByPKeyList lvl tbl opt_preread EPR (trxid qplan) (st qplan) (read_only qplan) eid keys
  end.
(** A property as a value: its id, with its name and its value as text. *)
Definition prop_text (type : Index_T) (id : Z -> Z) (kv : Z * value_t) : option (Z * list Z) :=
  s ← DebugString kv.2; Some (id kv.1, str "{" ++ GetNameFromIndex names type kv.1 ++ str ":" ++ s ++ str "}").
(** [PropertiesExpert::get_properties_for_vertex] (expert/properties_expert.hpp:136-174). *)
Definition properties_vertex (qplan : QueryPlan) (keys : list Z) (v : value_t) : EX (READ_STAT * list value_t) :=
  vid ← vid_arg v;
  r ← on_store (read_vp qplan keys vid);
  map_read r (fun l => vec_pair2value_t <$> mapM (prop_text V_PROPERTY_NAME (fun k => vpid_t2uint (vpid_of (mk_vid vid) k))) l).
(** [PropertiesExpert::get_properties_for_edge] (expert/properties_expert.hpp:176-216). *)
Definition properties_edge (qplan : QueryPlan) (keys : list Z) (v : value_t) : EX (READ_STAT * list value_t) :=
  eid ← eid_arg v;
  r ← on_store (read_ep qplan keys eid);
  map_read r (fun l => vec_pair2value_t <$> mapM (prop_text E_PROPERTY_NAME (fun k => epid_t2uint (epid_of eid k))) l).
Definition push_read (qplan : QueryPlan) (p : pair_t) : EX unit := on_node (PushToRWRecord (trxid qplan) (Z.of_nat (length (p.2))) true).
(** [PropertiesExpert::process] (expert/properties_expert.hpp:46-89). *)
Definition PropertiesExpert_process (qplan : QueryPlan) (msg : Message) : EX unit :=
  obj ← here qplan msg;
  inType ← element_at obj 0;
  keys ← attempt (labels_from obj);
  _ ← record_input E_PROPERTIES qplan msg obj inType;
  r ← expand_data (push_read qplan) (match inType with VERTEX => properties_vertex qplan keys | EDGE => properties_edge qplan keys end) (data msg);
  send_result qplan msg (str "Abort with [Processing][PropertiesExpert::process]") r.
(** [ValuesExpert::get_properties_for_vertex] (expert/values_expert.hpp:135-163). *)
Definition values_vertex (qplan : QueryPlan) (keys : list Z) (v : value_t) : EX (READ_STAT * list value_t) :=
  vid ← vid_arg v; r ← on_store (read_vp qplan keys vid); map_read r (fun l => Some (l.*2)).
(** [ValuesExpert::get_properties_for_edge] (expert/values_expert.hpp:165-194). *)
Definition values_edge (qplan : QueryPlan) (keys : list Z) (v : value_t) : EX (READ_STAT * list value_t) :=
  eid ← eid_arg v; r ← on_store (read_ep qplan keys eid); map_read r (fun l => Some (l.*2)).
(** [ValuesExpert::process] (expert/values_expert.hpp:45-88). *)
Definition ValuesExpert_process (qplan : QueryPlan) (msg : Message) : EX unit :=
  obj ← here qplan msg;
  inType ← element_at obj 0;
  keys ← attempt (labels_from obj);
  _ ← record_input E_VALUES qplan msg obj inType;
  r ← expand_data no_work (match inType with VERTEX => values_vertex qplan keys | EDGE => values_edge qplan keys end) (data msg);
  send_result qplan msg (str "Abort with [Processing][ValuesExpert::process]") r.

(** ** Project *)

(** [ProjectExpert::get_properties_for_vertex] (expert/project_expert.hpp:149-163):
    key 0 is the label. *)
Definition project_vp (qplan : QueryPlan) (p : vpid_t) : EX (READ_STAT * value_t) :=
  if vp_pid p =? 0 then
    '(stat, label) ← on_store (GetVL lvl tbl opt_preread (trxid qplan) (st qplan) (read_only qplan) (vp_vid p) 0);
    mret (stat, match stat with READ_SUCCESS => name_value V_LABEL_NAME label | _ => value_default end)
  else on_store (GetVPByPKey lvl tbl opt_preread VPR (trxid qplan) (st qplan) (read_only qplan) p value_default).
(** [ProjectExpert::get_properties_for_edge] (expert/project_expert.hpp:200-214). *)
Definition project_ep (qplan : QueryPlan) (p : epid_t) : EX (READ_STAT * value_t) :=
  if ep_pid p =? 0 then
    '(stat, label) ← on_store (GetEL lvl tbl opt_preread (trxid qplan) (st qplan) (read_only qplan) (ep_eid p) 0);
    mret (stat, match stat with READ_SUCCESS => name_value E_LABEL_NAME label | _ => value_default end)
  else on_store (GetEPByPKey lvl tbl opt_preread EPR (trxid qplan) (st qplan) (read_only qplan) p value_default).
(** The loop of [project_vertex] and [project_edge]: [prop v key] reads a property
    of the element that a value names. *)
Fixpoint project_values (prop : value_t -> Z -> EX (READ_STAT * value_t)) (key_id value_id : Z) (vs : list value_t) (m : vmap (list value_t))
  : EX (option (vmap (list value_t))) :=
  match vs with
  | [] => mret (Some m)
  | v :: vs' =>
      '(stat, key) ← prop v key_id;
      match stat with
      | READ_ABORT => mret None
      | READ_NOTFOUND => project_values prop key_id value_id vs' m
      | READ_SUCCESS =>
          '(stat, value) ← (if value_id =? -1 then mret (READ_SUCCESS, v) else prop v value_id);
          match stat with
          | READ_ABORT => mret None
          | READ_NOTFOUND => project_values prop key_id value_id vs' m
          | READ_SUCCESS => m ← attempt (vset key (fun old => default [] old ++ [value]) m); project_values prop key_id value_id vs' m
          end
      end
  end.
(** [ProjectExpert::project_vertex] (expert/project_expert.hpp:165-198). *)
Definition project_vertex (qplan : QueryPlan) (key_id value_id : Z) (vs : list value_t) : EX (option (vmap (list value_t))) :=
  project_values (fun v k => vid ← vid_arg v; project_vp qplan (vpid_of (mk_vid vid) k)) key_id value_id vs [].
(** [ProjectExpert::project_edge] (expert/project_expert.hpp:216-250). *)
Definition project_edge (qplan : QueryPlan) (key_id value_id : Z) (vs : list value_t) : EX (option (vmap (list value_t))) :=
  project_values (fun v k => eid ← eid_arg v; project_ep qplan (epid_of eid k)) key_id value_id vs [].
(** The loop over the data: each key of a pair makes a pair. *)
Fixpoint project_data (step : Z) (proj : list value_t -> EX (option (vmap (list value_t)))) (d : list pair_t) : EX (option (list pair_t)) :=
  match d with
  | [] => mret (Some [])
  | (h, vs) :: d' =>
      m ← proj vs;
      match m with
      | None => mret None
      | Some m => rest ← project_data step proj d'; mret (app ((fun kv => (h ++ [(step, kv.1)], kv.2)) <$> (m : vmap (list value_t))) <$> rest)
      end
  end.
(** [ProjectExpert::process] (expert/project_expert.hpp:45-102). *)
Definition ProjectExpert_process (qplan : QueryPlan) (msg : Message) : EX unit :=
  obj ← here qplan msg;
  inType ← element_at obj 0;
  key_id ← int_at obj 1; value_id ← int_at obj 2;
  _ ← record_input E_PROJECT qplan msg obj inType;
  r ← project_data (step (meta msg)) (match inType with VERTEX => project_vertex qplan key_id value_id | EDGE => project_edge qplan key_id value_id end) (data msg);
  send_result qplan msg (str "Abort with [Processing][ProjectExpert::process]") r.

(** ** Traversal *)

Definition int_text (i : Z) : option value_t := str2int (to_string_int i) value_default.
Definition word_text (u : Z) : option value_t := str2uint64_t (to_string_int u) value_default.
(** [TraversalExpert::GetNeighborOfVertex] (expert/traversal_expert.hpp:159-186). *)
Definition neighbours (qplan : QueryPlan) (lid : Z) (dir : Direction_T) (v : value_t) : EX (READ_STAT * list value_t) :=
  vid ← vid_arg v;
  r ← on_store (GetConnectedVertexList lvl tbl opt_preread VER (trxid qplan) (st qplan) (read_only qplan) vid lid dir);
  map_read r (mapM int_text).
(** [TraversalExpert::GetEdgeOfVertex] (expert/traversal_expert.hpp:189-216). *)
Definition edges_of (qplan : QueryPlan) (lid : Z) (dir : Direction_T) (v : value_t) : EX (READ_STAT * list value_t) :=
  vid ← vid_arg v;
  r ← on_store (GetConnectedEdgeList lvl tbl opt_preread VER (trxid qplan) (st qplan) (read_only qplan) vid lid dir);
  map_read r (mapM (fun e => word_text (eid_t2uint e))).
(** [TraversalExpert::GetVertexOfEdge] (expert/traversal_expert.hpp:219-252), for one
    value: an edge is read from the value itself. *)
Definition ends_of (dir : Direction_T) (v : value_t) : option (list value_t) :=
  e ← value_t2uint64_t v;
  let dst_v := e >> VID_BITS in
  let src_v := e -64 (dst_v <<64 VID_BITS) in
  match dir with
  | IN => mapM int_text [dst_v]
  | OUT => mapM int_text [src_v]
  | BOTH => mapM int_text [dst_v; src_v]
  end.
Definition ends_data (dir : Direction_T) (d : list pair_t) : option (list pair_t) :=
  mapM (fun p : pair_t => l ← mapM (ends_of dir) (p.2); Some (p.1, concat l)) d.
Definition Direction_of (i : Z) : option Direction_T := at_int [IN; OUT; BOTH] i.
(** Recording how much was read, under the same condition as the input. *)
Definition push_reads (qplan : QueryPlan) (msg : Message) : EX unit :=
  if negb (read_only qplan) && bool_decide (lvl = SERIALIZABLE) then
    on_node (fun n => foldl (fun n p => PushToRWRecord (trxid qplan) (Z.of_nat (length (p.2))) true n) n (data msg))
  else mret tt.
(** [TraversalExpert::process] (expert/traversal_expert.hpp:55-114); nothing is sent for
    edges of edges. *)
Definition TraversalExpert_process (qplan : QueryPlan) (msg : Message) : EX unit :=
  obj ← here qplan msg;
  inType ← element_at obj 0; outType ← element_at obj 1;
  dir ← (i ← int_at obj 2; attempt (Direction_of i));
  lid ← int_at obj 3;
  let lid := if lid =? -1 then 0 else wrap 16 lid in
  _ ← record_input E_TRAVERSAL qplan msg obj inType;
  _ ← push_reads qplan msg;
  let info := str "Abort with [Processing][TraversalExpert::process]" in
  match inType, outType with
  | VERTEX, VERTEX => r ← expand_data no_work (neighbours qplan lid dir) (data msg); send_result qplan msg info r
  | VERTEX, EDGE => r ← expand_data no_work (edges_of qplan lid dir) (data msg); send_result qplan msg info r
  | EDGE, VERTEX => d ← attempt (ends_data dir (data msg)); send_next qplan msg d
  | EDGE, EDGE => mret tt
  end.
End Experts.
