(* ===== verification/WriteExperts.v ===== *)
(** * expert: the experts that change the graph or start a query

    Property, addV, addE, drop, init, index, branch and repeat.  A step that
    cannot be done ends the message with an abort and its reason; what was changed
    is recorded for validations and for the indexes. *)
From S2P Require Import Prelude MyMath Types Serialization Wire ToolValue Predicate ExecPlan.
From S2P Require Import TrxStatus RunningTrx Coordinator Rct InputSet TrxStub MvccList PropertyRows Topology.
From S2P Require Import Affinity Routing Barrier DataStorage BarrierExperts IndexStore Experts.
From Stdlib Require String Ascii.
Import String.StringSyntax.
Local Open Scope string_scope.
Local Open Scope Z_scope.
Local Open Scope word_scope.

(** [abort_reason_map] (base/type.cpp:20-39). *)
Definition abort_reason_map (p : PROCESS_STAT) : list Z :=
  match p with
  | PS_SUCCESS => []
  | PS_ABORT => str "[Undefined abort reason]"
  | ABORT_DROP_V_GET_CONN_E => str "[ABORT_DROP_V_GET_CONN_E]"
  | ABORT_DROP_V_APPEND => str "[ABORT_DROP_V_APPEND]"
  | ABORT_ADD_E_INVISIBLE_V => str "[ABORT_ADD_E_INVISIBLE_V]"
  | ABORT_ADD_E_APPEND => str "[ABORT_ADD_E_APPEND]"
  | ABORT_ADD_E_SAME_VID => str "[ABORT_ADD_E_SAME_VID]"
  | ABORT_DROP_E_APPEND => str "[ABORT_DROP_E_APPEND]"
  | ABORT_MODIFY_VP_INVISIBLE_V => str "[ABORT_MODIFY_VP_INVISIBLE_V]"
  | ABORT_MODIFY_VP_APPEND => str "[ABORT_MODIFY_VP_APPEND]"
  | ABORT_MODIFY_EP_EITEM => str "[ABORT_MODIFY_EP_EITEM]"
  | ABORT_MODIFY_EP_DELETED_E => str "[ABORT_MODIFY_EP_DELETED_E]"
  | ABORT_MODIFY_EP_MODIFY => str "[ABORT_MODIFY_EP_MODIFY]"
  | ABORT_DROP_VP_INVISIBLE_V => str "[ABORT_DROP_VP_INVISIBLE_V]"
  | ABORT_DROP_VP_DROP => str "[ABORT_DROP_VP_DROP]"
  | ABORT_DROP_EP_EITEM => str "[ABORT_DROP_EP_EITEM]"
  | ABORT_DROP_EP_DELETED_E => str "[ABORT_DROP_EP_DELETED_E]"
  | ABORT_DROP_EP_DROP => str "[ABORT_DROP_EP_DROP]"
  | ABORT_MULTIPLE_TRX_ADD_SAME_EDGE => str "[ABORT_MULTIPLE_TRX_ADD_SAME_EDGE]"
  end.

(** ** Loops that modify *)

(** A loop over values whose step can fail with a reason: what the steps
    return. *)
Fixpoint modify_values {A} (f : value_t -> EX (PROCESS_STAT * A)) (vs : list value_t) : EX (PROCESS_STAT * list A) :=
  match vs with
  | [] => mret (PS_SUCCESS, [])
  | v :: vs' =>
      '(stat, x) ← f v;
      match stat with
      | PS_SUCCESS => '(stat, r) ← modify_values f vs'; mret (stat, x :: r)
      | _ => mret (stat, [])
      end
  end.
Definition push_write (qplan : QueryPlan) (p : pair_t) : EX unit := on_node (PushToRWRecord (trxid qplan) (Z.of_nat (length (p.2))) false).
Fixpoint modify_data {A} (qplan : QueryPlan) (f : value_t -> EX (PROCESS_STAT * A)) (d : list pair_t) : EX (PROCESS_STAT * list A) :=
  match d with
  | [] => mret (PS_SUCCESS, [])
  | p :: d' =>
      _ ← push_write qplan p;
      '(stat, r) ← modify_values f (p.2);
      match stat with
      | PS_SUCCESS => '(stat, r') ← modify_data qplan f d'; mret (stat, r ++ r')
      | _ => mret (stat, [])
      end
  end.
(** Recording what was modified, for validations and for the index. *)
Definition record_actions (qplan : QueryPlan) (p : Primitive_T) (ids : list Z) : EX unit := fun n =>
  t ← InsertRecentActionSet (n_pmt n) p (trxid qplan) ids; Some (tt, set_pmt t n).
Definition buffer_updates (qplan : QueryPlan) (type : ID_T) (isAdd : bool) (ids : list Z) (new_val : option value_t) (old_vals : option (list value_t)) : EX unit :=
  fun n => o ← InsertToUpdateBuffer (n_index n) (trxid qplan) ids type isAdd new_val old_vals; Some (tt, set_index o n).

Section WriteExperts.
Context {main indirect : nat} `{!TrxTableStub main indirect}.
Context (lvl : ISOLATION_LEVEL) (tbl : TrxTable) (opt_preread : bool) (VPR EPR VER BLOCK_SIZE : nat) (size rank : Z).
(** What an operation gets from [new] and from the pools. *)
Context (alloc : Storage -> Alloc).
(** The configuration: is indexing enabled, and the size of messages. *)
Context (indexing : bool) (max_size : Z).
Definition with_alloc {A} (f : Alloc -> DS A) : DS A := fun s => f (alloc s) s.

(** ** Property *)

(** [PropertyExpert::processVertexProperty] (expert/property_expert.hpp:136-153). *)
Definition modify_vp (qplan : QueryPlan) (pid : Z) (new_val : value_t) (v : value_t) : EX (PROCESS_STAT * (Z * value_t)) :=
  i ← attempt (value_t2int v);
  let vpid := vpid_of (vid_of_int i) pid in
  '(stat, old) ← on_store (with_alloc (fun al => ProcessModifyVP lvl tbl opt_preread VPR BLOCK_SIZE (trxid qplan) (st qplan) al vpid new_val value_default));
  mret (stat, (vpid_t2uint vpid, old)).
(** [PropertyExpert::processEdgeProperty] (expert/property_expert.hpp:155-174). *)
Definition modify_ep (qplan : QueryPlan) (pid : Z) (new_val : value_t) (v : value_t) : EX (PROCESS_STAT * (Z * value_t)) :=
  eid ← eid_arg v;
  let epid := epid_of eid pid in
  '(stat, old) ← on_store (with_alloc (fun al => ProcessModifyEP lvl tbl opt_preread EPR BLOCK_SIZE (trxid qplan) (st qplan) al epid new_val value_default));
  mret (stat, (epid_t2uint epid, old)).
(** [PropertyExpert::process] (expert/property_expert.hpp:48-114). *)
Definition PropertyExpert_process (qplan : QueryPlan) (msg : Message) : EX unit :=
  obj ← here qplan msg;
  elem_type ← element_at obj 0;
  pid ← int_at obj 1;
  new_val ← attempt (params obj !! 2%nat);
  n ← node_now;
  '(index_updatable, _) ← attempt (IsIndexEnabled indexing (n_index n) elem_type pid None);
  '(stat, update_data) ← modify_data qplan (match elem_type with VERTEX => modify_vp qplan pid new_val | EDGE => modify_ep qplan pid new_val end) (data msg);
  match stat with
  | PS_SUCCESS =>
      let ids := (update_data : list (Z * value_t)).*1 in
      let values := (update_data : list (Z * value_t)).*2 in
      _ ← record_actions qplan (match elem_type with VERTEX => MVP | EDGE => MEP end) ids;
      _ ← (if index_updatable : bool then
             buffer_updates qplan (match elem_type with VERTEX => VPID | EDGE => EPID end) true ids (Some new_val) (Some values)
           else mret tt);
      send_next size qplan msg (data msg)
  | _ => send_abort qplan msg (str "Abort with [Processing][PropertyExpert::process]" ++ abort_reason_map stat)
  end.

(** ** AddV *)

(** The loop of [AddVertexExpert::process_add_vertex]
    (expert/add_vertex_expert.hpp:85-104). *)
Fixpoint add_vertices (qplan : QueryPlan) (label : Z) (d : list pair_t) : EX (list pair_t * list Z) :=
  match d with
  | [] => mret ([], [])
  | (h, vs) :: d' =>
      _ ← push_write qplan (h, vs);
      '(stat, new) ← modify_values (fun _ =>
        v ← on_store (with_alloc (fun al => ProcessAddV size rank (trxid qplan) (st qplan) al label)); mret (PS_SUCCESS, v)) vs;
      texts ← attempt (mapM (fun v => int_text (vid_t2uint v)) (new : list vid_t));
      '(rest, ids) ← add_vertices qplan label d';
      mret ((h, texts) :: rest, (vid_t2uint <$> (new : list vid_t)) ++ ids)
  end.
(** [AddVertexExpert::process] (expert/add_vertex_expert.hpp:44-66). *)
Definition AddVertexExpert_process (qplan : QueryPlan) (msg : Message) : EX unit :=
  obj ← here qplan msg;
  lid ← int_at obj 0;
  '(d, update_data) ← add_vertices qplan (wrap 16 lid) (data msg);
  _ ← record_actions qplan IV update_data;
  _ ← buffer_updates qplan VID true update_data None None;
  send_next size qplan msg d.

(** ** AddE *)

(** The state of the loop: whether all succeeded, the text of the last failure,
    and the ids that were added here. *)
Record adding := mk_adding { ad_ok : bool; ad_info : list Z; ad_ids : list Z }.
Definition ad_fail (a : adding) (side : list Z) (eid : eid_t) (stat : PROCESS_STAT) : adding :=
  match stat with
  | PS_SUCCESS => a
  | _ => mk_adding false
           (str "Abort with [Processing][DataStorage::ProcessAddE<" ++ side ++ str ">(" ++ to_string_int (src_v eid) ++ str "->" ++ to_string_int (dst_v eid)
            ++ str ")]" ++ abort_reason_map stat) (ad_ids a)
  end.
Definition local (v : Z) : bool := GetMachineIdForVertex size (mk_vid v) =? rank.
Definition add_side (qplan : QueryPlan) (lid : Z) (eid : eid_t) (is_out : bool) : EX PROCESS_STAT :=
  on_store (with_alloc (fun al => ProcessAddE lvl tbl opt_preread EPR VER BLOCK_SIZE (trxid qplan) (st qplan) al eid lid is_out)).
(** One edge: the values that stay, and the state of the loop. *)
Definition add_edge (qplan : QueryPlan) (lid : Z) (v : value_t) (a : adding) : EX (list value_t * adding) :=
  u ← attempt (value_t2uint64_t v);
  let eid := uint2eid_t u in
  a ← (if local (src_v eid) then
         stat ← add_side qplan lid eid true; mret (ad_fail (mk_adding (ad_ok a) (ad_info a) (ad_ids a ++ [u])) (str "OutE") eid stat)
       else mret a);
  a ← (if local (dst_v eid) then stat ← add_side qplan lid eid false; mret (ad_fail a (str "InE") eid stat) else mret a);
  mret (if local (dst_v eid) && negb (local (src_v eid)) then [] else [v], a).
Fixpoint add_edges (qplan : QueryPlan) (lid : Z) (vs : list value_t) (a : adding) : EX (list value_t * adding) :=
  match vs with
  | [] => mret ([], a)
  | v :: vs' => '(l, a) ← add_edge qplan lid v a; '(r, a) ← add_edges qplan lid vs' a; mret ((l : list value_t) ++ r, a)
  end.
(** The loop over the data; the inner loop looks at the first value before it
    tests whether there is one. *)
Fixpoint add_edge_data (qplan : QueryPlan) (lid : Z) (d : list pair_t) (a : adding) : EX (list pair_t * adding) :=
  match d with
  | [] => mret ([], a)
  | (h, vs) :: d' =>
      _ ← push_write qplan (h, vs);
      _ ← attempt (guard (vs <> []));
      '(l, a) ← add_edges qplan lid vs a;
      '(rest, a) ← add_edge_data qplan lid d' a;
      mret ((h, l) :: rest, a)
  end.
(** [AddEdgeExpert::process] (expert/add_edge_expert.cpp:17-91). *)
Definition AddEdgeExpert_process (qplan : QueryPlan) (msg : Message) : EX unit :=
  obj ← here qplan msg;
  lid ← int_at obj 0;
  '(d, a) ← add_edge_data qplan (wrap 16 lid) (data msg) (mk_adding true [] []);
  if ad_ok a then
    _ ← record_actions qplan IE (ad_ids a);
    _ ← buffer_updates qplan EID true (ad_ids a) None None;
    send_next size qplan msg d
  else send_abort qplan msg (ad_info a).

(** ** Drop *)

(** [DropExpert::processDrop] (expert/drop_expert.cpp:66-164), for one value: the id,
    the old value, and the edges to drop. *)
Definition drop_vp (qplan : QueryPlan) (v : value_t) : EX (PROCESS_STAT * (Z * value_t * list value_t)) :=
  _ ← attempt (guard (v_type v = 6));
  u ← attempt (value_t2uint64_t v);
  '(stat, old) ← on_store (with_alloc (fun al => ProcessDropVP lvl tbl opt_preread VPR BLOCK_SIZE (trxid qplan) (st qplan) al (uint2vpid_t u) value_default));
  mret (stat, (u, old, [])).
Definition drop_ep (qplan : QueryPlan) (v : value_t) : EX (PROCESS_STAT * (Z * value_t * list value_t)) :=
  _ ← attempt (guard (v_type v = 6));
  u ← attempt (value_t2uint64_t v);
  '(stat, old) ← on_store (with_alloc (fun al => ProcessDropEP lvl tbl opt_preread EPR BLOCK_SIZE (trxid qplan) (st qplan) al (uint2epid_t u) value_default));
  mret (stat, (u, old, [])).
Definition eid_word (e : eid_t) : value_t := uint64_t2value_t (eid_t2uint e) value_default.
Definition drop_v (qplan : QueryPlan) (v : value_t) : EX (PROCESS_STAT * (Z * value_t * list value_t)) :=
  i ← attempt (value_t2int v);
  '(stat, in_eids, out_eids) ← on_store (with_alloc (fun al =>
    ProcessDropV lvl tbl opt_preread VER (trxid qplan) (st qplan) al (vid_vid (vid_of_int i))));
  mret (stat, (wrap 64 i, value_default, eid_word <$> (in_eids : list eid_t) ++ out_eids)).
Definition drop_side (qplan : QueryPlan) (eid : eid_t) (is_out : bool) (v : Z) : EX PROCESS_STAT :=
  if local v then on_store (with_alloc (fun al => ProcessDropE EPR BLOCK_SIZE (trxid qplan) (st qplan) al eid is_out))
  else mret PS_SUCCESS.
Definition drop_e (qplan : QueryPlan) (v : value_t) : EX (PROCESS_STAT * (Z * value_t * list value_t)) :=
  u ← attempt (value_t2uint64_t v);
  let eid := uint2eid_t u in
  stat ← drop_side qplan eid true (src_v eid);
  stat ← (match stat with PS_SUCCESS => drop_side qplan eid false (dst_v eid) | _ => mret stat end);
  mret (stat, (u, value_default, [])).
(** [DropExpert::process] (expert/drop_expert.cpp:17-64). *)
Definition DropExpert_process (qplan : QueryPlan) (msg : Message) : EX unit :=
  obj ← here qplan msg;
  elem_type ← element_at obj 0;
  isProperty ← (i ← int_at obj 1; mret (negb (i =? 0)));
  '(stat, l) ← modify_data qplan
    (match elem_type, isProperty with
     | VERTEX, true => drop_vp qplan | VERTEX, false => drop_v qplan
     | EDGE, true => drop_ep qplan | EDGE, false => drop_e qplan end) (data msg);
  match stat with
  | PS_SUCCESS =>
      let ids := (fun x => x.1.1) <$> (l : list (Z * value_t * list value_t)) in
      let old := (fun x => x.1.2) <$> (l : list (Z * value_t * list value_t)) in
      _ ← record_actions qplan (match elem_type, isProperty with VERTEX, true => DVP | VERTEX, false => DV | EDGE, true => DEP | EDGE, false => DE end) ids;
      _ ← (match elem_type, isProperty with
           | VERTEX, false => buffer_updates qplan VID false ids None None
           | EDGE, false => buffer_updates qplan EID false ids None None
           | VERTEX, true => buffer_updates qplan VPID false ids None (Some old)
           | EDGE, true => buffer_updates qplan EPID false ids None (Some old)
           end);
      send_next size qplan msg [([], concat ((fun x => x.2) <$> (l : list (Z * value_t * list value_t))))]
  | _ => send_abort qplan msg (str "Abort with [Processing][DropExpert::process]" ++ abort_reason_map stat)
  end.

(** ** Init *)

(** Before a count only the number is passed on. *)
Definition counted_or (next_count : bool) (vs : list value_t) : option (list value_t) :=
  if next_count then v ← int_text (Z.of_nat (length vs)); Some [v] else Some vs.
(** [InitExpert::InitVtxData] (expert/init_expert.hpp:190-219). *)
Definition InitVtxData (qplan : QueryPlan) (next_count : bool) : EX (list value_t) :=
  n ← node_now;
  l ← (if indexing then on_store (ReadVtxTopoIndex lvl tbl opt_preread (trxid qplan) (st qplan) (read_only qplan) (n_index n))
       else r ← on_store (GetAllVertices lvl tbl opt_preread (trxid qplan) (st qplan) (read_only qplan)); mret (r.2));
  if next_count then attempt (v ← int_text (Z.of_nat (length (l : list Z))); Some [v]) else attempt (mapM int_text (l : list Z)).
(** [InitExpert::InitEdgeData] (expert/init_expert.hpp:221-250). *)
Definition InitEdgeData (qplan : QueryPlan) (next_count : bool) : EX (list value_t) :=
  n ← node_now;
  l ← (if indexing then on_store (ReadEdgeTopoIndex lvl tbl opt_preread (trxid qplan) (st qplan) (read_only qplan) (n_index n))
       else r ← on_store (GetAllEdges lvl tbl opt_preread (trxid qplan) (st qplan) (read_only qplan)); mret (r.2));
  if next_count then attempt (v ← int_text (Z.of_nat (length (l : list eid_t))); Some [v])
  else attempt (mapM (fun e => word_text (eid_t2uint e)) (l : list eid_t)).
(** [InitExpert::InitWithInput] (expert/init_expert.hpp:252-271). *)
Definition InitWithInput (obj : Expert_Object) (next_count : bool) : EX (list value_t) := attempt (counted_or next_count (drop 2 (params obj))).
(** [InitExpert::InitWithIndex] (expert/init_expert.hpp:273-311). *)
Definition InitWithIndex (obj : Expert_Object) (next_count : bool) : EX (list value_t) :=
  inType ← element_at obj 0;
  chain ← attempt (pred_groups (drop 2 (params obj)));
  n ← node_now;
  '(vs, o) ← attempt (ReadPropIndex (n_index n) inType chain);
  _ ← on_node (set_index o);
  attempt (counted_or next_count vs).
(** [InitExpert::InitWithoutIndex] (expert/init_expert.hpp:313-330), with
    [InitData]. *)
Definition InitWithoutIndex (qplan : QueryPlan) (obj : Expert_Object) (next_count : bool) : EX (list value_t) :=
  i ← int_at obj 0;
  if i =? element_int VERTEX then InitVtxData qplan next_count else InitEdgeData qplan next_count.
(** [InitExpert::process] (expert/init_expert.hpp:56-85). *)
Definition InitExpert_process (qplan : QueryPlan) (msg : Message) : EX unit :=
  obj ← here qplan msg;
  _ ← attempt (guard (2 <= length (params obj))%nat);
  with_input ← (i ← int_at obj 1; mret (negb (i =? 0)));
  next ← attempt (expert_at (experts qplan) (step (meta msg) + 1));
  let next_count := bool_decide (expert_type next = E_COUNT) in
  '(vs, msg) ←
    (if with_input : bool then vs ← InitWithInput obj next_count; mret (vs, with_max msg max_size)
     else if (length (params obj) =? 2)%nat then vs ← InitWithoutIndex qplan obj next_count; mret (vs, msg)
     else
       vs ← InitWithIndex obj next_count;
       _ ← (if negb (read_only qplan) && bool_decide (lvl = SERIALIZABLE) then
              inType ← element_at obj 0;
              n ← node_now;
              o ← attempt (RecordInputSetValueT (n_sets n E_INIT) (trxid qplan) 0 inType vs false);
              on_node (set_sets E_INIT o)
            else mret tt);
       mret (vs, with_max msg max_size));
  _ ← on_node (PushToRWRecord (trxid qplan) 1 true);
  send_next size qplan msg [([], vs)].

(** ** Index *)

(** The loop over the elements: the values with their elements, and the elements
    without a value.  The label of an element that can no longer be read is not
    set. *)
Fixpoint index_loop {I} (read : I -> DS (READ_STAT * value_t)) (is_label : bool) (word : I -> Z) (l : list I) (m : vmap (list Z)) (no_key : list Z)
  : EX (vmap (list Z) * list Z) :=
  match l with
  | [] => mret (m, no_key)
  | x :: l' =>
      '(stat, v) ← on_store (read x);
      match stat with
      | READ_SUCCESS => m ← attempt (vset v (fun old => default [] old ++ [word x]) m); index_loop read is_label word l' m no_key
      | _ => if is_label then attempt None else index_loop read is_label word l' m (no_key ++ [word x])
      end
  end.
Definition label_text (m : DS (READ_STAT * Z)) : DS (READ_STAT * value_t) :=
  '(stat, l) ← m; v ← lift (int_text l); mret (stat, v).
(** What both ways of building an index share: a key that was built before is
    switched on or off. *)
Definition build_index (type : Element_T) (pid : Z) (collect : EX (vmap (list Z) * list Z)) : EX bool :=
  n ← node_now;
  if decide (pid ∈ n_enabled n type) then
    let '(b, o) := SetIndexMapEnable indexing (n_index n) type pid true in _ ← on_node (set_index o); mret b
  else
    '(m, no_key) ← collect;
    n ← node_now;
    '(_, o) ← attempt (SetIndexMap indexing (n_index n) type pid m no_key);
    let '(b, o) := SetIndexMapEnable indexing o type pid false in
    _ ← on_node (fun n => set_enabled (fun t => if decide (t = type) then {[pid]} ∪ n_enabled n t else n_enabled n t) (set_index o n));
    mret b.
(** [IndexExpert::BuildIndexVtx] (expert/index_expert.hpp:100-134). *)
Definition BuildIndexVtx (qplan : QueryPlan) (pid : Z) : EX bool :=
  build_index VERTEX pid (
    '(_, l) ← on_store (GetAllVertices lvl tbl opt_preread (trxid qplan) (st qplan) (read_only qplan));
    index_loop (fun v => if pid =? 0 then label_text (GetVL lvl tbl opt_preread (trxid qplan) (st qplan) (read_only qplan) v 0)
      else GetVPByPKey lvl tbl opt_preread VPR (trxid qplan) (st qplan) (read_only qplan) (vpid_of (mk_vid v) pid) value_default)
      (pid =? 0) (fun v => vid_t2uint (mk_vid v)) (l : list Z) [] []).
(** [IndexExpert::BuildIndexEdge] (expert/index_expert.hpp:136-171). *)
Definition BuildIndexEdge (qplan : QueryPlan) (pid : Z) : EX bool :=
  build_index EDGE pid (
    '(_, l) ← on_store (GetAllEdges lvl tbl opt_preread (trxid qplan) (st qplan) (read_only qplan));
    index_loop (fun e => if pid =? 0 then label_text (GetEL lvl tbl opt_preread (trxid qplan) (st qplan) (read_only qplan) e 0)
      else GetEPByPKey lvl tbl opt_preread EPR (trxid qplan) (st qplan) (read_only qplan) (epid_of e pid) value_default)
      (pid =? 0) eid_t2uint (l : list eid_t) [] []).
(** [IndexExpert::process] (expert/index_expert.hpp:45-83). *)
Definition IndexExpert_process (qplan : QueryPlan) (msg : Message) : EX unit :=
  obj ← here qplan msg;
  _ ← attempt (guard (length (params obj) = 2%nat));
  inType ← element_at obj 0; pid ← int_at obj 1;
  enabled ← (match inType with VERTEX => BuildIndexVtx qplan pid | EDGE => BuildIndexEdge qplan pid end);
  let s := str "Index is " ++ (if enabled : bool then str "enabled" else str "disabled") ++ str " in node" ++ to_string_int (recver_nid (meta msg)) in
  send_next size qplan msg (data msg ++ [([], [str2str s value_default])]).

(** ** Branch and Repeat *)

(** [BranchExpert::get_steps], [RepeatExpert::get_steps]
    (expert/branch_expert.hpp:56-62). *)
Definition get_steps (obj : Expert_Object) : option (list Z) :=
  if (1 <=? length (params obj))%nat then mapM value_t2int (params obj) else None.
Definition send_branches (qplan : QueryPlan) (msg : Message) : EX unit := fun n =>
  obj ← expert_at (experts qplan) (step (meta msg));
  if decide (msg_type (meta msg) = M_SPAWN) then
    steps ← get_steps obj;
    '(msgs, a) ← CreateBranchedMsg size msg (experts qplan) steps (n_aff n);
    Some (tt, send_all a msgs n)
  else None.
(** [BranchExpert::process] (expert/branch_expert.hpp:33-50). *)
Definition BranchExpert_process := send_branches.
(** [RepeatExpert::process] (expert/repeat_expert.hpp:32-49). *)
Definition RepeatExpert_process := send_branches.
End WriteExperts.
