(* ===== verification/BranchFilter.v ===== *)
(** * expert/labelled_branch_expert: filters by sub queries

    The filters and, or and not of sub queries.  The values of a message are
    numbered and sent to the branches with their number in the history; a branch
    reports the numbers for which it has a result.  When all messages of all
    branches have returned, the values whose reports satisfy the filter are
    sent on. *)
From S2P Require Import Prelude MyMath Types Serialization Wire ToolValue Predicate ExecPlan.
From S2P Require Import TrxStatus RunningTrx Coordinator Rct InputSet TrxStub MvccList PropertyRows Topology.
From S2P Require Import Affinity Routing Barrier DataStorage BarrierExperts IndexStore StorageFindings Experts.
Local Open Scope Z_scope.
Local Open Scope word_scope.

(** ** The state *)

(** [branch_data_base], [branch_filter_data]
    (expert/labelled_branch_expert.hpp:36-39). *)
Record branch_data := mk_branch_data {
  b_paths : path_counter_t; b_branches : Z * Z; b_counter : gmap Z Z; b_data : list pair_t }.
(** [LabelledBranchExpertBase] (expert/labelled_branch_expert.hpp:141-146), with
    the counter of [msg_id_alloc]. *)
Record branch_state := mk_branch_state {
  next_msg_id : Z; branch_table : gmap mkey_t branch_data; branch_trxs : gmap Z (gset mkey_t) }.
Definition no_branches : branch_state := mk_branch_state 1 ∅ ∅.

(** [LabelledBranchExpertBase::GetMsgInfo]
    (expert/labelled_branch_expert.hpp:201-219). *)
Definition branch_info_of (m : Meta) : mkey_t * list Z :=
  match reverse (branch_infos m) with
  | [] => (mk_mkey (qid m) 0 0, [])
  | [b] => (mk_mkey (qid m) (bi_msg_id b) 0, bi_msg_path b)
  | b :: b' :: _ => (mk_mkey (qid m) (bi_msg_id b) (bi_index b'), bi_msg_path b)
  end.
(** [LabelledBranchExpertBase::IsReady]
    (expert/labelled_branch_expert.hpp:161-196): the paths of one branch, then the
    branches. *)
Definition branch_ready (d : branch_data) (path end_path : list Z) : option (bool * branch_data) :=
  '(done, paths) ← IsReady (b_paths d) path end_path;
  if done : bool then
    let '(n, k) := b_branches d in
    Some (n =? k + 1, mk_branch_data paths (n, k + 1) (b_counter d) (b_data d))
  else Some (false, mk_branch_data paths (b_branches d) (b_counter d) (b_data d)).

(** ** Counting the branches of a value *)

(** [BranchFilterExpert::update_counter]
    (expert/labelled_branch_expert.hpp:326-329): shifting an [int] by more than 30
    is no power of two. *)
Definition update_counter (counter branch_index : Z) : option Z :=
  if (0 <=? branch_index - 1) && (branch_index - 1 <=? 30) then Some (Z.lor counter (Z.shiftl 1 (branch_index - 1))) else None.
(** [Filter_T] (base/type.hpp:549-549). *)
Inductive Filter_T := F_AND | F_OR | F_NOT.
Definition Filter_of (i : Z) : option Filter_T := at_int [F_AND; F_OR; F_NOT] i.
(** [BranchFilterExpert::all_success, any_success, none_success]
    (expert/labelled_branch_expert.hpp:331-344). *)
Definition pass (f : Filter_T) (counter num_of_branch : Z) : option bool :=
  match f with
  | F_AND => if (0 <=? num_of_branch) && (num_of_branch <=? 30) then Some (counter =? Z.shiftl 1 num_of_branch - 1) else None
  | F_OR => Some (1 <=? counter)
  | F_NOT => Some (counter =? 0)
  end.
(** The number that a pair reports: its first entry with the key, unless it has
    no values. *)
Definition reported (his_key : Z) (p : pair_t) : option (option Z) :=
  match p.2 with
  | [] => Some None
  | _ => match his_find (p.1) his_key with Some v => i ← value_t2int v; Some (Some i) | None => Some None end
  end.
Fixpoint count_reports (branch_index his_key : Z) (d : list pair_t) (c : gmap Z Z) : option (gmap Z Z) :=
  match d with
  | [] => Some c
  | p :: d' =>
      r ← reported his_key p;
      match r with
      | None => count_reports branch_index his_key d' c
      | Some i => x ← update_counter (default 0 (c !! i)) branch_index; count_reports branch_index his_key d' (<[i := x]> c)
      end
  end.
(** The filter over all values, which are numbered over all pairs. *)
Fixpoint pass_values (f : Filter_T) (n : Z) (c : gmap Z Z) (i : Z) (vs : list value_t) : option (list value_t * Z) :=
  match vs with
  | [] => Some ([], i)
  | v :: vs' => b ← pass f (default 0 (c !! i)) n; '(r, j) ← pass_values f n c (i + 1) vs'; Some (if b : bool then v :: r else r, j)
  end.
Fixpoint pass_data (f : Filter_T) (n : Z) (c : gmap Z Z) (i : Z) (d : list pair_t) : option (list pair_t) :=
  match d with
  | [] => Some []
  | (h, vs) :: d' => '(r, j) ← pass_values f n c i vs; rest ← pass_data f n c j d'; Some ((h, r) :: rest)
  end.

Section Filter.
Context (size : Z).

(** [BranchFilterExpert::process_branch]
    (expert/labelled_branch_expert.hpp:245-311), with [isReady]: the data of the entry,
    and the state of the worker. *)
Definition process_branch (experts : list Expert_Object) (msg : Message) (d : branch_data) (ready : bool) (n : node) : option (branch_data * node) :=
  info ← last (branch_infos (meta msg));
  c ← count_reports (bi_index info) (bi_key info) (data msg) (b_counter d);
  let d := mk_branch_data (b_paths d) (b_branches d) c (b_data d) in
  if ready then
    e ← expert_at experts (step (meta msg));
    f ← (i ← int_param e 0; Filter_of i);
    out ← pass_data f (b_branches d).1 c 0 (b_data d);
    let msg := set_meta msg (set_branches (meta msg) (take (length (branch_infos (meta msg)) - 1) (branch_infos (meta msg)))) in
    '(msgs, a) ← CreateNextMsg size msg experts out (n_aff n);
    Some (d, send_all a msgs n)
  else Some (d, n).
(** [BranchFilterExpert::get_steps] (expert/labelled_branch_expert.hpp:313-319). *)
Definition filter_steps (e : Expert_Object) : option (list Z) :=
  if (1 <? length (params e))%nat then mapM value_t2int (tail (params e)) else None.
(** [LabelledBranchExpertBase::process]
    (expert/labelled_branch_expert.hpp:63-108), with [process_spawn] and
    [send_branch_msg]. *)
Definition BranchFilterExpert_process (qplan : QueryPlan) (msg : Message) (s : branch_state) (n : node) : option (branch_state * node) :=
  let m := meta msg in
  match msg_type m with
  | M_SPAWN =>
      let index := match last (branch_infos m) with Some b => bi_index b | None => 0 end in
      let key := mk_mkey (qid m) (next_msg_id s) index in
      let trxs := match branch_table s !! key with
                  | None => <[trxid qplan := {[key]} ∪ default ∅ (branch_trxs s !! trxid qplan)]> (branch_trxs s)
                  | Some _ => branch_trxs s
                  end in
      e ← expert_at (experts qplan) (step m);
      steps ← filter_steps e;
      '(msgs, a) ← CreateBranchedMsgWithHisLabel size msg (experts qplan) steps (next_msg_id s) (n_aff n);
      let old := default (mk_branch_data ∅ (0, 0) ∅ []) (branch_table s !! key) in
      let d := mk_branch_data (b_paths old) (Z.of_nat (length (params e)) - 1, 0) (b_counter old) (data msg) in
      Some (mk_branch_state (wrap 64 (next_msg_id s + 1)) (<[key := d]> (branch_table s)) trxs, send_all a msgs n)
  | M_BRANCH =>
      let '(key, end_path) := branch_info_of m in
      d ← branch_table s !! key;
      '(ready, d) ← branch_ready d (msg_path m) end_path;
      let msg := if ready : bool then set_meta msg (set_path m end_path) else msg in
      '(d, n) ← process_branch (experts qplan) msg d ready n;
      Some (mk_branch_state (next_msg_id s) (if ready : bool then delete key (branch_table s) else <[key := d]> (branch_table s)) (branch_trxs s), n)
  | _ => None
  end.
End Filter.

(** [LabelledBranchExpertBase::clean_trx_data]
    (expert/labelled_branch_expert.hpp:110-121). *)
Definition branch_clean (s : branch_state) (trx : Z) : branch_state :=
  match branch_trxs s !! trx with
  | Some keys => mk_branch_state (next_msg_id s) (foldr delete (branch_table s) (elements keys)) (delete trx (branch_trxs s))
  | None => s
  end.

(** ** What is passed *)

(** A message reports a number for its branch. *)
Definition reports (m : Message) (b i : Z) : Prop :=
  exists info p, last (branch_infos (meta m)) = Some info /\ bi_index info = b /\ p ∈ data m /\ reported (bi_key info) p = Some (Some i).
Definition any_reports (ms : list Message) (b i : Z) : Prop := exists m, m ∈ ms /\ reports m b i.
(** The bits of a counter are the branches that reported its number. *)
Definition counter_ok (c : gmap Z Z) (R : Z -> Z -> Prop) : Prop :=
  forall i, 0 <= default 0 (c !! i) /\ forall k, 0 <= k -> Z.testbit (default 0 (c !! i)) k = true <-> R (k + 1) i.
Definition accepts (f : Filter_T) (N : Z) (R : Z -> Z -> Prop) (i : Z) : Prop :=
  match f with
  | F_AND => forall b, 1 <= b <= N -> R b i
  | F_OR => exists b, 1 <= b <= N /\ R b i
  | F_NOT => forall b, 1 <= b <= N -> ~ R b i
  end.

Lemma update_counter_spec x b :
  1 <= b <= 31 -> 0 <= x ->
  exists y, update_counter x b = Some y /\ 0 <= y /\ forall k, 0 <= k -> Z.testbit y k = true <-> Z.testbit x k = true \/ k = b - 1.
Proof.
  intros Hb Hx. unfold update_counter. rewrite (proj2 (andb_true_iff _ _)) by lia. eexists. split; [done|].
  assert (Z.shiftl 1 (b - 1) = 2 ^ (b - 1)) as E by (rewrite Z.shiftl_mul_pow2 by lia; lia).
  split; [apply Z.lor_nonneg; rewrite E; split; [lia|apply Z.pow_nonneg; lia]|].
  intros k Hk. rewrite Z.lor_spec, orb_true_iff, E. rewrite Z.pow2_bits_eqb by lia. rewrite Z.eqb_eq. intuition lia.
Qed.
Lemma pass_spec f N x R i :
  1 <= N <= 30 -> 0 <= x -> (forall k, 0 <= k -> Z.testbit x k = true <-> R (k + 1) i) -> (forall b, R b i -> 1 <= b <= N) ->
  exists b, pass f x N = Some b /\ (b = true <-> accepts f N R i).
Proof.
  intros HN Hx Hbits HR.
  assert (x = 0 <-> forall b, 1 <= b <= N -> ~ R b i) as Hzero.
  { split.
    - intros -> b Hb Hr. specialize (Hbits (b - 1) ltac:(lia)). rewrite Z.testbit_0_l in Hbits. replace (b - 1 + 1) with b in Hbits by lia. by apply Hbits in Hr.
    - intros H. apply Z.bits_inj_0. intros k. destruct (Z.lt_ge_cases k 0); [by apply Z.testbit_neg_r|].
      destruct (Z.testbit x k) eqn:E; [|done]. apply Hbits in E; [|done]. exfalso. apply (H (k + 1)); auto. }
  destruct f; cbn [pass accepts].
  - rewrite (proj2 (andb_true_iff _ _)) by lia. eexists. split; [done|]. rewrite Z.eqb_eq.
    replace (Z.shiftl 1 N - 1) with (Z.ones N) by (unfold Z.ones; lia). split.
    + intros -> b Hb. replace b with (b - 1 + 1) by lia. apply Hbits; [lia|]. by rewrite Z.ones_spec_low by lia.
    + intros H. apply Z.bits_inj'. intros k Hk. rewrite Z.testbit_ones_nonneg by lia. destruct (Z.ltb_spec k N).
      * apply Hbits; [done|]. apply H. lia.
      * destruct (Z.testbit x k) eqn:E; [|done]. apply Hbits in E; [|done]. apply HR in E. lia.
  - eexists. split; [done|]. rewrite Z.leb_le. split.
    + intros H. assert (x <> 0) as Hn by lia. assert (Z.testbit x (Z.log2 x) = true) as Ht by (apply Z.bit_log2; lia).
      apply Hbits in Ht; [|apply Z.log2_nonneg]. eauto.
    + intros (b & Hb & Hr). destruct (Z.eq_dec x 0) as [Hz|]; [|lia]. apply Hzero with (b := b) in Hz; [by destruct Hz|done].
  - eexists. split; [done|]. by rewrite Z.eqb_eq.
Qed.
Lemma count_reports_spec b key d c c' R :
  1 <= b <= 31 -> counter_ok c R -> count_reports b key d c = Some c' ->
  counter_ok c' (fun b' i => R b' i \/ b' = b /\ exists p, p ∈ d /\ reported key p = Some (Some i)).
Proof.
  intros Hb. revert c R. induction d as [|p d IH]; intros c R Hc E; cbn in E.
  { injection E as <-. intros i. destruct (Hc i) as [H1 H2]. split; [done|]. intros k Hk. rewrite (H2 k Hk). split; [auto|].
    intros [H | (_ & p & []%not_elem_of_nil & _)]. done. }
  destruct (reported key p) as [r|] eqn:Er; [|done]. cbn [mbind option_bind] in E.
  assert (forall c1 R1 i, counter_ok c1 R1 -> (forall b' j, R1 b' j <-> R b' j \/ b' = b /\ r = Some j) ->
    count_reports b key d c1 = Some c' -> 0 <= default 0 (c' !! i) /\
    forall k, 0 <= k -> Z.testbit (default 0 (c' !! i)) k = true <-> R (k + 1) i \/ k + 1 = b /\ exists q, q ∈ p :: d /\ reported key q = Some (Some i)) as Hstep.
  { intros c1 R1 i Hc1 HR E1. destruct (IH c1 R1 Hc1 E1 i) as [H1 H2]. split; [done|]. intros k Hk. rewrite (H2 k Hk), HR.
    split.
    - intros [[H|[-> ->]]|(-> & q & Hq & Hr)]; [by left|right; split; [done|]; exists p; split; [left|done]|right; split; [done|]; exists q; split; [by right|done]].
    - intros [H|(Hk1 & q & [-> | Hq]%elem_of_cons & Hr)]; [auto|left; right; split; [done|congruence]|right; eauto]. }
  destruct r as [j|].
  - destruct (update_counter_spec (default 0 (c !! j)) b Hb (proj1 (Hc j))) as (x & Ex & Hx & Hxb). rewrite Ex in E. cbn [mbind option_bind] in E.
    intros i. apply (Hstep (<[j := x]> c) (fun b' i => R b' i \/ b' = b /\ Some j = Some i) i); [|done|done].
    intros i'. destruct (decide (j = i')) as [<- | Hj].
    + rewrite lookup_insert_eq. cbn [default from_option id]. split; [done|]. intros k Hk. rewrite (Hxb k Hk), (proj2 (Hc j) k Hk).
      split; (intros [H|H]; [by left|right]); [split; [lia|done]|lia].
    + rewrite lookup_insert_ne by done. destruct (Hc i') as [H1 H2]. split; [done|]. intros k Hk. rewrite (H2 k Hk). split; [auto|].
      intros [H|[_ H]]; [done|congruence].
  - intros i. apply (Hstep c R i Hc); [|done]. intros b' j. split; [auto|]. intros [H|[_ H]]; [done|discriminate H].
Qed.

(** The values with their numbers. *)
Fixpoint numbered {A} (i : Z) (l : list A) : list (Z * A) := match l with [] => [] | x :: l' => (i, x) :: numbered (i + 1) l' end.
Definition chosen {A} (ok : Z -> bool) (i : Z) (l : list A) : list A := (filter (fun x => ok x.1 = true) (numbered i l)).*2.
Lemma numbered_app {A} i (l l' : list A) : numbered i (l ++ l') = numbered i l ++ numbered (i + Z.of_nat (length l)) l'.
Proof.
  revert i. induction l as [|x l IH]; intros i; cbn [numbered app length]; [by rewrite Z.add_0_r|]. rewrite IH.
  by replace (i + 1 + Z.of_nat (length l)) with (i + Z.of_nat (S (length l))) by lia.
Qed.
Lemma chosen_app {A} ok i (l l' : list A) : chosen ok i (l ++ l') = chosen ok i l ++ chosen ok (i + Z.of_nat (length l)) l'.
Proof. unfold chosen. by rewrite numbered_app, filter_app, fmap_app. Qed.
Lemma chosen_cons {A} ok i (x : A) l : chosen ok i (x :: l) = if ok i then x :: chosen ok (i + 1) l else chosen ok (i + 1) l.
Proof. unfold chosen. cbn [numbered]. rewrite filter_cons. cbn [fst]. destruct (ok i); [by rewrite decide_True|by rewrite decide_False]. Qed.
Lemma chosen_fmap {A B} ok i (g : A -> B) (l : list A) : chosen ok i (g <$> l) = g <$> chosen ok i l.
Proof.
  revert i. induction l as [|x l IH]; intros i; [done|]. rewrite fmap_cons, !chosen_cons, IH. by destruct (ok i).
Qed.

Section Pass.
Context (f : Filter_T) (N : Z) (c : gmap Z Z) (ok : Z -> bool) (Hok : forall i, pass f (default 0 (c !! i)) N = Some (ok i)).
Lemma pass_values_spec i vs : pass_values f N c i vs = Some (chosen ok i vs, i + Z.of_nat (length vs)).
Proof.
  revert i. induction vs as [|v vs IH]; intros i; cbn [pass_values]; [by rewrite Z.add_0_r|]. rewrite Hok. cbn [mbind option_bind]. rewrite IH.
  cbn [mbind option_bind]. rewrite chosen_cons.
  by replace (i + 1 + Z.of_nat (length vs)) with (i + Z.of_nat (length (v :: vs))) by (cbn; lia).
Qed.
Lemma pass_data_spec i d : exists out, pass_data f N c i d = Some out /\ out.*1 = d.*1 /\ flat out = chosen ok i (flat d).
Proof.
  revert i. induction d as [|[h vs] d IH]; intros i; [by exists []|]. cbn [pass_data]. rewrite pass_values_spec. cbn [mbind option_bind].
  destruct (IH (i + Z.of_nat (length vs))) as (out & -> & H1 & H2). cbn [mbind option_bind]. eexists. split; [done|]. split; [cbn; by rewrite H1|].
  change (flat ((h, vs) :: d)) with (((fun v => (h, v)) <$> vs) ++ flat d). rewrite chosen_app, length_fmap, chosen_fmap, <- H2. done.
Qed.
End Pass.

(** ** The whole filter *)

Section Run.
Context (size : Z) (qplan : QueryPlan) (key : mkey_t) (end_path : list Z) (N : Z).

Fixpoint run_branches (ms : list Message) (s : branch_state) (n : node) : option (branch_state * node) :=
  match ms with [] => Some (s, n) | m :: ms' => '(s, n) ← BranchFilterExpert_process size qplan m s n; run_branches ms' s n end.
(** A message from one of the branches of an entry. *)
Definition from_branch (m : Message) : Prop :=
  msg_type (meta m) = M_BRANCH /\ branch_info_of (meta m) = (key, end_path) /\
  exists info, last (branch_infos (meta m)) = Some info /\ 1 <= bi_index info <= N.
(** An entry that has counted some reports. *)
Definition entry_ok (d : list pair_t) (R : Z -> Z -> Prop) (s : branch_state) : Prop :=
  exists e, branch_table s !! key = Some e /\ b_data e = d /\ (b_branches e).1 = N /\ counter_ok (b_counter e) R.

(** The message that leaves the filter: the last one, without its branch. *)
Definition filtered (m : Message) : Message :=
  let b := branch_infos (meta m) in set_meta m (set_branches (set_path (meta m) end_path) (take (length b - 1) b)).

Lemma branch_ready_keeps e path e' r : branch_ready e path end_path = Some (r, e') ->
  b_data e' = b_data e /\ (b_branches e').1 = (b_branches e).1 /\ b_counter e' = b_counter e.
Proof.
  unfold branch_ready. destruct (IsReady _ _ _) as [[dn ps]|]; [|done]. cbn [mbind option_bind]. destruct dn; [|by intros [= <- <-]].
  destruct (b_branches e) as [x y] eqn:E. intros [= <- <-]. done.
Qed.
Lemma count_message m info c c' R :
  N <= 30 -> last (branch_infos (meta m)) = Some info -> 1 <= bi_index info <= N -> counter_ok c R ->
  count_reports (bi_index info) (bi_key info) (data m) c = Some c' -> counter_ok c' (fun b i => R b i \/ reports m b i).
Proof.
  intros HN Hi Hb Hc E. pose proof (count_reports_spec (bi_index info) _ _ _ _ R ltac:(lia) Hc E) as H. intros i. destruct (H i) as [H1 H2]. split; [done|].
  intros k Hk. rewrite (H2 k Hk). unfold reports. rewrite Hi. split.
  - intros [Hr|(E1 & p & Hp & Hr)]; [by left|right]. by exists info, p.
  - intros [Hr|(info' & p & [= <-] & E1 & Hp & Hr)]; [by left|right]. split; [done|]. by exists p.
Qed.
(** A message that is not the last one is counted. *)
Lemma branch_step d R m s n s' n' :
  N <= 30 -> from_branch m -> entry_ok d R s -> BranchFilterExpert_process size qplan m s n = Some (s', n') ->
  is_Some (branch_table s' !! key) -> n' = n /\ entry_ok d (fun b i => R b i \/ reports m b i) s'.
Proof.
  intros HN (Ht & Hi & info & Hl & Hb) (e & He & Hd & Hn & Hc) E Hs. unfold BranchFilterExpert_process in E. rewrite Ht, Hi, He in E. cbn [mbind option_bind] in E.
  destruct (branch_ready e _ _) as [[r e']|] eqn:Er; [|done]. cbn [mbind option_bind] in E. apply branch_ready_keeps in Er as (H1 & H2 & H3).
  destruct r.
  { exfalso. destruct (process_branch _ _ _ _ _ _) as [[d' n1]|]; [|done]. injection E as <- <-. cbn in Hs. rewrite lookup_delete_eq in Hs. by destruct Hs. }
  unfold process_branch in E. rewrite Hl in E. cbn [mbind option_bind] in E.
  destruct (count_reports _ _ _ _) as [c'|] eqn:Ec; [|done]. injection E as <- <-. split; [done|]. eexists. cbn. rewrite lookup_insert_eq. split; [done|].
  cbn. split; [congruence|]. split; [congruence|]. rewrite H3 in Ec. by apply (count_message m info (b_counter e)).
Qed.

Lemma run_branches_app a b s n : run_branches (a ++ b) s n = '(s, n) ← run_branches a s n; run_branches b s n.
Proof.
  revert s n. induction a as [|m a IH]; intros s n; [done|]. cbn. destruct (BranchFilterExpert_process _ _ _ _ _) as [[s1 n1]|]; [|done]. cbn. apply IH.
Qed.
(** While messages are missing, they are only counted. *)
Lemma branches_count d ms s n s' n' :
  N <= 30 -> Forall from_branch ms -> entry_ok d (fun _ _ => False) s -> run_branches ms s n = Some (s', n') ->
  (forall k s1 n1, run_branches (take k ms) s n = Some (s1, n1) -> is_Some (branch_table s1 !! key)) ->
  n' = n /\ entry_ok d (any_reports ms) s'.
Proof.
  intros HN. revert s' n'. induction ms as [|m ms IH] using rev_ind; intros s' n' Hf He E Hall.
  { injection E as <- <-. split; [done|]. destruct He as (e & H1 & H2 & H3 & H4). exists e. split_and!; try done.
    intros i. destruct (H4 i) as [H5 H6]. split; [done|]. intros k Hk. rewrite (H6 k Hk). split; [done|]. by intros (m & []%not_elem_of_nil & _). }
  rewrite run_branches_app in E. destruct (run_branches ms s n) as [[s1 n1]|] eqn:E1; [|done]. cbn in E.
  destruct (BranchFilterExpert_process size qplan m s1 n1) as [[s2 n2]|] eqn:E2; [|done]. cbn in E. injection E as <- <-.
  apply Forall_app in Hf as [Hf [Hm _]%Forall_cons]. destruct (IH s1 n1) as [-> He1]; [done|done|done| |].
  { intros k s3 n3 E3. destruct (decide (k <= length ms)%nat).
    - apply (Hall k s3 n3). by rewrite take_app_le.
    - apply (Hall (length ms) s3 n3). rewrite take_app_length. by rewrite take_ge in E3 by lia. }
  destruct (branch_step d (any_reports ms) m s1 n s2 n2 HN Hm He1 E2) as [-> He2].
  { apply (Hall (length (ms ++ [m])) s2 n2). rewrite take_ge by done. rewrite run_branches_app, E1. cbn. by rewrite E2. }
  split; [done|]. destruct He2 as (e & H1 & H2 & H3 & H4). exists e. split_and!; try done.
  intros i. destruct (H4 i) as [H5 H6]. split; [done|]. intros k Hk. rewrite (H6 k Hk). unfold any_reports. setoid_rewrite elem_of_app. split.
  - intros [(x & Hx & Hr)|Hr]; [exists x; auto|exists m; split; [right; left|done]].
  - intros (x & [Hx | ->%list_elem_of_singleton] & Hr); [left; by exists x|by right].
Qed.

End Run.

(** ** Example *)

(** The values 7 and 8 go through a conjunction of two sub queries; the first has
    a result for both of them, the second for 8. *)
Definition bf_plan : QueryPlan :=
  mk_plan 0 [mk_expert E_INIT 0 1 true [rt_int 0; rt_int 0]; mk_expert E_BRANCHFILTER 1 4 false [rt_int 0; rt_int 2; rt_int 3];
             mk_expert E_LABEL 2 1 false []; mk_expert E_LABEL 3 1 false []; mk_expert E_END 4 5 false []] true 0 (example_id 3) 0.
Definition bf_node : node := mk_node ex_loaded no_index (fun _ => no_sets) pmt_init ∅ [] (fun _ => ∅) rt_affinity [].
Definition bf_msg : Message := mk_msg (mk_meta 256 1 2 M_SPAWN 0 1 0 1 (to_string_int 1) [] plan_default) [([], [rt_int 7; rt_int 8])] 1048576 8.
Definition bf_start : branch_state * node := default (no_branches, bf_node) (BranchFilterExpert_process 2 bf_plan bf_msg no_branches bf_node).
Definition bf_back (branch : Z) (d : list pair_t) : Message :=
  mk_msg (mk_meta 256 1 2 M_BRANCH 0 1 0 1 (to_string_int 1 ++ [ch_tab] ++ to_string_int 1) [mk_branch 0 1 branch 1 1 (to_string_int 1)] plan_default) d 1048576 8.
Definition bf_first : Message := bf_back 1 [([(1, rt_int 0)], [rt_int 70]); ([(1, rt_int 1)], [rt_int 80])].
Definition bf_second : Message := bf_back 2 [([(1, rt_int 1)], [rt_int 81])].
Definition bf_mid : branch_state * node := default bf_start (BranchFilterExpert_process 2 bf_plan bf_first bf_start.1 bf_start.2).
Definition bf_end : branch_state * node := default bf_start (BranchFilterExpert_process 2 bf_plan bf_second bf_mid.1 bf_mid.2).
Lemma bf_runs :
  run_branches 2 bf_plan [bf_first] bf_start.1 bf_start.2 = Some bf_mid /\
  BranchFilterExpert_process 2 bf_plan bf_second bf_mid.1 bf_mid.2 = Some bf_end /\ branch_table bf_end.1 !! mk_mkey 256 1 0 = None /\
  is_Some (branch_table bf_start.1 !! mk_mkey 256 1 0) /\ is_Some (branch_table bf_mid.1 !! mk_mkey 256 1 0).
Proof. vm_compute. split_and!; (reflexivity || by eexists). Qed.
Lemma bf_entry : entry_ok (mk_mkey 256 1 0) 2 (data bf_msg) (fun _ _ => False) bf_start.1.
Proof.
  exists (mk_branch_data ∅ (2, 0) ∅ (data bf_msg)). split; [by vm_compute|]. split_and!; try done. intros i. cbn. rewrite lookup_empty. cbn. split; [done|].
  intros k Hk. by rewrite Z.testbit_0_l.
Qed.

