(* ===== verification/Worker.v ===== *)
(** * core/experts_adapter: a worker and its experts

    A worker receives messages, keeps the plans of the queries, and runs the
    expert of the current step of a message; an expert that moves a message to
    the next step without sending it is followed by the expert of that step.
    Here are also the experts that touch everything: the validation with its
    messages, the end of a transaction, and the configuration.  A message is
    processed atomically; what concurrent messages change in between shows in the
    readings of transaction states. *)
From S2P Require Import Prelude MyMath Types Serialization Wire ToolValue Predicate ExecPlan.
From S2P Require Import TrxStatus RunningTrx Coordinator Rct InputSet TrxStub MvccList PropertyRows Topology.
From S2P Require Import Affinity Routing Barrier Validation DataStorage BarrierExperts IndexStore Experts WriteExperts BranchFilter.
From Stdlib Require String Ascii.
Import String.StringSyntax.
Local Open Scope string_scope.
Local Open Scope Z_scope.
Local Open Scope word_scope.

(** ** The state *)

(** The tables of the barrier experts. *)
Record barriers := mk_barriers {
  b_end : barrier_state end_data; b_aggregate : barrier_state agg_data; b_cap : barrier_state unit; b_count : barrier_state count_table;
  b_dedup : barrier_state dedup_data; b_group : barrier_state group_table; b_order : barrier_state order_data;
  b_postvalidation : barrier_state bool; b_range : barrier_state range_table; b_coin : barrier_state range_table;
  b_math : barrier_state (list (Z * math_meta_t)) }.
Definition no_barrier {T} : barrier_state T := mk_bs ∅ ∅.
Definition no_barriers : barriers :=
  mk_barriers no_barrier no_barrier no_barrier no_barrier no_barrier no_barrier no_barrier no_barrier no_barrier no_barrier no_barrier.
(** What can be configured at run time; the division of experts is a field of the
    affinity, which reads it (utils/config.hpp:117-130). *)
Record config := mk_config {
  cf_caching : bool; cf_core_bind : bool; cf_reorder : bool; cf_indexing : bool; cf_stealing : bool; cf_data_size : Z;
  cf_level : ISOLATION_LEVEL; cf_preread : bool; cf_validation : bool; cf_rerun : Z }.
(** [ExpertAdapter] (core/experts_adapter.hpp:291-327), with the experts' own
    state, the replies to queries, the requests to the table of transactions, and
    the numbers of random blocks and of readings so far. *)
Record worker := mk_worker {
  wk_node : node; wk_conf : config; wk_bar : barriers; wk_branch : branch_state; wk_logic : gmap Z QueryPlan; wk_exits : gmap Z Z;
  wk_replies : list (Z * list value_t * ReplyType); wk_updates : list update_action; wk_random : nat; wk_now : nat }.
Definition put_node (n : node) (w : worker) : worker :=
  mk_worker n (wk_conf w) (wk_bar w) (wk_branch w) (wk_logic w) (wk_exits w) (wk_replies w) (wk_updates w) (wk_random w) (wk_now w).
Definition put_conf (c : config) (w : worker) : worker :=
  mk_worker (wk_node w) c (wk_bar w) (wk_branch w) (wk_logic w) (wk_exits w) (wk_replies w) (wk_updates w) (wk_random w) (wk_now w).
Definition put_branch_state (b : branch_state) (w : worker) : worker :=
  mk_worker (wk_node w) (wk_conf w) (wk_bar w) b (wk_logic w) (wk_exits w) (wk_replies w) (wk_updates w) (wk_random w) (wk_now w).
Definition put_logic (l : gmap Z QueryPlan) (w : worker) : worker :=
  mk_worker (wk_node w) (wk_conf w) (wk_bar w) (wk_branch w) l (wk_exits w) (wk_replies w) (wk_updates w) (wk_random w) (wk_now w).
Definition put_exits (l : gmap Z Z) (w : worker) : worker :=
  mk_worker (wk_node w) (wk_conf w) (wk_bar w) (wk_branch w) (wk_logic w) l (wk_replies w) (wk_updates w) (wk_random w) (wk_now w).
Definition put_now (i : nat) (w : worker) : worker :=
  mk_worker (wk_node w) (wk_conf w) (wk_bar w) (wk_branch w) (wk_logic w) (wk_exits w) (wk_replies w) (wk_updates w) (wk_random w) i.
Definition put_bar (b : barriers) (w : worker) : worker :=
  mk_worker (wk_node w) (wk_conf w) b (wk_branch w) (wk_logic w) (wk_exits w) (wk_replies w) (wk_updates w) (wk_random w) (wk_now w).
Definition reply_to (kind : ReplyType) (id : Z) (d : list value_t) (w : worker) : worker :=
  mk_worker (wk_node w) (wk_conf w) (wk_bar w) (wk_branch w) (wk_logic w) (wk_exits w) (wk_replies w ++ [(id, d, kind)]) (wk_updates w) (wk_random w) (wk_now w).
(** The part of the state that the barrier experts work on. *)
Definition world_of (w : worker) : world :=
  mk_world (n_aff (wk_node w)) (n_sent (wk_node w)) (wk_replies w) (n_agg (wk_node w)) (wk_updates w) (wk_random w).
Definition put_world (x : world) (w : worker) : worker :=
  let n := wk_node w in
  mk_worker (mk_node (n_store n) (n_index n) (n_sets n) (n_pmt n) (w_agg x) (n_rw n) (n_enabled n) (w_aff x) (w_sent x))
    (wk_conf w) (wk_bar w) (wk_branch w) (wk_logic w) (wk_exits w) (w_replies x) (w_updates x) (w_random x) (wk_now w).

(** ** The end of a transaction *)

(** Erasing what the experts keep for a transaction, in
    [TerminateExpert::prepare_clean_expert_set] (expert/terminate_expert.cpp:69-94). *)
Definition cleaned_sets : list EXPERT_T := [E_TRAVERSAL; E_VALUES; E_PROPERTIES; E_KEY; E_HASLABEL; E_HAS; E_PROJECT].
Definition clean_sets (trx : Z) (n : node) : node := foldr (fun e n => set_sets e (DeleteInputSet (n_sets n e) trx) n) n cleaned_sets.
Definition clean_barriers (b : barriers) (trx : Z) : barriers :=
  mk_barriers (barrier_clean (b_end b) trx) (barrier_clean (b_aggregate b) trx) (barrier_clean (b_cap b) trx) (barrier_clean (b_count b) trx)
    (barrier_clean (b_dedup b) trx) (barrier_clean (b_group b) trx) (barrier_clean (b_order b) trx) (barrier_clean (b_postvalidation b) trx)
    (barrier_clean (b_range b) trx) (barrier_clean (b_coin b) trx) (barrier_clean (b_math b) trx).
(** The plans of the queries of a transaction, except the one that runs. *)
Definition erase_plans (trx : Z) (num_queries : nat) (l : gmap Z QueryPlan) : gmap Z QueryPlan :=
  foldr (fun i l => delete (trx +64 Z.of_nat i) l) l (seq 0 num_queries).

Section Worker.
Context {main indirect : nat} `{!TrxTableStub main indirect}.
(** The table of transactions and the states that are read from it, by time. *)
Context (tables : nat -> TrxTable) (stat : nat -> Z -> TRX_STAT).
(** The numbers of cells per row and block, the number of workers and the rank,
    the names of labels, and where memory is allocated. *)
Context (VPR EPR VER BLOCK_SIZE : nat) (size rank : Z) (names : name_table) (alloc : Storage -> Alloc).
(** The order of hash tables, the random numbers, and the text of statistics. *)
Context (bucket_order : list Z -> list Z) (uniform : nat -> nat -> double) (statistics : list Z -> worker -> list Z).

(** [TerminateExpert::process] (expert/terminate_expert.cpp:17-67). *)
Definition TerminateExpert_process (qplan : QueryPlan) (msg : Message) (w : worker) : option (Message * worker) :=
  let m := meta msg in
  let trx := trxid qplan in
  let n := wk_node w in
  '(text, n) ←
    (match msg_type m with
     | M_ABORT | M_INIT =>
         '(_, s) ← Abort VPR EPR VER BLOCK_SIZE (alloc (n_store n)) trx (n_store n);
         let phase := if decide (msg_type m = M_INIT) then str "processing" else str "validation" in
         Some (str "Transaction aborted during " ++ phase, set_index (UpdateTrxStatus (n_index n) trx ABORT) (set_store s n))
     | M_COMMIT =>
         match data msg with
         | [(_, [v])] =>
             ct ← value_t2uint64_t v;
             '(_, s) ← Commit trx ct (n_store n);
             o ← MovePropBufferToRegion (n_index n) trx ct;
             Some (str "Transaction committed", set_index (UpdateTrxStatus o trx COMMITTED) (set_store s n))
         | _ => None
         end
     | _ => None
     end);
  let n := set_store (set_deps (n_store n) (CleanDepReadTrxList (dep_map (n_store n)) trx)) n in
  let n := clean_sets trx n in
  agg ← DeleteAggData (n_agg n) trx;
  let out := mk_msg (set_tid (set_nid (set_type m M_EXIT) (parent_nid m)) (parent_tid m)) [([], [str2str text value_default])] (max_data_size msg) (data_size msg) in
  let n := send_all (n_aff n) [out] (set_agg agg n) in
  Some (out, put_logic (erase_plans trx (Z.to_nat (Z.land (qid m) flag_8L)) (wk_logic w))
    (put_branch_state (branch_clean (wk_branch w) trx) (put_bar (clean_barriers (wk_bar w) trx) (put_node n w)))).

(** ** Validation *)

(** [ValidationExpert::process] (expert/validation_expert.cpp:16-96); without a
    commit time the variable is unset. *)
Definition ValidationExpert_process (qplan : QueryPlan) (msg : Message) (w : worker) : option (Message * worker) :=
  let n := wk_node w in
  let trx := trxid qplan in
  r ← stub_read_ct (tables (wk_now w)) trx;
  '(_, self_ct) ← r;
  let n := set_index (MoveTopoBufferToRegion (n_index n) trx self_ct) n in
  let '(homo, hetero) := GetDepReadTrxList (dep_map (n_store n)) trx ∅ ∅ in
  '(isAbort, v) ← process_decision stat (cf_validation (wk_conf w)) (n_sets n) (cf_level (wk_conf w)) (n_pmt n) (wk_logic w)
                    (merge_sort Z.le (elements homo)) (merge_sort Z.le (elements hetero)) qplan (qid (meta msg)) (Z.to_nat (step (meta msg)))
                    (mk_vs (wk_now w) []);
  let n := set_store (set_status (n_store n) (status_updates (n_store n) ++ aborted v)) n in
  '(msgs, a) ← CreateNextMsg size msg (experts qplan) (data msg) (n_aff n);
  let typed := (fun m => set_meta m (set_type (meta m) (if isAbort : bool then M_ABORT else M_COMMIT))) <$> msgs in
  Some (msg, put_now (now v) (put_node (send_all a typed n) w)).

(** ** Configuration *)

Definition on_off (b : bool) : list Z := if b then str "True" else str "False".
Definition ch_newline : Z := 10.
Definition config_line (name v : list Z) : list Z := name ++ v ++ [ch_newline].
Definition set_division (b : bool) (a : affinity) : affinity :=
  mk_aff b (global_num_threads a) (counter a) (core_pool_table a) (core_pool_table_itr a) (core_to_thread_map a) (thread_to_core_map a) (stealing_table a).
Definition config_report (c : config) (division : bool) : list Z :=
  config_line (str "Caching : ") (on_off (cf_caching c)) ++ config_line (str "CoreBind : ") (on_off (cf_core_bind c)) ++
  config_line (str "ExpertDivision : ") (on_off division) ++ config_line (str "StepReorder : ") (on_off (cf_reorder c)) ++
  config_line (str "Indexing : ") (on_off (cf_indexing c)) ++ config_line (str "Stealing : ") (on_off (cf_stealing c)) ++
  config_line (str "Max Data Size: ") (to_string_int (cf_data_size c)) ++ config_line (str "OptPreread : ") (on_off (cf_preread c)) ++
  config_line (str "OptValidation : ") (on_off (cf_validation c)) ++
  config_line (str "Isolation Level: ") (if decide (cf_level c = SERIALIZABLE) then str "SERIALIZABLE" else str "SNAPSHOT") ++
  config_line (str "Abort Rerun Times: ") (to_string_int (cf_rerun c)).
Definition config_error : list Z :=
  str "Config name should be: " ++
  concat ((fun s => str s ++ [ch_newline]) <$> ["1. caching"; "2. core_bind"; "3. expert_division"; "4. step_reorder"; "5. indexing"; "6. stealing";
    "7. data_size"; "8. opt_preread"; "9. opt_validation"; "10. iso_level (Not Supported Yet)"; "11. abort_rerun_times"]).
Definition level_error : list Z :=
  str "[Error] Failed! Unsupported isolation level. Should be:" ++ [ch_newline] ++ str "1. SERIALIZABLE" ++ [ch_newline] ++ str "2. SNAPSHOT" ++ [ch_newline].

(** The assignment of a configuration value, in [ConfigExpert::process]
    (expert/config_expert.hpp:54-108): the text, the values, and the division of
    experts. *)
Definition configure (name : list Z) (v : value_t) (i : Z) (c : config) (division : bool) : list Z * config * bool :=
  let enable := negb (i =? 0) in
  let done_ := str "Set config done" in
  let '(mk_config ca co re ix ws ds lv pr va rt) := c in
  if decide (name = str "caching") then (done_, mk_config enable co re ix ws ds lv pr va rt, division)
  else if decide (name = str "core_bind") then (done_, mk_config ca enable re ix ws ds lv pr va rt, division)
  else if decide (name = str "expert_division") then (done_, c, if ws then enable else division)
  else if decide (name = str "step_reorder") then (done_, mk_config ca co enable ix ws ds lv pr va rt, division)
  else if decide (name = str "indexing") then (done_, mk_config ca co re enable ws ds lv pr va rt, division)
  else if decide (name = str "stealing") then (done_, mk_config ca co re ix enable ds lv pr va rt, if enable then division else enable)
  else if decide (name = str "data_size") then (done_, mk_config ca co re ix ws i lv pr va rt, division)
  else if decide (name = str "iso_level") then
    if decide (value_t2string v = str "SERIALIZABLE") then (done_, mk_config ca co re ix ws ds SERIALIZABLE pr va rt, division)
    else if decide (value_t2string v = str "SNAPSHOT") then (done_, mk_config ca co re ix ws ds SNAPSHOT pr va rt, division)
    else (level_error, c, division)
  else if decide (name = str "opt_preread") then (done_, mk_config ca co re ix ws ds lv enable va rt, division)
  else if decide (name = str "opt_validation") then (done_, mk_config ca co re ix ws ds lv pr enable rt, division)
  else if decide (name = str "abort_rerun_times") then (done_, mk_config ca co re ix ws ds lv pr va i, division)
  else (config_error, c, division).
(** [ConfigExpert::process] (expert/config_expert.hpp:42-139). *)
Definition ConfigExpert_process (qplan : QueryPlan) (msg : Message) (w : worker) : option (Message * worker) :=
  let m := meta msg in
  let a := n_aff (wk_node w) in
  obj ← expert_at (experts qplan) (step m);
  match params obj with
  | [k; v] =>
      i ← value_t2int v;
      let '(text, c, division) := configure (value_t2string k) v i (wk_conf w) (enable_expert_division a) in
      let s := text ++ [ch_newline] ++ config_report c division in
      let d := data msg ++ [([], if recver_nid m =? parent_nid m then [str2str s value_default] else [])] in
      let msg := with_data msg d in
      '(msgs, a) ← CreateNextMsg size msg (experts qplan) d (set_division division a);
      Some (msg, put_conf c (put_node (send_all a msgs (wk_node w)) w))
  | _ => None
  end.
(** [StatusExpert::process] (expert/status_expert.cpp:19-56). *)
Definition StatusExpert_process (qplan : QueryPlan) (msg : Message) (w : worker) : option (Message * worker) :=
  let m := meta msg in
  obj ← expert_at (experts qplan) (step m);
  match params obj with
  | [k] =>
      let key := value_t2string k in
      let ret := if decide (key = str "mem" \/ key = str "gc") then statistics key w
                 else str "[Error] Invalid status key " ++ [34] ++ key ++ [34] ++ str "!" ++ [ch_newline] ++ str "Type " ++ [34] ++ str "help status" ++ [34] ++
                      str " in the client console for more information." in
      let s := str "Node " ++ to_string_int (recver_nid m) ++ str ":" ++ [ch_newline] ++ ret in
      let d := data msg ++ [([], [str2str s value_default])] in
      '(msgs, a) ← CreateNextMsg size (with_data msg d) (experts qplan) d (n_aff (wk_node w));
      Some (with_data msg d, put_node (send_all a msgs (wk_node w)) w)
  | _ => None
  end.

(** ** The experts of a worker *)

Definition run_expert (m : EX unit) (msg : Message) (w : worker) : option (Message * worker) :=
  '(_, n) ← m (wk_node w); Some (msg, put_node n w).
Definition run_barrier {T} (t0 : T) (do_work : QueryPlan -> Message -> bool -> T -> world -> option (T * Message * world))
    (get : barriers -> barrier_state T) (put : barrier_state T -> barriers -> barriers) (qplan : QueryPlan) (msg : Message) (w : worker)
  : option (Message * worker) :=
  '(s, msg, x) ← barrier_process t0 do_work qplan msg (get (wk_bar w)) (world_of w);
  Some (msg, put_world x (put_bar (put s (wk_bar w)) w)).
(** [ExpertAdapter::Init] (core/experts_adapter.hpp:88-126): the expert of a
    type. *)
Definition process_expert (t : EXPERT_T) (qplan : QueryPlan) (msg : Message) (w : worker) : option (Message * worker) :=
  let c := wk_conf w in
  let lvl := cf_level c in
  let pre := cf_preread c in
  let tbl := tables (wk_now w) in
  let put b1 b2 b3 b4 b5 b6 b7 b8 b9 b10 b11 := mk_barriers b1 b2 b3 b4 b5 b6 b7 b8 b9 b10 b11 in
  match t with
  | E_AGGREGATE => run_barrier (mk_agg_data [] []) (Aggregate_do_work size) b_aggregate
      (fun s '(mk_barriers b1 _ b3 b4 b5 b6 b7 b8 b9 b10 b11) => put b1 s b3 b4 b5 b6 b7 b8 b9 b10 b11) qplan msg w
  | E_CAP => run_barrier tt (Cap_do_work size) b_cap
      (fun s '(mk_barriers b1 b2 _ b4 b5 b6 b7 b8 b9 b10 b11) => put b1 b2 s b4 b5 b6 b7 b8 b9 b10 b11) qplan msg w
  | E_COUNT => run_barrier [] (Count_do_work size bucket_order) b_count
      (fun s '(mk_barriers b1 b2 b3 _ b5 b6 b7 b8 b9 b10 b11) => put b1 b2 b3 s b5 b6 b7 b8 b9 b10 b11) qplan msg w
  | E_DEDUP => run_barrier (mk_dedup [] [] []) (Dedup_do_work size bucket_order) b_dedup
      (fun s '(mk_barriers b1 b2 b3 b4 _ b6 b7 b8 b9 b10 b11) => put b1 b2 b3 b4 s b6 b7 b8 b9 b10 b11) qplan msg w
  | E_END => run_barrier (mk_end [] false) End_do_work b_end
      (fun s '(mk_barriers _ b2 b3 b4 b5 b6 b7 b8 b9 b10 b11) => put s b2 b3 b4 b5 b6 b7 b8 b9 b10 b11) qplan msg w
  | E_GROUP => run_barrier [] (Group_do_work size bucket_order) b_group
      (fun s '(mk_barriers b1 b2 b3 b4 b5 _ b7 b8 b9 b10 b11) => put b1 b2 b3 b4 b5 s b7 b8 b9 b10 b11) qplan msg w
  | E_ORDER => run_barrier (mk_order [] []) (Order_do_work size bucket_order) b_order
      (fun s '(mk_barriers b1 b2 b3 b4 b5 b6 _ b8 b9 b10 b11) => put b1 b2 b3 b4 b5 b6 s b8 b9 b10 b11) qplan msg w
  | E_POSTVALIDATION => run_barrier false (PostValidation_do_work rank size _ tbl) b_postvalidation
      (fun s '(mk_barriers b1 b2 b3 b4 b5 b6 b7 _ b9 b10 b11) => put b1 b2 b3 b4 b5 b6 b7 s b9 b10 b11) qplan msg w
  | E_RANGE => run_barrier [] (Range_do_work size bucket_order) b_range
      (fun s '(mk_barriers b1 b2 b3 b4 b5 b6 b7 b8 _ b10 b11) => put b1 b2 b3 b4 b5 b6 b7 b8 s b10 b11) qplan msg w
  | E_COIN => run_barrier [] (Coin_do_work size bucket_order uniform) b_coin
      (fun s '(mk_barriers b1 b2 b3 b4 b5 b6 b7 b8 b9 _ b11) => put b1 b2 b3 b4 b5 b6 b7 b8 b9 s b11) qplan msg w
  | E_MATH => run_barrier [] (Math_do_work size bucket_order) b_math
      (fun s '(mk_barriers b1 b2 b3 b4 b5 b6 b7 b8 b9 b10 _) => put b1 b2 b3 b4 b5 b6 b7 b8 b9 b10 s) qplan msg w
  | E_ADDV => run_expert (AddVertexExpert_process size rank alloc qplan msg) msg w
  | E_ADDE => run_expert (AddEdgeExpert_process lvl tbl pre EPR VER BLOCK_SIZE size rank alloc qplan msg) msg w
  | E_AS => run_expert (AsExpert_process size qplan msg) msg w
  | E_BRANCH => run_expert (BranchExpert_process size qplan msg) msg w
  | E_REPEAT => run_expert (RepeatExpert_process size qplan msg) msg w
  | E_DROP => run_expert (DropExpert_process lvl tbl pre VPR EPR VER BLOCK_SIZE size rank alloc qplan msg) msg w
  | E_HAS => run_expert (HasExpert_process lvl tbl pre VPR EPR size qplan msg) msg w
  | E_HASLABEL => run_expert (HasLabelExpert_process lvl tbl pre size qplan msg) msg w
  | E_INIT => run_expert (InitExpert_process lvl tbl pre size (cf_indexing c) (cf_data_size c) qplan msg) msg w
  | E_INDEX => run_expert (IndexExpert_process lvl tbl pre VPR EPR size (cf_indexing c) qplan msg) msg w
  | E_IS => run_expert (IsExpert_process size qplan msg) msg w
  | E_KEY => run_expert (KeyExpert_process lvl tbl pre VPR EPR size names qplan msg) msg w
  | E_LABEL => run_expert (LabelExpert_process lvl tbl pre size names qplan msg) msg w
  | E_PROJECT => run_expert (ProjectExpert_process lvl tbl pre VPR EPR size names qplan msg) msg w
  | E_PROPERTIES => run_expert (PropertiesExpert_process lvl tbl pre VPR EPR size names qplan msg) msg w
  | E_PROPERTY => run_expert (PropertyExpert_process lvl tbl pre VPR EPR BLOCK_SIZE size alloc (cf_indexing c) qplan msg) msg w
  | E_SELECT => run_expert (SelectExpert_process size qplan msg) msg w
  | E_TRAVERSAL => run_expert (TraversalExpert_process lvl tbl pre VER size qplan msg) msg w
  | E_VALUES => run_expert (ValuesExpert_process lvl tbl pre VPR EPR size qplan msg) msg w
  | E_WHERE => run_expert (WhereExpert_process size qplan msg) msg w
  | E_BRANCHFILTER => '(b, n) ← BranchFilterExpert_process size qplan msg (wk_branch w) (wk_node w); Some (msg, put_branch_state b (put_node n w))
  | E_VALIDATION => ValidationExpert_process qplan msg w
  | E_TERMINATE => TerminateExpert_process qplan msg w
  | E_CONFIG => ConfigExpert_process qplan msg w
  | E_STATUS => StatusExpert_process qplan msg w
  end.

(** ** A message *)

(** Waiting until the transaction is aborted in the table, which is updated
    later. *)
Fixpoint wait_abort (fuel : nat) (trx : Z) (w : worker) : option worker :=
  match fuel with
  | O => None
  | S fuel' =>
      let w' := put_now (S (wk_now w)) w in
      if decide (stat (wk_now w) trx = ABORT) then Some w' else wait_abort fuel' trx w'
  end.
(** The loop over the experts that are processed directly. *)
Fixpoint run_steps (fuel : nat) (qplan : QueryPlan) (msg : Message) (w : worker) : option (Z * worker) :=
  match fuel with
  | O => None
  | S fuel' =>
      let current_step := step (meta msg) in
      e ← expert_at (experts qplan) current_step;
      '(msg, w) ← process_expert (expert_type e) qplan msg w;
      if current_step =? step (meta msg) then Some (current_step, w) else run_steps fuel' qplan msg w
  end.
Definition trx_of (qid : Z) : Z := Z.land qid flag_56H.
Definition starts_abort (m : Meta) : option bool :=
  if decide (msg_type m = M_INIT) then e ← experts (Wire.qplan m) !! 0%nat; Some (bool_decide (expert_type e = E_TERMINATE)) else Some false.
Definition terminate_reply (msg : Message) : Message :=
  let m := meta msg in
  mk_msg (set_tid (set_nid (set_type m M_TERMINATE) (parent_nid m)) (parent_tid m)) [([], [str2str (str "Abort with [MSG_T::TERMINATE]") value_default])]
    (max_data_size msg) (data_size msg).
Definition send_msg (msg : Message) (w : worker) : worker := put_node (send_all (n_aff (wk_node w)) [msg] (wk_node w)) w.
(** The plan of a first message is moved out of it. *)
Definition without_plan (msg : Message) : Message :=
  let m := meta msg in
  set_meta msg (mk_meta (qid m) (step m) (query_count_in_trx m) (msg_type m) (recver_nid m) (recver_tid m) (parent_nid m) (parent_tid m)
    (msg_path m) (branch_infos m) (set_experts (Wire.qplan m) [])).
(** What a message does after the checks. *)
Definition handle (msg : Message) (w : worker) : option worker :=
  let m := meta msg in
  match msg_type m with
  | M_FEED =>
      match data msg with
      | [p] => Some (put_node (set_agg (InsertAggData (n_agg (wk_node w)) (mk_agg (qid m) (step m)) (p.2)) (wk_node w)) w)
      | _ => None
      end
  | M_EXIT =>
      let c := default 0 (wk_exits w !! qid m) + 1 in
      if c =? size then p ← data msg !! 0%nat; Some (put_exits (delete (qid m) (wk_exits w)) (reply_to RESULT_NORMAL (qid m) (p.2) w))
      else Some (put_exits (<[qid m := c]> (wk_exits w)) w)
  | M_TERMINATE => p ← data msg !! 0%nat; Some (reply_to RESULT_ABORT (qid m) (p.2) w)
  | _ =>
      let init := bool_decide (msg_type m = M_INIT) in
      let w := if init then put_logic (<[qid m := Wire.qplan m]> (wk_logic w)) w else w in
      let msg := if init then without_plan msg else msg in
      match wk_logic w !! qid m with
      | None => Some (send_msg (set_meta msg (set_tid m (parent_tid m))) w)
      | Some qplan =>
          '(last_step, w) ← run_steps (S (length (experts qplan))) qplan msg w;
          e ← expert_at (experts qplan) last_step;
          Some (if decide (expert_type e = E_TERMINATE) then put_logic (delete (qid m) (wk_logic w)) w else w)
      end
  end.
(** [ExpertAdapter::execute] (core/experts_adapter.hpp:143-242), with the number
    of readings that a message waits for. *)
Definition execute (patience : nat) (msg : Message) (w : worker) : option worker :=
  let m := meta msg in
  acquire_writer_lock ← starts_abort m;
  let trx := trx_of (qid m) in
  let query_index := u8 (qid m - trx) in
  if query_count_in_trx m <=? 1 then None
  else
    let check_trx_status := negb (query_index =? query_count_in_trx m - 1) && bool_decide (msg_type m <> M_ABORT) && bool_decide (msg_type m <> M_TERMINATE) in
    let aborted := check_trx_status && bool_decide (stat (wk_now w) trx = ABORT) in
    let w := if check_trx_status then put_now (S (wk_now w)) w else w in
    if aborted then Some (send_msg (terminate_reply msg) w)
    else
      w ← (if acquire_writer_lock : bool then wait_abort patience trx w else Some w);
      handle msg w.
End Worker.
