(* ===== verification/WorkerResults.v ===== *)
(** * core/experts_adapter: what a worker keeps

    The steps that one message runs are bounded, the replies to the client come
    when all workers have ended a transaction, and an ended transaction leaves
    nothing in the tables of the experts. *)
From S2P Require Import Prelude MyMath Types Serialization Wire ToolValue Predicate ExecPlan.
From S2P Require Import TrxStatus RunningTrx Coordinator Rct InputSet TrxStub MvccList PropertyRows Topology.
From S2P Require Import Affinity Routing Barrier Validation DataStorage BarrierExperts IndexStore StorageFindings Experts WriteExperts BranchFilter Worker.
Local Open Scope Z_scope.
Local Open Scope word_scope.

(** ** Experts keep the input sets well formed *)

(** The experts that record their input. *)
Definition recorded (e : EXPERT_T) : bool := bool_decide (e ∈ E_INIT :: cleaned_sets).
Definition sets_fine (n : node) : Prop := forall e, sets_ok (n_sets n e) /\ (recorded e = false -> validation_data (n_sets n e) = ∅).
Definition keeps {A} (m : EX A) : Prop := forall n x n', sets_fine n -> m n = Some (x, n') -> sets_fine n'.

Create HintDb keeps.
Lemma keeps_ret {A} (x : A) : keeps (mret x).
Proof. by intros n y n' Hn [= _ <-]. Qed.
Lemma keeps_bind {A B} (m : EX A) (f : A -> EX B) : keeps m -> (forall x, keeps (f x)) -> keeps (m ≫= f).
Proof.
  intros Hm Hf n y n' Hn. unfold mbind, EX_bind. destruct (m n) as [[x n1]|] eqn:E; [|done]. intros E'. by eapply Hf, E'; eapply Hm, E.
Qed.
Lemma keeps_attempt {A} (o : option A) : keeps (attempt o).
Proof. intros n y n' Hn. unfold attempt. destruct o; [|done]. by intros [= _ <-]. Qed.
Lemma keeps_store {A} (m : DS A) : keeps (on_store m).
Proof. intros n y n' Hn. unfold on_store. destruct (m (n_store n)) as [[x s]|]; [|done]. by intros [= _ <-]. Qed.
Lemma keeps_node f : (forall n, sets_fine n -> sets_fine (f n)) -> keeps (on_node f).
Proof. intros H n y n' Hn [= _ <-]. by apply H. Qed.
Lemma keeps_now : keeps node_now.
Proof. by intros n y n' Hn [= _ <-]. Qed.
Lemma keeps_next size qplan msg d : keeps (send_next size qplan msg d).
Proof. intros n y n' Hn. unfold send_next. destruct (CreateNextMsg _ _ _ _ _) as [[msgs a]|]; [|done]. by intros [= _ <-]. Qed.
Lemma keeps_abort qplan msg info : keeps (send_abort qplan msg info).
Proof. by intros n y n' Hn [= _ <-]. Qed.
Lemma keeps_actions qplan p ids : keeps (record_actions qplan p ids).
Proof. intros n y n' Hn. unfold record_actions. destruct (InsertRecentActionSet _ _ _ _); [|done]. by intros [= _ <-]. Qed.
Lemma keeps_buffer qplan t b ids v vs : keeps (buffer_updates qplan t b ids v vs).
Proof. intros n y n' Hn. unfold buffer_updates. destruct (InsertToUpdateBuffer _ _ _ _ _ _ _); [|done]. by intros [= _ <-]. Qed.
Lemma keeps_branches size qplan msg : keeps (send_branches size qplan msg).
Proof.
  intros n y n' Hn. unfold send_branches. destruct (expert_at _ _); [|done]. cbn [mbind option_bind]. destruct (decide _); [|done].
  destruct (get_steps _); [|done]. cbn [mbind option_bind]. destruct (CreateBranchedMsg _ _ _ _ _) as [[msgs a]|]; [|done]. by intros [= _ <-].
Qed.
Lemma record_value_ok o trx step t vs all o' : sets_ok o -> RecordInputSetValueT o trx step t vs all = Some o' -> sets_ok o'.
Proof.
  intros Ho. unfold RecordInputSetValueT. destruct (if all then _ else _) as [l|]; [|done]. intros [= <-]. by apply (sets_step_ok o (Record_input trx step l all)).
Qed.
Lemma record_pairs_ok e trx index t all d o o' : sets_ok o -> record_pairs e trx index t all d o = Some o' -> sets_ok o'.
Proof.
  revert o. induction d as [|p d IH]; intros o Ho; cbn [record_pairs]; [by intros [= <-]|].
  destruct (RecordInputSetValueT _ _ _ _ _ _) as [o1|] eqn:E; [|done]. cbn [mbind option_bind]. apply IH. by eapply record_value_ok.
Qed.
Lemma set_sets_fine e o n : recorded e = true -> sets_fine n -> sets_ok o -> sets_fine (set_sets e o n).
Proof. intros He Hn Ho e'. cbn. destruct (decide (e' = e)) as [-> | _]; [|by apply Hn]. split; [done|congruence]. Qed.
Lemma keeps_record lvl e qplan msg obj t : recorded e = true -> keeps (record_input lvl e qplan msg obj t).
Proof.
  intros He n y n' Hn. unfold record_input. destruct (_ && _); [|by intros [= _ <-]]. destruct (record_pairs _ _ _ _ _ _ _) as [o|] eqn:E; [|done].
  intros [= _ <-]. apply set_sets_fine; [done|done|]. eapply record_pairs_ok, E. by apply Hn.
Qed.
#[export] Hint Resolve keeps_ret keeps_attempt keeps_store keeps_now keeps_next keeps_abort keeps_actions keeps_buffer keeps_branches keeps_record : keeps.

(** Composed experts: sequences, case distinctions, and the loops. *)
Ltac keeps_step :=
  match goal with
  | |- forall _, _ => intros ?
  | |- keeps (_ ≫= _) => apply keeps_bind; [|intros ?]
  | |- keeps (match ?x with _ => _ end) => destruct x
  | |- keeps ((match ?x with _ => _ end) _) => destruct x
  | |- keeps (on_node _) => apply keeps_node; by intros
  | |- keeps _ => solve [eauto with keeps]
  end.
Ltac keeps_all := repeat keeps_step.

Lemma keeps_expand_values f vs : (forall v, keeps (f v)) -> keeps (expand_values f vs).
Proof. intros Hf. induction vs as [|v vs IH]; cbn [expand_values]; keeps_all. Qed.
#[export] Hint Resolve keeps_expand_values : keeps.
Lemma keeps_expand before f d : (forall p, keeps (before p)) -> (forall v, keeps (f v)) -> keeps (expand_data before f d).
Proof. intros Hb Hf. induction d as [|[h vs] d IH]; cbn [expand_data]; keeps_all. Qed.
#[export] Hint Resolve keeps_expand : keeps.
Lemma keeps_modify_values {A} (f : value_t -> EX (PROCESS_STAT * A)) vs : (forall v, keeps (f v)) -> keeps (modify_values f vs).
Proof. intros Hf. induction vs as [|v vs IH]; cbn [modify_values]; keeps_all. Qed.
#[export] Hint Resolve keeps_modify_values : keeps.
Lemma keeps_push_write qplan p : keeps (push_write qplan p).
Proof. unfold push_write. keeps_all. Qed.
#[export] Hint Resolve keeps_push_write : keeps.
Lemma keeps_modify {A} qplan (f : value_t -> EX (PROCESS_STAT * A)) d : (forall v, keeps (f v)) -> keeps (modify_data qplan f d).
Proof. intros Hf. induction d as [|p d IH]; cbn [modify_data]; keeps_all. Qed.
#[export] Hint Resolve keeps_modify : keeps.

Section Keeps.
Context {main indirect : nat} `{!TrxTableStub main indirect}.
Context (lvl : ISOLATION_LEVEL) (tbl : TrxTable) (pre : bool) (VPR EPR VER BLOCK_SIZE : nat) (size rank : Z) (names : name_table).
Context (alloc : Storage -> Alloc) (indexing : bool) (max_size : Z) (qplan : QueryPlan) (msg : Message).

Ltac expert_step :=
  first [progress keeps_step
    | apply keeps_expand | apply keeps_modify
    | progress unfold here, element_at, int_at, vid_arg, eid_arg, no_work, push_read, check_read, map_read, send_result,
        has_vertex, has_edge, has_label_vertex, has_label_edge, key_vertex, key_edge, label_vertex, label_edge, properties_vertex, properties_edge,
        values_vertex, values_edge, project_vp, project_ep, neighbours, edges_of, push_reads, modify_vp, modify_ep, add_side, add_edge,
        drop_vp, drop_ep, drop_v, drop_e, drop_side, InitVtxData, InitEdgeData, InitWithInput, InitWithIndex, InitWithoutIndex, build_index].
Ltac expert := repeat expert_step.

Lemma keeps_has : keeps (HasExpert_process lvl tbl pre VPR EPR size qplan msg).
Proof. unfold HasExpert_process. expert. Qed.
Lemma keeps_has_label : keeps (HasLabelExpert_process lvl tbl pre size qplan msg).
Proof. unfold HasLabelExpert_process. expert. Qed.
Lemma keeps_is : keeps (IsExpert_process size qplan msg).
Proof. unfold IsExpert_process. expert. Qed.
Lemma keeps_where : keeps (WhereExpert_process size qplan msg).
Proof. unfold WhereExpert_process. expert. Qed.
Lemma keeps_as : keeps (AsExpert_process size qplan msg).
Proof. unfold AsExpert_process. expert. Qed.
Lemma keeps_select : keeps (SelectExpert_process size qplan msg).
Proof. unfold SelectExpert_process. expert. Qed.
Lemma keeps_key : keeps (KeyExpert_process lvl tbl pre VPR EPR size names qplan msg).
Proof. unfold KeyExpert_process. expert. Qed.
Lemma keeps_label : keeps (LabelExpert_process lvl tbl pre size names qplan msg).
Proof. unfold LabelExpert_process. expert. Qed.
Lemma keeps_properties : keeps (PropertiesExpert_process lvl tbl pre VPR EPR size names qplan msg).
Proof. unfold PropertiesExpert_process. expert. Qed.
Lemma keeps_values : keeps (ValuesExpert_process lvl tbl pre VPR EPR size qplan msg).
Proof. unfold ValuesExpert_process. expert. Qed.
Lemma keeps_project_values prop k v vs m : (forall x i, keeps (prop x i)) -> keeps (project_values prop k v vs m).
Proof. intros Hp. revert m. induction vs as [|x vs IH]; intros m; cbn [project_values]; expert. Qed.
Lemma keeps_project_data s proj d : (forall vs, keeps (proj vs)) -> keeps (project_data s proj d).
Proof. intros Hp. induction d as [|[h vs] d IH]; cbn [project_data]; expert. Qed.
Lemma keeps_project : keeps (ProjectExpert_process lvl tbl pre VPR EPR size names qplan msg).
Proof.
  unfold ProjectExpert_process. expert. apply keeps_project_data. intros vs. expert; apply keeps_project_values; expert.
Qed.
Lemma keeps_push_reads : keeps (push_reads lvl qplan msg).
Proof.
  unfold push_reads. keeps_all. apply keeps_node. intros n. generalize (data msg). intros d. revert n. induction d as [|p d IH]; intros n Hn; [done|]. by apply IH.
Qed.
#[local] Hint Resolve keeps_push_reads : keeps.
Lemma keeps_traversal : keeps (TraversalExpert_process lvl tbl pre VER size qplan msg).
Proof. unfold TraversalExpert_process. expert. Qed.
Lemma keeps_property : keeps (PropertyExpert_process lvl tbl pre VPR EPR BLOCK_SIZE size alloc indexing qplan msg).
Proof. unfold PropertyExpert_process. expert. Qed.
Lemma keeps_add_vertices label d : keeps (add_vertices size rank alloc qplan label d).
Proof. induction d as [|[h vs] d IH]; cbn [add_vertices]; expert. apply keeps_modify_values. expert. Qed.
#[local] Hint Resolve keeps_add_vertices : keeps.
Lemma keeps_add_vertex : keeps (AddVertexExpert_process size rank alloc qplan msg).
Proof. unfold AddVertexExpert_process. expert. Qed.
Lemma keeps_add_edges lid vs a : keeps (add_edges lvl tbl pre EPR VER BLOCK_SIZE size rank alloc qplan lid vs a).
Proof. revert a. induction vs as [|v vs IH]; intros a; cbn [add_edges]; expert. Qed.
#[local] Hint Resolve keeps_add_edges : keeps.
Lemma keeps_add_edge_data lid d a : keeps (add_edge_data lvl tbl pre EPR VER BLOCK_SIZE size rank alloc qplan lid d a).
Proof. revert a. induction d as [|[h vs] d IH]; intros a; cbn [add_edge_data]; expert. Qed.
#[local] Hint Resolve keeps_add_edge_data : keeps.
Lemma keeps_add_edge : keeps (AddEdgeExpert_process lvl tbl pre EPR VER BLOCK_SIZE size rank alloc qplan msg).
Proof. unfold AddEdgeExpert_process. expert. Qed.
Lemma keeps_drop : keeps (DropExpert_process lvl tbl pre VPR EPR VER BLOCK_SIZE size rank alloc qplan msg).
Proof. unfold DropExpert_process. expert. Qed.
Lemma keeps_init_record t vs :
  keeps (n ← node_now; o ← attempt (RecordInputSetValueT (n_sets n E_INIT) (trxid qplan) 0 t vs false); on_node (set_sets E_INIT o)).
Proof.
  intros n y n' Hn. unfold mbind, EX_bind, node_now, attempt, on_node. cbn [mbind option_bind].
  destruct (RecordInputSetValueT _ _ _ _ _ _) as [o|] eqn:E; [|done]. intros [= _ <-]. apply set_sets_fine; [done|done|]. eapply record_value_ok, E. by apply Hn.
Qed.
#[local] Hint Resolve keeps_init_record : keeps.
Lemma keeps_init : keeps (InitExpert_process lvl tbl pre size indexing max_size qplan msg).
Proof.
  unfold InitExpert_process. repeat first [apply keeps_init_record | expert_step].
Qed.
Lemma keeps_index_loop {I} read b (word : I -> Z) l m k : keeps (index_loop read b word l m k).
Proof. revert m k. induction l as [|x l IH]; intros m k; cbn [index_loop]; expert. Qed.
#[local] Hint Resolve keeps_index_loop : keeps.
Lemma keeps_index : keeps (IndexExpert_process lvl tbl pre VPR EPR size indexing qplan msg).
Proof. unfold IndexExpert_process, BuildIndexVtx, BuildIndexEdge. expert. Qed.
End Keeps.

(** ** The work of barriers leaves the header of a message *)

Definition same_header {T} (do_work : QueryPlan -> Message -> bool -> T -> world -> option (T * Message * world)) : Prop :=
  forall qplan msg ready t w t' msg' w', do_work qplan msg ready t w = Some (t', msg', w') -> meta msg' = meta msg.
Ltac bind_inv H := repeat match type of H with
  | (_ ≫= _) = Some _ => apply bind_Some in H as (? & ? & H)
  | context [match ?x with _ => _ end] => destruct x; try discriminate H
  end.

Section Headers.
Context (rank size : Z) (bucket_order : list Z -> list Z) (uniform : nat -> nat -> double).
Lemma pass_on_meta qplan msg d w msg' w' : pass_on size qplan msg d w = Some (msg', w') -> meta msg' = meta msg.
Proof. unfold pass_on. intros H. bind_inv H; by injection H as <- <-. Qed.
Lemma finish_meta {T} ready (t : T) qplan msg r w t' msg' w' : finish size ready t qplan msg r w = Some (t', msg', w') -> meta msg' = meta msg.
Proof.
  unfold finish. destruct ready; [|by intros [= _ <- _]]. intros (d & _ & H)%bind_Some. destruct (pass_on _ _ _ _ _) as [[m1 w1]|] eqn:E; [|done].
  injection H as _ <- _. by eapply pass_on_meta.
Qed.
Ltac header H := bind_inv H; first [by eapply finish_meta | injection H as _ <- _; first [done | by eapply pass_on_meta]].
Lemma header_end : same_header End_do_work.
Proof. intros qplan msg ready t w t' msg' w' H. unfold End_do_work in H. header H. Qed.
Lemma header_aggregate : same_header (Aggregate_do_work size).
Proof. intros qplan msg ready t w t' msg' w' H. unfold Aggregate_do_work in H. header H. Qed.
Lemma header_cap : same_header (Cap_do_work size).
Proof. intros qplan msg ready t w t' msg' w' H. unfold Cap_do_work in H. header H. Qed.
Lemma header_count : same_header (Count_do_work size bucket_order).
Proof. intros qplan msg ready t w t' msg' w' H. unfold Count_do_work in H. header H. Qed.
Lemma header_dedup : same_header (Dedup_do_work size bucket_order).
Proof. intros qplan msg ready t w t' msg' w' H. unfold Dedup_do_work in H. header H. Qed.
Lemma header_group : same_header (Group_do_work size bucket_order).
Proof. intros qplan msg ready t w t' msg' w' H. unfold Group_do_work in H. header H. Qed.
Lemma header_order : same_header (Order_do_work size bucket_order).
Proof. intros qplan msg ready t w t' msg' w' H. unfold Order_do_work in H. header H. Qed.
Lemma header_range : same_header (Range_do_work size bucket_order).
Proof. intros qplan msg ready t w t' msg' w' H. unfold Range_do_work in H. header H. Qed.
Lemma header_coin : same_header (Coin_do_work size bucket_order uniform).
Proof. intros qplan msg ready t w t' msg' w' H. unfold Coin_do_work in H. header H. Qed.
Lemma header_math : same_header (Math_do_work size bucket_order).
Proof. intros qplan msg ready t w t' msg' w' H. unfold Math_do_work in H. header H. Qed.
Lemma header_votes {main indirect} (stub : TrxTableStub main indirect) table : same_header (PostValidation_do_work rank size stub table).
Proof. intros qplan msg ready t w t' msg' w' H. unfold PostValidation_do_work in H. header H. Qed.
End Headers.

(** ** Entries belong to transactions *)

(** Every entry is listed for the transaction of its query. *)
Definition owned {V} (d : gmap mkey_t V) (trxs : gmap Z (gset mkey_t)) : Prop :=
  forall k, is_Some (d !! k) -> exists keys, trxs !! trx_of (mk_q k) = Some keys /\ k ∈ keys.
Lemma deletes_lookup {V} (d : gmap mkey_t V) l k : foldr delete d l !! k = if decide (k ∈ l) then None else d !! k.
Proof.
  induction l as [|x l IH]; cbn [foldr]; [by rewrite decide_False by apply not_elem_of_nil|]. destruct (decide (x = k)) as [-> | Hx].
  - by rewrite lookup_delete_eq, decide_True by left.
  - rewrite lookup_delete_ne, IH by done. destruct (decide (k ∈ l)) as [Hk|Hk]; [by rewrite decide_True by (by right)|].
    rewrite decide_False; [done|]. intros [-> | ?]%elem_of_cons; done.
Qed.
Lemma clean_owned {V} (d : gmap mkey_t V) trxs keys trx :
  owned d trxs -> trxs !! trx = Some keys ->
  owned (foldr delete d (elements keys)) (delete trx trxs) /\ forall k, trx_of (mk_q k) = trx -> foldr delete d (elements keys) !! k = None.
Proof.
  intros Ho Hk. assert (forall k, trx_of (mk_q k) = trx -> foldr delete d (elements keys) !! k = None) as Hgone.
  { intros k Ht. rewrite deletes_lookup. destruct (decide _) as [|Hn]; [done|]. rewrite elem_of_elements in Hn. destruct (d !! k) eqn:E; [|done].
    destruct (Ho k ltac:(by eexists)) as (keys' & E' & Hin). rewrite Ht in E'. congruence. }
  split; [|done]. intros k Hs. destruct (decide (trx_of (mk_q k) = trx)) as [Ht|Ht]; [rewrite Hgone in Hs by done; by destruct Hs|].
  rewrite lookup_delete_ne by done. apply Ho. rewrite deletes_lookup in Hs. destruct (decide _); [by destruct Hs|done].
Qed.
Lemma insert_owned {V} (d : gmap mkey_t V) trxs key x trx :
  owned d trxs -> trx = trx_of (mk_q key) ->
  owned (<[key := x]> d) (<[trx := {[key]} ∪ default ∅ (trxs !! trx)]> trxs).
Proof.
  intros Ho -> k Hs. destruct (decide (key = k)) as [<- | Hk]; [rewrite lookup_insert_eq; eexists; split; [done|set_solver]|].
  rewrite lookup_insert_ne in Hs by done. destruct (Ho k Hs) as (keys & E & Hin). destruct (decide (trx_of (mk_q key) = trx_of (mk_q k))) as [-> | Ht].
  - rewrite lookup_insert_eq, E. cbn. eexists. split; [done|set_solver].
  - rewrite lookup_insert_ne by done. eauto.
Qed.
Lemma update_owned {V} (d : gmap mkey_t V) trxs key x : owned d trxs -> is_Some (d !! key) -> owned (<[key := x]> d) trxs.
Proof. intros Ho Hs k Hk. apply Ho. destruct (decide (key = k)) as [<- | Hne]; [done|]. by rewrite lookup_insert_ne in Hk by done. Qed.
Lemma finish_owned {V} (d : gmap mkey_t V) trxs key trx keys :
  owned (delete key d) trxs -> trxs !! trx = Some keys -> owned (delete key d) (<[trx := keys ∖ {[key]}]> trxs).
Proof.
  intros Ho Hk k Hs. destruct (decide (key = k)) as [<- | Hne]; [rewrite lookup_delete_eq in Hs; by destruct Hs|].
  destruct (Ho k Hs) as (keys' & E & Hin). destruct (decide (trx = trx_of (mk_q k))) as [-> | Ht].
  - rewrite lookup_insert_eq. eexists. split; [done|]. set_solver.
  - rewrite lookup_insert_ne by done. eauto.
Qed.
Lemma delete_owned {V} (d : gmap mkey_t V) trxs key : owned d trxs -> owned (delete key d) trxs.
Proof. intros Ho k Hs. apply Ho. by apply lookup_delete_is_Some in Hs as [_ Hs]. Qed.

Definition table_owned {T} (s : barrier_state T) : Prop := owned (data_table s) (trx_table s).
(** A message stays at its step or goes on to a barrier. *)
Definition moves (qplan : QueryPlan) (msg msg' : Message) : Prop :=
  qid (meta msg') = qid (meta msg) /\
  (step (meta msg') = step (meta msg) \/ exists e b, expert_at (experts qplan) (step (meta msg)) = Some e /\ step (meta msg') = next_expert e /\
    expert_at (experts qplan) (next_expert e) = Some b /\ IsBarrier b = true).

Lemma message_key m key e : GetMsgInfo m = (key, e) -> mk_q key = qid m.
Proof. unfold GetMsgInfo. destruct (last _); by intros [= <- _]. Qed.
Lemma next_barrier_moves qplan msg msg' : to_next_barrier qplan msg = Some msg' -> moves qplan msg msg'.
Proof.
  unfold to_next_barrier. intros (nb & Hnb & H)%bind_Some. destruct nb; [|injection H as <-; split; [done|by left]].
  apply bind_Some in H as (e & E & H). apply bind_Some in H as (b & Eb & H).
  assert (IsBarrier b = true) as Hb by (unfold is_next_barrier in Hnb; rewrite E in Hnb; cbn in Hnb; rewrite Eb in Hnb; by injection Hnb).
  split; [|right; exists e, b; split_and!; try done]; bind_inv H; by injection H as <-.
Qed.
Lemma barrier_moves {T} (t0 : T) do_work qplan msg s (w : world) s' msg' w' :
  same_header do_work -> barrier_process t0 do_work qplan msg s w = Some (s', msg', w') -> moves qplan msg msg'.
Proof.
  intros Hh. unfold barrier_process. destruct (GetMsgInfo (meta msg)) as [key e] eqn:Ei. destruct (match data_table s !! key with Some d => _ | None => _ end) as [entry trxs].
  intros ([ready c] & _ & H)%bind_Some. apply bind_Some in H as ([[pl m1] w1] & E & H). apply Hh in E. destruct ready.
  - apply bind_Some in H as (m2 & Em & H). injection H as _ <- _. apply next_barrier_moves in Em as [Hq Hs]. unfold moves. rewrite E in Hq, Hs. done.
  - injection H as _ <- _. split; [by rewrite E|left; by rewrite E].
Qed.
Lemma barrier_tidy {T} (t0 : T) do_work qplan msg s (w : world) s' msg' w' :
  same_header do_work -> trxid qplan = trx_of (qid (meta msg)) -> table_owned s ->
  barrier_process t0 do_work qplan msg s w = Some (s', msg', w') -> table_owned s'.
Proof.
  intros Hh Ht Ho. unfold barrier_process. destruct (GetMsgInfo (meta msg)) as [key e] eqn:Ei. apply message_key in Ei.
  set (p := match data_table s !! key with Some d => _ | None => _ end).
  assert (owned (<[key := p.1]> (data_table s)) p.2) as Hp.
  { unfold p. destruct (data_table s !! key) as [d|] eqn:Ed; cbn.
    - apply update_owned; [done|by eexists].
    - apply insert_owned; [done|]. by rewrite Ei. }
  destruct p as [entry trxs]. cbn in Hp. intros ([ready c] & _ & H)%bind_Some. apply bind_Some in H as ([[pl m1] w1] & E & H). apply Hh in E.
  destruct ready; cycle 1.
  { injection H as <- <- <-. unfold table_owned. cbn [data_table trx_table]. intros k Hk. apply Hp.
    destruct (decide (key = k)) as [<- | Hne]; [rewrite lookup_insert_eq; by eexists|]. rewrite lookup_insert_ne in Hk |- * by done. done. }
  apply bind_Some in H as (m2 & Em & H). injection H as <- <- <-. unfold table_owned. cbn [data_table trx_table].
  assert (owned (delete key (data_table s)) trxs) as Hd.
  { intros k Hk. apply lookup_delete_is_Some in Hk as [Hne Hk]. apply Hp. by rewrite lookup_insert_ne. }
  destruct (trxs !! trxid qplan) as [keys|] eqn:Ek; [|done]. by apply finish_owned.
Qed.

(** ** A tidy worker *)

Definition barriers_owned (b : barriers) : Prop :=
  table_owned (b_end b) /\ table_owned (b_aggregate b) /\ table_owned (b_cap b) /\ table_owned (b_count b) /\ table_owned (b_dedup b) /\
  table_owned (b_group b) /\ table_owned (b_order b) /\ table_owned (b_postvalidation b) /\ table_owned (b_range b) /\ table_owned (b_coin b) /\
  table_owned (b_math b).
(** The plans know their transactions. *)
Definition plans_match (l : gmap Z QueryPlan) : Prop := forall q p, l !! q = Some p -> trxid p = trx_of q.
Definition tidy (w : worker) : Prop :=
  sets_fine (wk_node w) /\ barriers_owned (wk_bar w) /\ owned (branch_table (wk_branch w)) (branch_trxs (wk_branch w)) /\ plans_match (wk_logic w).
(** Nothing of a transaction is left. *)
Definition no_entry {T} (trx : Z) (s : barrier_state T) : Prop := forall k, trx_of (mk_q k) = trx -> data_table s !! k = None.
Definition nothing_left (trx : Z) (w : worker) : Prop :=
  let b := wk_bar w in
  (no_entry trx (b_end b) /\ no_entry trx (b_aggregate b) /\ no_entry trx (b_cap b) /\ no_entry trx (b_count b) /\ no_entry trx (b_dedup b) /\
   no_entry trx (b_group b) /\ no_entry trx (b_order b) /\ no_entry trx (b_postvalidation b) /\ no_entry trx (b_range b) /\ no_entry trx (b_coin b) /\
   no_entry trx (b_math b)) /\
  (forall k, trx_of (mk_q k) = trx -> branch_table (wk_branch w) !! k = None) /\
  (forall e s, e <> E_INIT -> validation_data (n_sets (wk_node w) e) !! (trx, s) = None) /\
  process_history (n_store (wk_node w)) !! trx = None /\ dep_map (n_store (wk_node w)) !! trx = None.

Lemma barrier_clean_owned {T} (s : barrier_state T) trx : table_owned s -> table_owned (barrier_clean s trx) /\ no_entry trx (barrier_clean s trx).
Proof.
  intros Ho. unfold barrier_clean. destruct (trx_table s !! trx) as [keys|] eqn:E; [by apply clean_owned|]. split; [done|].
  intros k Hk. destruct (data_table s !! k) eqn:Ed; [|done]. destruct (Ho k ltac:(by eexists)) as (keys & E' & _). congruence.
Qed.
Lemma branch_clean_owned s trx : owned (branch_table s) (branch_trxs s) ->
  owned (branch_table (branch_clean s trx)) (branch_trxs (branch_clean s trx)) /\ forall k, trx_of (mk_q k) = trx -> branch_table (branch_clean s trx) !! k = None.
Proof.
  intros Ho. unfold branch_clean. destruct (branch_trxs s !! trx) as [keys|] eqn:E; [by apply clean_owned|]. split; [done|].
  intros k Hk. destruct (branch_table s !! k) eqn:Ed; [|done]. destruct (Ho k ltac:(by eexists)) as (keys & E' & _). congruence.
Qed.
Lemma delete_sets_gone o trx s : sets_ok o -> validation_data (DeleteInputSet o trx) !! (trx, s) = None.
Proof.
  intros Ho. unfold DeleteInputSet. destruct (trx_to_step_table o !! trx) as [steps|] eqn:E; cbn.
  - rewrite delete_steps_lookup. case_decide as Hd; [done|]. destruct (validation_data o !! (trx, s)) eqn:Ed; [|done].
    apply Ho in Ed as (l & El & Hs). destruct Hd. split; [done|]. congruence.
  - destruct (validation_data o !! (trx, s)) eqn:Ed; [|done]. apply Ho in Ed as (l & El & _). congruence.
Qed.
Lemma clean_sets_lookup trx n e : n_sets (clean_sets trx n) e = if decide (e ∈ cleaned_sets) then DeleteInputSet (n_sets n e) trx else n_sets n e.
Proof. destruct e; reflexivity. Qed.
Lemma clean_sets_fine trx n : sets_fine n -> sets_fine (clean_sets trx n).
Proof.
  intros Hn e. rewrite clean_sets_lookup. destruct (decide _) as [Hin|]; [|apply Hn]. split; [apply (sets_step_ok _ (Forget_trx trx)), Hn|].
  intros Hr. exfalso. revert Hr. unfold recorded. rewrite bool_decide_true; [done|by right].
Qed.
Lemma clean_sets_gone trx n e s : sets_fine n -> e <> E_INIT -> validation_data (n_sets (clean_sets trx n) e) !! (trx, s) = None.
Proof.
  intros Hn He. rewrite clean_sets_lookup. destruct (decide _) as [|Hc]; [by apply delete_sets_gone, Hn|].
  rewrite (proj2 (Hn e)); [apply lookup_empty|]. unfold recorded. apply bool_decide_false. by intros [? | ?]%elem_of_cons.
Qed.
Lemma clean_barriers_owned b trx : barriers_owned b ->
  barriers_owned (clean_barriers b trx) /\ (let b := clean_barriers b trx in
  no_entry trx (b_end b) /\ no_entry trx (b_aggregate b) /\ no_entry trx (b_cap b) /\ no_entry trx (b_count b) /\ no_entry trx (b_dedup b) /\
   no_entry trx (b_group b) /\ no_entry trx (b_order b) /\ no_entry trx (b_postvalidation b) /\ no_entry trx (b_range b) /\ no_entry trx (b_coin b) /\
   no_entry trx (b_math b)).
Proof. intros H. unfold barriers_owned in *. destruct_and! H. split_and!; by apply barrier_clean_owned. Qed.
Lemma plans_delete l q : plans_match l -> plans_match (delete q l).
Proof. intros H q' p [_ E]%lookup_delete_Some. by apply H. Qed.
Lemma plans_erase trx n l : plans_match l -> plans_match (erase_plans trx n l).
Proof. intros H. unfold erase_plans. induction (seq 0 n) as [|i is_ IH]; [done|]. by apply plans_delete. Qed.
Lemma branch_filter_tidy size qplan msg s n s' n' :
  trxid qplan = trx_of (qid (meta msg)) -> owned (branch_table s) (branch_trxs s) -> sets_fine n ->
  BranchFilterExpert_process size qplan msg s n = Some (s', n') -> owned (branch_table s') (branch_trxs s') /\ sets_fine n'.
Proof.
  intros Ht Ho Hn. unfold BranchFilterExpert_process. destruct (msg_type (meta msg)); try done.
  - set (key := mk_mkey _ _ _). intros (e & _ & H)%bind_Some. apply bind_Some in H as (steps & _ & H). apply bind_Some in H as ([msgs a] & _ & H).
    injection H as <- <-. split; [|done]. cbn [branch_table branch_trxs]. destruct (branch_table s !! key) as [x|] eqn:E.
    + apply update_owned; [done|by eexists].
    + by apply insert_owned.
  - destruct (branch_info_of (meta msg)) as [key e]. intros (d & Ed & H)%bind_Some. apply bind_Some in H as ([ready d1] & _ & H).
    apply bind_Some in H as ([d2 n1] & E & H). injection H as <- <-. split.
    + cbn [branch_table branch_trxs]. destruct ready; [by apply delete_owned|apply update_owned; [done|by eexists]].
    + unfold process_branch in E. bind_inv E; by injection E as _ <-.
Qed.

Lemma commit_forgets t ct s x s' : Commit t ct s = Some (x, s') -> process_history s' !! t = None.
Proof.
  unfold Commit, mbind, DS_bind, get. cbn [mbind option_bind]. destruct (process_history s !! t) as [h|] eqn:E; [|by intros [= _ <-]].
  destruct (each_list _ _ _ _) as [[y s1]|]; [|done]. cbn. intros [= _ <-]. apply lookup_delete_eq.
Qed.
Lemma abort_forgets VPR EPR VER BLOCK_SIZE al t s x s' : Abort VPR EPR VER BLOCK_SIZE al t s = Some (x, s') -> process_history s' !! t = None.
Proof.
  unfold Abort, mbind, DS_bind, get. cbn [mbind option_bind]. destruct (process_history s !! t) as [h|] eqn:E; [|by intros [= _ <-]].
  destruct (each_list _ _ _ _) as [[y s1]|]; [|done]. cbn. intros [= _ <-]. apply lookup_delete_eq.
Qed.
Lemma expert_range es i e : expert_at es i = Some e -> 0 <= i < Z.of_nat (length es).
Proof. unfold expert_at, at_int. destruct (Z.ltb_spec i 0); [done|]. intros E%lookup_lt_Some. lia. Qed.

Section Run.
Context {main indirect : nat} `{!TrxTableStub main indirect}.
Context (tables : nat -> TrxTable) (stat : nat -> Z -> TRX_STAT).
Context (VPR EPR VER BLOCK_SIZE : nat) (size rank : Z) (names : name_table) (alloc : Storage -> Alloc).
Context (bucket_order : list Z -> list Z) (uniform : nat -> nat -> double) (statistics : list Z -> worker -> list Z).
Abbreviation process := (process_expert tables stat VPR EPR VER BLOCK_SIZE size rank names alloc bucket_order uniform statistics).
Abbreviation steps_of := (run_steps tables stat VPR EPR VER BLOCK_SIZE size rank names alloc bucket_order uniform statistics).
Abbreviation handled := (handle tables stat VPR EPR VER BLOCK_SIZE size rank names alloc bucket_order uniform statistics).
Abbreviation executed := (execute tables stat VPR EPR VER BLOCK_SIZE size rank names alloc bucket_order uniform statistics).

Lemma run_expert_tidy (m : EX unit) msg w msg' w' :
  keeps m -> tidy w -> run_expert m msg w = Some (msg', w') -> tidy w'.
Proof. intros Hk (Hs & Ht) ([[] n] & E & H)%bind_Some. injection H as <- <-. split; [|exact Ht]. by eapply Hk. Qed.
Lemma run_barrier_tidy {T} (t0 : T) do_work get put qplan msg w msg' w' :
  same_header do_work -> (forall b, barriers_owned b -> table_owned (get b)) -> (forall s b, barriers_owned b -> table_owned s -> barriers_owned (put s b)) ->
  trxid qplan = trx_of (qid (meta msg)) -> tidy w ->
  run_barrier t0 do_work get put qplan msg w = Some (msg', w') -> tidy w'.
Proof.
  intros Hh Hg Hp Ht (Hs & Hb & Hr) ([[s m1] x] & E & H)%bind_Some. injection H as <- <-. apply barrier_tidy in E; [|done|done|by apply Hg].
  split; [done|]. split; [by apply Hp|done].
Qed.
Lemma terminate_tidy qplan msg w msg' w' :
  tidy w -> TerminateExpert_process VPR EPR VER BLOCK_SIZE alloc qplan msg w = Some (msg', w') ->
  tidy w' /\ step (meta msg') = step (meta msg) /\ nothing_left (trxid qplan) w' /\
  wk_logic w' = erase_plans (trxid qplan) (Z.to_nat (Z.land (qid (meta msg)) flag_8L)) (wk_logic w) /\
  exists out, n_sent (wk_node w') = n_sent (wk_node w) ++ [out] /\ msg_type (meta out) = M_EXIT /\
    recver_nid (meta out) = parent_nid (meta msg) /\ recver_tid (meta out) = parent_tid (meta msg) /\ qid (meta out) = qid (meta msg).
Proof.
  intros (Hs & Hb & Hr & Hl) H. apply bind_Some in H as ([text n] & E & H).
  assert (sets_fine n /\ process_history (n_store n) !! trxid qplan = None /\ n_sent n = n_sent (wk_node w)) as (Hn & Hh & Hsent).
  { clear H. destruct (msg_type (meta msg)); try done.
    - apply bind_Some in E as ([[] s] & Es & E). injection E as _ <-. split; [done|]. split; [by eapply abort_forgets|done].
    - bind_inv E. injection E as _ <-. split; [done|]. split; [by eapply commit_forgets|done].
    - apply bind_Some in E as ([[] s] & Es & E). injection E as _ <-. split; [done|]. split; [by eapply abort_forgets|done]. }
  apply bind_Some in H as (agg & _ & H). injection H as <- <-.
  destruct (clean_barriers_owned _ (trxid qplan) Hb) as [Hb1 Hb2]. destruct (branch_clean_owned _ (trxid qplan) Hr) as [Hr1 Hr2].
  split; [|split; [done|split; [|split; [done|]]]].
  - split; [|split; [done|split; [done|by apply plans_erase]]]. intros e. apply (clean_sets_fine (trxid qplan) n Hn e).
  - split; [done|]. split; [done|]. split; [|split].
    + intros e s He. by apply (clean_sets_gone (trxid qplan) n e s).
    + done.
    + apply lookup_delete_eq.
  - eexists. cbn. rewrite Hsent. split_and!; done.
Qed.
#[local] Hint Resolve keeps_has keeps_has_label keeps_is keeps_where keeps_as keeps_select keeps_key keeps_label keeps_properties keeps_values keeps_project
  keeps_traversal keeps_property keeps_add_vertex keeps_add_edge keeps_drop keeps_init keeps_index keeps_branches : keeps.
#[local] Hint Resolve header_end header_aggregate header_cap header_count header_dedup header_group header_order header_range header_coin header_math header_votes : keeps.
Lemma validation_tidy qplan msg w msg' w' : tidy w -> ValidationExpert_process tables stat size qplan msg w = Some (msg', w') -> tidy w'.
Proof. intros (Hs & Ht) H. unfold ValidationExpert_process in H. bind_inv H; injection H as <- <-; (split; [exact Hs|exact Ht]). Qed.
Lemma config_tidy qplan msg w msg' w' : tidy w -> ConfigExpert_process size qplan msg w = Some (msg', w') -> tidy w'.
Proof.
  intros (Hs & Ht) (obj & _ & H)%bind_Some. destruct (params obj) as [|k [|v [|? ?]]]; try done. apply bind_Some in H as (i & _ & H).
  destruct (configure _ _ _ _ _) as [[text c] d]. apply bind_Some in H as ([msgs a] & _ & H). injection H as <- <-. split; [exact Hs|exact Ht].
Qed.
Lemma status_tidy qplan msg w msg' w' : tidy w -> StatusExpert_process size statistics qplan msg w = Some (msg', w') -> tidy w'.
Proof.
  intros (Hs & Ht) (obj & _ & H)%bind_Some. destruct (params obj) as [|k [|? ?]]; try done. apply bind_Some in H as ([msgs a] & _ & H). injection H as <- <-.
  split; [exact Hs|exact Ht].
Qed.
Lemma process_tidy t qplan msg w msg' w' :
  trxid qplan = trx_of (qid (meta msg)) -> tidy w -> process t qplan msg w = Some (msg', w') -> tidy w'.
Proof.
  intros Ht Hw. destruct t; cbn [process_expert];
    lazymatch goal with
    | |- run_expert _ _ _ = _ -> _ => apply run_expert_tidy; [solve [eauto with keeps]|done]
    | |- run_barrier _ _ _ _ _ _ _ = _ -> _ =>
        apply run_barrier_tidy; [solve [eauto with keeps]| | |done|done]; unfold barriers_owned; [intros b; tauto|intros s []; cbn; tauto]
    | |- _ => idtac
    end.
  - intros ([b n] & E & H)%bind_Some. injection H as <- <-. destruct Hw as (Hs & Hb & Hr & Hl). apply branch_filter_tidy in E as [Hr' Hn']; [|done..].
    split; [exact Hn'|]. split; [exact Hb|]. split; [exact Hr'|exact Hl].
  - by apply config_tidy.
  - by apply validation_tidy.
  - intros H. by apply terminate_tidy in H as (H1 & _).
  - by apply status_tidy.
Qed.
Lemma stays qplan msg msg' : meta msg' = meta msg -> moves qplan msg msg'.
Proof. intros H. split; [by rewrite H|left; by rewrite H]. Qed.
Lemma run_barrier_moves {T} (t0 : T) do_work get put qplan msg w msg' w' :
  same_header do_work -> run_barrier t0 do_work get put qplan msg w = Some (msg', w') -> moves qplan msg msg'.
Proof. intros Hh ([[s m1] x] & E & H)%bind_Some. injection H as <- <-. by eapply barrier_moves. Qed.
Lemma run_expert_moves (m : EX unit) qplan msg w msg' w' : run_expert m msg w = Some (msg', w') -> moves qplan msg msg'.
Proof. intros ([? ?] & _ & H)%bind_Some. injection H as <- _. by apply stays. Qed.
Lemma process_moves t qplan msg w msg' w' : process t qplan msg w = Some (msg', w') -> moves qplan msg msg'.
Proof.
  destruct t; cbn [process_expert];
    lazymatch goal with
    | |- run_expert _ _ _ = _ -> _ => apply run_expert_moves
    | |- run_barrier _ _ _ _ _ _ _ = _ -> _ => apply run_barrier_moves; solve [eauto with keeps]
    | |- _ => intros H
    end.
  - apply bind_Some in H as ([b n] & _ & H). injection H as <- _. by apply stays.
  - apply bind_Some in H as (obj & _ & H). destruct (params obj) as [|k [|v [|? ?]]]; try done. apply bind_Some in H as (i & _ & H).
    destruct (configure _ _ _ _ _) as [[text c] d]. apply bind_Some in H as ([msgs a] & _ & H). injection H as <- <-. by apply stays.
  - unfold ValidationExpert_process in H. bind_inv H; injection H as <- <-; by apply stays.
  - apply bind_Some in H as ([text n] & _ & H). apply bind_Some in H as (agg & _ & H). injection H as <- <-. split; [done|by left].
  - apply bind_Some in H as (obj & _ & H). destruct (params obj) as [|k [|? ?]]; try done. apply bind_Some in H as ([msgs a] & _ & H). injection H as <- <-.
    by apply stays.
Qed.

(** ** The steps of one message *)

(** One expert that is followed directly by another one. *)
Definition direct (qplan : QueryPlan) (x y : Message * worker) : Prop :=
  exists e, expert_at (experts qplan) (step (meta x.1)) = Some e /\ process (expert_type e) qplan x.1 x.2 = Some y /\ step (meta y.1) <> step (meta x.1).
(** Barriers come after the experts that lead to them. *)
Definition barriers_forward (qplan : QueryPlan) : Prop :=
  forall i e b, expert_at (experts qplan) i = Some e -> expert_at (experts qplan) (next_expert e) = Some b -> IsBarrier b = true -> i < next_expert e.
Lemma direct_forward qplan x y : barriers_forward qplan -> direct qplan x y -> step (meta x.1) < step (meta y.1).
Proof.
  intros Hf (e & E & Ep & Hne). destruct y as [msg' w']. apply process_moves in Ep as (_ & [Hs | (e' & b & E' & Hs & Eb & Hb)]); [done|].
  cbn. rewrite Hs. by apply (Hf _ e' b).
Qed.
Lemma chain_bound qplan n x y : barriers_forward qplan -> nsteps (direct qplan) n x y -> (n > 0)%nat -> step (meta x.1) + Z.of_nat n <= Z.of_nat (length (experts qplan)).
Proof.
  intros Hf H. induction H as [|n x y z Hxy Hyz IH]; intros Hn; [lia|]. pose proof (direct_forward _ _ _ Hf Hxy). destruct Hxy as (e & E & _).
  apply expert_range in E. destruct n; [lia|]. specialize (IH ltac:(lia)). lia.
Qed.
Lemma fuel_enough qplan f : forall msg w f', barriers_forward qplan ->
  Z.of_nat (length (experts qplan)) - step (meta msg) < Z.of_nat f -> (f <= f')%nat -> steps_of f' qplan msg w = steps_of f qplan msg w.
Proof.
  induction f as [|f IH]; intros msg w f' Hf Hl Hle.
  - destruct f' as [|f']; [done|]. cbn [run_steps]. destruct (expert_at (experts qplan) (step (meta msg))) eqn:E; [|done]. apply expert_range in E. lia.
  - destruct f' as [|f']; [lia|]. cbn [run_steps]. destruct (expert_at (experts qplan) (step (meta msg))) as [e|] eqn:E; [|done]. cbn [mbind option_bind].
    destruct (process (expert_type e) qplan msg w) as [[msg' w']|] eqn:Ep; [|done]. cbn [mbind option_bind]. destruct (Z.eqb_spec (step (meta msg)) (step (meta msg'))); [done|].
    apply IH; [done| |lia]. assert (step (meta msg) < step (meta msg')) as Hlt; [|lia].
    apply (direct_forward qplan (msg, w) (msg', w') Hf). exists e. split_and!; [done|done|cbn; congruence].
Qed.

(** C32: A message is processed in finitely many steps: when every barrier of a plan
    comes after the experts that lead to it, at most as many experts follow each
    other directly as the plan has, and the loop that runs them needs no more
    rounds than that, whatever the experts do. *)
Theorem message_steps_end qplan msg w :
  barriers_forward qplan ->
  (forall n y, nsteps (direct qplan) n (msg, w) y -> (n <= length (experts qplan))%nat) /\
  (forall fuel, 0 <= step (meta msg) -> (S (length (experts qplan)) <= fuel)%nat ->
    steps_of fuel qplan msg w = steps_of (S (length (experts qplan))) qplan msg w).
Proof.
  intros Hf. split.
  - intros n y H. destruct n as [|n]; [lia|]. pose proof (chain_bound qplan (S n) (msg, w) y Hf H ltac:(lia)) as Hb.
    inversion H as [|? ? y' ? (e & E%expert_range & _) ?]; subst. cbn in *. lia.
  - intros fuel Hs Hle. apply fuel_enough; [done|lia|done].
Qed.

(** ** Ending a transaction *)

Lemma steps_tidy qplan fuel : forall msg w last w', trxid qplan = trx_of (qid (meta msg)) -> tidy w -> steps_of fuel qplan msg w = Some (last, w') -> tidy w'.
Proof.
  induction fuel as [|f IH]; intros msg w last w' Ht Hw; [done|]. cbn [run_steps]. intros (e & E & H)%bind_Some. apply bind_Some in H as ([msg1 w1] & Ep & H).
  pose proof (process_tidy _ _ _ _ _ _ Ht Hw Ep) as Hw1. pose proof (process_moves _ _ _ _ _ _ Ep) as [Hq _].
  destruct (_ =? _); [by injection H as <- <-|]. eapply IH, H; [by rewrite Hq|done].
Qed.
(** The plan that a first message brings is of its transaction. *)
Definition brings_plan (msg : Message) : Prop := msg_type (meta msg) = M_INIT -> trxid (Wire.qplan (meta msg)) = trx_of (qid (meta msg)).
Lemma put_logic_tidy l w : plans_match l -> tidy w -> tidy (put_logic l w).
Proof. intros Hl (Hs & Hb & Hr & _). done. Qed.
Lemma put_node_tidy n w : sets_fine n -> tidy w -> tidy (put_node n w).
Proof. intros Hn (_ & Ht). done. Qed.
Lemma handle_tidy msg w w' : brings_plan msg -> tidy w -> handled msg w = Some w' -> tidy w'.
Proof.
  intros Hp Hw H. pose proof Hw as (Hs & Hb & Hr & Hl). unfold handle in H.
  assert (forall m w1, meta m = meta msg \/ meta m = meta (without_plan msg) -> tidy w1 ->
    match wk_logic w1 !! qid (meta msg) with
    | None => Some (send_msg (set_meta m (set_tid (meta msg) (parent_tid (meta msg)))) w1)
    | Some qplan => '(l, w) ← steps_of (S (length (experts qplan))) qplan m w1; e ← expert_at (experts qplan) l;
        Some (if decide (expert_type e = E_TERMINATE) then put_logic (delete (qid (meta msg)) (wk_logic w)) w else w)
    end = Some w' -> tidy w') as Hgo.
  { intros m w1 Hm Hw1 H1. pose proof Hw1 as (Hs1 & _ & _ & Hl1). destruct (wk_logic w1 !! qid (meta msg)) as [qplan|] eqn:E; [|injection H1 as <-; by apply put_node_tidy].
    apply bind_Some in H1 as ([l w2] & E2 & H1). apply bind_Some in H1 as (e & _ & H1). injection H1 as <-.
    assert (tidy w2) as Hw2. { eapply steps_tidy, E2; [|done]. rewrite (Hl1 _ _ E). by destruct Hm as [-> | ->]. }
    destruct (decide _); [|done]. apply put_logic_tidy; [|done]. apply plans_delete, Hw2. }
  destruct (msg_type (meta msg)) eqn:Et; try (eapply Hgo, H; [by left|done]).
  - eapply Hgo, H; [by right|]. apply put_logic_tidy; [|done]. intros q p. destruct (decide (qid (meta msg) = q)) as [<- | Hq].
    + rewrite lookup_insert_eq. intros [= <-]. by apply Hp.
    + rewrite lookup_insert_ne by done. apply Hl.
  - destruct (data msg) as [|p [|? ?]]; try done. injection H as <-. by apply put_node_tidy.
  - destruct (_ =? _).
    + apply bind_Some in H as (p & _ & H). by injection H as <-.
    + by injection H as <-.
  - apply bind_Some in H as (p & _ & H). by injection H as <-.
Qed.
Lemma wait_tidy fuel trx : forall w w', tidy w -> wait_abort stat fuel trx w = Some w' -> tidy w'.
Proof. induction fuel as [|f IH]; intros w w' Hw; [done|]. cbn [wait_abort]. destruct (decide _); [by intros [= <-]|by apply IH]. Qed.
Lemma execute_tidy patience msg w w' : brings_plan msg -> tidy w -> executed patience msg w = Some w' -> tidy w'.
Proof.
  intros Hp Hw. unfold execute. intros (acq & _ & H)%bind_Some. destruct (_ <=? 1); [done|].
  set (chk := negb _ && _ && _) in H. set (w1 := if chk then _ else w) in H. assert (tidy w1) as Hw1 by (unfold w1; by destruct chk).
  destruct (chk && _); [injection H as <-; by apply put_node_tidy; [apply Hw1|]|]. apply bind_Some in H as (w2 & E & H).
  eapply handle_tidy, H; [done|]. destruct acq; [by eapply wait_tidy|by injection E as <-].
Qed.
Fixpoint run_worker (patience : nat) (ms : list Message) (w : worker) : option worker :=
  match ms with [] => Some w | m :: ms' => w ← executed patience m w; run_worker patience ms' w end.
(** A worker without queries. *)
Definition idle (n : node) (c : config) : worker := mk_worker n c no_barriers no_branches ∅ ∅ [] [] 0 0.
Lemma idle_tidy n c : (forall e, n_sets n e = no_sets) -> tidy (idle n c).
Proof.
  intros Hn. assert (forall V, owned (∅ : gmap mkey_t V) ∅) as H0 by (intros V k [x Hx]; by rewrite lookup_empty in Hx).
  split; [|split; [|split; [|intros q p; cbn; by rewrite lookup_empty]]]; [|split_and!; apply H0|apply H0].
  intros e. cbn. rewrite Hn. split; [|done]. intros t s r. cbn. by rewrite lookup_empty.
Qed.
Lemma run_tidy patience ms : forall w w', Forall brings_plan ms -> tidy w -> run_worker patience ms w = Some w' -> tidy w'.
Proof.
  induction ms as [|m ms IH]; intros w w' Hf Hw; cbn [run_worker]; [by intros [= <-]|]. apply Forall_cons in Hf as [Hm Hf].
  intros (w1 & E & H)%bind_Some. eapply IH, H; [done|]. by eapply execute_tidy.
Qed.

(** The plan that a message runs with. *)
Definition plan_of (w : worker) (msg : Message) : option QueryPlan :=
  if decide (msg_type (meta msg) = M_INIT) then Some (Wire.qplan (meta msg)) else wk_logic w !! qid (meta msg).
(** The message is of the last query of its transaction. *)
Definition last_query (msg : Message) : Prop := u8 (qid (meta msg) - trx_of (qid (meta msg))) = query_count_in_trx (meta msg) - 1.
Lemma wait_keeps fuel trx : forall w w', tidy w -> wait_abort stat fuel trx w = Some w' -> tidy w' /\ wk_logic w' = wk_logic w /\ wk_node w' = wk_node w.
Proof.
  induction fuel as [|f IH]; intros w w' Hw; [done|]. cbn [wait_abort]. destruct (decide _); [by intros [= <-]|]. intros H.
  by apply (IH (put_now (S (wk_now w)) w)).
Qed.
Lemma erase_plans_lookup trx n l q : erase_plans trx n l !! q = if decide (q ∈ (fun i => trx +64 Z.of_nat i) <$> seq 0 n) then None else l !! q.
Proof.
  unfold erase_plans. induction (seq 0 n) as [|i is_ IH]; cbn [foldr fmap list_fmap]; [by rewrite decide_False by apply not_elem_of_nil|].
  destruct (decide (trx +64 Z.of_nat i = q)) as [<- | Hq].
  - by rewrite lookup_delete_eq, decide_True by left.
  - rewrite lookup_delete_ne, IH by done. destruct (decide (q ∈ _)) as [Hin|Hin]; [by rewrite decide_True by (by right)|].
    rewrite decide_False; [done|]. intros [-> | ?]%elem_of_cons; done.
Qed.
Lemma query_erased q qid l : 0 <= q < 2 ^ 64 -> 0 <= qid < 2 ^ 64 -> trx_of q = trx_of qid -> q <= qid ->
  delete qid (erase_plans (trx_of qid) (Z.to_nat (Z.land qid flag_8L)) l) !! q = None.
Proof.
  intros Hq Hqid Ht Hle. destruct (decide (q = qid)) as [-> | Hne]; [apply lookup_delete_eq|]. rewrite lookup_delete_ne by done.
  rewrite erase_plans_lookup, decide_True; [done|]. unfold trx_of in *. rewrite !land_flag_56H in *. rewrite !wrap_small in * by (unfold fits; lia).
  change flag_8L with (2 ^ 8 - 1). rewrite land_low_flag by lia. unfold wrap at 2. change (2 ^ 8) with 256. apply list_elem_of_fmap. exists (Z.to_nat (q mod 256)).
  pose proof (Z.mod_pos_bound q 256 ltac:(lia)). pose proof (Z.mod_pos_bound qid 256 ltac:(lia)). split; [|apply elem_of_seq; lia].
  rewrite Z2Nat.id by lia. rewrite wrap_small by (unfold fits; lia). lia.
Qed.
(** The message that ends a transaction, in a tidy worker. *)
Lemma handle_terminate msg w w' plan e :
  brings_plan msg -> tidy w -> msg_type (meta msg) ∈ [M_INIT; M_COMMIT; M_ABORT] ->
  plan_of w msg = Some plan -> expert_at (experts plan) (step (meta msg)) = Some e -> expert_type e = E_TERMINATE -> handled msg w = Some w' ->
  let trx := trx_of (qid (meta msg)) in
  nothing_left trx w' /\ (exists l, wk_logic w' = delete (qid (meta msg)) (erase_plans trx (Z.to_nat (Z.land (qid (meta msg)) flag_8L)) l)) /\
  exists out, n_sent (wk_node w') = n_sent (wk_node w) ++ [out] /\ msg_type (meta out) = M_EXIT /\ qid (meta out) = qid (meta msg) /\
    recver_nid (meta out) = parent_nid (meta msg) /\ recver_tid (meta out) = parent_tid (meta msg).
Proof.
  intros Hp Hw Ht Hplan He Hterm H trx.
  assert (forall m w1, qid (meta m) = qid (meta msg) -> step (meta m) = step (meta msg) -> parent_nid (meta m) = parent_nid (meta msg) ->
    parent_tid (meta m) = parent_tid (meta msg) -> tidy w1 -> wk_node w1 = wk_node w -> wk_logic w1 !! qid (meta msg) = Some plan ->
    ('(l, w) ← steps_of (S (length (experts plan))) plan m w1; e ← expert_at (experts plan) l;
      Some (if decide (expert_type e = E_TERMINATE) then put_logic (delete (qid (meta msg)) (wk_logic w)) w else w)) = Some w' ->
    nothing_left trx w' /\ (exists l, wk_logic w' = delete (qid (meta msg)) (erase_plans trx (Z.to_nat (Z.land (qid (meta msg)) flag_8L)) l)) /\
    exists out, n_sent (wk_node w') = n_sent (wk_node w) ++ [out] /\ msg_type (meta out) = M_EXIT /\ qid (meta out) = qid (meta msg) /\
      recver_nid (meta out) = parent_nid (meta msg) /\ recver_tid (meta out) = parent_tid (meta msg)) as Hgo.
  { intros m w1 Eq Es En Eti Hw1 Ew Hl H1. cbn [run_steps] in H1. rewrite Es, He in H1. cbn [mbind option_bind] in H1. rewrite Hterm in H1. cbn [process_expert] in H1.
    destruct (TerminateExpert_process _ _ _ _ _ _ _ _) as [[m2 w2]|] eqn:Et; [|done]. cbn [mbind option_bind] in H1.
    pose proof (proj2 (proj2 (proj2 Hw1)) _ _ Hl) as Htrx. apply terminate_tidy in Et as (_ & Hs2 & Hgone & Hlog & out & O1 & O2 & O3 & O4 & O5); [|done].
    rewrite Hs2, Es, Z.eqb_refl in H1. cbn [mbind option_bind] in H1. rewrite He in H1. cbn [mbind option_bind] in H1. rewrite decide_True in H1 by done.
    injection H1 as <-. rewrite Htrx in *. split; [exact Hgone|]. split; [exists (wk_logic w1); cbn; by rewrite Hlog, Eq|].
    exists out. cbn. rewrite O1, Ew. split_and!; congruence. }
  unfold plan_of in Hplan. unfold handle in H. destruct (msg_type (meta msg)) eqn:Et; set_unfold in Ht; try (exfalso; intuition congruence).
  - injection Hplan as <-. rewrite bool_decide_true in H by done. cbn [wk_logic put_logic] in H. rewrite lookup_insert_eq in H. eapply Hgo, H; try done; [|apply lookup_insert_eq].
    apply put_logic_tidy; [|done]. intros q p. destruct (decide (qid (meta msg) = q)) as [<- | Hq].
    + rewrite lookup_insert_eq. intros [= <-]. by apply Hp.
    + rewrite lookup_insert_ne by done. apply Hw.
  - rewrite decide_False in Hplan by done. rewrite bool_decide_false in H by done. rewrite Hplan in H. by eapply Hgo, H.
  - rewrite decide_False in Hplan by done. rewrite bool_decide_false in H by done. rewrite Hplan in H. by eapply Hgo, H.
Qed.

(** C9: An ended transaction leaves nothing behind.  After any run of a worker, when
    the message that ends a transaction is processed, with a commit or an abort in
    whatever phase, none of the barrier experts and no filter of sub queries has an
    entry of any query of the transaction, no recorded input of its reads except of
    the first step, no history and no dependency is left, all plans up to the last query are gone, and
    the client's worker gets the message that it counts. *)
Theorem ended_transaction_leaves_nothing patience ms msg n c w w' plan e :
  (forall e, n_sets n e = no_sets) -> Forall brings_plan (ms ++ [msg]) -> run_worker patience ms (idle n c) = Some w ->
  msg_type (meta msg) ∈ [M_INIT; M_COMMIT; M_ABORT] -> last_query msg -> 0 <= qid (meta msg) < 2 ^ 64 ->
  plan_of w msg = Some plan -> expert_at (experts plan) (step (meta msg)) = Some e -> expert_type e = E_TERMINATE ->
  executed patience msg w = Some w' ->
  let trx := trx_of (qid (meta msg)) in
  nothing_left trx w' /\ (forall q, 0 <= q < 2 ^ 64 -> trx_of q = trx -> q <= qid (meta msg) -> wk_logic w' !! q = None) /\
  exists out, n_sent (wk_node w') = n_sent (wk_node w) ++ [out] /\ msg_type (meta out) = M_EXIT /\ qid (meta out) = qid (meta msg) /\
    recver_nid (meta out) = parent_nid (meta msg) /\ recver_tid (meta out) = parent_tid (meta msg).
Proof.
  intros Hn Hf Hr Ht Hlast Hq Hplan He Hterm H trx. apply Forall_app in Hf as [Hf [Hm _]%Forall_cons].
  pose proof (run_tidy _ _ _ _ Hf (idle_tidy n c Hn) Hr) as Hw. unfold execute in H. apply bind_Some in H as (acq & _ & H).
  destruct (_ <=? 1); [done|]. rewrite Hlast, Z.eqb_refl in H. cbn [negb andb] in H. apply bind_Some in H as (w2 & E2 & H).
  assert (tidy w2 /\ wk_logic w2 = wk_logic w /\ wk_node w2 = wk_node w) as (Hw2 & El2 & En2) by (destruct acq; [by eapply wait_keeps|by injection E2 as <-]).
  apply (handle_terminate msg w2 w' plan e) in H; [|done|done|done| |done|done].
  2: { unfold plan_of in *. by rewrite El2. }
  rewrite En2 in H. destruct H as (H1 & (l & Hl) & H3). split; [done|]. split; [|done]. intros q Hq1 Htq Hle. rewrite Hl. by apply query_erased.
Qed.

(** ** Collecting the ends of a transaction *)

Lemma process_exits t qplan msg w msg' w' : process t qplan msg w = Some (msg', w') -> wk_exits w' = wk_exits w.
Proof.
  destruct t; cbn [process_expert];
    lazymatch goal with
    | |- run_expert _ _ _ = _ -> _ => intros ([? ?] & _ & H)%bind_Some; by injection H as _ <-
    | |- run_barrier _ _ _ _ _ _ _ = _ -> _ => intros ([[? ?] ?] & _ & H)%bind_Some; by injection H as _ <-
    | |- _ => intros H
    end.
  - apply bind_Some in H as ([b n] & _ & H). by injection H as _ <-.
  - apply bind_Some in H as (obj & _ & H). destruct (params obj) as [|k [|v [|? ?]]]; try done. apply bind_Some in H as (i & _ & H).
    destruct (configure _ _ _ _ _) as [[text c] d]. apply bind_Some in H as ([msgs a] & _ & H). by injection H as <- <-.
  - unfold ValidationExpert_process in H. bind_inv H; by injection H as <- <-.
  - apply bind_Some in H as ([text n] & _ & H). apply bind_Some in H as (agg & _ & H). by injection H as <- <-.
  - apply bind_Some in H as (obj & _ & H). destruct (params obj) as [|k [|? ?]]; try done. apply bind_Some in H as ([msgs a] & _ & H). by injection H as <- <-.
Qed.
Lemma steps_exits qplan fuel : forall msg w l w', steps_of fuel qplan msg w = Some (l, w') -> wk_exits w' = wk_exits w.
Proof.
  induction fuel as [|f IH]; intros msg w l w'; [done|]. cbn [run_steps]. intros (e & E & H)%bind_Some. apply bind_Some in H as ([msg1 w1] & Ep & H).
  apply process_exits in Ep. destruct (_ =? _); [by injection H as <- <-|]. rewrite <- Ep. by eapply IH.
Qed.
Lemma wait_exits fuel trx : forall w w', wait_abort stat fuel trx w = Some w' -> wk_exits w' = wk_exits w /\ wk_replies w' = wk_replies w.
Proof.
  induction fuel as [|f IH]; intros w w'; [done|]. cbn [wait_abort]. destruct (decide _); [by intros [= <-]|]. intros H.
  by apply (IH (put_now (S (wk_now w)) w)).
Qed.
Lemma handle_exits msg w w' : handled msg w = Some w' -> msg_type (meta msg) <> M_EXIT -> wk_exits w' = wk_exits w.
Proof.
  intros H Ht. unfold handle in H.
  assert (forall m w1, wk_exits w1 = wk_exits w ->
    match wk_logic w1 !! qid (meta msg) with
    | None => Some (send_msg (set_meta m (set_tid (meta msg) (parent_tid (meta msg)))) w1)
    | Some qplan => '(l, w) ← steps_of (S (length (experts qplan))) qplan m w1; e ← expert_at (experts qplan) l;
        Some (if decide (expert_type e = E_TERMINATE) then put_logic (delete (qid (meta msg)) (wk_logic w)) w else w)
    end = Some w' -> wk_exits w' = wk_exits w) as Hgo.
  { intros m w1 <- H1. destruct (wk_logic w1 !! qid (meta msg)) as [qplan|]; [|by injection H1 as <-].
    apply bind_Some in H1 as ([l w2] & E2 & H1). apply bind_Some in H1 as (e & _ & H1). injection H1 as <-. apply steps_exits in E2. by destruct (decide _). }
  destruct (msg_type (meta msg)); try done; try (by eapply Hgo, H).
  - destruct (data msg) as [|p [|? ?]]; try done. by injection H as <-.
  - apply bind_Some in H as (p & _ & H). by injection H as <-.
Qed.
(** The number of ends that have arrived for a query. *)
Definition exits_of (q : Z) (ms : list Message) : nat := length (filter (fun m => msg_type (meta m) = M_EXIT /\ qid (meta m) = q) ms).
Lemma exits_of_snoc q ms m : exits_of q (ms ++ [m]) = (exits_of q ms + if decide (msg_type (meta m) = M_EXIT /\ qid (meta m) = q) then 1 else 0)%nat.
Proof.
  unfold exits_of. rewrite filter_app, length_app. f_equal. rewrite filter_cons, filter_nil. by destruct (decide _).
Qed.
(** One message in terms of the counters. *)
Lemma execute_exits patience msg w w' :
  (msg_type (meta msg) = M_EXIT -> last_query msg) -> executed patience msg w = Some w' ->
  if decide (msg_type (meta msg) = M_EXIT) then
    let c := default 0 (wk_exits w !! qid (meta msg)) + 1 in
    if c =? size then exists p, data msg !! 0%nat = Some p /\ wk_exits w' = delete (qid (meta msg)) (wk_exits w) /\ wk_replies w' = wk_replies w ++ [(qid (meta msg), p.2, RESULT_NORMAL)]
    else wk_exits w' = <[qid (meta msg) := c]> (wk_exits w) /\ wk_replies w' = wk_replies w
  else wk_exits w' = wk_exits w.
Proof.
  intros Hl. unfold execute. intros (acq & Ea & H)%bind_Some. destruct (_ <=? 1); [done|]. destruct (decide _) as [Ht|Ht].
  - rewrite (Hl Ht), Z.eqb_refl in H. cbn [negb andb] in H. unfold starts_abort in Ea. rewrite decide_False in Ea by congruence. injection Ea as <-.
    cbn [mbind option_bind] in H. unfold handle in H. rewrite Ht in H. cbv zeta. destruct (_ =? size).
    + apply bind_Some in H as (p & Hd & H). injection H as <-. by exists p.
    + by injection H as <-.
  - set (chk := negb _ && _ && _) in H. set (w1 := if chk then _ else w) in H. assert (wk_exits w1 = wk_exits w) as E1 by (unfold w1; by destruct chk).
    destruct (chk && _); [by injection H as <-|]. apply bind_Some in H as (w2 & E & H). apply handle_exits in H; [|done]. rewrite H.
    destruct acq; [apply wait_exits in E as [E _]; congruence|by injection E as <-].
Qed.
Lemma run_worker_app patience a b w : run_worker patience (a ++ b) w = w ← run_worker patience a w; run_worker patience b w.
Proof.
  revert w. induction a as [|m a IH]; intros w; [done|]. cbn. destruct (executed patience m w) as [w1|]; [|done]. cbn. apply IH.
Qed.
Lemma exit_counts patience ms n c : forall w,
  1 <= size -> Forall (fun m => msg_type (meta m) = M_EXIT -> last_query m) ms -> run_worker patience ms (idle n c) = Some w ->
  forall q, default 0 (wk_exits w !! q) = Z.of_nat (exits_of q ms) mod size.
Proof.
  induction ms as [|m ms IH] using rev_ind; intros w Hs Hf H q; [injection H as <-; cbn; rewrite lookup_empty; by rewrite Zmod_0_l|].
  rewrite run_worker_app in H. destruct (run_worker patience ms (idle n c)) as [w1|] eqn:E1; [|done]. cbn in H. apply bind_Some in H as (w2 & E & H).
  injection H as <-. apply Forall_app in Hf as [Hf [Hm _]%Forall_cons]. specialize (IH w1 Hs Hf eq_refl). apply execute_exits in E; [|done].
  rewrite exits_of_snoc, Nat2Z.inj_add. destruct (decide (msg_type (meta m) = M_EXIT)) as [Ht|Ht].
  2: { rewrite decide_False by tauto. rewrite E, IH. by rewrite Z.add_0_r. }
  pose proof (IH (qid (meta m))) as IHm. pose proof (Z.mod_pos_bound (Z.of_nat (exits_of (qid (meta m)) ms)) size ltac:(lia)) as Hb.
  assert ((Z.of_nat (exits_of (qid (meta m)) ms) + 1) mod size = if default 0 (wk_exits w1 !! qid (meta m)) + 1 =? size then 0 else default 0 (wk_exits w1 !! qid (meta m)) + 1) as Hmod.
  { rewrite IHm, <- Zplus_mod_idemp_l. destruct (Z.eqb_spec (Z.of_nat (exits_of (qid (meta m)) ms) mod size + 1) size) as [-> | Hne]; [apply Z_mod_same_full|].
    apply Z.mod_small. lia. }
  destruct (decide (qid (meta m) = q)) as [<- | Hq]; [rewrite decide_True by done|rewrite decide_False by tauto].
  - change (Z.of_nat 1) with 1. rewrite Hmod. cbv zeta in E. destruct (_ =? size).
    + destruct E as (p & _ & -> & _). by rewrite lookup_delete_eq.
    + destruct E as [-> _]. by rewrite lookup_insert_eq.
  - rewrite Z.add_0_r, <- IH. cbv zeta in E. destruct (_ =? size).
    + destruct E as (p & _ & -> & _). by rewrite lookup_delete_ne.
    + destruct E as [-> _]. by rewrite lookup_insert_ne.
Qed.

(** C13: The client gets its answer exactly when the last worker has ended the
    transaction: in any run of the worker that the client is connected to, mixed
    with any other messages, the end message of a query is answered if it is the
    last one of a round of as many as there are workers, and only counted
    otherwise; the counter starts again after an answer. *)
Theorem exits_collected patience ms msg n c w w' :
  1 <= size -> Forall (fun m => msg_type (meta m) = M_EXIT -> last_query m) (ms ++ [msg]) -> run_worker patience ms (idle n c) = Some w ->
  msg_type (meta msg) = M_EXIT -> executed patience msg w = Some w' ->
  if decide ((Z.of_nat (exits_of (qid (meta msg)) ms) + 1) mod size = 0) then
    exists p, data msg !! 0%nat = Some p /\ wk_replies w' = wk_replies w ++ [(qid (meta msg), p.2, RESULT_NORMAL)] /\ wk_exits w' !! qid (meta msg) = None
  else wk_replies w' = wk_replies w /\ wk_exits w' !! qid (meta msg) = Some (Z.of_nat (exits_of (qid (meta msg)) ms) mod size + 1).
Proof.
  intros Hs Hf H Ht E. apply Forall_app in Hf as [Hf [Hm _]%Forall_cons]. pose proof (exit_counts patience ms n c w Hs Hf H (qid (meta msg))) as Hc.
  apply execute_exits in E; [|done]. rewrite decide_True in E by done. cbv zeta in E. rewrite Hc in E.
  pose proof (Z.mod_pos_bound (Z.of_nat (exits_of (qid (meta msg)) ms)) size ltac:(lia)) as Hb. rewrite <- Zplus_mod_idemp_l.
  destruct (Z.eqb_spec (Z.of_nat (exits_of (qid (meta msg)) ms) mod size + 1) size) as [He|Hne].
  - rewrite He, Z_mod_same_full, decide_True by done. destruct E as (p & Hd & -> & ->). exists p. split_and!; [done|done|]. apply lookup_delete_eq.
  - rewrite Z.mod_small, decide_False by lia. destruct E as [-> ->]. split; [done|]. apply lookup_insert_eq.
Qed.
End Run.

(** ** Example *)

(** The first of two messages of a count arrives; then the transaction is
    aborted. *)
Definition wk_trx : Z := 256.
Definition wk_count : Message :=
  mk_msg (mk_meta 256 1 2 M_INIT 0 1 0 1 (to_string_int 2) []
    (mk_plan 0 [mk_expert E_INIT 0 1 false []; mk_expert E_COUNT 1 2 false []; mk_expert E_END 2 3 false []] true 0 wk_trx 0)) [([], [rt_int 3])] 1048576 8.
Definition wk_end : Message :=
  mk_msg (mk_meta 257 0 2 M_INIT 0 1 0 1 (to_string_int 1) [] (mk_plan 1 [mk_expert E_TERMINATE 0 1 false []] false 0 wk_trx 0)) [] 1048576 8.
Definition wk_exit : Message := mk_msg (mk_meta 257 0 2 M_EXIT 0 1 0 1 (to_string_int 1) [] plan_default) [([], [rt_int 1])] 1048576 8.
Definition wk_stat (i : nat) (_ : Z) : TRX_STAT := if (i <? 2)%nat then VALIDATING else ABORT.
Definition wk_config : config := mk_config false false false false false 1048576 SERIALIZABLE true true 0.
Abbreviation wk_execute := (@execute 2 2 (RDMATrxTableStub 0 3 2 2) (fun _ => example_table) wk_stat 2 2 2 2 2 0 (fun _ => ∅) next_alloc (fun l => l)
  (fun _ _ => double_of_bits 0) (fun _ _ => [])).
Abbreviation wk_run := (@run_worker 2 2 (RDMATrxTableStub 0 3 2 2) (fun _ => example_table) wk_stat 2 2 2 2 2 0 (fun _ => ∅) next_alloc (fun l => l)
  (fun _ _ => double_of_bits 0) (fun _ _ => [])).
Definition wk_idle : worker := idle bf_node wk_config.
Definition wk_after_count : worker := default wk_idle (wk_run 5 [wk_count] wk_idle).
Definition wk_after_end : worker := default wk_idle (wk_execute 5 wk_end wk_after_count).
Lemma wk_runs : wk_run 5 [wk_count] wk_idle = Some wk_after_count /\ wk_execute 5 wk_end wk_after_count = Some wk_after_end /\
  is_Some (data_table (b_count (wk_bar wk_after_count)) !! mk_mkey 256 0 0).
Proof. vm_compute. split_and!; (reflexivity || by eexists). Qed.
Lemma ended_transaction_leaves_nothing_witness :
  nothing_left wk_trx wk_after_end /\ wk_logic wk_after_end !! 256 = None /\ exists out, n_sent (wk_node wk_after_end) = n_sent (wk_node wk_after_count) ++ [out].
Proof.
  destruct wk_runs as (H1 & H2 & _).
  destruct (@ended_transaction_leaves_nothing 2 2 (RDMATrxTableStub 0 3 2 2) (fun _ => example_table) wk_stat 2 2 2 2 2 0 (fun _ => ∅) next_alloc (fun l => l)
    (fun _ _ => double_of_bits 0) (fun _ _ => []) 5 [wk_count] wk_end bf_node wk_config wk_after_count wk_after_end (Wire.qplan (meta wk_end))
    (mk_expert E_TERMINATE 0 1 false [])) as (A & B & out & C & _).
  - done.
  - repeat constructor; intros _; reflexivity.
  - exact H1.
  - left.
  - reflexivity.
  - cbn. lia.
  - reflexivity.
  - reflexivity.
  - reflexivity.
  - exact H2.
  - split; [exact A|]. split; [apply B; [lia|reflexivity|cbn; lia]|]. exists out. exact C.
Defined.

Definition wk_after_exit : worker := default wk_idle (wk_run 5 [wk_exit] wk_idle).
Definition wk_after_exits : worker := default wk_idle (wk_execute 5 wk_exit wk_after_exit).
Lemma wk_exit_runs : wk_run 5 [wk_exit] wk_idle = Some wk_after_exit /\ wk_execute 5 wk_exit wk_after_exit = Some wk_after_exits.
Proof. vm_compute. by split. Qed.
Lemma exits_collected_witness : exists p : pair_t, wk_replies wk_after_exits = wk_replies wk_after_exit ++ [(257, p.2, RESULT_NORMAL)].
Proof.
  destruct wk_exit_runs as [H1 H2].
  destruct (@exits_collected 2 2 (RDMATrxTableStub 0 3 2 2) (fun _ => example_table) wk_stat 2 2 2 2 2 0 (fun _ => ∅) next_alloc (fun l => l)
    (fun _ _ => double_of_bits 0) (fun _ _ => []) 5 [wk_exit] wk_exit bf_node wk_config wk_after_exit wk_after_exits) as (p & _ & H & _).
  - lia.
  - repeat constructor; intros _; reflexivity.
  - exact H1.
  - reflexivity.
  - exact H2.
  - exists p. exact H.
Defined.

Lemma wk_forward : barriers_forward (Wire.qplan (meta wk_count)).
Proof.
  intros i e b E Eb Hb. pose proof (expert_range _ _ _ E) as Hi. cbn in Hi. assert (i = 0 \/ i = 1 \/ i = 2) as [-> | [-> | ->]] by lia;
    cbn in E; injection E as <-; cbn; lia.
Qed.
Lemma message_steps_end_witness :
  ~ exists y, nsteps (@direct 2 2 (RDMATrxTableStub 0 3 2 2) (fun _ => example_table) wk_stat 2 2 2 2 2 0 (fun _ => ∅) next_alloc (fun l => l)
    (fun _ _ => double_of_bits 0) (fun _ _ => []) (Wire.qplan (meta wk_count))) 4 (wk_count, wk_idle) y.
Proof.
  destruct (@message_steps_end 2 2 (RDMATrxTableStub 0 3 2 2) (fun _ => example_table) wk_stat 2 2 2 2 2 0 (fun _ => ∅) next_alloc (fun l => l)
    (fun _ _ => double_of_bits 0) (fun _ _ => []) (Wire.qplan (meta wk_count)) wk_count wk_idle wk_forward) as [H _]. intros [y Hy]. apply H in Hy. cbn in Hy. lia.
Defined.
